(* ===== verification/_CoqProject ===== *)
-Q . S2P
Prelude.v
Encoding.v
JsMap.v
Utf8.v
MsgPack.v
MsgPackSpec.v
Packet.v
Crypto.v
Identity.v
Ifac.v
Framing.v
Router.v
Interface.v
Channel.v
ChannelSpec.v
Buffer.v
Link.v
LinkHandshake.v
LinkTraffic.v
LinkLife.v
Receipt.v
Destination.v
DestinationSpec.v
Transport.v
TransportSpec.v
Delivery.v
Stamper.v
Sorting.v
MessageStore.v
LxmfMessage.v
LxmfMessageSpec.v
AnnounceData.v
PropagationNode.v
Peer.v
LxmfInbox.v
LxmfRouter.v
LxmfSend.v
PropagationSpec.v
InboxSpec.v
PropagationLife.v
SyncSpec.v
MeshSpec.v
StoreForward.v
Resource.v
Transfers.v
ResourceWire.v
ResourceSpec.v
TransferSpec.v
TransferLife.v
TransferStall.v
TransferSplit.v
RfedChannel.v
RfedQueue.v
RfedBlobs.v
RfedFed.v
RfedTables.v
RfedClient.v
RfedNode.v
RfedNodeSpec.v
RfedRequests.v
RfedReplication.v
JsString.v
GitPkt.v
GitInflate.v
GitInflateSpec.v
GitPack.v
GitPackSpec.v
GitBundle.v
GitProtocol.v
GitTransport.v
GitTransportSpec.v
GitRemote.v
