(* ===== verification/Prelude.v ===== *)
(** * reticulum-js: a verification library

    reticulum-js is a JavaScript implementation of the Reticulum network stack:
    cryptographic identities and destinations, packets over radio and stream
    interfaces, paths learned from announces, encrypted links with requests and
    channels, and applications on top.  This library models the protocol core of
    packages/core/src/, the messaging application of packages/lxmf/src/ and the
    channel federation of packages/rfed/src/, and proves what makes them
    correct.

    ** How the files follow the code

    Wire and data formats
    - [Prelude]: results of calls that can throw, bytes, integers, tactics.
    - [Encoding] (utils/encoding.js), [JsMap] (the [Map] and [Set] of the
      language), [Utf8] (TextEncoder / TextDecoder), [MsgPack] and
      [MsgPackSpec] (utils/msgpack.js).
    - [Packet] (core/packet.js): record, serializer, parser, hash; [relayed]
      says that a node down a path parsed the frame of a packet.
    - [Framing] (transport/hdlc-framer.js, transport/kiss-framer.js).

    Keys
    - [Crypto] (crypto/*.js) over the class [WebCrypto] of platform primitives,
      [Identity] (core/identity.js), [Ifac] (core/ifac.js).

    One node
    - [Interface] (interfaces/base.js), [Router] (transport/router.js),
      [Receipt] (core/packet_receipt.js), [Destination] and [DestinationSpec]
      (core/destination.js), [Transport] and [TransportSpec]
      (transport/transport.js).

    Links
    - [Channel], [ChannelSpec] (transport/channel.js), [Buffer]
      (transport/buffer.js), [Link] (transport/link.js) with its proofs in
      [LinkHandshake], [LinkTraffic] and [LinkLife].

    Two nodes
    - [Delivery]: an announce, a message and its proof across transports.

    Resource transfers
    - [Resource] (core/resource.js, core/resource_advertisement.js): the object
      and its methods; [Transfers]: the transfers of a link (the resource side
      of transport/link.js); [ResourceWire], [ResourceSpec]: the messages, one
      transfer step by step and the network of two peers; [TransferSpec],
      [TransferLife], [TransferStall], [TransferSplit]: completion, what is
      accepted, stalls, segments.

    LXMF
    - [Stamper] (utils/stamper.js of the core, stamper.js), [Sorting]
      ([Array.sort]), [LxmfMessage] and [LxmfMessageSpec] (message.js,
      propagation.js), [AnnounceData] (announce_data.js).
    - A node: [MessageStore] (message_store.js), [PropagationNode]
      (propagation_node.js), [Peer] (peer.js) and [LxmfRouter] (the node's half
      of router.js), with what they guarantee in [PropagationSpec],
      [PropagationLife], [SyncSpec] and [MeshSpec].
    - A client: [LxmfSend] and [LxmfInbox] (the two directions of router.js),
      with [InboxSpec]; [StoreForward] joins a sender, a node and a recipient.

    RFed, channels served by a federation of nodes
    - [RfedChannel] (constants.js, channel.js, stamp.js, blob.js): channel keys,
      stamps, the posts and their wire forms.
    - What a node keeps: [RfedQueue] (deferred_queue.js), [RfedBlobs]
      (blob_store.js, sync.js), [RfedFed] (fed_sync.js), [RfedTables]
      (subscription.js, notify.js).
    - [RfedClient] (client.js) and [RfedNode] (node.js): the two parties;
      [RfedNodeSpec], [RfedRequests] and [RfedReplication] hold what they
      guarantee together.

    rngit, the git remote over Reticulum
    - [GitInflate] and [GitPack] (pack.js): the zlib decoder, packs, deltas and
      their resolution; [GitInflateSpec] holds the format of RFC 1950/1951,
      [GitPackSpec] what packs and deltas are read as.
    - [GitPkt] (pktline.js), [GitBundle] (bundle.js), [GitProtocol] (url.js,
      protocol.js, the operations of client.js as trees of requests) and
      [GitTransport] (transport.js, the http plugin); [GitTransportSpec] reads
      requests and responses back, [GitRemote] composes them all.  [JsString]
      has the string methods they use.

    The parts meet as in the code: [Transport] routes a parsed [Packet] to
    [Destination.receive], to a receipt or to a link; [Destination] and [Link]
    return packets for the transport as events; [Channel] hands raw envelopes
    to its outlet, which is a link; the framers call the IFAC hooks of
    [Interface].

    ** Conventions

    A class with mutable fields is a [Record]; a method takes the record and
    returns the new one, with the list of events it causes outside (packets
    written, callbacks, application events) and a [result] when it can throw;
    the methods of [Resource] and the handlers of [Transfers] run in small
    state monads.  Objects that several parties hold (packet receipts, the
    packet handles of a channel's outlet, the resources of a link) live in a
    heap and are named by their index.  The
    clock, random bytes, generated keys and what a storage adapter or the
    application returns are arguments.  Times are integers of milliseconds
    ([Interface]: microseconds), in LXMF and RFed rational seconds; divisions that the
    code makes with doubles are rationals.  Byte values are [Z] and the bit operations are those of
    JavaScript on 32-bit integers ([Prelude.int32]).

    An asynchronous handler is one step.  Where an interleaving at an [await]
    changes the behaviour, the step is cut there: sends of a channel
    ([Channel.send_begin], [send_done]), the check of a proof
    ([Receipt.proof_begin], [proof_end]), an announce between signing and its
    broadcast ([Destination.emit_begin], [emit_end]), the handling of a received
    announce ([Transport.announce_open] to [ingest]), the assembly of a transfer
    ([Resource.assemble_start], [assemble_resume]), the batches a propagation
    node ingests ([PropagationNode.enter], [after_decrypt], [after_filter]), a
    sync with a peer ([Peer], [MeshSpec.sync_do]), the processing of an inbound
    message ([LxmfInbox.after_recall]), a subscription
    ([RfedTables.subscribe_begin], [subscribe_end]) and the other handlers of a
    federation node ([RfedNodeSpec.node_op]).  A handler as one step is then a
    run of these pieces with nothing in between.  Elsewhere what an await yields is an argument of the
    step: whether the i-th send of a federation node resolves ([sent]), what a
    backup or a peer answers ([request], [offer], [fetch]); two nodes are joined
    by passing the handler of one as the oracle of the other.

    ** Parameters and hypotheses

    [Crypto.WebCrypto] is the platform's cryptography; [WebCryptoLaws] states
    what the program relies on it for: lengths, Diffie-Hellman agreement,
    decryption inverts encryption, a signature made with a key verifies, and
    two signatures or hashes are compared as bytes.  No theorem uses an
    unforgeability assumption: authenticity theorems say which bytes were
    verified under which key.  [MsgPack.JsHost] converts map keys that are
    objects with a replaced prototype.  [Crypto.Toy] and [MsgPackSpec.Host] are
    instances with the laws, and the witnesses run on them.

    ** What the theorems show

    - Round trips and one reading of each frame: [Packet], [Framing],
      [MsgPackSpec], [Encoding], [Ifac], [Crypto], [Identity], the stream
      frames of [Buffer], the persisted ratchet ring ([DestinationSpec]).
    - Authenticity: announces ([Identity]), learned keys over whole runs
      ([TransportSpec.known_keys_pinned]: announced under a signature, or given
      by the application), link establishment ([LinkHandshake]), delivery
      receipts ([Receipt]), received transfers ([TransferLife]).
    - End-to-end function: [Delivery] (announce, message, proof),
      [LinkHandshake.handshake_agreement], [LinkTraffic] (data, requests),
      [ChannelSpec.channel_fifo] (a refinement of a FIFO queue over a lossy,
      reordering and duplicating network, while no old copy outlives its
      numbers), [Buffer.stream_transfer],
      [TransferSpec.transfer_completes] (a resource is delivered whatever the
      order of its messages), [StoreForward.store_and_forward] (a message from
      its sender over a node to its recipient), [SyncSpec.sync_converges].
    - Messages: both layouts, the propagation and paper forms and their
      containers read back ([LxmfMessageSpec]); what is dispatched verifies
      under its sender's identity, and once ([InboxSpec]).
    - A propagation node: only one's own messages are listed or purged
      ([PropagationSpec]); what is stored is validly stamped and is processed
      once under any interleaving ([PropagationLife]); every message of a batch
      that did not throw is queued for every peer, and the peer table keeps to
      its cap ([MeshSpec]).
    - A federation node: an accepted publish is kept, goes to every subscription
      up to the first send that fails, and reaches the reader's application byte
      for byte ([RfedNodeSpec.publish_reaches],
      [RfedRequests.publish_end_to_end]), only signed requests change anything
      ([RfedRequests]), and nodes replicate their blobs and hand their
      subscribers over within their limits ([RfedReplication]).
    - The git remote: every zlib stream of the format is decoded to its bytes
      ([GitInflateSpec.inflate_correct]), deltas are applied and thin packs
      made self-contained ([GitPackSpec]), bundles and URLs read back, and a
      fetch and a push go through the bridge from git's request to what git's
      client reads ([GitRemote]).
    - Invariants of reachable states and settlement: flow control, requests
      and receipts settle, closing releases everything, the path table, the
      ingress windows, the sweep.
    - Behaviour where the code departs from its comments: theorems named in
      the findings, e.g. [Receipt.receipt_race],
      [Delivery.held_announce_extra_hops], [ChannelSpec.channel_stale_after_wrap],
      [RfedNodeSpec.drain_loses], [TransferLife.cancelled_completes],
      [MeshSpec.thrown_batch_unqueued], [GitPackSpec.later_base_refused].

    ** Fuel

    Recursions that are not structural take fuel and the theorems say it is
    enough: the decoder's is the length of its buffer and the depth limit 128
    ([MsgPackSpec.msgpack_decode_total]), the HKDF loop's the number of blocks,
    the drain of a receive ring's its length, the microtask queue of
    [Transfers] the number of waiters it can serve
    ([TransferLife.drain_enough]).  The inflater's rounds are at most the bits
    of its buffer on a stream of the format; on a truncated one no fuel is
    enough ([GitInflateSpec.truncated_never_ends]), nor on a request line with
    a negative length ([GitTransportSpec.signed_length_never_ends]).  The search for a stamp draws from a list of
    random stamps: it ends at the first valid one, and a list without one is
    the search that goes on.  [Buffer.send_loop] and the
    reconnect loop of [Interface] need not end in the code; their theorems say
    when they do.

    ** Not modelled

    Browser and Node platform objects (streams, sockets, serial ports,
    WebRTC), storage adapters, logging and statistics.  In transport.js
    [recallOrSolicitIdentity] (a race of promises over announce events).  Of
    LXMF, the wiring of the router to destinations, timers and links, and the
    persistence of stamps and tickets.  Of RFed, the wiring in start and stop
    (destinations, request handlers, listeners), the client's [listen], and the
    two flags that make overlapping passes skip.  Interface discovery
    (transport/discovery.js), which turns announces into configurations of the
    platform interfaces, and those interfaces.  Of rngit, connecting the client
    (announce recall, link, identify), progress reports, and the commands that
    hand the transport to the third-party git implementation. *)

From Stdlib Require Export ZArith Lia String.
From stdpp Require Export base list gmap numbers strings.

#[global] Open Scope Z_scope.

(** ** Bytes

    A [Uint8Array] is a list of integers; [is_byte] is the range every element
    of a real typed array satisfies. *)
Abbreviation bytes := (list Z).

Definition is_byte (b : Z) : Prop := 0 <= b < 256.

Definition wf_bytes (l : bytes) : Prop := Forall is_byte l.

#[global] Instance is_byte_dec b : Decision (is_byte b).
Proof. unfold is_byte. apply _. Defined.

#[global] Instance wf_bytes_dec l : Decision (wf_bytes l).
Proof. unfold wf_bytes. apply _. Defined.

(** [l.length] as a JavaScript number. *)
Definition zlen {A} (l : list A) : Z := Z.of_nat (length l).

(** [l.slice(a, b)] / [l.subarray(a, b)] for non-negative offsets: both ends
    are clamped to the length, as JavaScript does. *)
Definition slice {A} (a b : nat) (l : list A) : list A := take (b - a) (drop a l).

(** [l.slice(a)] / [l.subarray(a)]. *)
Definition slice_from {A} (a : nat) (l : list A) : list A := drop a l.

(** [l[i]] where the code has checked (or relies on) the index being in range;
    [0] stands for the coercion of [undefined] in a bit operation. *)
Definition byte_at (i : nat) (l : bytes) : Z := nth i l 0.

#[global] Arguments slice {A} a b l : simpl never.
#[global] Arguments slice_from {A} a l : simpl never.
#[global] Arguments zlen {A} l : simpl never.

(** ** JavaScript 32-bit integer operators

    The operators [|], [&], [^], [<<] and [>>] convert their operands to signed
    32-bit integers first. *)
Definition int32 (z : Z) : Z := (z + 2 ^ 31) mod 2 ^ 32 - 2 ^ 31.
Definition js_or (a b : Z) : Z := Z.lor (int32 a) (int32 b).
Definition js_and (a b : Z) : Z := Z.land (int32 a) (int32 b).
Definition js_xor (a b : Z) : Z := Z.lxor (int32 a) (int32 b).
Definition js_shl (a k : Z) : Z := int32 (Z.shiftl (int32 a) k).
Definition js_shr (a k : Z) : Z := Z.shiftr (int32 a) k.

(** ** Exceptions

    A function of the program that can throw returns a [result]; the error
    carries its JavaScript class and the constant part of its message. *)
Inductive error : Type :=
| JsError (msg : string)
| TypeError (msg : string)
| RangeError (msg : string).

#[global] Instance error_eq_dec : EqDecision error.
Proof. solve_decision. Defined.

Inductive result (A : Type) : Type :=
| Ok (a : A)
| Throw (e : error).
Arguments Ok {A} a.
Arguments Throw {A} e.

Definition rbind {A B} (m : result A) (k : A -> result B) : result B :=
  match m with Ok a => k a | Throw e => Throw e end.

Definition is_ok {A} (m : result A) : bool :=
  match m with Ok _ => true | Throw _ => false end.

Declare Scope js_scope.
Delimit Scope js_scope with js.
Notation "'let!' x := m 'in' k" := (rbind m (fun x => k))
  (at level 10, x pattern, m at level 100, k at level 200) : js_scope.
#[global] Open Scope js_scope.

Lemma rbind_ok {A B} (m : result A) (k : A -> result B) b :
  rbind m k = Ok b -> exists a, m = Ok a /\ k a = Ok b.
Proof. destruct m; simpl; [eauto | discriminate]. Qed.

(** The bz2 module that an application injects. *)
Record Bz2 := mkBz2 {
  compress : bytes -> result bytes;
  decompress : bytes -> nat -> result bytes;
}.

(** ** Tactics *)

(** Case analysis on the scrutinee of a match or an if in the goal. *)
Ltac case_goal :=
  match goal with
  | |- context [match ?x with _ => _ end] => destruct x eqn:?
  end.

(** Case analysis on the scrutinee of a match or an if in a hypothesis. *)
Ltac case_hyp H :=
  match type of H with
  | context [match ?x with _ => _ end] => destruct x eqn:?
  end.

(** Turn boolean comparisons of the context into arithmetic. *)
Ltac bools :=
  repeat match goal with
  | H : (_ && _)%bool = true |- _ => apply andb_prop in H; destruct H
  | H : (_ || _)%bool = false |- _ => apply orb_false_elim in H; destruct H
  | H : negb _ = true |- _ => apply negb_true_iff in H
  | H : negb _ = false |- _ => apply negb_false_iff in H
  | H : Z.eqb _ _ = true |- _ => apply Z.eqb_eq in H
  | H : Z.eqb _ _ = false |- _ => apply Z.eqb_neq in H
  | H : Z.leb _ _ = true |- _ => apply Z.leb_le in H
  | H : Z.leb _ _ = false |- _ => apply Z.leb_gt in H
  | H : Z.ltb _ _ = true |- _ => apply Z.ltb_lt in H
  | H : Z.ltb _ _ = false |- _ => apply Z.ltb_ge in H
  | H : Nat.eqb _ _ = true |- _ => apply Nat.eqb_eq in H
  | H : Nat.eqb _ _ = false |- _ => apply Nat.eqb_neq in H
  | H : Nat.leb _ _ = true |- _ => apply Nat.leb_le in H
  | H : Nat.leb _ _ = false |- _ => apply Nat.leb_gt in H
  | H : Nat.ltb _ _ = true |- _ => apply Nat.ltb_lt in H
  | H : Nat.ltb _ _ = false |- _ => apply Nat.ltb_ge in H
  | H : bool_decide _ = true |- _ => apply bool_decide_eq_true in H
  | H : bool_decide _ = false |- _ => apply bool_decide_eq_false in H
  end.

(** Linear arithmetic after making div and mod by constants explicit. *)
Ltac dmlia := Z.div_mod_to_equations; lia.

(** ** Hints *)

Create HintDb ret.
Create Rewrite HintDb ret.

(** ** Bytes: generic lemmas *)

Lemma wf_bytes_nil : wf_bytes [].
Proof. constructor. Qed.

Lemma wf_bytes_cons b l : is_byte b -> wf_bytes l -> wf_bytes (b :: l).
Proof. by constructor. Qed.

Lemma wf_bytes_app l1 l2 : wf_bytes l1 -> wf_bytes l2 -> wf_bytes (l1 ++ l2).
Proof. intros. by apply Forall_app. Qed.

Lemma wf_bytes_app_inv l1 l2 : wf_bytes (l1 ++ l2) -> wf_bytes l1 /\ wf_bytes l2.
Proof. apply Forall_app. Qed.

Lemma wf_bytes_take n l : wf_bytes l -> wf_bytes (take n l).
Proof. intros H. by apply Forall_take. Qed.

Lemma wf_bytes_drop n l : wf_bytes l -> wf_bytes (drop n l).
Proof. intros H. by apply Forall_drop. Qed.

Lemma wf_bytes_slice a b l : wf_bytes l -> wf_bytes (slice a b l).
Proof. intros H. unfold slice. by apply wf_bytes_take, wf_bytes_drop. Qed.

Lemma wf_bytes_replicate n b : is_byte b -> wf_bytes (replicate n b).
Proof. intros H. by apply Forall_replicate. Qed.

#[export] Hint Resolve wf_bytes_nil wf_bytes_cons wf_bytes_app wf_bytes_take
  wf_bytes_drop wf_bytes_slice wf_bytes_replicate : ret.

Lemma zlen_nonneg {A} (l : list A) : 0 <= zlen l.
Proof. unfold zlen. lia. Qed.

Lemma zlen_app {A} (l1 l2 : list A) : zlen (l1 ++ l2) = zlen l1 + zlen l2.
Proof. unfold zlen. rewrite length_app. lia. Qed.

Lemma zlen_cons {A} (x : A) l : zlen (x :: l) = 1 + zlen l.
Proof. unfold zlen. simpl length. lia. Qed.

Lemma zlen_nil {A} : zlen (@nil A) = 0.
Proof. reflexivity. Qed.

Lemma length_slice {A} a b (l : list A) :
  (length (slice a b l) = Nat.min (b - a) (length l - a))%nat.
Proof. unfold slice. rewrite length_take, length_drop. lia. Qed.

Lemma slice_app_here {A} a b (l1 l2 l3 : list A) :
  length l1 = a -> (length l1 + length l2 = b)%nat ->
  slice a b (l1 ++ l2 ++ l3) = l2.
Proof.
  intros <- <-. unfold slice. rewrite drop_app_length.
  replace (length l1 + length l2 - length l1)%nat with (length l2) by lia.
  apply take_app_length.
Qed.

Lemma slice_cons {A} a b (x : A) l : slice (S a) (S b) (x :: l) = slice a b l.
Proof. reflexivity. Qed.

Lemma slice_app_skip {A} n a b (l1 l2 : list A) : length l1 = n ->
  slice (n + a) (n + b) (l1 ++ l2) = slice a b l2.
Proof.
  intros <-. unfold slice. rewrite drop_app_ge by lia.
  replace (length l1 + b - (length l1 + a))%nat with (b - a)%nat by lia.
  by replace (length l1 + a - length l1)%nat with a by lia.
Qed.

Lemma slice_app_take {A} n (l1 l2 : list A) : length l1 = n -> slice 0 n (l1 ++ l2) = l1.
Proof. intros <-. unfold slice. rewrite Nat.sub_0_r, drop_0. apply take_app_length. Qed.

Lemma byte_at_cons i x l : byte_at (S i) (x :: l) = byte_at i l.
Proof. reflexivity. Qed.

Lemma byte_at_app n k l1 l2 : length l1 = n -> byte_at (n + k) (l1 ++ l2) = byte_at k l2.
Proof.
  intros <-. unfold byte_at. rewrite app_nth2 by lia. f_equal. lia.
Qed.

Lemma drop_app_skip {A} n k (l1 l2 : list A) : length l1 = n ->
  drop (n + k) (l1 ++ l2) = drop k l2.
Proof. intros <-. rewrite drop_app_ge by lia. f_equal. lia. Qed.

Lemma slice_take_drop {A} a b (l : list A) :
  (a <= b)%nat -> slice a b l ++ drop b l = drop a l.
Proof.
  intros Hab. unfold slice. rewrite <- (take_drop (b - a) (drop a l)) at 2.
  by rewrite drop_drop, Nat.add_sub_assoc, Nat.add_comm, Nat.add_sub by lia.
Qed.

(** Equality tests on byte strings, [diff |= a[i] ^ b[i]]. *)
Lemma lor_eq_0 a b : 0 <= a -> 0 <= b -> Z.lor a b = 0 <-> a = 0 /\ b = 0.
Proof. intros _ _. apply Z.lor_eq_0_iff. Qed.

(** ** Masks and shifts as arithmetic *)

Lemma land_mask z n : 0 <= n -> Z.land z (2 ^ n - 1) = z mod 2 ^ n.
Proof. intros. rewrite <- Z.land_ones by lia. f_equal. rewrite Z.ones_equiv. lia. Qed.

Lemma int32_small z : - 2 ^ 31 <= z < 2 ^ 31 -> int32 z = z.
Proof. intros. unfold int32. rewrite Z.mod_small; lia. Qed.

Lemma int32_byte b : is_byte b -> int32 b = b.
Proof. unfold is_byte. intros. apply int32_small. lia. Qed.

Lemma int32_mod z k : 0 <= k <= 32 -> int32 z mod 2 ^ k = z mod 2 ^ k.
Proof.
  intros Hk. unfold int32.
  assert (Hd : (2 ^ k | 2 ^ 32)).
  { exists (2 ^ (32 - k)). rewrite <- Z.pow_add_r by lia. f_equal. lia. }
  assert (0 < 2 ^ k) by (apply Z.pow_pos_nonneg; lia).
  rewrite Zminus_mod, Z.mod_mod_divide, <- Zminus_mod by done. f_equal. lia.
Qed.

(** A shift followed by a mask selects bits below bit 32. *)
Lemma js_and_mask x n : 0 <= n <= 31 -> js_and x (2 ^ n - 1) = x mod 2 ^ n.
Proof.
  intros Hn. unfold js_and. assert (0 < 2 ^ n <= 2 ^ 31) by (split; [lia|apply Z.pow_le_mono_r; lia]).
  rewrite (int32_small (2 ^ n - 1)) by lia. rewrite land_mask by lia. apply int32_mod. lia.
Qed.

Lemma js_shr_land z k n :
  0 <= k -> 0 <= n -> k + n <= 32 ->
  Z.land (js_shr z k) (2 ^ n - 1) = (z / 2 ^ k) mod 2 ^ n.
Proof.
  intros. unfold js_shr. rewrite land_mask, Z.shiftr_div_pow2 by lia.
  assert (Hdm : forall x, (x / 2 ^ k) mod 2 ^ n = (x mod 2 ^ (k + n)) / 2 ^ k).
  { intros x. rewrite <- !Z.land_ones, <- !Z.shiftr_div_pow2 by lia.
    apply Z.bits_inj'. intros i Hi. rewrite Z.land_spec, !Z.shiftr_spec, Z.land_spec by lia.
    f_equal. rewrite !Z.testbit_ones by lia. f_equal; apply eq_true_iff_eq;
      rewrite ?Z.leb_le, ?Z.ltb_lt; lia. }
  rewrite !Hdm, int32_mod by lia. done.
Qed.

(** Disjoint [lor] is addition. *)
Lemma lor_add_pow2 a b n : 0 <= n -> 0 <= b < 2 ^ n ->
  Z.lor (a * 2 ^ n) b = a * 2 ^ n + b.
Proof.
  intros Hn Hb. symmetry. apply Z.add_nocarry_lor.
  apply Z.bits_inj'. intros i Hi. rewrite Z.land_spec, Z.bits_0.
  destruct (Z_lt_le_dec i n).
  - rewrite Z.mul_pow2_bits_low by lia. done.
  - rewrite <- (Z.mod_small b (2 ^ n)) by lia.
    rewrite Z.mod_pow2_bits_high by lia. apply andb_false_r.
Qed.

Lemma lor_shiftl_add a b n : 0 <= n -> 0 <= b < 2 ^ n ->
  Z.lor (Z.shiftl a n) b = a * 2 ^ n + b.
Proof. intros. rewrite Z.shiftl_mul_pow2 by lia. by apply lor_add_pow2. Qed.

(** ** Big-endian integers ([DataView] accessors with [littleEndian = false]) *)

Fixpoint be_bytes (n : nat) (v : Z) : bytes :=
  match n with
  | O => []
  | S n => be_bytes n (v / 256) ++ [v mod 256]
  end.

Definition be_uint (l : bytes) : Z := fold_left (fun acc b => acc * 256 + b) l 0.

Lemma length_be_bytes n v : length (be_bytes n v) = n.
Proof. revert v. induction n; intros; simpl; [done|]. rewrite length_app, IHn. simpl. lia. Qed.

Lemma wf_be_bytes n v : wf_bytes (be_bytes n v).
Proof.
  revert v. induction n as [|n IH]; intros v; simpl; auto with ret.
  apply wf_bytes_app; [apply IH|]. repeat constructor; apply Z.mod_pos_bound; lia.
Qed.

Lemma be_uint_snoc l b : be_uint (l ++ [b]) = be_uint l * 256 + b.
Proof. unfold be_uint. by rewrite fold_left_app. Qed.

Lemma be_uint_be_bytes n v : be_uint (be_bytes n v) = v mod 256 ^ Z.of_nat n.
Proof.
  revert v. induction n as [|n IH]; intros v.
  - simpl. by rewrite Z.mod_1_r.
  - cbn [be_bytes]. rewrite be_uint_snoc, IH, Nat2Z.inj_succ, Z.pow_succ_r by lia.
    rewrite Z.mul_comm. symmetry. rewrite Z.add_comm. rewrite Z.rem_mul_r by lia. lia.
Qed.

Lemma be_uint_bound l : wf_bytes l -> 0 <= be_uint l < 256 ^ zlen l.
Proof.
  unfold zlen. induction l as [|b l IH] using rev_ind; intros Hwf; [done|].
  apply wf_bytes_app_inv in Hwf as [Hl Hb]. inv Hb. unfold is_byte in *.
  rewrite be_uint_snoc, length_app, Nat2Z.inj_add, Z.pow_add_r by lia.
  specialize (IH Hl). change (256 ^ Z.of_nat (length [b])) with 256. lia.
Qed.

Lemma be_bytes_be_uint l : wf_bytes l -> be_bytes (length l) (be_uint l) = l.
Proof.
  induction l as [|b l IH] using rev_ind; intros Hwf; [done|].
  apply wf_bytes_app_inv in Hwf as [Hl Hb]. inv Hb. unfold is_byte in *.
  rewrite length_app, Nat.add_comm. simpl. rewrite be_uint_snoc.
  rewrite Z.div_add_l by lia. rewrite Z.div_small, Z.add_0_r by lia.
  rewrite IH by done. f_equal. f_equal.
  rewrite Z.add_comm, Z.mod_add, Z.mod_small; lia.
Qed.

#[export] Hint Resolve wf_be_bytes : ret.
