(* ===== verification/Encoding.v ===== *)
(** * Encoding: hexadecimal and base64 codecs (packages/core/src/utils/encoding.js)

    JavaScript strings are lists of UTF-16 code units ([jsstr]).  The file
    models [toHex], [fromHex], [bytesEqual], [concatBytes] and the base64
    family, and proves the round trips.  [toHex] is the key function of every
    map of the program that is indexed by a hash. *)

From S2P Require Import Prelude.

(** A JavaScript string: its UTF-16 code units. *)
Abbreviation jsstr := (list Z).

(** The code units of an ASCII literal. *)
Definition lit (s : string) : jsstr :=
  map (fun a => Z.of_nat (Ascii.nat_of_ascii a)) (String.list_ascii_of_string s).

(** ** Hexadecimal *)

Definition hex_digit (d : Z) : Z := if d <? 10 then 48 + d else 87 + d.

(** [b.toString(16).padStart(2, "0")] for one byte. *)
Definition hex_byte (b : Z) : jsstr :=
  let s := if b <? 16 then [hex_digit b] else [hex_digit (b / 16); hex_digit (b mod 16)] in
  replicate (2 - length s) 48 ++ s.

Definition toHex (b : bytes) : jsstr := concat (map hex_byte b).

(** The class [\s] of a JavaScript regular expression. *)
Definition is_space (c : Z) : bool :=
  ((9 <=? c) && (c <=? 13)) || (c =? 32) || (c =? 160) || (c =? 5760)
  || ((8192 <=? c) && (c <=? 8202)) || (c =? 8232) || (c =? 8233) || (c =? 8239)
  || (c =? 8287) || (c =? 12288) || (c =? 65279).

Definition hex_val (c : Z) : option Z :=
  if (48 <=? c) && (c <=? 57) then Some (c - 48)
  else if (97 <=? c) && (c <=? 102) then Some (c - 87)
  else if (65 <=? c) && (c <=? 70) then Some (c - 55)
  else None.

Fixpoint hex_prefix (acc : option Z) (s : jsstr) : option Z :=
  match s with
  | [] => acc
  | c :: s' =>
      match hex_val c with
      | Some d => hex_prefix (Some (default 0 acc * 16 + d)) s'
      | None => acc
      end
  end.

(** [parseInt(s, 16)] on a string without white space; [None] is [NaN]. *)
Definition parse_int16 (s : jsstr) : option Z :=
  let '(sign, s) := match s with
                    | 43 :: s' => (1, s')
                    | 45 :: s' => (-1, s')
                    | _ => (1, s)
                    end in
  let s := match s with
           | 48 :: 120 :: s' => s'
           | 48 :: 88 :: s' => s'
           | _ => s
           end in
  option_map (Z.mul sign) (hex_prefix None s).

(** The loop over two-character chunks; the store into a [Uint8Array] turns
    [NaN] into 0 and reduces modulo 256. *)
Fixpoint from_hex_chunks (s : jsstr) : bytes :=
  match s with
  | a :: b :: s' => default 0 (parse_int16 [a; b]) mod 256 :: from_hex_chunks s'
  | _ => []
  end.

Definition fromHex (hexString : jsstr) : result bytes :=
  let cleanHex := filter (fun c => ~ (is_space c || (c =? 45) = true)) hexString in
  if negb (zlen cleanHex mod 2 =? 0)
  then Throw (JsError "Hex string must have an even number of characters")
  else Ok (from_hex_chunks cleanHex).

(** ** Byte strings *)

(** The accumulator loop [diff |= a[i] ^ b[i]]. *)
Fixpoint xor_diff (diff : Z) (a b : bytes) : Z :=
  match a, b with
  | x :: a', y :: b' => xor_diff (Z.lor diff (Z.lxor x y)) a' b'
  | _, _ => diff
  end.

Definition bytesEqual (a b : bytes) : bool :=
  if negb (length a =? length b)%nat then false else xor_diff 0 a b =? 0.

Definition concatBytes (arrays : list bytes) : bytes := concat arrays.

(** ** Base64 *)

Definition b64_chars : jsstr :=
  lit "ABCDEFGHIJKLMNOPQRSTUVWXYZabcdefghijklmnopqrstuvwxyz0123456789+/".

Definition b64_char (i : Z) : Z := byte_at (Z.to_nat i) b64_chars.

Definition sextet (n k : Z) : Z := b64_char (Z.land (Z.shiftr n k) 63).

Fixpoint bytesToBase64 (b : bytes) : jsstr :=
  match b with
  | b0 :: b1 :: b2 :: rest =>
      let n := Z.lor (Z.lor (Z.shiftl b0 16) (Z.shiftl b1 8)) b2 in
      [sextet n 18; sextet n 12; sextet n 6; sextet n 0] ++ bytesToBase64 rest
  | [b0; b1] =>
      let n := Z.lor (Z.shiftl b0 16) (Z.shiftl b1 8) in
      [sextet n 18; sextet n 12; sextet n 6] ++ lit "="
  | [b0] =>
      let n := Z.shiftl b0 16 in
      [sextet n 18; sextet n 12] ++ lit "=="
  | [] => []
  end.

(** Index of the first occurrence, for the table built by [B64_DEC]. *)
Fixpoint index_of (c : Z) (i : Z) (s : jsstr) : Z :=
  match s with
  | [] => -1
  | x :: s' => if x =? c then i else index_of c (i + 1) s'
  end.

(** [B64_DEC[c]]: the table has 128 entries, [-1] where no character of either
    alphabet is.  Beyond the table the lookup is [undefined], which the bit
    operations read as 0 and which differs from [-1]. *)
Definition B64_DEC (c : Z) : Z :=
  if 128 <=? c then 0
  else if c =? 45 then 62
  else if c =? 95 then 63
  else index_of c 0 b64_chars.

Definition b64_third (c : Z) : Z := if c =? 61 then -1 else B64_DEC c.

Fixpoint b64_groups (s : jsstr) : bytes :=
  match s with
  | s0 :: s1 :: s2 :: s3 :: rest =>
      let c0 := B64_DEC s0 in
      let c1 := B64_DEC s1 in
      let c2 := b64_third s2 in
      let c3 := b64_third s3 in
      let n := Z.lor (Z.lor (Z.lor (Z.shiftl c0 18) (Z.shiftl c1 12))
                        (Z.shiftl (Z.land c2 63) 6)) (Z.land c3 63) in
      Z.land (Z.shiftr n 16) 255
        :: (if negb (c2 =? -1) then [Z.land (Z.shiftr n 8) 255] else [])
        ++ (if negb (c3 =? -1) then [Z.land n 255] else [])
        ++ b64_groups rest
  | _ => []
  end.

(** [s.replace(/=+$/, "")]. *)
Definition strip_pad (s : jsstr) : jsstr :=
  reverse ((fix go l := match l with 61 :: l' => go l' | _ => l end) (reverse s)).

Definition replace_char (a b : Z) (s : jsstr) : jsstr :=
  map (fun c => if c =? a then b else c) s.

Definition base64ToBytes (str : jsstr) : bytes :=
  let s := strip_pad (replace_char 95 47 (replace_char 45 43 str)) in
  let pad := (4 - zlen s mod 4) mod 4 in
  b64_groups (s ++ replicate (Z.to_nat pad) 61).

Definition bytesToBase64Url (b : bytes) : jsstr :=
  strip_pad (replace_char 47 95 (replace_char 43 45 (bytesToBase64 b))).

Definition base64UrlToBytes (str : jsstr) : bytes := base64ToBytes str.

(** ** Lemmas: hexadecimal *)

(** Exhaustive check of a property of bytes. *)
Lemma byte_forall (P : Z -> bool) :
  forallb P (map Z.of_nat (seq 0 256)) = true -> forall b, is_byte b -> P b = true.
Proof.
  intros H b Hb. rewrite forallb_forall in H. apply H. apply in_map_iff.
  exists (Z.to_nat b). unfold is_byte in Hb. rewrite in_seq. lia.
Qed.

Lemma hex_byte_parse b : is_byte b ->
  exists x y, hex_byte b = [x; y] /\ parse_int16 [x; y] = Some b
    /\ is_space x || (x =? 45) = false /\ is_space y || (y =? 45) = false.
Proof.
  intros Hb.
  pose proof (byte_forall (fun b => match hex_byte b with
    | [x; y] => (default (-1) (parse_int16 [x; y]) =? b) && (b <? 256)
        && negb (is_space x || (x =? 45)) && negb (is_space y || (y =? 45))
    | _ => false end) ltac:(vm_compute; reflexivity) b Hb) as H.
  cbv beta in H. destruct (hex_byte b) as [|x [|y [|]]]; try discriminate.
  bools. exists x, y. unfold is_byte in Hb.
  destruct (parse_int16 [x; y]); simpl in *; [subst | lia].
  repeat split.
  all: apply orb_false_intro; [done | by apply Z.eqb_neq].
Qed.

Lemma from_hex_chunks_toHex b : wf_bytes b -> from_hex_chunks (toHex b) = b.
Proof.
  induction 1 as [|x l Hx Hl IH]; [done|].
  unfold toHex. simpl. destruct (hex_byte_parse x Hx) as (u & v & -> & Hp & _ & _).
  cbn [from_hex_chunks app]. rewrite Hp. fold (toHex l). rewrite IH. simpl.
  unfold is_byte in Hx. rewrite Z.mod_small by lia. done.
Qed.

Lemma toHex_clean b : wf_bytes b ->
  filter (fun c => ~ (is_space c || (c =? 45) = true)) (toHex b) = toHex b
  /\ length (toHex b) = (2 * length b)%nat.
Proof.
  induction 1 as [|x l Hx Hl [IHf IHl]]; [done|].
  unfold toHex. simpl. destruct (hex_byte_parse x Hx) as (u & v & -> & _ & Hu & Hv).
  cbn [app]. rewrite !filter_cons_True by (rewrite ?Hu, ?Hv; done).
  fold (toHex l). rewrite IHf. simpl. split; [done|lia].
Qed.

Lemma toHex_inj a b : wf_bytes a -> wf_bytes b -> toHex a = toHex b -> a = b.
Proof.
  intros Ha Hb E. rewrite <- (from_hex_chunks_toHex a Ha), <- (from_hex_chunks_toHex b Hb).
  by rewrite E.
Qed.

Lemma fromHex_toHex b : wf_bytes b -> fromHex (toHex b) = Ok b.
Proof.
  intros H. destruct (toHex_clean b H) as [Hf Hl]. unfold fromHex. cbv zeta. rewrite Hf.
  unfold zlen. rewrite Hl.
  rewrite Nat2Z.inj_mul, Z.mul_comm, Z.mod_mul by done. simpl.
  by rewrite from_hex_chunks_toHex.
Qed.

(** ** Lemmas: equality of byte strings *)

Lemma xor_diff_zero a b d : length a = length b ->
  xor_diff d a b = 0 <-> d = 0 /\ a = b.
Proof.
  revert b d. induction a as [|x a IH]; intros [|y b] d; simpl; try discriminate.
  - intros _. tauto.
  - intros [= Hl]. rewrite IH by done. rewrite Z.lor_eq_0_iff, Z.lxor_eq_0_iff.
    naive_solver.
Qed.

Lemma bytesEqual_spec a b : bytesEqual a b = true <-> a = b.
Proof.
  unfold bytesEqual. destruct (length a =? length b)%nat eqn:E; bools; simpl.
  - rewrite Z.eqb_eq, xor_diff_zero by done. tauto.
  - split; [discriminate | by intros ->].
Qed.

Lemma bytesEqual_refl a : bytesEqual a a = true.
Proof. by apply bytesEqual_spec. Qed.

Lemma bytesEqual_decide a b : bytesEqual a b = bool_decide (a = b).
Proof. apply eq_true_iff_eq. by rewrite bytesEqual_spec, bool_decide_eq_true. Qed.

Lemma bytesEqual_false a b : bytesEqual a b = false <-> a <> b.
Proof. rewrite <- not_true_iff_false. by rewrite bytesEqual_spec. Qed.

#[export] Hint Rewrite bytesEqual_refl : ret.

(** ** Lemmas: base64 *)

Lemma sextet_forall (P : Z -> bool) :
  forallb P (map Z.of_nat (seq 0 64)) = true -> forall i, 0 <= i < 64 -> P i = true.
Proof.
  intros H i Hi. rewrite forallb_forall in H. apply H. apply in_map_iff.
  exists (Z.to_nat i). rewrite in_seq. lia.
Qed.

(** The decoder undoes one alphabet character, also after it was mapped to the
    URL-safe alphabet and back. *)
Lemma b64_char_dec i : 0 <= i < 64 ->
  B64_DEC (b64_char i) = i /\ b64_third (b64_char i) = i /\ b64_char i <> 61
  /\ (if (if b64_char i =? 43 then 45 else b64_char i) =? 47 then 95
      else if b64_char i =? 43 then 45 else b64_char i) <> 61.
Proof.
  intros Hi.
  pose proof (sextet_forall (fun i => (B64_DEC (b64_char i) =? i)
    && (b64_third (b64_char i) =? i) && negb (b64_char i =? 61)
    && negb ((if (if b64_char i =? 43 then 45 else b64_char i) =? 47 then 95
      else if b64_char i =? 43 then 45 else b64_char i) =? 61))
    ltac:(vm_compute; reflexivity) i Hi) as H.
  cbv beta in H. bools. auto.
Qed.

Lemma sextet_eq n k : 0 <= k -> sextet n k = b64_char ((n / 2 ^ k) mod 64).
Proof.
  intros. unfold sextet. rewrite (land_mask _ 6), Z.shiftr_div_pow2 by lia. done.
Qed.

Lemma word3_add b0 b1 b2 : is_byte b0 -> is_byte b1 -> is_byte b2 ->
  Z.lor (Z.lor (Z.shiftl b0 16) (Z.shiftl b1 8)) b2 = b0 * 65536 + b1 * 256 + b2.
Proof.
  unfold is_byte. intros.
  rewrite !Z.shiftl_mul_pow2 by lia.
  rewrite (lor_add_pow2 b0 (b1 * 2 ^ 8) 16) by lia.
  replace (b0 * 2 ^ 16 + b1 * 2 ^ 8) with ((b0 * 256 + b1) * 2 ^ 8) by lia.
  rewrite lor_add_pow2 by lia. lia.
Qed.

Lemma word4_add c0 c1 c2 c3 :
  0 <= c0 < 64 -> 0 <= c1 < 64 -> 0 <= c2 < 64 -> 0 <= c3 < 64 ->
  Z.lor (Z.lor (Z.lor (Z.shiftl c0 18) (Z.shiftl c1 12)) (Z.shiftl (Z.land c2 63) 6))
    (Z.land c3 63) = c0 * 262144 + c1 * 4096 + c2 * 64 + c3.
Proof.
  intros. rewrite !(land_mask _ 6), !(Z.mod_small _ (2 ^ 6)) by lia.
  rewrite !Z.shiftl_mul_pow2 by lia.
  rewrite (lor_add_pow2 c0 (c1 * 2 ^ 12) 18) by lia.
  replace (c0 * 2 ^ 18 + c1 * 2 ^ 12) with ((c0 * 64 + c1) * 2 ^ 12) by lia.
  rewrite (lor_add_pow2 _ (c2 * 2 ^ 6) 12) by lia.
  replace ((c0 * 64 + c1) * 2 ^ 12 + c2 * 2 ^ 6) with ((c0 * 4096 + c1 * 64 + c2) * 2 ^ 6) by lia.
  rewrite lor_add_pow2 by lia. lia.
Qed.

Lemma bits16_8 n k : 0 <= k -> Z.land (Z.shiftr n k) 255 = (n / 2 ^ k) mod 256.
Proof. intros. rewrite (land_mask _ 8), Z.shiftr_div_pow2 by lia. done. Qed.

(** Decoding of a group with all, three or two significant characters. *)
Lemma b64_groups_cons c0 c1 c2 c3 rest :
  0 <= c0 < 64 -> 0 <= c1 < 64 -> 0 <= c2 < 64 -> 0 <= c3 < 64 ->
  let n := c0 * 262144 + c1 * 4096 + c2 * 64 + c3 in
  b64_groups (b64_char c0 :: b64_char c1 :: b64_char c2 :: b64_char c3 :: rest)
  = (n / 65536) mod 256 :: (n / 256) mod 256 :: n mod 256 :: b64_groups rest.
Proof.
  intros H0 H1 H2 H3 n. cbn [b64_groups].
  destruct (b64_char_dec c0 H0) as (-> & _), (b64_char_dec c1 H1) as (-> & _),
    (b64_char_dec c2 H2) as (_ & -> & _), (b64_char_dec c3 H3) as (_ & -> & _).
  rewrite word4_add by done. fold n.
  rewrite (proj2 (Z.eqb_neq c2 (-1))), (proj2 (Z.eqb_neq c3 (-1))) by lia.
  rewrite !bits16_8 by lia. rewrite (land_mask _ 8) by lia. done.
Qed.

Lemma b64_groups_3 c0 c1 c2 :
  0 <= c0 < 64 -> 0 <= c1 < 64 -> 0 <= c2 < 64 ->
  let n := c0 * 262144 + c1 * 4096 + c2 * 64 + 63 in
  b64_groups [b64_char c0; b64_char c1; b64_char c2; 61]
  = [(n / 65536) mod 256; (n / 256) mod 256].
Proof.
  intros H0 H1 H2 n. cbn [b64_groups].
  destruct (b64_char_dec c0 H0) as (-> & _), (b64_char_dec c1 H1) as (-> & _),
    (b64_char_dec c2 H2) as (_ & -> & _).
  change (b64_third 61) with (-1). change (Z.land (-1) 63) with (Z.land 63 63).
  rewrite word4_add by lia. fold n.
  rewrite (proj2 (Z.eqb_neq c2 (-1))) by lia.
  rewrite !bits16_8 by lia. done.
Qed.

Lemma b64_groups_2 c0 c1 :
  0 <= c0 < 64 -> 0 <= c1 < 64 ->
  let n := c0 * 262144 + c1 * 4096 + 63 * 64 + 63 in
  b64_groups [b64_char c0; b64_char c1; 61; 61] = [(n / 65536) mod 256].
Proof.
  intros H0 H1 n. cbn [b64_groups].
  destruct (b64_char_dec c0 H0) as (-> & _), (b64_char_dec c1 H1) as (-> & _).
  change (b64_third 61) with (-1).
  change (Z.land (-1) 63) with (Z.land 63 63).
  rewrite word4_add by lia. fold n. rewrite !bits16_8 by lia. done.
Qed.

(** The encoder's output is alphabet characters followed by the padding. *)
Definition b64_body (b : bytes) : jsstr := strip_pad (bytesToBase64 b).

Lemma strip_pad_app s k : Forall (fun c => c <> 61) s -> strip_pad (s ++ replicate k 61) = s.
Proof.
  intros Hs. unfold strip_pad. rewrite reverse_app, reverse_replicate.
  induction k as [|k IH]; simpl; [|exact IH].
  destruct (reverse s) as [|x l] eqn:E.
  - apply (f_equal reverse) in E. rewrite reverse_involutive in E. by subst.
  - assert (Hx : x <> 61).
    { rewrite Forall_forall in Hs. apply Hs. rewrite <- elem_of_reverse, E. set_solver. }
    rewrite <- (reverse_involutive s), E.
    destruct x as [|x|x]; try done. do 7 (destruct x as [x|x|]; try done).
Qed.

(** How many padding characters [bytesToBase64] emits, by [length mod 3]. *)
Fixpoint b64_pad (b : bytes) : nat :=
  match b with
  | _ :: _ :: _ :: rest => b64_pad rest
  | [_; _] => 1
  | [_] => 2
  | [] => 0
  end.

Fixpoint b64_sextets (b : bytes) : list Z :=
  match b with
  | b0 :: b1 :: b2 :: rest =>
      let n := b0 * 65536 + b1 * 256 + b2 in
      [(n / 262144) mod 64; (n / 4096) mod 64; (n / 64) mod 64; n mod 64] ++ b64_sextets rest
  | [b0; b1] =>
      let n := b0 * 65536 + b1 * 256 in
      [(n / 262144) mod 64; (n / 4096) mod 64; (n / 64) mod 64]
  | [b0] => let n := b0 * 65536 in [(n / 262144) mod 64; (n / 4096) mod 64]
  | [] => []
  end.

(** Induction in steps of three. *)
Lemma triple_ind (P : bytes -> Prop) :
  P [] -> (forall a, P [a]) -> (forall a b, P [a; b]) ->
  (forall a b c l, P l -> P (a :: b :: c :: l)) -> forall l, P l.
Proof.
  intros H0 H1 H2 H3. fix IH 1.
  intros [|a [|b [|c l]]]; [exact H0 | apply H1 | apply H2 | apply H3, IH].
Qed.

Lemma bytesToBase64_split b : wf_bytes b ->
  bytesToBase64 b = map b64_char (b64_sextets b) ++ replicate (b64_pad b) 61.
Proof.
  induction b as [|a|a b|a b c l IH] using triple_ind; intros Hwf.
  - done.
  - inv Hwf. cbn [bytesToBase64 b64_sextets b64_pad map app replicate].
    rewrite !sextet_eq, Z.shiftl_mul_pow2 by lia. done.
  - inv Hwf. match goal with H : Forall _ [_] |- _ => inv H end.
    cbn [bytesToBase64 b64_sextets b64_pad map app replicate].
    rewrite !sextet_eq by lia.
    rewrite <- (Z.lor_0_r (Z.lor _ _)), word3_add by (unfold is_byte in *; lia).
    rewrite !Z.add_0_r. done.
  - inv Hwf. match goal with H : Forall _ (_ :: _) |- _ => inv H end.
    match goal with H : Forall _ (_ :: _) |- _ => inv H end.
    cbn [bytesToBase64 b64_sextets b64_pad]. rewrite IH, word3_add by done.
    rewrite !sextet_eq by lia. rewrite map_app, <- app_assoc.
    cbn [map app]. change (2 ^ 0) with 1. rewrite Z.div_1_r. done.
Qed.

Lemma b64_sextets_range b : Forall (fun i => 0 <= i < 64) (b64_sextets b).
Proof.
  induction b as [|a|a b|a b c l IH] using triple_ind; cbn [b64_sextets];
    repeat constructor; try (apply Z.mod_pos_bound; lia); auto.
Qed.

Lemma b64_chars_not_pad b : Forall (fun c => c <> 61) (map b64_char (b64_sextets b)).
Proof.
  apply Forall_map. eapply Forall_impl; [apply b64_sextets_range|].
  intros i Hi. by apply b64_char_dec.
Qed.

Lemma b64_body_eq b : wf_bytes b -> b64_body b = map b64_char (b64_sextets b).
Proof.
  intros H. unfold b64_body. rewrite bytesToBase64_split by done.
  apply strip_pad_app, b64_chars_not_pad.
Qed.

Lemma b64_pad_len b : (4 - zlen (b64_sextets b) mod 4) mod 4 = Z.of_nat (b64_pad b).
Proof.
  induction b as [|a|a b|a b c l IH] using triple_ind; try reflexivity.
  cbn [b64_sextets b64_pad app]. rewrite <- IH, !zlen_cons. f_equal. f_equal.
  replace (1 + (1 + (1 + (1 + zlen (b64_sextets l))))) with (zlen (b64_sextets l) + 1 * 4) by lia.
  by rewrite Z.mod_add by lia.
Qed.

Lemma b64_groups_split b : wf_bytes b ->
  b64_groups (map b64_char (b64_sextets b) ++ replicate (b64_pad b) 61) = b.
Proof.
  induction b as [|a|a b|a b c l IH] using triple_ind; intros Hwf.
  - done.
  - inv Hwf. cbn [b64_sextets b64_pad map app replicate].
    rewrite b64_groups_2 by (apply Z.mod_pos_bound; lia).
    f_equal. unfold is_byte in *. dmlia.
  - inv Hwf. match goal with H : Forall _ [_] |- _ => inv H end.
    cbn [b64_sextets b64_pad map app replicate].
    rewrite b64_groups_3 by (apply Z.mod_pos_bound; lia).
    f_equal; [|f_equal]; unfold is_byte in *; dmlia.
  - inv Hwf. match goal with H : Forall _ (_ :: _) |- _ => inv H end.
    match goal with H : Forall _ (_ :: _) |- _ => inv H end.
    cbn [b64_sextets b64_pad map app].
    rewrite b64_groups_cons by (apply Z.mod_pos_bound; lia).
    rewrite IH by done. unfold is_byte in *.
    f_equal; [|f_equal; [|f_equal]]; dmlia.
Qed.

(** Any spelling of the body that normalises to the alphabet decodes. *)
Lemma base64ToBytes_body s b k : wf_bytes b ->
  replace_char 95 47 (replace_char 45 43 s)
    = map b64_char (b64_sextets b) ++ replicate k 61 ->
  base64ToBytes s = b.
Proof.
  intros Hb E. unfold base64ToBytes. rewrite E.
  rewrite strip_pad_app by apply b64_chars_not_pad. cbv zeta.
  unfold zlen. rewrite length_map. fold (zlen (b64_sextets b)).
  rewrite b64_pad_len, Nat2Z.id. by apply b64_groups_split.
Qed.

Lemma b64_char_url i : 0 <= i < 64 ->
  let u := (fun c => if c =? 47 then 95 else c) ((fun c => if c =? 43 then 45 else c) (b64_char i)) in
  (fun c => if c =? 95 then 47 else c) ((fun c => if c =? 45 then 43 else c) u) = b64_char i
  /\ (fun c => if c =? 95 then 47 else c) ((fun c => if c =? 45 then 43 else c) (b64_char i))
     = b64_char i.
Proof.
  intros Hi u.
  pose proof (sextet_forall (fun i =>
    let f := fun a b c => if c =? a then b else c in
    (f 95 47 (f 45 43 (f 47 95 (f 43 45 (b64_char i)))) =? b64_char i)
    && (f 95 47 (f 45 43 (b64_char i)) =? b64_char i)) ltac:(vm_compute; reflexivity) i Hi) as H.
  cbv beta zeta in H. bools. auto.
Qed.

Lemma replace_char_app a b s1 s2 :
  replace_char a b (s1 ++ s2) = replace_char a b s1 ++ replace_char a b s2.
Proof. apply map_app. Qed.

Lemma replace_char_pad a b k : a <> 61 ->
  replace_char a b (replicate k 61) = replicate k 61.
Proof.
  intros Ha. unfold replace_char.
  induction k as [|k IH]; [done|]. cbn [replicate map]. rewrite IH.
  destruct (Z.eqb_spec 61 a); [congruence|done].
Qed.

Lemma base64ToBytes_std b : wf_bytes b -> base64ToBytes (bytesToBase64 b) = b.
Proof.
  intros Hb. apply (base64ToBytes_body _ _ (b64_pad b)); [done|].
  rewrite bytesToBase64_split by done.
  rewrite !replace_char_app, !replace_char_pad by done. f_equal.
  unfold replace_char. rewrite !map_map. apply map_ext_in. intros i Hi.
  apply b64_char_url. pose proof (b64_sextets_range b) as H.
  rewrite Forall_forall in H. apply H. by apply list_elem_of_In.
Qed.

Lemma bytesToBase64Url_eq b : wf_bytes b ->
  bytesToBase64Url b
  = replace_char 47 95 (replace_char 43 45 (map b64_char (b64_sextets b))).
Proof.
  intros Hb. unfold bytesToBase64Url. rewrite bytesToBase64_split by done.
  rewrite !replace_char_app, !replace_char_pad by done. apply strip_pad_app.
  unfold replace_char. rewrite !Forall_map.
  eapply Forall_impl; [apply b64_sextets_range|]. intros i Hi. cbv beta.
  by apply b64_char_dec.
Qed.

Lemma base64UrlToBytes_url b : wf_bytes b -> base64UrlToBytes (bytesToBase64Url b) = b.
Proof.
  intros Hb. apply (base64ToBytes_body _ _ 0); [done|].
  rewrite bytesToBase64Url_eq by done. cbn [replicate]. rewrite app_nil_r.
  unfold replace_char. rewrite !map_map. apply map_ext_in. intros i Hi.
  apply b64_char_url. pose proof (b64_sextets_range b) as H.
  rewrite Forall_forall in H. apply H. by apply list_elem_of_In.
Qed.

(** ** Properties *)

(** The textual codecs are inverse to their encoders: [fromHex] undoes
    [toHex], [base64ToBytes] undoes [bytesToBase64], and [base64UrlToBytes]
    undoes the unpadded URL-safe form, for every byte string. *)
Theorem encoding_roundtrip (b : bytes) (Hb : wf_bytes b) :
  fromHex (toHex b) = Ok b
  /\ base64ToBytes (bytesToBase64 b) = b
  /\ base64UrlToBytes (bytesToBase64Url b) = b.
Proof.
  repeat split;
    [by apply fromHex_toHex | by apply base64ToBytes_std | by apply base64UrlToBytes_url].
Qed.

Lemma encoding_roundtrip_witness :
  base64UrlToBytes (bytesToBase64Url [251; 255; 0; 62]) = [251; 255; 0; 62]
  /\ bytesToBase64Url [251; 255; 0; 62] = lit "-_8APg".
Proof.
  split; [|vm_compute; reflexivity].
  apply (encoding_roundtrip [251; 255; 0; 62]).
  repeat constructor; unfold is_byte; lia.
Defined.
