(* ===== verification/JsMap.v ===== *)
(** * JsMap: the JavaScript [Map] with string keys

    A [Map] (and, with unit values, a [Set]) remembers insertion order, and the
    program relies on it: for eviction of the oldest key and for which of two
    equally good entries wins.  A map is the list of its entries, oldest
    first; [set] on a present key keeps the entry's place. *)

From S2P Require Import Prelude Encoding.

Abbreviation jsmap V := (list (jsstr * V)).

Section Map.
Context {V : Type}.
Implicit Types (m : jsmap V) (k : jsstr) (v : V).

Fixpoint get k m : option V :=
  match m with
  | [] => None
  | (k', v) :: m' => if bool_decide (k = k') then Some v else get k m'
  end.

Definition has k m : bool := match get k m with Some _ => true | None => false end.

Fixpoint mset k v m : jsmap V :=
  match m with
  | [] => [(k, v)]
  | (k', v') :: m' => if bool_decide (k = k') then (k, v) :: m' else (k', v') :: mset k v m'
  end.

Definition mdelete k m : jsmap V := filter (fun '(k', _) => k' <> k) m.

Definition size m : nat := length m.

Definition keys m : list jsstr := map fst m.

Definition values m : list V := map snd m.

(** What every map built with these operations satisfies. *)
Definition wf_map m : Prop := NoDup (keys m).

Lemma wf_map_nil : wf_map [].
Proof. constructor. Qed.

Lemma get_In k v m : get k m = Some v -> In (k, v) m.
Proof.
  induction m as [|[k' v'] m IH]; cbn [get]; [discriminate|].
  case_bool_decide; [intros [= ->]; left; congruence | right; auto].
Qed.

Lemma get_None k m : get k m = None <-> ~ In k (keys m).
Proof.
  unfold keys. induction m as [|[k' v'] m IH]; cbn; [tauto|].
  case_bool_decide as E; [|rewrite IH].
  - split; [discriminate|]. intros []. by left.
  - split; [intros H [?|?]; [congruence|tauto] | tauto].
Qed.

Lemma has_true k m : has k m = true <-> In k (keys m).
Proof.
  unfold has. destruct (get k m) as [v|] eqn:E.
  - split; [|done]. intros _. apply get_In in E. unfold keys. apply in_map_iff. by exists (k, v).
  - apply get_None in E. split; [discriminate | tauto].
Qed.

Lemma has_false k m : has k m = false <-> ~ In k (keys m).
Proof. rewrite <- not_true_iff_false, has_true. done. Qed.

Lemma In_get k v m : wf_map m -> In (k, v) m -> get k m = Some v.
Proof.
  unfold wf_map, keys. induction m as [|[k' v'] m IH]; cbn [map get fst]; [done|].
  intros Hn Hin. inv Hn. case_bool_decide as E.
  - subst. destruct Hin as [[= ->]|Hin]; [done|]. exfalso.
    match goal with H : _ ∉ _ |- _ => apply H end.
    apply list_elem_of_In, in_map_iff. by exists (k', v).
  - destruct Hin as [[= -> ->]|Hin]; [done|]. by apply IH.
Qed.

Lemma keys_mset_has k v m : In k (keys m) -> keys (mset k v m) = keys m.
Proof.
  unfold keys. induction m as [|[k' v'] m IH]; cbn [map mset In fst]; [tauto|].
  intros H. case_bool_decide as E; cbn [map fst]; [by subst|].
  f_equal. apply IH. destruct H; [congruence|done].
Qed.

Lemma mset_new k v m : ~ In k (keys m) -> mset k v m = m ++ [(k, v)].
Proof.
  unfold keys. induction m as [|[k' v'] m IH]; cbn [map mset In fst app]; [done|].
  intros H. case_bool_decide as E; [subst; tauto|]. f_equal. apply IH. tauto.
Qed.

Lemma wf_mset k v m : wf_map m -> wf_map (mset k v m).
Proof.
  intros H. unfold wf_map. destruct (in_dec (fun a b => decide (a = b)) k (keys m)) as [Hin|Hin].
  - by rewrite keys_mset_has.
  - rewrite mset_new by done. unfold keys. rewrite map_app. apply NoDup_app. split; [done|].
    cbn. split; [|apply NoDup_singleton]. intros x Hx Hx'. apply list_elem_of_singleton in Hx'.
    subst. by apply list_elem_of_In in Hx.
Qed.

Lemma wf_mdelete k m : wf_map m -> wf_map (mdelete k m).
Proof.
  unfold wf_map, keys, mdelete. induction m as [|[k' v'] m IH]; [done|]. intros Hn. inv Hn.
  rewrite filter_cons. destruct (decide _); [|by apply IH]. cbn. constructor; [|by apply IH].
  intros Hin. match goal with H : _ ∉ _ |- _ => apply H end.
  apply list_elem_of_In, in_map_iff. apply list_elem_of_In, in_map_iff in Hin as ([k2 v2] & <- & Hin).
  exists (k2, v2). split; [done|]. apply list_elem_of_In in Hin.
  apply list_elem_of_filter in Hin as [_ Hin]. by apply list_elem_of_In.
Qed.

Lemma get_mset_same k v m : get k (mset k v m) = Some v.
Proof.
  induction m as [|[k' v'] m IH]; cbn [mset get]; [by rewrite bool_decide_true|].
  case_bool_decide as E; cbn [get]; [by rewrite bool_decide_true|].
  by rewrite bool_decide_false.
Qed.

Lemma get_mset_other k k2 v m : k2 <> k -> get k2 (mset k v m) = get k2 m.
Proof.
  intros Hne. induction m as [|[k' v'] m IH]; cbn [mset get]; [by rewrite bool_decide_false|].
  case_bool_decide as E; cbn [get].
  - subst. by rewrite !bool_decide_false.
  - by rewrite IH.
Qed.

Lemma get_mdelete_same k m : get k (mdelete k m) = None.
Proof.
  unfold mdelete. induction m as [|[k' v'] m IH]; [done|]. rewrite filter_cons.
  destruct (decide _) as [E|E]; [|done]. cbn [get]. by rewrite bool_decide_false.
Qed.

Lemma get_mdelete_other k k2 m : k2 <> k -> get k2 (mdelete k m) = get k2 m.
Proof.
  intros Hne. unfold mdelete. induction m as [|[k' v'] m IH]; [done|]. rewrite filter_cons.
  destruct (decide _) as [E|E]; cbn [get].
  - by rewrite IH.
  - assert (k' = k) as -> by (destruct (decide (k' = k)); tauto).
    by rewrite bool_decide_false.
Qed.

Lemma size_mset k v m :
  size (mset k v m) = if has k m then size m else S (size m).
Proof.
  unfold size. destruct (has k m) eqn:E.
  - apply has_true in E. rewrite <- (length_map fst (mset k v m)), <- (length_map fst m).
    f_equal. by apply keys_mset_has.
  - apply has_false in E. rewrite mset_new by done. rewrite length_app. cbn. lia.
Qed.

Lemma In_mset k v m e : In e (mset k v m) -> e = (k, v) \/ In e m.
Proof.
  induction m as [|[k' v'] m IH]; cbn [mset]; [intros [<-|[]]; by left|].
  case_bool_decide; cbn [In]; [intros [<-|Hi]; auto|]. intros [<-|Hi]; [auto|].
  destruct (IH Hi); auto.
Qed.

Lemma In_mdelete k m e : In e (mdelete k m) <-> In e m /\ fst e <> k.
Proof.
  unfold mdelete. rewrite <- !list_elem_of_In, list_elem_of_filter.
  destruct e as [k' v']. cbn. tauto.
Qed.

Lemma size_mdelete k m : (size (mdelete k m) <= size m)%nat.
Proof. unfold size, mdelete. apply length_filter. Qed.
End Map.

#[export] Hint Resolve wf_map_nil wf_mset wf_mdelete : ret.
#[export] Hint Rewrite @get_mset_same @get_mdelete_same : ret.

#[global] Arguments size {V} m : simpl never.
#[global] Arguments has {V} k m : simpl never.
#[global] Arguments mset {V} k v m : simpl never.
#[global] Arguments mdelete {V} k m : simpl never.
#[global] Arguments keys {V} m : simpl never.
#[global] Arguments values {V} m : simpl never.

Lemma get_filter {V} (P : jsstr * V -> Prop) `{!forall x, Decision (P x)} k (m : jsmap V) v :
  get k m = Some v -> P (k, v) -> get k (filter P m) = Some v.
Proof.
  induction m as [|[k' v'] m IH]; [done|]. cbn [get]. rewrite filter_cons. case_bool_decide as E.
  - intros [= ->] Hp. subst k'. rewrite decide_True by done. cbn [get]. by rewrite bool_decide_true.
  - intros Hg Hp. destruct (decide _); [|by apply IH]. cbn [get]. rewrite bool_decide_false by done. auto.
Qed.

Lemma has_mset {V} k k2 (v : V) m : has k2 (mset k v m) = bool_decide (k2 = k) || has k2 m.
Proof.
  unfold has. case_bool_decide as E; [subst; by rewrite get_mset_same|]. by rewrite get_mset_other.
Qed.

Lemma mdelete_absent {V} key (m : jsmap V) : key ∉ map fst m -> mdelete key m = m.
Proof.
  unfold mdelete. induction m as [|[k x] m IH]; cbn [map fst]; [done|].
  intros Hn. apply not_elem_of_cons in Hn as [Hne Hn]. rewrite filter_cons, decide_True by congruence.
  by rewrite IH.
Qed.

Lemma Forall_mdelete {V} (P : jsstr * V -> Prop) key m : Forall P m -> Forall P (mdelete key m).
Proof.
  rewrite !List.Forall_forall. intros H x Hx. apply In_mdelete in Hx as [Hx _]. by apply H.
Qed.

Lemma Forall_mset {V} (P : jsstr * V -> Prop) k v m : Forall P m -> P (k, v) -> Forall P (mset k v m).
Proof.
  rewrite !List.Forall_forall. intros H Hk x Hx. apply In_mset in Hx as [->|Hx]; [done|by apply H].
Qed.

(** The sum of a measure of the values. *)
Definition weight {V} (f : V -> Z) (m : jsmap V) : Z := foldr (fun '(_, v) n => f v + n) 0 m.

Lemma weight_mset {V} (f : V -> Z) k v m :
  weight f (mset k v m) = weight f m - match get k m with Some v0 => f v0 | None => 0 end + f v.
Proof.
  unfold weight. induction m as [|[k' v'] m IH]; [change (mset k v []) with [(k, v)]; cbn; lia|].
  change (mset k v ((k', v') :: m)) with (if bool_decide (k = k') then (k, v) :: m else (k', v') :: mset k v m).
  cbn [get]. case_bool_decide; cbn [foldr]; [lia|]. rewrite IH. lia.
Qed.

Lemma weight_mdelete {V} (f : V -> Z) k m : wf_map m ->
  weight f (mdelete k m) = weight f m - match get k m with Some v0 => f v0 | None => 0 end.
Proof.
  unfold weight, wf_map, keys. induction m as [|[k' v'] m IH]; [done|].
  cbn [map fst get]. intros Hn. apply NoDup_cons in Hn as [Hx Hn]. unfold mdelete. rewrite filter_cons.
  fold (mdelete k m). case_bool_decide as E.
  - subst k'. rewrite decide_False by tauto. cbn [foldr]. rewrite mdelete_absent by done. lia.
  - rewrite decide_True by congruence. cbn [foldr]. rewrite IH by done. lia.
Qed.

Lemma weight_nonneg {V} (f : V -> Z) m : (forall v, 0 <= f v) -> 0 <= weight f m.
Proof.
  intros Hf. unfold weight. induction m as [|[k v] m IH]; cbn [foldr]; [done|]. specialize (Hf v). lia.
Qed.

Lemma weight_get {V} (f : V -> Z) k v m : (forall v, 0 <= f v) -> get k m = Some v -> f v <= weight f m.
Proof.
  intros Hf. unfold weight. induction m as [|[k' v'] m IH]; cbn [get foldr]; [done|].
  pose proof (weight_nonneg f m Hf) as Hm. unfold weight in Hm. pose proof (Hf v').
  case_bool_decide; [intros [= ->]; lia|]. intros Hg. specialize (IH Hg). lia.
Qed.
