(* ===== verification/Utf8.v ===== *)
(** * Utf8: the platform's [TextEncoder] and [TextDecoder]

    The WHATWG Encoding Standard's UTF-8 encoder and decoder on JavaScript
    strings (UTF-16 code units): lone surrogates and malformed bytes become
    U+FFFD, and the decoder drops a leading byte order mark. *)

From S2P Require Import Prelude Encoding.

Definition is_high (c : Z) : bool := (55296 <=? c) && (c <=? 56319).
Definition is_low (c : Z) : bool := (56320 <=? c) && (c <=? 57343).
Definition REPLACEMENT : Z := 65533.
Definition BOM : Z := 65279.

(** Code units to scalar values. *)
Fixpoint to_scalars (s : jsstr) : list Z :=
  match s with
  | [] => []
  | h :: rest =>
      if is_high h then
        match rest with
        | l :: rest' =>
            if is_low l then (h - 55296) * 1024 + (l - 56320) + 65536 :: to_scalars rest'
            else REPLACEMENT :: to_scalars rest
        | [] => [REPLACEMENT]
        end
      else if is_low h then REPLACEMENT :: to_scalars rest
      else h :: to_scalars rest
  end.

Definition utf8_of_scalar (c : Z) : bytes :=
  if c <? 128 then [c]
  else if c <? 2048 then [192 + c / 64; 128 + c mod 64]
  else if c <? 65536 then [224 + c / 4096; 128 + (c / 64) mod 64; 128 + c mod 64]
  else [240 + c / 262144; 128 + (c / 4096) mod 64; 128 + (c / 64) mod 64; 128 + c mod 64].

(** [new TextEncoder().encode(s)]. *)
Definition utf8_encode (s : jsstr) : bytes := concat (map utf8_of_scalar (to_scalars s)).

(** Decoder state: bytes still needed, the allowed range of the next one and
    the scalar collected so far. *)
Record dstate := mkD { needed : nat; lower : Z; upper : Z; acc : Z }.
Definition dstart : dstate := mkD 0 128 191 0.

(** A byte in the initial state. *)
Definition dlead (b : Z) : dstate * list Z :=
  if b <=? 127 then (dstart, [b])
  else if (194 <=? b) && (b <=? 223) then (mkD 1 128 191 (b - 192), [])
  else if (224 <=? b) && (b <=? 239) then
    (mkD 2 (if b =? 224 then 160 else 128) (if b =? 237 then 159 else 191) (b - 224), [])
  else if (240 <=? b) && (b <=? 244) then
    (mkD 3 (if b =? 240 then 144 else 128) (if b =? 244 then 143 else 191) (b - 240), [])
  else (dstart, [REPLACEMENT]).

Definition dstep (st : dstate) (b : Z) : dstate * list Z :=
  match needed st with
  | O => dlead b
  | S n =>
      if (lower st <=? b) && (b <=? upper st) then
        let a := acc st * 64 + (b - 128) in
        match n with
        | O => (dstart, [a])
        | S _ => (mkD n 128 191 a, [])
        end
      else let (st', out) := dlead b in (st', REPLACEMENT :: out)
  end.

Fixpoint drun (st : dstate) (b : bytes) : list Z :=
  match b with
  | [] => match needed st with O => [] | S _ => [REPLACEMENT] end
  | x :: rest => let (st', out) := dstep st x in out ++ drun st' rest
  end.

Definition units_of_scalar (c : Z) : jsstr :=
  if c <? 65536 then [c]
  else [55296 + (c - 65536) / 1024; 56320 + (c - 65536) mod 1024].

(** [new TextDecoder().decode(b)]. *)
Definition utf8_decode (b : bytes) : jsstr :=
  let b := match b with 239 :: 187 :: 191 :: rest => rest | _ => b end in
  concat (map units_of_scalar (drun dstart b)).

(** A string that survives the round trip: no lone surrogates and no leading
    byte order mark. *)
Fixpoint wf_utf16 (s : jsstr) : bool :=
  match s with
  | [] => true
  | h :: rest =>
      if is_high h then
        match rest with l :: rest' => is_low l && wf_utf16 rest' | [] => false end
      else negb (is_low h) && (0 <=? h) && (h <? 65536) && wf_utf16 rest
  end.

Definition wf_str (s : jsstr) : Prop := wf_utf16 s = true /\ head s <> Some BOM.

#[global] Instance wf_str_dec s : Decision (wf_str s).
Proof. unfold wf_str. apply _. Defined.

(** ** Round trip *)

Definition scalar (c : Z) : Prop := 0 <= c < 55296 \/ 57344 <= c < 1114112.

Lemma drun_scalar c rest : scalar c -> drun dstart (utf8_of_scalar c ++ rest) = c :: drun dstart rest.
Proof.
  intros Hc. unfold utf8_of_scalar, scalar in *.
  destruct (c <? 128) eqn:E1; bools.
  { cbn [app drun]. unfold dstep, dlead. cbn [needed dstart].
    rewrite (proj2 (Z.leb_le c 127)) by lia. done. }
  destruct (c <? 2048) eqn:E2; bools.
  { assert (H : 2 <= c / 64 <= 31) by dmlia. assert (0 <= c mod 64 < 64) by dmlia.
    cbn [app drun]. unfold dstep at 1, dlead. cbn [needed dstart].
    rewrite (proj2 (Z.leb_gt _ 127)), (proj2 (Z.leb_le 194 _)), (proj2 (Z.leb_le _ 223)) by lia.
    cbn [andb app]. unfold dstep at 1. cbn [needed lower upper acc].
    rewrite (proj2 (Z.leb_le 128 _)), (proj2 (Z.leb_le _ 191)) by lia. cbn [andb app].
    f_equal. dmlia. }
  destruct (c <? 65536) eqn:E3; bools.
  { assert (H : 0 <= c / 4096 <= 15) by dmlia. assert (0 <= c mod 64 < 64) by dmlia.
    assert (0 <= (c / 64) mod 64 < 64) by dmlia.
    cbn [app drun]. unfold dstep at 1, dlead. cbn [needed dstart].
    rewrite (proj2 (Z.leb_gt _ 127)), (proj2 (Z.leb_gt _ 223)), andb_false_r by lia.
    rewrite (proj2 (Z.leb_le 224 _)), (proj2 (Z.leb_le _ 239)) by lia. cbn [andb app].
    unfold dstep at 1. cbn [needed lower upper acc].
    assert (((if 224 + c / 4096 =? 224 then 160 else 128) <=? 128 + (c / 64) mod 64) = true) as ->.
    { apply Z.leb_le. destruct (_ =? 224) eqn:E; bools; dmlia. }
    assert ((128 + (c / 64) mod 64 <=? (if 224 + c / 4096 =? 237 then 159 else 191)) = true) as ->.
    { apply Z.leb_le. destruct (_ =? 237) eqn:E; bools; dmlia. }
    cbn [andb app]. unfold dstep at 1. cbn [needed lower upper acc].
    rewrite (proj2 (Z.leb_le 128 _)), (proj2 (Z.leb_le _ 191)) by lia. cbn [andb app].
    f_equal. dmlia. }
  assert (H : 0 <= c / 262144 <= 4) by dmlia. assert (0 <= c mod 64 < 64) by dmlia.
  assert (0 <= (c / 64) mod 64 < 64) by dmlia. assert (0 <= (c / 4096) mod 64 < 64) by dmlia.
  cbn [app drun]. unfold dstep at 1, dlead. cbn [needed dstart].
  rewrite (proj2 (Z.leb_gt _ 127)), (proj2 (Z.leb_gt _ 223)), andb_false_r by lia.
  rewrite (proj2 (Z.leb_gt _ 239)), andb_false_r by lia.
  rewrite (proj2 (Z.leb_le 240 _)), (proj2 (Z.leb_le _ 244)) by lia. cbn [andb app].
  unfold dstep at 1. cbn [needed lower upper acc].
  assert (((if 240 + c / 262144 =? 240 then 144 else 128) <=? 128 + (c / 4096) mod 64) = true) as ->.
  { apply Z.leb_le. destruct (_ =? 240) eqn:E; bools; dmlia. }
  assert ((128 + (c / 4096) mod 64 <=? (if 240 + c / 262144 =? 244 then 143 else 191)) = true) as ->.
  { apply Z.leb_le. destruct (_ =? 244) eqn:E; bools; dmlia. }
  cbn [andb app]. unfold dstep at 1. cbn [needed lower upper acc].
  rewrite (proj2 (Z.leb_le 128 _)), (proj2 (Z.leb_le _ 191)) by lia. cbn [andb app].
  unfold dstep at 1. cbn [needed lower upper acc].
  rewrite (proj2 (Z.leb_le 128 (128 + c mod 64))), (proj2 (Z.leb_le _ 191)) by lia. cbn [andb app].
  f_equal. dmlia.
Qed.

Lemma drun_scalars cs : Forall scalar cs -> drun dstart (concat (map utf8_of_scalar cs)) = cs.
Proof.
  induction 1 as [|c cs Hc _ IH]; [done|]. cbn [map concat]. by rewrite drun_scalar, IH.
Qed.

Lemma wf_utf16_scalars s : wf_utf16 s = true ->
  Forall scalar (to_scalars s) /\ concat (map units_of_scalar (to_scalars s)) = s.
Proof.
  remember (length s) as n eqn:Hn. revert s Hn.
  induction n as [n IH] using lt_wf_ind. intros [|h s] Hn; cbn [wf_utf16 to_scalars]; [done|].
  cbn [length] in Hn. unfold is_high, is_low, scalar.
  destruct ((55296 <=? h) && (h <=? 56319)) eqn:Eh.
  - destruct s as [|l s]; [done|]. intros H. apply andb_prop in H as [Hl Hw]. rewrite Hl. bools.
    destruct (IH (length s)) with (s := s) as [F E]; [cbn [length] in *; lia | done | done |].
    set (c := (h - 55296) * 1024 + (l - 56320) + 65536).
    split; [constructor; [unfold c; lia | exact F]|]. cbn [map concat]. rewrite E.
    unfold units_of_scalar. rewrite (proj2 (Z.ltb_ge c 65536)) by (unfold c; lia).
    cbn [app]. unfold c. f_equal; [dmlia|]. f_equal. dmlia.
  - destruct ((56320 <=? h) && (h <=? 57343)) eqn:El; [done|]. cbn [negb andb].
    intros H. bools. apply andb_false_iff in Eh, El. rewrite !Z.leb_gt in Eh, El.
    destruct (IH (length s)) with (s := s) as [F E]; [lia | done | done |].
    split; [constructor; [lia | exact F]|]. cbn [map concat]. rewrite E. unfold units_of_scalar.
    rewrite (proj2 (Z.ltb_lt h 65536)) by lia. done.
Qed.

(** Only U+FEFF is encoded with the BOM's bytes. *)
Lemma utf8_no_bom c rest s : scalar c -> c <> BOM ->
  utf8_of_scalar c ++ rest <> 239 :: 187 :: 191 :: s.
Proof.
  unfold scalar, BOM, utf8_of_scalar. intros Hc Hb.
  destruct (c <? 128) eqn:E1; bools; [intros [= E]; lia|].
  destruct (c <? 2048) eqn:E2; bools; [cbn [app]; intros [= E]; dmlia|].
  destruct (c <? 65536) eqn:E3; bools; cbn [app]; intros [=]; dmlia.
Qed.

Lemma utf8_decode_encode s : wf_str s -> utf8_decode (utf8_encode s) = s.
Proof.
  intros [Hw Hb]. destruct (wf_utf16_scalars s Hw) as [F E]. unfold utf8_decode, utf8_encode.
  assert (Hh : forall c cs, to_scalars s = c :: cs -> c <> BOM).
  { intros c cs Hc ->. rewrite Hc in E. cbn in E.
    destruct s as [|h s]; [discriminate|]. injection E as <- _. by apply Hb. }
  set (b := concat (map utf8_of_scalar (to_scalars s))).
  assert (Hs : match b with 239 :: 187 :: 191 :: rest => rest | _ => b end = b).
  { assert (Hn : forall t, b <> 239 :: 187 :: 191 :: t).
    { unfold b. intros t. destruct (to_scalars s) as [|c cs] eqn:Ec; [done|]. cbn [map concat].
      inv F. apply utf8_no_bom; eauto. }
    clearbody b. clear -Hn.
    repeat match goal with
    | |- match ?x with _ => _ end = _ => destruct x; try reflexivity
    end.
    match goal with |- ?r = _ => by destruct (Hn r) end. }
  rewrite Hs. unfold b. by rewrite drun_scalars, E.
Qed.

Lemma utf8_encode_wf s : Forall (fun c => 0 <= c < 65536) s -> wf_bytes (utf8_encode s).
Proof.
  intros Hs. unfold utf8_encode.
  assert (H : Forall (fun c => 0 <= c < 1114112) (to_scalars s)).
  { remember (length s) as n eqn:Hn. revert s Hs Hn.
    induction n as [n IH] using lt_wf_ind. intros [|h s] Hs Hn; cbn [to_scalars]; [constructor|].
    inv Hs. cbn [length] in IH. unfold is_high, is_low.
    destruct ((55296 <=? h) && (h <=? 56319)) eqn:Eh.
    - destruct s as [|l s]; [repeat constructor; unfold REPLACEMENT; lia|].
      match goal with H : Forall _ (_ :: _) |- _ => inv H as [|? ? Hl Hs'] end.
      destruct ((56320 <=? l) && (l <=? 57343)) eqn:El; bools.
      + constructor; [lia|]. apply (IH (length s)); auto; cbn [length]; lia.
      + constructor; [unfold REPLACEMENT; lia|]. apply (IH (length (l :: s))); auto.
    - destruct ((56320 <=? h) && (h <=? 57343)); (constructor; [unfold REPLACEMENT; lia|]);
        apply (IH (length s)); auto; lia. }
  induction H as [|c cs Hc _ IH]; cbn [map concat]; [constructor|].
  apply wf_bytes_app; [|exact IH]. unfold utf8_of_scalar.
  destruct (c <? 128) eqn:E1; bools; [repeat constructor; unfold is_byte; lia|].
  destruct (c <? 2048) eqn:E2; bools; [repeat constructor; unfold is_byte; dmlia|].
  destruct (c <? 65536) eqn:E3; bools; repeat constructor; unfold is_byte; dmlia.
Qed.
