(* ===== verification/MsgPack.v ===== *)
(** * MsgPack: the MessagePack codec (packages/core/src/utils/msgpack.js)

    JavaScript values as the codec sees them, the encoder, and the decoder over
    a [DataView] (an underlying buffer, an offset and a length).  Plain objects
    carry their own properties in JavaScript's property order and a prototype,
    because [_decodeMap] assigns properties under decoded keys. *)

From S2P Require Import Prelude Encoding JsMap Utf8.

Definition MAX_SAFE_INTEGER : Z := 9007199254740991.
Definition MAX_DEPTH : nat := 128.

(** [VInt n] is a Number holding the safe integer [n] (and not -0);
    [VFloat bits] is any other Number, by its IEEE 754 bits.  In [VObj],
    [None] is the prototype [Object.prototype]; [undefined] is [VNull]. *)
Inductive value :=
| VNull
| VBool (b : bool)
| VInt (n : Z)
| VFloat (bits : Z)
| VBigInt (n : Z)
| VStr (s : jsstr)
| VBin (b : bytes)
| VArr (l : list value)
| VMap (entries : list (value * value))
| VObj (proto : option value) (props : list (jsstr * value)).

(** ** Numbers as doubles *)

(** The bits of the double that represents the safe integer [n]. *)
Definition bits_of_int (n : Z) : Z :=
  if n =? 0 then 0 else
  let a := Z.abs n in
  let e := Z.log2 a in
  (if n <? 0 then 2 ^ 63 else 0) + (e + 1023) * 2 ^ 52 + (a * 2 ^ (52 - e) - 2 ^ 52).

(** The Number with the given bits, in canonical form. *)
Definition number_of_bits (bits : Z) : value :=
  let sign := bits / 2 ^ 63 in
  let e := (bits / 2 ^ 52) mod 2048 in
  let mant := 2 ^ 52 + bits mod 2 ^ 52 in
  let k := 1075 - e in
  if bits =? 0 then VInt 0
  else if (0 <=? k) && (k <=? 52) && (mant mod 2 ^ k =? 0)
  then VInt (if sign =? 1 then - (mant / 2 ^ k) else mant / 2 ^ k)
  else VFloat bits.

Definition NEG_ZERO : Z := 2 ^ 63.

(** ** Encoder *)

(** [(v >> 8) & 0xff, v & 0xff] and its 32-bit version. *)
Definition push16 (v : Z) : bytes := [Z.land (js_shr v 8) 255; js_and v 255].
Definition push32 (v : Z) : bytes :=
  [Z.land (js_shr v 24) 255; Z.land (js_shr v 16) 255; Z.land (js_shr v 8) 255; js_and v 255].

Definition _encodeFloat64 (bits : Z) : bytes := 203 :: be_bytes 8 bits.
Definition _encodeUint64 (v : Z) : bytes := 207 :: be_bytes 8 v.
Definition _encodeInt64 (v : Z) : bytes := 211 :: be_bytes 8 v.

(** The integer branch of [_encodeNumber]. *)
Definition _encodeInteger (value : Z) : bytes :=
  if 0 <=? value then
    if value <=? 127 then [value]
    else if value <=? 255 then [204; value]
    else if value <=? 65535 then 205 :: push16 value
    else if value <=? 4294967295 then 206 :: push32 value
    else if value <=? MAX_SAFE_INTEGER then _encodeUint64 value
    else _encodeFloat64 (bits_of_int value)
  else
    if -32 <=? value then [js_or 224 (value + 32)]
    else if -128 <=? value then [208; js_and value 255]
    else if -32768 <=? value then 209 :: push16 value
    else if -2147483648 <=? value then 210 :: push32 value
    else if - MAX_SAFE_INTEGER <=? value then _encodeInt64 value
    else _encodeFloat64 (bits_of_int value).

(** [Number.isInteger] holds for -0 (pushed as the fixint 0); every other
    [VFloat] ends in [_encodeFloat64]. *)
Definition _encodeNumber_float (bits : Z) : bytes :=
  if bits =? NEG_ZERO then [0] else _encodeFloat64 bits.

Definition _encodeBigInt (value : Z) : result bytes :=
  if 0 <=? value then
    if 18446744073709551615 <? value then Throw (RangeError "BigInt exceeds uint64 range")
    else Ok (207 :: be_bytes 8 value)
  else
    if value <? -9223372036854775808 then Throw (RangeError "BigInt is below int64 range")
    else Ok (211 :: be_bytes 8 value).

Definition _encodeString (s : jsstr) : bytes :=
  let utf8 := utf8_encode s in
  let len := zlen utf8 in
  (if len <=? 31 then [js_or 160 len]
   else if len <=? 255 then [217; len]
   else if len <=? 65535 then 218 :: push16 len
   else 219 :: push32 len) ++ utf8.

Definition _encodeBinary (b : bytes) : bytes :=
  let len := zlen b in
  (if len <=? 255 then [196; len]
   else if len <=? 65535 then 197 :: push16 len
   else 198 :: push32 len) ++ b.

Definition array_header (len : Z) : bytes :=
  if len <=? 15 then [js_or 144 len]
  else if len <=? 65535 then 220 :: push16 len
  else 221 :: push32 len.

Definition map_header (len : Z) : bytes :=
  if len <=? 15 then [js_or 128 len]
  else if len <=? 65535 then 222 :: push16 len
  else 223 :: push32 len.

Fixpoint _encodeValue (v : value) : result bytes :=
  match v with
  | VNull => Ok [192]
  | VBool b => Ok [if b then 195 else 194]
  | VInt n => Ok (_encodeInteger n)
  | VFloat bits => Ok (_encodeNumber_float bits)
  | VBigInt n => _encodeBigInt n
  | VStr s => Ok (_encodeString s)
  | VBin b => Ok (_encodeBinary b)
  | VArr l =>
      let! body := (fix items (l : list value) : result bytes :=
                      match l with
                      | [] => Ok []
                      | x :: l' => let! a := _encodeValue x in let! b := items l' in Ok (a ++ b)
                      end) l in
      Ok (array_header (zlen l) ++ body)
  | VMap entries =>
      let! body := (fix items (l : list (value * value)) : result bytes :=
                      match l with
                      | [] => Ok []
                      | (k, x) :: l' =>
                          let! c := _encodeValue k in
                          let! a := _encodeValue x in let! b := items l' in Ok (c ++ a ++ b)
                      end) entries in
      Ok (map_header (zlen entries) ++ body)
  | VObj _ props =>
      let! body := (fix items (l : list (jsstr * value)) : result bytes :=
                      match l with
                      | [] => Ok []
                      | (k, x) :: l' =>
                          let! a := _encodeValue x in let! b := items l' in
                          Ok (_encodeString k ++ a ++ b)
                      end) props in
      Ok (map_header (zlen props) ++ body)
  end.

Definition encode (v : value) : result bytes := _encodeValue v.

(** The exported [encodeFloat64] on a Number. *)
Definition encodeFloat64 (v : value) : bytes :=
  match v with
  | VInt n => _encodeFloat64 (bits_of_int n)
  | VFloat bits => _encodeFloat64 bits
  | _ => []
  end.

(** ** Properties of objects *)

Fixpoint dec_digits (fuel : nat) (n : Z) : jsstr :=
  match fuel with
  | O => []
  | S f => (if n <? 10 then [] else dec_digits f (n / 10)) ++ [48 + n mod 10]
  end.

(** [String(n)] for an integer below 2^64 in magnitude. *)
Definition int_str (n : Z) : jsstr :=
  if n <? 0 then 45 :: dec_digits 20 (- n) else dec_digits 20 n.

Definition is_digit (c : Z) : bool := (48 <=? c) && (c <=? 57).

Definition dec_value (s : jsstr) : Z := fold_left (fun a c => a * 10 + (c - 48)) s 0.

(** Array indices come first, in ascending order, in the property order. *)
Definition array_index (k : jsstr) : option Z :=
  match k with
  | [] => None
  | c :: rest =>
      if forallb is_digit k && ((negb (c =? 48)) || (length rest =? 0)%nat)
         && (length k <=? 10)%nat && (dec_value k <=? 4294967294)
      then Some (dec_value k) else None
  end.

Definition key_before (a b : jsstr) : bool :=
  match array_index a, array_index b with
  | Some i, Some j => i <? j
  | Some _, None => true
  | None, _ => false
  end.

Fixpoint insert_prop (k : jsstr) (v : value) (props : list (jsstr * value)) : list (jsstr * value) :=
  match props with
  | [] => [(k, v)]
  | (k', v') :: rest =>
      if key_before k k' then (k, v) :: props else (k', v') :: insert_prop k v rest
  end.

Fixpoint replace_prop (k : jsstr) (v : value) (props : list (jsstr * value))
  : list (jsstr * value) :=
  match props with
  | [] => []
  | (k', v') :: rest =>
      if bool_decide (k = k') then (k, v) :: rest else (k', v') :: replace_prop k v rest
  end.

Definition has_prop (k : jsstr) (props : list (jsstr * value)) : bool :=
  existsb (fun '(k', _) => bool_decide (k = k')) props.

(** Creating or overwriting an own data property. *)
Definition own_set (k : jsstr) (v : value) (props : list (jsstr * value)) : list (jsstr * value) :=
  if has_prop k props then replace_prop k v props else insert_prop k v props.

(** Whether [Object.prototype]'s [__proto__] setter is what an assignment to
    [__proto__] finds along the prototype chain. *)
Fixpoint chain_setter (v : value) : bool :=
  match v with
  | VNull => false
  | VObj p props =>
      if has_prop (lit "__proto__") props then false
      else match p with None => true | Some q => chain_setter q end
  | _ => true
  end.

Definition object_like (v : value) : bool :=
  match v with
  | VNull | VBin _ | VArr _ | VMap _ | VObj _ _ => true
  | _ => false
  end.

(** [map[k] = v] for a property key [k]. *)
Definition assign (k : jsstr) (v : value) (proto : option value) (props : list (jsstr * value))
  : option value * list (jsstr * value) :=
  if bool_decide (k = lit "__proto__") && negb (has_prop k props)
     && match proto with None => true | Some q => chain_setter q end
  then (if object_like v then Some v else proto, props)
  else (proto, own_set k v props).

Fixpoint join_comma (l : list jsstr) : jsstr :=
  match l with
  | [] => []
  | [s] => s
  | s :: l' => s ++ 44 :: join_comma l'
  end.

(** ** Decoder *)

(** The parts of the language that only matter for exotic map keys: the decimal
    form of a non-integer Number, and [ToPrimitive] of an object whose
    prototype was replaced. *)
Class JsHost := {
  num_str : Z -> jsstr;
  exotic_str : value -> option jsstr;
}.

Record Buf := mkBuf { buffer : bytes; byteOffset : nat; byteLength : nat }.

(** A typed array that owns its whole buffer. *)
Definition whole (b : bytes) : Buf := mkBuf b 0 (length b).

Definition dec (A : Type) := option (result A).
Definition dret {A} (a : A) : dec A := Some (Ok a).
Definition dthrow {A} (e : error) : dec A := Some (Throw e).
Definition dbind {A B} (m : dec A) (k : A -> dec B) : dec B :=
  match m with
  | Some (Ok a) => k a
  | Some (Throw e) => Some (Throw e)
  | None => None
  end.

Definition read_be (n : nat) (buf : Buf) (off : nat) : result (Z * nat) :=
  if (byteLength buf <? off + n)%nat
  then Throw (RangeError "Offset is outside the bounds of the DataView")
  else Ok (be_uint (slice (byteOffset buf + off) (byteOffset buf + off + n) (buffer buf)),
           (off + n)%nat).

Definition signed (n : nat) (v : Z) : Z :=
  if v <? 256 ^ Z.of_nat n / 2 then v else v - 256 ^ Z.of_nat n.

Definition safe_number (v : Z) : value :=
  if (- MAX_SAFE_INTEGER <=? v) && (v <=? MAX_SAFE_INTEGER) then VInt v else VBigInt v.

(** [new Uint8Array(view.buffer, start, length)] is bounded by the underlying
    buffer, not by the view. *)
Definition _decodeString (buf : Buf) (off : nat) (len : Z) : result (value * nat) :=
  let start := (byteOffset buf + off)%nat in
  if zlen (buffer buf) <? Z.of_nat start + len
  then Throw (RangeError "Invalid typed array length")
  else Ok (VStr (utf8_decode (slice start (start + Z.to_nat len) (buffer buf))),
           (off + Z.to_nat len)%nat).

Definition _decodeBinary (buf : Buf) (off : nat) (len : Z) : result (value * nat) :=
  let remaining := Z.of_nat (byteLength buf) - Z.of_nat off in
  if (len <? 0) || (remaining <? len)
  then Throw (JsError "MessagePack binary length exceeds available data")
  else Ok (VBin (slice (byteOffset buf + off) (byteOffset buf + off + Z.to_nat len) (buffer buf)),
           (off + Z.to_nat len)%nat).

Section Decoder.
Context `{H : JsHost}.

(** The property key a decoded value becomes in [map[key]]; [None] is a
    TypeError ("Cannot convert object to primitive value"). *)
Fixpoint property_key (v : value) : option jsstr :=
  match v with
  | VNull => Some (lit "null")
  | VBool b => Some (lit (if b then "true" else "false"))
  | VInt n => Some (int_str n)
  | VFloat bits => Some (num_str bits)
  | VBigInt n => Some (int_str n)
  | VStr s => Some s
  | VBin b => Some (join_comma (map int_str b))
  | VArr l =>
      option_map join_comma
        ((fix strs (l : list value) : option (list jsstr) :=
            match l with
            | [] => Some []
            | x :: l' =>
                match (match x with VNull => Some [] | _ => property_key x end), strs l' with
                | Some a, Some b => Some (a :: b)
                | _, _ => None
                end
            end) l)
  | VMap _ => Some (lit "[object Map]")
  | VObj None props =>
      if has_prop (lit "toString") props then None else Some (lit "[object Object]")
  | VObj (Some _) _ => exotic_str v
  end.

(** One entry of [_decodeMap]. *)
Definition map_entry (key v : value) (proto : option value) (props : list (jsstr * value))
  : result (option value * list (jsstr * value)) :=
  match key with
  | VStr s =>
      if bool_decide (s = lit "__proto__") || bool_decide (s = lit "constructor")
         || bool_decide (s = lit "prototype")
      then Ok (proto, own_set s v props)
      else Ok (assign s v proto props)
  | _ =>
      match property_key key with
      | Some s => Ok (assign s v proto props)
      | None => Throw (TypeError "Cannot convert object to primitive value")
      end
  end.

(** The dispatch on the first byte, with [off] behind it; [arr] and [obj] decode
    the elements of an array and the entries of a map. *)
Definition decode_dispatch (arr obj : Z -> nat -> dec (value * nat)) (buf : Buf) (byte : Z)
  (off : nat) : dec (value * nat) :=
  let num (n : nat) (f : Z -> value) : dec (value * nat) :=
    Some (let! (v, off) := read_be n buf off in Ok (f v, off)) in
  let sized (n : nat) (f : Buf -> nat -> Z -> result (value * nat)) : dec (value * nat) :=
    Some (let! (len, off) := read_be n buf off in f buf off len) in
  let counted (n : nat) (f : Z -> nat -> dec (value * nat)) : dec (value * nat) :=
    dbind (Some (read_be n buf off)) (fun '(len, off) => f len off) in
  if byte <=? 127 then dret (VInt byte, off)
  else if byte <=? 143 then obj (Z.land byte 15) off
  else if byte <=? 159 then arr (Z.land byte 15) off
  else if byte <=? 191 then Some (_decodeString buf off (Z.land byte 31))
  else if 224 <=? byte then dret (VInt (byte - 256), off)
  else if byte =? 192 then dret (VNull, off)
  else if byte =? 194 then dret (VBool false, off)
  else if byte =? 195 then dret (VBool true, off)
  else if byte =? 196 then sized 1%nat _decodeBinary
  else if byte =? 197 then sized 2%nat _decodeBinary
  else if byte =? 198 then sized 4%nat _decodeBinary
  else if byte =? 204 then num 1%nat VInt
  else if byte =? 205 then num 2%nat VInt
  else if byte =? 206 then num 4%nat VInt
  else if byte =? 207 then num 8%nat safe_number
  else if byte =? 203 then num 8%nat number_of_bits
  else if byte =? 208 then num 1%nat (fun v => VInt (signed 1 v))
  else if byte =? 209 then num 2%nat (fun v => VInt (signed 2 v))
  else if byte =? 210 then num 4%nat (fun v => VInt (signed 4 v))
  else if byte =? 211 then num 8%nat (fun v => safe_number (signed 8 v))
  else if byte =? 217 then sized 1%nat _decodeString
  else if byte =? 218 then sized 2%nat _decodeString
  else if byte =? 219 then sized 4%nat _decodeString
  else if byte =? 220 then counted 2%nat arr
  else if byte =? 221 then counted 4%nat arr
  else if byte =? 222 then counted 2%nat obj
  else if byte =? 223 then counted 4%nat obj
  else dthrow (JsError "Unimplemented MessagePack byte").

Fixpoint decode_value (fuel : nat) (buf : Buf) (depth off : nat) : dec (value * nat) :=
  match fuel with
  | O => None
  | S fuel =>
      if (byteLength buf <=? off)%nat then dthrow (JsError "Unexpected end of data") else
      decode_dispatch
        (fun len off =>
           if (MAX_DEPTH <? S depth)%nat
           then dthrow (JsError "MessagePack nesting depth exceeded")
           else dbind (decode_items fuel buf (S depth) len off)
                  (fun '(l, off) => dret (VArr l, off)))
        (fun len off =>
           if (MAX_DEPTH <? S depth)%nat
           then dthrow (JsError "MessagePack nesting depth exceeded")
           else dbind (decode_entries fuel buf (S depth) len off None [])
                  (fun '(proto, props, off) => dret (VObj proto props, off)))
        buf (byte_at (byteOffset buf + off) (buffer buf)) (S off)
  end
with decode_items (fuel : nat) (buf : Buf) (depth : nat) (len : Z) (off : nat)
  : dec (list value * nat) :=
  match fuel with
  | O => None
  | S fuel =>
      if len <=? 0 then dret ([], off) else
      dbind (decode_value fuel buf depth off) (fun '(x, off) =>
      dbind (decode_items fuel buf depth (len - 1) off) (fun '(l, off) =>
      dret (x :: l, off)))
  end
with decode_entries (fuel : nat) (buf : Buf) (depth : nat) (len : Z) (off : nat)
  (proto : option value) (props : list (jsstr * value))
  : dec (option value * list (jsstr * value) * nat) :=
  match fuel with
  | O => None
  | S fuel =>
      if len <=? 0 then dret (proto, props, off) else
      dbind (decode_value fuel buf depth off) (fun '(key, off) =>
      dbind (decode_value fuel buf depth off) (fun '(v, off) =>
      dbind (Some (map_entry key v proto props)) (fun '(proto, props) =>
      decode_entries fuel buf depth (len - 1) off proto props)))
  end.

(** Two steps of fuel for every byte of the view are enough
    ([decode_terminates]). *)
Definition decode_fuel (buf : Buf) : nat := (2 * byteLength buf + 2)%nat.

Definition decode_at (buf : Buf) : dec (value * nat) := decode_value (decode_fuel buf) buf 0 0.

(** [MicroMsgPack.decode]. *)
Definition decode (buf : Buf) : dec value :=
  dbind (decode_at buf) (fun '(v, _) => dret v).

End Decoder.

(** ** Reading decoded values *)

(** The property [k] of a decoded value, through its prototypes. *)
Fixpoint prop (k : jsstr) (v : value) : option value :=
  match v with
  | VObj proto props =>
      match get k props with
      | Some x => Some x
      | None => match proto with Some p => prop k p | None => None end
      end
  | _ => None
  end.

(** ECMAScript's ToBoolean. *)
Definition truthy (v : value) : bool :=
  match v with
  | VNull => false
  | VBool b => b
  | VInt n => negb (n =? 0)
  | VFloat bits =>
      negb (bits =? NEG_ZERO)
      && negb (((bits / 2 ^ 52) mod 2048 =? 2047) && negb (bits mod 2 ^ 52 =? 0))
  | VBigInt n => negb (n =? 0)
  | VStr s => bool_decide (s <> [])
  | _ => true
  end.
