(* ===== verification/MsgPackSpec.v ===== *)
(** * MsgPackSpec: correctness of the MessagePack codec

    Round trip on canonical values, termination of the decoder on every input,
    the nesting bound, and the two places where the decoder does not keep what
    its comments promise. *)

From stdpp Require Import sorting.
From S2P Require Import Prelude Encoding Utf8 MsgPack.
#[local] Open Scope Z_scope.

(** ** Headers *)

Lemma js_and_255 v : js_and v 255 = v mod 256.
Proof.
  unfold js_and. change (int32 255) with (2 ^ 8 - 1). rewrite land_mask by lia.
  by rewrite int32_mod by lia.
Qed.

Lemma push16_be v : push16 v = be_bytes 2 v.
Proof.
  unfold push16. rewrite js_and_255. change 255 with (2 ^ 8 - 1).
  rewrite js_shr_land by lia. done.
Qed.

Lemma push32_be v : push32 v = be_bytes 4 v.
Proof.
  unfold push32. rewrite js_and_255. change 255 with (2 ^ 8 - 1).
  rewrite !js_shr_land by lia. cbn [be_bytes app].
  rewrite !Z.div_div by lia. done.
Qed.

Lemma js_or_header h len n : 0 <= n -> 0 <= h * 2 ^ n < 2 ^ 31 -> 0 <= len < 2 ^ n -> n <= 8 ->
  js_or (h * 2 ^ n) len = h * 2 ^ n + len.
Proof.
  intros Hn Hh Hl H8. unfold js_or. assert (2 ^ n <= 2 ^ 8) by (apply Z.pow_le_mono_r; lia).
  rewrite !int32_small by lia. by apply lor_add_pow2.
Qed.

(** ** Reading *)

Lemma slice_mid {A} (pre m post : list A) a b : a = length pre -> b = (length pre + length m)%nat ->
  slice a b (pre ++ m ++ post) = m.
Proof. intros -> ->. by apply slice_app_here. Qed.

Lemma read_be_at n v pre post off : off = length pre -> 
  read_be n (whole (pre ++ be_bytes n v ++ post)) off
  = Ok (v mod 256 ^ Z.of_nat n, (off + n)%nat).
Proof.
  intros ->. unfold read_be, whole. cbn [byteLength byteOffset buffer].
  rewrite (proj2 (Nat.ltb_ge _ _)) by (rewrite !length_app, length_be_bytes; lia).
  rewrite slice_mid by (rewrite ?length_be_bytes; done). by rewrite be_uint_be_bytes.
Qed.

(** The encoding [e] decodes to [v] anywhere, at depth [d], with [fuel]. *)
Definition decodes `{JsHost} (e : bytes) (v : value) (d fuel : nat) : Prop :=
  forall pre post f, (fuel <= f)%nat ->
    decode_value f (whole (pre ++ e ++ post)) d (length pre)
    = dret (v, (length pre + length e)%nat).

Section Spec.
Context `{H : JsHost}.

(** What remains after the dispatch byte. *)
Lemma decodes_intro e hd tl v d fuel : e = hd :: tl -> (1 <= fuel)%nat ->
  (forall pre post f, (fuel <= S f)%nat ->
    decode_dispatch
        (fun len off =>
           if (MAX_DEPTH <? S d)%nat
           then dthrow (JsError "MessagePack nesting depth exceeded")
           else dbind (decode_items f (whole (pre ++ tl ++ post)) (S d) len off)
                  (fun '(l, off) => dret (VArr l, off)))
        (fun len off =>
           if (MAX_DEPTH <? S d)%nat
           then dthrow (JsError "MessagePack nesting depth exceeded")
           else dbind (decode_entries f (whole (pre ++ tl ++ post)) (S d) len off None [])
                  (fun '(proto, props, off) => dret (VObj proto props, off)))
        (whole (pre ++ tl ++ post)) hd (length pre)
    = dret (v, (length pre + length tl)%nat)) ->
  decodes e v d fuel.
Proof.
  intros -> Hf Hd pre post f Hff. destruct f as [|f]; [lia|].
  specialize (Hd (pre ++ [hd]) post f Hff). rewrite <- !app_assoc in Hd. cbn [app] in Hd |- *.
  rewrite length_app in Hd. cbn [length] in Hd. rewrite Nat.add_1_r in Hd.
  set (buf := whole (pre ++ hd :: tl ++ post)) in *.
  assert (Hlen : (byteLength buf <=? length pre)%nat = false).
  { apply Nat.leb_gt. unfold buf, whole. cbn [byteLength]. rewrite !length_app. cbn [length]. lia. }
  assert (Hbyte : byte_at (byteOffset buf + length pre) (buffer buf) = hd).
  { unfold buf, whole. cbn [byteOffset buffer Nat.add].
    rewrite <- (Nat.add_0_r (length pre)). by rewrite byte_at_app. }
  cbn [decode_value]. rewrite Hlen, Hbyte, Hd. cbn [length].
  by rewrite Nat.add_succ_r.
Qed.

(** *** Atoms *)

Ltac dispatch := unfold decode_dispatch; cbn [Z.leb Z.compare Pos.compare Pos.compare_cont Z.eqb Pos.eqb].

Lemma decodes_num n hd (f : Z -> value) v x d :
  (forall arr obj buf off, decode_dispatch arr obj buf hd off
     = Some (let! (v, off) := read_be n buf off in Ok (f v, off))) ->
  f (x mod 256 ^ Z.of_nat n) = v ->
  decodes (hd :: be_bytes n x) v d 1.
Proof.
  intros Hd Hv. eapply decodes_intro; [done|lia|]. intros pre post fl _.
  rewrite Hd, read_be_at by done. cbn [rbind]. by rewrite Hv, length_be_bytes.
Qed.

Lemma safe_number_int n : - MAX_SAFE_INTEGER <= n <= MAX_SAFE_INTEGER -> safe_number n = VInt n.
Proof.
  intros. unfold safe_number. by rewrite (proj2 (Z.leb_le _ _)), (proj2 (Z.leb_le _ _)) by lia.
Qed.

Lemma signed_mod n x k : (0 < n)%nat -> 256 ^ Z.of_nat n / 2 = k -> - k <= x < k ->
  signed n (x mod 256 ^ Z.of_nat n) = x.
Proof.
  intros Hn <- Hx. unfold signed.
  assert (Hp : 0 < 256 ^ Z.of_nat n) by (apply Z.pow_pos_nonneg; lia).
  assert (He : 256 ^ Z.of_nat n = 2 * (256 ^ Z.of_nat n / 2)).
  { apply Z_div_exact_2; [lia|]. destruct n; [lia|]. rewrite Nat2Z.inj_succ, Z.pow_succ_r by lia.
    replace (256 * 256 ^ Z.of_nat n) with (128 * 256 ^ Z.of_nat n * 2) by lia. apply Z_mod_mult. }
  set (m := 256 ^ Z.of_nat n) in *. set (h := m / 2) in *. clearbody m h.
  destruct (Z.le_gt_cases 0 x).
  - rewrite Z.mod_small by lia. by rewrite (proj2 (Z.ltb_lt _ _)) by lia.
  - rewrite <- (Z.mod_add x 1) by lia. rewrite Z.mod_small by lia.
    rewrite (proj2 (Z.ltb_ge _ _)) by lia. lia.
Qed.

Lemma decodes_byte hd v d : (forall arr obj buf off,
    decode_dispatch arr obj buf hd off = dret (v, off)) -> decodes [hd] v d 1.
Proof.
  intros Hd. eapply decodes_intro; [done|lia|]. intros pre post f _. rewrite Hd. cbn [length].
  by rewrite Nat.add_0_r.
Qed.

Lemma be1 x : 0 <= x < 256 -> [x] = be_bytes 1 x.
Proof. intros. cbn. by rewrite Z.mod_small. Qed.

Lemma decodes_int n d : - MAX_SAFE_INTEGER <= n <= MAX_SAFE_INTEGER ->
  decodes (_encodeInteger n) (VInt n) d 1.
Proof.
  unfold MAX_SAFE_INTEGER. intros Hn. unfold _encodeInteger, MAX_SAFE_INTEGER.
  destruct (0 <=? n) eqn:E0; bools.
  - destruct (n <=? 127) eqn:E1; bools.
    { apply decodes_byte. intros. unfold decode_dispatch. by rewrite (proj2 (Z.leb_le n 127)). }
    destruct (n <=? 255) eqn:E2; bools.
    { rewrite be1 by lia. eapply decodes_num; [by intros|]. cbv beta. f_equal. apply Z.mod_small. cbn. lia. }
    destruct (n <=? 65535) eqn:E3; bools.
    { rewrite push16_be. eapply decodes_num; [by intros|]. cbv beta. f_equal. apply Z.mod_small. cbn. lia. }
    destruct (n <=? 4294967295) eqn:E4; bools.
    { rewrite push32_be. eapply decodes_num; [by intros|]. cbv beta. f_equal. apply Z.mod_small. cbn. lia. }
    destruct (n <=? 9007199254740991) eqn:E5; bools; [|lia].
    eapply decodes_num; [by intros|]. rewrite Z.mod_small by (cbn; lia).
    apply safe_number_int. unfold MAX_SAFE_INTEGER. lia.
  - destruct (-32 <=? n) eqn:E1; bools.
    { change 224 with (7 * 2 ^ 5). rewrite js_or_header by lia.
      apply decodes_byte. intros. unfold decode_dispatch.
      rewrite !(proj2 (Z.leb_gt (7 * 2 ^ 5 + (n + 32)) _)) by lia.
      rewrite (proj2 (Z.leb_le 224 _)) by lia. do 3 f_equal. lia. }
    destruct (-128 <=? n) eqn:E2; bools.
    { rewrite js_and_255. change [208; n mod 256] with (208 :: be_bytes 1 n).
      eapply decodes_num; [by intros|]. cbv beta. f_equal. apply (signed_mod 1 _ 128); [lia | reflexivity | lia]. }
    destruct (-32768 <=? n) eqn:E3; bools.
    { rewrite push16_be. eapply decodes_num; [by intros|]. cbv beta. f_equal.
      apply (signed_mod 2 _ 32768); [lia | reflexivity | lia]. }
    destruct (-2147483648 <=? n) eqn:E4; bools.
    { rewrite push32_be. eapply decodes_num; [by intros|]. cbv beta. f_equal.
      apply (signed_mod 4 _ 2147483648); [lia | reflexivity | lia]. }
    destruct (- (9007199254740991) <=? n) eqn:E5; bools; [|lia].
    eapply decodes_num; [by intros|]. cbv beta. rewrite (signed_mod 8 _ 9223372036854775808) by (reflexivity || lia).
    apply safe_number_int. unfold MAX_SAFE_INTEGER. lia.
Qed.

Lemma decodes_float bits d : 0 <= bits < 2 ^ 64 ->
  decodes (_encodeFloat64 bits) (number_of_bits bits) d 1.
Proof.
  intros Hb. eapply decodes_num; [by intros|]. cbv beta. f_equal. apply Z.mod_small. cbn in *. lia.
Qed.

Lemma decodes_bigint n e d : _encodeBigInt n = Ok e ->
  n < - MAX_SAFE_INTEGER \/ MAX_SAFE_INTEGER < n -> decodes e (VBigInt n) d 1.
Proof.
  unfold _encodeBigInt, MAX_SAFE_INTEGER. intros He Hn.
  assert (Hs : safe_number n = VBigInt n).
  { unfold safe_number, MAX_SAFE_INTEGER.
    destruct Hn; [rewrite (proj2 (Z.leb_gt (- _) _)) by lia; done |].
    rewrite (proj2 (Z.leb_gt n _)) by lia. by rewrite andb_false_r. }
  destruct (0 <=? n) eqn:E; bools.
  - destruct (_ <? n) eqn:E1; [discriminate|]. bools.
    assert (e = 207 :: be_bytes 8 n) as -> by congruence.
    eapply decodes_num; [by intros|]. rewrite Z.mod_small by (cbn; lia). done.
  - destruct (n <? _) eqn:E1; [discriminate|]. bools.
    assert (e = 211 :: be_bytes 8 n) as -> by congruence.
    eapply decodes_num; [by intros|]. cbv beta. rewrite (signed_mod 8 _ 9223372036854775808) by (reflexivity || lia). done.
Qed.

(** *** Strings and binaries *)

Lemma string_at pre u post off : off = length pre ->
  _decodeString (whole (pre ++ u ++ post)) off (zlen u)
  = Ok (VStr (utf8_decode u), (length pre + length u)%nat).
Proof.
  intros ->. unfold _decodeString, whole. cbn [byteOffset buffer Nat.add].
  rewrite (proj2 (Z.ltb_ge _ _)) by (rewrite !zlen_app; unfold zlen; lia).
  unfold zlen. rewrite Nat2Z.id. by rewrite slice_mid.
Qed.

Lemma binary_at pre u post off : off = length pre ->
  _decodeBinary (whole (pre ++ u ++ post)) off (zlen u)
  = Ok (VBin u, (length pre + length u)%nat).
Proof.
  intros ->. unfold _decodeBinary, whole. cbn [byteOffset byteLength buffer Nat.add].
  rewrite (proj2 (Z.ltb_ge _ _)) by apply zlen_nonneg.
  rewrite (proj2 (Z.ltb_ge _ _)) by (rewrite !length_app; unfold zlen; lia). cbn [orb].
  unfold zlen. rewrite Nat2Z.id. by rewrite slice_mid.
Qed.

(** A length field of [n] bytes followed by the payload. *)
Lemma decodes_sized n hd (g : Buf -> nat -> Z -> result (value * nat)) u v d :
  (forall arr obj buf off, decode_dispatch arr obj buf hd off
     = Some (let! (len, off) := read_be n buf off in g buf off len)) ->
  (forall pre post off, off = length pre ->
     g (whole (pre ++ u ++ post)) off (zlen u) = Ok (v, (length pre + length u)%nat)) ->
  zlen u < 256 ^ Z.of_nat n ->
  decodes (hd :: be_bytes n (zlen u) ++ u) v d 1.
Proof.
  intros Hd Hg Hl. eapply decodes_intro; [done|lia|]. intros pre post f _.
  rewrite Hd, <- app_assoc, read_be_at by done. cbn [rbind].
  rewrite Z.mod_small by (pose proof (zlen_nonneg u); lia).
  rewrite app_assoc, Hg by (rewrite length_app, length_be_bytes; done).
  rewrite !length_app, length_be_bytes. by rewrite Nat.add_assoc.
Qed.

Lemma land_header h len n : 0 <= n -> 0 <= len < 2 ^ n -> Z.land (h * 2 ^ n + len) (2 ^ n - 1) = len.
Proof.
  intros Hn Hl. rewrite land_mask by lia. rewrite (Z.add_comm (h * 2 ^ n)), Z_mod_plus_full.
  by apply Z.mod_small.
Qed.

Lemma decodes_string s d : wf_str s -> zlen (utf8_encode s) < 2 ^ 32 ->
  decodes (_encodeString s) (VStr s) d 1.
Proof.
  intros Hs Hl. unfold _encodeString. cbv zeta. set (u := utf8_encode s) in *.
  assert (Hg : forall pre post off, off = length pre ->
    _decodeString (whole (pre ++ u ++ post)) off (zlen u) = Ok (VStr s, (length pre + length u)%nat)).
  { intros. rewrite string_at by done. unfold u. by rewrite utf8_decode_encode. }
  pose proof (zlen_nonneg u).
  destruct (zlen u <=? 31) eqn:E1; bools.
  { change 160 with (5 * 2 ^ 5). rewrite js_or_header by lia.
    eapply decodes_intro; [done|lia|]. intros pre post f _. unfold decode_dispatch.
    rewrite !(proj2 (Z.leb_gt (5 * 2 ^ 5 + zlen u) _)) by lia.
    rewrite (proj2 (Z.leb_le (5 * 2 ^ 5 + zlen u) _)) by lia.
    change 31 with (2 ^ 5 - 1). rewrite land_header by lia. by rewrite Hg. }
  destruct (zlen u <=? 255) eqn:E2; bools.
  { change [217; zlen u] with (217 :: [zlen u]). rewrite be1 by lia.
    eapply decodes_sized; [by intros | done | cbn; lia]. }
  destruct (zlen u <=? 65535) eqn:E3; bools.
  - rewrite push16_be. eapply decodes_sized; [by intros | done | cbn; lia].
  - rewrite push32_be. eapply decodes_sized; [by intros | done | cbn in *; lia].
Qed.

Lemma decodes_binary u d : zlen u < 2 ^ 32 -> decodes (_encodeBinary u) (VBin u) d 1.
Proof.
  intros Hl. unfold _encodeBinary. cbv zeta. pose proof (zlen_nonneg u).
  destruct (zlen u <=? 255) eqn:E2; bools.
  { change [196; zlen u] with (196 :: [zlen u]). rewrite be1 by lia.
    eapply decodes_sized; [by intros | intros; by apply binary_at | cbn; lia]. }
  destruct (zlen u <=? 65535) eqn:E3; bools.
  - rewrite push16_be. eapply decodes_sized; [by intros | intros; by apply binary_at | cbn; lia].
  - rewrite push32_be. eapply decodes_sized; [by intros | intros; by apply binary_at | cbn in *; lia].
Qed.

(** *** Arrays and maps *)

Lemma decodes_weaken e v d f f' : (f <= f')%nat -> decodes e v d f -> decodes e v d f'.
Proof. intros Hf Hd pre post g Hg. apply Hd. lia. Qed.

(** Dispatching on a header leads to its elements with the right count. *)
Lemma array_header_dispatch len : 0 <= len < 2 ^ 32 ->
  exists hd tl, array_header len = hd :: tl
    /\ forall arr obj pre post, decode_dispatch arr obj (whole (pre ++ tl ++ post)) hd (length pre)
       = arr len (length pre + length tl)%nat.
Proof.
  intros Hl. unfold array_header.
  destruct (len <=? 15) eqn:E1; bools.
  { change 144 with (9 * 2 ^ 4). rewrite js_or_header by lia. eexists. exists []. split; [done|].
    intros. unfold decode_dispatch. rewrite !(proj2 (Z.leb_gt (9 * 2 ^ 4 + len) _)) by lia.
    rewrite (proj2 (Z.leb_le (9 * 2 ^ 4 + len) _)) by lia.
    change 15 with (2 ^ 4 - 1). rewrite land_header by lia. by rewrite Nat.add_0_r. }
  destruct (len <=? 65535) eqn:E2; bools.
  - rewrite push16_be. eexists. eexists. split; [done|]. intros. unfold decode_dispatch.
    cbn [Z.leb Z.compare Pos.compare Pos.compare_cont Z.eqb Pos.eqb].
    rewrite read_be_at, length_be_bytes by done. cbn [dbind]. f_equal. apply Z.mod_small. cbn. lia.
  - rewrite push32_be. eexists. eexists. split; [done|]. intros. unfold decode_dispatch.
    cbn [Z.leb Z.compare Pos.compare Pos.compare_cont Z.eqb Pos.eqb].
    rewrite read_be_at, length_be_bytes by done. cbn [dbind]. f_equal. apply Z.mod_small.
    cbn in *. lia.
Qed.

Lemma map_header_dispatch len : 0 <= len < 2 ^ 32 ->
  exists hd tl, map_header len = hd :: tl
    /\ forall arr obj pre post, decode_dispatch arr obj (whole (pre ++ tl ++ post)) hd (length pre)
       = obj len (length pre + length tl)%nat.
Proof.
  intros Hl. unfold map_header.
  destruct (len <=? 15) eqn:E1; bools.
  { change 128 with (8 * 2 ^ 4). rewrite js_or_header by lia. eexists. exists []. split; [done|].
    intros. unfold decode_dispatch. rewrite !(proj2 (Z.leb_gt (8 * 2 ^ 4 + len) _)) by lia.
    rewrite (proj2 (Z.leb_le (8 * 2 ^ 4 + len) _)) by lia.
    change 15 with (2 ^ 4 - 1). rewrite land_header by lia. by rewrite Nat.add_0_r. }
  destruct (len <=? 65535) eqn:E2; bools.
  - rewrite push16_be. eexists. eexists. split; [done|]. intros. unfold decode_dispatch.
    cbn [Z.leb Z.compare Pos.compare Pos.compare_cont Z.eqb Pos.eqb].
    rewrite read_be_at, length_be_bytes by done. cbn [dbind]. f_equal. apply Z.mod_small. cbn. lia.
  - rewrite push32_be. eexists. eexists. split; [done|]. intros. unfold decode_dispatch.
    cbn [Z.leb Z.compare Pos.compare Pos.compare_cont Z.eqb Pos.eqb].
    rewrite read_be_at, length_be_bytes by done. cbn [dbind]. f_equal. apply Z.mod_small.
    cbn in *. lia.
Qed.

Fixpoint encode_items (l : list value) : result bytes :=
  match l with
  | [] => Ok []
  | x :: l' => let! a := _encodeValue x in let! b := encode_items l' in Ok (a ++ b)
  end.

Fixpoint encode_props (l : list (jsstr * value)) : result bytes :=
  match l with
  | [] => Ok []
  | (k, x) :: l' =>
      let! a := _encodeValue x in let! b := encode_props l' in
      Ok (_encodeString k ++ a ++ b)
  end.

Lemma encode_arr l : _encodeValue (VArr l)
  = let! body := encode_items l in Ok (array_header (zlen l) ++ body).
Proof. reflexivity. Qed.

Lemma encode_obj p props : _encodeValue (VObj p props)
  = let! body := encode_props props in Ok (map_header (zlen props) ++ body).
Proof. reflexivity. Qed.

(** The value [v] is encoded, and its encoding decodes to [v] at depth [k]. *)
Definition coded (k : nat) (v : value) : Prop :=
  exists e, _encodeValue v = Ok e /\ e <> [] /\ decodes e v k (2 * length e).

Lemma coded_atom k v e : _encodeValue v = Ok e -> e <> [] -> decodes e v k 1 -> coded k v.
Proof.
  intros He Hne Hd. exists e. repeat split; auto.
  apply (decodes_weaken e v k 1); [|done]. destruct e; [done|]. cbn [length]. lia.
Qed.

Lemma items_coded k l : Forall (coded k) l ->
  exists e, encode_items l = Ok e
    /\ forall pre post f, (2 * length e + 1 <= f)%nat ->
       decode_items f (whole (pre ++ e ++ post)) k (zlen l) (length pre)
       = dret (l, (length pre + length e)%nat).
Proof.
  induction 1 as [|v l (e & He & Hne & Hd) _ (es & Hes & IH)].
  - exists []. split; [done|]. intros pre post f Hf. destruct f; [lia|]. cbn.
    by rewrite Nat.add_0_r.
  - exists (e ++ es). cbn [encode_items]. rewrite He, Hes. split; [done|].
    intros pre post f Hf. rewrite length_app in Hf.
    assert (1 <= length e)%nat by (destruct e; [done|cbn; lia]).
    destruct f as [|f]; [lia|]. cbn [decode_items]. rewrite zlen_cons.
    pose proof (zlen_nonneg l). rewrite (proj2 (Z.leb_gt _ _)) by lia.
    rewrite <- app_assoc, Hd by lia. cbn [dbind dret].
    specialize (IH (pre ++ e) post f). rewrite <- app_assoc, length_app in IH.
    replace (1 + zlen l - 1) with (zlen l) by lia. rewrite IH by lia. cbn [dbind dret].
    rewrite length_app. by rewrite Nat.add_assoc.
Qed.

Lemma arr_coded k l : (S k <= MAX_DEPTH)%nat -> zlen l < 2 ^ 32 -> Forall (coded (S k)) l ->
  coded k (VArr l).
Proof.
  intros Hk Hl HF. destruct (items_coded (S k) l HF) as (body & Hb & Hd).
  destruct (array_header_dispatch (zlen l)) as (hd & tl & Hh & Hdisp);
    [pose proof (zlen_nonneg l); lia|].
  exists (array_header (zlen l) ++ body). rewrite encode_arr, Hb. split; [done|].
  rewrite Hh. split; [done|]. cbn [app].
  eapply decodes_intro; [done | cbn [length]; lia |]. intros pre post f Hf.
  rewrite <- app_assoc, Hdisp. rewrite (proj2 (Nat.ltb_ge _ _)) by done.
  specialize (Hd (pre ++ tl) post f). rewrite length_app, <- app_assoc in Hd.
  cbn [length] in Hf. rewrite length_app in Hf. rewrite Hd by lia. cbn [dbind dret].
  rewrite length_app. by rewrite Nat.add_assoc.
Qed.

(** *** Objects: keys in property order are appended *)

Definition props_ordered (props : list (jsstr * value)) : Prop :=
  NoDup (map fst props)
  /\ StronglySorted (fun a b => key_before (fst b) (fst a) = false) props.

Lemma insert_prop_last k v props :
  Forall (fun a => key_before k (fst a) = false) props -> insert_prop k v props = props ++ [(k, v)].
Proof.
  induction 1 as [|[k' v'] l Hk _ IH]; [done|]. cbn [insert_prop fst] in *. rewrite Hk. by rewrite IH.
Qed.

Lemma has_prop_false k props : ~ In k (map fst props) -> has_prop k props = false.
Proof.
  intros Hn. apply not_true_iff_false. unfold has_prop. rewrite existsb_exists.
  intros ([k' v'] & Hin & E). apply bool_decide_eq_true in E. subst. apply Hn.
  apply in_map_iff. by exists (k', v').
Qed.

Lemma map_entry_str s v props :
  map_entry (VStr s) v None props = Ok (None, own_set s v props).
Proof.
  unfold map_entry, assign. destruct (bool_decide (s = lit "__proto__")); cbn [orb andb]; [done|].
  by destruct (_ || _).
Qed.

Lemma entries_coded k props acc :
  Forall (fun kv => wf_str (fst kv) /\ zlen (utf8_encode (fst kv)) < 2 ^ 32 /\ coded k (snd kv)) props ->
  props_ordered (acc ++ props) ->
  exists e, encode_props props = Ok e
    /\ forall pre post f, (2 * length e + 1 <= f)%nat ->
       decode_entries f (whole (pre ++ e ++ post)) k (zlen props) (length pre) None acc
       = dret (None, acc ++ props, (length pre + length e)%nat).
Proof.
  intros HF. revert acc.
  induction HF as [|[s v] l (Hs & Hsl & (e & He & Hne & Hd)) _ IH]; intros acc Hord.
  - exists []. split; [done|]. intros pre post f Hf. destruct f; [lia|]. cbn.
    by rewrite app_nil_r, Nat.add_0_r.
  - cbn [fst snd] in *. destruct (IH (acc ++ [(s, v)])) as (es & Hes & Hd2).
    { by rewrite <- app_assoc. }
    exists (_encodeString s ++ e ++ es). cbn [encode_props]. rewrite He, Hes. split; [done|].
    intros pre post f Hf. rewrite !length_app in Hf.
    assert (1 <= length e)%nat by (destruct e; [done|cbn; lia]).
    assert (1 <= length (_encodeString s))%nat.
    { unfold _encodeString. cbv zeta. rewrite length_app. repeat case_goal; cbn [length]; lia. }
    destruct f as [|f]; [lia|]. cbn [decode_entries]. rewrite zlen_cons.
    pose proof (zlen_nonneg l). rewrite (proj2 (Z.leb_gt _ _)) by lia.
    rewrite <- app_assoc, (decodes_string s k Hs Hsl) by lia. cbn [dbind dret].
    specialize (Hd (pre ++ _encodeString s) (es ++ post) f).
    rewrite <- !app_assoc, length_app in Hd. rewrite <- app_assoc, Hd by lia. cbn [dbind dret].
    rewrite map_entry_str. cbn [dbind].
    destruct Hord as [Hnd Hsort].
    assert (own_set s v acc = acc ++ [(s, v)]) as ->.
    { unfold own_set. rewrite has_prop_false.
      - apply insert_prop_last. apply Forall_forall. intros x Hx.
        apply StronglySorted_app_1_elem_of with (x1 := x) (x2 := (s, v)) in Hsort;
          [done | done | by left].
      - rewrite map_app in Hnd. apply NoDup_app in Hnd as (_ & Hnd & _).
        intros Hin. apply list_elem_of_In in Hin. apply (Hnd s Hin). cbn. by left. }
    specialize (Hd2 (pre ++ _encodeString s ++ e) post f).
    rewrite <- !app_assoc, !length_app in Hd2. rewrite Nat.add_assoc in Hd2.
    replace (1 + zlen l - 1) with (zlen l) by lia. rewrite Hd2 by lia.
    cbn [app]. rewrite !length_app, !Nat.add_assoc. done.
Qed.

Lemma obj_coded k props : (S k <= MAX_DEPTH)%nat -> zlen props < 2 ^ 32 ->
  Forall (fun kv => wf_str (fst kv) /\ zlen (utf8_encode (fst kv)) < 2 ^ 32 /\ coded (S k) (snd kv))
    props -> props_ordered props -> coded k (VObj None props).
Proof.
  intros Hk Hl HF Hord. destruct (entries_coded (S k) props [] HF Hord) as (body & Hb & Hd).
  destruct (map_header_dispatch (zlen props)) as (hd & tl & Hh & Hdisp);
    [pose proof (zlen_nonneg props); lia|].
  exists (map_header (zlen props) ++ body). rewrite encode_obj, Hb. split; [done|].
  rewrite Hh. split; [done|]. cbn [app].
  eapply decodes_intro; [done | cbn [length]; lia |]. intros pre post f Hf.
  rewrite <- app_assoc, Hdisp. rewrite (proj2 (Nat.ltb_ge _ _)) by done.
  specialize (Hd (pre ++ tl) post f). rewrite length_app, <- app_assoc in Hd.
  cbn [length] in Hf. rewrite length_app in Hf. rewrite Hd by lia. cbn [dbind dret app].
  rewrite length_app. by rewrite Nat.add_assoc.
Qed.

(** ** Canonical values

    The values the codec is made for: safe integers, other Numbers by their
    bits (but -0), BigInts beyond the safe range, well-formed strings without a
    leading byte order mark, byte strings, arrays and plain objects in property
    order, nested at most [d] deep. *)
Fixpoint canonical (d : nat) (v : value) : Prop :=
  match v with
  | VNull | VBool _ => True
  | VInt n => - MAX_SAFE_INTEGER <= n <= MAX_SAFE_INTEGER
  | VFloat bits => 0 <= bits < 2 ^ 64 /\ bits <> NEG_ZERO /\ number_of_bits bits = VFloat bits
  | VBigInt n => (n < - MAX_SAFE_INTEGER \/ MAX_SAFE_INTEGER < n) /\ - 2 ^ 63 <= n < 2 ^ 64
  | VStr s => wf_str s /\ zlen (utf8_encode s) < 2 ^ 32
  | VBin b => zlen b < 2 ^ 32
  | VArr l => match d with
              | O => False
              | S d' => zlen l < 2 ^ 32 /\ Forall (canonical d') l
              end
  | VMap _ => False
  | VObj None props =>
      match d with
      | O => False
      | S d' => zlen props < 2 ^ 32 /\ props_ordered props
                /\ Forall (fun kv => wf_str (fst kv) /\ zlen (utf8_encode (fst kv)) < 2 ^ 32
                                     /\ canonical d' (snd kv)) props
      end
  | VObj (Some _) _ => False
  end.

Lemma canonical_coded d v k : canonical d v -> (k + d <= MAX_DEPTH)%nat -> coded k v.
Proof.
  revert v k. induction d as [|d IH]; intros v k Hc Hk; destruct v as [|b|n|bits|n|s|b|l|es|[p|] props];
    cbn [canonical] in Hc; try done;
    try (by eapply coded_atom; [done | done | apply decodes_byte; intros; unfold decode_dispatch]);
    try (destruct b; eapply coded_atom; [done | done | apply decodes_byte; intros; done
                                        | done | done | apply decodes_byte; intros; done]; fail).
  all: try (eapply coded_atom; [done | unfold _encodeInteger; repeat case_goal; done
                               | by apply decodes_int]; fail).
  all: try (destruct Hc as (H1 & H2 & H3); eapply coded_atom;
    [cbn [_encodeValue]; unfold _encodeNumber_float; by rewrite (proj2 (Z.eqb_neq _ _) H2)
    | done | rewrite <- H3; by apply decodes_float]; fail).
  all: try (destruct Hc as [H1 H2]; assert (He : is_ok (_encodeBigInt n) = true) by
    (unfold _encodeBigInt; repeat case_goal; bools; (done || cbn in *; lia));
    destruct (_encodeBigInt n) as [e|] eqn:E; [|done];
    eapply coded_atom; [exact E | unfold _encodeBigInt in E; repeat case_hyp E; congruence
                       | by apply decodes_bigint]; fail).
  all: try (destruct Hc as [H1 H2]; eapply coded_atom;
    [done | unfold _encodeString; repeat case_goal; done | by apply decodes_string]; fail).
  all: try (eapply coded_atom; [done | unfold _encodeBinary; repeat case_goal; done
                               | by apply decodes_binary]; fail).
  - destruct Hc as [Hl HF]. unfold MAX_DEPTH in *. apply arr_coded; [unfold MAX_DEPTH; lia | done |].
    eapply Forall_impl; [exact HF|]. intros x Hx. apply IH; [done|lia].
  - destruct Hc as (Hl & Hord & HF). unfold MAX_DEPTH in *.
    apply obj_coded; [unfold MAX_DEPTH; lia | done | | done].
    eapply Forall_impl; [exact HF|]. intros x (H1 & H2 & H3). repeat split; auto. 1, 2: apply H1.
    apply IH; [done|lia].
Qed.

(** ** Termination and nesting of the decoder *)

(** Values nested at most [d] deep, prototypes included. *)
Fixpoint nested_within (d : nat) (v : value) : Prop :=
  match v with
  | VArr l => match d with O => False | S d' => Forall (nested_within d') l end
  | VObj p props =>
      match d with
      | O => False
      | S d' => Forall (fun kv => nested_within d' (snd kv)) props
                /\ match p with Some q => nested_within d' q | None => True end
      end
  | VMap _ => False
  | _ => True
  end.

Lemma props_replace (P : value -> Prop) k v props : P v ->
  Forall (fun kv => P (snd kv)) props -> Forall (fun kv => P (snd kv)) (replace_prop k v props).
Proof.
  intros Hv. induction 1 as [|[k' v'] l Hx Hl IH]; cbn [replace_prop]; [constructor|].
  case_bool_decide; constructor; auto.
Qed.

Lemma props_insert (P : value -> Prop) k v props : P v ->
  Forall (fun kv => P (snd kv)) props -> Forall (fun kv => P (snd kv)) (insert_prop k v props).
Proof.
  intros Hv. induction 1 as [|[k' v'] l Hx Hl IH]; cbn [insert_prop]; [by repeat constructor|].
  destruct (key_before k k'); repeat constructor; auto.
Qed.

Lemma props_own_set (P : value -> Prop) k v props : P v ->
  Forall (fun kv => P (snd kv)) props -> Forall (fun kv => P (snd kv)) (own_set k v props).
Proof.
  intros. unfold own_set. destruct (has_prop k props);
    [by apply props_replace | by apply props_insert].
Qed.

Definition entries_within (d : nat) (p : option value) (props : list (jsstr * value)) : Prop :=
  Forall (fun kv => nested_within d (snd kv)) props
  /\ match p with Some q => nested_within d q | None => True end.

Lemma assign_within d k v p props : nested_within d v -> entries_within d p props ->
  entries_within d (fst (assign k v p props)) (snd (assign k v p props)).
Proof.
  intros Hv [Hp Hq]. unfold assign. destruct (_ && _).
  - split; [done|]. cbn [fst]. by destruct (object_like v).
  - split; [|done]. cbn [snd]. by apply (props_own_set (nested_within d)).
Qed.

Lemma map_entry_within d key v p props p' props' : nested_within d v -> entries_within d p props ->
  map_entry key v p props = Ok (p', props') -> entries_within d p' props'.
Proof.
  intros Hv Hp Hm. pose proof (fun k => assign_within d k v p props Hv Hp) as Ha.
  unfold map_entry in Hm.
  destruct key; try (destruct (property_key _) as [k|]; [|discriminate]; injection Hm as Hm;
    specialize (Ha k); rewrite Hm in Ha; exact Ha).
  destruct (_ || _).
  - injection Hm as <- <-. destruct Hp. split; [|done]. by apply (props_own_set (nested_within d)).
  - injection Hm as Hm. specialize (Ha s). rewrite Hm in Ha. exact Ha.
Qed.

(** What one call of each of the three functions guarantees. *)
Definition value_ok (buf : Buf) (d off : nat) (r : dec (value * nat)) : Prop :=
  exists x, r = Some x /\ forall v off', x = Ok (v, off') ->
    (off < off')%nat /\ nested_within (MAX_DEPTH - d) v.

Lemma lift_ok buf d off (r : result (value * nat)) :
  (forall v off', r = Ok (v, off') -> (off < off')%nat /\ nested_within (MAX_DEPTH - d) v) ->
  value_ok buf d off (Some r).
Proof. intros Hr. by exists r. Qed.

Lemma dispatch_ok arr obj buf byte d off off0 :
  (off0 < off)%nat ->
  (forall n o, (off <= o)%nat -> value_ok buf d off0 (arr n o)) ->
  (forall n o, (off <= o)%nat -> value_ok buf d off0 (obj n o)) ->
  value_ok buf d off0 (decode_dispatch arr obj buf byte off).
Proof.
  intros Hoff Harr Hobj.
  assert (Hnum : forall n (f : Z -> value), (forall z, nested_within (MAX_DEPTH - d) (f z)) ->
    value_ok buf d off0 (Some (let! (v, off) := read_be n buf off in Ok (f v, off)))).
  { intros n f Hf. apply lift_ok. intros v o E. apply rbind_ok in E as ([z o'] & Hr & [= <- <-]).
    unfold read_be in Hr. destruct (_ <? _)%nat; [discriminate|]. injection Hr as <- <-.
    split; [lia | apply Hf]. }
  assert (Hstr : forall n o, (off <= o)%nat -> forall v o',
    _decodeString buf o n = Ok (v, o') -> (off0 < o')%nat /\ nested_within (MAX_DEPTH - d) v).
  { intros n o Ho v o'. unfold _decodeString. destruct (_ <? _); [discriminate|].
    intros [= <- <-]. split; [lia|]. by destruct (MAX_DEPTH - d)%nat. }
  assert (Hbin : forall n o, (off <= o)%nat -> forall v o',
    _decodeBinary buf o n = Ok (v, o') -> (off0 < o')%nat /\ nested_within (MAX_DEPTH - d) v).
  { intros n o Ho v o'. unfold _decodeBinary. destruct (_ || _); [discriminate|].
    intros [= <- <-]. split; [lia|]. by destruct (MAX_DEPTH - d)%nat. }
  assert (Hread : forall n z o, read_be n buf off = Ok (z, o) -> (off <= o)%nat).
  { intros n z o. unfold read_be. destruct (_ <? _)%nat; [discriminate|]. intros [= _ <-]. lia. }
  assert (Hsized : forall n (f : Buf -> nat -> Z -> result (value * nat)),
    (forall n o, (off <= o)%nat -> forall v o', f buf o n = Ok (v, o') ->
       (off0 < o')%nat /\ nested_within (MAX_DEPTH - d) v) ->
    value_ok buf d off0 (Some (let! (len, off) := read_be n buf off in f buf off len))).
  { intros n f Hf. apply lift_ok. intros v o E. apply rbind_ok in E as ([z o'] & Hr & E).
    eapply Hf; [|exact E]. by eapply Hread. }
  assert (Hcount : forall n (f : Z -> nat -> dec (value * nat)),
    (forall n o, (off <= o)%nat -> value_ok buf d off0 (f n o)) ->
    value_ok buf d off0 (dbind (Some (read_be n buf off)) (fun '(len, off) => f len off))).
  { intros n f Hf. destruct (read_be n buf off) as [[z o]|e] eqn:E; cbn [dbind].
    - apply Hf. by eapply Hread.
    - exists (Throw e). split; [done|]. discriminate. }
  assert (Hret : forall v, nested_within (MAX_DEPTH - d) v -> value_ok buf d off0 (dret (v, off))).
  { intros v Hv. apply lift_ok. intros v' o' [= <- <-]. split; [lia|done]. }
  assert (Hat : forall z, nested_within (MAX_DEPTH - d) (VInt z)
    /\ nested_within (MAX_DEPTH - d) (safe_number z)
    /\ nested_within (MAX_DEPTH - d) (number_of_bits z)).
  { intros z. unfold safe_number, number_of_bits.
    repeat case_goal; destruct (MAX_DEPTH - d)%nat; done. }
  unfold decode_dispatch.
  repeat match goal with
  | |- value_ok _ _ _ (if ?c then _ else _) => destruct c
  | |- value_ok _ _ _ (dbind _ _) => apply Hcount; [auto]
  | |- value_ok _ _ _ (dret _) => apply Hret; destruct (MAX_DEPTH - d)%nat; exact I
  | |- value_ok _ _ _ (arr _ _) => apply Harr; lia
  | |- value_ok _ _ _ (obj _ _) => apply Hobj; lia
  end; auto.
  all: try (apply lift_ok; apply Hstr; lia).
  all: try (apply Hnum; intros z; apply Hat).
  all: try (apply Hsized; done).
  exists (Throw (JsError "Unimplemented MessagePack byte")). split; [done|discriminate].
Qed.

Definition items_ok (d off : nat) (r : dec (list value * nat)) : Prop :=
  exists x, r = Some x /\ forall l off', x = Ok (l, off') ->
    (off <= off')%nat /\ Forall (nested_within (MAX_DEPTH - d)) l.

Definition entries_ok (d off : nat) (r : dec (option value * list (jsstr * value) * nat)) : Prop :=
  exists x, r = Some x /\ forall p props off', x = Ok (p, props, off') ->
    (off <= off')%nat /\ entries_within (MAX_DEPTH - d) p props.

Lemma decode_ok fuel buf :
  (forall d off, (d <= MAX_DEPTH)%nat -> (2 * (byteLength buf - off) + 1 <= fuel)%nat ->
     value_ok buf d off (decode_value fuel buf d off)
     /\ ((byteLength buf <= off)%nat -> exists e, decode_value fuel buf d off = Some (Throw e)))
  /\ (forall d n off, (d <= MAX_DEPTH)%nat -> (2 * (byteLength buf - off) + 2 <= fuel)%nat ->
     items_ok d off (decode_items fuel buf d n off))
  /\ (forall d n off p props, (d <= MAX_DEPTH)%nat ->
     (2 * (byteLength buf - off) + 2 <= fuel)%nat ->
     entries_within (MAX_DEPTH - d) p props ->
     entries_ok d off (decode_entries fuel buf d n off p props)).
Proof.
  induction fuel as [|fuel (IHv & IHi & IHe)]; [split; [|split]; intros; lia|].
  split; [|split].
  - intros d off Hd Hf. cbn [decode_value]. destruct (byteLength buf <=? off)%nat eqn:E; bools.
    { split; [|eauto]. eexists. split; [reflexivity|]. discriminate. }
    split; [|lia].
    apply dispatch_ok; [lia | intros n o Ho | intros n o Ho];
      (destruct (MAX_DEPTH <? S d)%nat eqn:Ed; bools;
       [eexists; split; [reflexivity | discriminate]|]).
    + destruct (IHi (S d) n o) as (x & -> & Hx); [lia | lia |].
      destruct x as [[l o']|e]; cbn [dbind]; [|eexists; split; [reflexivity | discriminate]].
      destruct (Hx l o' eq_refl) as [H1 H2]. apply lift_ok. intros v o2 [= <- <-].
      split; [lia|]. replace (MAX_DEPTH - d)%nat with (S (MAX_DEPTH - S d)) by lia. exact H2.
    + destruct (IHe (S d) n o None []) as (x & -> & Hx); [lia | lia | by repeat constructor |].
      destruct x as [[[p props] o']|e]; cbn [dbind];
        [|eexists; split; [reflexivity | discriminate]].
      destruct (Hx p props o' eq_refl) as [H1 H2]. apply lift_ok. intros v o2 [= <- <-].
      split; [lia|]. replace (MAX_DEPTH - d)%nat with (S (MAX_DEPTH - S d)) by lia. exact H2.
  - intros d n off Hd Hf. cbn [decode_items].
    destruct (n <=? 0); [eexists; split; [reflexivity|]; intros l o [= <- <-]; by split; auto|].
    destruct (IHv d off Hd ltac:(lia)) as [(x & Ex & Hx) Hend]. rewrite Ex.
    destruct x as [[v o]|e]; cbn [dbind]; [|eexists; split; [reflexivity | discriminate]].
    destruct (Hx v o eq_refl) as [Ho Hv].
    assert (off < byteLength buf)%nat.
    { destruct (Nat.le_gt_cases (byteLength buf) off) as [Hle|]; [|done].
      destruct (Hend Hle) as [e He]. congruence. }
    destruct (IHi d (n - 1) o Hd ltac:(lia)) as (y & -> & Hy).
    destruct y as [[l o']|e]; cbn [dbind]; [|eexists; split; [reflexivity | discriminate]].
    destruct (Hy l o' eq_refl) as [Ho' Hl]. eexists. split; [reflexivity|].
    intros l2 o2 [= <- <-]. split; [lia | by constructor].
  - intros d n off p props Hd Hf Hp. cbn [decode_entries].
    destruct (n <=? 0); [eexists; split; [reflexivity|]; intros p2 l o [= <- <- <-]; by split; auto|].
    destruct (IHv d off Hd ltac:(lia)) as [(x & Ex & Hx) Hend]. rewrite Ex.
    destruct x as [[key o]|e]; cbn [dbind]; [|eexists; split; [reflexivity | discriminate]].
    destruct (Hx key o eq_refl) as [Ho _].
    assert (off < byteLength buf)%nat.
    { destruct (Nat.le_gt_cases (byteLength buf) off) as [Hle|]; [|done].
      destruct (Hend Hle) as [e He]. congruence. }
    destruct (IHv d o Hd ltac:(lia)) as [(y & -> & Hy) _].
    destruct y as [[v o']|e]; cbn [dbind]; [|eexists; split; [reflexivity | discriminate]].
    destruct (Hy v o' eq_refl) as [Ho' Hv].
    destruct (map_entry key v p props) as [[p' props']|e] eqn:Em; cbn [dbind];
      [|eexists; split; [reflexivity | discriminate]].
    destruct (IHe d (n - 1) o' p' props' Hd ltac:(lia)) as (z & -> & Hz).
    { by eapply map_entry_within. }
    exists z. split; [done|]. intros p2 l o2 E. destruct (Hz p2 l o2 E). split; [lia|done].
Qed.

End Spec.

(** ** Timestamps: [encodeFloat64] of a safe integer *)

Lemma bits_of_int_spec n : n <> 0 -> - MAX_SAFE_INTEGER <= n <= MAX_SAFE_INTEGER ->
  let e := Z.log2 (Z.abs n) in
  let m := Z.abs n * 2 ^ (52 - e) in
  0 <= e <= 52 /\ 2 ^ 52 <= m < 2 ^ 53 /\ m / 2 ^ (52 - e) = Z.abs n /\ m mod 2 ^ (52 - e) = 0
  /\ bits_of_int n = (if n <? 0 then 2 ^ 63 else 0) + (e + 1023) * 2 ^ 52 + (m - 2 ^ 52).
Proof.
  intros Hn Hs e m. unfold MAX_SAFE_INTEGER in Hs.
  assert (Ha : 0 < Z.abs n) by lia.
  pose proof (Z.log2_spec (Z.abs n) Ha) as [L1 L2]. fold e in L1, L2.
  assert (He0 : 0 <= e) by apply Z.log2_nonneg.
  assert (He : e <= 52).
  { destruct (Z.le_gt_cases e 52); [done|].
    assert (2 ^ 53 <= 2 ^ e) by (apply Z.pow_le_mono_r; lia). lia. }
  assert (Hp : 0 < 2 ^ (52 - e)) by (apply Z.pow_pos_nonneg; lia).
  assert (E1 : 2 ^ e * 2 ^ (52 - e) = 2 ^ 52) by (rewrite <- Z.pow_add_r by lia; f_equal; lia).
  assert (E2 : 2 ^ Z.succ e * 2 ^ (52 - e) = 2 ^ 53)
    by (rewrite <- Z.pow_add_r by lia; f_equal; lia).
  split; [lia|]. split; [unfold m; nia|]. split; [by apply Z.div_mul; lia|].
  split; [by apply Z_mod_mult|].
  unfold bits_of_int. rewrite (proj2 (Z.eqb_neq n 0)) by done. reflexivity.
Qed.

Lemma number_of_bits_int n : - MAX_SAFE_INTEGER <= n <= MAX_SAFE_INTEGER ->
  number_of_bits (bits_of_int n) = VInt n /\ 0 <= bits_of_int n < 2 ^ 64.
Proof.
  intros Hs. destruct (Z.eq_dec n 0) as [->|Hn]; [split; [reflexivity | cbn; lia]|].
  destruct (bits_of_int_spec n Hn Hs) as (He & Hm & Hd & Hr & Hb). cbv zeta in *.
  set (e := Z.log2 (Z.abs n)) in *. set (m := Z.abs n * 2 ^ (52 - e)) in *. clearbody m.
  set (s := if n <? 0 then 1 else 0).
  assert (Hb' : bits_of_int n = (s * 2048 + (e + 1023)) * 2 ^ 52 + (m - 2 ^ 52)).
  { rewrite Hb. unfold s. destruct (n <? 0); lia. }
  assert (Hs' : 0 <= s <= 1) by (unfold s; destruct (n <? 0); lia).
  clear Hb. split; [|rewrite Hb'; lia].
  unfold number_of_bits.
  assert (Ed : bits_of_int n / 2 ^ 52 = s * 2048 + (e + 1023)).
  { rewrite Hb', Z.add_comm, Z_div_plus_full, Z.div_small by lia. lia. }
  assert (Em : bits_of_int n mod 2 ^ 52 = m - 2 ^ 52).
  { rewrite Hb', Z.add_comm, Z_mod_plus_full. apply Z.mod_small. lia. }
  assert (Ee : (bits_of_int n / 2 ^ 52) mod 2048 = e + 1023).
  { rewrite Ed, Z.add_comm, Z_mod_plus_full. apply Z.mod_small. lia. }
  assert (Es : bits_of_int n / 2 ^ 63 = s).
  { change (2 ^ 63) with (2 ^ 52 * 2048). rewrite <- Z.div_div, Ed by lia.
    rewrite Z.add_comm, Z_div_plus_full, Z.div_small by lia. lia. }
  rewrite Ee, Em, Es. replace (1075 - (e + 1023)) with (52 - e) by lia.
  replace (2 ^ 52 + (m - 2 ^ 52)) with m by lia.
  assert (bits_of_int n <> 0) by (rewrite Hb'; lia).
  rewrite (proj2 (Z.eqb_neq _ 0)) by done.
  rewrite (proj2 (Z.leb_le 0 _)), (proj2 (Z.leb_le _ 52)), Hr, Hd by lia. cbn [Z.eqb andb].
  unfold s. destruct (n <? 0) eqn:E; bools; cbn [Z.eqb Pos.eqb]; f_equal; lia.
Qed.

Lemma decode_whole `{JsHost} e v : e <> [] -> decodes e v 0 (2 * length e) -> decode (whole e) = dret v.
Proof.
  intros Hne Hd. unfold decode, decode_at, decode_fuel.
  specialize (Hd [] [] (2 * byteLength (whole e) + 2)%nat). cbn [app] in Hd.
  rewrite app_nil_r in Hd. cbn [length] in Hd. rewrite Hd; [done|]. unfold whole. cbn. lia.
Qed.

(** The round trip for the clients of the codec. *)
Lemma encode_decode `{JsHost} v : canonical MAX_DEPTH v ->
  exists e, encode v = Ok e /\ decode (whole e) = dret v.
Proof.
  intros Hv. destruct (canonical_coded MAX_DEPTH v 0 Hv) as (e & He & Hne & Hd); [done|].
  exists e. split; [exact He | by apply decode_whole].
Qed.

(** ** Properties *)

(** C38: MessagePack round trip: every canonical value nested at most 128 deep is
    encoded without an exception, and decoding the encoding gives the value
    back; so is the float64 form used for timestamps. *)
Theorem msgpack_roundtrip `{JsHost} (v : value) (Hv : canonical MAX_DEPTH v) :
  (exists e, encode v = Ok e /\ decode (whole e) = dret v)
  /\ (forall n, v = VInt n -> decode (whole (encodeFloat64 v)) = dret v).
Proof.
  split.
  - by apply encode_decode.
  - intros n ->. cbn in Hv. destruct (number_of_bits_int n) as [E1 E2]; [done|].
    apply decode_whole; [done|]. apply (decodes_weaken _ _ _ 1); [cbn; lia|]. cbn [encodeFloat64].
    rewrite <- E1. by apply decodes_float.
Qed.

(** C40: The decoder is total and shallow: on every buffer, however malformed, it
    returns a value or throws (the model's fuel is never used up), and a value
    it returns is nested at most 128 deep, prototypes included. *)
Theorem msgpack_decode_total `{JsHost} (buf : Buf) :
  exists r, decode buf = Some r
    /\ forall v, r = Ok v -> nested_within MAX_DEPTH v.
Proof.
  destruct (decode_ok (decode_fuel buf) buf) as [Hv _].
  destruct (Hv 0%nat 0%nat) as [(x & Hx & Hok) _]; [unfold MAX_DEPTH; lia | unfold decode_fuel; lia|].
  unfold decode, decode_at. rewrite Hx. destruct x as [[v o]|e]; cbn [dbind].
  - eexists. split; [reflexivity|]. intros v' [= <-]. apply (Hok v o eq_refl).
  - eexists. split; [reflexivity|]. discriminate.
Qed.

(** The view [own] of a larger buffer. *)
Definition view (pre own rest : bytes) : Buf := mkBuf (pre ++ own ++ rest) (length pre) (length own).

(** An array that converts to the property key [__proto__]. *)
Definition proto_array : value := VArr [VStr (lit "__proto__")].

(** What the bounds checks cover: a fixstr header at the end of the decoded
    view is not rejected but reads the bytes that follow the view in the
    underlying buffer, while a binary of the same claimed length is rejected. *)
Theorem msgpack_string_overread `{JsHost} (pre rest : bytes) (n : nat)
    (Hn : (n <= 31)%nat) (Hr : (n <= length rest)%nat) :
  decode (view pre [160 + Z.of_nat n] rest)
  = dret (VStr (utf8_decode (take n rest)))
  /\ (n <> 0%nat ->
      decode (view pre [196; Z.of_nat n] rest)
      = dthrow (JsError "MessagePack binary length exceeds available data")).
Proof.
  unfold view. cbn [length].
  split.
  - unfold decode, decode_at, decode_fuel. cbn [byteLength Nat.mul Nat.add decode_value Nat.leb].
    cbn [byteOffset buffer]. rewrite Nat.add_0_r.
    assert (Hb : byte_at (length pre) (pre ++ [160 + Z.of_nat n] ++ rest) = 160 + Z.of_nat n).
    { rewrite <- (Nat.add_0_r (length pre)) at 1. by rewrite byte_at_app. }
    rewrite Hb. unfold decode_dispatch.
    rewrite !(proj2 (Z.leb_gt (160 + Z.of_nat n) _)) by lia.
    rewrite (proj2 (Z.leb_le (160 + Z.of_nat n) _)) by lia.
    assert (El : Z.land (160 + Z.of_nat n) 31 = Z.of_nat n) by (apply (land_header 5 _ 5); lia).
    rewrite El. unfold _decodeString. cbn [byteOffset buffer].
    rewrite (proj2 (Z.ltb_ge _ _)) by (rewrite !zlen_app; unfold zlen; cbn [length]; lia).
    cbn [dbind]. rewrite Nat2Z.id. do 4 f_equal. unfold slice.
    rewrite app_assoc, (drop_app_length' (pre ++ _)) by (rewrite length_app; cbn; lia).
    f_equal. lia.
  - intros Hz. unfold decode, decode_at, decode_fuel.
    cbn [byteLength Nat.mul Nat.add decode_value Nat.leb byteOffset buffer].
    assert (Hb : byte_at (length pre + 0) (pre ++ [196; Z.of_nat n] ++ rest) = 196)
      by (by rewrite byte_at_app).
    rewrite Hb. unfold decode_dispatch. cbn [Z.leb Z.compare Pos.compare Pos.compare_cont Z.eqb Pos.eqb].
    unfold read_be. cbn [byteLength byteOffset buffer Nat.add Nat.ltb Nat.leb].
    assert (Hs : be_uint (slice (length pre + 1) (length pre + 1 + 1)
      (pre ++ [196; Z.of_nat n] ++ rest)) = Z.of_nat n).
    { change ([196; Z.of_nat n] ++ rest) with ([196] ++ [Z.of_nat n] ++ rest).
      rewrite app_assoc, slice_app_here by (rewrite ?length_app; cbn; lia). done. }
    rewrite Hs. cbn [rbind]. unfold _decodeBinary. cbn [byteLength].
    rewrite (proj2 (Z.ltb_ge _ 0)), (proj2 (Z.ltb_lt _ _)) by lia. done.
Qed.

(** What the prototype guard covers: a string key never changes the
    prototype of the decoded object, but an array key that converts to the same
    property key is assigned, and sets it. *)
Theorem msgpack_prototype_guard `{JsHost} (v : value) (p : option value)
    (props : list (jsstr * value)) :
  (forall s, exists props', map_entry (VStr s) v p props = Ok (p, props'))
  /\ (object_like v = true ->
      map_entry proto_array v None [] = Ok (Some v, [])).
Proof.
  split.
  - intros s. unfold map_entry, assign.
    destruct (bool_decide (s = lit "__proto__")) eqn:E; cbn [orb andb]; [eauto|].
    destruct (_ || _); eauto.
  - intros Hv. unfold map_entry, proto_array. cbn [property_key option_map join_comma].
    unfold assign. rewrite bool_decide_true by done. cbn [has_prop existsb negb andb]. by rewrite Hv.
Qed.

(** ** Witnesses *)

Module Host.
#[export] Instance no_exotic : JsHost := {| num_str _ := []; exotic_str _ := None |}.
End Host.
Import Host.

Definition sample : value :=
  VObj None [(lit "7", VInt (-1)); (lit "path", VStr (lit "/page/index.mu"));
             (lit "data", VArr [VNull; VBin [1; 2]; VBool true; VBigInt (2 ^ 60)]);
             (lit "__proto__", VFloat (16368 * 2 ^ 48 + 2 ^ 51))].

Lemma canonical_atom d v : canonical 0 v -> canonical d v.
Proof. destruct d, v as [| | | | | | | | |[|]]; cbn [canonical]; tauto. Qed.

Lemma canonical_arr d l : zlen l < 2 ^ 32 -> Forall (canonical d) l -> canonical (S d) (VArr l).
Proof. by split. Qed.

Lemma canonical_obj d props : zlen props < 2 ^ 32 -> props_ordered props ->
  Forall (fun kv => bool_decide (wf_str (fst kv) /\ zlen (utf8_encode (fst kv)) < 2 ^ 32) = true) props ->
  Forall (fun kv => canonical d (snd kv)) props -> canonical (S d) (VObj None props).
Proof.
  intros H1 H2 H3 H4. split; [done|]. split; [done|].
  induction H3 as [|kv l Hk _ IH]; [done|]. inv H4. apply bool_decide_eq_true in Hk as [Hk1 Hk2].
  constructor; [done|]. apply IH; [cbn in H1; rewrite zlen_cons in H1; lia | | done].
  destruct H2 as [Hn Hs]. cbn [map] in Hn. inv Hn. inv Hs. by split.
Qed.

Lemma sample_canonical : canonical MAX_DEPTH sample.
Proof.
  apply (canonical_obj 127); [reflexivity | split | |].
  - apply (bool_decide_unpack _). vm_compute. exact I.
  - repeat constructor.
  - repeat constructor; vm_compute; reflexivity.
  - repeat apply Forall_cons_2; try apply Forall_nil_2; cbn [snd].
    + apply canonical_atom. vm_compute. split; discriminate.
    + apply canonical_atom. cbn [canonical]. split; [|reflexivity].
      apply (bool_decide_unpack _). vm_compute. exact I.
    + apply (canonical_arr 126); [reflexivity|].
      repeat apply Forall_cons_2; try apply Forall_nil_2; apply canonical_atom;
        cbn [canonical]; unfold MAX_SAFE_INTEGER; try exact I; [reflexivity | lia].
    + apply canonical_atom. cbn [canonical]. split; [split; vm_compute; congruence|].
      split; [discriminate | vm_compute; reflexivity].
Qed.

Lemma msgpack_roundtrip_witness : exists e, encode sample = Ok e /\ decode (whole e) = dret sample.
Proof. exact (proj1 (msgpack_roundtrip sample sample_canonical)). Defined.

Lemma msgpack_string_overread_witness :
  decode (mkBuf [0; 163; 83; 69; 67; 82] 1 1) = dret (VStr (lit "SEC")).
Proof.
  exact (proj1 (msgpack_string_overread [0] [83; 69; 67; 82] 3
    ltac:(lia) ltac:(cbn; lia))).
Defined.
