(* ===== verification/Packet.v ===== *)
(** * Packet: the wire format (packages/core/src/core/packet.js)

    The [Packet] record with its serializer, parser, flags byte and hashable
    part.  Enumerations are the code's numeric constants. *)

From S2P Require Import Prelude.

(** ** Enumerations *)

Definition PacketType_DATA := 0.
Definition PacketType_ANNOUNCE := 1.
Definition PacketType_LINKREQUEST := 2.
Definition PacketType_PROOF := 3.

Definition TransportType_BROADCAST := 0.
Definition TransportType_TRANSPORT := 1.
Definition TransportType_RELAY := 2.

Definition HeaderType_1 := 0.
Definition HeaderType_2 := 1.

Definition ContextType_NONE := 0.
Definition ContextType_RESOURCE := 1.
Definition ContextType_RESOURCE_ADV := 2.
Definition ContextType_RESOURCE_REQ := 3.
Definition ContextType_RESOURCE_HMU := 4.
Definition ContextType_RESOURCE_PRF := 5.
Definition ContextType_RESOURCE_ICL := 6.
Definition ContextType_RESOURCE_RCL := 7.
Definition ContextType_CACHE_REQUEST := 8.
Definition ContextType_REQUEST := 9.
Definition ContextType_RESPONSE := 10.
Definition ContextType_PATH_RESPONSE := 11.
Definition ContextType_COMMAND := 12.
Definition ContextType_COMMAND_STATUS := 13.
Definition ContextType_CHANNEL := 14.
Definition ContextType_KEEPALIVE := 250.
Definition ContextType_LINKIDENTIFY := 251.
Definition ContextType_LINKCLOSE := 252.
Definition ContextType_LINKPROOF := 253.
Definition ContextType_LRRTT := 254.
Definition ContextType_LRPROOF := 255.

Definition DestType_SINGLE := 0.
Definition DestType_GROUP := 1.
Definition DestType_PLAIN := 2.
Definition DestType_LINK := 3.

Definition PATHFINDER_M := 128.

(** ** The packet *)

Record Packet := mkPacket {
  headerType : Z;
  hops : Z;
  transportType : Z;
  destinationType : Z;
  packetType : Z;
  contextFlag : bool;
  destinationHash : bytes;
  contextByte : Z;
  payload : bytes;
  transportId : option bytes;
  raw : bytes;
}.

#[global] Instance Packet_eq_dec : EqDecision Packet.
Proof. solve_decision. Defined.

Definition set_raw (p : Packet) (r : bytes) : Packet :=
  mkPacket (headerType p) (hops p) (transportType p) (destinationType p) (packetType p)
    (contextFlag p) (destinationHash p) (contextByte p) (payload p) (transportId p) r.

Definition set_hops (p : Packet) (h : Z) : Packet :=
  mkPacket (headerType p) h (transportType p) (destinationType p) (packetType p)
    (contextFlag p) (destinationHash p) (contextByte p) (payload p) (transportId p) (raw p).

Definition DST_LEN : nat := 16.

(** [uint8.set(src.subarray(0, 16), offset)] into a zeroed 16-byte field. *)
Definition field16 (src : bytes) : bytes :=
  take DST_LEN src ++ replicate (DST_LEN - length src) 0.

Definition _buildFlagsByte (p : Packet) : Z :=
  let flags := 0 in
  let flags := if headerType p =? HeaderType_2 then Z.lor flags 64 else flags in
  let flags := if contextFlag p then Z.lor flags 32 else flags in
  let flags := if transportType p =? 1 then Z.lor flags 16 else flags in
  let flags := if contextByte p =? ContextType_LRPROOF
               then Z.lor flags (Z.shiftl DestType_LINK 2)
               else Z.lor flags (Z.shiftl (Z.land (destinationType p) 3) 2) in
  Z.lor flags (Z.land (packetType p) 3).

Definition serialize (p : Packet) : result bytes :=
  let flags := _buildFlagsByte p in
  let header := [flags; Z.land (hops p) 255] in
  let rest := field16 (destinationHash p) ++ [contextByte p mod 256] ++ payload p in
  if headerType p =? HeaderType_2 then
    match transportId p with
    | None => Throw (JsError "Header type 2 requires a transportId")
    | Some tid => Ok (header ++ field16 tid ++ rest)
    end
  else Ok (header ++ rest).

Definition deserialize (data : bytes) : result Packet :=
  if zlen data <? 2 then Throw (JsError "Packet too short") else
  let flags := byte_at 0 data in
  let hops := byte_at 1 data in
  let isHeader2 := negb (Z.land flags 64 =? 0) in
  let headerType := if isHeader2 then HeaderType_2 else HeaderType_1 in
  let contextFlag := negb (Z.land flags 32 =? 0) in
  let transportType := if negb (Z.land flags 16 =? 0) then 1 else 0 in
  let destinationType := Z.shiftr (Z.land flags 12) 2 in
  let packetType := Z.land flags 3 in
  let minLen := if isHeader2 then 35 else 19 in
  if zlen data <? minLen then Throw (JsError "Packet too short") else
  if PATHFINDER_M <=? hops then Throw (JsError "Invalid hop count") else
  let offset := 2%nat in
  let '(transportId, offset) :=
    if isHeader2 then (Some (slice offset (offset + DST_LEN) data), (offset + DST_LEN)%nat)
    else (None, offset) in
  let destinationHash := slice offset (offset + DST_LEN) data in
  let offset := (offset + DST_LEN)%nat in
  let contextByte := byte_at offset data in
  let offset := (offset + 1)%nat in
  if (length data <=? offset)%nat then Throw (JsError "Zero-length data field") else
  Ok (mkPacket headerType hops transportType destinationType packetType contextFlag
        destinationHash contextByte (slice_from offset data) transportId data).

(** [getHashablePart] fills [raw] on first use and returns the hashed bytes;
    the updated packet is returned with them. *)
Definition getHashablePart (p : Packet) : result (bytes * Packet) :=
  let! p := match raw p with
            | [] => let! r := serialize p in Ok (set_raw p r)
            | _ => Ok p
            end in
  let flags := Z.land (byte_at 0 (raw p)) 15 in
  let sliceOffset := if headerType p =? HeaderType_2 then 18%nat else 2%nat in
  Ok (flags :: slice_from sliceOffset (raw p), p).

(** [getHash] with SHA-256 of the platform's Web Crypto as [sha256]. *)
Definition getHash (sha256 : bytes -> bytes) (p : Packet) : result (bytes * Packet) :=
  let! (part, p) := getHashablePart p in Ok (sha256 part, p).

(** ** Well-formed packets: what a correct caller of [serialize] passes *)

Definition wf_packet (p : Packet) : Prop :=
  (headerType p = HeaderType_1 /\ transportId p = None
   \/ headerType p = HeaderType_2
      /\ exists t, transportId p = Some t /\ length t = DST_LEN /\ wf_bytes t)
  /\ 0 <= hops p < PATHFINDER_M
  /\ (transportType p = 0 \/ transportType p = 1)
  /\ 0 <= destinationType p < 4
  /\ 0 <= packetType p < 4
  /\ length (destinationHash p) = DST_LEN /\ wf_bytes (destinationHash p)
  /\ is_byte (contextByte p)
  /\ payload p <> [] /\ wf_bytes (payload p)
  /\ (contextByte p = ContextType_LRPROOF -> destinationType p = DestType_LINK).

(** The shape of such a packet alone, whatever the elements of its arrays. *)
Definition fits (p : Packet) : Prop :=
  (headerType p = HeaderType_1 /\ transportId p = None
   \/ headerType p = HeaderType_2 /\ exists t, transportId p = Some t /\ length t = DST_LEN)
  /\ 0 <= hops p < PATHFINDER_M
  /\ (transportType p = 0 \/ transportType p = 1)
  /\ 0 <= destinationType p < 4
  /\ 0 <= packetType p < 4
  /\ length (destinationHash p) = DST_LEN
  /\ is_byte (contextByte p)
  /\ payload p <> []
  /\ (contextByte p = ContextType_LRPROOF -> destinationType p = DestType_LINK).

Lemma wf_fits p : wf_packet p -> fits p.
Proof.
  intros (Hw & ? & ? & ? & ? & ? & _ & ? & ? & _ & ?). split; [|auto 10].
  destruct Hw as [Hw|(Hw & t & Ht & Hl & _)]; eauto 6.
Qed.

(** ** Lemmas *)

Lemma field16_exact b : length b = DST_LEN -> field16 b = b.
Proof.
  intros H. unfold field16. rewrite H, Nat.sub_diag, app_nil_r. apply take_ge. lia.
Qed.

Lemma length_field16 b : length (field16 b) = DST_LEN.
Proof. unfold field16. rewrite length_app, length_take, length_replicate. lia. Qed.

(** The flags byte as a sum of its fields. *)
Definition dest_bits (p : Packet) : Z :=
  if contextByte p =? ContextType_LRPROOF then DestType_LINK else destinationType p mod 4.

Lemma flags_sum p :
  _buildFlagsByte p
  = (if headerType p =? HeaderType_2 then 64 else 0) + (if contextFlag p then 32 else 0)
    + (if transportType p =? 1 then 16 else 0) + dest_bits p * 4 + packetType p mod 4.
Proof.
  unfold _buildFlagsByte, dest_bits. rewrite !(land_mask _ 2) by lia.
  pose proof (Z.mod_pos_bound (destinationType p) 4 ltac:(lia)) as Hd.
  pose proof (Z.mod_pos_bound (packetType p) 4 ltac:(lia)) as Hp.
  change (2 ^ 2) with 4.
  set (d := destinationType p mod 4) in *. set (q := packetType p mod 4) in *. clearbody d q.
  assert (d = 0 \/ d = 1 \/ d = 2 \/ d = 3) as Hd' by lia.
  assert (q = 0 \/ q = 1 \/ q = 2 \/ q = 3) as Hq' by lia.
  destruct (headerType p =? HeaderType_2), (contextFlag p), (transportType p =? 1),
    (contextByte p =? ContextType_LRPROOF);
    destruct Hq' as [-> | [-> | [-> | ->]]]; try reflexivity;
    destruct Hd' as [-> | [-> | [-> | ->]]]; reflexivity.
Qed.

Lemma dest_bits_range p : 0 <= dest_bits p < 4.
Proof.
  unfold dest_bits, DestType_LINK. case_goal; [lia|]. apply Z.mod_pos_bound. lia.
Qed.

(** Reading the fields back from a flags byte written as such a sum. *)
Lemma flags_fields (h c t : bool) d q :
  0 <= d < 4 -> 0 <= q < 4 ->
  let f := (if h then 64 else 0) + (if c then 32 else 0) + (if t then 16 else 0) + d * 4 + q in
  negb (Z.land f 64 =? 0) = h /\ negb (Z.land f 32 =? 0) = c
  /\ negb (Z.land f 16 =? 0) = t /\ Z.shiftr (Z.land f 12) 2 = d /\ Z.land f 3 = q
  /\ Z.land f 15 = d * 4 + q /\ 0 <= f < 128.
Proof.
  intros Hd Hq f.
  assert (d = 0 \/ d = 1 \/ d = 2 \/ d = 3) as Hd' by lia.
  assert (q = 0 \/ q = 1 \/ q = 2 \/ q = 3) as Hq' by lia.
  subst f. destruct h, c, t, Hq' as [-> | [-> | [-> | ->]]], Hd' as [-> | [-> | [-> | ->]]];
    repeat split; try reflexivity; lia.
Qed.

(** Every byte is such a sum, up to bit 7. *)
Lemma flags_decompose f : is_byte f -> exists (i h c t : bool) d q,
  0 <= d < 4 /\ 0 <= q < 4 /\
  f = (if i then 128 else 0) + ((if h then 64 else 0) + (if c then 32 else 0)
      + (if t then 16 else 0) + d * 4 + q).
Proof.
  unfold is_byte. intros Hf.
  exists (128 <=? f), (64 <=? f mod 128), (32 <=? f mod 64), (16 <=? f mod 32),
    ((f mod 16) / 4), (f mod 4).
  repeat split; try dmlia.
  destruct (Z.leb_spec 128 f), (Z.leb_spec 64 (f mod 128)), (Z.leb_spec 32 (f mod 64)),
    (Z.leb_spec 16 (f mod 32)); dmlia.
Qed.

(** The parser on a HEADER_1 frame split into its fields. *)
Lemma deserialize_h1 f h dh c pl :
  Z.land f 64 = 0 -> length dh = DST_LEN ->
  deserialize (f :: h :: dh ++ c :: pl)
  = if PATHFINDER_M <=? h then Throw (JsError "Invalid hop count")
    else if (length pl =? 0)%nat then Throw (JsError "Zero-length data field")
    else Ok (mkPacket HeaderType_1 h (if negb (Z.land f 16 =? 0) then 1 else 0)
               (Z.shiftr (Z.land f 12) 2) (Z.land f 3) (negb (Z.land f 32 =? 0)) dh c pl None
               (f :: h :: dh ++ c :: pl)).
Proof.
  intros Hf Hdh. unfold deserialize.
  assert (Hlen : zlen (f :: h :: dh ++ c :: pl) = 19 + zlen pl).
  { rewrite !zlen_cons, zlen_app, zlen_cons. unfold zlen at 1. rewrite Hdh. unfold DST_LEN. lia. }
  assert (Hn : length (f :: h :: dh ++ c :: pl) = (19 + length pl)%nat).
  { cbn [length]. rewrite length_app, Hdh. cbn [length]. unfold DST_LEN. lia. }
  pose proof (zlen_nonneg pl).
  rewrite Hlen, Hn. cbn [byte_at nth]. rewrite Hf. cbn [Z.eqb negb].
  rewrite (proj2 (Z.ltb_ge _ 2)), (proj2 (Z.ltb_ge _ 19)) by lia.
  destruct (PATHFINDER_M <=? h); [done|].
  change ((2 + DST_LEN + 1)%nat) with 19%nat.
  replace (19 + length pl <=? 19)%nat with (length pl =? 0)%nat
    by (apply eq_true_iff_eq; rewrite Nat.eqb_eq, Nat.leb_le; lia).
  destruct (length pl =? 0)%nat eqn:E; [done|].
  do 2 f_equal.
  - change (slice 0 16 (dh ++ c :: pl) = dh). by apply slice_app_take.
  - change (byte_at 16 (dh ++ c :: pl) = c). by rewrite (byte_at_app 16 0).
  - by apply (drop_app_skip 16 1).
Qed.

(** The parser on a HEADER_2 frame split into its fields. *)
Lemma deserialize_h2 f h tid dh c pl :
  Z.land f 64 <> 0 -> length tid = DST_LEN -> length dh = DST_LEN ->
  deserialize (f :: h :: tid ++ dh ++ c :: pl)
  = if PATHFINDER_M <=? h then Throw (JsError "Invalid hop count")
    else if (length pl =? 0)%nat then Throw (JsError "Zero-length data field")
    else Ok (mkPacket HeaderType_2 h (if negb (Z.land f 16 =? 0) then 1 else 0)
               (Z.shiftr (Z.land f 12) 2) (Z.land f 3) (negb (Z.land f 32 =? 0)) dh c pl
               (Some tid) (f :: h :: tid ++ dh ++ c :: pl)).
Proof.
  intros Hf Htid Hdh. unfold deserialize.
  assert (Hlen : zlen (f :: h :: tid ++ dh ++ c :: pl) = 35 + zlen pl).
  { rewrite !zlen_cons, !zlen_app, zlen_cons. unfold zlen at 1 2. rewrite Htid, Hdh.
    unfold DST_LEN. lia. }
  assert (Hn : length (f :: h :: tid ++ dh ++ c :: pl) = (35 + length pl)%nat).
  { cbn [length]. rewrite !length_app, Htid, Hdh. cbn [length]. unfold DST_LEN. lia. }
  pose proof (zlen_nonneg pl).
  rewrite Hlen, Hn. cbn [byte_at nth]. rewrite (proj2 (Z.eqb_neq _ _) Hf). cbn [negb].
  rewrite (proj2 (Z.ltb_ge _ 2)), (proj2 (Z.ltb_ge _ 35)) by lia.
  destruct (PATHFINDER_M <=? h); [done|].
  change ((2 + DST_LEN + DST_LEN + 1)%nat) with 35%nat.
  replace (35 + length pl <=? 35)%nat with (length pl =? 0)%nat
    by (apply eq_true_iff_eq; rewrite Nat.eqb_eq, Nat.leb_le; lia).
  destruct (length pl =? 0)%nat eqn:E; [done|].
  do 2 f_equal.
  - change (slice (16 + 0) (16 + 16) (tid ++ dh ++ c :: pl) = dh).
    rewrite slice_app_skip by done. by apply slice_app_take.
  - change (byte_at (16 + 16) (tid ++ dh ++ c :: pl) = c).
    rewrite byte_at_app by done. by rewrite (byte_at_app 16 0).
  - change (drop 33 (tid ++ dh ++ c :: pl) = pl).
    rewrite (drop_app_skip 16 17) by done. by apply (drop_app_skip 16 1).
  - f_equal. change (slice 0 16 (tid ++ dh ++ c :: pl) = tid). by apply slice_app_take.
Qed.

(** Every frame long enough for its header type splits that way. *)
Lemma frame_split (n : nat) (d : bytes) : (n <= length d)%nat ->
  exists a b, d = a ++ b /\ length a = n.
Proof.
  intros. exists (take n d), (drop n d). rewrite take_drop, length_take. split; [done|lia].
Qed.

Lemma serialize_fits p : fits p ->
  serialize p = Ok (_buildFlagsByte p :: hops p ::
    default [] (transportId p) ++ destinationHash p ++ contextByte p :: payload p).
Proof.
  intros (Hh & Hhops & Htt & Hdt & Hpt & Hdl & Hcb & Hpne & Hlr).
  unfold serialize, PATHFINDER_M, is_byte in *.
  rewrite (land_mask _ 8), (Z.mod_small (hops p)), (Z.mod_small (contextByte p))
    by (change (2 ^ 8) with 256; lia).
  rewrite (field16_exact (destinationHash p)) by done.
  destruct Hh as [[-> ->]|(-> & t & -> & Ht)]; [done|].
  simpl. by rewrite field16_exact.
Qed.

Lemma serialize_wf p : wf_packet p ->
  serialize p = Ok (_buildFlagsByte p :: hops p ::
    default [] (transportId p) ++ destinationHash p ++ contextByte p :: payload p).
Proof. intros H. by apply serialize_fits, wf_fits. Qed.

Lemma flags_bits p : 0 <= destinationType p < 4 -> 0 <= packetType p < 4 ->
  (contextByte p = ContextType_LRPROOF -> destinationType p = DestType_LINK) ->
  let f := _buildFlagsByte p in
  negb (Z.land f 64 =? 0) = (headerType p =? HeaderType_2)
  /\ negb (Z.land f 32 =? 0) = contextFlag p
  /\ negb (Z.land f 16 =? 0) = (transportType p =? 1)
  /\ Z.shiftr (Z.land f 12) 2 = destinationType p /\ Z.land f 3 = packetType p.
Proof.
  intros Hd Hp Hlr f. subst f. rewrite flags_sum.
  assert (dest_bits p = destinationType p) as ->.
  { unfold dest_bits. case_goal; bools; [by rewrite Hlr | by apply Z.mod_small]. }
  rewrite (Z.mod_small (packetType p)) by lia.
  pose proof (flags_fields (headerType p =? HeaderType_2) (contextFlag p)
    (transportType p =? 1) _ _ Hd Hp) as H. cbv zeta in H. tauto.
Qed.

Lemma deserialize_fits p r : fits p -> serialize p = Ok r ->
  deserialize r = Ok (set_raw p r).
Proof.
  intros Hwf. rewrite serialize_fits by done. intros [= <-].
  destruct Hwf as (Hh & Hhops & Htt & Hdt & Hpt & Hdl & Hcb & Hpne & Hlr).
  pose proof (flags_bits p Hdt Hpt Hlr) as (Hf1 & Hf2 & Hf3 & Hf4 & Hf5).
  unfold set_raw. set (f := _buildFlagsByte p) in *. clearbody f.
  assert (Hlen : (length (payload p) =? 0)%nat = false).
  { apply Nat.eqb_neq. by destruct (payload p). }
  destruct Hh as [[Hh Ht]|(Hh & t & Ht & Htl)]; rewrite Ht; cbn [default app];
    rewrite Hh in *; cbn in Hf1.
  - apply negb_false_iff, Z.eqb_eq in Hf1. rewrite deserialize_h1 by done.
    rewrite (proj2 (Z.leb_gt _ _)), Hlen, Hf2, Hf3, Hf4, Hf5 by lia.
    do 2 f_equal. destruct Htt as [-> | ->]; done.
  - apply negb_true_iff, Z.eqb_neq in Hf1. rewrite deserialize_h2 by done.
    rewrite (proj2 (Z.leb_gt _ _)), Hlen, Hf2, Hf3, Hf4, Hf5 by lia.
    do 2 f_equal. destruct Htt as [-> | ->]; done.
Qed.

Lemma deserialize_serialize p r : wf_packet p -> serialize p = Ok r ->
  deserialize r = Ok (set_raw p r).
Proof. intros H. by apply deserialize_fits, wf_fits. Qed.

(** The wrapper built by the router when a packet is inserted into transport
    ([TransportCore.sendPacket]): same content, HEADER_2, next hop as
    [transportId], no cached wire bytes. *)
Definition transport_injected (p : Packet) (nextHop : bytes) : Packet :=
  mkPacket HeaderType_2 (hops p) TransportType_TRANSPORT (destinationType p) (packetType p)
    (contextFlag p) (destinationHash p) (contextByte p) (payload p) (Some nextHop) [].

(** What the hash covers, read off the fields. *)
Definition hashable_fields (p : Packet) : bytes :=
  (dest_bits p * 4 + packetType p mod 4)
    :: field16 (destinationHash p) ++ contextByte p mod 256 :: payload p.

Lemma flags_low p : Z.land (_buildFlagsByte p) 15 = dest_bits p * 4 + packetType p mod 4
  /\ is_byte (_buildFlagsByte p).
Proof.
  rewrite flags_sum.
  pose proof (flags_fields (headerType p =? HeaderType_2) (contextFlag p)
    (transportType p =? 1) _ _ (dest_bits_range p) (Z.mod_pos_bound (packetType p) 4 eq_refl))
    as H. cbv zeta in H. unfold is_byte. split; [tauto | lia].
Qed.

(** The hashable part depends on the content fields only, whichever header
    form the wire bytes have. *)
Lemma hashable_of_serialized p r : serialize p = Ok r ->
  Z.land (byte_at 0 r) 15 :: slice_from (if headerType p =? HeaderType_2 then 18 else 2) r
  = hashable_fields p.
Proof.
  unfold serialize, hashable_fields. intros Hs.
  destruct (headerType p =? HeaderType_2) eqn:E.
  - destruct (transportId p) as [tid|]; [|discriminate]. injection Hs as <-.
    cbn [app byte_at nth]. rewrite (proj1 (flags_low p)). f_equal.
    change (drop (16 + 0) (field16 tid ++ field16 (destinationHash p)
      ++ [contextByte p mod 256] ++ payload p) =
      field16 (destinationHash p) ++ [contextByte p mod 256] ++ payload p).
    by rewrite drop_app_skip by apply length_field16.
  - injection Hs as <-. cbn [app byte_at nth].
    rewrite (proj1 (flags_low p)). done.
Qed.

Lemma getHashablePart_fresh p r : raw p = [] -> serialize p = Ok r ->
  getHashablePart p = Ok (hashable_fields p, set_raw p r).
Proof.
  intros Hr Hs. unfold getHashablePart. rewrite Hr, Hs. cbn [rbind].
  change (headerType (set_raw p r)) with (headerType p). cbn [raw set_raw].
  by rewrite (hashable_of_serialized p r).
Qed.

Lemma serialize_nonempty p r : serialize p = Ok r -> r <> [].
Proof.
  unfold serialize. intros H. destruct (headerType p =? _); [destruct (transportId p)|];
    try discriminate; injection H as <-; done.
Qed.

Lemma getHashablePart_cached p r : raw p = r -> serialize p = Ok r ->
  getHashablePart p = Ok (hashable_fields p, p).
Proof.
  intros Hr Hs. unfold getHashablePart. rewrite Hr.
  pose proof (serialize_nonempty p r Hs). destruct r as [|b r]; [done|].
  cbn [rbind]. rewrite Hr. by rewrite (hashable_of_serialized p (b :: r)).
Qed.

Lemma serialize_set_raw p r : serialize (set_raw p r) = serialize p.
Proof. reflexivity. Qed.

Lemma injected_wf p nh : wf_packet p -> length nh = DST_LEN -> wf_bytes nh ->
  wf_packet (transport_injected p nh).
Proof.
  intros (_ & H) Hn Hw. unfold wf_packet, transport_injected. cbn.
  split; [right; eauto|]. intuition.
Qed.

(** ** Along a path

    [relayed p q]: a node down the path parsed the frame of [p] as [q].  On the
    way the packet may have been put into transport, for any next hop, and its
    hop count rewritten. *)
Definition relayed (p q : Packet) : Prop :=
  exists nh h r,
    0 <= h < PATHFINDER_M /\ match nh with Some n => length n = DST_LEN | None => True end
    /\ serialize (set_hops (match nh with Some n => transport_injected p n | None => p end) h) = Ok r
    /\ deserialize r = Ok q.

Lemma relayed_parse p q : fits p -> relayed p q ->
  destinationType q = destinationType p /\ packetType q = packetType p
  /\ contextFlag q = contextFlag p /\ destinationHash q = destinationHash p
  /\ contextByte q = contextByte p /\ payload q = payload p /\ 0 <= hops q < PATHFINDER_M
  /\ serialize q = Ok (raw q) /\ fits q.
Proof.
  intros Hf (nh & h & r & Hh & Hn & Hs & Hd).
  set (p' := set_hops _ h) in Hs.
  assert (Hf' : fits p').
  { destruct Hf as (A & B & C & D). destruct nh; subst p'; unfold fits; cbn;
      (split; [|by auto]); [right; eauto|]. exact A. }
  pose proof (deserialize_fits p' r Hf' Hs) as Hd'. rewrite Hd in Hd'. injection Hd' as ->.
  assert (serialize (set_raw p' r) = Ok r) by (by rewrite <- Hs).
  assert (fits (set_raw p' r)) by exact Hf'.
  destruct nh; cbn; auto 12.
Qed.

Lemma relayed_set_raw p r q : relayed (set_raw p r) q <-> relayed p q.
Proof.
  unfold relayed. split; intros (nh & h & r' & A & B & Hs & D);
    (exists nh, h, r'; split; [done|]; split; [done|]; split; [|done]; by destruct nh).
Qed.

(** The parsed packet hashes like the one that was sent. *)
Lemma relayed_hashable p q : fits p -> relayed p q ->
  getHashablePart q = Ok (hashable_fields p, q).
Proof.
  intros Hf Hr. destruct (relayed_parse p q Hf Hr) as (Hdt & Hpt & _ & Hdh & Hc & Hp & _ & Hs & _).
  rewrite (getHashablePart_cached q (raw q)) by done. unfold hashable_fields, dest_bits.
  by rewrite Hdt, Hpt, Hdh, Hc, Hp.
Qed.

(** Every packet of the right shape can arrive, as it is. *)
Lemma relayed_refl p r : fits p -> serialize p = Ok r -> relayed p (set_raw p r).
Proof.
  intros Hf Hs. exists None, (hops p), r. destruct Hf as (A & B & C).
  replace (set_hops p (hops p)) with p by (by destruct p).
  split; [done|]. split; [done|]. split; [done|]. by apply deserialize_fits.
Qed.

(** ** Parsing arbitrary frames *)

Lemma deserialize_min_len data p : deserialize data = Ok p ->
  (exists f h dh c pl, data = f :: h :: dh ++ c :: pl /\ length dh = DST_LEN
     /\ Z.land f 64 = 0 /\ pl <> [] /\ h < PATHFINDER_M)
  \/ (exists f h tid dh c pl, data = f :: h :: tid ++ dh ++ c :: pl /\ length tid = DST_LEN
     /\ length dh = DST_LEN /\ Z.land f 64 <> 0 /\ pl <> [] /\ h < PATHFINDER_M).
Proof.
  intros H. pose proof H as H0. unfold deserialize in H0.
  destruct data as [|f [|h rest]]; [discriminate..|].
  destruct (zlen (f :: h :: rest) <? 2); [discriminate|]. cbn [byte_at nth] in H0.
  destruct (Z.land f 64 =? 0) eqn:E; cbn [negb] in H0.
  - destruct (zlen (f :: h :: rest) <? 19) eqn:E19; [discriminate|]. bools. left.
    rewrite !zlen_cons in E19. unfold zlen in E19.
    destruct (frame_split DST_LEN rest) as (dh & r & -> & Hdh); [unfold DST_LEN; lia|].
    rewrite length_app, Hdh in E19. unfold DST_LEN in E19.
    destruct r as [|c pl]; [cbn in E19; lia|]. clear H0. rewrite deserialize_h1 in H by done.
    destruct (PATHFINDER_M <=? h) eqn:Eh; [discriminate|]. bools.
    destruct pl; [discriminate|]. exists f, h, dh, c. eexists. repeat split; eauto.
  - destruct (zlen (f :: h :: rest) <? 35) eqn:E35; [discriminate|]. bools. right.
    rewrite !zlen_cons in E35. unfold zlen in E35.
    destruct (frame_split DST_LEN rest) as (tid & r & -> & Htid); [unfold DST_LEN; lia|].
    rewrite length_app, Htid in E35. unfold DST_LEN in E35.
    destruct (frame_split DST_LEN r) as (dh & r' & -> & Hdh); [unfold DST_LEN; lia|].
    rewrite length_app, Hdh in E35. unfold DST_LEN in E35.
    destruct r' as [|c pl]; [cbn in E35; lia|]. clear H0. rewrite deserialize_h2 in H by done.
    destruct (PATHFINDER_M <=? h) eqn:Eh; [discriminate|]. bools.
    destruct pl; [discriminate|]. exists f, h, tid, dh, c. eexists. repeat split; eauto.
Qed.

(** What the parser's masks extract from a flags byte with bit 7 clear. *)
Lemma flags_masks f : is_byte f -> f < 128 ->
  0 <= Z.shiftr (Z.land f 12) 2 < 4 /\ 0 <= Z.land f 3 < 4
  /\ forall hp dh c pl tid,
     (c = ContextType_LRPROOF -> Z.shiftr (Z.land f 12) 2 = DestType_LINK) ->
     _buildFlagsByte (mkPacket (if negb (Z.land f 64 =? 0) then HeaderType_2 else HeaderType_1) hp
       (if negb (Z.land f 16 =? 0) then 1 else 0) (Z.shiftr (Z.land f 12) 2) (Z.land f 3)
       (negb (Z.land f 32 =? 0)) dh c pl tid []) = f.
Proof.
  intros Hf Hlt. destruct (flags_decompose f Hf) as (i & h & cf & t & d & q & Hd & Hq & E).
  pose proof (flags_fields h cf t d q Hd Hq) as HF. cbv zeta in HF.
  destruct i; [destruct h, cf, t; lia|]. rewrite Z.add_0_l in E. rewrite <- E in HF.
  destruct HF as (F1 & F2 & F3 & F4 & F5 & _ & _). rewrite F1, F2, F3, F4, F5.
  split; [done|]. split; [done|]. intros hp dh c pl tid Hlr.
  rewrite flags_sum. unfold dest_bits.
  cbn [headerType contextFlag transportType contextByte destinationType packetType].
  rewrite (Z.mod_small d), (Z.mod_small q) by lia.
  assert ((if c =? ContextType_LRPROOF then DestType_LINK else d) = d) as ->.
  { destruct (c =? ContextType_LRPROOF) eqn:Ec; [|done]. bools. by rewrite Hlr. }
  rewrite E. destruct h, cf, t; reflexivity.
Qed.

(** ** Properties *)

(** The wire form: its length, and bytes with bit 7 of the flags clear. *)
Lemma serialize_wire p r : wf_packet p -> serialize p = Ok r -> wf_bytes r /\ byte_at 0 r < 128.
Proof.
  intros Hp. rewrite serialize_wf by done. intros [= <-].
  destruct (flags_low p) as [_ Hfb].
  pose proof (flags_fields (headerType p =? HeaderType_2) (contextFlag p)
    (transportType p =? 1) _ _ (dest_bits_range p) (Z.mod_pos_bound (packetType p) 4 eq_refl))
    as HF. cbv zeta in HF. rewrite <- flags_sum in HF.
  destruct Hp as (Hh & Hhops & Htt & Hdt & Hpt & Hdl & Hdw & Hcb & Hpne & Hpw & Hlr).
  unfold PATHFINDER_M in Hhops. assert (is_byte (hops p)) by (unfold is_byte; lia).
  destruct Hh as [[_ ->]|(_ & t & -> & Ht & Htw)]; cbn [default app];
    (split; [auto 8 with ret | cbn; lia]).
Qed.

Lemma serialize_zlen p r : wf_packet p -> serialize p = Ok r ->
  zlen r = (if headerType p =? HeaderType_2 then 35 else 19) + zlen (payload p).
Proof.
  intros Hp. rewrite serialize_wf by done. intros [= <-].
  destruct Hp as (Hh & _ & _ & _ & _ & Hdl & _).
  destruct Hh as [[-> ->]|(-> & t & -> & Ht & Htw)]; cbn [default app];
    rewrite !zlen_cons, ?zlen_app, ?zlen_cons; unfold zlen at 1; rewrite ?Hdl, ?Ht;
    unfold zlen, DST_LEN in *; rewrite ?Hdl; unfold DST_LEN; cbn; lia.
Qed.

(** C21: Serialising a well-formed packet and parsing the frame gives the same
    packet back, with the frame recorded as its raw bytes; the frame has the
    exact wire length of its header type. *)
Theorem packet_roundtrip (p : Packet) (Hp : wf_packet p) :
  exists r, serialize p = Ok r /\ deserialize r = Ok (set_raw p r)
    /\ zlen r = (if headerType p =? HeaderType_2 then 35 else 19) + zlen (payload p)
    /\ wf_bytes r /\ byte_at 0 r < 128.
Proof.
  eexists. split; [by apply serialize_wf|]. pose proof (serialize_wf p Hp) as Hs.
  split; [by apply deserialize_serialize|].
  split; [by apply serialize_zlen | by apply (serialize_wire p)].
Qed.

(** The parser only accepts frames it can reproduce: an accepted frame has
    a hop count below the limit and a non-empty payload, and serialising the
    parsed packet gives the frame back (bit 7 of the flags, which marks an
    interface-authenticated frame, must be clear, and a link proof must carry
    the LINK destination type). *)
Theorem packet_parse_sound (data : bytes) (p : Packet)
    (Hw : wf_bytes data) (Hd : deserialize data = Ok p)
    (H7 : byte_at 0 data < 128)
    (Hlr : contextByte p = ContextType_LRPROOF -> destinationType p = DestType_LINK) :
  wf_packet p /\ raw p = data /\ serialize p = Ok data.
Proof.
  assert (Hwp : wf_packet p /\ raw p = data).
  { destruct (deserialize_min_len data p Hd) as
      [(f & h & dh & c & pl & -> & Hdh & H64 & Hpl & Hh)
      |(f & h & tid & dh & c & pl & -> & Htid & Hdh & H64 & Hpl & Hh)].
    - rewrite deserialize_h1 in Hd by done. rewrite (proj2 (Z.leb_gt _ _)) in Hd by lia.
      destruct pl as [|x pl]; [done|]. injection Hd as <-. inv Hw.
      match goal with H : Forall _ (_ :: _) |- _ => inv H end.
      match goal with H : Forall _ (_ ++ _) |- _ => apply Forall_app in H as [? H]; inv H end.
      split; [|done]. unfold wf_packet. cbn in Hlr |- *. unfold is_byte in *.
      destruct (flags_masks f) as (M1 & M2 & _); [done..|].
      repeat split; auto; try lia; case_goal; auto.
    - rewrite deserialize_h2 in Hd by done. rewrite (proj2 (Z.leb_gt _ _)) in Hd by lia.
      destruct pl as [|x pl]; [done|]. injection Hd as <-. inv Hw.
      match goal with H : Forall _ (_ :: _) |- _ => inv H end.
      match goal with H : Forall _ (_ ++ _) |- _ => apply Forall_app in H as [? H];
        apply Forall_app in H as [? H]; inv H end.
      split; [|done]. unfold wf_packet. cbn in Hlr |- *. unfold is_byte in *.
      destruct (flags_masks f) as (M1 & M2 & _); [done..|].
      split; [right; eauto|]. repeat split; auto; try lia; case_goal; auto. }
  destruct Hwp as [Hwp Hr]. split; [done|]. split; [done|].
  rewrite serialize_wf by done.
  destruct (deserialize_min_len data p Hd) as
    [(f & h & dh & c & pl & -> & Hdh & H64 & Hpl & Hh)
    |(f & h & tid & dh & c & pl & -> & Htid & Hdh & H64 & Hpl & Hh)].
  - rewrite deserialize_h1 in Hd by done. rewrite (proj2 (Z.leb_gt _ _)) in Hd by lia.
    destruct pl as [|x pl]; [done|]. injection Hd as <-. cbn in Hlr |- *. inv Hw.
    do 2 f_equal. pose proof (proj2 (proj2 (flags_masks f ltac:(done) H7)) h dh c (x :: pl) None) as M.
    rewrite H64 in M. apply M. auto.
  - rewrite deserialize_h2 in Hd by done. rewrite (proj2 (Z.leb_gt _ _)) in Hd by lia.
    destruct pl as [|x pl]; [done|]. injection Hd as <-. cbn in Hlr |- *. inv Hw.
    do 2 f_equal.
    pose proof (proj2 (proj2 (flags_masks f ltac:(done) H7)) h dh c (x :: pl) (Some tid)) as M.
    rewrite (proj2 (Z.eqb_neq _ _) H64) in M. apply M. auto.
Qed.

(** Which frames the parser accepts, exactly: the header fits, the hop
    count is below 128 and at least one payload byte follows.  Every other
    frame is an exception, never a packet with truncated fields. *)
Theorem deserialize_accepts_iff (data : bytes) :
  is_ok (deserialize data) = true
  <-> (if Z.land (byte_at 0 data) 64 =? 0 then 19 else 35) < zlen data
      /\ byte_at 1 data < PATHFINDER_M.
Proof.
  split.
  - intros H. destruct (deserialize data) as [p|e] eqn:Hd; [|discriminate].
    destruct (deserialize_min_len data p Hd) as
      [(f & h & dh & c & pl & -> & Hdh & H64 & Hpl & Hh)
      |(f & h & tid & dh & c & pl & -> & Htid & Hdh & H64 & Hpl & Hh)];
      cbn [byte_at nth]; (split; [|done]).
    + rewrite H64. cbn. rewrite !zlen_cons, zlen_app, zlen_cons. unfold zlen. rewrite Hdh.
      destruct pl; [done|]. unfold DST_LEN. cbn. lia.
    + rewrite (proj2 (Z.eqb_neq _ _) H64). rewrite !zlen_cons, !zlen_app, zlen_cons.
      unfold zlen. rewrite Hdh, Htid. destruct pl; [done|]. unfold DST_LEN. cbn. lia.
  - intros [Hlen Hh]. destruct data as [|f [|h rest]];
      [unfold zlen in Hlen; destruct (Z.land _ 64 =? 0); cbn in Hlen; lia.. |].
    cbn [byte_at nth] in Hlen, Hh. rewrite !zlen_cons in Hlen. unfold zlen in Hlen.
    destruct (Z.land f 64 =? 0) eqn:E; bools.
    + destruct (frame_split DST_LEN rest) as (dh & r & -> & Hdh); [unfold DST_LEN; lia|].
      rewrite length_app, Hdh in Hlen. unfold DST_LEN in Hlen.
      destruct r as [|c [|x pl]]; [cbn in Hlen; lia.. |].
      rewrite deserialize_h1, (proj2 (Z.leb_gt _ _)) by done. done.
    + destruct (frame_split DST_LEN rest) as (tid & r & -> & Htid); [unfold DST_LEN; lia|].
      rewrite length_app, Htid in Hlen. unfold DST_LEN in Hlen.
      destruct (frame_split DST_LEN r) as (dh & r' & -> & Hdh); [unfold DST_LEN; lia|].
      rewrite length_app, Hdh in Hlen. unfold DST_LEN in Hlen.
      destruct r' as [|c [|x pl]]; [cbn in Hlen; lia.. |].
      rewrite deserialize_h2, (proj2 (Z.leb_gt _ _)) by done. done.
Qed.

(** The packet hash is invariant along a path: a packet put into transport
    (HEADER_2, any next hop) with any admissible hop count hashes, on the node
    that parses it, to the hash the sender computed from the logical packet. *)
Theorem hash_invariant_in_transport (sha256 : bytes -> bytes) (p : Packet) (nh : bytes) (h : Z)
    (Hp : wf_packet p) (Hr : raw p = [])
    (Hn : length nh = DST_LEN) (Hw : wf_bytes nh) (Hh : 0 <= h < PATHFINDER_M) :
  exists r q p0 q1,
    serialize (set_hops (transport_injected p nh) h) = Ok r
    /\ deserialize r = Ok q
    /\ getHash sha256 p = Ok (sha256 (hashable_fields p), p0)
    /\ getHash sha256 q = Ok (sha256 (hashable_fields p), q1).
Proof.
  assert (Hi : wf_packet (set_hops (transport_injected p nh) h)).
  { pose proof (injected_wf p nh Hp Hn Hw) as (A & _ & B).
    unfold wf_packet in *. cbn in *. tauto. }
  pose proof (serialize_wf p Hp) as Hs0. pose proof (serialize_wf _ Hi) as Hs.
  pose proof (deserialize_serialize _ _ Hi Hs) as Hd.
  set (r0 := _ :: _) in Hs0. set (r := _ :: _) in Hs, Hd. clearbody r0 r.
  exists r. eexists. exists (set_raw p r0). eexists.
  split; [exact Hs|]. split; [exact Hd|]. unfold getHash.
  rewrite (getHashablePart_fresh p r0) by done. split; [done|].
  rewrite (getHashablePart_cached _ r) by done. done.
Qed.

(** ** Witnesses *)

Definition example_packet : Packet :=
  mkPacket HeaderType_1 3 0 DestType_SINGLE PacketType_DATA true (replicate 16 17)
    ContextType_REQUEST [1; 2; 3] None [].

Lemma example_packet_wf : wf_packet example_packet.
Proof.
  unfold wf_packet, example_packet, PATHFINDER_M, is_byte, wf_bytes; cbn.
  repeat split; auto; try lia; try discriminate; repeat constructor; unfold is_byte; lia.
Qed.

Lemma packet_roundtrip_witness : exists r, deserialize r = Ok (set_raw example_packet r).
Proof.
  destruct (packet_roundtrip example_packet example_packet_wf) as (r & _ & H & _). by exists r.
Defined.

Lemma packet_parse_sound_witness :
  match deserialize ([32; 5] ++ replicate 16 9 ++ [0; 77]) with
  | Ok p => serialize p = Ok ([32; 5] ++ replicate 16 9 ++ [0; 77])
  | Throw _ => False
  end.
Proof.
  destruct (deserialize _) as [p|e] eqn:Hd.
  - apply (packet_parse_sound ([32; 5] ++ replicate 16 9 ++ [0; 77]) p);
      [repeat constructor; unfold is_byte; lia | exact Hd | reflexivity |].
    vm_compute in Hd. injection Hd as <-. discriminate.
  - vm_compute in Hd. discriminate.
Defined.

Lemma hash_invariant_witness :
  exists r q p0 q1,
    serialize (set_hops (transport_injected example_packet (replicate 16 42)) 7) = Ok r
    /\ deserialize r = Ok q
    /\ getHash (fun b => b) example_packet = Ok (hashable_fields example_packet, p0)
    /\ getHash (fun b => b) q = Ok (hashable_fields example_packet, q1).
Proof.
  apply (hash_invariant_in_transport (fun b => b) example_packet (replicate 16 42) 7).
  - apply example_packet_wf.
  - reflexivity.
  - reflexivity.
  - apply wf_bytes_replicate. unfold is_byte. lia.
  - unfold PATHFINDER_M. lia.
Defined.
