(* ===== verification/Crypto.v ===== *)
(** * Crypto: key derivation, padding and authenticated tokens
    (packages/core/src/crypto/{ciphers,pkcs7,token}.js)

    The platform's Web Crypto primitives are the class [WebCrypto]; what the
    program relies on them for is the class [WebCryptoLaws].  On top of them the
    program's own HKDF loop, PKCS#7 routines and modified-Fernet tokens are
    definitions. *)

From S2P Require Import Prelude Encoding.

(** ** The platform primitives *)

(** [None] is a rejected promise (a [DataError] or [OperationError]). *)
Class WebCrypto := {
  sha256 : bytes -> bytes;
  hmac_sha256 : bytes -> bytes -> bytes;
  aes_cbc_encrypt : bytes -> bytes -> bytes -> bytes;
  aes_cbc_decrypt : bytes -> bytes -> bytes -> option bytes;
  x25519_pub : bytes -> bytes;
  x25519_bits : bytes -> bytes -> option bytes;
  ed25519_pub : bytes -> bytes;
  ed25519_sign : bytes -> bytes -> bytes;
  ed25519_verify : bytes -> bytes -> bytes -> bool;
}.

Class WebCryptoLaws (C : WebCrypto) := {
  sha256_length m : length (sha256 m) = 32%nat;
  sha256_wf m : wf_bytes (sha256 m);
  hmac_length k m : length (hmac_sha256 k m) = 32%nat;
  hmac_wf k m : wf_bytes (hmac_sha256 k m);
  aes_cbc_correct k iv m : length iv = 16%nat ->
    aes_cbc_decrypt k iv (aes_cbc_encrypt k iv m) = Some m;
  aes_cbc_wf k iv m : wf_bytes m -> wf_bytes (aes_cbc_encrypt k iv m);
  aes_cbc_length k iv m : length (aes_cbc_encrypt k iv m) = (16 * (length m / 16 + 1))%nat;
  x25519_pub_length k : length (x25519_pub k) = 32%nat;
  x25519_pub_wf k : wf_bytes (x25519_pub k);
  x25519_agree a b : x25519_bits a (x25519_pub b) = x25519_bits b (x25519_pub a);
  ed25519_pub_length k : length (ed25519_pub k) = 32%nat;
  ed25519_pub_wf k : wf_bytes (ed25519_pub k);
  ed25519_sign_length k m : length (ed25519_sign k m) = 64%nat;
  ed25519_sign_wf k m : wf_bytes (ed25519_sign k m);
  ed25519_correct k m : ed25519_verify (ed25519_pub k) (ed25519_sign k m) m = true;
}.

(** ** JavaScript [slice]/[subarray] with a possibly negative bound *)

Definition js_index {A} (k : Z) (l : list A) : nat :=
  Z.to_nat (if k <? 0 then Z.max 0 (zlen l + k) else Z.min k (zlen l)).

Definition js_slice_from {A} (k : Z) (l : list A) : list A := drop (js_index k l) l.

Definition js_slice {A} (a b : Z) (l : list A) : list A := slice (js_index a l) (js_index b l) l.

Lemma js_slice_last {A} n (l1 l2 : list A) : length l2 = n -> n <> 0%nat ->
  js_slice_from (- Z.of_nat n) (l1 ++ l2) = l2.
Proof.
  intros Hn H0. unfold js_slice_from, js_index. rewrite (proj2 (Z.ltb_lt _ _)) by lia.
  rewrite zlen_app. unfold zlen. rewrite Hn.
  replace (Z.to_nat _) with (length l1) by lia. apply drop_app_length.
Qed.

Lemma js_slice_init {A} n (l1 l2 : list A) : length l2 = n -> n <> 0%nat ->
  js_slice 0 (- Z.of_nat n) (l1 ++ l2) = l1.
Proof.
  intros Hn H0. unfold js_slice, js_index. rewrite (proj2 (Z.ltb_lt (- _) _)) by lia.
  rewrite zlen_app. unfold zlen. rewrite Hn. cbn [Z.ltb Z.compare].
  replace (Z.to_nat (Z.min 0 _)) with 0%nat by lia.
  replace (Z.to_nat _) with (length l1) by lia. by apply slice_app_take.
Qed.

(** Both ends of the same cut. *)
Lemma js_slice_split {A} n (l : list A) : (n <= length l)%nat -> n <> 0%nat ->
  js_slice 0 (- Z.of_nat n) l ++ js_slice_from (- Z.of_nat n) l = l
  /\ length (js_slice_from (- Z.of_nat n) l) = n.
Proof.
  intros Hn H0. rewrite <- (take_drop (length l - n) l).
  assert (length (drop (length l - n) l) = n) by (rewrite length_drop; lia).
  rewrite js_slice_init, js_slice_last by done. done.
Qed.

(** ** HKDF (ciphers.js) *)

Section Hkdf.
Context `{C : WebCrypto}.

Definition hmac (key data : bytes) : bytes := hmac_sha256 key data.

(** The expand loop; [remaining] is [lengthInBytes - offset], and the counter
    is stored into one byte.  Fuel [remaining] is enough because every round
    copies at least one byte. *)
Fixpoint hkdf_expand (fuel : nat) (prk info lastT : bytes) (counter : Z) (remaining : nat)
  : bytes :=
  match fuel with
  | O => replicate remaining 0
  | S fuel =>
      if (remaining =? 0)%nat then [] else
      let t := hmac prk (lastT ++ info ++ [counter mod 256]) in
      let toCopy := Nat.min (length t) remaining in
      take toCopy t ++ hkdf_expand fuel prk info t (counter + 1) (remaining - toCopy)
  end.

Definition hkdf (masterKey salt info : bytes) (lengthInBytes : nat) : bytes :=
  let prk := hmac (if (length salt =? 0)%nat then replicate 32 0 else salt) masterKey in
  hkdf_expand lengthInBytes prk info [] 1 lengthInBytes.

Context `{L : !WebCryptoLaws C}.

Lemma hkdf_expand_length fuel prk info t c n :
  length (hkdf_expand fuel prk info t c n) = n.
Proof.
  revert t c n. induction fuel as [|fuel IH]; intros t c n; cbn [hkdf_expand].
  - apply length_replicate.
  - destruct (n =? 0)%nat eqn:E; bools; [done|].
    cbv zeta. rewrite length_app, IH, length_take. lia.
Qed.

Lemma hkdf_length k s i n : length (hkdf k s i n) = n.
Proof. apply hkdf_expand_length. Qed.

Lemma hkdf_expand_wf fuel prk info t c n : wf_bytes (hkdf_expand fuel prk info t c n).
Proof.
  revert t c n. induction fuel as [|fuel IH]; intros t c n; cbn [hkdf_expand].
  - apply wf_bytes_replicate. unfold is_byte. lia.
  - destruct (n =? 0)%nat; [constructor|]. cbv zeta.
    apply wf_bytes_app; [|apply IH]. apply wf_bytes_take, hmac_wf.
Qed.

Lemma hkdf_wf k s i n : wf_bytes (hkdf k s i n).
Proof. apply hkdf_expand_wf. Qed.

(** With enough fuel no byte of the output comes from the fuel bound: any
    larger fuel gives the same bytes. *)
Lemma hkdf_expand_fuel f1 f2 prk info t c n : (n <= f1)%nat -> (n <= f2)%nat ->
  hkdf_expand f1 prk info t c n = hkdf_expand f2 prk info t c n.
Proof.
  revert f2 t c n. induction f1 as [|f1 IH]; intros [|f2] t c n H1 H2; cbn [hkdf_expand].
  - done.
  - assert (n = 0)%nat as -> by lia. done.
  - assert (n = 0)%nat as -> by lia. done.
  - destruct (n =? 0)%nat eqn:E; bools; [done|]. cbv zeta. f_equal.
    apply IH; unfold hmac; rewrite hmac_length; lia.
Qed.

(** A shorter output is a prefix of a longer one. *)
Lemma hkdf_prefix k s i n m : (n <= m)%nat -> take n (hkdf k s i m) = hkdf k s i n.
Proof.
  intros Hnm. unfold hkdf. cbv zeta. set (prk := hmac _ _). clearbody prk.
  rewrite (hkdf_expand_fuel n m) by lia.
  enough (forall f t c a b, (a <= b)%nat -> (b <= f)%nat ->
    take a (hkdf_expand f prk i t c b) = hkdf_expand f prk i t c a) as H by (apply H; lia).
  clear -L. induction f as [|f IH]; intros t c a b Hab Hbf; cbn [hkdf_expand].
  - assert (b = 0 /\ a = 0)%nat as [-> ->] by lia. done.
  - destruct (b =? 0)%nat eqn:Eb, (a =? 0)%nat eqn:Ea; bools; subst; try lia;
      rewrite ?take_nil; try done.
    cbv zeta. set (T := hmac prk _).
    assert (HT : length T = 32%nat) by apply hmac_length. clearbody T. rewrite HT.
    destruct (Nat.le_gt_cases a 32).
    + rewrite (Nat.min_r 32 a), Nat.sub_diag by lia.
      assert (hkdf_expand f prk i T (c + 1) 0 = []) as -> by (by destruct f).
      rewrite app_nil_r. rewrite take_app_le by (rewrite length_take; lia).
      rewrite take_take. f_equal. lia.
    + rewrite !Nat.min_l by lia. rewrite take_app_ge by (rewrite length_take; lia).
      f_equal. rewrite length_take, HT, Nat.min_l by lia. apply IH; lia.
Qed.
End Hkdf.

(** ** PKCS#7 padding (pkcs7.js) *)
Module Pkcs7.

Definition pad (data : bytes) : bytes :=
  let paddingLength := (16 - length data mod 16)%nat in
  data ++ replicate paddingLength (Z.of_nat paddingLength).

(** [data[data.length - i]] for [i] from 1 to [n]: all equal to [v]; an index
    below 0 reads [undefined], which differs from every number. *)
Fixpoint check_tail (n : nat) (v : Z) (data : bytes) : bool :=
  match n with
  | O => true
  | S n' =>
      check_tail n' v data
      && (n <=? length data)%nat && (byte_at (length data - n) data =? v)
  end.

Definition unpad (data : bytes) : result bytes :=
  if (length data =? 0)%nat then Throw (JsError "Cannot unpad empty data") else
  let paddingLength := byte_at (length data - 1) data in
  if (paddingLength <? 1) || (16 <? paddingLength)
  then Throw (JsError "Invalid PKCS7 padding") else
  if check_tail (Z.to_nat paddingLength) paddingLength data
  then Ok (slice 0 (length data - Z.to_nat paddingLength) data)
  else Throw (JsError "Invalid PKCS7 padding").

Lemma drop_byte_at i (l : bytes) : (i < length l)%nat -> drop i l = byte_at i l :: drop (S i) l.
Proof.
  revert i. induction l as [|x l IH]; intros [|i] H; cbn in H; try lia; [done|].
  cbn [drop]. rewrite IH by lia. done.
Qed.

Lemma check_tail_spec n v data :
  check_tail n v data = true
  <-> (n <= length data)%nat /\ drop (length data - n) data = replicate n v.
Proof.
  induction n as [|n IH]; cbn [check_tail].
  - rewrite Nat.sub_0_r, drop_all. split; [split; [lia|done]|done].
  - rewrite !andb_true_iff, IH, Nat.leb_le, Z.eqb_eq. clear IH. cbn [replicate].
    assert (HS : (S n <= length data)%nat -> drop (length data - S n) data
      = byte_at (length data - S n) data :: drop (length data - n) data).
    { intros. rewrite drop_byte_at by lia. f_equal. f_equal. lia. }
    split; [intros [[[H1 H2] H3] H4] | intros [H1 H2]].
    + split; [done|]. rewrite HS by done. congruence.
    + rewrite HS in H2 by done. injection H2 as H2 H3. repeat split; [lia|done..].
Qed.

Lemma pad_len (data : bytes) : let k := (16 - length data mod 16)%nat in (1 <= k <= 16)%nat.
Proof. cbv zeta. pose proof (Nat.mod_upper_bound (length data) 16). lia. Qed.

(** PKCS#7 padding is inverted by [unpad], the padded length is a positive
    multiple of the block size, and [unpad] accepts exactly the strings that
    end in [k] copies of the byte [k], 1 <= k <= 16. *)
Theorem pkcs7_pad_unpad (data : bytes) :
  unpad (pad data) = Ok data
  /\ (length (pad data) mod 16 = 0)%nat /\ (length data < length (pad data))%nat
  /\ forall d, unpad d = Ok data
       <-> exists k, (1 <= k <= 16)%nat /\ d = data ++ replicate k (Z.of_nat k).
Proof.
  assert (Hu : forall k, (1 <= k <= 16)%nat ->
    unpad (data ++ replicate k (Z.of_nat k)) = Ok data).
  { intros k Hk. unfold unpad. rewrite length_app, length_replicate.
    destruct (_ =? 0)%nat eqn:E; bools; [lia|].
    assert (Hb : byte_at (length data + k - 1) (data ++ replicate k (Z.of_nat k)) = Z.of_nat k).
    { replace (length data + k - 1)%nat with (length data + (k - 1))%nat by lia.
      rewrite byte_at_app by done. unfold byte_at.
      by rewrite nth_lookup, lookup_replicate_2 by lia. }
    rewrite Hb. rewrite (proj2 (Z.ltb_ge _ 1)), (proj2 (Z.ltb_ge 16 _)) by lia. cbn [orb].
    rewrite Nat2Z.id.
    rewrite (proj2 (check_tail_spec k (Z.of_nat k) _)).
    - f_equal. apply slice_app_take. lia.
    - rewrite length_app, length_replicate. split; [lia|].
      replace (length data + k - k)%nat with (length data) by lia. apply drop_app_length. }
  pose proof (pad_len data) as Hk. cbv zeta in Hk.
  split; [by apply Hu|].
  split; [|split].
  - unfold pad. cbv zeta. rewrite length_app, length_replicate.
    pose proof (Nat.div_mod_eq (length data) 16). pose proof (Nat.mod_upper_bound (length data) 16).
    replace (_ + _)%nat with ((length data / 16 + 1) * 16)%nat by lia. apply Nat.Div0.mod_mul.
  - unfold pad. cbv zeta. rewrite length_app, length_replicate. lia.
  - intros d. split; [|by intros (k & Hk' & ->); apply Hu].
    unfold unpad. destruct (length d =? 0)%nat eqn:E; [discriminate|].
    destruct (_ || _) eqn:E2; [discriminate|]. bools.
    destruct (check_tail _ _ _) eqn:E3; [|discriminate]. intros [= <-].
    apply check_tail_spec in E3 as [H1 H2].
    exists (Z.to_nat (byte_at (length d - 1) d)). split; [lia|].
    rewrite Z2Nat.id by lia. rewrite <- H2. unfold slice.
    rewrite drop_0, Nat.sub_0_r. by rewrite take_drop.
Qed.

End Pkcs7.

(** ** Tokens (token.js) *)
Module Token.

(** The cipher modes; [OtherMode] is any other value of the [mode] argument. *)
Inductive Mode := AES_128_CBC | AES_256_CBC | OtherMode.

Record Token := mkToken {
  mode : Mode;
  signingKey : bytes;
  encryptionKey : bytes;
}.

Definition new_Token (key : bytes) (m : Mode) : result Token :=
  match m with
  | AES_128_CBC =>
      if negb (length key =? 32)%nat
      then Throw (JsError "Token key must be 32 bytes for AES_128_CBC")
      else Ok (mkToken AES_128_CBC (slice 0 16 key) (slice_from 16 key))
  | AES_256_CBC =>
      if negb (length key =? 64)%nat
      then Throw (JsError "Token key must be 64 bytes for AES_256_CBC")
      else Ok (mkToken AES_256_CBC (slice 0 32 key) (slice_from 32 key))
  | OtherMode => Throw (JsError "Invalid token mode")
  end.

Definition constantTimeCompare (a b : bytes) : bool :=
  if negb (length a =? length b)%nat then false else xor_diff 0 a b =? 0.

Section WithCrypto.
Context `{C : WebCrypto}.

Definition verifyHmac (t : Token) (token : bytes) : result bool :=
  if zlen token <=? 32 then Throw (JsError "Cannot verify HMAC on token of only N bytes") else
  let receivedHmac := js_slice_from (-32) token in
  let dataToVerify := js_slice 0 (-32) token in
  let expectedHmac := hmac (signingKey t) dataToVerify in
  Ok (constantTimeCompare receivedHmac expectedHmac).

(** The random [iv] is an argument. *)
Definition encrypt (iv : bytes) (t : Token) (data : bytes) : bytes :=
  let ciphertext := aes_cbc_encrypt (encryptionKey t) iv data in
  let signedParts := iv ++ ciphertext in
  let mac := hmac (signingKey t) signedParts in
  signedParts ++ mac.

Definition decrypt (t : Token) (token : bytes) : result bytes :=
  let! ok := verifyHmac t token in
  if negb ok then Throw (JsError "Token HMAC was invalid") else
  let iv := js_slice 0 16 token in
  let ciphertext := js_slice 16 (-32) token in
  match aes_cbc_decrypt (encryptionKey t) iv ciphertext with
  | Some p => Ok p
  | None => Throw (JsError "OperationError")
  end.

Lemma constantTimeCompare_eq a b : constantTimeCompare a b = bytesEqual a b.
Proof. unfold constantTimeCompare, bytesEqual. by destruct (_ =? _)%nat. Qed.

Context `{L : !WebCryptoLaws C}.

Lemma verifyHmac_app t signed mac : length mac = 32%nat -> signed <> [] ->
  verifyHmac t (signed ++ mac) = Ok (bytesEqual mac (hmac (signingKey t) signed)).
Proof.
  intros Hm Hs. unfold verifyHmac. rewrite zlen_app. unfold zlen. rewrite Hm.
  destruct signed as [|x s]; [done|]. rewrite (proj2 (Z.leb_gt _ _)) by (cbn; lia).
  rewrite constantTimeCompare_eq.
  change (-32) with (- Z.of_nat 32).
  rewrite js_slice_last, js_slice_init by done. done.
Qed.

Lemma decrypt_parts t iv c mac : length iv = 16%nat -> length mac = 32%nat ->
  decrypt t (iv ++ c ++ mac)
  = if bytesEqual mac (hmac (signingKey t) (iv ++ c))
    then match aes_cbc_decrypt (encryptionKey t) iv c with
         | Some p => Ok p | None => Throw (JsError "OperationError") end
    else Throw (JsError "Token HMAC was invalid").
Proof.
  intros Hi Hm. unfold decrypt.
  rewrite app_assoc, verifyHmac_app by (try done; by destruct iv).
  cbn [rbind]. destruct (bytesEqual _ _); cbn [negb]; [|done].
  rewrite <- app_assoc.
  replace (js_slice 0 16 (iv ++ c ++ mac)) with iv.
  - replace (js_slice 16 (-32) (iv ++ c ++ mac)) with c; [done|].
    unfold js_slice, js_index. rewrite !zlen_app. unfold zlen. rewrite Hi, Hm. cbn [Z.ltb Z.compare].
    symmetry. apply slice_app_here; lia.
  - unfold js_slice, js_index. rewrite !zlen_app. unfold zlen. rewrite Hi, Hm. cbn [Z.ltb Z.compare].
    symmetry. rewrite !Z.min_l by lia. by apply slice_app_take.
Qed.

Lemma decrypt_encrypt t iv m : length iv = 16%nat -> decrypt t (encrypt iv t m) = Ok m.
Proof.
  intros Hi. unfold encrypt. cbv zeta.
  rewrite <- app_assoc, decrypt_parts by (done || apply hmac_length).
  by rewrite bytesEqual_refl, aes_cbc_correct.
Qed.

Lemma decrypt_Ok t token m : decrypt t token = Ok m ->
  exists signed, token = signed ++ hmac (signingKey t) signed /\ signed <> [].
Proof.
  unfold decrypt, verifyHmac. destruct (zlen token <=? 32) eqn:E; [discriminate|]. bools.
  unfold zlen in E. cbn [rbind]. rewrite constantTimeCompare_eq.
  destruct (js_slice_split 32 token) as [Hs Hl]; [lia|done|].
  change (- Z.of_nat 32) with (-32) in *.
  destruct (bytesEqual _ _) eqn:Eb; cbn [negb]; [|discriminate].
  apply bytesEqual_spec in Eb. intros _. exists (js_slice 0 (-32) token).
  rewrite <- Eb, Hs. split; [done|]. intros Hn. rewrite Hn in Hs. cbn in Hs.
  rewrite Hs in Hl. lia.
Qed.

(** A token decrypts to its plaintext under the key it was made with, and
    nothing is ever decrypted before it is authenticated: [decrypt] returns a
    plaintext only for a non-empty body followed by the body's own HMAC, so a
    string whose last 32 bytes are not that HMAC is an exception. *)
Theorem token_authenticated_roundtrip (t : Token) (iv m : bytes) (Hiv : length iv = 16%nat) :
  decrypt t (encrypt iv t m) = Ok m
  /\ (forall token p, decrypt t token = Ok p ->
        exists signed, token = signed ++ hmac (signingKey t) signed /\ signed <> [])
  /\ (forall body mac, length mac = 32%nat -> mac <> hmac (signingKey t) body ->
        is_ok (decrypt t (body ++ mac)) = false).
Proof.
  split; [by apply decrypt_encrypt|]. split; [apply decrypt_Ok|].
  intros body mac Hm Hne. destruct (decrypt t (body ++ mac)) eqn:E; [|done].
  apply decrypt_Ok in E as (s & E & _).
  apply app_inj_2 in E as [-> ->]; [done|]. unfold hmac. by rewrite hmac_length.
Qed.

End WithCrypto.
End Token.

(** ** A concrete instance of the interface

    Not a cipher: it shows that the laws can hold together, and lets witnesses
    evaluate.  The "MAC" and "signature" are checksums, the "cipher" is the
    identity, and both X25519 keys of a pair are the same number. *)
Module Toy.

Definition digest (n : nat) (m : bytes) : bytes :=
  be_bytes n (fold_left (fun acc b => acc * 257 + b + 1) m 7).

#[export] Instance toy_crypto : WebCrypto := {|
  sha256 m := digest 32 m;
  hmac_sha256 k m := digest 32 (k ++ m);
  aes_cbc_encrypt _ _ m := Pkcs7.pad m;
  aes_cbc_decrypt _ _ m := match Pkcs7.unpad m with Ok m => Some m | Throw _ => None end;
  x25519_pub k := digest 32 k;
  x25519_bits a b := Some (map (fun '(x, y) => (x + y) mod 256) (zip (digest 32 a) b));
  ed25519_pub k := digest 32 k;
  ed25519_sign k m := digest 64 (digest 32 k ++ m);
  ed25519_verify pk s m := bytesEqual s (digest 64 (pk ++ m));
|}.

Lemma zip_add_comm (a b : bytes) :
  map (fun '(x, y) => (x + y) mod 256) (zip a b) = map (fun '(x, y) => (x + y) mod 256) (zip b a).
Proof.
  revert b. induction a as [|x a IH]; intros [|y b]; [done..|].
  cbn [zip_with map]. by rewrite Z.add_comm, IH.
Qed.

#[export] Instance toy_laws : WebCryptoLaws toy_crypto.
Proof.
  constructor; intros; unfold sha256, hmac_sha256, aes_cbc_decrypt, aes_cbc_encrypt,
    x25519_pub, x25519_bits, ed25519_pub, ed25519_sign, ed25519_verify, toy_crypto.
  all: first [apply length_be_bytes | apply wf_be_bytes | apply bytesEqual_refl | done | idtac].
  - by rewrite (proj1 (Pkcs7.pkcs7_pad_unpad m)).
  - apply wf_bytes_app; [done|]. pose proof (Pkcs7.pad_len m). apply wf_bytes_replicate. unfold is_byte. lia.
  - unfold Pkcs7.pad. rewrite length_app, length_replicate.
    pose proof (Nat.div_mod_eq (length m) 16). pose proof (Nat.mod_upper_bound (length m) 16). lia.
  - f_equal. apply zip_add_comm.
Qed.

End Toy.

Import Toy.

Lemma token_authenticated_witness :
  let t := Token.mkToken Token.AES_256_CBC (replicate 32 1) (replicate 32 2) in
  Token.decrypt t (Token.encrypt (replicate 16 5) t [1; 2; 3]) = Ok [1; 2; 3].
Proof.
  cbv zeta. apply (Token.token_authenticated_roundtrip _ (replicate 16 5) [1; 2; 3]).
  reflexivity.
Defined.
