(* ===== verification/Identity.v ===== *)
(** * Identity: key pairs, hybrid encryption, announce validation
    (packages/core/src/core/identity.js) *)

From S2P Require Import Prelude Encoding Crypto.

(** [new Uint8Array(n)] followed by [set(src.subarray(0, n), 0)]. *)
Definition field (n : nat) (src : bytes) : bytes := take n src ++ replicate (n - length src) 0.

Lemma field_exact n b : length b = n -> field n b = b.
Proof. intros <-. unfold field. rewrite Nat.sub_diag, app_nil_r. by apply take_ge. Qed.

Lemma length_field n b : length (field n b) = n.
Proof. unfold field. rewrite length_app, length_take, length_replicate. lia. Qed.

Definition TRUNCATED_HASH_LENGTH : nat := 16.

Record Identity := mkIdentity {
  x25519Priv : option bytes;
  ed25519Priv : option bytes;
  x25519Pub : bytes;
  ed25519Pub : bytes;
  publicKey : bytes;
  identityHash : bytes;
  id_appData : bytes;
}.

Definition set_appData (i : Identity) (a : bytes) : Identity :=
  mkIdentity (x25519Priv i) (ed25519Priv i) (x25519Pub i) (ed25519Pub i) (publicKey i)
    (identityHash i) a.

(** What [validateAnnounce] returns. *)
Record AnnounceValidation := mkValidation {
  v_identity : Identity;
  v_nameHash : bytes;
  v_randomHash : bytes;
  v_ratchet : option bytes;
  v_signature : bytes;
  v_appData : option bytes;
}.

Section WithCrypto.
Context `{C : WebCrypto}.

Definition fullHash (data : bytes) : bytes := sha256 data.

Definition truncatedHash (data : bytes) : bytes :=
  slice 0 TRUNCATED_HASH_LENGTH (fullHash data).

Definition fromPublicKey (pk : bytes) : Identity :=
  let ed25519PubBytes := field 32 (slice 32 64 pk) in
  let x25519PubBytes := field 32 (slice 0 32 pk) in
  let cleanPublicKey := field 64 (slice 0 64 pk) in
  mkIdentity None None x25519PubBytes ed25519PubBytes cleanPublicKey
    (truncatedHash cleanPublicKey) [].

(** [generate] from the two random private scalars. *)
Definition generate (xs es : bytes) : Identity :=
  let publicKey := x25519_pub xs ++ ed25519_pub es in
  mkIdentity (Some xs) (Some es) (x25519_pub xs) (ed25519_pub es) publicKey
    (truncatedHash publicKey) [].

Definition getPrivateKey (i : Identity) : result bytes :=
  match x25519Priv i, ed25519Priv i with
  | Some x, Some e => Ok (x ++ e)
  | _, _ => Throw (JsError
      "Cannot get private key because identity does not hold a private key")
  end.

Definition getPublicKey (i : Identity) : bytes := x25519Pub i ++ ed25519Pub i.

(** [importKey] of raw 32-byte key material; any other length is rejected. *)
Definition import32 (k : bytes) : option bytes := if (length k =? 32)%nat then Some k else None.

Definition fromPrivateKey (b : bytes) : option Identity :=
  if negb (length b =? 64)%nat then None else
  x ← import32 (slice 0 32 b);
  e ← import32 (slice 32 64 b);
  let publicKey := x25519_pub x ++ ed25519_pub e in
  Some (mkIdentity (Some x) (Some e) (x25519_pub x) (ed25519_pub e) publicKey
          (truncatedHash publicKey) []).

Definition fromBytes (b : bytes) : option Identity :=
  if (length b =? 64)%nat then fromPrivateKey b else
  x ← import32 (slice 0 32 b);
  xp ← import32 (slice 32 64 b);
  e ← import32 (slice 64 96 b);
  ep ← import32 (slice 96 128 b);
  let publicKey := slice 32 64 b ++ slice 96 128 b in
  Some (mkIdentity (Some x) (Some e) xp ep publicKey (truncatedHash publicKey) []).

Definition getSalt (i : Identity) : bytes := identityHash i.
Definition getContext (i : Identity) : option bytes := None.

(** The token both ends build from one X25519 agreement. *)
Definition derive_token (i : Identity) (priv peer : bytes) : result Token.Token :=
  match x25519_bits priv peer with
  | None => Throw (JsError "OperationError")
  | Some sharedKey =>
      Token.new_Token (hkdf sharedKey (getSalt i) (default [] (getContext i)) 64)
        Token.AES_256_CBC
  end.

(** [encrypt]; the ephemeral private key and the token's IV are random. *)
Definition encrypt (eph iv : bytes) (i : Identity) (plaintext : bytes) (ratchet : option bytes)
  : result bytes :=
  let! target := match ratchet with
                 | Some r => match import32 r with
                             | Some r => Ok r
                             | None => Throw (JsError "DataError")
                             end
                 | None => Ok (x25519Pub i)
                 end in
  let! token := derive_token i eph target in
  Ok (x25519_pub eph ++ Token.encrypt iv token plaintext).

(** One decryption attempt with one private key; any exception is [None]. *)
Definition decrypt_with (i : Identity) (peerPub ciphertext priv : bytes) : option bytes :=
  match (let! token := derive_token i priv peerPub in Token.decrypt token ciphertext) with
  | Ok p => Some p
  | Throw _ => None
  end.

Fixpoint try_ratchets (i : Identity) (peerPub ciphertext : bytes) (ratchets : list bytes)
  : option bytes :=
  match ratchets with
  | [] => None
  | r :: rs =>
      match (k ← import32 r; decrypt_with i peerPub ciphertext k) with
      | Some p => Some p
      | None => try_ratchets i peerPub ciphertext rs
      end
  end.

Definition decrypt (i : Identity) (ciphertextToken : bytes) (ratchets : option (list bytes))
  : result (option bytes) :=
  if negb (match ed25519Priv i with Some _ => true | None => false end)
  then Throw (JsError "Decryption failed because identity does not hold a private key")
  else if (32 <? length ciphertextToken)%nat then
    let peerPub := slice 0 32 ciphertextToken in
    let ciphertext := slice_from 32 ciphertextToken in
    let plaintext := match ratchets with
                     | Some rs => try_ratchets i peerPub ciphertext rs
                     | None => None
                     end in
    Ok (match plaintext with
        | Some p => Some p
        | None => k ← x25519Priv i; decrypt_with i peerPub ciphertext k
        end)
  else Ok None.

Definition sign (i : Identity) (message : bytes) : result bytes :=
  match ed25519Priv i with
  | None => Throw (JsError "Signing failed because identity does not hold a private key")
  | Some k =>
      let sigArray := ed25519_sign k message in
      if negb (length sigArray =? 64)%nat
      then Throw (JsError "CRITICAL: Signature length is N, expected 64!")
      else Ok sigArray
  end.

Definition validate (i : Identity) (signature message : bytes) : bool :=
  if negb (length signature =? 64)%nat then false
  else ed25519_verify (ed25519Pub i) signature message.

Definition validateAnnounce (destinationHash : bytes) (contextFlag : bool) (data : bytes)
  : option AnnounceValidation :=
  let sigOffset := if contextFlag then 116%nat else 84%nat in
  let sigEnd := (sigOffset + 64)%nat in
  if (length data <? sigEnd)%nat then None else
  let publicKey := slice 0 64 data in
  let nameHash := slice 64 74 data in
  let randomHash := slice 74 84 data in
  let ratchet := if contextFlag then Some (slice 84 116 data) else None in
  let signature := slice sigOffset sigEnd data in
  let appData := if (sigEnd <? length data)%nat then Some (slice_from sigEnd data) else None in
  let identity := fromPublicKey publicKey in
  let signedData := destinationHash ++ publicKey ++ nameHash ++ randomHash
                    ++ default [] ratchet ++ default [] appData in
  if negb (validate identity signature signedData) then None else
  let combined := nameHash ++ identityHash identity in
  let expectedHash := truncatedHash combined in
  if negb (bytesEqual expectedHash destinationHash) then None else
  Some (mkValidation (set_appData identity (default [] appData)) nameHash randomHash ratchet
          signature appData).

(** ** The announce body a destination emits (destination.js, [_emitAnnounce]) *)

Definition createAnnounceRandomHash (randomBytes : bytes) (timestampSec : Z) : result bytes :=
  if timestampSec <? 0
  then Throw (RangeError "announce timestamp must be a non-negative integer")
  else if 1099511627775 <? timestampSec
  then Throw (RangeError "announce timestamp does not fit in a uint40")
  else Ok (field 5 (slice 0 5 randomBytes) ++ slice_from 3 (be_bytes 8 timestampSec)).

(** Steps 4 to 6 of the announce construction. *)
Definition announce_payload (i : Identity) (destinationHash nameHash randomHash ratchetBytes
  appData : bytes) : result bytes :=
  let pubKey := getPublicKey i in
  let signedData := destinationHash ++ pubKey ++ nameHash ++ randomHash ++ ratchetBytes ++ appData in
  let! signature := sign i signedData in
  Ok (pubKey ++ nameHash ++ randomHash ++ ratchetBytes ++ signature ++ appData).

(** [_computeHashes]: the name hash, and the destination hash of a SINGLE or
    GROUP destination (with an identity) or of a PLAIN one. *)
Definition name_hash (nameBytes : bytes) : bytes := slice 0 10 (sha256 nameBytes).

Definition dest_hash (nameHash : bytes) (id : option Identity) : bytes :=
  slice 0 16 (sha256 (nameHash ++ match id with Some i => identityHash i | None => [] end)).

(** An identity whose public halves belong to its private halves. *)
Definition wf_identity (i : Identity) : Prop :=
  (exists x, x25519Priv i = Some x /\ x25519Pub i = x25519_pub x)
  /\ (exists e, ed25519Priv i = Some e /\ ed25519Pub i = ed25519_pub e)
  /\ publicKey i = getPublicKey i /\ identityHash i = truncatedHash (publicKey i).

(** ** Lemmas *)

Context `{L : !WebCryptoLaws C}.

Lemma generate_wf xs es : wf_identity (generate xs es).
Proof. unfold wf_identity, generate; cbn. eauto 10. Qed.

Lemma length_truncatedHash m : length (truncatedHash m) = 16%nat.
Proof. unfold truncatedHash, fullHash. by rewrite length_slice, sha256_length. Qed.

Lemma getPublicKey_length i : wf_identity i -> length (getPublicKey i) = 64%nat.
Proof.
  intros ((x & _ & Hx) & (e & _ & He) & _). unfold getPublicKey. rewrite Hx, He, length_app.
  by rewrite x25519_pub_length, ed25519_pub_length.
Qed.

(** Recovering the public half from the key a peer announced. *)
Lemma fromPublicKey_of i : wf_identity i ->
  let j := fromPublicKey (getPublicKey i) in
  ed25519Pub j = ed25519Pub i /\ x25519Pub j = x25519Pub i
  /\ publicKey j = publicKey i /\ identityHash j = identityHash i.
Proof.
  intros Hw. pose proof (getPublicKey_length i Hw) as Hl.
  destruct Hw as ((x & _ & Hx) & (e & _ & He) & Hp & Hh). cbv zeta. unfold fromPublicKey. cbn.
  assert (Hx32 : length (x25519Pub i) = 32%nat) by (rewrite Hx; apply x25519_pub_length).
  assert (He32 : length (ed25519Pub i) = 32%nat) by (rewrite He; apply ed25519_pub_length).
  unfold getPublicKey in *.
  rewrite <- (app_nil_r (x25519Pub i ++ ed25519Pub i)), <- app_assoc.
  rewrite (slice_app_here 32 64) by lia. rewrite slice_app_take by done.
  rewrite app_assoc, slice_app_take by done.
  rewrite !field_exact by done. rewrite Hh, Hp. done.
Qed.

(** Signing with an identity and verifying with its public half. *)
Lemma sign_validate i m : wf_identity i ->
  exists s, sign i m = Ok s /\ length s = 64%nat /\ validate i s m = true
    /\ validate (fromPublicKey (getPublicKey i)) s m = true.
Proof.
  intros Hw. destruct (fromPublicKey_of i Hw) as (Hed & _).
  destruct Hw as (_ & (e & He & Hp) & _). unfold sign. rewrite He.
  pose proof (ed25519_sign_length e m) as Hl. rewrite Hl. cbn [Nat.eqb negb].
  exists (ed25519_sign e m). unfold validate. rewrite Hl, Hed, Hp, ed25519_correct. auto.
Qed.

(** The key pair formats: what [getPrivateKey] exports loads back. *)
Lemma fromBytes_getPrivateKey xs es : length xs = 32%nat -> length es = 32%nat ->
  (let! b := getPrivateKey (generate xs es) in Ok (fromBytes b)) = Ok (Some (generate xs es)).
Proof.
  intros Hx He. cbn [getPrivateKey generate x25519Priv ed25519Priv rbind].
  unfold fromBytes, fromPrivateKey. rewrite !length_app, Hx, He. cbn.
  replace (slice 32 64 (xs ++ es)) with es.
  2: { rewrite <- (app_nil_r (xs ++ es)), <- app_assoc. symmetry. apply slice_app_here; lia. }
  rewrite slice_app_take by done. unfold import32. rewrite Hx, He. done.
Qed.

Lemma new_Token_256 k : length k = 64%nat ->
  exists t, Token.new_Token k Token.AES_256_CBC = Ok t.
Proof. intros H. unfold Token.new_Token. rewrite H. cbn. eauto. Qed.

(** Both ends of an agreement derive the same token. *)
Lemma derive_token_agree i a b : derive_token i a (x25519_pub b) = derive_token i b (x25519_pub a).
Proof. unfold derive_token. by rewrite x25519_agree. Qed.

Lemma decrypt_with_own i iv k eph m s :
  length iv = 16%nat -> x25519_bits k (x25519_pub eph) = Some s ->
  exists t, derive_token i eph (x25519_pub k) = Ok t
    /\ decrypt_with i (x25519_pub eph) (Token.encrypt iv t m) k = Some m.
Proof.
  intros Hiv Hs. rewrite <- derive_token_agree.
  destruct (new_Token_256 (hkdf s (getSalt i) (default [] (getContext i)) 64)) as [t Ht].
  { apply hkdf_length. }
  assert (derive_token i k (x25519_pub eph) = Ok t) as E
    by (unfold derive_token; by rewrite Hs).
  exists t. split; [done|]. unfold decrypt_with. rewrite E. cbn [rbind].
  by rewrite Token.decrypt_encrypt.
Qed.

(** The candidate keys in the order [decrypt] tries them. *)
Definition candidate_keys (i : Identity) (ratchets : list bytes) : list bytes :=
  omap import32 ratchets ++ option_list (x25519Priv i).

Lemma try_ratchets_find i pp ct rs :
  try_ratchets i pp ct rs = head (omap (decrypt_with i pp ct) (omap import32 rs)).
Proof.
  induction rs as [|r rs IH]; [done|]. cbn [try_ratchets omap list_omap].
  destruct (import32 r) as [k|]; cbn [mbind option_bind omap list_omap]; [|exact IH].
  by destruct (decrypt_with i pp ct k).
Qed.

Lemma decrypt_spec i tok rs p : ed25519Priv i = Some p -> (32 < length tok)%nat ->
  decrypt i tok (Some rs)
  = Ok (head (omap (decrypt_with i (slice 0 32 tok) (slice_from 32 tok)) (candidate_keys i rs))).
Proof.
  intros Hp Hl. unfold decrypt. rewrite Hp. cbn [negb].
  rewrite (proj2 (Nat.ltb_lt _ _)) by done. cbv zeta. f_equal.
  rewrite try_ratchets_find. unfold candidate_keys. rewrite omap_app.
  destruct (omap _ (omap import32 rs)) as [|x l]; cbn [head app]; [|done].
  destruct (x25519Priv i) as [k|]; [|done]. cbn. by destruct (decrypt_with _ _ _ k).
Qed.

(** Decryption of what was encrypted, for the users of the two. *)
Lemma decrypt_encrypted (i : Identity) (eph iv m s key : bytes)
    (pre post : list bytes) (ratchet : option bytes)
    (Hw : wf_identity i) (Hiv : length iv = 16%nat)
    (Hkey : match ratchet with
            | Some r => length key = 32%nat /\ r = x25519_pub key
            | None => x25519Priv i = Some key /\ post = []
            end)
    (Hs : x25519_bits key (x25519_pub eph) = Some s) :
  exists c, encrypt eph iv i m ratchet = Ok c
    /\ decrypt i c None = Ok (k ← x25519Priv i; decrypt_with i (x25519_pub eph) (drop 32 c) k)
    /\ (Forall (fun k => decrypt_with i (x25519_pub eph) (drop 32 c) k = None)
          (omap import32 pre) ->
        decrypt i c (Some (pre ++ match ratchet with Some _ => [key] | None => [] end ++ post)) = Ok (Some m)).
Proof.
  destruct (decrypt_with_own i iv key eph m s Hiv Hs) as (t & Ht & Hd).
  pose proof Hw as ((x & Hx & Hxp) & (e & He & _) & _).
  assert (Henc : encrypt eph iv i m ratchet = Ok (x25519_pub eph ++ Token.encrypt iv t m)).
  { unfold encrypt. destruct ratchet as [r|]; cbn [rbind].
    - destruct Hkey as [_ ->]. unfold import32. rewrite x25519_pub_length. cbn [Nat.eqb rbind].
      by rewrite Ht.
    - destruct Hkey as [Hk _]. assert (key = x) as -> by congruence.
      rewrite Hxp, Ht. done. }
  eexists. split; [exact Henc|].
  assert (Hpl := x25519_pub_length eph).
  assert (Hcl : (32 < length (x25519_pub eph ++ Token.encrypt iv t m))%nat).
  { rewrite length_app, Hpl. unfold Token.encrypt. cbv zeta. rewrite !length_app, Hiv. lia. }
  assert (Hsl : slice 0 32 (x25519_pub eph ++ Token.encrypt iv t m) = x25519_pub eph)
    by (by apply slice_app_take).
  assert (Hdr : drop 32 (x25519_pub eph ++ Token.encrypt iv t m) = Token.encrypt iv t m)
    by (rewrite <- Hpl; apply drop_app_length).
  rewrite Hdr. split.
  - unfold decrypt. rewrite He. cbn [negb]. rewrite (proj2 (Nat.ltb_lt _ _)) by done.
    cbv zeta. rewrite Hsl. unfold slice_from. by rewrite Hdr.
  - intros Hpre. rewrite (decrypt_spec _ _ _ e) by done. rewrite Hsl. unfold slice_from.
    rewrite Hdr. f_equal.
    unfold candidate_keys. rewrite !omap_app, <- !app_assoc.
    assert (omap (decrypt_with i (x25519_pub eph) (Token.encrypt iv t m)) (omap import32 pre) = [])
      as ->.
    { induction Hpre as [|k l Hk _ IH]; [done|]. cbn. rewrite Hk. exact IH. }
    cbn [app]. destruct ratchet as [r|].
    + destruct Hkey as [Hk _]. cbn [app omap list_omap]. unfold import32 at 1. rewrite Hk.
      cbn [Nat.eqb app omap list_omap]. by rewrite Hd.
    + destruct Hkey as [Hk ->]. cbn. rewrite Hk. cbn. by rewrite Hd.
Qed.

(** Hybrid encryption: a message encrypted to an identity's long-term key
    or to one of its ratchets decrypts to itself, whatever other ratchets the
    ring holds, provided no newer ratchet happens to authenticate the same
    token; keys are tried newest ratchet first and the long-term key last. *)
Theorem identity_decrypt_encrypt (i : Identity) (eph iv m s key : bytes)
    (pre post : list bytes) (ratchet : option bytes)
    (Hw : wf_identity i) (Hiv : length iv = 16%nat)
    (Hkey : match ratchet with
            | Some r => length key = 32%nat /\ r = x25519_pub key
            | None => x25519Priv i = Some key /\ post = []
            end)
    (Hs : x25519_bits key (x25519_pub eph) = Some s) :
  exists c, encrypt eph iv i m ratchet = Ok c
    /\ decrypt i c None = Ok (k ← x25519Priv i; decrypt_with i (x25519_pub eph) (drop 32 c) k)
    /\ (Forall (fun k => decrypt_with i (x25519_pub eph) (drop 32 c) k = None)
          (omap import32 pre) ->
        decrypt i c (Some (pre ++ match ratchet with Some _ => [key] | None => [] end ++ post)) = Ok (Some m)).
Proof. exact (decrypt_encrypted i eph iv m s key pre post ratchet Hw Hiv Hkey Hs). Qed.

(** ** Announces *)

Lemma slices_of_body (a b c d e f : bytes) na nb nc nd ne :
  length a = na -> length b = nb -> length c = nc -> length d = nd -> length e = ne ->
  let l := a ++ b ++ c ++ d ++ e ++ f in
  slice 0 na l = a /\ slice na (na + nb) l = b /\ slice (na + nb) (na + nb + nc) l = c
  /\ slice (na + nb + nc) (na + nb + nc + nd) l = d
  /\ slice (na + nb + nc + nd) (na + nb + nc + nd + ne) l = e
  /\ drop (na + nb + nc + nd + ne) l = f.
Proof.
  intros Ha Hb Hc Hd He l. subst l.
  repeat split.
  - by apply slice_app_take.
  - apply slice_app_here; lia.
  - rewrite app_assoc. apply slice_app_here; rewrite length_app; lia.
  - rewrite !(app_assoc _ _ (d ++ _)), (app_assoc a). apply slice_app_here; rewrite !length_app; lia.
  - rewrite (app_assoc a), (app_assoc (a ++ b)), (app_assoc ((a ++ b) ++ c)).
    apply slice_app_here; rewrite !length_app; lia.
  - rewrite (app_assoc a), (app_assoc (a ++ b)), (app_assoc ((a ++ b) ++ c)),
      (app_assoc (((a ++ b) ++ c) ++ d)).
    replace (na + nb + nc + nd + ne)%nat with (length ((((a ++ b) ++ c) ++ d) ++ e))
      by (rewrite !length_app; lia). apply drop_app_length.
Qed.

(** The validator on a body split into its fields. *)
Lemma validateAnnounce_body dh (rt : option bytes) pk nh rh sg app :
  length pk = 64%nat -> length nh = 10%nat -> length rh = 10%nat -> length sg = 64%nat ->
  match rt with Some r => length r = 32%nat | None => True end ->
  validateAnnounce dh (match rt with Some _ => true | None => false end)
    (pk ++ nh ++ rh ++ default [] rt ++ sg ++ app)
  = (let i := fromPublicKey pk in
     if validate i sg (dh ++ pk ++ nh ++ rh ++ default [] rt ++ app)
        && bytesEqual (truncatedHash (nh ++ identityHash i)) dh
     then Some (mkValidation (set_appData i app) nh rh rt sg
                  (match app with [] => None | _ => Some app end))
     else None).
Proof.
  intros Hpk Hnh Hrh Hsg Hrt. unfold validateAnnounce.
  assert (Hl : length (default [] rt) = match rt with Some _ => 32%nat | None => 0%nat end)
    by (by destruct rt).
  pose proof (slices_of_body pk nh rh (default [] rt) sg app 64 10 10 _ 64 Hpk Hnh Hrh Hl Hsg)
    as (S1 & S2 & S3 & S4 & S5 & S6).
  set (body := pk ++ _) in *.
  assert (Hlen : length body = (148 + length (default [] rt) + length app)%nat).
  { unfold body. rewrite !length_app, Hpk, Hnh, Hrh, Hsg. lia. }
  clearbody body.
  assert (Happ : forall n, length body = (n + length app)%nat -> drop n body = app ->
    (if (n <? length body)%nat then Some (slice_from n body) else None)
    = match app with [] => None | _ => Some app end).
  { intros n Hn Hd. rewrite Hn. unfold slice_from. rewrite Hd. destruct app as [|x app].
    - rewrite (proj2 (Nat.ltb_ge _ _)); [done | cbn; lia].
    - rewrite (proj2 (Nat.ltb_lt _ _)); [done | cbn; lia]. }
  assert (Hd0 : default [] (match app with [] => None | _ => Some app end) = app)
    by (by destruct app).
  destruct rt as [r|]; cbn [default] in *.
  - cbn [Nat.add] in S1, S2, S3, S4, S5, S6 |- *.
    rewrite (proj2 (Nat.ltb_ge _ _)) by lia. rewrite S1, S2, S3, S4, S5. rewrite Happ by (done || lia).
    cbn [default]. rewrite Hd0.
    destruct (validate _ _ _); [|done]. by destruct (bytesEqual _ _).
  - cbn [Nat.add] in S1, S2, S3, S4, S5, S6 |- *.
    rewrite (proj2 (Nat.ltb_ge _ _)) by (cbn in Hlen; lia).
    rewrite S1, S2, S3, S5. rewrite Happ by (done || (cbn in Hlen; lia)).
    cbn [default]. rewrite Hd0.
    destruct (validate _ _ _); [|done]. by destruct (bytesEqual _ _).
Qed.

Lemma cut_at {A} n (l : list A) : (n <= length l)%nat -> exists a b, l = a ++ b /\ length a = n.
Proof.
  intros. exists (take n l), (drop n l). rewrite take_drop, length_take. split; [done|lia].
Qed.

(** Every body long enough for its context flag splits that way. *)
Lemma announce_split (cf : bool) (data : bytes) :
  ((if cf then 180 else 148) <= length data)%nat ->
  exists (rt : option bytes) pk nh rh sg app,
    data = pk ++ nh ++ rh ++ default [] rt ++ sg ++ app
    /\ length pk = 64%nat /\ length nh = 10%nat /\ length rh = 10%nat /\ length sg = 64%nat
    /\ cf = (match rt with Some _ => true | None => false end)
    /\ match rt with Some r => length r = 32%nat | None => True end.
Proof.
  intros H.
  destruct (cut_at 64 data) as (pk & d1 & -> & Hpk); [destruct cf; lia|].
  rewrite length_app in H.
  destruct (cut_at 10 d1) as (nh & d2 & -> & Hnh); [destruct cf; lia|].
  rewrite length_app in H.
  destruct (cut_at 10 d2) as (rh & d3 & -> & Hrh); [destruct cf; lia|].
  rewrite length_app in H.
  destruct cf.
  - destruct (cut_at 32 d3) as (r & d4 & -> & Hr); [lia|]. rewrite length_app in H.
    destruct (cut_at 64 d4) as (sg & app & -> & Hsg); [lia|].
    exists (Some r), pk, nh, rh, sg, app. done.
  - destruct (cut_at 64 d3) as (sg & app & -> & Hsg); [lia|].
    exists None, pk, nh, rh, sg, app. done.
Qed.

(** Validation of a built announce, for the users of the two. *)
Lemma announce_payload_validates (i : Identity) (nh rh app : bytes) (rt : option bytes)
    (Hw : wf_identity i) (Hnh : length nh = 10%nat) (Hrh : length rh = 10%nat)
    (Hrt : match rt with Some r => length r = 32%nat | None => True end) :
  exists payload v,
    announce_payload i (dest_hash nh (Some i)) nh rh (default [] rt) app = Ok payload
    /\ validateAnnounce (dest_hash nh (Some i))
         (match rt with Some _ => true | None => false end) payload = Some v
    /\ publicKey (v_identity v) = publicKey i /\ identityHash (v_identity v) = identityHash i
    /\ v_nameHash v = nh /\ v_randomHash v = rh /\ v_ratchet v = rt
    /\ default [] (v_appData v) = app
    /\ v_identity v = set_appData (fromPublicKey (getPublicKey i)) app
    /\ length payload = (148 + length (default [] rt) + length app)%nat.
Proof.
  pose proof Hw as (_ & (e & He & Hep) & Hpk & Hih).
  pose proof (fromPublicKey_of i Hw) as (F1 & _ & F3 & F4).
  unfold announce_payload. cbv zeta. unfold sign. rewrite He, ed25519_sign_length. cbn [Nat.eqb negb].
  set (signed := dest_hash nh (Some i) ++ _). cbn [rbind].
  eexists. eexists. split; [reflexivity|].
  rewrite validateAnnounce_body by
    (done || (by apply getPublicKey_length) || apply ed25519_sign_length).
  cbv zeta. unfold validate. rewrite ed25519_sign_length. cbn [Nat.eqb negb].
  rewrite F1, Hep. fold signed. rewrite ed25519_correct, F4.
  change (truncatedHash (nh ++ identityHash i)) with (dest_hash nh (Some i)).
  rewrite bytesEqual_refl. cbn [andb]. split; [reflexivity|].
  cbn [v_identity v_nameHash v_randomHash v_ratchet v_appData set_appData publicKey identityHash].
  repeat split; auto; [by destruct app|].
  rewrite !length_app, getPublicKey_length, Hnh, Hrh, ed25519_sign_length by done. lia.
Qed.

(** An announce emitted by a destination is accepted by every receiver,
    with and without a ratchet, and yields the announced public key, name
    hash, random hash, ratchet and app data. *)
Theorem announce_validates (i : Identity) (nh rh app : bytes) (rt : option bytes)
    (Hw : wf_identity i) (Hnh : length nh = 10%nat) (Hrh : length rh = 10%nat)
    (Hrt : match rt with Some r => length r = 32%nat | None => True end) :
  exists payload v,
    announce_payload i (dest_hash nh (Some i)) nh rh (default [] rt) app = Ok payload
    /\ validateAnnounce (dest_hash nh (Some i))
         (match rt with Some _ => true | None => false end) payload = Some v
    /\ publicKey (v_identity v) = publicKey i /\ identityHash (v_identity v) = identityHash i
    /\ v_nameHash v = nh /\ v_randomHash v = rh /\ v_ratchet v = rt
    /\ default [] (v_appData v) = app.
Proof.
  destruct (announce_payload_validates i nh rh app rt Hw Hnh Hrh Hrt)
    as (payload & v & H1 & H2 & H3 & H4 & H5 & H6 & H7 & H8 & _). eauto 12.
Qed.

(** What an accepted body is made of, for the users of the validator. *)
Lemma validated_announce (dh : bytes) (cf : bool) (data : bytes) (v : AnnounceValidation)
    (Hv : validateAnnounce dh cf data = Some v) :
  let pk := publicKey (v_identity v) in
  let app := default [] (v_appData v) in
  data = pk ++ v_nameHash v ++ v_randomHash v ++ default [] (v_ratchet v) ++ v_signature v ++ app
  /\ (cf = true <-> exists r, v_ratchet v = Some r /\ length r = 32%nat)
  /\ length (v_signature v) = 64%nat
  /\ ed25519_verify (slice 32 64 pk) (v_signature v)
       (dh ++ pk ++ v_nameHash v ++ v_randomHash v ++ default [] (v_ratchet v) ++ app) = true
  /\ dh = truncatedHash (v_nameHash v ++ truncatedHash pk).
Proof.
  assert (Hlen : ((if cf then 180 else 148) <= length data)%nat).
  { unfold validateAnnounce in Hv. destruct cf; cbn [Nat.add] in Hv;
      destruct (_ <? _)%nat eqn:E in Hv; try discriminate; bools; lia. }
  destruct (announce_split cf data Hlen) as (rt & pk & nh & rh & sg & app & -> & Hpk & Hnh & Hrh
    & Hsg & -> & Hrt).
  rewrite validateAnnounce_body in Hv by done. cbv zeta in Hv.
  destruct (_ && _) eqn:E; [|discriminate]. bools. injection Hv as <-.
  match goal with H : bytesEqual _ _ = true |- _ => apply bytesEqual_spec in H as Hdh end.
  match goal with H : validate _ _ _ = true |- _ => rename H into Hval end.
  unfold validate in Hval. rewrite Hsg in Hval. cbn [Nat.eqb negb] in Hval.
  assert (Hp : publicKey (fromPublicKey pk) = pk).
  { cbn. rewrite <- (app_nil_r pk) at 1. rewrite slice_app_take by done. by apply field_exact. }
  assert (He : ed25519Pub (fromPublicKey pk) = slice 32 64 pk).
  { cbn. apply field_exact. rewrite length_slice, Hpk. done. }
  assert (Hi : identityHash (fromPublicKey pk) = truncatedHash pk).
  { change (truncatedHash (publicKey (fromPublicKey pk)) = truncatedHash pk). by rewrite Hp. }
  cbv zeta.
  cbn [v_identity v_nameHash v_randomHash v_ratchet v_appData v_signature].
  change (publicKey (set_appData (fromPublicKey pk) app)) with (publicKey (fromPublicKey pk)).
  rewrite Hp. replace (default [] (match app with [] => None | _ => Some app end)) with app
    by (by destruct app).
  rewrite <- He, Hval, <- Hi, Hdh. repeat split; auto.
  - destruct rt; [eauto | discriminate].
  - by intros (r & -> & _).
Qed.

(** C8: An accepted announce is authentic: its body is exactly public key,
    name hash, random hash, ratchet (iff the context flag is set), signature
    and app data; the signature verifies, under the key the body carries, over
    the destination hash of the packet header and all those fields; and that
    destination hash is the one the name hash and the key determine. *)
Theorem announce_authentic (dh : bytes) (cf : bool) (data : bytes) (v : AnnounceValidation)
    (Hv : validateAnnounce dh cf data = Some v) :
  let pk := publicKey (v_identity v) in
  let app := default [] (v_appData v) in
  data = pk ++ v_nameHash v ++ v_randomHash v ++ default [] (v_ratchet v) ++ v_signature v ++ app
  /\ (cf = true <-> exists r, v_ratchet v = Some r /\ length r = 32%nat)
  /\ length (v_signature v) = 64%nat
  /\ ed25519_verify (slice 32 64 pk) (v_signature v)
       (dh ++ pk ++ v_nameHash v ++ v_randomHash v ++ default [] (v_ratchet v) ++ app) = true
  /\ dh = truncatedHash (v_nameHash v ++ truncatedHash pk).
Proof. exact (validated_announce dh cf data v Hv). Qed.

End WithCrypto.

Import Toy.

Definition alice : Identity := generate (replicate 32 11) (replicate 32 12).

Lemma identity_decrypt_encrypt_witness :
  exists c, encrypt (replicate 32 21) (replicate 16 3) alice [104; 105]
              (Some (x25519_pub (replicate 32 31))) = Ok c
    /\ decrypt alice c (Some ([] ++ [replicate 32 31] ++ [replicate 32 32])) = Ok (Some [104; 105]).
Proof.
  destruct (identity_decrypt_encrypt alice (replicate 32 21) (replicate 16 3) [104; 105]
    (default [] (x25519_bits (replicate 32 31) (x25519_pub (replicate 32 21))))
    (replicate 32 31) [] [replicate 32 32] (Some (x25519_pub (replicate 32 31))))
    as (c & H1 & _ & H2); [apply generate_wf | reflexivity | split; reflexivity | reflexivity |].
  exists c. split; [exact H1 | apply H2; constructor].
Defined.

Lemma announce_validates_witness :
  exists payload v,
    announce_payload alice (dest_hash (replicate 10 1) (Some alice)) (replicate 10 1)
      (replicate 10 2) [] [9; 9] = Ok payload
    /\ validateAnnounce (dest_hash (replicate 10 1) (Some alice)) false payload = Some v
    /\ default [] (v_appData v) = [9; 9].
Proof.
  destruct (announce_validates alice (replicate 10 1) (replicate 10 2) [9; 9] None)
    as (p & v & H1 & H2 & _ & _ & _ & _ & _ & H3);
    [apply generate_wf | reflexivity | reflexivity | exact I |].
  exists p, v. split; [exact H1|]. split; [exact H2 | exact H3].
Defined.

Lemma announce_authentic_witness :
  match announce_payload alice (dest_hash (replicate 10 1) (Some alice)) (replicate 10 1)
      (replicate 10 2) [] [9; 9] with
  | Ok payload =>
      match validateAnnounce (dest_hash (replicate 10 1) (Some alice)) false payload with
      | Some v => dest_hash (replicate 10 1) (Some alice)
                  = truncatedHash (v_nameHash v ++ truncatedHash (publicKey (v_identity v)))
      | None => False
      end
  | Throw _ => False
  end.
Proof.
  destruct (announce_payload _ _ _ _ _ _) as [p|] eqn:Hp; [|vm_compute in Hp; discriminate].
  destruct (validateAnnounce _ _ p) as [v|] eqn:Hv.
  - apply (announce_authentic _ _ _ _ Hv).
  - vm_compute in Hp. injection Hp as <-. vm_compute in Hv. discriminate.
Defined.
