(* ===== verification/Ifac.v ===== *)
(** * Ifac: interface authentication codes (packages/core/src/core/ifac.js)

    Sealing and opening of raw frames on an authenticated interface.  The
    Ed25519 signature of the shared IFAC identity and the HKDF key stream are
    those of [Crypto] and [Identity]. *)

From S2P Require Import Prelude Encoding Crypto Identity.

Definition IFAC_MIN_SIZE := 1.

Definition IFAC_SALT : bytes :=
  [173; 245; 77; 136; 44; 154; 155; 128; 119; 30; 180; 153; 93;
   112; 45; 74; 62; 115; 51; 145; 178; 160; 245; 63; 65; 109;
   159; 144; 126; 85; 207; 248].

Record IfacConfig := mkIfacConfig {
  ifacIdentity : Identity;
  ifacKey : bytes;
  ifacSize : nat;
}.

Section WithCrypto.
Context `{C : WebCrypto}.

(** [deriveIfac]; the arguments are the UTF-8 encodings, and an absent or
    empty secret is not hashed.  [None] inside [Ok] is the disabled case. *)
Definition deriveIfac (netname netkey : bytes) : option (bytes * option Identity * result bytes) :=
  let parts := (if (length netname =? 0)%nat then [] else [fullHash netname])
               ++ (if (length netkey =? 0)%nat then [] else [fullHash netkey]) in
  if (length parts =? 0)%nat then None else
  let origin := concat parts in
  let originHash := fullHash origin in
  let ifacKey := hkdf originHash IFAC_SALT [] 64 in
  let ifacIdentity := fromPrivateKey ifacKey in
  Some (ifacKey, ifacIdentity,
        match ifacIdentity with
        | Some i => sign i (fullHash ifacKey)
        | None => Throw (TypeError "ifacIdentity is null")
        end).

(** One byte of the masking loop of [seal]: [i] is the index. *)
Definition seal_byte (ifacSize : nat) (i : nat) (b m : Z) : Z :=
  if (i =? 0)%nat then Z.lor (Z.lxor b m) 128
  else if (i =? 1)%nat || (ifacSize + 1 <? i)%nat then Z.lxor b m
  else b.

Definition open_byte (ifacSize : nat) (i : nat) (b m : Z) : Z :=
  if (i <=? 1)%nat || (ifacSize + 1 <? i)%nat then Z.lxor b m else b.

(** The loop [for (i = 0; i < l.length; i++) out[i] = f(i, l[i], mask[i])]
    from index [i]; the mask is at least as long as [l]. *)
Fixpoint mask_loop (f : nat -> Z -> Z -> Z) (i : nat) (l mask : bytes) : bytes :=
  match l with
  | [] => []
  | b :: l' => f i b (byte_at 0 mask) :: mask_loop f (S i) l' (drop 1 mask)
  end.

Definition seal (raw : bytes) (cfg : IfacConfig) : result bytes :=
  let! fullSig := sign (ifacIdentity cfg) raw in
  let ifac := js_slice_from (zlen fullSig - Z.of_nat (ifacSize cfg)) fullSig in
  let mask := hkdf ifac (ifacKey cfg) [] (length raw + ifacSize cfg) in
  if (length raw <? 2)%nat then Throw (RangeError "offset is out of bounds") else
  let newRaw := [Z.lor (byte_at 0 raw) 128; byte_at 1 raw] ++ ifac ++ slice_from 2 raw in
  Ok (mask_loop (seal_byte (ifacSize cfg)) 0 newRaw mask).

Definition open (raw : bytes) (cfg : IfacConfig) : result (option bytes) :=
  if (length raw <=? 2 + ifacSize cfg)%nat then Ok None else
  let ifac := slice 2 (2 + ifacSize cfg) raw in
  let mask := hkdf ifac (ifacKey cfg) [] (length raw) in
  let unmasked := mask_loop (open_byte (ifacSize cfg)) 0 raw mask in
  let newRaw := [Z.land (byte_at 0 unmasked) 127; byte_at 1 unmasked]
                ++ slice_from (2 + ifacSize cfg) unmasked in
  let! expectedFull := sign (ifacIdentity cfg) newRaw in
  let expected := js_slice_from (zlen expectedFull - Z.of_nat (ifacSize cfg)) expectedFull in
  Ok (if bytesEqual ifac expected then Some newRaw else None).

Definition hasIfacFlag (raw : bytes) : bool :=
  (0 <? length raw)%nat && negb (Z.land (byte_at 0 raw) 128 =? 0).

(** ** Lemmas *)

(** Byte arithmetic of the flag bit, checked on all 65536 pairs. *)
Definition byte_range : list Z := map Z.of_nat (seq 0 256).

Lemma byte_range_spec b : is_byte b -> In b byte_range.
Proof.
  intros H. unfold is_byte in H. apply in_map_iff. exists (Z.to_nat b). rewrite in_seq. lia.
Qed.

Lemma byte_pairs (P : Z -> Z -> bool) :
  forallb (fun a => forallb (P a) byte_range) byte_range = true ->
  forall a b, is_byte a -> is_byte b -> P a b = true.
Proof.
  intros H a b Ha Hb. rewrite forallb_forall in H.
  specialize (H a (byte_range_spec a Ha)). rewrite forallb_forall in H.
  apply H. by apply byte_range_spec.
Qed.

Lemma flag_mask_inv b m : is_byte b -> is_byte m ->
  Z.land (Z.lxor (Z.lor (Z.lxor (Z.lor b 128) m) 128) m) 127 = b mod 128
  /\ is_byte (Z.lor (Z.lxor (Z.lor b 128) m) 128)
  /\ (128 <= b -> Z.lor (Z.lxor (Z.lor (Z.land (Z.lxor b m) 127) 128) m) 128 = b)
  /\ Z.land (Z.lor (Z.lxor (Z.lor b 128) m) 128) 128 = 128
  /\ is_byte (Z.lxor b m).
Proof.
  intros Hb Hm.
  pose proof (byte_pairs (fun b m =>
    (Z.land (Z.lxor (Z.lor (Z.lxor (Z.lor b 128) m) 128) m) 127 =? b mod 128)
    && ((0 <=? Z.lor (Z.lxor (Z.lor b 128) m) 128) && (Z.lor (Z.lxor (Z.lor b 128) m) 128 <? 256))
    && ((b <? 128) || (Z.lor (Z.lxor (Z.lor (Z.land (Z.lxor b m) 127) 128) m) 128 =? b))
    && (Z.land (Z.lor (Z.lxor (Z.lor b 128) m) 128) 128 =? 128)
    && ((0 <=? Z.lxor b m) && (Z.lxor b m <? 256)))
    ltac:(vm_compute; reflexivity) b m Hb Hm) as H.
  cbv beta in H. bools. unfold is_byte. repeat split; auto; try lia.
Qed.

Lemma lxor_cancel b m : Z.lxor (Z.lxor b m) m = b.
Proof. by rewrite Z.lxor_assoc, Z.lxor_nilpotent, Z.lxor_0_r. Qed.

Lemma mask_loop_app f i l1 l2 mask :
  mask_loop f i (l1 ++ l2) mask
  = mask_loop f i l1 mask ++ mask_loop f (i + length l1) l2 (drop (length l1) mask).
Proof.
  revert i mask. induction l1 as [|b l1 IH]; intros i mask; cbn [app mask_loop length].
  - by rewrite Nat.add_0_r, drop_0.
  - rewrite IH, drop_drop. cbn [app]. f_equal. f_equal.
    by replace (S i + length l1)%nat with (i + S (length l1))%nat by lia.
Qed.

Lemma length_mask_loop f i l mask : length (mask_loop f i l mask) = length l.
Proof. revert i mask. induction l as [|b l IH]; intros; cbn [mask_loop length]; auto. Qed.

(** Inside the IFAC field nothing is masked. *)
Lemma mask_loop_id f i l mask :
  (forall k b m, (i <= k < i + length l)%nat -> f k b m = b) -> mask_loop f i l mask = l.
Proof.
  revert i mask. induction l as [|b l IH]; intros i mask H; cbn [mask_loop]; [done|].
  rewrite H by (cbn; lia). f_equal. apply IH. intros. apply H. cbn. lia.
Qed.

(** After the IFAC field the two loops xor, so either undoes the other. *)
Lemma mask_loop_inv f g i l mask :
  (forall k b m, (i <= k)%nat -> f k b m = Z.lxor b m) ->
  (forall k b m, (i <= k)%nat -> g k b m = Z.lxor b m) ->
  mask_loop f i (mask_loop g i l mask) mask = l.
Proof.
  revert i mask. induction l as [|b l IH]; intros i mask Hf Hg; cbn [mask_loop]; [done|].
  rewrite Hf, Hg, lxor_cancel by lia. f_equal. apply IH; intros; [apply Hf | apply Hg]; lia.
Qed.

Lemma mask_loop_xor_wf f i l mask : wf_bytes l -> wf_bytes mask ->
  (forall k b m, (i <= k)%nat -> f k b m = Z.lxor b m) -> wf_bytes (mask_loop f i l mask).
Proof.
  revert i mask. induction l as [|b l IH]; intros i mask Hl Hm Hf; cbn [mask_loop]; [constructor|].
  inv Hl. constructor.
  - rewrite Hf by lia. apply flag_mask_inv; [done|].
    unfold byte_at. destruct mask; cbn; [unfold is_byte; lia | by inv Hm].
  - apply IH; auto with ret. intros. apply Hf. lia.
Qed.

Lemma seal_byte_high s k b m : (s + 2 <= k)%nat -> seal_byte s k b m = Z.lxor b m.
Proof.
  intros H. unfold seal_byte. rewrite (proj2 (Nat.eqb_neq _ _)) by lia.
  rewrite (proj2 (Nat.ltb_lt _ _)) by lia. by rewrite orb_true_r.
Qed.

Lemma open_byte_high s k b m : (s + 2 <= k)%nat -> open_byte s k b m = Z.lxor b m.
Proof.
  intros H. unfold open_byte. rewrite (proj2 (Nat.ltb_lt _ _)) by lia. by rewrite orb_true_r.
Qed.

Lemma seal_byte_mid s k b m : (2 <= k < s + 2)%nat -> seal_byte s k b m = b.
Proof.
  intros H. unfold seal_byte. rewrite !(proj2 (Nat.eqb_neq _ _)) by lia.
  rewrite (proj2 (Nat.ltb_ge _ _)) by lia. done.
Qed.

Lemma open_byte_mid s k b m : (2 <= k < s + 2)%nat -> open_byte s k b m = b.
Proof.
  intros H. unfold open_byte. rewrite (proj2 (Nat.leb_gt _ _)) by lia.
  rewrite (proj2 (Nat.ltb_ge _ _)) by lia. done.
Qed.

(** Both loops on a frame [b0 b1 ifac rest] written out. *)
Lemma seal_loop b0 b1 ifac rest mask :
  mask_loop (seal_byte (length ifac)) 0 (b0 :: b1 :: ifac ++ rest) mask
  = Z.lor (Z.lxor b0 (byte_at 0 mask)) 128 :: Z.lxor b1 (byte_at 0 (drop 1 mask)) :: ifac
    ++ mask_loop (seal_byte (length ifac)) (length ifac + 2) rest (drop (length ifac + 2) mask).
Proof.
  cbn [mask_loop]. f_equal. f_equal.
  rewrite mask_loop_app, mask_loop_id, !drop_drop.
  - f_equal. f_equal; [lia | f_equal; lia].
  - intros. apply seal_byte_mid. lia.
Qed.

Lemma open_loop b0 b1 ifac rest mask :
  mask_loop (open_byte (length ifac)) 0 (b0 :: b1 :: ifac ++ rest) mask
  = Z.lxor b0 (byte_at 0 mask) :: Z.lxor b1 (byte_at 0 (drop 1 mask)) :: ifac
    ++ mask_loop (open_byte (length ifac)) (length ifac + 2) rest (drop (length ifac + 2) mask).
Proof.
  cbn [mask_loop]. f_equal. f_equal.
  rewrite mask_loop_app, mask_loop_id, !drop_drop.
  - f_equal. f_equal; [lia | f_equal; lia].
  - intros. apply open_byte_mid. lia.
Qed.

Context `{L : !WebCryptoLaws C}.

(** The IFAC of a frame: the last [ifacSize] bytes of its signature. *)
Definition ifac_of (cfg : IfacConfig) (k raw : bytes) : bytes :=
  drop (64 - ifacSize cfg) (ed25519_sign k raw).

Lemma ifac_slice k raw n : (n <= 64)%nat ->
  js_slice_from (zlen (ed25519_sign k raw) - Z.of_nat n) (ed25519_sign k raw)
  = drop (64 - n) (ed25519_sign k raw).
Proof.
  intros Hn. unfold js_slice_from, js_index, zlen. rewrite ed25519_sign_length.
  rewrite (proj2 (Z.ltb_ge _ _)) by lia. f_equal. lia.
Qed.

Lemma length_ifac_of cfg k raw : (ifacSize cfg <= 64)%nat -> length (ifac_of cfg k raw) = ifacSize cfg.
Proof. intros. unfold ifac_of. rewrite length_drop, ed25519_sign_length. lia. Qed.

(** The sealed form of a frame, and the unsealed form of a sealed one. *)
Lemma seal_eq cfg k b0 b1 rest : ed25519Priv (ifacIdentity cfg) = Some k ->
  (ifacSize cfg <= 64)%nat ->
  let raw := b0 :: b1 :: rest in
  let ifac := ifac_of cfg k raw in
  let mask := hkdf ifac (ifacKey cfg) [] (length raw + ifacSize cfg) in
  seal raw cfg = Ok (Z.lor (Z.lxor (Z.lor b0 128) (byte_at 0 mask)) 128
    :: Z.lxor b1 (byte_at 0 (drop 1 mask)) :: ifac
    ++ mask_loop (seal_byte (ifacSize cfg)) (ifacSize cfg + 2) rest
         (drop (ifacSize cfg + 2) mask)).
Proof.
  intros Hk Hn raw ifac mask. unfold seal, sign. rewrite Hk, ed25519_sign_length.
  cbn [Nat.eqb negb rbind]. rewrite ifac_slice by done. fold (ifac_of cfg k raw). fold ifac. fold mask.
  unfold raw at 1. cbn [length Nat.ltb Nat.leb]. f_equal.
  assert (Hl : ifacSize cfg = length ifac) by (symmetry; by apply length_ifac_of).
  rewrite Hl. exact (seal_loop (Z.lor b0 128) b1 ifac rest mask).
Qed.

Lemma open_eq cfg k b0 b1 ifac rest : ed25519Priv (ifacIdentity cfg) = Some k ->
  (ifacSize cfg <= 64)%nat -> length ifac = ifacSize cfg -> rest <> [] ->
  let raw := b0 :: b1 :: ifac ++ rest in
  let mask := hkdf ifac (ifacKey cfg) [] (length raw) in
  let newRaw := Z.land (Z.lxor b0 (byte_at 0 mask)) 127 :: Z.lxor b1 (byte_at 0 (drop 1 mask))
    :: mask_loop (open_byte (ifacSize cfg)) (ifacSize cfg + 2) rest
         (drop (ifacSize cfg + 2) mask) in
  open raw cfg = Ok (if bytesEqual ifac (ifac_of cfg k newRaw) then Some newRaw else None).
Proof.
  intros Hk Hn Hi Hr raw mask newRaw. unfold open.
  assert (Hlen : (length raw <=? 2 + ifacSize cfg)%nat = false).
  { apply Nat.leb_gt. unfold raw. cbn [length]. rewrite length_app, Hi. destruct rest; [done|]. cbn. lia. }
  rewrite Hlen.
  assert (Hsl : slice 2 (2 + ifacSize cfg) raw = ifac).
  { apply (slice_app_here 2 _ [b0; b1]); cbn; lia. }
  rewrite Hsl. fold mask. cbv zeta. unfold raw. rewrite <- Hi, open_loop. rewrite Hi.
  cbn [byte_at nth].
  assert (Hd : forall a b l, slice_from (2 + ifacSize cfg) (a :: b :: ifac ++ l) = l).
  { intros. unfold slice_from. cbn [Nat.add drop]. rewrite <- Hi. apply drop_app_length. }
  rewrite Hd. cbn [app]. fold newRaw. unfold sign. rewrite Hk, ed25519_sign_length.
  cbn [Nat.eqb negb rbind]. by rewrite ifac_slice.
Qed.

Lemma open_sealed_only (cfg : IfacConfig) (k sealed r : bytes)
    (Hk : ed25519Priv (ifacIdentity cfg) = Some k) (Hn : (1 <= ifacSize cfg <= 64)%nat) :
  wf_bytes sealed /\ hasIfacFlag sealed = true /\ open sealed cfg = Ok (Some r) ->
  wf_bytes r /\ (2 < length r)%nat /\ byte_at 0 r < 128 /\ seal r cfg = Ok sealed.
Proof.
  intros (Hw & Hf & Ho).
  assert (Hlen : (2 + ifacSize cfg < length sealed)%nat).
  { unfold open in Ho. destruct (_ <=? _)%nat eqn:E in Ho; [discriminate|]. by bools. }
  destruct sealed as [|b0 [|b1 tl]]; [cbn in Hlen; lia..|].
  destruct (cut_at (ifacSize cfg) tl) as (ifac & rest & -> & Hi); [cbn in Hlen; lia|].
  cbn [length] in Hlen. rewrite length_app in Hlen.
  assert (rest <> []) by (intros ->; cbn in Hlen; lia).
  inv Hw. match goal with H : Forall _ (_ :: _) |- _ => inv H end.
  match goal with H : Forall _ (_ ++ _) |- _ => apply Forall_app in H as [Hwi Hwr] end.
  rewrite (open_eq cfg k) in Ho by (done || lia). cbv zeta in Ho.
  set (mask := hkdf _ _ _ _) in Ho. assert (Hmw : wf_bytes mask) by apply hkdf_wf.
  assert (Hmb : forall n, is_byte (byte_at 0 (drop n mask))).
  { intros n. unfold byte_at. pose proof (wf_bytes_drop n mask Hmw) as Hd.
    destruct (drop n mask); [cbn; unfold is_byte; lia | by inv Hd]. }
  destruct (bytesEqual _ _) eqn:Eb; [|discriminate]. injection Ho as <-.
  apply bytesEqual_spec in Eb.
  set (rest' := mask_loop _ _ _ _) in Eb |- *.
  assert (Hlr : length rest' = length rest) by apply length_mask_loop.
  destruct (flag_mask_inv b0 (byte_at 0 mask)) as (_ & _ & F & _ & Fx); [done | apply (Hmb 0%nat)|].
  assert (Hflag : 128 <= b0).
  { unfold hasIfacFlag in Hf. cbn [byte_at nth length Nat.ltb Nat.leb] in Hf. bools.
    match goal with H : Z.land b0 128 <> 0 |- _ => rename H into Hz end.
    destruct (Z.le_gt_cases 128 b0) as [|Hlt]; [done|]. exfalso. apply Hz.
    rewrite <- (Z.mod_small b0 (2 ^ 7)) by (unfold is_byte in *; lia).
    rewrite <- Z.land_ones, <- Z.land_assoc by lia. apply Z.land_0_r. }
  assert (Hlow : 0 <= Z.land (Z.lxor b0 (byte_at 0 mask)) 127 < 128).
  { rewrite (land_mask _ 7) by lia. apply Z.mod_pos_bound. lia. }
  split; [|split; [|split]].
  + constructor; [unfold is_byte; lia|]. constructor; [apply flag_mask_inv; [done|apply Hmb]|].
    apply mask_loop_xor_wf; auto with ret. intros. apply open_byte_high. lia.
  + cbn [length]. rewrite Hlr. destruct rest; [done|]. cbn. lia.
  + exact (proj2 Hlow).
  + rewrite (seal_eq cfg k) by (done || lia). cbv zeta. rewrite <- Eb.
    replace (hkdf ifac (ifacKey cfg) [] _) with mask.
    2: { unfold mask. f_equal. cbn [length]. rewrite length_app, Hlr. lia. }
    rewrite lxor_cancel. f_equal. f_equal; [by apply F|]. f_equal. f_equal.
    unfold rest'. rewrite Nat.add_comm. apply mask_loop_inv; intros;
      [apply seal_byte_high | apply open_byte_high]; lia.
Qed.

Lemma open_seal (cfg : IfacConfig) (k sealed r : bytes)
    (Hk : ed25519Priv (ifacIdentity cfg) = Some k) (Hn : (1 <= ifacSize cfg <= 64)%nat) :
  wf_bytes r /\ (2 < length r)%nat /\ byte_at 0 r < 128 /\ seal r cfg = Ok sealed ->
  wf_bytes sealed /\ hasIfacFlag sealed = true /\ open sealed cfg = Ok (Some r).
Proof.
  intros (Hw & Hl & Hb & Hs).
  destruct r as [|b0 [|b1 rest]]; [cbn in Hl; lia..|]. cbn [byte_at nth] in Hb. cbn [length] in Hl.
  inv Hw. match goal with H : Forall _ (_ :: _) |- _ => inv H end.
  rewrite (seal_eq cfg k) in Hs by (done || lia). cbv zeta in Hs. injection Hs as <-.
  set (ifac := ifac_of cfg k _). set (mask := hkdf _ _ _ _).
  assert (Hmw : wf_bytes mask) by apply hkdf_wf.
  assert (Hmb : forall n, is_byte (byte_at 0 (drop n mask))).
  { intros n. unfold byte_at. pose proof (wf_bytes_drop n mask Hmw) as Hd.
    destruct (drop n mask); [cbn; unfold is_byte; lia | by inv Hd]. }
  assert (Hi : length ifac = ifacSize cfg) by (apply length_ifac_of; lia).
  destruct (flag_mask_inv b0 (byte_at 0 mask)) as (F1 & F2 & _ & F4 & _);
    [done | apply (Hmb 0%nat)|].
  split; [|split].
  + constructor; [done|]. constructor; [apply flag_mask_inv; [done|apply Hmb]|].
    apply wf_bytes_app.
    * apply wf_bytes_drop, ed25519_sign_wf.
    * apply mask_loop_xor_wf; auto with ret. intros. apply seal_byte_high. lia.
  + unfold hasIfacFlag. cbn [length Nat.ltb Nat.leb byte_at nth]. by rewrite F4.
  + set (rest' := mask_loop _ _ _ _).
    assert (Hlr : length rest' = length rest) by apply length_mask_loop.
    rewrite (open_eq cfg k) by (done || lia || (intros Hn'; rewrite Hn' in Hlr; cbn in Hlr; lia)).
    cbv zeta.
    replace (hkdf ifac (ifacKey cfg) [] _) with mask.
    2: { unfold mask. f_equal. cbn [length]. rewrite length_app, Hlr. lia. }
    rewrite F1, lxor_cancel, Z.mod_small by (unfold is_byte in *; lia).
    replace (mask_loop (open_byte _) _ rest' _) with rest.
    2: { symmetry. unfold rest'. rewrite Nat.add_comm. apply mask_loop_inv; intros;
         [apply open_byte_high | apply seal_byte_high]; lia. }
    unfold ifac. by rewrite bytesEqual_refl.
Qed.

(** C39: IFAC correctness in both directions.  Opening a sealed frame gives the
    frame back (the sealed frame carries the flag and is [ifacSize] bytes
    longer); and a flagged frame is opened to [r] only if it is exactly what
    sealing [r] produces, so no other bytes on an authenticated interface are
    accepted. *)
Theorem ifac_open_iff_sealed (cfg : IfacConfig) (k : bytes) (sealed r : bytes)
    (Hk : ed25519Priv (ifacIdentity cfg) = Some k)
    (Hn : (1 <= ifacSize cfg <= 64)%nat) :
  (wf_bytes sealed /\ hasIfacFlag sealed = true /\ open sealed cfg = Ok (Some r))
  <-> (wf_bytes r /\ (2 < length r)%nat /\ byte_at 0 r < 128 /\ seal r cfg = Ok sealed).
Proof. split; [by apply (open_sealed_only cfg k) | by apply (open_seal cfg k)]. Qed.

End WithCrypto.

Import Toy.

Lemma ifac_open_iff_sealed_witness :
  let cfg := mkIfacConfig alice (replicate 64 9) 8 in
  match seal [1; 2; 3; 4; 5] cfg with
  | Ok sealed => open sealed cfg = Ok (Some [1; 2; 3; 4; 5])
  | Throw _ => False
  end.
Proof.
  cbv zeta. destruct (seal _ _) as [sealed|] eqn:E; [|vm_compute in E; discriminate].
  apply (ifac_open_iff_sealed (mkIfacConfig alice (replicate 64 9) 8) (replicate 32 12) sealed).
  - reflexivity.
  - split; vm_compute; lia.
  - split; [repeat constructor; unfold is_byte; lia|]. split; [cbn; lia|]. split; [cbn; lia | exact E].
Defined.
