(* ===== verification/Framing.v ===== *)
(** * Framing: HDLC and KISS byte streams
    (packages/core/src/transport/{hdlc-framer,kiss-framer}.js)

    Each framer is its escape routines, the frame builder of its framing
    stream, and the unframer: a state machine over single bytes whose state
    persists across the chunks a stream delivers.  The IFAC hooks [sealRaw] and
    [openRaw] are arguments, as in the code. *)

From S2P Require Import Prelude Packet.

(** ** What both unframers do with a completed frame

    [openRaw] may be absent ([None]), may throw, may reject the frame
    ([Ok None]) or return the bytes to parse. *)
Definition hook := option (bytes -> result (option bytes)).

Inductive delivery :=
| Rejected                  (* [openRaw] returned null: the [continue] *)
| Delivered (p : Packet)    (* [controller.enqueue] *)
| Failed.                   (* an exception, caught and logged *)

Definition deliver (openRaw : hook) (unescaped : bytes) : delivery :=
  match openRaw with
  | None => match deserialize unescaped with Ok p => Delivered p | Throw _ => Failed end
  | Some f =>
      match f unescaped with
      | Throw _ => Failed
      | Ok None => Rejected
      | Ok (Some opened) =>
          match deserialize opened with Ok p => Delivered p | Throw _ => Failed end
      end
  end.

Definition delivered (d : delivery) : list Packet :=
  match d with Delivered p => [p] | _ => [] end.

Definition seal_hook := option (bytes -> result bytes).

(** The bytes a framing stream puts between the frame delimiters. *)
Definition frame_payload (sealRaw : seal_hook) (packet : Packet) : result bytes :=
  let! raw := serialize packet in
  match sealRaw with Some f => f raw | None => Ok raw end.

(** Running a byte machine over a chunk, with its outputs. *)
Section Run.
Context {St : Type} (step : St -> Z -> St * list Packet).

Fixpoint run (st : St) (chunk : bytes) : St * list Packet :=
  match chunk with
  | [] => (st, [])
  | b :: rest =>
      let (st1, o1) := step st b in
      let (st2, o2) := run st1 rest in
      (st2, o1 ++ o2)
  end.

(** The stream interface: one [transform] call per chunk. *)
Definition transform_all (st : St) (chunks : list bytes) : St * list Packet :=
  fold_left (fun '(st, out) chunk => let (st', o) := run st chunk in (st', out ++ o))
    chunks (st, []).

Lemma run_app st c1 c2 :
  run st (c1 ++ c2)
  = (let (st1, o1) := run st c1 in let (st2, o2) := run st1 c2 in (st2, o1 ++ o2)).
Proof.
  revert st. induction c1 as [|b c1 IH]; intros st; cbn [app run].
  - by destruct (run st c2).
  - destruct (step st b) as [st1 o1]. rewrite IH.
    destruct (run st1 c1) as [st2 o2]. destruct (run st2 c2) as [st3 o3].
    by rewrite app_assoc.
Qed.

Lemma transform_all_acc st out chunks :
  fold_left (fun '(st, out) chunk => let (st', o) := run st chunk in (st', out ++ o))
    chunks (st, out)
  = (let (st', o) := run st (concat chunks) in (st', out ++ o)).
Proof.
  revert st out. induction chunks as [|c chunks IH]; intros st out; cbn [fold_left concat].
  - cbn. by rewrite app_nil_r.
  - destruct (run st c) as [st1 o1] eqn:E1. rewrite IH, run_app, E1.
    destruct (run st1 (concat chunks)) as [st2 o2]. by rewrite app_assoc.
Qed.

(** The chunk boundaries a stream happens to deliver do not matter. *)
Lemma transform_all_concat st chunks : transform_all st chunks = run st (concat chunks).
Proof.
  unfold transform_all. rewrite transform_all_acc. by destruct (run st (concat chunks)).
Qed.
End Run.

(** ** HDLC *)
Module Hdlc.

Definition FLAG := 126.
Definition ESC := 125.
Definition ESC_MASK := 32.

Fixpoint hdlcEscape (data : bytes) : bytes :=
  match data with
  | [] => []
  | b :: rest =>
      if (b =? FLAG) || (b =? ESC) then ESC :: Z.lxor b ESC_MASK :: hdlcEscape rest
      else b :: hdlcEscape rest
  end.

Fixpoint hdlcUnescape (data : bytes) : result bytes :=
  match data with
  | [] => Ok []
  | b :: rest =>
      if b =? ESC then
        match rest with
        | [] => Throw (JsError "Incomplete escape sequence at end of data")
        | b1 :: rest' =>
            let next := Z.lxor b1 ESC_MASK in
            if negb (next =? FLAG) && negb (next =? ESC)
            then Throw (JsError "Invalid escape sequence: 0x7D")
            else let! u := hdlcUnescape rest' in Ok (next :: u)
        end
      else let! u := hdlcUnescape rest in Ok (b :: u)
  end.

(** [createHdlcFramerStream]: the frame enqueued for one packet. *)
Definition createHdlcFramerStream_transform (sealRaw : seal_hook) (packet : Packet)
  : result bytes :=
  let! raw := frame_payload sealRaw packet in
  Ok (FLAG :: hdlcEscape raw ++ [FLAG]).

Record State := mkState { inFrame : bool; dataBuffer : bytes }.

Definition initial : State := mkState false [].

(** The loop body of [createHdlcUnframerStream]. *)
Definition step (openRaw : hook) (maxFrameSize : Z) (st : State) (byte : Z)
  : State * list Packet :=
  if byte =? FLAG then
    if inFrame st && (0 <? length (dataBuffer st))%nat then
      match hdlcUnescape (dataBuffer st) with
      | Throw _ => (mkState true [], [])
      | Ok unescaped =>
          match deliver openRaw unescaped with
          | Rejected => (mkState true [], [])
          | d => (mkState true [], delivered d)
          end
      end
    else (mkState true [], [])
  else if negb (inFrame st) then (st, [])
  else if maxFrameSize <=? zlen (dataBuffer st) then (mkState false [], [])
  else (mkState true (dataBuffer st ++ [byte]), []).

(** *** Escaping *)

Lemma hdlcEscape_no_flag data : Forall (fun b => b <> FLAG) (hdlcEscape data).
Proof.
  induction data as [|b data IH]; cbn [hdlcEscape]; [constructor|].
  destruct (b =? FLAG) eqn:E1, (b =? ESC) eqn:E2; bools; cbn [orb]; subst;
    repeat constructor; auto; done.
Qed.

Lemma hdlcUnescape_Escape data : hdlcUnescape (hdlcEscape data) = Ok data.
Proof.
  induction data as [|b data IH]; cbn [hdlcEscape]; [done|].
  destruct (b =? FLAG) eqn:E1; bools; subst; [cbn; by rewrite IH|].
  destruct (b =? ESC) eqn:E2; bools; subst; [cbn; by rewrite IH|]. cbn [orb hdlcUnescape].
  rewrite (proj2 (Z.eqb_neq b ESC)) by done. by rewrite IH.
Qed.

Lemma length_hdlcEscape data :
  (length data <= length (hdlcEscape data) <= 2 * length data)%nat.
Proof.
  induction data as [|b data IH]; cbn [hdlcEscape]; [done|]. destruct (_ || _); cbn; lia.
Qed.

Lemma hdlcEscape_nil data : hdlcEscape data = [] -> data = [].
Proof.
  intros H. pose proof (length_hdlcEscape data) as L. rewrite H in L. cbn in L.
  destruct data; [done | cbn in L; lia].
Qed.

Lemma lxor_mask_inv b c : Z.lxor b ESC_MASK = c -> b = Z.lxor c ESC_MASK.
Proof. intros <-. by rewrite Z.lxor_assoc, Z.lxor_nilpotent, Z.lxor_0_r. Qed.

(** Every flag-free byte string that unescapes is the escaping of its result. *)
Lemma hdlcEscape_Unescape e : Forall (fun b => b <> FLAG) e ->
  forall d, hdlcUnescape e = Ok d -> hdlcEscape d = e.
Proof.
  remember (length e) as n eqn:Hn. revert e Hn.
  induction n as [n IH] using lt_wf_ind. intros [|b e] Hn HF d; cbn [hdlcUnescape].
  - by intros [= <-].
  - inv HF. cbn [length] in IH. destruct (b =? ESC) eqn:E; bools.
    + subst. destruct e as [|b1 e]; [discriminate|].
      match goal with H : Forall _ (_ :: _) |- _ => inv H end.
      destruct (_ && _) eqn:E2; [discriminate|]. intros H.
      apply rbind_ok in H as (u & Hu & [= <-]).
      assert (Hnext : Z.lxor b1 ESC_MASK = FLAG \/ Z.lxor b1 ESC_MASK = ESC).
      { destruct (Z.lxor b1 ESC_MASK =? FLAG) eqn:E3; bools; [by left|].
        destruct (Z.lxor b1 ESC_MASK =? ESC) eqn:E4; bools; [by right|]. discriminate. }
      cbn [hdlcEscape]. rewrite (IH (length e)) with (e := e) by (cbn; done || lia).
      assert (((Z.lxor b1 ESC_MASK =? FLAG) || (Z.lxor b1 ESC_MASK =? ESC)) = true) as ->.
      { apply orb_true_iff. rewrite !Z.eqb_eq. done. }
      by rewrite Z.lxor_assoc, Z.lxor_nilpotent, Z.lxor_0_r.
    + intros H. apply rbind_ok in H as (u & Hu & [= <-]). cbn [hdlcEscape].
      rewrite (IH (length e)) with (e := e) by (done || lia).
      rewrite (proj2 (Z.eqb_neq b FLAG)), (proj2 (Z.eqb_neq b ESC)) by done. done.
Qed.

(** *** The unframer *)

Section Unframer.
Context (openRaw : hook) (maxFrameSize : Z).
Local Abbreviation stp := (step openRaw maxFrameSize).

Lemma step_flag st : fst (stp st FLAG) = mkState true [].
Proof.
  unfold step. rewrite Z.eqb_refl. destruct (_ && _); [|done].
  destruct (hdlcUnescape _); [|done]. by destruct (deliver _ _).
Qed.

(** Bytes of an open frame accumulate while they fit. *)
Lemma run_body buf body : Forall (fun b => b <> FLAG) body ->
  zlen buf + zlen body <= maxFrameSize ->
  run stp (mkState true buf) body = (mkState true (buf ++ body), []).
Proof.
  intros HF. revert buf. induction HF as [|b body Hb HF IH]; intros buf Hl; cbn [run].
  - by rewrite app_nil_r.
  - rewrite zlen_cons in Hl. pose proof (zlen_nonneg body). unfold step.
    rewrite (proj2 (Z.eqb_neq b FLAG)) by done. cbn [inFrame negb dataBuffer].
    rewrite (proj2 (Z.leb_gt _ _)) by lia. rewrite IH by (rewrite zlen_app, zlen_cons, zlen_nil; lia).
    by rewrite <- app_assoc.
Qed.

(** One complete frame, from a state that has just seen a flag. *)
Lemma run_frame payload : payload <> [] -> zlen (hdlcEscape payload) <= maxFrameSize ->
  run stp (mkState true []) (hdlcEscape payload ++ [FLAG])
  = (mkState true [], delivered (deliver openRaw payload)).
Proof.
  intros Hne Hl. rewrite run_app, run_body by (apply hdlcEscape_no_flag || (rewrite zlen_nil; lia)).
  cbn [run app]. unfold step. rewrite Z.eqb_refl. cbn [inFrame dataBuffer andb].
  destruct (hdlcEscape payload) as [|x l] eqn:E; [by apply hdlcEscape_nil in E|].
  rewrite <- E, hdlcUnescape_Escape. rewrite E. cbn [length Nat.ltb Nat.leb].
  by destruct (deliver openRaw payload).
Qed.

Definition framed (payload : bytes) : bytes := FLAG :: hdlcEscape payload ++ [FLAG].

(** The frames of a list of payloads, from a state that has just seen a flag:
    the opening flag of each frame closes an empty one. *)
Lemma run_frames payloads :
  Forall (fun p => p <> [] /\ zlen (hdlcEscape p) <= maxFrameSize) payloads ->
  run stp (mkState true []) (concat (map framed payloads))
  = (mkState true [], concat (map (fun p => delivered (deliver openRaw p)) payloads)).
Proof.
  induction 1 as [|p ps [Hne Hl] _ IH]; [done|]. cbn [map concat].
  unfold framed at 1. cbn [app run]. unfold step at 1. rewrite Z.eqb_refl.
  cbn [inFrame dataBuffer length Nat.ltb Nat.leb andb].
  rewrite run_app, run_frame, IH by done. done.
Qed.

(** From any state, the first flag leaves an empty open frame. *)
Lemma run_any_frames st payloads : payloads <> [] ->
  Forall (fun p => p <> [] /\ zlen (hdlcEscape p) <= maxFrameSize) payloads ->
  exists garbage, (length garbage <= 1)%nat
    /\ (inFrame st = false -> garbage = [])
    /\ run stp st (concat (map framed payloads))
       = (mkState true [],
          garbage ++ concat (map (fun p => delivered (deliver openRaw p)) payloads)).
Proof.
  intros Hne Hall. destruct payloads as [|p ps]; [done|]. inv Hall.
  match goal with H : _ /\ _ |- _ => destruct H as [Hp Hl] end.
  exists (snd (stp st FLAG)). cbn [map concat]. unfold framed at 1. cbn [app run].
  pose proof (step_flag st) as Hs. destruct (stp st FLAG) as [s1 o1] eqn:E1. cbn in Hs. subst s1.
  rewrite run_app, run_frame, run_frames by done. cbn [snd]. repeat split.
  - unfold step in E1. rewrite Z.eqb_refl in E1. destruct (_ && _); [|injection E1 as <-; cbn; lia].
    destruct (hdlcUnescape _); [|injection E1 as <-; cbn; lia].
    destruct (deliver _ _); injection E1 as <-; cbn; lia.
  - intros Hf. unfold step in E1. rewrite Z.eqb_refl, Hf in E1. by injection E1 as <-.
Qed.

Lemma step_bound st b : 0 <= maxFrameSize -> zlen (dataBuffer st) <= maxFrameSize ->
  zlen (dataBuffer (fst (stp st b))) <= maxFrameSize.
Proof.
  intros H0 H. destruct (b =? FLAG) eqn:E.
  - bools. subst. rewrite step_flag. cbn. rewrite zlen_nil. lia.
  - unfold step. rewrite E. destruct (negb (inFrame st)); [done|].
    destruct (maxFrameSize <=? _) eqn:E2; bools; cbn; [rewrite zlen_nil; lia|].
    rewrite zlen_app, zlen_cons, zlen_nil. lia.
Qed.

Lemma run_bound st c : 0 <= maxFrameSize -> zlen (dataBuffer st) <= maxFrameSize ->
  zlen (dataBuffer (fst (run stp st c))) <= maxFrameSize.
Proof.
  intros H0. revert st. induction c as [|b c IH]; intros st H; cbn [run]; [done|].
  pose proof (step_bound st b H0 H) as Hb. destruct (stp st b) as [s1 o1]. cbn in Hb.
  specialize (IH s1 Hb). by destruct (run stp s1 c).
Qed.
End Unframer.

End Hdlc.

(** ** KISS *)
Module Kiss.

Definition FEND := 192.
Definition FESC := 219.
Definition TFEND := 220.
Definition TFESC := 221.
Definition CMD_DATA := 0.
Definition CMD_UNKNOWN := 254.

Fixpoint kissEscape (data : bytes) : bytes :=
  match data with
  | [] => []
  | b :: rest =>
      if b =? FESC then FESC :: TFESC :: kissEscape rest
      else if b =? FEND then FESC :: TFEND :: kissEscape rest
      else b :: kissEscape rest
  end.

Fixpoint kissUnescape (data : bytes) : result bytes :=
  match data with
  | [] => Ok []
  | b :: rest =>
      if b =? FESC then
        match rest with
        | [] => Throw (JsError "Incomplete escape sequence at end of data")
        | next :: rest' =>
            if next =? TFEND then let! u := kissUnescape rest' in Ok (FEND :: u)
            else if next =? TFESC then let! u := kissUnescape rest' in Ok (FESC :: u)
            else Throw (JsError "Invalid escape sequence: 0xDB")
        end
      else let! u := kissUnescape rest in Ok (b :: u)
  end.

Definition kissFrame (rawPacket : bytes) : bytes :=
  FEND :: CMD_DATA :: kissEscape rawPacket ++ [FEND].

Definition createKissFramerStream_transform (sealRaw : seal_hook) (packet : Packet)
  : result bytes :=
  let! raw := frame_payload sealRaw packet in Ok (kissFrame raw).

Record State := mkState {
  inFrame : bool;
  inEscape : bool;
  command : Z;
  dataBuffer : bytes;
}.

Definition initial : State := mkState false false CMD_UNKNOWN [].
Definition opened : State := mkState true false CMD_UNKNOWN [].

(** The loop body of [createKissUnframerStream]; the [continue] taken when
    [openRaw] rejects a frame leaves the state as it is. *)
Definition step (openRaw : hook) (maxMtu : Z) (st : State) (byte : Z) : State * list Packet :=
  if byte =? FEND then
    if inFrame st && (command st =? CMD_DATA) then
      match deliver openRaw (dataBuffer st) with
      | Rejected => (st, [])
      | d => (opened, delivered d)
      end
    else (opened, [])
  else if negb (inFrame st) then (st, [])
  else if (length (dataBuffer st) =? 0)%nat && (command st =? CMD_UNKNOWN) then
    (mkState (inFrame st) (inEscape st) (Z.land byte 15) (dataBuffer st), [])
  else if negb (command st =? CMD_DATA) then (st, [])
  else if maxMtu <=? zlen (dataBuffer st) then (initial, [])
  else if byte =? FESC then (mkState (inFrame st) true (command st) (dataBuffer st), [])
  else if inEscape st then
    if byte =? TFEND then (mkState (inFrame st) false (command st) (dataBuffer st ++ [FEND]), [])
    else if byte =? TFESC
    then (mkState (inFrame st) false (command st) (dataBuffer st ++ [FESC]), [])
    else (initial, [])
  else (mkState (inFrame st) (inEscape st) (command st) (dataBuffer st ++ [byte]), []).

(** *** Escaping *)

Lemma kissEscape_no_fend data : Forall (fun b => b <> FEND) (kissEscape data).
Proof.
  induction data as [|b data IH]; cbn [kissEscape]; [constructor|].
  destruct (b =? FESC) eqn:E1; [repeat constructor; auto; done|].
  destruct (b =? FEND) eqn:E2; bools; repeat constructor; auto; done.
Qed.

Lemma kissUnescape_Escape data : kissUnescape (kissEscape data) = Ok data.
Proof.
  induction data as [|b data IH]; cbn [kissEscape]; [done|].
  destruct (b =? FESC) eqn:E1; bools; subst; [cbn; by rewrite IH|].
  destruct (b =? FEND) eqn:E2; bools; subst; [cbn; by rewrite IH|]. cbn [kissUnescape].
  rewrite (proj2 (Z.eqb_neq b FESC)) by done. by rewrite IH.
Qed.

(** *** The unframer *)

Section Unframer.
Context (openRaw : hook) (maxMtu : Z).
Local Abbreviation stp := (step openRaw maxMtu).

Definition data_state (buf : bytes) : State := mkState true false CMD_DATA buf.

Lemma kiss_run_body buf data : zlen buf + zlen data <= maxMtu ->
  run stp (data_state buf) (kissEscape data) = (data_state (buf ++ data), []).
Proof.
  revert buf. induction data as [|b data IH]; intros buf Hl.
  - cbn. by rewrite app_nil_r.
  - rewrite zlen_cons in Hl. pose proof (zlen_nonneg data).
    assert (Hroom : zlen buf < maxMtu) by lia.
    assert (IH' : run stp (data_state (buf ++ [b])) (kissEscape data)
                  = (data_state (buf ++ b :: data), [])).
    { rewrite IH by (rewrite zlen_app, zlen_cons, zlen_nil; lia). by rewrite <- app_assoc. }
    cbn [kissEscape]. destruct (b =? FESC) eqn:E1; [|destruct (b =? FEND) eqn:E2]; bools; subst;
      cbn [run]; unfold step at 1; cbn [inFrame inEscape command dataBuffer data_state negb andb].
    + rewrite andb_false_r. cbn [Z.eqb FESC FEND CMD_DATA CMD_UNKNOWN Pos.eqb negb].
      rewrite (proj2 (Z.leb_gt _ _) Hroom). unfold step at 1. cbn [inFrame inEscape command dataBuffer negb].
      rewrite andb_false_r.
      cbn [Z.eqb TFESC TFEND FESC FEND CMD_DATA CMD_UNKNOWN Pos.eqb negb].
      rewrite (proj2 (Z.leb_gt _ _) Hroom).
      change (mkState true false CMD_DATA (buf ++ [FESC])) with (data_state (buf ++ [FESC])).
      by rewrite IH'.
    + rewrite andb_false_r. cbn [Z.eqb FESC FEND CMD_DATA CMD_UNKNOWN Pos.eqb negb].
      rewrite (proj2 (Z.leb_gt _ _) Hroom). unfold step at 1. cbn [inFrame inEscape command dataBuffer negb].
      rewrite andb_false_r.
      cbn [Z.eqb TFESC TFEND FESC FEND CMD_DATA CMD_UNKNOWN Pos.eqb negb].
      rewrite (proj2 (Z.leb_gt _ _) Hroom).
      change (mkState true false CMD_DATA (buf ++ [FEND])) with (data_state (buf ++ [FEND])).
      by rewrite IH'.
    + rewrite (proj2 (Z.eqb_neq b FEND)) by done. rewrite andb_false_r.
      cbn [Z.eqb CMD_DATA CMD_UNKNOWN negb]. rewrite (proj2 (Z.leb_gt _ _) Hroom).
      rewrite (proj2 (Z.eqb_neq b FESC)) by done. fold (data_state (buf ++ [b])). by rewrite IH'.
Qed.

(** One frame after its opening delimiter. *)
Lemma kiss_run_frame payload : zlen payload <= maxMtu -> deliver openRaw payload <> Rejected ->
  run stp opened (CMD_DATA :: kissEscape payload ++ [FEND])
  = (opened, delivered (deliver openRaw payload)).
Proof.
  intros Hl Hr. cbn [run]. unfold step at 1. cbn [opened inFrame inEscape command dataBuffer].
  cbn [Z.eqb CMD_DATA FEND negb length Nat.eqb andb CMD_UNKNOWN Pos.eqb Z.land].
  fold (data_state []). rewrite run_app, kiss_run_body by (rewrite zlen_nil; lia). cbn [app run].
  unfold step. rewrite Z.eqb_refl. cbn [data_state inFrame command dataBuffer andb Z.eqb CMD_DATA].
  by destruct (deliver openRaw payload).
Qed.

Lemma kiss_run_frames payloads :
  Forall (fun p => zlen p <= maxMtu /\ deliver openRaw p <> Rejected) payloads ->
  run stp opened (concat (map kissFrame payloads))
  = (opened, concat (map (fun p => delivered (deliver openRaw p)) payloads)).
Proof.
  induction 1 as [|p ps [Hl Hr] _ IH]; [done|]. cbn [map concat].
  set (rest := concat (map kissFrame ps)) in *.
  change (kissFrame p ++ rest) with (FEND :: ((CMD_DATA :: kissEscape p ++ [FEND]) ++ rest)).
  cbn [run]. unfold step at 1. rewrite Z.eqb_refl.
  cbn [opened inFrame command andb Z.eqb CMD_UNKNOWN CMD_DATA]. fold opened.
  by rewrite run_app, kiss_run_frame, IH by done.
Qed.

(** Line noise before the first delimiter is ignored. *)
Lemma run_noise noise : Forall (fun b => b <> FEND) noise ->
  run stp initial noise = (initial, []).
Proof.
  induction 1 as [|b noise Hb _ IH]; [done|]. cbn [run]. unfold step at 1.
  rewrite (proj2 (Z.eqb_neq b FEND)) by done. cbn [initial inFrame negb]. fold initial.
  by rewrite IH.
Qed.

Lemma run_initial_frames payloads : payloads <> [] ->
  Forall (fun p => zlen p <= maxMtu /\ deliver openRaw p <> Rejected) payloads ->
  run stp initial (concat (map kissFrame payloads))
  = (opened, concat (map (fun p => delivered (deliver openRaw p)) payloads)).
Proof.
  intros Hne HF. pose proof (kiss_run_frames payloads HF) as H.
  destruct payloads as [|p ps]; [done|]. exact H.
Qed.

Lemma kiss_step_bound st b : 0 <= maxMtu -> zlen (dataBuffer st) <= maxMtu ->
  zlen (dataBuffer (fst (stp st b))) <= maxMtu.
Proof.
  intros H0 H. assert (Hn : zlen (@nil Z) <= maxMtu) by (rewrite zlen_nil; lia).
  unfold step. destruct (b =? FEND).
  - destruct (_ && _); [destruct (deliver _ _)|]; done.
  - destruct (negb (inFrame st)); [done|]. destruct (_ && _); [done|].
    destruct (negb _); [done|]. destruct (maxMtu <=? _) eqn:E; bools; [done|].
    repeat case_match; cbn; rewrite ?zlen_app, ?zlen_cons; rewrite ?zlen_nil; try lia; done.
Qed.

Lemma kiss_run_bound st c : 0 <= maxMtu -> zlen (dataBuffer st) <= maxMtu ->
  zlen (dataBuffer (fst (run stp st c))) <= maxMtu.
Proof.
  intros H0. revert st. induction c as [|b c IH]; intros st H; cbn [run]; [done|].
  pose proof (kiss_step_bound st b H0 H) as Hb. destruct (stp st b) as [s1 o1]. cbn in Hb.
  specialize (IH s1 Hb). by destruct (run stp s1 c).
Qed.
End Unframer.

End Kiss.

(** ** Properties *)

(** A pair of hooks works when opening undoes sealing on serialized frames:
    the contract between an interface and its framer. *)
Definition hooks_paired (sealRaw : seal_hook) (openRaw : hook) : Prop :=
  forall raw, wf_bytes raw -> (2 < length raw)%nat -> byte_at 0 raw < 128 ->
  exists w, (match sealRaw with Some f => f raw | None => Ok raw end) = Ok w
    /\ w <> [] /\ match openRaw with Some f => f w = Ok (Some raw) | None => w = raw end.

Lemma serialized_shape p r : wf_packet p -> serialize p = Ok r ->
  wf_bytes r /\ (2 < length r)%nat /\ byte_at 0 r < 128 /\ deserialize r = Ok (set_raw p r).
Proof.
  intros Hp Hs. pose proof (deserialize_serialize p r Hp Hs) as Hd.
  pose proof (serialize_wire p r Hp Hs) as (Hw & Hb). repeat split; auto.
  destruct (deserialize_min_len r _ Hd) as
    [(f & h & dh & c & pl & -> & Hdh & _)|(f & h & tid & dh & c & pl & -> & Htid & _)];
    cbn [length]; rewrite length_app; unfold DST_LEN in *; lia.
Qed.

Lemma paired_frame sealRaw openRaw p : hooks_paired sealRaw openRaw -> wf_packet p ->
  exists r w, serialize p = Ok r /\ frame_payload sealRaw p = Ok w /\ w <> []
    /\ deliver openRaw w = Delivered (set_raw p r).
Proof.
  intros Hh Hp. pose proof (serialize_wf p Hp) as Hs. set (r := _ :: _) in Hs. clearbody r.
  destruct (serialized_shape p r Hp Hs) as (Hw & Hl & Hb & Hd).
  destruct (Hh r Hw Hl Hb) as (w & Hseal & Hne & Hopen). exists r, w.
  unfold frame_payload. rewrite Hs. cbn [rbind]. repeat split; auto.
  unfold deliver. destruct openRaw as [f|]; [by rewrite Hopen, Hd | by rewrite Hopen, Hd].
Qed.

Lemma no_hooks_paired : hooks_paired None None.
Proof. intros r Hw Hl Hb. exists r. repeat split; auto. intros ->. cbn in Hl. lia. Qed.

(** The packet as the receiver sees it: its serialized form is its [raw]. *)
Definition received (p : Packet) : Packet :=
  match serialize p with Ok r => set_raw p r | Throw _ => p end.

(** Framing a list of packets, with the payloads the receiver is given. *)
Lemma paired_frames sealRaw openRaw ps : hooks_paired sealRaw openRaw -> Forall wf_packet ps ->
  exists ws, Forall2 (fun p w => frame_payload sealRaw p = Ok w) ps ws
    /\ Forall (fun w => w <> [] /\ deliver openRaw w <> Rejected) ws
    /\ concat (map (fun w => delivered (deliver openRaw w)) ws) = map received ps.
Proof.
  intros Hh. induction 1 as [|p ps Hp _ (ws & F2 & F & E)]; [exists []; repeat constructor|].
  destruct (paired_frame sealRaw openRaw p Hh Hp) as (r & w & Hs & Hf & Hne & Hd).
  exists (w :: ws). repeat split; [by constructor | |].
  - constructor; [|done]. split; [done|]. by rewrite Hd.
  - cbn [map concat]. rewrite Hd, E. cbn. unfold received at 2. by rewrite Hs.
Qed.

(** Byte stuffing is transparent and unambiguous: both escapings are undone
    exactly, never produce the frame delimiter, at most double the length, and
    an HDLC frame body has no second spelling. *)
Theorem escaping_roundtrip (data : bytes) :
  Hdlc.hdlcUnescape (Hdlc.hdlcEscape data) = Ok data
  /\ Forall (fun b => b <> Hdlc.FLAG) (Hdlc.hdlcEscape data)
  /\ (length (Hdlc.hdlcEscape data) <= 2 * length data)%nat
  /\ (forall e, Forall (fun b => b <> Hdlc.FLAG) e -> Hdlc.hdlcUnescape e = Ok data ->
        e = Hdlc.hdlcEscape data)
  /\ Kiss.kissUnescape (Kiss.kissEscape data) = Ok data
  /\ Forall (fun b => b <> Kiss.FEND) (Kiss.kissEscape data).
Proof.
  split; [apply Hdlc.hdlcUnescape_Escape|]. split; [apply Hdlc.hdlcEscape_no_flag|].
  split; [apply Hdlc.length_hdlcEscape|]. split; [|split].
  - intros e He Hu. symmetry. by apply Hdlc.hdlcEscape_Unescape.
  - apply Kiss.kissUnescape_Escape.
  - apply Kiss.kissEscape_no_fend.
Qed.

(** C22: HDLC streams deliver: whatever state the unframer is in, and however
    the stream is cut into chunks, the frames of a list of packets are received
    as exactly those packets in order, preceded at most by the remains of a
    frame that was already open; with no open frame, exactly. *)
Theorem hdlc_stream_delivers (sealRaw : seal_hook) (openRaw : hook) (maxFrameSize : Z)
    (ps : list Packet)
    (Hh : hooks_paired sealRaw openRaw) (Hp : Forall wf_packet ps) (Hne : ps <> [])
    (Hfit : forall p w, In p ps -> frame_payload sealRaw p = Ok w ->
              zlen (Hdlc.hdlcEscape w) <= maxFrameSize) :
  exists frames,
    Forall2 (fun p f => Hdlc.createHdlcFramerStream_transform sealRaw p = Ok f) ps frames
    /\ forall st chunks, concat chunks = concat frames ->
       exists garbage, (length garbage <= 1)%nat
         /\ (Hdlc.inFrame st = false -> garbage = [])
         /\ transform_all (Hdlc.step openRaw maxFrameSize) st chunks
            = (Hdlc.mkState true [], garbage ++ map received ps).
Proof.
  destruct (paired_frames sealRaw openRaw ps Hh Hp) as (ws & F2 & F & E).
  exists (map Hdlc.framed ws). split.
  - apply Forall2_fmap_r. eapply Forall2_impl; [exact F2|]. intros p w Hw.
    unfold Hdlc.createHdlcFramerStream_transform. by rewrite Hw.
  - intros st chunks Hc. rewrite transform_all_concat, Hc, <- E.
    apply Hdlc.run_any_frames; [by intros ->; inv F2|].
    rewrite Forall_forall in F |- *. intros w Hw. split; [by apply F|].
    apply list_elem_of_lookup in Hw as [i Hi].
    destruct (Forall2_lookup_r _ _ _ _ _ F2 Hi) as (p & Hpi & Hpw).
    apply (Hfit p w); [|done]. apply list_elem_of_In. by eapply list_elem_of_lookup_2.
Qed.

(** KISS streams deliver: from a fresh unframer, any line noise followed by
    the frames of a list of packets, cut into any chunks, is received as
    exactly those packets in order, when every payload fits the limit. *)
Theorem kiss_stream_delivers (sealRaw : seal_hook) (openRaw : hook) (maxMtu : Z)
    (noise : bytes) (ps : list Packet)
    (Hh : hooks_paired sealRaw openRaw) (Hp : Forall wf_packet ps) (Hne : ps <> [])
    (Hnoise : Forall (fun b => b <> Kiss.FEND) noise)
    (Hfit : forall p w, In p ps -> frame_payload sealRaw p = Ok w -> zlen w <= maxMtu) :
  exists frames,
    Forall2 (fun p f => Kiss.createKissFramerStream_transform sealRaw p = Ok f) ps frames
    /\ forall chunks, concat chunks = noise ++ concat frames ->
       transform_all (Kiss.step openRaw maxMtu) Kiss.initial chunks
       = (Kiss.opened, map received ps).
Proof.
  destruct (paired_frames sealRaw openRaw ps Hh Hp) as (ws & F2 & F & E).
  exists (map Kiss.kissFrame ws). split.
  - apply Forall2_fmap_r. eapply Forall2_impl; [exact F2|]. intros p w Hw.
    unfold Kiss.createKissFramerStream_transform. by rewrite Hw.
  - intros chunks Hc. rewrite transform_all_concat, Hc, run_app, Kiss.run_noise by done.
    rewrite <- E, Kiss.run_initial_frames; [done | by intros ->; inv F2 |].
    rewrite Forall_forall in F |- *. intros w Hw. split; [|by apply F].
    apply list_elem_of_lookup in Hw as [i Hi].
    destruct (Forall2_lookup_r _ _ _ _ _ F2 Hi) as (p & Hpi & Hpw).
    apply (Hfit p w); [|done]. apply list_elem_of_In. by eapply list_elem_of_lookup_2.
Qed.

(** No peer can make an unframer hold more than its limit: after any bytes
    in any chunks the accumulator is within [maxFrameSize] / [maxMtu]. *)
Theorem unframer_memory_bounded (openRaw : hook) (limit : Z) (chunks : list bytes)
    (H0 : 0 <= limit) :
  zlen (Hdlc.dataBuffer (fst (transform_all (Hdlc.step openRaw limit) Hdlc.initial chunks)))
    <= limit
  /\ zlen (Kiss.dataBuffer (fst (transform_all (Kiss.step openRaw limit) Kiss.initial chunks)))
    <= limit.
Proof.
  rewrite !transform_all_concat.
  split; [apply Hdlc.run_bound | apply Kiss.kiss_run_bound]; done.
Qed.

(** What a rejected frame does to a KISS stream: the rejected payload stays
    in the accumulator with the frame still open, so the next frame is not
    delivered as itself but parsed as the rejected bytes, the command byte and
    its own payload run together.  (HDLC resets the accumulator there:
    [hdlc_stream_delivers] allows rejected frames before.) *)
Theorem kiss_rejected_frame_contaminates (openRaw : hook) (maxMtu : Z) (bad good : bytes)
    (Hbad : deliver openRaw bad = Rejected)
    (Hfit : zlen bad + 1 + zlen good <= maxMtu) :
  snd (run (Kiss.step openRaw maxMtu) Kiss.initial (Kiss.kissFrame bad ++ Kiss.kissFrame good))
  = delivered (deliver openRaw (bad ++ Kiss.CMD_DATA :: good)).
Proof.
  pose proof (zlen_nonneg bad). pose proof (zlen_nonneg good).
  set (stp := Kiss.step openRaw maxMtu).
  assert (E1 : run stp Kiss.initial (Kiss.kissFrame bad) = (Kiss.data_state bad, [])).
  { unfold Kiss.kissFrame. cbn [run]. unfold stp. cbn. fold (Kiss.data_state []).
    rewrite run_app, Kiss.kiss_run_body by (rewrite zlen_nil; lia). cbn [run app].
    unfold Kiss.step. cbn. by rewrite Hbad. }
  assert (E2 : stp (Kiss.data_state bad) Kiss.FEND = (Kiss.data_state bad, [])).
  { unfold stp, Kiss.step. cbn. by rewrite Hbad. }
  assert (E3 : stp (Kiss.data_state bad) Kiss.CMD_DATA
               = (Kiss.data_state (bad ++ [Kiss.CMD_DATA]), [])).
  { unfold stp, Kiss.step. cbn -[Z.leb zlen]. rewrite andb_false_r.
    rewrite (proj2 (Z.leb_gt _ _)) by lia. done. }
  rewrite run_app, E1. unfold Kiss.kissFrame. cbn [run]. rewrite E2, E3.
  rewrite run_app. unfold stp.
  rewrite Kiss.kiss_run_body by (rewrite zlen_app, zlen_cons, zlen_nil; lia).
  cbn [run app snd]. unfold Kiss.step at 1. cbn [Kiss.data_state Kiss.inFrame Kiss.command
    Kiss.dataBuffer andb]. rewrite !Z.eqb_refl. rewrite <- app_assoc. cbn [app].
  destruct (deliver openRaw (bad ++ Kiss.CMD_DATA :: good)); by rewrite ?app_nil_r.
Qed.

(** ** Witnesses *)

Lemma hdlc_stream_delivers_witness :
  exists frames,
    Forall2 (fun p f => Hdlc.createHdlcFramerStream_transform None p = Ok f)
      [example_packet; example_packet] frames
    /\ forall chunks, concat chunks = concat frames ->
       snd (transform_all (Hdlc.step None 524288) Hdlc.initial chunks)
       = [received example_packet; received example_packet].
Proof.
  destruct (hdlc_stream_delivers None None 524288 [example_packet; example_packet])
    as (frames & H1 & H2).
  - exact no_hooks_paired.
  - repeat constructor; apply example_packet_wf.
  - discriminate.
  - intros p w [<-|[<-|[]]] Hw; vm_compute in Hw; injection Hw as <-; vm_compute; discriminate.
  - exists frames. split; [exact H1|]. intros chunks Hc.
    destruct (H2 Hdlc.initial chunks Hc) as (g & _ & Hg & E). rewrite E, (Hg eq_refl). reflexivity.
Defined.

Lemma kiss_stream_delivers_witness :
  exists frames,
    Forall2 (fun p f => Kiss.createKissFramerStream_transform None p = Ok f)
      [example_packet] frames
    /\ forall chunks, concat chunks = [1; 2; 3] ++ concat frames ->
       transform_all (Kiss.step None 2048) Kiss.initial chunks
       = (Kiss.opened, [received example_packet]).
Proof.
  apply (kiss_stream_delivers None None 2048 [1; 2; 3] [example_packet]).
  - exact no_hooks_paired.
  - repeat constructor; apply example_packet_wf.
  - discriminate.
  - repeat constructor; discriminate.
  - intros p w [<-|[]] Hw; vm_compute in Hw; injection Hw as <-; vm_compute; discriminate.
Defined.

Lemma unframer_memory_bounded_witness :
  zlen (Hdlc.dataBuffer (fst (transform_all (Hdlc.step None 2) Hdlc.initial [[126; 1; 2; 3]]))) <= 2.
Proof. apply (unframer_memory_bounded None 2 [[126; 1; 2; 3]]). lia. Defined.

(** An IFAC hook that rejects the frame [[1]] and passes everything else: the
    good packet that follows is lost. *)
Lemma kiss_rejected_frame_witness :
  let hook := Some (fun d => Ok (if bool_decide (take 1 d = [1]) then None else Some d)) in
  let good := [32; 3] ++ replicate 16 17 ++ [9; 1; 2; 3] in
  snd (run (Kiss.step hook 2048) Kiss.initial (Kiss.kissFrame [1] ++ Kiss.kissFrame good)) = []
  /\ is_ok (deserialize good) = true.
Proof.
  cbv zeta. split; [|reflexivity].
  rewrite (kiss_rejected_frame_contaminates
    (Some (fun d => Ok (if bool_decide (take 1 d = [1]) then None else Some d))) 2048 [1]
    ([32; 3] ++ replicate 16 17 ++ [9; 1; 2; 3]));
    [reflexivity | reflexivity | vm_compute; discriminate].
Defined.
