(* ===== verification/Router.v ===== *)
(** * Router: the path table

    Models src/packages/core/src/transport/router.js.  Times are integers of
    milliseconds; every operation that reads [Date.now()] takes the time as an
    argument.  An interface is its identity with the name and gravity it has
    when it is read. *)

From S2P Require Import Prelude Encoding JsMap.

#[local] Open Scope Z_scope.

Definition PATH_EXPIRY_MS : Z := 60 * 60 * 24 * 7 * 1000.
Definition MAX_RANDOM_BLOBS : nat := 64.

Inductive PathState := UNKNOWN | UNRESPONSIVE | RESPONSIVE.

#[global] Instance PathState_eq_dec : EqDecision PathState.
Proof. solve_decision. Defined.

Record Iface := mkIface { iface_id : nat; name : jsstr; gravity : option Z }.

#[global] Instance Iface_eq_dec : EqDecision Iface.
Proof. solve_decision. Defined.

Record Route := mkRoute {
  interface : option Iface;
  interfaceName : option jsstr;
  nextHop : bytes;
  hops : Z;
  timestamp : Z;
  expires : Z;
  randomBlobs : list bytes;
  state : PathState;
}.

(** The argument of [addOrUpdateRoute]; its [expires] and [timestamp] are
    optional. *)
Record RouteEntry := mkEntry {
  e_nextHop : bytes;
  e_hops : Z;
  viaInterface : option Iface;
  randomBlob : bytes;
  e_expires : option Z;
  e_timestamp : option Z;
}.

Record RoutingTable := mkTable {
  routes : jsmap Route;
  interfaceResolver : option (jsstr -> option Iface);
}.

Definition empty_table : RoutingTable := mkTable [] None.

Definition set_routes (t : RoutingTable) (r : jsmap Route) : RoutingTable :=
  mkTable r (interfaceResolver t).

Definition emissionTime (randomBlob : bytes) : Z :=
  if (length randomBlob <? 10)%nat then 0
  else fold_left (fun t b => t * 256 + b) (slice 5 10 randomBlob) 0.

Definition timebaseFromBlobs (blobs : list bytes) : Z :=
  fold_left (fun t b => let e := emissionTime b in if e >? t then e else t) blobs 0.

Definition isReplay (existing : Route) (blob : bytes) : bool :=
  existsb (fun b => bytesEqual b blob) (randomBlobs existing).

Definition iface_gravity (i : option Iface) : option Z :=
  match i with Some i => gravity i | None => None end.

(** [shouldAdd] and [preserveState] for a known destination. *)
Definition decide_update (now : Z) (existing : Route) (entry : RouteEntry) : bool * bool :=
  let emitted := emissionTime (randomBlob entry) in
  let timebase := timebaseFromBlobs (randomBlobs existing) in
  if e_hops entry <=? hops existing then
    if emitted >? timebase then (true, false)
    else if emitted =? timebase then
      match iface_gravity (interface existing), iface_gravity (viaInterface entry) with
      | Some current, Some announced => if announced >? current then (true, true) else (false, false)
      | _, _ => (false, false)
      end
    else (false, false)
  else
    if now >=? expires existing then (negb (isReplay existing (randomBlob entry)), false)
    else if emitted >? timebase then (true, false)
    else if (emitted =? timebase) && bool_decide (state existing = UNRESPONSIVE) then (true, true)
    else (false, false).

(** [while (randomBlobs.length > MAX_RANDOM_BLOBS) randomBlobs.shift()]. *)
Definition trim_blobs (blobs : list bytes) : list bytes :=
  drop (length blobs - MAX_RANDOM_BLOBS) blobs.

Definition addOrUpdateRoute (now : Z) (destinationHash : bytes) (entry : RouteEntry)
    (t : RoutingTable) : bool * RoutingTable :=
  let destKey := toHex destinationHash in
  let existing := get destKey (routes t) in
  let expires := default (now + PATH_EXPIRY_MS) (e_expires entry) in
  let replay := match existing with Some r => isReplay r (randomBlob entry) | None => false end in
  let '(shouldAdd, preserveState) :=
    match existing with Some r => decide_update now r entry | None => (true, false) end in
  if negb shouldAdd then (false, t)
  else
    let blobs := match existing with Some r => randomBlobs r | None => [] end in
    let blobs := if negb replay then trim_blobs (blobs ++ [randomBlob entry]) else blobs in
    let st := match existing with
              | Some r => if preserveState then state r else UNKNOWN
              | None => UNKNOWN
              end in
    (true, set_routes t (mset destKey
       (mkRoute (viaInterface entry) (name <$> viaInterface entry) (e_nextHop entry) (e_hops entry)
          (default now (e_timestamp entry)) expires blobs st) (routes t))).

Definition set_state (r : Route) (s : PathState) : Route :=
  mkRoute (interface r) (interfaceName r) (nextHop r) (hops r) (timestamp r) (expires r)
    (randomBlobs r) s.
Definition set_hops (r : Route) (h : Z) : Route :=
  mkRoute (interface r) (interfaceName r) (nextHop r) h (timestamp r) (expires r)
    (randomBlobs r) (state r).
Definition set_interface (r : Route) (i : Iface) : Route :=
  mkRoute (Some i) (interfaceName r) (nextHop r) (hops r) (timestamp r) (expires r)
    (randomBlobs r) (state r).

Definition markState (destinationHash : bytes) (s : PathState) (t : RoutingTable)
    : bool * RoutingTable :=
  match get (toHex destinationHash) (routes t) with
  | None => (false, t)
  | Some r => (true, set_routes t (mset (toHex destinationHash) (set_state r s) (routes t)))
  end.

Definition getState (destinationHash : bytes) (t : RoutingTable) : PathState :=
  match get (toHex destinationHash) (routes t) with Some r => state r | None => UNKNOWN end.

Definition pathIsUnresponsive (destinationHash : bytes) (t : RoutingTable) : bool :=
  bool_decide (getState destinationHash t = UNRESPONSIVE).

Definition expireRoute (destinationHash : bytes) (t : RoutingTable) : bool * RoutingTable :=
  (has (toHex destinationHash) (routes t),
   set_routes t (mdelete (toHex destinationHash) (routes t))).

Definition setHops (destinationHash : bytes) (h : Z) (t : RoutingTable) : bool * RoutingTable :=
  match get (toHex destinationHash) (routes t) with
  | None => (false, t)
  | Some r => (true, set_routes t (mset (toHex destinationHash) (set_hops r h) (routes t)))
  end.

(** An interface name is truthy when it is not empty. *)
Definition getRoute (now : Z) (destinationHash : bytes) (t : RoutingTable)
    : option Route * RoutingTable :=
  let destKey := toHex destinationHash in
  match get destKey (routes t) with
  | None => (None, t)
  | Some r =>
      if now >=? timestamp r + PATH_EXPIRY_MS then
        (None, set_routes t (mdelete destKey (routes t)))
      else match interface r, interfaceName r, interfaceResolver t with
      | None, Some (c :: n), Some resolve =>
          match resolve (c :: n) with
          | Some i => let r' := set_interface r i in (Some r', set_routes t (mset destKey r' (routes t)))
          | None => (Some r, t)
          end
      | _, _, _ => (Some r, t)
      end
  end.

Definition hasRoute (now : Z) (destinationHash : bytes) (t : RoutingTable) : bool * RoutingTable :=
  let '(r, t') := getRoute now destinationHash t in
  (match r with Some _ => true | None => false end, t').

Definition dropInterface (failed : Iface) (t : RoutingTable) : RoutingTable :=
  set_routes t (filter (fun '(_, r) => match interface r with
                                       | Some i => bool_decide (iface_id i = iface_id failed)
                                       | None => false
                                       end = false) (routes t)).

(** ** The operations as steps *)
Inductive op :=
| Announce (dest : bytes) (entry : RouteEntry)
| Mark (dest : bytes) (s : PathState)
| Expire (dest : bytes)
| SetHops (dest : bytes) (h : Z)
| Lookup (dest : bytes)
| Drop (failed : Iface).

Definition apply_op (now : Z) (o : op) (t : RoutingTable) : RoutingTable :=
  match o with
  | Announce d e => snd (addOrUpdateRoute now d e t)
  | Mark d s => snd (markState d s t)
  | Expire d => snd (expireRoute d t)
  | SetHops d h => snd (setHops d h t)
  | Lookup d => snd (getRoute now d t)
  | Drop i => dropInterface i t
  end.

Inductive reachable : RoutingTable -> Prop :=
| reachable_empty resolver : reachable (mkTable [] resolver)
| reachable_op now o t : reachable t -> reachable (apply_op now o t).

(** ** Lemmas: emission times and timebases *)

Lemma timebase_snoc blobs b :
  timebaseFromBlobs (blobs ++ [b]) = Z.max (timebaseFromBlobs blobs) (emissionTime b).
Proof.
  unfold timebaseFromBlobs. rewrite fold_left_app. cbn. rewrite Z.gtb_ltb.
  destruct (_ <? _) eqn:E; bools; lia.
Qed.

Lemma timebase_nonneg blobs : 0 <= timebaseFromBlobs blobs.
Proof.
  induction blobs as [|b l IH] using rev_ind; [done|]. rewrite timebase_snoc. lia.
Qed.

Lemma timebase_ge b blobs : b ∈ blobs -> emissionTime b <= timebaseFromBlobs blobs.
Proof.
  induction blobs as [|x l IH] using rev_ind; intros Hb; [by apply not_elem_of_nil in Hb|].
  rewrite timebase_snoc. apply elem_of_app in Hb as [Hb|Hb]; [specialize (IH Hb); lia|].
  apply list_elem_of_singleton in Hb as ->. lia.
Qed.

Lemma timebase_mono l l' : (forall b, b ∈ l -> b ∈ l') -> timebaseFromBlobs l <= timebaseFromBlobs l'.
Proof.
  induction l as [|b l IH] using rev_ind; intros Hs; [apply timebase_nonneg|].
  rewrite timebase_snoc. apply Z.max_lub.
  - apply IH. intros x Hx. apply Hs, elem_of_app. by left.
  - apply timebase_ge, Hs, elem_of_app. right. set_solver.
Qed.

Lemma trim_blobs_last l b : b ∈ trim_blobs (l ++ [b]).
Proof.
  unfold trim_blobs. rewrite drop_app_le by (rewrite length_app; unfold MAX_RANDOM_BLOBS; change (length [b]) with 1%nat; lia).
  apply elem_of_app. right. set_solver.
Qed.

Lemma trim_blobs_length l : (length (trim_blobs l) <= MAX_RANDOM_BLOBS)%nat.
Proof. unfold trim_blobs. rewrite length_drop. lia. Qed.

Lemma trim_blobs_sub l b : b ∈ trim_blobs l -> b ∈ l.
Proof. intros Hb. unfold trim_blobs in Hb. rewrite <- (take_drop (length l - MAX_RANDOM_BLOBS) l). set_solver. Qed.

Lemma isReplay_elem r b : isReplay r b = true <-> b ∈ randomBlobs r.
Proof.
  unfold isReplay. rewrite existsb_exists. setoid_rewrite bytesEqual_spec.
  setoid_rewrite <- list_elem_of_In. naive_solver.
Qed.

(** [blob] is already recorded for the destination. *)
Definition seen (r : Route) (blob : bytes) : Prop := isReplay r blob = true.

(** A recorded blob is not fresher than the timebase. *)
Lemma replay_not_fresh r b : isReplay r b = true ->
  emissionTime b <= timebaseFromBlobs (randomBlobs r).
Proof. intros Hr. by apply timebase_ge, isReplay_elem. Qed.

(** The two cases that accept an announce no fresher than the stored path. *)
Definition gravity_switch (r : Route) (e : RouteEntry) : Prop :=
  e_hops e <= hops r /\ exists a c, iface_gravity (viaInterface e) = Some a
    /\ iface_gravity (interface r) = Some c /\ c < a.

Definition unresponsive_gate (r : Route) (e : RouteEntry) : Prop :=
  hops r < e_hops e /\ state r = UNRESPONSIVE.

Lemma decide_update_live now r e : now < expires r ->
  fst (decide_update now r e) = true
  <-> timebaseFromBlobs (randomBlobs r) < emissionTime (randomBlob e)
      \/ emissionTime (randomBlob e) = timebaseFromBlobs (randomBlobs r)
         /\ (gravity_switch r e \/ unresponsive_gate r e).
Proof.
  intros Hl. unfold decide_update, gravity_switch, unresponsive_gate.
  rewrite !Z.gtb_ltb, Z.geb_leb, (proj2 (Z.leb_gt (expires r) now)) by lia.
  destruct (_ <=? hops r) eqn:Eh; bools.
  - destruct (_ <? emissionTime _) eqn:E1; bools; [naive_solver|].
    destruct (_ =? _) eqn:E2; bools; [|naive_solver lia].
    destruct (iface_gravity (interface r)), (iface_gravity (viaInterface e)); try naive_solver lia.
    rewrite Z.gtb_ltb. destruct (_ <? z0) eqn:E3; bools; naive_solver lia.
  - destruct (_ <? emissionTime _) eqn:E1; bools; [naive_solver|].
    destruct (_ =? _) eqn:E2; bools; cbn [andb]; [|naive_solver lia].
    destruct (bool_decide _) eqn:E3; bools; naive_solver lia.
Qed.

(** The preserved liveness goes with the two exceptions. *)
Lemma decide_update_preserve now r e : now < expires r ->
  snd (decide_update now r e) = true ->
  emissionTime (randomBlob e) = timebaseFromBlobs (randomBlobs r).
Proof.
  intros Hl. unfold decide_update. repeat case_goal; cbn; bools; done.
Qed.

(** ** Lemmas: the table *)

Record wf_route (r : Route) : Prop := {
  wr_blobs : (length (randomBlobs r) <= MAX_RANDOM_BLOBS)%nat;
  wr_NoDup : NoDup (randomBlobs r);
}.

Definition wf_table (t : RoutingTable) : Prop :=
  wf_map (routes t) /\ forall k r, In (k, r) (routes t) -> wf_route r.

Lemma wf_mset_route k r t : wf_table t -> wf_route r -> wf_table (set_routes t (mset k r (routes t))).
Proof.
  intros [H1 H2] Hr. split; [by apply wf_mset|]. intros k' r' Hi.
  apply In_mset in Hi as [[= -> ->]|Hi]; [done|by eapply H2].
Qed.

Lemma wf_table_sub t m : wf_table t -> wf_map m -> (forall e, In e m -> In e (routes t)) ->
  wf_table (set_routes t m).
Proof. intros [H1 H2] Hm Hs. split; [done|]. intros k r Hi. by eapply H2, Hs. Qed.

Lemma wf_get_route t k r : wf_table t -> get k (routes t) = Some r -> wf_route r.
Proof. intros [_ H2] Hg. by eapply H2, get_In. Qed.

Lemma wf_addOrUpdateRoute now d e t : wf_table t -> wf_table (snd (addOrUpdateRoute now d e t)).
Proof.
  intros Ht. unfold addOrUpdateRoute. destruct (get (toHex d) (routes t)) as [r|] eqn:Eg.
  - destruct (decide_update now r e) as [[] p]; cbn [negb]; [|done]. cbn [snd].
    pose proof (wf_get_route _ _ _ Ht Eg) as [W1 W2]. apply wf_mset_route; [done|].
    destruct (isReplay r (randomBlob e)) eqn:Er; cbn [negb]; split; cbn; try done.
    + apply trim_blobs_length.
    + unfold trim_blobs. eapply sublist_NoDup; [|apply sublist_drop].
      apply NoDup_app. split_and!; [done| |apply NoDup_singleton].
      intros x Hx ->%list_elem_of_singleton. apply isReplay_elem in Hx. congruence.
  - cbn. apply wf_mset_route; [done|]. split; cbn; [unfold trim_blobs; cbn; unfold MAX_RANDOM_BLOBS; lia|].
    apply NoDup_singleton.
Qed.

Lemma wf_apply_op now o t : wf_table t -> wf_table (apply_op now o t).
Proof.
  intros Ht. destruct o as [d e|d s|d|d h|d|i]; cbn [apply_op].
  - by apply wf_addOrUpdateRoute.
  - unfold markState. destruct (get _ _) as [r|] eqn:Eg; [|done]. apply wf_mset_route; [done|].
    pose proof (wf_get_route _ _ _ Ht Eg) as []. by split.
  - apply wf_table_sub; [done|apply wf_mdelete, Ht|]. by intros x [Hx _]%In_mdelete.
  - unfold setHops. destruct (get _ _) as [r|] eqn:Eg; [|done]. apply wf_mset_route; [done|].
    pose proof (wf_get_route _ _ _ Ht Eg) as []. by split.
  - unfold getRoute. destruct (get _ _) as [r|] eqn:Eg; [|done].
    destruct (_ >=? _).
    { apply wf_table_sub; [done|apply wf_mdelete, Ht|]. by intros x [Hx _]%In_mdelete. }
    pose proof (wf_get_route _ _ _ Ht Eg) as [].
    repeat case_goal; try done. apply wf_mset_route; [done|]. by split.
  - apply wf_table_sub; [done| |].
    + destruct Ht as [Ht _]. unfold wf_map, keys in *. eapply sublist_NoDup; [exact Ht|].
      change (map fst ?l) with (fst <$> l). apply fmap_sublist, sublist_filter.
    + intros x Hx. apply list_elem_of_In in Hx. apply list_elem_of_filter in Hx as [_ Hx].
      by apply list_elem_of_In.
Qed.

Lemma reachable_wf t : reachable t -> wf_table t.
Proof.
  induction 1 as [f|now o t _ IH]; [|by apply wf_apply_op].
  split; [constructor|]. intros k r [].
Qed.

(** ** Properties *)

(** Path replacement.  While the stored path has not expired, an announce for
    its destination is accepted exactly when it was emitted later than every
    recorded announce, or at the same time as the latest and on an interface of
    higher gravity over no more hops, or over more hops to replace a path that
    was found unresponsive.  Acceptance stores the announced path without ever
    moving the recorded emission time back, and resets the liveness unless an
    exception applied; a rejection changes nothing; other destinations are not
    touched. *)
Theorem route_replacement (now : Z) (d : bytes) (e : RouteEntry) (t : RoutingTable) (r : Route)
    (Hg : get (toHex d) (routes t) = Some r) (Hlive : now < expires r) :
  let '(accepted, t') := addOrUpdateRoute now d e t in
  (accepted = true
   <-> timebaseFromBlobs (randomBlobs r) < emissionTime (randomBlob e)
       \/ emissionTime (randomBlob e) = timebaseFromBlobs (randomBlobs r)
          /\ (gravity_switch r e \/ unresponsive_gate r e))
  /\ (accepted = false -> t' = t)
  /\ (accepted = true -> exists r', get (toHex d) (routes t') = Some r'
        /\ nextHop r' = e_nextHop e /\ hops r' = e_hops e /\ interface r' = viaInterface e
        /\ randomBlob e ∈ randomBlobs r'
        /\ timebaseFromBlobs (randomBlobs r) <= timebaseFromBlobs (randomBlobs r')
        /\ (timebaseFromBlobs (randomBlobs r) < emissionTime (randomBlob e) -> state r' = UNKNOWN))
  /\ forall k, k <> toHex d -> get k (routes t') = get k (routes t).
Proof.
  pose proof (decide_update_live now r e Hlive) as HD.
  pose proof (decide_update_preserve now r e Hlive) as HP.
  unfold addOrUpdateRoute. rewrite Hg. destruct (decide_update now r e) as [a p]. cbn [fst snd] in *.
  destruct a; cbn [negb]; (split; [done|]); (split; [done|]).
  - split; [|intros k Hk; cbn; by rewrite get_mset_other].
    intros _. eexists. cbn. rewrite get_mset_same. split; [done|]. cbn. split_and!; [done..| | |].
    + destruct (isReplay r (randomBlob e)) eqn:Er; cbn [negb]; [by apply isReplay_elem|apply trim_blobs_last].
    + destruct (isReplay r (randomBlob e)) eqn:Er; cbn [negb]; [done|].
      destruct HD as [HD _]. specialize (HD eq_refl).
      transitivity (emissionTime (randomBlob e)); [destruct HD as [HD|[HD _]]; lia|].
      apply timebase_ge, trim_blobs_last.
    + intros Hf. destruct p; [|done]. specialize (HP eq_refl). lia.
  - split; [done|]. by intros k Hk.
Qed.

(** Replay defence: an announce whose [random_blob] is already recorded is
    never accepted on the merit of its hop count or of an expired path, only by
    one of the two exceptions, and then it does not enter the record again. *)
Theorem replay_only_by_exception (now : Z) (d : bytes) (e : RouteEntry) (t t' : RoutingTable) (r : Route)
    (Hg : get (toHex d) (routes t) = Some r) (Hseen : seen r (randomBlob e))
    (Ha : addOrUpdateRoute now d e t = (true, t')) :
  (gravity_switch r e \/ unresponsive_gate r e /\ now < expires r)
  /\ exists r', get (toHex d) (routes t') = Some r' /\ randomBlobs r' = randomBlobs r
       /\ state r' = state r.
Proof.
  unfold seen in Hseen. pose proof (replay_not_fresh _ _ Hseen) as Hn.
  unfold addOrUpdateRoute in Ha. rewrite Hg, Hseen in Ha.
  destruct (decide_update now r e) as [a p] eqn:ED. destruct a; [|done]. cbn [negb] in Ha.
  injection Ha as <-. assert (HX : p = true /\ (gravity_switch r e \/ unresponsive_gate r e /\ now < expires r)).
  { unfold decide_update in ED. rewrite !Z.gtb_ltb, Z.geb_leb, Hseen in ED.
    unfold gravity_switch, unresponsive_gate.
    rewrite (proj2 (Z.ltb_ge _ (emissionTime (randomBlob e)))) in ED by done.
    destruct (_ <=? hops r) eqn:Eh; bools.
    - destruct (_ =? _); [|done]. destruct (iface_gravity (interface r)) as [c|], (iface_gravity (viaInterface e)) as [a|]; try done.
      rewrite Z.gtb_ltb in ED. destruct (c <? a) eqn:E3; [|done]. injection ED as <-. bools.
      split; [done|]. left. split; [done|]. exists a, c. done.
    - destruct (_ <=? now) eqn:El; [done|]. destruct (_ =? _); [|done]. cbn [andb] in ED.
      destruct (bool_decide _) eqn:E3; [|done]. injection ED as <-. bools. split; [done|]. right.
      split; [split; [lia|done]|lia]. }
  destruct HX as [-> HX]. split; [done|]. eexists. cbn. rewrite get_mset_same. done.
Qed.

(** The table in every reachable state: one route per destination, at most 64
    distinct announces recorded for each; a lookup returns a route exactly when
    there is one that was used within the last week, and forgets it otherwise;
    and a dropped interface leaves no route through it and all others. *)
Theorem route_table_sound (t : RoutingTable) (now : Z) (d : bytes) (i : Iface)
    (Hr : reachable t) :
  NoDup (keys (routes t))
  /\ (forall k r, In (k, r) (routes t) -> (length (randomBlobs r) <= 64)%nat /\ NoDup (randomBlobs r))
  /\ (forall r, get (toHex d) (routes t) = Some r ->
        if timestamp r + PATH_EXPIRY_MS <=? now
        then getRoute now d t = (None, snd (expireRoute d t))
        else exists r', fst (getRoute now d t) = Some r' /\ nextHop r' = nextHop r /\ hops r' = hops r)
  /\ (get (toHex d) (routes t) = None -> getRoute now d t = (None, t))
  /\ forall k r, In (k, r) (routes (dropInterface i t))
       <-> In (k, r) (routes t) /\ iface_id <$> interface r <> Some (iface_id i).
Proof.
  destruct (reachable_wf t Hr) as [W1 W2]. split_and!.
  - exact W1.
  - intros k r Hi. by destruct (W2 k r Hi).
  - intros r Hg. unfold getRoute. rewrite Hg, Z.geb_leb. destruct (_ <=? now); [done|].
    repeat case_goal; eexists; done.
  - intros Hg. unfold getRoute. by rewrite Hg.
  - intros k r. unfold dropInterface. cbn. rewrite <- !list_elem_of_In, list_elem_of_filter.
    rewrite (and_comm (_ ∈ _)). apply and_iff_compat_r.
    destruct (interface r) as [j|]; cbn; [|naive_solver].
    rewrite bool_decide_eq_false. naive_solver.
Qed.

(** ** Witnesses *)

Module DemoTable.
Definition blob (seconds : Z) : bytes := be_bytes 5 0 ++ be_bytes 5 seconds.
Definition entry (h seconds : Z) : RouteEntry := mkEntry (replicate 16 7) h None (blob seconds) None None.
Definition dest : bytes := replicate 16 1.
Definition t1 : RoutingTable := snd (addOrUpdateRoute 1000 dest (entry 3 100) empty_table).
Definition r1 : Route := default (mkRoute None None [] 0 0 0 [] UNKNOWN) (get (toHex dest) (routes t1)).
Definition t2 : RoutingTable := snd (markState dest UNRESPONSIVE t1).
Definition r2 : Route := default r1 (get (toHex dest) (routes t2)).
End DemoTable.
Import DemoTable.

Lemma route_replacement_witness : fst (addOrUpdateRoute 2000 dest (entry 5 101) t1) = true.
Proof.
  pose proof (route_replacement 2000 dest (entry 5 101) t1 r1 eq_refl eq_refl) as H.
  destruct (addOrUpdateRoute 2000 dest (entry 5 101) t1) as [a t']. cbn [fst].
  apply (proj1 H). left. reflexivity.
Defined.

Lemma replay_only_by_exception_witness :
  gravity_switch r2 (entry 4 100) \/ unresponsive_gate r2 (entry 4 100) /\ 2000 < expires r2.
Proof.
  refine (proj1 (replay_only_by_exception 2000 dest (entry 4 100) t2
    (snd (addOrUpdateRoute 2000 dest (entry 4 100) t2)) r2 eq_refl _ _)); vm_compute; reflexivity.
Defined.

Lemma t1_reachable : reachable t1.
Proof. exact (reachable_op 1000 (Announce dest (entry 3 100)) empty_table (reachable_empty None)). Qed.

Lemma route_table_sound_witness : NoDup (keys (routes t1)).
Proof. exact (proj1 (route_table_sound t1 2000 dest (mkIface 0 [] None) t1_reachable)). Defined.
