(* ===== verification/Interface.v ===== *)
(** * Interface: the base class of all interfaces
    (packages/core/src/interfaces/base.js)

    Ingress control (frequency windows, burst latches, held announces), the
    IFAC hooks handed to the framers, hardware MTU selection and the reconnect
    loop.  Times are microseconds; the seconds of the source are the constants
    times [sec].  Frequencies and thresholds are rationals, where the source
    has doubles. *)

From S2P Require Import Prelude Encoding JsMap Packet Crypto Identity Ifac Framing.
From Stdlib Require Import QArith.
#[local] Open Scope Z_scope.

Definition sec : Z := 1000000.

Definition FREQ_SAMPLES : nat := 48.
Definition IC_DEQUE_MIN_SAMPLE : nat := 2.
Definition IC_PR_BURST_COOLDOWN_SECS : Z := 3.

Record IcConfig := mkIcConfig {
  ingressControl : bool;
  icNewTime : Z;
  icBurstFreqNew : Q;
  icBurstFreq : Q;
  icPrBurstFreqNew : Q;
  icPrBurstFreq : Q;
  icBurstHold : Z;
  icBurstPenalty : Z;
  icHeldReleaseInterval : Z;
  icMaxHeldAnnounces : nat;
  arFreqDecay : Z;
  prFreqDecay : Z;
}.

(** The class constants. *)
Definition default_config : IcConfig :=
  mkIcConfig true (2 * 60 * 60 * sec) 3 10 3 8 (15 * sec) (15 * sec) (5 * sec) 256
    (10 * sec) (10 * sec).

(** The ingress-control part of an interface's state. *)
Record Ingress := mkIngress {
  created : Z;
  cfg : IcConfig;
  iaFreqDeque : list Z;
  ipFreqDeque : list Z;
  icBurstActive : bool;
  icBurstActivated : Z;
  icPrBurstActive : bool;
  icPrBurstActivated : Z;
  icPrBurstCooldown : Z;
  icHeldRelease : Z;
  announceBurstCount : Z;
  prBurstCount : Z;
  heldAnnounceReleases : Z;
  heldAnnounceDrops : Z;
  heldAnnounces : jsmap Packet;
}.

Definition new_Ingress (now : Z) (c : IcConfig) : Ingress :=
  mkIngress now c [] [] false 0 false 0 0 0 0 0 0 0 [].

Definition set_ia (s : Ingress) (d : list Z) : Ingress :=
  mkIngress (created s) (cfg s) d (ipFreqDeque s) (icBurstActive s) (icBurstActivated s)
    (icPrBurstActive s) (icPrBurstActivated s) (icPrBurstCooldown s) (icHeldRelease s)
    (announceBurstCount s) (prBurstCount s) (heldAnnounceReleases s) (heldAnnounceDrops s)
    (heldAnnounces s).

Definition set_ip (s : Ingress) (d : list Z) : Ingress :=
  mkIngress (created s) (cfg s) (iaFreqDeque s) d (icBurstActive s) (icBurstActivated s)
    (icPrBurstActive s) (icPrBurstActivated s) (icPrBurstCooldown s) (icHeldRelease s)
    (announceBurstCount s) (prBurstCount s) (heldAnnounceReleases s) (heldAnnounceDrops s)
    (heldAnnounces s).

Definition set_burst (s : Ingress) (active : bool) (activated release count : Z) : Ingress :=
  mkIngress (created s) (cfg s) (iaFreqDeque s) (ipFreqDeque s) active activated
    (icPrBurstActive s) (icPrBurstActivated s) (icPrBurstCooldown s) release
    count (prBurstCount s) (heldAnnounceReleases s) (heldAnnounceDrops s)
    (heldAnnounces s).

Definition set_pr_burst (s : Ingress) (active : bool) (activated cooldown count : Z) : Ingress :=
  mkIngress (created s) (cfg s) (iaFreqDeque s) (ipFreqDeque s) (icBurstActive s)
    (icBurstActivated s) active activated cooldown (icHeldRelease s)
    (announceBurstCount s) count (heldAnnounceReleases s) (heldAnnounceDrops s)
    (heldAnnounces s).

Definition set_held (s : Ingress) (release releases drops : Z) (held : jsmap Packet) : Ingress :=
  mkIngress (created s) (cfg s) (iaFreqDeque s) (ipFreqDeque s) (icBurstActive s)
    (icBurstActivated s) (icPrBurstActive s) (icPrBurstActivated s) (icPrBurstCooldown s) release
    (announceBurstCount s) (prBurstCount s) releases drops held.

(** ** Frequency windows *)

Definition Qlt_bool (a b : Q) : bool := negb (Qle_bool b a).

Definition frequencyOverWindow (deque : list Z) (minSample : nat) (decay now : Z)
  : Q * list Z :=
  let n := length deque in
  if negb (minSample <? n)%nat then (0%Q, deque) else
  let oldest := hd 0 deque in
  let span := now - oldest in
  let deque := if decay <? span then tl deque else deque in
  if span <=? 0 then (0%Q, deque)
  else (Qmake (Z.of_nat n * sec) (Z.to_pos span), deque).

(** [push] followed by the [shift] that keeps at most [FREQ_SAMPLES]. *)
Definition ring_push (d : list Z) (t : Z) : list Z :=
  let d := d ++ [t] in if (FREQ_SAMPLES <? length d)%nat then tl d else d.

Definition receivedAnnounce (now : Z) (s : Ingress) : Ingress :=
  set_ia s (ring_push (iaFreqDeque s) now).

Definition receivedPathRequest (now : Z) (s : Ingress) : Ingress :=
  set_ip s (ring_push (ipFreqDeque s) now).

(** An announce on a spawned interface is counted on its parent too. *)
Definition receivedAnnounce_spawned (now : Z) (s parent : Ingress) : Ingress * Ingress :=
  (receivedAnnounce now s, receivedAnnounce now parent).

Definition incomingAnnounceFrequency (now : Z) (s : Ingress) : Q * Ingress :=
  let (f, d) := frequencyOverWindow (iaFreqDeque s) IC_DEQUE_MIN_SAMPLE (arFreqDecay (cfg s)) now in
  (f, set_ia s d).

Definition incomingPrFrequency (now : Z) (s : Ingress) : Q * Ingress :=
  let (f, d) := frequencyOverWindow (ipFreqDeque s) IC_DEQUE_MIN_SAMPLE (prFreqDecay (cfg s)) now in
  (f, set_ip s d).

Definition age (now : Z) (s : Ingress) : Z := now - created s.

Definition freqThreshold (now : Z) (s : Ingress) : Q :=
  if age now s <? icNewTime (cfg s) then icBurstFreqNew (cfg s) else icBurstFreq (cfg s).

Definition prFreqThreshold (now : Z) (s : Ingress) : Q :=
  if age now s <? icNewTime (cfg s) then icPrBurstFreqNew (cfg s) else icPrBurstFreq (cfg s).

(** ** Burst latches *)

Definition shouldIngressLimit (now : Z) (s : Ingress) : bool * Ingress :=
  if negb (ingressControl (cfg s)) then (false, s) else
  let threshold := freqThreshold now s in
  let (iaFreq, s) := incomingAnnounceFrequency now s in
  if icBurstActive s then
    if Qlt_bool iaFreq threshold && (icBurstActivated s + icBurstHold (cfg s) <? now)
       && (IC_DEQUE_MIN_SAMPLE <=? length (iaFreqDeque s))%nat
    then (true, set_burst s false (icBurstActivated s) (icHeldRelease s) (announceBurstCount s))
    else (true, s)
  else if Qlt_bool threshold iaFreq then
    (true, set_burst s true now (now + icBurstPenalty (cfg s)) (announceBurstCount s + 1))
  else (false, s).

Definition shouldIngressLimitPr (now : Z) (s : Ingress) : bool * Ingress :=
  if negb (ingressControl (cfg s)) then (false, s) else
  let threshold := prFreqThreshold now s in
  let (ipFreq, s) := incomingPrFrequency now s in
  if icPrBurstActive s then
    if Qlt_bool ipFreq threshold && (icPrBurstActivated s + icBurstHold (cfg s) <? now) then
      if icPrBurstCooldown s <=? 0
      then (true, set_pr_burst s false (icPrBurstActivated s) (icPrBurstCooldown s) (prBurstCount s))
      else (true, set_pr_burst s true (icPrBurstActivated s) (icPrBurstCooldown s - 1)
                    (prBurstCount s))
    else (true, set_pr_burst s true (icPrBurstActivated s) IC_PR_BURST_COOLDOWN_SECS
                  (prBurstCount s))
  else if Qlt_bool threshold ipFreq then
    (true, set_pr_burst s true now IC_PR_BURST_COOLDOWN_SECS (prBurstCount s + 1))
  else (false, s).

(** ** Held announces *)

Definition holdAnnounce (p : Packet) (s : Ingress) : Ingress :=
  let destHex := toHex (destinationHash p) in
  if 127 <=? hops p then s
  else if has destHex (heldAnnounces s)
  then set_held s (icHeldRelease s) (heldAnnounceReleases s) (heldAnnounceDrops s)
         (mset destHex p (heldAnnounces s))
  else if (size (heldAnnounces s) <? icMaxHeldAnnounces (cfg s))%nat
  then set_held s (icHeldRelease s) (heldAnnounceReleases s) (heldAnnounceDrops s)
         (mset destHex p (heldAnnounces s))
  else set_held s (icHeldRelease s) (heldAnnounceReleases s) (heldAnnounceDrops s + 1)
         (heldAnnounces s).

(** The selection loop: the first packet of minimal hop count below 128. *)
Fixpoint select_min (minHops : Z) (selected : option Packet) (ps : list Packet) : option Packet :=
  match ps with
  | [] => selected
  | p :: ps =>
      if hops p <? minHops then select_min (hops p) (Some p) ps
      else select_min minHops selected ps
  end.

Definition processHeldAnnounces (now : Z) (s : Ingress) : option Packet * Ingress :=
  if (size (heldAnnounces s) =? 0)%nat then (None, s) else
  if now <=? icHeldRelease s then (None, s) else
  let threshold := freqThreshold now s in
  let (iaFreq, s) := incomingAnnounceFrequency now s in
  if negb (Qlt_bool iaFreq threshold) then (None, s) else
  match select_min 128 None (values (heldAnnounces s)) with
  | None => (None, s)
  | Some p =>
      (Some p, set_held s (now + icHeldReleaseInterval (cfg s)) (heldAnnounceReleases s + 1)
                 (heldAnnounceDrops s) (mdelete (toHex (destinationHash p)) (heldAnnounces s)))
  end.

(** ** The life of an interface's ingress control *)

Inductive ic_op :=
| OpAnnounce | OpPathRequest | OpLimit | OpLimitPr | OpHold (p : Packet) | OpRelease.

Definition ic_step (op : ic_op) (now : Z) (s : Ingress) : Ingress :=
  match op with
  | OpAnnounce => receivedAnnounce now s
  | OpPathRequest => receivedPathRequest now s
  | OpLimit => snd (shouldIngressLimit now s)
  | OpLimitPr => snd (shouldIngressLimitPr now s)
  | OpHold p => holdAnnounce p s
  | OpRelease => snd (processHeldAnnounces now s)
  end.

Inductive ic_reachable (c : IcConfig) : Ingress -> Prop :=
| ic_init now : ic_reachable c (new_Ingress now c)
| ic_next op now s : ic_reachable c s -> ic_reachable c (ic_step op now s).

(** ** Hardware MTU *)

Definition optimiseMtu (autoconfigureMtu : bool) (bitrate : Z) (hwMtu : option Z) : option Z :=
  if negb autoconfigureMtu then hwMtu
  else if 1000000000 <=? bitrate then Some 524288
  else if 750000000 <? bitrate then Some 262144
  else if 400000000 <? bitrate then Some 131072
  else if 200000000 <? bitrate then Some 65536
  else if 100000000 <? bitrate then Some 32768
  else if 10000000 <? bitrate then Some 16384
  else if 5000000 <? bitrate then Some 8192
  else if 2000000 <? bitrate then Some 4096
  else if 1000000 <? bitrate then Some 2048
  else if 62500 <? bitrate then Some 1024
  else None.

(** ** The IFAC hooks *)

Section WithCrypto.
Context `{C : WebCrypto}.

(** The IFAC configuration of an interface: the UTF-8 secrets, the explicit
    size (0 when absent) and the subclass default. *)
Record IfacSetup := mkIfacSetup {
  ifacNetname : bytes;
  ifacNetkey : bytes;
  setupIfacSize : nat;
  DEFAULT_IFAC_SIZE : nat;
}.

Definition ifacEnabled (i : IfacSetup) : bool :=
  negb (length (ifacNetname i) =? 0)%nat || negb (length (ifacNetkey i) =? 0)%nat.

(** The material cached by the first call. *)
Definition _ensureIfacMaterial (i : IfacSetup) : option IfacConfig :=
  if negb (ifacEnabled i) then None else
  match deriveIfac (ifacNetname i) (ifacNetkey i) with
  | Some (key, Some identity, Ok _) =>
      let size := if (setupIfacSize i =? 0)%nat
                     || (Z.of_nat (setupIfacSize i) <? IFAC_MIN_SIZE)
                  then DEFAULT_IFAC_SIZE i else setupIfacSize i in
      Some (mkIfacConfig identity key size)
  | _ => None
  end.

Definition _sealRaw (i : IfacSetup) (raw : bytes) : result bytes :=
  if negb (ifacEnabled i) then Ok raw else
  match _ensureIfacMaterial i with
  | Some cfg => seal raw cfg
  | None => Throw (TypeError "ifacIdentity is null")
  end.

(** The outcome names which violation counter a drop increments. *)
Inductive violation := ProtocolViolation (d : string) | IfacViolation (d : string).

Definition openRaw_checked (i : IfacSetup) (raw : bytes) : result (violation + bytes) :=
  if (length raw <=? 2)%nat
  then Ok (inl (ProtocolViolation "Insufficient packet size for IFAC processing")) else
  if negb (ifacEnabled i) then
    Ok (if hasIfacFlag raw
        then inl (ProtocolViolation "IFAC flag set on packet for interface without IFAC enabled")
        else inr raw)
  else
    match _ensureIfacMaterial i with
    | None => Throw (TypeError "ifacIdentity is null")
    | Some cfg =>
        if negb (hasIfacFlag raw)
        then Ok (inl (IfacViolation "Missing IFAC flag on packet for IFAC-enabled interface"))
        else if (length raw <=? 2 + ifacSize cfg)%nat
        then Ok (inl (IfacViolation "Insufficient packet size for IFAC packet"))
        else let! opened := open raw cfg in
             Ok (match opened with
                 | None => inl (IfacViolation "Invalid IFAC on packet")
                 | Some o => inr o
                 end)
    end.

(** [_openRaw] as the framers see it: every violation helper returns null. *)
Definition _openRaw (i : IfacSetup) (raw : bytes) : result (option bytes) :=
  let! v := openRaw_checked i raw in
  Ok (match v with inl _ => None | inr b => Some b end).

End WithCrypto.

(** ** The reconnect loop *)

Inductive conn_event := Closed | Disconnected | Reconnecting (attempt : Z).

Record Conn := mkConn {
  online : bool;
  initiator : bool;
  autoReconnect : bool;
  detached : bool;
  _reconnecting : bool;
  _reconnectAttempts : Z;
  _closed : bool;
}.

(** What the environment does during one round of the loop: whether
    [disconnect()] runs during the wait, and whether the dial succeeds. *)
Record round := mkRound { detach_in_wait : bool; dial_ok : bool }.

Definition _cancelReconnect (c : Conn) : Conn :=
  mkConn (online c) (initiator c) (autoReconnect c) true (_reconnecting c)
    (_reconnectAttempts c) (_closed c).

Definition _dispatchClosed (c : Conn) : Conn * list conn_event :=
  if _closed c then (c, [])
  else (mkConn false (initiator c) (autoReconnect c) (detached c) (_reconnecting c)
          (_reconnectAttempts c) true, [Closed]).

Definition finish_loop (c : Conn) : Conn :=
  mkConn (online c) (initiator c) (autoReconnect c) (detached c) false
    (_reconnectAttempts c) (_closed c).

Definition set_attempts (c : Conn) (n : Z) : Conn :=
  mkConn (online c) (initiator c) (autoReconnect c) (detached c) (_reconnecting c)
    n (_closed c).

(** The [while] loop, one round of the environment per attempt; when the
    environment's rounds are used up the loop is still waiting.  [None] for
    [maxTries] is [Infinity]. *)
Fixpoint reconnect_while (maxTries : option Z) (rounds : list round) (c : Conn)
  : Conn * list conn_event :=
  if detached c then (finish_loop c, []) else
  let c := set_attempts c (_reconnectAttempts c + 1) in
  if match maxTries with Some m => m <? _reconnectAttempts c | None => false end then
    let (c, ev) := _dispatchClosed c in (finish_loop c, ev)
  else
    match rounds with
    | [] => (c, [Reconnecting (_reconnectAttempts c)])
    | r :: rounds =>
        let ev := Reconnecting (_reconnectAttempts c) in
        let c' := if detach_in_wait r then _cancelReconnect c else c in
        if detached c' then (finish_loop c', [ev])
        else if dial_ok r
        then (finish_loop (mkConn true (initiator c') (autoReconnect c') (detached c')
                             (_reconnecting c') (_reconnectAttempts c') (_closed c')), [ev])
        else let (c'', evs) := reconnect_while maxTries rounds c' in (c'', ev :: evs)
    end.

Definition _runReconnectLoop (maxTries : option Z) (rounds : list round) (c : Conn)
  : Conn * list conn_event :=
  if _reconnecting c then (c, []) else
  reconnect_while maxTries rounds
    (mkConn (online c) (initiator c) (autoReconnect c) (detached c) true 0 false).

Definition _handleConnectionLost (maxTries : option Z) (rounds : list round) (c : Conn)
  : Conn * list conn_event :=
  let c := mkConn false (initiator c) (autoReconnect c) (detached c) (_reconnecting c)
             (_reconnectAttempts c) (_closed c) in
  if detached c then _dispatchClosed c
  else if initiator c && autoReconnect c then
    let (c, ev) := _runReconnectLoop maxTries rounds c in (c, Disconnected :: ev)
  else _dispatchClosed c.

(** ** Lemmas: ingress control *)

(** Thresholds of a sane configuration are not negative. *)
Definition wf_config (c : IcConfig) : Prop :=
  (0 <= icBurstFreqNew c)%Q /\ (0 <= icBurstFreq c)%Q.

Record ic_inv (c : IcConfig) (s : Ingress) : Prop := {
  inv_cfg : cfg s = c;
  inv_ia : (length (iaFreqDeque s) <= FREQ_SAMPLES)%nat;
  inv_ip : (length (ipFreqDeque s) <= FREQ_SAMPLES)%nat;
  inv_latch : icBurstActive s = true -> (IC_DEQUE_MIN_SAMPLE <= length (iaFreqDeque s))%nat;
  inv_keys : wf_map (heldAnnounces s);
  inv_size : (size (heldAnnounces s) <= icMaxHeldAnnounces c)%nat;
  inv_held : forall k p, In (k, p) (heldAnnounces s) ->
    k = toHex (destinationHash p) /\ hops p < 127;
}.

Lemma ring_push_length d t : (length d <= FREQ_SAMPLES)%nat ->
  (length (ring_push d t) <= FREQ_SAMPLES)%nat.
Proof.
  intros H. unfold ring_push. cbv zeta. destruct (_ <? _)%nat eqn:E; bools; [|lia].
  destruct (d ++ [t]) eqn:E2; cbn in *; [lia|].
  apply (f_equal length) in E2. rewrite length_app in E2. cbn in E2. lia.
Qed.

Lemma ring_push_grows d t : (length d <= FREQ_SAMPLES)%nat ->
  (IC_DEQUE_MIN_SAMPLE <= length d)%nat -> (IC_DEQUE_MIN_SAMPLE <= length (ring_push d t))%nat.
Proof.
  unfold IC_DEQUE_MIN_SAMPLE. intros H H2. unfold ring_push. cbv zeta.
  destruct (_ <? _)%nat; rewrite ?length_tl, length_app; cbn; lia.
Qed.

(** A reading never shortens the window below the minimum. *)
Lemma frequency_deque d m decay now :
  let d' := snd (frequencyOverWindow d m decay now) in
  (length d' <= length d)%nat /\ ((m <= length d)%nat -> (m <= length d')%nat).
Proof.
  unfold frequencyOverWindow. destruct (m <? length d)%nat eqn:E; bools; cbn [negb]; [|cbn; lia].
  destruct (_ <=? 0); cbn [snd]; destruct (decay <? _); rewrite ?length_tl; lia.
Qed.

Lemma frequency_pos d m decay now : Qlt_bool 0 (fst (frequencyOverWindow d m decay now)) = true ->
  (m < length d)%nat.
Proof.
  unfold frequencyOverWindow. destruct (m <? length d)%nat eqn:E; bools; [done|].
  cbn. discriminate.
Qed.

Lemma Qlt_bool_iff a b : Qlt_bool a b = true <-> (a < b)%Q.
Proof.
  unfold Qlt_bool. rewrite negb_true_iff, <- not_true_iff_false, Qle_bool_iff.
  split; [apply Qnot_le_lt | apply Qlt_not_le].
Qed.

Lemma threshold_nonneg c now s : wf_config c -> cfg s = c -> (0 <= freqThreshold now s)%Q.
Proof. intros [H1 H2] <-. unfold freqThreshold. by destruct (_ <? _). Qed.

Lemma select_min_spec ps m sel : 
  match select_min m sel ps with
  | Some p => (sel = Some p /\ Forall (fun q => m <= hops q) ps)
              \/ (In p ps /\ hops p < m /\ Forall (fun q => hops p <= hops q) ps)
  | None => sel = None /\ Forall (fun q => m <= hops q) ps
  end.
Proof.
  revert m sel. induction ps as [|p ps IH]; intros m sel; cbn [select_min].
  - destruct sel; auto.
  - destruct (hops p <? m) eqn:E; bools.
    + specialize (IH (hops p) (Some p)). destruct (select_min _ _ ps) as [q|].
      * destruct IH as [[[= ->] HF]|(Hin & Hlt & HF)].
        -- right. repeat split; [by left | done | by constructor].
        -- right. repeat split; [by right | lia | constructor; [lia|done]].
      * by destruct IH.
    + specialize (IH m sel). destruct (select_min m sel ps) as [q|].
      * destruct IH as [[-> HF]|(Hin & Hlt & HF)]; [left; auto|].
        right. repeat split; [by right | done | constructor; [lia|done]].
      * destruct IH. auto.
Qed.

Lemma ic_inv_init c now : ic_inv c (new_Ingress now c).
Proof.
  constructor; cbn; unfold FREQ_SAMPLES, size; cbn; try done; auto with ret; lia.
Qed.

Lemma ic_inv_ia c s d : ic_inv c s -> (length d <= FREQ_SAMPLES)%nat ->
  ((IC_DEQUE_MIN_SAMPLE <= length (iaFreqDeque s))%nat -> (IC_DEQUE_MIN_SAMPLE <= length d)%nat) ->
  ic_inv c (set_ia s d).
Proof. intros [] H1 H2. constructor; cbn; auto. Qed.

Lemma ic_inv_frequency c s now : ic_inv c s -> ic_inv c (snd (incomingAnnounceFrequency now s)).
Proof.
  intros H. unfold incomingAnnounceFrequency.
  pose proof (frequency_deque (iaFreqDeque s) IC_DEQUE_MIN_SAMPLE (arFreqDecay (cfg s)) now) as [F1 F2].
  destruct (frequencyOverWindow _ _ _ _) as [f d]. cbn [snd] in *.
  apply ic_inv_ia; [done | pose proof (inv_ia c s H); lia | done].
Qed.

Lemma ic_inv_limit c s now : wf_config c -> ic_inv c s ->
  ic_inv c (snd (shouldIngressLimit now s)).
Proof.
  intros Hc H. unfold shouldIngressLimit. destruct (negb _); [done|].
  pose proof (ic_inv_frequency c s now H) as H'.
  pose proof (threshold_nonneg c now s Hc (inv_cfg c s H)) as Ht.
  set (thr := freqThreshold now s) in *. clearbody thr.
  assert (Hpos : Qlt_bool thr (fst (incomingAnnounceFrequency now s)) = true ->
    (IC_DEQUE_MIN_SAMPLE <= length (iaFreqDeque (snd (incomingAnnounceFrequency now s))))%nat).
  { intros Hf. unfold incomingAnnounceFrequency in *.
    pose proof (frequency_deque (iaFreqDeque s) IC_DEQUE_MIN_SAMPLE (arFreqDecay (cfg s)) now)
      as [_ F2].
    pose proof (frequency_pos (iaFreqDeque s) IC_DEQUE_MIN_SAMPLE (arFreqDecay (cfg s)) now) as F3.
    destruct (frequencyOverWindow _ _ _ _) as [f d]. cbn [fst snd set_ia iaFreqDeque] in *.
    apply F2. apply Qlt_bool_iff in Hf. rewrite Qlt_bool_iff in F3.
    pose proof (F3 (Qle_lt_trans _ _ _ Ht Hf)). lia. }
  destruct (incomingAnnounceFrequency now s) as [f s1]. cbn [fst snd] in *. destruct H' as [].
  destruct (icBurstActive s1) eqn:Ea.
  - destruct (_ && _); cbn [snd]; constructor; cbn; auto; done.
  - destruct (Qlt_bool thr f) eqn:E; cbn [snd]; constructor; cbn; auto; congruence.
Qed.

Lemma ic_inv_hold c s p : ic_inv c s -> ic_inv c (holdAnnounce p s).
Proof.
  intros [Hc H1 H2 H3 H4 H5 H6]. unfold holdAnnounce. destruct (127 <=? hops p) eqn:Eh; bools; [by constructor|].
  assert (Hset : forall m, m = mset (toHex (destinationHash p)) p (heldAnnounces s) ->
    forall k q, In (k, q) m -> k = toHex (destinationHash q) /\ hops q < 127).
  { intros m -> k q Hin. apply In_mset in Hin as [[= -> ->]|Hin]; [by split|]. by apply H6. }
  destruct (has _ _) eqn:Eh2; [|destruct (_ <? _)%nat eqn:Es; bools].
  - constructor; cbn; auto with ret; [rewrite size_mset, Eh2; done | by apply Hset].
  - constructor; cbn; auto with ret; [|by apply Hset].
    rewrite size_mset, Eh2. rewrite Hc in Es. lia.
  - constructor; cbn; auto.
Qed.

Lemma ic_inv_release c s now : ic_inv c s -> ic_inv c (snd (processHeldAnnounces now s)).
Proof.
  intros H. unfold processHeldAnnounces. destruct (_ =? 0)%nat; [done|].
  destruct (now <=? _); [done|]. pose proof (ic_inv_frequency c s now H) as H'.
  destruct (incomingAnnounceFrequency now s) as [f s1]. cbn [snd] in H'.
  destruct (negb _); [done|]. destruct (select_min _ _ _) as [p|]; [|done].
  destruct H' as [Hc H1 H2 H3 H4 H5 H6]. constructor; cbn; auto with ret.
  - pose proof (size_mdelete (toHex (destinationHash p)) (heldAnnounces s1)). lia.
  - intros k q Hin. apply In_mdelete in Hin as [Hin _]. by apply H6.
Qed.

Lemma ic_inv_limit_pr c s now : ic_inv c s -> ic_inv c (snd (shouldIngressLimitPr now s)).
Proof.
  intros H. unfold shouldIngressLimitPr. destruct (negb _); [done|]. unfold incomingPrFrequency.
  pose proof (frequency_deque (ipFreqDeque s) IC_DEQUE_MIN_SAMPLE (prFreqDecay (cfg s)) now)
    as [F1 _].
  destruct (frequencyOverWindow _ _ _ _) as [f d]. cbn [snd] in F1.
  destruct H as [Hc H1 H2 H3 H4 H5 H6].
  repeat case_goal; constructor; cbn; auto; lia.
Qed.

Lemma ic_inv_step c op now s : wf_config c -> ic_inv c s -> ic_inv c (ic_step op now s).
Proof.
  intros Hc H. destruct op; cbn [ic_step].
  - apply ic_inv_ia; [done | apply ring_push_length, (inv_ia c s H) |].
    intros. apply ring_push_grows; [apply (inv_ia c s H) | done].
  - destruct H. constructor; cbn; auto. by apply ring_push_length.
  - by apply ic_inv_limit.
  - by apply ic_inv_limit_pr.
  - by apply ic_inv_hold.
  - by apply ic_inv_release.
Qed.

Lemma ic_reachable_inv c s : wf_config c -> ic_reachable c s -> ic_inv c s.
Proof. intros Hc. induction 1; [apply ic_inv_init | by apply ic_inv_step]. Qed.

(** A quiet window has a low frequency. *)
Lemma frequency_quiet d m decay now thr : (length d <= FREQ_SAMPLES)%nat -> (0 < thr)%Q ->
  Forall (fun t => (inject_Z (48 * sec) < thr * inject_Z (now - t))%Q) d ->
  Qlt_bool (fst (frequencyOverWindow d m decay now)) thr = true.
Proof.
  intros Hl Ht HF. apply Qlt_bool_iff. unfold frequencyOverWindow.
  destruct (negb _) eqn:En; [done|]. bools. destruct d as [|t d]; [cbn in *; lia|]. inv HF. cbn [hd].
  destruct (now - t <=? 0) eqn:E; cbn [fst]; [done|]. bools.
  match goal with H : (_ < thr * _)%Q |- _ => rename H into Hq end.
  unfold Qlt, inject_Z in *. cbn in Hq |- *. unfold FREQ_SAMPLES in Hl. cbn [length] in Hl, En.
  rewrite Z2Pos.id by lia. rewrite Pos.mul_1_r in Hq.
  apply Z.le_lt_trans with (48 * sec * QDen thr); [|lia].
  apply Z.mul_le_mono_nonneg_r; [lia|]. unfold sec. lia.
Qed.

(** ** Properties: ingress control *)

(** Ingress control is bounded in every reachable state: the sample
    windows never exceed 48 entries, the held table never exceeds its cap,
    holds one announce per destination and none at 127 hops or more; and while
    a burst is latched the announce window keeps the two samples the unlatch
    condition asks for, so a latch can always be released. *)
Theorem ingress_bounded (c : IcConfig) (s : Ingress)
    (Hc : wf_config c) (Hr : ic_reachable c s) :
  (length (iaFreqDeque s) <= 48)%nat /\ (length (ipFreqDeque s) <= 48)%nat
  /\ (size (heldAnnounces s) <= icMaxHeldAnnounces c)%nat
  /\ NoDup (keys (heldAnnounces s))
  /\ (forall k p, In (k, p) (heldAnnounces s) -> k = toHex (destinationHash p) /\ hops p < 127)
  /\ (icBurstActive s = true -> (2 <= length (iaFreqDeque s))%nat).
Proof.
  destruct (ic_reachable_inv c s Hc Hr) as [Hcfg H1 H2 H3 H4 H5 H6].
  split_and!; auto.
Qed.

(** The burst latch: in any reachable state with a latched burst, a check
    within the hold time keeps it latched; and once the hold time is over and
    the recorded announces are old enough, the next check, whatever the past,
    reports the limit one last time and releases the latch. *)
Theorem burst_latch (c : IcConfig) (s : Ingress) (now : Z)
    (Hc : wf_config c) (Hr : ic_reachable c s) (Hon : ingressControl c = true)
    (Hb : icBurstActive s = true) :
  fst (shouldIngressLimit now s) = true
  /\ (now <= icBurstActivated s + icBurstHold c ->
      icBurstActive (snd (shouldIngressLimit now s)) = true)
  /\ (icBurstActivated s + icBurstHold c < now -> (0 < freqThreshold now s)%Q ->
      Forall (fun t => (inject_Z (48 * sec) < freqThreshold now s * inject_Z (now - t))%Q)
        (iaFreqDeque s) ->
      icBurstActive (snd (shouldIngressLimit now s)) = false).
Proof.
  pose proof (ic_reachable_inv c s Hc Hr) as H.
  pose proof (ic_inv_frequency c s now H) as H'.
  pose proof (frequency_quiet (iaFreqDeque s) IC_DEQUE_MIN_SAMPLE (arFreqDecay (cfg s)) now
    (freqThreshold now s) (inv_ia c s H)) as Hq.
  unfold shouldIngressLimit. rewrite (inv_cfg c s H), Hon. cbn [negb].
  unfold incomingAnnounceFrequency in *. rewrite (inv_cfg c s H) in *.
  destruct (frequencyOverWindow _ _ _ _) as [f d]. cbn [fst snd] in *.
  assert (Hba : icBurstActive (set_ia s d) = true) by done.
  assert (H2 : (2 <= length d)%nat) by (apply (inv_latch c _ H'); done).
  rewrite Hba. change (cfg (set_ia s d)) with (cfg s). rewrite (inv_cfg c s H).
  change (icBurstActivated (set_ia s d)) with (icBurstActivated s).
  change (iaFreqDeque (set_ia s d)) with d.
  split; [by destruct (_ && _)|]. split.
  - intros Hh. rewrite (proj2 (Z.ltb_ge _ _)) by lia. by rewrite andb_false_r.
  - intros Hh Ht HF. rewrite (Hq Ht HF), (proj2 (Z.ltb_lt _ _)) by lia.
    rewrite (proj2 (Nat.leb_le _ _)) by (unfold IC_DEQUE_MIN_SAMPLE; lia). done.
Qed.

(** Held announces leave in order of distance: a release happens only after
    the release time, returns a held announce of minimal hop count, removes
    exactly that destination and spaces the next release by the interval. *)
Theorem held_release_nearest (c : IcConfig) (s s' : Ingress) (now : Z) (p : Packet)
    (Hc : wf_config c) (Hr : ic_reachable c s)
    (Hrel : processHeldAnnounces now s = (Some p, s')) :
  icHeldRelease s < now
  /\ In (toHex (destinationHash p), p) (heldAnnounces s)
  /\ Forall (fun q => hops p <= hops q) (values (heldAnnounces s))
  /\ heldAnnounces s' = mdelete (toHex (destinationHash p)) (heldAnnounces s)
  /\ icHeldRelease s' = now + icHeldReleaseInterval c
  /\ (size (heldAnnounces s') < size (heldAnnounces s))%nat.
Proof.
  pose proof (ic_reachable_inv c s Hc Hr) as [Hcfg H1 H2 H3 H4 H5 H6].
  unfold processHeldAnnounces in Hrel. destruct (_ =? 0)%nat; [done|].
  destruct (now <=? icHeldRelease s) eqn:En; bools; [done|].
  unfold incomingAnnounceFrequency in Hrel.
  destruct (frequencyOverWindow _ _ _ _) as [f d].
  destruct (negb _); [done|]. change (heldAnnounces (set_ia s d)) with (heldAnnounces s) in Hrel.
  pose proof (select_min_spec (values (heldAnnounces s)) 128 None) as Hsel.
  destruct (select_min _ _ _) as [q|]; [|done]. injection Hrel as <- <-.
  destruct Hsel as [[? _]|(Hin & Hlt & HF)]; [done|].
  unfold values in Hin. apply in_map_iff in Hin as ([k q'] & Hq & Hin). cbn in Hq. subst q'.
  destruct (H6 k q Hin) as [-> _]. cbn. rewrite Hcfg. repeat split; auto; try lia.
  unfold size, mdelete. apply length_filter_lt with (toHex (destinationHash q), q).
  - by apply list_elem_of_In.
  - cbn. tauto.
Qed.

(** ** Lemmas and properties: the IFAC hooks *)

Section Hooks.
Context `{C : WebCrypto} `{L : !WebCryptoLaws C}.

(** A usable setup: an enabled interface has a field of 1 to 64 bytes. *)
Definition wf_setup (i : IfacSetup) : Prop :=
  (setupIfacSize i <= 64)%nat /\ (1 <= DEFAULT_IFAC_SIZE i <= 64)%nat.

Lemma material_some i : wf_setup i -> ifacEnabled i = true ->
  exists cfg k, _ensureIfacMaterial i = Some cfg
    /\ ed25519Priv (ifacIdentity cfg) = Some k /\ (1 <= ifacSize cfg <= 64)%nat.
Proof.
  intros [H1 H2] He. unfold _ensureIfacMaterial. rewrite He. cbn [negb].
  unfold deriveIfac.
  assert (Hp : exists x l, (if (length (ifacNetname i) =? 0)%nat then []
      else [fullHash (ifacNetname i)]) ++
      (if (length (ifacNetkey i) =? 0)%nat then [] else [fullHash (ifacNetkey i)]) = x :: l).
  { unfold ifacEnabled in He. destruct (_ =? 0)%nat eqn:E1, (length (ifacNetkey i) =? 0)%nat;
      try done; cbn; eauto. }
  destruct Hp as (x & l & ->). cbn [length Nat.eqb].
  set (key := hkdf _ _ _ _). assert (Hk : length key = 64%nat) by apply hkdf_length.
  clearbody key.
  unfold fromPrivateKey. rewrite Hk. cbn [Nat.eqb negb].
  assert (Ha : import32 (slice 0 32 key) = Some (slice 0 32 key)).
  { unfold import32. rewrite length_slice, Hk. done. }
  assert (Hb : import32 (slice 32 64 key) = Some (slice 32 64 key)).
  { unfold import32. rewrite length_slice, Hk. done. }
  rewrite Ha, Hb. cbn [mbind option_bind]. unfold sign. cbn [ed25519Priv].
  rewrite ed25519_sign_length. cbn [Nat.eqb negb].
  eexists. exists (slice 32 64 key). split; [reflexivity|]. split; [reflexivity|]. cbn [ifacSize].
  destruct (setupIfacSize i =? 0)%nat eqn:E; bools; cbn [orb]; [lia|].
  unfold IFAC_MIN_SIZE. rewrite (proj2 (Z.ltb_ge _ _)) by lia. lia.
Qed.

(** The interface hooks satisfy the framers' contract, with IFAC enabled
    or not, so the stream theorems hold end to end; and traffic does not cross
    between a plain and an authenticated interface: a sealed frame is dropped
    by a plain one and an unsealed frame by an authenticated one. *)
Theorem ifac_hooks (i : IfacSetup) (Hi : wf_setup i) :
  hooks_paired (Some (_sealRaw i)) (Some (_openRaw i))
  /\ (forall j raw, ifacEnabled i = true -> ifacEnabled j = false ->
        wf_bytes raw -> (2 < length raw)%nat -> byte_at 0 raw < 128 ->
        (exists w, _sealRaw i raw = Ok w /\ _openRaw j w = Ok None)
        /\ _openRaw i raw = Ok None).
Proof.
  assert (Hflag : forall raw, wf_bytes raw -> byte_at 0 raw < 128 -> hasIfacFlag raw = false).
  { intros raw Hw Hb. unfold hasIfacFlag. destruct raw as [|b raw]; [done|]. inv Hw.
    cbn [byte_at nth] in *. unfold is_byte in *.
    assert (Z.land b 128 = 0) as ->; [|by rewrite andb_false_r].
    rewrite <- (Z.mod_small b (2 ^ 7)) by lia.
    rewrite <- Z.land_ones, <- Z.land_assoc by lia. apply Z.land_0_r. }
  assert (Hseal : forall cfg k raw, ed25519Priv (ifacIdentity cfg) = Some k ->
    (1 <= ifacSize cfg <= 64)%nat -> wf_bytes raw -> (2 < length raw)%nat -> byte_at 0 raw < 128 ->
    exists w, seal raw cfg = Ok w /\ hasIfacFlag w = true /\ open w cfg = Ok (Some raw)
      /\ (2 + ifacSize cfg < length w)%nat).
  { intros cfg k raw Hk Hn Hw Hl Hb. destruct raw as [|b0 [|b1 rest]]; [cbn in Hl; lia..|].
    pose proof (seal_eq cfg k b0 b1 rest Hk ltac:(lia)) as Hs. cbv zeta in Hs.
    match type of Hs with _ = Ok ?w => set (w' := w) in Hs; exists w' end.
    destruct (open_seal cfg k w' (b0 :: b1 :: rest) Hk Hn) as (_ & H1 & H2); [by repeat split|].
    repeat split; auto. unfold w'. cbn [length].
    rewrite length_app, length_mask_loop, length_ifac_of by lia. cbn [length] in Hl. lia. }
  split.
  - intros raw Hw Hl Hb. unfold _sealRaw, _openRaw, openRaw_checked.
    destruct (ifacEnabled i) eqn:He; cbn [negb].
    + destruct (material_some i Hi He) as (cfg & k & -> & Hk & Hn).
      destruct (Hseal cfg k raw Hk Hn Hw Hl Hb) as (w & -> & Hf & Ho & Hlw).
      exists w. split; [done|]. split; [by intros ->|].
      rewrite (proj2 (Nat.leb_gt _ _)) by lia. rewrite Hf. cbn [negb].
      rewrite (proj2 (Nat.leb_gt _ _)) by lia. by rewrite Ho.
    + exists raw. split; [done|]. split; [intros ->; cbn in Hl; lia|].
      rewrite (proj2 (Nat.leb_gt _ _)) by lia. by rewrite Hflag.
  - intros j raw He Hj Hw Hl Hb. unfold _sealRaw, _openRaw, openRaw_checked.
    rewrite He, Hj. cbn [negb]. destruct (material_some i Hi He) as (cfg & k & -> & Hk & Hn).
    destruct (Hseal cfg k raw Hk Hn Hw Hl Hb) as (w & -> & Hf & Ho & Hlw). split.
    + exists w. split; [done|]. rewrite (proj2 (Nat.leb_gt _ _)) by lia. by rewrite Hf.
    + rewrite (proj2 (Nat.leb_gt _ _)) by lia. by rewrite Hflag.
Qed.
End Hooks.

(** ** Properties: reconnection *)

Lemma reconnect_while_spec m rounds c : _reconnectAttempts c <= m -> _closed c = false ->
  exists k tail, snd (reconnect_while (Some m) rounds c)
      = map Reconnecting (seqZ (_reconnectAttempts c + 1) k) ++ tail
    /\ 0 <= k /\ _reconnectAttempts c + k <= m
    /\ (tail = [] \/ tail = [Closed] /\ _reconnectAttempts c + k = m
        /\ online (fst (reconnect_while (Some m) rounds c)) = false).
Proof.
  revert c. induction rounds as [|r rounds IH]; intros c Ha Hc; cbn [reconnect_while];
    destruct (detached c); try (exists 0, []; cbn; repeat split; auto; lia); cbn [set_attempts
      _reconnectAttempts];
    destruct (m <? _reconnectAttempts c + 1) eqn:E; bools.
  1, 3: exists 0, [Closed]; unfold _dispatchClosed; cbn [_closed set_attempts]; rewrite Hc; cbn;
    repeat split; try lia; right; repeat split; lia.
  - exists 1, []. cbn. rewrite ?Z.add_0_r. repeat split; auto; lia.
  - destruct (detach_in_wait r).
    + cbn. exists 1, []. cbn. rewrite ?Z.add_0_r. repeat split; auto; lia.
    + change (detached (set_attempts c (_reconnectAttempts c + 1))) with (detached c).
      destruct (detached c).
      * exists 1, []. cbn. rewrite ?Z.add_0_r. repeat split; auto; lia.
      * destruct (dial_ok r).
        -- exists 1, []. cbn. rewrite ?Z.add_0_r. repeat split; auto; lia.
        -- destruct (IH (set_attempts c (_reconnectAttempts c + 1))) as
             (k & tail & H1 & H2 & H3 & H4); [cbn; lia | done |].
           cbn [set_attempts _reconnectAttempts] in *.
           destruct (reconnect_while _ _ _) as [c'' evs]. cbn [fst snd] in *.
           exists (k + 1), tail. rewrite Z.add_1_r, seqZ_cons by lia. cbn [map app].
           rewrite H1. split; [|split; [|split]]; try lia.
           ++ do 3 f_equal. f_equal; lia.
           ++ destruct H4 as [->|(-> & H4 & H5)]; [by left | right; repeat split; [lia|done]].
Qed.

(** The reconnect loop is bounded and reports truthfully: whatever the
    environment does, the attempts are announced with consecutive numbers from
    1, never more than [maxReconnectTries]; a terminal [closed] event comes at
    most once, last, only after all tries were used, and leaves the interface
    offline; and a second loop never starts while one is running. *)
Theorem reconnect_bounded (m : Z) (rounds : list round) (c : Conn)
    (Hm : 0 <= m) (Hn : _reconnecting c = false) :
  (exists k tail, snd (_runReconnectLoop (Some m) rounds c) = map Reconnecting (seqZ 1 k) ++ tail
    /\ 0 <= k <= m
    /\ (tail = [] \/ tail = [Closed] /\ k = m
        /\ online (fst (_runReconnectLoop (Some m) rounds c)) = false))
  /\ forall c' mx rs, _reconnecting c' = true -> _runReconnectLoop mx rs c' = (c', []).
Proof.
  split.
  - unfold _runReconnectLoop. rewrite Hn.
    destruct (reconnect_while_spec m rounds (mkConn (online c) (initiator c) (autoReconnect c)
      (detached c) true 0 false)) as (k & tail & H1 & H2 & H3 & H4); [done..|].
    cbn [_reconnectAttempts] in *. exists k, tail. rewrite H1. repeat split; try lia.
    destruct H4 as [->|(-> & H4 & H5)]; [by left | right; repeat split; [lia|done]].
  - intros c' mx rs Hr. unfold _runReconnectLoop. by rewrite Hr.
Qed.

(** ** Witnesses *)

Lemma default_config_wf : wf_config default_config.
Proof. split; discriminate. Qed.

Fixpoint announces (n : nat) (t : Z) (s : Ingress) : Ingress :=
  match n with O => s | S n => announces n (t + 1000) (ic_step OpAnnounce t s) end.

Lemma announces_reachable c n t s : ic_reachable c s -> ic_reachable c (announces n t s).
Proof. revert t s. induction n; intros; cbn [announces]; auto using ic_next. Qed.

(** Sixty announces a millisecond apart latch the burst of a new interface. *)
Definition flooded : Ingress :=
  ic_step OpLimit 61000 (announces 60 0 (new_Ingress 0 default_config)).

Lemma flooded_reachable : ic_reachable default_config flooded.
Proof. apply ic_next, announces_reachable, ic_init. Qed.

Lemma ingress_bounded_witness :
  icBurstActive flooded = true /\ (2 <= length (iaFreqDeque flooded) <= 48)%nat.
Proof.
  destruct (ingress_bounded default_config flooded default_config_wf flooded_reachable)
    as (H1 & _ & _ & _ & _ & H6).
  split; [reflexivity|]. split; [apply H6; reflexivity | exact H1].
Defined.

Lemma Forall_Qlt_bool (f g : Z -> Q) l :
  forallb (fun t => Qlt_bool (f t) (g t)) l = true -> Forall (fun t => (f t < g t)%Q) l.
Proof.
  intros H. apply Forall_forall. intros t Ht. rewrite forallb_forall in H.
  apply Qlt_bool_iff, H. by apply list_elem_of_In.
Qed.

Lemma burst_latch_witness :
  icBurstActive (snd (shouldIngressLimit (10 * sec) flooded)) = true
  /\ icBurstActive (snd (shouldIngressLimit (40 * sec) flooded)) = false.
Proof.
  split.
  - apply (burst_latch default_config flooded (10 * sec) default_config_wf flooded_reachable
      eq_refl eq_refl). vm_compute. discriminate.
  - apply (burst_latch default_config flooded (40 * sec) default_config_wf flooded_reachable
      eq_refl eq_refl); [vm_compute; reflexivity | vm_compute; reflexivity |].
    apply (Forall_Qlt_bool (fun _ => inject_Z (48 * sec))). vm_compute. reflexivity.
Defined.

Lemma held_release_nearest_witness :
  match processHeldAnnounces 1 (ic_step (OpHold example_packet) 0 (new_Ingress 0 default_config)) with
  | (Some p, s') => p = example_packet /\ icHeldRelease s' = 1 + 5 * sec
  | (None, _) => False
  end.
Proof.
  destruct (processHeldAnnounces _ _) as [[p|] s'] eqn:E; [|vm_compute in E; discriminate].
  destruct (held_release_nearest default_config _ s' 1 p default_config_wf
    (ic_next default_config _ _ _ (ic_init default_config 0)) E) as (_ & _ & _ & _ & H & _).
  split; [|exact H]. vm_compute in E. injection E as <- _. reflexivity.
Defined.

Import Toy.

Lemma ifac_hooks_witness :
  hooks_paired (Some (_sealRaw (mkIfacSetup [97] [] 8 16))) (Some (_openRaw (mkIfacSetup [97] [] 8 16))).
Proof. apply (ifac_hooks (mkIfacSetup [97] [] 8 16)). split; cbn; lia. Defined.

Lemma reconnect_bounded_witness :
  snd (_runReconnectLoop (Some 2) [mkRound false false; mkRound false false; mkRound false true]
         (mkConn false true true false false 0 false))
  = [Reconnecting 1; Reconnecting 2; Closed].
Proof.
  destruct (reconnect_bounded 2 [mkRound false false; mkRound false false; mkRound false true]
    (mkConn false true true false false 0 false) ltac:(lia) eq_refl) as [(k & tail & _ & _) _].
  reflexivity.
Defined.
