(* ===== verification/Channel.v ===== *)
(** * Channel: reliable, ordered messages over a link

    Models src/packages/core/src/transport/channel.js: the wire forms
    ([StreamDataMessage], [Envelope]), the receiving half of [Channel] (sequence
    check, receive ring, draining, handlers), its sending half (window,
    retries, shutdown) and [LinkChannelOutlet], the outlet whose packet objects
    the channel's envelopes point to: they are a heap of records, addressed by
    the order of their creation.  A round-trip time is in microseconds, a
    timeout an exact rational number of seconds. *)

From Stdlib Require Import QArith Qminmax.
From S2P Require Import Prelude Encoding JsMap.

#[local] Open Scope Z_scope.

(** ** Wire forms *)

Definition ENVELOPE_HEADER_SIZE : nat := 6.

(** [DataView.getUint16(offset, false)]. *)
Definition getUint16 (offset : nat) (raw : bytes) : result Z :=
  if (offset + 2 <=? length raw)%nat then Ok (be_uint (slice offset (offset + 2) raw))
  else Throw (RangeError "Offset is outside the bounds of the DataView").

Module StreamDataMessage.

Definition HEADER_SIZE : nat := 2.

Record t := mk { streamId : Z; data : bytes; eof : bool; compressed : bool }.

Definition pack (m : t) : bytes :=
  let header := js_or (js_or (js_and (streamId m) 0x3fff) (if eof m then 0x8000 else 0))
                      (if compressed m then 0x4000 else 0) in
  be_bytes 2 header ++ data m.

Definition unpack (raw : bytes) : result t :=
  let! header := getUint16 0 raw in
  Ok (mk (js_and header 0x3fff) (slice_from HEADER_SIZE raw)
         (negb (js_and header 0x8000 =? 0)) (negb (js_and header 0x4000 =? 0))).

End StreamDataMessage.

(** What the channel asks of an application's messages: [MSGTYPE] of the class
    ([None] for null) and [pack()]. *)
Class MessageApi (M : Type) := {
  msgtype_of : M -> option Z;
  packBody : M -> result bytes;
}.

(** A registered class: the checks of [registerMessageType] and [unpack]. *)
Record MessageClass (M : Type) := mkClass {
  isMessageBase : bool;
  MSGTYPE : option Z;
  constructible : bool;
  unpackBody : bytes -> result M;
}.
Arguments mkClass {M}.
Arguments isMessageBase {M}.
Arguments MSGTYPE {M}.
Arguments constructible {M}.
Arguments unpackBody {M}.

(** ** The channel *)

Definition WINDOW : Z := 2.
Definition WINDOW_MIN : Z := 2.
Definition WINDOW_MIN_LIMIT_MEDIUM : Z := 5.
Definition WINDOW_MIN_LIMIT_FAST : Z := 16.
Definition WINDOW_MAX_SLOW : Z := 5.
Definition WINDOW_MAX_MEDIUM : Z := 12.
Definition WINDOW_MAX_FAST : Z := 48.
Definition WINDOW_MAX : Z := WINDOW_MAX_FAST.
Definition FAST_RATE_THRESHOLD : Z := 10.
Definition RTT_FAST : Z := 180000.
Definition RTT_MEDIUM : Z := 750000.
Definition RTT_SLOW : Z := 1450000.
Definition WINDOW_FLEXIBILITY : Z := 4.
Definition SEQ_MAX : Z := 0xffff.
Definition SEQ_MODULUS : Z := 0x10000.
Definition maxTries : nat := 5.

Section Channel.
Context {M : Type} `{MessageApi M}.

(** [packet] addresses the outlet's heap. *)
Record Envelope := mkEnvelope {
  message : option M;
  raw : option bytes;
  packet : option nat;
  sequence : Z;
  tries : nat;
}.

(** A handler: its identity, and what a call does ([None]: it throws). *)
Record Handler := mkHandler { hid : nat; call : M -> option bool }.

Record Window := mkWindow {
  window : Z;
  windowMin : Z;
  windowMax : Z;
  windowFlexibility : Z;
  fastRateRounds : Z;
  mediumRateRounds : Z;
}.

Record Channel := mkChannel {
  txRing : list Envelope;
  rxRing : list Envelope;
  messageCallbacks : list Handler;
  nextSequence : Z;
  nextRxSequence : Z;
  messageFactories : gmap Z (MessageClass M);
  win : Window;
  shutDown : bool;
}.

Inductive event :=
| Handled (h : nat) (m : M)            (* a handler was called with a message *)
| Transmitted (sequence : Z) (raw : bytes)  (* the link accepted the envelope *)
| Retransmitted (op : nat)             (* the same packet was sent again *)
| LinkTeardown.                        (* outlet.timedOut() *)

Definition new_Channel (rtt : Z) : Channel :=
  mkChannel [] [] [] 0 0 ∅
    (if rtt >? RTT_SLOW then mkWindow 1 1 1 1 0 0
     else mkWindow WINDOW WINDOW_MIN WINDOW_MAX_SLOW WINDOW_FLEXIBILITY 0 0)
    false.

Definition set_rx (c : Channel) (ring : list Envelope) (next : Z) : Channel :=
  mkChannel (txRing c) ring (messageCallbacks c) (nextSequence c) next
    (messageFactories c) (win c) (shutDown c).
Definition set_tx (c : Channel) (ring : list Envelope) : Channel :=
  mkChannel ring (rxRing c) (messageCallbacks c) (nextSequence c) (nextRxSequence c)
    (messageFactories c) (win c) (shutDown c).
Definition set_nextSequence (c : Channel) (n : Z) : Channel :=
  mkChannel (txRing c) (rxRing c) (messageCallbacks c) n (nextRxSequence c)
    (messageFactories c) (win c) (shutDown c).
Definition set_callbacks (c : Channel) (cbs : list Handler) : Channel :=
  mkChannel (txRing c) (rxRing c) cbs (nextSequence c) (nextRxSequence c)
    (messageFactories c) (win c) (shutDown c).
Definition set_factories (c : Channel) (f : gmap Z (MessageClass M)) : Channel :=
  mkChannel (txRing c) (rxRing c) (messageCallbacks c) (nextSequence c) (nextRxSequence c)
    f (win c) (shutDown c).
Definition set_win (c : Channel) (w : Window) : Channel :=
  mkChannel (txRing c) (rxRing c) (messageCallbacks c) (nextSequence c) (nextRxSequence c)
    (messageFactories c) w (shutDown c).

(** *** Envelopes *)

Definition Envelope_unpack (factories : gmap Z (MessageClass M)) (e : Envelope) : result Envelope :=
  let raw := default [] (raw e) in
  let! msgtype := getUint16 0 raw in
  let! seqn := getUint16 2 raw in
  let body := slice_from ENVELOPE_HEADER_SIZE raw in
  match factories !! msgtype with
  | None => Throw (JsError "Unable to find constructor for Channel MSGTYPE")
  | Some ctor =>
      let! m := unpackBody ctor body in
      Ok (mkEnvelope (Some m) (Some raw) (packet e) seqn (tries e))
  end.

Definition Envelope_pack (seqn : Z) (m : M) : result bytes :=
  match msgtype_of m with
  | None => Throw (JsError "lacks MSGTYPE")
  | Some t =>
      let! data := packBody m in
      Ok (be_bytes 2 t ++ be_bytes 2 seqn ++ be_bytes 2 (zlen data) ++ data)
  end.

(** *** Registration and handlers *)

Definition _registerMessageType (cls : MessageClass M) (isSystemType : bool) (c : Channel)
    : result Channel :=
  if negb (isMessageBase cls) then Throw (JsError "is not a subclass of MessageBase.")
  else match MSGTYPE cls with
  | None => Throw (JsError "has invalid MSGTYPE class attribute.")
  | Some t =>
      if (t >=? 0xf000) && negb isSystemType then
        Throw (JsError "has system-reserved message type.")
      else if negb (constructible cls) then
        Throw (JsError "raised when constructed with no arguments")
      else Ok (set_factories c (<[t := cls]> (messageFactories c)))
  end.

Definition registerMessageType (cls : MessageClass M) (c : Channel) := _registerMessageType cls false c.
Definition _registerSystemMessageType (cls : MessageClass M) (c : Channel) := _registerMessageType cls true c.

Definition addMessageHandler (h : Handler) (c : Channel) : Channel :=
  if existsb (fun h' => (hid h' =? hid h)%nat) (messageCallbacks c) then c
  else set_callbacks c (messageCallbacks c ++ [h]).

Definition removeMessageHandler (h : Handler) (c : Channel) : Channel :=
  match list_find (fun h' => hid h' = hid h) (messageCallbacks c) with
  | Some (idx, _) => set_callbacks c (delete idx (messageCallbacks c))
  | None => c
  end.

(** Handlers run in insertion order until one returns [true]; one that throws
    is logged and skipped. *)
Fixpoint run_handlers (cbs : list Handler) (m : M) : list event :=
  match cbs with
  | [] => []
  | h :: cbs =>
      Handled (hid h) m :: match call h m with
                           | Some true => []
                           | _ => run_handlers cbs m
                           end
  end.

Definition _runCallbacks (c : Channel) (m : M) : list event := run_handlers (messageCallbacks c) m.

(** *** Receiving *)

(** [None]: a duplicate.  [SEQ_MAX / 2] is not an integer, so the comparison
    is doubled. *)
Fixpoint emplace (next : Z) (e : Envelope) (ring : list Envelope) : option (list Envelope) :=
  match ring with
  | [] => Some [e]
  | existing :: rest =>
      if sequence e =? sequence existing then None
      else if (sequence e <? sequence existing) && negb (2 * (next - sequence e) >? SEQ_MAX)
      then Some (e :: existing :: rest)
      else option_map (cons existing) (emplace next e rest)
  end.

Definition _emplaceEnvelope (c : Channel) (e : Envelope) (ring : list Envelope)
    : option (list Envelope) := emplace (nextRxSequence c) e ring.

(** The range check: [false] is the "Invalid packet sequence" return. *)
Definition sequence_ok (next seqn : Z) : bool :=
  if seqn <? next then
    let windowOverflow := (next + WINDOW_MAX) mod SEQ_MODULUS in
    if windowOverflow <? next then negb (seqn >? windowOverflow) else false
  else true.

(** The loop that takes contiguous envelopes out of the ring; each round
    removes one, so the length of the ring is enough fuel. *)
Fixpoint drain (fuel : nat) (ring : list Envelope) (next : Z)
    : list Envelope * list Envelope * Z :=
  match fuel with
  | O => ([], ring, next)
  | S fuel =>
      match list_find (fun e => sequence e = next) ring with
      | None => ([], ring, next)
      | Some (idx, e) =>
          let '(contiguous, ring', next') :=
            drain fuel (delete idx ring) ((next + 1) mod SEQ_MODULUS) in
          (e :: contiguous, ring', next')
      end
  end.

(** Everything that can throw is inside a [try] whose handler only logs. *)
Definition _receive (raw : bytes) (c : Channel) : Channel * list event :=
  match Envelope_unpack (messageFactories c) (mkEnvelope None (Some raw) None 0 0) with
  | Throw _ => (c, [])
  | Ok envelope =>
      if negb (sequence_ok (nextRxSequence c) (sequence envelope)) then (c, [])
      else match _emplaceEnvelope c envelope (rxRing c) with
      | None => (c, [])
      | Some ring =>
          let '(contiguous, ring', next') := drain (length ring) ring (nextRxSequence c) in
          let c' := set_rx c ring' next' in
          (c', flat_map (fun e => match message e with
                                  | Some m => _runCallbacks c' m
                                  | None => []
                                  end) contiguous)
      end
  end.

Fixpoint receive_all (raws : list bytes) (c : Channel) : Channel * list event :=
  match raws with
  | [] => (c, [])
  | r :: raws =>
      let '(c', evs) := _receive r c in
      let '(c'', evs') := receive_all raws c' in
      (c'', evs ++ evs')
  end.

(** *** The outlet *)

(** Callbacks are the channel's own two, or null. *)
Record LinkOutletPacket := mkOp {
  hashHex : jsstr;
  op_raw : bytes;
  delivered : bool;
  timeout : option Q;
  timeoutCallback : bool;
  deliveredCallback : bool;
  timeoutTimer : bool;
}.

Record Outlet := mkOutlet {
  ops : list LinkOutletPacket;
  _sent : jsmap nat;
  _earlyDelivered : list jsstr;
  listening : bool;
}.

Definition new_Outlet : Outlet := mkOutlet [] [] [] true.

Definition update_op (k : nat) (f : LinkOutletPacket -> LinkOutletPacket) (o : Outlet) : Outlet :=
  mkOutlet (alter f k (ops o)) (_sent o) (_earlyDelivered o) (listening o).

Definition is_delivered (k : nat) (o : Outlet) : bool :=
  match ops o !! k with Some op => delivered op | None => false end.

Definition getPacketId (k : nat) (o : Outlet) : option jsstr := hashHex <$> ops o !! k.

Definition set_timer (b : bool) (op : LinkOutletPacket) :=
  mkOp (hashHex op) (op_raw op) (delivered op) (timeout op) (timeoutCallback op)
       (deliveredCallback op) b.
Definition set_timeoutCb (b : bool) (op : LinkOutletPacket) :=
  mkOp (hashHex op) (op_raw op) (delivered op) (timeout op) b (deliveredCallback op)
       (timeoutTimer op).
Definition set_deliveredCb (b : bool) (op : LinkOutletPacket) :=
  mkOp (hashHex op) (op_raw op) (delivered op) (timeout op) (timeoutCallback op) b
       (timeoutTimer op).
Definition set_delivered (op : LinkOutletPacket) :=
  mkOp (hashHex op) (op_raw op) true (timeout op) (timeoutCallback op) (deliveredCallback op)
       (timeoutTimer op).
Definition set_timeout (q : Q) (op : LinkOutletPacket) :=
  mkOp (hashHex op) (op_raw op) (delivered op) (Some q) (timeoutCallback op)
       (deliveredCallback op) true.

Definition arm (callback : bool) (timeoutSeconds : option Q) (op : LinkOutletPacket)
    : LinkOutletPacket :=
  let op := set_timer false op in
  if negb callback then set_timeoutCb false op
  else if delivered op then set_timeoutCb true op
  else match timeoutSeconds with
       | Some q => set_timeout q (set_timeoutCb true op)
       | None => set_timeoutCb true op
       end.

Definition setPacketTimeoutCallback (k : nat) (callback : bool) (timeoutSeconds : option Q) :=
  update_op k (arm callback timeoutSeconds).

Definition setPacketDeliveredCallback (k : nat) (callback : bool) :=
  update_op k (set_deliveredCb callback).

Definition Qltb (a b : Q) : bool := negb (Qle_bool b a).

Definition extendTimeout (k : nat) (timeoutSeconds : Q) : Outlet -> Outlet :=
  update_op k (fun op =>
    if delivered op then op
    else match timeout op with
    | None => op
    | Some t => if Qltb t timeoutSeconds
                then arm (timeoutCallback op) (Some timeoutSeconds) op else op
    end).

(** [send] once [link.send] has produced the packet with this hash. *)
Definition register_op (h : jsstr) (raw : bytes) (o : Outlet) : nat * Outlet :=
  let early := existsb (fun x => bool_decide (x = h)) (_earlyDelivered o) in
  let op := mkOp h raw early None false false false in
  (length (ops o),
   mkOutlet (ops o ++ [op]) (mset h (length (ops o)) (_sent o))
     (if early then filter (fun x => x <> h) (_earlyDelivered o) else _earlyDelivered o)
     (listening o)).

Definition _cleanup (o : Outlet) : Outlet :=
  let o1 := foldr (fun k => update_op k (set_timer false)) o (values (_sent o)) in
  mkOutlet (ops o1) [] [] false.

(** *** Sending *)

(** [pending] is the envelope of the send that awaits [link.send]; the promise
    chain allows one at a time. *)
Record State := mkState { ch : Channel; out : Outlet; pending : option (Envelope * bytes) }.

Definition clear_packet (e : Envelope) (o : Outlet) : Outlet :=
  match packet e with
  | Some k => setPacketDeliveredCallback k false (setPacketTimeoutCallback k false None o)
  | None => o
  end.

Definition _shutdown (s : State) : State :=
  let c := ch s in
  if shutDown c then s
  else mkState (mkChannel [] [] [] (nextSequence c) (nextRxSequence c) (messageFactories c)
                  (win c) true)
               (_cleanup (foldl (fun o e => clear_packet e o) (out s) (txRing c)))
               (pending s).

Definition outstanding (s : State) : Z :=
  zlen (filter (fun e => match packet e with
                         | Some k => is_delivered k (out s)
                         | None => false
                         end = false) (txRing (ch s))).

Definition isReadyToSend (s : State) : bool := outstanding s <? window (win (ch s)).

Definition grow (rtt : Z) (w : Window) : Window :=
  let win' := if window w <? windowMax w then window w + 1 else window w in
  let keep := fun f m => mkWindow win' (windowMin w) (windowMax w) (windowFlexibility w) f m in
  if rtt =? 0 then keep (fastRateRounds w) (mediumRateRounds w)
  else if rtt >? RTT_FAST then
    if rtt >? RTT_MEDIUM then keep 0 0
    else if (windowMax w <? WINDOW_MAX_MEDIUM) && (mediumRateRounds w + 1 =? FAST_RATE_THRESHOLD)
    then mkWindow win' WINDOW_MIN_LIMIT_MEDIUM WINDOW_MAX_MEDIUM (windowFlexibility w) 0
           (mediumRateRounds w + 1)
    else keep 0 (mediumRateRounds w + 1)
  else if (windowMax w <? WINDOW_MAX_FAST) && (fastRateRounds w + 1 =? FAST_RATE_THRESHOLD)
  then mkWindow win' WINDOW_MIN_LIMIT_FAST WINDOW_MAX_FAST (windowFlexibility w)
         (fastRateRounds w + 1) (mediumRateRounds w)
  else keep (fastRateRounds w + 1) (mediumRateRounds w).

Definition shrink (w : Window) : Window :=
  if window w >? windowMin w then
    mkWindow (window w - 1) (windowMin w)
      (if windowMax w >? windowMin w + windowFlexibility w then windowMax w - 1 else windowMax w)
      (windowFlexibility w) (fastRateRounds w) (mediumRateRounds w)
  else w.

Definition find_tx (k : nat) (s : State) : option (nat * Envelope) :=
  list_find (fun e => match packet e with
                      | Some j => bool_decide (getPacketId j (out s) = getPacketId k (out s))
                      | None => false
                      end = true) (txRing (ch s)).

(** *** Delivery, timeouts and sends *)

Definition _packetTxOp (rtt : Z) (k : nat) (s : State) : State :=
  match find_tx k s with
  | Some (idx, _) =>
      let c := set_tx (ch s) (delete idx (txRing (ch s))) in
      mkState (set_win c (grow rtt (win c))) (out s) (pending s)
  | None => s
  end.

Definition _packetDelivered (rtt : Z) (k : nat) (s : State) : State := _packetTxOp rtt k s.

Definition _getPacketTimeoutTime (rtt : Z) (ringLength : nat) (tries : nat) : Q :=
  ((3 # 2) ^ (Z.of_nat tries - 1)
   * Qmax ((rtt # 1000000) * (5 # 2)) (25 # 1000)
   * (inject_Z (Z.of_nat ringLength) + (3 # 2)))%Q.

Definition _updatePacketTimeouts (rtt : Z) (s : State) : State :=
  let ring := txRing (ch s) in
  mkState (ch s)
    (foldl (fun o e => match packet e with
                       | Some k => extendTimeout k (_getPacketTimeoutTime rtt (length ring) (tries e)) o
                       | None => o
                       end) (out s) ring)
    (pending s).

(** Arm the callbacks of a packet just sent or resent; a proof that came
    before is handled at once. *)
Definition arm_packet (rtt : Z) (k : nat) (n : nat) (s : State) : State :=
  let o := setPacketDeliveredCallback k true (out s) in
  let o := setPacketTimeoutCallback k true
             (Some (_getPacketTimeoutTime rtt (length (txRing (ch s))) n)) o in
  let s := _updatePacketTimeouts rtt (mkState (ch s) o (pending s)) in
  if is_delivered k (out s) then _packetDelivered rtt k s else s.

Definition _packetTimeout (rtt : Z) (k : nat) (s : State) : State * list event :=
  if is_delivered k (out s) then (s, [])
  else match find_tx k s with
  | None => (s, [])
  | Some (idx, e) =>
      if (maxTries <=? tries e)%nat then (_shutdown s, [LinkTeardown])
      else
        let e' := mkEnvelope (message e) (raw e) (packet e) (sequence e) (S (tries e)) in
        let c := set_tx (ch s) (<[idx := e']> (txRing (ch s))) in
        let s := mkState (set_win c (shrink (win c))) (out s) (pending s) in
        let j := default k (packet e) in
        (arm_packet rtt j (tries e') s, [Retransmitted j])
  end.

(** The part of [_sendImpl] before its [await]: checks, packing and the
    reserved sequence number. *)
Definition send_begin (mdu : Z) (m : M) (s : State) : result State :=
  if shutDown (ch s) || negb (isReadyToSend s) then Throw (JsError "Link is not ready")
  else
    let reserved := nextSequence (ch s) in
    let! packed := Envelope_pack reserved m in
    if zlen packed >? mdu then Throw (JsError "Packed message too big for packet")
    else Ok (mkState (set_nextSequence (ch s) ((reserved + 1) mod SEQ_MODULUS)) (out s)
               (Some (mkEnvelope (Some m) (Some packed) None reserved 0, packed))).

(** ... when [outlet.send] rejects ... *)
Definition send_failed (s : State) : State :=
  match pending s with
  | Some (e, _) => mkState (set_nextSequence (ch s) (sequence e)) (out s) None
  | None => s
  end.

(** ... and when it resolves, with the hash of the packet that carries it. *)
Definition send_done (rtt : Z) (h : jsstr) (s : State) : State * list event :=
  match pending s with
  | Some (e, packed) =>
      let '(k, o) := register_op h packed (out s) in
      let e' := mkEnvelope (message e) (raw e) (Some k) (sequence e) (S (tries e)) in
      let ring := default (txRing (ch s)) (_emplaceEnvelope (ch s) e' (txRing (ch s))) in
      (arm_packet rtt k (tries e') (mkState (set_tx (ch s) ring) o None),
       [Transmitted (sequence e) packed])
  | None => (s, [])
  end.

(** A validated proof of a link packet. *)
Definition _markDelivered (rtt : Z) (h : jsstr) (s : State) : State :=
  let o := out s in
  if negb (listening o) then s
  else match get h (_sent o) with
  | None =>
      mkState (ch s) (mkOutlet (ops o) (_sent o)
        (if existsb (fun x => bool_decide (x = h)) (_earlyDelivered o) then _earlyDelivered o
         else _earlyDelivered o ++ [h]) (listening o)) (pending s)
  | Some k =>
      if is_delivered k o then s
      else
        let o1 := update_op k (fun op => set_timer false (set_delivered op)) o in
        let o2 := mkOutlet (ops o1) (mdelete h (_sent o1)) (_earlyDelivered o1) (listening o1) in
        let s' := mkState (ch s) o2 (pending s) in
        match ops o !! k with
        | Some op => if deliveredCallback op then _packetDelivered rtt k s' else s'
        | None => s'
        end
  end.

(** The armed timer of a packet fires. *)
Definition timer_fires (rtt : Z) (k : nat) (s : State) : State * list event :=
  match ops (out s) !! k with
  | Some op =>
      if negb (timeoutTimer op) then (s, [])
      else
        let s' := mkState (ch s) (update_op k (set_timer false) (out s)) (pending s) in
        if delivered op then (s', [])
        else if timeoutCallback op then _packetTimeout rtt k s' else (s', [])
  | None => (s, [])
  end.

(** *** The event loop: one macrotask or continuation at a time *)
Inductive input :=
| Send (m : M)
| LinkSent (h : jsstr)
| LinkRefused
| Proof (h : jsstr)
| TimerFires (k : nat)
| Arrives (raw : bytes)
| Shutdown.

Definition step (rtt mdu : Z) (i : input) (s : State) : State * list event :=
  match i with
  | Send m => match pending s with
              | Some _ => (s, [])     (* waits in the promise chain *)
              | None => match send_begin mdu m s with Ok s' => (s', []) | Throw _ => (s, []) end
              end
  | LinkSent h => send_done rtt h s
  | LinkRefused => (send_failed s, [])
  | Proof h => (_markDelivered rtt h s, [])
  | TimerFires k => timer_fires rtt k s
  | Arrives raw => let '(c, evs) := _receive raw (ch s) in (mkState c (out s) (pending s), evs)
  | Shutdown => (_shutdown s, [])
  end.

(** Packet hashes are fresh: the link encrypts every packet under a random
    initialisation vector. *)
Definition input_ok (s : State) (i : input) : Prop :=
  match i with LinkSent h => h ∉ map hashHex (ops (out s)) | _ => True end.

(** The round-trip time and the MDU may differ from step to step. *)
Inductive reachable : list event -> State -> Prop :=
| reachable_new rtt : reachable [] (mkState (new_Channel rtt) new_Outlet None)
| reachable_step evs s rtt mdu i :
    reachable evs s -> input_ok s i ->
    reachable (evs ++ snd (step rtt mdu i s)) (fst (step rtt mdu i s)).

End Channel.
