(* ===== verification/ChannelSpec.v ===== *)
(** * Channel: proofs

    The receiving half delivers in order and exactly once within an epoch of
    the sequence numbers, and across a wrap for a network that does not
    duplicate; what goes wrong outside these conditions; the window, retry and
    numbering invariants of the sending half. *)

From stdpp Require Import sorting.
From S2P Require Import Prelude Encoding JsMap Channel.

#[local] Open Scope Z_scope.

(** ** Wire forms *)

Lemma getUint16_be k pre v rest : length pre = k ->
  getUint16 k (pre ++ be_bytes 2 v ++ rest) = Ok (v mod 65536).
Proof.
  intros Hk. unfold getUint16. rewrite !length_app, length_be_bytes, Hk.
  rewrite (proj2 (Nat.leb_le _ _)) by lia.
  rewrite slice_app_here by (rewrite ?length_be_bytes; lia). by rewrite be_uint_be_bytes.
Qed.

Lemma StronglySorted_filter_keep {A} (R : A -> A -> Prop) (P : A -> Prop)
    `{forall x, Decision (P x)} l :
  StronglySorted R l -> StronglySorted R (filter P l).
Proof.
  induction 1 as [|x l HS IH Hx]; [constructor|].
  destruct (decide (P x)); [rewrite filter_cons_True by done | by rewrite filter_cons_False by done].
  constructor; [done|]. rewrite Forall_forall in Hx |- *.
  intros y [_ Hy]%list_elem_of_filter. by apply Hx.
Qed.

(** ** Properties: wire forms *)

Lemma stream_header (sid : Z) (e c : bool) : 0 <= sid < 0x4000 ->
  js_or (js_or (js_and sid 0x3fff) (if e then 0x8000 else 0)) (if c then 0x4000 else 0)
  = sid + (if e then 0x8000 else 0) + (if c then 0x4000 else 0).
Proof.
  intros Hs. unfold js_or, js_and. rewrite (int32_small sid), (int32_small 0x3fff) by lia.
  change 0x3fff with (2 ^ 14 - 1). rewrite land_mask, Z.mod_small, (int32_small sid) by lia.
  assert (A : forall k, Z.lor sid (k * 2 ^ 14) = k * 2 ^ 14 + sid)
    by (intros; rewrite Z.lor_comm; apply lor_add_pow2; lia).
  assert (B : Z.lor (2 * 2 ^ 14 + sid) (1 * 2 ^ 14) = 3 * 2 ^ 14 + sid).
  { rewrite <- !A, <- Z.lor_assoc. done. }
  destruct e, c; rewrite ?(int32_small 0), ?(int32_small 0x8000), ?(int32_small 0x4000) by lia;
    change 0x8000 with (2 * 2 ^ 14); change 0x4000 with (1 * 2 ^ 14);
    rewrite ?A, ?Z.lor_0_r, ?int32_small, ?B, ?A, ?Z.lor_0_r by lia; lia.
Qed.

Lemma stream_header_fields (h : Z) : 0 <= h < 0x10000 ->
  js_and h 0x3fff = h mod 0x4000
  /\ (js_and h 0x8000 =? 0) = (h <? 0x8000)
  /\ (js_and h 0x4000 =? 0) = ((h mod 0x8000) <? 0x4000).
Proof.
  intros Hh. unfold js_and. rewrite !int32_small by lia.
  assert (Hbit : forall k, 0 <= k -> (Z.land h (2 ^ k) =? 0) = negb (Z.testbit h k)).
  { intros k Hk. apply eq_true_iff_eq. rewrite Z.eqb_eq, negb_true_iff. split.
    - intros E. assert (Z.testbit (Z.land h (2 ^ k)) k = false) as E' by (by rewrite E, Z.bits_0).
      by rewrite Z.land_spec, Z.pow2_bits_true, andb_true_r in E' by done.
    - intros E. apply Z.bits_inj'. intros i Hi. rewrite Z.land_spec, Z.bits_0, Z.pow2_bits_eqb by done.
      destruct (k =? i) eqn:Ek; bools; [subst; by rewrite E | by rewrite andb_false_r]. }
  split_and!.
  - change 0x3fff with (2 ^ 14 - 1). by rewrite land_mask.
  - change 0x8000 with (2 ^ 15) at 1. rewrite Hbit by done.
    rewrite Z.testbit_eqb by done. apply eq_true_iff_eq. rewrite negb_true_iff, Z.eqb_neq, Z.ltb_lt. dmlia.
  - change 0x4000 with (2 ^ 14) at 1. rewrite Hbit by done.
    rewrite Z.testbit_eqb by done. apply eq_true_iff_eq. rewrite negb_true_iff, Z.eqb_neq, Z.ltb_lt. dmlia.
Qed.

(** The ids the two-byte header has room for. *)
Definition stream_id_ok (m : StreamDataMessage.t) : Prop := 0 <= StreamDataMessage.streamId m < 0x4000.

Lemma stream_unpack_pack (m : StreamDataMessage.t) : stream_id_ok m ->
  StreamDataMessage.unpack (StreamDataMessage.pack m) = Ok m.
Proof.
  intros Hm. destruct m as [sid d e c]. unfold stream_id_ok in Hm. cbn in Hm. unfold StreamDataMessage.pack, StreamDataMessage.unpack. cbn -[be_bytes].
  rewrite stream_header by done. set (h := sid + _ + _).
  pose proof (getUint16_be 0 [] h d eq_refl) as E. rewrite app_nil_l in E. rewrite E. cbn [rbind].
  assert (0 <= h < 0x10000) by (unfold h; destruct e, c; lia).
  change 65536 with 0x10000. rewrite (Z.mod_small h) by done.
  destruct (stream_header_fields h) as (-> & -> & ->); [done|].
  unfold slice_from, StreamDataMessage.HEADER_SIZE.
  rewrite drop_app_length' by (by rewrite length_be_bytes). unfold h. do 2 f_equal.
  + destruct e, c; dmlia.
  + destruct e, c; apply negb_true_iff || apply negb_false_iff; rewrite ?Z.ltb_lt, ?Z.ltb_ge; lia.
  + destruct e, c; apply negb_true_iff || apply negb_false_iff; rewrite ?Z.ltb_lt, ?Z.ltb_ge; dmlia.
Qed.

(** Stream frames: a frame with a 14-bit stream id is packed and unpacked
    without loss of its id, its two flags or its data; and every body of at
    least two bytes is the packing of the frame it unpacks to. *)
Theorem stream_message_roundtrip (m : StreamDataMessage.t) (raw : bytes) (r : StreamDataMessage.t)
    (Hm : stream_id_ok m)
    (Hraw : wf_bytes raw) (Hr : StreamDataMessage.unpack raw = Ok r) :
  StreamDataMessage.unpack (StreamDataMessage.pack m) = Ok m
  /\ StreamDataMessage.pack r = raw.
Proof.
  split.
  - by apply stream_unpack_pack.
  - unfold StreamDataMessage.unpack in Hr. apply rbind_ok in Hr as (h & Hh & Hr). injection Hr as <-.
    unfold getUint16 in Hh. destruct (_ <=? _)%nat eqn:El; [|done]. bools. injection Hh as <-.
    assert (Hb : 0 <= be_uint (take 2 raw) < 0x10000).
    { pose proof (be_uint_bound (take 2 raw) (wf_bytes_take 2 raw Hraw)) as Hb. unfold zlen in Hb.
      rewrite length_take, Nat.min_l in Hb by lia. exact Hb. }
    set (h := be_uint (take 2 raw)) in *. unfold StreamDataMessage.pack. cbn -[be_bytes].
    change (be_uint (slice 0 2 raw)) with h. destruct (stream_header_fields h Hb) as (-> & -> & ->). rewrite stream_header by (by apply Z.mod_pos_bound).
    replace (_ + _ + _) with h.
    2:{ destruct (h <? 0x8000) eqn:E1, (h mod 0x8000 <? 0x4000) eqn:E2; cbn [negb]; bools; dmlia. }
    unfold h. pose proof (be_bytes_be_uint (take 2 raw) (wf_bytes_take 2 raw Hraw)) as E.
    rewrite length_take, Nat.min_l in E by lia. rewrite E. apply take_drop.
Qed.

Section Receiver.
Context {M : Type} `{MessageApi M}.
Implicit Types (c : Channel (M := M)) (L : list Z).

(** A message as its sender packs it and a receiver decodes it. *)
Definition decodable (factories : gmap Z (MessageClass M)) (m : M) : Prop :=
  exists t cls data, msgtype_of m = Some t /\ 0 <= t < 65536 /\ factories !! t = Some cls
    /\ packBody m = Ok data /\ unpackBody cls data = Ok m.

Lemma envelope_roundtrip factories m seqn :
  decodable factories m -> 0 <= seqn < SEQ_MODULUS ->
  exists w, Envelope_pack seqn m = Ok w
    /\ Envelope_unpack factories (mkEnvelope None (Some w) None 0 0)
       = Ok (mkEnvelope (Some m) (Some w) None seqn 0).
Proof.
  intros (t & cls & data & Ht & Hr & Hf & Hp & Hu) Hs. unfold SEQ_MODULUS in Hs.
  unfold Envelope_pack. rewrite Ht, Hp. cbn [rbind]. eexists. split; [reflexivity|].
  unfold Envelope_unpack. cbn [raw default from_option id].
  set (rest := be_bytes 2 (zlen data) ++ data).
  pose proof (getUint16_be 0 [] t (be_bytes 2 seqn ++ rest) eq_refl) as E. rewrite app_nil_l in E.
  rewrite E, (getUint16_be 2 (be_bytes 2 t) seqn rest) by done.
  cbn [rbind]. rewrite !Z.mod_small by lia. rewrite Hf.
  replace (slice_from ENVELOPE_HEADER_SIZE _) with data; [by rewrite Hu|].
  unfold slice_from, ENVELOPE_HEADER_SIZE, rest. rewrite !app_assoc.
  rewrite (drop_app_skip 6 0) by (rewrite !length_app, !length_be_bytes; done). done.
Qed.

(** ** The receive ring as a list of absolute message numbers

    [env i] is the decoded envelope of message number [i]: its sequence is [i]
    modulo 65536. *)
Variable msg : Z -> M.
Variable wire : Z -> bytes.
Definition env (i : Z) : Envelope :=
  mkEnvelope (Some (msg i)) (Some (wire i)) None (i mod SEQ_MODULUS) 0.

Lemma mod_window_inj n i j :
  n <= i < n + SEQ_MODULUS -> n <= j < n + SEQ_MODULUS ->
  i mod SEQ_MODULUS = j mod SEQ_MODULUS -> i = j.
Proof. unfold SEQ_MODULUS. intros. dmlia. Qed.

(** [drain] takes exactly the maximal run that starts at the next number. *)
Lemma drain_spec fuel L n :
  NoDup L -> Forall (fun i => n <= i < n + SEQ_MODULUS) L -> (length L <= fuel)%nat ->
  exists k, 0 <= k
    /\ drain fuel (map env L) (n mod SEQ_MODULUS)
       = (map env (seqZ n k), map env (filter (fun i => n + k <= i) L), (n + k) mod SEQ_MODULUS)
    /\ (forall j, n <= j < n + k -> j ∈ L) /\ n + k ∉ L.
Proof.
  revert L n. induction fuel as [|fuel IH]; intros L n Hnd HL Hf.
  - destruct L; [|cbn in Hf; lia]. exists 0. rewrite Z.add_0_r. split_and!; [lia|done|lia|].
    apply not_elem_of_nil.
  - cbn [drain]. destruct (list_find _ _) as [[idx e]|] eqn:E.
    + apply list_find_Some in E as (Hi & He & _). rewrite list_lookup_fmap in Hi.
      destruct (L !! idx) as [i|] eqn:Hidx; [|done]. injection Hi as <-. cbn [sequence env] in He.
      rewrite Forall_lookup in HL.
      assert (i = n) as ->. { apply (mod_window_inj n); [by eapply HL| |done]. unfold SEQ_MODULUS. lia. }
      assert (Hp : L ≡ₚ n :: delete idx L) by (by apply delete_Permutation).
      rewrite Hp in Hnd. apply NoDup_cons in Hnd as [Hn Hnd].
      destruct (IH (delete idx L) (n + 1)) as (k & Hk & HD & Hin & Hout); [done| | |].
      { rewrite Forall_forall. intros j Hj. assert (Hj' : j ∈ L) by (rewrite Hp; set_solver).
        apply list_elem_of_lookup in Hj' as [q Hq]. apply HL in Hq.
        destruct (decide (j = n)) as [->|]; [done|]. lia. }
      { apply lookup_lt_Some in Hidx as Hlt. rewrite length_delete by (by eexists). lia. }
      exists (k + 1). split; [lia|].
      assert (Hdel : delete idx (map env L) = map env (delete idx L))
        by (symmetry; apply (list_fmap_delete env)).
      rewrite Hdel, Zplus_mod_idemp_l, HD. split_and!.
      * replace (seqZ n (k + 1)) with (n :: seqZ (n + 1) k).
        2:{ rewrite (seqZ_cons n (k + 1)) by lia. f_equal. f_equal; lia. }
        replace (n + 1 + k) with (n + (k + 1)) by lia.
        assert (filter (fun i => n + (k + 1) <= i) (delete idx L)
                = filter (fun i => n + (k + 1) <= i) L) as ->; [|done].
        rewrite delete_take_drop. rewrite <- (take_drop_middle L idx n Hidx) at 3.
        rewrite !filter_app, filter_cons_False by lia. done.
      * intros j Hj. rewrite Hp. destruct (decide (j = n)) as [->|]; [set_solver|].
        apply elem_of_cons. right. apply Hin. lia.
      * rewrite Hp. intros Hc. apply elem_of_cons in Hc as [Hc|Hc]; [lia|].
        apply Hout. by replace (n + 1 + k) with (n + (k + 1)) by lia.
    + exists 0. rewrite Z.add_0_r. rewrite list_find_None in E.
      assert (n ∉ L).
      { intros Hc. rewrite Forall_forall in E. apply (E (env n)); [|done].
        apply list_elem_of_fmap. eauto. }
      split_and!; [lia| |lia|done]. cbn [seqZ map].
      assert (filter (fun i => n <= i) L = L) as ->; [|done].
      clear -HL. induction HL as [|x l Hx HL IHl]; [done|].
      rewrite filter_cons_True by lia. by rewrite IHl.
Qed.

(** *** Insertion *)

Lemma emplace_distinct next i L :
  Forall (fun j => j mod SEQ_MODULUS <> i mod SEQ_MODULUS) L ->
  exists L', emplace next (env i) (map env L) = Some (map env L') /\ L' ≡ₚ i :: L.
Proof.
  induction 1 as [|j L Hj HL (L' & E & P)]; [by exists [i]|].
  cbn [map emplace sequence env]. rewrite (proj2 (Z.eqb_neq _ _)) by congruence.
  destruct (_ && _); [by exists (i :: j :: L)|]. cbn [sequence env] in E.
  rewrite E. exists (j :: L'). split; [done|]. rewrite P. constructor.
Qed.

(** Within an epoch the ring is sorted, so that a duplicate is met before the
    place of insertion. *)
Lemma emplace_sorted next i L :
  StronglySorted Z.lt L -> Forall (fun j => 0 <= j < SEQ_MODULUS) (i :: L) -> next <= i ->
  (i ∈ L -> emplace next (env i) (map env L) = None)
  /\ (i ∉ L -> exists L', emplace next (env i) (map env L) = Some (map env L')
        /\ L' ≡ₚ i :: L /\ StronglySorted Z.lt L').
Proof.
  intros HS HF Hn. apply Forall_cons in HF as [Hi HF]. revert HF.
  induction HS as [|j L HS IH Hlt]; intros HF.
  - split; [by intros ?%not_elem_of_nil|]. intros _. exists [i]. repeat constructor.
  - apply Forall_cons in HF as [Hj HF]. destruct (IH HF) as [IH1 IH2].
    cbn [map emplace sequence env]. rewrite !Z.mod_small by done. rewrite Forall_forall in Hlt.
    rewrite Z.gtb_ltb, (proj2 (Z.ltb_ge SEQ_MAX _)) by (unfold SEQ_MAX; lia).
    cbn [negb]. rewrite andb_true_r. split.
    + intros [->|Hin]%elem_of_cons; [by rewrite Z.eqb_refl|]. pose proof (Hlt i Hin).
      rewrite (proj2 (Z.eqb_neq _ _)), (proj2 (Z.ltb_ge _ _)) by lia. by rewrite IH1.
    + intros [Hne Hin]%not_elem_of_cons. rewrite (proj2 (Z.eqb_neq _ _)) by done.
      destruct (i <? j) eqn:E; bools.
      * exists (i :: j :: L). split_and!; [done|done|].
        constructor; [constructor; [done | by rewrite Forall_forall]|]. rewrite Forall_forall.
        intros x [->|Hx]%elem_of_cons; [done|]. pose proof (Hlt x Hx). lia.
      * destruct (IH2 Hin) as (L' & E' & P & HS'). rewrite E'. exists (j :: L').
        split_and!; [done| |].
        -- rewrite P. constructor.
        -- constructor; [done|]. rewrite P, Forall_forall.
           intros x [->|Hx]%elem_of_cons; [lia | by apply Hlt].
Qed.

(** *** One arrival *)

Variable factories : gmap Z (MessageClass M).
Variable handlers : list (Handler (M := M)).
Hypothesis Hdec : forall i, decodable factories (msg i).
Hypothesis Hwire : forall i, Envelope_pack (i mod SEQ_MODULUS) (msg i) = Ok (wire i).

Definition dispatched (ms : list M) : list event := flat_map (run_handlers handlers) ms.

Lemma unpack_wire i :
  Envelope_unpack factories (mkEnvelope None (Some (wire i)) None 0 0) = Ok (env i).
Proof.
  destruct (envelope_roundtrip factories (msg i) (i mod SEQ_MODULUS)) as (w & E & U);
    [done | by apply Z.mod_pos_bound|]. rewrite Hwire in E. injection E as <-. exact U.
Qed.

(** The receiver has delivered everything below [n] and holds [L]. *)
Record rx_inv (n0 n : Z) (seen L : list Z) c : Prop := {
  inv_ring : rxRing c = map env L;
  inv_next : nextRxSequence c = n mod SEQ_MODULUS;
  inv_factories : messageFactories c = factories;
  inv_handlers : messageCallbacks c = handlers;
  inv_NoDup : NoDup L;
  inv_L : forall i, i ∈ L <-> i ∈ seen /\ n < i;
  inv_below : forall j, n0 <= j < n -> j ∈ seen;
  inv_n : n ∉ seen;
  inv_le : n0 <= n;
}.

Lemma receive_accepted n0 n seen L L' c i :
  rx_inv n0 n seen L c -> n <= i -> i ∉ seen ->
  Forall (fun j => n <= j < n + SEQ_MODULUS) (i :: L) ->
  sequence_ok (n mod SEQ_MODULUS) (i mod SEQ_MODULUS) = true ->
  emplace (n mod SEQ_MODULUS) (env i) (map env L) = Some (map env L') -> L' ≡ₚ i :: L ->
  exists k c', 0 <= k /\ _receive (wire i) c = (c', dispatched (map msg (seqZ n k)))
    /\ rx_inv n0 (n + k) (seen ++ [i]) (filter (fun j => n + k <= j) L') c'.
Proof.
  intros [I1 I2 I3 I4 I5 I6 I7 I8 I9] Hni Hi HF Hok HE HP.
  assert (Hnd : NoDup L').
  { rewrite HP. constructor; [|done]. rewrite I6. tauto. }
  rewrite <- HP in HF. destruct (drain_spec (length L') L' n Hnd HF) as (k & Hk & HD & Hin & Hout); [done|].
  exists k. eexists. split; [done|]. unfold _receive, _emplaceEnvelope.
  rewrite I3, unpack_wire, I2, I1. cbn [sequence env]. rewrite Hok. cbn [negb].
  cbn [sequence env] in HE. rewrite HE, length_map, HD. split.
  - f_equal. unfold dispatched, _runCallbacks. cbn. rewrite I4.
    generalize (seqZ n k). intros l. induction l as [|x l IH]; [done|]. cbn. by f_equal.
  - split; try done.
    + by apply NoDup_filter.
    + intros j. rewrite list_elem_of_filter, HP, elem_of_cons, I6, elem_of_app, list_elem_of_singleton.
      destruct (decide (j = n + k)) as [->|Hj].
      * split; [|lia]. intros [_ Hc]. exfalso. apply Hout. rewrite HP, elem_of_cons, I6. tauto.
      * split; [intros [? [->|[]]]; (split; [tauto|lia])|].
        intros [[Hs| ->] Hl]; (split; [lia|]); [right; split; [done|lia] | by left].
    + intros j Hj. rewrite elem_of_app, list_elem_of_singleton.
      destruct (decide (j < n)); [left; apply I7; lia|].
      assert (Hj' : j ∈ L') by (apply Hin; lia). rewrite HP, elem_of_cons, I6 in Hj'. tauto.
    + rewrite elem_of_app, list_elem_of_singleton. intros Hc. apply Hout.
      rewrite HP, elem_of_cons, I6. destruct Hc as [Hc| ->]; [|by left].
      right. split; [done|]. destruct (decide (k = 0)) as [->|]; [|lia].
      rewrite Z.add_0_r in Hc. contradiction.
    + lia.
Qed.

Lemma rx_inv_seen_again n0 n seen L c i :
  rx_inv n0 n seen L c -> i ∈ seen -> rx_inv n0 n (seen ++ [i]) L c.
Proof.
  intros [I1 I2 I3 I4 I5 I6 I7 I8 I9] Hi. split; try done.
  - intros j. rewrite I6, elem_of_app, list_elem_of_singleton. naive_solver.
  - intros j Hj. rewrite elem_of_app. left. by apply I7.
  - rewrite elem_of_app, list_elem_of_singleton. intros [?| ->]; contradiction.
Qed.

Lemma receive_ignored n0 n seen L c i :
  rx_inv n0 n seen L c ->
  sequence_ok (n mod SEQ_MODULUS) (i mod SEQ_MODULUS) = false
  \/ emplace (n mod SEQ_MODULUS) (env i) (map env L) = None ->
  _receive (wire i) c = (c, []).
Proof.
  intros [I1 I2 I3 I4 _ _ _ _ _] HX. unfold _receive, _emplaceEnvelope.
  rewrite I3, unpack_wire, I2, I1. cbn [sequence env]. destruct HX as [HX|HX]; [by rewrite HX|].
  cbn [sequence env] in HX. rewrite HX. by destruct (negb _).
Qed.

Lemma receive_all_snoc rs r c :
  receive_all (rs ++ [r]) c
  = let '(c', evs) := receive_all rs c in let '(c'', evs') := _receive r c' in (c'', evs ++ evs').
Proof.
  revert c. induction rs as [|r' rs IH]; intros c.
  - cbn. destruct (_receive r c) as [c' evs]. by rewrite app_nil_r.
  - cbn [receive_all app]. destruct (_receive r' c) as [c1 e1]. rewrite IH.
    destruct (receive_all rs c1) as [c2 e2]. destruct (_receive r c2) as [c3 e3].
    by rewrite app_assoc.
Qed.

Lemma dispatched_seqZ n k k' : 0 <= k -> 0 <= k' ->
  dispatched (map msg (seqZ n k)) ++ dispatched (map msg (seqZ (n + k) k'))
  = dispatched (map msg (seqZ n (k + k'))).
Proof. intros. unfold dispatched. by rewrite seqZ_app, map_app, flat_map_app by lia. Qed.

(** *** Traces *)

(** Message numbers of one epoch, in any order and with duplicates, but no
    second copy of message [i] after message [i + 65487]. *)
Definition epoch_arrivals (arrivals : list Z) : Prop :=
  forall k i, arrivals !! k = Some i ->
    0 <= i < SEQ_MAX /\ (i ∈ take k arrivals -> i + 65487 ∉ take k arrivals).

(** Distinct message numbers from [n0] on, in any order that a sender with at
    most 48 messages outstanding allows. *)
Definition windowed_arrivals (n0 : Z) (arrivals : list Z) : Prop :=
  NoDup arrivals /\ forall k i, arrivals !! k = Some i ->
    n0 <= i /\ forall j, n0 <= j < i - WINDOW_MAX -> j ∈ take k arrivals.

Lemma epoch_arrivals_snoc a i : epoch_arrivals (a ++ [i]) ->
  epoch_arrivals a /\ 0 <= i < SEQ_MAX /\ (i ∈ a -> i + 65487 ∉ a).
Proof.
  intros Ha. split.
  - intros k j Hj. pose proof (lookup_lt_Some _ _ _ Hj).
    destruct (Ha k j) as [H1 H2]; [by rewrite lookup_app_l|].
    by rewrite take_app_le in H2 by lia.
  - destruct (Ha (length a) i) as [H1 H2]; [by rewrite list_lookup_middle|].
    by rewrite take_app_length in H2.
Qed.

Lemma windowed_arrivals_snoc n0 a i : windowed_arrivals n0 (a ++ [i]) ->
  windowed_arrivals n0 a /\ i ∉ a /\ n0 <= i /\ forall j, n0 <= j < i - WINDOW_MAX -> j ∈ a.
Proof.
  intros [Hnd Ha]. apply NoDup_app in Hnd as (Hnd & Hd & _). split_and!.
  - split; [done|]. intros k j Hj. pose proof (lookup_lt_Some _ _ _ Hj).
    destruct (Ha k j) as [H1 H2]; [by rewrite lookup_app_l|]. split; [done|].
    intros x Hx. specialize (H2 x Hx). by rewrite take_app_le in H2 by lia.
  - intros Hi. apply (Hd i Hi). set_solver.
  - destruct (Ha (length a) i) as [H1 H2]; [by rewrite list_lookup_middle|]. done.
  - destruct (Ha (length a) i) as [H1 H2]; [by rewrite list_lookup_middle|].
    intros j Hj. specialize (H2 j Hj). by rewrite take_app_length in H2.
Qed.

Lemma stale_rejected n i : 0 <= i < n -> n <= SEQ_MAX -> n <= i + 65487 -> sequence_ok n i = false.
Proof.
  unfold SEQ_MAX. intros. unfold sequence_ok. rewrite (proj2 (Z.ltb_lt _ _)) by lia.
  destruct (_ <? n) eqn:E; [|done]. bools. rewrite negb_false_iff, Z.gtb_ltb, Z.ltb_lt.
  unfold WINDOW_MAX, WINDOW_MAX_FAST, SEQ_MODULUS in *. dmlia.
Qed.

Lemma run_epoch c arrivals :
  rx_inv 0 0 [] [] c -> epoch_arrivals arrivals ->
  exists n L c', receive_all (map wire arrivals) c = (c', dispatched (map msg (seqZ 0 n)))
    /\ rx_inv 0 n arrivals L c' /\ StronglySorted Z.lt L /\ Forall (fun i => 0 <= i < SEQ_MAX) arrivals.
Proof.
  intros H0. induction arrivals as [|i a IH] using rev_ind; intros Ha.
  - exists 0, [], c. split_and!; [done|exact H0|constructor|constructor].
  - apply epoch_arrivals_snoc in Ha as (Ha & Hi & Hold).
    destruct (IH Ha) as (n & L & c' & E & I' & HS & HF). rewrite map_app. cbn [map].
    rewrite receive_all_snoc, E.
    assert (HFi : Forall (fun i => 0 <= i < SEQ_MAX) (a ++ [i])) by (apply Forall_app; auto).
    pose proof I' as [I1 I2 I3 I4 I5 I6 I7 I8 I9].
    rewrite Forall_forall in HF.
    assert (Hn : n <= SEQ_MAX).
    { destruct (decide (n = 0)); [unfold SEQ_MAX; lia|]. assert (Hp : n - 1 ∈ a) by (apply I7; lia).
      apply HF in Hp. lia. }
    assert (Hmod : forall j, 0 <= j <= SEQ_MAX -> j mod SEQ_MODULUS = j).
    { intros j Hj. apply Z.mod_small. unfold SEQ_MAX, SEQ_MODULUS in *. lia. }
    destruct (decide (i < n)) as [Hlt|Hge].
    + rewrite (receive_ignored 0 n a L c' i I').
      2:{ left. rewrite !Hmod by lia.
          assert (n <= i + 65487).
          { destruct (decide (n <= i + 65487)); [done|]. destruct Hold; apply I7; lia. }
          apply stale_rejected; lia. }
      exists n, L, c'. rewrite app_nil_r. split_and!; [done| |done|done].
      apply rx_inv_seen_again; [done|]. apply I7. lia.
    + assert (Hok : sequence_ok (n mod SEQ_MODULUS) (i mod SEQ_MODULUS) = true).
      { rewrite !Hmod by lia. unfold sequence_ok. by rewrite (proj2 (Z.ltb_ge _ _)) by lia. }
      assert (HL : Forall (fun j => 0 <= j < SEQ_MODULUS) (i :: L)).
      { rewrite Forall_forall. intros j [->|Hj]%elem_of_cons; [unfold SEQ_MAX, SEQ_MODULUS in *; lia|].
        apply I6 in Hj as [Hj _]. apply HF in Hj. unfold SEQ_MAX, SEQ_MODULUS in *; lia. }
      destruct (emplace_sorted (n mod SEQ_MODULUS) i L HS HL) as [Hdup Hnew]; [rewrite Hmod; lia|].
      destruct (decide (i ∈ a)) as [Hin|Hin].
      * rewrite (receive_ignored 0 n a L c' i I').
        2:{ right. apply Hdup. apply I6. split; [done|]. destruct (decide (i = n)) as [->|]; [done|lia]. }
        exists n, L, c'. rewrite app_nil_r. split_and!; [done| |done|done]. by apply rx_inv_seen_again.
      * destruct Hnew as (L' & HE & HP & HS'); [by intros [? _]%I6|].
        destruct (receive_accepted 0 n a L L' c' i I') as (k & c2 & Hk & HR & HI); [lia|done| |done..|].
        { rewrite Forall_forall in HL |- *. intros j Hj. specialize (HL j Hj).
          apply elem_of_cons in Hj as [->|Hj]; [lia|]. apply I6 in Hj. lia. }
        rewrite HR. exists (n + k), (filter (fun j => n + k <= j) L'), c2.
        rewrite dispatched_seqZ by lia. split_and!; [done..| |done].
        by apply StronglySorted_filter_keep.
Qed.

Lemma run_windowed n0 c arrivals :
  rx_inv n0 n0 [] [] c -> windowed_arrivals n0 arrivals ->
  exists n L c', receive_all (map wire arrivals) c = (c', dispatched (map msg (seqZ n0 (n - n0))))
    /\ rx_inv n0 n arrivals L c' /\ Forall (fun i => i <= n + WINDOW_MAX) L.
Proof.
  intros H0. induction arrivals as [|i a IH] using rev_ind; intros Ha.
  - exists n0, [], c. rewrite Z.sub_diag. split_and!; [done|exact H0|constructor].
  - apply windowed_arrivals_snoc in Ha as (Ha & Hi & Hge & Hw).
    destruct (IH Ha) as (n & L & c' & E & I' & HF). rewrite map_app. cbn [map].
    rewrite receive_all_snoc, E. rewrite Forall_forall in HF.
    pose proof I' as [I1 I2 I3 I4 I5 I6 I7 I8 I9].
    assert (Hni : n <= i). { destruct (decide (n <= i)); [done|]. destruct Hi. apply I7. lia. }
    assert (Hin : i <= n + WINDOW_MAX).
    { destruct (decide (i <= n + WINDOW_MAX)); [done|]. destruct I8. apply Hw. lia. }
    assert (HL : Forall (fun j => n <= j < n + SEQ_MODULUS) (i :: L)).
    { rewrite Forall_forall. unfold WINDOW_MAX, WINDOW_MAX_FAST, SEQ_MODULUS in *.
      intros j [->|Hj]%elem_of_cons; [lia|]. pose proof (HF j Hj). apply I6 in Hj. lia. }
    destruct (emplace_distinct (n mod SEQ_MODULUS) i L) as (L' & HE & HP).
    { rewrite Forall_forall in HL |- *. intros j Hj Hc.
      apply (mod_window_inj n) in Hc as ->; [|apply HL; set_solver..]. by apply I6 in Hj as [? _]. }
    destruct (receive_accepted n0 n a L L' c' i I') as (k & c2 & Hk & HR & HI); [lia|done..| |done|done|].
    { unfold sequence_ok. unfold WINDOW_MAX, WINDOW_MAX_FAST, SEQ_MODULUS in *.
      destruct (_ <? _) eqn:E1; [|done]. bools. rewrite (proj2 (Z.ltb_lt _ _)) by dmlia.
      rewrite negb_true_iff, Z.gtb_ltb, Z.ltb_ge. dmlia. }
    rewrite HR. exists (n + k), (filter (fun j => n + k <= j) L'), c2.
    replace n with (n0 + (n - n0)) at 2 by lia. rewrite dispatched_seqZ by lia.
    replace (n - n0 + k) with (n + k - n0) by lia. split_and!; [done..|].
    rewrite Forall_forall. intros j [_ Hj]%list_elem_of_filter. rewrite HP in Hj.
    apply elem_of_cons in Hj as [->|Hj]; [lia|]. pose proof (HF j Hj). lia.
Qed.

End Receiver.

(** ** Properties: receiving *)

(** In-order, exactly-once delivery: whatever the network loses, reorders or
    duplicates within the first 65535 messages, and whatever it reorders
    within the window from any starting number (so across wraps too), the
    handlers are called for exactly the longest run of messages that has
    arrived without a gap, each once and in order. *)
Theorem channel_in_order `{MessageApi M} (msg : Z -> M) (wire : Z -> bytes)
    (c : Channel) (n0 : Z) (arrivals : list Z)
    (Hdec : forall i, decodable (messageFactories c) (msg i))
    (Hwire : forall i, Envelope_pack (i mod SEQ_MODULUS) (msg i) = Ok (wire i))
    (Hring : rxRing c = []) (Hnext : nextRxSequence c = n0 mod SEQ_MODULUS)
    (Ha : n0 = 0 /\ epoch_arrivals arrivals \/ windowed_arrivals n0 arrivals) :
  exists n c',
    receive_all (map wire arrivals) c
    = (c', flat_map (run_handlers (messageCallbacks c)) (map msg (seqZ n0 (n - n0))))
    /\ n0 <= n /\ (forall j, n0 <= j < n -> j ∈ arrivals) /\ n ∉ arrivals
    /\ nextRxSequence c' = n mod SEQ_MODULUS.
Proof.
  assert (H0 : rx_inv msg wire (messageFactories c) (messageCallbacks c) n0 n0 [] [] c).
  { split; try done; [constructor| |lia|]; intros; set_solver. }
  destruct Ha as [[-> Ha]|Ha].
  - destruct (run_epoch msg wire _ _ Hdec Hwire c arrivals H0 Ha) as (n & L & c' & E & I & _).
    exists n, c'. rewrite Z.sub_0_r. destruct I. auto.
  - destruct (run_windowed msg wire _ _ Hdec Hwire n0 c arrivals H0 Ha) as (n & L & c' & E & I & _).
    exists n, c'. destruct I. auto.
Qed.

(** Where that guarantee ends: right after a wrap, a second copy of an old
    message (say its proof was lost and its sender retransmits it) passes the
    range check, waits in the ring for the rest of the epoch, and is then
    delivered in place of the new message with its sequence number, which is
    dropped. *)
Theorem channel_stale_after_wrap `{MessageApi M} (msg : Z -> M) (wire : Z -> bytes)
    (c : Channel) (s : Z) (stale : M) (w : bytes)
    (Hdec : forall i, decodable (messageFactories c) (msg i))
    (Hwire : forall i, Envelope_pack (i mod SEQ_MODULUS) (msg i) = Ok (wire i))
    (Hring : rxRing c = []) (Hnext : nextRxSequence c = 0) (Hs : 0 < s < SEQ_MAX)
    (Hstale : decodable (messageFactories c) stale) (Hw : Envelope_pack s stale = Ok w) :
  exists c', receive_all (w :: map wire (seqZ 0 s) ++ [wire s]) c
  = (c', flat_map (run_handlers (messageCallbacks c)) (map msg (seqZ 0 s) ++ [stale])).
Proof.
  unfold SEQ_MAX in Hs.
  set (msg' := fun i => if decide (i mod SEQ_MODULUS = s) then stale else msg i).
  set (wire' := fun i => if decide (i mod SEQ_MODULUS = s) then w else wire i).
  assert (Hs' : forall i, 0 <= i <= s -> i mod SEQ_MODULUS = i)
    by (intros; apply Z.mod_small; unfold SEQ_MODULUS; lia).
  assert (E : forall {B} (x : B) f i, 0 <= i < s -> (if decide (i mod SEQ_MODULUS = s) then x else f i) = f i)
    by (intros; rewrite Hs' by lia; rewrite decide_False by lia; done).
  assert (Hdec' : forall i, decodable (messageFactories c) (msg' i))
    by (intros i; unfold msg'; destruct (decide _); done).
  assert (Hwire' : forall i, Envelope_pack (i mod SEQ_MODULUS) (msg' i) = Ok (wire' i)).
  { intros i. unfold msg', wire'. destruct (decide _) as [->|]; done. }
  assert (H0 : rx_inv msg' wire' (messageFactories c) (messageCallbacks c) 0 0 [] [] c).
  { split; try done; [constructor| |lia|]; intros; set_solver. }
  destruct (run_epoch msg' wire' _ _ Hdec' Hwire' c (s :: seqZ 0 s) H0) as (n & L & c' & HE & I & _).
  { intros k i Hk. apply list_elem_of_lookup_2 in Hk as Hi.
    apply elem_of_cons in Hi. rewrite elem_of_seqZ in Hi. split; [unfold SEQ_MAX; lia|].
    intros Hin. exfalso. assert (Hnd : NoDup (s :: seqZ 0 s)).
    { constructor; [rewrite elem_of_seqZ; lia | apply NoDup_seqZ]. }
    rewrite <- (take_drop k), NoDup_app in Hnd. destruct Hnd as (_ & Hnd & _).
    apply (Hnd i Hin). apply list_elem_of_lookup. exists 0%nat. by rewrite lookup_drop, Nat.add_0_r. }
  assert (n = s + 1) as ->.
  { destruct I as [_ _ _ _ _ _ I7 I8 I9]. rewrite elem_of_cons, elem_of_seqZ in I8.
    destruct (decide (n <= s)); [lia|]. destruct (decide (n = s + 1)); [done|].
    specialize (I7 (s + 1)). rewrite elem_of_cons, elem_of_seqZ in I7. lia. }
  exists c'. rewrite app_comm_cons, receive_all_snoc.
  assert (map wire' (s :: seqZ 0 s) = w :: map wire (seqZ 0 s)) as Hm.
  { cbn [map]. unfold wire' at 1. rewrite Hs', decide_True by lia. f_equal.
    apply map_ext_in. intros i Hi%list_elem_of_In%elem_of_seqZ. apply E. lia. }
  rewrite Hm in HE. rewrite HE.
  assert (L = []) as ->.
  { destruct L as [|x L]; [done|]. destruct (inv_L _ _ _ _ _ _ _ _ _ I x) as [HL _].
    destruct HL as [HL Hx]; [set_solver|]. rewrite elem_of_cons, elem_of_seqZ in HL. lia. }
  rewrite (receive_ignored msg wire (messageFactories c) (messageCallbacks c) Hdec Hwire 0 (s + 1) (s :: seqZ 0 s) [] c' s).
  - unfold dispatched. rewrite app_nil_r. f_equal. f_equal. rewrite seqZ_app, map_app by lia. f_equal.
    + apply map_ext_in. intros i Hi%list_elem_of_In%elem_of_seqZ. apply E. lia.
    + rewrite seqZ_cons by lia. cbn [map]. unfold msg' at 1. by rewrite Hs', decide_True by lia.
  - destruct I. by split.
  - left. rewrite (Z.mod_small s), Z.mod_small by (unfold SEQ_MODULUS; lia).
    apply stale_rejected; unfold SEQ_MAX; lia.
Qed.

(** ** The sender *)

Section Sender.
Context {M : Type} `{MessageApi M}.
Abbreviation State := (State (M := M)).
Abbreviation Envelope := (Envelope (M := M)).
Implicit Types (s : State) (o : Outlet) (e : Envelope).

Definition win_ok (w : Window) : Prop :=
  1 <= windowMin w <= windowMax w /\ windowMax w <= WINDOW_MAX
  /\ 1 <= window w <= windowMax w /\ 1 <= windowFlexibility w.

Lemma win_ok_new rtt : win_ok (win (new_Channel (M := M) rtt)).
Proof.
  unfold new_Channel, win_ok, WINDOW_MAX, WINDOW_MAX_FAST, WINDOW_MAX_SLOW, WINDOW, WINDOW_MIN, WINDOW_FLEXIBILITY.
  cbn. case_goal; cbn; lia.
Qed.

Lemma win_ok_grow rtt w : win_ok w -> win_ok (grow rtt w).
Proof.
  unfold win_ok, grow, WINDOW_MAX, WINDOW_MAX_FAST, WINDOW_MAX_MEDIUM,
    WINDOW_MIN_LIMIT_FAST, WINDOW_MIN_LIMIT_MEDIUM. intros Hw.
  repeat case_goal; cbn; bools; lia.
Qed.

Lemma win_ok_shrink w : win_ok w -> win_ok (shrink w).
Proof.
  unfold win_ok, shrink. intros Hw. rewrite !Z.gtb_ltb.
  repeat case_goal; cbn; bools; lia.
Qed.

(** A packet that is awaited: undelivered, its two callbacks set and its timer
    armed. *)
Definition op_live (op : LinkOutletPacket) : Prop :=
  delivered op = false /\ deliveredCallback op = true /\ timeoutCallback op = true
  /\ timeoutTimer op = true /\ is_Some (timeout op).

(** Updates that do not change what a packet is awaited for. *)
Definition op_le (op op' : LinkOutletPacket) : Prop :=
  hashHex op' = hashHex op /\ delivered op' = delivered op /\ (op_live op -> op_live op').

#[local] Instance op_le_preorder : PreOrder op_le.
Proof.
  split; [by intros op | intros a b c (A1 & A2 & A3) (B1 & B2 & B3)].
  split; [congruence|]. split; [congruence|]. intros Ha. by apply B3, A3.
Qed.

Definition outlet_le o o' : Prop :=
  _sent o' = _sent o /\ forall k, option_relation op_le (fun _ => False) (fun _ => False) (ops o !! k) (ops o' !! k).

#[local] Instance outlet_le_preorder : PreOrder outlet_le.
Proof.
  split.
  - intros o. split; [done|]. intros k. destruct (ops o !! k); cbn; reflexivity || done.
  - intros a b c [A1 A2] [B1 B2]. split; [congruence|]. intros k.
    specialize (A2 k). specialize (B2 k).
    destruct (ops a !! k), (ops b !! k), (ops c !! k); cbn in *; try done. by etransitivity.
Qed.

Lemma outlet_le_update k f o : (forall op, ops o !! k = Some op -> op_le op (f op)) ->
  outlet_le o (update_op k f o).
Proof.
  intros Hf. split; [done|]. intros j. cbn. destruct (decide (k = j)) as [->|Hj].
  - rewrite list_lookup_alter_eq. destruct (ops o !! j) as [op|] eqn:E; cbn; [by apply (Hf op)|done].
  - rewrite list_lookup_alter_ne by done. destruct (ops o !! j); cbn; reflexivity || done.
Qed.

Lemma extendTimeout_le k t o : outlet_le o (extendTimeout k t o).
Proof.
  apply outlet_le_update. intros op _. destruct (delivered op) eqn:Ed; [reflexivity|].
  destruct (timeout op) eqn:Et; [|reflexivity]. destruct (Qltb _ _); [|reflexivity].
  unfold arm. cbn [set_timer delivered]. rewrite Ed.
  split; [|split]; [by destruct (timeoutCallback op)..|].
  intros (_ & H2 & H3 & _). rewrite H3. by repeat split.
Qed.

Lemma updateTimeouts_le rtt s :
  outlet_le (out s) (out (_updatePacketTimeouts rtt s))
  /\ ch (_updatePacketTimeouts rtt s) = ch s /\ pending (_updatePacketTimeouts rtt s) = pending s.
Proof.
  split_and!; [|done..]. unfold _updatePacketTimeouts. cbn.
  generalize (length (txRing (ch s))). intros len. generalize (out s).
  induction (txRing (ch s)) as [|e ring IH]; intros o; [cbn; reflexivity|]. cbn.
  etransitivity; [|apply IH]. destruct (packet e); [apply extendTimeout_le | reflexivity].
Qed.

(** ** The invariant

    [X] lists packets exempt from being awaited, in the middle of a step; a
    channel that was shut down awaits nothing. *)
Record ring_ok (alive : bool) (X : list nat) (ring : list Envelope) o : Prop := {
  ro_env : forall e, e ∈ ring -> exists k op, packet e = Some k /\ ops o !! k = Some op
             /\ (alive = true -> k ∉ X -> op_live op) /\ (1 <= tries e <= maxTries)%nat;
  ro_packets : NoDup (map packet ring);
  ro_hashes : NoDup (map hashHex (ops o));
  ro_sent : forall h k, get h (_sent o) = Some k -> hashHex <$> ops o !! k = Some h;
}.

Definition flight s : Z := zlen (txRing (ch s)) + match pending s with Some _ => 1 | None => 0 end.

Definition tx_inv (X : list nat) s : Prop :=
  win_ok (win (ch s)) /\ ring_ok (negb (shutDown (ch s))) X (txRing (ch s)) (out s)
  /\ flight s <= WINDOW_MAX /\ (forall e w, pending s = Some (e, w) -> tries e = 0%nat).

Lemma hashes_le o o' : outlet_le o o' -> map hashHex (ops o') = map hashHex (ops o).
Proof.
  intros [_ Hle]. apply list_eq. intros k. rewrite !list_lookup_fmap. specialize (Hle k).
  destruct (ops o !! k), (ops o' !! k); cbn in *; try done. f_equal. apply Hle.
Qed.

Lemma ring_ok_le b X ring o o' : outlet_le o o' -> ring_ok b X ring o -> ring_ok b X ring o'.
Proof.
  intros Hle [H1 H2 H3 H4]. pose proof Hle as [Hs Hk]. split; [|done| |].
  - intros e He. destruct (H1 e He) as (k & op & E1 & E2 & E3 & E4).
    specialize (Hk k). rewrite E2 in Hk. destruct (ops o' !! k) as [op'|] eqn:E; [|done].
    exists k, op'. split_and!; [done..| |lia|lia]. intros Hb HX. by apply Hk, E3.
  - by rewrite (hashes_le _ _ Hle).
  - intros h k. rewrite Hs. intros Hg. apply H4 in Hg. specialize (Hk k).
    destruct (ops o !! k), (ops o' !! k); cbn in *; try done. destruct Hk as (-> & _). done.
Qed.

Lemma find_tx_inv b X s k :
  ring_ok b X (txRing (ch s)) (out s) ->
  match find_tx k s with
  | Some (idx, e) => txRing (ch s) !! idx = Some e /\ packet e = Some k
  | None => Forall (fun e => packet e <> Some k) (txRing (ch s))
  end.
Proof.
  intros [H1 _ H3 _]. unfold find_tx.
  destruct (list_find _ _) as [[idx e]|] eqn:E.
  - apply list_find_Some in E as (Hi & He & _). split; [done|].
    destruct (H1 e) as (j & op & E1 & E2 & _); [by eapply list_elem_of_lookup_2|].
    rewrite E1 in He |- *. apply bool_decide_eq_true in He. unfold getPacketId in He.
    rewrite E2 in He. destruct (ops (out s) !! k) as [op'|] eqn:E3; [|done].
    injection He as He. f_equal. apply (NoDup_lookup _ j k (hashHex op) H3);
      rewrite list_lookup_fmap; [by rewrite E2 | rewrite E3; cbn; congruence].
  - apply list_find_None in E. rewrite Forall_forall in E |- *. intros e He Hk.
    apply (E e He). rewrite Hk. by apply bool_decide_eq_true.
Qed.

Lemma ring_ok_absent b k ring o : ring_ok b [k] ring o ->
  (forall e, e ∈ ring -> packet e <> Some k) -> ring_ok b [] ring o.
Proof.
  intros [H1 H2 H3 H4] Hf. split; [|done..].
  intros e He. destruct (H1 e He) as (j & op & E1 & E2 & E3 & E4).
  exists j, op. split_and!; [done|done| |lia|lia]. intros Hb _. apply (E3 Hb).
  intros ->%list_elem_of_singleton. by apply (Hf e He).
Qed.

Lemma ring_ok_live b k ring o : ring_ok b [k] ring o ->
  (forall op, ops o !! k = Some op -> op_live op) -> ring_ok b [] ring o.
Proof.
  intros [H1 H2 H3 H4] Hf. split; [|done..].
  intros e He. destruct (H1 e He) as (j & op & E1 & E2 & E3 & E4).
  exists j, op. split_and!; [done|done| |lia|lia]. intros Hb _.
  destruct (decide (j = k)) as [->|]; [by apply Hf|]. apply E3; [done|]. set_solver.
Qed.

Lemma hashes_update k f o : (forall op, hashHex (f op) = hashHex op) ->
  map hashHex (ops (update_op k f o)) = map hashHex (ops o).
Proof.
  intros Hf. apply list_eq. intros j. rewrite !list_lookup_fmap. cbn. rewrite list_lookup_alter.
  case_decide as Hj; [subst|done]. destruct (ops o !! j); [|done]. cbn. by rewrite Hf.
Qed.

(** Removing the envelope of packet [k] discharges its exemption. *)
Lemma txOp_inv rtt k s : tx_inv [k] s -> tx_inv [] (_packetTxOp rtt k s).
Proof.
  intros (HW & HR & HF & HP). pose proof (find_tx_inv _ _ _ k HR) as Hf. unfold _packetTxOp.
  destruct (find_tx k s) as [[idx e]|].
  - destruct Hf as [Hi Hk]. destruct HR as [H1 H2 H3 H4].
    assert (Hp : txRing (ch s) ≡ₚ e :: delete idx (txRing (ch s))) by (by apply delete_Permutation).
    split_and!; cbn; [by apply win_ok_grow| | |done].
    + split; [|..|done|done].
      * intros e' He'. destruct (H1 e') as (j & op & E1 & E2 & E3 & E4); [rewrite Hp; set_solver|].
        exists j, op. split_and!; [done|done| |lia|lia]. intros Hb _. apply (E3 Hb).
        intros ->%list_elem_of_singleton. rewrite Hp in H2. cbn in H2.
        apply NoDup_cons in H2 as [H2 _]. apply H2. rewrite Hk, <- E1. by apply list_elem_of_fmap_2.
      * rewrite Hp in H2. cbn in H2. by apply NoDup_cons in H2 as [_ H2].
    + unfold flight, zlen in *. cbn in *. apply lookup_lt_Some in Hi as Hl.
      rewrite length_delete by (by eexists). lia.
  - split_and!; [done| |done|done]. apply (ring_ok_absent _ k); [done|].
    rewrite Forall_forall in Hf. exact Hf.
Qed.

Lemma ring_ok_weaken b X Y ring o : ring_ok b X ring o -> (b = true -> X ⊆ Y) -> ring_ok b Y ring o.
Proof.
  intros [H1 H2 H3 H4] HXY. split; [|done..].
  intros e He. destruct (H1 e He) as (j & op & E1 & E2 & E3 & E4).
  exists j, op. split_and!; [done|done| |lia|lia]. intros Hb Hn. apply E3; [done|]. set_solver.
Qed.

Lemma ring_ok_exempt b k ring o f : ring_ok b [k] ring o ->
  (forall op, hashHex (f op) = hashHex op) -> ring_ok b [k] ring (update_op k f o).
Proof.
  intros [H1 H2 H3 H4] Hf. split; [|done| |].
  - intros e He. destruct (H1 e He) as (j & op & E1 & E2 & E3 & E4). cbn.
    destruct (decide (k = j)) as [->|Hj].
    + exists j, (f op). rewrite list_lookup_alter_eq, E2. split_and!; [done|done| |lia|lia].
      intros _ Hn. destruct Hn. set_solver.
    + exists j, op. rewrite list_lookup_alter_ne by done. split_and!; [done|done|done|lia|lia].
  - by rewrite hashes_update.
  - intros h j Hg. apply H4 in Hg. rewrite <- list_lookup_fmap in Hg |- *.
    etransitivity; [|exact Hg]. f_equal. by apply (hashes_update k f o).
Qed.

Lemma arm_hash b q op : hashHex (arm b q op) = hashHex op.
Proof. unfold arm. cbn. repeat case_goal; done. Qed.

(** Arming a packet discharges its exemption: it is awaited, or it was
    delivered meanwhile and its envelope leaves the ring. *)
Lemma arm_inv rtt k n s op :
  tx_inv [k] s -> ops (out s) !! k = Some op -> tx_inv [] (arm_packet rtt k n s).
Proof.
  intros (HW & HR & HF & HP) Hop. unfold arm_packet.
  set (q := Some (_getPacketTimeoutTime rtt (length (txRing (ch s))) n)).
  set (o2 := setPacketTimeoutCallback k true q (setPacketDeliveredCallback k true (out s))).
  set (s2 := mkState (ch s) o2 (pending s)).
  destruct (updateTimeouts_le rtt s2) as (Hle & Hc & Hp). set (s3 := _updatePacketTimeouts rtt s2) in *.
  assert (HR3 : ring_ok (negb (shutDown (ch s))) [k] (txRing (ch s)) (out s3)).
  { apply (ring_ok_le _ _ _ _ _ Hle). apply ring_ok_exempt; [|intros; apply arm_hash].
    apply ring_ok_exempt; [exact HR | done]. }
  assert (H3 : tx_inv [k] s3) by (unfold tx_inv, flight; rewrite Hc, Hp; done).
  destruct (is_delivered k (out s3)) eqn:Ed; [by apply txOp_inv|].
  unfold tx_inv. rewrite Hc, Hp. split_and!; [done| |unfold flight in *; rewrite Hc, Hp; done|done].
  apply (ring_ok_live _ k); [done|]. intros op3 E3.
  destruct Hle as [_ Hle]. specialize (Hle k). rewrite E3 in Hle.
  assert (E2 : ops (out s2) !! k = Some (arm true q (set_deliveredCb true op))).
  { cbn. by rewrite list_lookup_alter_eq, list_lookup_alter_eq, Hop. }
  rewrite E2 in Hle. destruct Hle as (_ & Hd & Hl). apply Hl.
  unfold is_delivered in Ed. rewrite E3 in Ed.
  rewrite Hd in Ed. unfold op_live, arm in *. cbn in *.
  destruct (delivered op) eqn:E; cbn in *; [by rewrite E in Ed|]. rewrite E. repeat split. by eexists.
Qed.

Lemma hashes_clear ring o :
  map hashHex (ops (foldl (fun o e => clear_packet e o) o ring)) = map hashHex (ops o).
Proof.
  revert o. induction ring as [|e ring IH]; intros o; [done|]. cbn [foldl]. rewrite IH.
  unfold clear_packet, setPacketDeliveredCallback, setPacketTimeoutCallback. destruct (packet e); [|done].
  rewrite !hashes_update; [done| |done]. intros; apply arm_hash.
Qed.

Lemma hashes_cleanup o : map hashHex (ops (_cleanup o)) = map hashHex (ops o).
Proof.
  unfold _cleanup. cbn. induction (values (_sent o)) as [|k ks IH]; [done|]. cbn [foldr].
  by rewrite hashes_update.
Qed.

Lemma shutdown_inv X s : tx_inv X s ->
  tx_inv [] (_shutdown s) /\ shutDown (ch (_shutdown s)) = true.
Proof.
  intros (HW & HR & HF & HP). unfold _shutdown. destruct (shutDown (ch s)) eqn:E.
  { split; [|done]. split_and!; [done| |done|done]. rewrite E in *. by eapply ring_ok_weaken. }
  split; [|done].
  split_and!; [done| |unfold flight, zlen in *; cbn; destruct (pending s); lia|done].
  destruct HR as [_ _ HN _]. split; cbn.
  - intros e He. by apply not_elem_of_nil in He.
  - constructor.
  - change (NoDup (map hashHex (ops (_cleanup (foldl (fun o e => clear_packet e o) (out s)
      (txRing (ch s))))))). by rewrite hashes_cleanup, hashes_clear.
  - done.
Qed.

(** ** Every step preserves the invariant *)

Lemma ring_ok_retry b X ring o idx e e' :
  ring_ok b X ring o -> ring !! idx = Some e -> packet e' = packet e -> (tries e' <= maxTries)%nat ->
  (1 <= tries e')%nat -> ring_ok b X (<[idx := e']> ring) o.
Proof.
  intros [H1 H2 H3 H4] Hi Hp Ht Ht'. split; [| |done..].
  - intros x Hx. apply list_elem_of_lookup in Hx as [j Hj].
    destruct (decide (idx = j)) as [->|Hne].
    + rewrite list_lookup_insert_eq in Hj by (by eapply lookup_lt_Some). injection Hj as <-.
      destruct (H1 e) as (k & op & E1 & E2 & E3 & E4); [by eapply list_elem_of_lookup_2|].
      exists k, op. rewrite Hp. auto.
    + rewrite list_lookup_insert_ne in Hj by done. apply H1. by eapply list_elem_of_lookup_2.
  - assert (map packet (<[idx := e']> ring) = map packet ring) as ->; [|done].
    etransitivity; [apply (list_fmap_insert packet)|]. apply list_insert_id.
    rewrite Hp, list_lookup_fmap. by rewrite Hi.
Qed.

(** What an expired timer of an awaited packet does: a retry, or the end of
    the channel and of its link. *)
Lemma packetTimeout_inv rtt k s : tx_inv [k] s -> is_delivered k (out s) = false ->
  tx_inv [] (fst (_packetTimeout rtt k s)).
Proof.
  intros (HW & HR & HF & HP) Hd. unfold _packetTimeout. rewrite Hd.
  pose proof (find_tx_inv _ _ _ k HR) as Hf. destruct (find_tx k s) as [[idx e]|].
  2:{ split_and!; [done| |done|done]. apply (ring_ok_absent _ k); [done|].
      rewrite Forall_forall in Hf. exact Hf. }
  destruct Hf as [Hi Hk]. destruct (maxTries <=? tries e)%nat eqn:Et.
  { apply (shutdown_inv [k]). by split_and!. }
  bools. cbn [fst]. rewrite Hk. cbn [default from_option id].
  pose proof HR as [H1 _ _ _].
  destruct (H1 e) as (j & op & E1 & E2 & _); [by eapply list_elem_of_lookup_2|].
  rewrite Hk in E1. injection E1 as <-. eapply arm_inv; [|exact E2].
  split_and!; cbn; [by apply win_ok_shrink| | |done].
  - eapply ring_ok_retry; [done..| |]; cbn; lia.
  - unfold flight, zlen in *. cbn. by rewrite length_insert.
Qed.

Lemma timer_inv rtt k s : tx_inv [] s -> tx_inv [] (fst (timer_fires rtt k s)).
Proof.
  intros (HW & HR & HF & HP). unfold timer_fires.
  destruct (ops (out s) !! k) as [op|] eqn:Eop; [|by split_and!].
  destruct (timeoutTimer op) eqn:Et; cbn [negb]; [|by split_and!].
  set (s' := mkState _ _ _).
  assert (Hs' : tx_inv [k] s').
  { split_and!; [done| |done|done]. apply ring_ok_exempt; [|done]. eapply ring_ok_weaken; [done|]. set_solver. }
  assert (Habs : ~ op_live op -> negb (shutDown (ch s)) = true -> forall e, e ∈ txRing (ch s) -> packet e <> Some k).
  { intros Hn Hb e He Hk. destruct HR as [H1 _ _ _]. destruct (H1 e He) as (j & op' & E1 & E2 & E3 & _).
    rewrite Hk in E1. injection E1 as <-. rewrite Eop in E2. injection E2 as <-.
    apply Hn, E3; [done|]. apply not_elem_of_nil. }
  assert (Hdrop : ~ op_live op -> tx_inv [] s').
  { intros Hn. destruct Hs' as (A & B & C & D). split_and!; [done| |done|done].
    destruct (negb (shutDown (ch s'))) eqn:Eb.
    - apply (ring_ok_absent _ k); [done|]. by apply Habs.
    - by eapply ring_ok_weaken. }
  destruct (delivered op) eqn:Ed; [apply Hdrop; unfold op_live; rewrite Ed; naive_solver|].
  destruct (timeoutCallback op) eqn:Ec; [|apply Hdrop; unfold op_live; rewrite Ec; naive_solver].
  apply packetTimeout_inv; [done|]. unfold is_delivered. cbn.
  by rewrite list_lookup_alter_eq, Eop.
Qed.

Lemma emplace_Permutation next e ring ring' : emplace next e ring = Some ring' -> ring' ≡ₚ e :: ring.
Proof.
  revert ring'. induction ring as [|x ring IH]; intros ring' E; cbn in E; [by injection E as <-|].
  destruct (_ =? _); [done|]. destruct (_ && _); [by injection E as <-|].
  destruct (emplace next e ring) as [r|]; [|done]. injection E as <-.
  rewrite (IH r eq_refl). constructor.
Qed.

Lemma existsb_early h (l : list jsstr) : existsb (fun x => bool_decide (x = h)) l = true -> h ∈ l.
Proof. intros (x & Hx & E)%existsb_exists. bools. subst. by apply list_elem_of_In. Qed.

Lemma register_ring_ok b ring o h w :
  ring_ok b [] ring o -> h ∉ map hashHex (ops o) ->
  ring_ok b [length (ops o)] ring (snd (register_op h w o)).
Proof.
  intros [H1 H2 H3 H4] Hh. split; [|done| |].
  - intros e He. destruct (H1 e He) as (k & op & E1 & E2 & E3 & E4). exists k, op.
    cbn. rewrite lookup_app_l by (by eapply lookup_lt_Some).
    split_and!; [done|done| |lia|lia]. intros Hb _. apply E3; [done|]. apply not_elem_of_nil.
  - cbn. rewrite map_app. apply NoDup_app. split_and!; [done| |apply NoDup_singleton].
    cbn. intros x Hx ->%list_elem_of_singleton. done.
  - cbn. intros h' k Hg. destruct (decide (h' = h)) as [->|Hne].
    + rewrite get_mset_same in Hg. injection Hg as <-. by rewrite list_lookup_middle.
    + rewrite get_mset_other in Hg by done. apply H4 in Hg.
      destruct (ops o !! k) as [op|] eqn:E; [|done]. by erewrite lookup_app_l_Some.
Qed.

Lemma send_done_inv rtt h s : tx_inv [] s -> h ∉ map hashHex (ops (out s)) ->
  tx_inv [] (fst (send_done rtt h s)).
Proof.
  intros (HW & HR & HF & HP) Hh. unfold send_done.
  destruct (pending s) as [[e w]|] eqn:Ep; [|split_and!; [done..|]; cbn; by rewrite Ep].
  specialize (HP e w eq_refl). pose proof (register_ring_ok _ _ _ h w HR Hh) as HR'.
  destruct (register_op h w (out s)) as [k o] eqn:Er. injection Er as <- Ho. cbn [snd] in HR'.
  set (e' := mkEnvelope _ _ _ _ _). cbn [fst].
  assert (Hk : ops o !! length (ops (out s)) = Some (mkOp h w
     (existsb (fun x => bool_decide (x = h)) (_earlyDelivered (out s))) None false false false)).
  { rewrite <- Ho. cbn. by rewrite list_lookup_middle. }
  eapply arm_inv; [|exact Hk]. split_and!; cbn; [done| | |done].
  - destruct (_emplaceEnvelope _ e' _) as [r|] eqn:Ee; [|done].
    apply emplace_Permutation in Ee. destruct HR' as [H1 H2 H3 H4]. split; [| |done..]; cbn.
    + intros x Hx. rewrite Ee in Hx. apply elem_of_cons in Hx as [->|Hx]; [|by apply H1].
      eexists _, _. split_and!; [done|exact Hk| |cbn; rewrite HP; unfold maxTries; lia..].
      intros _ Hn. destruct Hn. set_solver.
    + rewrite Ee. cbn. constructor; [|done]. intros (x & Hx & Hin)%list_elem_of_fmap.
      destruct HR as [H1' _ _ _]. destruct (H1' x Hin) as (j & op & E1 & E2 & _).
      rewrite E1 in Hx. injection Hx as <-. apply lookup_lt_Some in E2. lia.
  - unfold flight, zlen in *. cbn. rewrite Ep in HF.
    destruct (_emplaceEnvelope _ e' _) as [r|] eqn:Ee; cbn; [|lia].
    apply emplace_Permutation, Permutation_length in Ee. cbn in Ee. lia.
Qed.

Lemma outstanding_all s : tx_inv [] s -> shutDown (ch s) = false ->
  outstanding s = zlen (txRing (ch s)).
Proof.
  intros (_ & [H1 _ _ _] & _) Hs. unfold outstanding. f_equal. rewrite Hs in H1.
  induction (txRing (ch s)) as [|e ring IH]; [done|].
  destruct (H1 e) as (k & op & E1 & E2 & E3 & _); [set_solver|].
  destruct E3 as [Hd _]; [done|apply not_elem_of_nil|].
  rewrite filter_cons_True by (rewrite E1; unfold is_delivered; by rewrite E2).
  f_equal. apply IH. intros e' He'. apply H1. set_solver.
Qed.

Lemma send_begin_inv mdu m s s' : tx_inv [] s -> pending s = None ->
  send_begin mdu m s = Ok s' -> tx_inv [] s'.
Proof.
  intros Hs Hp Hb. pose proof Hs as (HW & HR & HF & HP). unfold send_begin in Hb.
  destruct (shutDown (ch s)) eqn:Esh; [done|]. cbn [orb] in Hb.
  destruct (isReadyToSend s) eqn:Er; [|done]. cbn [negb] in Hb. unfold isReadyToSend in Er.
  rewrite outstanding_all in Er by done. bools.
  apply rbind_ok in Hb as (w & _ & Hb). destruct (_ >? mdu); [done|]. injection Hb as <-.
  split_and!; cbn; [done|by rewrite ?Esh|..].
  - unfold flight. cbn. destruct HW as (? & ? & ? & _). lia.
  - by intros e w' [= <- <-].
Qed.

Lemma markDelivered_inv rtt h s : tx_inv [] s -> tx_inv [] (_markDelivered rtt h s).
Proof.
  intros Hs. pose proof Hs as (HW & HR & HF & HP). unfold _markDelivered.
  destruct (listening (out s)); cbn [negb]; [|done].
  destruct (get h (_sent (out s))) as [k|] eqn:Eg; [|destruct HR; by split_and!].
  pose proof (ro_sent _ _ _ _ HR _ _ Eg) as Hk.
  destruct (ops (out s) !! k) as [op|] eqn:Eop; [|done].
  destruct (is_delivered k (out s)) eqn:Ed; [done|].
  set (s' := mkState _ _ _).
  assert (Hs' : tx_inv [k] s').
  { assert (HX : ring_ok (negb (shutDown (ch s))) [k] (txRing (ch s))
      (update_op k (fun op => set_timer false (set_delivered op)) (out s))).
    { apply ring_ok_exempt; [|done]. eapply ring_ok_weaken; [done|]. set_solver. }
    split_and!; [done| |done|done]. destruct HX as [H1 H2 H3 H4]. split; try done.
    cbn. intros h' k' Hg. apply (H4 h'). cbn. destruct (decide (h' = h)) as [->|Hne].
    - by rewrite get_mdelete_same in Hg.
    - by rewrite get_mdelete_other in Hg. }
  destruct (deliveredCallback op) eqn:Ec; [by apply txOp_inv|].
  destruct Hs' as (A & B & C & D). split_and!; [done| |done|done].
  destruct (negb (shutDown (ch s'))) eqn:Eb; [|by eapply ring_ok_weaken].
  apply (ring_ok_absent _ k); [done|]. intros e He Hek. destruct HR as [H1 _ _ _].
  destruct (H1 e He) as (j & op' & E1 & E2 & E3 & _). rewrite Hek in E1. injection E1 as <-.
  rewrite Eop in E2. injection E2 as <-. destruct E3 as (_ & Hc & _); [done|apply not_elem_of_nil|].
  by rewrite Hc in Ec.
Qed.

Lemma receive_frame raw (c : Channel (M := M)) : exists ring next,
  fst (_receive raw c) = set_rx c ring next.
Proof.
  unfold _receive. assert (Hc : c = set_rx c (rxRing c) (nextRxSequence c)) by (by destruct c).
  destruct (Envelope_unpack _ _) as [e|]; [|eauto]. destruct (negb _); [eauto|].
  destruct (_emplaceEnvelope _ _ _) as [r|]; [|eauto].
  destruct (drain _ _ _) as [[cs r'] n']. cbn. eauto.
Qed.

Lemma step_inv rtt mdu i s : tx_inv [] s -> input_ok s i -> tx_inv [] (fst (step rtt mdu i s)).
Proof.
  intros Hs Hi. destruct i as [m|h| |h|k|raw|]; cbn [step].
  - destruct (pending s) eqn:Ep; [done|]. destruct (send_begin mdu m s) eqn:Eb; [|done].
    by eapply send_begin_inv.
  - by apply send_done_inv.
  - unfold send_failed. destruct Hs as (HW & HR & HF & HP). destruct (pending s) as [[e w]|] eqn:Ep.
    + split_and!; [done|done| |done]. unfold flight in *. cbn. rewrite Ep in HF. lia.
    + split_and!; [done..|]. cbn. by rewrite Ep.
  - by apply markDelivered_inv.
  - by apply timer_inv.
  - pose proof (receive_frame raw (ch s)) as (r & n & E). destruct (_receive raw (ch s)) as [c evs].
    cbn in E |- *. subst c. exact Hs.
  - by apply (shutdown_inv []).
Qed.

Lemma reachable_inv evs s : reachable evs s -> tx_inv [] s.
Proof.
  induction 1 as [rtt|evs s rtt mdu i Hr IH Hi]; [|by apply step_inv].
  split_and!; [apply win_ok_new| |unfold flight, zlen, WINDOW_MAX, WINDOW_MAX_FAST; cbn; lia|done].
  split; cbn; [|constructor|constructor|done]. intros e He. by apply not_elem_of_nil in He.
Qed.

Lemma arm_undelivered rtt k n s op : ops (out s) !! k = Some op -> delivered op = false ->
  ch (arm_packet rtt k n s) = ch s.
Proof.
  intros Hop Hd. unfold arm_packet.
  set (o2 := setPacketTimeoutCallback _ _ _ _). set (s2 := mkState (ch s) o2 (pending s)).
  destruct (updateTimeouts_le rtt s2) as ([_ Hle] & Hc & _). specialize (Hle k).
  assert (is_delivered k (out (_updatePacketTimeouts rtt s2)) = false) as ->; [|done].
  unfold is_delivered.
  destruct (ops (out (_updatePacketTimeouts rtt s2)) !! k) as [op'|]; [|done].
  assert (E2 : exists q, ops (out s2) !! k = Some (arm true q (set_deliveredCb true op))).
  { eexists. cbn. by rewrite list_lookup_alter_eq, list_lookup_alter_eq, Hop. }
  destruct E2 as [q E2]. rewrite E2 in Hle. destruct Hle as (_ & -> & _).
  unfold arm. cbn. rewrite Hd. cbn. by destruct q.
Qed.

Lemma find_tx_ring b X s e k : ring_ok b X (txRing (ch s)) (out s) ->
  e ∈ txRing (ch s) -> packet e = Some k ->
  exists idx, find_tx k s = Some (idx, e) /\ txRing (ch s) !! idx = Some e.
Proof.
  intros HR He Hk. pose proof (find_tx_inv _ _ _ k HR) as Hf.
  destruct (find_tx k s) as [[idx e']|].
  - destruct Hf as [Hi Hk']. exists idx. apply list_elem_of_lookup in He as [j Hj].
    assert (idx = j) as ->.
    { destruct HR as [_ H2 _ _]. apply (NoDup_lookup _ idx j (Some k) H2);
        rewrite list_lookup_fmap; [by rewrite Hi, <- Hk' | by rewrite Hj, <- Hk]. }
    split; [|done]. rewrite Hj in Hi. injection Hi as ->. done.
  - rewrite Forall_forall in Hf. by destruct (Hf e He).
Qed.

(** ** Numbering *)

Definition transmitted (evs : list (event (M := M))) : list (Z * bytes) :=
  omap (fun ev => match ev with Transmitted q w => Some (q, w) | _ => None end) evs.

(** [w] is the wire form of some message under number [q]. *)
Definition packed_as (n : Z) (x : Z * bytes) : Prop :=
  fst x = n mod SEQ_MODULUS /\ exists m : M, Envelope_pack (fst x) m = Ok (snd x).

Definition seq_inv (evs : list (event (M := M))) s : Prop :=
  let n := zlen (transmitted evs) in
  Forall2 packed_as (seqZ 0 n) (transmitted evs)
  /\ match pending s with
     | Some (e, w) => packed_as n (sequence e, w) /\ nextSequence (ch s) = (n + 1) mod SEQ_MODULUS
     | None => nextSequence (ch s) = n mod SEQ_MODULUS
     end.

Definition same_seq s s' : Prop :=
  nextSequence (ch s') = nextSequence (ch s) /\ pending s' = pending s.

#[local] Instance same_seq_preorder : PreOrder same_seq.
Proof. split; [done|]. intros a b c [] []. split; congruence. Qed.

Lemma txOp_seq rtt k s : same_seq s (_packetTxOp rtt k s).
Proof. unfold _packetTxOp. by destruct (find_tx k s) as [[? ?]|]. Qed.

Lemma arm_seq rtt k n s : same_seq s (arm_packet rtt k n s).
Proof. unfold arm_packet. destruct (is_delivered _ _); [|done]. etransitivity; [|apply txOp_seq]. done. Qed.

Lemma shutdown_seq s : same_seq s (_shutdown s).
Proof. unfold _shutdown. by destruct (shutDown (ch s)). Qed.

Lemma markDelivered_seq rtt h s : same_seq s (_markDelivered rtt h s).
Proof.
  unfold _markDelivered. destruct (negb _); [done|]. destruct (get h _); [|done].
  destruct (is_delivered _ _); [done|]. destruct (_ !! _) as [op|]; [|done].
  destruct (deliveredCallback op); [|done].
  etransitivity; [|apply txOp_seq]. done.
Qed.

Lemma packetTimeout_seq rtt k s :
  same_seq s (fst (_packetTimeout rtt k s)) /\ transmitted (snd (_packetTimeout rtt k s)) = [].
Proof.
  unfold _packetTimeout. destruct (is_delivered _ _); [done|].
  destruct (find_tx k s) as [[idx e]|]; [|done]. destruct (_ <=? _)%nat.
  - split; [apply shutdown_seq|done].
  - split; [|done]. etransitivity; [|apply arm_seq]. done.
Qed.

Lemma timer_seq rtt k s :
  same_seq s (fst (timer_fires rtt k s)) /\ transmitted (snd (timer_fires rtt k s)) = [].
Proof.
  unfold timer_fires. destruct (_ !! k) as [op|]; [|done]. destruct (negb _); [done|].
  destruct (delivered op); [done|]. destruct (timeoutCallback op); [|done].
  set (s' := mkState _ _ _). destruct (packetTimeout_seq rtt k s') as [A B].
  split; [|exact B]. etransitivity; [|exact A]. done.
Qed.

Lemma run_handlers_transmitted cbs (m : M) : transmitted (run_handlers cbs m) = [].
Proof. induction cbs as [|h cbs IH]; [done|]. cbn. by destruct (call h m) as [[]|]. Qed.

Lemma receive_seq raw c : transmitted (snd (_receive raw c)) = [].
Proof.
  unfold _receive. destruct (Envelope_unpack _ _) as [e|]; [|done]. destruct (negb _); [done|].
  destruct (_emplaceEnvelope _ _ _) as [r|]; [|done]. destruct (drain _ _ _) as [[cs r'] n']. cbn.
  induction cs as [|x cs IH]; [done|]. cbn. unfold transmitted in *. rewrite omap_app, IH, app_nil_r.
  destruct (message x); [apply run_handlers_transmitted|done].
Qed.

Lemma seq_inv_frame evs evs' s s' :
  seq_inv evs s -> same_seq s s' -> transmitted evs' = [] -> seq_inv (evs ++ evs') s'.
Proof.
  intros Hs [E1 E2] E3. unfold seq_inv. unfold transmitted in *. rewrite omap_app, E3, app_nil_r, E1, E2.
  exact Hs.
Qed.

Lemma seq_inv_begin evs mdu m s s' : seq_inv evs s -> pending s = None ->
  send_begin mdu m s = Ok s' -> seq_inv (evs ++ []) s'.
Proof.
  intros [H1 H2] Hp Hb. rewrite Hp in H2. unfold send_begin in Hb. destruct (_ || _); [done|].
  apply rbind_ok in Hb as (w & Hw & Hb). destruct (_ >? mdu); [done|]. injection Hb as <-.
  rewrite app_nil_r. split; [done|]. cbn. split.
  - split; [done|]. by exists m.
  - rewrite H2. by rewrite Zplus_mod_idemp_l.
Qed.

Lemma seq_inv_done evs rtt h s : seq_inv evs s ->
  seq_inv (evs ++ snd (send_done rtt h s)) (fst (send_done rtt h s)).
Proof.
  intros Hs. unfold send_done. destruct (pending s) as [[e w]|] eqn:Ep.
  2:{ by apply (seq_inv_frame _ _ s). }
  destruct Hs as [H1 H2]. rewrite Ep in H2. destruct H2 as [H2 H3].
  destruct (register_op h w (out s)) as [k o]. cbn [fst snd].
  destruct (arm_seq rtt k (S (tries e)) (mkState (set_tx (ch s) (default (txRing (ch s))
    (_emplaceEnvelope (ch s) (mkEnvelope (message e) (raw e) (Some k) (sequence e) (S (tries e)))
       (txRing (ch s))))) o None)) as [A1 A2].
  assert (E : transmitted (evs ++ [Transmitted (sequence e) w]) = transmitted evs ++ [(sequence e, w)])
    by (unfold transmitted; by rewrite omap_app).
  unfold seq_inv. rewrite E, zlen_app. cbn [tries] in *. rewrite A2, A1. cbn. split; [|exact H3].
  rewrite seqZ_app by (unfold zlen; lia). apply Forall2_app; [done|].
  rewrite seqZ_cons by (unfold zlen; cbn; lia). constructor; [exact H2|].
  unfold zlen. cbn. constructor.
Qed.

Lemma step_seq evs rtt mdu i s : seq_inv evs s ->
  seq_inv (evs ++ snd (step rtt mdu i s)) (fst (step rtt mdu i s)).
Proof.
  intros Hs. destruct i as [m|h| |h|k|raw|]; cbn [step].
  - destruct (pending s) eqn:Ep; [by apply (seq_inv_frame _ _ s)|].
    destruct (send_begin mdu m s) eqn:Eb; [by eapply seq_inv_begin | by apply (seq_inv_frame _ _ s)].
  - by apply seq_inv_done.
  - cbn [fst snd]. rewrite app_nil_r. unfold send_failed.
    destruct (pending s) as [[e w]|] eqn:Ep; [|done]. destruct Hs as [H1 H2]. rewrite Ep in H2.
    split; [done|]. cbn. apply H2.
  - apply (seq_inv_frame _ _ s); [done|apply markDelivered_seq|done].
  - apply (seq_inv_frame _ _ s); [done|apply timer_seq..].
  - pose proof (receive_frame raw (ch s)) as (r & n & E). pose proof (receive_seq raw (ch s)) as E'.
    destruct (_receive raw (ch s)) as [c e]. cbn in E, E' |- *. subst c. by apply (seq_inv_frame _ _ s).
  - apply (seq_inv_frame _ _ s); [done|apply shutdown_seq|done].
Qed.

Lemma reachable_seq evs s : reachable evs s -> seq_inv evs s.
Proof. induction 1; [split; [constructor|done] | by apply step_seq]. Qed.

End Sender.

(** ** Properties: sending *)

(** Flow control in every reachable state: the window stays between 1 and the
    maximum, the maximum within 48, at most 48 messages are outstanding, and
    unless the channel was shut down every one of them is still awaited, with
    its timer armed, its proof callback set and 1 to 5 transmissions made. *)
Theorem channel_flow_control `{MessageApi M} (evs : list (event (M := M))) (s : State (M := M))
    (Hr : reachable evs s) :
  1 <= window (win (ch s)) <= windowMax (win (ch s))
  /\ windowMin (win (ch s)) <= windowMax (win (ch s)) <= 48
  /\ zlen (txRing (ch s)) <= 48
  /\ forall e, e ∈ txRing (ch s) -> (1 <= tries e <= 5)%nat
       /\ (shutDown (ch s) = false ->
           exists k op, packet e = Some k /\ ops (out s) !! k = Some op /\ op_live op).
Proof.
  destruct (reachable_inv evs s Hr) as ((W1 & W2 & W3 & _) & [R _ _ _] & F & _).
  unfold WINDOW_MAX, WINDOW_MAX_FAST, flight, zlen in *. split_and!; try lia.
  { destruct (pending s); lia. }
  intros e He. destruct (R e He) as (k & op & E1 & E2 & E3 & E4). unfold maxTries in E4.
  split; [done|]. intros Hs. exists k, op. rewrite Hs in E3. split_and!; [done..|].
  apply E3; [done|apply not_elem_of_nil].
Qed.

(** The envelopes a channel hands to its link carry the numbers 0, 1, 2, ...
    modulo 65536 in this order, whatever sends are refused, too big, or rejected
    by the link in between: what [channel_in_order] asks of its sender. *)
Theorem channel_numbering `{MessageApi M} (evs : list (event (M := M))) (s : State (M := M))
    (Hr : reachable evs s) (k : nat) (q : Z) (w : bytes)
    (Hk : transmitted evs !! k = Some (q, w)) :
  q = Z.of_nat k mod SEQ_MODULUS /\ exists m : M, Envelope_pack q m = Ok w.
Proof.
  destruct (reachable_seq evs s Hr) as [HF _].
  destruct (Forall2_lookup_r _ _ _ _ _ HF Hk) as (n & Hn & H1 & H2).
  apply lookup_seqZ in Hn as [-> _]. done.
Qed.

(** An outstanding envelope with its packet. *)
Definition awaited {M : Type} (s : State (M := M)) (e : Envelope (M := M)) (k : nat) : Prop :=
  shutDown (ch s) = false /\ e ∈ txRing (ch s) /\ packet e = Some k.

(** The timer of an awaited packet: below five transmissions the same packet is
    sent again, the count goes up and the packet is awaited anew; at five the
    channel shuts down and tears its link down. *)
Theorem channel_retry `{MessageApi M} (evs : list (event (M := M))) (s : State (M := M))
    (rtt : Z) (e : Envelope (M := M)) (k : nat)
    (Hr : reachable evs s) (Hw : awaited s e k) :
  let '(s', out') := timer_fires rtt k s in
  if (tries e <? 5)%nat then
    out' = [Retransmitted k] /\ shutDown (ch s') = false
    /\ exists e', awaited s' e' k /\ tries e' = S (tries e)
         /\ window (win (ch s')) <= window (win (ch s))
  else out' = [LinkTeardown] /\ shutDown (ch s') = true /\ txRing (ch s') = [].
Proof.
  destruct Hw as (Hs & He & Hk).
  pose proof (reachable_inv evs s Hr) as (_ & HR & _). pose proof HR as [H1 _ _ _].
  destruct (H1 e He) as (j & op & E1 & E2 & E3 & E4). rewrite Hk in E1. injection E1 as <-.
  rewrite Hs in E3. destruct E3 as (Ld & _ & Lc & Lt & _); [done|apply not_elem_of_nil|].
  unfold timer_fires. rewrite E2, Lt, Ld, Lc. cbn [negb].
  set (s1 := mkState _ _ _). assert (Hu : ops (out s1) !! k = Some (set_timer false op))
    by (cbn; by rewrite list_lookup_alter_eq, E2).
  assert (HR1 : ring_ok true [k] (txRing (ch s1)) (out s1)).
  { rewrite Hs in HR. apply ring_ok_exempt; [|done]. eapply ring_ok_weaken; [done|]. set_solver. }
  destruct (find_tx_ring _ _ s1 e k HR1 He Hk) as (idx & Ef & Hi).
  unfold _packetTimeout. unfold is_delivered. rewrite Hu. cbn [delivered set_timer]. rewrite Ld, Ef.
  unfold maxTries. destruct (tries e <? 5)%nat eqn:Et; bools.
  - rewrite (proj2 (Nat.leb_gt _ _)) by lia. rewrite Hk. cbn [default from_option id].
    set (s2 := mkState (set_win _ _) _ _). set (n := tries _).
    pose proof (arm_undelivered rtt k n s2 _ Hu Ld) as Ha. rewrite Ha. cbn. split_and!; [done..|].
    exists (mkEnvelope (message e) (raw e) (Some k) (sequence e) (S (tries e))).
    split; [|split; [done|]].
    + unfold awaited. cbn [tries] in n. change (S (tries e)) with n. rewrite Ha.
      split; [done|]. split; [|done]. apply list_elem_of_lookup. exists idx.
      apply list_lookup_insert_eq. by eapply lookup_lt_Some.
    + unfold shrink. destruct (_ >? _); cbn; lia.
  - rewrite (proj2 (Nat.leb_le _ _)) by lia. unfold _shutdown. cbn [ch s1]. rewrite Hs. done.
Qed.

(** ** End to end *)

Section EndToEnd.
Context {M : Type} `{MessageApi M}.

(** A list of transmissions as total functions of the message number; numbers
    past its end are filled with [m0]. *)
Definition nth_message (ms : list M) (m0 : M) (i : Z) : M :=
  if decide (0 <= i) then nth (Z.to_nat i) ms m0 else m0.

Definition nth_wire (ms : list M) (m0 : M) (i : Z) : bytes :=
  match Envelope_pack (i mod SEQ_MODULUS) (nth_message ms m0 i) with Ok w => w | Throw _ => [] end.

Lemma nth_message_decodable factories ms m0 i :
  decodable factories m0 -> Forall (decodable factories) ms -> decodable factories (nth_message ms m0 i).
Proof.
  intros H0 HF. unfold nth_message. destruct (decide _); [|done].
  destruct (nth_in_or_default (Z.to_nat i) ms m0) as [Hin|Hd]; [|by rewrite Hd].
  rewrite Forall_forall in HF. by apply HF, list_elem_of_In.
Qed.

Lemma nth_wire_ok factories ms m0 i :
  decodable factories m0 -> Forall (decodable factories) ms ->
  Envelope_pack (i mod SEQ_MODULUS) (nth_message ms m0 i) = Ok (nth_wire ms m0 i).
Proof.
  intros H0 HF. unfold nth_wire.
  destruct (envelope_roundtrip factories (nth_message ms m0 i) (i mod SEQ_MODULUS)) as (w & E & _).
  - by apply nth_message_decodable.
  - by apply Z.mod_pos_bound.
  - by rewrite E.
Qed.

Lemma take_as_seqZ (ms : list M) m0 n : (n <= length ms)%nat ->
  map (nth_message ms m0) (seqZ 0 (Z.of_nat n)) = take n ms.
Proof.
  intros Hn. apply list_eq. intros k. rewrite list_lookup_fmap.
  destruct (decide (k < n)%nat) as [Hk|Hk].
  - rewrite lookup_take_lt, (proj2 (lookup_seqZ 0 (Z.of_nat n) k (Z.of_nat k))) by lia. cbn.
    unfold nth_message. rewrite decide_True, Nat2Z.id by lia.
    destruct (ms !! k) as [m|] eqn:E; [by rewrite (nth_lookup_Some _ _ _ _ E)|].
    apply lookup_ge_None in E. lia.
  - rewrite lookup_seqZ_ge, lookup_take_ge by lia. done.
Qed.

Lemma transmissions_as_wires (evs : list (event (M := M))) (s : State (M := M)) ms m0 arrivals :
  reachable evs s ->
  Forall2 (fun x m => Envelope_pack (fst x) m = Ok (snd x)) (transmitted evs) ms ->
  Forall (fun i => 0 <= i < zlen (transmitted evs)) arrivals ->
  map (fun i => snd (nth (Z.to_nat i) (transmitted evs) (0, []))) arrivals
  = map (nth_wire ms m0) arrivals.
Proof.
  intros Hr Hms Hsent. apply map_ext_in. intros i Hi%list_elem_of_In.
  rewrite Forall_forall in Hsent. apply Hsent in Hi. unfold zlen in Hi.
  destruct (lookup_lt_is_Some_2 (transmitted evs) (Z.to_nat i)) as [[q w] Eq]; [lia|].
  rewrite (nth_lookup_Some _ _ _ _ Eq). cbn.
  destruct (Forall2_lookup_l _ _ _ _ _ Hms Eq) as (m & Em & Ep). cbn in Ep.
  destruct (reachable_seq evs s Hr) as [HF _].
  destruct (Forall2_lookup_r _ _ _ _ _ HF Eq) as (k & Hk & Hq & _).
  apply lookup_seqZ in Hk as [-> _]. cbn in Hq.
  unfold nth_wire, nth_message. rewrite decide_True by lia.
  rewrite (nth_lookup_Some _ _ _ _ Em). rewrite Hq in Ep.
  rewrite Z2Nat.id, Z.add_0_l in Ep by lia. by rewrite Ep.
Qed.

End EndToEnd.

(** C12: A channel is a FIFO as long as the sequence numbers are not ambiguous.
    Take any run of a sender and a delivery of its transmissions to a fresh
    receiver of one of two kinds: arrivals of the first 65535 transmissions
    only, in any order and number of copies, but for a copy of a message after
    the one 65487 behind it; or arrivals of any number of transmissions, each
    once, none before every transmission more than 48 behind it.  In either
    some may be missing.  The receiver's handlers then see exactly the first
    [n] messages the sender transmitted, in order and once each, where [n] is
    the number of the first transmission that has not arrived.  Outside of
    these it fails: a copy that comes late, a whole turn of the sequence
    numbers behind, is taken for a new message ([channel_stale_after_wrap],
    [channel_duplicate_at_wrap]). *)
Theorem channel_fifo `{MessageApi M} (evs : list (event (M := M))) (s : State (M := M))
    (c : Channel (M := M)) (ms : list M) (arrivals : list Z)
    (Hr : reachable evs s)
    (Hms : Forall2 (fun x m => Envelope_pack (fst x) m = Ok (snd x)) (transmitted evs) ms)
    (Hdec : Forall (decodable (messageFactories c)) ms)
    (Hring : rxRing c = []) (Hnext : nextRxSequence c = 0)
    (Hsent : Forall (fun i => 0 <= i < zlen (transmitted evs)) arrivals)
    (Ha : epoch_arrivals arrivals \/ windowed_arrivals 0 arrivals) :
  exists n c', (n <= length ms)%nat
    /\ receive_all (map (fun i => snd (nth (Z.to_nat i) (transmitted evs) (0, []))) arrivals) c
       = (c', flat_map (run_handlers (messageCallbacks c)) (take n ms))
    /\ (forall j, (j < n)%nat -> Z.of_nat j ∈ arrivals) /\ Z.of_nat n ∉ arrivals.
Proof.
  destruct ms as [|m0 ms'] eqn:Ems.
  { apply Forall2_nil_inv_r in Hms. rewrite Hms in Hsent.
    destruct arrivals as [|i a]; [|inv Hsent; unfold zlen in *; cbn in *; lia].
    exists 0%nat, c. split_and!; [done|done|lia|apply not_elem_of_nil]. }
  rewrite <- Ems in *. assert (H0 : decodable (messageFactories c) m0) by (subst; by inv Hdec).
  set (msg := nth_message ms m0). set (wire := nth_wire ms m0).
  assert (Hd : forall i, decodable (messageFactories c) (msg i))
    by (intros; by apply nth_message_decodable).
  assert (Hw : forall i, Envelope_pack (i mod SEQ_MODULUS) (msg i) = Ok (wire i))
    by (intros; by eapply nth_wire_ok).
  pose proof (Forall2_length _ _ _ Hms) as Hlen.
  rewrite (transmissions_as_wires evs s ms m0) by done. fold wire.
  assert (I0 : rx_inv msg wire (messageFactories c) (messageCallbacks c) 0 0 [] [] c).
  { split; try done; [constructor| |lia|]; intros; set_solver. }
  assert (HX : exists n c', receive_all (map wire arrivals) c
      = (c', flat_map (run_handlers (messageCallbacks c)) (map msg (seqZ 0 n)))
      /\ 0 <= n /\ (forall j, 0 <= j < n -> j ∈ arrivals) /\ n ∉ arrivals).
  { destruct Ha as [Ha|Ha].
    - destruct (run_epoch msg wire _ _ Hd Hw c arrivals I0 Ha) as (n & L & c' & E & I & _).
      exists n, c'. destruct I. auto.
    - destruct (run_windowed msg wire _ _ Hd Hw 0 c arrivals I0 Ha) as (n & L & c' & E & I & _).
      exists n, c'. rewrite Z.sub_0_r in E. destruct I. auto. }
  destruct HX as (n & c' & HE & Hn & Hin & Hout). exists (Z.to_nat n), c'.
  assert (Hle : (Z.to_nat n <= length ms)%nat).
  { destruct (decide (n = 0)); [lia|]. assert (Hl : n - 1 ∈ arrivals) by (apply Hin; lia).
    rewrite Forall_forall in Hsent. apply Hsent in Hl. unfold zlen in Hl. lia. }
  split_and!; [done| |intros; apply Hin; lia|by rewrite Z2Nat.id].
  rewrite HE. do 2 f_equal. rewrite <- (take_as_seqZ ms m0) by done. by rewrite Z2Nat.id.
Qed.

(** ** A concrete channel *)

Module Demo.

#[export] Instance raw_messages : MessageApi bytes :=
  {| msgtype_of := fun _ => Some 0x0101; packBody := Ok |}.

Definition raw_class : MessageClass bytes := mkClass true (Some 0x0101) true Ok.

Definition handler : Handler (M := bytes) := mkHandler 0 (fun _ => Some true).

Definition receiver (next : Z) : Channel (M := bytes) :=
  set_rx (addMessageHandler handler
            match registerMessageType raw_class (new_Channel 0) with
            | Ok c => c
            | Throw _ => new_Channel 0
            end) [] next.

Definition msg (i : Z) : bytes := be_bytes 4 i.
Definition wire (i : Z) : bytes :=
  be_bytes 2 0x0101 ++ be_bytes 2 (i mod SEQ_MODULUS) ++ be_bytes 2 4 ++ msg i.

Lemma wire_ok i : Envelope_pack (i mod SEQ_MODULUS) (msg i) = Ok (wire i).
Proof. unfold Envelope_pack. cbn [msgtype_of packBody raw_messages rbind]. done. Qed.

Lemma raw_decodable next m : decodable (messageFactories (receiver next)) m.
Proof. exists 0x0101, raw_class, m. by split_and!. Qed.

Definition s0 : State (M := bytes) := mkState (new_Channel 0) new_Outlet None.
Definition s1 := fst (step 0 500 (Send (msg 7)) s0).
Definition s2 := fst (step 0 500 (LinkSent (lit "a1")) s1).
Definition log2 : list event :=
  ([] ++ snd (step 0 500 (Send (msg 7)) s0)) ++ snd (step 0 500 (LinkSent (lit "a1")) s1).

Lemma s2_reachable : reachable log2 s2.
Proof.
  apply (reachable_step _ s1 0 500 (LinkSent (lit "a1"))); [|apply not_elem_of_nil].
  apply (reachable_step [] s0 0 500 (Send (msg 7))); [apply reachable_new|exact I].
Qed.

End Demo.

(** What the insertion order costs at a wrap: numbers past the wrap wait in
    arrival order, not sorted, so once the counter has wrapped a duplicate can
    be inserted a second time, and its copy stays in the ring, where its number
    is taken for the message that bears it 65536 messages later. *)
Theorem channel_duplicate_at_wrap :
  let '(c, evs) := receive_all (map Demo.wire [65538; 65537; 65534; 65535; 65537; 65536])
                     (Demo.receiver 65534) in
  evs = map (fun i => Handled 0 (Demo.msg i)) [65534; 65535; 65536; 65537; 65538]
  /\ nextRxSequence c = 3
  /\ map sequence (rxRing c) = [1].
Proof. vm_compute. auto. Qed.

(** Proofs of packets the channel did not send are remembered for good: the
    outlet keeps one entry for each of them. *)
Lemma early_proofs_accumulate {M : Type} (hs : list jsstr) (s : State (M := M)) (rtt : Z) :
  listening (out s) = true -> NoDup hs ->
  Forall (fun h => h ∉ _earlyDelivered (out s) /\ get h (_sent (out s)) = None) hs ->
  _earlyDelivered (out (foldl (fun s h => _markDelivered rtt h s) s hs))
  = _earlyDelivered (out s) ++ hs.
Proof.
  revert s. induction hs as [|h hs IH]; intros s Hl Hnd HF; [by rewrite app_nil_r|].
  apply NoDup_cons in Hnd as [Hh Hnd]. apply Forall_cons in HF as [[He Hg] HF].
  assert (Hstep : _markDelivered rtt h s = mkState (ch s)
    (mkOutlet (ops (out s)) (_sent (out s)) (_earlyDelivered (out s) ++ [h]) true) (pending s)).
  { unfold _markDelivered. rewrite Hl, Hg. cbn [negb].
    destruct (existsb _ _) eqn:E; [|done]. by apply existsb_early in E. }
  cbn [foldl]. rewrite Hstep, IH; [cbn; by rewrite <- app_assoc|done|done|]. cbn.
  rewrite Forall_forall in HF |- *. intros x Hx. destruct (HF x Hx) as [H1 H2]. split; [|done].
  rewrite elem_of_app, list_elem_of_singleton. intros [?| ->]; contradiction.
Qed.

(** ** Witnesses *)

Import Demo.

Lemma stream_message_roundtrip_witness :
  StreamDataMessage.unpack (StreamDataMessage.pack (StreamDataMessage.mk 300 [7; 9] true false))
  = Ok (StreamDataMessage.mk 300 [7; 9] true false).
Proof.
  refine (proj1 (stream_message_roundtrip (StreamDataMessage.mk 300 [7; 9] true false) [0xc1; 5; 6]
    (StreamDataMessage.mk 0x105 [6] true true) _ _ _)).
  - unfold stream_id_ok. cbn. lia.
  - repeat constructor; unfold is_byte; lia.
  - vm_compute. reflexivity.
Defined.

Lemma swapped_windowed : windowed_arrivals 65535 [65536; 65535].
Proof.
  split; [repeat constructor; set_solver|].
  intros [|[|k]] i [= <-]; (split; [lia|]); unfold WINDOW_MAX, WINDOW_MAX_FAST; lia.
Qed.

Lemma channel_in_order_witness : exists n c',
  receive_all (map wire [65536; 65535]) (receiver 65535)
  = (c', flat_map (run_handlers [handler]) (map msg (seqZ 65535 (n - 65535))))
  /\ 65535 <= n /\ (forall j, 65535 <= j < n -> j ∈ [65536; 65535]) /\ n ∉ [65536; 65535]
  /\ nextRxSequence c' = n mod SEQ_MODULUS.
Proof.
  exact (channel_in_order msg wire (receiver 65535) 65535 [65536; 65535]
    (fun i => raw_decodable 65535 (msg i)) wire_ok eq_refl eq_refl (or_intror swapped_windowed)).
Defined.

Lemma channel_stale_after_wrap_witness : exists c',
  receive_all (wire 65539 :: map wire (seqZ 0 3) ++ [wire 3]) (receiver 0)
  = (c', flat_map (run_handlers [handler]) (map msg (seqZ 0 3) ++ [msg 65539])).
Proof.
  refine (channel_stale_after_wrap msg wire (receiver 0) 3 (msg 65539) (wire 65539)
    (fun i => raw_decodable 0 (msg i)) wire_ok eq_refl eq_refl _ (raw_decodable 0 _) eq_refl).
  split; reflexivity.
Defined.

Lemma channel_flow_control_witness : zlen (txRing (ch s2)) <= 48 /\ length (txRing (ch s2)) = 1%nat.
Proof.
  split; [|vm_compute; reflexivity].
  exact (proj1 (proj2 (proj2 (channel_flow_control log2 s2 s2_reachable)))).
Defined.

Lemma channel_numbering_witness :
  exists m : bytes, Envelope_pack 0 m = Ok (snd (nth 0 (transmitted log2) (0, []))).
Proof.
  exact (proj2 (channel_numbering log2 s2 s2_reachable 0 0
    (snd (nth 0 (transmitted log2) (0, []))) eq_refl)).
Defined.

Lemma channel_retry_witness :
  let '(s', out') := timer_fires 0 0 s2 in out' = [Retransmitted 0] /\ shutDown (ch s') = false.
Proof.
  assert (Ha : exists e, awaited s2 e 0).
  { eexists. split_and!; [reflexivity|apply list_elem_of_here|reflexivity]. }
  destruct Ha as [e Ha]. pose proof (channel_retry log2 s2 0 e 0 s2_reachable Ha) as H.
  assert (He : (tries e <? 5)%nat = true).
  { destruct Ha as (_ & He & _). apply list_elem_of_singleton in He as ->. reflexivity. }
  rewrite He in H. destruct (timer_fires 0 0 s2) as [s' o']. destruct H as (H1 & H2 & _). split; assumption.
Defined.

Lemma channel_fifo_witness : exists n c', (n <= 1)%nat
  /\ receive_all (map (fun i => snd (nth (Z.to_nat i) (transmitted log2) (0, []))) [0; 0]) (receiver 0)
     = (c', flat_map (run_handlers [handler]) (take n [msg 7]))
  /\ (forall j, (j < n)%nat -> Z.of_nat j ∈ [0; 0]) /\ Z.of_nat n ∉ [0; 0].
Proof.
  refine (channel_fifo log2 s2 (receiver 0) [msg 7] [0; 0] s2_reachable _ _ eq_refl eq_refl _ _).
  - constructor; [reflexivity|constructor].
  - constructor; [apply raw_decodable|constructor].
  - repeat constructor; vm_compute; congruence.
  - left. intros [|[|k]] i [= <-]; (split; [unfold SEQ_MAX; lia|]); cbn; set_solver.
Defined.
