(* ===== verification/Buffer.v ===== *)
(** * Buffer: byte streams over a channel

    Models src/packages/core/src/transport/buffer.js: the writer that cuts
    chunks into (possibly compressed) frames and waits for the channel, and the
    reader that feeds a stream controller.  The bz2 module is injected by the
    application: it is the record [Bz2] of its two functions. *)

From S2P Require Import Prelude Encoding JsMap Channel ChannelSpec.

#[local] Open Scope Z_scope.

Definition MAX_CHUNK_LEN : nat := 16384.
Definition COMPRESSION_TRIES : nat := 4.

(** What the library relies on: decompression inverts compression. *)
Definition lossless (writer reader : option Bz2) : Prop :=
  match writer with
  | None => True
  | Some w => exists r, reader = Some r /\ forall d c, compress w d = Ok c ->
      (length d <= MAX_CHUNK_LEN)%nat -> decompress r c MAX_CHUNK_LEN = Ok d
  end.

#[global] Instance stream_messages : MessageApi StreamDataMessage.t :=
  {| msgtype_of := fun _ => Some 0xff00; packBody := fun m => Ok (StreamDataMessage.pack m) |}.

Definition StreamDataMessage_class : MessageClass StreamDataMessage.t :=
  mkClass true (Some 0xff00) true StreamDataMessage.unpack.

(** ** The reader *)

Inductive controller_event :=
| Enqueue (data : bytes)
| Close
| ErrorOut (e : error).

Record Reader := mkReader { streamId : Z; reader_bz2 : option Bz2; attached : bool; done : bool }.

Definition set_done (r : Reader) : Reader :=
  mkReader (streamId r) (reader_bz2 r) (attached r) true.

Definition detach (r : Reader) : Reader := set_done r.

(** [opened]: whether the controller still accepts chunks; [enqueue] and
    [close] throw when it does not. *)
Definition feed (opened : bool) (r : Reader) (eof : bool) (data : bytes)
    : Reader * list controller_event :=
  if (0 <? length data)%nat && negb opened then (set_done r, [])
  else
    let evs := if (0 <? length data)%nat then [Enqueue data] else [] in
    if eof then (set_done r, evs ++ (if opened then [Close] else []))
    else (r, evs).

Definition _onMessage (opened : bool) (msg : StreamDataMessage.t) (r : Reader)
    : bool * Reader * list controller_event :=
  if negb (StreamDataMessage.streamId msg =? streamId r) then (false, r, [])
  else if done r then (true, r, [])
  else if negb (attached r) then (true, r, [])
  else
    let fail e := (true, set_done r, if opened then [ErrorOut e] else []) in
    let go data := let '(r', evs) := feed opened r (StreamDataMessage.eof msg) data in (true, r', evs) in
    if StreamDataMessage.compressed msg then
      match reader_bz2 r with
      | None => fail (JsError "Received a compressed StreamDataMessage but no bz2 module is available")
      | Some bz2 =>
          match decompress bz2 (StreamDataMessage.data msg) MAX_CHUNK_LEN with
          | Throw _ => fail (JsError "StreamDataMessage decompression failed")
          | Ok data => go data
          end
      end
    else go (StreamDataMessage.data msg).

Fixpoint read_all (msgs : list StreamDataMessage.t) (r : Reader) : Reader * list controller_event :=
  match msgs with
  | [] => (r, [])
  | m :: msgs =>
      let '(_, r', evs) := _onMessage true m r in
      let '(r'', evs') := read_all msgs r' in
      (r'', evs ++ evs')
  end.

(** ** The writer

    [maxDataLen] is [channel.mdu - HEADER_SIZE], taken to be non-negative. *)

(** The compression loop, from [compTry] on: the compressed chunk and how many
    source bytes it stands for. *)
Fixpoint probe (fuel compTry : nat) (bz2 : Bz2) (maxDataLen cap : nat) (remaining : bytes)
    : option (bytes * nat) :=
  match fuel with
  | O => None
  | S fuel =>
      let segmentLength := (cap / compTry)%nat in
      if (segmentLength <=? 32)%nat then None
      else match compress bz2 (slice 0 segmentLength remaining) with
      | Throw _ => None
      | Ok c =>
          if (length c <? maxDataLen)%nat && (length c <? segmentLength)%nat
          then Some (c, segmentLength)
          else probe fuel (S compTry) bz2 maxDataLen cap remaining
      end
  end.

Definition _writeOne (sid : Z) (bz2 : option Bz2) (maxDataLen : nat) (remaining : bytes)
    : StreamDataMessage.t * nat :=
  let cap := Nat.min (length remaining) MAX_CHUNK_LEN in
  let probed := match bz2 with
                | Some b => if (32 <? cap)%nat
                            then probe (COMPRESSION_TRIES - 1) 1 b maxDataLen cap remaining else None
                | None => None
                end in
  match probed with
  | Some (chunk, processedLen) => (StreamDataMessage.mk sid chunk false true, processedLen)
  | None =>
      let processedLen := Nat.min cap maxDataLen in
      (StreamDataMessage.mk sid (slice 0 processedLen remaining) false false, processedLen)
  end.

(** Every round consumes a byte, so the length of the chunk is enough fuel. *)
Fixpoint write_loop (fuel : nat) (sid : Z) (bz2 : option Bz2) (maxDataLen : nat) (chunk : bytes)
    : list StreamDataMessage.t :=
  match fuel with
  | O => []
  | S fuel =>
      if (length chunk =? 0)%nat then []
      else
        let '(m, consumed) := _writeOne sid bz2 maxDataLen chunk in
        m :: (if (consumed =? 0)%nat then []
              else write_loop fuel sid bz2 maxDataLen (slice_from consumed chunk))
  end.

Definition write (sid : Z) (bz2 : option Bz2) (maxDataLen : nat) (closed : bool) (chunk : bytes)
    : result (list StreamDataMessage.t) :=
  if closed then Throw (JsError "stream is closed")
  else Ok (write_loop (length chunk) sid bz2 maxDataLen chunk).

(** The frames [close] sends, and the new [_closed]. *)
Definition close (sid : Z) (closed : bool) : list StreamDataMessage.t * bool :=
  if closed then ([], true) else ([StreamDataMessage.mk sid [] true false], true).

(** *** Waiting for the channel

    A round of [_send] sees the channel twice: when it polls, and when the
    serialised send runs. *)
Inductive round_outcome := Sleep | Again | Sent | Failed (e : error).

Definition not_ready : error := JsError "Link is not ready".

Definition send_round (mdu : Z) (m : StreamDataMessage.t)
    (polled current : State (M := StreamDataMessage.t)) : round_outcome :=
  if negb (isReadyToSend polled) then
    if shutDown (ch polled) then Failed (JsError "channel shut down") else Sleep
  else match send_begin mdu m current with
  | Ok _ => Sent
  | Throw e => if decide (e = not_ready) then Again else Failed e
  end.

(** The loop over the channel states it meets: [None] while it has not
    settled. *)
Fixpoint send_loop (mdu : Z) (m : StreamDataMessage.t)
    (rounds : list (State (M := StreamDataMessage.t) * State (M := StreamDataMessage.t)))
    : option (result unit) :=
  match rounds with
  | [] => None
  | (polled, current) :: rounds =>
      match send_round mdu m polled current with
      | Sleep | Again => send_loop mdu m rounds
      | Sent => Some (Ok tt)
      | Failed e => Some (Throw e)
      end
  end.

(** ** Lemmas: one frame *)

Lemma length_slice0 {A} n (l : list A) : length (slice 0 n l) = Nat.min n (length l).
Proof. unfold slice. rewrite drop_0, Nat.sub_0_r, length_take. done. Qed.

Lemma probe_some fuel k bz2 max cap rem c n :
  probe fuel k bz2 max cap rem = Some (c, n) ->
  compress bz2 (slice 0 n rem) = Ok c /\ (32 < n <= cap)%nat /\ (length c < max)%nat.
Proof.
  revert k. induction fuel as [|fuel IH]; intros k; cbn [probe]; [done|].
  destruct (_ <=? 32)%nat eqn:E1; bools; [done|].
  destruct (compress bz2 (slice 0 (cap / k) rem)) as [c'|] eqn:Ec; [|done].
  destruct (_ && _) eqn:E2; [|apply IH]. bools. intros [= <- <-].
  split_and!; [done|lia| |lia]. destruct k; [cbn; lia|]. apply Nat.Div0.div_le_upper_bound. nia.
Qed.

(** What a frame carries: the first [k] bytes of what remained. *)
Definition carries (bz2 : option Bz2) (sid : Z) (max : nat) (rem : bytes) (m : StreamDataMessage.t)
    (k : nat) : Prop :=
  (1 <= k <= length rem)%nat /\ (k <= MAX_CHUNK_LEN)%nat
  /\ StreamDataMessage.streamId m = sid /\ StreamDataMessage.eof m = false
  /\ (length (StreamDataMessage.data m) <= max)%nat
  /\ if StreamDataMessage.compressed m
     then exists b, bz2 = Some b /\ compress b (slice 0 k rem) = Ok (StreamDataMessage.data m)
     else StreamDataMessage.data m = slice 0 k rem.

Lemma writeOne_carries sid bz2 max rem :
  rem <> [] -> (0 < max)%nat ->
  let '(m, k) := _writeOne sid bz2 max rem in carries bz2 sid max rem m k.
Proof.
  intros Hr Hm. assert (1 <= length rem)%nat by (destruct rem; [done|cbn; lia]).
  assert (H1 : (1 <= MAX_CHUNK_LEN)%nat) by (apply Nat.leb_le; reflexivity).
  unfold _writeOne. set (cap := Nat.min (length rem) MAX_CHUNK_LEN).
  destruct (match bz2 with Some b => _ | None => None end) as [[c n]|] eqn:E.
  - destruct bz2 as [b|]; [|done]. destruct (_ <? cap)%nat; [|done].
    apply probe_some in E as (E1 & E2 & E3). unfold carries. cbn -[MAX_CHUNK_LEN].
    split_and!; try done; try lia. by exists b.
  - unfold carries. cbn -[MAX_CHUNK_LEN]. split_and!; try done; try lia. rewrite length_slice0. lia.
Qed.

Definition fresh_reader (sid : Z) (bz2 : option Bz2) : Reader := mkReader sid bz2 true false.

Lemma slice0_nonempty k (rem : bytes) : (1 <= k <= length rem)%nat ->
  (0 <? length (slice 0 k rem))%nat = true.
Proof. intros. apply Nat.ltb_lt. rewrite length_slice0. lia. Qed.

Lemma onMessage_frame wb rb sid max rem m k :
  lossless wb rb -> carries wb sid max rem m k ->
  _onMessage true m (fresh_reader sid rb) = (true, fresh_reader sid rb, [Enqueue (slice 0 k rem)]).
Proof.
  intros Hl (Hk & HM & Hs & He & _ & Hd). unfold _onMessage, fresh_reader, feed.
  cbn [streamId done attached reader_bz2 negb]. rewrite Hs, Z.eqb_refl, He. cbn [negb].
  destruct (StreamDataMessage.compressed m).
  - destruct Hd as (b & -> & Hc). destruct Hl as (r & -> & Hr).
    rewrite (Hr _ _ Hc) by (rewrite length_slice0; lia). by rewrite slice0_nonempty.
  - rewrite Hd. by rewrite slice0_nonempty.
Qed.

Lemma read_all_app ms1 ms2 r :
  read_all (ms1 ++ ms2) r
  = let '(r1, e1) := read_all ms1 r in let '(r2, e2) := read_all ms2 r1 in (r2, e1 ++ e2).
Proof.
  revert r. induction ms1 as [|m ms1 IH]; intros r; cbn [read_all app].
  - by destruct (read_all ms2 r).
  - destruct (_onMessage true m r) as [[h r1] e1]. rewrite IH.
    destruct (read_all ms1 r1) as [r2 e2]. destruct (read_all ms2 r2) as [r3 e3].
    by rewrite app_assoc.
Qed.

(** Frames of other streams pass a reader by. *)
Definition own (sid : Z) (m : StreamDataMessage.t) : Prop := StreamDataMessage.streamId m = sid.

#[global] Instance own_dec sid m : Decision (own sid m).
Proof. unfold own. apply _. Defined.

Lemma feed_streamId b r e d : streamId (fst (feed b r e d)) = streamId r.
Proof. unfold feed. destruct (_ && _); [done|]. by destruct e. Qed.

Lemma onMessage_streamId b m r : streamId (snd (fst (_onMessage b m r))) = streamId r.
Proof.
  unfold _onMessage. destruct (negb _); [done|]. destruct (done r); [done|].
  destruct (negb _); [done|]. assert (Hgo : forall d, streamId (snd (fst
    (let '(r', evs) := feed b r (StreamDataMessage.eof m) d in (true, r', evs)))) = streamId r).
  { intros d. pose proof (feed_streamId b r (StreamDataMessage.eof m) d) as E.
    by destruct (feed b r (StreamDataMessage.eof m) d). }
  destruct (StreamDataMessage.compressed m); [|apply Hgo]. destruct (reader_bz2 r); [|done].
  destruct (decompress _ _ _); [apply Hgo|done].
Qed.

Lemma read_all_own ms r : read_all ms r = read_all (filter (own (streamId r)) ms) r.
Proof.
  revert r. induction ms as [|m ms IH]; intros r; [done|]. rewrite filter_cons.
  destruct (decide (own (streamId r) m)) as [Ho|Ho]; cbn [read_all].
  - pose proof (onMessage_streamId true m r) as Hs.
    destruct (_onMessage true m r) as [[h r'] e]. cbn [fst snd] in Hs. rewrite IH, Hs. done.
  - assert (_onMessage true m r = (false, r, [])) as ->.
    { unfold _onMessage, own in *. by rewrite (proj2 (Z.eqb_neq _ _)). }
    rewrite <- IH. by destruct (read_all ms r).
Qed.

(** ** Lemmas: whole chunks *)

Definition frame_ok (sid : Z) (max : nat) (m : StreamDataMessage.t) : Prop :=
  StreamDataMessage.streamId m = sid /\ (length (StreamDataMessage.pack m) <= max + 2)%nat.

Lemma write_loop_read wb rb sid max fuel chunk :
  lossless wb rb -> (0 < max)%nat -> (length chunk <= fuel)%nat ->
  exists ds, read_all (write_loop fuel sid wb max chunk) (fresh_reader sid rb)
             = (fresh_reader sid rb, map Enqueue ds)
    /\ concat ds = chunk /\ Forall (fun d => d <> []) ds
    /\ Forall (frame_ok sid max) (write_loop fuel sid wb max chunk).
Proof.
  intros Hl Hm. revert chunk. induction fuel as [|fuel IH]; intros chunk Hf.
  - destruct chunk; [|cbn in Hf; lia]. by exists [].
  - cbn [write_loop]. destruct (length chunk =? 0)%nat eqn:E0; bools.
    { destruct chunk; [by exists []|done]. }
    pose proof (writeOne_carries sid wb max chunk) as HW.
    destruct (_writeOne sid wb max chunk) as [m k]. specialize (HW ltac:(by intros ->) Hm).
    pose proof HW as (Hk & _ & Hs & _ & Hlen & _).
    rewrite (proj2 (Nat.eqb_neq k 0)) by lia. cbn [read_all].
    rewrite (onMessage_frame wb rb sid max chunk m k Hl HW).
    destruct (IH (slice_from k chunk)) as (ds & E & Hc & Hne & HF).
    { unfold slice_from. rewrite length_drop. lia. }
    rewrite E. exists (slice 0 k chunk :: ds). split_and!; [done| | |].
    + cbn. rewrite Hc. unfold slice, slice_from. rewrite drop_0, Nat.sub_0_r. apply take_drop.
    + constructor; [|done]. intros Hn. apply (f_equal length) in Hn. rewrite length_slice0 in Hn.
      cbn in Hn. lia.
    + constructor; [|done]. split; [done|]. unfold StreamDataMessage.pack.
      rewrite length_app, length_be_bytes. lia.
Qed.

Definition write_all (sid : Z) (bz2 : option Bz2) (max : nat) (chunks : list bytes)
    : list StreamDataMessage.t :=
  concat (map (fun c => match write sid bz2 max false c with Ok ms => ms | Throw _ => [] end) chunks).

Lemma write_all_read wb rb sid max chunks :
  lossless wb rb -> (0 < max)%nat ->
  exists ds, read_all (write_all sid wb max chunks) (fresh_reader sid rb)
             = (fresh_reader sid rb, map Enqueue ds)
    /\ concat ds = concat chunks /\ Forall (fun d => d <> []) ds
    /\ Forall (frame_ok sid max) (write_all sid wb max chunks).
Proof.
  intros Hl Hm. induction chunks as [|c chunks (ds & E & Hc & Hne & HF)]; [by exists []|].
  change (write_all sid wb max (c :: chunks))
    with (write_loop (length c) sid wb max c ++ write_all sid wb max chunks).
  destruct (write_loop_read wb rb sid max (length c) c Hl Hm ltac:(lia)) as (ds1 & E1 & Hc1 & Hne1 & HF1).
  exists (ds1 ++ ds). rewrite read_all_app, E1, E, map_app, concat_app, Hc, Hc1.
  split_and!; [done|done|by apply Forall_app|by apply Forall_app].
Qed.

(** ** Properties *)

(** A byte stream arrives: whatever chunks a writer is given and however its
    frames interleave with those of other streams on the channel, a reader of
    the stream id enqueues non-empty pieces that concatenate to the bytes
    written, and closes once the writer has closed; every frame fits the
    channel, and decodes on a channel where the stream type is registered. *)
Theorem stream_transfer (wb rb : option Bz2) (sid : Z) (max : nat) (chunks : list bytes)
    (ms : list StreamDataMessage.t) (factories : gmap Z (MessageClass StreamDataMessage.t))
    (Hl : lossless wb rb) (Hmax : (0 < max)%nat) (Hsid : 0 <= sid < 0x4000)
    (Hmux : filter (own sid) ms = write_all sid wb max chunks ++ fst (close sid false))
    (Hreg : factories !! 0xff00 = Some StreamDataMessage_class) :
  (exists ds, read_all ms (fresh_reader sid rb)
              = (set_done (fresh_reader sid rb), map Enqueue ds ++ [Close])
     /\ concat ds = concat chunks /\ Forall (fun d => d <> []) ds)
  /\ Forall (fun m => (length (StreamDataMessage.pack m) <= max + StreamDataMessage.HEADER_SIZE)%nat
                      /\ decodable factories m) (filter (own sid) ms).
Proof.
  destruct (write_all_read wb rb sid max chunks Hl Hmax) as (ds & E & Hc & Hne & HF).
  split.
  - exists ds. rewrite read_all_own. cbn [streamId fresh_reader]. rewrite Hmux, read_all_app, E.
    unfold close. cbn [fst read_all]. unfold _onMessage, feed, fresh_reader. cbn. rewrite Z.eqb_refl.
    done.
  - rewrite Hmux. apply Forall_app. rewrite Forall_forall in HF.
    assert (HD : forall m, StreamDataMessage.streamId m = sid -> decodable factories m).
    { intros m Hs. exists 0xff00, StreamDataMessage_class, (StreamDataMessage.pack m).
      split_and!; try done. cbn. apply stream_unpack_pack. unfold stream_id_ok. lia. }
    split; [|repeat constructor; [unfold StreamDataMessage.HEADER_SIZE; cbn; lia|by apply HD]].
    rewrite Forall_forall. intros m Hi. destruct (HF m Hi) as [Hs Hlen].
    unfold StreamDataMessage.HEADER_SIZE. split; [lia|by apply HD].
Qed.

(** A writer whose channel has shut down never settles and never sleeps: the
    rings are empty, so the channel looks ready, the send is refused as not
    ready, and the loop tries again at once, for ever. *)
Theorem writer_spins_after_shutdown (evs : list event) (s : State (M := StreamDataMessage.t))
    (mdu : Z) (m : StreamDataMessage.t) (n : nat)
    (Hr : Channel.reachable evs s) (Hs : shutDown (ch s) = true) (Ht : txRing (ch s) = []) :
  send_round mdu m s s = Again /\ send_loop mdu m (replicate n (s, s)) = None.
Proof.
  assert (E : send_round mdu m s s = Again).
  { destruct (reachable_inv evs s Hr) as ((_ & _ & W & _) & _).
    unfold send_round, isReadyToSend, outstanding, send_begin. rewrite Ht, Hs.
    cbn [filter list_filter orb]. rewrite zlen_nil, (proj2 (Z.ltb_lt _ _)) by lia. done. }
  split; [done|]. induction n as [|n IH]; [done|]. cbn [replicate send_loop]. by rewrite E.
Qed.

(** ** Witnesses *)

Module DemoStream.
Definition frames : list StreamDataMessage.t :=
  [StreamDataMessage.mk 5 [1; 2] false false; StreamDataMessage.mk 9 [7] false false;
   StreamDataMessage.mk 5 [3] false false; StreamDataMessage.mk 5 [] true false].
Definition factories : gmap Z (MessageClass StreamDataMessage.t) := {[0xff00 := StreamDataMessage_class]}.
Definition shut : State (M := StreamDataMessage.t) :=
  fst (step 0 500 Shutdown (mkState (new_Channel 0) new_Outlet None)).
End DemoStream.
Import DemoStream.

Lemma stream_transfer_witness : exists ds,
  read_all frames (fresh_reader 5 None) = (set_done (fresh_reader 5 None), map Enqueue ds ++ [Close])
  /\ concat ds = [1; 2; 3] /\ Forall (fun d => d <> []) ds.
Proof.
  refine (proj1 (stream_transfer None None 5 2 [[1; 2; 3]] frames factories I _ _ eq_refl _)).
  - apply Nat.ltb_lt. reflexivity.
  - split; [discriminate|reflexivity].
  - reflexivity.
Defined.

Lemma shut_reachable : Channel.reachable [] shut.
Proof. exact (reachable_step [] _ 0 500 Shutdown (reachable_new 0) I). Qed.

Lemma writer_spins_witness :
  send_loop 500 (StreamDataMessage.mk 5 [1] false false) (replicate 3 (shut, shut)) = None.
Proof.
  exact (proj2 (writer_spins_after_shutdown [] shut 500 (StreamDataMessage.mk 5 [1] false false) 3
    shut_reachable eq_refl eq_refl)).
Defined.
