(* ===== verification/Link.v ===== *)
(** * Link: handshake, traffic and lifecycle of an encrypted link

    Models src/packages/core/src/transport/link.js.  Random bytes (ephemeral
    private keys, initialisation vectors) and the time in milliseconds are
    arguments; a handler runs to its end in one step, and what it does outside
    the link is a list of events.  Intervals are rational numbers of seconds,
    [None] standing for NaN. *)

From Stdlib Require Import QArith Qminmax.
From S2P Require Import Prelude Encoding JsMap Utf8 MsgPack Packet Crypto Identity.

#[local] Open Scope Z_scope.

Inductive LinkStatus := PENDING | HANDSHAKE | ACTIVE | STALE | CLOSED.

#[global] Instance LinkStatus_eq_dec : EqDecision LinkStatus.
Proof. solve_decision. Defined.

Inductive LinkTeardownReason := NO_REASON | TIMEOUT | INITIATOR_CLOSED | DESTINATION_CLOSED.

Definition EC_PUBLIC_KEY_SIZE : nat := 64.
Definition SIGNALLING_SIZE : nat := 3.
Definition MODE_AES256_CBC : Z := 1.
Definition DEFAULT_MTU : Z := 500.
Definition KEEPALIVE_MAX_SECS : Q := 360.
Definition KEEPALIVE_MIN_SECS : Q := 5.
Definition KEEPALIVE_MAX_RTT_SECS : Q := 7 # 4.
Definition STALE_FACTOR : Q := 2.

Definition isLinkPacketUnencrypted (packetType contextByte : Z) : bool :=
  if packetType =? PacketType_PROOF then
    (contextByte =? ContextType_NONE) || (contextByte =? ContextType_RESOURCE_PRF)
  else
    (contextByte =? ContextType_RESOURCE) || (contextByte =? ContextType_KEEPALIVE)
    || (contextByte =? ContextType_CACHE_REQUEST).

(** ** Signalling and sizes *)

Definition signallingBytes (mtu mode : Z) : bytes :=
  let signallingValue := js_and mtu 0x1fffff + js_shl (js_and (js_shl mode 5) 0xe0) 16 in
  slice_from 1 (be_bytes 4 signallingValue).

Definition signalled_mode (s : bytes) : Z := js_shr (js_and (byte_at 0 s) 0xe0) 5.

Definition signalled_mtu (s : bytes) : Z :=
  js_and (js_shl (byte_at 0 s) 16 + js_shl (byte_at 1 s) 8 + byte_at 2 s) 0x1fffff mod 2 ^ 32.

(** [Math.floor] is the division of [Z]. *)
Definition mdu (mtu : Z) : Z :=
  let ciphertextBudget := mtu - 19 - 48 in
  Z.max 0 (ciphertextBudget / 16 * 16 - 1).

(** ** The link *)

Record Keys := mkKeys {
  ephemeralX25519Priv : bytes;
  ephemeralX25519Pub : bytes;
  ephemeralEd25519Priv : option bytes;
  peerX25519Pub : option bytes;
  peerEd25519Pub : option bytes;
  derivedKey : option bytes;
  token : option Token.Token;
}.

Record Timing := mkTiming {
  rtt : option Q;
  keepaliveInterval : option Q;
  staleTime : option Q;
  lastInboundTime : Z;
  lastKeepaliveTime : Z;
  requestTimeMs : Z;
}.

(** A pending REQUEST; its two flags decide how it may be settled. *)
Record PendingRequest := mkPending { handedOut : bool }.

Record Link := mkLink {
  identity : option Identity;         (* destination.identity *)
  destHash : option bytes;            (* destination.destinationHash *)
  linkId : bytes;
  initiator : bool;
  keys : Keys;
  mtu : Z;
  mode : Z;
  timing : Timing;
  status : LinkStatus;
  teardownReason : LinkTeardownReason;
  watchdogRunning : bool;
  establishmentArmed : bool;
  expectedHops : option Z;
  rebalanced : bool;
  pendingLinkProofs : list jsstr;
  pendingRequests : jsmap PendingRequest;
  remoteIdentity : option Identity;
}.

(** What became of a REQUEST. *)
Inductive outcome := Resolved (v : value) | Rejected | SettledQuietly | Discarded.

Inductive event :=
| SendPacket (p : Packet)
| StatusChange (new old : LinkStatus)
| Established
| Closed
| Data (payload : bytes)
| ProofValidated (hash : bytes)
| Identified (i : Identity)
| Keepalive
| ToChannel (payload : bytes)
| ToResource (ctx : Z) (payload : bytes)
| AdvertiseResource (data : bytes) (metadata : option value) (requestId : option bytes) (autoCompress : bool)
| Settled (id : jsstr) (o : outcome)
| CancelResponses (id : jsstr)
| ChannelShutdown
| ResourcesClosed
| AddLink
| RemoveLink
| SetPathHops (h : Z)
| ExpirePath.

Definition set_keys (l : Link) (k : Keys) : Link :=
  mkLink (identity l) (destHash l) (linkId l) (initiator l) k (mtu l) (mode l) (timing l)
    (status l) (teardownReason l) (watchdogRunning l) (establishmentArmed l) (expectedHops l)
    (rebalanced l) (pendingLinkProofs l) (pendingRequests l) (remoteIdentity l).
Definition set_mtu (l : Link) (m : Z) : Link :=
  mkLink (identity l) (destHash l) (linkId l) (initiator l) (keys l) m (mode l) (timing l)
    (status l) (teardownReason l) (watchdogRunning l) (establishmentArmed l) (expectedHops l)
    (rebalanced l) (pendingLinkProofs l) (pendingRequests l) (remoteIdentity l).
Definition set_timing (l : Link) (t : Timing) : Link :=
  mkLink (identity l) (destHash l) (linkId l) (initiator l) (keys l) (mtu l) (mode l) t
    (status l) (teardownReason l) (watchdogRunning l) (establishmentArmed l) (expectedHops l)
    (rebalanced l) (pendingLinkProofs l) (pendingRequests l) (remoteIdentity l).
Definition set_life (l : Link) (s : LinkStatus) (watch armed : bool) : Link :=
  mkLink (identity l) (destHash l) (linkId l) (initiator l) (keys l) (mtu l) (mode l) (timing l)
    s (teardownReason l) watch armed (expectedHops l)
    (rebalanced l) (pendingLinkProofs l) (pendingRequests l) (remoteIdentity l).
Definition set_reason (l : Link) (r : LinkTeardownReason) : Link :=
  mkLink (identity l) (destHash l) (linkId l) (initiator l) (keys l) (mtu l) (mode l) (timing l)
    (status l) r (watchdogRunning l) (establishmentArmed l) (expectedHops l)
    (rebalanced l) (pendingLinkProofs l) (pendingRequests l) (remoteIdentity l).
Definition set_hops_expected (l : Link) (h : option Z) (r : bool) : Link :=
  mkLink (identity l) (destHash l) (linkId l) (initiator l) (keys l) (mtu l) (mode l) (timing l)
    (status l) (teardownReason l) (watchdogRunning l) (establishmentArmed l) h
    r (pendingLinkProofs l) (pendingRequests l) (remoteIdentity l).
Definition set_pending (l : Link) (ps : list jsstr) (rs : jsmap PendingRequest) : Link :=
  mkLink (identity l) (destHash l) (linkId l) (initiator l) (keys l) (mtu l) (mode l) (timing l)
    (status l) (teardownReason l) (watchdogRunning l) (establishmentArmed l) (expectedHops l)
    (rebalanced l) ps rs (remoteIdentity l).
Definition set_remote (l : Link) (i : Identity) : Link :=
  mkLink (identity l) (destHash l) (linkId l) (initiator l) (keys l) (mtu l) (mode l) (timing l)
    (status l) (teardownReason l) (watchdogRunning l) (establishmentArmed l) (expectedHops l)
    (rebalanced l) (pendingLinkProofs l) (pendingRequests l) (Some i).

Definition secs (q : Q) : option Q := Some q.

Definition new_timing (now : Z) : Timing :=
  mkTiming (Some 0%Q) (Some KEEPALIVE_MAX_SECS) (Some (STALE_FACTOR * KEEPALIVE_MAX_SECS)%Q) now 0 0.

(** [_updateKeepalive]; [Math.min] and [Math.max] of NaN are NaN. *)
Definition _updateKeepalive (t : Timing) : Timing :=
  let k := (fun r => Qmax (Qmin (r * (KEEPALIVE_MAX_SECS / KEEPALIVE_MAX_RTT_SECS)) KEEPALIVE_MAX_SECS)
                       KEEPALIVE_MIN_SECS)%Q <$> rtt t in
  mkTiming (rtt t) k ((fun k => k * STALE_FACTOR)%Q <$> k) (lastInboundTime t)
    (lastKeepaliveTime t) (requestTimeMs t).

Definition set_rtt (t : Timing) (r : option Q) : Timing :=
  mkTiming r (keepaliveInterval t) (staleTime t) (lastInboundTime t) (lastKeepaliveTime t)
    (requestTimeMs t).
Definition set_inbound (t : Timing) (now : Z) : Timing :=
  mkTiming (rtt t) (keepaliveInterval t) (staleTime t) now (lastKeepaliveTime t) (requestTimeMs t).
Definition set_keepalive_sent (t : Timing) (now : Z) : Timing :=
  mkTiming (rtt t) (keepaliveInterval t) (staleTime t) (lastInboundTime t) now (requestTimeMs t).
Definition set_requested (t : Timing) (now : Z) : Timing :=
  mkTiming (rtt t) (keepaliveInterval t) (staleTime t) (lastInboundTime t) (lastKeepaliveTime t) now.

(** [now >= last + interval * 1000]; false for NaN. *)
Definition elapsed (now last : Z) (interval : option Q) : bool :=
  match interval with
  | Some k => Qle_bool (inject_Z last + k * 1000)%Q (inject_Z now)
  | None => false
  end.

(** ** Settling REQUESTs *)

Definition _failPendingRequest (id : jsstr) (l : Link) : Link * list event :=
  match get id (pendingRequests l) with
  | None => (l, [])
  | Some entry =>
      (set_pending l (pendingLinkProofs l) (mdelete id (pendingRequests l)),
       [CancelResponses id; Settled id (if handedOut entry then Rejected else SettledQuietly)])
  end.

Definition _discardPendingRequest (id : jsstr) (l : Link) : Link * list event :=
  match get id (pendingRequests l) with
  | None => (l, [])
  | Some _ => (set_pending l (pendingLinkProofs l) (mdelete id (pendingRequests l)),
               [Settled id Discarded])
  end.

Fixpoint fail_all (ids : list jsstr) (l : Link) : Link * list event :=
  match ids with
  | [] => (l, [])
  | id :: ids =>
      let '(l', evs) := _failPendingRequest id l in
      let '(l'', evs') := fail_all ids l' in
      (l'', evs ++ evs')
  end.

Definition _rejectPendingRequests (l : Link) : Link * list event :=
  fail_all (JsMap.keys (pendingRequests l)) l.

(** ** The status setter *)

(** [set status]: nothing happens when the status does not change. *)
Definition set_status (new : LinkStatus) (l : Link) : Link * list event :=
  let old := status l in
  if decide (old = new) then (l, [])
  else
    let l1 := set_life l new (watchdogRunning l) (establishmentArmed l) in
    match new with
    | ACTIVE => (set_life l1 new true false, [StatusChange new old])
    | CLOSED =>
        let l2 := set_life l1 new false false in
        let '(l3, evs) := _rejectPendingRequests l2 in
        let l4 := set_pending l3 [] (pendingRequests l3) in
        (l4, [StatusChange new old; ChannelShutdown; RemoveLink] ++ evs ++ [ResourcesClosed]
             ++ (if bool_decide (old <> ACTIVE) && bool_decide (is_Some (destHash l))
                 then [ExpirePath] else []))
    | _ => (l1, [StatusChange new old])
    end.

Definition close_with (r : LinkTeardownReason) (l : Link) : Link * list event :=
  let '(l', evs) := set_status CLOSED (set_reason l r) in (l', evs ++ [Closed]).

Section WithCrypto.
Context `{C : WebCrypto} `{J : JsHost}.

(** ** Handshake *)

Definition linkIdFromLrPacket (p : Packet) : bytes :=
  let lowFlags := Z.land (byte_at 0 (raw p)) 15 in
  let offset := if headerType p =? HeaderType_2 then 18%nat else 2%nat in
  let body := slice_from offset (raw p) in
  let body := if (EC_PUBLIC_KEY_SIZE <? length (payload p))%nat
              then slice 0 (length body - (length (payload p) - EC_PUBLIC_KEY_SIZE)) body
              else body in
  truncatedHash (lowFlags :: body).

Definition new_Packet (ty dty ctx : Z) (dest payload : bytes) : Packet :=
  mkPacket HeaderType_1 0 0 dty ty false dest ctx payload None [].

Definition _deriveKeys (linkId peer : bytes) (k : Keys) : result Keys :=
  if negb (length peer =? 32)%nat then Throw (JsError "DataError")
  else match x25519_bits (ephemeralX25519Priv k) peer with
  | None => Throw (JsError "OperationError")
  | Some sharedBits =>
      let d := hkdf sharedBits linkId [] 64 in
      let! t := Token.new_Token d Token.AES_256_CBC in
      Ok (mkKeys (ephemeralX25519Priv k) (ephemeralX25519Pub k) (ephemeralEd25519Priv k)
            (peerX25519Pub k) (peerEd25519Pub k) (Some d) (Some t))
  end.

(** [transport.sendPacket]; [sent] tells whether the transport accepts the
    packet. *)
Definition transport_send (sent : bool) (p : Packet) : result (list event) :=
  if sent then Ok [SendPacket p] else Throw (JsError "send failed").

(** What was emitted, and how the asynchronous function that emitted it
    ended. *)
Definition settle (evs : list event) (r : result (list event)) : list event * result unit :=
  match r with
  | Ok evs' => (evs ++ evs', Ok tt)
  | Throw e => (evs, Throw e)
  end.

(** The LINKREQUEST and the initiator's link, from its two ephemeral private
    keys. *)
Definition lr_packet (x e dest : bytes) : Packet :=
  new_Packet PacketType_LINKREQUEST DestType_SINGLE ContextType_NONE dest
    (x25519_pub x ++ ed25519_pub e ++ signallingBytes DEFAULT_MTU MODE_AES256_CBC).

Definition initiate (sent : bool) (x e : bytes) (id : option Identity) (dest : bytes)
    (hopsTo : option Z) (now : Z) : result (Link * list event * result unit) :=
  let p := lr_packet x e dest in
  let! r := serialize p in
  let p := set_raw p r in
  let l := mkLink id (Some dest) (linkIdFromLrPacket p) true
             (mkKeys x (x25519_pub x) (Some e) None None None None)
             DEFAULT_MTU MODE_AES256_CBC (set_requested (new_timing now) now)
             PENDING NO_REASON false false hopsTo false [] [] None in
  let '(l, evs) := set_status HANDSHAKE l in
  let '(evs, done) := settle ([AddLink] ++ evs) (transport_send sent p) in
  Ok (set_life l (status l) (watchdogRunning l) true, evs, done).

Definition lrproof_signed (linkId x25519 ed25519 signalling : bytes) : bytes :=
  linkId ++ x25519 ++ ed25519 ++ signalling.

Definition _sendLRProof (sent : bool) (l : Link) : result (list event) :=
  match identity l with
  | None => Throw (JsError "Responder LRPROOF requires a destination identity.")
  | Some id =>
      let signalling := signallingBytes (mtu l) (mode l) in
      let x := ephemeralX25519Pub (keys l) in
      let ed := slice 32 64 (getPublicKey id) in
      let! signature := sign id (lrproof_signed (linkId l) x ed signalling) in
      transport_send sent (new_Packet PacketType_PROOF DestType_LINK ContextType_LRPROOF (linkId l)
        (signature ++ x ++ signalling))
  end.

(** The responder's side, from its ephemeral private key.  By the time the
    LRPROOF is built the link is registered: the last component is how that
    ended. *)
Definition accept (sent : bool) (x : bytes) (id : option Identity) (dest : option bytes) (request : Packet) (now : Z)
    : result (Link * list event * result unit) :=
  let data := payload request in
  let peerX := slice 0 32 data in
  let peerEd := slice 32 64 data in
  let '(m, md) :=
    if (length data =? EC_PUBLIC_KEY_SIZE + SIGNALLING_SIZE)%nat then
      let s := slice_from EC_PUBLIC_KEY_SIZE data in (signalled_mtu s, signalled_mode s)
    else (DEFAULT_MTU, MODE_AES256_CBC) in
  let lid := linkIdFromLrPacket request in
  let! k := _deriveKeys lid peerX
              (mkKeys x (x25519_pub x) None (Some peerX) (Some peerEd) None None) in
  let l := mkLink id dest lid false k m md (set_requested (new_timing now) now)
             PENDING NO_REASON false false (Some (hops request)) false [] [] None in
  let '(l, evs) := set_status HANDSHAKE l in
  let l := set_life l (status l) (watchdogRunning l) true in
  let '(evs, done) := settle (evs ++ [AddLink]) (_sendLRProof sent l) in
  Ok (l, evs, done).

(** ** Sending *)

Definition _prepareOutboundPacket (iv : bytes) (l : Link) (p : Packet) : result Packet :=
  let isHandshake := (packetType p =? PacketType_LINKREQUEST)
    || (packetType p =? PacketType_PROOF) && (contextByte p =? ContextType_LRPROOF) in
  let! body :=
    if negb isHandshake && negb (isLinkPacketUnencrypted (packetType p) (contextByte p)) then
      match token (keys l) with
      | None => Throw (JsError "Link token not available. Did handshake complete?")
      | Some t => Ok (Token.encrypt iv t (payload p))
      end
    else Ok (payload p) in
  let outbound := mkPacket (headerType p) (hops p) (transportType p) DestType_LINK (packetType p)
    (contextFlag p) (linkId l) (contextByte p) body (transportId p) [] in
  let! r := serialize outbound in
  Ok (set_raw outbound r).

Definition add_once (h : jsstr) (s : list jsstr) : list jsstr :=
  if existsb (fun x => bool_decide (x = h)) s then s else s ++ [h].

(** [send]: the hash is noted before the transmit and forgotten when that
    fails. *)
Definition send (iv : bytes) (sent : bool) (l : Link) (p : Packet) : result (Link * list event) :=
  let! outbound := _prepareOutboundPacket iv l p in
  let! hash := getHash sha256 outbound in
  let key := toHex (fst hash) in
  let tracked := (packetType outbound =? PacketType_DATA) && (contextByte outbound =? ContextType_NONE) in
  let pend := if tracked then add_once key (pendingLinkProofs l) else pendingLinkProofs l in
  let! evs := transport_send sent outbound in
  Ok (set_pending l pend (pendingRequests l), evs).

Definition link_packet (l : Link) (ctx : Z) (body : bytes) : Packet :=
  new_Packet PacketType_DATA DestType_LINK ctx (linkId l) body.

(** ** Inbound handlers *)

(** The exceptions of key derivation and of sending the LRRTT come after the
    first changes to the link: the link as it is then is returned, since
    [receive] only logs them. *)
Definition _handleLRPROOF (iv : bytes) (sent : bool) (now : Z) (encodeRtt : option Q -> bytes)
    (l : Link) (p : Packet) : result (Link * list event) :=
  match identity l with
  | None => Throw (JsError "Initiator LRPROOF validation requires the responder identity.")
  | Some id =>
      let data := payload p in
      let! parsed :=
        if (length data =? 64 + 32 + SIGNALLING_SIZE)%nat then
          let s := slice_from 96 data in
          if negb (signalled_mode s =? mode l) then Throw (TypeError "Invalid link mode in LRPROOF")
          else Ok (s, signalled_mtu s)
        else if negb (length data =? 64 + 32)%nat then Throw (JsError "Invalid LRPROOF body length")
        else Ok ([], mtu l) in
      let '(signalling, confirmedMtu) := parsed in
      let signature := slice 0 64 data in
      let responderX := slice 64 96 data in
      let ed := slice 32 64 (getPublicKey id) in
      if negb (validate id signature (lrproof_signed (linkId l) responderX ed signalling)) then
        Throw (JsError "LRPROOF signature verification failed.")
      else
        let rebalance := bool_decide (status l <> ACTIVE) && negb (bool_decide (Some (hops p) = expectedHops l)) in
        let l1 := if rebalance then set_hops_expected l (Some (hops p)) true else l in
        let evs1 := if rebalance && bool_decide (is_Some (destHash l)) then [SetPathHops (hops p)] else [] in
        let k := keys l1 in
        let k := mkKeys (ephemeralX25519Priv k) (ephemeralX25519Pub k) (ephemeralEd25519Priv k)
                   (Some responderX) (peerEd25519Pub k) (derivedKey k) (token k) in
        match _deriveKeys (linkId l1) responderX k with
        | Throw _ => Ok (set_keys l1 k, evs1)
        | Ok k =>
        let t := _updateKeepalive (set_rtt (timing l1)
                   (Some ((now - requestTimeMs (timing l1)) # 1000)%Q)) in
        let l2 := set_timing (set_mtu (set_keys l1 k) confirmedMtu) t in
        match send iv sent l2 (link_packet l2 ContextType_LRRTT (encodeRtt (rtt t))) with
        | Throw _ => Ok (l2, evs1)
        | Ok (l3, evs2) =>
            let '(l4, evs3) := set_status ACTIVE l3 in
            Ok (l4, evs1 ++ evs2 ++ evs3 ++ [Established])
        end
        end
  end.

Definition decode_body (body : bytes) : result value :=
  match decode (whole body) with
  | Some r => r
  | None => Throw (JsError "unreachable")
  end.

(** [toNumber] is ECMAScript's ToNumber on a decoded value; [Math.max] of NaN
    is NaN. *)
Definition _handleLRRTT (toNumber : value -> result (option Q)) (now : Z) (l : Link) (body : bytes)
    : result (Link * list event) :=
  let! v := decode_body body in
  let measured := ((now - requestTimeMs (timing l)) # 1000)%Q in
  let! reported := toNumber v in
  let t := _updateKeepalive (set_rtt (timing l) (Qmax measured <$> reported)) in
  let '(l', evs) := set_status ACTIVE (set_timing l t) in
  Ok (l', evs ++ [Established]).

Definition _linkSigningKey (l : Link) : result bytes :=
  if initiator l then
    match ephemeralEd25519Priv (keys l) with
    | Some k => Ok k
    | None => Throw (JsError "Initiator link has no ephemeral Ed25519 signing key.")
    end
  else match identity l with
  | Some id => match ed25519Priv id with
               | Some k => Ok k
               | None => Throw (JsError "Responder link has no identity signing key.")
               end
  | None => Throw (JsError "Responder link has no identity signing key.")
  end.

Definition _provePacket (sent : bool) (l : Link) (p : Packet) : result (list event) :=
  let! hash := getHash sha256 p in
  let! key := _linkSigningKey l in
  transport_send sent (new_Packet PacketType_PROOF DestType_LINK ContextType_NONE (linkId l)
    (fst hash ++ ed25519_sign key (fst hash))).

Definition _verifyLinkProof (l : Link) (signature packetHash : bytes) : bool :=
  if initiator l then
    match identity l with Some id => validate id signature packetHash | None => false end
  else match peerEd25519Pub (keys l) with
  | Some pk => ed25519_verify pk signature packetHash
  | None => false
  end.

Definition _handleLinkProof (l : Link) (body : bytes) : Link * list event :=
  if negb (length body =? 96)%nat then (l, [])
  else
    let packetHash := slice 0 32 body in
    if negb (_verifyLinkProof l (slice 32 96 body) packetHash) then (l, [])
    else (set_pending l (filter (fun h => h <> toHex packetHash) (pendingLinkProofs l)) (pendingRequests l),
          [ProofValidated packetHash]).

Definition _handleLinkClose (l : Link) (plaintext : bytes) : Link * list event :=
  if negb (length plaintext =? length (linkId l))%nat then (l, [])
  else if negb (xor_diff 0 plaintext (linkId l) =? 0) then (l, [])
  else close_with (if initiator l then DESTINATION_CLOSED else INITIATOR_CLOSED) l.

Definition identify (iv : bytes) (sent : bool) (id : Identity) (l : Link) : result (Link * list event) :=
  if negb (initiator l) || bool_decide (status l <> ACTIVE) then
    Throw (JsError "identify() can only be called by an ACTIVE initiator link.")
  else
    let pk := getPublicKey id in
    let! signature := sign id (linkId l ++ pk) in
    send iv sent l (link_packet l ContextType_LINKIDENTIFY (pk ++ signature)).

Definition _handleIdentify (l : Link) (plaintext : bytes) : Link * list event :=
  if negb (length plaintext =? 128)%nat then (l, [])
  else
    let pk := slice 0 64 plaintext in
    let peer := fromPublicKey pk in
    if negb (validate peer (slice 64 128 plaintext) (linkId l ++ pk)) then (l, [])
    else (set_remote l peer, [Identified peer]).

Definition _sendLinkClose (iv : bytes) (sent : bool) (l : Link) : list event :=
  match send iv sent l (link_packet l ContextType_LINKCLOSE (linkId l)) with
  | Ok (_, evs) => evs
  | Throw _ => []
  end.

(** [teardown]; a LINKCLOSE that cannot be sent does not stop it. *)
Definition teardown (iv : bytes) (sent : bool) (l : Link) : Link * list event :=
  if decide (status l = CLOSED) then (l, [])
  else
    let evs := _sendLinkClose iv sent l in
    let '(l', evs') := close_with (if initiator l then INITIATOR_CLOSED else DESTINATION_CLOSED) l in
    (l', evs ++ evs').

(** ** Requests *)

(** What a generator answers with: a value ([VNull]: nothing), or a
    [ResourceResponse]. *)
Inductive Response :=
| Plain (v : value)
| ResourceResponse (data : bytes) (metadata : option value).

Record RequestHandler := mkHandler {
  allow : Z;
  allowedList : list bytes;
  autoCompress : bool;
  responseGenerator : value -> option bytes -> option Identity -> result Response;
}.

Definition _authorizeRequest (h : RequestHandler) (l : Link) : bool :=
  if allow h =? 1 then true
  else if allow h =? 2 then
    match remoteIdentity l with
    | None => false
    | Some r => existsb (fun x => (length x =? length (identityHash r))%nat
                                  && bytesEqual x (identityHash r)) (allowedList h)
    end
  else false.

Definition id_value (requestId : option bytes) : value :=
  match requestId with Some b => VBin b | None => VNull end.

(** [requestId] is null for a REQUEST resource advertised without one. *)
Definition _sendResponse (iv : bytes) (sent : bool) (l : Link) (response : value)
    (requestId : option bytes) (auto : bool) : result (Link * list event) :=
  let! packed := encode (VArr [id_value requestId; response]) in
  if zlen packed >? mdu (mtu l) then Ok (l, [AdvertiseResource packed None requestId auto])
  else send iv sent l (link_packet l ContextType_RESPONSE packed).

Definition _dispatchRequest (iv : bytes) (sent : bool) (handlers : jsmap RequestHandler) (l : Link)
    (pathHash : bytes) (data : value) (requestId : option bytes) : result (Link * list event) :=
  match get (toHex pathHash) handlers with
  | None => Ok (l, [])
  | Some h =>
      if negb (_authorizeRequest h l) then Ok (l, [])
      else match responseGenerator h data requestId (remoteIdentity l) with
      | Throw _ => Ok (l, [])
      | Ok (Plain VNull) => Ok (l, [])
      | Ok (ResourceResponse d (Some m)) =>
          Ok (l, [AdvertiseResource d (Some m) requestId (autoCompress h)])
      | Ok (ResourceResponse d None) => _sendResponse iv sent l (VBin d) requestId (autoCompress h)
      | Ok (Plain response) => _sendResponse iv sent l response requestId (autoCompress h)
      end
  end.

(** [received] is the packet as it arrived: its hash is the request id. *)
Definition _handleRequest (iv : bytes) (sent : bool) (handlers : jsmap RequestHandler) (l : Link)
    (received : Packet) (body : bytes) : result (Link * list event) :=
  let! hashable := getHashablePart received in
  let requestId := truncatedHash (fst hashable) in
  match decode_body body with
  | Ok (VArr (_ :: VBin pathHash :: data :: _)) =>
      if negb (length pathHash =? 16)%nat then Ok (l, [])
      else _dispatchRequest iv sent handlers l pathHash data (Some requestId)
  | _ => Ok (l, [])
  end.

Definition _resolveResponse (requestId : bytes) (response : value) (l : Link) : Link * list event :=
  match get (toHex requestId) (pendingRequests l) with
  | None => (l, [])
  | Some _ => (set_pending l (pendingLinkProofs l) (mdelete (toHex requestId) (pendingRequests l)),
               [Settled (toHex requestId) (Resolved response)])
  end.

Definition _handleResponse (l : Link) (body : bytes) : Link * list event :=
  match decode_body body with
  | Ok (VArr (VBin requestId :: response :: _)) =>
      if negb (length requestId =? 16)%nat then (l, [])
      else _resolveResponse requestId response l
  | _ => (l, [])
  end.

(** What a REQUEST travels in: one packet, or a resource when it is larger than
    a packet. *)
Inductive RequestForm :=
| SinglePacket (p : Packet)
| AsResource (packed requestId : bytes).

(** [request] up to the registration: the request id and what is to be
    sent. *)
Definition request_begin (iv : bytes) (timestamp : value) (path : jsstr) (data : value) (l : Link)
    : result (jsstr * RequestForm) :=
  if decide (status l <> ACTIVE) then Throw (JsError "Link must be ACTIVE to issue a REQUEST.")
  else
    let! packed := encode (VArr [timestamp; VBin (truncatedHash (utf8_encode path)); data]) in
    if zlen packed >? mdu (mtu l) then
      let requestId := truncatedHash packed in
      Ok (toHex requestId, AsResource packed requestId)
    else
      let! outbound := _prepareOutboundPacket iv l (link_packet l ContextType_REQUEST packed) in
      let! hashable := getHashablePart outbound in
      Ok (toHex (truncatedHash (fst hashable)), SinglePacket outbound).

Definition _registerPendingRequest (id : jsstr) (l : Link) : Link :=
  set_pending l (pendingLinkProofs l) (mset id (mkPending false) (pendingRequests l)).

(** The transmit has resolved and nothing has settled the request: the promise
    goes to the caller. *)
Definition hand_out (id : jsstr) (l : Link) : Link :=
  match get id (pendingRequests l) with
  | None => l
  | Some _ => set_pending l (pendingLinkProofs l) (mset id (mkPending true) (pendingRequests l))
  end.

Definition _sendKeepalive (sent isPing : bool) (l : Link) : result (list event) :=
  transport_send sent (link_packet l ContextType_KEEPALIVE [if isPing then 0xff else 0xfe]).

(** ** Dispatch *)

Record Env := mkEnv {
  env_iv : bytes;
  env_sent : bool;                    (* whether the transport takes packets *)
  env_now : Z;
  env_handlers : jsmap RequestHandler;
  env_toNumber : value -> result (option Q);
  env_encodeRtt : option Q -> bytes;
}.

Definition is_resource_context (ctx : Z) : bool :=
  (ContextType_RESOURCE <=? ctx) && (ctx <=? ContextType_RESOURCE_RCL).

Definition _dispatch (E : Env) (l : Link) (p : Packet) (body : bytes) : result (Link * list event) :=
  let ctx := contextByte p in
  if ctx =? ContextType_NONE then
    if packetType p =? PacketType_DATA then
      let! proof := _provePacket (env_sent E) l p in Ok (l, proof ++ [Data body])
    else if packetType p =? PacketType_PROOF then Ok (_handleLinkProof l body)
    else Ok (l, [])
  else if is_resource_context ctx then Ok (l, [ToResource ctx body])
  else if ctx =? ContextType_KEEPALIVE then
    let! pong := if negb (initiator l) && bool_decide (body = [0xff])
                 then _sendKeepalive (env_sent E) false l else Ok [] in
    Ok (l, pong ++ [Keepalive])
  else if ctx =? ContextType_LRRTT then
    if negb (initiator l) then _handleLRRTT (env_toNumber E) (env_now E) l body else Ok (l, [])
  else if ctx =? ContextType_REQUEST then _handleRequest (env_iv E) (env_sent E) (env_handlers E) l p body
  else if ctx =? ContextType_RESPONSE then Ok (_handleResponse l body)
  else if ctx =? ContextType_LINKCLOSE then Ok (_handleLinkClose l body)
  else if ctx =? ContextType_LINKIDENTIFY then Ok (_handleIdentify l body)
  else if ctx =? ContextType_CHANNEL then
    let! proof := _provePacket (env_sent E) l p in Ok (l, proof ++ [ToChannel body])
  else Ok (l, []).

Definition _processPacket (E : Env) (l : Link) (p : Packet) : result (Link * list event) :=
  let l := set_timing l (set_inbound (timing l) (env_now E)) in
  if (packetType p =? PacketType_PROOF) && (contextByte p =? ContextType_LRPROOF) then
    if initiator l then _handleLRPROOF (env_iv E) (env_sent E) (env_now E) (env_encodeRtt E) l p else Ok (l, [])
  else
    let! body :=
      if negb (isLinkPacketUnencrypted (packetType p) (contextByte p)) then
        match token (keys l) with
        | None => Throw (JsError "Encrypted link packet received before handshake.")
        | Some t => Token.decrypt t (payload p)
        end
      else Ok (payload p) in
    _dispatch E l p body.

(** [receive]: an exception is logged; only the time of arrival is kept. *)
Definition receive (E : Env) (l : Link) (p : Packet) : Link * list event :=
  match _processPacket E l p with
  | Ok r => r
  | Throw _ => (set_timing l (set_inbound (timing l) (env_now E)), [])
  end.

(** ** Timers *)

Definition establishment_expires (l : Link) : Link * list event :=
  if negb (establishmentArmed l) then (l, [])
  else
    let l1 := set_life l (status l) (watchdogRunning l) false in
    if decide (status l1 <> HANDSHAKE) then (l1, []) else close_with TIMEOUT l1.

(** One tick of the 1-second interval, less the ticks of the resources.  The
    LINKCLOSE of a stale link is sent without waiting for it: its encryption
    ends after the link is closed. *)
Definition _watchdogJob (iv : bytes) (sent : bool) (now : Z) (l : Link) : Link * list event :=
  let t := timing l in
  if elapsed now (lastInboundTime t) (staleTime t) then
    let '(l', evs) := close_with TIMEOUT l in (l', evs ++ _sendLinkClose iv sent l)
  else if initiator l && elapsed now (lastInboundTime t) (keepaliveInterval t)
          && elapsed now (lastKeepaliveTime t) (keepaliveInterval t) then
    (set_timing l (set_keepalive_sent t now),
     match _sendKeepalive sent true l with Ok evs => evs | Throw _ => [] end)
  else (l, []).

Definition watchdog_tick (iv : bytes) (sent : bool) (now : Z) (l : Link) : Link * list event :=
  if watchdogRunning l then _watchdogJob iv sent now l else (l, []).

End WithCrypto.
