(* ===== verification/LinkHandshake.v ===== *)
(** * LinkHandshake: proofs about link establishment

    The link id does not depend on the path or on the signalling trailer; the
    four steps of the handshake leave both ends with the same keys; only a
    correctly signed LRPROOF makes an initiator's link active. *)

From Stdlib Require Import QArith.
From S2P Require Import Prelude Encoding JsMap Utf8 MsgPack MsgPackSpec Packet Crypto Identity Link.

#[local] Open Scope Z_scope.

(** ** The signalling trailer *)

Lemma signalling_value mtu mode :
  js_and mtu 0x1fffff + js_shl (js_and (js_shl mode 5) 0xe0) 16
  = mtu mod 2 ^ 21 + (mode mod 8) * 2 ^ 21.
Proof.
  change 0x1fffff with (2 ^ 21 - 1). rewrite js_and_mask by lia.
  assert (E : js_and (js_shl mode 5) 0xe0 = (mode mod 8) * 32).
  { unfold js_and. rewrite (int32_small 0xe0) by lia.
    assert (Hm : int32 (js_shl mode 5) mod 256 = (mode mod 8) * 32).
    { rewrite (int32_mod _ 8) by lia. unfold js_shl. rewrite (int32_mod _ 8) by lia.
      rewrite Z.shiftl_mul_pow2 by lia. change (2 ^ 8) with (8 * 2 ^ 5).
      rewrite Z.mul_mod_distr_r by lia. change 8 with (2 ^ 3).
      by rewrite (int32_mod mode 3) by lia. }
    change 0xe0 with (Z.land 255 0xe0). rewrite Z.land_assoc. change 255 with (2 ^ 8 - 1).
    rewrite land_mask by lia. change (2 ^ 8) with 256. rewrite Hm.
    pose proof (Z.mod_pos_bound mode 8 eq_refl) as Hb. revert Hb. generalize (mode mod 8).
    intros k Hk. assert (k = 0 \/ k = 1 \/ k = 2 \/ k = 3 \/ k = 4 \/ k = 5 \/ k = 6 \/ k = 7)
      as [-> | [-> | [-> | [-> | [-> | [-> | [-> | ->]]]]]]] by lia; reflexivity. }
  rewrite E. unfold js_shl. pose proof (Z.mod_pos_bound mode 8 eq_refl).
  rewrite (int32_small (_ * 32)), Z.shiftl_mul_pow2, int32_small by lia. lia.
Qed.

Lemma length_signallingBytes m md : length (signallingBytes m md) = SIGNALLING_SIZE.
Proof. unfold signallingBytes, slice_from. by rewrite length_drop, length_be_bytes. Qed.

Lemma signallingBytes_wf m md : wf_bytes (signallingBytes m md).
Proof. unfold signallingBytes. apply wf_bytes_drop, wf_be_bytes. Qed.

(** The three bytes carry the low 21 bits of the MTU and the low 3 bits of the
    mode. *)
Lemma signalled_signalling m md :
  signalled_mtu (signallingBytes m md) = m mod 2 ^ 21
  /\ signalled_mode (signallingBytes m md) = md mod 8.
Proof.
  unfold signallingBytes, signalled_mtu, signalled_mode. rewrite signalling_value.
  pose proof (Z.mod_pos_bound m (2 ^ 21) eq_refl) as Hm.
  pose proof (Z.mod_pos_bound md 8 eq_refl) as Hd.
  set (a := m mod 2 ^ 21) in *. set (b := md mod 8) in *. clearbody a b.
  assert (Hs : slice_from 1 (be_bytes 4 (a + b * 2 ^ 21))
    = [a / 65536 + b * 32; a / 256 mod 256; a mod 256]).
  { unfold slice_from. cbn [be_bytes app drop].
    assert ((a + b * 2 ^ 21) mod 256 = a mod 256) as -> by dmlia.
    assert ((a + b * 2 ^ 21) / 256 mod 256 = a / 256 mod 256) as -> by dmlia.
    assert ((a + b * 2 ^ 21) / 256 / 256 mod 256 = a / 65536 + b * 32) as -> by dmlia. done. }
  rewrite Hs. cbn [byte_at nth]. set (hi := a / 65536) in *.
  assert (Hhi : 0 <= hi < 32) by (subst hi; dmlia). split.
  - assert (E : forall x k, 0 <= x < 256 -> 0 <= k <= 16 -> js_shl x k = x * 2 ^ k).
    { intros x k Hx Hk. unfold js_shl. rewrite (int32_small x), Z.shiftl_mul_pow2 by lia.
      apply int32_small. assert (2 ^ k <= 2 ^ 16) by (apply Z.pow_le_mono_r; lia).
      assert (0 < 2 ^ k) by (apply Z.pow_pos_nonneg; lia). nia. }
    rewrite !E by dmlia. change 0x1fffff with (2 ^ 21 - 1). rewrite js_and_mask by lia.
    subst hi. dmlia.
  - unfold js_shr, js_and. rewrite (int32_small (_ + _)), (int32_small 0xe0) by lia.
    assert (E : Z.land (hi + b * 32) 0xe0 = b * 32).
    { rewrite Z.add_comm. change 32 with (2 ^ 5). rewrite <- lor_add_pow2 by lia.
      rewrite Z.land_lor_distr_l.
      replace (Z.land hi 0xe0) with 0.
      - rewrite Z.lor_0_r.
        assert (b = 0 \/ b = 1 \/ b = 2 \/ b = 3 \/ b = 4 \/ b = 5 \/ b = 6 \/ b = 7)
          as [-> | [-> | [-> | [-> | [-> | [-> | [-> | ->]]]]]]] by lia; reflexivity.
      - rewrite <- (Z.mod_small hi (2 ^ 5)), <- land_mask, <- Z.land_assoc by lia.
        symmetry. apply Z.land_0_r. }
    rewrite E, int32_small, Z.shiftr_div_pow2 by lia. dmlia.
Qed.

Section Handshake.
Context `{C : WebCrypto} `{J : JsHost} `{W : !WebCryptoLaws C}.

(** ** The link id *)

(** What the link id is a hash of: the fields of the LINKREQUEST with the body
    cut after the two public keys. *)
Definition lr_fields (p : Packet) : bytes :=
  (dest_bits p * 4 + packetType p mod 4)
    :: field16 (destinationHash p) ++ contextByte p mod 256 :: take EC_PUBLIC_KEY_SIZE (payload p).

Lemma link_id_of p : serialize p = Ok (raw p) ->
  linkIdFromLrPacket p = truncatedHash (lr_fields p).
Proof.
  intros Hs. pose proof (hashable_of_serialized p (raw p) Hs) as H.
  unfold linkIdFromLrPacket, lr_fields. unfold hashable_fields in H.
  injection H as Hf Hb. rewrite Hf.
  rewrite Hb. do 2 f_equal.
  destruct (Nat.ltb_spec EC_PUBLIC_KEY_SIZE (length (payload p))).
  - rewrite length_app, length_field16. cbn [length].
    replace (DST_LEN + S (length (payload p)) - (length (payload p) - EC_PUBLIC_KEY_SIZE))%nat
      with (DST_LEN + S EC_PUBLIC_KEY_SIZE)%nat by lia.
    unfold slice. rewrite drop_0, Nat.sub_0_r. unfold slice_from.
    rewrite take_app_ge by (rewrite length_field16; lia).
    rewrite length_field16, Nat.add_comm, Nat.add_sub. done.
  - rewrite take_ge by lia. done.
Qed.

(** The link id is the same for both ends whatever happens to the
    LINKREQUEST on its way: hop count, header form and next hop may change, and
    the signalling trailer after the two public keys may be added, dropped or
    rewritten; two requests with the same id hash the same destination and
    keys. *)
Theorem link_id_invariant (p q : Packet) (sig : bytes)
    (Hp : fits (set_raw p [])) (Hs : serialize p = Ok (raw p))
    (Hlen : (EC_PUBLIC_KEY_SIZE <= length (payload p))%nat)
    (Hq : relayed (mkPacket (headerType p) (hops p) (transportType p) (destinationType p)
            (packetType p) (contextFlag p) (destinationHash p) (contextByte p)
            (take EC_PUBLIC_KEY_SIZE (payload p) ++ sig) (transportId p) []) q) :
  linkIdFromLrPacket q = linkIdFromLrPacket p
  /\ linkIdFromLrPacket p = truncatedHash (lr_fields p)
  /\ (forall p', lr_fields p' = lr_fields p ->
        field16 (destinationHash p') = field16 (destinationHash p)
        /\ take EC_PUBLIC_KEY_SIZE (payload p') = take EC_PUBLIC_KEY_SIZE (payload p)).
Proof.
  pose proof (link_id_of p Hs) as Hid. split; [|split; [done|]].
  - rewrite Hid. destruct Hp as (A & B & D & E & F & G & H & K & M).
    match type of Hq with relayed ?p' _ => assert (Hf : fits p') end.
    { unfold fits; cbn in *. repeat (split; [done|]).
      split; [|done]. intros Hn. apply app_eq_nil in Hn as [Hn _].
      apply (f_equal length) in Hn. rewrite length_take, Nat.min_l in Hn by done. discriminate. }
    destruct (relayed_parse _ q Hf Hq) as (Q1 & Q2 & _ & Q3 & Q4 & Q5 & _ & Q6 & _).
    rewrite (link_id_of q Q6). unfold lr_fields, dest_bits. rewrite Q1, Q2, Q3, Q4, Q5.
    cbn [payload contextByte destinationType packetType destinationHash].
    rewrite take_app_length'; [done|]. rewrite length_take. by rewrite Nat.min_l.
  - intros p' E. unfold lr_fields in E. injection E as _ E.
    apply app_inj_1 in E as [-> E]; [|by rewrite !length_field16]. injection E as _ ->. done.
Qed.

(** ** Key agreement *)

Lemma deriveKeys_ok lid peer k s : length peer = 32%nat -> x25519_bits (ephemeralX25519Priv k) peer = Some s ->
  exists t, Token.new_Token (hkdf s lid [] 64) Token.AES_256_CBC = Ok t
    /\ _deriveKeys lid peer k
       = Ok (mkKeys (ephemeralX25519Priv k) (ephemeralX25519Pub k) (ephemeralEd25519Priv k)
               (peerX25519Pub k) (peerEd25519Pub k) (Some (hkdf s lid [] 64)) (Some t)).
Proof.
  intros Hp Hs. destruct (new_Token_256 (hkdf s lid [] 64)) as [t Ht]; [apply hkdf_length|].
  exists t. split; [done|]. unfold _deriveKeys. rewrite Hp, Hs. cbn [Nat.eqb negb].
  by rewrite Ht.
Qed.

(** ** Encrypted packets *)

(** The wire packet of an encrypted body. *)
Definition sealed (l : Link) (ctx : Z) (ciphertext : bytes) : Packet :=
  mkPacket HeaderType_1 0 0 DestType_LINK PacketType_DATA false (linkId l) ctx ciphertext None [].

Definition wire (p : Packet) : Packet :=
  match serialize p with Ok r => set_raw p r | Throw _ => p end.

Lemma wire_raw p : fits p -> serialize p = Ok (raw (wire p)) /\ wire p = set_raw p (raw (wire p)).
Proof. intros H. unfold wire. by rewrite serialize_fits by done. Qed.

Lemma fits_body l ctx ty c : length (linkId l) = DST_LEN -> is_byte ctx -> 0 <= ty < 4 -> c <> [] ->
  fits (mkPacket HeaderType_1 0 0 DestType_LINK ty false (linkId l) ctx c None []).
Proof. intros. unfold fits; cbn. unfold DestType_LINK, PATHFINDER_M. intuition (lia || auto). Qed.

Lemma encrypt_nonempty iv t m : length iv = 16%nat -> Token.encrypt iv t m <> [].
Proof. intros H. unfold Token.encrypt. by destruct iv. Qed.

Lemma fits_sealed l ctx iv t m : length (linkId l) = DST_LEN -> is_byte ctx -> length iv = 16%nat ->
  fits (sealed l ctx (Token.encrypt iv t m)).
Proof. intros. apply fits_body; [done..|]. by apply encrypt_nonempty. Qed.

Lemma prepare_encrypted iv t l ctx body :
  token (keys l) = Some t -> length (linkId l) = DST_LEN -> is_byte ctx -> length iv = 16%nat ->
  isLinkPacketUnencrypted PacketType_DATA ctx = false ->
  _prepareOutboundPacket iv l (link_packet l ctx body) = Ok (wire (sealed l ctx (Token.encrypt iv t body))).
Proof.
  intros Ht Hl Hc Hiv Hu. unfold _prepareOutboundPacket.
  change (packetType (link_packet l ctx body)) with PacketType_DATA.
  change (contextByte (link_packet l ctx body)) with ctx. rewrite Hu, Ht.
  change (PacketType_DATA =? PacketType_LINKREQUEST) with false.
  change (PacketType_DATA =? PacketType_PROOF) with false. cbn [orb andb negb rbind].
  pose proof (wire_raw _ (fits_sealed l ctx iv t body Hl Hc Hiv)) as [Hs _].
  change (serialize _) with (serialize (sealed l ctx (Token.encrypt iv t body))).
  unfold wire in *. destruct (serialize (sealed _ _ _)); [done|discriminate].
Qed.

Lemma getHash_wire p : fits p -> getHash sha256 (wire p) = Ok (sha256 (hashable_fields p), wire p).
Proof.
  intros Hf. destruct (wire_raw p Hf) as [Hs Hw]. unfold getHash.
  rewrite (getHashablePart_cached (wire p) (raw (wire p))).
  - rewrite Hw. done.
  - done.
  - rewrite Hw at 1. rewrite serialize_set_raw. exact Hs.
Qed.

Lemma relayed_wire p q : fits p -> relayed (wire p) q <-> relayed p q.
Proof.
  intros Hf. destruct (wire_raw p Hf) as [_ ->]. apply relayed_set_raw.
Qed.

(** What [send] does with an encrypted body. *)
Lemma send_encrypted iv sent t l ctx body :
  token (keys l) = Some t -> length (linkId l) = DST_LEN -> is_byte ctx -> length iv = 16%nat ->
  isLinkPacketUnencrypted PacketType_DATA ctx = false ->
  let out := wire (sealed l ctx (Token.encrypt iv t body)) in
  let key := toHex (sha256 (hashable_fields (sealed l ctx (Token.encrypt iv t body)))) in
  send iv sent l (link_packet l ctx body)
  = if sent then
      Ok (set_pending l (if ctx =? ContextType_NONE then add_once key (pendingLinkProofs l)
                         else pendingLinkProofs l) (pendingRequests l), [SendPacket out])
    else Throw (JsError "send failed").
Proof.
  intros Ht Hl Hc Hiv Hu out key. unfold send. rewrite (prepare_encrypted iv t) by done. cbn [rbind].
  pose proof (fits_sealed l ctx iv t body Hl Hc Hiv) as Hf.
  rewrite getHash_wire by done. cbn [rbind fst].
  destruct (wire_raw _ Hf) as [_ ->]. unfold transport_send. destruct sent; done.
Qed.

(** What the peer makes of it. *)
Lemma receive_encrypted E l l' t iv ctx body q :
  token (keys l') = Some t -> length (linkId l) = DST_LEN -> is_byte ctx -> length iv = 16%nat ->
  isLinkPacketUnencrypted PacketType_DATA ctx = false ->
  relayed (wire (sealed l ctx (Token.encrypt iv t body))) q ->
  receive E l' q
  = match _dispatch E (set_timing l' (set_inbound (timing l') (env_now E))) q body with
    | Ok r => r
    | Throw _ => (set_timing l' (set_inbound (timing l') (env_now E)), [])
    end
  /\ packetType q = PacketType_DATA /\ contextByte q = ctx
  /\ getHashablePart q = Ok (hashable_fields (sealed l ctx (Token.encrypt iv t body)), q).
Proof.
  intros Ht Hl Hc Hiv Hu Hr. pose proof (fits_sealed l ctx iv t body Hl Hc Hiv) as Hf.
  apply (relayed_wire _ q Hf) in Hr.
  destruct (relayed_parse _ q Hf Hr) as (_ & Hpt & _ & _ & Hcx & Hpl & _).
  split; [|split; [exact Hpt | split; [exact Hcx | by apply (relayed_hashable _ q Hf)]]].
  unfold receive, _processPacket. rewrite Hpt, Hcx, Hpl.
  change (packetType _) with PacketType_DATA. change (contextByte _) with ctx. rewrite Hu.
  cbn [andb Z.eqb negb PacketType_DATA PacketType_PROOF].
  change (keys (set_timing l' _)) with (keys l'). rewrite Ht.
  change (payload _) with (Token.encrypt iv t body).
  by rewrite Token.decrypt_encrypt by done.
Qed.

(** ** The four steps *)

Lemma fits_lr x e dest : length dest = DST_LEN -> fits (lr_packet x e dest).
Proof.
  intros Hd. unfold fits; cbn. unfold is_byte, PATHFINDER_M. intuition (try lia || done).
  apply (f_equal length) in H. rewrite length_app, x25519_pub_length in H. discriminate.
Qed.

(** The initiator's link after [initiate]. *)
Definition initiated (x e : bytes) (id : option Identity) (dest : bytes) (ht : option Z) (now : Z) : Link :=
  mkLink id (Some dest) (truncatedHash (lr_fields (lr_packet x e dest))) true
    (mkKeys x (x25519_pub x) (Some e) None None None None)
    DEFAULT_MTU MODE_AES256_CBC (set_requested (new_timing now) now)
    HANDSHAKE NO_REASON false true ht false [] [] None.

Lemma link_id_wire p : fits p -> linkIdFromLrPacket (wire p) = truncatedHash (lr_fields p).
Proof.
  intros Hf. destruct (wire_raw p Hf) as [Hs Hw]. rewrite (link_id_of (wire p)); rewrite Hw; done.
Qed.

Lemma initiate_ok x e id dest ht now : length dest = DST_LEN ->
  initiate true x e id dest ht now
  = Ok (initiated x e id dest ht now,
        [AddLink; StatusChange HANDSHAKE PENDING; SendPacket (wire (lr_packet x e dest))], Ok tt).
Proof.
  intros Hd. pose proof (fits_lr x e dest Hd) as Hf. destruct (wire_raw _ Hf) as [Hs Hw].
  unfold initiate. rewrite Hs. cbn [rbind]. rewrite <- Hw, (link_id_wire _ Hf). done.
Qed.

(** The responder's link after [accept]. *)
Definition accepted (x e y : bytes) (id : option Identity) (dest : option bytes) (lid : bytes)
    (d : bytes) (t : Token.Token) (h now : Z) : Link :=
  mkLink id dest lid false
    (mkKeys y (x25519_pub y) None (Some (x25519_pub x)) (Some (ed25519_pub e)) (Some d) (Some t))
    DEFAULT_MTU MODE_AES256_CBC (set_requested (new_timing now) now)
    HANDSHAKE NO_REASON false true (Some h) false [] [] None.

Definition lrproof_packet (lid sig x : bytes) : Packet :=
  new_Packet PacketType_PROOF DestType_LINK ContextType_LRPROOF lid
    (sig ++ x ++ signallingBytes DEFAULT_MTU MODE_AES256_CBC).

Lemma lr_payload_slices x e dest :
  let d := payload (lr_packet x e dest) in
  slice 0 32 d = x25519_pub x /\ slice 32 64 d = ed25519_pub e /\ length d = 67%nat
  /\ slice_from EC_PUBLIC_KEY_SIZE d = signallingBytes DEFAULT_MTU MODE_AES256_CBC.
Proof.
  cbv zeta. cbn [payload lr_packet new_Packet].
  pose proof (x25519_pub_length x) as Hx. pose proof (ed25519_pub_length e) as He.
  pose proof (length_signallingBytes DEFAULT_MTU MODE_AES256_CBC) as Hs. unfold SIGNALLING_SIZE in Hs.
  split; [by apply slice_app_take|]. split; [apply slice_app_here; lia|].
  split; [rewrite !length_app, Hx, He, Hs; done|].
  unfold EC_PUBLIC_KEY_SIZE, slice_from. rewrite app_assoc.
  rewrite <- (Nat.add_0_r 64). rewrite drop_app_skip; [done|]. rewrite length_app. lia.
Qed.

Lemma ed_of_public i : wf_identity i -> slice 32 64 (getPublicKey i) = ed25519Pub i.
Proof.
  intros ((x & _ & Hx) & (e & _ & He) & _). unfold getPublicKey. rewrite Hx, He.
  rewrite <- (app_nil_r (_ ++ _)), <- app_assoc.
  apply slice_app_here; rewrite x25519_pub_length, ?ed25519_pub_length; done.
Qed.

Lemma sendLRProof_ok l idr sig : identity l = Some idr -> wf_identity idr ->
  sign idr (lrproof_signed (linkId l) (ephemeralX25519Pub (keys l)) (ed25519Pub idr)
    (signallingBytes (mtu l) (mode l))) = Ok sig ->
  _sendLRProof true l
  = Ok [SendPacket (new_Packet PacketType_PROOF DestType_LINK ContextType_LRPROOF (linkId l)
      (sig ++ ephemeralX25519Pub (keys l) ++ signallingBytes (mtu l) (mode l)))].
Proof.
  intros Hi Hw Hs. unfold _sendLRProof. rewrite Hi. cbv zeta. by rewrite (ed_of_public idr Hw), Hs.
Qed.

Lemma accept_ok x e y idr dest dest' s lr' now :
  length dest = DST_LEN -> wf_identity idr -> x25519_bits y (x25519_pub x) = Some s ->
  relayed (wire (lr_packet x e dest)) lr' ->
  let lid := truncatedHash (lr_fields (lr_packet x e dest)) in
  exists t sig, Token.new_Token (hkdf s lid [] 64) Token.AES_256_CBC = Ok t /\ length sig = 64%nat
    /\ validate (fromPublicKey (getPublicKey idr)) sig
         (lrproof_signed lid (x25519_pub y) (ed25519Pub idr) (signallingBytes DEFAULT_MTU MODE_AES256_CBC)) = true
    /\ accept true y (Some idr) dest' lr' now
       = Ok (accepted x e y (Some idr) dest' lid (hkdf s lid [] 64) t (hops lr') now,
             [StatusChange HANDSHAKE PENDING; AddLink; SendPacket (lrproof_packet lid sig (x25519_pub y))], Ok tt).
Proof.
  intros Hd Hid Hs Hr lid. pose proof (fits_lr x e dest Hd) as Hf.
  apply (relayed_wire _ _ Hf) in Hr.
  destruct (relayed_parse _ lr' Hf Hr) as (Q1 & Q2 & _ & Q3 & Q4 & Q5 & _ & Q6 & _).
  destruct (lr_payload_slices x e dest) as (S1 & S2 & S3 & S4). rewrite <- Q5 in S1, S2, S3, S4.
  assert (Hlid : linkIdFromLrPacket lr' = lid).
  { rewrite (link_id_of lr' Q6). unfold lid, lr_fields, dest_bits. by rewrite Q1, Q2, Q3, Q4, Q5. }
  destruct (deriveKeys_ok lid (x25519_pub x)
    (mkKeys y (x25519_pub y) None (Some (x25519_pub x)) (Some (ed25519_pub e)) None None) s)
    as (t & Ht & Hk); [apply x25519_pub_length | exact Hs |].
  destruct (sign_validate idr (lrproof_signed lid (x25519_pub y) (ed25519Pub idr)
    (signallingBytes DEFAULT_MTU MODE_AES256_CBC)) Hid) as (sig & Hsg & Hl & _ & Hv).
  exists t, sig. split; [done|]. split; [done|]. split; [done|].
  unfold accept. rewrite S1, S2, S3, S4, Hlid.
  destruct (signalled_signalling DEFAULT_MTU MODE_AES256_CBC) as [-> ->].
  change (67 =? EC_PUBLIC_KEY_SIZE + SIGNALLING_SIZE)%nat with true. cbv iota beta zeta.
  rewrite Hk. cbn [rbind].
  change (DEFAULT_MTU mod 2 ^ 21) with DEFAULT_MTU. change (MODE_AES256_CBC mod 8) with MODE_AES256_CBC.
  set (l0 := mkLink _ _ _ _ _ _ _ _ PENDING _ _ _ _ _ _ _ _).
  change (set_status HANDSHAKE l0)
    with (set_life l0 HANDSHAKE false false, [StatusChange HANDSHAKE PENDING]). cbv iota beta zeta.
  set (l1 := accepted _ _ _ _ _ _ _ _ _ _).
  change (set_life (set_life l0 HANDSHAKE false false) _ _ true) with l1.
  rewrite (sendLRProof_ok l1 idr sig) by done. reflexivity.
Qed.

Lemma fits_lrproof lid sig x : length lid = DST_LEN -> length sig = 64%nat -> fits (lrproof_packet lid sig x).
Proof.
  intros Hd Hs. unfold fits; cbn. unfold is_byte, PATHFINDER_M. intuition (try lia || done).
  destruct sig; discriminate.
Qed.

Lemma lrproof_slices (sig x sg : bytes) : length sig = 64%nat -> length x = 32%nat -> length sg = SIGNALLING_SIZE ->
  let d := sig ++ x ++ sg in
  slice 0 64 d = sig /\ slice 64 96 d = x /\ length d = 99%nat /\ slice_from 96 d = sg.
Proof.
  intros Hs Hx Hg d. subst d. unfold SIGNALLING_SIZE in Hg. split; [by apply slice_app_take|].
  split; [apply slice_app_here; lia|]. split; [rewrite !length_app; lia|].
  unfold slice_from. rewrite app_assoc. rewrite <- (Nat.add_0_r 96), drop_app_skip; [done|].
  rewrite length_app. lia.
Qed.

Lemma set_life_life l a b c d e f : set_life (set_life l a b c) d e f = set_life l d e f.
Proof. reflexivity. Qed.

(** The handler on a valid LRPROOF: the new keys, the LRRTT, the transition. *)
Lemma handleLRPROOF_ok iv now enc l id x sig sg p k t :
  identity l = Some id -> status l <> ACTIVE -> length (linkId l) = DST_LEN -> length iv = 16%nat ->
  payload p = sig ++ x ++ sg ->
  length sig = 64%nat -> length x = 32%nat -> length sg = SIGNALLING_SIZE ->
  signalled_mode sg = mode l ->
  validate id sig (lrproof_signed (linkId l) x (slice 32 64 (getPublicKey id)) sg) = true ->
  _deriveKeys (linkId l) x (mkKeys (ephemeralX25519Priv (keys l)) (ephemeralX25519Pub (keys l))
    (ephemeralEd25519Priv (keys l)) (Some x) (peerEd25519Pub (keys l)) (derivedKey (keys l)) (token (keys l)))
  = Ok k -> token k = Some t ->
  let tm := _updateKeepalive (set_rtt (timing l) (Some ((now - requestTimeMs (timing l)) # 1000)%Q)) in
  exists l' pre,
    _handleLRPROOF iv true now enc l p
    = Ok (l', pre ++ [SendPacket (wire (sealed l ContextType_LRRTT (Token.encrypt iv t (enc (rtt tm)))));
                      StatusChange ACTIVE (status l); Established])
    /\ status l' = ACTIVE /\ keys l' = k /\ mtu l' = signalled_mtu sg /\ mode l' = mode l
    /\ linkId l' = linkId l /\ initiator l' = initiator l /\ identity l' = identity l
    /\ timing l' = tm /\ watchdogRunning l' = true /\ establishmentArmed l' = false.
Proof.
  intros Hi Hst Hl Hiv Hp Hs Hx Hg Hm Hv Hk Ht tm.
  destruct (lrproof_slices sig x sg Hs Hx Hg) as (S1 & S2 & S3 & S4).
  unfold _handleLRPROOF. rewrite Hi, Hp, S1, S2, S3, S4. cbv zeta.
  change (99 =? 64 + 32 + SIGNALLING_SIZE)%nat with true. rewrite Hm, Z.eqb_refl. cbn [negb rbind].
  rewrite Hv. cbn [negb].
  set (rb := bool_decide _ && _). set (l1 := if rb then _ else l). set (evs1 := if _ && _ then _ else _).
  assert (E : linkId l1 = linkId l /\ keys l1 = keys l /\ timing l1 = timing l /\ status l1 = status l
    /\ mode l1 = mode l /\ initiator l1 = initiator l /\ identity l1 = identity l)
    by (subst l1; by destruct rb).
  clearbody l1 evs1. destruct E as (E1 & E2 & E3 & E4 & E5 & E6 & E7).
  rewrite E1, E2, Hk, E3. fold tm.
  set (l2 := set_timing _ tm).
  rewrite (send_encrypted iv true t l2) by
    (done || (change (linkId l2) with (linkId l1); by rewrite E1)).
  change (ContextType_LRRTT =? ContextType_NONE) with false. cbv iota.
  set (l3 := set_pending l2 _ _).
  assert (E8 : status l3 = status l) by done.
  unfold set_status. rewrite E8. destruct (decide (status l = ACTIVE)) as [|_]; [done|].
  exists (set_life l3 ACTIVE true false), evs1. split.
  2: { split_and!; first [done | exact E1 | exact E5 | exact E6 | by rewrite <- Hi]. }
  assert (E9 : forall ctx c, sealed l2 ctx c = sealed l ctx c).
  { intros. unfold sealed. change (linkId l2) with (linkId l1). by rewrite E1. }
  rewrite E9, set_life_life. reflexivity.
Qed.

Lemma handleLRRTT_ok toNumber now l body v n :
  decode_body body = Ok v -> toNumber v = Ok n -> status l <> ACTIVE ->
  let tm := _updateKeepalive (set_rtt (timing l)
              (Qminmax.Qmax ((now - requestTimeMs (timing l)) # 1000)%Q <$> n)) in
  _handleLRRTT toNumber now l body
  = Ok (set_life (set_timing l tm) ACTIVE true false, [StatusChange ACTIVE (status l); Established]).
Proof.
  intros Hv Hn Hst tm. unfold _handleLRRTT. rewrite Hv. cbn [rbind]. rewrite Hn. cbn [rbind].
  fold tm. unfold set_status. change (status (set_timing l tm)) with (status l).
  destruct (decide (status l = ACTIVE)) as [|_]; [done|]. by rewrite set_life_life.
Qed.

(** What the two ends of an established link have in common. *)
Record paired (I R : Link) : Prop := {
  paired_id : linkId I = linkId R;
  paired_length : length (linkId I) = DST_LEN;
  paired_initiator : initiator I = true;
  paired_responder : initiator R = false;
  paired_mtu : mtu I = mtu R;
  paired_mode : mode I = mode R;
  paired_token : exists t, token (keys I) = Some t /\ token (keys R) = Some t;
  paired_ephemeral : exists e, ephemeralEd25519Priv (keys I) = Some e
    /\ peerEd25519Pub (keys R) = Some (ed25519_pub e);
  paired_identity : exists i, wf_identity i /\ identity R = Some i
    /\ identity I = Some (fromPublicKey (getPublicKey i));
}.

(** The LRPROOF step seen from the initiator. *)
Lemma receive_lrproof E x e y idr dest ht t0 sig t d prf :
  let lid := truncatedHash (lr_fields (lr_packet x e dest)) in
  let id := fromPublicKey (getPublicKey idr) in
  let I0 := initiated x e (Some id) dest ht t0 in
  wf_identity idr -> length (env_iv E) = 16%nat -> env_sent E = true -> length sig = 64%nat ->
  validate id sig (lrproof_signed lid (x25519_pub y) (ed25519Pub idr)
    (signallingBytes DEFAULT_MTU MODE_AES256_CBC)) = true ->
  x25519_bits x (x25519_pub y) = Some d -> Token.new_Token (hkdf d lid [] 64) Token.AES_256_CBC = Ok t ->
  relayed (lrproof_packet lid sig (x25519_pub y)) prf ->
  exists I1 pre r,
    receive E I0 prf
    = (I1, pre ++ [SendPacket (wire (sealed I0 ContextType_LRRTT (Token.encrypt (env_iv E) t (env_encodeRtt E r))));
                   StatusChange ACTIVE HANDSHAKE; Established])
    /\ status I1 = ACTIVE /\ mtu I1 = DEFAULT_MTU /\ mode I1 = MODE_AES256_CBC /\ linkId I1 = lid
    /\ initiator I1 = true /\ identity I1 = Some id /\ derivedKey (keys I1) = Some (hkdf d lid [] 64)
    /\ token (keys I1) = Some t /\ ephemeralEd25519Priv (keys I1) = Some e
    /\ watchdogRunning I1 = true /\ establishmentArmed I1 = false.
Proof.
  intros lid id I0 Hid Hiv Hsent Hl Hv Hd Ht Hr.
  assert (Hlid : length lid = DST_LEN) by apply length_truncatedHash.
  pose proof (fits_lrproof lid sig (x25519_pub y) Hlid Hl) as Hf.
  destruct (relayed_parse _ prf Hf Hr) as (_ & Q2 & _ & _ & Q4 & Q5 & _).
  set (I0' := set_timing I0 (set_inbound (timing I0) (env_now E))).
  destruct (deriveKeys_ok lid (x25519_pub y) (mkKeys x (x25519_pub x) (Some e) (Some (x25519_pub y))
    None None None) d (x25519_pub_length y) Hd) as (t' & Ht' & Hk).
  rewrite Ht in Ht'. injection Ht' as <-.
  destruct (handleLRPROOF_ok (env_iv E) (env_now E) (env_encodeRtt E) I0' id (x25519_pub y) sig
    (signallingBytes DEFAULT_MTU MODE_AES256_CBC) prf
    (mkKeys x (x25519_pub x) (Some e) (Some (x25519_pub y)) None (Some (hkdf d lid [] 64)) (Some t))
    t eq_refl ltac:(discriminate) Hlid Hiv Q5 Hl
    (x25519_pub_length y) (length_signallingBytes _ _)
    (proj2 (signalled_signalling DEFAULT_MTU MODE_AES256_CBC))) as (I1 & pre & H & R).
  { cbn [linkId I0' I0 initiated set_timing]. fold lid.
    destruct (fromPublicKey_of idr Hid) as (F1 & F2 & _).
    unfold id at 2, getPublicKey at 1. rewrite F1, F2.
    change (x25519Pub idr ++ ed25519Pub idr) with (getPublicKey idr). by rewrite (ed_of_public idr Hid). }
  { exact Hk. }
  { reflexivity. }
  destruct R as (R1 & R2 & R3 & R4 & R5 & R6 & R7 & R8 & R9 & R10).
  exists I1, pre. eexists. split.
  - unfold receive, _processPacket. rewrite Q2, Q4, Hsent.
    change ((packetType _ =? _) && _) with true. cbn [andb].
    change (initiator _) with true. cbn iota. fold I0'. rewrite H. reflexivity.
  - rewrite R2, R3, (proj1 (signalled_signalling DEFAULT_MTU MODE_AES256_CBC)), R4, R5, R6, R7.
    split_and!; done.
Qed.

(** The LRRTT step seen from the responder. *)
Lemma receive_lrrtt E l R0 t iv body v n q :
  token (keys R0) = Some t -> linkId R0 = linkId l -> length (linkId l) = DST_LEN -> length iv = 16%nat ->
  initiator R0 = false -> status R0 <> ACTIVE ->
  decode_body body = Ok v -> env_toNumber E v = Ok n ->
  relayed (wire (sealed l ContextType_LRRTT (Token.encrypt iv t body))) q ->
  exists R1, receive E R0 q = (R1, [StatusChange ACTIVE (status R0); Established])
    /\ status R1 = ACTIVE /\ keys R1 = keys R0 /\ linkId R1 = linkId R0 /\ mtu R1 = mtu R0
    /\ mode R1 = mode R0 /\ initiator R1 = false /\ identity R1 = identity R0
    /\ watchdogRunning R1 = true /\ establishmentArmed R1 = false.
Proof.
  intros Ht Hid Hl Hiv Hin Hst Hv Hn Hr.
  destruct (receive_encrypted E l R0 t iv ContextType_LRRTT body q) as (H & _ & Hc & _);
    [done..|].
  set (R0' := set_timing R0 _) in *.
  eexists. split.
  - rewrite H. unfold _dispatch. rewrite Hc. cbn -[_handleLRRTT]. rewrite Hin. cbn [negb].
    rewrite (handleLRRTT_ok _ _ R0' body v n) by done. reflexivity.
  - cbn. split_and!; done.
Qed.

(** C7: The handshake: whatever next hops and hop counts the three packets see
    on their way, the responder accepts the LINKREQUEST the initiator sent, the
    initiator accepts the LRPROOF and answers with an LRRTT, the responder
    accepts that; then both links are ACTIVE, have the same id, keys, MTU and
    mode, and each holds the key that verifies the other's packet proofs. *)
Theorem handshake_agreement (x e y dest d : bytes) (idr : Identity) (ht : option Z) (t0 t1 : Z)
    (EI ER : Env) (Hd : length dest = DST_LEN) (Hid : wf_identity idr)
    (Hx : x25519_bits x (x25519_pub y) = Some d)
    (Hiv : length (env_iv EI) = 16%nat) (Hsent : env_sent EI = true)
    (Hrtt : forall r, exists v n, decode_body (env_encodeRtt EI r) = Ok v /\ env_toNumber ER v = Ok n) :
  exists I0 request,
    initiate true x e (Some (fromPublicKey (getPublicKey idr))) dest ht t0
    = Ok (I0, [AddLink; StatusChange HANDSHAKE PENDING; SendPacket request], Ok tt)
    /\ forall request', relayed request request' ->
  exists R0 proof,
    accept true y (Some idr) (Some dest) request' t1
    = Ok (R0, [StatusChange HANDSHAKE PENDING; AddLink; SendPacket proof], Ok tt)
    /\ forall proof', relayed proof proof' ->
  exists I1 pre rtt,
    receive EI I0 proof' = (I1, pre ++ [SendPacket rtt; StatusChange ACTIVE HANDSHAKE; Established])
    /\ forall rtt', relayed rtt rtt' ->
  exists R1,
    receive ER R0 rtt' = (R1, [StatusChange ACTIVE HANDSHAKE; Established])
    /\ status I1 = ACTIVE /\ status R1 = ACTIVE
    /\ derivedKey (keys I1) = derivedKey (keys R1) /\ is_Some (derivedKey (keys I1)) /\ paired I1 R1.
Proof.
  eexists _, _. split; [by apply initiate_ok|]. intros rq Hrq.
  rewrite x25519_agree in Hx.
  destruct (accept_ok x e y idr dest (Some dest) d rq t1 Hd Hid Hx Hrq) as (t & sig & Ht & Hl & Hv & Ha).
  eexists _, _. split; [exact Ha|]. intros prf Hprf. rewrite x25519_agree in Hx.
  destruct (receive_lrproof EI x e y idr dest ht t0 sig t d prf Hid Hiv Hsent Hl Hv Hx Ht Hprf)
    as (I1 & pre & r & H & S1 & S2 & S3 & S4 & S5 & S6 & S7 & S8 & S9 & _).
  exists I1, pre. eexists. split; [exact H|]. intros rt Hrt.
  destruct (Hrtt r) as (v & n & Hdec & Hnum).
  set (R0 := accepted _ _ _ _ _ _ _ _ _ _).
  destruct (receive_lrrtt ER (initiated x e (Some (fromPublicKey (getPublicKey idr))) dest ht t0) R0 t
    (env_iv EI) (env_encodeRtt EI r) v n rt eq_refl eq_refl) as (R1 & HR & T1 & T2 & T3 & T4 & T5 & T6 & T7 & _);
    [apply length_truncatedHash | done | done | discriminate | done | done | exact Hrt |].
  exists R1. split; [exact HR|]. split; [done|]. split; [done|]. rewrite S7, T2.
  split; [done|]. split; [by eexists|].
  constructor; rewrite ?S2, ?S3, ?S4, ?S5, ?S6, ?S8, ?S9, ?T2, ?T3, ?T4, ?T5, ?T6, ?T7; try done;
    cbn [R0 accepted keys token peerEd25519Pub identity]; eauto.
  apply length_truncatedHash.
Qed.


(** ** What the handlers leave alone *)

Definition core (l : Link) :=
  (identity l, destHash l, linkId l, initiator l, keys l, mtu l, mode l).

Lemma fail_all_frame ids l :
  exists rs, fst (fail_all ids l) = set_pending l (pendingLinkProofs l) rs.
Proof.
  revert l. induction ids as [|id ids IH]; intros l; cbn [fail_all].
  - exists (pendingRequests l). by destruct l.
  - unfold _failPendingRequest. destruct (get id (pendingRequests l)).
    + destruct (IH (set_pending l (pendingLinkProofs l) (mdelete id (pendingRequests l)))) as [rs H].
      destruct (fail_all ids _) as [l'' evs]. cbn in H |- *. rewrite H. by exists rs.
    + destruct (IH l) as [rs H]. destruct (fail_all ids l) as [l'' evs]. cbn in H |- *. by exists rs.
Qed.

Lemma set_status_frame new l l' evs : set_status new l = (l', evs) ->
  core l' = core l /\ timing l' = timing l /\ status l' = new.
Proof.
  unfold set_status. destruct (decide (status l = new)) as [<-|_]; [by intros [= <- _]|].
  destruct new; try (intros [= <- _]; done).
  unfold _rejectPendingRequests. set (l2 := set_life _ CLOSED false false).
  destruct (fail_all_frame (JsMap.keys (pendingRequests l2)) l2) as [rs H].
  destruct (fail_all _ l2) as [l3 e]. cbn in H. intros [= <- _]. by rewrite H.
Qed.

Lemma close_with_frame r l l' evs : close_with r l = (l', evs) ->
  core l' = core l /\ timing l' = timing l /\ status l' = CLOSED.
Proof.
  unfold close_with. destruct (set_status CLOSED (set_reason l r)) as [l1 e1] eqn:E.
  intros [= <- _]. by destruct (set_status_frame _ _ _ _ E).
Qed.

Lemma send_frame iv sent l p l' evs : send iv sent l p = Ok (l', evs) ->
  core l' = core l /\ timing l' = timing l /\ status l' = status l.
Proof.
  unfold send. intros (o & _ & H)%rbind_ok. apply rbind_ok in H as (h & _ & H).
  apply rbind_ok in H as (e & _ & H). by injection H as <- <-.
Qed.

(** No handler of a decrypted packet touches the keys, and on the initiator's
    side none moves the link to a status other than CLOSED. *)
Lemma dispatch_frame E l p b l' evs : initiator l = true -> _dispatch E l p b = Ok (l', evs) ->
  core l' = core l /\ (status l' = status l \/ status l' = CLOSED).
Proof.
  intros Hi. unfold _dispatch. rewrite Hi. cbn [negb andb rbind].
  repeat case_goal; try discriminate;
    try (intros [= <- _]; auto; fail);
    try (intros H; apply rbind_ok in H as (? & _ & H); injection H as <- <-; auto; fail).
  - unfold _handleLinkProof. repeat case_goal; intros [= <- _]; auto.
  - unfold _handleRequest. intros (h & _ & H)%rbind_ok. revert H.
    repeat case_goal; try (intros [= <- _]; auto; fail).
    unfold _dispatchRequest, _sendResponse.
    repeat case_goal; try (intros [= <- _]; auto; fail);
      (intros H; apply rbind_ok in H as (pk & _ & H); revert H; case_goal;
       [by intros [= <- _]; auto | intros H; apply send_frame in H; intuition]).
  - unfold _handleResponse, _resolveResponse. repeat case_goal; intros [= <- _]; auto.
  - unfold _handleLinkClose. do 2 (case_goal; [intros [= <- _]; auto|]).
    intros [= H]. apply close_with_frame in H. intuition.
  - unfold _handleIdentify. do 2 (case_goal; [intros [= <- _]; auto|]). intros [= <- _]; auto.
Qed.

Lemma deriveKeys_Ok lid peer k k' : _deriveKeys lid peer k = Ok k' ->
  length peer = 32%nat /\ peerX25519Pub k' = peerX25519Pub k
  /\ exists s, x25519_bits (ephemeralX25519Priv k) peer = Some s /\ derivedKey k' = Some (hkdf s lid [] 64).
Proof.
  unfold _deriveKeys. destruct (length peer =? 32)%nat eqn:E; cbn [negb]; [|discriminate]. bools.
  destruct (x25519_bits _ _) as [s|]; [|discriminate].
  intros (t & _ & H)%rbind_ok. injection H as <-. eauto 6.
Qed.

Lemma core_keys l l' : core l' = core l -> keys l' = keys l.
Proof. unfold core. congruence. Qed.

(** An LRPROOF the handler accepts. *)
Lemma handleLRPROOF_Ok iv sent now enc l p l' evs :
  _handleLRPROOF iv sent now enc l p = Ok (l', evs) ->
  exists id sg, identity l = Some id
    /\ let sig := slice 0 64 (payload p) in let x := slice 64 96 (payload p) in
    payload p = sig ++ x ++ sg /\ length sig = 64%nat /\ length x = 32%nat
    /\ (sg = [] \/ length sg = SIGNALLING_SIZE /\ signalled_mode sg = mode l)
    /\ validate id sig (lrproof_signed (linkId l) x (slice 32 64 (getPublicKey id)) sg) = true
    /\ peerX25519Pub (keys l') = Some x
    /\ (status l' = ACTIVE -> status l <> ACTIVE -> exists s, x25519_bits (ephemeralX25519Priv (keys l)) x = Some s
        /\ derivedKey (keys l') = Some (hkdf s (linkId l) [] 64)).
Proof.
  unfold _handleLRPROOF. destruct (identity l) as [id|] eqn:Hid; [|discriminate].
  intros ([sg m] & Hsg & H)%rbind_ok.
  assert (Hp : payload p = slice 0 64 (payload p) ++ slice 64 96 (payload p) ++ sg
    /\ length (slice 0 64 (payload p)) = 64%nat /\ length (slice 64 96 (payload p)) = 32%nat
    /\ (sg = [] \/ length sg = SIGNALLING_SIZE /\ signalled_mode sg = mode l)).
  { rewrite !length_slice. unfold SIGNALLING_SIZE in *.
    rewrite <- (drop_0 (payload p)) at 1.
    rewrite <- (slice_take_drop 0 64), <- (slice_take_drop 64 96) by lia.
    destruct (length (payload p) =? 64 + 32 + 3)%nat eqn:E; bools.
    - destruct (negb (signalled_mode _ =? _)) eqn:E2; [discriminate|]. bools. injection Hsg as <- _.
      unfold slice_from. rewrite length_drop, E. auto 6.
    - destruct (length (payload p) =? 64 + 32)%nat eqn:E2; [|discriminate]. bools.
      cbn in Hsg. injection Hsg as <- _. rewrite E2, (drop_ge (payload p)) by lia. auto 6. }
  exists id, sg. split; [done|]. cbv zeta. destruct Hp as (P1 & P2 & P3 & P4).
  repeat (split; [done|]).
  destruct (validate _ _ _) eqn:Hv; cbn [negb] in H; [|discriminate]. split; [done|].
  set (rb := bool_decide _ && _) in H. set (l1 := if rb then _ else l) in H.
  set (evs1 := if _ && _ then _ else _) in H.
  assert (E : linkId l1 = linkId l /\ keys l1 = keys l /\ status l1 = status l)
    by (subst l1; by destruct rb).
  clearbody l1 evs1. destruct E as (E1 & E2 & E3). rewrite E1, E2 in H.
  destruct (_deriveKeys _ _ _) as [k|] eqn:Hk.
  2: { injection H as <- _. cbn [keys set_keys peerX25519Pub status]. split; [reflexivity|].
       intros HA HN. cbn in HA. congruence. }
  apply deriveKeys_Ok in Hk as (_ & K1 & s & K2 & K3). cbn in K1, K2.
  set (l2 := set_timing _ _) in H.
  assert (K : core l' = core l2 -> peerX25519Pub (keys l') = Some (slice 64 96 (payload p))
    /\ (status l' = ACTIVE -> status l <> ACTIVE -> exists s,
          x25519_bits (ephemeralX25519Priv (keys l)) (slice 64 96 (payload p)) = Some s
          /\ derivedKey (keys l') = Some (hkdf s (linkId l) [] 64))).
  { intros ->%core_keys. change (keys l2) with k. split; [exact K1|].
    intros _ _. exists s. by split. }
  destruct (send _ _ _ _) as [[l3 e3]|] eqn:Hsend; [|injection H as <- _; by apply K].
  destruct (set_status ACTIVE l3) as [l4 e4] eqn:Hst. injection H as <- _.
  apply K. apply send_frame in Hsend as (<- & _). by apply set_status_frame in Hst as (-> & _).
Qed.

(** C23: An initiator's link becomes active only through its responder: the
    packet that activates it is an LRPROOF whose signature, under the
    destination's identity, covers this link's id, the responder's ephemeral
    key and the signalling bytes; the session key comes from that ephemeral
    key, and a signalled mode is the link's own.  No other packet changes an
    initiator's keys. *)
Theorem lrproof_authentic (E : Env) (l l' : Link) (p : Packet) (evs : list event)
    (Hi : initiator l = true) (Hr : receive E l p = (l', evs))
    (Hc : status l' = ACTIVE /\ status l <> ACTIVE \/ keys l' <> keys l) :
  packetType p = PacketType_PROOF /\ contextByte p = ContextType_LRPROOF
  /\ exists id sig x sg, identity l = Some id /\ payload p = sig ++ x ++ sg
    /\ length sig = 64%nat /\ length x = 32%nat
    /\ (sg = [] \/ length sg = SIGNALLING_SIZE /\ signalled_mode sg = mode l)
    /\ ed25519_verify (ed25519Pub id) sig (lrproof_signed (linkId l) x (slice 32 64 (getPublicKey id)) sg) = true
    /\ peerX25519Pub (keys l') = Some x
    /\ (status l' = ACTIVE -> status l <> ACTIVE ->
        exists s, x25519_bits (ephemeralX25519Priv (keys l)) x = Some s
          /\ derivedKey (keys l') = Some (hkdf s (linkId l) [] 64)).
Proof.
  unfold receive in Hr. destruct (_processPacket E l p) as [[l1 e1]|] eqn:HP.
  2: { injection Hr as <- _. cbn in Hc. destruct Hc as [[? ?]|?]; congruence. }
  injection Hr as -> ->. unfold _processPacket in HP.
  set (l0 := set_timing l _) in HP. change (initiator l0) with (initiator l) in HP. rewrite Hi in HP.
  destruct ((packetType p =? PacketType_PROOF) && _) eqn:Hpt; bools.
  - split; [done|]. split; [done|].
    destruct (handleLRPROOF_Ok _ _ _ _ _ _ _ _ HP) as (id & sg & H1 & H2 & H3 & H4 & H5 & H6 & H7 & H8).
    exists id, (slice 0 64 (payload p)), (slice 64 96 (payload p)), sg.
    repeat (split; [done|]). split; [|by split].
    unfold validate in H6. by rewrite H3 in H6.
  - apply rbind_ok in HP as (b & _ & HP). apply dispatch_frame in HP as [HC HS]; [|done].
    apply core_keys in HC. cbn in HC, HS. destruct Hc as [[? ?]|?]; [|congruence].
    destruct HS; congruence.
Qed.

End Handshake.

(** ** Witnesses *)

Import Toy. Import MsgPackSpec.Host.

Definition sample_identity : Identity := generate (replicate 32 1) (replicate 32 2).

Definition sample_dest : bytes := replicate 16 9.

Definition sample_shared : bytes := default [] (x25519_bits (replicate 32 3) (x25519_pub (replicate 32 6))).

Definition sample_env : Env :=
  mkEnv (replicate 16 5) true 2000 [] (fun _ => Ok (Some 1%Q)) (fun _ => encodeFloat64 (VInt 1)).

Definition sample_lr : Packet := wire (lr_packet (replicate 32 3) (replicate 32 4) sample_dest).

Definition sample_initiator : Link :=
  initiated (replicate 32 3) (replicate 32 4) (Some (fromPublicKey (getPublicKey sample_identity)))
    sample_dest (Some 2) 1000.

Definition sample_lrproof : Packet :=
  wire (lrproof_packet (linkId sample_initiator)
    (ed25519_sign (replicate 32 2) (lrproof_signed (linkId sample_initiator) (x25519_pub (replicate 32 6))
      (ed25519Pub sample_identity) (signallingBytes DEFAULT_MTU MODE_AES256_CBC)))
    (x25519_pub (replicate 32 6))).

Lemma sample_wf : wf_identity sample_identity.
Proof. apply generate_wf. Qed.

Lemma sample_rtt r : exists v n,
  decode_body (env_encodeRtt sample_env r) = Ok v /\ env_toNumber sample_env v = Ok n.
Proof. exists (VInt 1), (Some 1%Q). split; reflexivity. Qed.

Lemma link_id_invariant_witness :
  linkIdFromLrPacket (wire (mkPacket HeaderType_1 0 0 DestType_SINGLE PacketType_LINKREQUEST false sample_dest
    ContextType_NONE (take EC_PUBLIC_KEY_SIZE (payload sample_lr) ++ [7]) None []))
  = linkIdFromLrPacket sample_lr.
Proof.
  assert (Hf : fits (set_raw sample_lr [])) by (apply (fits_lr (replicate 32 3) (replicate 32 4)); reflexivity).
  refine (proj1 (link_id_invariant sample_lr _ [7] Hf _ _ _)).
  - vm_compute. reflexivity.
  - vm_compute. lia.
  - apply (relayed_refl _ (raw (wire (mkPacket HeaderType_1 0 0 DestType_SINGLE PacketType_LINKREQUEST
      false sample_dest ContextType_NONE (take EC_PUBLIC_KEY_SIZE (payload sample_lr) ++ [7]) None [])))).
    + destruct Hf as (A & B & D & E & F & G & H & K & M).
      repeat (split; [assumption|]). split; [discriminate | exact M].
    + vm_compute. reflexivity.
Defined.

Lemma handshake_agreement_witness :
  exists I0 request,
    initiate true (replicate 32 3) (replicate 32 4) (Some (fromPublicKey (getPublicKey sample_identity)))
      sample_dest (Some 2) 1000
    = Ok (I0, [AddLink; StatusChange HANDSHAKE PENDING; SendPacket request], Ok tt)
    /\ forall request', relayed request request' ->
  exists R0 proof,
    accept true (replicate 32 6) (Some sample_identity) (Some sample_dest) request' 1500
    = Ok (R0, [StatusChange HANDSHAKE PENDING; AddLink; SendPacket proof], Ok tt).
Proof.
  destruct (@handshake_agreement toy_crypto no_exotic toy_laws (replicate 32 3) (replicate 32 4) (replicate 32 6) sample_dest
    sample_shared
    sample_identity (Some 2) 1000 1500 sample_env sample_env eq_refl sample_wf
    ltac:(vm_compute; reflexivity) eq_refl eq_refl
    sample_rtt) as (I0 & rq & H & K).
  exists I0, rq. split; [exact H|]. intros rq' Hq. destruct (K rq' Hq) as (R0 & prf & HR & _).
  exists R0, prf. exact HR.
Defined.

Lemma lrproof_authentic_witness :
  status (fst (receive sample_env sample_initiator sample_lrproof)) = ACTIVE
  /\ exists id, identity sample_initiator = Some id.
Proof.
  assert (Hs : status (fst (receive sample_env sample_initiator sample_lrproof)) = ACTIVE)
    by (vm_compute; reflexivity).
  split; [exact Hs|].
  destruct (lrproof_authentic sample_env sample_initiator _ sample_lrproof _ eq_refl
    (surjective_pairing _)) as (_ & _ & id & _ & _ & _ & H & _).
  - left. split; [exact Hs | discriminate].
  - exists id. exact H.
Defined.
