(* ===== verification/LinkTraffic.v ===== *)
(** * LinkTraffic: proofs about packets on an established link

    Data and channel packets reach the peer and come back as proofs the sender
    can verify; a request is answered to the caller that made it; what fits in
    a packet. *)

From Stdlib Require Import QArith.
From S2P Require Import Prelude Encoding JsMap Utf8 MsgPack MsgPackSpec Packet Crypto Identity Link LinkHandshake.

#[local] Open Scope Z_scope.

Section Traffic.
Context `{C : WebCrypto} `{J : JsHost} `{W : !WebCryptoLaws C}.

(** The two ends of an established link, in either order. *)
Definition peers (A B : Link) : Prop := paired A B \/ paired B A.

Lemma peers_sym A B : peers A B -> peers B A.
Proof. unfold peers. tauto. Qed.

Lemma peers_shared A B : peers A B ->
  linkId A = linkId B /\ length (linkId A) = DST_LEN
  /\ mtu A = mtu B /\ exists t, token (keys A) = Some t /\ token (keys B) = Some t.
Proof.
  intros [P|P]; destruct (paired_token _ _ P) as (t & ? & ?);
    pose proof (paired_id _ _ P); pose proof (paired_length _ _ P); pose proof (paired_mtu _ _ P);
    repeat split; eauto; congruence.
Qed.

(** The peer's packet proofs verify. *)
Lemma peers_sign A B : peers A B ->
  exists k, _linkSigningKey B = Ok k /\ forall h, _verifyLinkProof A (ed25519_sign k h) h = true.
Proof.
  unfold _linkSigningKey, _verifyLinkProof. intros [P|P].
  - destruct (paired_identity _ _ P) as (i & Hw & HB & HA). pose proof Hw as (_ & (e & He & Hp) & _).
    rewrite (paired_initiator _ _ P), (paired_responder _ _ P), HB, HA, He.
    exists e. split; [done|]. intros h. unfold validate.
    rewrite ed25519_sign_length. cbn [Nat.eqb negb].
    destruct (fromPublicKey_of i Hw) as (-> & _). by rewrite Hp, ed25519_correct.
  - destruct (paired_ephemeral _ _ P) as (e & HB & HA).
    rewrite (paired_initiator _ _ P), (paired_responder _ _ P), HB, HA.
    exists e. split; [done|]. intros h. apply ed25519_correct.
Qed.

(** Changing what the peers do not share keeps them peers. *)
Lemma peers_core A A' B : core A' = core A -> peers A B -> peers A' B.
Proof.
  unfold core. intros [= E1 E2 E3 E4 E5 E6 E7] [[]|[]]; [left|right]; constructor;
    rewrite ?E1, ?E3, ?E4, ?E5, ?E6, ?E7; done.
Qed.

(** ** What fits in a packet *)

Definition frame_size (l : Link) (ctx : Z) (iv : bytes) (t : Token.Token) (body : bytes) : Z :=
  zlen (raw (wire (sealed l ctx (Token.encrypt iv t body)))).

Lemma length_encrypt iv t m : length iv = 16%nat ->
  length (Token.encrypt iv t m) = (48 + 16 * (length m / 16 + 1))%nat.
Proof.
  intros Hi. unfold Token.encrypt. rewrite !length_app, Hi, aes_cbc_length. unfold hmac.
  rewrite hmac_length. lia.
Qed.

Lemma frame_size_eq l ctx iv t body : length (linkId l) = DST_LEN -> is_byte ctx -> length iv = 16%nat ->
  frame_size l ctx iv t body = 67 + 16 * (zlen body / 16 + 1).
Proof.
  intros Hl Hc Hi. pose proof (fits_sealed l ctx iv t body Hl Hc Hi) as Hf.
  destruct (wire_raw _ Hf) as [Hs _]. rewrite serialize_fits in Hs by done.
  unfold frame_size. set (r := raw _) in *. clearbody r. injection Hs as <-. cbn [transportId sealed default app destinationHash payload contextByte].
  rewrite !zlen_cons, zlen_app, zlen_cons. unfold zlen. rewrite Hl, length_encrypt by done.
  unfold DST_LEN. pose proof (Nat2Z.inj_div (length body) 16) as Hd.
  change (Z.of_nat 16) with 16 in Hd. lia.
Qed.

(** The link's MDU is exact: an encrypted body fits the MTU, header, initial
    vector, padding and MAC included, if and only if it is at most [mdu] bytes
    long; at the default MTU of 500 that is 431. *)
Theorem link_mdu_exact (l : Link) (ctx : Z) (iv body : bytes) (t : Token.Token)
    (Hl : length (linkId l) = DST_LEN) (Hc : is_byte ctx) (Hi : length iv = 16%nat) (Hm : 83 <= mtu l) :
  (frame_size l ctx iv t body <= mtu l <-> zlen body <= mdu (mtu l))
  /\ mdu DEFAULT_MTU = 431.
Proof.
  split; [|done]. rewrite frame_size_eq by done. unfold mdu. pose proof (zlen_nonneg body).
  rewrite Z.max_r by dmlia. split; intros; dmlia.
Qed.

(** ** Packets and their proofs *)

Definition delivery (ctx : Z) (body : bytes) : event :=
  if ctx =? ContextType_NONE then Data body else ToChannel body.

Definition proof_packet (l : Link) (h s : bytes) : Packet :=
  new_Packet PacketType_PROOF DestType_LINK ContextType_NONE (linkId l) (h ++ s).

Lemma fits_proof l h s : length (linkId l) = DST_LEN -> length h = 32%nat -> fits (proof_packet l h s).
Proof. intros. apply fits_body; [done..|]. by destruct h. Qed.

(** The sender on the proof of a packet. *)
Lemma receive_proof E A B k h q : linkId B = linkId A -> length (linkId A) = DST_LEN ->
  (forall h, _verifyLinkProof A (ed25519_sign k h) h = true) -> length h = 32%nat ->
  relayed (proof_packet B h (ed25519_sign k h)) q ->
  exists A', receive E A q = (A', [ProofValidated h])
    /\ core A' = core A
    /\ pendingLinkProofs A' = filter (fun x => x <> toHex h) (pendingLinkProofs A).
Proof.
  intros Hid Hl Hv Hh Hr.
  destruct (relayed_parse _ q (fits_proof B h _ ltac:(congruence) Hh) Hr) as (_ & Q2 & _ & _ & Q4 & Q5 & _).
  eexists. split.
  - unfold receive, _processPacket. rewrite Q2, Q4, Q5.
    change (packetType _) with PacketType_PROOF. change (contextByte _) with ContextType_NONE.
    change (payload _) with (h ++ ed25519_sign k h).
    change ((PacketType_PROOF =? PacketType_PROOF) && (ContextType_NONE =? ContextType_LRPROOF)) with false.
    change (isLinkPacketUnencrypted PacketType_PROOF ContextType_NONE) with true. cbn [negb rbind].
    unfold _dispatch. rewrite Q2, Q4.
    change (contextByte _ =? ContextType_NONE) with true.
    change (packetType _ =? PacketType_DATA) with false.
    change (packetType _ =? PacketType_PROOF) with true. cbv iota.
    unfold _handleLinkProof. rewrite length_app, Hh, ed25519_sign_length. cbn [Nat.add Nat.eqb negb].
    rewrite slice_app_take by done.
    assert (slice 32 96 (h ++ ed25519_sign k h) = ed25519_sign k h) as ->.
    { rewrite <- (app_nil_r (h ++ _)), <- app_assoc.
      apply slice_app_here; rewrite ?ed25519_sign_length; lia. }
    change (_verifyLinkProof (set_timing A _)) with (_verifyLinkProof A). rewrite Hv. reflexivity.
  - done.
Qed.

Lemma add_once_in h s : In h (add_once h s).
Proof.
  unfold add_once. destruct (existsb _ s) eqn:E.
  - apply existsb_exists in E as (x & Hx & Heq). bools. by subst.
  - apply in_app_iff. right. by left.
Qed.

Lemma filter_fresh (h : jsstr) s : ~ In h s -> filter (fun x => x <> h) s = s.
Proof.
  intros Hn. induction s as [|x s IH]; [done|]. rewrite filter_cons_True.
  - f_equal. apply IH. intros H. apply Hn. by right.
  - intros ->. apply Hn. by left.
Qed.

Lemma filter_add_once h s : ~ In h s -> filter (fun x => x <> h) (add_once h s) = s.
Proof.
  intros Hn. unfold add_once. destruct (existsb _ s) eqn:E.
  - apply existsb_exists in E as (x & Hx & Heq). bools. by subst.
  - rewrite filter_app, filter_cons_False, filter_nil, app_nil_r by (intros H; by apply H).
    by apply filter_fresh.
Qed.

(** The receiver on a data or channel packet. *)
Lemma receive_data E A B t iv ctx body q k :
  token (keys B) = Some t -> length (linkId A) = DST_LEN -> length iv = 16%nat ->
  ctx = ContextType_NONE \/ ctx = ContextType_CHANNEL ->
  env_sent E = true -> _linkSigningKey B = Ok k ->
  relayed (wire (sealed A ctx (Token.encrypt iv t body))) q ->
  let h := sha256 (hashable_fields (sealed A ctx (Token.encrypt iv t body))) in
  exists B', receive E B q = (B', [SendPacket (proof_packet B h (ed25519_sign k h)); delivery ctx body])
    /\ core B' = core B.
Proof.
  intros Ht Hl Hi Hc Hs Hk Hr h.
  destruct (receive_encrypted E A B t iv ctx body q) as (H & Hpt & Hcx & Hh);
    [done | done | by destruct Hc as [-> | ->] | done | by destruct Hc as [-> | ->] | done |].
  eexists. split; [|shelve]. rewrite H. unfold _dispatch. rewrite Hpt, Hcx.
  unfold _provePacket, getHash. rewrite Hh. cbn [rbind fst]. fold h.
  change (_linkSigningKey (set_timing B _)) with (_linkSigningKey B). rewrite Hk, Hs.
  by destruct Hc as [-> | ->].
  Unshelve. done.
Qed.

(** A data or channel packet sent over an established link, in either
    direction, is delivered by the peer exactly as it was given to the sender,
    and the peer first answers with a proof; when that proof comes back, the
    sender reports the hash of the very packet it sent and forgets it, so that
    its set of awaited proofs is as before the packet. *)
Theorem link_data_proved (A B : Link) (ctx : Z) (iv body : bytes) (EA EB : Env)
    (HP : peers A B) (Hc : ctx = ContextType_NONE \/ ctx = ContextType_CHANNEL)
    (Hi : length iv = 16%nat) (Hs : env_sent EB = true) :
  exists A1 out h,
    send iv true A (link_packet A ctx body) = Ok (A1, [SendPacket out])
    /\ getHash sha256 out = Ok (h, out)
    /\ (ctx = ContextType_NONE -> In (toHex h) (pendingLinkProofs A1))
    /\ forall q, relayed out q ->
  exists B1 proof,
    receive EB B q = (B1, [SendPacket proof; delivery ctx body])
    /\ peers A1 B1
    /\ forall proof', relayed proof proof' ->
  exists A2,
    receive EA A1 proof' = (A2, [ProofValidated h])
    /\ peers A2 B1 /\ ~ In (toHex h) (pendingLinkProofs A2)
    /\ (~ In (toHex h) (pendingLinkProofs A) -> pendingLinkProofs A2 = pendingLinkProofs A).
Proof.
  destruct (peers_shared A B HP) as (Hid & Hl & _ & t & HtA & HtB).
  destruct (peers_sign A B HP) as (k & Hk & Hv).
  assert (Hb : is_byte ctx) by (by destruct Hc as [-> | ->]).
  assert (Hu : isLinkPacketUnencrypted PacketType_DATA ctx = false) by (by destruct Hc as [-> | ->]).
  pose proof (send_encrypted iv true t A ctx body HtA Hl Hb Hi Hu) as HS. cbv zeta iota in HS.
  set (p := sealed A ctx (Token.encrypt iv t body)) in *. set (h := sha256 (hashable_fields p)) in *.
  pose proof (fits_sealed A ctx iv t body Hl Hb Hi) as Hf. fold p in Hf.
  set (A1 := set_pending A _ _) in HS.
  assert (HA1 : core A1 = core A) by done.
  exists A1, (wire p), h. split; [exact HS|]. split; [by apply getHash_wire|].
  split. { intros ->. apply add_once_in. }
  intros q Hq. destruct (receive_data EB A B t iv ctx body q k) as (B1 & HB & HB1); [done..|].
  exists B1. eexists. split; [exact HB|].
  assert (HP1 : peers A1 B1).
  { apply (peers_core A); [done|]. apply peers_sym, (peers_core B); [done|]. by apply peers_sym. }
  split; [done|]. intros prf Hprf.
  destruct (receive_proof EA A1 B k h prf) as (A2 & HA & HA2 & HF);
    [done | done | exact Hv | apply sha256_length | exact Hprf |].
  exists A2. split; [exact HA|]. split; [by apply (peers_core A1)|].
  rewrite HF. split.
  - intros [Hn _]%list_elem_of_In%list_elem_of_filter. done.
  - intros Hn. cbn [A1 set_pending pendingLinkProofs]. destruct (ctx =? ContextType_NONE).
    + by apply filter_add_once.
    + by apply filter_fresh.
Qed.

(** ** Requests *)

Lemma decode_body_encode v : canonical MAX_DEPTH v -> exists e, encode v = Ok e /\ decode_body e = Ok v.
Proof.
  intros Hv. destruct (encode_decode v Hv) as (e & He & Hd). exists e. split; [done|].
  unfold decode_body. by rewrite Hd.
Qed.

Lemma canonical_envelope d l : Forall (canonical d) l -> (length l <= 3)%nat -> canonical (S d) (VArr l).
Proof.
  intros Hl Hn. apply canonical_arr; [unfold zlen; lia | exact Hl].
Qed.

Lemma canonical_hash d m : canonical d (VBin (truncatedHash m)).
Proof. apply canonical_atom. cbn. unfold zlen. by rewrite length_truncatedHash. Qed.

(** The envelope of a request. *)
Definition request_envelope (timestamp : value) (path : jsstr) (data : value) : value :=
  VArr [timestamp; VBin (truncatedHash (utf8_encode path)); data].

(** The response handler on the envelope of a response. *)
Lemma handleResponse_ok l rid v body : decode_body body = Ok (VArr [VBin rid; v]) -> length rid = 16%nat ->
  _handleResponse l body = _resolveResponse rid v l.
Proof. intros Hd Hl. unfold _handleResponse. rewrite Hd, Hl. done. Qed.

Lemma receive_request E A B t iv body q ts ph data hd v e :
  token (keys B) = Some t -> length (linkId A) = DST_LEN -> linkId A = linkId B ->
  length iv = 16%nat -> length (env_iv E) = 16%nat -> env_sent E = true ->
  decode_body body = Ok (VArr [ts; VBin ph; data]) -> length ph = 16%nat ->
  get (toHex ph) (env_handlers E) = Some hd -> _authorizeRequest hd B = true ->
  let rid := truncatedHash (hashable_fields (sealed A ContextType_REQUEST (Token.encrypt iv t body))) in
  responseGenerator hd data (Some rid) (remoteIdentity B) = Ok (Plain v) -> v <> VNull ->
  encode (VArr [VBin rid; v]) = Ok e -> zlen e <= mdu (mtu B) ->
  relayed (wire (sealed A ContextType_REQUEST (Token.encrypt iv t body))) q ->
  exists B1, receive E B q
    = (B1, [SendPacket (wire (sealed B ContextType_RESPONSE (Token.encrypt (env_iv E) t e)))])
    /\ core B1 = core B.
Proof.
  intros Ht Hl Hid Hi Hi' Hs Hd Hp Hg Ha rid Hgen Hv He Hm Hr.
  destruct (receive_encrypted E A B t iv ContextType_REQUEST body q) as (H & Hpt & Hcx & Hh); [done..|].
  eexists. split; [|shelve]. rewrite H. unfold _dispatch. rewrite Hcx.
  change (_ =? ContextType_NONE) with false. change (is_resource_context _) with false.
  change (_ =? ContextType_KEEPALIVE) with false. change (_ =? ContextType_LRRTT) with false.
  change (_ =? ContextType_REQUEST) with true. cbv iota.
  unfold _handleRequest. rewrite Hh. cbn [rbind fst]. fold rid. rewrite Hd, Hp. cbn [Nat.eqb negb].
  set (B0 := set_timing B _).
  unfold _dispatchRequest. rewrite Hg. change (_authorizeRequest hd B0) with (_authorizeRequest hd B).
  rewrite Ha. cbn [negb]. change (remoteIdentity B0) with (remoteIdentity B). rewrite Hgen.
  assert (HR : _sendResponse (env_iv E) (env_sent E) B0 v (Some rid) (autoCompress hd)
    = Ok (set_pending B0 (pendingLinkProofs B0) (pendingRequests B0),
          [SendPacket (wire (sealed B ContextType_RESPONSE (Token.encrypt (env_iv E) t e)))])).
  { unfold _sendResponse, id_value. rewrite He. cbn [rbind]. change (mtu B0) with (mtu B).
    rewrite Z.gtb_ltb, (proj2 (Z.ltb_ge _ _)) by lia.
    rewrite (send_encrypted _ _ t B0), Hs by (done || (change (linkId B0) with (linkId B); congruence)).
    reflexivity. }
  rewrite HR. destruct v; [done|reflexivity..].
  Unshelve. done.
Qed.

Lemma receive_response E A t iv l body rid v q entry :
  token (keys A) = Some t -> length (linkId l) = DST_LEN -> length iv = 16%nat ->
  decode_body body = Ok (VArr [VBin rid; v]) -> length rid = 16%nat ->
  get (toHex rid) (pendingRequests A) = Some entry ->
  relayed (wire (sealed l ContextType_RESPONSE (Token.encrypt iv t body))) q ->
  exists A', receive E A q = (A', [Settled (toHex rid) (Resolved v)])
    /\ pendingRequests A' = mdelete (toHex rid) (pendingRequests A).
Proof.
  intros Ht Hl Hi Hd Hr Hg Hq.
  destruct (receive_encrypted E l A t iv ContextType_RESPONSE body q) as (H & Hpt & Hcx & _); [done..|].
  eexists. split; [|shelve]. rewrite H. unfold _dispatch. rewrite Hcx.
  change (_ =? ContextType_NONE) with false. change (is_resource_context _) with false.
  change (_ =? ContextType_KEEPALIVE) with false. change (_ =? ContextType_LRRTT) with false.
  change (_ =? ContextType_REQUEST) with false. change (_ =? ContextType_RESPONSE) with true. cbv iota.
  rewrite (handleResponse_ok _ rid v) by done. unfold _resolveResponse.
  change (pendingRequests (set_timing A _)) with (pendingRequests A). rewrite Hg. reflexivity.
  Unshelve. done.
Qed.

(** C31: A request that fits in a packet is answered to its own caller: the
    peer's registered and authorised handler gets the path's data and the
    request id, its response travels back, and whatever happened to the
    requester's link in between, if the request is still pending the response
    settles it, exactly once, with the handler's value, and leaves every other
    pending request alone. *)
Theorem request_answered (A B : Link) (iv : bytes) (ts data v : value) (path : jsstr)
    (hd : RequestHandler) (EA EB : Env)
    (HP : peers A B) (Hact : status A = ACTIVE) (Hi : length iv = 16%nat)
    (Hi' : length (env_iv EB) = 16%nat) (Hs : env_sent EB = true)
    (Hts : canonical 127 ts) (Hdata : canonical 127 data) (Hv : canonical 127 v) (Hnull : v <> VNull)
    (Hg : get (toHex (truncatedHash (utf8_encode path))) (env_handlers EB) = Some hd)
    (Ha : _authorizeRequest hd B = true)
    (Hgen : forall rid, responseGenerator hd data (Some rid) (remoteIdentity B) = Ok (Plain v))
    (Hsize : forall e, encode (request_envelope ts path data) = Ok e -> zlen e <= mdu (mtu A))
    (Hsize' : forall rid e, length rid = 16%nat -> encode (VArr [VBin rid; v]) = Ok e -> zlen e <= mdu (mtu B)) :
  exists id out,
    request_begin iv ts path data A = Ok (id, SinglePacket out)
    /\ forall q, relayed out q ->
  exists B1 response,
    receive EB B q = (B1, [SendPacket response]) /\ core B1 = core B
    /\ forall A1 entry response', core A1 = core A -> get id (pendingRequests A1) = Some entry ->
         relayed response response' ->
  exists A2,
    receive EA A1 response' = (A2, [Settled id (Resolved v)])
    /\ get id (pendingRequests A2) = None
    /\ forall id', id' <> id -> get id' (pendingRequests A2) = get id' (pendingRequests A1).
Proof.
  destruct (peers_shared A B HP) as (Hid & Hl & Hmtu & t & HtA & HtB).
  destruct (decode_body_encode (request_envelope ts path data)) as (e & He & Hd).
  { apply (canonical_envelope 127); [|cbn; lia].
    repeat apply Forall_cons_2; [exact Hts | apply canonical_hash | exact Hdata | apply Forall_nil_2]. }
  set (p := sealed A ContextType_REQUEST (Token.encrypt iv t e)).
  assert (Hf : fits p) by (by apply fits_sealed).
  set (rid := truncatedHash (hashable_fields p)).
  assert (Hrid : length rid = 16%nat) by apply length_truncatedHash.
  destruct (decode_body_encode (VArr [VBin rid; v])) as (e' & He' & Hd').
  { apply (canonical_envelope 127); [|cbn; lia].
    repeat apply Forall_cons_2; [apply canonical_hash | exact Hv | apply Forall_nil_2]. }
  exists (toHex rid), (wire p). split.
  { unfold request_begin. destruct (decide _) as [|_]; [done|].
    fold (request_envelope ts path data). rewrite He. cbn [rbind].
    rewrite Z.gtb_ltb, (proj2 (Z.ltb_ge _ _)) by auto.
    rewrite (prepare_encrypted iv t) by done. cbn [rbind]. fold p.
    destruct (wire_raw p Hf) as [Hs1 Hw].
    rewrite (getHashablePart_cached (wire p) (raw (wire p))); [|done|by rewrite Hw at 1].
    rewrite Hw at 1. done. }
  intros q Hq.
  destruct (receive_request EB A B t iv e q ts (truncatedHash (utf8_encode path)) data hd v e')
    as (B1 & HB & HB1); eauto using length_truncatedHash.
  exists B1. eexists. split; [exact HB|]. split; [done|]. intros A1 entry rs HA1 Hent Hrs.
  destruct (receive_response EA A1 t (env_iv EB) B e' rid v rs entry) as (A2 & HA2 & Hp2); try done.
  { by rewrite (core_keys A A1). }
  { by rewrite <- Hid. }
  exists A2. split; [exact HA2|]. rewrite Hp2. split; [apply get_mdelete_same|].
  intros id' Hne. by apply get_mdelete_other.
Qed.

End Traffic.

(** ** Witnesses *)

Import Toy.
Import MsgPackSpec.Host.

Definition sample_token : Token.Token := Token.mkToken Token.AES_256_CBC (replicate 32 1) (replicate 32 2).

Definition sample_link (init : bool) (id : Identity) (k : Keys) : Link :=
  mkLink (Some id) (Some sample_dest) (replicate 16 7) init k DEFAULT_MTU MODE_AES256_CBC (new_timing 0)
    ACTIVE NO_REASON true false None false [] [] None.

Definition sample_A : Link :=
  sample_link true (fromPublicKey (getPublicKey sample_identity))
    (mkKeys [1] [] (Some (replicate 32 4)) None None None (Some sample_token)).

Definition sample_B : Link :=
  sample_link false sample_identity
    (mkKeys [2] [] None None (Some (ed25519_pub (replicate 32 4))) None (Some sample_token)).

Lemma sample_paired : paired sample_A sample_B.
Proof.
  constructor; try reflexivity.
  - by exists sample_token.
  - by exists (replicate 32 4).
  - exists sample_identity. split; [exact sample_wf|]. split; reflexivity.
Qed.

Definition sample_handler : RequestHandler := mkHandler 1 [] false (fun _ _ _ => Ok (Plain (VInt 42))).

Definition sample_path : jsstr := lit "/status".

Definition sample_server : Env :=
  mkEnv (replicate 16 5) true 2000
    [(toHex (truncatedHash (utf8_encode sample_path)), sample_handler)]
    (fun _ => Ok None) (fun _ => []).

Lemma link_mdu_exact_witness : mdu (mtu sample_A) = 431
  /\ (frame_size sample_A ContextType_NONE (replicate 16 5) sample_token (replicate 431 7) <= 500
      <-> zlen (replicate 431 7) <= mdu 500).
Proof.
  destruct (link_mdu_exact sample_A ContextType_NONE (replicate 16 5) (replicate 431 7) sample_token
    eq_refl ltac:(done) eq_refl ltac:(done)) as [H1 H2].
  split; [exact H2 | exact H1].
Defined.

Lemma link_data_proved_witness :
  exists A1 out h,
    send (replicate 16 5) true sample_A (link_packet sample_A ContextType_NONE [1; 2; 3])
    = Ok (A1, [SendPacket out])
    /\ forall q, relayed out q -> exists B1 proof,
         receive sample_server sample_B q = (B1, [SendPacket proof; Data [1; 2; 3]])
         /\ forall proof', relayed proof proof' -> exists A2,
              receive sample_server A1 proof' = (A2, [ProofValidated h]).
Proof.
  destruct (link_data_proved sample_A sample_B ContextType_NONE (replicate 16 5) [1; 2; 3]
    sample_server sample_server (or_introl sample_paired) (or_introl eq_refl) eq_refl eq_refl)
    as (A1 & out & h & H & _ & _ & K).
  exists A1, out, h. split; [exact H|]. intros q Hq.
  destruct (K q Hq) as (B1 & proof & HB & _ & K'). exists B1, proof. split; [exact HB|].
  intros prf Hp. destruct (K' prf Hp) as (A2 & HA & _). exists A2. exact HA.
Defined.

Lemma sample_response_size rid e : length rid = 16%nat ->
  encode (VArr [VBin rid; VInt 42]) = Ok e -> zlen e <= mdu (mtu sample_B).
Proof.
  intros Hl He. unfold encode in He. cbn [_encodeValue] in He. unfold _encodeBinary in He.
  assert (zlen rid = 16) as Hz by (unfold zlen; lia). rewrite Hz in He. cbn in He.
  injection He as <-. rewrite ?zlen_cons, ?zlen_app, ?zlen_cons, Hz. vm_compute. discriminate.
Qed.

Lemma request_answered_witness :
  exists id out,
    request_begin (replicate 16 5) (VInt 1700000000) sample_path VNull sample_A = Ok (id, SinglePacket out)
    /\ forall q, relayed out q -> exists B1 response,
         receive sample_server sample_B q = (B1, [SendPacket response]).
Proof.
  destruct (request_answered sample_A sample_B (replicate 16 5) (VInt 1700000000) VNull (VInt 42) sample_path
    sample_handler sample_server sample_server (or_introl sample_paired) eq_refl eq_refl eq_refl eq_refl)
    as (id & out & H & K).
  - cbn. unfold MAX_SAFE_INTEGER. lia.
  - exact I.
  - cbn. unfold MAX_SAFE_INTEGER. lia.
  - discriminate.
  - vm_compute. reflexivity.
  - reflexivity.
  - reflexivity.
  - intros e He. vm_compute in He. injection He as <-. vm_compute. discriminate.
  - exact sample_response_size.
  - exists id, out. split; [exact H|]. intros q Hq.
    destruct (K q Hq) as (B1 & r & HB & _). exists B1, r. exact HB.
Defined.
