(* ===== verification/LinkLife.v ===== *)
(** * LinkLife: proofs about the life of a link

    Steps of a link as its timers, its callers and the network drive it, in any
    order: every request is settled once, closing releases everything, and a
    silent peer is noticed in bounded time. *)

From Stdlib Require Import QArith Qminmax Lqa.
From S2P Require Import Prelude Encoding JsMap Utf8 MsgPack MsgPackSpec Packet Crypto Identity Link.

#[local] Open Scope Z_scope.

(** ** Counting *)

Definition is_settled (id : jsstr) (ev : event) : bool :=
  match ev with Settled i _ => bool_decide (i = id) | _ => false end.

Fixpoint settled (id : jsstr) (evs : list event) : nat :=
  match evs with
  | [] => 0
  | ev :: evs => (if is_settled id ev then 1 else 0) + settled id evs
  end.

Definition pend (id : jsstr) (l : Link) : nat := if has id (pendingRequests l) then 1 else 0.

(** Events that settle nothing and announce no change of status. *)
Definition plain (ev : event) : Prop :=
  match ev with Settled _ _ | StatusChange _ _ | Closed | RemoveLink => False | _ => True end.

Lemma settled_app id a b : settled id (a ++ b) = (settled id a + settled id b)%nat.
Proof. induction a as [|x a IH]; cbn [settled app]; lia. Qed.

Lemma settled_plain id evs : Forall plain evs -> settled id evs = 0%nat.
Proof. induction 1 as [|ev evs H _ IH]; [done|]. cbn [settled]. by destruct ev. Qed.

Lemma pend_set id k v l rs : pendingRequests l = mset k v rs ->
  pend id l = if bool_decide (id = k) then 1%nat else (if has id rs then 1 else 0)%nat.
Proof.
  intros H. unfold pend, has. rewrite H. case_bool_decide as E.
  - subst. by rewrite get_mset_same.
  - by rewrite get_mset_other.
Qed.

Lemma pend_delete id k l rs : pendingRequests l = mdelete k rs ->
  pend id l = if bool_decide (id = k) then 0%nat else (if has id rs then 1 else 0)%nat.
Proof.
  intros H. unfold pend, has. rewrite H. case_bool_decide as E.
  - subst. by rewrite get_mdelete_same.
  - by rewrite get_mdelete_other.
Qed.

(** ** Timing *)

(** What the watchdog needs of the intervals: they are numbers, within the
    limits of the keepalive interval. *)
Definition timing_ok (t : Timing) : Prop :=
  exists k, keepaliveInterval t = Some k /\ (5 <= k <= 360)%Q
    /\ exists s, staleTime t = Some s /\ (s == 2 * k)%Q.

Definition intervals (t : Timing) := (rtt t, keepaliveInterval t, staleTime t).

Lemma timing_ok_intervals t t' : intervals t' = intervals t -> timing_ok t -> timing_ok t'.
Proof. unfold intervals, timing_ok. intros [= _ -> ->]. done. Qed.

Lemma updateKeepalive_ok t r : rtt t = Some r -> timing_ok (_updateKeepalive t).
Proof.
  intros Hr. unfold _updateKeepalive, timing_ok. cbn [keepaliveInterval staleTime]. rewrite Hr.
  cbn [fmap option_fmap option_map]. eexists. split; [reflexivity|].
  set (m := Qmin _ KEEPALIVE_MAX_SECS).
  assert (Hm : (m <= KEEPALIVE_MAX_SECS)%Q) by apply Q.le_min_r. split.
  - split; [apply Q.le_max_r|]. apply Q.max_lub; [exact Hm|]. unfold Qle. cbn. lia.
  - eexists. split; [reflexivity|]. unfold STALE_FACTOR. ring.
Qed.

(** ** Steps *)

Section Life.
Context `{C : WebCrypto} `{J : JsHost}.

(** Everything that drives a link after its creation: packets, the watchdog
    and establishment timers, the user's calls and the request timers. *)
Inductive op :=
| Receive (E : Env) (p : Packet)
| Tick (iv : bytes) (sent : bool) (now : Z)
| Teardown (iv : bytes) (sent : bool)
| EstablishmentTimer
| Send (iv : bytes) (sent : bool) (p : Packet)
| Register (id : jsstr)
| HandOut (id : jsstr)
| RequestTimeout (id : jsstr)
| DiscardRequest (id : jsstr).

Definition run_op (o : op) (l : Link) : Link * list event :=
  match o with
  | Receive E p => receive E l p
  | Tick iv sent now => watchdog_tick iv sent now l
  | Teardown iv sent => teardown iv sent l
  | EstablishmentTimer => establishment_expires l
  | Send iv sent p => match send iv sent l p with Ok r => r | Throw _ => (l, []) end
  | Register id => (_registerPendingRequest id l, [])
  | HandOut id => (hand_out id l, [])
  | RequestTimeout id => _failPendingRequest id l
  | DiscardRequest id => _discardPendingRequest id l
  end.

Fixpoint run (ops : list op) (l : Link) : Link * list event :=
  match ops with
  | [] => (l, [])
  | o :: ops =>
      let '(l1, e1) := run_op o l in
      let '(l2, e2) := run ops l1 in
      (l2, e1 ++ e2)
  end.

(** ** The effect of a step *)

Definition flow (l : Link) := (status l, watchdogRunning l, pendingRequests l).

(** The intervals are kept, or recomputed from a round trip time of [N]. *)
Definition tuned (N : option Q -> Prop) (l l' : Link) : Prop :=
  intervals (timing l') = intervals (timing l)
  \/ exists r, N r /\ intervals (timing l') = intervals (_updateKeepalive (set_rtt (timing l) r)).

(** Round trip times a step may install: measured ones, and what an LRRTT's
    value converts to. *)
Definition rtt_from (o : op) (r : option Q) : Prop :=
  is_Some r \/ exists E p v, o = Receive E p /\ env_toNumber E v = Ok None.

(** All that a step may do besides sending: nothing, activate the link, close
    it, settle a request, register one. *)
Inductive effect (o : op) (l : Link) : Link -> list event -> Prop :=
| effect_quiet l' evs : flow l' = flow l -> tuned (rtt_from o) l l' -> Forall plain evs -> effect o l l' evs
| effect_active l1 l' pre e post :
    flow l1 = flow l -> tuned (rtt_from o) l l1 -> set_status ACTIVE l1 = (l', e) ->
    Forall plain pre -> Forall plain post -> effect o l l' (pre ++ e ++ post)
| effect_closed l1 r l' pre e post :
    flow l1 = flow l -> tuned (rtt_from o) l l1 -> close_with r l1 = (l', e) ->
    Forall plain pre -> Forall plain post -> effect o l l' (pre ++ e ++ post)
| effect_resolved l1 id entry x l' :
    flow l1 = flow l -> tuned (rtt_from o) l l1 -> get id (pendingRequests l) = Some entry ->
    flow l' = (status l, watchdogRunning l, mdelete id (pendingRequests l)) ->
    timing l' = timing l1 -> effect o l l' [Settled id x]
| effect_failed id l' evs : _failPendingRequest id l = (l', evs) -> effect o l l' evs
| effect_handed id l' entry : get id (pendingRequests l) = Some entry ->
    flow l' = (status l, watchdogRunning l, mset id (mkPending true) (pendingRequests l)) ->
    timing l' = timing l -> effect o l l' []
| effect_registered id : o = Register id -> effect o l (_registerPendingRequest id l) [].

Lemma tuned_refl N l l' : timing l' = timing l -> tuned N l l'.
Proof. intros H. left. by rewrite H. Qed.

Lemma transport_send_Ok sent p evs : transport_send sent p = Ok evs -> evs = [SendPacket p].
Proof. unfold transport_send. destruct sent; [by intros [= <-] | discriminate]. Qed.

Lemma send_Ok iv sent l p l' evs : send iv sent l p = Ok (l', evs) ->
  flow l' = flow l /\ timing l' = timing l /\ Forall plain evs.
Proof.
  unfold send. intros (o & _ & H)%rbind_ok. apply rbind_ok in H as (h & _ & H).
  apply rbind_ok in H as (e & He & H). apply transport_send_Ok in He as ->.
  injection H as <- <-. repeat constructor.
Qed.

Lemma sendLinkClose_plain iv sent l : Forall plain (_sendLinkClose iv sent l).
Proof.
  unfold _sendLinkClose. destruct (send _ _ _ _) as [[l' evs]|] eqn:E; [|constructor].
  by apply send_Ok in E as (_ & _ & E).
Qed.

Lemma provePacket_plain sent l p evs : _provePacket sent l p = Ok evs -> Forall plain evs.
Proof.
  unfold _provePacket. intros (h & _ & H)%rbind_ok. apply rbind_ok in H as (k & _ & H).
  apply transport_send_Ok in H as ->. repeat constructor.
Qed.

(** ** Every step has such an effect *)

Lemma handleLRRTT_effect o E p l l0 b l' evs (Ho : o = Receive E p) :
  flow l0 = flow l -> intervals (timing l0) = intervals (timing l) ->
  _handleLRRTT (env_toNumber E) (env_now E) l0 b = Ok (l', evs) -> effect o l l' evs.
Proof.
  intros Hf Hi. unfold _handleLRRTT. intros (v & _ & H)%rbind_ok. apply rbind_ok in H as (n & Hn & H).
  set (r := Qmax _ <$> n) in H.
  set (l1 := set_timing l0 (_updateKeepalive (set_rtt (timing l0) r))) in H.
  destruct (set_status ACTIVE l1) as [l2 e] eqn:Hs. injection H as <- <-.
  apply (effect_active _ l l1 l2 [] e [Established]); [done | | done | constructor | by repeat constructor].
  right. exists r. split; [|done].
  destruct n as [q|]; [left; by eexists|]. right. eauto.
Qed.

Lemma dispatch_effect o E p l l0 b l' evs (Ho : o = Receive E p) :
  flow l0 = flow l -> intervals (timing l0) = intervals (timing l) ->
  _dispatch E l0 p b = Ok (l', evs) -> effect o l l' evs.
Proof.
  intros Hf Hi. pose proof Hf as Hf'. unfold flow in Hf'. injection Hf' as Hs0 Hw0 Hp0.
  assert (Q : forall l' evs, flow l' = flow l0 -> timing l' = timing l0 -> Forall plain evs ->
    effect o l l' evs).
  { intros l2 e H1 H2 H3. apply effect_quiet; [congruence| |done]. left. congruence. }
  unfold _dispatch.
  case_goal; [|case_goal; [|case_goal; [|case_goal; [|case_goal; [|case_goal; [|case_goal; [|case_goal;
    [|case_goal]]]]]]]].
  - case_goal; [|case_goal].
    + intros (e & He & H)%rbind_ok. injection H as <- <-. apply Q; [done..|].
      apply Forall_app; split; [by eapply provePacket_plain | by repeat constructor].
    + unfold _handleLinkProof. repeat case_goal; intros [= <- <-]; apply Q; by repeat constructor.
    + intros [= <- <-]. by apply Q.
  - intros [= <- <-]. apply Q; by repeat constructor.
  - intros (e & He & H)%rbind_ok. injection H as <- <-. apply Q; [done..|].
    apply Forall_app; split; [|by repeat constructor].
    destruct (_ && _); [apply transport_send_Ok in He as ->; by repeat constructor | by injection He as <-].
  - case_goal; [by eapply handleLRRTT_effect | intros [= <- <-]; by apply Q].
  - unfold _handleRequest. intros (h & _ & H)%rbind_ok. revert H.
    repeat case_goal; try (intros [= <- <-]; by apply Q).
    unfold _dispatchRequest, _sendResponse.
    repeat case_goal; try (intros [= <- <-]; apply Q; by repeat constructor);
      (intros H; apply rbind_ok in H as (pk & _ & H); revert H; case_goal;
       [intros [= <- <-]; apply Q; by repeat constructor
       | intros H; apply send_Ok in H as (? & ? & ?); by apply Q]).
  - unfold _handleResponse, _resolveResponse.
    repeat case_goal; intros [= <- <-]; try (by apply Q).
    match goal with H : get _ _ = Some ?e |- _ => apply (effect_resolved _ l l0 _ e) end;
      rewrite <- ?Hp0; try done; [by left | unfold flow; cbn; congruence].
  - unfold _handleLinkClose. do 2 (case_goal; [intros [= <- <-]; by apply Q|]).
    intros [= H]. rewrite <- (app_nil_r evs). change (evs ++ []) with ([] ++ evs ++ []).
    eapply effect_closed; [exact Hf | by left | exact H | constructor..].
  - unfold _handleIdentify. do 2 (case_goal; [intros [= <- <-]; by apply Q|]).
    intros [= <- <-]. apply Q; by repeat constructor.
  - intros (e & He & H)%rbind_ok. injection H as <- <-. apply Q; [done..|].
    apply Forall_app; split; [by eapply provePacket_plain | by repeat constructor].
  - intros [= <- <-]. by apply Q.
Qed.

Lemma handleLRPROOF_effect o iv sent now enc l l0 p l' evs :
  flow l0 = flow l -> intervals (timing l0) = intervals (timing l) ->
  _handleLRPROOF iv sent now enc l0 p = Ok (l', evs) -> effect o l l' evs.
Proof.
  intros Hf Hi. unfold _handleLRPROOF. destruct (identity l0) as [id|]; [|discriminate].
  intros ([sg m] & _ & H)%rbind_ok. destruct (negb (validate _ _ _)); [discriminate|].
  set (l1 := if _ && _ then _ else l0) in H. set (evs1 := if _ && _ then _ else _) in H.
  assert (E1 : flow l1 = flow l0 /\ timing l1 = timing l0) by (subst l1; by case_goal).
  assert (E2 : Forall plain evs1) by (subst evs1; case_goal; by repeat constructor).
  clearbody l1 evs1. destruct E1 as [E1 E3].
  destruct (_deriveKeys _ _ _) as [k|].
  2: { injection H as <- <-. apply effect_quiet; [by rewrite <- Hf, <- E1 | left; cbn; congruence | done]. }
  set (t := _updateKeepalive _) in H. set (l2 := set_timing _ t) in H.
  assert (E4 : tuned (rtt_from o) l l2).
  { right. exists (Some ((now - requestTimeMs (timing l1)) # 1000)%Q). split; [left; by eexists | reflexivity]. }
  assert (E5 : flow l2 = flow l) by (by rewrite <- Hf, <- E1).
  destruct (send _ _ _ _) as [[l3 e3]|] eqn:Hsend.
  2: { injection H as <- <-. by apply effect_quiet. }
  apply send_Ok in Hsend as (S1 & S2 & S3).
  destruct (set_status ACTIVE l3) as [l4 e4] eqn:Hst. injection H as <- <-.
  rewrite app_assoc.
  apply (effect_active _ l l3 l4 (evs1 ++ e3) e4 [Established]); [congruence | | done | | by repeat constructor].
  - unfold tuned in *. by rewrite S2.
  - by apply Forall_app.
Qed.

Lemma receive_effect E p l l' evs : receive E l p = (l', evs) -> effect (Receive E p) l l' evs.
Proof.
  unfold receive. destruct (_processPacket E l p) as [[l1 e1]|] eqn:HP.
  2: { intros [= <- <-]. by apply effect_quiet; [|left|]. }
  intros [= -> ->]. unfold _processPacket in HP. set (l0 := set_timing l _) in HP.
  destruct (_ && _).
  - destruct (initiator l0).
    + by apply (handleLRPROOF_effect (Receive E p) _ _ _ _ l l0) in HP.
    + injection HP as <- <-. by apply effect_quiet; [|left|].
  - apply rbind_ok in HP as (b & _ & HP). by apply (dispatch_effect (Receive E p) E p l l0 b) in HP.
Qed.

(** Closing, with what is sent around it. *)
Lemma closed_effect o l l1 r l' e pre post : flow l1 = flow l -> timing l1 = timing l ->
  close_with r l1 = (l', e) -> Forall plain pre -> Forall plain post -> effect o l l' (pre ++ e ++ post).
Proof. intros. eapply effect_closed; try done. by apply tuned_refl. Qed.

Lemma quiet_effect o l l' evs : flow l' = flow l -> intervals (timing l') = intervals (timing l) ->
  Forall plain evs -> effect o l l' evs.
Proof. intros. apply effect_quiet; [done | by left | done]. Qed.

Lemma tick_effect o iv sent now l l' evs : watchdog_tick iv sent now l = (l', evs) -> effect o l l' evs.
Proof.
  unfold watchdog_tick, _watchdogJob.
  destruct (watchdogRunning l); [|intros [= <- <-]; by apply quiet_effect].
  destruct (elapsed _ _ _).
  - destruct (close_with TIMEOUT l) as [l1 e] eqn:E. intros [= <- <-].
    by apply (closed_effect o l l TIMEOUT l1 e []), sendLinkClose_plain.
  - destruct (_ && _); intros [= <- <-]; apply quiet_effect; try done.
    destruct (_sendKeepalive _ _ _) eqn:E; [|done]. apply transport_send_Ok in E as ->. by repeat constructor.
Qed.

Lemma run_op_effect o l l' evs : run_op o l = (l', evs) -> effect o l l' evs.
Proof.
  destruct o as [E p|iv sent now|iv sent| |iv sent p|id|id|id|id]; cbn [run_op].
  - apply receive_effect.
  - apply tick_effect.
  - unfold teardown. destruct (decide _); [intros [= <- <-]; by apply quiet_effect|].
    destruct (close_with _ l) as [l1 e] eqn:E. intros [= <- <-].
    rewrite <- (app_nil_r e). eapply closed_effect; try done. apply sendLinkClose_plain.
  - unfold establishment_expires. destruct (negb _); [intros [= <- <-]; by apply quiet_effect|].
    destruct (decide _); [intros [= <- <-]; by apply quiet_effect|].
    intros E. rewrite <- (app_nil_r evs). change (evs ++ []) with ([] ++ evs ++ []).
    eapply closed_effect; [| |exact E|..]; done.
  - destruct (send _ _ _ _) as [[l1 e]|] eqn:E; intros [= <- <-].
    + apply send_Ok in E as (? & Ht & ?). apply quiet_effect; [done| by rewrite Ht |done].
    + by apply quiet_effect.
  - intros [= <- <-]. by apply effect_registered.
  - unfold hand_out. destruct (get id _) eqn:E; intros [= <- <-]; [|by apply quiet_effect].
    by eapply effect_handed.
  - apply effect_failed.
  - unfold _discardPendingRequest. destruct (get id _) eqn:E; intros [= <- <-]; [|by apply quiet_effect].
    eapply (effect_resolved _ l l id); [done | by apply tuned_refl | exact E | done | done].
Qed.

(** ** Settling *)

Definition balanced (l l' : Link) (evs : list event) : Prop :=
  forall id, (settled id evs + pend id l' = pend id l)%nat.

Lemma balanced_quiet l l' evs : pendingRequests l' = pendingRequests l -> (forall id, settled id evs = 0%nat) ->
  balanced l l' evs.
Proof. intros H H0 id. unfold pend. by rewrite H, H0. Qed.

Lemma balanced_trans l1 l2 l3 e1 e2 : balanced l1 l2 e1 -> balanced l2 l3 e2 -> balanced l1 l3 (e1 ++ e2).
Proof. intros H1 H2 id. specialize (H1 id). specialize (H2 id). rewrite settled_app. lia. Qed.

Lemma fail_balanced id l l' evs : _failPendingRequest id l = (l', evs) -> balanced l l' evs.
Proof.
  unfold _failPendingRequest. destruct (get id (pendingRequests l)) eqn:E; intros [= <- <-].
  2: { by apply balanced_quiet. }
  intros k. rewrite (pend_delete k id _ (pendingRequests l)) by done. cbn [settled is_settled].
  unfold pend. case_bool_decide as Hk.
  - subst. unfold has. rewrite E, bool_decide_true by done. lia.
  - rewrite bool_decide_false by congruence. lia.
Qed.

Lemma fail_all_balanced ids l l' evs : fail_all ids l = (l', evs) -> balanced l l' evs.
Proof.
  revert l l' evs. induction ids as [|id ids IH]; intros l l' evs; cbn [fail_all].
  - intros [= <- <-]. by apply balanced_quiet.
  - destruct (_failPendingRequest id l) as [l1 e1] eqn:E1. destruct (fail_all ids l1) as [l2 e2] eqn:E2.
    intros [= <- <-]. eapply balanced_trans; [by eapply fail_balanced | by eapply IH].
Qed.

(** What [fail_all] leaves. *)
Lemma fail_all_pending ids l l' evs : fail_all ids l = (l', evs) ->
  status l' = status l /\ watchdogRunning l' = watchdogRunning l
  /\ establishmentArmed l' = establishmentArmed l /\ timing l' = timing l
  /\ (forall e, In e (pendingRequests l') -> In e (pendingRequests l) /\ ~ In (fst e) ids)
  /\ forall id entry, In id ids -> get id (pendingRequests l) = Some entry ->
       In (Settled id (if handedOut entry then Rejected else SettledQuietly)) evs.
Proof.
  revert l l' evs. induction ids as [|id ids IH]; intros l l' evs; cbn [fail_all].
  - intros [= <- <-]. repeat (split; [done|]). split; [by cbn; tauto|]. intros ? ? [].
  - unfold _failPendingRequest. destruct (get id (pendingRequests l)) as [en|] eqn:Eg.
    + set (l1 := set_pending l _ _). destruct (fail_all ids l1) as [l2 e2] eqn:E2. intros [= <- <-].
      destruct (IH l1 l2 e2 E2) as (A & B & D & T & F & G). repeat (split; [done|]). split.
      * intros e He. destruct (F e He) as [F1 F2]. apply In_mdelete in F1 as [F1 F3].
        split; [done|]. intros [Heq|?]; [by apply F3 | done].
      * intros k entry [<-|Hk] Hg; [rewrite Hg in Eg; injection Eg as <-; right; by left|].
        destruct (decide (k = id)) as [->|Hne]; [rewrite Hg in Eg; injection Eg as <-; right; by left|].
        right. right. apply G; [done|]. cbn [l1 set_pending pendingRequests].
        by rewrite get_mdelete_other.
    + destruct (fail_all ids l) as [l2 e2] eqn:E2. intros [= <- <-].
      destruct (IH l l2 e2 E2) as (A & B & D & T & F & G). repeat (split; [done|]). split.
      * intros e He. destruct (F e He) as [F1 F2]. split; [done|]. intros [Heq|?]; [|done].
        apply get_None in Eg. apply Eg. rewrite Heq. by apply (in_map fst).
      * intros k entry [<-|Hk] Hg; [congruence|]. by apply G.
Qed.

Lemma fail_all_frame' ids l l' evs : fail_all ids l = (l', evs) ->
  exists rs, l' = set_pending l (pendingLinkProofs l) rs.
Proof.
  revert l l' evs. induction ids as [|id ids IH]; intros l l' evs; cbn [fail_all].
  - intros [= <- <-]. exists (pendingRequests l). by destruct l.
  - destruct (_failPendingRequest id l) as [l1 e1] eqn:E1. destruct (fail_all ids l1) as [l2 e2] eqn:E2.
    intros [= <- <-]. destruct (IH _ _ _ E2) as [rs ->]. exists rs. revert E1.
    unfold _failPendingRequest. by destruct (get id _); intros [= <- _].
Qed.

(** The closing transition. *)
Lemma close_with_spec r l l' evs : close_with r l = (l', evs) -> status l <> CLOSED ->
  status l' = CLOSED /\ pendingRequests l' = [] /\ pendingLinkProofs l' = []
  /\ watchdogRunning l' = false /\ establishmentArmed l' = false /\ teardownReason l' = r
  /\ timing l' = timing l
  /\ In RemoveLink evs /\ In ChannelShutdown evs /\ In Closed evs
  /\ (forall id entry, get id (pendingRequests l) = Some entry ->
        In (Settled id (if handedOut entry then Rejected else SettledQuietly)) evs)
  /\ balanced l l' evs.
Proof.
  intros H Hs. unfold close_with, set_status in H. cbn [status set_reason] in H.
  rewrite decide_False in H by done. unfold _rejectPendingRequests in H.
  set (l2 := set_life _ CLOSED false false) in H. cbv zeta in H.
  destruct (fail_all _ l2) as [l3 e] eqn:E.
  pose proof (fail_all_balanced _ _ _ _ E) as HB.
  destruct (fail_all_pending _ _ _ _ E) as (F1 & F2 & F3 & F4 & F5 & F6).
  destruct (fail_all_frame' _ _ _ _ E) as [rs Hrs].
  injection H as <- <-.
  assert (Hp : pendingRequests l3 = []).
  { destruct (pendingRequests l3) as [|en m] eqn:Em; [done|]. exfalso.
    destruct (F5 en) as [G1 G2]; [by left|]. apply G2. by apply (in_map fst). }
  split_and!; try done.
  - subst l3. done.
  - right. right. by left.
  - right. by left.
  - do 3 right. apply in_app_iff. right. by left.
  - intros id en Hg. do 3 right. rewrite !in_app_iff. left. left. apply F6; [|done].
    apply has_true. unfold has. change (pendingRequests l2) with (pendingRequests l). by rewrite Hg.
  - intros id. specialize (HB id). cbn [settled is_settled Nat.add]. rewrite !settled_app.
    cbn [settled is_settled Nat.add].
    assert (HE : settled id (if bool_decide (status l <> ACTIVE) && bool_decide (is_Some (destHash l))
      then [ExpirePath] else []) = 0%nat) by (by case_goal).
    rewrite HE. unfold pend in *. cbn [pendingRequests set_pending].
    change (pendingRequests l2) with (pendingRequests l) in HB. lia.
Qed.

Lemma set_status_active l l' e : set_status ACTIVE l = (l', e) ->
  timing l' = timing l /\ pendingRequests l' = pendingRequests l /\ (forall id, settled id e = 0%nat)
  /\ status l' = ACTIVE /\ (status l <> ACTIVE -> watchdogRunning l' = true)
  /\ (status l = ACTIVE -> watchdogRunning l' = watchdogRunning l).
Proof.
  unfold set_status. destruct (decide (status l = ACTIVE)) as [E|E]; intros [= <- <-];
    cbn; split_and!; done.
Qed.

Lemma close_with_any r l l' e : close_with r l = (l', e) ->
  timing l' = timing l /\ status l' = CLOSED /\ balanced l l' e.
Proof.
  intros H. destruct (decide (status l = CLOSED)) as [E|E].
  - unfold close_with, set_status in H. cbn [status set_reason] in H. rewrite E in H.
    cbn in H. injection H as <- <-. cbn. split; [done|]. split; [done|]. by apply balanced_quiet.
  - destruct (close_with_spec _ _ _ _ H E) as (A & _ & _ & _ & _ & _ & B & _ & _ & _ & _ & D). done.
Qed.

Lemma flow_pending l l' : flow l' = flow l -> pendingRequests l' = pendingRequests l.
Proof. unfold flow. congruence. Qed.

Lemma balanced_from l l1 l' evs : pendingRequests l1 = pendingRequests l -> balanced l1 l' evs -> balanced l l' evs.
Proof. intros H HB id. specialize (HB id). unfold pend in *. by rewrite H in HB. Qed.

Lemma effect_balanced o l l' evs : effect o l l' evs -> (forall id, o <> Register id) -> balanced l l' evs.
Proof.
  intros HE Hn. destruct HE as [l' evs Hf _ Hp|l1 l' pre e post Hf _ Hs Hpre Hpost
    |l1 r l' pre e post Hf _ Hs Hpre Hpost|l1 id entry x l' _ _ Hg Hf _|id l' evs H|id l' entry Hg Hf _|id Hr].
  - apply balanced_quiet; [by apply flow_pending|]. intros id. by apply settled_plain.
  - apply set_status_active in Hs as (_ & Hp & Hz & _). apply balanced_quiet.
    + rewrite Hp. by apply flow_pending.
    + intros id. by rewrite !settled_app, (settled_plain id pre), (settled_plain id post), Hz by done.
  - apply close_with_any in Hs as (_ & _ & HB). intros id.
    apply (balanced_from l) in HB; [|by apply flow_pending]. specialize (HB id).
    rewrite !settled_app, (settled_plain id pre), (settled_plain id post) by done. lia.
  - intros k. unfold flow in Hf. injection Hf as _ _ Hf. rewrite (pend_delete k id _ _ Hf).
    cbn [settled is_settled]. unfold pend. case_bool_decide as Hk.
    + subst. unfold has. rewrite Hg, bool_decide_true by done. lia.
    + rewrite bool_decide_false by congruence. lia.
  - by eapply fail_balanced.
  - intros k. unfold flow in Hf. injection Hf as _ _ Hf. rewrite (pend_set k id _ _ _ Hf).
    cbn [settled]. unfold pend. case_bool_decide as Hk; [|lia]. subst. unfold has. by rewrite Hg.
  - by specialize (Hn id).
Qed.

Definition registers (o : op) : option jsstr := match o with Register id => Some id | _ => None end.

Definition registered (ops : list op) : list jsstr := omap registers ops.

Lemma run_balanced ops l l' evs : run ops l = (l', evs) -> NoDup (registered ops) ->
  (forall id, id ∈ registered ops -> pend id l = 0%nat) ->
  forall id, (settled id evs + pend id l'
              = pend id l + if bool_decide (id ∈ registered ops) then 1 else 0)%nat.
Proof.
  revert l l' evs. induction ops as [|o ops IH]; intros l l' evs; cbn [run].
  - intros [= <- <-] _ _ id. cbn [settled]. case_bool_decide as Hin; [by inv Hin | lia].
  - destruct (run_op o l) as [l1 e1] eqn:E1. destruct (run ops l1) as [l2 e2] eqn:E2.
    intros [= <- <-] HN HF id. rewrite settled_app.
    assert (Ho : (exists k, o = Register k) \/ forall k, o <> Register k)
      by (destruct o; eauto; by right).
    destruct Ho as [[k ->]|Ho].
    + injection E1 as <- <-. change (registered (Register k :: ops)) with (k :: registered ops) in *.
      apply NoDup_cons in HN as [Hk HN].
      assert (HP : forall i, pend i (_registerPendingRequest k l) = if bool_decide (i = k) then 1%nat else pend i l)
        by (intros i; by apply (pend_set i k (mkPending false))).
      rewrite Nat.add_0_l. rewrite (IH _ _ _ E2 HN).
      * rewrite HP. case_bool_decide as Hik.
        -- subst. rewrite (HF k) by (by left). rewrite bool_decide_false by done.
           rewrite bool_decide_true by (by left). done.
        -- assert (bool_decide (id ∈ k :: registered ops) = bool_decide (id ∈ registered ops)) as ->;
             [apply bool_decide_ext; rewrite elem_of_cons; tauto | done].
      * intros i Hi. rewrite HP. case_bool_decide as Hik; [by subst|]. apply HF. by right.
    + assert (HR : registered (o :: ops) = registered ops)
        by (destruct o; try done; by destruct (Ho id0)).
      rewrite HR in HN, HF |- *.
      pose proof (effect_balanced o l l1 e1 (run_op_effect _ _ _ _ E1) Ho) as HB.
      pose proof (IH l1 l2 e2 E2 HN) as H.
      specialize (H ltac:(intros i Hi; specialize (HB i); rewrite (HF i Hi) in HB; lia) id).
      specialize (HB id). lia.
Qed.

(** Every request is settled exactly once: after any interleaving of
    packets, timers, teardowns and calls in which no id is registered twice, an
    id was settled once if it was registered and is no longer pending, and
    never otherwise. *)
Theorem requests_settled_once (ops : list op) (l l' : Link) (evs : list event)
    (Hrun : run ops l = (l', evs)) (Hempty : pendingRequests l = []) (Hnodup : NoDup (registered ops)) :
  forall id, settled id evs
    = if bool_decide (id ∈ registered ops) && negb (has id (pendingRequests l')) then 1%nat else 0%nat.
Proof.
  intros id. pose proof (run_balanced ops l l' evs Hrun Hnodup) as H.
  assert (Hz : forall i, pend i l = 0%nat) by (intros i; unfold pend; by rewrite Hempty).
  specialize (H ltac:(auto) id). rewrite Hz in H. unfold pend in H.
  destruct (bool_decide (id ∈ registered ops)), (has id (pendingRequests l')); cbn in *; lia.
Qed.

(** Closing releases everything: whichever step closes a link, it leaves no
    pending request, no awaited proof and no running timer, takes the link out
    of the transport, shuts its channel down, and settles every pending request
    exactly once, with a rejection if its caller already holds the promise and
    quietly if not. *)
Theorem close_releases (o : op) (l l' : Link) (evs : list event)
    (Hstep : run_op o l = (l', evs)) (Hopen : status l <> CLOSED) (Hclosed : status l' = CLOSED) :
  pendingRequests l' = [] /\ pendingLinkProofs l' = []
  /\ watchdogRunning l' = false /\ establishmentArmed l' = false
  /\ In RemoveLink evs /\ In ChannelShutdown evs /\ In Closed evs
  /\ forall id, match get id (pendingRequests l) with
                | Some entry => settled id evs = 1%nat
                    /\ In (Settled id (if handedOut entry then Rejected else SettledQuietly)) evs
                | None => settled id evs = 0%nat
                end.
Proof.
  apply run_op_effect in Hstep.
  destruct Hstep as [l' evs Hf _ Hp|l1 l' pre e post Hf _ Hs Hpre Hpost
    |l1 r l' pre e post Hf _ Hs Hpre Hpost|l1 id entry x l' _ _ Hg Hf _|id l' evs H|id l' entry Hg Hf _|id Hr].
  1, 4, 6: unfold flow in Hf; injection Hf as Hf _ _; congruence.
  - apply set_status_active in Hs. destruct Hs as (_ & _ & _ & Hs & _). congruence.
  - pose proof (flow_pending _ _ Hf) as Hpr. unfold flow in Hf. injection Hf as Hst _ _.
    destruct (close_with_spec _ _ _ _ Hs) as (_ & A & B & D & F & _ & _ & G1 & G2 & G3 & G4 & HB); [congruence|].
    repeat (split; [first [done | rewrite !in_app_iff; by auto]|]). intros id.
    specialize (HB id). unfold pend in HB. rewrite A, Hpr in HB. unfold has in HB. cbn [get] in HB.
    rewrite !settled_app, (settled_plain id pre), (settled_plain id post) by done.
    destruct (get id (pendingRequests l)) as [en|] eqn:Eg; [|lia].
    split; [lia|]. rewrite !in_app_iff. right. left. apply G4. congruence.
  - revert H. unfold _failPendingRequest. destruct (get id _); intros [= <- <-]; done.
  - done.
Qed.

(** ** Liveness *)

(** No LRRTT converts to NaN. *)
Definition numeric (o : op) : Prop :=
  match o with Receive E _ => forall v, env_toNumber E v <> Ok None | _ => True end.

Lemma rtt_from_numeric o : numeric o -> ~ rtt_from o None.
Proof. intros Hn [[? H]|(E & p & v & -> & Hv)]; [done | by apply (Hn v)]. Qed.

(** The watchdog runs while the link is active, on intervals that are
    numbers. *)
Definition watched (l : Link) : Prop :=
  timing_ok (timing l) /\ (status l = ACTIVE -> watchdogRunning l = true).

Lemma tuned_ok o l l' : numeric o -> tuned (rtt_from o) l l' -> timing_ok (timing l) -> timing_ok (timing l').
Proof.
  intros Hn [H|(r & Hr & H)] Ht; [by eapply timing_ok_intervals|].
  destruct r as [r|]; [|by apply rtt_from_numeric in Hn].
  eapply timing_ok_intervals; [exact H|]. by eapply updateKeepalive_ok.
Qed.

Lemma effect_watched o l l' evs : effect o l l' evs -> numeric o -> watched l -> watched l'.
Proof.
  intros HE Hn [Ht Hw]. unfold watched.
  destruct HE as [l' evs Hf Htn Hp|l1 l' pre e post Hf Htn Hs Hpre Hpost
    |l1 r l' pre e post Hf Htn Hs Hpre Hpost|l1 id entry x l' Hf1 Htn Hg Hf Htm|id l' evs H|id l' entry Hg Hf Htm|id Hr].
  - split; [by eapply tuned_ok|]. unfold flow in Hf. injection Hf as H1 H2 _. by rewrite H1, H2.
  - unfold flow in Hf. injection Hf as H1 H2 _. apply (tuned_ok _ _ _ Hn) in Htn; [|done].
    apply set_status_active in Hs as (-> & _ & _ & _ & HA & HB). split; [done|]. intros _.
    destruct (decide (status l1 = ACTIVE)) as [E|E]; [rewrite HB, H2 by done; apply Hw; congruence | by apply HA].
  - apply (tuned_ok _ _ _ Hn) in Htn; [|done]. apply close_with_any in Hs as (-> & -> & _). done.
  - rewrite Htm. split; [by eapply tuned_ok|]. unfold flow in Hf. injection Hf as H1 H2 _. by rewrite H1, H2.
  - revert H. unfold _failPendingRequest. destruct (get id _); intros [= <- <-]; done.
  - rewrite Htm. split; [done|]. unfold flow in Hf. injection Hf as H1 H2 _. by rewrite H1, H2.
  - done.
Qed.

Lemma run_watched ops l l' evs : run ops l = (l', evs) -> Forall numeric ops -> watched l -> watched l'.
Proof.
  revert l l' evs. induction ops as [|o ops IH]; intros l l' evs; cbn [run]; [by intros [= <- _]|].
  destruct (run_op o l) as [l1 e1] eqn:E1. destruct (run ops l1) as [l2 e2] eqn:E2.
  intros [= <- _] HF Hw. apply Forall_cons in HF as [Hn HF].
  eapply IH; [exact E2 | exact HF |]. eapply effect_watched; [by apply run_op_effect | done | done].
Qed.

(** Steps in which nothing arrives. *)
Definition quiet (o : op) : Prop := match o with Receive _ _ => False | _ => True end.

Lemma quiet_numeric o : quiet o -> numeric o.
Proof. by destruct o. Qed.

Lemma quiet_step o l l' evs : quiet o -> run_op o l = (l', evs) ->
  lastInboundTime (timing l') = lastInboundTime (timing l) /\ intervals (timing l') = intervals (timing l)
  /\ (status l' = status l \/ status l' = CLOSED).
Proof.
  assert (HC : forall r l l' evs, close_with r l = (l', evs) ->
    lastInboundTime (timing l') = lastInboundTime (timing l) /\ intervals (timing l') = intervals (timing l)
    /\ (status l' = status l \/ status l' = CLOSED)).
  { intros r l0 l1 e H. apply close_with_any in H as (-> & -> & _). auto. }
  destruct o as [E p|iv sent now|iv sent| |iv sent p|id|id|id|id]; cbn [run_op quiet]; intros Hq; [done|..].
  - unfold watchdog_tick, _watchdogJob. destruct (watchdogRunning l); [|intros [= <- _]; auto].
    destruct (elapsed _ _ _).
    + destruct (close_with TIMEOUT l) as [l1 e] eqn:E. intros [= <- _]. by apply HC in E.
    + destruct (_ && _); intros [= <- _]; auto.
  - unfold teardown. destruct (decide _); [intros [= <- _]; auto|].
    destruct (close_with _ l) as [l1 e] eqn:E. intros [= <- _]. by apply HC in E.
  - unfold establishment_expires. destruct (negb _); [intros [= <- _]; auto|].
    destruct (decide _); [intros [= <- _]; auto|]. intros E. by apply HC in E.
  - destruct (send _ _ _ _) as [[l1 e]|] eqn:E; intros [= <- _]; [|auto].
    apply send_Ok in E as (Hf & -> & _). unfold flow in Hf. injection Hf as -> _ _. auto.
  - intros [= <- _]. auto.
  - unfold hand_out. destruct (get id _); intros [= <- _]; auto.
  - unfold _failPendingRequest. destruct (get id _); intros [= <- _]; auto.
  - unfold _discardPendingRequest. destruct (get id _); intros [= <- _]; auto.
Qed.

Lemma run_closed ops l l' evs : Forall quiet ops -> run ops l = (l', evs) -> status l = CLOSED -> status l' = CLOSED.
Proof.
  revert l l' evs. induction ops as [|o ops IH]; intros l l' evs HF; cbn [run]; [by intros [= <- _]|].
  destruct (run_op o l) as [l1 e1] eqn:E1. destruct (run ops l1) as [l2 e2] eqn:E2.
  intros [= <- _] Hs. apply Forall_cons in HF as [Hq HF]. eapply IH; [exact HF | exact E2 |].
  destruct (quiet_step o l l1 e1 Hq E1) as (_ & _ & [H|H]); congruence.
Qed.

(** The watchdog's test against the bounds of the stale time. *)
Lemma elapsed_bounds t now last : timing_ok t ->
  (last + 720000 <= now -> elapsed now last (staleTime t) = true)
  /\ (now < last + 10000 -> elapsed now last (staleTime t) = false).
Proof.
  intros (k & _ & Hk & s & -> & Hs). unfold elapsed. split; intros H.
  - apply Qle_bool_iff. rewrite Zle_Qle in H. rewrite inject_Z_plus in H.
    change (inject_Z 720000) with (720000#1)%Q in H. rewrite Hs. lra.
  - apply not_true_iff_false. rewrite Qle_bool_iff. intros Hc.
    rewrite Zlt_Qlt in H. rewrite inject_Z_plus in H. change (inject_Z 10000) with (10000#1)%Q in H.
    rewrite Hs in Hc. lra.
Qed.

Lemma tick_stale iv sent now l l' evs : watched l -> status l = ACTIVE ->
  lastInboundTime (timing l) + 720000 <= now -> watchdog_tick iv sent now l = (l', evs) -> status l' = CLOSED.
Proof.
  intros [Ht Hw] Ha Hn. unfold watchdog_tick, _watchdogJob. rewrite (Hw Ha).
  rewrite (proj1 (elapsed_bounds _ now _ Ht)) by done.
  destruct (close_with TIMEOUT l) as [l1 e] eqn:E. intros [= <- _]. by apply close_with_any in E as (_ & -> & _).
Qed.

Lemma step_alive o l l' evs : watched l -> status l = ACTIVE -> quiet o ->
  (forall iv sent, o <> Teardown iv sent) ->
  (forall iv sent now, o = Tick iv sent now -> now < lastInboundTime (timing l) + 10000) ->
  run_op o l = (l', evs) -> status l' = ACTIVE.
Proof.
  intros [Ht Hw] Ha Hq HT Hn.
  destruct o as [E p|iv sent now|iv sent| |iv sent p|id|id|id|id]; cbn [run_op]; [done|..].
  - unfold watchdog_tick, _watchdogJob. rewrite (Hw Ha).
    rewrite (proj2 (elapsed_bounds _ now _ Ht)) by eauto. destruct (_ && _); by intros [= <- _].
  - by destruct (HT iv sent).
  - unfold establishment_expires. destruct (negb _); [by intros [= <- _]|].
    destruct (decide _) as [|Hd]; [by intros [= <- _]|]. exfalso. apply Hd. cbn. congruence.
  - destruct (send _ _ _ _) as [[l1 e]|] eqn:E; intros [= <- _]; [|done].
    apply send_Ok in E as (Hf & _). unfold flow in Hf. by injection Hf as -> _ _.
  - by intros [= <- _].
  - unfold hand_out. by destruct (get id _); intros [= <- _].
  - unfold _failPendingRequest. by destruct (get id _); intros [= <- _].
  - unfold _discardPendingRequest. by destruct (get id _); intros [= <- _].
Qed.

(** A link starts out watched. *)
Lemma new_timing_ok now : timing_ok (set_requested (new_timing now) now).
Proof. exists 360%Q. split; [done|]. split; [lra|]. eexists. split; [reflexivity|]. reflexivity. Qed.

Lemma initiate_watched sent x e id dest ht now l evs r :
  initiate sent x e id dest ht now = Ok (l, evs, r) -> watched l.
Proof.
  unfold initiate. intros (b & _ & H)%rbind_ok. revert H. set (l0 := mkLink _ _ _ _ _ _ _ _ _ _ _ _ _ _ _ _ _).
  cbn [set_status]. unfold set_status. cbn [status l0]. rewrite decide_False by done.
  destruct (settle _ _). intros [= <- _ _]. split; [apply new_timing_ok | discriminate].
Qed.

Lemma accept_watched sent x id dest p now l evs r :
  accept sent x id dest p now = Ok (l, evs, r) -> watched l.
Proof.
  unfold accept. destruct (if _ : bool then _ else _) as [m md]. intros (k & _ & H)%rbind_ok. revert H.
  set (l0 := mkLink _ _ _ _ _ _ _ _ _ _ _ _ _ _ _ _ _).
  unfold set_status. cbn [status l0]. rewrite decide_False by done.
  destruct (settle _ _). intros [= <- _ _]. split; [apply new_timing_ok | discriminate].
Qed.

(** A silent peer is noticed: on a link in the active state, however it got
    there, as long as nothing arrives, the first watchdog tick 720 seconds or
    more after the last packet finds the link closed or closes it, whatever was
    sent or timed out in between (keepalives sent do not count as life); and no
    tick within 10 seconds of the last packet closes it. *)
Theorem stale_link_closes (before silent : list op) (l0 l l' : Link) (evs evs' : list event)
    (H0 : watched l0) (Hbefore : run before l0 = (l, evs)) (Hnum : Forall numeric before)
    (Hactive : status l = ACTIVE)
    (Hquiet : Forall quiet silent) (Hrun : run silent l = (l', evs')) :
  (forall iv sent now, In (Tick iv sent now) silent ->
     lastInboundTime (timing l) + 720000 <= now -> status l' = CLOSED)
  /\ ((forall iv sent, ~ In (Teardown iv sent) silent) ->
      (forall iv sent now, In (Tick iv sent now) silent -> now < lastInboundTime (timing l) + 10000) ->
      status l' = ACTIVE).
Proof.
  assert (Hw : watched l) by (by eapply run_watched). clear H0 Hbefore Hnum.
  revert l l' evs' Hw Hactive Hrun. induction silent as [|o ops IH]; intros l l' evs' Hw Ha; cbn [run].
  - intros [= <- _]. split; [by intros ? ? ? []|done].
  - destruct (run_op o l) as [l1 e1] eqn:E1. destruct (run ops l1) as [l2 e2] eqn:E2. intros [= <- _].
    apply Forall_cons in Hquiet as [Hq HF].
    destruct (quiet_step o l l1 e1 Hq E1) as (HL & _ & HS).
    assert (Hw1 : watched l1) by (eapply effect_watched; [by apply run_op_effect | by apply quiet_numeric | done]).
    destruct (decide (status l1 = ACTIVE)) as [Ha1|Ha1].
    + destruct (IH HF l1 l2 e2 Hw1 Ha1 E2) as [I1 I2]. rewrite HL in I1, I2. split.
      * intros iv sent now [->|Hin] Hn; [|by eapply I1].
        cbn [run_op] in E1. apply tick_stale in E1; [congruence|done..].
      * intros HT Hn. apply I2; [intros iv sent Hin; apply (HT iv sent); by right |].
        intros iv sent now Hin. apply (Hn iv sent). by right.
    + assert (Hc : status l1 = CLOSED) by (destruct HS; congruence). split.
      * intros iv sent now _ _. by eapply run_closed.
      * intros HT Hn. exfalso. apply Ha1. eapply step_alive; [exact Hw | exact Ha | exact Hq | | | exact E1].
        -- intros iv sent ->. apply (HT iv sent). by left.
        -- intros iv sent now ->. apply (Hn iv sent). by left.
Qed.

(** An LRRTT whose value converts to NaN takes the watchdog's limits away: no
    tick ever closes the link or sends a keepalive. *)
Lemma nan_rtt_never_stale toNumber now l l' body v evs :
  decode_body body = Ok v -> toNumber v = Ok None -> status l <> ACTIVE ->
  _handleLRRTT toNumber now l body = Ok (l', evs) ->
  status l' = ACTIVE /\ forall iv sent t, watchdog_tick iv sent t l' = (l', []).
Proof.
  intros Hd Hv Hs. unfold _handleLRRTT. rewrite Hd. cbn [rbind]. rewrite Hv. cbn [rbind fmap option_fmap option_map].
  unfold set_status. cbn [status set_timing]. rewrite decide_False by done. intros [= <- <-].
  split; [done|]. intros iv sent t. unfold watchdog_tick, _watchdogJob, elapsed. cbn.
  by rewrite andb_false_r.
Qed.

(** The handler of an LRRTT does not look at the status: a closed link becomes
    active again, with its watchdog, after it was taken out of the
    transport. *)
Lemma closed_link_revived toNumber now l l' body v n evs :
  decode_body body = Ok v -> toNumber v = Ok n -> status l = CLOSED ->
  _handleLRRTT toNumber now l body = Ok (l', evs) ->
  status l' = ACTIVE /\ watchdogRunning l' = true /\ In Established evs.
Proof.
  intros Hd Hv Hs. unfold _handleLRRTT. rewrite Hd. cbn [rbind]. rewrite Hv. cbn [rbind].
  unfold set_status. cbn [status set_timing]. rewrite Hs, decide_False by done. intros [= <- <-].
  split; [done|]. split; [done|]. right. by left.
Qed.

End Life.

(** ** Witnesses *)

Import Toy.
Import MsgPackSpec.Host.

Definition sample_link (s : LinkStatus) (watch : bool) (pending : jsmap PendingRequest) : Link :=
  mkLink None None (replicate 16 7) true (mkKeys [] [] None None None None None) DEFAULT_MTU MODE_AES256_CBC
    (new_timing 1000) s NO_REASON watch true None false [] pending None.

Lemma requests_settled_once_witness :
  settled [1] (snd (run [Register [1]; Register [2]; HandOut [1]; RequestTimeout [1]; RequestTimeout [1]]
    (sample_link ACTIVE true []))) = 1%nat.
Proof.
  rewrite (requests_settled_once _ _ _ _ (surjective_pairing _)).
  - vm_compute. reflexivity.
  - reflexivity.
  - apply (bool_decide_unpack _). vm_compute. exact I.
Defined.

Lemma close_releases_witness :
  pendingRequests (fst (run_op EstablishmentTimer (sample_link HANDSHAKE false [([1], mkPending true)]))) = [].
Proof.
  refine (proj1 (close_releases EstablishmentTimer (sample_link HANDSHAKE false [([1], mkPending true)]) _ _
    (surjective_pairing _) _ _)).
  - discriminate.
  - vm_compute. reflexivity.
Defined.

Lemma stale_link_closes_witness :
  status (fst (run [Tick [] true 2000; Send [] true (link_packet (sample_link ACTIVE true []) 9 []);
                    Tick [] true 800000] (sample_link ACTIVE true []))) = CLOSED.
Proof.
  refine (proj1 (stale_link_closes [] _ (sample_link ACTIVE true []) (sample_link ACTIVE true []) _ [] _
    _ eq_refl _ eq_refl _ (surjective_pairing _)) [] true 800000 _ _).
  - split; [apply (new_timing_ok 1000) | reflexivity].
  - constructor.
  - repeat constructor.
  - right. right. left. reflexivity.
  - vm_compute. discriminate.
Defined.
