(* ===== verification/Receipt.v ===== *)
(** * Receipt: proofs of opportunistic packets
    (packages/core/src/core/packet_receipt.js, and the [receipts] map of
    packages/core/src/transport/identity-cache.js)

    A receipt is an object that several parties hold: the registry maps the
    truncated packet hash to it, its timer closes over it and a proof check
    that awaits a signature holds it across the await.  So receipts live in a
    heap and are named by their index; the registry holds indices. *)

From S2P Require Import Prelude Encoding JsMap Crypto Identity.

Inductive ReceiptStatus := SENDING | DELIVERED | FAILED | CULLED.

#[global] Instance ReceiptStatus_eq_dec : EqDecision ReceiptStatus.
Proof. solve_decision. Defined.

Definition PROOF_EXPLICIT_LENGTH : nat := 96.
Definition PROOF_IMPLICIT_LENGTH : nat := 64.

(** [callbacks] says which of the two callbacks were given; the promise of
    [whenSettled] is absent, pending ([Some None]) or resolved. *)
Record PacketReceipt := mkReceipt {
  packetHash : bytes;
  r_truncatedHash : bytes;
  r_destinationHash : bytes;
  cb_delivered : bool;
  cb_failed : bool;
  owner : bool;
  status : ReceiptStatus;
  sentAt : Z;
  timeoutTimer : option Z;
  settledPromise : option (option ReceiptStatus);
}.

Definition new_PacketReceipt (now : Z) (hash dest : bytes) (onDelivered onFailed : bool)
    : PacketReceipt :=
  mkReceipt hash (slice 0 16 hash) dest onDelivered onFailed false SENDING now None None.

Definition set_owner (r : PacketReceipt) : PacketReceipt :=
  mkReceipt (packetHash r) (r_truncatedHash r) (r_destinationHash r) (cb_delivered r)
    (cb_failed r) true (status r) (sentAt r) (timeoutTimer r) (settledPromise r).

Definition set_timer (r : PacketReceipt) (t : option Z) : PacketReceipt :=
  mkReceipt (packetHash r) (r_truncatedHash r) (r_destinationHash r) (cb_delivered r)
    (cb_failed r) (owner r) (status r) (sentAt r) t (settledPromise r).

Definition set_status (r : PacketReceipt) (s : ReceiptStatus) : PacketReceipt :=
  mkReceipt (packetHash r) (r_truncatedHash r) (r_destinationHash r) (cb_delivered r)
    (cb_failed r) (owner r) s (sentAt r) (timeoutTimer r) (settledPromise r).

Definition set_promise (r : PacketReceipt) (p : option (option ReceiptStatus)) : PacketReceipt :=
  mkReceipt (packetHash r) (r_truncatedHash r) (r_destinationHash r) (cb_delivered r)
    (cb_failed r) (owner r) (status r) (sentAt r) (timeoutTimer r) p.

(** The receipts made so far and the registry of the owning transport. *)
Record Registry := mkRegistry {
  heap : list PacketReceipt;
  receipts : jsmap nat;
}.

Definition empty_registry : Registry := mkRegistry [] [].

(** What the outside sees of a receipt. *)
Inductive event :=
| Settled (i : nat) (s : ReceiptStatus)
| CallDelivered (i : nat)
| CallFailed (i : nat).

Definition update (i : nat) (f : PacketReceipt -> PacketReceipt) (w : Registry) : Registry :=
  mkRegistry (alter f i (heap w)) (receipts w).

(** ** The methods of a receipt *)

(** [_unregister] deletes whatever entry the registry has under the key. *)
Definition _unregister (i : nat) (w : Registry) : Registry :=
  match heap w !! i with
  | Some r => if owner r then mkRegistry (heap w) (mdelete (toHex (r_truncatedHash r)) (receipts w))
              else w
  | None => w
  end.

Definition clearTimeout (i : nat) (w : Registry) : Registry :=
  update i (fun r => set_timer r None) w.

Definition startTimeout (now timeoutMs : Z) (i : nat) (w : Registry) : Registry :=
  match heap w !! i with
  | Some r => if bool_decide (status r = SENDING)
              then update i (fun r => set_timer r (Some (now + timeoutMs))) (clearTimeout i w)
              else w
  | None => w
  end.

(** [this._settledResolve?.(status); this._settledResolve = null]. *)
Definition resolve (i : nat) (s : ReceiptStatus) (w : Registry) : Registry * list event :=
  match heap w !! i with
  | Some r => match settledPromise r with
              | Some None => (update i (fun r => set_promise r (Some (Some s))) w, [Settled i s])
              | _ => (w, [])
              end
  | None => (w, [])
  end.

(** The returned promise: resolved at once, or pending. *)
Definition whenSettled (i : nat) (w : Registry) : Registry * option (option ReceiptStatus) :=
  match heap w !! i with
  | None => (w, None)
  | Some r =>
      if negb (bool_decide (status r = SENDING)) then (w, Some (Some (status r)))
      else match settledPromise r with
           | None => (update i (fun r => set_promise r (Some None)) w, Some None)
           | Some p => (w, Some p)
           end
  end.

Definition setDelivered (i : nat) (w : Registry) : Registry * list event :=
  match heap w !! i with
  | None => (w, [])
  | Some r =>
      if bool_decide (status r = DELIVERED) then (w, [])
      else
        let w := update i (fun r => set_status r DELIVERED) (clearTimeout i w) in
        let '(w, ev) := resolve i DELIVERED w in
        (_unregister i w, ev ++ (if cb_delivered r then [CallDelivered i] else []))
  end.

Definition setFailed (i : nat) (w : Registry) : Registry * list event :=
  match heap w !! i with
  | None => (w, [])
  | Some r =>
      if bool_decide (status r = FAILED) then (w, [])
      else
        let w := update i (fun r => set_status r FAILED) (clearTimeout i w) in
        let '(w, ev) := resolve i FAILED w in
        (w, ev ++ (if cb_failed r then [CallFailed i] else []))
  end.

(** The body of the [setTimeout] callback; it runs once the armed time has
    come, and only if the timer was not cleared. *)
Definition timer_fires (now : Z) (i : nat) (w : Registry) : Registry * list event :=
  match r ← heap w !! i; timeoutTimer r with
  | Some t => if t <=? now
              then setFailed i (_unregister i (update i (fun r => set_timer r None) w))
              else (w, [])
  | None => (w, [])
  end.

Section WithCrypto.
Context `{C : WebCrypto}.

(** [recall] is the owner's [recallIdentity]. *)
Definition _verify (recall : bytes -> option Identity) (r : PacketReceipt)
    (signature data : bytes) : bool :=
  if negb (owner r) then false else
  match recall (r_destinationHash r) with
  | None => false
  | Some identity => validate identity signature data
  end.

Definition validateProof (recall : bytes -> option Identity) (r : PacketReceipt)
    (proofData : bytes) : bool :=
  if (length proofData =? PROOF_EXPLICIT_LENGTH)%nat then
    let hash := slice 0 32 proofData in
    let signature := slice 32 96 proofData in
    if negb (bytesEqual hash (packetHash r)) then false
    else _verify recall r signature (packetHash r)
  else if (length proofData =? PROOF_IMPLICIT_LENGTH)%nat then
    _verify recall r proofData (packetHash r)
  else false.

(** ** The transport's side of a receipt (transport.js) *)

Definition trackReceipt (i : nat) (w : Registry) : Registry :=
  let w := update i set_owner w in
  match heap w !! i with
  | Some r => mkRegistry (heap w) (mset (toHex (r_truncatedHash r)) i (receipts w))
  | None => w
  end.

Definition findReceipt (proofDestHash : bytes) (w : Registry) : option nat :=
  get (toHex proofDestHash) (receipts w).

(** The end of [sendPacket]: a new receipt, its timeout and its entry. *)
Definition track (now timeoutMs : Z) (hash dest : bytes) (onDelivered onFailed : bool)
    (w : Registry) : Registry * nat :=
  let i := length (heap w) in
  let w := mkRegistry (heap w ++ [new_PacketReceipt now hash dest onDelivered onFailed])
             (receipts w) in
  (trackReceipt i (startTimeout now timeoutMs i w), i).

(** [_handleProof] up to the await of [validateProof]: the receipt found for
    the proof, when it still waits for one. *)
Definition proof_begin (proofDestHash : bytes) (w : Registry) : option nat :=
  match findReceipt proofDestHash w with
  | Some i => match heap w !! i with
              | Some r => if bool_decide (status r = SENDING) then Some i else None
              | None => None
              end
  | None => None
  end.

(** [_handleProof] from the await on; the flag says the proof was accepted. *)
Definition proof_end (recall : bytes -> option Identity) (i : nat) (proofData : bytes)
    (w : Registry) : Registry * list event * bool :=
  match heap w !! i with
  | Some r => if validateProof recall r proofData
              then let '(w, ev) := setDelivered i w in (w, ev, true)
              else (w, [], false)
  | None => (w, [], false)
  end.

(** ** Runs

    A check in progress is a pair of the receipt and the proof body; anything
    may happen between its two halves. *)
Record World := mkWorld {
  reg : Registry;
  checking : list (nat * bytes);
}.

Inductive op :=
| Track (now timeoutMs : Z) (hash dest : bytes) (onDelivered onFailed : bool)
| WhenSettled (i : nat)
| Timer (now : Z) (i : nat)
| ProofArrives (dest proofData : bytes)
| ProofChecked (k : nat) (recall : bytes -> option Identity).

Definition step (o : op) (s : World) : World * list event :=
  match o with
  | Track now ms h d cd cf => (mkWorld (fst (track now ms h d cd cf (reg s))) (checking s), [])
  | WhenSettled i => (mkWorld (fst (whenSettled i (reg s))) (checking s), [])
  | Timer now i => let '(w, ev) := timer_fires now i (reg s) in (mkWorld w (checking s), ev)
  | ProofArrives dest body =>
      match proof_begin dest (reg s) with
      | Some i => (mkWorld (reg s) (checking s ++ [(i, body)]), [])
      | None => (s, [])
      end
  | ProofChecked k recall =>
      match checking s !! k with
      | Some (i, body) =>
          let '(w, ev, _) := proof_end recall i body (reg s) in
          (mkWorld w (delete k (checking s)), ev)
      | None => (s, [])
      end
  end.

Fixpoint run (ops : list op) (s : World) : World * list event :=
  match ops with
  | [] => (s, [])
  | o :: ops => let '(s, ev) := step o s in let '(s, ev') := run ops s in (s, ev ++ ev')
  end.

Definition start : World := mkWorld empty_registry [].
End WithCrypto.

(** ** How the operations act on the heap *)

Lemma update_heap i f w : heap (update i f w) = alter f i (heap w).
Proof. done. Qed.

Lemma alter_alter {A} (f g : A -> A) i (l : list A) :
  alter f i (alter g i l) = alter (f ∘ g) i l.
Proof.
  apply list_eq. intros j. destruct (decide (i = j)) as [<-|Hne].
  - rewrite !list_lookup_alter_eq. by destruct (l !! i).
  - by rewrite !list_lookup_alter_ne.
Qed.

(** What [setDelivered] and [setFailed] make of a receipt. *)
Definition settle (s : ReceiptStatus) (r : PacketReceipt) : PacketReceipt :=
  if bool_decide (status r = s) then r
  else mkReceipt (packetHash r) (r_truncatedHash r) (r_destinationHash r) (cb_delivered r)
         (cb_failed r) (owner r) s (sentAt r) None
         (match settledPromise r with Some None => Some (Some s) | p => p end).

(** The events of that step. *)
Definition outcome (i : nat) (s : ReceiptStatus) (r : PacketReceipt) : list event :=
  match settledPromise r with Some None => [Settled i s] | _ => [] end
  ++ match s with
     | DELIVERED => if cb_delivered r then [CallDelivered i] else []
     | FAILED => if cb_failed r then [CallFailed i] else []
     | _ => []
     end.

Lemma alter_lookup_eq {A} (f g : A -> A) i (l : list A) x :
  l !! i = Some x -> f x = g x -> alter f i l = alter g i l.
Proof.
  intros Hi Hfg. apply list_eq. intros j. destruct (decide (i = j)) as [<-|Hne].
  - rewrite !list_lookup_alter_eq, Hi. cbn. by rewrite Hfg.
  - by rewrite !list_lookup_alter_ne.
Qed.

Lemma alter_fix {A} (f : A -> A) i (l : list A) x :
  l !! i = Some x -> f x = x -> alter f i l = l.
Proof.
  intros Hi Hf. apply list_eq. intros j. destruct (decide (i = j)) as [<-|Hne].
  - rewrite list_lookup_alter_eq, Hi. cbn. by rewrite Hf.
  - by rewrite list_lookup_alter_ne.
Qed.

Lemma alter_absent {A} (f : A -> A) i (l : list A) : l !! i = None -> alter f i l = l.
Proof.
  intros Hi. apply list_eq. intros j. destruct (decide (i = j)) as [<-|Hne].
  - by rewrite list_lookup_alter_eq, Hi.
  - by rewrite list_lookup_alter_ne.
Qed.

Lemma unregister_heap i w : heap (_unregister i w) = heap w.
Proof. unfold _unregister. by repeat case_match. Qed.

Lemma resolve_spec i s w r : heap w !! i = Some r ->
  heap (fst (resolve i s w))
    = alter (fun r => set_promise r (match settledPromise r with Some None => Some (Some s) | p => p end)) i (heap w)
  /\ receipts (fst (resolve i s w)) = receipts w
  /\ snd (resolve i s w) = match settledPromise r with Some None => [Settled i s] | _ => [] end.
Proof.
  intros Hi. unfold resolve. rewrite Hi.
  destruct (settledPromise r) as [[p|]|] eqn:Hp; cbn [fst snd]; (split; [|done]);
    [symmetry; eapply alter_fix | eapply alter_lookup_eq | symmetry; eapply alter_fix];
    try exact Hi; destruct r; cbn in *; by subst.
Qed.

(** The common part of the two settling methods. *)
Lemma settle_spec i s w r : heap w !! i = Some r -> status r <> s ->
  let w1 := update i (fun r => set_status r s) (clearTimeout i w) in
  heap (fst (resolve i s w1)) = alter (settle s) i (heap w)
  /\ receipts (fst (resolve i s w1)) = receipts w
  /\ snd (resolve i s w1) = match settledPromise r with Some None => [Settled i s] | _ => [] end.
Proof.
  intros Hi Hs w1.
  assert (H1 : heap w1 !! i = Some (set_status (set_timer r None) s)).
  { subst w1. unfold clearTimeout. rewrite !update_heap, alter_alter, list_lookup_alter_eq, Hi. done. }
  destruct (resolve_spec i s w1 _ H1) as (-> & -> & ->). split; [|done].
  subst w1. unfold clearTimeout. rewrite !update_heap, !alter_alter.
  apply (alter_lookup_eq _ _ _ _ _ Hi). unfold settle. by rewrite bool_decide_false.
Qed.

Lemma setDelivered_spec i w r : heap w !! i = Some r ->
  heap (fst (setDelivered i w)) = alter (settle DELIVERED) i (heap w)
  /\ receipts (fst (setDelivered i w))
     = (if bool_decide (status r = DELIVERED) then receipts w
        else if owner r then mdelete (toHex (r_truncatedHash r)) (receipts w) else receipts w)
  /\ snd (setDelivered i w) = if bool_decide (status r = DELIVERED) then [] else outcome i DELIVERED r.
Proof.
  intros Hi. unfold setDelivered. rewrite Hi. case_bool_decide as Hs; cbn [fst snd].
  { split; [|done]. symmetry. apply (alter_fix _ _ _ _ Hi). unfold settle.
    by rewrite bool_decide_true. }
  destruct (settle_spec i DELIVERED w r Hi Hs) as (Hh & Hr & He).
  destruct (resolve i DELIVERED _) as [w' ev]. cbn [fst snd] in *.
  rewrite unregister_heap, Hh. split; [done|]. split; [|by rewrite He].
  unfold _unregister. rewrite Hh, list_lookup_alter_eq, Hi. cbn [fmap option_fmap option_map].
  unfold settle. rewrite bool_decide_false by done. cbn. destruct (owner r); cbn; by rewrite Hr.
Qed.

Lemma setFailed_spec i w r : heap w !! i = Some r ->
  heap (fst (setFailed i w)) = alter (settle FAILED) i (heap w)
  /\ receipts (fst (setFailed i w)) = receipts w
  /\ snd (setFailed i w) = if bool_decide (status r = FAILED) then [] else outcome i FAILED r.
Proof.
  intros Hi. unfold setFailed. rewrite Hi. case_bool_decide as Hs; cbn [fst snd].
  { split; [|done]. symmetry. apply (alter_fix _ _ _ _ Hi). unfold settle.
    by rewrite bool_decide_true. }
  destruct (settle_spec i FAILED w r Hi Hs) as (Hh & Hr & He).
  destruct (resolve i FAILED _) as [w' ev]. cbn [fst snd] in *. by rewrite Hh, Hr, He.
Qed.

(** What the timer makes of a receipt, cleared flag included. *)
Definition expire (r : PacketReceipt) : PacketReceipt := settle FAILED (set_timer r None).

Lemma timer_fires_spec now i w r t :
  heap w !! i = Some r -> timeoutTimer r = Some t -> t <= now ->
  heap (fst (timer_fires now i w)) = alter expire i (heap w)
  /\ receipts (fst (timer_fires now i w))
     = (if owner r then mdelete (toHex (r_truncatedHash r)) (receipts w) else receipts w)
  /\ snd (timer_fires now i w) = if bool_decide (status r = FAILED) then [] else outcome i FAILED r.
Proof.
  intros Hi Ht Hn. unfold timer_fires. rewrite Hi. cbn [mbind option_bind]. rewrite Ht.
  rewrite (proj2 (Z.leb_le _ _) Hn).
  set (w1 := update i (fun r => set_timer r None) w).
  assert (H1 : heap w1 !! i = Some (set_timer r None)).
  { subst w1. by rewrite update_heap, list_lookup_alter_eq, Hi. }
  assert (H2 : heap (_unregister i w1) !! i = Some (set_timer r None)) by by rewrite unregister_heap.
  destruct (setFailed_spec i _ _ H2) as (-> & -> & ->). rewrite unregister_heap.
  split; [subst w1; by rewrite update_heap, alter_alter|]. split; [|done].
  unfold _unregister. rewrite H1. cbn. by destruct (owner r).
Qed.

Lemma timer_idle now i w :
  (forall r t, heap w !! i = Some r -> timeoutTimer r = Some t -> now < t) ->
  timer_fires now i w = (w, []).
Proof.
  intros H. unfold timer_fires. destruct (heap w !! i) as [r|] eqn:Hi; [|done].
  cbn. destruct (timeoutTimer r) as [t|] eqn:Ht; [|done].
  specialize (H r t eq_refl Ht). destruct (t <=? now) eqn:E; [bools; lia|done].
Qed.

(** The receipt a send leaves behind. *)
Definition tracked (now timeoutMs : Z) (hash dest : bytes) (cd cf : bool) : PacketReceipt :=
  set_owner (set_timer (new_PacketReceipt now hash dest cd cf) (Some (now + timeoutMs))).

Lemma alter_last {A} (f : A -> A) (l : list A) x : alter f (length l) (l ++ [x]) = l ++ [f x].
Proof. induction l as [|a l IH]; cbn; [done|]. f_equal. exact IH. Qed.

Lemma lookup_last {A} (l : list A) x : (l ++ [x]) !! length l = Some x.
Proof. by apply list_lookup_middle. Qed.

Lemma track_spec now ms h d cd cf w :
  track now ms h d cd cf w
  = (mkRegistry (heap w ++ [tracked now ms h d cd cf])
       (mset (toHex (slice 0 16 h)) (length (heap w)) (receipts w)), length (heap w)).
Proof.
  unfold track. f_equal. unfold startTimeout. cbn [heap].
  rewrite lookup_last. cbn [new_PacketReceipt status]. rewrite bool_decide_true by done.
  unfold trackReceipt, clearTimeout, update. cbn [heap receipts].
  rewrite !alter_last, lookup_last. done.
Qed.

Definition subject (e : event) : nat :=
  match e with Settled i _ | CallDelivered i | CallFailed i => i end.

(** The events of one receipt. *)
Definition about (i : nat) (evs : list event) : list event :=
  filter (fun e => subject e = i) evs.

Lemma about_app i a b : about i (a ++ b) = about i a ++ about i b.
Proof. unfold about. by rewrite filter_app. Qed.

Lemma about_outcome i j s r : about j (outcome i s r) = if decide (i = j) then outcome i s r else [].
Proof.
  unfold outcome, about. destruct (decide (i = j)) as [->|Hne].
  - destruct (settledPromise r) as [[|]|], s, (cb_delivered r), (cb_failed r); cbn [app filter list_filter];
      repeat (rewrite decide_True by done); reflexivity.
  - destruct (settledPromise r) as [[|]|], s, (cb_delivered r), (cb_failed r); cbn [app filter list_filter];
      repeat (rewrite decide_False by done); reflexivity.
Qed.

Section Steps.
Context `{C : WebCrypto}.

(** What one step does to one receipt. *)
Inductive change (i : nat) (o : op) (s : World) :
  option PacketReceipt -> option PacketReceipt -> list event -> Prop :=
| ch_same x : change i o s x x []
| ch_new now ms h d cd cf :
    o = Track now ms h d cd cf -> i = length (heap (reg s)) ->
    change i o s None (Some (tracked now ms h d cd cf)) []
| ch_wait r : status r = SENDING -> settledPromise r = None ->
    change i o s (Some r) (Some (set_promise r (Some None))) []
| ch_timer r now t : o = Timer now i -> timeoutTimer r = Some t -> t <= now ->
    change i o s (Some r) (Some (expire r))
      (if bool_decide (status r = FAILED) then [] else outcome i FAILED r)
| ch_proof r k recall body :
    o = ProofChecked k recall -> checking s !! k = Some (i, body) ->
    validateProof recall r body = true ->
    change i o s (Some r) (Some (settle DELIVERED r))
      (if bool_decide (status r = DELIVERED) then [] else outcome i DELIVERED r).

Lemma about_cond j i s r b :
  about j (if (b : bool) then [] else outcome i s r)
  = if decide (i = j) then (if b then [] else outcome i s r) else [].
Proof. destruct b; [by destruct (decide _)|]. apply about_outcome. Qed.

Lemma step_change o s j :
  change j o s (heap (reg s) !! j) (heap (reg (fst (step o s))) !! j) (about j (snd (step o s))).
Proof.
  destruct o as [now ms h d cd cf|i|now i|dest body|k recall]; cbn [step].
  - rewrite track_spec. cbn [fst snd reg heap].
    destruct (decide (j = length (heap (reg s)))) as [Hj|Hne].
    + rewrite Hj, lookup_ge_None_2, lookup_last by done. by eapply ch_new.
    + destruct (decide (j < length (heap (reg s)))%nat).
      * rewrite lookup_app_l by done. constructor.
      * rewrite !lookup_ge_None_2 by (rewrite ?length_app; cbn; lia). constructor.
  - unfold whenSettled. destruct (heap (reg s) !! i) as [r|] eqn:Hi; [|constructor].
    case_bool_decide as Hs; cbn [negb fst snd reg]; [|constructor].
    destruct (settledPromise r) as [p|] eqn:Hp; [constructor|].
    cbn [fst snd reg]. rewrite update_heap. destruct (decide (i = j)) as [->|Hne].
    + rewrite list_lookup_alter_eq, Hi. by apply ch_wait.
    + rewrite list_lookup_alter_ne by done. constructor.
  - destruct (heap (reg s) !! i ≫= timeoutTimer) as [t|] eqn:Ht.
    2: { rewrite timer_idle; [constructor|]. intros r t Hr Htr. rewrite Hr in Ht. cbn in Ht. congruence. }
    apply bind_Some in Ht as (r & Hi & Ht).
    destruct (decide (t <= now)) as [Hn|Hn].
    2: { rewrite timer_idle; [constructor|]. intros r' t' Hr' Ht'. assert (r' = r) by congruence. subst.
         assert (t' = t) by congruence. lia. }
    destruct (timer_fires_spec now i (reg s) r t Hi Ht Hn) as (Hh & _ & He).
    destruct (timer_fires now i (reg s)) as [w ev]. cbn [fst snd reg] in *.
    rewrite Hh, He, about_cond. destruct (decide (i = j)) as [->|Hne].
    + rewrite list_lookup_alter_eq, Hi. by eapply ch_timer.
    + rewrite list_lookup_alter_ne by done. constructor.
  - destruct (proof_begin dest (reg s)); constructor.
  - destruct (checking s !! k) as [[i body]|] eqn:Hk; [|constructor].
    unfold proof_end. destruct (heap (reg s) !! i) as [r|] eqn:Hi; [|constructor].
    destruct (validateProof recall r body) eqn:Hv; [|constructor].
    destruct (setDelivered_spec i (reg s) r Hi) as (Hh & _ & He).
    destruct (setDelivered i (reg s)) as [w ev]. cbn [fst snd reg] in *.
    rewrite Hh, He, about_cond. destruct (decide (i = j)) as [->|Hne].
    + rewrite list_lookup_alter_eq, Hi. by eapply ch_proof.
    + rewrite list_lookup_alter_ne by done. constructor.
Qed.

Lemma events_app ops1 ops2 s :
  run (ops1 ++ ops2) s
  = (fst (run ops2 (fst (run ops1 s))), snd (run ops1 s) ++ snd (run ops2 (fst (run ops1 s)))).
Proof.
  revert s. induction ops1 as [|o ops IH]; intros s; cbn [app run fst snd]; [by destruct (run ops2 s) as [? ?]|].
  destruct (step o s) as [s1 ev1]. rewrite IH. destruct (run ops s1) as [s2 ev2]. cbn [fst snd].
  destruct (run ops2 s2). cbn. by rewrite app_assoc.
Qed.

Lemma run_snoc ops o s :
  run (ops ++ [o]) s
  = (fst (step o (fst (run ops s))), snd (run ops s) ++ snd (step o (fst (run ops s)))).
Proof.
  rewrite events_app. cbn [run]. destruct (step o (fst (run ops s))) as [s1 ev1]. cbn.
  by rewrite app_nil_r.
Qed.

(** ** Every receipt settles *)

(** Either it waits with its timer armed, or it is settled and owns neither a
    timer nor a pending promise. *)
Definition wf_receipt (r : PacketReceipt) : Prop :=
  (status r = SENDING /\ (exists t, timeoutTimer r = Some t)
   /\ (settledPromise r = None \/ settledPromise r = Some None))
  \/ ((status r = DELIVERED \/ status r = FAILED) /\ timeoutTimer r = None
      /\ settledPromise r <> Some None).

Lemma settle_wf s r : (s = DELIVERED \/ s = FAILED) -> wf_receipt r ->
  wf_receipt (settle s r) /\ status (settle s r) = s.
Proof.
  intros Hs Hw. unfold settle. case_bool_decide as E.
  - subst s. split; [|done]. destruct Hw as [(H & _)|Hw]; [|by right].
    destruct Hs as [?|?]; congruence.
  - split; [|done]. right. cbn. split; [done|]. split; [done|].
    by destruct (settledPromise r) as [[|]|].
Qed.

Lemma expire_sending r : wf_receipt r -> forall t, timeoutTimer r = Some t ->
  status r = SENDING /\ wf_receipt (expire r) /\ status (expire r) = FAILED.
Proof.
  intros [(Hs & _ & Hp)|(_ & Ht & _)] t Ht'; [|congruence]. split; [done|].
  unfold expire, settle. cbn [status set_timer]. rewrite Hs, bool_decide_false by done. cbn.
  split; [|done]. right. split; [by right|]. split; [done|]. by destruct Hp as [->| ->].
Qed.

Lemma change_wf i o s x r' evs :
  change i o s x (Some r') evs -> (forall r, x = Some r -> wf_receipt r) -> wf_receipt r'.
Proof.
  intros Hc Hx. inv Hc; [by apply Hx| | | |].
  - left. cbn. eauto.
  - destruct (Hx _ eq_refl) as [(Hs & Ht & _)|([?|?] & _)]; [|congruence..]. left. cbn. eauto.
  - by eapply expire_sending; [apply Hx|].
  - apply settle_wf; auto.
Qed.

Lemma run_wf ops i r : heap (reg (fst (run ops start))) !! i = Some r -> wf_receipt r.
Proof.
  revert i r. induction ops as [|o ops IH] using rev_ind; intros i r; [done|].
  rewrite run_snoc. cbn [fst]. intros Hr.
  pose proof (step_change o (fst (run ops start)) i) as Hc. rewrite Hr in Hc.
  by eapply change_wf; [exact Hc|]; intros; eapply IH.
Qed.

(** A waiting receipt keeps its deadline; a settled one never waits again. *)
Lemma change_deadline i o s r x evs : wf_receipt r -> change i o s (Some r) x evs ->
  exists r', x = Some r' /\ (status r' = SENDING ->
    status r = SENDING /\ timeoutTimer r' = timeoutTimer r).
Proof.
  intros Hw Hc. inv Hc; eexists; (split; [done|]); [done|done| |]; intros Hs'.
  - match goal with Ht : timeoutTimer r = Some _ |- _ =>
      destruct (expire_sending r Hw _ Ht) as (_ & _ & ?); congruence end.
  - destruct (settle_wf DELIVERED r) as [_ ?]; [auto..|congruence].
Qed.

Lemma run_deadline pre ops i r :
  heap (reg (fst (run pre start))) !! i = Some r ->
  exists r', heap (reg (fst (run ops (fst (run pre start))))) !! i = Some r'
    /\ (status r' = SENDING -> status r = SENDING /\ timeoutTimer r' = timeoutTimer r).
Proof.
  intros Hr. induction ops as [|o ops (r1 & H1 & Hd)] using rev_ind; [by exists r|].
  assert (Hw : wf_receipt r1).
  { apply (run_wf (pre ++ ops) i). by rewrite events_app. }
  rewrite run_snoc. cbn [fst].
  pose proof (step_change o (fst (run ops (fst (run pre start)))) i) as Hc. rewrite H1 in Hc.
  destruct (change_deadline _ _ _ _ _ _ Hw Hc) as (r' & Hx & Hd'). exists r'. split; [done|].
  intros Hs. destruct (Hd' Hs) as [Hs1 Ht1]. destruct (Hd Hs1) as [? ?]. split; [done|congruence].
Qed.

(** Every receipt settles: whatever sends, waits, timers and proof checks,
    however interleaved, come before and after, a waiting receipt has a
    deadline, and once its timer runs at or after it the receipt is DELIVERED
    or FAILED and a promise that was handed out is resolved, with the first of
    these outcomes. *)
Theorem receipt_settles pre i r
    (Hr : heap (reg (fst (run pre start))) !! i = Some r) (Hs : status r = SENDING) :
  exists deadline, timeoutTimer r = Some deadline
  /\ forall ops now, deadline <= now ->
     let s := fst (run (ops ++ [Timer now i]) (fst (run pre start))) in
     exists r', heap (reg s) !! i = Some r'
       /\ (status r' = DELIVERED \/ status r' = FAILED)
       /\ timeoutTimer r' = None /\ settledPromise r' <> Some None.
Proof.
  destruct (run_wf _ _ _ Hr) as [(_ & (t & Ht) & _)|([?|?] & _)]; [|congruence..].
  exists t. split; [done|]. intros ops now Hn s.
  destruct (run_deadline pre ops i r Hr) as (r1 & H1 & Hd).
  assert (Hw1 : wf_receipt r1) by (apply (run_wf (pre ++ ops) i); by rewrite events_app).
  assert (Hs' : heap (reg s) !! i
    = heap (fst (timer_fires now i (reg (fst (run ops (fst (run pre start))))))) !! i).
  { subst s. rewrite run_snoc. cbn [step fst]. by destruct (timer_fires now i _). }
  rewrite Hs'. destruct Hw1 as [Hw1|(Hst & Ht1 & Hp1)].
  - assert (Ht1 : timeoutTimer r1 = Some t) by (rewrite <- Ht; apply Hd; apply Hw1).
    destruct (timer_fires_spec now i _ _ _ H1 Ht1 Hn) as (-> & _).
    rewrite list_lookup_alter_eq, H1. cbn. exists (expire r1). split; [done|].
    destruct (expire_sending r1 (or_introl Hw1) _ Ht1) as (_ & [(? & _)|(? & ? & ?)] & Hf); [congruence|].
    auto.
  - rewrite timer_idle by (intros; congruence). cbn [fst]. rewrite H1. eauto.
Qed.

(** ** Authenticity of deliveries *)

(** The recipient's signature of the packet hash, in either of its forms. *)
Definition proves (recall : bytes -> option Identity) (r : PacketReceipt) (body : bytes) : Prop :=
  exists id sig, recall (r_destinationHash r) = Some id
    /\ validate id sig (packetHash r) = true /\ length sig = 64%nat
    /\ (body = sig \/ body = packetHash r ++ sig).

Lemma validate_length id sig m : validate id sig m = true -> length sig = 64%nat.
Proof. unfold validate. destruct (length sig =? 64)%nat eqn:E; [by bools|done]. Qed.

Lemma validateProof_proves recall r body :
  validateProof recall r body = true -> proves recall r body.
Proof.
  unfold validateProof, _verify, proves. intros H.
  destruct (length body =? PROOF_EXPLICIT_LENGTH)%nat eqn:E.
  - destruct (bytesEqual _ _) eqn:Eb; [|done]. cbn [negb] in H.
    destruct (owner r); [|done]. cbn [negb] in H.
    destruct (recall _) as [id|] eqn:Er; [|done].
    exists id, (slice 32 96 body). apply bytesEqual_spec in Eb. bools.
    repeat split; [done|by eapply validate_length|].
    right. rewrite <- Eb. unfold slice. change (32 - 0)%nat with 32%nat. rewrite drop_0.
    rewrite (take_ge (drop 32 body)); [by rewrite take_drop|].
    rewrite length_drop, E. unfold PROOF_EXPLICIT_LENGTH. lia.
  - destruct (length body =? PROOF_IMPLICIT_LENGTH)%nat eqn:E2; [|done]. destruct (owner r); [|done]. cbn [negb] in H.
    destruct (recall _) as [id|] eqn:Er; [|done].
    exists id, body. repeat split; [done|by eapply validate_length|by left].
Qed.

(** The fields of a receipt no operation changes. *)
Definition same_packet (r r' : PacketReceipt) : Prop :=
  packetHash r' = packetHash r /\ r_destinationHash r' = r_destinationHash r.

Lemma proves_same recall r r' body : same_packet r r' -> proves recall r body -> proves recall r' body.
Proof. intros [Hh Hd]. unfold proves. by rewrite Hh, Hd. Qed.

Lemma change_delivered i o s x r' evs : change i o s x (Some r') evs -> status r' = DELIVERED ->
  (exists r, x = Some r /\ same_packet r r' /\ status r = DELIVERED)
  \/ (exists r k recall body, x = Some r /\ same_packet r r' /\ o = ProofChecked k recall
      /\ checking s !! k = Some (i, body) /\ proves recall r body).
Proof.
  intros Hc Hs. inv Hc.
  - left. by exists r'.
  - left. by exists r.
  - unfold expire, settle in Hs |- *. cbn in Hs. case_bool_decide as E; cbn in Hs; [congruence|discriminate Hs].
  - right. exists r, k, recall, body. split; [done|]. split.
    { unfold settle. by case_bool_decide. }
    split; [done|]. split; [done|]. by apply validateProof_proves.
Qed.

Lemma checking_arrived ops : forall i body, (i, body) ∈ checking (fst (run ops start)) ->
  exists dest, In (ProofArrives dest body) ops.
Proof.
  induction ops as [|o ops IH] using rev_ind; intros i body; [by intros ?%not_elem_of_nil|].
  rewrite run_snoc. cbn [fst]. set (s := fst (run ops start)) in *. intros Hin.
  assert (Hc : (i, body) ∈ checking s \/ exists dest, o = ProofArrives dest body).
  { destruct o as [| |now j|dest b|k recall]; cbn [step fst checking] in Hin; auto.
    - destruct (timer_fires _ _ _). by left.
    - destruct (proof_begin dest (reg s)); [|by left]. cbn in Hin.
      apply elem_of_app in Hin as [?|Hin]; [by left|]. apply list_elem_of_singleton in Hin.
      injection Hin as -> ->. eauto.
    - destruct (checking s !! k) as [[j b]|]; [|by left].
      destruct (proof_end _ _ _ _) as [[w ev] acc]. cbn in Hin. left.
      rewrite delete_take_drop in Hin. apply elem_of_app in Hin as [Hin|Hin].
      + rewrite <- (take_drop k (checking s)). apply elem_of_app. by left.
      + rewrite <- (take_drop (S k) (checking s)). apply elem_of_app. by right. }
  setoid_rewrite in_app_iff. destruct Hc as [Hc|(dest & ->)].
  - destruct (IH _ _ Hc) as [dest Hd]. exists dest. by left.
  - exists dest. right. by left.
Qed.

(** A delivery is authentic: whatever the interleaving, a receipt that
    is DELIVERED was given a proof that arrived, whose body is the 64-byte
    signature, alone or after the packet hash, of exactly this packet's hash,
    and which verified under the identity recalled for the packet's own
    destination. *)
Theorem receipt_delivered_authentic ops i r
    (Hr : heap (reg (fst (run ops start))) !! i = Some r) (Hs : status r = DELIVERED) :
  exists k recall dest body,
    In (ProofArrives dest body) ops /\ In (ProofChecked k recall) ops /\ proves recall r body.
Proof.
  revert r Hr Hs. induction ops as [|o ops IH] using rev_ind; intros r; [done|].
  rewrite run_snoc. cbn [fst]. set (s := fst (run ops start)) in *. intros Hr Hs.
  pose proof (step_change o s i) as Hc. rewrite Hr in Hc. setoid_rewrite in_app_iff.
  destruct (change_delivered _ _ _ _ _ _ Hc Hs)
    as [(r0 & H0 & Hsame & Hs0)|(r0 & k & recall & body & H0 & Hsame & -> & Hk & Hp)].
  - destruct (IH _ H0 Hs0) as (k & recall & dest & body & ? & ? & Hp).
    exists k, recall, dest, body. split; [auto|]. split; [auto|]. by eapply proves_same.
  - destruct (checking_arrived ops i body) as [dest Hd]; [by eapply list_elem_of_lookup_2|].
    exists k, recall, dest, body. split; [auto|]. split; [right; by left|]. by eapply proves_same.
Qed.

(** ** One outcome *)

Definition is_proof_op (o : op) : bool :=
  match o with ProofArrives _ _ | ProofChecked _ _ => true | _ => false end.

(** Runs in which nothing happens between the halves of a proof check. *)
Inductive atomic : list op -> Prop :=
| at_nil : atomic []
| at_op l o : atomic l -> is_proof_op o = false -> atomic (l ++ [o])
| at_proof l dest body recall : atomic l ->
    atomic (l ++ [ProofArrives dest body; ProofChecked 0 recall]).

(** The events a receipt in this state has caused so far. *)
Definition fate (i : nat) (r : PacketReceipt) : list event :=
  match status r with
  | SENDING => []
  | s => match settledPromise r with Some (Some _) => [Settled i s] | _ => [] end
         ++ match s with
            | DELIVERED => if cb_delivered r then [CallDelivered i] else []
            | _ => if cb_failed r then [CallFailed i] else []
            end
  end.

Definition fate_of (i : nat) (x : option PacketReceipt) : list event :=
  match x with Some r => fate i r | None => [] end.

Lemma fate_settle i s r : settledPromise r = None \/ settledPromise r = Some None ->
  status r = SENDING -> (s = DELIVERED \/ s = FAILED) ->
  fate i (settle s r) = outcome i s r.
Proof.
  intros Hp Hs Hs'.
  unfold settle, outcome, fate. rewrite Hs.
  destruct Hs' as [-> | ->]; rewrite bool_decide_false by done; cbn; by destruct Hp as [-> | ->].
Qed.

Lemma change_fate i o s x x' evs :
  change i o s x x' evs -> (forall r, x = Some r -> wf_receipt r) ->
  (forall k recall, o = ProofChecked k recall -> forall r, x = Some r ->
     forall body, checking s !! k = Some (i, body) -> status r = SENDING) ->
  fate_of i x' = fate_of i x ++ evs.
Proof.
  intros Hc Hw Hp. inv Hc; cbn [fate_of]; rewrite ?app_nil_r; try reflexivity.
  - unfold fate. cbn. by match goal with H : status r = SENDING |- _ => rewrite H end.
  - match goal with Ht : timeoutTimer r = Some _ |- _ =>
      destruct (expire_sending r (Hw _ eq_refl) _ Ht) as (Hs & _) end.
    unfold expire. rewrite (fate_settle i FAILED (set_timer r None)).
    + unfold fate. rewrite Hs, bool_decide_false by done. reflexivity.
    + destruct (Hw _ eq_refl) as [(_ & _ & Hpr)|([?|?] & _)]; [|congruence..]. exact Hpr.
    + exact Hs.
    + by right.
  - assert (Hs : status r = SENDING) by (by eapply Hp).
    destruct (Hw _ eq_refl) as [(_ & _ & Hpr)|([?|?] & _)]; [|congruence..].
    rewrite fate_settle by auto. unfold fate. by rewrite Hs, bool_decide_false.
Qed.

Lemma about_step ops o i :
  about i (snd (run (ops ++ [o]) start))
  = about i (snd (run ops start)) ++ about i (snd (step o (fst (run ops start)))).
Proof. rewrite run_snoc. cbn [snd]. apply about_app. Qed.

Lemma proof_begin_sending dest w i : proof_begin dest w = Some i ->
  exists r, heap w !! i = Some r /\ status r = SENDING.
Proof.
  unfold proof_begin. intros H. destruct (findReceipt dest w) as [j|]; [|done].
  destruct (heap w !! j) as [r|] eqn:Hj; [|done]. case_bool_decide; [|done].
  injection H as <-. eauto.
Qed.

(** The two halves of an undisturbed check as one step. *)
Lemma proof_step_fate ops dest body recall i :
  checking (fst (run ops start)) = [] ->
  let s := run (ops ++ [ProofArrives dest body; ProofChecked 0 recall]) start in
  checking (fst s) = []
  /\ (about i (snd (run ops start)) = fate_of i (heap (reg (fst (run ops start))) !! i) ->
      about i (snd s) = fate_of i (heap (reg (fst s)) !! i)).
Proof.
  intros Hc s. subst s.
  change [ProofArrives dest body; ProofChecked 0 recall]
    with ([ProofArrives dest body] ++ [ProofChecked 0 recall]).
  rewrite app_assoc, about_step, !run_snoc. cbn [fst snd]. set (s0 := fst (run ops start)) in *.
  pose proof (step_change (ProofChecked 0 recall) (fst (step (ProofArrives dest body) s0)) i) as Hch.
  assert (H1 : reg (fst (step (ProofArrives dest body) s0)) = reg s0
    /\ snd (step (ProofArrives dest body) s0) = []
    /\ (forall j b, checking (fst (step (ProofArrives dest body) s0)) !! 0%nat = Some (j, b) ->
        exists r, heap (reg s0) !! j = Some r /\ status r = SENDING)
    /\ checking (fst (step (ProofChecked 0 recall) (fst (step (ProofArrives dest body) s0)))) = []).
  { cbn [step]. destruct (proof_begin dest (reg s0)) as [j|] eqn:Hb; cbn [fst snd reg checking];
      rewrite Hc; cbn [app lookup list_lookup nth_error].
    - split; [done|]. split; [done|]. split; [|by destruct (proof_end _ _ _ _) as [[? ?] ?]].
      intros ? ? [= -> ->]. by eapply proof_begin_sending.
    - done. }
  destruct H1 as (Hr & He & Hs & Hn). split; [exact Hn|]. intros IH.
  rewrite about_app, He, IH, app_nil_r. symmetry. rewrite Hr in Hch. eapply change_fate; [exact Hch| |].
  - intros r Hx. by eapply run_wf.
  - intros k rc [= <- <-] r Hx b Hk. destruct (Hs _ _ Hk) as (r' & Hr' & ?). congruence.
Qed.

Lemma atomic_fate ops : atomic ops ->
  checking (fst (run ops start)) = []
  /\ forall i, about i (snd (run ops start)) = fate_of i (heap (reg (fst (run ops start))) !! i).
Proof.
  induction 1 as [|l o Ha [Hc IH] Ho|l dest body recall Ha [Hc IH]]; [done| |].
  - rewrite run_snoc. cbn [fst]. split.
    { destruct o; cbn [step is_proof_op] in *; try done. by destruct (timer_fires _ _ _). }
    intros i. rewrite <- run_snoc, about_step, IH. symmetry.
    eapply change_fate; [apply step_change| |]; [intros; by eapply run_wf|].
    intros k rc ->. done.
  - split.
    + by apply (proof_step_fate l dest body recall 0).
    + intros i. by apply proof_step_fate.
Qed.

(** One outcome: as long as a proof check is not interrupted, the events
    a receipt has caused are determined by its final state: none while it
    waits; once DELIVERED, its promise (if one was asked for) resolved with
    DELIVERED and the delivered callback called once; once FAILED, the same
    with FAILED. No receipt is ever both. *)
Theorem receipt_one_outcome ops i (Ha : atomic ops) :
  about i (snd (run ops start))
  = match heap (reg (fst (run ops start))) !! i with
    | None => []
    | Some r =>
        match status r with
        | SENDING => []
        | DELIVERED => (match settledPromise r with Some _ => [Settled i DELIVERED] | None => [] end)
                       ++ (if cb_delivered r then [CallDelivered i] else [])
        | s => (match settledPromise r with Some _ => [Settled i s] | None => [] end)
               ++ (if cb_failed r then [CallFailed i] else [])
        end
    end.
Proof.
  destruct (atomic_fate ops Ha) as [_ H]. rewrite H. unfold fate_of, fate.
  destruct (heap _ !! i) as [r|] eqn:Hr; [|done].
  destruct (run_wf _ _ _ Hr) as [(-> & _)|([-> | ->] & _ & Hp)]; [done| |];
    by destruct (settledPromise r) as [[|]|].
Qed.

(** An interrupted proof check: when the timer of a waiting receipt runs
    between the arrival of a valid proof and the end of its check, the receipt
    ends DELIVERED, but its promise has been resolved with FAILED and both the
    failed and the delivered callback have been called. *)
Theorem receipt_race w i r t now recall body
    (Hi : heap w !! i = Some r) (Hs : status r = SENDING)
    (Ht : timeoutTimer r = Some t) (Hn : t <= now) (Hp : settledPromise r = Some None)
    (Hcd : cb_delivered r = true) (Hcf : cb_failed r = true)
    (Hv : validateProof recall r body = true) :
  let s := run [Timer now i; ProofChecked 0 recall] (mkWorld w [(i, body)]) in
  snd s = [Settled i FAILED; CallFailed i; CallDelivered i]
  /\ exists r', heap (reg (fst s)) !! i = Some r' /\ status r' = DELIVERED
                /\ settledPromise r' = Some (Some FAILED).
Proof.
  cbn [run step reg checking].
  destruct (timer_fires_spec now i w r t Hi Ht Hn) as (Hh & _ & He).
  destruct (timer_fires now i w) as [w1 ev1]. cbn [fst snd] in *. cbn [reg checking lookup list_lookup nth_error].
  assert (H1 : heap w1 !! i = Some (expire r)) by by rewrite Hh, list_lookup_alter_eq, Hi.
  assert (Hx : expire r = mkReceipt (packetHash r) (r_truncatedHash r) (r_destinationHash r)
    (cb_delivered r) (cb_failed r) (owner r) FAILED (sentAt r) None (Some (Some FAILED))).
  { unfold expire, settle. cbn. by rewrite Hs, Hp. }
  unfold proof_end. rewrite H1.
  assert (Hv' : validateProof recall (expire r) body = true) by (rewrite Hx; exact Hv).
  rewrite Hv'. destruct (setDelivered_spec i w1 _ H1) as (Hh2 & _ & He2).
  destruct (setDelivered i w1) as [w2 ev2]. cbn [fst snd reg] in *.
  rewrite He, He2, Hs, Hh2, list_lookup_alter_eq, H1, Hx. cbn. unfold outcome. cbn.
  rewrite Hp, Hcf, Hcd. cbn. split; [done|]. eexists. split; [reflexivity|]. done.
Qed.

(** One key per packet: when the same packet is sent twice, the
    registry's entry is the second receipt; the first receipt's timer then
    removes the second's entry, after which no proof of that packet is matched
    with a receipt any more, although the second one still waits. *)
Theorem receipt_evicts_twin now1 ms1 now2 ms2 now h d cd cf w
    (Hn : now1 + ms1 <= now) (Hl : length h = 32%nat) :
  let '(w1, i) := track now1 ms1 h d cd cf w in
  let '(w2, j) := track now2 ms2 h d cd cf w1 in
  findReceipt (slice 0 16 h) w2 = Some j
  /\ (exists r, heap w2 !! i = Some r /\ status r = SENDING)
  /\ let w3 := fst (timer_fires now i w2) in
     proof_begin (slice 0 16 h) w3 = None
     /\ exists r, heap w3 !! j = Some r /\ status r = SENDING.
Proof.
  rewrite track_spec. cbn match. rewrite track_spec. cbn [heap receipts].
  set (r1 := tracked now1 ms1 h d cd cf). set (r2 := tracked now2 ms2 h d cd cf).
  set (w2 := mkRegistry _ _).
  assert (H1 : heap w2 !! length (heap w) = Some r1)
    by (cbn; rewrite <- app_assoc; by apply list_lookup_middle).
  assert (H2 : heap w2 !! length (heap w ++ [r1]) = Some r2) by (cbn; apply lookup_last).
  split; [apply get_mset_same|]. split; [by exists r1|].
  destruct (timer_fires_spec now _ w2 r1 (now1 + ms1) H1) as (Hh & Hr & _); [done..|].
  cbn zeta. unfold proof_begin, findReceipt. rewrite Hr. cbn [owner r1 tracked set_owner r_truncatedHash].
  change (r_truncatedHash (set_timer _ _)) with (slice 0 16 h). rewrite get_mdelete_same. split; [done|].
  exists r2. rewrite Hh, list_lookup_alter_ne by (rewrite length_app; cbn; lia). done.
Qed.
End Steps.

(** ** Witnesses *)

Import Toy.

Definition sample_hash : bytes := replicate 32 7.
Definition sample_peer : Identity := generate (replicate 32 1) (replicate 32 2).
Definition sample_recall (d : bytes) : option Identity :=
  if bytesEqual d (replicate 16 9) then Some (fromPublicKey (getPublicKey sample_peer)) else None.
Definition sample_proof : bytes := ed25519_sign (replicate 32 2) sample_hash.

(** A receipt tracked, awaited, and proved. *)
Definition sample_run : list op :=
  [Track 0 1000 sample_hash (replicate 16 9) true true; WhenSettled 0;
   ProofArrives (replicate 16 7) sample_proof; ProofChecked 0 sample_recall].

Definition sample_receipt (s : ReceiptStatus) (t : option Z) (p : option (option ReceiptStatus))
    : PacketReceipt :=
  mkReceipt sample_hash (replicate 16 7) (replicate 16 9) true true true s 0 t p.

Lemma receipt_settles_witness :
  exists deadline, timeoutTimer (sample_receipt SENDING (Some 1000) (Some None)) = Some deadline
  /\ forall ops now, deadline <= now ->
     let s := fst (run (ops ++ [Timer now 0]) (fst (run (take 2 sample_run) start))) in
     exists r', heap (reg s) !! 0%nat = Some r'
       /\ (status r' = DELIVERED \/ status r' = FAILED)
       /\ timeoutTimer r' = None /\ settledPromise r' <> Some None.
Proof. apply (receipt_settles (take 2 sample_run) 0); vm_compute; reflexivity. Defined.

Lemma receipt_delivered_authentic_witness :
  exists k recall dest body,
    In (ProofArrives dest body) sample_run /\ In (ProofChecked k recall) sample_run
    /\ proves recall (sample_receipt DELIVERED None (Some (Some DELIVERED))) body.
Proof. apply (receipt_delivered_authentic sample_run 0); vm_compute; reflexivity. Defined.

Lemma sample_atomic : atomic sample_run.
Proof.
  apply (at_proof [_; _]). apply (at_op [_]); [|done]. apply (at_op []); [|done]. constructor.
Qed.

Lemma receipt_one_outcome_witness :
  about 0 (snd (run sample_run start)) = [Settled 0 DELIVERED; CallDelivered 0].
Proof. rewrite (receipt_one_outcome sample_run 0 sample_atomic). vm_compute. reflexivity. Defined.

Lemma receipt_race_witness :
  let s := run [Timer 2000 0; ProofChecked 0 sample_recall]
             (mkWorld (reg (fst (run (take 2 sample_run) start))) [(0%nat, sample_proof)]) in
  snd s = [Settled 0 FAILED; CallFailed 0; CallDelivered 0]
  /\ exists r', heap (reg (fst s)) !! 0%nat = Some r' /\ status r' = DELIVERED
                /\ settledPromise r' = Some (Some FAILED).
Proof.
  apply (receipt_race _ 0 (sample_receipt SENDING (Some 1000) (Some None)) 1000 2000
           sample_recall sample_proof); vm_compute; first [reflexivity | discriminate].
Defined.

Lemma receipt_evicts_twin_witness :
  let '(w1, i) := track 0 1000 sample_hash (replicate 16 9) false true empty_registry in
  let '(w2, j) := track 500 1000 sample_hash (replicate 16 9) false true w1 in
  findReceipt (slice 0 16 sample_hash) w2 = Some j
  /\ (exists r, heap w2 !! i = Some r /\ status r = SENDING)
  /\ let w3 := fst (timer_fires 1000 i w2) in
     proof_begin (slice 0 16 sample_hash) w3 = None
     /\ exists r, heap w3 !! j = Some r /\ status r = SENDING.
Proof.
  apply (receipt_evicts_twin 0 1000 500 1000 1000 sample_hash (replicate 16 9) false true
           empty_registry); [lia|reflexivity].
Defined.
