(* ===== verification/Destination.v ===== *)
(** * Destination: endpoints that announce, receive and prove
    (packages/core/src/core/destination.js, with the caches of
    packages/core/src/transport/identity-cache.js)

    A destination is a record; each method takes the clock and the random
    values it draws as arguments and returns the new record with the events it
    causes.  Seconds obtained by dividing [Date.now()] by 1000 are kept in
    milliseconds. *)

From S2P Require Import Prelude Encoding JsMap Utf8 MsgPack Packet Crypto Identity Link.

Inductive Direction := IN | OUT.

(** ** What a node remembers of others *)

Record KnownDestination := mkKnown {
  k_timestamp : Z;
  k_packetHash : bytes;
  k_publicKey : bytes;
  k_appData : option bytes;
}.

Record KnownRatchet := mkKnownRatchet {
  ratchet : bytes;
  received : Z;
}.

Definition RATCHET_INTERVAL_MS : Z := 30 * 60 * 1000.
Definition MAX_RATCHETS : nat := 512.
Definition RATCHET_EXPIRY_MS : Z := 30 * 24 * 60 * 60 * 1000.
Definition DEFAULT_ANNOUNCE_INTERVAL_MS : Z := 30 * 60 * 1000.
Definition MIN_ANNOUNCE_INTERVAL_MS : Z := 60 * 1000.
Definition PR_TAG_WINDOW_MS : Z := 30 * 1000.

Definition rememberInto (now : Z) (known : jsmap KnownDestination)
    (packetHash destinationHash publicKey : bytes) (appData : option bytes)
    : jsmap KnownDestination :=
  mset (toHex destinationHash) (mkKnown now packetHash publicKey appData) known.

Definition rememberRatchetInto (now : Z) (known : jsmap KnownRatchet)
    (destinationHash r : bytes) : jsmap KnownRatchet :=
  if (length r =? 0)%nat then known else
  let key := toHex destinationHash in
  match get key known with
  | Some existing => if bytesEqual (ratchet existing) r then known
                     else mset key (mkKnownRatchet r now) known
  | None => mset key (mkKnownRatchet r now) known
  end.

Definition recallRatchetFrom (now : Z) (known : jsmap KnownRatchet) (destinationHash : bytes)
    : option bytes * jsmap KnownRatchet :=
  let key := toHex destinationHash in
  match get key known with
  | None => (None, known)
  | Some entry =>
      if received entry + RATCHET_EXPIRY_MS <? now then (None, mdelete key known)
      else (Some (ratchet entry), known)
  end.

(** The loop over the entries, deleting as it goes. *)
Fixpoint clean_loop (now : Z) (known : jsmap KnownDestination) (es : list (jsstr * KnownRatchet))
    (m : jsmap KnownRatchet) (removed : nat) : jsmap KnownRatchet * nat :=
  match es with
  | [] => (m, removed)
  | (key, entry) :: es =>
      let expired := received entry + RATCHET_EXPIRY_MS <? now in
      let unknown := negb (has key known) in
      if expired || unknown then clean_loop now known es (mdelete key m) (S removed)
      else clean_loop now known es m removed
  end.

Definition cleanKnownRatchets (now : Z) (knownRatchets : jsmap KnownRatchet)
    (known : jsmap KnownDestination) : jsmap KnownRatchet * nat :=
  clean_loop now known knownRatchets knownRatchets 0.

(** ** The destination *)

Record Ratchet := mkRatchet { privateKey : bytes; ratchetPub : bytes }.

Record PathResponse := mkPathResponse {
  pr_time : Z;
  announceData : bytes;
  hasRatchet : bool;
}.

(** The interface layer (a Reticulum instance): whether it has a storage
    adapter, and its [useImplicitProof]. *)
Record Layer := mkLayer { storage : bool; useImplicitProof : option bool }.

Record Destination := mkDestination {
  name : jsstr;
  direction : Direction;
  type : Z;
  identity : option Identity;
  interfaceLayer : option Layer;
  destinationHash : option bytes;
  nameHash : option bytes;
  requestHandlers : jsmap RequestHandler;
  appData : option bytes;
  ratchetsEnabled : bool;
  ratchets : option (list Ratchet);
  latestRatchetTime : Z;
  ratchetInterval : Z;
  announceTimer : option Z;
  announceIntervalMs : Z;
  announceGeneration : nat;
  pathResponses : jsmap PathResponse;
}.

Definition new_Destination (nm : jsstr) (dir : Direction) (ty : Z) (id : option Identity)
    (layer : option Layer) : Destination :=
  mkDestination nm dir ty id layer None None [] None false None 0 RATCHET_INTERVAL_MS None
    DEFAULT_ANNOUNCE_INTERVAL_MS 0 [].

Definition set_hashes (d : Destination) (nh : bytes) (dh : option bytes) : Destination :=
  mkDestination (name d) (direction d) (type d) (identity d) (interfaceLayer d) dh (Some nh)
    (requestHandlers d) (appData d) (ratchetsEnabled d) (ratchets d) (latestRatchetTime d)
    (ratchetInterval d) (announceTimer d) (announceIntervalMs d) (announceGeneration d)
    (pathResponses d).

Definition set_handlers (d : Destination) (h : jsmap RequestHandler) : Destination :=
  mkDestination (name d) (direction d) (type d) (identity d) (interfaceLayer d)
    (destinationHash d) (nameHash d) h (appData d) (ratchetsEnabled d) (ratchets d)
    (latestRatchetTime d) (ratchetInterval d) (announceTimer d) (announceIntervalMs d)
    (announceGeneration d) (pathResponses d).

Definition set_ratchets (d : Destination) (enabled : bool) (rs : option (list Ratchet)) (t : Z)
    : Destination :=
  mkDestination (name d) (direction d) (type d) (identity d) (interfaceLayer d)
    (destinationHash d) (nameHash d) (requestHandlers d) (appData d) enabled rs t
    (ratchetInterval d) (announceTimer d) (announceIntervalMs d) (announceGeneration d)
    (pathResponses d).

Definition set_schedule (d : Destination) (timer : option Z) (interval : Z) (gen : nat)
    : Destination :=
  mkDestination (name d) (direction d) (type d) (identity d) (interfaceLayer d)
    (destinationHash d) (nameHash d) (requestHandlers d) (appData d) (ratchetsEnabled d)
    (ratchets d) (latestRatchetTime d) (ratchetInterval d) timer interval gen (pathResponses d).

Definition set_responses (d : Destination) (m : jsmap PathResponse) : Destination :=
  mkDestination (name d) (direction d) (type d) (identity d) (interfaceLayer d)
    (destinationHash d) (nameHash d) (requestHandlers d) (appData d) (ratchetsEnabled d)
    (ratchets d) (latestRatchetTime d) (ratchetInterval d) (announceTimer d)
    (announceIntervalMs d) (announceGeneration d) m.

Inductive event :=
| Broadcast (p : Packet)                 (* interfaceLayer.broadcast *)
| Announced (dest : bytes) (ctx : Z)     (* dispatched after a broadcast *)
| DataEvent (plaintext : bytes)
| LinkRequest (p : Packet)
| SaveRatchets (key : jsstr) (blob : bytes)  (* storage.saveOwnedRatchets *)
| ScheduleAnnounce (gen : nat).          (* a call of _scheduledAnnounce *)

(** The private halves of the ring, when ratchets are on. *)
Definition privRing (d : Destination) : option (list bytes) :=
  if ratchetsEnabled d then map privateKey <$> ratchets d else None.

Section WithCrypto.
Context `{C : WebCrypto} `{H : JsHost}.

(** [_computeHashes]. *)
Definition _computeHashes (d : Destination) : Destination :=
  let nh := name_hash (utf8_encode (name d)) in
  set_hashes d nh
    (if type d =? DestType_PLAIN then Some (dest_hash nh None)
     else match identity d with
          | Some id => if (type d =? DestType_SINGLE) || (type d =? DestType_GROUP)
                       then Some (dest_hash nh (Some id)) else None
          | None => None
          end).

(** [create]; the static factories only fix some of its arguments. *)
Definition create (nm : jsstr) (dir : Direction) (ty : Z) (id : option Identity)
    (layer : option Layer) : Destination :=
  _computeHashes (new_Destination nm dir ty id layer).

(** The end of [recalled]: an OUT destination whose name and recalled identity
    must hash to the requested hash. *)
Definition recalled (nm : jsstr) (hash : bytes) (layer : option Layer) (recall : result Identity)
    : result Destination :=
  if negb (length hash =? TRUNCATED_HASH_LENGTH)%nat
  then Throw (TypeError "destinationHash must be a 16-byte Uint8Array")
  else match layer with
  | None => Throw (JsError "Destination not bound to an RNS instance.")
  | Some _ =>
      let! id := recall in
      let d := create nm OUT DestType_SINGLE (Some id) layer in
      match destinationHash d with
      | Some h => if bytesEqual h hash then Ok d
                  else Throw (JsError "recalled identity does not hash to it")
      | None => Throw (JsError "recalled identity does not hash to it")
      end
  end.

(** ** Ratchets *)

Definition _encodeOwnedRatchets (d : Destination) : result bytes :=
  match identity d, ratchets d with
  | None, _ => Throw (JsError "Cannot encode ratchets without an identity.")
  | _, None => Throw (JsError "Cannot encode ratchets: no ring initialized.")
  | Some id, Some ring =>
      let! packedRing := encode (VArr (map (fun r => VArr [VBin (privateKey r); VBin (ratchetPub r)]) ring)) in
      let! signature := sign id packedRing in
      encode (VObj None [(lit "signature", VBin signature); (lit "ratchets", VBin packedRing)])
  end.

(** A failure is logged and swallowed. *)
Definition _persistOwnedRatchets (d : Destination) : list event :=
  match interfaceLayer d, destinationHash d, ratchets d with
  | Some l, Some dh, Some _ =>
      if storage l then
        match _encodeOwnedRatchets d with
        | Ok blob => [SaveRatchets (toHex dh) blob]
        | Throw _ => []
        end
      else []
  | _, _, _ => []
  end.

(** One entry of a persisted ring. *)
Definition parse_entry (v : value) : option Ratchet :=
  match v with
  | VArr [VBin priv; VBin pub] =>
      if (length priv =? 32)%nat && (length pub =? 32)%nat then Some (mkRatchet priv pub) else None
  | _ => None
  end.

Fixpoint parse_ring (vs : list value) : option (list Ratchet) :=
  match vs with
  | [] => Some []
  | v :: vs => r ← parse_entry v; rs ← parse_ring vs; Some (r :: rs)
  end.

(** The ring in a persisted blob whose signature verifies. *)
Definition decode_ring (id : Identity) (blob : bytes) : option (list Ratchet) :=
  match decode_body blob with
  | Throw _ => None
  | Ok data =>
      match prop (lit "signature") data, prop (lit "ratchets") data with
      | Some (VBin signature), Some (VBin packed) =>
          if negb (validate id signature packed) then None
          else match decode_body packed with
          | Ok (VArr ring) => parse_ring ring
          | _ => None
          end
      | _, _ => None
      end
  end.

(** [loaded] is what the adapter's [loadOwnedRatchets] gives. *)
Definition _loadOwnedRatchets (loaded : result (option bytes)) (d : Destination)
    : Destination * bool :=
  match interfaceLayer d, destinationHash d, identity d with
  | Some l, Some _, Some id =>
      if negb (storage l) then (d, false) else
      match loaded with
      | Ok (Some blob) =>
          match decode_ring id blob with
          | Some ring => (set_ratchets d (ratchetsEnabled d) (Some ring) (latestRatchetTime d), true)
          | None => (d, false)
          end
      | _ => (d, false)
      end
  | _, _, _ => (d, false)
  end.

(** [priv] is the private half of the key pair generated when one is due. *)
Definition rotateRatchets (force : bool) (now : Z) (priv : bytes) (d : Destination)
    : Destination * list event :=
  match ratchets d with
  | Some ring =>
      if negb (ratchetsEnabled d) then (d, [])
      else if negb force && (now <=? latestRatchetTime d + ratchetInterval d) then (d, [])
      else
        let ring := take MAX_RATCHETS (mkRatchet priv (x25519_pub priv) :: ring) in
        let d := set_ratchets d true (Some ring) now in
        (d, _persistOwnedRatchets d)
  | None => (d, [])
  end.

Definition enableRatchets (now : Z) (priv : bytes) (loaded : result (option bytes))
    (d : Destination) : result (Destination * list event) :=
  if ratchetsEnabled d then Ok (d, [])
  else match identity d with
  | None => Throw (JsError "Ratchets require an identity.")
  | Some _ =>
      let d := set_ratchets d true (Some []) (latestRatchetTime d) in
      let '(d, restored) := _loadOwnedRatchets loaded d in
      if negb restored || match ratchets d with Some (_ :: _) => false | _ => true end
      then Ok (rotateRatchets true now priv d)
      else Ok (d, [])
  end.

Definition _currentRatchetForAnnounce (now : Z) (priv : bytes) (d : Destination)
    : Destination * list event * bytes :=
  if negb (ratchetsEnabled d) || match ratchets d with Some (_ :: _) => false | _ => true end
  then (d, [], [])
  else
    let '(d, evs) := rotateRatchets false now priv d in
    (d, evs, match ratchets d with Some (r :: _) => ratchetPub r | _ => [] end).

(** ** Announcing *)

Definition _prunePathResponses (now : Z) (m : jsmap PathResponse) : jsmap PathResponse :=
  filter (fun '(_, e) => now <= pr_time e + PR_TAG_WINDOW_MS) m.

(** The announce body built from scratch: the ratchet is rotated when due
    even if a later step throws. *)
Definition build_payload (now : Z) (random priv : bytes) (id : Identity) (dh nh : bytes)
    (d : Destination) : Destination * list event * result (bytes * bool) :=
  if negb (length nh =? 10)%nat then (d, [], Throw (JsError "nameHash must be 10 bytes")) else
  match createAnnounceRandomHash random (now / 1000) with
  | Throw e => (d, [], Throw e)
  | Ok randomHash =>
      let '(d, evs, ratchetBytes) := _currentRatchetForAnnounce now priv d in
      let app := match appData d with Some a => a | None => id_appData id end in
      (d, evs,
       let! payload := announce_payload id dh nh randomHash ratchetBytes app in
       Ok (payload, (0 <? length ratchetBytes)%nat))
  end.

(** [tagKey]: only a path response has one, and the empty string is falsy. *)
Definition tag_key (ctx : Z) (tag : option bytes) : option jsstr :=
  match (if ctx =? ContextType_PATH_RESPONSE then toHex <$> tag else None) with
  | Some [] => None
  | k => k
  end.

(** [_emitAnnounce] up to the built packet. *)
Definition emit_begin (now : Z) (random priv : bytes) (ctx : Z) (tag : option bytes)
    (d : Destination) : Destination * list event * result Packet :=
  match interfaceLayer d, identity d, destinationHash d, nameHash d with
  | None, _, _, _ => (d, [], Throw (JsError "Destination not bound to an RNS instance."))
  | _, None, _, _ => (d, [], Throw (JsError "Destination requires an identity to announce."))
  | Some _, Some id, Some dh, Some nh =>
      let tagKey := tag_key ctx tag in
      let d := match tagKey with
               | Some _ => set_responses d (_prunePathResponses now (pathResponses d))
               | None => d
               end in
      let cached := k ← tagKey; get k (pathResponses d) in
      let '(d, evs, built) :=
        match cached with
        | Some c => (d, [], Ok (announceData c, hasRatchet c))
        | None =>
            match build_payload now random priv id dh nh d with
            | (d, evs, Ok (payload, hr)) =>
                (match tagKey with
                 | Some k => set_responses d (mset k (mkPathResponse now payload hr) (pathResponses d))
                 | None => d
                 end, evs, Ok (payload, hr))
            | (d, evs, Throw e) => (d, evs, Throw e)
            end
        end in
      (d, evs,
       let! (payload, hr) := built in
       if (length payload <? 148)%nat then Throw (JsError "Announce payload too small")
       else Ok (mkPacket HeaderType_1 0 TransportType_BROADCAST (type d) PacketType_ANNOUNCE hr dh ctx
                  payload None []))
  | _, _, _, _ => (d, [], Throw (JsError "Destination hashes not computed."))
  end.

(** [_emitAnnounce] from the generation check on: a periodic announce whose
    cadence was replaced is dropped. *)
Definition emit_end (generation : option nat) (ctx : Z) (p : Packet) (d : Destination) : list event :=
  if match generation with Some g => negb (g =? announceGeneration d)%nat | None => false end
  then []
  else [Broadcast p; Announced (default [] (destinationHash d)) ctx].

(** The whole method when nothing happens in between. *)
Definition _emitAnnounce (now : Z) (random priv : bytes) (ctx : Z) (generation : option nat)
    (tag : option bytes) (d : Destination) : Destination * list event * result unit :=
  match emit_begin now random priv ctx tag d with
  | (d, evs, Ok p) => (d, evs ++ emit_end generation ctx p d, Ok tt)
  | (d, evs, Throw e) => (d, evs, Throw e)
  end.

Definition announce (now : Z) (random priv : bytes) (d : Destination)
    : Destination * list event * result unit :=
  _emitAnnounce now random priv ContextType_NONE None None d.

Definition announcePathResponse (now : Z) (random priv : bytes) (tag : option bytes)
    (d : Destination) : Destination * list event * result unit :=
  _emitAnnounce now random priv ContextType_PATH_RESPONSE None tag d.

Definition isAnnouncing (d : Destination) : bool :=
  match announceTimer d with Some _ => true | None => false end.

Definition startAnnouncing (intervalMs : option Z) (d : Destination)
    : result (Destination * list event) :=
  match identity d, interfaceLayer d with
  | None, _ => Throw (JsError "Destination requires an identity to announce.")
  | _, None => Throw (JsError "Destination not bound to an RNS instance.")
  | Some _, Some _ =>
      let requested := default (announceIntervalMs d) intervalMs in
      let interval := Z.max requested MIN_ANNOUNCE_INTERVAL_MS in
      let wasRunning := isAnnouncing d in
      let gen := S (announceGeneration d) in
      Ok (set_schedule d (Some interval) interval gen,
          if wasRunning then [] else [ScheduleAnnounce gen])
  end.

Definition stopAnnouncing (d : Destination) : Destination :=
  match announceTimer d with
  | Some _ => set_schedule d None (announceIntervalMs d) (S (announceGeneration d))
  | None => d
  end.

(** One tick of the interval timer. *)
Definition _scheduledAnnounce (d : Destination) : list event :=
  [ScheduleAnnounce (announceGeneration d)].

(** ** Receiving and sending *)

Definition _provePacket (p : Packet) (d : Destination) : result (list event) :=
  match identity d, interfaceLayer d with
  | Some id, Some l =>
      let! (packetHash, _) := getHash sha256 p in
      let! signature := sign id packetHash in
      let proofData := if default true (useImplicitProof l) then signature
                       else packetHash ++ signature in
      Ok [Broadcast (new_Packet PacketType_PROOF DestType_SINGLE ContextType_NONE
                       (slice 0 16 packetHash) proofData)]
  | _, _ => Ok []
  end.

(** The plaintext of a DATA packet; a ring that another process persisted is
    loaded when the current one fails. *)
Definition open_data (loaded : result (option bytes)) (p : Packet) (d : Destination)
    : Destination * result (option bytes) :=
  match identity d with
  | Some id =>
      if negb (type d =? DestType_SINGLE) then (d, Ok (Some (payload p))) else
      let ring := privRing d in
      match Identity.decrypt id (payload p) ring with
      | Ok None =>
          match ring with
          | Some _ =>
              let '(d, ok) := _loadOwnedRatchets loaded d in
              match ratchets d with
              | Some reloaded =>
                  if ok then (d, Identity.decrypt id (payload p) (Some (map privateKey reloaded)))
                  else (d, Ok None)
              | None => (d, Ok None)
              end
          | None => (d, Ok None)
          end
      | r => (d, r)
      end
  | None => (d, Ok (Some (payload p)))
  end.

Definition _handleData (loaded : result (option bytes)) (p : Packet) (d : Destination)
    : Destination * result (list event) :=
  let '(d, opened) := open_data loaded p d in
  (d, let! plaintext := opened in
      match plaintext with
      | None => Ok []
      | Some m =>
          let proves := (packetType p =? PacketType_DATA) && (contextByte p =? ContextType_NONE)
            && (type d =? DestType_SINGLE)
            && match identity d with
               | Some id => match ed25519Priv id with Some _ => true | None => false end
               | None => false
               end
            && match interfaceLayer d with Some _ => true | None => false end in
          Ok (DataEvent m :: if proves then match _provePacket p d with
                                            | Ok evs => evs
                                            | Throw _ => []
                                            end
                             else [])
      end).

Definition receive (loaded : result (option bytes)) (p : Packet) (d : Destination)
    : Destination * result (list event) :=
  if packetType p =? PacketType_DATA then _handleData loaded p d
  else if packetType p =? PacketType_LINKREQUEST then (d, Ok [LinkRequest p])
  else (d, Ok []).

(** [encrypt] reads the newest ratchet known for this destination; [known] is
    the attached transport's map, if there is one. *)
Definition encrypt (now : Z) (eph iv : bytes) (known : option (jsmap KnownRatchet))
    (data : bytes) (d : Destination) : option (jsmap KnownRatchet) * result bytes :=
  match identity d with
  | None => (known, Throw (JsError "Destination requires an identity to encrypt."))
  | Some id =>
      match known, destinationHash d with
      | Some m, Some dh =>
          let '(r, m) := recallRatchetFrom now m dh in
          (Some m, Identity.encrypt eph iv id data r)
      | _, _ => (known, Identity.encrypt eph iv id data None)
      end
  end.

Definition decrypt (data : bytes) (d : Destination) : result (option bytes) :=
  match identity d with
  | None => Throw (JsError "Destination requires an identity to decrypt.")
  | Some id => Identity.decrypt id data (privRing d)
  end.

(** [send]: the packet handed to the transport. *)
Definition send (now : Z) (eph iv : bytes) (known : option (jsmap KnownRatchet)) (p : Packet)
    (d : Destination) : option (jsmap KnownRatchet) * result Packet :=
  match interfaceLayer d with
  | None => (known, Throw (JsError "Destination not bound to an RNS instance."))
  | Some _ =>
      let '(known, r) := encrypt now eph iv known (payload p) d in
      (known,
       let! encryptedPayload := r in
       Ok (mkPacket (headerType p) (hops p) (transportType p) (destinationType p) (packetType p)
             (contextFlag p) (Packet.destinationHash p) (contextByte p) encryptedPayload
             (transportId p) []))
  end.

(** ** Links and requests *)

(** [createLink] up to the await of [whenActive]. *)
Definition createLink (sent : bool) (x e : bytes) (hopsTo : option Z) (now : Z) (d : Destination)
    : result (Link * list Link.event * result unit) :=
  match direction d, interfaceLayer d with
  | IN, _ => Throw (JsError "Can only initiate links to OUT destinations.")
  | OUT, None => Throw (JsError "Destination not bound to an RNS instance.")
  | OUT, Some _ =>
      match destinationHash d with
      | Some dh => Link.initiate sent x e (identity d) dh hopsTo now
      | None => Throw (TypeError "destinationHash is null")
      end
  end.

Definition respondToLinkRequest (sent : bool) (x : bytes) (request : Packet) (now : Z)
    (d : Destination) : result (Link * list Link.event * result unit) :=
  match interfaceLayer d with
  | None => Throw (JsError "Destination not bound to an RNS instance with a transport.")
  | Some _ => Link.accept sent x (identity d) (destinationHash d) request now
  end.

Definition registerRequestHandler (path : jsstr) (allow : option Z) (allowedList : option (list bytes))
    (auto : option bool) (generator : value -> option bytes -> option Identity -> result Response) (d : Destination)
    : Destination * bytes :=
  let pathHash := truncatedHash (utf8_encode path) in
  (set_handlers d (mset (toHex pathHash)
     (mkHandler (default 1 allow) (default [] allowedList) (default false auto) generator) (requestHandlers d)), pathHash).

Definition removeRequestHandler (path : jsstr) (d : Destination) : Destination * bool :=
  let key := toHex (truncatedHash (utf8_encode path)) in
  (set_handlers d (mdelete key (requestHandlers d)), has key (requestHandlers d)).

(** [recallFrom] with [fromIdentityHash]: the first entry of that identity. *)
Fixpoint recall_by_identity (es : list KnownDestination) (targetHash : bytes) : option Identity :=
  match es with
  | [] => None
  | e :: es =>
      let identity := fromPublicKey (k_publicKey e) in
      if bytesEqual targetHash (identityHash identity)
      then Some (set_appData identity (default [] (k_appData e)))
      else recall_by_identity es targetHash
  end.

Definition recallFrom (known : jsmap KnownDestination) (targetHash : bytes) (fromIdentityHash : bool)
    : option Identity :=
  if fromIdentityHash then recall_by_identity (values known) targetHash
  else match get (toHex targetHash) known with
       | Some e => Some (set_appData (fromPublicKey (k_publicKey e)) (default [] (k_appData e)))
       | None => None
       end.

(** ** The ratchet ring *)

Definition ring (d : Destination) : list Ratchet := default [] (ratchets d).

(** An enabled ring. *)
Definition has_ring (d : Destination) : Prop := ratchetsEnabled d = true /\ ratchets d <> None.

(** Whether a call rotates. *)
Definition due (force : bool) (now : Z) (d : Destination) : bool :=
  force || (latestRatchetTime d + ratchetInterval d <? now).

Lemma rotate_spec force now priv d : has_ring d ->
  let d' := fst (rotateRatchets force now priv d) in
  has_ring d' /\ ratchetInterval d' = ratchetInterval d
  /\ ring d' = (if due force now d
               then take MAX_RATCHETS (mkRatchet priv (x25519_pub priv) :: ring d) else ring d)
  /\ latestRatchetTime d' = (if due force now d then now else latestRatchetTime d).
Proof.
  intros [He Hr]. unfold rotateRatchets, due, ring. destruct (ratchets d) as [rs|] eqn:Hrs; [|done].
  rewrite He. cbn [negb]. destruct force; cbn [negb andb orb].
  - cbn [fst]. repeat split; cbn; congruence.
  - destruct (now <=? _) eqn:E; bools.
    + rewrite (proj2 (Z.ltb_ge _ _)) by lia. cbn. rewrite Hrs. repeat split; congruence.
    + rewrite (proj2 (Z.ltb_lt _ _)) by lia. cbn [fst]. repeat split; cbn; congruence.
Qed.

(** Periodic calls at the given times, each with its fresh key. *)
Fixpoint rotations (calls : list (Z * bytes)) (d : Destination) : Destination :=
  match calls with
  | [] => d
  | (now, priv) :: calls => rotations calls (fst (rotateRatchets false now priv d))
  end.

Lemma take_app_take {A} n (a b : list A) : take n (a ++ take n b) = take n (a ++ b).
Proof. rewrite !take_app, take_take. do 2 f_equal. lia. Qed.

Lemma rotations_ring calls d :
  has_ring d -> (length (ring d) <= MAX_RATCHETS)%nat -> 0 <= ratchetInterval d ->
  exists fresh, let d' := rotations calls d in
    has_ring d' /\ ring d' = take MAX_RATCHETS (fresh ++ ring d)
    /\ latestRatchetTime d + Z.of_nat (length fresh) * ratchetInterval d <= latestRatchetTime d'
    /\ (fresh = [] /\ latestRatchetTime d' = latestRatchetTime d
        \/ exists now priv, In (now, priv) calls /\ latestRatchetTime d' = now).
Proof.
  revert d. induction calls as [|[now priv] calls IH]; intros d Hr Hl Hi.
  { exists []. cbn. split; [done|]. rewrite take_ge by done. split; [done|]. split; [lia|by left]. }
  cbn [rotations]. destruct (rotate_spec false now priv d Hr) as (Hr1 & Hi1 & Hring & Ht).
  set (d1 := fst (rotateRatchets false now priv d)) in *.
  destruct (due false now d) eqn:Hdue.
  - destruct (IH d1 Hr1) as (fresh & Hr2 & Hring2 & Ht2 & Hw).
    { rewrite Hring, length_take. lia. }
    { congruence. }
    exists (fresh ++ [mkRatchet priv (x25519_pub priv)]). split; [done|]. split.
    { rewrite Hring2, Hring, take_app_take, <- app_assoc. done. }
    rewrite Hi1, Ht in Ht2. unfold due in Hdue. cbn [orb] in Hdue. bools.
    split. { rewrite length_app. cbn [length]. nia. }
    right. destruct Hw as [[_ Hw]|(n & p & Hin & Hn)].
    + exists now, priv. split; [by left|congruence].
    + exists n, p. split; [by right|done].
  - destruct (IH d1 Hr1) as (fresh & Hr2 & Hring2 & Ht2 & Hw); [by rewrite Hring|congruence|].
    exists fresh. rewrite Hring in Hring2. rewrite Hi1, Ht in Ht2. split; [done|]. split; [done|].
    split; [done|]. destruct Hw as [[? ?]|(n & p & ? & ?)]; [left; split; congruence|].
    right. exists n, p. split; [by right|done].
Qed.

(** A ratchet that was announced stays usable: the private key at place
    [j] of the ring is still in it after any calls of [rotateRatchets] made
    within [(511 - j)] rotation intervals of the last rotation, whatever keys
    they draw; and the ring never exceeds 512 keys. *)
Theorem ratchet_retained calls d j r T
    (Hr : has_ring d) (Hl : (length (ring d) <= MAX_RATCHETS)%nat) (Hi : 0 < ratchetInterval d)
    (Hj : ring d !! j = Some r) (HT : forall now priv, In (now, priv) calls -> now <= T)
    (Hwin : T - latestRatchetTime d <= (511 - Z.of_nat j) * ratchetInterval d) :
  In r (ring (rotations calls d)) /\ (length (ring (rotations calls d)) <= MAX_RATCHETS)%nat.
Proof.
  destruct (rotations_ring calls d Hr Hl) as (fresh & _ & Hring & Ht & Hw); [lia|].
  rewrite Hring. split; [|rewrite length_take; lia].
  assert (Hf : (length fresh + j < 512)%nat).
  { pose proof (lookup_lt_Some _ _ _ Hj). unfold MAX_RATCHETS in Hl.
    destruct Hw as [[-> _]|(now & priv & Hin & Hn)]; [cbn; lia|].
    specialize (HT _ _ Hin). nia. }
  apply list_elem_of_In. apply (list_elem_of_lookup_2 _ (length fresh + j)%nat).
  rewrite lookup_take_lt by (unfold MAX_RATCHETS; lia). 
  rewrite lookup_app_r by lia. by replace (length fresh + j - length fresh)%nat with j by lia.
Qed.

End WithCrypto.

(** ** Witness *)

Import Toy.

Definition sample_self : Identity := generate (replicate 32 1) (replicate 32 2).
Definition sample_layer : Layer := mkLayer true None.
Definition sample_destination : Destination :=
  create (lit "app.aspect") IN DestType_SINGLE (Some sample_self) (Some sample_layer).

(** With two ratchets, the newest made at time 1000. *)
Definition sample_ring_destination : Destination :=
  set_ratchets sample_destination true
    (Some [mkRatchet (replicate 32 5) (x25519_pub (replicate 32 5));
           mkRatchet (replicate 32 4) (x25519_pub (replicate 32 4))]) 1000.

Lemma ratchet_retained_witness :
  let d := rotations [(2000000, replicate 32 6); (2000001, replicate 32 7); (4000000, replicate 32 8)]
             sample_ring_destination in
  In (mkRatchet (replicate 32 4) (x25519_pub (replicate 32 4))) (ring d)
  /\ (length (ring d) <= MAX_RATCHETS)%nat.
Proof.
  refine (ratchet_retained _ sample_ring_destination 1
            (mkRatchet (replicate 32 4) (x25519_pub (replicate 32 4))) 4000000 _ _ _ _ _ _).
  - split; [reflexivity|discriminate].
  - cbn. unfold MAX_RATCHETS. lia.
  - reflexivity.
  - reflexivity.
  - intros now priv [[= <- _]|[[= <- _]|[[= <- _]|[]]]]; lia.
  - vm_compute. discriminate.
Defined.
