(* ===== verification/DestinationSpec.v ===== *)
(** * DestinationSpec: the ring on disk and the announce schedule

    A persisted ring is restored by its owner and by nobody else, and a
    periodic announce never outlives its cadence. *)

From S2P Require Import Prelude Encoding JsMap Utf8 MsgPack MsgPackSpec Packet Crypto Identity.
From S2P Require Import Link Destination.

Definition wf_ratchet (r : Ratchet) : Prop :=
  length (privateKey r) = 32%nat /\ length (ratchetPub r) = 32%nat.

Definition ring_values (rs : list Ratchet) : list value :=
  map (fun r => VArr [VBin (privateKey r); VBin (ratchetPub r)]) rs.

Lemma parse_ring_values rs : Forall wf_ratchet rs -> parse_ring (ring_values rs) = Some rs.
Proof.
  induction 1 as [|[pr pu] rs [H1 H2] _ IH]; [done|]. unfold ring_values in *. cbn [map parse_ring].
  unfold parse_entry. cbn in H1, H2 |- *. rewrite H1, H2. cbn. by rewrite IH.
Qed.

Lemma parse_ring_wf vs rs : parse_ring vs = Some rs -> Forall wf_ratchet rs.
Proof.
  revert rs. induction vs as [|v vs IH]; intros rs; [by intros [= <-]|]. cbn [parse_ring].
  intros (r & Hr & (rs' & Hrs & [= <-])%bind_Some)%bind_Some. constructor; [|by apply IH].
  unfold parse_entry in Hr. repeat (case_match; try done). injection Hr as <-. bools. by split.
Qed.

(** ** The size of a packed ring *)

Lemma encode_binary_32 b : length b = 32%nat -> length (_encodeBinary b) = 34%nat.
Proof.
  intros Hb. unfold _encodeBinary, zlen. rewrite Hb. rewrite length_app, Hb. reflexivity.
Qed.

Lemma encode_pair a b : length a = 32%nat -> length b = 32%nat ->
  exists e, _encodeValue (VArr [VBin a; VBin b]) = Ok e /\ length e = 69%nat.
Proof.
  intros Ha Hb. rewrite encode_arr. cbn [encode_items _encodeValue rbind].
  eexists. split; [reflexivity|].
  rewrite !length_app, !encode_binary_32 by done. reflexivity.
Qed.

Lemma encode_ring rs : Forall wf_ratchet rs ->
  exists e, _encodeValue (VArr (ring_values rs)) = Ok e
    /\ (length e <= 5 + 69 * length rs)%nat.
Proof.
  intros Hw. rewrite encode_arr.
  assert (Hi : exists e, encode_items (ring_values rs) = Ok e /\ length e = (69 * length rs)%nat).
  { induction Hw as [|[pr pu] rs [H1 H2] _ (e & He & Hl)]; [by exists []|].
    cbn [ring_values map encode_items]. destruct (encode_pair pr pu H1 H2) as (e1 & He1 & Hl1).
    cbn [privateKey ratchetPub]. rewrite He1. unfold ring_values in He. rewrite He. cbn [rbind].
    eexists. split; [reflexivity|]. rewrite length_app, Hl1, Hl. cbn [length]. lia. }
  destruct Hi as (e & He & Hl). rewrite He. cbn [rbind]. eexists. split; [reflexivity|].
  rewrite length_app, Hl. unfold array_header. repeat case_match; cbn [length push16 push32]; lia.
Qed.

Lemma ring_canonical rs d : Forall wf_ratchet rs -> (length rs <= MAX_RATCHETS)%nat ->
  canonical (S (S d)) (VArr (ring_values rs)).
Proof.
  intros Hw Hl. apply canonical_arr.
  - unfold zlen, ring_values, MAX_RATCHETS in *. rewrite length_map. lia.
  - unfold ring_values. clear Hl. induction Hw as [|r rs [H1 H2] _ IH]; constructor; [|exact IH].
    apply canonical_arr; [reflexivity|].
    repeat constructor; apply canonical_atom; cbn; unfold zlen; lia.
Qed.

Section WithCrypto.
Context `{C : WebCrypto} `{H : JsHost} `{L : !WebCryptoLaws C}.

Lemma decode_encoded v e : canonical MAX_DEPTH v -> encode v = Ok e -> decode_body e = Ok v.
Proof.
  intros Hv He. destruct (encode_decode v Hv) as (e' & He' & Hd).
  rewrite He in He'. injection He' as <-. unfold decode_body. by rewrite Hd.
Qed.

Lemma blob_canonical sig packed : length sig = 64%nat -> zlen packed < 2 ^ 32 ->
  canonical MAX_DEPTH (VObj None [(lit "signature", VBin sig); (lit "ratchets", VBin packed)]).
Proof.
  intros Hs Hp. apply (canonical_obj 127); [reflexivity | split | |].
  - apply (bool_decide_unpack _). vm_compute. exact I.
  - repeat constructor.
  - repeat constructor; vm_compute; reflexivity.
  - repeat apply Forall_cons_2; try apply Forall_nil_2; cbn [snd]; apply canonical_atom; cbn [canonical].
    + unfold zlen. lia.
    + exact Hp.
Qed.

(** What the persisted blob of a well-formed ring reads back as. *)
Lemma encode_decode_ring d id rs :
  identity d = Some id -> wf_identity id -> ratchets d = Some rs ->
  Forall wf_ratchet rs -> (length rs <= MAX_RATCHETS)%nat ->
  exists blob, _encodeOwnedRatchets d = Ok blob /\ decode_ring id blob = Some rs.
Proof.
  intros Hid Hwi Hrs Hw Hl. unfold _encodeOwnedRatchets. rewrite Hid, Hrs.
  destruct (encode_ring rs Hw) as (packed & Hp & Hlen). fold (ring_values rs).
  assert (Hlen' : zlen packed < 2 ^ 32) by (unfold zlen, MAX_RATCHETS in *; lia).
  change (encode (VArr (ring_values rs))) with (_encodeValue (VArr (ring_values rs))). rewrite Hp.
  cbn [rbind]. destruct (sign_validate id packed Hwi) as (sig & Hsig & Hls & Hval & _).
  rewrite Hsig. cbn [rbind].
  pose proof (blob_canonical sig packed Hls Hlen') as Hc.
  destruct (encode_decode _ Hc) as (blob & Hb & _). exists blob. split; [exact Hb|].
  unfold decode_ring. rewrite (decode_encoded _ _ Hc Hb).
  change (prop (lit "signature") _) with (Some (VBin sig)).
  change (prop (lit "ratchets") _) with (Some (VBin packed)). cbn match. rewrite Hval. cbn [negb].
  rewrite (decode_encoded (VArr (ring_values rs)) packed); [by apply parse_ring_values| |exact Hp].
  by apply (ring_canonical rs 126).
Qed.

(** [blob] holds the ring [rs], packed and signed by [id]. *)
Definition signed_ring (id : Identity) (blob : bytes) (rs : list Ratchet) : Prop :=
  exists data signature packed vs,
    decode_body blob = Ok data
    /\ prop (lit "signature") data = Some (VBin signature)
    /\ prop (lit "ratchets") data = Some (VBin packed)
    /\ validate id signature packed = true
    /\ decode_body packed = Ok (VArr vs) /\ parse_ring vs = Some rs.

Lemma decode_ring_signed id blob rs : decode_ring id blob = Some rs -> signed_ring id blob rs.
Proof.
  unfold decode_ring, signed_ring. intros Hd. repeat (case_match; try done).
  eexists _, _, _, _. repeat split; eauto. by bools.
Qed.

(** The ring on disk: what a destination persists after a rotation is
    restored, key for key and without a new rotation, when the destination is
    made again from the same identity; and whatever bytes the storage returns,
    a ring is taken from them only if the destination's own identity signed it
    and all its keys have 32 bytes. *)
Theorem owned_ratchets_restored d id dh rs l now priv d2
    (Hid : identity d = Some id) (Hwi : wf_identity id) (Hdh : destinationHash d = Some dh)
    (Hl : interfaceLayer d = Some l) (Hs : storage l = true) (Hrs : ratchets d = Some rs)
    (Hw : Forall wf_ratchet rs) (Hlen : (0 < length rs <= MAX_RATCHETS)%nat)
    (Hid2 : identity d2 = Some id) (Hdh2 : destinationHash d2 = Some dh)
    (Hl2 : interfaceLayer d2 = Some l) (He2 : ratchetsEnabled d2 = false) :
  (exists blob, _persistOwnedRatchets d = [SaveRatchets (toHex dh) blob]
     /\ enableRatchets now priv (Ok (Some blob)) d2
        = Ok (set_ratchets d2 true (Some rs) (latestRatchetTime d2), []))
  /\ (forall loaded, let '(d3, ok) := _loadOwnedRatchets loaded d2 in
       d3 = d2 /\ ok = false
       \/ exists blob rs', ok = true /\ loaded = Ok (Some blob) /\ signed_ring id blob rs'
            /\ d3 = set_ratchets d2 (ratchetsEnabled d2) (Some rs') (latestRatchetTime d2)
            /\ Forall wf_ratchet rs').
Proof.
  split.
  - destruct (encode_decode_ring d id rs) as (blob & Hb & Hdec); [done..|lia|].
    exists blob. unfold _persistOwnedRatchets. rewrite Hl, Hdh, Hrs, Hs, Hb. split; [done|].
    unfold enableRatchets. rewrite He2, Hid2. unfold _loadOwnedRatchets.
    cbn [interfaceLayer destinationHash identity set_ratchets]. rewrite Hl2, Hdh2, Hid2, Hs, Hdec.
    cbn. by destruct rs; [cbn in Hlen; lia|].
  - intros loaded. unfold _loadOwnedRatchets. rewrite Hl2, Hdh2, Hid2, Hs. cbn [negb].
    destruct loaded as [[blob|]|]; [|by left..].
    destruct (decode_ring id blob) as [rs'|] eqn:Hd; [|by left].
    right. exists blob, rs'. pose proof (decode_ring_signed _ _ _ Hd) as Hsig.
    repeat split; [done|]. destruct Hsig as (? & ? & ? & vs & _ & _ & _ & _ & _ & Hp).
    by eapply parse_ring_wf.
Qed.

(** ** The announce schedule

    A periodic announce is in flight from its tick, which captures the
    generation, to the check right before the broadcast; the destination can
    be restarted or stopped in between. *)
Record Sched := mkSched {
  dest : Destination;
  inflight : list (nat * Packet);
}.

Inductive sop :=
| Start (intervalMs : option Z) (now : Z) (random priv : bytes)
| Stop
| Tick (now : Z) (random priv : bytes)
| Finish (k : nat).

(** [_scheduledAnnounce] up to its await; a failure is logged. *)
Definition launch (now : Z) (random priv : bytes) (d : Destination) (fl : list (nat * Packet)) : Sched :=
  match emit_begin now random priv ContextType_NONE None d with
  | (d', _, Ok p) => mkSched d' (fl ++ [(announceGeneration d, p)])
  | (d', _, Throw _) => mkSched d' fl
  end.

Definition sstep (o : sop) (s : Sched) : Sched * list event :=
  match o with
  | Start i now random priv =>
      match startAnnouncing i (dest s) with
      | Throw _ => (s, [])
      | Ok (d, []) => (mkSched d (inflight s), [])
      | Ok (d, _) => (launch now random priv d (inflight s), [])
      end
  | Stop => (mkSched (stopAnnouncing (dest s)) (inflight s), [])
  | Tick now random priv =>
      match announceTimer (dest s) with
      | Some _ => (launch now random priv (dest s) (inflight s), [])
      | None => (s, [])
      end
  | Finish k =>
      match inflight s !! k with
      | Some (g, p) => (mkSched (dest s) (delete k (inflight s)),
                        emit_end (Some g) ContextType_NONE p (dest s))
      | None => (s, [])
      end
  end.

Fixpoint srun (ops : list sop) (s : Sched) : Sched * list event :=
  match ops with
  | [] => (s, [])
  | o :: ops => let '(s1, e1) := sstep o s in let '(s2, e2) := srun ops s1 in (s2, e1 ++ e2)
  end.

Definition same_schedule (d d' : Destination) : Prop :=
  announceTimer d' = announceTimer d /\ announceGeneration d' = announceGeneration d.

Lemma rotate_schedule force now priv d : same_schedule d (fst (rotateRatchets force now priv d)).
Proof. unfold rotateRatchets. by repeat case_match. Qed.

Lemma current_schedule now priv d : same_schedule d (fst (fst (_currentRatchetForAnnounce now priv d))).
Proof.
  unfold _currentRatchetForAnnounce. case_match; [done|].
  pose proof (rotate_schedule false now priv d). by destruct (rotateRatchets false now priv d).
Qed.

Lemma build_schedule now random priv id dh nh d :
  same_schedule d (fst (fst (build_payload now random priv id dh nh d))).
Proof.
  unfold build_payload. case_match; [done|]. destruct (createAnnounceRandomHash _ _); [|done].
  pose proof (current_schedule now priv d) as Hc.
  by destruct (_currentRatchetForAnnounce now priv d) as [[d' evs] rb].
Qed.

Lemma emit_begin_schedule now random priv ctx tag d :
  same_schedule d (fst (fst (emit_begin now random priv ctx tag d))).
Proof.
  unfold emit_begin. repeat (case_match; [done|]); try done.
  destruct (interfaceLayer d), (identity d) as [id|], (destinationHash d) as [dh|], (nameHash d) as [nh|];
    try done.
  set (key := tag_key ctx tag).
  set (d1 := match key with
             | Some _ => set_responses d (_prunePathResponses now (pathResponses d))
             | None => d
             end).
  assert (H1 : same_schedule d d1) by by destruct key.
  destruct (k ← key; get k (pathResponses d1)) as [c|]; [exact H1|].
  pose proof (build_schedule now random priv id dh nh d1) as H2.
  destruct (build_payload now random priv id dh nh d1) as [[d2 evs] [[payload hr]|e]]; cbn [fst] in *;
    destruct H1, H2; split; try (destruct key; cbn); congruence.
Qed.

(** Announces in flight carry generations that were current; none of them is
    current once the loop is stopped. *)
Definition sched_inv (s : Sched) : Prop :=
  forall g p, In (g, p) (inflight s) ->
    (g <= announceGeneration (dest s))%nat
    /\ (announceTimer (dest s) = None -> (g < announceGeneration (dest s))%nat).

Lemma launch_spec now random priv d fl :
  same_schedule d (dest (launch now random priv d fl))
  /\ forall g p, In (g, p) (inflight (launch now random priv d fl)) ->
       In (g, p) fl \/ g = announceGeneration d.
Proof.
  unfold launch. pose proof (emit_begin_schedule now random priv ContextType_NONE None d) as Hs.
  destruct (emit_begin _ _ _ _ _ d) as [[d' evs] [q|e]]; cbn [fst dest inflight] in *.
  - split; [done|]. intros g p [?|[[= <- <-]|[]]]%in_app_or; auto.
  - auto.
Qed.

(** What a step does to the generation and to the announces in flight. *)
Lemma sstep_spec o s : sched_inv s ->
  sched_inv (fst (sstep o s))
  /\ (announceGeneration (dest s) <= announceGeneration (dest (fst (sstep o s))))%nat.
Proof.
  intros Hi. destruct o as [i now random priv| |now random priv|k]; cbn [sstep].
  - unfold startAnnouncing. destruct (identity (dest s)); [|by split].
    destruct (interfaceLayer (dest s)); [|by split]. cbv zeta. unfold isAnnouncing.
    set (d1 := set_schedule _ _ _ _).
    assert (Hg : announceGeneration d1 = S (announceGeneration (dest s))) by done.
    assert (Ht : announceTimer d1 <> None) by done.
    destruct (announceTimer (dest s)); cbn [fst].
    + split; [|cbn [dest]; lia]. intros g p Hin. cbn [dest inflight] in *.
      destruct (Hi g p Hin). split; [lia|done].
    + destruct (launch_spec now random priv d1 (inflight s)) as ([Ht1 Hg1] & Hin).
      split; [|rewrite Hg1; lia]. intros g p Hp. rewrite Hg1, Ht1.
      destruct (Hin g p Hp) as [Hp'| ->]; [destruct (Hi g p Hp')|]; (split; [lia|done]).
  - unfold stopAnnouncing. cbn [fst]. destruct (announceTimer (dest s)) eqn:E; cbn [dest].
    + split; [|cbn; lia]. intros g p Hin. destruct (Hi g p Hin). cbn. split; lia.
    + split; [exact Hi|lia].
  - destruct (announceTimer (dest s)) eqn:E; cbn [fst]; [|by split].
    destruct (launch_spec now random priv (dest s) (inflight s)) as ([Ht1 Hg1] & Hin).
    split; [|by rewrite Hg1]. intros g p Hp. rewrite Hg1, Ht1, E.
    destruct (Hin g p Hp) as [Hp'| ->]; [destruct (Hi g p Hp')|]; (split; [lia|done]).
  - destruct (inflight s !! k) as [[g p]|]; cbn [fst]; [|by split].
    split; [|done]. intros g' p' Hin. cbn [dest inflight] in *. apply (Hi g' p').
    apply list_elem_of_In in Hin. apply list_elem_of_In. rewrite delete_take_drop in Hin.
    apply elem_of_app in Hin as [Hin|Hin].
    + rewrite <- (take_drop k (inflight s)). apply elem_of_app. by left.
    + rewrite <- (take_drop (S k) (inflight s)). apply elem_of_app. by right.
Qed.

Lemma srun_spec ops s : sched_inv s ->
  sched_inv (fst (srun ops s))
  /\ (announceGeneration (dest s) <= announceGeneration (dest (fst (srun ops s))))%nat.
Proof.
  revert s. induction ops as [|o ops IH]; intros s Hi; cbn [srun]; [by split|].
  destruct (sstep_spec o s Hi) as [Hi1 Hg1]. destruct (sstep o s) as [s1 e1]. cbn [fst] in *.
  destruct (IH s1 Hi1) as [Hi2 Hg2]. destruct (srun ops s1) as [s2 e2]. cbn [fst] in *. split; [done|lia].
Qed.

Definition is_start (o : sop) : bool := match o with Start _ _ _ _ => true | _ => false end.

Lemma silent_step o s : sched_inv s -> announceTimer (dest s) = None -> is_start o = false ->
  announceTimer (dest (fst (sstep o s))) = None /\ snd (sstep o s) = [].
Proof.
  intros Hi Ht Ho. destruct o as [| |now random priv|k]; cbn [sstep]; [done| | |].
  - unfold stopAnnouncing. rewrite Ht. done.
  - by rewrite Ht.
  - destruct (inflight s !! k) as [[g p]|] eqn:Hk; [|done]. cbn [fst snd dest]. split; [done|].
    unfold emit_end. destruct (Hi g p) as [_ Hlt].
    { apply list_elem_of_In. by eapply list_elem_of_lookup_2. }
    specialize (Hlt Ht). destruct (g =? announceGeneration (dest s))%nat eqn:E; [bools; lia|done].
Qed.

(** No straggler: however starts, stops, ticks and unfinished announces
    interleave, (1) while the loop is stopped nothing it began goes on air, and
    (2) an announce in flight when the cadence is restarted, or stopped while
    it runs, is never broadcast afterwards. *)
Theorem no_straggler d pre post
    (Hd : announceTimer d = None) (s := fst (srun pre (mkSched d []))) :
  (announceTimer (dest s) = None -> forallb (fun o => negb (is_start o)) post = true ->
     snd (srun post s) = [])
  /\ (forall g p o, In (g, p) (inflight s) ->
        match o with
        | Start i _ _ _ => exists r, startAnnouncing i (dest s) = Ok r
        | Stop => announceTimer (dest s) <> None
        | _ => False
        end ->
        let s' := fst (srun post (fst (sstep o s))) in
        emit_end (Some g) ContextType_NONE p (dest s') = []).
Proof.
  assert (Hi : sched_inv s) by (apply srun_spec; intros ? ? []). clearbody s. split.
  - revert s Hi. induction post as [|o post IH]; intros s Hi Ht Ho; [done|].
    cbn [forallb] in Ho. bools. cbn [srun].
    destruct (silent_step o s Hi Ht) as [Ht1 He1]; [done|]. destruct (sstep_spec o s Hi) as [Hi1 _].
    destruct (sstep o s) as [s1 e1]. cbn [fst snd] in *. specialize (IH s1 Hi1 Ht1).
    destruct (srun post s1) as [s2 e2]. cbn [snd] in *. subst e1. rewrite IH; done.
  - intros g p o Hin Ho s'. destruct (Hi g p Hin) as [Hg _].
    assert (Hg1 : (announceGeneration (dest s) < announceGeneration (dest (fst (sstep o s))))%nat).
    { destruct o as [i now random priv| | |]; try done; cbn [sstep].
      - destruct Ho as [r Hr]. unfold startAnnouncing in *.
        destruct (identity (dest s)); [|done]. destruct (interfaceLayer (dest s)); [|done].
        cbv zeta. destruct (isAnnouncing (dest s)); cbn [fst dest]; [cbn; lia|].
        match goal with |- context [launch ?a ?b ?c ?e ?f] =>
          destruct (launch_spec a b c e f) as [[_ ->] _] end. cbn. lia.
      - unfold stopAnnouncing. destruct (announceTimer (dest s)); [cbn; lia|done]. }
    destruct (sstep_spec o s Hi) as [Hi1 _]. destruct (srun_spec post _ Hi1) as [_ Hg2].
    unfold emit_end. subst s'. destruct (_ =? _)%nat eqn:E; [bools; lia|done].
Qed.
End WithCrypto.

(** ** Witnesses *)

Import Toy MsgPackSpec.Host.

Lemma owned_ratchets_restored_witness :
  exists blob, _persistOwnedRatchets sample_ring_destination
      = [SaveRatchets (toHex (default [] (destinationHash sample_destination))) blob]
    /\ enableRatchets 2000 (replicate 32 8) (Ok (Some blob)) sample_destination
       = Ok (set_ratchets sample_destination true (ratchets sample_ring_destination) 0, []).
Proof.
  refine (proj1 (owned_ratchets_restored sample_ring_destination sample_self
    (default [] (destinationHash sample_destination)) (ring sample_ring_destination) sample_layer
    2000 (replicate 32 8) sample_destination _ _ _ _ _ _ _ _ _ _ _ _)).
  all: lazymatch goal with |- _ = _ => vm_compute; reflexivity | _ => idtac end.
  - apply generate_wf.
  - repeat apply Forall_cons_2; try apply Forall_nil_2; split; vm_compute; reflexivity.
  - vm_compute. lia.
Defined.

Lemma no_straggler_witness :
  let s := fst (srun [Start (Some 1000) 5000000 (replicate 16 1) (replicate 32 9); Stop]
                  (mkSched sample_destination [])) in
  length (inflight s) = 1%nat /\ snd (srun [Tick 6000000 [] []; Finish 0] s) = [].
Proof.
  split; [vm_compute; reflexivity|].
  refine (proj1 (no_straggler sample_destination
    [Start (Some 1000) 5000000 (replicate 16 1) (replicate 32 9); Stop]
    [Tick 6000000 [] []; Finish 0] _) _ _); vm_compute; reflexivity.
Defined.
