(* ===== verification/Transport.v ===== *)
(** * Transport: the routing core of a leaf node
    (packages/core/src/transport/transport.js)

    The state of a [TransportCore] with its interfaces, bound destinations,
    caches and path table, and its handlers.  A handler runs to its end in one
    step, and that of an announce is also given in the pieces between its
    awaits ([announce_open], [announce_check], [learn], [ingest]); what a
    handler does outside the transport is a list of events.  Times are
    milliseconds; the interfaces' ingress control takes microseconds.  The
    outgoing-frequency samples of the interfaces (statistics only) and log
    messages are left out. *)

From Stdlib Require Import QArith Qround.
From S2P Require Import Prelude Encoding JsMap Utf8 MsgPack Crypto Identity Link Interface.
From S2P Require Import Router Receipt Destination Packet.
#[local] Open Scope Z_scope.

Definition MTU : nat := 500.
Definition DEFAULT_PER_HOP_TIMEOUT_SECS : Z := 6.
Definition MINIMUM_BITRATE : Z := 5.
Definition PATH_REQUEST_MIN_INTERVAL_MS : Z := 20 * 1000.
Definition PATH_REQUEST_GATE_TIMEOUT_MS : Z := 120 * 1000.
Definition PATH_REQUEST_APP_NAME : jsstr := lit "rnstransport.path.request".

(** An interface as the transport sees it.  [port_writer]: it holds a live
    packet writer; [port_parent]: the interface that spawned it. *)
Record Port := mkPort {
  port_iface : Iface;
  bitrate : option Z;
  online : bool;
  port_writer : bool;
  ingress : Ingress;
  port_parent : option nat;
  prBurstDrops : nat;
  protocolViolations : nat;
  packetFilterHits : nat;
}.

Definition set_ingress (p : Port) (g : Ingress) : Port :=
  mkPort (port_iface p) (bitrate p) (online p) (port_writer p) g (port_parent p)
    (prBurstDrops p) (protocolViolations p) (packetFilterHits p).
Definition set_writer (p : Port) (w : bool) : Port :=
  mkPort (port_iface p) (bitrate p) (online p) w (ingress p) (port_parent p)
    (prBurstDrops p) (protocolViolations p) (packetFilterHits p).
Definition add_counts (p : Port) (drops violations hits : nat) : Port :=
  mkPort (port_iface p) (bitrate p) (online p) (port_writer p) (ingress p) (port_parent p)
    (prBurstDrops p + drops) (protocolViolations p + violations) (packetFilterHits p + hits).

(** identity-cache.js *)
Record IdentityCache := mkCache {
  knownDestinations : jsmap KnownDestination;
  knownRatchets : jsmap KnownRatchet;
  registry : Registry;
}.

(** All interface objects by number; the attached ones in iteration order. *)
Record Net := mkNet {
  ports : list Port;
  interfaces : list nat;
  defaultInterface : option nat;
}.

Record Hashlist := mkHashlist {
  packetHashlist : gset jsstr;
  packetHashlistPrev : gset jsstr;
  hashlistMaxsize : Z;
}.

(** [discoveryPrTags] is a Set in insertion order. *)
Record PathRequests := mkPathRequests {
  discoveryPrTags : list jsstr;
  maxPrTags : Z;
  pathRequests : jsmap Z;
  inflightPathRequests : jsmap Z;
}.

(** A link as far as the transport looks into it. *)
Record LinkRef := mkLinkRef { attachedInterface : option nat }.

Record TransportCore := mkCore {
  caches : IdentityCache;
  net : Net;
  localDestinations : jsmap Destination;
  activeLinks : jsmap LinkRef;
  pathTable : jsmap Route;
  hashlist : Hashlist;
  prs : PathRequests;
  sweepTimer : bool;
}.

Inductive event :=
| Write (i : nat) (p : Packet)              (* iface._packetWriter.write *)
| LinkReceive (key : jsstr) (p : Packet) (i : nat)
| LinkSend (key : jsstr) (p : Packet)
| DestinationEvent (key : jsstr) (e : Destination.event)
| AnnounceEvent (dest : bytes) (v : AnnounceValidation) (p : Packet)
| ReceiptEvent (e : Receipt.event)
| MarkContacted (dest : bytes).

(** What a step draws from outside: the clock, fresh random bytes, a fresh
    ratchet key and what the storage adapter returns. *)
Record Env := mkEnv {
  now : Z;
  random : bytes;
  freshKey : bytes;
  loaded : result (option bytes);
}.

Definition set_caches (s : TransportCore) (c : IdentityCache) : TransportCore :=
  mkCore c (net s) (localDestinations s) (activeLinks s) (pathTable s) (hashlist s) (prs s)
    (sweepTimer s).
Definition set_net (s : TransportCore) (n : Net) : TransportCore :=
  mkCore (caches s) n (localDestinations s) (activeLinks s) (pathTable s) (hashlist s) (prs s)
    (sweepTimer s).
Definition set_locals (s : TransportCore) (m : jsmap Destination) : TransportCore :=
  mkCore (caches s) (net s) m (activeLinks s) (pathTable s) (hashlist s) (prs s) (sweepTimer s).
Definition set_links (s : TransportCore) (m : jsmap LinkRef) : TransportCore :=
  mkCore (caches s) (net s) (localDestinations s) m (pathTable s) (hashlist s) (prs s)
    (sweepTimer s).
Definition set_paths (s : TransportCore) (m : jsmap Route) : TransportCore :=
  mkCore (caches s) (net s) (localDestinations s) (activeLinks s) m (hashlist s) (prs s)
    (sweepTimer s).
Definition set_hashlist (s : TransportCore) (h : Hashlist) : TransportCore :=
  mkCore (caches s) (net s) (localDestinations s) (activeLinks s) (pathTable s) h (prs s)
    (sweepTimer s).
Definition set_prs (s : TransportCore) (p : PathRequests) (timer : bool) : TransportCore :=
  mkCore (caches s) (net s) (localDestinations s) (activeLinks s) (pathTable s) (hashlist s) p timer.
Definition set_registry (s : TransportCore) (w : Registry) : TransportCore :=
  set_caches s (mkCache (knownDestinations (caches s)) (knownRatchets (caches s)) w).

Definition new_TransportCore : TransportCore :=
  mkCore (mkCache [] [] empty_registry) (mkNet [] [] None) [] [] []
    (mkHashlist ∅ ∅ 1000000) (mkPathRequests [] 32000 [] []) false.

(** ** Interfaces *)

Definition port (s : TransportCore) (i : nat) : option Port := ports (net s) !! i.

Definition update_port (i : nat) (f : Port -> Port) (s : TransportCore) : TransportCore :=
  set_net s (mkNet (alter f i (ports (net s))) (interfaces (net s)) (defaultInterface (net s))).

Definition set_interfaces (s : TransportCore) (l : list nat) (d : option nat) : TransportCore :=
  set_net s (mkNet (ports (net s)) l d).

Definition protocolViolation (i : nat) (s : TransportCore) : TransportCore :=
  update_port i (fun p => add_counts p 0 1 0) s.

Definition packetFilterHit (i : nat) (s : TransportCore) : TransportCore :=
  update_port i (fun p => add_counts p 0 0 1) s.

Definition us (ms : Z) : Z := ms * 1000.

(** A sample on the interface and on the one that spawned it. *)
Definition sample (f : Ingress -> Ingress) (i : nat) (s : TransportCore) : TransportCore :=
  let bump := update_port in
  let s' := bump i (fun p => set_ingress p (f (ingress p))) s in
  match q ← port s i; port_parent q with
  | Some j => bump j (fun p => set_ingress p (f (ingress p))) s'
  | None => s'
  end.

Definition has_writer (s : TransportCore) (i : option nat) : bool :=
  match j ← i; port s j with Some p => port_writer p | None => false end.

(** The bitrate as a sort key: [-Infinity] ([None]) unless positive. *)
Definition rank (s : TransportCore) (i : nat) : option Z :=
  match p ← port s i; bitrate p with
  | Some b => if 0 <? b then Some b else None
  | None => None
  end.

(** [sort] is stable and descending. *)
Definition ranks_before (a b : option Z) : bool :=
  match a, b with
  | Some a, Some b => b <=? a
  | Some _, None => true
  | None, None => true
  | None, Some _ => false
  end.

Fixpoint insert_ranked (s : TransportCore) (i : nat) (l : list nat) : list nat :=
  match l with
  | [] => [i]
  | j :: l => if ranks_before (rank s i) (rank s j) then i :: j :: l
              else j :: insert_ranked s i l
  end.

Definition prioritizeInterfaces (s : TransportCore) : TransportCore :=
  set_interfaces s (foldr (insert_ranked s) [] (interfaces (net s))) (defaultInterface (net s)).

(** [refreshPacketWriter], run at the start and on each [connected] event;
    [writable]: the interface has a byte stream. *)
Definition refreshPacketWriter (i : nat) (writable : bool) (s : TransportCore) : TransportCore :=
  if writable then update_port i (fun p => set_writer p true) s else s.

Definition addInterface (i : nat) (isDefault writable : bool) (s : TransportCore) : TransportCore :=
  let l := if bool_decide (i ∈ interfaces (net s)) then interfaces (net s)
           else interfaces (net s) ++ [i] in
  let s := set_interfaces s l (if isDefault then Some i else defaultInterface (net s)) in
  prioritizeInterfaces (refreshPacketWriter i writable s).

(** ** The path table of this transport *)

(** The resolver set in the constructor searches the attached interfaces. *)
Definition resolve_name (s : TransportCore) (n : jsstr) : option Iface :=
  head (filter (fun f => Router.name f = n) (omap (fun i => port_iface <$> port s i) (interfaces (net s)))).

Definition table (s : TransportCore) : RoutingTable :=
  mkTable (pathTable s) (Some (resolve_name s)).

Definition on_table {A} (f : RoutingTable -> A * RoutingTable) (s : TransportCore)
    : A * TransportCore :=
  let '(a, t) := f (table s) in (a, set_paths s (routes t)).

Definition removeInterface (i : nat) (s : TransportCore) : TransportCore :=
  match port s i with
  | None => s
  | Some p =>
      let s' := set_interfaces s (filter (fun j => j <> i) (interfaces (net s)))
                  (if bool_decide (defaultInterface (net s) = Some i) then None
                   else defaultInterface (net s)) in
      prioritizeInterfaces (set_paths s' (routes (dropInterface (port_iface p) (table s))))
  end.

Definition getRoute (E : Env) (dest : bytes) : TransportCore -> option Route * TransportCore :=
  on_table (Router.getRoute (now E) dest).
Definition hasPath (E : Env) (dest : bytes) : TransportCore -> bool * TransportCore :=
  on_table (hasRoute (now E) dest).
Definition markPathResponsive (dest : bytes) (s : TransportCore) : TransportCore :=
  snd (on_table (markState dest RESPONSIVE) s).
Definition markPathUnresponsive (dest : bytes) (s : TransportCore) : TransportCore :=
  snd (on_table (markState dest UNRESPONSIVE) s).
Definition expirePath (dest : bytes) (s : TransportCore) : TransportCore :=
  snd (on_table (expireRoute dest) s).

Definition hopsTo (E : Env) (dest : bytes) (s : TransportCore) : option Z * TransportCore :=
  let '(r, s) := getRoute E dest s in (Router.hops <$> r, s).
Definition nextHopTo (E : Env) (dest : bytes) (s : TransportCore) : option bytes * TransportCore :=
  let '(r, s) := getRoute E dest s in (nextHop <$> r, s).

(** ** Timeouts, in seconds *)

(** A bitrate counts when it is truthy. *)
Definition truthy_bitrate (b : option Z) : option Z :=
  match b with Some 0 => None | b => b end.

Definition medium_wait (b : Z) : Q := inject_Z (Z.of_nat MTU * 8) / inject_Z b.

Definition firstHopTimeout (E : Env) (dest : bytes) (s : TransportCore) : Q * TransportCore :=
  let '(r, s) := getRoute E dest s in
  let b := r ← r; f ← interface r; p ← port s (iface_id f); bitrate p in
  (match truthy_bitrate b with
   | None => inject_Z DEFAULT_PER_HOP_TIMEOUT_SECS
   | Some b => medium_wait b + inject_Z DEFAULT_PER_HOP_TIMEOUT_SECS
   end, s)%Q.

Definition establishmentTimeout (E : Env) (dest : bytes) (s : TransportCore) : Q * TransportCore :=
  let '(h, s) := hopsTo E dest s in
  let '(t, s) := firstHopTimeout E dest s in
  ((t + inject_Z (DEFAULT_PER_HOP_TIMEOUT_SECS * Z.max 1 (default 1%Z h))%Z)%Q, s).

Definition extraLinkProofTimeout (b : option Z) : Q :=
  match truthy_bitrate b with None => 0 | Some b => medium_wait b end.

Definition lowestInterfaceBitrate (s : TransportCore) : option Z :=
  fold_left (fun m i =>
    match port s i with
    | Some p =>
        match bitrate p with
        | Some b => if online p && (0 <? b) && match m with Some m => b <? m | None => true end
                    then Some b else m
        | None => m
        end
    | None => m
    end) (interfaces (net s)) None.

Definition mediumPathTimeout (s : TransportCore) : Q :=
  match lowestInterfaceBitrate s with
  | None => 0
  | Some lowest => 2 * medium_wait (Z.max lowest MINIMUM_BITRATE)
                   + inject_Z DEFAULT_PER_HOP_TIMEOUT_SECS
  end%Q.

(** ** Links and destinations *)

Definition addLink (dest : bytes) (l : LinkRef) (s : TransportCore) : TransportCore :=
  set_links s (mset (toHex dest) l (activeLinks s)).
Definition removeLink (dest : bytes) (s : TransportCore) : TransportCore :=
  set_links s (mdelete (toHex dest) (activeLinks s)).

Definition bindLocalDestination (d : Destination) (s : TransportCore) : TransportCore :=
  match Destination.destinationHash d with
  | Some h => set_locals s (mset (toHex h) d (localDestinations s))
  | None => s
  end.
Definition unbindLocalDestination (d : Destination) (s : TransportCore) : TransportCore :=
  match Destination.destinationHash d with
  | Some h => set_locals s (mdelete (toHex h) (localDestinations s))
  | None => s
  end.

(** ** Sending on interfaces *)

Definition broadcast (p : Packet) (source : option nat) (s : TransportCore) : list event :=
  map (fun i => Write i p)
    (filter (fun i => source <> Some i /\ has_writer s (Some i) = true) (interfaces (net s))).

Definition _transmit (i : option nat) (p : Packet) (s : TransportCore) : result (list event) :=
  match i with
  | Some j => if has_writer s i then Ok [Write j p]
              else Throw (JsError "Interface has no packet writer")
  | None => Throw (JsError "Interface has no packet writer")
  end.

(** What a destination emits: its broadcasts go on air, the rest is for its
    own listeners. *)
Definition dispatch (key : jsstr) (evs : list Destination.event) (s : TransportCore) : list event :=
  flat_map (fun e => match e with
                     | Broadcast p => broadcast p None s
                     | e => [DestinationEvent key e]
                     end) evs.

Definition _ensureSweep (s : TransportCore) : TransportCore := set_prs s (prs s) true.

Section WithCrypto.
Context `{C : WebCrypto} `{H : JsHost}.

(** ** Caches *)

Definition rememberIdentity (E : Env) (packetHash dest publicKey : bytes) (app : option bytes)
    (s : TransportCore) : TransportCore :=
  set_caches s (mkCache (rememberInto (now E) (knownDestinations (caches s)) packetHash dest
                           publicKey app)
                  (knownRatchets (caches s)) (registry (caches s))).

Definition rememberRatchet (E : Env) (dest r : bytes) (s : TransportCore) : TransportCore :=
  set_caches s (mkCache (knownDestinations (caches s))
                  (rememberRatchetInto (now E) (knownRatchets (caches s)) dest r)
                  (registry (caches s))).

Definition recallIdentity (s : TransportCore) (dest : bytes) : option Identity :=
  recallFrom (knownDestinations (caches s)) dest false.

Definition recallRatchet (E : Env) (dest : bytes) (s : TransportCore) : option bytes * TransportCore :=
  let '(r, m) := recallRatchetFrom (now E) (knownRatchets (caches s)) dest in
  (r, set_caches s (mkCache (knownDestinations (caches s)) m (registry (caches s)))).

(** ** Duplicates *)

Definition dedup_exempt (ctx : Z) : bool :=
  existsb (Z.eqb ctx) [ContextType_KEEPALIVE; ContextType_RESOURCE; ContextType_RESOURCE_REQ;
                       ContextType_RESOURCE_PRF; ContextType_CACHE_REQUEST; ContextType_CHANNEL].

(** The two-set ring after a new hash. *)
Definition remember_hash (h : jsstr) (l : Hashlist) : Hashlist :=
  let cur := {[ h ]} ∪ packetHashlist l in
  if hashlistMaxsize l <? 2 * Z.of_nat (base.size cur)
  then mkHashlist ∅ cur (hashlistMaxsize l)
  else mkHashlist cur (packetHashlistPrev l) (hashlistMaxsize l).

Definition seen_hash (h : jsstr) (l : Hashlist) : bool :=
  bool_decide (h ∈ packetHashlist l) || bool_decide (h ∈ packetHashlistPrev l).

Definition _isDuplicate (p : Packet) (s : TransportCore) : result (bool * TransportCore) :=
  if dedup_exempt (contextByte p) then Ok (false, s) else
  let! (hash, _) := getHash sha256 p in
  let hashHex := toHex hash in
  if seen_hash hashHex (hashlist s) then Ok (true, s)
  else Ok (false, set_hashlist s (remember_hash hashHex (hashlist s))).

(** ** Announces *)

(** The handler of an announce, cut at its awaits: the announce is opened and
    validated ([announce_open]); it is counted and perhaps held
    ([announce_held]) and compared with the key known for its destination
    ([collides]); and, its hash computed, it is accepted into the caches and
    the path table ([learn]). *)
Definition announce_open (p : Packet) (i : nat) (s : TransportCore) : TransportCore * option AnnounceValidation :=
  let dest := Packet.destinationHash p in
  if (MTU <? length (raw p))%nat then (protocolViolation i s, None)
  else if has (toHex dest) (localDestinations s) then (s, None)
  else match validateAnnounce dest (contextFlag p) (payload p) with
  | None => (protocolViolation i s, None)
  | Some v => (s, Some v)
  end.

Definition collides (dest : bytes) (v : AnnounceValidation) (s : TransportCore) : bool :=
  match get (toHex dest) (knownDestinations (caches s)) with
  | Some k => negb (bytesEqual (k_publicKey k) (publicKey (v_identity v)))
  | None => false
  end.

Definition learn (E : Env) (p : Packet) (i : nat) (v : AnnounceValidation) (s : TransportCore)
    : TransportCore * list event * result unit :=
  let dest := Packet.destinationHash p in
  let destHex := toHex dest in
  match getHash sha256 p with
  | Throw e => (s, [], Throw e)
  | Ok (packetHash, _) =>
      let s := rememberIdentity E packetHash dest (publicKey (v_identity v)) (v_appData v) s in
      let s := match v_ratchet v with Some r => rememberRatchet E dest r s | None => s end in
      let entry := mkEntry (default dest (transportId p)) (Packet.hops p) (port_iface <$> port s i)
                     (v_randomHash v) None None in
      let '(_, s) := on_table (addOrUpdateRoute (now E) dest entry) s in
      let s := set_prs s (mkPathRequests (discoveryPrTags (prs s)) (maxPrTags (prs s))
                            (pathRequests (prs s)) (mdelete destHex (inflightPathRequests (prs s))))
                 (sweepTimer s) in
      (s, [AnnounceEvent dest v p], Ok tt)
  end.

Definition ingest (E : Env) (p : Packet) (i : nat) (v : AnnounceValidation) (s : TransportCore)
    : TransportCore * list event * result unit :=
  if collides (Packet.destinationHash p) v s then (s, [], Ok tt) else learn E p i v s.

(** [receivingInterface.shouldIngressLimit()]. *)
Definition ingress_limited (E : Env) (i : nat) (s : TransportCore) : bool * TransportCore :=
  match port s i with
  | Some p => let '(b, g) := shouldIngressLimit (us (now E)) (ingress p) in
              (b, update_port i (fun p => set_ingress p g) s)
  | None => (false, s)
  end.

Definition announce_held (E : Env) (p : Packet) (i : nat) (s : TransportCore) : bool * TransportCore :=
  let destHex := toHex (Packet.destinationHash p) in
  let s := sample (receivedAnnounce (us (now E))) i s in
  let '(known, s) := hasPath E (Packet.destinationHash p) s in
  let '(limited, s) :=
    if negb known && negb (has destHex (inflightPathRequests (prs s)))
    then ingress_limited E i s else (false, s) in
  if limited then (true, _ensureSweep (update_port i (fun q => set_ingress q (holdAnnounce p (ingress q))) s))
  else (false, s).

(** From one await to the next, and whether the announce is to be learned. *)
Definition announce_check (E : Env) (p : Packet) (i : nat) (v : AnnounceValidation) (s : TransportCore) : bool * TransportCore :=
  let '(held, s) := announce_held E p i s in
  (negb held && negb (collides (Packet.destinationHash p) v s), s).

Definition _handleAnnounce (E : Env) (p : Packet) (i : nat) (s : TransportCore)
    : TransportCore * list event * result unit :=
  match announce_open p i s with
  | (s, None) => (s, [], Ok tt)
  | (s, Some v) =>
      let '(held, s) := announce_held E p i s in
      if held then (s, [], Ok tt) else ingest E p i v s
  end.

(** ** Proofs *)

(** The receipts' callbacks the transport installed: a failed one marks the
    path of its destination unresponsive. *)
Fixpoint after_receipts (evs : list Receipt.event) (s : TransportCore) : TransportCore :=
  match evs with
  | [] => s
  | CallFailed j :: evs =>
      after_receipts evs
        (match heap (registry (caches s)) !! j with
         | Some r => markPathUnresponsive (r_destinationHash r) s
         | None => s
         end)
  | _ :: evs => after_receipts evs s
  end.

Definition _handleProof (p : Packet) (s : TransportCore) : TransportCore * list event :=
  match proof_begin (Packet.destinationHash p) (registry (caches s)) with
  | None => (s, [])
  | Some j =>
      let '(w, evs, ok) := proof_end (recallIdentity s) j (payload p) (registry (caches s)) in
      let s := after_receipts evs (set_registry s w) in
      let s := if ok then match heap w !! j with
                          | Some r => markPathResponsive (r_destinationHash r) s
                          | None => s
                          end
               else s in
      (s, map ReceiptEvent evs)
  end.

(** The timeout of a receipt. *)
Definition receipt_timeout (E : Env) (j : nat) (s : TransportCore) : TransportCore * list event :=
  let '(w, evs) := Receipt.timer_fires (now E) j (registry (caches s)) in
  (after_receipts evs (set_registry s w), map ReceiptEvent evs).

(** ** Path requests *)

Definition _pathRequestDestHash : bytes := dest_hash (name_hash (utf8_encode PATH_REQUEST_APP_NAME)) None.

Definition requestPath (E : Env) (dest : bytes) (s : TransportCore)
    : result (TransportCore * list event) :=
  if negb (length dest =? 16)%nat
  then Throw (JsError "requestPath requires a 16-byte destination hash")
  else
    let tag := slice 0 16 (random E) in
    let packet := new_Packet PacketType_DATA DestType_PLAIN ContextType_NONE _pathRequestDestHash
                    (dest ++ tag) in
    let key := toHex dest in
    Ok (_ensureSweep (set_prs s
          (mkPathRequests (discoveryPrTags (prs s)) (maxPrTags (prs s))
             (mset key (now E) (pathRequests (prs s)))
             (mset key (now E) (inflightPathRequests (prs s)))) (sweepTimer s)),
        broadcast packet None s).

Definition requestPathAuto (E : Env) (dest : bytes) (s : TransportCore)
    : result (TransportCore * list event * bool) :=
  if negb (length dest =? 16)%nat then Ok (s, [], false) else
  let '(known, s) := hasPath E dest s in
  if known && negb (Router.pathIsUnresponsive dest (table s)) then Ok (s, [], false) else
  let last := default 0 (get (toHex dest) (pathRequests (prs s))) in
  if now E - last <? PATH_REQUEST_MIN_INTERVAL_MS then Ok (s, [], false) else
  let! (s, evs) := requestPath E dest s in Ok (s, evs, true).

(** The tag slot of a path request, and whether it was too long. *)
Definition pr_tag (data : bytes) : option bytes * bool :=
  if (32 <? length data)%nat then (Some (slice 32 48 data), (16 <? length data - 32)%nat)
  else if (16 <? length data)%nat then (Some (slice 16 32 data), (16 <? length data - 16)%nat)
  else (None, false).

(** [while (tags.size > maxPrTags) tags.delete(oldest)]. *)
Definition trim_tags (max : Z) (tags : list jsstr) : list jsstr :=
  drop (Z.to_nat (Z.of_nat (length tags) - max)) tags.

(** [receivingInterface.shouldIngressLimitPr()]. *)
Definition ingress_limited_pr (E : Env) (i : nat) (s : TransportCore) : bool * TransportCore :=
  match port s i with
  | Some p => let '(b, g) := shouldIngressLimitPr (us (now E)) (ingress p) in
              (b, update_port i (fun p => set_ingress p g) s)
  | None => (false, s)
  end.

(** The answer of a destination of ours. *)
Definition answer_path_request (E : Env) (target tag : bytes) (s : TransportCore)
    : TransportCore * list event * result unit :=
  let key := toHex target in
  match get key (localDestinations s) with
  | None => (s, [], Ok tt)
  | Some d =>
      match Destination.identity d with
      | None => (s, [], Ok tt)
      | Some _ =>
          let '(d, evs, r) := announcePathResponse (now E) (random E) (freshKey E) (Some tag) d in
          let s := set_locals s (mset key d (localDestinations s)) in
          (s, dispatch key evs s, r)
      end
  end.

Definition _handlePathRequest (E : Env) (p : Packet) (i : nat) (s : TransportCore)
    : TransportCore * list event * result unit :=
  let data := payload p in
  if (length data <? 16)%nat then (s, [], Ok tt) else
  let target := slice 0 16 data in
  let '(tag, oversized) := pr_tag data in
  let s := if oversized then protocolViolation i s else s in
  match tag with
  | None | Some [] => (protocolViolation i s, [], Ok tt)
  | Some tagBytes =>
      let s := sample (receivedPathRequest (us (now E))) i s in
      let uniqueTag := toHex target ++ toHex tagBytes in
      let tags := discoveryPrTags (prs s) in
      if bool_decide (uniqueTag ∈ tags) then (s, [], Ok tt) else
      let s := set_prs s (mkPathRequests (trim_tags (maxPrTags (prs s)) (tags ++ [uniqueTag]))
                            (maxPrTags (prs s)) (pathRequests (prs s)) (inflightPathRequests (prs s)))
                 (sweepTimer s) in
      let '(limited, s) := ingress_limited_pr E i s in
      if limited then (update_port i (fun q => add_counts q 1 0 0) s, [], Ok tt)
      else answer_path_request E target tagBytes s
  end.

(** ** Ingress *)

Definition _routeIncomingPacket (E : Env) (p : Packet) (i : nat) (s : TransportCore)
    : TransportCore * list event * result unit :=
  let p := Packet.set_hops p (Packet.hops p + 1) in
  let destHex := toHex (Packet.destinationHash p) in
  if packetType p =? PacketType_ANNOUNCE then _handleAnnounce E p i s else
  match _isDuplicate p s with
  | Throw e => (s, [], Throw e)
  | Ok (true, s) => (packetFilterHit i s, [], Ok tt)
  | Ok (false, s) =>
      if (packetType p =? PacketType_PROOF) && (contextByte p =? ContextType_NONE)
         && negb (has destHex (activeLinks s))
      then let '(s, evs) := _handleProof p s in (s, evs, Ok tt)
      else if (packetType p =? PacketType_DATA)
              && bytesEqual (Packet.destinationHash p) _pathRequestDestHash
      then _handlePathRequest E p i s
      else match get destHex (localDestinations s) with
      | Some d =>
          let '(d, r) := Destination.receive (loaded E) p d in
          let s := set_locals s (mset destHex d (localDestinations s)) in
          match r with
          | Ok evs => (s, dispatch destHex evs s, Ok tt)
          | Throw e => (s, [], Throw e)
          end
      | None =>
          if has destHex (activeLinks s) then (s, [LinkReceive destHex p i], Ok tt)
          else (s, [], Ok tt)
      end
  end.

(** ** Egress *)

Definition touch (now : Z) (r : Route) : Route :=
  mkRoute (interface r) (interfaceName r) (nextHop r) (Router.hops r) now (expires r)
    (randomBlobs r) (state r).

(** The packet put into transport towards [hop]. *)
Definition inject (p : Packet) (hop : bytes) : Packet :=
  mkPacket HeaderType_2 (Packet.hops p) TransportType_TRANSPORT (destinationType p) (packetType p)
    (contextFlag p) (Packet.destinationHash p) (contextByte p) (payload p) (Some hop) [].

Definition is_routable (p : Packet) : bool :=
  negb (packetType p =? PacketType_ANNOUNCE) && negb (destinationType p =? DestType_PLAIN)
  && negb (destinationType p =? DestType_GROUP).

(** The path to use: an unresponsive one, or one whose interface cannot
    transmit, is expired first. *)
Definition usable_route (E : Env) (p : Packet) (s : TransportCore) : option Route * TransportCore :=
  let dest := Packet.destinationHash p in
  let '(route, s) := if is_routable p then getRoute E dest s else (None, s) in
  match route with
  | None => (None, s)
  | Some r =>
      if bool_decide (state r = UNRESPONSIVE) then (None, expirePath dest s)
      else
        let egress := match interface r with Some f => Some (iface_id f) | None => defaultInterface (net s) end in
        if has_writer s egress then (Some r, s) else (None, expirePath dest s)
  end.

(** The transmission itself. *)
Definition emit (E : Env) (p : Packet) (route : option Route) (s : TransportCore)
    : TransportCore * result (list event) :=
  let destHex := toHex (Packet.destinationHash p) in
  match route with
  | Some r =>
      let egress := match interface r with Some f => Some (iface_id f) | None => defaultInterface (net s) end in
      let q := if (1 <? Router.hops r) && (headerType p =? HeaderType_1) then inject p (nextHop r) else p in
      match _transmit egress q s with
      | Ok evs => (set_paths s (mset destHex (touch (now E) r) (pathTable s)), Ok evs)
      | Throw e => (s, Throw e)
      end
  | None =>
      match (if destinationType p =? DestType_LINK
             then l ← get destHex (activeLinks s); attachedInterface l else None) with
      | Some j => (s, _transmit (Some j) p s)
      | None =>
          match defaultInterface (net s) with
          | Some j => if has_writer s (Some j) then (s, Ok [Write j p])
                      else (s, Throw (JsError "No route to host"))
          | None => (s, Throw (JsError "No route to host"))
          end
      end
  end.

(** The receipt of an opportunistic packet. *)
Definition await_proof (E : Env) (hash : bytes) (p : Packet) (s : TransportCore)
    : TransportCore * option nat :=
  if (packetType p =? PacketType_DATA) && (contextByte p =? ContextType_NONE) then
    let '(t, s) := firstHopTimeout E (Packet.destinationHash p) s in
    let '(w, j) := track (now E) (Qfloor (t * 1000)) hash (Packet.destinationHash p) false true
                     (registry (caches s)) in
    (set_registry s w, Some j)
  else (s, None).

(** [sendPacket]; the receipt is returned by its number. *)
Definition sendPacket (E : Env) (p : Packet) (linkId : option bytes) (s : TransportCore)
    : TransportCore * list event * result (option nat) :=
  if PATHFINDER_M <=? Packet.hops p then (s, [], Ok None) else
  let destHex := toHex (Packet.destinationHash p) in
  match getHash sha256 p with
  | Throw e => (s, [], Throw e)
  | Ok (packetHash, p) =>
      match linkId with
      | Some lid =>
          if has (toHex lid) (activeLinks s) then (s, [LinkSend (toHex lid) p], Ok None)
          else (s, [], Throw (JsError "Link is not available"))
      | None =>
          let '(route, s) := usable_route E p s in
          let '(s, sent) := emit E p route s in
          match sent with
          | Throw e => (s, [], Throw e)
          | Ok evs =>
              let contacted := if is_routable p && negb (has destHex (activeLinks s))
                               then [MarkContacted (Packet.destinationHash p)] else [] in
              let '(s, receipt) := await_proof E packetHash p s in
              (s, evs ++ contacted, Ok receipt)
          end
      end
  end.

(** [Destination.send] through this transport. *)
Definition destination_send (E : Env) (eph iv : bytes) (p : Packet) (d : Destination)
    (s : TransportCore) : TransportCore * list event * result (option nat) :=
  let '(known, r) := Destination.send (now E) eph iv (Some (knownRatchets (caches s))) p d in
  let s := match known with
           | Some m => set_caches s (mkCache (knownDestinations (caches s)) m (registry (caches s)))
           | None => s
           end in
  match r with
  | Ok q => sendPacket E q None s
  | Throw e => (s, [], Throw e)
  end.

(** ** Maintenance *)

(** [iface.processHeldAnnounces()]. *)
Definition release_held (E : Env) (i : nat) (s : TransportCore) : option Packet * TransportCore :=
  match port s i with
  | Some p => let '(q, g) := processHeldAnnounces (us (now E)) (ingress p) in
              (q, update_port i (fun p => set_ingress p g) s)
  | None => (None, s)
  end.

(** A released announce enters the pipeline again; an exception is logged. *)
Fixpoint sweep_held (E : Env) (ifs : list nat) (s : TransportCore) : TransportCore * list event :=
  match ifs with
  | [] => (s, [])
  | i :: ifs =>
      let '(q, s) := release_held E i s in
      match q with
      | None => sweep_held E ifs s
      | Some q =>
          let '(s, evs, _) := _routeIncomingPacket E q i s in
          let '(s, evs') := sweep_held E ifs s in (s, evs ++ evs')
      end
  end.

Definition cull (now : Z) (m : jsmap Z) : jsmap Z :=
  filter (fun '(_, t) => now <= t + PATH_REQUEST_GATE_TIMEOUT_MS) m.

Definition _hasHeldAnnounces (s : TransportCore) : bool :=
  existsb (fun i => match port s i with
                    | Some p => (0 <? JsMap.size (heldAnnounces (ingress p)))%nat
                    | None => false
                    end) (interfaces (net s)).

Definition _sweepTick (E : Env) (s : TransportCore) : TransportCore * list event :=
  let '(s, evs) := sweep_held E (interfaces (net s)) s in
  let s := set_prs s (mkPathRequests (discoveryPrTags (prs s)) (maxPrTags (prs s))
                        (cull (now E) (pathRequests (prs s)))
                        (cull (now E) (inflightPathRequests (prs s)))) (sweepTimer s) in
  let idle := negb (_hasHeldAnnounces s) && (JsMap.size (pathRequests (prs s)) =? 0)%nat
              && (JsMap.size (inflightPathRequests (prs s)) =? 0)%nat in
  (set_prs s (prs s) (sweepTimer s && negb idle), evs).
End WithCrypto.
