(* ===== verification/TransportSpec.v ===== *)
(** * TransportSpec: what the transport guarantees over whole runs

    The transport's operations as steps, with the properties that hold
    whatever the order in which packets, sends, requests, timers and sweeps
    come: duplicates are dropped within a window, learned keys are authentic
    and pinned, nothing is forwarded, requests are rate-limited and swept. *)

From S2P Require Import Prelude Encoding JsMap Utf8 MsgPack MsgPackSpec Crypto Identity Link.
From S2P Require Import Interface Router Receipt Destination Packet Transport.

Section WithCrypto.
Context `{C : WebCrypto} `{H : JsHost}.

Inductive op :=
| Incoming (E : Env) (p : Packet) (i : nat)
| Send (E : Env) (p : Packet) (linkId : option bytes)
| DestSend (E : Env) (eph iv : bytes) (p : Packet) (d : Destination)
| Request (E : Env) (dest : bytes)
| RequestAuto (E : Env) (dest : bytes)
| Sweep (E : Env)
| ReceiptTimer (E : Env) (j : nat)
| Attach (i : nat) (isDefault writable : bool)
| Detach (i : nat)
| Bind (d : Destination)
| Unbind (d : Destination)
| LinkUp (dest : bytes) (l : LinkRef)
| LinkDown (dest : bytes)
| Lookup (E : Env) (dest : bytes)
| Remember (E : Env) (packetHash dest publicKey : bytes) (app : option bytes)
| RememberRatchet (E : Env) (dest r : bytes)
| RecallRatchet (E : Env) (dest : bytes)
| MarkPath (dest : bytes) (responsive : bool)
| ExpirePath (dest : bytes)
| ReleaseHeld (E : Env) (i : nat).

Definition step (o : op) (s : TransportCore) : TransportCore * list event :=
  match o with
  | Incoming E p i => fst (_routeIncomingPacket E p i s)
  | Send E p l => fst (sendPacket E p l s)
  | DestSend E eph iv p d => fst (destination_send E eph iv p d s)
  | Request E dest => match requestPath E dest s with Ok r => r | Throw _ => (s, []) end
  | RequestAuto E dest => match requestPathAuto E dest s with Ok (s, evs, _) => (s, evs) | Throw _ => (s, []) end
  | Sweep E => _sweepTick E s
  | ReceiptTimer E j => receipt_timeout E j s
  | Attach i d w => (addInterface i d w s, [])
  | Detach i => (removeInterface i s, [])
  | Bind d => (bindLocalDestination d s, [])
  | Unbind d => (unbindLocalDestination d s, [])
  | LinkUp dest l => (addLink dest l s, [])
  | LinkDown dest => (removeLink dest s, [])
  | Lookup E dest => (snd (hasPath E dest s), [])
  | Remember E ph dest pk app => (rememberIdentity E ph dest pk app s, [])
  | RememberRatchet E dest r => (rememberRatchet E dest r s, [])
  | RecallRatchet E dest => (snd (recallRatchet E dest s), [])
  | MarkPath dest b => (if b then markPathResponsive dest s else markPathUnresponsive dest s, [])
  | ExpirePath dest => (expirePath dest s, [])
  | ReleaseHeld E i => (snd (release_held E i s), [])
  end.

Fixpoint run (ops : list op) (s : TransportCore) : TransportCore :=
  match ops with
  | [] => s
  | o :: ops => run ops (fst (step o s))
  end.

Lemma ops_app ops1 ops2 s : run (ops1 ++ ops2) s = run ops2 (run ops1 s).
Proof. revert s. induction ops1 as [|o ops IH]; intros s; [done|]. apply IH. Qed.

(** ** What the operations leave alone *)

(** The part of the state the properties below are about. *)
Record View := mkView {
  v_known : jsmap KnownDestination;
  v_hashes : Hashlist;
  v_prs : PathRequests;
  v_timer : bool;
}.

Definition view (s : TransportCore) : View :=
  mkView (knownDestinations (caches s)) (hashlist s) (prs s) (sweepTimer s).

Lemma view_sample f i s : view (sample f i s) = view s.
Proof. unfold sample. by case_match. Qed.

Lemma view_on_table {A} (f : RoutingTable -> A * RoutingTable) s : view (snd (on_table f s)) = view s.
Proof. unfold on_table. by destruct (f (table s)). Qed.

Lemma view_getRoute E d s : view (snd (getRoute E d s)) = view s.
Proof. apply view_on_table. Qed.

Lemma view_hasPath E d s : view (snd (hasPath E d s)) = view s.
Proof. apply view_on_table. Qed.

Lemma view_after_receipts evs s : view (after_receipts evs s) = view s.
Proof.
  revert s. induction evs as [|e evs IH]; intros s; [done|]. cbn [after_receipts].
  destruct e; rewrite IH; [done..|]. case_match; [apply view_on_table|done].
Qed.

Lemma view_handleProof p s : view (fst (_handleProof p s)) = view s.
Proof.
  unfold _handleProof. case_match; [|done]. destruct (proof_end _ _ _ _) as [[w evs] ok].
  cbn [fst]. destruct ok; [case_match|]; unfold markPathResponsive;
    rewrite ?view_on_table, view_after_receipts; done.
Qed.

Lemma view_receipt_timeout E j s : view (fst (receipt_timeout E j s)) = view s.
Proof.
  unfold receipt_timeout. destruct (timer_fires _ _ _) as [w evs]. cbn [fst]. by rewrite view_after_receipts.
Qed.

Lemma view_ingress_limited E i s : view (snd (ingress_limited E i s)) = view s.
Proof. unfold ingress_limited. case_match; [|done]. by destruct (shouldIngressLimit _ _). Qed.

Lemma view_ingress_limited_pr E i s : view (snd (ingress_limited_pr E i s)) = view s.
Proof. unfold ingress_limited_pr. case_match; [|done]. by destruct (shouldIngressLimitPr _ _). Qed.

Lemma view_answer E target tag s : view (fst (fst (answer_path_request E target tag s))) = view s.
Proof.
  unfold answer_path_request. repeat (case_match; try done).
Qed.

Lemma view_usable_route E p s : view (snd (usable_route E p s)) = view s.
Proof.
  unfold usable_route. destruct (is_routable p).
  - pose proof (view_getRoute E (Packet.destinationHash p) s) as Hv.
    destruct (getRoute E _ s) as [[r|] s1]; cbn [snd] in *; [|done].
    case_match; [|case_match]; unfold expirePath; rewrite ?view_on_table; done.
  - done.
Qed.

Lemma view_emit E p r s : view (fst (emit E p r s)) = view s.
Proof. unfold emit. repeat (case_match; try done). Qed.

Lemma view_firstHopTimeout E d s : view (snd (firstHopTimeout E d s)) = view s.
Proof.
  unfold firstHopTimeout. pose proof (view_getRoute E d s). by destruct (getRoute E d s).
Qed.

Lemma view_await_proof E h p s : view (fst (await_proof E h p s)) = view s.
Proof.
  unfold await_proof. case_match; [|done].
  pose proof (view_firstHopTimeout E (Packet.destinationHash p) s) as Hv.
  destruct (firstHopTimeout _ _ s) as [t s1]. by destruct (track _ _ _ _ _ _ _).
Qed.

Lemma view_sendPacket E p l s : view (fst (fst (sendPacket E p l s))) = view s.
Proof.
  unfold sendPacket. case_match; [done|]. destruct (getHash sha256 p) as [[h q]|e]; [|done].
  destruct l as [lid|]; [by case_match|].
  pose proof (view_usable_route E q s) as H1. destruct (usable_route E q s) as [r s1].
  pose proof (view_emit E q r s1) as H2. destruct (emit E q r s1) as [s2 [evs|e]]; cbn [fst snd] in *;
    [|congruence].
  pose proof (view_await_proof E h q s2) as H3. destruct (await_proof E h q s2) as [s3 j].
  cbn [fst snd] in *. congruence.
Qed.

Lemma view_destination_send E eph iv p d s :
  view (fst (fst (destination_send E eph iv p d s))) = view s.
Proof.
  unfold destination_send. destruct (Destination.send _ _ _ _ _ _) as [[m|] [q|e]];
    rewrite ?view_sendPacket; done.
Qed.

Lemma view_release_held E i s : view (snd (release_held E i s)) = view s.
Proof. unfold release_held. case_match; [|done]. by destruct (processHeldAnnounces _ _). Qed.

(** ** What they do to it *)

Definition with_inflight (q : PathRequests) (m : jsmap Z) : PathRequests :=
  mkPathRequests (discoveryPrTags q) (maxPrTags q) (pathRequests q) m.
Definition with_tags (q : PathRequests) (l : list jsstr) : PathRequests :=
  mkPathRequests l (maxPrTags q) (pathRequests q) (inflightPathRequests q).
Definition with_requests (q : PathRequests) (m m' : jsmap Z) : PathRequests :=
  mkPathRequests (discoveryPrTags q) (maxPrTags q) m m'.

(** The elementary changes at time [t], but for the recording of a hash. *)
Inductive eff0 (t : Z) : View -> View -> Prop :=
| eff_known dest cf data v ph k l q b :
    validateAnnounce dest cf data = Some v ->
    (forall e, get (toHex dest) k = Some e -> k_publicKey e = publicKey (v_identity v)) ->
    eff0 t (mkView k l q b)
      (mkView (rememberInto t k ph dest (publicKey (v_identity v)) (v_appData v)) l
         (with_inflight q (mdelete (toHex dest) (inflightPathRequests q))) b)
| eff_tag u k l q b : u ∉ discoveryPrTags q ->
    eff0 t (mkView k l q b)
      (mkView k l (with_tags q (trim_tags (maxPrTags q) (discoveryPrTags q ++ [u]))) b)
| eff_request dest k l q b :
    eff0 t (mkView k l q b)
      (mkView k l (with_requests q (mset (toHex dest) t (pathRequests q))
                     (mset (toHex dest) t (inflightPathRequests q))) true)
| eff_sweep_on k l q b : eff0 t (mkView k l q b) (mkView k l q true)
| eff_cull k l q b b' :
    (b' = b \/ JsMap.size (cull t (pathRequests q)) = 0%nat
               /\ JsMap.size (cull t (inflightPathRequests q)) = 0%nat) ->
    eff0 t (mkView k l q b)
      (mkView k l (with_requests q (cull t (pathRequests q)) (cull t (inflightPathRequests q))) b').

(** All of them; [G] are the keys that the application may give. *)
Section Effects.
Context (G : bytes -> bytes -> Prop).

Inductive eff (t : Z) : View -> View -> Prop :=
| eff_other V V' : eff0 t V V' -> eff t V V'
| eff_hash h k l q b : seen_hash h l = false ->
    eff t (mkView k l q b) (mkView k (remember_hash h l) q b)
| eff_given dest ph pk app k l q b : G dest pk ->
    eff t (mkView k l q b) (mkView (rememberInto t k ph dest pk app) l q b).

Definition effs0 (t : Z) (s s' : TransportCore) : Prop := rtc (eff0 t) (view s) (view s').

Lemma effs0_refl t s s' : view s' = view s -> effs0 t s s'.
Proof. intros E. unfold effs0. rewrite E. constructor. Qed.

Lemma effs0_once t s s' : eff0 t (view s) (view s') -> effs0 t s s'.
Proof. apply rtc_once. Qed.

Lemma effs0_view t s1 s2 s3 : view s1 = view s2 -> effs0 t s1 s3 -> effs0 t s2 s3.
Proof. unfold effs0. by intros ->. Qed.

Lemma effs0_hashlist t s s' : effs0 t s s' -> hashlist s' = hashlist s.
Proof.
  unfold effs0. change (hashlist s') with (v_hashes (view s')). change (hashlist s) with (v_hashes (view s)).
  generalize (view s), (view s'). induction 1 as [V|V V1 V2 He _ IH]; [done|]. rewrite IH.
  by destruct He.
Qed.

Definition effs (t : Z) (s s' : TransportCore) : Prop := rtc (eff t) (view s) (view s').

Lemma effs_refl t s s' : view s' = view s -> effs t s s'.
Proof. intros E. unfold effs. rewrite E. constructor. Qed.

Lemma effs_once t s s' : eff t (view s) (view s') -> effs t s s'.
Proof. apply rtc_once. Qed.

Lemma effs0_effs t s s' : effs0 t s s' -> effs t s s'.
Proof.
  unfold effs0, effs. generalize (view s), (view s').
  induction 1 as [V|V V1 V2 He _ IH]; [constructor|]. eapply rtc_l; [by apply eff_other|done].
Qed.

Lemma effs_view t s1 s2 s3 : view s1 = view s2 -> effs t s1 s3 -> effs t s2 s3.
Proof. unfold effs. by intros ->. Qed.

Lemma bytesEqual_neg a b : negb (bytesEqual a b) = false -> a = b.
Proof. intros Hb. bools. by apply bytesEqual_spec. Qed.

Lemma collides_not dest v s : collides dest v s = false ->
  forall e, get (toHex dest) (knownDestinations (caches s)) = Some e -> k_publicKey e = publicKey (v_identity v).
Proof. unfold collides. intros Hc e He. rewrite He in Hc. by apply bytesEqual_neg. Qed.

(** What learning an announce does to the view, whatever key is known. *)
Lemma view_learn E p i v s : view (fst (fst (learn E p i v s))) = view s
  \/ exists ph, view (fst (fst (learn E p i v s)))
     = mkView (rememberInto (now E) (v_known (view s)) ph (Packet.destinationHash p) (publicKey (v_identity v)) (v_appData v))
         (v_hashes (view s))
         (with_inflight (v_prs (view s)) (mdelete (toHex (Packet.destinationHash p)) (inflightPathRequests (v_prs (view s)))))
         (v_timer (view s)).
Proof.
  unfold learn. set (dest := Packet.destinationHash p).
  destruct (getHash sha256 p) as [[ph q]|e]; [right; exists ph|by left].
  set (s1 := rememberIdentity _ _ _ _ _ s).
  set (s2 := match v_ratchet v with Some r => _ | None => s1 end).
  assert (H2 : view s2 = view s1) by (subst s2; by case_match).
  match goal with |- context [on_table ?f s2] =>
    pose proof (view_on_table f s2) as H3; destruct (on_table f s2) as [? s3] end.
  cbn [fst snd] in *. assert (Hw : view s3 = view s1) by congruence. unfold view in Hw |- *.
  injection Hw as Hw1 Hw2 Hw3 Hw4. cbn. rewrite Hw1, Hw2, Hw3, Hw4. subst s1. done.
Qed.

Lemma effs0_ingest E p i v s :
  validateAnnounce (Packet.destinationHash p) (contextFlag p) (payload p) = Some v ->
  effs0 (now E) s (fst (fst (ingest E p i v s))).
Proof.
  intros Hv. unfold ingest. destruct (collides _ v s) eqn:Hc; [by apply effs0_refl|].
  pose proof (collides_not _ _ _ Hc) as Hk. destruct (view_learn E p i v s) as [Hw|[ph Hw]]; [by apply effs0_refl|].
  unfold effs0. rewrite Hw. apply rtc_once. by apply (eff_known _ _ (contextFlag p) (payload p)).
Qed.

Lemma open_view p i s : view (fst (announce_open p i s)) = view s
  /\ forall v, snd (announce_open p i s) = Some v ->
       validateAnnounce (Packet.destinationHash p) (contextFlag p) (payload p) = Some v.
Proof.
  unfold announce_open. case_match; [done|]. case_match; [done|].
  destruct (validateAnnounce _ _ _) as [v|]; [|done]. split; [done|]. by intros ? [= <-].
Qed.

Lemma effs0_held E p i s : effs0 (now E) s (snd (announce_held E p i s))
  /\ knownDestinations (caches (snd (announce_held E p i s))) = knownDestinations (caches s).
Proof.
  unfold announce_held. set (s1 := sample _ i s). assert (V1 : view s1 = view s) by apply view_sample.
  pose proof (view_hasPath E (Packet.destinationHash p) s1) as V2.
  destruct (hasPath E _ s1) as [known s2]. cbn [snd] in V2.
  set (g := if _ && _ then ingress_limited E i s2 else (false, s2)).
  assert (V3 : view (snd g) = view s2) by (subst g; case_match; [apply view_ingress_limited|done]).
  destruct g as [lim s3]. cbn [snd] in V3.
  assert (E3 : knownDestinations (caches s3) = knownDestinations (caches s))
    by (change (v_known (view s3) = v_known (view s)); congruence).
  destruct lim; cbn [snd]; (split; [|exact E3]).
  - apply (effs0_view _ s3); [congruence|]. apply effs0_once. constructor.
  - apply effs0_refl. congruence.
Qed.

Lemma effs0_trans t s1 s2 s3 : effs0 t s1 s2 -> effs0 t s2 s3 -> effs0 t s1 s3.
Proof. unfold effs0. intros ?. by etrans. Qed.

Lemma effs0_handleAnnounce E p i s : effs0 (now E) s (fst (fst (_handleAnnounce E p i s))).
Proof.
  unfold _handleAnnounce. destruct (open_view p i s) as [V1 Hv]. destruct (announce_open p i s) as [s1 [v|]]; cbn [fst snd] in *;
    [|by apply effs0_refl]. specialize (Hv v eq_refl).
  destruct (effs0_held E p i s1) as [V2 _]. destruct (announce_held E p i s1) as [[|] s2]; cbn [snd] in V2.
  - by apply (effs0_view _ s1).
  - apply (effs0_view _ s1); [done|]. eapply effs0_trans; [exact V2|]. by apply effs0_ingest.
Qed.

Lemma effs0_handlePathRequest E p i s : effs0 (now E) s (fst (fst (_handlePathRequest E p i s))).
Proof.
  unfold _handlePathRequest. case_match; [by apply effs0_refl|].
  destruct (pr_tag (payload p)) as [tag over].
  set (s1 := if over then protocolViolation i s else s).
  assert (V1 : view s1 = view s) by (subst s1; by case_match).
  destruct tag as [[|b tag]|]; [by apply effs0_refl| |by apply effs0_refl].
  set (s2 := sample _ i s1). assert (V2 : view s2 = view s1) by apply view_sample.
  apply (effs0_view _ s2); [congruence|]. clearbody s2.
  case_bool_decide as Hu; [by apply effs0_refl|].
  set (s3 := set_prs s2 _ _). pose proof (view_ingress_limited_pr E i s3) as V4.
  destruct (ingress_limited_pr E i s3) as [lim s4]. cbn [snd] in V4.
  set (out := fst (fst _)). assert (V5 : view out = view s3).
  { subst out. destruct lim; [exact V4|]. by rewrite view_answer. }
  unfold effs0. rewrite V5. apply rtc_once. subst s3. by apply eff_tag.
Qed.

Lemma effs_isDuplicate E p s dup s' : _isDuplicate p s = Ok (dup, s') -> effs E s s'.
Proof.
  unfold _isDuplicate. case_match; [intros [= <- <-]; by apply effs_refl|].
  destruct (getHash sha256 p) as [[h q]|e]; [|done]. cbn [rbind].
  destruct (seen_hash _ _) eqn:Hs; intros [= <- <-]; [by apply effs_refl|].
  apply effs_once. by apply eff_hash.
Qed.

Lemma effs_trans t s1 s2 s3 : effs t s1 s2 -> effs t s2 s3 -> effs t s1 s3.
Proof. unfold effs. intros ?. by etrans. Qed.

Lemma effs_route E p i s : effs (now E) s (fst (fst (_routeIncomingPacket E p i s))).
Proof.
  unfold _routeIncomingPacket. set (q := Packet.set_hops p _).
  case_match; [apply effs0_effs, effs0_handleAnnounce|].
  destruct (_isDuplicate q s) as [[[|] s1]|e] eqn:Hd; [| |by apply effs_refl].
  - apply (effs_isDuplicate (now E)) in Hd. exact Hd.
  - apply (effs_isDuplicate (now E)) in Hd. eapply effs_trans; [exact Hd|].
    case_match.
    { pose proof (view_handleProof q s1) as Hp. destruct (_handleProof q s1). by apply effs_refl. }
    case_match; [apply effs0_effs, effs0_handlePathRequest|].
    case_match; [|case_match; by apply effs_refl].
    destruct (Destination.receive _ _ _) as [d1 r]. destruct r; by apply effs_refl.
Qed.

Lemma effs_sweep_held E ifs s : effs (now E) s (fst (sweep_held E ifs s)).
Proof.
  revert s. induction ifs as [|i ifs IH]; intros s; cbn [sweep_held]; [by apply effs_refl|].
  pose proof (view_release_held E i s) as V1. destruct (release_held E i s) as [[q|] s1]; cbn [snd] in V1.
  - apply (effs_view _ s1); [done|]. pose proof (effs_route E q i s1) as V2.
    destruct (_routeIncomingPacket E q i s1) as [[s2 evs] r]. cbn [fst] in V2.
    pose proof (IH s2) as V3. destruct (sweep_held E ifs s2) as [s3 evs']. by eapply effs_trans.
  - apply (effs_view _ s1); [done|]. apply IH.
Qed.

Lemma effs_sweepTick E s : effs (now E) s (fst (_sweepTick E s)).
Proof.
  unfold _sweepTick. pose proof (effs_sweep_held E (interfaces (net s)) s) as V1.
  destruct (sweep_held E (interfaces (net s)) s) as [s1 evs]. cbn [fst] in V1 |- *.
  eapply effs_trans; [exact V1|]. apply effs0_effs, effs0_once.
  apply (eff_cull _ _ _ _ (sweepTimer s1)). cbn.
  destruct (_hasHeldAnnounces _); cbn [negb andb]; [left; apply andb_true_r|].
  destruct ((_ =? 0)%nat && (_ =? 0)%nat) eqn:Ei; cbn [negb]; [|left; apply andb_true_r].
  right. bools. done.
Qed.

Lemma effs_requestPath E dest s s' evs : requestPath E dest s = Ok (s', evs) -> effs (now E) s s'.
Proof.
  unfold requestPath. case_match; [done|]. intros [= <- <-]. apply effs0_effs, effs0_once. apply eff_request.
Qed.

Lemma effs_requestPathAuto E dest s s' evs b :
  requestPathAuto E dest s = Ok (s', evs, b) -> effs (now E) s s'.
Proof.
  unfold requestPathAuto. case_match; [intros [= <- <- <-]; by apply effs_refl|].
  pose proof (view_hasPath E dest s) as V1. destruct (hasPath E dest s) as [known s1]. cbn [snd] in V1.
  case_match; [intros [= <- <- <-]; by apply effs_refl|].
  case_match; [intros [= <- <- <-]; by apply effs_refl|].
  destruct (requestPath E dest s1) as [[s2 evs2]|] eqn:Hr; [|done]. cbn. intros [= <- <- <-].
  apply (effs_view _ s1); [done|]. by eapply effs_requestPath.
Qed.

End Effects.

(** The time of a step; the ones without a clock change nothing here. *)
Definition op_time (o : op) : option Z :=
  match o with
  | Incoming E _ _ | Send E _ _ | DestSend E _ _ _ _ | Request E _ | RequestAuto E _ | Sweep E
  | ReceiptTimer E _ | Lookup E _ | Remember E _ _ _ _ => Some (now E)
  | _ => None
  end.

(** The keys that the application gives in a step. *)
Definition op_gives (o : op) (dest pk : bytes) : Prop :=
  match o with Remember _ _ d k _ => d = dest /\ k = pk | _ => False end.

(** Every step is a sequence of elementary changes at its time. *)
Lemma effs_step o s t : default t (op_time o) = t -> effs (op_gives o) t s (fst (step o s)).
Proof.
  destruct o as [E p i|E p l|E eph iv p d|E dest|E dest|E|E j|i d w|i|d|d|dest l|dest|E dest|E ph dest pk app|E dest r|E dest|dest b|dest|E i];
    cbn [op_time default step]; intros Ht; try subst t.
  - apply effs_route.
  - apply effs_refl, view_sendPacket.
  - apply effs_refl, view_destination_send.
  - destruct (requestPath E dest s) as [[s' evs]|] eqn:Hr; [|by apply effs_refl].
    by eapply effs_requestPath.
  - destruct (requestPathAuto E dest s) as [[[s' evs] b]|] eqn:Hr; [|by apply effs_refl].
    by eapply effs_requestPathAuto.
  - apply effs_sweepTick.
  - apply effs_refl, view_receipt_timeout.
  - apply effs_refl. cbn [fst]. unfold addInterface, refreshPacketWriter. by case_match.
  - apply effs_refl. cbn [fst]. unfold removeInterface. by case_match.
  - apply effs_refl. cbn [fst]. unfold bindLocalDestination. by case_match.
  - apply effs_refl. cbn [fst]. unfold unbindLocalDestination. by case_match.
  - by apply effs_refl.
  - by apply effs_refl.
  - apply effs_refl, view_hasPath.
  - apply effs_once. cbn. by apply eff_given.
  - by apply effs_refl.
  - apply effs_refl. unfold recallRatchet. by destruct (recallRatchetFrom _ _ _).
  - apply effs_refl. destruct b; apply view_on_table.
  - apply effs_refl, view_on_table.
  - apply effs_refl, view_release_held.
Qed.

(** What the elementary changes preserve, steps and runs do. *)
Lemma effs_preserve G (P : View -> Prop) t s s' :
  (forall V V', eff G t V V' -> P V -> P V') -> effs G t s s' -> P (view s) -> P (view s').
Proof.
  intros HP. unfold effs. generalize (view s), (view s'). induction 1 as [V|V V1 V' He _ IH]; [done|]. eauto.
Qed.

Lemma run_preserves (P : View -> Prop) (times : Z -> Prop) ops s :
  (forall G t V V', times t -> eff G t V V' -> P V -> P V') ->
  Forall (fun o => match op_time o with Some t => times t | None => True end) ops ->
  (exists t, times t) -> P (view s) -> P (view (run ops s)).
Proof.
  intros HP Ho [t0 Ht0] Hs. revert s Hs. induction Ho as [|o ops Ht _ IH]; intros s Hs; [done|].
  cbn [run]. apply IH. set (t := default t0 (op_time o)).
  assert (Hst : effs (op_gives o) t s (fst (step o s))) by (apply effs_step; subst t; by destruct (op_time o)).
  assert (Htt : times t) by (subst t; by destruct (op_time o)).
  revert Hst Hs. apply effs_preserve. intros V V'. by apply HP.
Qed.

(** ** Known destinations *)

(** The destination hash of the entry is the one its key determines, and the
    key signed an announce for it. *)
Definition authentic (key : jsstr) (e : KnownDestination) : Prop :=
  exists dest nh rh rt sig app,
    key = toHex dest /\ dest = truncatedHash (nh ++ truncatedHash (k_publicKey e))
    /\ ed25519_verify (slice 32 64 (k_publicKey e)) sig
         (dest ++ k_publicKey e ++ nh ++ rh ++ default [] rt ++ default [] app) = true
    /\ k_appData e = app.

Lemma accepted_authentic t ph dest cf data v : validateAnnounce dest cf data = Some v ->
  authentic (toHex dest) (mkKnown t ph (publicKey (v_identity v)) (v_appData v)).
Proof.
  intros Hv. pose proof (validated_announce dest cf data v Hv) as (_ & _ & _ & Hsig & Hd).
  exists dest, (v_nameHash v), (v_randomHash v), (v_ratchet v), (v_signature v), (v_appData v).
  auto.
Qed.

(** Announces being handled, suspended at an await of their handler: after
    their validation, or after their key was compared. *)
Record Handling := mkHandling {
  h_packet : Packet;
  h_port : nat;
  h_validation : AnnounceValidation;
  h_checked : bool;
}.

(** A run in which handlers of announces interleave with everything else. *)
Inductive act :=
| Do (o : op)
| AnnounceOpen (p : Packet) (i : nat)
| AnnounceCheck (E : Env) (k : nat)
| AnnounceWrite (E : Env) (k : nat).

Definition act_step (a : act) (st : TransportCore * list Handling) : TransportCore * list Handling :=
  let '(s, under) := st in
  match a with
  | Do o => (fst (step o s), under)
  | AnnounceOpen p i =>
      match announce_open p i s with
      | (s, Some v) => (s, under ++ [mkHandling p i v false])
      | (s, None) => (s, under)
      end
  | AnnounceCheck E k =>
      match under !! k with
      | Some (mkHandling p i v false) =>
          let '(go, s) := announce_check E p i v s in
          (s, if go then <[k := mkHandling p i v true]> under else delete k under)
      | _ => (s, under)
      end
  | AnnounceWrite E k =>
      match under !! k with
      | Some (mkHandling p i v true) => (fst (fst (learn E p i v s)), delete k under)
      | _ => (s, under)
      end
  end.

Definition play (acts : list act) (st : TransportCore * list Handling) : TransportCore * list Handling :=
  fold_left (fun st a => act_step a st) acts st.

(** An announce received whole is its three pieces with nothing in between. *)
Lemma handle_pieces E p i s :
  fst (fst (_handleAnnounce E p i s)) = fst (play [AnnounceOpen p i; AnnounceCheck E 0; AnnounceWrite E 0] (s, [])).
Proof.
  unfold play, _handleAnnounce. cbn [fold_left]. unfold act_step at 3. destruct (announce_open p i s) as [s1 [v|]]; [|done].
  cbn [app]. unfold act_step at 2. cbn [lookup list_lookup]. unfold announce_check, ingest.
  destruct (announce_held E p i s1) as [[|] s2]; [done|]. cbn [negb andb]. by destruct (collides _ v s2).
Qed.

(** A call of the application gave this key for the destination. *)
Definition given (acts : list act) (key : jsstr) (pk : bytes) : Prop :=
  exists E ph dest app, Do (Remember E ph dest pk app) ∈ acts /\ toHex dest = key.

(** An announce of the destination with this key passed the comparison and is
    about to be written. *)
Definition under_way (under : list Handling) (key : jsstr) (pk : bytes) : Prop :=
  exists h, h ∈ under /\ h_checked h = true /\ toHex (Packet.destinationHash (h_packet h)) = key
    /\ publicKey (v_identity (h_validation h)) = pk.

Definition validated (h : Handling) : Prop :=
  validateAnnounce (Packet.destinationHash (h_packet h)) (contextFlag (h_packet h)) (payload (h_packet h)) = Some (h_validation h).

(** What is known, and from where: [K] holds of the destination and key of
    every entry, whoever signed or gave it. *)
Definition sourced (K : jsstr -> bytes -> Prop) (k : jsmap KnownDestination) : Prop :=
  forall key e, get key k = Some e -> authentic key e \/ K key (k_publicKey e).

Lemma sourced_remember K t k ph dest pk app : sourced K k ->
  authentic (toHex dest) (mkKnown t ph pk app) \/ K (toHex dest) pk -> sourced K (rememberInto t k ph dest pk app).
Proof.
  intros Hk Hn key e. unfold rememberInto. destruct (decide (key = toHex dest)) as [->|Hne].
  - rewrite get_mset_same. intros [= <-]. exact Hn.
  - rewrite get_mset_other by done. apply Hk.
Qed.

(** A destination stays known, under one of the keys [S]. *)
Definition kept_under (key : jsstr) (S : bytes -> Prop) (k : jsmap KnownDestination) : Prop :=
  exists e, get key k = Some e /\ S (k_publicKey e).

Lemma kept_remember key (S : bytes -> Prop) t k ph dest pk app : kept_under key S k -> (toHex dest = key -> S pk) ->
  kept_under key S (rememberInto t k ph dest pk app).
Proof.
  intros (e & He & Hs) Hn. unfold rememberInto, kept_under. destruct (decide (key = toHex dest)) as [->|Hne].
  - rewrite get_mset_same. eexists. split; [done|]. by apply Hn.
  - rewrite get_mset_other by done. eauto.
Qed.

Lemma step_known (K : jsstr -> bytes -> Prop) key S o s : (forall dest pk, op_gives o dest pk -> K (toHex dest) pk) ->
  (forall dest pk, op_gives o dest pk -> toHex dest = key -> S pk) ->
  (sourced K (knownDestinations (caches s)) -> sourced K (knownDestinations (caches (fst (step o s)))))
  /\ (kept_under key S (knownDestinations (caches s)) -> kept_under key S (knownDestinations (caches (fst (step o s))))).
Proof.
  intros HK HS. set (t := default 0 (op_time o)). assert (Hst : effs (op_gives o) t s (fst (step o s))).
  { apply effs_step. subst t. by destruct (op_time o). }
  split.
  - revert Hst. apply (effs_preserve _ (fun V => sourced K (v_known V))). intros V V' Hv Hs.
    destruct Hv as [V V' Hv|h k l q b _|dest ph pk app k l q b Hg]; [|done|].
    + destruct Hv as [dest cf data v ph k l q b Hv _| | | |]; try done. apply sourced_remember; [done|]. left. by eapply accepted_authentic.
    + apply sourced_remember; [done|]. right. by apply HK.
  - revert Hst. apply (effs_preserve _ (fun V => kept_under key S (v_known V))). intros V V' Hv Hs.
    destruct Hv as [V V' Hv|h k l q b _|dest ph pk app k l q b Hg]; [|done|].
    + destruct Hv as [dest cf data v ph k l q b Hv Hp| | | |]; try done. apply kept_remember; [done|]. intros <-.
      destruct Hs as (e & He & Hs). by rewrite <- (Hp e He).
    + apply kept_remember; [done|]. by apply HS.
Qed.

Definition act_gives (a : act) (dest pk : bytes) : Prop := match a with Do o => op_gives o dest pk | _ => False end.

(** What a run with suspended handlers keeps. *)
Definition play_ok (K : jsstr -> bytes -> Prop) (st : TransportCore * list Handling) : Prop :=
  sourced K (knownDestinations (caches (fst st))) /\ Forall validated (snd st).

Definition play_kept (key : jsstr) (S : bytes -> Prop) (st : TransportCore * list Handling) : Prop :=
  kept_under key S (knownDestinations (caches (fst st)))
  /\ Forall (fun h => h_checked h = true -> toHex (Packet.destinationHash (h_packet h)) = key ->
       S (publicKey (v_identity (h_validation h)))) (snd st).

Lemma learn_known E p i v s :
  knownDestinations (caches (fst (fst (learn E p i v s)))) = knownDestinations (caches s)
  \/ exists ph, knownDestinations (caches (fst (fst (learn E p i v s))))
     = rememberInto (now E) (knownDestinations (caches s)) ph (Packet.destinationHash p) (publicKey (v_identity v)) (v_appData v).
Proof.
  destruct (view_learn E p i v s) as [Hw|[ph Hw]]; apply (f_equal v_known) in Hw; [by left|right; by exists ph].
Qed.

Lemma check_known E p i v s : knownDestinations (caches (snd (announce_check E p i v s))) = knownDestinations (caches s)
  /\ (fst (announce_check E p i v s) = true -> forall e,
       get (toHex (Packet.destinationHash p)) (knownDestinations (caches s)) = Some e -> k_publicKey e = publicKey (v_identity v)).
Proof.
  unfold announce_check. destruct (effs0_held E p i s) as [_ Hk]. destruct (announce_held E p i s) as [held s1]. cbn [fst snd] in *.
  split; [done|]. intros Hc. apply andb_prop in Hc as [_ Hc]. apply negb_true_iff in Hc. rewrite <- Hk. by apply collides_not.
Qed.

Lemma Forall_dropped {A} (P : A -> Prop) k (l : list A) : Forall P l -> Forall P (delete k l).
Proof. intros Hl. rewrite delete_take_drop. apply Forall_app. split; [by apply Forall_take|by apply Forall_drop]. Qed.

Lemma act_ok K a st : (forall dest pk, act_gives a dest pk -> K (toHex dest) pk) -> play_ok K st -> play_ok K (act_step a st).
Proof.
  intros HK. destruct st as [s under]. intros [Hk Hu]. cbn [fst snd] in *. destruct a as [o|p i|E k|E k]; cbn [act_step].
  - split; [|done]. by apply (step_known K [] (fun _ => True) o s HK).
  - destruct (open_view p i s) as [V Hv]. destruct (announce_open p i s) as [s1 [v|]]; cbn [fst snd] in *; apply (f_equal v_known) in V; cbn in V.
    + split; cbn [fst snd]; [by rewrite V|]. apply Forall_app. split; [done|]. constructor; [|done]. by apply Hv.
    + split; cbn [fst snd]; [by rewrite V|done].
  - destruct (under !! k) as [[p i v [|]]|] eqn:E1; [done| |done]. pose proof (Forall_lookup_1 _ _ _ _ Hu E1) as Hv.
    destruct (check_known E p i v s) as [Hc _]. destruct (announce_check E p i v s) as [go s1]. cbn [fst snd] in *.
    split; cbn [fst snd]; [by rewrite Hc|]. destruct go; [by apply Forall_insert|by apply Forall_dropped].
  - destruct (under !! k) as [[p i v [|]]|] eqn:E1; [|done|done]. pose proof (Forall_lookup_1 _ _ _ _ Hu E1) as Hv.
    split; cbn [fst snd]; [|by apply Forall_dropped]. destruct (learn_known E p i v s) as [->|[ph ->]]; [done|].
    apply sourced_remember; [done|]. left. by eapply accepted_authentic.
Qed.

Lemma act_kept key S a st : (forall dest pk, act_gives a dest pk -> toHex dest = key -> S pk) ->
  play_kept key S st -> play_kept key S (act_step a st).
Proof.
  intros HS. destruct st as [s under]. intros [Hk Hu]. cbn [fst snd] in *. destruct a as [o|p i|E k|E k]; cbn [act_step].
  - split; [|done]. by apply (step_known (fun _ _ => True) key S o s).
  - destruct (open_view p i s) as [V Hv]. destruct (announce_open p i s) as [s1 [v|]]; cbn [fst snd] in *; apply (f_equal v_known) in V; cbn in V.
    + split; cbn [fst snd]; [by rewrite V|]. apply Forall_app. split; [done|]. by constructor.
    + split; cbn [fst snd]; [by rewrite V|done].
  - destruct (under !! k) as [[p i v [|]]|] eqn:E1; [done| |done].
    destruct (check_known E p i v s) as [Hc Hg]. destruct (announce_check E p i v s) as [go s1]. cbn [fst snd] in *.
    split; cbn [fst snd]; [by rewrite Hc|]. destruct go; [|by apply Forall_dropped]. apply Forall_insert; [done|]. cbn. intros _ Hd.
    destruct Hk as (e & He & Hs). subst key. by rewrite <- (Hg eq_refl e He).
  - destruct (under !! k) as [[p i v [|]]|] eqn:E1; [|done|done]. pose proof (Forall_lookup_1 _ _ _ _ Hu E1) as Hv. cbn in Hv.
    split; cbn [fst snd]; [|by apply Forall_dropped]. destruct (learn_known E p i v s) as [->|[ph ->]]; [done|].
    apply kept_remember; [done|]. by apply Hv.
Qed.

Lemma play_preserves (P : TransportCore * list Handling -> Prop) acts : (forall a st, a ∈ acts -> P st -> P (act_step a st)) ->
  forall st, P st -> P (play acts st).
Proof.
  unfold play. induction acts as [|a acts IH]; intros HP st Hst; [done|]. cbn [fold_left].
  apply IH; [|by apply HP; [left|]]. intros b st' Hb. apply HP. by right.
Qed.

Lemma act_given acts a dest pk : a ∈ acts -> act_gives a dest pk -> given acts (toHex dest) pk.
Proof.
  intros Ha Hg. destruct a as [o| | |]; [|done..]. destruct o; try done. destruct Hg as [<- <-].
  unfold given. by do 4 eexists.
Qed.

(** C13: Learned keys are authentic, or the application's own, and pinned:
    whatever packets and calls a transport sees from its start on, in any
    order, and however the handlers of announces interleave with them at their
    awaits, every remembered destination has the hash its public key determines
    and that key signed an announce for it, unless a call of the application to
    [rememberIdentity] gave the key; a remembered destination is never
    forgotten; and it gets another key only from a later call of the
    application, or from an announce whose key had been compared, before this
    one was remembered, and that was then about to be written. *)
Theorem known_keys_pinned pre post s0 key e
    (Hs0 : knownDestinations (caches s0) = [])
    (He : get key (knownDestinations (caches (fst (play pre (s0, []))))) = Some e) :
  (authentic key e \/ given pre key (k_publicKey e))
  /\ exists e', get key (knownDestinations (caches (fst (play (pre ++ post) (s0, []))))) = Some e'
       /\ (authentic key e' \/ given (pre ++ post) key (k_publicKey e'))
       /\ (k_publicKey e' = k_publicKey e \/ given post key (k_publicKey e')
           \/ under_way (snd (play pre (s0, []))) key (k_publicKey e')).
Proof.
  assert (Hall : forall acts, play_ok (given acts) (play acts (s0, []))).
  { intros acts. apply play_preserves; [|split; [cbn; by rewrite Hs0|constructor]].
    intros a st Ha. apply act_ok. intros dest pk. by apply act_given. }
  split; [by apply (Hall pre)|]. set (st1 := play pre (s0, [])) in *.
  assert (Hsplit : play (pre ++ post) (s0, []) = play post st1) by (unfold play; by rewrite fold_left_app).
  set (S pk := pk = k_publicKey e \/ given post key pk \/ under_way (snd st1) key pk).
  assert (Hp : play_kept key S (play post st1)).
  { apply play_preserves.
    - intros a st Ha. apply act_kept. intros dest pk Hg <-. right. left. by eapply act_given.
    - split; [exists e; split; [done|by left]|]. apply Forall_forall. intros h Hh Hc Hd. right. right. by exists h. }
  destruct Hp as [(e' & Hg & Hs) _]. exists e'. rewrite Hsplit. split; [exact Hg|]. split; [|exact Hs].
  apply (Hall (pre ++ post)). by rewrite Hsplit.
Qed.

(** ** Duplicates *)

Definition records (hs : list jsstr) (l : Hashlist) : Hashlist :=
  fold_left (fun l h => remember_hash h l) hs l.

(** How many packets a step routes: those released from the held announces
    of the interfaces are routed again. *)
Definition routed (o : op) (s : TransportCore) : nat :=
  match o with
  | Incoming _ _ _ => 1
  | Sweep _ => length (interfaces (net s))
  | _ => 0
  end.

Fixpoint routed_run (ops : list op) (s : TransportCore) : nat :=
  match ops with
  | [] => 0
  | o :: ops => routed o s + routed_run ops (fst (step o s))
  end.

Lemma route_records E p i s : exists hs, (length hs <= 1)%nat
  /\ hashlist (fst (fst (_routeIncomingPacket E p i s))) = records hs (hashlist s).
Proof.
  unfold _routeIncomingPacket. set (q := Packet.set_hops p _).
  destruct (packetType q =? PacketType_ANNOUNCE).
  { exists []. split; [cbn; lia|]. apply (effs0_hashlist (now E)), effs0_handleAnnounce. }
  unfold _isDuplicate. destruct (dedup_exempt (contextByte q)).
  2: destruct (getHash sha256 q) as [[h q']|e]; cbn [rbind]; [|by exists []; split; [cbn; lia|]].
  2: destruct (seen_hash (toHex h) (hashlist s)); [by exists []; split; [cbn; lia|]|].
  1: exists []. 2: exists [toHex h].
  all: split; [cbn; lia|].
  all: cbn [records fold_left]; match goal with |- _ = ?l => set (L := l) end.
  1: set (s1 := s). 2: set (s1 := set_hashlist s L).
  all: change L with (hashlist s1); clearbody s1 L.
  all: destruct (_ && negb (has _ (activeLinks s1)));
    [pose proof (view_handleProof q s1) as Hv; destruct (_handleProof q s1); by injection Hv|].
  all: destruct (_ && bytesEqual _ _);
    [apply (effs0_hashlist (now E)), effs0_handlePathRequest|].
  all: destruct (get _ (localDestinations s1)); [|by case_match].
  all: destruct (Destination.receive _ _ _) as [d1 [|]]; done.
Qed.

Lemma sweep_records E ifs s : exists hs, (length hs <= length ifs)%nat
  /\ hashlist (fst (sweep_held E ifs s)) = records hs (hashlist s).
Proof.
  revert s. induction ifs as [|i ifs IH]; intros s; [by exists []|]. cbn [sweep_held].
  pose proof (view_release_held E i s) as V1. destruct (release_held E i s) as [[q|] s1]; cbn [snd] in V1.
  - destruct (route_records E q i s1) as (h1 & L1 & E1).
    destruct (_routeIncomingPacket E q i s1) as [[s2 evs] r]. cbn [fst] in E1.
    destruct (IH s2) as (h2 & L2 & E2). destruct (sweep_held E ifs s2) as [s3 evs'].
    exists (h1 ++ h2). split; [rewrite length_app; cbn; lia|]. cbn [fst] in *.
    unfold records in *. rewrite fold_left_app, E2, E1. injection V1 as _ -> _ _. done.
  - destruct (IH s1) as (h2 & L2 & E2). exists h2. split; [cbn; lia|].
    injection V1 as _ <- _ _. exact E2.
Qed.

Lemma step_records o s : exists hs, (length hs <= routed o s)%nat
  /\ hashlist (fst (step o s)) = records hs (hashlist s).
Proof.
  destruct o as [E p i|E p l|E eph iv p d|E dest|E dest|E|E j|i d w|i|d|d|dest l|dest|E dest|E ph dest pk app|E dest r|E dest|dest b|dest|E i];
    cbn [routed step].
  1: apply route_records.
  5: { unfold _sweepTick. destruct (sweep_records E (interfaces (net s)) s) as (hs & L & Eq).
       exists hs. split; [done|]. destruct (sweep_held E _ s). exact Eq. }
  all: exists []; (split; [done|]); cbn [records fold_left].
  - by injection (view_sendPacket E p l s).
  - by injection (view_destination_send E eph iv p d s).
  - destruct (requestPath E dest s) as [[s' evs]|] eqn:Hr; [|done].
    unfold requestPath in Hr. destruct (negb _); [done|]. by injection Hr as <- <-.
  - unfold requestPathAuto. destruct (negb (length dest =? 16)%nat) eqn:El; [done|].
    pose proof (view_hasPath E dest s) as V. destruct (hasPath E dest s) as [k s1]. cbn [snd] in V.
    injection V as _ <- _ _. destruct (k && _); [done|]. destruct (_ <? _); [done|].
    unfold requestPath. rewrite El. done.
  - by injection (view_receipt_timeout E j s).
  - unfold addInterface, refreshPacketWriter. by case_match.
  - unfold removeInterface. by case_match.
  - unfold bindLocalDestination. by case_match.
  - unfold unbindLocalDestination. by case_match.
  - done.
  - done.
  - by injection (view_hasPath E dest s).
  - done.
  - done.
  - unfold recallRatchet. by destruct (recallRatchetFrom _ _ _).
  - destruct b; unfold markPathResponsive, markPathUnresponsive; cbn [fst]; match goal with |- context [on_table ?f s] => by injection (view_on_table f s) end.
  - done.
  - by injection (view_release_held E i s).
Qed.

Lemma run_records ops s : exists hs, (length hs <= routed_run ops s)%nat
  /\ hashlist (run ops s) = records hs (hashlist s).
Proof.
  revert s. induction ops as [|o ops IH]; intros s; [by exists []|]. cbn [run routed_run].
  destruct (step_records o s) as (h1 & L1 & E1). destruct (IH (fst (step o s))) as (h2 & L2 & E2).
  exists (h1 ++ h2). split; [rewrite length_app; lia|].
  unfold records in *. by rewrite fold_left_app, E2, E1.
Qed.

(** Both halves of the ring are within half the maximum (the older one may
    hold the hash that made it full, too). *)
Definition ring_ok (l : Hashlist) : Prop :=
  0 <= hashlistMaxsize l
  /\ 2 * Z.of_nat (base.size (packetHashlist l)) <= hashlistMaxsize l
  /\ 2 * Z.of_nat (base.size (packetHashlistPrev l)) <= hashlistMaxsize l + 2.

Lemma size_add (h : jsstr) (c : gset jsstr) : (base.size ({[h]} ∪ c) <= S (base.size c))%nat.
Proof.
  destruct (decide (h ∈ c)) as [Hin|Hn].
  - assert ({[h]} ∪ c = c) as -> by set_solver. lia.
  - rewrite size_union by set_solver. rewrite size_singleton. lia.
Qed.

Lemma remember_ring_ok h l : ring_ok l -> ring_ok (remember_hash h l)
  /\ hashlistMaxsize (remember_hash h l) = hashlistMaxsize l.
Proof.
  intros (H0 & H1 & H2). unfold remember_hash, ring_ok. pose proof (size_add h (packetHashlist l)).
  destruct (_ <? _) eqn:E; bools; cbn [packetHashlist packetHashlistPrev hashlistMaxsize];
    rewrite ?size_empty; (split; [|done]); lia.
Qed.

Lemma records_ring_ok hs l : ring_ok l -> ring_ok (records hs l)
  /\ hashlistMaxsize (records hs l) = hashlistMaxsize l.
Proof.
  revert l. induction hs as [|h hs IH]; intros l Hl; [done|]. cbn.
  destruct (remember_ring_ok h l Hl) as [H1 E1]. destruct (IH _ H1) as [H2 E2]. unfold records in *.
  split; [done|congruence].
Qed.

(** [h] outlives the recording of [n] more hashes. *)
Definition safe_for (n : nat) (h : jsstr) (l : Hashlist) : Prop :=
  (h ∈ packetHashlist l /\ 2 * Z.of_nat n <= hashlistMaxsize l)
  \/ (h ∈ packetHashlistPrev l
      /\ 2 * (Z.of_nat (base.size (packetHashlist l)) + Z.of_nat n) <= hashlistMaxsize l).

Lemma safe_seen n h l : safe_for n h l -> seen_hash h l = true.
Proof.
  unfold safe_for, seen_hash. intros [[Hh _]|[Hh _]]; [rewrite bool_decide_true by done; done|].
  by rewrite (bool_decide_true (h ∈ packetHashlistPrev l)), orb_true_r.
Qed.

Lemma safe_remember n x h l : safe_for (S n) h l -> safe_for n h (remember_hash x l).
Proof.
  unfold safe_for, remember_hash. pose proof (size_add x (packetHashlist l)).
  intros [[Hh Hn]|[Hh Hn]]; destruct (_ <? _) eqn:E; bools;
    cbn [packetHashlist packetHashlistPrev hashlistMaxsize]; rewrite ?size_empty.
  - right. split; [set_solver|lia].
  - left. split; [set_solver|lia].
  - lia.
  - right. split; [done|lia].
Qed.

Lemma safe_records n hs h l : (length hs <= n)%nat -> safe_for n h l -> seen_hash h (records hs l) = true.
Proof.
  revert n l. induction hs as [|x hs IH]; intros n l Hn Hs; [by eapply safe_seen|].
  destruct n as [|n]; [cbn in Hn; lia|]. cbn. apply (IH n); [cbn in Hn; lia|]. by apply safe_remember.
Qed.

(** A hash that was just recorded, or just found recorded in the newer half. *)
Lemma safe_new n h l : ring_ok l -> 2 * Z.of_nat n <= hashlistMaxsize l ->
  safe_for n h (remember_hash h l).
Proof.
  intros (H0 & H1 & H2) Hn. unfold safe_for, remember_hash.
  destruct (_ <? _) eqn:E; bools; cbn [packetHashlist packetHashlistPrev hashlistMaxsize];
    rewrite ?size_empty; [right|left]; (split; [set_solver|lia]).
Qed.

(** A packet the duplicate filter looks at, with its hash. *)
Definition filtered (p : Packet) (h : bytes) : Prop :=
  packetType p <> PacketType_ANNOUNCE /\ dedup_exempt (contextByte p) = false
  /\ exists q, getHash sha256 (Packet.set_hops p (Packet.hops p + 1)) = Ok (h, q).

Lemma filtered_route E p h i s : filtered p h ->
  (seen_hash (toHex h) (hashlist s) = true ->
     _routeIncomingPacket E p i s = (packetFilterHit i s, [], Ok tt))
  /\ (seen_hash (toHex h) (hashlist s) = false ->
     hashlist (fst (fst (_routeIncomingPacket E p i s))) = remember_hash (toHex h) (hashlist s)).
Proof.
  intros (Ha & Hx & q & Hq). unfold _routeIncomingPacket. set (p1 := Packet.set_hops p _) in *.
  assert (Hp : (packetType p1 =? PacketType_ANNOUNCE) = false) by by apply Z.eqb_neq.
  rewrite Hp. unfold _isDuplicate. change (contextByte p1) with (contextByte p). rewrite Hx, Hq.
  cbn [rbind]. split; intros ->; [done|]. set (L := remember_hash _ _). set (s1 := set_hashlist s L).
  change L with (hashlist s1). clearbody s1 L.
  destruct (_ && negb (has _ (activeLinks s1)));
    [pose proof (view_handleProof p1 s1) as Hv; destruct (_handleProof p1 s1); by injection Hv|].
  destruct (_ && bytesEqual _ _); [apply (effs0_hashlist (now E)), effs0_handlePathRequest|].
  destruct (get _ (localDestinations s1)); [|by case_match].
  destruct (Destination.receive _ _ _) as [d1 [|]]; done.
Qed.

(** Duplicates are dropped within a window: after a packet was accepted
    by the duplicate filter, every further copy of it (whatever its hops, path
    or interface) is dropped without any effect but a count, as long as at most
    half of [hashlistMaxsize] packets have been routed in between; and the two
    sets of the filter never hold more than that half, plus one. *)
Theorem duplicates_dropped E p h i s ops E' p' i'
    (Hok : ring_ok (hashlist s)) (Hp : filtered p h)
    (Hnew : seen_hash (toHex h) (hashlist s) = false)
    (s1 := fst (fst (_routeIncomingPacket E p i s)))
    (Hw : 2 * Z.of_nat (routed_run ops s1) <= hashlistMaxsize (hashlist s))
    (Hp' : filtered p' h) :
  let s2 := run ops s1 in
  _routeIncomingPacket E' p' i' s2 = (packetFilterHit i' s2, [], Ok tt)
  /\ 2 * Z.of_nat (base.size (packetHashlist (hashlist s2))) <= hashlistMaxsize (hashlist s)
  /\ 2 * Z.of_nat (base.size (packetHashlistPrev (hashlist s2))) <= hashlistMaxsize (hashlist s) + 2.
Proof.
  intros s2. destruct (run_records ops s1) as (hs & Hl & Hr).
  pose proof (proj2 (filtered_route E p h i s Hp) Hnew) as H1. fold s1 in H1.
  destruct (remember_ring_ok (toHex h) _ Hok) as [Hok1 Hm1]. rewrite <- H1 in Hok1, Hm1.
  destruct (records_ring_ok hs _ Hok1) as [(_ & Hc & Hv) Hm2]. rewrite <- Hr in Hc, Hv, Hm2.
  fold s2 in Hc, Hv, Hm2. split; [|rewrite Hm2, Hm1 in *; done].
  apply (filtered_route E' p' h i' s2 Hp'). subst s2. rewrite Hr.
  apply (safe_records (routed_run ops s1)); [done|]. rewrite H1. by apply safe_new.
Qed.

(** ** Path requests *)

(** Automated path requests are rate-limited: after a request for a
    destination, manual or automated, no automated request for it goes out
    within 20 seconds, whatever happens in between (sweeps and announces
    included). *)
Theorem requests_rate_limited E dest s s1 evs ops E'
    (Hreq : requestPath E dest s = Ok (s1, evs))
    (Hops : Forall (fun o => match op_time o with
                             | Some t => now E <= t <= now E'
                             | None => True
                             end) ops)
    (Hgap : now E <= now E' < now E + PATH_REQUEST_MIN_INTERVAL_MS) :
  exists s2, requestPathAuto E' dest (run ops s1) = Ok (s2, [], false)
    /\ pathRequests (prs s2) = pathRequests (prs (run ops s1)).
Proof.
  unfold requestPath in Hreq. destruct (negb (length dest =? 16)%nat) eqn:Hl; [done|].
  injection Hreq as <- _. set (s1 := _ensureSweep _).
  assert (Hk : exists t', get (toHex dest) (pathRequests (v_prs (view (run ops s1)))) = Some t'
    /\ now E <= t').
  { apply (run_preserves (fun V => exists t', get (toHex dest) (pathRequests (v_prs V)) = Some t'
      /\ now E <= t') (fun t => now E <= t <= now E')); [|exact Hops|exists (now E); lia|].
    - intros G t V V' Ht Hst (t' & Hg & Hle). destruct Hst as [V V' Hst| |]; [|by eauto..].
      destruct Hst as [| |d k l q b| |k l q b]; cbn in *; eauto.
      + destruct (decide (toHex dest = toHex d)) as [->|Hne].
        * rewrite get_mset_same. exists t. split; [done|lia].
        * rewrite get_mset_other by done. eauto.
      + exists t'. split; [|done]. apply get_filter; [done|].
        unfold PATH_REQUEST_MIN_INTERVAL_MS, PATH_REQUEST_GATE_TIMEOUT_MS in *. lia.
    - exists (now E). cbn. rewrite get_mset_same. split; [done|lia]. }
  destruct Hk as (t' & Hg & Hle). set (s2 := run ops s1) in *. unfold requestPathAuto. rewrite Hl.
  pose proof (view_hasPath E' dest s2) as V. destruct (hasPath E' dest s2) as [known s3]. cbn [snd] in V.
  injection V as _ _ V _. destruct (known && _); [exists s3; by rewrite V|]. rewrite V.
  change (pathRequests (v_prs (view s2))) with (pathRequests (prs s2)) in Hg. rewrite Hg. change (default 0 (Some t')) with t'.
  rewrite (proj2 (Z.ltb_lt _ _)) by lia. exists s3. by rewrite V.
Qed.

(** The maintenance sweep is never missing: in every state a run reaches,
    the sweep timer is armed while a path request is recorded or in flight;
    and a sweep leaves only entries of the last 120 seconds. *)
Theorem requests_swept ops s0 E
    (Hs0 : pathRequests (prs s0) = [] /\ inflightPathRequests (prs s0) = []) :
  let s := run ops s0 in
  (pathRequests (prs s) <> [] \/ inflightPathRequests (prs s) <> [] -> sweepTimer s = true)
  /\ forall k t,
       In (k, t) (pathRequests (prs (fst (_sweepTick E s))))
       \/ In (k, t) (inflightPathRequests (prs (fst (_sweepTick E s)))) ->
       now E <= t + PATH_REQUEST_GATE_TIMEOUT_MS.
Proof.
  intros s. split.
  - change (pathRequests (v_prs (view s)) <> [] \/ inflightPathRequests (v_prs (view s)) <> [] ->
      v_timer (view s) = true). subst s.
    apply (run_preserves (fun V => pathRequests (v_prs V) <> [] \/ inflightPathRequests (v_prs V) <> [] ->
      v_timer V = true) (fun _ => True)).
    + intros G t V V' _ Hst IH. destruct Hst as [V V' Hst| |]; [|exact IH..].
      destruct Hst as [dest cf data v ph k l q b _ _| | | |k l q b b' Hb]; cbn in *; auto.
      * intros [Hr|Hi]; [auto|]. apply IH. right. intros Hn. rewrite Hn in Hi. done.
      * intros Hne. destruct Hb as [->|[H1 H2]].
        -- apply IH. destruct Hne as [Hr|Hi]; [left|right]; intros Hn;
             [rewrite Hn in Hr|rewrite Hn in Hi]; done.
        -- exfalso. unfold JsMap.size in *. apply nil_length_inv in H1, H2. tauto.
    + apply Forall_true. intros o. by destruct (op_time o).
    + by exists 0.
    + cbn. destruct Hs0 as [-> ->]. naive_solver.
  - unfold _sweepTick. destruct (sweep_held E (interfaces (net s)) s) as [s1 evs]. cbn.
    intros k t. unfold cull. rewrite <- !list_elem_of_In, !list_elem_of_filter. naive_solver.
Qed.

(** ** A leaf forwards nothing *)

Lemma dispatch_write key evs s j q : In (Write j q) (dispatch key evs s) -> In (Broadcast q) evs.
Proof.
  unfold dispatch. rewrite in_flat_map. intros (e & He & Hin). destruct e as [p| | | | |].
  1: { unfold broadcast in Hin. apply in_map_iff in Hin as (k & [= -> ->] & _). exact He. }
  all: destruct Hin as [[=]|[]].
Qed.

Lemma handleData_broadcast ld p d d' evs q :
  _handleData ld p d = (d', Ok evs) -> In (Broadcast q) evs ->
  packetType p = PacketType_DATA /\ contextByte p = ContextType_NONE
  /\ exists h r body, getHash sha256 p = Ok (h, r)
     /\ q = new_Packet PacketType_PROOF DestType_SINGLE ContextType_NONE (slice 0 16 h) body.
Proof.
  unfold _handleData. destruct (open_data ld p d) as [d1 [[m|]|e]]; cbn [rbind];
    intros [= <- <-] Hin; [|done].
  destruct Hin as [[=]|Hin]. destruct (_ && _) eqn:Hg; [|done].
  apply andb_prop in Hg as [Hg _]. apply andb_prop in Hg as [Hg _]. apply andb_prop in Hg as [Hg _].
  apply andb_prop in Hg as [Ht Hc]. bools. split; [done|]. split; [done|].
  unfold _provePacket in Hin. destruct (Destination.identity d1) as [id|]; [|done].
  destruct (interfaceLayer d1) as [l|]; [|done].
  destruct (getHash sha256 p) as [[h r]|]; [|done]. cbn [rbind] in Hin.
  destruct (sign id h) as [sig|]; [|done]. destruct Hin as [[= <-]|[]].
  exists h, r. eexists. split; reflexivity.
Qed.

Lemma rotate_no_broadcast force now priv d q : ~ In (Broadcast q) (snd (rotateRatchets force now priv d)).
Proof.
  unfold rotateRatchets, _persistOwnedRatchets.
  repeat case_match; cbn; intros Hin; intuition congruence.
Qed.

Lemma current_no_broadcast now priv d q :
  ~ In (Broadcast q) (snd (fst (_currentRatchetForAnnounce now priv d))).
Proof.
  unfold _currentRatchetForAnnounce. case_match; [tauto|].
  pose proof (rotate_no_broadcast false now priv d q). by destruct (rotateRatchets false now priv d).
Qed.

Lemma build_no_broadcast now rnd priv id dh nh d q :
  ~ In (Broadcast q) (snd (fst (build_payload now rnd priv id dh nh d))).
Proof.
  unfold build_payload. case_match; [tauto|]. destruct (createAnnounceRandomHash _ _); [|tauto].
  pose proof (current_no_broadcast now priv d q). by destruct (_currentRatchetForAnnounce now priv d) as [[? ?] ?].
Qed.

(** The packet an announce attempt builds, and that it is its only broadcast. *)
Lemma emit_begin_packet now rnd priv ctx tag d :
  (forall q, ~ In (Broadcast q) (snd (fst (emit_begin now rnd priv ctx tag d))))
  /\ forall p, snd (emit_begin now rnd priv ctx tag d) = Ok p ->
     packetType p = PacketType_ANNOUNCE /\ contextByte p = ctx
     /\ Destination.destinationHash d = Some (Packet.destinationHash p).
Proof.
  unfold emit_begin. destruct (interfaceLayer d), (Destination.identity d) as [id|],
    (Destination.destinationHash d) as [dh|], (nameHash d) as [nh|]; try (split; [tauto|done]).
  set (d1 := match tag_key ctx tag with Some _ => _ | None => d end).
  assert (Hfin : forall (r : result (bytes * bool)) d2 (p : Packet),
    (let! (payload, hr) := r in
       if (length payload <? 148)%nat then Throw (JsError "Announce payload too small")
       else Ok (mkPacket HeaderType_1 0 TransportType_BROADCAST (type d2) PacketType_ANNOUNCE hr dh ctx
                  payload None [])) = Ok p ->
    packetType p = PacketType_ANNOUNCE /\ contextByte p = ctx /\ Some dh = Some (Packet.destinationHash p)).
  { intros [[payload hr]|e] d2 p; cbn [rbind]; [|done]. destruct (_ <? _)%nat; [done|]. by intros [= <-]. }
  destruct (k ← tag_key ctx tag; get k (pathResponses d1)) as [c|].
  { split; [tauto|]. intros p. apply Hfin. }
  pose proof (build_no_broadcast now rnd priv id dh nh d1) as Hb.
  destruct (build_payload now rnd priv id dh nh d1) as [[d2 evs] [[payload hr]|e]]; cbn [fst snd] in *.
  - split; [exact Hb|]. intros p. apply (Hfin (Ok (payload, hr))).
  - split; [exact Hb|done].
Qed.

(** The two packets a leaf sends by itself when [p] arrives. *)
Definition own_reply (s : TransportCore) (p q : Packet) : Prop :=
  packetType p = PacketType_DATA /\
  ((contextByte p = ContextType_NONE
    /\ has (toHex (Packet.destinationHash p)) (localDestinations s) = true
    /\ exists h r body, getHash sha256 (Packet.set_hops p (Packet.hops p + 1)) = Ok (h, r)
       /\ q = new_Packet PacketType_PROOF DestType_SINGLE ContextType_NONE (slice 0 16 h) body)
   \/ (Packet.destinationHash p = _pathRequestDestHash
       /\ exists d, get (toHex (slice 0 16 (payload p))) (localDestinations s) = Some d
          /\ Destination.destinationHash d = Some (Packet.destinationHash q)
          /\ packetType q = PacketType_ANNOUNCE /\ contextByte q = ContextType_PATH_RESPONSE)).

Lemma receive_broadcast ld p d d' evs q :
  Destination.receive ld p d = (d', Ok evs) -> In (Broadcast q) evs ->
  packetType p = PacketType_DATA /\ contextByte p = ContextType_NONE
  /\ exists h r body, getHash sha256 p = Ok (h, r)
     /\ q = new_Packet PacketType_PROOF DestType_SINGLE ContextType_NONE (slice 0 16 h) body.
Proof.
  unfold Destination.receive. destruct (packetType p =? PacketType_DATA); [apply handleData_broadcast|].
  case_match; intros [= <- <-]; [intros [[=]|[]]|intros []].
Qed.

Lemma path_request_writes E p i s j q :
  In (Write j q) (snd (fst (_handlePathRequest E p i s))) ->
  exists d, get (toHex (slice 0 16 (payload p))) (localDestinations s) = Some d
    /\ Destination.destinationHash d = Some (Packet.destinationHash q)
    /\ packetType q = PacketType_ANNOUNCE /\ contextByte q = ContextType_PATH_RESPONSE.
Proof.
  unfold _handlePathRequest.
  destruct (length (payload p) <? 16)%nat; [intros []|]. destruct (pr_tag (payload p)) as [tag over].
  set (s1 := if over then _ else s).
  assert (V1 : localDestinations s1 = localDestinations s) by (subst s1; by case_match).
  destruct tag as [[|b tag]|]; [intros []| |intros []].
  set (s2 := sample _ i s1).
  assert (V2 : localDestinations s2 = localDestinations s1) by (subst s2; unfold sample; by case_match).
  case_bool_decide; [intros []|]. set (s3 := set_prs s2 _ _).
  assert (V3 : localDestinations (snd (ingress_limited_pr E i s3)) = localDestinations s2).
  { unfold ingress_limited_pr. case_match; [|done]. by destruct (shouldIngressLimitPr _ _). }
  destruct (ingress_limited_pr E i s3) as [lim s4]. cbn [snd] in V3. destruct lim; [intros []|].
  assert (V4 : localDestinations s4 = localDestinations s) by congruence.
  unfold answer_path_request. rewrite V4. destruct (get _ _) as [d|]; [|intros []].
  destruct (Destination.identity d); [|intros []].
  unfold announcePathResponse, _emitAnnounce.
  pose proof (emit_begin_packet (now E) (random E) (freshKey E) ContextType_PATH_RESPONSE
    (Some (b :: tag)) d) as [Hn Hp].
  destruct (emit_begin _ _ _ _ _ d) as [[d1 evs] [q'|e]]; cbn [fst snd] in *;
    intros Hin; apply dispatch_write in Hin; [|by apply Hn in Hin].
  apply in_app_or in Hin as [Hin|Hin]; [by apply Hn in Hin|].
  destruct Hin as [[= <-]|[[=]|[]]]. destruct (Hp q' eq_refl) as (? & ? & ?). eauto 6.
Qed.

Lemma ingest_writes E p i v s j q : ~ In (Write j q) (snd (fst (ingest E p i v s))).
Proof.
  unfold ingest, learn. intros Hin. destruct (collides _ _ _); [done|].
  destruct (getHash sha256 p) as [[ph q']|e]; [|done].
  match type of Hin with context [on_table ?f ?s] => destruct (on_table f s) end.
  destruct Hin as [[=]|[]].
Qed.

Lemma announce_writes E p i s j q : ~ In (Write j q) (snd (fst (_handleAnnounce E p i s))).
Proof.
  unfold _handleAnnounce. destruct (announce_open p i s) as [s1 [v|]]; [|intros []].
  destruct (announce_held E p i s1) as [[|] s2]; [intros []|apply ingest_writes].
Qed.

(** A leaf forwards nothing: all a transport ever transmits because a
    packet arrived is the proof of an opportunistic packet to a destination of
    its own, addressed to that packet's hash, or the path-response announce of
    the destination of its own that a path request asked for; an announce, a
    proof, a link packet or a stranger's packet causes no transmission by the
    transport. *)
Theorem leaf_never_forwards E p i s j q
    (Hq : In (Write j q) (snd (fst (_routeIncomingPacket E p i s)))) : own_reply s p q.
Proof.
  revert Hq. unfold _routeIncomingPacket. set (p1 := Packet.set_hops p _).
  destruct (packetType p1 =? PacketType_ANNOUNCE); [intros Hq; by apply announce_writes in Hq|].
  destruct (_isDuplicate p1 s) as [[[|] s1]|e] eqn:Hd; [intros []| |intros []].
  assert (V : localDestinations s1 = localDestinations s).
  { revert Hd. unfold _isDuplicate. case_match; [by intros [= <-]|].
    destruct (getHash sha256 p1) as [[h r]|]; [|done]. cbn [rbind]. case_match; by intros [= <-]. }
  destruct (_ && negb (has _ (activeLinks s1))).
  { unfold _handleProof. destruct (proof_begin _ _); [|intros []]. destruct (proof_end _ _ _ _) as [[w evs] ok].
    cbn [fst snd]. intros Hin. apply in_map_iff in Hin as (? & [=] & _). }
  destruct (_ && bytesEqual _ _) eqn:Hpr.
  { apply andb_prop in Hpr as [Ht Hb]. bools. apply bytesEqual_spec in Hb. intros Hin.
    split; [exact Ht|]. right. split; [exact Hb|]. rewrite <- V.
    apply (path_request_writes E p1 i s1 j q Hin). }
  destruct (get _ (localDestinations s1)) as [d|] eqn:Hg.
  2: { case_match; intros Hin; [destruct Hin as [[=]|[]]|destruct Hin]. }
  destruct (Destination.receive (loaded E) p1 d) as [d1 [evs|e]] eqn:Hr; [|intros []]. cbn [fst snd]. intros Hin.
  apply dispatch_write in Hin.
  destruct (receive_broadcast _ _ _ _ _ _ Hr Hin) as (Ht & Hc & h & r & body & Hh & Hq).
  split; [exact Ht|]. left. split; [exact Hc|]. rewrite <- V.
  split; [unfold has; change (Packet.destinationHash p) with (Packet.destinationHash p1); by rewrite Hg|].
  eauto 6.
Qed.

(** ** Where a packet goes *)

Definition egress (r : Route) (s : TransportCore) : option nat :=
  match interface r with Some f => Some (iface_id f) | None => defaultInterface (net s) end.

(** A path that is not marked dead and whose interface can transmit. *)
Definition usable (r : Route) (s : TransportCore) : bool :=
  negb (bool_decide (state r = UNRESPONSIVE)) && has_writer s (egress r s).

(** How a packet travels on a path. *)
Definition on_path (r : Route) (q : Packet) : Packet :=
  if (1 <? Router.hops r) && (headerType q =? HeaderType_1) then inject q (nextHop r) else q.

Lemma getRoute_net E d s : net (snd (getRoute E d s)) = net s.
Proof. unfold getRoute, on_table. by destruct (Router.getRoute _ _ _). Qed.

Lemma getRoute_links E d s : activeLinks (snd (getRoute E d s)) = activeLinks s.
Proof. unfold getRoute, on_table. by destruct (Router.getRoute _ _ _). Qed.

Lemma has_writer_net s s' i : net s' = net s -> has_writer s' i = has_writer s i.
Proof. intros Hn. unfold has_writer, port. by rewrite Hn. Qed.

Lemma egress_net r s s' : net s' = net s -> egress r s' = egress r s.
Proof. intros Hn. unfold egress. by rewrite Hn. Qed.

Lemma getRoute_absent E d s : fst (getRoute E d s) = None ->
  get (toHex d) (pathTable (snd (getRoute E d s))) = None.
Proof.
  unfold getRoute, on_table, Router.getRoute. cbn [table routes].
  destruct (get (toHex d) (pathTable s)) as [r|] eqn:Hg; [|by cbn].
  destruct (_ >=? _); [cbn; intros _; apply get_mdelete_same|].
  destruct (interface r), (interfaceName r) as [[|]|]; cbn; try done.
  by destruct (resolve_name _ _).
Qed.

(** The path a send uses, and what becomes of a dead one. *)
Lemma usable_route_spec E p s : is_routable p = true ->
  let d := Packet.destinationHash p in
  let '(r, s1) := usable_route E p s in
  net s1 = net s /\ activeLinks s1 = activeLinks s /\ caches s1 = caches s
  /\ r = match fst (getRoute E d s) with Some r => if usable r s then Some r else None | None => None end
  /\ (r = None -> get (toHex d) (pathTable s1) = None).
Proof.
  intros Hr d. unfold usable_route. rewrite Hr. fold d.
  pose proof (getRoute_net E d s) as Hn. pose proof (getRoute_links E d s) as Hl.
  pose proof (getRoute_absent E d s) as Ha.
  assert (Hc : caches (snd (getRoute E d s)) = caches s)
    by (unfold getRoute, on_table; by destruct (Router.getRoute _ _ _)).
  destruct (getRoute E d s) as [[r|] s1]; cbn [fst snd] in *; [|auto 6].
  unfold usable. fold (egress r s1). rewrite (egress_net r s s1 Hn), (has_writer_net s s1 _ Hn).
  assert (He : forall x, get (toHex d) (pathTable (expirePath d x)) = None)
    by (intros x; apply get_mdelete_same).
  assert (Hx : net (expirePath d s1) = net s /\ activeLinks (expirePath d s1) = activeLinks s
    /\ caches (expirePath d s1) = caches s) by (repeat split; assumption).
  destruct Hx as (Hx1 & Hx2 & Hx3).
  case_bool_decide as Hs; cbn [negb andb]; [by auto 6|].
  destruct (has_writer s (egress r s)); [|by auto 6]. repeat split; done.
Qed.

(** Hashing a packet at most fills in its [raw]. *)
Lemma getHash_raw p h q : getHash sha256 p = Ok (h, q) -> q = set_raw p (raw q).
Proof.
  unfold getHash, getHashablePart. destruct (raw p) as [|b l] eqn:Hr; cbn [rbind].
  - destruct (serialize p) as [f|]; [|done]. cbn [rbind]. by intros [= _ <-].
  - intros [= _ <-]. by destruct p.
Qed.

(** The transmission, given the path. *)
Lemma emit_spec E q r s1 s : net s1 = net s -> activeLinks s1 = activeLinks s ->
  destinationType q <> DestType_LINK ->
  match r with Some r => usable r s = true | None => True end ->
  let '(s2, sent) := emit E q r s1 in
  activeLinks s2 = activeLinks s
  /\ sent = match (match r with
                  | Some r => j ← egress r s; Some (j, on_path r q)
                  | None => if has_writer s (defaultInterface (net s))
                            then j ← defaultInterface (net s); Some (j, q) else None
                  end) with
            | Some (j, f) => Ok [Write j f]
            | None => Throw (JsError "No route to host")
            end.
Proof.
  intros Hn Hk Hl Hu. unfold emit. destruct r as [r|].
  - apply andb_prop in Hu as [_ Hw]. rewrite Hn. fold (egress r s). unfold _transmit.
    rewrite (has_writer_net s s1) by done. destruct (egress r s) as [j|]; [|by cbn in Hw].
    rewrite Hw. by split.
  - rewrite (proj2 (Z.eqb_neq _ _)) by done. rewrite Hn.
    destruct (defaultInterface (net s)) as [j|]; [|by split].
    rewrite (has_writer_net s s1) by done. by destruct (has_writer s (Some j)).
Qed.

(** Where a packet goes: a routable packet below the hop limit is either
    transmitted exactly once or the call throws. It goes out on the interface
    its path was learned through (put into transport towards the next hop when
    the destination is more than one hop away) if that path is not marked
    unresponsive and the interface can transmit; otherwise on the default
    interface, unchanged. A receipt is made exactly for an opportunistic
    packet. *)
Theorem send_routing E p s h q
    (Hh : Packet.hops p < PATHFINDER_M) (Hg : getHash sha256 p = Ok (h, q))
    (Hr : is_routable q = true) (Hl : destinationType q <> DestType_LINK) :
  let d := Packet.destinationHash q in
  let target :=
    match (r ← fst (getRoute E d s); if usable r s then Some r else None) with
    | Some r => j ← egress r s; Some (j, on_path r q)
    | None => if has_writer s (defaultInterface (net s))
              then j ← defaultInterface (net s); Some (j, q) else None
    end in
  let '(s', evs, res) := sendPacket E p None s in
  match target with
  | Some (j, f) =>
      evs = Write j f :: (if has (toHex d) (activeLinks s) then [] else [MarkContacted d])
      /\ exists receipt, res = Ok receipt
         /\ (receipt <> None <-> packetType q = PacketType_DATA /\ contextByte q = ContextType_NONE)
  | None => evs = [] /\ res = Throw (JsError "No route to host")
  end.
Proof.
  cbv zeta. unfold sendPacket. rewrite (proj2 (Z.leb_gt _ _)) by done. rewrite Hg.
  pose proof (usable_route_spec E q s Hr) as Hu. set (d := Packet.destinationHash q) in *. cbv zeta in Hu.
  destruct (usable_route E q s) as [r s1]. destruct Hu as (Hn & Hk & _ & Hrr & _).
  assert (Hok : match r with Some r => usable r s = true | None => True end).
  { subst r. destruct (fst (getRoute E d s)) as [r0|]; [|done]. by destruct (usable r0 s) eqn:Hus. }
  assert (Hb : (r1 ← fst (getRoute E d s); if usable r1 s then Some r1 else None) = r)
    by (subst r; by destruct (fst (getRoute E d s))).
  rewrite Hb. pose proof (emit_spec E q r s1 s Hn Hk Hl Hok) as He.
  destruct (emit E q r s1) as [s2 sent]. destruct He as [Hk2 ->]. clear Hb Hrr Hok.
  set (target := match r with Some _ => _ | None => _ end). clearbody target.
  destruct target as [[j f]|]; [|by split].
  rewrite Hr, Hk2. cbn [andb]. replace (Packet.destinationHash p) with d
    by (subst d; by rewrite (getHash_raw p h q Hg)).
  assert (Hw : snd (await_proof E h q s2) <> None
    <-> packetType q = PacketType_DATA /\ contextByte q = ContextType_NONE).
  { unfold await_proof. destruct (packetType q =? PacketType_DATA) eqn:E1,
      (contextByte q =? ContextType_NONE) eqn:E2; bools; cbn [andb];
      [|cbn; tauto..].
    destruct (firstHopTimeout _ _ s2) as [t s3]. destruct (track _ _ _ _ _ _ _). cbn.
    split; [by split|done]. }
  destruct (await_proof E h q s2) as [s3 receipt]. cbn [snd] in Hw.
  split; [by destruct (has (toHex d) (activeLinks s))|]. eauto.
Qed.
End WithCrypto.

(** ** Witnesses *)

Import Toy MsgPackSpec.Host.

Definition sample_port (n : nat) : Port :=
  mkPort (mkIface n (lit "tcp") None) (Some 1000000) true true (new_Ingress 0 default_config) None 0 0 0.

(** A transport with one attached interface, the default one. *)
Definition sample_core : TransportCore :=
  set_net new_TransportCore (mkNet [sample_port 0] [0%nat] (Some 0%nat)).

Definition sample_at (t : Z) : Env := mkEnv t (replicate 16 3) (replicate 32 4) (Ok None).

(** The announce of the sample destination, as it arrives. *)
Definition parsed (p : Packet) : Packet :=
  match serialize p with Ok r => set_raw p r | Throw _ => p end.

Definition sample_announce : Packet := Eval vm_compute in
  match snd (emit_begin 5000 (replicate 16 1) (replicate 32 9) ContextType_NONE None sample_destination) with
  | Ok p => parsed p
  | Throw _ => new_Packet 0 0 0 [] []
  end.

Definition sample_hash16 : bytes := Eval vm_compute in
  default [] (Destination.destinationHash sample_destination).

Definition sample_learned : TransportCore := Eval vm_compute in
  run [Incoming (sample_at 6000) sample_announce 0] sample_core.

Lemma known_keys_pinned_witness :
  exists e, get (toHex sample_hash16) (knownDestinations (caches sample_learned)) = Some e
    /\ (authentic (toHex sample_hash16) e \/ given [Do (Incoming (sample_at 6000) sample_announce 0)] (toHex sample_hash16) (k_publicKey e))
    /\ exists e', get (toHex sample_hash16) (knownDestinations (caches
           (rememberIdentity (sample_at 7000) [] sample_hash16 [1; 2; 3] None sample_learned))) = Some e'
         /\ given [Do (Remember (sample_at 7000) [] sample_hash16 [1; 2; 3] None)] (toHex sample_hash16) (k_publicKey e').
Proof.
  eexists. split; [vm_compute; reflexivity|].
  match goal with |- (authentic _ ?e \/ _) /\ _ =>
    destruct (known_keys_pinned [Do (Incoming (sample_at 6000) sample_announce 0)]
      [Do (Remember (sample_at 7000) [] sample_hash16 [1; 2; 3] None)] sample_core (toHex sample_hash16) e)
      as (H1 & e' & H2 & _ & H3) end.
  - reflexivity.
  - vm_compute. reflexivity.
  - split; [exact H1|]. exists e'.
    assert (Hg : get (toHex sample_hash16) (knownDestinations (caches
           (rememberIdentity (sample_at 7000) [] sample_hash16 [1; 2; 3] None sample_learned))) = Some e') by (rewrite <- H2; vm_compute; reflexivity).
    split; [exact Hg|]. destruct H3 as [H3|[H3|(h & Hh & _)]]; [|exact H3|].
    + vm_compute in Hg. injection Hg as <-. vm_compute in H3. discriminate H3.
    + vm_compute in Hh. inversion Hh.
Defined.

(** An opportunistic packet, and the same a hop further. *)
Definition sample_data : Packet := Eval vm_compute in
  parsed (new_Packet PacketType_DATA DestType_SINGLE ContextType_NONE (replicate 16 9) [1; 2; 3]).
Definition sample_copy : Packet := Packet.set_hops sample_data 3.

Definition hash_of (p : Packet) : bytes := match getHash sha256 p with Ok (h, _) => h | Throw _ => [] end.

Lemma duplicates_dropped_witness :
  let s1 := fst (fst (_routeIncomingPacket (sample_at 1000) sample_data 0 sample_core)) in
  let s2 := run [Incoming (sample_at 1500) sample_announce 0] s1 in
  _routeIncomingPacket (sample_at 2000) sample_copy 0 s2 = (packetFilterHit 0 s2, [], Ok tt).
Proof.
  refine (proj1 (duplicates_dropped (sample_at 1000) sample_data (hash_of sample_data) 0 sample_core
    [Incoming (sample_at 1500) sample_announce 0] (sample_at 2000) sample_copy 0 _ _ _ _ _)).
  - repeat split; vm_compute; discriminate.
  - repeat split; [discriminate|]. eexists. vm_compute. reflexivity.
  - vm_compute. reflexivity.
  - vm_compute. discriminate.
  - repeat split; [discriminate|]. eexists. vm_compute. reflexivity.
Defined.

Lemma requests_rate_limited_witness :
  exists s1 evs s2, requestPath (sample_at 100000) (replicate 16 9) sample_core = Ok (s1, evs)
    /\ requestPathAuto (sample_at 119999) (replicate 16 9) (run [Sweep (sample_at 105000)] s1)
       = Ok (s2, [], false).
Proof.
  eexists _, _.
  destruct (requests_rate_limited (sample_at 100000) (replicate 16 9) sample_core _ _
    [Sweep (sample_at 105000)] (sample_at 119999) eq_refl) as (s2 & H2 & _).
  - repeat constructor; cbn; lia.
  - cbn. unfold PATH_REQUEST_MIN_INTERVAL_MS. lia.
  - exists s2. split; [reflexivity|exact H2].
Defined.

Lemma requests_swept_witness :
  let s := run [Request (sample_at 100000) (replicate 16 9)] sample_core in
  pathRequests (prs s) <> [] /\ sweepTimer s = true.
Proof.
  split; [vm_compute; discriminate|].
  refine (proj1 (requests_swept [Request (sample_at 100000) (replicate 16 9)] sample_core
    (sample_at 0) _) _); [by split|]. left. vm_compute. discriminate.
Defined.

(** The sample destination, bound, receives a message for its identity. *)
Definition sample_message : Packet := Eval vm_compute in
  match Identity.encrypt (replicate 32 7) (replicate 16 8) sample_self [104; 105] None with
  | Ok c => parsed (new_Packet PacketType_DATA DestType_SINGLE ContextType_NONE sample_hash16 c)
  | Throw _ => sample_data
  end.
Definition sample_bound : TransportCore := Eval vm_compute in
  bindLocalDestination sample_destination sample_core.

Lemma leaf_never_forwards_witness :
  exists q, In (Write 0 q) (snd (fst (_routeIncomingPacket (sample_at 1000) sample_message 0 sample_bound)))
    /\ own_reply sample_bound sample_message q.
Proof.
  eexists. refine ((fun H => conj H (leaf_never_forwards (sample_at 1000) sample_message 0 sample_bound 0 _ H)) _).
  vm_compute. right. left. reflexivity.
Defined.

Lemma send_routing_witness :
  let '(_, evs, res) := sendPacket (sample_at 1000) sample_data None sample_core in
  evs = [Write 0 sample_data; MarkContacted (replicate 16 9)]
  /\ exists receipt, res = Ok receipt
     /\ (receipt <> None <-> packetType sample_data = PacketType_DATA
                             /\ contextByte sample_data = ContextType_NONE).
Proof.
  exact (@send_routing toy_crypto (sample_at 1000) sample_data sample_core (hash_of sample_data) sample_data
    eq_refl ltac:(vm_compute; reflexivity) eq_refl ltac:(discriminate)).
Defined.
