(* ===== verification/Delivery.v ===== *)
(** * Delivery: two nodes together

    The composition of destinations, transports, packets on the wire and
    receipts: an announce teaches a transport how to reach and encrypt to a
    destination, and an opportunistic packet is delivered and its receipt
    confirmed. *)

From S2P Require Import Prelude Encoding JsMap Utf8 MsgPack MsgPackSpec Crypto Identity Link.
From S2P Require Import Interface Router Receipt Destination Packet Transport TransportSpec.

Section WithCrypto.
Context `{C : WebCrypto} `{H : JsHost} `{L : !WebCryptoLaws C}.

(** The public half of an identity, as somebody else holds it. *)
Definition public_of (id peer : Identity) : Prop :=
  x25519Pub peer = x25519Pub id /\ ed25519Pub peer = ed25519Pub id
  /\ identityHash peer = identityHash id.

Lemma encrypt_public id peer eph iv m r : public_of id peer ->
  Identity.encrypt eph iv peer m r = Identity.encrypt eph iv id m r.
Proof.
  intros (Hx & _ & Hh). unfold Identity.encrypt, derive_token, getSalt. by rewrite Hx, Hh.
Qed.

Lemma validate_public id peer sig m : public_of id peer -> validate peer sig m = validate id sig m.
Proof. intros (_ & He & _). unfold validate. by rewrite He. Qed.

(** ** Packets on the way *)

Lemma relayed_inject e nh q : length nh = DST_LEN -> relayed (inject e nh) q -> relayed e q.
Proof.
  intros Hn (x & h & r & Hh & Hx & Hs & Hd). destruct x as [n|].
  - exists (Some n), h, r. split; [done|]. split; [done|]. split; [|done]. exact Hs.
  - exists (Some nh), h, r. split; [done|]. split; [done|]. split; [|done]. exact Hs.
Qed.

(** What was handed to an interface for the packet [e]. *)
Definition sent_as (e f : Packet) : Prop :=
  f = set_raw e (raw f) \/ exists nh, f = inject e nh /\ length nh = DST_LEN.

Lemma relayed_sent e f q : sent_as e f -> relayed f q -> relayed e q.
Proof.
  intros [->|(nh & -> & Hn)] Hr; [by apply relayed_set_raw in Hr|by eapply relayed_inject].
Qed.

(** The hash the sender computes and the one every receiver computes. *)
Lemma getHash_new e : fits e -> raw e = [] ->
  exists r, serialize e = Ok r /\ getHash sha256 e = Ok (sha256 (hashable_fields e), set_raw e r).
Proof.
  intros Hf Hr. destruct (serialize e) as [r|err] eqn:Hs.
  - exists r. split; [done|]. unfold getHash. by rewrite (getHashablePart_fresh e r).
  - exfalso. unfold serialize in Hs. destruct (headerType e =? HeaderType_2) eqn:E; [|done].
    destruct Hf as ([[Hh _]|(_ & t & Ht & _)] & _); bools; [rewrite Hh in E; discriminate|]. by rewrite Ht in Hs.
Qed.

Lemma getHash_incoming e q : fits e -> relayed e q ->
  let p := Packet.set_hops q (Packet.hops q + 1) in getHash sha256 p = Ok (sha256 (hashable_fields e), p).
Proof.
  intros Hf Hr. destruct (relayed_parse e q Hf Hr) as (_ & _ & _ & _ & _ & _ & _ & Hs & _).
  pose proof (relayed_hashable e q Hf Hr) as Hh. cbv zeta. unfold getHash, getHashablePart in *.
  cbn [raw Packet.set_hops headerType]. pose proof (serialize_nonempty _ _ Hs).
  destruct (raw q) as [|b l] eqn:Hq; [done|]. cbn [rbind] in *. cbn [raw Packet.set_hops headerType].
  assert (Hh2 : forall x y : bytes * Packet, Ok x = Ok y -> fst x = fst y) by (intros ? ? [= ->]; done).
  apply Hh2 in Hh. cbn [fst] in Hh. by rewrite Hh.
Qed.

(** ** The sender *)

Lemma emit_fields E q r s : let '(s', _) := emit E q r s in
  caches s' = caches s /\ hashlist s' = hashlist s /\ activeLinks s' = activeLinks s.
Proof.
  unfold emit. destruct r as [r|].
  - by destruct (_transmit _ _ _).
  - set (at_link := if destinationType q =? DestType_LINK then _ else None). clearbody at_link.
    destruct at_link; [done|]. destruct (defaultInterface (net s)); [|done].
    by destruct (has_writer _ _).
Qed.

Lemma firstHop_fields E d s : let s' := snd (firstHopTimeout E d s) in
  caches s' = caches s /\ hashlist s' = hashlist s /\ activeLinks s' = activeLinks s.
Proof.
  unfold firstHopTimeout, getRoute, on_table. by destruct (Router.getRoute _ _ _).
Qed.

Lemma usable_fields E q s : let '(_, s') := usable_route E q s in
  caches s' = caches s /\ hashlist s' = hashlist s /\ activeLinks s' = activeLinks s.
Proof.
  unfold usable_route, getRoute, on_table. destruct (is_routable q); [|done].
  destruct (Router.getRoute _ _ _) as [[r|] t]; [|done]. case_bool_decide; [done|].
  by destruct (has_writer _ _).
Qed.

Lemma emit_writes E q r s s' evs j f : emit E q r s = (s', Ok evs) -> In (Write j f) evs ->
  f = q \/ exists nh, f = inject q nh.
Proof.
  unfold emit, _transmit. intros He Hin. destruct r as [r|].
  - set (g := if _ && _ then _ else q) in He.
    assert (Hg : g = q \/ exists nh, g = inject q nh) by (subst g; destruct (_ && _); eauto). clearbody g.
    destruct (match interface r with Some f0 => _ | None => _ end) as [k|]; [|done].
    destruct (has_writer s (Some k)); [|done]. injection He as <- <-. by destruct Hin as [[= <- <-]|[]].
  - left. set (at_link := if destinationType q =? DestType_LINK then _ else None) in He.
    clearbody at_link. destruct at_link as [k|].
    + destruct (has_writer s (Some k)); [|done]. injection He as <- <-. by destruct Hin as [[= <- <-]|[]].
    + destruct (defaultInterface (net s)) as [k|]; [|done].
      destruct (has_writer s (Some k)); [|done]. injection He as <- <-. by destruct Hin as [[= <- <-]|[]].
Qed.

(** What a successful opportunistic send leaves: the receipt for exactly this
    packet, and the packet, as it is or put into transport, on an interface. *)
Lemma sendPacket_receipt E e s s' evs rid h q :
  packetType e = PacketType_DATA -> contextByte e = ContextType_NONE ->
  getHash sha256 e = Ok (h, q) -> sendPacket E e None s = (s', evs, Ok (Some rid)) ->
  (exists ms, (registry (caches s'), rid)
     = track (now E) ms h (Packet.destinationHash e) false true (registry (caches s)))
  /\ knownDestinations (caches s') = knownDestinations (caches s)
  /\ hashlist s' = hashlist s /\ activeLinks s' = activeLinks s
  /\ forall j f, In (Write j f) evs -> f = q \/ exists nh, f = inject q nh.
Proof.
  intros Ht Hc Hg Hs. unfold sendPacket in Hs. destruct (PATHFINDER_M <=? Packet.hops e); [done|].
  rewrite Hg in Hs. pose proof (usable_fields E q s) as Hu.
  destruct (usable_route E q s) as [r s1]. destruct Hu as (U1 & U2 & U3).
  pose proof (emit_fields E q r s1) as He. pose proof (emit_writes E q r s1) as Hw.
  destruct (emit E q r s1) as [s2 [evs2|err]]; [|done]. destruct He as (M1 & M2 & M3).
  rewrite (getHash_raw e h q Hg) in Hs. unfold await_proof in Hs.
  cbn [packetType contextByte set_raw Packet.destinationHash] in Hs. rewrite Ht, Hc in Hs.
  cbn [Z.eqb Pos.eqb andb PacketType_DATA ContextType_NONE] in Hs.
  change (PacketType_DATA =? PacketType_DATA) with true in Hs.
  change (ContextType_NONE =? ContextType_NONE) with true in Hs. cbn [andb] in Hs.
  pose proof (firstHop_fields E (Packet.destinationHash e) s2) as Hf. cbv zeta in Hf.
  destruct (firstHopTimeout E _ s2) as [t s3]. cbn [snd] in Hf. destruct Hf as (F1 & F2 & F3).
  destruct (track _ _ _ _ _ _ _) as [w j] eqn:Htr. injection Hs as <- <- <-.
  split. { eexists. rewrite F1, M1, U1 in Htr. symmetry. exact Htr. }
  cbn. rewrite F1, F2, F3, M1, M2, M3, U1, U2, U3. repeat split.
  intros j' f Hin. apply in_app_or in Hin as [Hin|Hin].
  - by eapply Hw.
  - by case_match; [destruct Hin as [[=]|[]]|].
Qed.

(** ** The receiver *)

(** The proof packet of a delivered packet with hash [h]. *)
Definition proof_of (id : Identity) (h : bytes) (pr : Packet) : Prop :=
  exists sig body,
    pr = new_Packet PacketType_PROOF DestType_SINGLE ContextType_NONE (slice 0 16 h) body
    /\ validate id sig h = true /\ length sig = 64%nat /\ (body = sig \/ body = h ++ sig).

Lemma provePacket_ok R id l p h r :
  Destination.identity R = Some id -> wf_identity id -> interfaceLayer R = Some l ->
  getHash sha256 p = Ok (h, r) ->
  exists pr, _provePacket p R = Ok [Broadcast pr] /\ proof_of id h pr.
Proof.
  intros Hi Hw Hl Hh. unfold _provePacket. rewrite Hi, Hl, Hh. cbn [rbind].
  destruct (sign_validate id h Hw) as (sig & Hs & Hsl & Hv & _). rewrite Hs. cbn [rbind].
  eexists. split; [reflexivity|]. exists sig. eexists. split; [reflexivity|].
  split; [done|]. split; [done|]. destruct (default true (useImplicitProof l)); auto.
Qed.

Lemma handleData_opens ld R id l p m h r :
  Destination.identity R = Some id -> wf_identity id -> interfaceLayer R = Some l ->
  type R = DestType_SINGLE -> packetType p = PacketType_DATA -> contextByte p = ContextType_NONE ->
  getHash sha256 p = Ok (h, r) -> Identity.decrypt id (payload p) (privRing R) = Ok (Some m) ->
  exists pr, Destination.receive ld p R = (R, Ok [DataEvent m; Broadcast pr]) /\ proof_of id h pr.
Proof.
  intros Hi Hw Hl Ht Hp Hc Hh Hd.
  destruct (provePacket_ok R id l p h r Hi Hw Hl Hh) as (pr & Hpr & Hpo). exists pr. split; [|exact Hpo].
  unfold Destination.receive. rewrite Hp, Z.eqb_refl.
  assert (Ho : open_data ld p R = (R, Ok (Some m))).
  { unfold open_data. rewrite Hi, Ht, Z.eqb_refl. cbn [negb]. by rewrite Hd. }
  destruct Hw as (_ & (k & Hk & _) & _).
  unfold _handleData. rewrite Ho. cbn [rbind]. rewrite Hp, Hc, Ht, Hi, Hk, Hl, !Z.eqb_refl, Hpr. done.
Qed.

Lemma route_data E q i b e R id l m :
  fits e -> relayed e q -> packetType e = PacketType_DATA -> contextByte e = ContextType_NONE ->
  get (toHex (Packet.destinationHash e)) (localDestinations b) = Some R ->
  Packet.destinationHash e <> _pathRequestDestHash ->
  Destination.identity R = Some id -> wf_identity id -> interfaceLayer R = Some l ->
  type R = DestType_SINGLE ->
  Identity.decrypt id (payload e) (privRing R) = Ok (Some m) ->
  seen_hash (toHex (sha256 (hashable_fields e))) (hashlist b) = false ->
  exists pr evs b',
    _routeIncomingPacket E q i b = (b', evs, Ok tt)
    /\ In (DestinationEvent (toHex (Packet.destinationHash e)) (DataEvent m)) evs
    /\ proof_of id (sha256 (hashable_fields e)) pr
    /\ forall k, In k (interfaces (net b)) -> has_writer b (Some k) = true -> In (Write k pr) evs.
Proof.
  intros Hf Hr Ht Hc Hg Hnp Hi Hw Hl Hty Hd Hn.
  destruct (relayed_parse e q Hf Hr) as (_ & Rt & _ & Rd & Rc & Rp & _).
  pose proof (getHash_incoming e q Hf Hr) as Hh. cbv zeta in Hh.
  unfold _routeIncomingPacket. set (p := Packet.set_hops q (Packet.hops q + 1)) in *.
  assert (Pt : packetType p = PacketType_DATA) by (rewrite <- Ht, <- Rt; reflexivity).
  assert (Pc : contextByte p = ContextType_NONE) by (rewrite <- Hc, <- Rc; reflexivity).
  assert (Pd : Packet.destinationHash p = Packet.destinationHash e) by (rewrite <- Rd; reflexivity).
  assert (Pp : payload p = payload e) by (rewrite <- Rp; reflexivity).
  clearbody p. rewrite Pt, Pd. change (PacketType_DATA =? PacketType_ANNOUNCE) with false. cbn match.
  assert (Hdup : _isDuplicate p b = Ok (false, set_hashlist b
    (remember_hash (toHex (sha256 (hashable_fields e))) (hashlist b)))).
  { unfold _isDuplicate. rewrite Pc. change (dedup_exempt ContextType_NONE) with false. cbn match.
    rewrite Hh. cbn [rbind]. by rewrite Hn. }
  rewrite Hdup. change (PacketType_DATA =? PacketType_PROOF) with false. cbn [andb].
  destruct (bytesEqual _ _pathRequestDestHash) eqn:Hb; [by apply bytesEqual_spec in Hb|].
  rewrite andb_false_r. cbn [localDestinations set_hashlist]. rewrite Hg.
  rewrite <- Pp in Hd.
  destruct (handleData_opens (loaded E) R id l p m _ _ Hi Hw Hl Hty Pt Pc Hh Hd) as (pr & Hrec & Hpo).
  rewrite Hrec. eexists pr, _, _. split; [reflexivity|]. split; [by left|]. split; [exact Hpo|].
  intros k Hk Hwr. right. unfold dispatch. cbn [flat_map]. rewrite app_nil_r.
  unfold broadcast. apply in_map_iff. exists k. split; [done|].
  apply list_elem_of_In, list_elem_of_filter. split; [|by apply list_elem_of_In].
  split; [done|]. exact Hwr.
Qed.

(** ** The proof back at the sender *)

Lemma validateProof_ok recall peer id r sig body :
  recall (r_destinationHash r) = Some peer -> public_of id peer -> owner r = true ->
  validate id sig (packetHash r) = true -> length sig = 64%nat -> length (packetHash r) = 32%nat ->
  (body = sig \/ body = packetHash r ++ sig) -> validateProof recall r body = true.
Proof.
  intros Hr Hp Ho Hv Hs Hl Hb. unfold validateProof, _verify. rewrite Ho, Hr. cbn [negb].
  destruct Hb as [->| ->].
  - rewrite Hs. cbn. by rewrite (validate_public id peer).
  - rewrite length_app, Hs, Hl. change (32 + 64 =? PROOF_EXPLICIT_LENGTH)%nat with true. cbn match.
    rewrite slice_app_take by done. rewrite bytesEqual_refl. cbn [negb].
    assert (Hsl : slice 32 96 (packetHash r ++ sig) = sig).
    { rewrite <- (app_nil_r (packetHash r ++ sig)), <- app_assoc. apply slice_app_here; lia. }
    rewrite Hsl. by rewrite (validate_public id peer).
Qed.

Lemma after_receipts_registry evs s : caches (after_receipts evs s) = caches s.
Proof.
  revert s. induction evs as [|e evs IH]; intros s; [done|]. cbn [after_receipts].
  destruct e; rewrite IH; [done..|]. case_match; [|done]. unfold markPathUnresponsive, on_table.
  by destruct (markState _ _ _).
Qed.

Lemma proof_fits id h pr : length h = 32%nat -> proof_of id h pr -> fits pr.
Proof.
  intros Hh (sig & body & -> & _ & Hs & Hb). unfold fits. cbn. split; [by left|].
  split; [by vm_compute|]. split; [by left|]. split; [by vm_compute|]. split; [by vm_compute|].
  split; [rewrite length_slice, Hh; done|]. split; [by vm_compute|]. split; [|discriminate].
  intros ->. destruct Hb as [Hb|Hb]; [subst sig; done|]. destruct h; done.
Qed.

Lemma markResponsive_spec d x :
  caches (markPathResponsive d x) = caches x
  /\ Router.getState d (table (markPathResponsive d x))
     = match get (toHex d) (pathTable x) with Some _ => RESPONSIVE | None => UNKNOWN end.
Proof.
  unfold markPathResponsive, on_table, markState, getState. cbn [table routes].
  destruct (get (toHex d) (pathTable x)) eqn:Hg; cbn; (split; [done|]); [by rewrite get_mset_same|].
  by rewrite Hg.
Qed.

Lemma route_proof E q i s pr id peer h rid r :
  length h = 32%nat -> proof_of id h pr -> relayed pr q ->
  has (toHex (slice 0 16 h)) (activeLinks s) = false ->
  seen_hash (toHex (sha256 (hashable_fields pr))) (hashlist s) = false ->
  recallIdentity s (r_destinationHash r) = Some peer -> public_of id peer ->
  get (toHex (slice 0 16 h)) (receipts (registry (caches s))) = Some rid ->
  heap (registry (caches s)) !! rid = Some r -> status r = SENDING -> owner r = true ->
  packetHash r = h ->
  exists s' evs r', _routeIncomingPacket E q i s = (s', evs, Ok tt)
    /\ heap (registry (caches s')) !! rid = Some r' /\ status r' = DELIVERED /\ packetHash r' = h
    /\ Router.getState (r_destinationHash r) (table s')
       = match get (toHex (r_destinationHash r)) (pathTable s) with
         | Some _ => RESPONSIVE
         | None => UNKNOWN
         end.
Proof.
  intros Hl Hpo Hr Hk Hn Hrec Hpub Hg Hh Hs Ho Hph.
  pose proof (proof_fits id h pr Hl Hpo) as Hf.
  destruct (relayed_parse pr q Hf Hr) as (_ & Rt & _ & Rd & Rc & Rp & _).
  pose proof (getHash_incoming pr q Hf Hr) as Hgh. cbv zeta in Hgh.
  unfold _routeIncomingPacket. set (p := Packet.set_hops q (Packet.hops q + 1)) in *.
  destruct Hpo as (sig & body & -> & Hv & Hsl & Hb).
  assert (Pt : packetType p = PacketType_PROOF) by exact Rt.
  assert (Pc : contextByte p = ContextType_NONE) by exact Rc.
  assert (Pd : Packet.destinationHash p = slice 0 16 h) by exact Rd.
  assert (Pp : payload p = body) by exact Rp.
  clearbody p. rewrite Pt, Pd. change (PacketType_PROOF =? PacketType_ANNOUNCE) with false. cbn match.
  set (hp := sha256 (hashable_fields _)) in *.
  set (s1 := set_hashlist s (remember_hash (toHex hp) (hashlist s))).
  assert (Hdup : _isDuplicate p s = Ok (false, s1)).
  { unfold _isDuplicate. rewrite Pc. change (dedup_exempt ContextType_NONE) with false. cbn match.
    rewrite Hgh. cbn [rbind]. by rewrite Hn. }
  rewrite Hdup, Z.eqb_refl, Pc, Z.eqb_refl. change (activeLinks s1) with (activeLinks s). rewrite Hk.
  cbn [negb andb]. unfold _handleProof. change (caches s1) with (caches s).
  assert (Hb1 : proof_begin (Packet.destinationHash p) (registry (caches s)) = Some rid).
  { unfold proof_begin, findReceipt. by rewrite Pd, Hg, Hh, Hs. }
  rewrite Hb1. unfold proof_end. rewrite Hh, Pp.
  change (recallIdentity s1) with (recallIdentity s).
  rewrite (validateProof_ok _ peer id r sig body Hrec Hpub Ho) by (done || (rewrite Hph; done)).
  destruct (setDelivered_spec rid (registry (caches s)) r Hh) as (Dh & _ & De).
  destruct (setDelivered rid (registry (caches s))) as [w evs]. cbn [fst snd] in *.
  rewrite Dh, list_lookup_alter_eq, Hh. cbn [fmap option_fmap option_map].
  assert (Hset : status (settle DELIVERED r) = DELIVERED /\ packetHash (settle DELIVERED r) = h
    /\ r_destinationHash (settle DELIVERED r) = r_destinationHash r).
  { unfold settle. rewrite Hs. by rewrite bool_decide_false. }
  destruct Hset as (Hst & Hsh & Hds). rewrite Hds.
  assert (Ha : forall x, after_receipts evs x = x).
  { intros x. rewrite De, Hs. unfold outcome.
    by destruct (settledPromise r) as [[|]|], (cb_delivered r). }
  rewrite Ha. destruct (markResponsive_spec (r_destinationHash r) (set_registry s1 w)) as [Mc Mt].
  eexists _, _, _. split; [reflexivity|]. rewrite Mc, Mt. split; [|done].
  change (registry (caches (set_registry s1 w))) with w. by rewrite Dh, list_lookup_alter_eq, Hh.
Qed.

(** ** End to end *)

(** The receiver can open what is encrypted to [r]: its long-term key, or a
    key of its ring behind newer ones none of which accepts the token. *)
Definition opens (id : Identity) (ring : option (list bytes)) (eph iv m : bytes) (r : option bytes)
  : Prop :=
  match r with
  | None => ring = None
            /\ exists key s, x25519Priv id = Some key /\ x25519_bits key (x25519_pub eph) = Some s
  | Some pub =>
      exists pre key post s, ring = Some (pre ++ key :: post)
        /\ length key = 32%nat /\ pub = x25519_pub key /\ x25519_bits key (x25519_pub eph) = Some s
        /\ forall c, Identity.encrypt eph iv id m r = Ok c ->
           Forall (fun k => decrypt_with id (x25519_pub eph) (drop 32 c) k = None) (omap import32 pre)
  end.

Lemma opens_decrypt id ring eph iv m r : wf_identity id -> length iv = 16%nat ->
  opens id ring eph iv m r ->
  exists c, Identity.encrypt eph iv id m r = Ok c /\ Identity.decrypt id c ring = Ok (Some m).
Proof.
  intros Hw Hiv. destruct r as [pub|]; cbn [opens].
  - intros (pre & key & post & s & -> & Hl & -> & Hs & Hno).
    destruct (decrypt_encrypted id eph iv m s key pre post (Some (x25519_pub key)) Hw Hiv)
      as (c & Hc & _ & Hd); [by split|done|].
    exists c. split; [exact Hc|]. apply (Hd (Hno c Hc)).
  - intros (-> & key & s & Hk & Hs).
    destruct (decrypt_encrypted id eph iv m s key [] [] None Hw Hiv) as (c & Hc & _ & Hd); [by split|done|].
    exists c. split; [exact Hc|]. apply (Hd (Forall_nil_2 _)).
Qed.

Lemma ciphertext_nonempty eph iv i m r c : Identity.encrypt eph iv i m r = Ok c -> c <> [].
Proof.
  unfold Identity.encrypt. destruct (match r with Some _ => _ | None => _ end) as [t|]; [|done].
  cbn [rbind]. destruct (derive_token i eph t) as [tk|]; [|done]. cbn [rbind]. intros [= <-] Hn.
  pose proof (x25519_pub_length eph) as Hl. apply (f_equal length) in Hn. rewrite length_app in Hn.
  cbn in Hn. lia.
Qed.

Definition opportunistic (dest m : bytes) : Packet :=
  new_Packet PacketType_DATA DestType_SINGLE ContextType_NONE dest m.

(** The receipt of a send that has just ended. *)
Lemma tracked_receipt now ms h d w w' rid : (w', rid) = track now ms h d false true w ->
  get (toHex (slice 0 16 h)) (receipts w') = Some rid
  /\ heap w' !! rid = Some (tracked now ms h d false true).
Proof.
  rewrite track_spec. intros [= -> ->]. cbn [receipts heap]. split; [apply get_mset_same|].
  by apply list_lookup_middle.
Qed.

(** C1: Opportunistic delivery: a message sent to a destination whose public
    identity the sender knows, with or without a learned ratchet, arrives over
    any path as exactly that message at the listener of that destination; the
    receiver answers on all its interfaces with a proof; and the proof, over
    any path back, makes exactly this send's receipt DELIVERED and marks the
    path to the destination responsive. *)
Theorem opportunistic_delivery E eph iv dh m S lS s s' evs rid j f q E2 i b R id peer l
    (Hdh : length dh = DST_LEN) (Hnp : dh <> _pathRequestDestHash)
    (HS : Destination.identity S = Some peer) (HSh : Destination.destinationHash S = Some dh)
    (HSl : interfaceLayer S = Some lS)
    (Hw : wf_identity id) (Hpub : public_of id peer) (Hrec : recallIdentity s dh = Some peer)
    (Hsend : destination_send E eph iv (opportunistic dh m) S s = (s', evs, Ok (Some rid)))
    (Hout : In (Write j f) evs)
    (Hhop : match transportId f with Some n => length n = DST_LEN | None => True end)
    (Hpath : relayed f q)
    (HR : get (toHex dh) (localDestinations b) = Some R) (HRi : Destination.identity R = Some id)
    (HRl : interfaceLayer R = Some l) (HRt : type R = DestType_SINGLE) (Hiv : length iv = 16%nat)
    (Hopen : opens id (privRing R) eph iv m
               (fst (recallRatchetFrom (now E) (knownRatchets (caches s)) dh)))
    (Hfresh : forall h p, getHash sha256 (Packet.set_hops q (Packet.hops q + 1)) = Ok (h, p) ->
                seen_hash (toHex h) (hashlist b) = false) :
  exists h pr evs2 b',
    _routeIncomingPacket E2 q i b = (b', evs2, Ok tt)
    /\ In (DestinationEvent (toHex dh) (DataEvent m)) evs2
    /\ (forall k, In k (interfaces (net b)) -> has_writer b (Some k) = true -> In (Write k pr) evs2)
    /\ forall E3 q3 i3, relayed pr q3 ->
         seen_hash (toHex (sha256 (hashable_fields pr))) (hashlist s') = false ->
         has (toHex (slice 0 16 h)) (activeLinks s') = false ->
         exists s3 evs3 r3,
           _routeIncomingPacket E3 q3 i3 s' = (s3, evs3, Ok tt)
           /\ heap (registry (caches s3)) !! rid = Some r3
           /\ packetHash r3 = h /\ status r3 = DELIVERED
           /\ Router.getState dh (table s3)
              = match get (toHex dh) (pathTable s') with Some _ => RESPONSIVE | None => UNKNOWN end.
Proof.
  destruct (opens_decrypt id (privRing R) eph iv m _ Hw Hiv Hopen) as (c & Hc & Hd). clear Hopen.
  set (e := opportunistic dh c).
  assert (Hfe : fits e).
  { unfold fits. cbn. split; [by left|]. split; [by vm_compute|]. split; [by left|].
    split; [by vm_compute|]. split; [by vm_compute|]. split; [done|]. split; [by vm_compute|].
    split; [by eapply ciphertext_nonempty|discriminate]. }
  destruct (getHash_new e Hfe eq_refl) as (r & Hser & Hh). set (h := sha256 (hashable_fields e)) in *.
  (* the send *)
  unfold destination_send, Destination.send, Destination.encrypt in Hsend.
  rewrite HSl, HS, HSh in Hsend. cbn [payload opportunistic new_Packet] in Hsend.
  destruct (recallRatchetFrom (now E) (knownRatchets (caches s)) dh) as [rt known]. cbn [fst] in Hc.
  rewrite (encrypt_public id peer eph iv m rt Hpub), Hc in Hsend. cbn [rbind] in Hsend.
  set (s0 := set_caches s _) in Hsend. change (mkPacket _ _ _ _ _ _ _ _ c _ _) with e in Hsend.
  destruct (sendPacket_receipt E e s0 s' evs rid h (set_raw e r) eq_refl eq_refl Hh Hsend)
    as ((ms & Htr) & Hkn & _ & _ & Hwr).
  destruct (tracked_receipt _ _ _ _ _ _ _ Htr) as [Hget Hheap].
  assert (Hsent : sent_as e f).
  { destruct (Hwr j f Hout) as [->|(nh & ->)]; [by left|right]. exists nh. split; [done|exact Hhop]. }
  pose proof (relayed_sent e f q Hsent Hpath) as Hrel.
  (* the receiver *)
  pose proof (Hfresh _ _ (getHash_incoming e q Hfe Hrel)) as Hunseen.
  destruct (route_data E2 q i b e R id l m Hfe Hrel eq_refl eq_refl HR Hnp HRi Hw HRl HRt Hd Hunseen)
    as (pr & evs2 & b' & Hroute & Hdata & Hpo & Hall).
  exists h, pr, evs2, b'. split; [exact Hroute|]. split; [exact Hdata|]. split; [exact Hall|].
  (* the proof *)
  intros E3 q3 i3 Hrp Hns Hnl.
  assert (Hrec' : recallIdentity s' dh = Some peer) by (unfold recallIdentity in *; by rewrite Hkn).
  destruct (route_proof E3 q3 i3 s' pr id peer h rid (tracked (now E) ms h dh false true)
    (sha256_length _) Hpo Hrp Hnl Hns Hrec' Hpub Hget Hheap eq_refl eq_refl eq_refl)
    as (s3 & evs3 & r3 & Hr3). exists s3, evs3, r3. tauto.
Qed.

(** ** What an announce teaches *)

(** The ratchet an announce carries is the newest of the ring it leaves. *)
Definition announced_ratchet (d : Destination) : option bytes :=
  if ratchetsEnabled d then match ring d with r :: _ => Some (ratchetPub r) | [] => None end else None.

Lemma rotate_keeps force now priv d :
  let d' := fst (rotateRatchets force now priv d) in
  appData d' = appData d /\ type d' = type d /\ ratchetsEnabled d' = ratchetsEnabled d.
Proof.
  unfold rotateRatchets. destruct (ratchets d); [|done].
  destruct (ratchetsEnabled d) eqn:He; cbn [negb]; [|done]. by destruct (_ && _).
Qed.

Lemma rotate_ring now priv d r rs : ratchetsEnabled d = true -> ratchets d = Some (r :: rs) ->
  Forall (fun r => length (ratchetPub r) = 32%nat) (r :: rs) ->
  exists r' rs', ratchets (fst (rotateRatchets false now priv d)) = Some (r' :: rs')
    /\ length (ratchetPub r') = 32%nat.
Proof.
  intros He Hr Hf. apply Forall_cons in Hf as [Hl _]. unfold rotateRatchets. rewrite Hr, He. cbn [negb andb].
  destruct (now <=? _); cbn [fst]; [by eauto|]. eexists _, _. split; [reflexivity|]. apply x25519_pub_length.
Qed.

Lemma current_ratchet now priv d : Forall (fun r => length (ratchetPub r) = 32%nat) (ring d) ->
  let '(d', _, rb) := _currentRatchetForAnnounce now priv d in
  rb = default [] (announced_ratchet d') /\ appData d' = appData d /\ type d' = type d
  /\ match announced_ratchet d' with Some r => length r = 32%nat | None => True end.
Proof.
  intros Hf. unfold _currentRatchetForAnnounce, announced_ratchet, ring in *.
  destruct (ratchetsEnabled d) eqn:He; cbn [negb orb]; [|by rewrite He].
  destruct (ratchets d) as [[|r rs]|] eqn:Hr; [by rewrite He, Hr| |by rewrite He, Hr].
  pose proof (rotate_keeps false now priv d) as (K1 & K2 & K3).
  destruct (rotate_ring now priv d r rs He Hr Hf) as (r' & rs' & Hr' & Hl').
  destruct (rotateRatchets false now priv d) as [d' evs]. cbn [fst] in *.
  rewrite K3, He, Hr'. cbn. auto.
Qed.

Lemma length_announce_random rnd t b : createAnnounceRandomHash rnd t = Ok b -> length b = 10%nat.
Proof.
  unfold createAnnounceRandomHash. case_match; [done|]. case_match; [done|]. intros [= <-].
  by rewrite length_app, length_field.
Qed.

(** The packet of an announce that is built from scratch, and its reading. *)
Lemma announce_built now rnd priv ctx d d' evs p id dh nh :
  emit_begin now rnd priv ctx None d = (d', evs, Ok p) ->
  Destination.identity d = Some id -> wf_identity id ->
  Destination.destinationHash d = Some dh -> nameHash d = Some nh -> length nh = 10%nat ->
  dh = dest_hash nh (Some id) -> Forall (fun r => length (ratchetPub r) = 32%nat) (ring d) ->
  packetType p = PacketType_ANNOUNCE /\ Packet.destinationHash p = dh /\ contextByte p = ctx
  /\ headerType p = HeaderType_1 /\ transportId p = None /\ Packet.hops p = 0
  /\ destinationType p = type d /\ transportType p = 0 /\ (148 <= length (payload p))%nat
  /\ match announced_ratchet d' with Some r => length r = 32%nat | None => True end
  /\ exists v, validateAnnounce dh (contextFlag p) (payload p) = Some v
       /\ publicKey (v_identity v) = publicKey id /\ v_ratchet v = announced_ratchet d'
       /\ default [] (v_appData v) = match appData d with Some a => a | None => id_appData id end
       /\ v_identity v = set_appData (fromPublicKey (getPublicKey id)) (default [] (v_appData v)).
Proof.
  intros He Hi Hw Hdh Hnh Hln Hd Hf. unfold emit_begin in He. rewrite Hi, Hdh, Hnh in He.
  destruct (interfaceLayer d) as [l|]; [|done].
  assert (Hk : tag_key ctx None = None) by (unfold tag_key; by destruct (ctx =? _)).
  rewrite Hk in He. cbn [mbind option_bind] in He. unfold build_payload in He.
  rewrite Hln, Nat.eqb_refl in He. cbn [negb] in He.
  destruct (createAnnounceRandomHash rnd (now / 1000)) as [rh|] eqn:Hrh; [|done].
  apply length_announce_random in Hrh.
  pose proof (current_ratchet now priv d Hf) as Hc.
  destruct (_currentRatchetForAnnounce now priv d) as [[d1 evs1] rb]. destruct Hc as (-> & Ha & Ht & Hl).
  rewrite Ha in He. set (app := match appData d with Some a => a | None => _ end) in *.
  destruct (announce_payload_validates id nh rh app (announced_ratchet d1) Hw Hln Hrh Hl)
    as (pl & v & Hp & Hv & P1 & _ & _ & _ & P2 & P3 & P4 & P5).
  rewrite <- Hd in Hp, Hv. rewrite Hp in He. cbn [rbind] in He.
  destruct (length pl <? 148)%nat eqn:E148; [done|]. bools. injection He as <- <- <-.
  cbn [packetType Packet.destinationHash contextByte headerType transportId Packet.hops destinationType
       transportType payload raw contextFlag]. rewrite Ht. repeat (split; [done|]).
  exists v. rewrite P1, P2, P3. split; [|split; [done|split; [done|split; [done|by rewrite P4]]]].
  rewrite <- Hv. f_equal. destruct (announced_ratchet d1) as [r|]; [|done].
  change (default [] (Some r)) with r. by rewrite Hl.
Qed.

Lemma public_of_announced id a : wf_identity id -> publicKey id = getPublicKey id ->
  public_of id (set_appData (fromPublicKey (publicKey id)) a).
Proof.
  intros Hw ->. destruct (fromPublicKey_of id Hw) as (F1 & F2 & _ & F4). by repeat split.
Qed.

(** The path an accepted announce leaves in a table that had none. *)
Lemma new_route now dest entry t : get (toHex dest) (routes t) = None ->
  addOrUpdateRoute now dest entry t
  = (true, set_routes t (mset (toHex dest)
      (mkRoute (viaInterface entry) (Router.name <$> viaInterface entry) (e_nextHop entry) (e_hops entry)
         (default now (e_timestamp entry)) (default (now + PATH_EXPIRY_MS) (e_expires entry))
         (trim_blobs [randomBlob entry]) UNKNOWN) (routes t))).
Proof. intros Hg. unfold addOrUpdateRoute. by rewrite Hg. Qed.

(** What [ingest] leaves for an unknown destination without a path. *)
Lemma ingest_new E p i v s h q : 
  let dest := Packet.destinationHash p in
  get (toHex dest) (knownDestinations (caches s)) = None ->
  get (toHex dest) (knownRatchets (caches s)) = None ->
  get (toHex dest) (pathTable s) = None ->
  getHash sha256 p = Ok (h, q) -> match v_ratchet v with Some r => (0 < length r)%nat | None => True end ->
  let '(s', evs, res) := ingest E p i v s in
  res = Ok tt /\ evs = [AnnounceEvent dest v p]
  /\ get (toHex dest) (knownDestinations (caches s'))
     = Some (mkKnown (now E) h (publicKey (v_identity v)) (v_appData v))
  /\ get (toHex dest) (knownRatchets (caches s'))
     = (r ← v_ratchet v; Some (mkKnownRatchet r (now E)))
  /\ (exists r, get (toHex dest) (pathTable s') = Some r /\ Router.hops r = Packet.hops p
       /\ nextHop r = default dest (transportId p) /\ interface r = port_iface <$> port s i
       /\ timestamp r = now E /\ state r = UNKNOWN)
  /\ inflightPathRequests (prs s') = mdelete (toHex dest) (inflightPathRequests (prs s))
  /\ net s' = net s.
Proof.
  intros dest Hk Hkr Hp Hh Hl. unfold ingest, collides, learn. fold dest. rewrite Hk, Hh.
  set (s1 := rememberIdentity _ _ _ _ _ s).
  set (s2 := match v_ratchet v with Some r => _ | None => s1 end).
  assert (H2 : pathTable s2 = pathTable s /\ net s2 = net s /\ prs s2 = prs s
    /\ knownDestinations (caches s2) = knownDestinations (caches s1)
    /\ get (toHex dest) (knownRatchets (caches s2)) = (r ← v_ratchet v; Some (mkKnownRatchet r (now E)))).
  { subst s2. destruct (v_ratchet v) as [r|]; [|done]. repeat split.
    unfold rememberRatchet, rememberRatchetInto. cbn. rewrite Hkr.
    rewrite (proj2 (Nat.eqb_neq _ _)) by lia.
    apply get_mset_same. }
  destruct H2 as (P1 & P2 & P3 & P4 & P5). unfold on_table.
  rewrite new_route by (cbn; by rewrite P1). cbn [routes set_routes table].
  split; [done|]. split; [done|]. split.
  { cbn. rewrite P4. apply get_mset_same. }
  split; [exact P5|]. split.
  { eexists. split; [apply get_mset_same|]. cbn. unfold port. by rewrite P2. }
  cbn. rewrite P3. by split.
Qed.

Lemma sample_fields f i s :
  caches (sample f i s) = caches s /\ pathTable (sample f i s) = pathTable s
  /\ prs (sample f i s) = prs s
  /\ (port_iface <$> port (sample f i s) i) = (port_iface <$> port s i).
Proof.
  assert (Hu : forall j (g : Port -> Ingress) x k,
    (port_iface <$> port (update_port j (fun p => set_ingress p (g p)) x) k) = (port_iface <$> port x k)).
  { intros j g x k. unfold port, update_port. cbn. destruct (decide (j = k)) as [->|Hne].
    - rewrite list_lookup_alter_eq. by destruct (ports (net x) !! k).
    - by rewrite list_lookup_alter_ne. }
  unfold sample. destruct (q ← port s i; port_parent q) as [j|]; repeat split.
  - by rewrite !(Hu _ (fun p => f (ingress p))).
  - by rewrite (Hu _ (fun p => f (ingress p))).
Qed.

Lemma hasPath_absent E d s : get (toHex d) (pathTable s) = None ->
  hasPath E d s = (false, set_paths s (pathTable s)).
Proof.
  intros Hg. unfold hasPath, on_table, hasRoute, Router.getRoute. cbn [table routes]. by rewrite Hg.
Qed.

(** Path discovery: the announce (or path response) that a destination
    emits, arriving over any path at a transport that asked for it and knew
    nothing of it, teaches that transport the destination's public identity
    and app data, its current ratchet, and a path through the arrival interface
    whose next hop is the last transport node (or the destination) and whose
    length is the hop count seen; the request is no longer outstanding. *)
Theorem announce_teaches now rnd priv ctx d d' evs p id dh nh E q i s P
    (He : emit_begin now rnd priv ctx None d = (d', evs, Ok p))
    (Hi : Destination.identity d = Some id) (Hw : wf_identity id)
    (Hdh : Destination.destinationHash d = Some dh) (Hnh : nameHash d = Some nh)
    (Hln : length nh = 10%nat) (Hd : dh = dest_hash nh (Some id)) (Hty : type d = DestType_SINGLE)
    (Hctx : ctx = ContextType_NONE \/ ctx = ContextType_PATH_RESPONSE)
    (Hf : Forall (fun r => length (ratchetPub r) = 32%nat) (ring d))
    (Hpath : relayed p q) (Hraw : (length (raw q) <= MTU)%nat)
    (Hport : port s i = Some P)
    (Hloc : has (toHex dh) (localDestinations s) = false)
    (Hk : get (toHex dh) (knownDestinations (caches s)) = None)
    (Hkr : get (toHex dh) (knownRatchets (caches s)) = None)
    (Hr : get (toHex dh) (pathTable s) = None)
    (Hasked : has (toHex dh) (inflightPathRequests (prs s)) = true) :
  exists s' v,
    _routeIncomingPacket E q i s
      = (s', [AnnounceEvent dh v (Packet.set_hops q (Packet.hops q + 1))], Ok tt)
    /\ (exists peer, recallIdentity s' dh = Some peer /\ public_of id peer
        /\ id_appData peer = match appData d with Some a => a | None => id_appData id end)
    /\ fst (recallRatchetFrom (Transport.now E) (knownRatchets (caches s')) dh) = announced_ratchet d'
    /\ (exists r, fst (getRoute E dh s') = Some r /\ Router.hops r = Packet.hops q + 1
        /\ nextHop r = default dh (transportId q) /\ interface r = Some (port_iface P))
    /\ has (toHex dh) (inflightPathRequests (prs s')) = false.
Proof.
  destruct (announce_built now rnd priv ctx d d' evs p id dh nh He Hi Hw Hdh Hnh Hln Hd Hf)
    as (A1 & A2 & A3 & A4 & A5 & A6 & A7 & A8 & A9 & A10 & v & Hv & V1 & V2 & V3 & V4).
  assert (Hdl : length dh = DST_LEN).
  { rewrite Hd. unfold dest_hash. rewrite length_slice, sha256_length. done. }
  assert (Hfits : fits p).
  { unfold fits. rewrite A1, A2, A3, A4, A5, A6, A7, A8, Hty. split; [by left|]. split; [by vm_compute|].
    split; [by left|]. split; [by vm_compute|]. split; [by vm_compute|]. split; [done|].
    split; [by destruct Hctx as [->| ->]|]. split; [intros Hn; rewrite Hn in A9; cbn in A9; lia|].
    intros Hx. destruct Hctx as [->| ->]; discriminate Hx. }
  destruct (relayed_parse p q Hfits Hpath) as (_ & Rt & Rf & Rd & _ & Rp & _).
  pose proof (getHash_incoming p q Hfits Hpath) as Hh. cbv zeta in Hh.
  unfold _routeIncomingPacket. set (q1 := Packet.set_hops q (Packet.hops q + 1)) in *.
  assert (Q1 : packetType q1 = PacketType_ANNOUNCE) by (rewrite <- A1; exact Rt).
  assert (Q2 : Packet.destinationHash q1 = dh) by (rewrite <- A2; exact Rd).
  assert (Q3 : contextFlag q1 = contextFlag p) by exact Rf.
  assert (Q4 : payload q1 = payload p) by exact Rp.
  assert (Q5 : raw q1 = raw q) by reflexivity.
  assert (Q6 : Packet.hops q1 = Packet.hops q + 1) by reflexivity.
  assert (Q7 : transportId q1 = transportId q) by reflexivity.
  clearbody q1. rewrite Q1, Z.eqb_refl. unfold _handleAnnounce, announce_open, announce_held. rewrite Q2, Q3, Q4, Q5.
  rewrite (proj2 (Nat.ltb_ge _ _)) by lia. rewrite Hloc, Hv.
  set (s1 := sample _ i s). destruct (sample_fields (receivedAnnounce (us (Transport.now E))) i s)
    as (S1 & S2 & S3 & S4). fold s1 in S1, S2, S3, S4.
  rewrite hasPath_absent by (by rewrite S2). cbn [negb andb]. cbn [prs set_paths]. rewrite S3, Hasked.
  cbn [negb]. set (s2 := set_paths s1 (pathTable s1)).
  pose proof (ingest_new E q1 i v s2 (sha256 (hashable_fields p)) q1) as Hing. cbv zeta in Hing.
  rewrite Q2, V2 in Hing. cbn [caches set_paths pathTable s2] in Hing. rewrite S1, S2 in Hing.
  assert (Hrl : match announced_ratchet d' with Some r => (0 < length r)%nat | None => True end)
    by (destruct (announced_ratchet d'); [lia|done]).
  specialize (Hing Hk Hkr Hr Hh Hrl).
  destruct (ingest E q1 i v s2) as [[s3 evs3] res].
  destruct Hing as (-> & -> & I1 & I2 & (r & I3 & I4 & I5 & I6 & I7 & I8) & I9 & I10).
  exists s3, v. split; [done|]. split.
  { eexists. split; [unfold recallIdentity, recallFrom; by rewrite I1|]. cbn [k_publicKey k_appData].
    rewrite V1. split; [|by cbn; rewrite V3].
    pose proof Hw as (_ & _ & Hpk & _). by apply public_of_announced. }
  split.
  { unfold recallRatchetFrom. rewrite I2. destruct (announced_ratchet d') as [a|]; cbn [mbind option_bind]; [|done].
    cbn [received ratchet]. unfold RATCHET_EXPIRY_MS. rewrite (proj2 (Z.ltb_ge _ _)) by lia. done. }
  split.
  { unfold getRoute, on_table, Router.getRoute. cbn [table routes]. rewrite I3.
    rewrite I7. unfold PATH_EXPIRY_MS. rewrite Z.geb_leb, (proj2 (Z.leb_gt _ _)) by lia.
    assert (Hif : interface r = Some (port_iface P)).
    { rewrite I6. change (port s2 i) with (port s1 i). by rewrite S4, Hport. }
    rewrite Hif. exists r. split; [reflexivity|]. by rewrite I4, I5, Q6, Q7. }
  rewrite I9. cbn [prs set_paths s2]. rewrite S3. unfold has. by rewrite get_mdelete_same.
Qed.
End WithCrypto.

(** ** Witnesses *)

Import Toy MsgPackSpec.Host.

Definition ring_announce : Destination * list Destination.event * result Packet := Eval vm_compute in
  emit_begin 5000 (replicate 16 1) (replicate 32 9) ContextType_NONE None sample_ring_destination.

Definition ok_packet (r : result Packet) : Packet :=
  match r with Ok p => p | Throw _ => new_Packet 0 0 0 [] [] end.

Definition ring_packet : Packet := Eval vm_compute in
  ok_packet (snd ring_announce).

Definition asking : TransportCore := Eval vm_compute in
  run [Request (sample_at 5500) sample_hash16] sample_core.

Lemma parsed_relayed p r : fits p -> serialize p = Ok r -> relayed p (parsed p).
Proof. intros Hf Hs. unfold parsed. rewrite Hs. by apply relayed_refl. Qed.

Lemma parsed_self p r : fits p -> serialize p = Ok r -> raw p = r -> relayed p p.
Proof.
  intros Hf Hs <-. pose proof (relayed_refl p (raw p) Hf Hs) as H. by destruct p.
Qed.

(** [fits] of a concrete packet. *)
Ltac concrete_fits :=
  unfold fits; repeat match goal with |- _ /\ _ => split end;
  first [left; split; vm_compute; reflexivity | left; vm_compute; reflexivity
        | vm_compute; intuition discriminate | vm_compute; reflexivity | vm_compute; discriminate].

Lemma announce_teaches_witness :
  exists s' v,
    _routeIncomingPacket (sample_at 6000) (parsed ring_packet) 0 asking
      = (s', [AnnounceEvent sample_hash16 v (Packet.set_hops (parsed ring_packet) 1)], Ok tt)
    /\ fst (recallRatchetFrom 6000 (knownRatchets (caches s')) sample_hash16)
       = Some (x25519_pub (replicate 32 5)).
Proof.
  destruct (@announce_teaches toy_crypto no_exotic toy_laws 5000 (replicate 16 1) (replicate 32 9)
    ContextType_NONE sample_ring_destination (fst (fst ring_announce)) (snd (fst ring_announce))
    ring_packet sample_self sample_hash16 (default [] (nameHash sample_destination))
    (sample_at 6000) (parsed ring_packet) 0 asking (sample_port 0))
    as (s' & v & H1 & _ & H2 & _).
  all: try lazymatch goal with |- ?a = ?b => vm_compute; reflexivity end.
  - apply generate_wf.
  - by left.
  - repeat apply Forall_cons_2; try apply Forall_nil_2; vm_compute; reflexivity.
  - eapply parsed_relayed; [concrete_fits|vm_compute; reflexivity].
  - apply Nat.leb_le. vm_compute. reflexivity.
  - exists s', v. split; [exact H1|]. refine (eq_trans H2 _). vm_compute. reflexivity.
Defined.

(** The learned transport, its destination object, and a send. *)
Definition sample_sender : Destination := Eval vm_compute in
  create (lit "app.aspect") OUT DestType_SINGLE (recallIdentity sample_learned sample_hash16)
    (Some sample_layer).

Definition sample_send : TransportCore * list event * result (option nat) := Eval vm_compute in
  destination_send (sample_at 7000) (replicate 32 7) (replicate 16 8)
    (opportunistic sample_hash16 [104; 105]) sample_sender sample_learned.

Definition sample_frame : Packet := Eval vm_compute in
  match snd (fst sample_send) with Write _ f :: _ => f | _ => ring_packet end.

Lemma opportunistic_delivery_witness :
  exists h pr evs2 b',
    _routeIncomingPacket (sample_at 7100) sample_frame 0 sample_bound = (b', evs2, Ok tt)
    /\ In (DestinationEvent (toHex sample_hash16) (DataEvent [104; 105])) evs2
    /\ In (Write 0 pr) evs2
    /\ forall q3, relayed pr q3 ->
         seen_hash (toHex (sha256 (hashable_fields pr))) (hashlist (fst (fst sample_send))) = false ->
         has (toHex (slice 0 16 h)) (activeLinks (fst (fst sample_send))) = false ->
         exists s3 evs3 r3,
           _routeIncomingPacket (sample_at 7200) q3 0 (fst (fst sample_send)) = (s3, evs3, Ok tt)
           /\ heap (registry (caches s3)) !! 0%nat = Some r3
           /\ packetHash r3 = h /\ status r3 = DELIVERED.
Proof.
  destruct (@opportunistic_delivery toy_crypto no_exotic toy_laws (sample_at 7000) (replicate 32 7)
    (replicate 16 8) sample_hash16 [104; 105] sample_sender sample_layer sample_learned
    (fst (fst sample_send)) (snd (fst sample_send)) 0 0 sample_frame sample_frame
    (sample_at 7100) 0 sample_bound sample_destination sample_self
    (default sample_self (recallIdentity sample_learned sample_hash16)) sample_layer)
    as (h & pr & evs2 & b' & H1 & H2 & H3 & H4).
  all: try lazymatch goal with |- ?a = ?b => vm_compute; reflexivity end.
  - vm_compute. discriminate.
  - apply generate_wf.
  - unfold public_of. repeat match goal with |- _ /\ _ => split end; vm_compute; reflexivity.
  - vm_compute. by left.
  - vm_compute. exact I.
  - eapply parsed_self; [concrete_fits|vm_compute; reflexivity|vm_compute; reflexivity].
  - match goal with |- opens _ ?r _ _ _ ?x =>
      replace x with (@None bytes) by (vm_compute; reflexivity);
      replace r with (@None (list bytes)) by (vm_compute; reflexivity) end.
    split; [reflexivity|]. eexists _, _. split; reflexivity.
  - intros h p Hh. reflexivity.
  - exists h, pr, evs2, b'. split; [exact H1|]. split; [exact H2|]. split.
    + apply H3; vm_compute; auto.
    + intros q3 Hq Hn Hl. destruct (H4 (sample_at 7200) q3 0%nat Hq Hn Hl) as (s3 & e3 & r3 & ? & ? & ? & ? & _).
      exists s3, e3, r3. auto.
Defined.

(** A direct neighbour's announce is one hop away; held during a burst and
    released twice by the sweep, it is recorded as three hops away. *)
Definition burst_core : TransportCore :=
  set_net new_TransportCore
    (mkNet [set_ingress (sample_port 0)
              (set_burst (set_ia (new_Ingress 0 default_config) [0; 100000; 200000]) true 0 0 1)]
       [0%nat] (Some 0%nat)).

Definition path_hops (s : TransportCore) : option Z :=
  Router.hops <$> get (toHex sample_hash16) (pathTable s).

Example held_announce_extra_hops :
  path_hops (run [Incoming (sample_at 6000) sample_announce 0] sample_core) = Some 1
  /\ path_hops (run [Incoming (sample_at 6000) sample_announce 0;
                     Sweep (sample_at 30000); Sweep (sample_at 36000)] burst_core) = Some 3.
Proof. split; vm_compute; reflexivity. Qed.
