(* ===== verification/Stamper.v ===== *)
(** * Stamper: proof-of-work stamps
    (packages/core/src/utils/stamper.js and packages/lxmf/src/stamper.js)

    The WebCrypto engine: the workblock, the value of a stamp, its validity and
    the search for one; and the validators of LXMF peering keys and of the
    stamps on propagated messages.  The loop of [stampValue] shifts an
    unbounded integer and ends only if the hash is not zero; the search loop
    draws random stamps ([draws]). *)

From S2P Require Import Prelude Encoding JsMap Utf8 MsgPack MsgPackSpec Crypto.
#[local] Open Scope Z_scope.

Definition WORKBLOCK_EXPAND_ROUNDS : nat := 3000.
Definition WORKBLOCK_EXPAND_ROUNDS_PN : nat := 1000.
Definition WORKBLOCK_EXPAND_ROUNDS_PEERING : nat := 25.
Definition STAMP_SIZE : nat := 32.
Definition LXMF_OVERHEAD : nat := 112.

(** [n] is a non-negative safe integer. *)
Definition msgpackUint (n : Z) : bytes :=
  if n <? 128 then [n]
  else if n <=? 255 then [204; n]
  else if n <=? 65535 then [205; js_and (js_shr n 8) 255; js_and n 255]
  else if n <=? 4294967295 then
    [206; js_and (n / 2 ^ 24) 255; js_and (n / 2 ^ 16) 255; js_and (n / 2 ^ 8) 255; js_and n 255]
  else 207 :: be_bytes 8 n.

(** [BigInt("0x...")] of the bytes; the empty string is 0. *)
Definition bigIntFromBytesBE (b : bytes) : Z := be_uint b.

Section WithCrypto.
Context `{C : WebCrypto}.

Definition stampWorkblock (material : bytes) (expandRounds : nat) : bytes :=
  concat (map (fun n => hkdf material (sha256 (material ++ msgpackUint (Z.of_nat n))) [] 256)
            (seq 0 expandRounds)).

(** The shifting loop on [i]; out of fuel, [None]. *)
Fixpoint leading_zeros (fuel : nat) (i value : Z) : option Z :=
  if Z.land i (2 ^ 255) =? 0 then
    match fuel with
    | O => None
    | S fuel => leading_zeros fuel (Z.shiftl i 1) (value + 1)
    end
  else Some value.

(** [None]: the loop never ends. *)
Definition stampValue (workblock stamp : bytes) : option Z :=
  leading_zeros 256 (bigIntFromBytesBE (sha256 (workblock ++ stamp))) 0.

Definition stampValid (stamp : bytes) (targetCost : Z) (workblock : bytes) : bool :=
  bigIntFromBytesBE (sha256 (workblock ++ stamp)) <=? Z.shiftl 1 (256 - targetCost).

(** The search over the random draws; [None] when none of the first [fuel]
    draws is valid. *)
Fixpoint search (draws : nat -> bytes) (cost : Z) (workblock : bytes) (k fuel : nat)
    : option (bytes * option Z) :=
  match fuel with
  | O => None
  | S fuel =>
      if stampValid (draws k) cost workblock then Some (draws k, stampValue workblock (draws k))
      else search draws cost workblock (S k) fuel
  end.

Definition generateStamp (draws : nat -> bytes) (fuel : nat) (messageId : bytes) (stampCost : Z)
    (expandRounds : nat) : option (bytes * option Z) :=
  search draws stampCost (stampWorkblock messageId expandRounds) 0 fuel.

(** ** LXMF validators *)

Definition validatePeeringKey (peeringId peeringKey : bytes) (targetCost : Z) : bool :=
  stampValid peeringKey targetCost (stampWorkblock peeringId WORKBLOCK_EXPAND_ROUNDS_PEERING).

Record ValidatedPnStamp := mkValidated {
  transientId : bytes;
  lxmfData : bytes;
  stampData : bytes;
  stampValueOf : option Z;
}.

Definition validatePnStamp (transientData : bytes) (targetCost : Z) : option ValidatedPnStamp :=
  if (length transientData <=? LXMF_OVERHEAD + STAMP_SIZE)%nat then None else
  let cut := (length transientData - STAMP_SIZE)%nat in
  let lxmf := take cut transientData in
  let stamp := drop cut transientData in
  let tid := sha256 lxmf in
  let workblock := stampWorkblock tid WORKBLOCK_EXPAND_ROUNDS_PN in
  if stampValid stamp targetCost workblock
  then Some (mkValidated tid lxmf stamp (stampValue workblock stamp))
  else None.

Definition validatePnStamps (transientList : list bytes) (targetCost : Z) : list ValidatedPnStamp :=
  omap (fun td => validatePnStamp td targetCost) transientList.

End WithCrypto.

(** ** Lemmas *)

Lemma shift_to_top i v : 0 < i < 2 ^ 256 ->
  forall fuel, (Z.to_nat (255 - Z.log2 i) <= fuel)%nat ->
  leading_zeros fuel i v = Some (v + (255 - Z.log2 i)).
Proof.
  intros Hi fuel. revert i v Hi. induction fuel as [|fuel IH]; intros i v Hi Hf.
  - assert (Hl : Z.log2 i = 255).
    { pose proof (Z.log2_lt_pow2 i 256 ltac:(lia)) as [Hl _]. specialize (Hl ltac:(lia)). lia. }
    cbn [leading_zeros]. assert (Hb : Z.land i (2 ^ 255) =? 0 = false).
    { apply Z.eqb_neq. intros H0. pose proof (Z.bit_log2 i ltac:(lia)) as Hbit. rewrite Hl in Hbit.
      assert (Hz : Z.testbit (Z.land i (2 ^ 255)) 255 = true).
      { rewrite Z.land_spec, Hbit, Z.pow2_bits_true by lia. done. }
      by rewrite H0, Z.testbit_0_l in Hz. }
    rewrite Hb. f_equal. lia.
  - cbn [leading_zeros]. destruct (Z.land i (2 ^ 255) =? 0) eqn:Hb.
    + apply Z.eqb_eq in Hb.
      assert (Hlt : i < 2 ^ 255).
      { destruct (Z.lt_ge_cases i (2 ^ 255)) as [|Hge]; [done|]. exfalso.
        assert (Hl : Z.log2 i = 255) by (apply Z.log2_unique; lia).
        pose proof (Z.bit_log2 i ltac:(lia)) as Hbit. rewrite Hl in Hbit.
        assert (Hz : Z.testbit (Z.land i (2 ^ 255)) 255 = true)
          by (rewrite Z.land_spec, Hbit, Z.pow2_bits_true by lia; done).
        by rewrite Hb, Z.testbit_0_l in Hz. }
      rewrite Z.shiftl_mul_pow2 by lia. change (2 ^ 1) with 2.
      assert (Hlog : Z.log2 (i * 2) = Z.log2 i + 1) by (rewrite Z.mul_comm, Z.log2_double; lia).
      pose proof (Z.log2_lt_pow2 i 255 ltac:(lia)) as [Hl _]. specialize (Hl Hlt).
      rewrite IH; [f_equal; lia|lia|lia].
    + f_equal. assert (Hl : Z.log2 i = 255); [|lia].
      apply Z.eqb_neq in Hb. destruct (Z.lt_ge_cases i (2 ^ 255)) as [Hlt|Hge].
      * exfalso. apply Hb. apply Z.bits_inj'. intros n Hn. rewrite Z.land_spec, Z.testbit_0_l.
        destruct (decide (n = 255)) as [->|Hne]; [|by rewrite Z.pow2_bits_false, andb_false_r by lia].
        rewrite Z.bits_above_log2; [done|lia|]. apply Z.log2_lt_pow2; lia.
      * apply Z.log2_unique; lia.
Qed.

(** The counter of the workblock's rounds is MessagePack's encoding of it. *)
Theorem msgpackUint_encode (n : Z) (Hn : 0 <= n <= MAX_SAFE_INTEGER) :
  encode (VInt n) = Ok (msgpackUint n).
Proof.
  unfold encode, _encodeValue, _encodeInteger, msgpackUint.
  rewrite (proj2 (Z.leb_le 0 n)), push16_be, push32_be, !js_and_255 by lia. f_equal.
  destruct (n <=? 127) eqn:E1; bools; [by rewrite (proj2 (Z.ltb_lt _ _)) by lia|].
  rewrite (proj2 (Z.ltb_ge _ _)) by lia. destruct (n <=? 255) eqn:E2; bools; [done|].
  destruct (n <=? 65535) eqn:E3; bools.
  - cbn [be_bytes app]. unfold js_shr. rewrite int32_small, Z.shiftr_div_pow2 by lia. done.
  - destruct (n <=? 4294967295) eqn:E4; bools; [|by rewrite (proj2 (Z.leb_le _ _)) by lia].
    cbn [be_bytes app]. rewrite !Z.div_div by lia. done.
Qed.

Section Theorems.
Context `{C : WebCrypto} `{W : !WebCryptoLaws C}.

(** The hash a stamp is judged by. *)
Definition stamp_hash (workblock stamp : bytes) : Z := bigIntFromBytesBE (sha256 (workblock ++ stamp)).

Lemma stamp_hash_bound workblock stamp : 0 <= stamp_hash workblock stamp < 2 ^ 256.
Proof.
  pose proof (be_uint_bound _ (sha256_wf (workblock ++ stamp))) as Hb.
  unfold zlen in Hb. rewrite sha256_length in Hb. exact Hb.
Qed.

(** The value of a stamp is the number of leading zero bits of its hash, for
    every hash but zero, on which the loop never ends. *)
Theorem stampValue_leading_zeros (workblock stamp : bytes) (v : Z) :
  stampValue workblock stamp = Some v
  <-> 0 <= v <= 255 /\ 2 ^ (255 - v) <= stamp_hash workblock stamp < 2 ^ (256 - v).
Proof.
  pose proof (stamp_hash_bound workblock stamp) as Hb. unfold stampValue.
  change (bigIntFromBytesBE (sha256 (workblock ++ stamp))) with (stamp_hash workblock stamp).
  set (i := stamp_hash workblock stamp) in *. clearbody i.
  destruct (decide (i = 0)) as [->|Hi].
  - split; [vm_compute; discriminate|]. intros [Hv [Hlo _]].
    pose proof (Z.pow_pos_nonneg 2 (255 - v)). lia.
  - assert (Hl : 0 <= Z.log2 i <= 255).
    { split; [apply Z.log2_nonneg|]. pose proof (Z.log2_lt_pow2 i 256 ltac:(lia)) as [Hl _].
      specialize (Hl ltac:(lia)). lia. }
    rewrite shift_to_top by lia. pose proof (Z.log2_spec i ltac:(lia)) as Hs. split.
    + intros [= <-]. split; [lia|]. replace (255 - (0 + (255 - Z.log2 i))) with (Z.log2 i) by lia.
      replace (256 - (0 + (255 - Z.log2 i))) with (Z.succ (Z.log2 i)) by lia. done.
    + intros [Hv Hr]. f_equal. enough (Z.log2 i = 255 - v) by lia.
      apply Z.log2_unique; [lia|]. by replace (Z.succ (255 - v)) with (256 - v) by lia.
Qed.

(** A stamp is valid exactly when its value reaches the cost, or its hash is
    the power of two on the boundary, whose value is one less. *)
Theorem stampValid_value (workblock stamp : bytes) (cost v : Z) (Hc : 0 <= cost <= 256)
    (Hv : stampValue workblock stamp = Some v) :
  stampValid stamp cost workblock = true
  <-> cost <= v \/ (v = cost - 1 /\ stamp_hash workblock stamp = 2 ^ (256 - cost)).
Proof.
  apply stampValue_leading_zeros in Hv as [Hv Hr]. unfold stampValid.
  change (bigIntFromBytesBE (sha256 (workblock ++ stamp))) with (stamp_hash workblock stamp).
  rewrite Z.leb_le, Z.shiftl_mul_pow2, Z.mul_1_l by lia. split.
  - intros Hle. destruct (Z.le_gt_cases cost v); [by left|right].
    assert (Hp : 2 ^ (256 - cost) <= 2 ^ (255 - v)) by (apply Z.pow_le_mono_r; lia).
    assert (He : 255 - v <= 256 - cost) by (apply (Z.pow_le_mono_r_iff 2); lia). split; lia.
  - intros [Hle|[_ ->]]; [|done].
    assert (2 ^ (256 - v) <= 2 ^ (256 - cost)) by (apply Z.pow_le_mono_r; lia). lia.
Qed.

(** A stamp worth the cost is valid. *)
Lemma stampValue_enough workblock stamp cost v : 0 <= cost <= v -> stampValue workblock stamp = Some v ->
  stampValid stamp cost workblock = true.
Proof.
  intros Hc Hv. apply stampValue_leading_zeros in Hv as [Hv Hr]. unfold stampValid.
  change (bigIntFromBytesBE (sha256 (workblock ++ stamp))) with (stamp_hash workblock stamp).
  rewrite Z.leb_le, Z.shiftl_mul_pow2, Z.mul_1_l by lia.
  pose proof (Z.pow_le_mono_r 2 (256 - v) (256 - cost)). lia.
Qed.

Lemma search_valid draws cost wb k fuel s v : search draws cost wb k fuel = Some (s, v) ->
  stampValid s cost wb = true /\ v = stampValue wb s /\ exists j, s = draws j /\ (k <= j)%nat
  /\ forall i, (k <= i < j)%nat -> stampValid (draws i) cost wb = false.
Proof.
  revert k. induction fuel as [|fuel IH]; intros k; cbn [search]; [done|].
  destruct (stampValid (draws k) cost wb) eqn:E.
  - intros [= <- <-]. split; [done|]. split; [done|]. exists k. split; [done|]. split; [done|]. lia.
  - intros (H1 & H2 & j & H3 & H4 & H5)%IH. split; [done|]. split; [done|].
    exists j. split; [done|]. split; [lia|]. intros i Hi.
    destruct (decide (i = k)) as [->|]; [done|]. apply H5. lia.
Qed.

#[local] Opaque stampWorkblock.

(** A message stamped for a propagation node is accepted there: the search's
    stamp for the transient id, appended to the message, is found again with
    the message, its id and its value; and whatever is accepted is a message of
    more than 112 bytes with a valid stamp for its own hash. *)
Theorem pn_stamp_accepted (draws : nat -> bytes) (fuel : nat) (d s : bytes) (v : option Z) (cost : Z)
    (Hlen : (LXMF_OVERHEAD < length d)%nat) (Hs : length s = STAMP_SIZE)
    (Hgen : generateStamp draws fuel (sha256 d) cost WORKBLOCK_EXPAND_ROUNDS_PN = Some (s, v)) :
  validatePnStamp (d ++ s) cost = Some (mkValidated (sha256 d) d s v)
  /\ forall td w, validatePnStamp td cost = Some w ->
       td = lxmfData w ++ stampData w /\ transientId w = sha256 (lxmfData w)
       /\ (LXMF_OVERHEAD < length (lxmfData w))%nat /\ length (stampData w) = STAMP_SIZE
       /\ stampValid (stampData w) cost (stampWorkblock (transientId w) WORKBLOCK_EXPAND_ROUNDS_PN) = true.
Proof.
  apply search_valid in Hgen as (Hv & -> & _). split.
  - unfold validatePnStamp. rewrite length_app, Hs, (proj2 (Nat.leb_gt _ _)) by (unfold LXMF_OVERHEAD in *; lia).
    replace (length d + STAMP_SIZE - STAMP_SIZE)%nat with (length d) by lia.
    cbv zeta. rewrite take_app_length, drop_app_length. rewrite Hv. reflexivity.
  - intros td w. unfold validatePnStamp. destruct (_ <=? _)%nat eqn:E; [done|]. bools.
    match goal with |- context [if ?b then _ else _] => generalize (eq_refl b); case b at 2 3 end;
      intros E2 Hw; [|discriminate Hw]. apply (inj Some) in Hw. rewrite <- Hw. cbn [lxmfData stampData transientId].
    rewrite take_drop, length_take, length_drop. unfold LXMF_OVERHEAD, STAMP_SIZE in *.
    split; [done|]. split; [done|]. split; [lia|]. split; [lia|exact E2].
Qed.

#[local] Transparent stampWorkblock.
End Theorems.

(** ** Concrete stamps *)

Section Samples.

(** A constant in place of the hash, so that stamps of large workblocks can be
    evaluated. *)
Definition sum_digest (m : bytes) : bytes := be_bytes 32 200.

#[local] Instance sum_crypto : WebCrypto := {|
  sha256 := sum_digest;
  hmac_sha256 k m := sum_digest (k ++ m);
  aes_cbc_encrypt _ _ m := Pkcs7.pad m;
  aes_cbc_decrypt _ _ m := match Pkcs7.unpad m with Ok m => Some m | Throw _ => None end;
  x25519_pub k := sum_digest k;
  x25519_bits _ _ := Some (sum_digest []);
  ed25519_pub k := sum_digest k;
  ed25519_sign k m := sum_digest k ++ sum_digest m;
  ed25519_verify pk s m := bytesEqual s (pk ++ sum_digest m);
|}.

#[local] Instance sum_laws : WebCryptoLaws sum_crypto.
Proof.
  constructor; intros; unfold sha256, hmac_sha256, aes_cbc_decrypt, aes_cbc_encrypt,
    x25519_pub, x25519_bits, ed25519_pub, ed25519_sign, ed25519_verify, sum_crypto, sum_digest.
  all: rewrite ?length_app, ?length_be_bytes; try done; try apply wf_be_bytes.
  - by rewrite (proj1 (Pkcs7.pkcs7_pad_unpad m)).
  - apply wf_bytes_app; [done|]. pose proof (Pkcs7.pad_len m). apply wf_bytes_replicate. unfold is_byte. lia.
  - unfold Pkcs7.pad. rewrite length_app, length_replicate.
    pose proof (Nat.div_mod_eq (length m) 16). pose proof (Nat.mod_upper_bound (length m) 16). lia.
  - apply wf_bytes_app; apply wf_be_bytes.
Qed.

Definition sample_message : bytes := replicate 113 7.
Definition sample_stamps (i : nat) : bytes := replicate 32 (Z.of_nat i).
Definition sample_stamp : bytes := Eval vm_compute in sample_stamps 0.
Definition sample_value : option Z := Eval vm_compute in
  stampValue (stampWorkblock (sha256 sample_message) WORKBLOCK_EXPAND_ROUNDS_PN) sample_stamp.

Lemma pn_stamp_accepted_witness :
  validatePnStamp (sample_message ++ sample_stamp) 8
  = Some (mkValidated (sha256 sample_message) sample_message sample_stamp sample_value).
Proof.
  apply (@pn_stamp_accepted sum_crypto sample_stamps 3).
  - apply Nat.ltb_lt. reflexivity.
  - reflexivity.
  - vm_compute. reflexivity.
Defined.

Lemma stampValid_value_witness :
  stampValid sample_stamp 230 (replicate 20 7) = true <-> 230 <= 248 \/ (248 = 230 - 1 /\ stamp_hash (replicate 20 7) sample_stamp = 2 ^ (256 - 230)).
Proof.
  apply (@stampValid_value sum_crypto sum_laws).
  - lia.
  - vm_compute. reflexivity.
Defined.

Lemma msgpackUint_encode_witness : encode (VInt 1000) = Ok [205; 3; 232].
Proof. apply (msgpackUint_encode 1000). vm_compute. split; discriminate. Defined.
End Samples.
