(* ===== verification/Sorting.v ===== *)
(** * Sorting: [Array.prototype.sort] with a comparator

    A stable sort: [lt a b] is "the comparator puts [a] strictly before [b]". *)

From Stdlib Require Import Sorted.
From S2P Require Import Prelude.

Section Sort.
Context {A : Type} (lt : A -> A -> bool).

Fixpoint insert_sorted (x : A) (l : list A) : list A :=
  match l with
  | [] => [x]
  | y :: l' => if lt y x then y :: insert_sorted x l' else x :: l
  end.

Definition js_sort (l : list A) : list A := foldr insert_sorted [] l.

(** [a] may stand before [b]. *)
Definition before (a b : A) : Prop := lt b a = false.

Lemma insert_sorted_perm x l : insert_sorted x l ≡ₚ x :: l.
Proof.
  induction l as [|y l IH]; cbn [insert_sorted]; [done|].
  destruct (lt y x); [|done]. rewrite IH. by constructor.
Qed.

Lemma js_sort_perm l : js_sort l ≡ₚ l.
Proof.
  unfold js_sort. induction l as [|x l IH]; cbn [foldr]; [done|].
  by rewrite insert_sorted_perm, IH.
Qed.

Lemma js_sort_elem x l : x ∈ js_sort l <-> x ∈ l.
Proof. by rewrite (js_sort_perm l). Qed.

Lemma js_sort_length l : length (js_sort l) = length l.
Proof. by rewrite (js_sort_perm l). Qed.

(** The comparator orders by a total preorder. *)
Context (Htrans : forall a b c, before a b -> before b c -> before a c)
  (Hasym : forall a b, lt a b = true -> lt b a = false).

Lemma insert_sorted_sorted x l : StronglySorted before l -> StronglySorted before (insert_sorted x l).
Proof.
  induction l as [|y l IH]; cbn [insert_sorted]; intros Hs; [by repeat constructor|].
  apply StronglySorted_inv in Hs as [Hs Hy]. destruct (lt y x) eqn:E.
  - constructor; [by apply IH|]. rewrite insert_sorted_perm. constructor; [by apply Hasym|done].
  - constructor; [by constructor|]. constructor; [done|].
    eapply Forall_impl; [exact Hy|]. intros z Hz. by apply (Htrans x y z).
Qed.

Lemma js_sort_sorted l : StronglySorted before (js_sort l).
Proof.
  unfold js_sort. induction l as [|x l IH]; cbn [foldr]; [constructor|]. by apply insert_sorted_sorted.
Qed.

End Sort.

Lemma StronglySorted_cross {A} (R : A -> A -> Prop) l1 l2 x y :
  StronglySorted R (l1 ++ l2) -> x ∈ l1 -> y ∈ l2 -> R x y.
Proof.
  induction l1 as [|z l1 IH]; cbn [app]; intros Hs Hx Hy; [by apply not_elem_of_nil in Hx|].
  apply StronglySorted_inv in Hs as [Hs Hz]. apply elem_of_cons in Hx as [->|Hx]; [|by apply IH].
  rewrite Forall_forall in Hz. apply Hz, elem_of_app. by right.
Qed.
