(* ===== verification/MessageStore.v ===== *)
(** * MessageStore: the messages of a propagation node
    (packages/lxmf/src/message_store.js)

    Entries in insertion order under the hexadecimal form of their transient
    id, with a running byte total, a byte cap and an optional age limit.
    Times and weights are exact rational numbers of seconds; sets of peers are
    lists in insertion order. *)

From Stdlib Require Import QArith Qminmax Sorted.
From S2P Require Import Prelude Encoding JsMap Sorting.
#[local] Open Scope Z_scope.

Record PropagationEntry := mkEntry {
  transientId : bytes;
  destinationHash : bytes;
  lxmfData : bytes;
  stampData : bytes;
  received : Q;
  stampValue : Z;
  size : Z;
  handledPeers : list jsstr;
  unhandledPeers : list jsstr;
}.

Definition set_peers (e : PropagationEntry) (handled unhandled : list jsstr) : PropagationEntry :=
  mkEntry (transientId e) (destinationHash e) (lxmfData e) (stampData e) (received e) (stampValue e)
    (size e) handled unhandled.

Definition AGE_WEIGHT_UNIT : Z := 60 * 60 * 24 * 4.

Definition weightOf (nowSecs : Q) (e : PropagationEntry) : Q :=
  Qmax 1 ((nowSecs - received e) / inject_Z AGE_WEIGHT_UNIT) * inject_Z (size e).

Record MessageStore := mkStore {
  _entries : jsmap PropagationEntry;
  storageLimitBytes : option Z;
  messageTtlSecs : option Q;
  _totalBytes : Z;
}.

Definition new_MessageStore (limit : option Z) (ttl : option Q) : MessageStore :=
  mkStore [] limit ttl 0.

Definition with_entries (s : MessageStore) (es : jsmap PropagationEntry) (total : Z) : MessageStore :=
  mkStore es (storageLimitBytes s) (messageTtlSecs s) total.

Definition has_message (tid : bytes) (s : MessageStore) : bool := has (toHex tid) (_entries s).

Definition get_message (tid : bytes) (s : MessageStore) : option PropagationEntry :=
  get (toHex tid) (_entries s).

(** Deleting one key. *)
Definition drop_entry (key : jsstr) (e : PropagationEntry) (s : MessageStore) : MessageStore :=
  with_entries s (mdelete key (_entries s)) (_totalBytes s - size e).

(** The loop of [_enforceCapacity] over the ranked entries. *)
Fixpoint evict (ranked : list (jsstr * PropagationEntry)) (limit : Z) (s : MessageStore) : MessageStore :=
  match ranked with
  | [] => s
  | (key, e) :: ranked =>
      if _totalBytes s <=? limit then s else evict ranked limit (drop_entry key e s)
  end.

Definition heavier (nowSecs : Q) (a b : jsstr * PropagationEntry) : bool :=
  negb (Qle_bool (weightOf nowSecs (snd a)) (weightOf nowSecs (snd b))).

Definition _enforceCapacity (nowSecs : Q) (s : MessageStore) : MessageStore :=
  match storageLimitBytes s with
  | None => s
  | Some limit =>
      if _totalBytes s <=? limit then s
      else evict (js_sort (heavier nowSecs) (_entries s)) limit s
  end.

Definition add (nowSecs : Q) (e : PropagationEntry) (s : MessageStore) : MessageStore * bool :=
  let key := toHex (transientId e) in
  if has key (_entries s) then (s, false)
  else (_enforceCapacity nowSecs (with_entries s (mset key e (_entries s)) (_totalBytes s + size e)), true).

Definition remove (tid : bytes) (s : MessageStore) : MessageStore * bool :=
  let key := toHex tid in
  match get key (_entries s) with
  | None => (s, false)
  | Some e => (drop_entry key e s, true)
  end.

Definition removeForDestination (tid ownerHash : bytes) (s : MessageStore) : MessageStore * bool :=
  match get_message tid s with
  | None => (s, false)
  | Some e =>
      if bool_decide (toHex (destinationHash e) = toHex ownerHash) then remove tid s else (s, false)
  end.

(** Deleting the aged entries; the count of them. *)
Definition prune_aged (nowSecs ttl : Q) (s : MessageStore) : MessageStore * nat :=
  fold_left (fun '(s, aged) '(key, e) =>
    if negb (Qle_bool (nowSecs - ttl) (received e)) then (drop_entry key e s, S aged) else (s, aged))
    (_entries s) (s, 0%nat).

Definition prune (nowSecs : Q) (s : MessageStore) : MessageStore * nat :=
  let '(s, aged) := match messageTtlSecs s with
                    | Some ttl => prune_aged nowSecs ttl s
                    | None => (s, 0%nat)
                    end in
  (_enforceCapacity nowSecs s, aged).

Definition transientIdsForDestination (destination : bytes) (s : MessageStore) : list bytes :=
  map transientId
    (js_sort (fun a b => size a <? size b)
       (filter (fun e => toHex (destinationHash e) = toHex destination) (values (_entries s)))).

Definition serveDataForDestination (tid ownerHash : bytes) (s : MessageStore) : option bytes :=
  match get_message tid s with
  | None => None
  | Some e => if bool_decide (toHex (destinationHash e) = toHex ownerHash) then Some (lxmfData e) else None
  end.

(** ** Per-peer bookkeeping *)

Definition set_add (h : jsstr) (l : list jsstr) : list jsstr :=
  if bool_decide (h ∈ l) then l else l ++ [h].
Definition set_delete (h : jsstr) (l : list jsstr) : list jsstr := filter (fun x => x <> h) l.

Definition mark_unhandled (h : jsstr) (e : PropagationEntry) : PropagationEntry :=
  set_peers e (set_delete h (handledPeers e)) (set_add h (unhandledPeers e)).
Definition mark_handled (h : jsstr) (e : PropagationEntry) : PropagationEntry :=
  set_peers e (set_add h (handledPeers e)) (set_delete h (unhandledPeers e)).

(** Changing the entry of a transient id in place. *)
Definition update_entry (tid : bytes) (f : PropagationEntry -> PropagationEntry) (s : MessageStore)
    : MessageStore * bool :=
  match get_message tid s with
  | None => (s, false)
  | Some e => (with_entries s (mset (toHex tid) (f e) (_entries s)) (_totalBytes s), true)
  end.

Definition markUnhandledForPeer (tid peerHash : bytes) : MessageStore -> MessageStore * bool :=
  update_entry tid (mark_unhandled (toHex peerHash)).
Definition markHandledForPeer (tid peerHash : bytes) : MessageStore -> MessageStore * bool :=
  update_entry tid (mark_handled (toHex peerHash)).

Definition markAllUnhandledForPeer (peerHash : bytes) (s : MessageStore) : MessageStore * nat :=
  let h := toHex peerHash in
  let fresh e := bool_decide (h ∉ unhandledPeers e) in
  (with_entries s (map (fun '(key, e) => (key, if fresh e then mark_unhandled h e else e)) (_entries s))
     (_totalBytes s),
   length (filter (fun e => h ∉ unhandledPeers e) (values (_entries s)))).

Definition unhandledEntriesForPeer (nowSecs : Q) (peerHash : bytes) (minAcceptedCost : Z) (s : MessageStore)
    : list PropagationEntry :=
  js_sort (fun a b => negb (Qle_bool (weightOf nowSecs b) (weightOf nowSecs a)))
    (filter (fun e => toHex peerHash ∈ unhandledPeers e /\ minAcceptedCost <= stampValue e)
       (values (_entries s))).

(** ** Records *)

(** The records carry copies of every field. *)
Definition exportRecords (s : MessageStore) : list PropagationEntry := values (_entries s).

Definition set_of (l : list jsstr) : list jsstr := fold_left (fun acc h => set_add h acc) l [].

Definition import_record (s : MessageStore) (r : PropagationEntry) : MessageStore :=
  let e := set_peers r (set_of (handledPeers r)) (set_of (unhandledPeers r)) in
  with_entries s (mset (toHex (transientId e)) e (_entries s)) (_totalBytes s + size e).

Definition importRecords (records : list PropagationEntry) (s : MessageStore) : MessageStore :=
  fold_left import_record records (with_entries s [] 0).

(** ** Invariant *)

Definition total_size (es : jsmap PropagationEntry) : Z := foldr (fun e acc => size (snd e) + acc) 0 es.

Record store_inv (s : MessageStore) : Prop := {
  si_keys : wf_map (_entries s);
  si_ids : Forall (fun '(key, e) => key = toHex (transientId e)) (_entries s);
  si_total : _totalBytes s = total_size (_entries s);
  si_peers : Forall (fun '(_, e) => handledPeers e ## unhandledPeers e) (_entries s);
}.

Lemma total_app a b : total_size (a ++ b) = total_size a + total_size b.
Proof. unfold total_size. induction a as [|x a IH]; cbn [foldr app]; [done|]. rewrite IH. lia. Qed.

Lemma total_perm a b : a ≡ₚ b -> total_size a = total_size b.
Proof. unfold total_size. induction 1; cbn [foldr]; lia. Qed.

Lemma total_delete key e es : wf_map es -> get key es = Some e ->
  total_size (mdelete key es) = total_size es - size e.
Proof.
  unfold total_size, mdelete, wf_map, keys. induction es as [|[k x] es IH]; [done|].
  cbn [map fst get]. intros Hn Hg. apply NoDup_cons in Hn as [Hx Hn]. rewrite filter_cons.
  case_bool_decide as E.
  - subst k. injection Hg as ->. rewrite decide_False by tauto. cbn [foldr snd].
    fold (mdelete key es). rewrite mdelete_absent by done. lia.
  - rewrite decide_True by congruence. cbn [foldr snd]. rewrite IH by done. lia.
Qed.

Lemma drop_inv key e s : store_inv s -> get key (_entries s) = Some e -> store_inv (drop_entry key e s).
Proof.
  intros [H1 H2 H3 H4] Hg. split; cbn [drop_entry with_entries _entries _totalBytes].
  - by apply wf_mdelete.
  - by apply Forall_mdelete.
  - rewrite (total_delete key e) by done. lia.
  - by apply Forall_mdelete.
Qed.

(** [evict] deletes the shortest prefix of the ranking that brings the total
    under the limit. *)
Lemma evict_spec limit : forall ranked s, store_inv s -> NoDup (map fst ranked) ->
  (forall k e, (k, e) ∈ ranked -> get k (_entries s) = Some e) ->
  exists out rest, ranked = out ++ rest /\ store_inv (evict ranked limit s)
  /\ _entries (evict ranked limit s) = foldr mdelete (_entries s) (rev (map fst out))
  /\ _totalBytes (evict ranked limit s) = _totalBytes s - total_size out
  /\ (rest = [] \/ _totalBytes (evict ranked limit s) <= limit)
  /\ (forall o x, out = o ++ [x] -> limit < _totalBytes s - total_size o)
  /\ storageLimitBytes (evict ranked limit s) = storageLimitBytes s
  /\ messageTtlSecs (evict ranked limit s) = messageTtlSecs s.
Proof.
  induction ranked as [|[k e] ranked IH]; intros s Hs Hn Hin.
  { exists [], []. cbn. split; [done|]. split; [done|]. split; [done|]. split; [lia|].
    split; [by left|]. split; [|done]. intros o x Ho. by destruct o. }
  cbn [evict]. destruct (_totalBytes s <=? limit) eqn:E; bools.
  { exists [], ((k, e) :: ranked). cbn. split; [done|]. split; [done|]. split; [done|]. split; [lia|].
    split; [by right|]. split; [|done]. intros o x Ho. by destruct o. }
  cbn [map fst] in Hn. apply NoDup_cons in Hn as [Hk Hn].
  assert (Hg : get k (_entries s) = Some e) by (apply Hin; by left).
  destruct (IH (drop_entry k e s)) as (out & rest & -> & H1 & H2 & H3 & H4 & H5 & H6 & H7).
  - by apply drop_inv.
  - done.
  - intros k' e' Hk'. cbn [drop_entry with_entries _entries]. rewrite get_mdelete_other.
    + apply Hin. by right.
    + intros ->. apply Hk. apply list_elem_of_fmap. by exists (k, e').
  - exists ((k, e) :: out), rest. split; [done|]. split; [done|]. split.
    { rewrite H2. cbn [map fst rev]. by rewrite foldr_app. }
    split; [rewrite H3; cbn [drop_entry with_entries _totalBytes total_size foldr snd]; unfold total_size; lia|].
    split; [done|]. split; [|done]. intros [|y o] x Ho.
    + cbn. lia.
    + injection Ho as <- Ho. specialize (H5 o x Ho). cbn [total_size foldr snd]. unfold total_size in *.
      cbn [drop_entry with_entries _totalBytes] in H5. lia.
Qed.

Lemma total_nonneg es : Forall (fun '(_, e) => 0 <= size e) es -> 0 <= total_size es.
Proof.
  unfold total_size. induction 1 as [|[k e] es H _ IH]; cbn [foldr snd]; lia.
Qed.

Lemma heavier_trans t a b c : before (heavier t) a b -> before (heavier t) b c -> before (heavier t) a c.
Proof.
  unfold before, heavier. rewrite !negb_false_iff, !Qle_bool_iff. intros. eapply Qle_trans; eauto.
Qed.

Lemma heavier_asym t a b : heavier t a b = true -> heavier t b a = false.
Proof.
  unfold heavier. rewrite negb_true_iff, negb_false_iff, Qle_bool_iff. intros Hn.
  apply Qlt_le_weak, Qnot_le_lt. intros Hle. apply Qle_bool_iff in Hle. congruence.
Qed.

Lemma ranked_lookup t es k e : wf_map es -> (k, e) ∈ js_sort (heavier t) es -> get k es = Some e.
Proof. intros Hw Hin. apply js_sort_elem in Hin. apply In_get; [done|]. by apply list_elem_of_In. Qed.

(** What making room does: the entries that go are the heaviest ones, no more
    of them than needed, and what stays fits. *)
Definition made_room (t : Q) (limit : Z) (s s' : MessageStore) : Prop :=
  exists out, _entries s' = foldr mdelete (_entries s) (rev (map fst out))
  /\ _totalBytes s' <= limit
  /\ (forall o x, out = o ++ [x] -> limit < _totalBytes s - total_size o)
  /\ (forall x y, x ∈ out -> y ∈ _entries s' -> (weightOf t (snd y) <= weightOf t (snd x))%Q).

Lemma enforce_inv t s : store_inv s -> store_inv (_enforceCapacity t s)
  /\ storageLimitBytes (_enforceCapacity t s) = storageLimitBytes s
  /\ messageTtlSecs (_enforceCapacity t s) = messageTtlSecs s.
Proof.
  intros Hs. unfold _enforceCapacity. destruct (storageLimitBytes s) as [limit|] eqn:El; [|done].
  destruct (_ <=? _); [done|].
  destruct (evict_spec limit (js_sort (heavier t) (_entries s)) s Hs) as (out & rest & _ & H1 & _ & _ & _ & _ & H2 & H3).
  - rewrite (js_sort_perm (heavier t) (_entries s)). apply Hs.
  - intros k e. apply ranked_lookup, Hs.
  - rewrite H2, H3. done.
Qed.

Lemma enforce_makes_room t limit s : store_inv s -> storageLimitBytes s = Some limit -> 0 <= limit ->
  limit < _totalBytes s -> made_room t limit s (_enforceCapacity t s).
Proof.
  intros Hs El Hl Hover. unfold _enforceCapacity. rewrite El, (proj2 (Z.leb_gt _ _)) by done.
  set (ranked := js_sort (heavier t) (_entries s)).
  assert (Hp : ranked ≡ₚ _entries s) by apply js_sort_perm.
  destruct (evict_spec limit ranked s Hs) as (out & rest & Hr & H1 & H2 & H3 & H4 & H5 & _).
  { rewrite Hp. apply Hs. }
  { intros k e. apply ranked_lookup, Hs. }
  exists out. split; [done|]. split; [|split; [done|]].
  - destruct H4 as [->|]; [|done]. rewrite app_nil_r in Hr. rewrite H3, <- Hr.
    rewrite (si_total s Hs), (total_perm _ _ Hp). lia.
  - intros x y Hx Hy.
    assert (Hin : In y (_entries s) /\ ~ In (fst y) (map fst out)).
    { rewrite H2 in Hy. apply list_elem_of_In in Hy. rewrite (in_rev (map fst out)). revert Hy.
      generalize (rev (map fst out)). intros l. induction l as [|k l IH]; cbn [foldr In]; [tauto|].
      rewrite In_mdelete. intros [Hy Hne]. destruct (IH Hy). split; [done|]. intros [->|?]; [done|tauto]. }
    destruct Hin as [Hin Hno].
    assert (Hyr : y ∈ rest).
    { assert (Hyx : y ∈ ranked) by (rewrite Hp; by apply list_elem_of_In).
      rewrite Hr in Hyx. apply elem_of_app in Hyx as [Hyx|]; [|done].
      exfalso. apply Hno. apply in_map. by apply list_elem_of_In. }
    pose proof (js_sort_sorted (heavier t) (heavier_trans t) (heavier_asym t) (_entries s)) as Hsorted.
    fold ranked in Hsorted. rewrite Hr in Hsorted.
    pose proof (StronglySorted_cross _ _ _ x y Hsorted Hx Hyr) as Hb.
    unfold before, heavier in Hb. apply negb_false_iff, Qle_bool_iff in Hb. done.
Qed.

(** ** Every operation keeps the invariant *)

Inductive store_op :=
| OpAdd (e : PropagationEntry)
| OpRemove (tid : bytes)
| OpRemoveFor (tid owner : bytes)
| OpPrune
| OpUnhandled (tid peer : bytes)
| OpHandled (tid peer : bytes)
| OpAllUnhandled (peer : bytes).

Definition store_run (t : Q) (o : store_op) (s : MessageStore) : MessageStore :=
  match o with
  | OpAdd e => fst (add t e s)
  | OpRemove tid => fst (remove tid s)
  | OpRemoveFor tid owner => fst (removeForDestination tid owner s)
  | OpPrune => fst (prune t s)
  | OpUnhandled tid peer => fst (markUnhandledForPeer tid peer s)
  | OpHandled tid peer => fst (markHandledForPeer tid peer s)
  | OpAllUnhandled peer => fst (markAllUnhandledForPeer peer s)
  end.

Lemma total_mset k e e' es : wf_map es -> get k es = Some e -> total_size (mset k e' es) = total_size es - size e + size e'.
Proof.
  unfold total_size, wf_map, keys. induction es as [|[k' x] es IH]; [done|].
  cbn [map fst get]. intros Hn Hg. apply NoDup_cons in Hn as [_ Hn].
  change (mset k e' ((k', x) :: es))
    with (if bool_decide (k = k') then (k, e') :: es else (k', x) :: mset k e' es).
  revert Hg. case_bool_decide; intros Hg; cbn [foldr snd]; [injection Hg as ->; lia|]. rewrite IH by done. lia.
Qed.

Lemma set_add_elem h x l : x ∈ set_add h l <-> x ∈ l \/ x = h.
Proof.
  unfold set_add. case_bool_decide; [|set_solver]. split; [by left|]. by intros [?| ->].
Qed.

Lemma set_delete_elem h x l : x ∈ set_delete h l <-> x ∈ l /\ x <> h.
Proof. unfold set_delete. rewrite list_elem_of_filter. tauto. Qed.

Lemma mark_unhandled_disjoint h e : handledPeers e ## unhandledPeers e ->
  handledPeers (mark_unhandled h e) ## unhandledPeers (mark_unhandled h e).
Proof.
  intros Hd x. cbn. rewrite set_add_elem, set_delete_elem. intros [Hx Hne] [Hu| ->]; [|done]. by apply (Hd x).
Qed.

Lemma mark_handled_disjoint h e : handledPeers e ## unhandledPeers e ->
  handledPeers (mark_handled h e) ## unhandledPeers (mark_handled h e).
Proof.
  intros Hd x. cbn. rewrite set_add_elem, set_delete_elem. intros [Hx| ->] [Hu Hne]; [|done]. by apply (Hd x).
Qed.

Lemma update_inv tid f s : store_inv s ->
  (forall e, transientId (f e) = transientId e /\ size (f e) = size e
    /\ (handledPeers e ## unhandledPeers e -> handledPeers (f e) ## unhandledPeers (f e))) ->
  store_inv (fst (update_entry tid f s)).
Proof.
  intros Hs Hf. unfold update_entry, get_message. destruct (get _ _) as [e|] eqn:Eg; [|done].
  destruct Hs as [H1 H2 H3 H4]. destruct (Hf e) as (F1 & F2 & F3).
  pose proof (get_In _ _ _ Eg) as Hin. rewrite List.Forall_forall in H2, H4.
  split; cbn [fst with_entries _entries _totalBytes].
  - by apply wf_mset.
  - apply Forall_mset; [by apply List.Forall_forall|].
    change (toHex tid = toHex (transientId (f e))). rewrite F1. exact (H2 _ Hin).
  - rewrite (total_mset _ e) by done. lia.
  - apply Forall_mset; [by apply List.Forall_forall|]. apply F3. apply (H4 _ Hin).
Qed.

(** The aging loop deletes under its own iteration: every entry of the snapshot
    that is still to be visited is still there. *)
Lemma prune_loop_inv t ttl : forall l s n, store_inv s -> NoDup (map fst l) ->
  (forall k e, (k, e) ∈ l -> get k (_entries s) = Some e) ->
  store_inv (fst (fold_left (fun '(s, aged) '(key, e) =>
    if negb (Qle_bool (t - ttl) (received e)) then (drop_entry key e s, S aged) else (s, aged)) l (s, n))).
Proof.
  induction l as [|[k e] l IH]; intros s n Hs Hn Hl; cbn [fold_left]; [done|].
  cbn [map fst] in Hn. apply NoDup_cons in Hn as [Hk Hn]. destruct (negb _).
  - apply IH; [apply drop_inv; [done|by apply Hl; left]|done|]. intros k' e' Hin.
    cbn [drop_entry with_entries _entries]. rewrite get_mdelete_other; [by apply Hl; right|].
    intros ->. apply Hk, list_elem_of_fmap. by exists (k, e').
  - apply IH; [done|done|]. intros k' e' Hin. by apply Hl; right.
Qed.

Lemma prune_aged_inv t ttl s s' n : store_inv s -> prune_aged t ttl s = (s', n) -> store_inv s'.
Proof.
  intros Hs Hp. replace s' with (fst (prune_aged t ttl s)) by by rewrite Hp.
  apply prune_loop_inv; [done|apply Hs|]. intros k e Hin. apply In_get; [apply Hs|]. by apply list_elem_of_In.
Qed.

Lemma mark_all_inv peer s : store_inv s -> store_inv (fst (markAllUnhandledForPeer peer s)).
Proof.
  intros [H1 H2 H3 H4]. unfold markAllUnhandledForPeer. cbv zeta.
  set (g := fun '(key, e) => (key, if bool_decide (toHex peer ∉ unhandledPeers e)
                                   then mark_unhandled (toHex peer) e else e) : jsstr * PropagationEntry).
  assert (Hg : forall x, fst (g x) = fst x /\ transientId (snd (g x)) = transientId (snd x)
            /\ size (snd (g x)) = size (snd x)
            /\ (handledPeers (snd x) ## unhandledPeers (snd x) -> handledPeers (snd (g x)) ## unhandledPeers (snd (g x)))).
  { intros [k e]. cbn. case_bool_decide; cbn; [|done]. split; [done|]. split; [done|]. split; [done|].
    apply mark_unhandled_disjoint. }
  clearbody g. split; cbn [fst with_entries _entries _totalBytes].
  - unfold wf_map, keys in *. rewrite map_map. rewrite (map_ext _ fst); [done|]. intros x. apply Hg.
  - rewrite Forall_map. eapply Forall_impl; [exact H2|]. intros x. pose proof (Hg x) as (G1 & G2 & _).
    destruct x as [k e], (g (k, e)) as [k' e']. cbn in *. congruence.
  - rewrite H3. unfold total_size. clear H1 H2 H3 H4. induction (_entries s) as [|x l IH]; [done|].
    cbn [map foldr]. rewrite IH. pose proof (Hg x) as (_ & _ & -> & _). done.
  - rewrite Forall_map. eapply Forall_impl; [exact H4|]. intros x. pose proof (Hg x) as (_ & _ & _ & G4).
    destruct x as [k e], (g (k, e)) as [k' e']. cbn in *. done.
Qed.

Lemma run_inv t o s : store_inv s ->
  match o with OpAdd e => handledPeers e ## unhandledPeers e | _ => True end ->
  store_inv (store_run t o s).
Proof.
  intros Hs Ho. destruct o as [e|tid|tid owner| |tid peer|tid peer|peer]; cbn [store_run].
  - unfold add. destruct (has _ _) eqn:Eh; [done|]. apply enforce_inv. apply has_false in Eh.
    destruct Hs as [H1 H2 H3 H4]. split; cbn [with_entries _entries _totalBytes].
    + by apply wf_mset.
    + by apply Forall_mset.
    + rewrite mset_new, total_app by done. cbn. lia.
    + by apply Forall_mset.
  - unfold remove. destruct (get _ _) as [e|] eqn:Eg; [by apply drop_inv|done].
  - unfold removeForDestination, get_message. destruct (get _ _) as [e|] eqn:Eg; [|done].
    case_bool_decide; [|done]. unfold remove. rewrite Eg. by apply drop_inv.
  - unfold prune. destruct (messageTtlSecs s) as [ttl|]; [|by apply enforce_inv].
    destruct (prune_aged t ttl s) as [s' n] eqn:Ep. apply enforce_inv. by eapply prune_aged_inv.
  - apply update_inv; [done|]. intros e. split; [done|]. split; [done|]. apply mark_unhandled_disjoint.
  - apply update_inv; [done|]. intros e. split; [done|]. split; [done|]. apply mark_handled_disjoint.
  - by apply mark_all_inv.
Qed.

(** The sizes are those of byte strings, and the cap still holds. *)
Definition within (s : MessageStore) : Prop :=
  Forall (fun '(_, e) => 0 <= size e) (_entries s)
  /\ match storageLimitBytes s with Some limit => _totalBytes s <= limit | None => True end.

Definition sized (s : MessageStore) : Prop := Forall (fun '(_, e) => 0 <= size e) (_entries s).

Lemma sized_foldr l es : Forall (fun '(_, e) => 0 <= size e) es ->
  Forall (fun '(_, e) => 0 <= size e) (foldr (@mdelete PropagationEntry) es l).
Proof. intros Hs. induction l as [|k l IH]; cbn [foldr]; [done|]. by apply Forall_mdelete. Qed.

Definition cap_ok (s : MessageStore) : Prop :=
  match storageLimitBytes s with Some limit => 0 <= limit | None => True end.

Lemma enforce_within t s : store_inv s -> sized s -> cap_ok s -> within (_enforceCapacity t s).
Proof.
  intros Hs Hz Hc. pose proof (enforce_inv t s Hs) as (_ & Hl & _). unfold within, cap_ok in *. rewrite Hl.
  destruct (storageLimitBytes s) as [limit|] eqn:El.
  - destruct (Z.le_gt_cases (_totalBytes s) limit) as [Hle|Hgt].
    + unfold _enforceCapacity. rewrite El, (proj2 (Z.leb_le _ _)) by done. by split.
    + destruct (enforce_makes_room t limit s Hs El Hc Hgt) as (out & He & Ht & _).
      rewrite He. split; [by apply sized_foldr|done].
  - unfold _enforceCapacity. by rewrite El.
Qed.

Lemma drop_within k e s : get k (_entries s) = Some e -> within s -> within (drop_entry k e s).
Proof.
  intros Hg [Hz Hl]. split; cbn [drop_entry with_entries _entries storageLimitBytes _totalBytes].
  - by apply Forall_mdelete.
  - assert (0 <= size e) by (apply get_In in Hg; rewrite List.Forall_forall in Hz; apply (Hz _ Hg)).
    destruct (storageLimitBytes s); [lia|done].
Qed.

Lemma update_within tid f s : (forall e, size (f e) = size e) -> within s -> within (fst (update_entry tid f s)).
Proof.
  intros Hf [Hz Hl]. unfold update_entry, get_message. destruct (get _ _) as [e|] eqn:Eg; [|by split].
  split; [|done]. apply Forall_mset; [done|]. rewrite Hf. apply get_In in Eg.
  rewrite List.Forall_forall in Hz. apply (Hz _ Eg).
Qed.

Lemma prune_loop_sized t ttl : forall l s n, sized s ->
  let s' := fst (fold_left (fun '(s, aged) '(key, e) =>
    if negb (Qle_bool (t - ttl) (received e)) then (drop_entry key e s, S aged) else (s, aged)) l (s, n)) in
  sized s' /\ storageLimitBytes s' = storageLimitBytes s /\ messageTtlSecs s' = messageTtlSecs s.
Proof.
  induction l as [|[k e] l IH]; intros s n Hs; cbn [fold_left]; [done|].
  destruct (negb _); [|by apply IH]. apply (IH (drop_entry k e s) (S n)). by apply Forall_mdelete.
Qed.

Lemma run_within t o s : store_inv s -> within s -> cap_ok s ->
  match o with OpAdd e => handledPeers e ## unhandledPeers e /\ 0 <= size e | _ => True end ->
  within (store_run t o s).
Proof.
  intros Hs Hw Hc Ho. destruct o as [e|tid|tid owner| |tid peer|tid peer|peer]; cbn [store_run].
  - unfold add. destruct (has _ _) eqn:Eh; [done|]. apply enforce_within.
    + apply has_false in Eh. destruct Hs as [H1 H2 H3 H4].
      split; cbn [with_entries _entries _totalBytes]; [by apply wf_mset|by apply Forall_mset| |].
      * rewrite mset_new, total_app by done. cbn. lia.
      * apply Forall_mset; [done|apply Ho].
    + apply Forall_mset; [apply Hw|apply Ho].
    + done.
  - unfold remove. destruct (get _ _) as [e|] eqn:Eg; [by apply drop_within|done].
  - unfold removeForDestination, get_message. destruct (get _ _) as [e|] eqn:Eg; [|done].
    case_bool_decide; [|done]. unfold remove. rewrite Eg. by apply drop_within.
  - unfold prune. destruct (messageTtlSecs s) as [ttl|].
    + pose proof (prune_loop_sized t ttl (_entries s) s 0%nat (proj1 Hw)) as (P1 & P2 & _).
      destruct (prune_aged t ttl s) as [s' n] eqn:Ep. unfold prune_aged in Ep. rewrite Ep in P1, P2. cbn in P1, P2.
      apply enforce_within; [by eapply prune_aged_inv|done|]. unfold cap_ok. by rewrite P2.
    + apply enforce_within; [done|apply Hw|done].
  - by apply update_within.
  - by apply update_within.
  - destruct Hw as [Hz Hl]. split; [|done]. unfold markAllUnhandledForPeer. cbn [fst with_entries _entries].
    rewrite Forall_map. eapply Forall_impl; [exact Hz|]. intros [k e] He. cbn. by destruct (bool_decide _).
Qed.

Lemma enforce_limit t s : storageLimitBytes (_enforceCapacity t s) = storageLimitBytes s.
Proof.
  assert (He : forall ranked limit s, storageLimitBytes (evict ranked limit s) = storageLimitBytes s).
  { induction ranked as [|[k e] ranked IH]; intros limit s'; cbn [evict]; [done|].
    destruct (_ <=? _); [done|]. by rewrite IH. }
  unfold _enforceCapacity. destruct (storageLimitBytes s) eqn:El; [|done]. destruct (_ <=? _); [done|].
  by rewrite He.
Qed.

Lemma run_limit t o s : within s -> storageLimitBytes (store_run t o s) = storageLimitBytes s.
Proof.
  intros Hs. destruct o as [e|tid|tid owner| |tid peer|tid peer|peer]; cbn [store_run]; try done.
  - unfold add. destruct (has _ _); [done|]. cbn [fst]. by rewrite enforce_limit.
  - unfold remove. by destruct (get _ _).
  - unfold removeForDestination, remove. destruct (get_message _ _); [|done]. case_bool_decide; [|done].
    by destruct (get _ _).
  - unfold prune. destruct (messageTtlSecs s) as [ttl|]; [|apply enforce_limit].
    pose proof (prune_loop_sized t ttl (_entries s) s 0%nat (proj1 Hs)) as (_ & P2 & _).
    unfold prune_aged. destruct (fold_left _ _ _) as [s' n]. cbn [fst] in *. by rewrite enforce_limit.
  - unfold markUnhandledForPeer, update_entry. by destruct (get_message _ _).
  - unfold markHandledForPeer, update_entry. by destruct (get_message _ _).
Qed.

(** A sequence of operations, each at its own time. *)
Definition store_runs (ops : list (Q * store_op)) (s : MessageStore) : MessageStore :=
  fold_left (fun s '(t, o) => store_run t o s) ops s.

(** What the node builds its entries with: a size, and fresh sets of peers. *)
Definition op_ok (o : store_op) : Prop :=
  match o with OpAdd e => handledPeers e ## unhandledPeers e /\ 0 <= size e | _ => True end.

(** What holds of every entry however peers are marked, and of every
    entry added, holds of every entry kept. *)
Section Everywhere.
Variable P : PropagationEntry -> Prop.
Hypothesis P_unhandled : forall e h, P e -> P (mark_unhandled h e).
Hypothesis P_handled : forall e h, P e -> P (mark_handled h e).

Lemma evict_everywhere limit ranked : forall s, Forall (fun '(_, e) => P e) (_entries s) ->
  Forall (fun '(_, e) => P e) (_entries (evict ranked limit s)).
Proof using Type.
  induction ranked as [|[k e] ranked IH]; intros s Hs; cbn [evict]; [done|].
  destruct (_ <=? _); [done|]. apply IH. by apply Forall_mdelete.
Qed.

Lemma enforce_everywhere t s : Forall (fun '(_, e) => P e) (_entries s) ->
  Forall (fun '(_, e) => P e) (_entries (_enforceCapacity t s)).
Proof using Type.
  intros Hs. unfold _enforceCapacity. destruct (storageLimitBytes s); [|done].
  destruct (_ <=? _); [done|]. by apply evict_everywhere.
Qed.

Lemma prune_everywhere t s : Forall (fun '(_, e) => P e) (_entries s) ->
  Forall (fun '(_, e) => P e) (_entries (fst (prune t s))).
Proof using Type.
  intros Hs. unfold prune. destruct (messageTtlSecs s) as [ttl|]; [|by apply enforce_everywhere].
  unfold prune_aged. revert Hs. generalize (_entries s) at 2 as l. generalize 0%nat as n. intros n l. revert s n.
  induction l as [|[k e] l IH]; intros s n Hs; cbn [fold_left]; [by apply enforce_everywhere|].
  destruct (negb _); [|by apply IH]. apply IH. by apply Forall_mdelete.
Qed.

Lemma update_everywhere tid f s : (forall e, P e -> P (f e)) -> Forall (fun '(_, e) => P e) (_entries s) ->
  Forall (fun '(_, e) => P e) (_entries (fst (update_entry tid f s))).
Proof using Type.
  intros Hf Hs. unfold update_entry, get_message. destruct (get _ _) as [e|] eqn:Eg; [|done].
  apply Forall_mset; [done|]. apply Hf. rewrite List.Forall_forall in Hs. apply (Hs _ (get_In _ _ _ Eg)).
Qed.

Lemma run_everywhere t o s : Forall (fun '(_, e) => P e) (_entries s) ->
  match o with OpAdd e => P e | _ => True end ->
  Forall (fun '(_, e) => P e) (_entries (store_run t o s)).
Proof using P_unhandled P_handled.
  intros Hs Ho. destruct o as [e|tid|tid owner| |tid peer|tid peer|peer]; cbn [store_run].
  - unfold add. destruct (has _ _); [done|]. apply enforce_everywhere. by apply Forall_mset.
  - unfold remove. destruct (get _ _); [|done]. by apply Forall_mdelete.
  - unfold removeForDestination, remove. destruct (get_message _ _); [|done]. case_bool_decide; [|done].
    destruct (get _ _); [|done]. by apply Forall_mdelete.
  - by apply prune_everywhere.
  - apply update_everywhere; [|done]. intros e. apply P_unhandled.
  - apply update_everywhere; [|done]. intros e. apply P_handled.
  - unfold markAllUnhandledForPeer. cbn [fst with_entries _entries]. apply Forall_map. eapply Forall_impl; [exact Hs|].
    intros [k e] He. cbn. case_bool_decide; [|done]. by apply P_unhandled.
Qed.
End Everywhere.

(** Whatever is added, removed, pruned or marked, every stored message is
    found under its transient id and under no other key, the running total is
    the sum of the stored sizes and within the cap, and no peer is recorded
    as having and as needing the same message. *)
Theorem store_sound (limit : option Z) (ttl : option Q) (ops : list (Q * store_op))
    (Hlimit : match limit with Some l => 0 <= l | None => True end)
    (Hops : Forall (fun '(_, o) => op_ok o) ops) :
  let s := store_runs ops (new_MessageStore limit ttl) in
  (forall k e, get k (_entries s) = Some e -> k = toHex (transientId e))
  /\ NoDup (keys (_entries s))
  /\ _totalBytes s = total_size (_entries s)
  /\ match limit with Some l => _totalBytes s <= l | None => True end
  /\ (forall k e p, get k (_entries s) = Some e -> p ∈ handledPeers e -> p ∉ unhandledPeers e).
Proof.
  enough (H : store_inv (store_runs ops (new_MessageStore limit ttl))
    /\ within (store_runs ops (new_MessageStore limit ttl))
    /\ storageLimitBytes (store_runs ops (new_MessageStore limit ttl)) = limit).
  { cbv zeta. destruct H as ([H1 H2 H3 H4] & [_ Hw] & Hl). rewrite Hl in Hw.
    rewrite List.Forall_forall in H2, H4.
    split; [intros k e Hg; apply get_In in Hg; apply (H2 _ Hg)|]. split; [exact H1|]. split; [done|].
    split; [done|]. intros k e p Hg Hp Hq. apply get_In in Hg. by apply (H4 _ Hg p). }
  assert (H0 : store_inv (new_MessageStore limit ttl) /\ within (new_MessageStore limit ttl)
    /\ storageLimitBytes (new_MessageStore limit ttl) = limit).
  { split; [split; by try constructor|]. split; [|done]. split; [constructor|]. by destruct limit. }
  revert H0. generalize (new_MessageStore limit ttl) as s. unfold store_runs.
  induction ops as [|[t o] ops IH]; intros s (H1 & H2 & H3); cbn [fold_left]; [done|].
  apply Forall_cons in Hops as [Ho Hops]. apply IH; [done|].
  split; [|split].
  - apply run_inv; [done|]. destruct o; try done. apply Ho.
  - apply run_within; [done|done| |exact Ho]. unfold cap_ok. by rewrite H3.
  - by rewrite run_limit.
Qed.

(** Making room for a new message removes the heaviest messages (weight is
    size times age, at least size), the new one included, no more of them
    than it takes, and leaves a total within the cap. *)
Theorem eviction_fair (t : Q) (limit : Z) (s : MessageStore) (Hs : store_inv s)
    (Hl : storageLimitBytes s = Some limit) (Hpos : 0 <= limit) (Hover : limit < _totalBytes s) :
  made_room t limit s (_enforceCapacity t s).
Proof. by apply enforce_makes_room. Qed.

(** ** Persistence *)

Lemma set_of_id l : NoDup l -> set_of l = l.
Proof.
  intros Hn. unfold set_of. enough (H : forall acc, NoDup (acc ++ l) ->
    fold_left (fun acc h => set_add h acc) l acc = acc ++ l) by (by apply (H [])).
  clear Hn. induction l as [|h l IH]; intros acc Hn; cbn [fold_left]; [by rewrite app_nil_r|].
  apply NoDup_app in Hn as (H1 & H2 & H3). apply NoDup_cons in H3 as [Hh H3].
  unfold set_add. rewrite bool_decide_false by (intros Hc; apply (H2 h Hc); by left).
  rewrite IH; [by rewrite <- app_assoc|]. apply NoDup_app. split; [|split; [|done]].
  - apply NoDup_app. split; [done|]. split; [|apply NoDup_singleton].
    intros x Hx ->%list_elem_of_singleton. apply (H2 h Hx). by left.
  - intros x Hx Hl. apply elem_of_app in Hx as [Hx| ->%list_elem_of_singleton]; [|done].
    apply (H2 x Hx). by right.
Qed.

(** Exporting the store and importing the records, in a new process or into
    another store, gives the same messages in the same order, with the same
    bookkeeping of peers, and the same total. *)
Theorem records_roundtrip (s s0 : MessageStore) (Hs : store_inv s)
    (Hsets : Forall (fun '(_, e) => NoDup (handledPeers e) /\ NoDup (unhandledPeers e)) (_entries s)) :
  let s' := importRecords (exportRecords s) s0 in
  _entries s' = _entries s /\ _totalBytes s' = _totalBytes s.
Proof.
  destruct Hs as [H1 H2 H3 _]. cbv zeta. rewrite H3. unfold exportRecords, importRecords, values.
  enough (H : forall l acc, wf_map (_entries acc ++ l) ->
    Forall (fun '(key, e) => key = toHex (transientId e)) l ->
    Forall (fun '(_, e) => NoDup (handledPeers e) /\ NoDup (unhandledPeers e)) l ->
    let s' := fold_left import_record (map snd l) acc in
    _entries s' = _entries acc ++ l /\ _totalBytes s' = _totalBytes acc + total_size l)
    by apply (H (_entries s) (with_entries s0 [] 0) H1 H2 Hsets).
  clear. induction l as [|[k e] l IH]; intros acc Hw Hk Hp; cbn [map fold_left snd].
  { rewrite app_nil_r. cbn. split; [done|lia]. }
  apply Forall_cons in Hk as [-> Hk]. apply Forall_cons in Hp as [[P1 P2] Hp].
  assert (Hone : import_record acc e
    = with_entries acc (_entries acc ++ [(toHex (transientId e), e)]) (_totalBytes acc + size e)).
  { unfold import_record. rewrite !set_of_id by done.
    assert (He : set_peers e (handledPeers e) (unhandledPeers e) = e) by by destruct e.
    rewrite He. cbv zeta. rewrite mset_new; [done|]. unfold wf_map, keys in Hw. rewrite map_app in Hw. apply NoDup_app in Hw as (_ & Hd & _).
      intros Hc. apply (Hd (toHex (transientId e))); [by apply list_elem_of_In|]. by left. }
  rewrite Hone. destruct (IH (with_entries acc (_entries acc ++ [(toHex (transientId e), e)]) (_totalBytes acc + size e)))
    as [I1 I2]; [cbn [with_entries _entries]; by rewrite <- app_assoc|done|done|].
  rewrite I1, I2. cbn [with_entries _entries _totalBytes total_size foldr snd]. rewrite <- app_assoc.
  split; [done|]. unfold total_size. lia.
Qed.

(** ** A small store *)

Section Samples.

Definition sample_entry (i n : Z) : PropagationEntry :=
  mkEntry (replicate 32 i) (replicate 16 1) (replicate 100 i) (replicate 32 0) 0%Q 16 n [] [].
Definition sample_store_ops : list (Q * store_op) :=
  [(0%Q, OpAdd (sample_entry 1 300)); (1%Q, OpAdd (sample_entry 2 500));
   (2%Q, OpUnhandled (replicate 32 1) (replicate 16 9)); (3%Q, OpHandled (replicate 32 1) (replicate 16 9));
   (4%Q, OpAdd (sample_entry 3 400))].
Definition sample_store : MessageStore := Eval vm_compute in
  store_runs sample_store_ops (new_MessageStore (Some 1000) None).

Example sample_evicts : map (fun '(_, e) => size e) (_entries sample_store) = [300; 400].
Proof. reflexivity. Qed.

Lemma sample_ops_ok : Forall (fun '(_, o) => op_ok o) sample_store_ops.
Proof. repeat constructor; try done; by intros x Hx%not_elem_of_nil. Qed.

Lemma store_sound_witness :
  let s := store_runs sample_store_ops (new_MessageStore (Some 1000) None) in
  (_totalBytes s <= 1000) /\ NoDup (keys (_entries s)).
Proof.
  destruct (store_sound (Some 1000) None sample_store_ops) as (_ & H2 & _ & H4 & _).
  - lia.
  - exact sample_ops_ok.
  - split; [exact H4|exact H2].
Defined.

Lemma sample_inv : store_inv sample_store.
Proof.
  split.
  - apply (bool_decide_unpack _). vm_compute. exact I.
  - repeat constructor.
  - reflexivity.
  - repeat constructor; cbn; set_solver.
Qed.

(** The same messages under a cap they no longer fit. *)
Definition full_store : MessageStore := mkStore (_entries sample_store) (Some 500) None 700.

Lemma eviction_fair_witness : _totalBytes (_enforceCapacity 10%Q full_store) <= 500.
Proof.
  destruct (eviction_fair 10%Q 500 full_store) as (out & _ & Ht & _).
  - destruct sample_inv as [H1 H2 H3 H4]. by split.
  - reflexivity.
  - lia.
  - reflexivity.
  - exact Ht.
Defined.

Lemma records_roundtrip_witness :
  _entries (importRecords (exportRecords sample_store) (new_MessageStore None None)) = _entries sample_store.
Proof.
  refine (proj1 (records_roundtrip sample_store (new_MessageStore None None) sample_inv _)).
  repeat constructor; cbn; set_solver.
Defined.
End Samples.
