(* ===== verification/LxmfMessage.v ===== *)
(** * LxmfMessage: LXMF messages (packages/lxmf/src/message.js and propagation.js)

    Packing and signing, the direct and opportunistic layouts, the propagation
    and paper forms, and propagation containers.  Functions that decode values
    of the wire return [None] only where the value is coerced in a way the
    model leaves out (a string, array or object used as a number). *)

From S2P Require Import Link.
From S2P Require Import Prelude Encoding JsMap Utf8 MsgPack Packet Crypto Identity Destination.
#[local] Open Scope Z_scope.

Definition DESTINATION_LENGTH : nat := 16.
Definition SIGNATURE_LENGTH : nat := 64.
Definition QR_MAX_STORAGE : Z := 2953.
Definition URI_SCHEMA : string := "lxm".
Definition URI_PREFIX : jsstr := lit URI_SCHEMA ++ lit "://".
Definition PAPER_MDU : Z := ((QR_MAX_STORAGE - zlen URI_PREFIX) * 6) / 8.

(** [buf.set(src, off)]. *)
Definition set_at (off : nat) (src buf : bytes) : result bytes :=
  if (length buf <? off + length src)%nat then Throw (RangeError "offset is out of bounds")
  else Ok (take off buf ++ src ++ drop (off + length src) buf).

(** [setFloat64(0, v)] after the type byte. *)
Definition to_float64 (v : value) : dec bytes :=
  match v with
  | VInt _ | VFloat _ => dret (encodeFloat64 v)
  | VNull => dret (_encodeFloat64 0)
  | VBool b => dret (encodeFloat64 (VInt (if b then 1 else 0)))
  | VBigInt _ => dthrow (TypeError "Cannot convert a BigInt value to a number")
  | _ => None
  end.

Definition lift_dec {A} (r : result A) : dec A := Some r.

Record Message := mkMessage {
  sourceHash : option bytes;
  destinationHash : bytes;
  timestamp : value;
  title : value;
  content : value;
  fields : value;
  signature : option bytes;
  signedPart : option bytes;
  stamp : value;
  messageId : option bytes;
  _decodedPayload : option (list value);
}.

(** [new Message({...})]; [nowSecs] is [Date.now() / 1000]. *)
Definition new_Message (nowSecs : value) (src : option bytes) (dst : bytes) (ts ti co fi : value)
    (sig signed : option bytes) (st : value) (mid : option bytes) : Message :=
  mkMessage src dst (if truthy ts then ts else nowSecs) ti co (if truthy fi then fi else VObj None [])
    sig signed st mid None.

Section WithCrypto.
Context `{C : WebCrypto} `{H : JsHost}.

(** [toBin]: bytes as they are, anything else through [TextEncoder]. *)
Definition toBin (v : value) : result bytes :=
  match v with
  | VBin b => encode (VBin b)
  | VNull => encode (VBin [])
  | v => match property_key v with
         | Some s => encode (VBin (utf8_encode s))
         | None => Throw (TypeError "Cannot convert object to primitive value")
         end
  end.

(** At most five elements, so the header is always a fixarray. *)
Definition packPayload (ts ti co fi st : value) : dec bytes :=
  dbind (to_float64 ts) (fun timestampBytes =>
  lift_dec (
    let! titleBytes := toBin ti in
    let! contentBytes := toBin co in
    let! fieldsBytes := encode (match fi with VNull => VObj None [] | v => v end) in
    let! stampBytes := match st with VNull => Ok None | v => let! s := encode v in Ok (Some s) end in
    let elements := [timestampBytes; titleBytes; contentBytes; fieldsBytes]
                    ++ match stampBytes with Some s => [s] | None => [] end in
    Ok (js_or 144 (zlen elements) :: concat elements))).

Definition hashed_part (dst src payload : bytes) : result bytes :=
  let! b := set_at 0 dst (replicate (2 * DESTINATION_LENGTH + length payload) 0) in
  let! b := set_at DESTINATION_LENGTH src b in
  set_at (2 * DESTINATION_LENGTH) payload b.

(** The id of a payload and what is signed. *)
Definition signed_part (dst src payload : bytes) : result (bytes * bytes) :=
  let! hashedPart := hashed_part dst src payload in
  let id := sha256 hashedPart in
  Ok (id, hashedPart ++ id).

(** [serialize]: the message after it, its id and the wire data. *)
Definition serialize (id : Identity) (m : Message) : dec (Message * bytes * bytes) :=
  let src := default (identityHash id) (sourceHash m) in
  let ti := match title m with VNull => VStr [] | v => v end in
  let co := match content m with VNull => VStr [] | v => v end in
  dbind (packPayload (timestamp m) ti co (fields m) VNull) (fun payload4 =>
  dbind (lift_dec (signed_part (destinationHash m) src payload4)) (fun '(mid, signed) =>
  dbind (lift_dec (sign id signed)) (fun sig =>
  dbind (match stamp m with
         | VNull => dret payload4
         | st => packPayload (timestamp m) ti co (fields m) st
         end) (fun payload =>
  dbind (lift_dec (
    let! w := set_at 0 (destinationHash m)
                (replicate (2 * DESTINATION_LENGTH + SIGNATURE_LENGTH + length payload) 0) in
    let! w := set_at DESTINATION_LENGTH src w in
    let! w := set_at (2 * DESTINATION_LENGTH) sig w in
    set_at (2 * DESTINATION_LENGTH + SIGNATURE_LENGTH) payload w)) (fun wireData =>
  dret (mkMessage (sourceHash m) (destinationHash m) (timestamp m) (title m) (content m) (fields m)
          (Some sig) (Some signed) (stamp m) (Some mid) (_decodedPayload m), mid, wireData)))))).

(** Text of a decoded title or content. *)
Definition as_text (v : value) : value := match v with VBin b => VStr (utf8_decode b) | v => v end.

Definition is_direct (wireData : bytes) (expected : option bytes) : bool :=
  (80 + DESTINATION_LENGTH <=? length wireData)%nat
  && match expected with
     | None => true
     | Some e => bool_decide (take DESTINATION_LENGTH wireData = take DESTINATION_LENGTH e)
     end.

(** The four parts of either layout; the destination may be missing. *)
Definition split_wire (wireData : bytes) (expected : option bytes)
    : result (option bytes * bytes * bytes * bytes) :=
  let d := DESTINATION_LENGTH in
  if is_direct wireData expected then
    Ok (Some (slice 0 d wireData), slice d (2 * d) wireData,
        slice (2 * d) (2 * d + SIGNATURE_LENGTH) wireData, slice_from (2 * d + SIGNATURE_LENGTH) wireData)
  else if (d + SIGNATURE_LENGTH <=? length wireData)%nat then
    Ok (expected, slice 0 d wireData, slice d (d + SIGNATURE_LENGTH) wireData,
        slice_from (d + SIGNATURE_LENGTH) wireData)
  else Throw (JsError "LXMF message too short or format unrecognized").

Definition deserialize (nowSecs : value) (wireData : bytes) (expected : option bytes) : dec Message :=
  dbind (lift_dec (split_wire wireData expected)) (fun '(dst, src, sig, rawPayload) =>
  match dst with
  | None => dthrow (JsError "Could not determine destination hash for LXMF message")
  | Some dst =>
      dbind (lift_dec (decode_body rawPayload)) (fun decoded =>
      match decoded with
      | VArr ((ts :: ti :: co :: fi :: rest) as payload) =>
          dbind (match rest with
                 | [] => dret rawPayload
                 | _ :: _ => packPayload ts ti co fi VNull
                 end) (fun packed =>
          dbind (lift_dec (signed_part dst src packed)) (fun '(mid, signed) =>
          let m := new_Message nowSecs (Some src) dst ts (as_text ti) (as_text co) fi
                     (Some sig) (Some signed) (match rest with st :: _ => st | [] => VNull end)
                     (Some mid) in
          dret (mkMessage (sourceHash m) (destinationHash m) (timestamp m) (title m) (content m)
                  (fields m) (signature m) (signedPart m) (stamp m) (messageId m) (Some payload))))
      | _ => dthrow (JsError "Invalid LXMF payload format: Expected 4-element MessagePack array")
      end)
  end).

Definition verifySignature (id : Identity) (m : Message) : dec bool :=
  match signature m, signedPart m with
  | Some sig, Some signed =>
      if validate id sig signed then dret true
      else match _decodedPayload m, sourceHash m with
           | Some (ts :: ti :: co :: fi :: _), Some src =>
               dbind (packPayload ts ti co fi VNull) (fun repacked =>
               dbind (lift_dec (signed_part (destinationHash m) src repacked)) (fun '(_, signed2) =>
               dret (validate id sig signed2)))
           | _, _ => dret false
           end
  | _, _ => dret false
  end.

(** ** Propagation and paper forms *)

Definition transientIdFromPropagationData (lxmfData : bytes) : bytes := sha256 lxmfData.

(** [toPropagationData]: the message after it, the transient id, the data; the
    ratchet cache is read (and cleaned) by the encryption. *)
Definition toPropagationData (now : Z) (eph iv : bytes) (known : option (jsmap KnownRatchet))
    (id : Identity) (outbound : Destination) (m : Message)
    : dec (Message * bytes * bytes * bytes) :=
  dbind (serialize id m) (fun '(m', _, wireData) =>
  dbind (lift_dec (snd (encrypt now eph iv known (drop DESTINATION_LENGTH wireData) outbound))) (fun encrypted =>
  let lxmfData := take DESTINATION_LENGTH wireData ++ encrypted in
  dret (m', lxmfData, transientIdFromPropagationData lxmfData, wireData))).

(** [None] in the result is [null]. *)
Definition fromPropagationData (nowSecs : value) (lxmfData : bytes) (delivery : Destination)
    : dec (option Message) :=
  if (length lxmfData <? DESTINATION_LENGTH)%nat then dret None else
  let dst := take DESTINATION_LENGTH lxmfData in
  dbind (lift_dec (decrypt (drop DESTINATION_LENGTH lxmfData) delivery)) (fun decrypted =>
  match decrypted with
  | None => dret None
  | Some d => dbind (deserialize nowSecs (dst ++ d) (Some dst)) (fun m => dret (Some m))
  end).

Definition toPaperData (now : Z) (eph iv : bytes) (known : option (jsmap KnownRatchet))
    (id : Identity) (outbound : Destination) (m : Message) : dec (Message * bytes * bytes * bytes) :=
  dbind (toPropagationData now eph iv known id outbound m) (fun '(m', lxmfData, tid, wireData) =>
  if zlen lxmfData >? PAPER_MDU
  then dthrow (TypeError "LXMF paper delivery requested, but content exceeds the maximum")
  else dret (m', lxmfData, tid, wireData)).

Definition paperDataToUri (paperData : bytes) : jsstr := URI_PREFIX ++ bytesToBase64Url paperData.

(** [toLowerCase] where the prefix is compared: no character outside ASCII has
    a lower-case form that begins with a letter of the prefix. *)
Definition to_lower (c : Z) : Z := if (65 <=? c) && (c <=? 90) then c + 32 else c.

Definition paperDataFromUri (uri : jsstr) : result bytes :=
  if negb (bool_decide (map to_lower (take (length URI_PREFIX) uri) = URI_PREFIX))
  then Throw (JsError "Not an LXMF paper URI: expected the 'lxm://' scheme prefix")
  else Ok (base64UrlToBytes (filter (fun c => c <> 47) (drop (length URI_PREFIX) uri))).

Definition fromPaperUri (nowSecs : value) (uri : jsstr) (delivery : Destination) : dec (option Message) :=
  dbind (lift_dec (paperDataFromUri uri)) (fun d => fromPropagationData nowSecs d delivery).

(** ** Containers (propagation.js) *)

Definition packPropagationContainer (lxmfDataList : list bytes) (sendTime : value) : result bytes :=
  encode (VArr [sendTime; VArr (map VBin lxmfDataList)]).

Record PropagationContainer := mkContainer { sendTime : value; messages : list value }.

Definition is_number (v : value) : bool := match v with VInt _ | VFloat _ => true | _ => false end.

Definition unpackPropagationContainer (b : bytes) : option PropagationContainer :=
  match decode_body b with
  | Ok (VArr (t :: ms :: _)) =>
      Some (mkContainer (if is_number t then t else VInt 0) (match ms with VArr l => l | _ => [] end))
  | _ => None
  end.

End WithCrypto.
