(* ===== verification/LxmfMessageSpec.v ===== *)
(** * LxmfMessageSpec: what is sent as a message is what is received

    The payload's encoding, the round trip through both layouts with or
    without a stamp, the propagation and paper forms, and what a verified
    signature covers. *)

From S2P Require Import Link.
From S2P Require Import Prelude Encoding JsMap Utf8 MsgPack MsgPackSpec Packet Crypto Identity Destination DestinationSpec.
From S2P Require Import Delivery LxmfMessage.
#[local] Open Scope Z_scope.

Lemma filter_all {A} (P : A -> Prop) `{!forall x, Decision (P x)} (l : list A) : Forall P l -> filter P l = l.
Proof. induction 1; [done|]. rewrite filter_cons, decide_True by done. by f_equal. Qed.

(** ** Buffers *)

Lemma set_at_here pre mid post src : length src = length mid ->
  set_at (length pre) src (pre ++ mid ++ post) = Ok (pre ++ src ++ post).
Proof.
  intros Hl. unfold set_at. rewrite !length_app, (proj2 (Nat.ltb_ge _ _)) by lia.
  rewrite take_app_length, drop_app_ge by lia.
  replace (length pre + length src - length pre)%nat with (length mid) by lia.
  by rewrite drop_app_length.
Qed.

Lemma set_at_next pre mid post src n : length pre = n -> length src = length mid ->
  set_at n src (pre ++ mid ++ post) = Ok (pre ++ src ++ post).
Proof. intros <-. apply set_at_here. Qed.

Lemma set_at_first mid post src : length src = length mid -> set_at 0 src (mid ++ post) = Ok (src ++ post).
Proof. apply (set_at_here []). Qed.

Lemma zeros_split a b : replicate (a + b) 0 = replicate a 0 ++ replicate b 0.
Proof. by rewrite replicate_add. Qed.

Lemma hashed_part_ok dst src payload : length dst = 16%nat -> length src = 16%nat ->
  hashed_part dst src payload = Ok (dst ++ src ++ payload).
Proof.
  intros Hd Hs. unfold hashed_part, DESTINATION_LENGTH.
  rewrite (zeros_split (2 * 16)), (zeros_split 16 16 : replicate (2 * 16) 0 = _), <- app_assoc.
  rewrite set_at_first by (by rewrite length_replicate). cbn [rbind app].
  rewrite (set_at_next dst (replicate 16 0) _ src) by (rewrite ?length_replicate; done). cbn [rbind].
  rewrite app_assoc. rewrite <- (app_nil_r (replicate (length payload) 0)).
  rewrite (set_at_next (dst ++ src)) by (rewrite ?length_app, ?length_replicate; lia).
  by rewrite app_nil_r, app_assoc.
Qed.

Lemma lxmf_wire_ok dst src sig payload : length dst = 16%nat -> length src = 16%nat -> length sig = 64%nat ->
  (let! w := set_at 0 dst (replicate (2 * DESTINATION_LENGTH + SIGNATURE_LENGTH + length payload) 0) in
   let! w := set_at DESTINATION_LENGTH src w in
   let! w := set_at (2 * DESTINATION_LENGTH) sig w in
   set_at (2 * DESTINATION_LENGTH + SIGNATURE_LENGTH) payload w)
  = Ok (dst ++ src ++ sig ++ payload).
Proof.
  intros Hd Hs Hg. unfold DESTINATION_LENGTH, SIGNATURE_LENGTH.
  rewrite (zeros_split (2 * 16 + 64)), (zeros_split 32 64 : replicate (2 * 16 + 64) 0 = _),
    (zeros_split 16 16 : replicate 32 0 = _), <- !app_assoc.
  rewrite set_at_first by (by rewrite length_replicate). cbn [rbind].
  rewrite (set_at_next dst (replicate 16 0) _ src) by (rewrite ?length_replicate; done). cbn [rbind].
  rewrite (app_assoc dst src).
  rewrite (set_at_next (dst ++ src) (replicate 64 0)) by (rewrite ?length_app, ?length_replicate; lia).
  cbn [rbind]. rewrite (app_assoc _ sig). rewrite <- (app_nil_r (replicate (length payload) 0)).
  rewrite (set_at_next ((dst ++ src) ++ sig)) by (rewrite ?length_app, ?length_replicate; lia).
  by rewrite app_nil_r, <- !app_assoc.
Qed.

(** ** Arrays with given encodings of their elements *)

Section Codec.
Context `{H : JsHost}.

(** [e] is an encoding of [v] at depth [k]. *)
Definition encodes (k : nat) (e : bytes) (v : value) : Prop := e <> [] /\ decodes e v k (2 * length e).

Lemma items_decode k es l : Forall2 (encodes k) es l ->
  forall pre post f, (2 * length (concat es) + 1 <= f)%nat ->
    decode_items f (whole (pre ++ concat es ++ post)) k (zlen l) (length pre)
    = dret (l, (length pre + length (concat es))%nat).
Proof.
  induction 1 as [|e v es l [Hne Hd] _ IH]; intros pre post f Hf.
  - destruct f; [cbn in Hf; lia|]. cbn. by rewrite Nat.add_0_r.
  - cbn [concat] in *. rewrite length_app in Hf.
    assert (1 <= length e)%nat by (destruct e; [done|cbn; lia]).
    destruct f as [|f]; [lia|]. cbn [decode_items]. rewrite zlen_cons.
    pose proof (zlen_nonneg l). rewrite (proj2 (Z.leb_gt _ _)) by lia.
    rewrite <- app_assoc, Hd by lia. cbn [dbind dret].
    specialize (IH (pre ++ e) post f). rewrite <- app_assoc, length_app in IH.
    replace (1 + zlen l - 1) with (zlen l) by lia. rewrite IH by lia. cbn [dbind dret].
    rewrite length_app. by rewrite Nat.add_assoc.
Qed.

Lemma array_decode es l : zlen l < 2 ^ 32 -> Forall2 (encodes 1) es l ->
  decode_body (array_header (zlen l) ++ concat es) = Ok (VArr l).
Proof.
  intros Hl HF. destruct (array_header_dispatch (zlen l)) as (hd & tl & Hh & Hdisp);
    [pose proof (zlen_nonneg l); lia|].
  assert (Hd : decodes (array_header (zlen l) ++ concat es) (VArr l) 0
                 (2 * length (array_header (zlen l) ++ concat es))).
  { rewrite Hh. cbn [app]. eapply decodes_intro; [done|cbn [length]; lia|]. intros pre post f Hf.
    rewrite <- app_assoc, Hdisp. rewrite (proj2 (Nat.ltb_ge _ _)) by (unfold MAX_DEPTH; lia).
    pose proof (items_decode 1 es l HF (pre ++ tl) post f) as Hi. rewrite length_app, <- app_assoc in Hi.
    cbn [length] in Hf. rewrite length_app in Hf. rewrite Hi by lia. cbn [dbind dret].
    rewrite length_app. by rewrite Nat.add_assoc. }
  unfold decode_body. rewrite (decode_whole (array_header (zlen l) ++ concat es) (VArr l)); [done| |exact Hd].
  by rewrite Hh.
Qed.

Lemma canonical_encodes k v e : canonical (MAX_DEPTH - k) v -> (k <= MAX_DEPTH)%nat -> encode v = Ok e -> encodes k e v.
Proof.
  intros Hc Hk He. destruct (canonical_coded (MAX_DEPTH - k) v k Hc) as (e' & He' & Hne & Hd); [lia|].
  unfold encode in He. rewrite He in He'. injection He' as <-. by split.
Qed.

End Codec.

(** ** Payloads *)

Section Payload.
Context `{H : JsHost}.

Definition number_ok (ts : value) : Prop := is_number ts = true /\ canonical 0 ts.

Lemma timestamp_encodes ts : number_ok ts -> to_float64 ts = dret (encodeFloat64 ts) /\ encodes 1 (encodeFloat64 ts) ts.
Proof.
  intros [Hn Hc]. destruct ts as [|b|n|bits|n|s|b|l|es|p props]; try discriminate; (split; [done|]);
    (split; [done|]); cbn [canonical encodeFloat64] in *.
  - destruct (number_of_bits_int n Hc) as [E1 E2]. apply (decodes_weaken _ _ _ 1); [cbn; lia|].
    rewrite <- E1. by apply decodes_float.
  - destruct Hc as (H1 & _ & H3). apply (decodes_weaken _ _ _ 1); [cbn; lia|].
    pose proof (decodes_float bits 1 H1) as Hd. by rewrite H3 in Hd.
Qed.

Definition blob_ok (b : bytes) : Prop := zlen b < 2 ^ 32.

Lemma blob_encodes b : blob_ok b -> exists e, encode (VBin b) = Ok e /\ encodes 1 e (VBin b).
Proof.
  intros Hb. exists (_encodeBinary b). split; [done|]. by apply canonical_encodes; [|unfold MAX_DEPTH; lia|].
Qed.

Lemma toBin_text s : toBin (VStr s) = toBin (VBin (utf8_encode s)).
Proof. done. Qed.

Lemma binary_length b e : encode (VBin b) = Ok e -> (2 <= length e)%nat.
Proof.
  intros [= <-]. unfold _encodeBinary, push16, push32. cbv zeta. rewrite length_app.
  repeat match goal with |- context [if ?c then _ else _] => destruct c end; cbn [length app]; lia.
Qed.

Definition fields_ok (fi : value) : Prop := canonical 127 fi /\ exists props, fi = VObj None props.

Lemma pack_ok ts tb cb fi st : number_ok ts -> blob_ok tb -> blob_ok cb -> fields_ok fi ->
  (st = VNull \/ exists b, st = VBin b /\ blob_ok b) ->
  exists p, packPayload ts (VBin tb) (VBin cb) fi st = dret p
    /\ decode_body p = Ok (VArr ([ts; VBin tb; VBin cb; fi] ++ match st with VNull => [] | _ => [st] end))
    /\ (15 <= length p)%nat.
Proof.
  intros Hts Htb Hcb [Hfi [props ->]] Hst.
  destruct (timestamp_encodes ts Hts) as [Hf He1].
  destruct (blob_encodes tb Htb) as (e2 & E2 & He2). destruct (blob_encodes cb Hcb) as (e3 & E3 & He3).
  destruct (canonical_coded 127 (VObj None props) 1 Hfi) as (e4 & E4 & He4); [unfold MAX_DEPTH; lia|].
  unfold packPayload. rewrite Hf. cbn [dbind dret toBin]. rewrite E2, E3. cbn [rbind].
  change (encode (VObj None props)) with (_encodeValue (VObj None props)). rewrite E4. cbn [rbind].
  assert (Hlen : forall e5, (15 <= S (length (concat ([encodeFloat64 ts; e2; e3; e4] ++ e5))))%nat).
  { intros e5. cbn [app concat]. rewrite !length_app.
    assert (length (encodeFloat64 ts) = 9%nat).
    { destruct Hts as [Hn _]. destruct ts; try discriminate; unfold encodeFloat64, _encodeFloat64; cbn [length]; by rewrite length_be_bytes. }
    pose proof (binary_length tb e2 E2). pose proof (binary_length cb e3 E3).
    assert (1 <= length e4)%nat by (destruct e4; [by destruct He4|cbn; lia]). lia. }
  destruct Hst as [->|(b & -> & Hb)]; cbn [rbind].
  - eexists. split; [reflexivity|]. split; [|apply (Hlen [])].
    apply (array_decode [_; _; _; _] [ts; VBin tb; VBin cb; VObj None props]); [done|].
    repeat constructor; try done; by apply He1 || by apply He2 || by apply He3 || by apply He4.
  - destruct (blob_encodes b Hb) as (e5 & E5 & He5). rewrite E5. cbn [rbind].
    eexists. split; [reflexivity|]. split; [|apply (Hlen [e5])].
    apply (array_decode [_; _; _; _; _] [ts; VBin tb; VBin cb; VObj None props; VBin b]); [done|].
    by repeat (constructor; [done|]).
Qed.

End Payload.

(** ** Messages *)

Section Messages.
Context `{C : WebCrypto} `{H : JsHost} `{W : !WebCryptoLaws C}.

(** A message an application may send from a delivery destination. *)
Record sendable (m : Message) (src : bytes) (ti co : jsstr) : Prop := {
  sd_source : sourceHash m = Some src;
  sd_lengths : length src = 16%nat /\ length (destinationHash m) = 16%nat;
  sd_time : number_ok (timestamp m) /\ truthy (timestamp m) = true;
  sd_title : title m = VStr ti /\ wf_str ti /\ blob_ok (utf8_encode ti);
  sd_content : content m = VStr co /\ wf_str co /\ blob_ok (utf8_encode co);
  sd_fields : fields_ok (fields m);
  sd_stamp : stamp m = VNull \/ exists b, stamp m = VBin b /\ blob_ok b;
}.

(** What was decoded of the payload [m] was packed into. *)
Definition decoded_of (m : Message) (ti co : jsstr) : list value :=
  [timestamp m; VBin (utf8_encode ti); VBin (utf8_encode co); fields m]
  ++ match stamp m with VNull => [] | st => [st] end.

(** A message on the wire. *)
Record on_wire (id : Identity) (key : bytes) (m : Message) (src : bytes) (ti co : jsstr)
    (m' : Message) (mid sig p4 payload : bytes) : Prop := {
  ow_mid : mid = sha256 (destinationHash m ++ src ++ p4);
  ow_sig : sig = ed25519_sign key ((destinationHash m ++ src ++ p4) ++ mid);
  ow_p4 : packPayload (timestamp m) (VBin (utf8_encode ti)) (VBin (utf8_encode co)) (fields m) VNull = dret p4;
  ow_decoded : decode_body payload = Ok (VArr (decoded_of m ti co));
  ow_payload : stamp m = VNull -> payload = p4;
  ow_long : (15 <= length payload)%nat;
  ow_run : serialize id m = dret (m', mid, destinationHash m ++ src ++ sig ++ payload);
  ow_same : messageId m' = Some mid /\ signature m' = Some sig;
}.

Lemma serialize_ok id key m src ti co : ed25519Priv id = Some key -> sendable m src ti co ->
  exists m' mid sig p4 payload, on_wire id key m src ti co m' mid sig p4 payload.
Proof.
  intros Hkey [Hsrc [Hls Hld] [Hts _] (Hti & _ & Htb) (Hco & _ & Hcb) Hfi Hst].
  destruct (pack_ok (timestamp m) _ _ (fields m) VNull Hts Htb Hcb Hfi (or_introl eq_refl)) as (p4 & Hp4 & Hd4 & Hl4).
  destruct (pack_ok (timestamp m) _ _ (fields m) (stamp m) Hts Htb Hcb Hfi Hst) as (p & Hp & Hd & Hl).
  set (mid := sha256 (destinationHash m ++ src ++ p4)).
  set (sig := ed25519_sign key ((destinationHash m ++ src ++ p4) ++ mid)).
  assert (Hrun : exists m', serialize id m = dret (m', mid, destinationHash m ++ src ++ sig ++ p)
            /\ messageId m' = Some mid /\ signature m' = Some sig).
  { unfold serialize. rewrite Hsrc, Hti, Hco.
    change (default (identityHash id) (Some src)) with src.
    change (packPayload (timestamp m) (VStr ti) (VStr co) (fields m) VNull)
      with (packPayload (timestamp m) (VBin (utf8_encode ti)) (VBin (utf8_encode co)) (fields m) VNull).
    rewrite Hp4. cbn [dbind dret]. unfold signed_part. rewrite hashed_part_ok by done. cbn [rbind lift_dec dbind].
    fold mid. unfold sign. rewrite Hkey. fold sig. unfold sig at 1. rewrite ed25519_sign_length. fold sig.
    cbn [Nat.eqb negb lift_dec dbind].
    assert (Hpay : match stamp m with VNull => dret p4
                   | st => packPayload (timestamp m) (VStr ti) (VStr co) (fields m) st end = dret p).
    { destruct Hst as [Hs|(b & Hs & _)]; rewrite Hs in Hp |- *; [by rewrite <- Hp4|exact Hp]. }
    rewrite Hpay. cbn [dbind dret]. rewrite lxmf_wire_ok by (try done; apply ed25519_sign_length). cbn [lift_dec dbind].
    eexists. split; [reflexivity|]. done. }
  destruct Hrun as (m' & Hrun & Hm'). exists m', mid, sig, p4, p.
  split; try done.
  - rewrite Hd. unfold decoded_of. by destruct (stamp m).
  - intros Hs. rewrite Hs in Hp. rewrite Hp in Hp4. by injection Hp4.
Qed.

Lemma slice_first {A} (l1 l2 : list A) b : length l1 = b -> slice 0 b (l1 ++ l2) = l1.
Proof. intros <-. unfold slice. by rewrite drop_0, Nat.sub_0_r, take_app_length. Qed.

(** Both layouts are taken apart again. *)
Lemma split_direct dst src sig payload e : length dst = 16%nat -> length src = 16%nat -> length sig = 64%nat ->
  e = None \/ e = Some dst ->
  split_wire (dst ++ src ++ sig ++ payload) e = Ok (Some dst, src, sig, payload).
Proof.
  intros Hd Hs Hg He. unfold split_wire, is_direct, DESTINATION_LENGTH, SIGNATURE_LENGTH.
  rewrite !length_app, Hd, Hs, Hg, (proj2 (Nat.leb_le _ _)) by lia.
  assert (Hm : match e with None => true | Some e => bool_decide (take 16 (dst ++ src ++ sig ++ payload) = take 16 e) end = true).
  { destruct He as [->| ->]; [done|]. apply bool_decide_true. rewrite take_app_length' by done. by rewrite take_ge by lia. }
  rewrite Hm. cbn [andb]. unfold slice_from.
  rewrite (slice_first dst) by done. rewrite (slice_app_here _ _ dst src) by (rewrite ?Hd, ?Hs; lia).
  rewrite (app_assoc dst src). rewrite (slice_app_here _ _ (dst ++ src) sig) by (rewrite ?length_app, ?Hd, ?Hs, ?Hg; lia).
  rewrite (app_assoc _ sig). rewrite drop_app_length' by (rewrite !length_app; lia). done.
Qed.

Lemma split_opportunistic dst src sig payload : length dst = 16%nat -> length src = 16%nat -> length sig = 64%nat ->
  src <> dst -> split_wire (src ++ sig ++ payload) (Some dst) = Ok (Some dst, src, sig, payload).
Proof.
  intros Hd Hs Hg Hne. unfold split_wire, is_direct, DESTINATION_LENGTH, SIGNATURE_LENGTH.
  rewrite !length_app, Hs, Hg. rewrite (bool_decide_false (_ = _)).
  2:{ rewrite take_app_length' by done. by rewrite take_ge by lia. }
  rewrite andb_false_r, (proj2 (Nat.leb_le (16 + 64) _)) by lia. unfold slice_from.
  rewrite (slice_first src) by done. rewrite (slice_app_here _ _ src sig) by (rewrite ?Hs, ?Hg; lia).
  rewrite (app_assoc src). rewrite drop_app_length' by (rewrite !length_app; lia). done.
Qed.

(** The message as it was given to the sender, and as the receiver gets it. *)
Record received_as (id : Identity) (m : Message) (src mid : bytes) (m2 : Message) : Prop := {
  ra_source : sourceHash m2 = Some src;
  ra_destination : destinationHash m2 = destinationHash m;
  ra_time : timestamp m2 = timestamp m;
  ra_title : title m2 = title m;
  ra_content : content m2 = content m;
  ra_fields : fields m2 = fields m;
  ra_stamp : stamp m2 = stamp m;
  ra_id : messageId m2 = Some mid;
  ra_verified : verifySignature id m2 = dret true;
}.

Lemma deserialize_ok id key nowSecs m src ti co m' mid sig p4 payload wire e :
  ed25519Pub id = ed25519_pub key -> sendable m src ti co ->
  on_wire id key m src ti co m' mid sig p4 payload ->
  split_wire wire e = Ok (Some (destinationHash m), src, sig, payload) ->
  exists m2, deserialize nowSecs wire e = dret m2 /\ received_as id m src mid m2.
Proof.
  intros Hpub [Hsrc [Hls Hld] [Hts Htr] (Hti & Hwt & _) (Hco & Hwc & _) [_ [props Hfi]] Hst] Hw Hsplit.
  destruct Hw as [-> -> Hp4 Hdec Hsame _ _ _].
  set (mid := sha256 (destinationHash m ++ src ++ p4)).
  assert (Hv : validate id (ed25519_sign key ((destinationHash m ++ src ++ p4) ++ mid))
                 ((destinationHash m ++ src ++ p4) ++ mid) = true).
  { unfold validate. rewrite ed25519_sign_length. cbn [Nat.eqb negb]. rewrite Hpub. apply ed25519_correct. }
  unfold deserialize. rewrite Hsplit. cbn [lift_dec dbind]. rewrite Hdec. cbn [lift_dec dbind].
  unfold decoded_of. cbn [app].
  assert (Hpack : match match stamp m with VNull => [] | st => [st] end with
                  | [] => dret payload
                  | _ :: _ => packPayload (timestamp m) (VBin (utf8_encode ti)) (VBin (utf8_encode co)) (fields m) VNull
                  end = dret p4).
  { destruct Hst as [Hs|(b & Hs & _)]; rewrite Hs; [by rewrite Hsame|done]. }
  rewrite Hpack. cbn [dbind dret]. unfold signed_part. rewrite hashed_part_ok by done.
  cbn [rbind lift_dec dbind]. fold mid. unfold new_Message. rewrite Htr.
  assert (Htf : truthy (fields m) = true) by by rewrite Hfi.
  rewrite Htf. cbn [as_text]. rewrite !utf8_decode_encode by done.
  eexists. split; [reflexivity|]. split; cbn; try done.
  - by destruct Hst as [->|(b & -> & _)].
  - unfold verifySignature. cbn [signature signedPart]. by rewrite Hv.
Qed.

(** C20: What is sent as a message is what is received: for a message of a
    delivery destination (text title and content, fields in property order, an
    optional stamp), the serialised form is parsed in the direct layout, with
    or without the expected destination, and in the opportunistic layout,
    which leaves the destination hash out, into a message with the same
    source, destination, time, texts, fields and stamp, under the same id,
    whose signature verifies; the id and the signature do not depend on the
    stamp. *)
Theorem message_roundtrip (id : Identity) (m : Message) (src : bytes) (ti co : jsstr) (nowSecs : value)
    (Hid : wf_identity id) (Hm : sendable m src ti co) :
  exists m' mid wire, serialize id m = dret (m', mid, wire)
  /\ take 16 wire = destinationHash m
  /\ (forall e, e = None \/ e = Some (destinationHash m) ->
        exists m2, deserialize nowSecs wire e = dret m2 /\ received_as id m src mid m2)
  /\ (src <> destinationHash m ->
        exists m2, deserialize nowSecs (drop 16 wire) (Some (destinationHash m)) = dret m2
          /\ received_as id m src mid m2)
  /\ exists unstamped m0, serialize id (mkMessage (sourceHash m) (destinationHash m) (timestamp m) (title m)
        (content m) (fields m) (signature m) (signedPart m) VNull (messageId m) (_decodedPayload m))
      = dret (m0, mid, unstamped) /\ signature m0 = signature m'.
Proof.
  pose proof Hid as (_ & (key & Hkey & Hpub) & _).
  destruct (serialize_ok id key m src ti co Hkey Hm) as (m' & mid & sig & p4 & payload & Hw).
  pose proof Hm as [Hsrc [Hls Hld] Hts Ht Hc Hf Hst].
  assert (Hsig : length sig = 64%nat) by (rewrite (ow_sig _ _ _ _ _ _ _ _ _ _ _ Hw); apply ed25519_sign_length).
  exists m', mid, (destinationHash m ++ src ++ sig ++ payload). split; [apply Hw|].
  split; [by apply take_app_length'|]. split; [|split].
  - intros e He. by eapply deserialize_ok, split_direct.
  - intros Hne. rewrite drop_app_length' by done. by eapply deserialize_ok, split_opportunistic.
  - set (m1 := mkMessage _ _ _ _ _ _ _ _ VNull _ _).
    assert (Hm1 : sendable m1 src ti co) by (split; try done; by left).
    destruct (serialize_ok id key m1 src ti co Hkey Hm1) as (m0 & mid1 & sig1 & q4 & payload1 & Hw1).
    assert (Heq : q4 = p4).
    { pose proof (ow_p4 _ _ _ _ _ _ _ _ _ _ _ Hw) as E1. pose proof (ow_p4 _ _ _ _ _ _ _ _ _ _ _ Hw1) as E2.
      change (packPayload (timestamp m) (VBin (utf8_encode ti)) (VBin (utf8_encode co)) (fields m) VNull = dret q4) in E2.
      rewrite E1 in E2. by injection E2. }
    destruct Hw as [-> -> _ _ _ _ _ [_ Hg]], Hw1 as [-> -> _ _ _ _ Hrun [_ Hg1]]. subst q4.
    eexists _, m0. split; [exact Hrun|]. by rewrite Hg, Hg1.
Qed.

(** ** The propagation form *)

(** The ratchet a destination encrypts to. *)
Definition ratchet_for (now : Z) (known : option (jsmap KnownRatchet)) (d : Destination) : option bytes :=
  match known, Destination.destinationHash d with
  | Some k, Some dh => fst (recallRatchetFrom now k dh)
  | _, _ => None
  end.

Lemma encrypt_for now eph iv known data d rid : identity d = Some rid ->
  snd (encrypt now eph iv known data d) = Identity.encrypt eph iv rid data (ratchet_for now known d).
Proof.
  intros Hid. unfold encrypt, ratchet_for. rewrite Hid.
  destruct known as [k|]; [|done]. destruct (Destination.destinationHash d) as [dh|]; [|done].
  by destruct (recallRatchetFrom now k dh).
Qed.

(** What encryption adds. *)
Lemma encrypt_length eph iv i m ratchet c : length iv = 16%nat -> Identity.encrypt eph iv i m ratchet = Ok c ->
  (length m + 80 < length c)%nat.
Proof.
  intros Hiv. unfold Identity.encrypt. destruct (match ratchet with Some r => _ | None => _ end) as [t|]; [|done].
  cbn [rbind]. destruct (derive_token i eph t) as [tok|]; [|done]. cbn [rbind]. intros [= <-].
  unfold Token.encrypt. cbv zeta. rewrite !length_app, x25519_pub_length, Hiv, aes_cbc_length, hmac_length.
  pose proof (Nat.div_mod_eq (length m) 16). pose proof (Nat.mod_upper_bound (length m) 16). lia.
Qed.

(** The data submitted, and what the recipient makes of it. *)
Record propagated (id : Identity) (m : Message) (src mid : bytes) (delivery : Destination) (nowSecs : value)
    (m' : Message) (lxmfData : bytes) : Prop := {
  pr_destination : take 16 lxmfData = destinationHash m;
  pr_id : messageId m' = Some mid;
  pr_long : (112 < length lxmfData)%nat;
  pr_read : exists m2, fromPropagationData nowSecs lxmfData delivery = dret (Some m2) /\ received_as id m src mid m2;
}.

Lemma propagation_ok (id rid : Identity) (m : Message) (src : bytes) (ti co : jsstr)
    (outbound delivery : Destination) (now : Z) (eph iv : bytes) (known : option (jsmap KnownRatchet))
    (nowSecs : value) :
  wf_identity id -> wf_identity rid -> sendable m src ti co -> length iv = 16%nat ->
  identity outbound = Some rid -> identity delivery = Some rid ->
  (forall p, opens rid (privRing delivery) eph iv p (ratchet_for now known outbound)) ->
  exists m' mid lxmfData wire,
    toPropagationData now eph iv known id outbound m = dret (m', lxmfData, sha256 lxmfData, wire)
    /\ mid <> [] /\ propagated id m src mid delivery nowSecs m' lxmfData.
Proof.
  intros Hid Hrid Hm Hiv Hout Hin Hopen. pose proof Hid as (_ & (key & Hkey & Hpub) & _).
  destruct (serialize_ok id key m src ti co Hkey Hm) as (m' & mid & sig & p4 & payload & Hw).
  pose proof Hm as [Hsrc [Hls Hld] _ _ _ _ _].
  assert (Hsig : length sig = 64%nat) by (rewrite (ow_sig _ _ _ _ _ _ _ _ _ _ _ Hw); apply ed25519_sign_length).
  pose proof (ow_run _ _ _ _ _ _ _ _ _ _ _ Hw) as Hrun.
  destruct (opens_decrypt rid (privRing delivery) eph iv (src ++ sig ++ payload) _ Hrid Hiv (Hopen _)) as (c & Hc & Hd).
  exists m', mid, (destinationHash m ++ c), (destinationHash m ++ src ++ sig ++ payload).
  unfold toPropagationData. rewrite Hrun. cbn [dbind dret lift_dec].
  rewrite (encrypt_for _ _ _ _ _ _ rid Hout), drop_app_length' by done.
  rewrite Hc. cbn [dbind lift_dec]. rewrite take_app_length' by done. split; [done|]. split.
  { pose proof (sha256_length (destinationHash m ++ src ++ p4)) as Hmid. rewrite (ow_mid _ _ _ _ _ _ _ _ _ _ _ Hw).
    intros E. by rewrite E in Hmid. }
  split; [by apply take_app_length'|apply Hw| |].
  - apply encrypt_length in Hc; [|done]. rewrite !length_app in Hc |- *. lia.
  - unfold fromPropagationData. rewrite length_app, (proj2 (Nat.ltb_ge _ _)) by (unfold DESTINATION_LENGTH; lia).
    rewrite take_app_length', drop_app_length' by done. unfold decrypt. rewrite Hin, Hd. cbn [dbind lift_dec].
    destruct (deserialize_ok id key nowSecs m src ti co m' mid sig p4 payload
                (destinationHash m ++ src ++ sig ++ payload) (Some (destinationHash m)) Hpub Hm Hw) as (m2 & Hm2 & Hr).
    + by apply split_direct; [..|right].
    + rewrite Hm2. cbn [dbind dret]. by exists m2.
Qed.

(** The propagation form: for a recipient that holds the key the sender
    encrypts to (its long-term key, or a ratchet of its ring), the message
    submitted to a propagation node, whose id is the hash of exactly what is
    submitted, is decrypted and read by the recipient as the message that was
    sent, with a valid signature. *)
Theorem propagation_roundtrip (id rid : Identity) (m : Message) (src : bytes) (ti co : jsstr)
    (outbound delivery : Destination) (now : Z) (eph iv : bytes) (known : option (jsmap KnownRatchet))
    (nowSecs : value)
    (Hid : wf_identity id) (Hrid : wf_identity rid) (Hm : sendable m src ti co) (Hiv : length iv = 16%nat)
    (Hout : identity outbound = Some rid) (Hin : identity delivery = Some rid)
    (Hopen : forall p, opens rid (privRing delivery) eph iv p (ratchet_for now known outbound)) :
  exists m' mid lxmfData wire,
    toPropagationData now eph iv known id outbound m
      = dret (m', lxmfData, sha256 lxmfData, wire)
    /\ take 16 lxmfData = destinationHash m /\ messageId m' = Some mid
    /\ exists m2, fromPropagationData nowSecs lxmfData delivery = dret (Some m2)
        /\ received_as id m src mid m2.
Proof.
  destruct (propagation_ok id rid m src ti co outbound delivery now eph iv known nowSecs Hid Hrid Hm Hiv Hout Hin Hopen)
    as (m' & mid & d & wire & H1 & _ & [H2 H3 _ H4]). by exists m', mid, d, wire.
Qed.

(** ** Paper URIs *)

Lemma base64url_no_slash b : filter (fun c => c <> 47) (bytesToBase64Url b) = bytesToBase64Url b.
Proof.
  assert (Hr : Forall (fun c => c <> 47) (replace_char 47 95 (replace_char 43 45 (bytesToBase64 b)))).
  { unfold replace_char at 1. rewrite Forall_map. apply Forall_forall. intros c _. cbv beta.
    destruct (c =? 47) eqn:E; bools; [done|done]. }
  unfold bytesToBase64Url. revert Hr. generalize (replace_char 47 95 (replace_char 43 45 (bytesToBase64 b))).
  intros l Hl.
  apply filter_all. unfold strip_pad. apply Forall_reverse. apply Forall_reverse in Hl. revert Hl.
  generalize (reverse l). intros r. induction r as [|x r IH]; intros Hr; [constructor|].
  apply Forall_cons in Hr as [Hx Hr]. specialize (IH Hr).
  destruct (decide (x = 61)) as [->|Hne]; [exact IH|].
  assert (Heq : (fix go (l0 : jsstr) : jsstr := match l0 with 61 :: l' => go l' | _ => l0 end) (x :: r) = x :: r).
  { destruct x as [|q|q]; try done. do 7 (destruct q as [q|q|]; try done). }
  rewrite Heq. by constructor.
Qed.

(** A paper message survives its URI: the URI of the data parses back to
    it, also when the scheme's letters changed case and slashes were inserted
    in the body on the way; other schemes are rejected. *)
Theorem paper_uri_roundtrip (d : bytes) (Hd : wf_bytes d) :
  paperDataFromUri (paperDataToUri d) = Ok d
  /\ (forall prefix body, map to_lower prefix = URI_PREFIX ->
        filter (fun c => c <> 47) body = bytesToBase64Url d ->
        paperDataFromUri (prefix ++ body) = Ok d)
  /\ (forall uri, map to_lower (take (length URI_PREFIX) uri) <> URI_PREFIX ->
        exists e, paperDataFromUri uri = Throw e).
Proof.
  assert (Hgo : forall prefix body, map to_lower prefix = URI_PREFIX ->
            filter (fun c => c <> 47) body = bytesToBase64Url d -> paperDataFromUri (prefix ++ body) = Ok d).
  { intros prefix body Hp Hb. unfold paperDataFromUri.
    assert (Hl : length prefix = length URI_PREFIX) by (rewrite <- Hp; by rewrite length_map).
    rewrite take_app_length', drop_app_length' by done. rewrite Hp, bool_decide_true by done. cbn [negb].
    rewrite Hb. f_equal. by apply encoding_roundtrip. }
  split; [|split; [exact Hgo|]].
  - apply Hgo; [reflexivity|apply base64url_no_slash].
  - intros uri Hne. unfold paperDataFromUri. rewrite bool_decide_false by done. by eexists.
Qed.

(** ** What a verified signature covers *)

(** The four elements a received message shows. *)
Definition shows (m : Message) (ts ti co fi : value) : Prop :=
  title m = as_text ti /\ content m = as_text co
  /\ (truthy ts = true -> timestamp m = ts) /\ (truthy fi = true -> fields m = fi).

(** What a verified signature covers. *)
Lemma message_signed (nowSecs : value) (wire : bytes) (e : option bytes) (id : Identity) (m : Message)
    (He : match e with Some d => length d = 16%nat | None => True end)
    (Hm : deserialize nowSecs wire e = dret m) (Hv : verifySignature id m = dret true) :
  exists src sig p4 ts ti co fi rest,
    sourceHash m = Some src /\ signature m = Some sig /\ shows m ts ti co fi
    /\ ((rest = [] /\ decode_body p4 = Ok (VArr [ts; ti; co; fi])) \/ packPayload ts ti co fi VNull = dret p4)
    /\ _decodedPayload m = Some (ts :: ti :: co :: fi :: rest)
    /\ validate id sig ((destinationHash m ++ src ++ p4) ++ sha256 (destinationHash m ++ src ++ p4)) = true.
Proof.
  unfold deserialize in Hm. destruct (split_wire wire e) as [[[[dst src] sig] raw]|x] eqn:Es; [|discriminate].
  assert (Hlen : match dst with Some d => length d = 16%nat | None => True end /\ length src = 16%nat).
  { unfold split_wire, is_direct, DESTINATION_LENGTH, SIGNATURE_LENGTH in Es.
    destruct (_ && _) eqn:E1 in Es.
    - injection Es as <- <- _ _. bools. rewrite !length_slice. lia.
    - destruct (_ <=? _)%nat eqn:E2 in Es; [|discriminate]. injection Es as <- <- _ _. bools.
      rewrite !length_slice. split; [done|lia]. }
  destruct Hlen as [Hd Hs]. cbn [lift_dec dbind] in Hm. destruct dst as [dst|]; [|discriminate].
  destruct (decode_body raw) as [v|x] eqn:Ed; [|discriminate]. cbn [lift_dec dbind] in Hm.
  destruct v as [| | | | | | |[|ts [|ti [|co [|fi rest]]]]| |]; try discriminate.
  destruct (match rest with [] => dret raw | _ => packPayload ts ti co fi VNull end) as [[packed|x]|] eqn:Ep; try discriminate.
  cbn [dbind] in Hm. unfold signed_part in Hm. rewrite hashed_part_ok in Hm by done.
  cbn [rbind lift_dec dbind] in Hm. injection Hm as <-.
  exists src, sig. unfold verifySignature in Hv. cbn [signature signedPart _decodedPayload sourceHash destinationHash new_Message] in Hv |- *.
  assert (Hshow : shows (mkMessage (Some src) dst (if truthy ts then ts else nowSecs) (as_text ti) (as_text co)
      (if truthy fi then fi else VObj None []) (Some sig) (Some ((dst ++ src ++ packed) ++ sha256 (dst ++ src ++ packed)))
      (match rest with st :: _ => st | [] => VNull end) (Some (sha256 (dst ++ src ++ packed)))
      (Some (ts :: ti :: co :: fi :: rest))) ts ti co fi).
  { split; [done|]. split; [done|]. cbn. split; by intros ->. }
  destruct (validate id sig ((dst ++ src ++ packed) ++ _)) eqn:Eval.
  - exists packed, ts, ti, co, fi, rest. split; [done|]. split; [done|]. split; [exact Hshow|]. split; [|done].
    destruct rest as [|st rest]; [left|right; exact Ep]. injection Ep as ->. by split.
  - destruct (packPayload ts ti co fi VNull) as [[p4|x]|] eqn:E4; try discriminate.
    cbn [dbind] in Hv. unfold signed_part in Hv. rewrite hashed_part_ok in Hv by done. cbn [rbind lift_dec dbind] in Hv. injection Hv as Hv.
    exists p4, ts, ti, co, fi, rest. split; [done|]. split; [done|]. split; [exact Hshow|]. split; [by right|]. done.
Qed.

(** C19: A message whose signature verifies was signed as it is shown: the
    sender's key signed the destination, the source and a payload that either
    is the one received, and decodes to the four elements shown, or is their
    canonical encoding, followed by the hash of all of these; a stamp is never
    covered. *)
Theorem message_authentic (nowSecs : value) (wire : bytes) (e : option bytes) (id : Identity) (m : Message)
    (He : match e with Some d => length d = 16%nat | None => True end)
    (Hm : deserialize nowSecs wire e = dret m) (Hv : verifySignature id m = dret true) :
  exists src sig p4 ts ti co fi rest,
    sourceHash m = Some src /\ signature m = Some sig /\ shows m ts ti co fi
    /\ ((rest = [] /\ decode_body p4 = Ok (VArr [ts; ti; co; fi])) \/ packPayload ts ti co fi VNull = dret p4)
    /\ _decodedPayload m = Some (ts :: ti :: co :: fi :: rest)
    /\ validate id sig ((destinationHash m ++ src ++ p4) ++ sha256 (destinationHash m ++ src ++ p4)) = true.
Proof. exact (message_signed nowSecs wire e id m He Hm Hv). Qed.

(** ** Containers *)

(** What a client submits is what the node unpacks. *)
Lemma container_roundtrip (l : list bytes) (t : value) : number_ok t -> Forall blob_ok l -> zlen l < 2 ^ 32 ->
  exists e, packPropagationContainer l t = Ok e
    /\ unpackPropagationContainer e = Some (mkContainer t (map VBin l)).
Proof.
  intros [Hn Ht] Hl Hlen. unfold packPropagationContainer.
  assert (Hc : canonical MAX_DEPTH (VArr [t; VArr (map VBin l)])).
  { apply (canonical_arr 127); [reflexivity|]. apply Forall_cons. split; [by apply canonical_atom|].
    apply Forall_cons. split; [|constructor]. apply (canonical_arr 126).
    - unfold zlen. rewrite length_map. exact Hlen.
    - rewrite Forall_map. eapply Forall_impl; [exact Hl|]. intros b Hb. apply canonical_atom. exact Hb. }
  destruct (encode_decode _ Hc) as (e & He & _). exists e. split; [done|].
  unfold unpackPropagationContainer. rewrite (decode_encoded _ e Hc He). by rewrite Hn.
Qed.
End Messages.

(** ** Concrete messages *)

Section Samples.
Import Toy.
Import MsgPackSpec.Host.
#[local] Existing Instances toy_crypto no_exotic toy_laws.

Definition sample_sender_id : Identity := generate (replicate 32 1) (replicate 32 2).
Definition sample_recipient : Identity := generate (replicate 32 3) (replicate 32 4).
Definition sample_time : value := VInt 1700000000.

(** The first field under its number, as a plain object and as a [Map]. *)
Definition text_fields : value := VObj None [(lit "1", VInt 5)].
Definition map_fields : value := VMap [(VInt 1, VInt 5)].

Definition sample_lxm (fi st : value) : Message :=
  new_Message (VInt 1) (Some (replicate 16 7)) (replicate 16 9) sample_time (VStr (lit "hi"))
    (VStr (lit "hello")) fi None None st None.

Lemma sample_sendable st : st = VNull \/ (exists b, st = VBin b /\ blob_ok b) ->
  sendable (sample_lxm text_fields st) (replicate 16 7) (lit "hi") (lit "hello").
Proof.
  intros Hst. split; try done.
  - split; [|by eexists]. apply (canonical_obj 126); [reflexivity|split| |].
    + apply NoDup_singleton.
    + repeat constructor.
    + repeat constructor; vm_compute; reflexivity.
    + repeat constructor; cbn; unfold MAX_SAFE_INTEGER; lia.
Qed.

Definition sample_stamp : value := VBin (replicate 32 5).

Lemma sample_stamped : sendable (sample_lxm text_fields sample_stamp) (replicate 16 7) (lit "hi") (lit "hello").
Proof. apply sample_sendable. right. by eexists. Qed.

Lemma message_roundtrip_witness : exists m' mid wire,
  serialize sample_sender_id (sample_lxm text_fields sample_stamp) = dret (m', mid, wire)
  /\ exists m2, deserialize (VInt 2) (drop 16 wire) (Some (replicate 16 9)) = dret m2
      /\ title m2 = VStr (lit "hi") /\ verifySignature sample_sender_id m2 = dret true.
Proof.
  destruct (@message_roundtrip toy_crypto no_exotic toy_laws sample_sender_id (sample_lxm text_fields sample_stamp)
    (replicate 16 7) (lit "hi") (lit "hello") (VInt 2)) as (m' & mid & wire & Hrun & _ & _ & Hopp & _).
  - apply generate_wf.
  - exact sample_stamped.
  - exists m', mid, wire. split; [exact Hrun|].
    destruct Hopp as (m2 & H1 & H2); [discriminate|]. exists m2. split; [exact H1|].
    split; [exact (ra_title _ _ _ _ _ H2)|exact (ra_verified _ _ _ _ _ H2)].
Defined.

(** What a stamp does to a message whose fields have numeric keys, as the
    protocol's FIELD constants are: re-encoding turns the keys into strings,
    and the signature, valid without the stamp, no longer verifies. *)
Definition received_verdict (st : value) : dec bool :=
  dbind (serialize sample_sender_id (sample_lxm map_fields st)) (fun '(_, _, wire) =>
  dbind (deserialize (VInt 2) wire None) (fun m => verifySignature sample_sender_id m)).

Example stamped_numeric_fields_rejected :
  received_verdict VNull = dret true /\ received_verdict sample_stamp = dret false.
Proof. split; vm_compute; reflexivity. Qed.

(** An opportunistic message to the sender's own destination is taken for a
    direct one: the first half of its signature becomes the source. *)
Example self_addressed_misread (dst sig payload : bytes) (Hd : length dst = 16%nat) (Hs : length sig = 64%nat)
    (Hp : (16 <= length payload)%nat) :
  split_wire (dst ++ sig ++ payload) (Some dst)
  = Ok (Some dst, take 16 sig, drop 16 sig ++ take 16 payload, drop 16 payload).
Proof.
  rewrite <- (take_drop 16 sig), <- (take_drop 16 payload) at 1. rewrite <- app_assoc, (app_assoc (drop 16 sig)).
  rewrite split_direct; [done|done|rewrite length_take; lia| |by right].
  rewrite length_app, length_drop, length_take. lia.
Qed.

Definition sample_delivery : Destination := create (lit "lxmf.delivery") OUT DestType_SINGLE (Some sample_recipient) None.

Lemma sample_opens p : opens sample_recipient (privRing sample_delivery) (replicate 32 6) (replicate 16 8) p
  (ratchet_for 0 None sample_delivery).
Proof. split; [reflexivity|]. eexists _, _. split; reflexivity. Qed.

Lemma propagation_roundtrip_witness : exists m' tid lxmfData wire,
  toPropagationData 0 (replicate 32 6) (replicate 16 8) None sample_sender_id sample_delivery
    (sample_lxm text_fields sample_stamp) = dret (m', lxmfData, tid, wire)
  /\ exists m2, fromPropagationData (VInt 2) lxmfData sample_delivery = dret (Some m2)
      /\ content m2 = VStr (lit "hello").
Proof.
  destruct (@propagation_roundtrip toy_crypto no_exotic toy_laws sample_sender_id sample_recipient
    (sample_lxm text_fields sample_stamp) (replicate 16 7) (lit "hi") (lit "hello") sample_delivery sample_delivery
    0 (replicate 32 6) (replicate 16 8) None (VInt 2)) as (m' & mid & d & wire & Hrun & _ & _ & m2 & H1 & H2).
  - apply generate_wf.
  - apply generate_wf.
  - exact sample_stamped.
  - reflexivity.
  - reflexivity.
  - reflexivity.
  - exact sample_opens.
  - exists m', (sha256 d), d, wire. split; [exact Hrun|]. exists m2. split; [exact H1|exact (ra_content _ _ _ _ _ H2)].
Defined.

Lemma paper_uri_roundtrip_witness : paperDataFromUri (lit "LXM://_-/8") = Ok [255; 239].
Proof.
  refine (proj1 (proj2 (paper_uri_roundtrip [255; 239] _)) (lit "LXM://") (lit "_-/8") _ _).
  - repeat constructor; unfold is_byte; lia.
  - reflexivity.
  - vm_compute. reflexivity.
Defined.

(** A received message, for the signature. *)
Definition sample_wire : bytes := Eval vm_compute in
  match serialize sample_sender_id (sample_lxm text_fields VNull) with
  | Some (Ok (_, _, w)) => w
  | _ => []
  end.
Definition sample_received : option (result Message) := Eval vm_compute in deserialize (VInt 2) sample_wire None.

Lemma message_authentic_witness : match sample_received with
  | Some (Ok m) => exists src sig, sourceHash m = Some src /\ signature m = Some sig
  | _ => False
  end.
Proof.
  destruct (@message_authentic toy_crypto no_exotic (VInt 2) sample_wire None sample_sender_id
    (match sample_received with Some (Ok m) => m | _ => sample_lxm VNull VNull end)) as (src & sig & _ & _ & _ & _ & _ & _ & H1 & H2 & _).
  - exact I.
  - vm_compute. reflexivity.
  - vm_compute. reflexivity.
  - exists src, sig. split; [exact H1|exact H2].
Defined.
End Samples.
