(* ===== verification/AnnounceData.v ===== *)
(** * AnnounceData: the app_data of LXMF announces
    (packages/lxmf/src/announce_data.js)

    The announce of a delivery destination carries a name, a stamp cost and
    capability flags, in one of four shapes that receivers accept; the announce
    of a propagation node carries its limits and costs.  Numbers of a parsed
    announce are kept as decoded values, since a peer may send any double. *)

From S2P Require Import Link.
From S2P Require Import Prelude Encoding JsMap Utf8 MsgPack MsgPackSpec LxmfMessage LxmfMessageSpec.
#[local] Open Scope Z_scope.

Definition SF_COMPRESSION : value := VInt 0.
Definition PN_META_NAME : Z := 1.

Record AnnounceAppData := mkAppData {
  displayName : jsstr;
  stampCost : value;                 (* a number, or [VNull] *)
  supportedFunctions : list value;
}.

(** [Number.isInteger] of the double with the given bits. *)
Definition bits_integer (bits : Z) : bool :=
  let e := (bits / 2 ^ 52) mod 2048 in
  let mant := 2 ^ 52 + bits mod 2 ^ 52 in
  let k := 1075 - e in
  if e =? 2047 then false
  else if bits mod 2 ^ 63 =? 0 then true
  else if k <=? 0 then true
  else (k <=? 52) && (mant mod 2 ^ k =? 0).

Definition decodeStampCost (v : value) : value :=
  match v with
  | VInt n => VInt n
  | VFloat bits => if bits_integer bits then VFloat bits else VNull
  | _ => VNull
  end.

Definition decodeName (v : value) : jsstr :=
  match v with VStr s => s | VBin b => utf8_decode b | _ => [] end.

Definition coerceAnnounceAppData (decoded : value) : option AnnounceAppData :=
  match decoded with
  | VArr l =>
      Some (mkAppData (decodeName (nth 0 l VNull)) (decodeStampCost (nth 1 l VNull))
              (match nth 2 l VNull with VArr fs => fs | _ => [SF_COMPRESSION] end))
  | VStr s => Some (mkAppData s VNull [SF_COMPRESSION])
  | VBin b => Some (mkAppData (utf8_decode b) VNull [SF_COMPRESSION])
  | _ => None
  end.

(** The limits and costs of a propagation node, as announced. *)
Record PropagationNodeAppData := mkNodeData {
  timebase : value;
  nodeState : bool;
  perTransferLimitKb : value;
  perSyncLimitKb : value;
  nodeStampCost : value;
  nodeStampCostFlexibility : value;
  nodePeeringCost : value;
  name : option jsstr;
}.

(** [v["1"]] of an object: own, or found along a replaced prototype chain. *)
Fixpoint prop_name (v : value) : value :=
  match v with
  | VArr l => nth 1 l VNull
  | VObj proto props =>
      match list_find (fun kv => fst kv = lit "1") props with
      | Some (_, (_, x)) => x
      | None => match proto with Some p => prop_name p | None => VNull end
      end
  | _ => VNull
  end.

Definition num (v : value) : value := if is_number v then v else VInt 0.

Section WithHost.
Context `{H : JsHost}.

Definition buildAnnounceAppData (displayName : jsstr) (stampCost : value) (supportedFunctions : list Z)
    : result bytes :=
  encode (VArr [VBin (utf8_encode displayName); stampCost; VArr (map VInt supportedFunctions)]).

(** The last handler of the code is for a decoder that throws; this one does
    not. *)
Definition parseAnnounceAppData (appData : option bytes) : option AnnounceAppData :=
  match appData with
  | None | Some [] => None
  | Some b =>
      match match decode_body b with Ok v => coerceAnnounceAppData v | Throw _ => None end with
      | Some d => Some d
      | None => Some (mkAppData (utf8_decode b) VNull [SF_COMPRESSION])
      end
  end.

Definition buildPropagationNodeAppData (timebase : Z) (nodeState : bool)
    (perTransferLimitKb perSyncLimitKb stampCost stampCostFlexibility peeringCost : Z) (name : jsstr)
    : result bytes :=
  let metadata := match name with [] => [] | _ => [(VInt PN_META_NAME, VBin (utf8_encode name))] end in
  encode (VArr [VBool false; VInt timebase; VBool nodeState; VInt perTransferLimitKb; VInt perSyncLimitKb;
                VArr [VInt stampCost; VInt stampCostFlexibility; VInt peeringCost]; VMap metadata]).

Definition parsePropagationNodeAppData (appData : option bytes) : option PropagationNodeAppData :=
  match appData with
  | None | Some [] => None
  | Some b =>
      match decode_body b with
      | Ok (VArr (v0 :: v1 :: v2 :: v3 :: v4 :: v5 :: v6 :: _)) =>
          let costs := match v5 with VArr l => l | _ => [] end in
          Some (mkNodeData (num v1) (truthy v2) (num v3) (num v4) (num (nth 0 costs VNull))
                  (num (nth 1 costs VNull)) (num (nth 2 costs VNull))
                  (match prop_name v6 with VStr s => Some s | VBin u => Some (utf8_decode u) | _ => None end))
      | _ => None
      end
  end.

(** ** Round trips *)

(** The name survives UTF-8: no lone surrogates, no leading byte order mark,
    and shorter than 4 GiB. *)
Definition sendable_name (s : jsstr) : Prop := wf_str s /\ blob_ok (utf8_encode s).

Definition sendable_cost (v : value) : Prop :=
  v = VNull \/ exists n, v = VInt n /\ - MAX_SAFE_INTEGER <= n <= MAX_SAFE_INTEGER.

(** A value that is encoded and parsed. *)
Lemma parsed v : canonical MAX_DEPTH v -> is_Some (coerceAnnounceAppData v) ->
  exists b, encode v = Ok b /\ parseAnnounceAppData (Some b) = coerceAnnounceAppData v.
Proof.
  intros Hc [d Hs]. destruct (encode_decode _ Hc) as (e & He & Hd). exists e. split; [exact He|].
  unfold parseAnnounceAppData, decode_body. rewrite Hd. cbn [dret]. rewrite Hs.
  destruct e as [|b e]; [|done]. exfalso. vm_compute in Hd. discriminate.
Qed.

(** A first byte below 128 is a small number for the decoder. *)
Lemma ascii_scalar c b : 0 <= c < 128 -> decode_body (c :: b) = Ok (VInt c).
Proof.
  intros Hc. assert (Hd : decodes [c] (VInt c) 0 1).
  { apply decodes_byte. intros. unfold decode_dispatch. by rewrite (proj2 (Z.leb_le c 127)) by lia. }
  unfold decode_body, decode, decode_at. specialize (Hd [] b (decode_fuel (whole (c :: b)))). cbn [app length] in Hd.
  rewrite Hd; [done|]. unfold decode_fuel. lia.
Qed.

(** What a delivery destination announces is read back: any name, cost and
    capabilities. *)
Theorem announce_data_roundtrip (nm : jsstr) (cost : value) (fns : list Z)
    (Hname : sendable_name nm) (Hcost : sendable_cost cost)
    (Hfns : Forall (fun n => - MAX_SAFE_INTEGER <= n <= MAX_SAFE_INTEGER) fns) (Hlen : zlen fns < 2 ^ 32) :
  exists b, buildAnnounceAppData nm cost fns = Ok b
  /\ parseAnnounceAppData (Some b) = Some (mkAppData nm cost (map VInt fns)).
Proof.
  destruct Hname as [Hwf Hblob]. unfold buildAnnounceAppData.
  assert (Hc : canonical MAX_DEPTH (VArr [VBin (utf8_encode nm); cost; VArr (map VInt fns)])).
  { apply (canonical_arr 127); [reflexivity|]. repeat (apply Forall_cons; split); [exact Hblob| | |constructor].
    - destruct Hcost as [->|(n & -> & Hn)]; [exact I|exact Hn].
    - apply (canonical_arr 126); [unfold zlen; by rewrite length_map|]. by apply Forall_map. }
  destruct (parsed _ Hc) as (e & He & Hp); [done|]. exists e. split; [exact He|]. rewrite Hp.
  cbn [coerceAnnounceAppData nth decodeName]. rewrite utf8_decode_encode by done.
  by destruct Hcost as [->|(n & -> & _)].
Qed.
(** Every non-empty app_data is read, never refused; the older shapes keep
    their meaning: a two- or one-element array and a bare string are names with
    compression, and plain ASCII text, which is no MessagePack name, is the
    name itself. *)
Theorem legacy_names_read (b : bytes) (Hb : b <> []) :
  (exists d, parseAnnounceAppData (Some b) = Some d)
  /\ (forall nm cost, sendable_name nm -> sendable_cost cost ->
        exists b2 b1 b0, encode (VArr [VBin (utf8_encode nm); cost]) = Ok b2
        /\ encode (VArr [VBin (utf8_encode nm)]) = Ok b1 /\ encode (VStr nm) = Ok b0
        /\ parseAnnounceAppData (Some b2) = Some (mkAppData nm cost [SF_COMPRESSION])
        /\ parseAnnounceAppData (Some b1) = Some (mkAppData nm VNull [SF_COMPRESSION])
        /\ parseAnnounceAppData (Some b0) = Some (mkAppData nm VNull [SF_COMPRESSION]))
  /\ (Forall (fun c => 0 <= c < 128) b ->
        parseAnnounceAppData (Some b) = Some (mkAppData (utf8_decode b) VNull [SF_COMPRESSION])).
Proof.
  split; [|split].
  - unfold parseAnnounceAppData. destruct b as [|c b]; [done|]. destruct (match decode_body _ with Ok _ => _ | _ => _ end); eauto.
  - intros nm cost [Hwf Hblob] Hcost.
    destruct (parsed (VArr [VBin (utf8_encode nm); cost])) as (b2 & E2 & P2); [|done|].
    { apply (canonical_arr 127); [reflexivity|]. repeat (apply Forall_cons; split); [exact Hblob| |constructor].
      destruct Hcost as [->|(n & -> & Hn)]; [exact I|exact Hn]. }
    destruct (parsed (VArr [VBin (utf8_encode nm)])) as (b1 & E1 & P1); [|done|].
    { apply (canonical_arr 127); [reflexivity|]. repeat (apply Forall_cons; split); [exact Hblob|constructor]. }
    destruct (parsed (VStr nm)) as (b0 & E0 & P0); [by split|done|].
    exists b2, b1, b0. do 3 (split; [done|]). rewrite P2, P1, P0. cbn [coerceAnnounceAppData nth decodeName decodeStampCost].
    rewrite utf8_decode_encode by done. by destruct Hcost as [->|(n & -> & _)].
  - intros Ha. destruct b as [|c b]; [done|]. apply Forall_cons in Ha as [Hc _].
    unfold parseAnnounceAppData. by rewrite ascii_scalar.
Qed.

(** The metadata map, with its integer key, is read as an object. *)
Lemma metadata_encodes u : blob_ok u ->
  exists e, encode (VMap [(VInt PN_META_NAME, VBin u)]) = Ok e
  /\ encodes 1 e (VObj None [(lit "1", VBin u)]).
Proof.
  intros Hu. exists (129 :: 1 :: _encodeBinary u). split; [unfold encode; cbn [_encodeValue rbind]; by rewrite app_nil_r|]. split; [done|].
  pose proof (decodes_binary u 2 Hu) as Hb.
  assert (Hk : decodes [1] (VInt 1) 2 1).
  { apply decodes_byte. intros. unfold decode_dispatch. done. }
  assert (Hdisp : forall arr obj buf off, decode_dispatch arr obj buf 129 off = obj 1 off) by reflexivity.
  eapply decodes_intro; [done|cbn [length]; lia|]. intros pre post f Hf. rewrite Hdisp. cbv beta.
  rewrite (proj2 (Nat.ltb_ge _ _)) by (unfold MAX_DEPTH; lia).
  assert (1 <= length (_encodeBinary u))%nat.
  { unfold _encodeBinary. rewrite length_app. destruct (zlen u <=? 255); [cbn; lia|]. destruct (_ <=? _); cbn; lia. }
  cbn [length] in Hf. destruct f as [|[|f]]; [lia|lia|]. cbn [decode_entries Z.leb Z.compare].
  specialize (Hk pre (_encodeBinary u ++ post) (S f) ltac:(lia)). cbn [app length] in Hk |- *. rewrite Hk. cbn [dbind dret].
  specialize (Hb (pre ++ [1]) post (S f) ltac:(lia)). rewrite <- app_assoc, length_app in Hb. cbn [app length] in Hb.
  rewrite Hb. cbn [dbind dret map_entry property_key].
  change (int_str 1) with (lit "1"). change (assign (lit "1") (VBin u) None []) with (@None value, [(lit "1", VBin u)]).
  cbn [dbind]. change (1 - 1) with 0. change (0 <=? 0) with true. cbn [dbind dret]. by rewrite <- Nat.add_assoc.
Qed.

Definition safe (n : Z) : Prop := - MAX_SAFE_INTEGER <= n <= MAX_SAFE_INTEGER.

Lemma int_encodes n : safe n -> encodes 1 (_encodeInteger n) (VInt n).
Proof. intros Hn. apply canonical_encodes; [exact Hn|unfold MAX_DEPTH; lia|reflexivity]. Qed.

Lemma bool_encodes (b : bool) : encodes 1 [if b then 195 else 194] (VBool b).
Proof. apply canonical_encodes; [exact I|unfold MAX_DEPTH; lia|reflexivity]. Qed.

Lemma pn_metadata_encodes nm : blob_ok (utf8_encode nm) ->
  exists e m, encode (VMap (match nm with [] => [] | _ => [(VInt PN_META_NAME, VBin (utf8_encode nm))] end)) = Ok e
  /\ encodes 1 e m
  /\ prop_name m = match nm with [] => VNull | _ => VBin (utf8_encode nm) end.
Proof.
  intros Hb. destruct nm as [|c nm].
  - exists [128], (VObj None []). split; [reflexivity|]. split; [|reflexivity].
    apply canonical_encodes; [|unfold MAX_DEPTH; lia|reflexivity].
    apply (canonical_obj 126); [reflexivity| |constructor|constructor]. split; constructor.
  - destruct (metadata_encodes (utf8_encode (c :: nm)) Hb) as (e & E1 & E2).
    exists e, (VObj None [(lit "1", VBin (utf8_encode (c :: nm)))]). split; [exact E1|]. split; [exact E2|reflexivity].
Qed.

(** What a propagation node announces is read back by its peers: its state,
    limits and costs, and its name (an empty name is no name). *)
Theorem node_data_roundtrip (tb : Z) (st : bool) (tl sl c fl pc : Z) (nm : jsstr)
    (Hsafe : Forall safe [tb; tl; sl; c; fl; pc]) (Hname : nm = [] \/ sendable_name nm) :
  exists b, buildPropagationNodeAppData tb st tl sl c fl pc nm = Ok b
  /\ parsePropagationNodeAppData (Some b)
     = Some (mkNodeData (VInt tb) st (VInt tl) (VInt sl) (VInt c) (VInt fl) (VInt pc)
               (match nm with [] => None | _ => Some nm end)).
Proof.
  assert (Hb : blob_ok (utf8_encode nm)) by (destruct Hname as [->|[_ ?]]; [reflexivity|done]).
  destruct (pn_metadata_encodes nm Hb) as (em & m & Em & Dm & Pm).
  repeat match type of Hsafe with Forall _ (_ :: _) => apply Forall_cons in Hsafe as [? Hsafe] end.
  assert (Hcosts : encodes 1 (array_header 3 ++ _encodeInteger c ++ _encodeInteger fl ++ _encodeInteger pc)
    (VArr [VInt c; VInt fl; VInt pc])).
  { apply canonical_encodes; [|unfold MAX_DEPTH; lia|]; [|unfold encode; cbn [_encodeValue rbind]; by rewrite app_nil_r].
    apply (canonical_arr 126); [reflexivity|]. repeat (apply Forall_cons; split; [done|]). constructor. }
  set (es := [[194]; _encodeInteger tb; [if st then 195 else 194]; _encodeInteger tl; _encodeInteger sl;
    array_header 3 ++ _encodeInteger c ++ _encodeInteger fl ++ _encodeInteger pc; em]).
  exists (array_header 7 ++ concat es). split.
  - unfold buildPropagationNodeAppData, encode in *. cbn [_encodeValue rbind] in *. rewrite Em.
    unfold es. cbn [rbind concat]. by rewrite !app_nil_r, <- !app_assoc.
  - assert (Hd : decode_body (array_header 7 ++ concat es) = Ok (VArr [VBool false; VInt tb; VBool st; VInt tl; VInt sl;
      VArr [VInt c; VInt fl; VInt pc]; m])).
    { refine (array_decode es [VBool false; VInt tb; VBool st; VInt tl; VInt sl; VArr [VInt c; VInt fl; VInt pc]; m] _ _);
        [reflexivity|]. unfold es.
      apply List.Forall2_cons; [exact (bool_encodes false)|]. apply List.Forall2_cons; [by apply int_encodes|].
      apply List.Forall2_cons; [exact (bool_encodes st)|]. apply List.Forall2_cons; [by apply int_encodes|].
      apply List.Forall2_cons; [by apply int_encodes|]. apply List.Forall2_cons; [exact Hcosts|].
      apply List.Forall2_cons; [exact Dm|]. constructor. }
    change (array_header 7 ++ concat es) with (151 :: concat es) in *. unfold parsePropagationNodeAppData.
    rewrite Hd. cbn [num is_number nth truthy]. rewrite Pm. destruct nm as [|x nm]; [done|].
    destruct Hname as [|[Hwf _]]; [done|]. by rewrite utf8_decode_encode.
Qed.
End WithHost.

(** ** Concrete announces *)

Section Samples.
Import MsgPackSpec.Host.
#[local] Existing Instance no_exotic.

Lemma sample_name : sendable_name (lit "Alice").
Proof. split; [split; [reflexivity|discriminate]|vm_compute; reflexivity]. Qed.

Lemma announce_data_roundtrip_witness : exists b, buildAnnounceAppData (lit "Alice") (VInt 8) [0] = Ok b
  /\ parseAnnounceAppData (Some b) = Some (mkAppData (lit "Alice") (VInt 8) [VInt 0]).
Proof.
  apply (@announce_data_roundtrip no_exotic (lit "Alice") (VInt 8) [0]).
  - exact sample_name.
  - right. exists 8. split; [reflexivity|]. vm_compute. split; discriminate.
  - apply Forall_singleton. vm_compute. split; discriminate.
  - reflexivity.
Defined.

Lemma legacy_names_read_witness :
  parseAnnounceAppData (Some (utf8_encode (lit "Grace"))) = Some (mkAppData (lit "Grace") VNull [SF_COMPRESSION]).
Proof.
  refine (proj2 (proj2 (@legacy_names_read no_exotic (utf8_encode (lit "Grace")) _)) _).
  - vm_compute. discriminate.
  - apply (bool_decide_unpack _). vm_compute. exact I.
Defined.

Lemma node_data_roundtrip_witness : exists b,
  buildPropagationNodeAppData 1700000000 true 256 10240 16 3 18 (lit "Alice") = Ok b
  /\ parsePropagationNodeAppData (Some b)
     = Some (mkNodeData (VInt 1700000000) true (VInt 256) (VInt 10240) (VInt 16) (VInt 3) (VInt 18) (Some (lit "Alice"))).
Proof.
  apply (@node_data_roundtrip no_exotic 1700000000 true 256 10240 16 3 18 (lit "Alice")).
  - repeat (apply Forall_cons; split; [vm_compute; split; discriminate|]). constructor.
  - right. exact sample_name.
Defined.
End Samples.
