(* ===== verification/PropagationNode.v ===== *)
(** * PropagationNode: the store-and-forward node
    (packages/lxmf/src/propagation_node.js)

    Submitted messages are validated, deduplicated and delivered or stored;
    clients list, fetch and purge their own messages; peering nodes offer
    theirs.  The body of the ingestion loop is cut at its awaits: [enter] runs
    to the first one, [after_decrypt] and [after_filter] are what follows, so
    that batches and requests can interleave; [ingestBlobs] is one batch that
    nothing interrupts.

    Times are rational seconds.  [clock] is the JavaScript number of an instant.
    What the application decides (whom to allow, the local destinations, the
    ingest filter, what its delivery callback does) is an argument. *)

From Stdlib Require Import QArith.
From S2P Require Import Prelude Encoding JsMap Utf8 MsgPack Packet Crypto Identity Destination.
From S2P Require Import Stamper LxmfMessage MessageStore.
#[local] Open Scope Z_scope.

Definition PROCESSED_TID_TTL_SECS : Z := 30 * 24 * 60 * 60 * 6.
Definition PROCESSED_PRUNE_INTERVAL_SECS : Z := 300.
Definition PROPAGATION_LIMIT : Z := 256.
Definition SYNC_LIMIT : Z := 10240.
Definition PROPAGATION_COST : Z := 16.
Definition PROPAGATION_COST_FLEX : Z := 3.
Definition PEERING_COST : Z := 18.
Definition MAX_INBOUND_SYNCS : Z := 3.
Definition PN_STAMP_THROTTLE_SECS : Z := 180.

Definition PEER_ERROR_NO_IDENTITY : value := VInt 240.
Definition PEER_ERROR_NO_ACCESS : value := VInt 241.
Definition PEER_ERROR_INVALID_KEY : value := VInt 243.
Definition PEER_ERROR_INVALID_DATA : value := VInt 244.
Definition PEER_ERROR_THROTTLED : value := VInt 246.

(** The fields the constructor sets from its options and nothing changes. *)
Record NodeConfig := mkNodeConfig {
  stampCost : Z;
  stampCostFlexibility : Z;
  peeringCost : Z;
  maxInboundSyncs : Z;
  stampThrottleSecs : Z;
  sequentialValidation : bool;
  staticPeerHashes : list jsstr;
  hasIngestFilter : bool;
  identityAllowed : Identity -> bool;
  getLocalIdentityHash : bytes;
}.

(** The defaults of the constructor. *)
Definition default_config : NodeConfig :=
  mkNodeConfig PROPAGATION_COST PROPAGATION_COST_FLEX PEERING_COST MAX_INBOUND_SYNCS
    PN_STAMP_THROTTLE_SECS true [] false (fun _ => true) [].

Record PropagationNode := mkNode {
  store : MessageStore;
  throttledPeers : jsmap Q;
  inboundSyncs : jsmap Q;
  validatingCount : Z;
  locallyProcessed : jsmap Q;
  locallyDelivered : jsmap Q;
  _lastDedupPrune : Q;
}.

Definition new_PropagationNode (st : MessageStore) : PropagationNode := mkNode st [] [] 0 [] [] 0.

Definition set_store (s : PropagationNode) (st : MessageStore) : PropagationNode :=
  mkNode st (throttledPeers s) (inboundSyncs s) (validatingCount s) (locallyProcessed s)
    (locallyDelivered s) (_lastDedupPrune s).

Definition set_throttled (s : PropagationNode) (m : jsmap Q) : PropagationNode :=
  mkNode (store s) m (inboundSyncs s) (validatingCount s) (locallyProcessed s)
    (locallyDelivered s) (_lastDedupPrune s).

Definition set_syncs (s : PropagationNode) (m : jsmap Q) : PropagationNode :=
  mkNode (store s) (throttledPeers s) m (validatingCount s) (locallyProcessed s)
    (locallyDelivered s) (_lastDedupPrune s).

Definition set_validating (s : PropagationNode) (n : Z) : PropagationNode :=
  mkNode (store s) (throttledPeers s) (inboundSyncs s) n (locallyProcessed s)
    (locallyDelivered s) (_lastDedupPrune s).

Definition set_processed (s : PropagationNode) (m : jsmap Q) : PropagationNode :=
  mkNode (store s) (throttledPeers s) (inboundSyncs s) (validatingCount s) m
    (locallyDelivered s) (_lastDedupPrune s).

Definition set_delivered (s : PropagationNode) (m : jsmap Q) : PropagationNode :=
  mkNode (store s) (throttledPeers s) (inboundSyncs s) (validatingCount s) (locallyProcessed s)
    m (_lastDedupPrune s).

Definition minAcceptedCost (c : NodeConfig) : Z := Z.max 0 (stampCost c - stampCostFlexibility c).

Definition beginInboundSync (now : Q) (key : jsstr) (s : PropagationNode) : PropagationNode :=
  set_syncs s (mset key now (inboundSyncs s)).

Definition endInboundSync (key : jsstr) (s : PropagationNode) : PropagationNode :=
  set_syncs s (mdelete key (inboundSyncs s)).

Definition throttlePeer (c : NodeConfig) (now : Q) (remoteHex : jsstr) (s : PropagationNode) : PropagationNode :=
  set_throttled s (mset remoteHex (now + inject_Z (stampThrottleSecs c))%Q (throttledPeers s)).

(** [now > timestamp + PROCESSED_TID_TTL_SECS]. *)
Definition tid_expired (now : Q) (kv : jsstr * Q) : bool :=
  negb (Qle_bool now (snd kv + inject_Z PROCESSED_TID_TTL_SECS)).

Definition prune_cache (now : Q) (cache : jsmap Q) : jsmap Q :=
  filter (fun kv => tid_expired now kv = false) cache.

Definition _pruneDedupCaches (now : Q) (s : PropagationNode) : PropagationNode * nat :=
  let processed := prune_cache now (locallyProcessed s) in
  let delivered := prune_cache now (locallyDelivered s) in
  (mkNode (store s) (throttledPeers s) (inboundSyncs s) (validatingCount s) processed delivered now,
   (length (locallyProcessed s) - length processed + (length (locallyDelivered s) - length delivered))%nat).

(** The counts of aged messages and of pruned ids. *)
Definition tickMaintenance (now : Q) (s : PropagationNode) : PropagationNode * nat * nat :=
  let '(st, aged) := prune now (store s) in
  let '(s, pruned) := _pruneDedupCaches now (set_store s st) in
  (s, aged, pruned).

(** ** Ingestion *)

Inductive Origin := PeerSync | Submission.

#[global] Instance origin_eq_dec : EqDecision Origin.
Proof. solve_decision. Defined.

(** What the ingest filter is shown. *)
Record Candidate := mkCandidate {
  candidate_id : bytes;
  candidate_dest : bytes;
  candidate_size : Z;
  candidate_value : Z;
}.

(** A blob whose stamp was accepted, with the value of the stamp. *)
Record Blob := mkBlob { blob_id : bytes; blob_data : bytes; blob_stamp : bytes; blob_value : Z }.

Definition blob_size (v : Blob) : Z := zlen (blob_data v) + zlen (blob_stamp v).

Definition blob_dest (v : Blob) : bytes := take DESTINATION_LENGTH (blob_data v).

Definition candidate (v : Blob) : Candidate :=
  mkCandidate (blob_id v) (blob_dest v) (blob_size v) (blob_value v).

Definition known (tid : bytes) (s : PropagationNode) : bool :=
  has_message tid (store s) || has (toHex tid) (locallyProcessed s).

(** The entry made of a blob. *)
Definition entry_of (now : Q) (v : Blob) : PropagationEntry :=
  mkEntry (blob_id v) (blob_dest v) (blob_data v) (blob_stamp v) now (blob_value v) (blob_size v) [] [].

Definition store_blob (now : Q) (v : Blob) (s : PropagationNode) : PropagationNode :=
  set_store s (fst (add now (entry_of now v) (store s))).

(** Where the body of the loop stands at its first await, or its end. *)
Inductive Pause :=
| Skipped
| Stored
| Decrypting (delivery : Destination)
| Filtering.

(** The body up to there; [now] is read at the start of the batch, [at_] when
    the entry is made. *)
Definition enter (c : NodeConfig) (delivery_for : bytes -> option Destination) (o : Origin)
    (now at_ : Q) (v : Blob) (s : PropagationNode) : PropagationNode * Pause :=
  if known (blob_id v) s then (s, Skipped) else
  let s := set_processed s (mset (toHex (blob_id v)) now (locallyProcessed s)) in
  match delivery_for (blob_dest v) with
  | Some d => (s, Decrypting d)
  | None =>
      if hasIngestFilter c && bool_decide (o = PeerSync) then (s, Filtering)
      else (store_blob at_ v s, Stored)
  end.

(** After the decryption: whether the message goes to [onLocalDelivery]. *)
Definition after_decrypt (now : Q) (v : Blob) (msg : option Message) (s : PropagationNode)
    : PropagationNode * bool :=
  match msg with
  | Some _ => (set_delivered s (mset (toHex (blob_id v)) now (locallyDelivered s)), true)
  | None => (s, false)
  end.

(** After the filter's answer: whether the blob was stored. *)
Definition after_filter (at_ : Q) (v : Blob) (keep : bool) (s : PropagationNode) : PropagationNode * bool :=
  if keep then (store_blob at_ v s, true) else (s, false).

Inductive node_event :=
| LocalDelivery (m : Message) (tid : bytes)     (* onLocalDelivery *)
| OnStored (ids : list bytes).                  (* onStored *)

Record Counts := mkCounts { stored : nat; delivered : nat; rejected : nat; dropped : nat; storedIds : list bytes }.

Definition count_stored (v : Blob) (n : Counts) : Counts :=
  mkCounts (S (stored n)) (delivered n) (rejected n) (dropped n) (storedIds n ++ [blob_id v]).
Definition count_delivered (n : Counts) : Counts :=
  mkCounts (stored n) (S (delivered n)) (rejected n) (dropped n) (storedIds n).
Definition count_dropped (n : Counts) : Counts :=
  mkCounts (stored n) (delivered n) (rejected n) (S (dropped n)) (storedIds n).

(** The application's answers during a batch. *)
Record Application := mkApplication {
  delivery_for : bytes -> option Destination;
  on_delivery : Message -> bytes -> result unit;
  ingest_filter : Candidate -> result bool;
}.

Section WithCrypto.
Context `{C : WebCrypto} `{H : JsHost}.
Variable clock : Q -> value.

(** [validatePnStamps]; [None] when the value of a stamp never comes. *)
Definition validated_blobs (transientList : list bytes) (minCost : Z) : option (list Blob) :=
  mapM (fun v => mkBlob (Stamper.transientId v) (Stamper.lxmfData v) (Stamper.stampData v) <$> stampValueOf v)
    (validatePnStamps transientList minCost).

(** One iteration; an exception leaves what was done so far. *)
Definition ingest_one (c : NodeConfig) (app : Application) (o : Origin) (now : Q) (v : Blob)
    (s : PropagationNode) (n : Counts) : PropagationNode * list node_event * dec Counts :=
  let '(s, p) := enter c (delivery_for app) o now now v s in
  match p with
  | Skipped => (s, [], dret n)
  | Stored => (s, [], dret (count_stored v n))
  | Decrypting d =>
      match fromPropagationData (clock now) (blob_data v) d with
      | None => (s, [], None)
      | Some (Throw e) => (s, [], dthrow e)
      | Some (Ok msg) =>
          let '(s, _) := after_decrypt now v msg s in
          match msg with
          | None => (s, [], dret n)
          | Some m =>
              (s, [LocalDelivery m (blob_id v)],
               match on_delivery app m (blob_id v) with
               | Ok _ => dret (count_delivered n)
               | Throw e => dthrow e
               end)
          end
      end
  | Filtering =>
      match ingest_filter app (candidate v) with
      | Throw e => (s, [], dthrow e)
      | Ok keep =>
          let '(s, kept) := after_filter now v keep s in
          (s, [], dret (if kept then count_stored v n else count_dropped n))
      end
  end.

Fixpoint ingest_loop (c : NodeConfig) (app : Application) (o : Origin) (now : Q) (vs : list Blob)
    (s : PropagationNode) (n : Counts) : PropagationNode * list node_event * dec Counts :=
  match vs with
  | [] => (s, [], dret n)
  | v :: vs =>
      let '(s, es, r) := ingest_one c app o now v s n in
      match r with
      | Some (Ok n) => let '(s, es2, r) := ingest_loop c app o now vs s n in (s, es ++ es2, r)
      | r => (s, es, r)
      end
  end.

Definition _ingestBlobsInner (c : NodeConfig) (app : Application) (now : Q) (transientList : list bytes)
    (o : Origin) (s : PropagationNode) : PropagationNode * list node_event * dec Counts :=
  match validated_blobs transientList (minAcceptedCost c) with
  | None => (s, [], None)
  | Some vs =>
      let '(s, es, r) := ingest_loop c app o now vs s
                           (mkCounts 0 0 (length transientList - length vs) 0 []) in
      match r with
      | Some (Ok n) =>
          (s, es ++ match storedIds n with [] => [] | ids => [OnStored ids] end, r)
      | _ => (s, es, r)
      end
  end.

(** The lazy prune of [ingestBlobs]. *)
Definition prune_due (now : Q) (s : PropagationNode) : PropagationNode :=
  if Qle_bool (inject_Z PROCESSED_PRUNE_INTERVAL_SECS) (now - _lastDedupPrune s)
  then fst (_pruneDedupCaches now s) else s.

Definition ingestBlobs (c : NodeConfig) (app : Application) (now : Q) (transientList : list bytes)
    (o : Origin) (s : PropagationNode) : PropagationNode * list node_event * dec Counts :=
  let s := prune_due now s in
  let s := set_validating s (validatingCount s + 1) in
  let '(s, es, r) := _ingestBlobsInner c app now transientList o s in
  (match r with None => s | Some _ => set_validating s (validatingCount s - 1) end, es, r).

(** ** The /get request *)

Definition APP_NAME : jsstr := lit "lxmf".

(** The hash of one of an identity's lxmf destinations. *)
Definition lxmf_hash (aspect : string) (id : Identity) : option bytes :=
  Destination.destinationHash (create (APP_NAME ++ lit aspect) OUT DestType_SINGLE (Some id) None).

(** A transient id of a request: [toHex] refuses anything but bytes. *)
Definition as_tid (v : value) : result bytes :=
  match v with VBin b => Ok b | _ => Throw (TypeError "toHex expects a Uint8Array") end.

(** [v == null]. *)
Definition is_null (v : value) : bool := match v with VNull => true | _ => false end.

(** The elements of an array; anything else counts as an empty one. *)
Definition array_of (v : value) : list value := match v with VArr l => l | _ => [] end.

Fixpoint purge (haves : list value) (owner : bytes) (st : MessageStore) : MessageStore * result unit :=
  match haves with
  | [] => (st, Ok tt)
  | tid :: haves =>
      match as_tid tid with
      | Ok tid => purge haves owner (fst (removeForDestination tid owner st))
      | Throw e => (st, Throw e)
      end
  end.

Fixpoint serve (wants : list value) (owner : bytes) (limitKb : option Z) (cumulative : Z)
    (st : MessageStore) : result (list bytes) :=
  match wants with
  | [] => Ok []
  | tid :: wants =>
      let! tid := as_tid tid in
      match serveDataForDestination tid owner st with
      | None => serve wants owner limitKb cumulative st
      | Some data =>
          let next := cumulative + zlen data + 16 in
          if match limitKb with Some l => l * 1000 <? next | None => false end
          then serve wants owner limitKb cumulative st
          else let! out := serve wants owner limitKb next st in Ok (data :: out)
      end
  end.

(** The limit of a request; a limit that is not an integer is left out. *)
Definition client_limit (data : list value) : option (option Z) :=
  match data with
  | _ :: _ :: VInt n :: _ => Some (Some n)
  | _ :: _ :: VFloat _ :: _ => None
  | _ => Some None
  end.

Definition handleGetRequest (c : NodeConfig) (remote : option Identity) (data : value)
    (s : PropagationNode) : PropagationNode * dec value :=
  match remote with
  | None => (s, dret PEER_ERROR_NO_IDENTITY)
  | Some id =>
      if negb (identityAllowed c id) then (s, dret PEER_ERROR_NO_ACCESS) else
      match data with
      | VArr ((wants :: haves :: _) as l) =>
          match lxmf_hash ".delivery" id with
          | None => (s, dret PEER_ERROR_INVALID_DATA)
          | Some owner =>
              if is_null wants && is_null haves
              then (s, dret (VArr (map VBin (transientIdsForDestination owner (store s))))) else
              let '(st, purged) := purge (array_of haves) owner (store s) in
              (set_store s st,
               match purged with
               | Throw e => dthrow e
               | Ok _ =>
                   match array_of wants with
                   | [] => dret (VArr [])
                   | ws =>
                       match client_limit l with
                       | None => None
                       | Some limitKb =>
                           lift_dec (let! out := serve ws owner limitKb 24 st in Ok (VArr (map VBin out)))
                       end
                   end
               end)
          end
      | _ => (s, dret PEER_ERROR_INVALID_DATA)
      end
  end.

(** ** The /offer request *)

(** [for (const tid of data)]; what is not iterable throws.  An object whose
    prototype was replaced is left out. *)
Definition offered_list (v : value) : dec (list value) :=
  match v with
  | VArr l => dret l
  | VBin [] | VStr [] | VMap [] => dret []
  | VObj (Some _) _ => None
  | _ => dthrow (TypeError "toHex expects a Uint8Array, or not iterable")
  end.

Fixpoint wanted_of (offered : list value) (s : PropagationNode) : result (list bytes) :=
  match offered with
  | [] => Ok []
  | tid :: offered =>
      let! tid := as_tid tid in
      if known tid s then wanted_of offered s
      else let! rest := wanted_of offered s in Ok (tid :: rest)
  end.

(** The admission gates: the state after them and whether the offer passes. *)
Definition admit_offer (c : NodeConfig) (now : Q) (remoteHex : jsstr) (s : PropagationNode)
    : PropagationNode * bool :=
  let gates s :=
    bool_decide (remoteHex ∈ staticPeerHashes c)
    || negb (sequentialValidation c && (0 <? validatingCount s))
       && negb ((0 <? maxInboundSyncs c) && (maxInboundSyncs c <=? zlen (inboundSyncs s))) in
  match get remoteHex (throttledPeers s) with
  | Some t =>
      if negb (Qle_bool t now) then (s, false)
      else let s := set_throttled s (mdelete remoteHex (throttledPeers s)) in (s, gates s)
  | None => (s, gates s)
  end.

(** The reply, and whether the link was flagged for a transfer that follows. *)
Definition handleOfferRequest (c : NodeConfig) (now : Q) (remote : option Identity) (data : value)
    (s : PropagationNode) : PropagationNode * dec (value * bool) :=
  let reply v := dret (v, false) in
  match remote with
  | None => (s, reply PEER_ERROR_NO_IDENTITY)
  | Some id =>
      if negb (identityAllowed c id) then (s, reply PEER_ERROR_NO_ACCESS) else
      match data with
      | VArr (VBin peeringKey :: offered :: _) =>
          if negb (validatePeeringKey (getLocalIdentityHash c ++ identityHash id) peeringKey (peeringCost c))
          then (s, reply PEER_ERROR_INVALID_KEY) else
          match lxmf_hash ".propagation" id with
          | None => (s, dthrow (TypeError "toHex expects a Uint8Array"))
          | Some remoteHash =>
              let '(s, ok) := admit_offer c now (toHex remoteHash) s in
              (s, if negb ok then reply PEER_ERROR_THROTTLED else
                  dbind (offered_list offered) (fun offered =>
                  dbind (lift_dec (wanted_of offered s)) (fun wanted =>
                  match wanted with
                  | [] => reply (VBool false)
                  | _ => if (length wanted =? length offered)%nat then dret (VBool true, true)
                         else dret (VArr (map VBin wanted), true)
                  end)))
          end
      | VArr (_ :: _ :: _) => (s, None)
      | _ => (s, reply PEER_ERROR_INVALID_DATA)
      end
  end.

End WithCrypto.
