(* ===== verification/Peer.v ===== *)
(** * Peer: one-way sync with a peered propagation node
    (packages/lxmf/src/peer.js)

    [sync] is cut at its awaits; each part takes the answer it waited for, and
    [sync] composes them with the answers of an undisturbed pass.  The message
    store is the node's own and is passed along. *)

From Stdlib Require Import QArith.
From S2P Require Import Prelude Encoding JsMap Utf8 MsgPack Packet Crypto Identity Destination.
From S2P Require Import Stamper LxmfMessage MessageStore PropagationNode.
#[local] Open Scope Z_scope.

Definition SYNC_BACKOFF_STEP_SECS : Z := 12 * 60.

Inductive PeerState :=
| IDLE | LINK_ESTABLISHING | LINK_READY | REQUEST_SENT | RESPONSE_RECEIVED | RESOURCE_TRANSFERRING.

#[global] Instance peer_state_eq_dec : EqDecision PeerState.
Proof. solve_decision. Defined.

(** The limits and costs are the integers the peer announced. *)
Record LXMPeer := mkPeer {
  peerHash : bytes;
  alive : bool;
  lastHeard : Q;
  peeringKey : option (bytes * Z);
  peerCost : option Z;
  propagationStampCost : option Z;
  propagationStampCostFlexibility : option Z;
  propagationTransferLimit : option Z;
  propagationSyncLimit : option Z;
  link : bool;
  state : PeerState;
  lastOffer : list bytes;
  nextSyncAttempt : Q;
  syncBackoff : Z;
  offered : Z;
  outgoing : Z;
}.

Definition new_LXMPeer (h : bytes) : LXMPeer :=
  mkPeer h false 0 None None None None None None false IDLE [] 0 0 0 0.

Definition set_key (p : LXMPeer) (k : option (bytes * Z)) : LXMPeer :=
  mkPeer (peerHash p) (alive p) (lastHeard p) k (peerCost p) (propagationStampCost p)
    (propagationStampCostFlexibility p) (propagationTransferLimit p) (propagationSyncLimit p)
    (link p) (state p) (lastOffer p) (nextSyncAttempt p) (syncBackoff p) (offered p) (outgoing p).

Definition set_stage (p : LXMPeer) (l : bool) (st : PeerState) : LXMPeer :=
  mkPeer (peerHash p) (alive p) (lastHeard p) (peeringKey p) (peerCost p) (propagationStampCost p)
    (propagationStampCostFlexibility p) (propagationTransferLimit p) (propagationSyncLimit p)
    l st (lastOffer p) (nextSyncAttempt p) (syncBackoff p) (offered p) (outgoing p).

Definition set_backoff (p : LXMPeer) (next : Q) (backoff : Z) : LXMPeer :=
  mkPeer (peerHash p) (alive p) (lastHeard p) (peeringKey p) (peerCost p) (propagationStampCost p)
    (propagationStampCostFlexibility p) (propagationTransferLimit p) (propagationSyncLimit p)
    (link p) (state p) (lastOffer p) next backoff (offered p) (outgoing p).

Definition set_offer (p : LXMPeer) (ids : list bytes) : LXMPeer :=
  mkPeer (peerHash p) (alive p) (lastHeard p) (peeringKey p) (peerCost p) (propagationStampCost p)
    (propagationStampCostFlexibility p) (propagationTransferLimit p) (propagationSyncLimit p)
    (link p) (state p) ids (nextSyncAttempt p) (syncBackoff p) (offered p) (outgoing p).

Definition set_stats (p : LXMPeer) (al : bool) (heard : Q) (off out : Z) : LXMPeer :=
  mkPeer (peerHash p) al heard (peeringKey p) (peerCost p) (propagationStampCost p)
    (propagationStampCostFlexibility p) (propagationTransferLimit p) (propagationSyncLimit p)
    (link p) (state p) (lastOffer p) (nextSyncAttempt p) (syncBackoff p) off out.

Inductive peer_event :=
| CreateLink                        (* peerDest.createLink, identify *)
| OfferRequest (offer : value)      (* link.request("/offer", offer) *)
| TransferResource (data : bytes)   (* the container, advertised *)
| Teardown.                         (* link.teardown *)

(** The peering key is dropped when its value is below the cost. *)
Definition peeringKeyReady (p : LXMPeer) : LXMPeer * bool :=
  match peerCost p, peeringKey p with
  | Some cost, Some (_, v) => if cost <=? v then (p, true) else (set_key p None, false)
  | _, _ => (p, false)
  end.

(** [state = IDLE]; the teardown of a link that is there is an event. *)
Definition _teardown (p : LXMPeer) : LXMPeer * list peer_event :=
  (set_stage p false IDLE, if link p then [Teardown] else []).

(** The gates before the first await: [true] passes. *)
Definition sync_gate (now : Q) (p : LXMPeer) : bool :=
  Qle_bool (nextSyncAttempt p) now && bool_decide (state p = IDLE).

(** The ids of a message list that fit, and the store in which those that are
    too large count as handled. *)
Fixpoint build_offer (p : LXMPeer) (unhandled : list PropagationEntry) (cumulative : Z)
    (st : MessageStore) : MessageStore * list bytes :=
  match unhandled with
  | [] => (st, [])
  | u :: us =>
      let transferSize := size u + 16 in
      if match propagationTransferLimit p with Some l => l * 1000 <? transferSize | None => false end
      then build_offer p us cumulative (fst (markHandledForPeer (transientId u) (peerHash p) st))
      else if match propagationSyncLimit p with Some l => l * 1000 <=? cumulative + transferSize | None => false end
      then build_offer p us cumulative st
      else let '(st, ids) := build_offer p us (cumulative + transferSize) st in (st, transientId u :: ids)
  end.

Definition min_accepted (p : LXMPeer) : Z :=
  Z.max 0 (default 0 (propagationStampCost p) - default 0 (propagationStampCostFlexibility p)).

Definition sync_collect (now : Q) (p : LXMPeer) (st : MessageStore) : list PropagationEntry :=
  unhandledEntriesForPeer now (peerHash p) (min_accepted p) st.

(** Entering the guarded region: the attempt pre-arms the backoff. *)
Definition sync_connect (now : Q) (p : LXMPeer) : LXMPeer :=
  let b := syncBackoff p + SYNC_BACKOFF_STEP_SECS in
  set_backoff (set_stage p (link p) LINK_ESTABLISHING) (now + inject_Z b)%Q b.

(** The link is up and identified: the ids offered and the offer, if there is
    one. *)
Definition sync_linked (unhandled : list PropagationEntry) (p : LXMPeer) (st : MessageStore)
    : LXMPeer * MessageStore * list peer_event * result (option (list bytes * value)) :=
  let p := set_backoff (set_stage p true LINK_READY) 0 0 in
  let '(st, ids) := build_offer p unhandled 24 st in
  match ids, peeringKey p with
  | [], _ => let '(p, es) := _teardown p in (p, st, es, Ok None)
  | _, None => let '(p, es) := _teardown p in (p, st, es, Throw (TypeError "null is not an object"))
  | _, Some (key, _) =>
      let p := set_stage (set_offer p ids) true REQUEST_SENT in
      let offer := VArr [VBin key; VArr (map VBin ids)] in
      (p, st, [OfferRequest offer], Ok (Some (ids, offer)))
  end.

Definition mark_all_handled (ids : list bytes) (peer : bytes) (st : MessageStore) : MessageStore :=
  fold_left (fun st tid => fst (markHandledForPeer tid peer st)) ids st.

(** The store after it and what the peer wants. *)
Definition _interpretOfferResponse (response : value) (p : LXMPeer) (st : MessageStore)
    : MessageStore * result (list bytes) :=
  match response with
  | VBool false => (mark_all_handled (lastOffer p) (peerHash p) st, Ok [])
  | VBool true => (st, Ok (lastOffer p))
  | VArr l =>
      match mapM (fun v => match as_tid v with Ok b => Some b | Throw _ => None end) l with
      | None => (st, Throw (TypeError "toHex expects a Uint8Array"))
      | Some ids =>
          (mark_all_handled (filter (fun tid => toHex tid ∉ map toHex ids) (lastOffer p)) (peerHash p) st, Ok ids)
      end
  | _ => (st, Ok [])
  end.

(** The stamped blobs of the wanted messages that are still there. *)
Definition transfer_list (wanted : list bytes) (st : MessageStore) : list bytes :=
  omap (fun tid => (fun e => lxmfData e ++ stampData e) <$> get_message tid st) wanted.

(** After the transfer was proved. *)
Definition sync_transferred (now : Q) (wanted offeredIds : list bytes) (p : LXMPeer) (st : MessageStore)
    : LXMPeer * MessageStore * list peer_event :=
  let st := mark_all_handled wanted (peerHash p) st in
  let p := set_stats p true now (offered p + zlen offeredIds) (outgoing p + zlen wanted) in
  let '(p, es) := _teardown p in (p, st, es).

Section WithCrypto.
Context `{C : WebCrypto} `{H : JsHost}.
Variable clock : Q -> value.

(** [None]: the search for a stamp finds none among the draws. *)
Definition generatePeeringKey (draws : nat -> bytes) (fuel : nat) (peerIdentity : option Identity)
    (localHash : bytes) (p : LXMPeer) : option (LXMPeer * bool) :=
  match peerCost p, peeringKey p, peerIdentity with
  | None, _, _ => Some (p, false)
  | Some _, Some _, _ => Some (p, true)
  | Some _, None, None => Some (p, false)
  | Some cost, None, Some id =>
      match generateStamp draws fuel (identityHash id ++ localHash) cost WORKBLOCK_EXPAND_ROUNDS_PEERING with
      | Some (key, Some v) => Some (if cost <=? v then (set_key p (Some (key, v)), true) else (p, false))
      | _ => None
      end
  end.

(** The answer to the offer: the ids to transfer and the container, when the
    sync goes on; else it returned [false]. *)
Definition sync_response (now : Q) (response : value) (offeredIds : list bytes) (p : LXMPeer) (st : MessageStore)
    : LXMPeer * MessageStore * list peer_event * result (option (list bytes)) :=
  let fail (p : LXMPeer) (st : MessageStore) (e : error) :=
    let '(p, es) := _teardown p in (p, st, es, Throw e : result (option (list bytes))) in
  if match response with VInt n => n =? 246 | _ => false end then
    let '(p, es) := _teardown (set_backoff p (now + inject_Z PN_STAMP_THROTTLE_SECS)%Q (syncBackoff p)) in
    (p, st, es, Ok None)
  else
    let '(st, wanted) := _interpretOfferResponse response p st in
    match wanted with
    | Throw e => fail p st e
    | Ok [] =>
        let '(p, es) := _teardown (set_stats p (alive p) (lastHeard p) (offered p + zlen offeredIds) (outgoing p)) in
        (p, st, es, Ok None)
    | Ok wanted =>
        match packPropagationContainer (transfer_list wanted st) (clock now) with
        | Throw e => fail p st e
        | Ok container =>
            (set_stage p (link p) RESOURCE_TRANSFERRING, st, [TransferResource container], Ok (Some wanted))
        end
    end.

(** What an undisturbed pass meets at its awaits. *)
Record SyncAnswers := mkAnswers {
  key_draws : nat -> bytes;
  key_fuel : nat;
  recalled_identity : option Identity;
  link_made : result unit;                  (* createLink *)
  link_identified : result unit;            (* identify *)
  offer_response : value -> result value;
  transfer_done : bytes -> result unit;
}.

(** From the reply to the end of the pass; [es] are the events so far. *)
Definition sync_answered (now : Q) (a : SyncAnswers) (ids : list bytes) (response : value) (p : LXMPeer)
    (st : MessageStore) (es : list peer_event) : LXMPeer * MessageStore * list peer_event * result bool :=
  let '(p, st, es2, r) := sync_response now response ids p st in
  match r with
  | Throw e => (p, st, es ++ es2, Throw e)
  | Ok None => (p, st, es ++ es2, Ok false)
  | Ok (Some wanted) =>
      match transfer_done a (match es2 with [TransferResource d] => d | _ => [] end) with
      | Throw e => let '(p, es3) := _teardown p in (p, st, es ++ es2 ++ es3, Throw e)
      | Ok _ =>
          let '(p, st, es3) := sync_transferred now wanted ids p st in
          (p, st, es ++ es2 ++ es3, Ok true)
      end
  end.

(** [None]: the peering key is never found. *)
Definition sync (now : Q) (a : SyncAnswers) (localHash : bytes) (p : LXMPeer) (st : MessageStore)
    : option (LXMPeer * MessageStore * list peer_event * result bool) :=
  let abort (p : LXMPeer) (st : MessageStore) es (e : error) := let '(p, es2) := _teardown p in Some (p, st, es ++ es2, Throw e : result bool) in
  if negb (sync_gate now p) then Some (p, st, [], Ok false) else
  let '(p, ready) := peeringKeyReady p in
  match (if ready then Some (p, true)
         else match generatePeeringKey (key_draws a) (key_fuel a) (recalled_identity a) localHash p with
              | Some (p, true) => Some (peeringKeyReady p)
              | r => r
              end) with
  | None => None
  | Some (p, false) => Some (p, st, [], Ok false)
  | Some (p, true) =>
      match sync_collect now p st, recalled_identity a with
      | [], _ | _, None => Some (p, st, [], Ok false)
      | unhandled, Some _ =>
          let p := sync_connect now p in
          match link_made a, link_identified a with
          | Throw e, _ => abort p st [CreateLink] e
          | Ok _, Throw e => abort (set_stage p true LINK_ESTABLISHING) st [CreateLink] e
          | Ok _, Ok _ =>
              let '(p, st, es, r) := sync_linked unhandled p st in
              match r with
              | Throw e => Some (p, st, CreateLink :: es, Throw e)
              | Ok None => Some (p, st, CreateLink :: es, Ok false)
              | Ok (Some (ids, offer)) =>
                  match offer_response a offer with
                  | Throw e => abort p st (CreateLink :: es) e
                  | Ok response => Some (sync_answered now a ids response p st (CreateLink :: es))
                  end
              end
          end
      end
  end.

End WithCrypto.
