(* ===== verification/LxmfInbox.v ===== *)
(** * LxmfInbox: the receiving side of the LXMF router
    (packages/lxmf/src/router.js)

    Messages come over links, as single packets, from a propagation node and as
    paper URIs.  They are parked while the sender's identity is unknown,
    verified, and dispatched once.  [_processIncomingMessage] is cut at its
    awaits: [after_recall] runs when the identity was looked up, and
    [_dispatchMessage] when the signature was checked.

    What the transport recalls is an argument; [clock] is the JavaScript number
    of an instant.  A parked message keeps its buffer, which the code compares
    by reference: buffers are numbered. *)

From Stdlib Require Import QArith.
From S2P Require Import Prelude Encoding JsMap Utf8 MsgPack Packet Crypto Identity Destination.
From S2P Require Import LxmfMessage PropagationNode.
#[local] Open Scope Z_scope.

Definition DELIVERED_MESSAGE_CACHE_MAX : nat := 4096.
Definition MAX_PARKED_MESSAGES : nat := 128.
Definition DELIVERY_LIMIT : Z := 1000.
Definition ALL_MESSAGES : nat := 0.
Definition MESSAGE_GET_PATH : string := "/get".

Record Parked := mkParked {
  buffer : nat;
  wireData : bytes;
  linkId : option bytes;
  source : bytes;
}.

Record Inbox := mkInbox {
  pendingMessages : jsmap (list Parked);
  processedTransientIds : jsmap Q;
  _lastProcessedPrune : Q;
  locallyDeliveredMessageIds : jsmap Q;
}.

Definition new_Inbox : Inbox := mkInbox [] [] 0 [].

Definition set_pending (s : Inbox) (m : jsmap (list Parked)) : Inbox :=
  mkInbox m (processedTransientIds s) (_lastProcessedPrune s) (locallyDeliveredMessageIds s).
Definition set_seen (s : Inbox) (m : jsmap Q) (t : Q) : Inbox :=
  mkInbox (pendingMessages s) m t (locallyDeliveredMessageIds s).
Definition set_dispatched (s : Inbox) (m : jsmap Q) : Inbox :=
  mkInbox (pendingMessages s) (processedTransientIds s) (_lastProcessedPrune s) m.

Inductive inbox_event :=
| MessageEvent (m : Message) (link : option bytes)   (* the "message" event *)
| MarkContacted (hash : bytes)
| RequestPath (hash : bytes).

(** ** The caches *)

Definition hasMessage (messageId : bytes) (s : Inbox) : bool := has (toHex messageId) (locallyDeliveredMessageIds s).

(** The loop deletes the oldest keys until the size is within the bound. *)
Definition _rememberDelivered (now : Q) (messageIdHex : jsstr) (s : Inbox) : Inbox :=
  let m := mset messageIdHex now (locallyDeliveredMessageIds s) in
  set_dispatched s (drop (length m - DELIVERED_MESSAGE_CACHE_MAX) m).

Definition _pruneProcessedTransientIds (now : Q) (s : Inbox) : Inbox * nat :=
  let kept := prune_cache now (processedTransientIds s) in
  (set_seen s kept now, (length (processedTransientIds s) - length kept)%nat).

Definition _rememberProcessedTransientId (now : Q) (tidHex : jsstr) (s : Inbox) : Inbox :=
  let s := if Qle_bool (inject_Z PROCESSED_PRUNE_INTERVAL_SECS) (now - _lastProcessedPrune s)
           then fst (_pruneProcessedTransientIds now s) else s in
  set_seen s (mset tidHex now (processedTransientIds s)) (_lastProcessedPrune s).

Definition Inbox_tickMaintenance (now : Q) (s : Inbox) : Inbox * nat := _pruneProcessedTransientIds now s.

(** ** Parking *)

Definition _pendingMessageKey (link : option bytes) : jsstr :=
  match link with Some l => toHex l | None => lit "opportunistic" end.

(** The loop of [_capParkedMessages] from one bucket on. *)
Fixpoint cap_buckets (bs : jsmap (list Parked)) (total : nat) : jsmap (list Parked) :=
  match bs with
  | [] => []
  | (key, bucket) :: bs =>
      let n := (length bucket `min` (total - MAX_PARKED_MESSAGES))%nat in
      let bucket := drop n bucket in
      let total := (total - n)%nat in
      let rest := if (total <=? MAX_PARKED_MESSAGES)%nat then bs else cap_buckets bs total in
      match bucket with [] => rest | _ => (key, bucket) :: rest end
  end.

Definition parked_total (m : jsmap (list Parked)) : nat := length (concat (values m)).

Definition _capParkedMessages (s : Inbox) : Inbox :=
  set_pending s (cap_buckets (pendingMessages s) (parked_total (pendingMessages s))).

(** Parking a message: whether its sender has none parked there yet. *)
Definition park (p : Parked) (s : Inbox) : Inbox * bool :=
  let key := _pendingMessageKey (linkId p) in
  let bucket := default [] (get key (pendingMessages s)) in
  let alreadyParked := existsb (fun e => bool_decide (toHex (source e) = toHex (source p))) bucket in
  (_capParkedMessages (set_pending s (mset key (bucket ++ [p]) (pendingMessages s))), negb alreadyParked).

(** Taking a message's own entry out of its bucket. *)
Definition unpark (p : Parked) (s : Inbox) : Inbox :=
  let key := _pendingMessageKey (linkId p) in
  match get key (pendingMessages s) with
  | None => s
  | Some bucket =>
      match list_find (fun e => buffer e = buffer p) bucket with
      | None => s
      | Some (i, _) =>
          match delete i bucket with
          | [] => set_pending s (mdelete key (pendingMessages s))
          | bucket => set_pending s (mset key bucket (pendingMessages s))
          end
      end
  end.

(** The bucket of a link is dropped when the link closes. *)
Definition link_closed (link : bytes) (s : Inbox) : Inbox :=
  set_pending s (mdelete (toHex link) (pendingMessages s)).

Section WithCrypto.
Context `{C : WebCrypto} `{H : JsHost}.
Variable clock : Q -> value.

(** ** Dispatching *)

(** From the check of the cache on; the id of a deserialized message is
    always there. *)
Definition dispatch_new (now : Q) (m : Message) (link : option bytes) (s : Inbox) : Inbox * list inbox_event * bool :=
  match messageId m with
  | Some ((_ :: _) as id) =>
      if hasMessage id s then (s, [], false)
      else (_rememberDelivered now (toHex id) s, [MessageEvent m link], true)
  | _ => (s, [MessageEvent m link], true)
  end.

Definition _dispatchMessage (now : Q) (m : Message) (link : option bytes) (sender : option Identity) (s : Inbox)
    : Inbox * list inbox_event * dec bool :=
  let go := let '(s, es, b) := dispatch_new now m link s in (s, es, dret b) in
  match sender with
  | None => go
  | Some id =>
      match verifySignature id m with
      | Some (Ok true) => go
      | Some (Ok false) => (s, [], dthrow (JsError "Invalid LXMF message signature: Cryptographic proof failed."))
      | Some (Throw e) => (s, [], dthrow e)
      | None => (s, [], None)
      end
  end.

(** ** Incoming messages *)

(** The message of a buffer, read before the first await. *)
Definition incoming (now : Q) (wire expected : bytes) : dec Message :=
  if (length wire <? 80)%nat then dthrow (JsError "LXMF message too short to contain required headers")
  else deserialize (clock now) wire (Some expected).

Definition source_of (m : Message) : bytes := default [] (sourceHash m).

(** Once the identity was looked up: what is still to be verified, if anything. *)
Definition after_recall (m : Message) (sender : option Identity) (buf : nat) (wire : bytes) (link : option bytes)
    (s : Inbox) : Inbox * list inbox_event * option Identity :=
  let p := mkParked buf wire link (source_of m) in
  match sender with
  | None => let '(s, first) := park p s in (s, if first then [RequestPath (source_of m)] else [], None)
  | Some id => (unpark p s, [], Some id)
  end.

(** Once the signature was checked. *)
Definition after_verify (now : Q) (m : Message) (link : option bytes) (ok : bool) (s : Inbox)
    : Inbox * list inbox_event * result unit :=
  if negb ok then (s, [], Throw (JsError "Invalid LXMF message signature: Cryptographic proof failed."))
  else let '(s, es, _) := dispatch_new now m link s in (s, MarkContacted (source_of m) :: es, Ok tt).

Definition _processIncomingMessage (now : Q) (recall : bytes -> option Identity) (buf : nat) (wire : bytes)
    (link : option bytes) (expected : bytes) (s : Inbox) : Inbox * list inbox_event * dec unit :=
  match incoming now wire expected with
  | None => (s, [], None)
  | Some (Throw e) => (s, [], dthrow e)
  | Some (Ok m) =>
      let '(s, es, sender) := after_recall m (recall (source_of m)) buf wire link s in
      match sender with
      | None => (s, es, dret tt)
      | Some id =>
          match verifySignature id m with
          | None => (s, es, None)
          | Some (Throw e) => (s, es, dthrow e)
          | Some (Ok ok) =>
              let '(s, es2, r) := after_verify now m link ok s in (s, es ++ es2, Some r)
          end
      end
  end.

(** The loop over messages taken out of their buckets: a failure is logged and
    the next one follows. *)
Fixpoint reprocess (now : Q) (recall : bytes -> option Identity) (expected : bytes) (entries : list Parked) (s : Inbox)
    : Inbox * list inbox_event :=
  match entries with
  | [] => (s, [])
  | p :: entries =>
      let '(s, es, _) := _processIncomingMessage now recall (buffer p) (wireData p) (linkId p) expected s in
      let '(s, es2) := reprocess now recall expected entries s in
      (s, es ++ es2)
  end.

Definition processPendingMessages (now : Q) (recall : bytes -> option Identity) (expected : bytes)
    (link : option bytes) (s : Inbox) : Inbox * list inbox_event :=
  let key := _pendingMessageKey link in
  match get key (pendingMessages s) with
  | None | Some [] => (s, [])
  | Some bucket => reprocess now recall expected bucket (set_pending s (mdelete key (pendingMessages s)))
  end.

Definition processAllPendingMessages (now : Q) (recall : bytes -> option Identity) (expected : bytes) (s : Inbox)
    : Inbox * list inbox_event :=
  match pendingMessages s with
  | [] => (s, [])
  | m => reprocess now recall expected (concat (values m)) (set_pending s [])
  end.

(** ** From a propagation node *)

Definition _ingestPropagationData (now : Q) (recall : bytes -> option Identity) (delivery : Destination)
    (lxmfData : bytes) (s : Inbox) : Inbox * list inbox_event * dec bool :=
  match Destination.destinationHash delivery with
  | None => (s, [], dret false)
  | Some h =>
      if negb (bool_decide (toHex (take 16 lxmfData) = toHex h)) then (s, [], dret false) else
      match fromPropagationData (clock now) lxmfData delivery with
      | None => (s, [], None)
      | Some (Throw e) => (s, [], dthrow e)
      | Some (Ok None) => (s, [], dret false)
      | Some (Ok (Some m)) => _dispatchMessage now m None (recall (source_of m)) s
      end
  end.

Definition is_peer_error (v : value) : bool := match v with VInt n => 240 <=? n | _ => false end.

(** What is listed: the ids to fetch and those that are only acknowledged.  A
    float in place of an error code is not one of the codes. *)
Fixpoint split_list (list_ : list value) (maxMessages : nat) (wants haves : list bytes) (s : Inbox)
    : result (list bytes * list bytes) :=
  match list_ with
  | [] => Ok (wants, haves)
  | v :: list_ =>
      let! tid := as_tid v in
      if has (toHex tid) (processedTransientIds s) then split_list list_ maxMessages wants (haves ++ [tid]) s
      else if (maxMessages =? ALL_MESSAGES)%nat || (length wants <? maxMessages)%nat
      then split_list list_ maxMessages (wants ++ [tid]) haves s
      else split_list list_ maxMessages wants haves s
  end.

(** Decrypting and dispatching what was fetched: the ids to acknowledge and the
    number of messages dispatched. *)
Fixpoint receive_all (now : Q) (recall : bytes -> option Identity) (delivery : Destination) (messages : list value)
    (ids : list bytes) (received : nat) (s : Inbox) : Inbox * list inbox_event * dec (list bytes * nat) :=
  match messages with
  | [] => (s, [], dret (ids, received))
  | v :: messages =>
      match as_tid v with
      | Throw e => (s, [], dthrow e)
      | Ok d =>
          let tid := transientIdFromPropagationData d in
          if has (toHex tid) (processedTransientIds s)
          then receive_all now recall delivery messages ids received s
          else
            let '(s, es, r) := _ingestPropagationData now recall delivery d s in
            match r with
            | None => (s, es, None)
            | Some (Throw e) => (s, es, dthrow e)
            | Some (Ok dispatched) =>
                let s := _rememberProcessedTransientId now (toHex tid) s in
                let '(s, es2, r) := receive_all now recall delivery messages (ids ++ [tid])
                                      (if dispatched then S received else received) s in
                (s, es ++ es2, r)
            end
      end
  end.

(** [syncFromPropagationNode]; [N] is the state of the other end of the link and
    [request] one /get request and its answer. *)
Definition syncFromPropagationNode {N} (request : N -> value -> N * result value) (now : Q)
    (recall : bytes -> option Identity) (delivery : Destination) (maxMessages : nat) (limitKb : Z) (node : N) (s : Inbox)
    : N * Inbox * list inbox_event * dec (nat * nat) :=
  let fail e := dthrow (A := nat * nat) e in
  let peer_error := fail (JsError "Propagation node returned error code") in
  let '(node, r) := request node (VArr [VNull; VNull]) in
  match r with
  | Throw e => (node, s, [], fail e)
  | Ok listed =>
      if is_peer_error listed then (node, s, [], peer_error) else
      match listed with
      | VArr l =>
          match split_list l maxMessages [] [] s with
          | Throw e => (node, s, [], fail e)
          | Ok ([], []) => (node, s, [], dret (0%nat, 0%nat))
          | Ok (wants, haves) =>
              let '(node, r) := request node (VArr [VArr (map VBin wants); VArr (map VBin haves); VInt limitKb]) in
              match r with
              | Throw e => (node, s, [], fail e)
              | Ok fetched =>
                  if is_peer_error fetched then (node, s, [], peer_error) else
                  match fetched with
                  | VArr messages =>
                      let '(s, es, r) := receive_all now recall delivery messages [] 0 s in
                      match r with
                      | None => (node, s, es, None)
                      | Some (Throw e) => (node, s, es, fail e)
                      | Some (Ok ([], received)) => (node, s, es, dret (received, (length messages - received)%nat))
                      | Some (Ok (ids, received)) =>
                          let '(node, r) := request node (VArr [VNull; VArr (map VBin ids)]) in
                          (node, s, es,
                           match r with
                           | Throw e => fail e
                           | Ok _ => dret (received, (length messages - received)%nat)
                           end)
                      end
                  | _ => (node, s, [], fail (JsError "Invalid message data from propagation node"))
                  end
              end
          end
      | _ => (node, s, [], fail (JsError "Invalid message list from propagation node"))
      end
  end.

(** ** Paper messages *)

Definition ingestUri (now : Q) (recall : bytes -> option Identity) (delivery : Destination) (uri : jsstr) (s : Inbox)
    : Inbox * list inbox_event * dec (option Message) :=
  match paperDataFromUri uri with
  | Throw e => (s, [], dthrow e)
  | Ok d =>
      let key := toHex (transientIdFromPropagationData d) in
      if has key (processedTransientIds s) then (s, [], dret None) else
      let s := _rememberProcessedTransientId now key s in
      match fromPropagationData (clock now) d delivery with
      | None => (s, [], None)
      | Some (Throw e) => (s, [], dthrow e)
      | Some (Ok None) => (s, [], dret None)
      | Some (Ok (Some m)) =>
          let '(s, es, r) := _dispatchMessage now m None (recall (source_of m)) s in
          (s, es, dbind r (fun _ => dret (Some m)))
      end
  end.

End WithCrypto.
