(* ===== verification/LxmfRouter.v ===== *)
(** * LxmfRouter: the peers of a node, and submissions to one
    (packages/lxmf/src/router.js)

    The peer table with its cap, rotation and culling, the queueing of stored
    messages for every peer, the passes of [syncPeers], the transfers a node
    accepts on its links, and the packing of a message for a node.

    Acceptance rates are compared as rationals, not as their nearest doubles.
    The message store is there when the router is a propagation node. *)

From Stdlib Require Import QArith.
From S2P Require Import Prelude Encoding JsMap Utf8 MsgPack Packet Crypto Identity Destination.
From S2P Require Import Stamper Sorting LxmfMessage MessageStore AnnounceData PropagationNode Peer.
#[local] Open Scope Z_scope.

Definition MAX_PEERING_COST : Z := 26.
Definition MAX_PEERS : Z := 20.
Definition AUTOPEER_MAXDEPTH : Z := 4.
Definition ROTATION_HEADROOM_PCT : Z := 10.
Definition ROTATION_AR_MAX : Q := 1 # 2.
Definition PEER_MAX_UNREACHABLE_SECS : Z := 14 * 24 * 60 * 60.

(** ** The table *)

Record PeerTable := mkTable {
  peers : jsmap LXMPeer;
  maxPeers : Z;
  staticPeers : list jsstr;
  autopeerEnabled : bool;
  autopeerMaxPeeringCost : Z;
  autopeerMaxDepth : Z;
}.

Definition new_PeerTable : PeerTable := mkTable [] MAX_PEERS [] false MAX_PEERING_COST AUTOPEER_MAXDEPTH.

Definition with_peers (t : PeerTable) (m : jsmap LXMPeer) : PeerTable :=
  mkTable m (maxPeers t) (staticPeers t) (autopeerEnabled t) (autopeerMaxPeeringCost t) (autopeerMaxDepth t).

Definition enableAutopeer (maxPeeringCost : Z) (maxP maxDepth : option Z) (static : list bytes) (t : PeerTable)
    : PeerTable :=
  mkTable (peers t) (default (maxPeers t) maxP)
    (fold_left (fun acc h => set_add (toHex h) acc) static (staticPeers t))
    true maxPeeringCost (default (autopeerMaxDepth t) maxDepth).

(** The limits and costs a peering is made with. *)
Record PeerConfig := mkPeerConfig {
  cf_stampCost : Z;
  cf_flexibility : Z;
  cf_peeringCost : Z;
  cf_perTransfer : option Z;
  cf_perSync : option Z;
}.

(** A peer with what it announced; a key that is not good enough is dropped. *)
Definition configured (now : Q) (cfg : PeerConfig) (p : LXMPeer) : LXMPeer :=
  let p := mkPeer (peerHash p) true now (peeringKey p) (Some (cf_peeringCost cfg)) (Some (cf_stampCost cfg))
    (Some (cf_flexibility cfg)) (cf_perTransfer cfg)
    (match cf_perSync cfg with Some l => Some l | None => cf_perTransfer cfg end)
    (link p) (state p) (lastOffer p) (nextSyncAttempt p) (syncBackoff p) (offered p) (outgoing p) in
  let '(p, ready) := peeringKeyReady p in
  if ready then p else set_key p None.

Definition unpeer (h : bytes) (t : PeerTable) : PeerTable := with_peers t (mdelete (toHex h) (peers t)).

(** Whether there is a peer afterwards; a new one is owed everything stored. *)
Definition peer (now : Q) (h : bytes) (cfg : PeerConfig) (t : PeerTable) (st : option MessageStore)
    : PeerTable * option MessageStore * bool :=
  if MAX_PEERING_COST <? cf_peeringCost cfg then (unpeer h t, st, false) else
  match get (toHex h) (peers t) with
  | Some p => (with_peers t (mset (toHex h) (configured now cfg p) (peers t)), st, true)
  | None =>
      if maxPeers t <=? zlen (peers t) then (t, st, false)
      else (with_peers t (mset (toHex h) (configured now cfg (new_LXMPeer h)) (peers t)),
            (fun s => fst (markAllUnhandledForPeer h s)) <$> st, true)
  end.

(** The numbers of an announce; a fraction is left out. *)
Definition int_of (v : value) : option Z := match v with VInt n => Some n | _ => None end.

Definition announced_config (pn : PropagationNodeAppData) : option PeerConfig :=
  match int_of (nodeStampCost pn), int_of (nodeStampCostFlexibility pn), int_of (nodePeeringCost pn),
        int_of (perTransferLimitKb pn), int_of (perSyncLimitKb pn) with
  | Some c, Some f, Some p, Some tl, Some sl => Some (mkPeerConfig c f p (Some tl) (Some sl))
  | _, _, _, _, _ => None
  end.

(** What the announce listener does about peering; [None]: left out. *)
Definition heard_announce `{JsHost} (now : Q) (h : bytes) (hops : Z) (appData : option bytes) (t : PeerTable)
    (st : option MessageStore) : option (PeerTable * option MessageStore) :=
  match st with
  | None => Some (t, st)
  | Some _ =>
      if negb (autopeerEnabled t) then Some (t, st) else
      match parsePropagationNodeAppData appData with
      | None => Some (t, st)
      | Some pn =>
          if negb (nodeState pn && (hops <=? autopeerMaxDepth t)) then Some (t, st) else
          match announced_config pn with
          | None => None
          | Some cfg =>
              if (cf_peeringCost cfg <=? autopeerMaxPeeringCost t) && negb (has (toHex h) (peers t))
              then let '(t, st, _) := peer now h cfg t st in Some (t, st)
              else Some (t, st)
          end
      end
  end.

(** ** Culling and rotation *)

Definition unreachable (now : Q) (t : PeerTable) (kp : jsstr * LXMPeer) : bool :=
  bool_decide (fst kp ∉ staticPeers t)
  && negb (Qle_bool now (lastHeard (snd kp) + inject_Z PEER_MAX_UNREACHABLE_SECS)).

Definition cull (now : Q) (t : PeerTable) : PeerTable :=
  fold_left (fun t' kp => if unreachable now t kp then unpeer (peerHash (snd kp)) t' else t') (peers t) t.

Definition acceptanceRate (p : LXMPeer) : Q :=
  if offered p =? 0 then 0%Q else inject_Z (outgoing p) / inject_Z (offered p).

Definition rotatable (t : PeerTable) (kp : jsstr * LXMPeer) : bool :=
  bool_decide (fst kp ∉ staticPeers t) && bool_decide (state (snd kp) = IDLE).

(** Those that may be dropped: the unresponsive, then those that were offered
    something. *)
Definition drop_pool (t : PeerTable) : list LXMPeer :=
  let candidates := map snd (filter (fun kp => rotatable t kp = true) (peers t)) in
  filter (fun p => alive p = false) candidates
  ++ filter (fun p => alive p = true /\ 0 < offered p) candidates.

Fixpoint drop_peers (sorted : list LXMPeer) (dropped required : Z) (t : PeerTable) : PeerTable * Z :=
  match sorted with
  | [] => (t, dropped)
  | p :: sorted =>
      if required <=? dropped then (t, dropped)
      else if Qle_bool ROTATION_AR_MAX (acceptanceRate p) then (t, dropped)
      else drop_peers sorted (dropped + 1) required (unpeer (peerHash p) t)
  end.

Definition headroom (t : PeerTable) : Z := Z.max 1 (maxPeers t * ROTATION_HEADROOM_PCT / 100).

Definition rotatePeers (t : PeerTable) : PeerTable * Z :=
  if zlen (peers t) <=? maxPeers t then (t, 0) else
  let required := zlen (peers t) - (maxPeers t - headroom t) in
  if zlen (peers t) - required <=? 1 then (t, 0) else
  drop_peers (js_sort (fun a b => negb (Qle_bool (acceptanceRate b) (acceptanceRate a))) (drop_pool t)) 0 required t.

(** What a pass of [syncPeers] does to the table before it syncs. *)
Definition sync_maintenance (now : Q) (t : PeerTable) : PeerTable := fst (rotatePeers (cull now t)).

(** ** Distribution *)

Definition mark_for_peers (tid : bytes) (ps : list LXMPeer) (st : MessageStore) : MessageStore :=
  fold_left (fun st p => fst (markUnhandledForPeer tid (peerHash p) st)) ps st.

Definition _distributeStored (storedIds : list bytes) (t : PeerTable) (st : MessageStore) : MessageStore :=
  fold_left (fun st tid => mark_for_peers tid (values (peers t)) st) storedIds st.

Section WithCrypto.
Context `{C : WebCrypto} `{H : JsHost}.
Variable clock : Q -> value.

(** The loop of [syncPeers] over an undisturbed pass: a failed sync is logged
    and the next peer follows; [None] when a peering key is never found. *)
Fixpoint sync_each (ks : list jsstr) (answers : jsstr -> Q * SyncAnswers) (localHash : bytes) (t : PeerTable)
    (st : MessageStore) : option (PeerTable * MessageStore * list peer_event) :=
  match ks with
  | [] => Some (t, st, [])
  | k :: ks =>
      match get k (peers t) with
      | None => sync_each ks answers localHash t st
      | Some p =>
          let '(now, a) := answers k in
          match sync clock now a localHash p st with
          | None => None
          | Some (p, st, es, _) =>
              match sync_each ks answers localHash (with_peers t (mset k p (peers t))) st with
              | None => None
              | Some (t, st, es2) => Some (t, st, es ++ es2)
              end
          end
      end
  end.

Definition syncPeers (now : Q) (answers : jsstr -> Q * SyncAnswers) (localHash : bytes) (running : bool)
    (t : PeerTable) (st : MessageStore) : option (PeerTable * MessageStore * list peer_event) :=
  if running then Some (t, st, []) else
  let t := sync_maintenance now t in
  sync_each (keys (peers t)) answers localHash t st.

(** ** Transfers to this node *)

(** A resource arrives on a link to the propagation destination; it counts as
    an inbound sync when the link was flagged by an accepted offer. *)
Definition transfer_begins (now : Q) (flagged : bool) (resourceHash : bytes) (s : PropagationNode) : PropagationNode :=
  if flagged then beginInboundSync now (toHex resourceHash) s else s.

Definition as_blobs (l : list value) : option (list bytes) :=
  mapM (fun v => match v with VBin b => Some b | _ => None end) l.

(** The transfer is complete: whether the link is torn down.  [counted] is
    whether it counts as an inbound sync, [flagged] whether the link is flagged
    now.  Elements that are not byte strings are left out. *)
Definition transfer_complete (c : NodeConfig) (app : Application) (now : Q) (counted flagged : bool)
    (resourceHash : bytes) (remote : option Identity) (data : bytes) (s : PropagationNode)
    : PropagationNode * list node_event * option bool :=
  let finish (s : PropagationNode) := if counted then endInboundSync (toHex resourceHash) s else s in
  match unpackPropagationContainer data with
  | None => (finish s, [], Some false)
  | Some ct =>
      match as_blobs (messages ct) with
      | None => (s, [], None)
      | Some l =>
          let '(s, es, r) := ingestBlobs clock c app now l (if flagged then PeerSync else Submission) s in
          match r with
          | None => (s, es, None)
          | Some (Throw _) => (finish s, es, Some false)
          | Some (Ok n) =>
              match remote with
              | Some id =>
                  if (0 <? rejected n)%nat && counted then
                    match lxmf_hash ".propagation" id with
                    | Some h => (finish (throttlePeer c now (toHex h) s), es, Some true)
                    | None => (finish s, es, Some false)
                    end
                  else (finish s, es, Some false)
              | None => (finish s, es, Some false)
              end
          end
      end
  end.

(** ** Submitting to a node *)

(** The cost of the stamp: what the caller asks for, what the node announced,
    or the default. *)
Definition submit_cost (asked : option Z) (node : option Identity) : option Z :=
  match asked with
  | Some c => Some c
  | None =>
      match node with
      | None => Some PROPAGATION_COST
      | Some id =>
          match parsePropagationNodeAppData (Some (id_appData id)) with
          | None => Some PROPAGATION_COST
          | Some pn => int_of (nodeStampCost pn)
          end
      end
  end.

(** [None]: no stamp is found among the first [fuel] draws, or its value never
    comes. *)
Definition propagation_stamp (draws : nat -> bytes) (fuel : nat) (tid : bytes) (cost : Z) : option bytes :=
  if 0 <? cost then
    match generateStamp draws fuel tid cost WORKBLOCK_EXPAND_ROUNDS_PN with
    | Some (stamp, Some _) => Some stamp
    | _ => None
    end
  else Some (replicate STAMP_SIZE 0).

(** The message after it, the container and the transient id. *)
Definition _packForPropagationSubmit (now : Z) (eph iv : bytes) (known : option (jsmap KnownRatchet))
    (draws : nat -> bytes) (fuel : nat) (sendTime : value) (sender : Identity) (recipient : option Identity)
    (m : Message) (cost : Z) : dec (Message * bytes * bytes) :=
  match recipient with
  | None => dthrow (JsError "Unknown identity")
  | Some rid =>
      let out := create (lit "lxmf.delivery") OUT DestType_SINGLE (Some rid) None in
      dbind (toPropagationData now eph iv known sender out m) (fun '(m, lxmfData, tid, _) =>
      match propagation_stamp draws fuel tid cost with
      | None => None
      | Some stamp =>
          dbind (lift_dec (packPropagationContainer [lxmfData ++ stamp] sendTime)) (fun container =>
          dret (m, container, tid))
      end)
  end.

End WithCrypto.
