(* ===== verification/LxmfSend.v ===== *)
(** * LxmfSend: sending LXMF messages (packages/lxmf/src/router.js)

    [send] tries a link, then a single packet, then the propagation node.  What
    the transport, the links and the node answer at its awaits is an argument
    ([SendAnswers]); what is handed to them is recorded as events.  A link is
    named by its id. *)

From S2P Require Import Prelude Encoding JsMap Utf8 MsgPack Packet Crypto Identity Destination.
From S2P Require Import LxmfMessage LxmfMessageSpec MessageStore.
#[local] Open Scope Z_scope.

Record LinkInfo := mkLinkInfo { initiator : bool; mdu : nat }.

Inductive Fallback := FallbackOpportunistic | FallbackPropagation | FallbackNone.

#[global] Instance fallback_eq_dec : EqDecision Fallback.
Proof. solve_decision. Defined.

Record SendOptions := mkOptions { opt_linkId : option bytes; opt_fallback : Fallback; opt_solicit : bool }.

(** The router's memory of its outbound links. *)
Record Outbound := mkOutbound {
  directLinks : jsmap bytes;
  identifiedLinks : list jsstr;
  attachedLinks : list jsstr;
  outboundPropagationNode : option bytes;
}.

Definition with_direct (s : Outbound) (m : jsmap bytes) : Outbound :=
  mkOutbound m (identifiedLinks s) (attachedLinks s) (outboundPropagationNode s).
Definition with_identified (s : Outbound) (l : list jsstr) : Outbound :=
  mkOutbound (directLinks s) l (attachedLinks s) (outboundPropagationNode s).
Definition with_attached (s : Outbound) (l : list jsstr) : Outbound :=
  mkOutbound (directLinks s) (identifiedLinks s) l (outboundPropagationNode s).

Inductive send_event :=
| InitiateLink (dst : bytes)                          (* Link.initiate *)
| ExpireRoute (dst : bytes)                           (* expireRoute, requestPathAuto *)
| AttachListeners (link : bytes)                      (* _attachLinkMessageListeners *)
| IdentifyOn (link : bytes)                           (* link.identify *)
| LinkResource (link data : bytes)                    (* the resource, advertised *)
| LinkPacket (link dst data : bytes)                  (* sendPacket on the link *)
| OpportunisticPacket (dst payload : bytes)           (* peerDestination.send *)
| SubmitToNode.                                       (* submitToPropagationNode *)

#[global] Instance send_event_eq_dec : EqDecision send_event.
Proof. solve_decision. Defined.

Record SendAnswers := mkSendAnswers {
  link_active : bytes -> bool;                  (* the cached link is ACTIVE *)
  recalled : option Identity;                   (* recallIdentity *)
  solicited : option Identity;                  (* recallOrSolicitIdentity; none when it fails *)
  initiated : result bytes;                     (* the link, once it is ACTIVE *)
  activeLinks : jsmap LinkInfo;                 (* the transport's links *)
  becomes_active : result unit;                 (* whenActive *)
  identified : result unit;
  resource_done : result unit;                  (* _awaitOutgoingResource *)
  packet_sent : result unit;
  recalled_later : option Identity;             (* the same two, for the single packet *)
  solicited_later : option Identity;
  receipt : result (option bool);               (* whether its receipt, if there is one, was DELIVERED *)
  submitted : result unit;
}.

Definition peer_identity (solicit : bool) (known asked : option Identity) : option Identity :=
  match known with
  | Some id => Some id
  | None => if solicit then asked else None
  end.

(** The links it made or found, without the wait for a path, which decides
    nothing. *)
Definition _establishDirectLink (a : SendAnswers) (solicit : bool) (dst : bytes) (s : Outbound)
    : Outbound * list send_event * option bytes :=
  let key := toHex dst in
  let establish :=
    let s := with_direct s (mdelete key (directLinks s)) in
    match peer_identity solicit (recalled a) (solicited a) with
    | None => (s, [], None)
    | Some _ =>
        match initiated a with
        | Ok l => (with_direct s (mset key l (directLinks s)), [InitiateLink dst], Some l)
        | Throw _ => (s, [InitiateLink dst; ExpireRoute dst], None)
        end
    end in
  match get key (directLinks s) with
  | Some l => if link_active a l then (s, [], Some l) else establish
  | None => establish
  end.

(** A link to [dst] that this router made closes. *)
Definition link_down (dst link : bytes) (s : Outbound) : Outbound :=
  let m := match get (toHex dst) (directLinks s) with
           | Some l => if bool_decide (l = link) then mdelete (toHex dst) (directLinks s) else directLinks s
           | None => directLinks s
           end in
  mkOutbound m (set_delete (toHex link) (identifiedLinks s)) (set_delete (toHex link) (attachedLinks s))
    (outboundPropagationNode s).

Definition _sendOverLink (a : SendAnswers) (link dst wire : bytes) (s : Outbound)
    : Outbound * list send_event * result unit :=
  let key := toHex link in
  let transmit (s : Outbound) (es : list send_event) :=
    match get key (activeLinks a) with
    | Some info =>
        if (mdu info <? length wire)%nat then (s, es ++ [LinkResource link wire], resource_done a)
        else (s, es ++ [LinkPacket link dst wire], packet_sent a)
    | None => (s, es, Ok tt)
    end in
  match get key (activeLinks a) with
  | None => (s, [], Throw (JsError "Link is not active in transport"))
  | Some info =>
      match becomes_active a with
      | Throw e => (s, [], Throw e)
      | Ok _ =>
          if initiator info && negb (bool_decide (key ∈ identifiedLinks s)) then
            match identified a with
            | Throw e => (s, [IdentifyOn link], Throw e)
            | Ok _ => transmit (with_identified s (set_add key (identifiedLinks s))) [IdentifyOn link]
            end
          else transmit s []
      end
  end.

Definition _sendOpportunistic (a : SendAnswers) (solicit : bool) (dst wire : bytes) : list send_event * result unit :=
  match peer_identity solicit (recalled_later a) (solicited_later a) with
  | None => ([], Throw (JsError "Unknown identity"))
  | Some _ =>
      ([OpportunisticPacket dst (drop DESTINATION_LENGTH wire)],
       match receipt a with
       | Throw e => Throw e
       | Ok (Some false) => Throw (JsError "Opportunistic delivery failed: no delivery proof was received")
       | Ok _ => Ok tt
       end)
  end.

(** The link a message goes over, given or made, with the listeners attached
    to a made one. *)
Definition target_link (a : SendAnswers) (o : SendOptions) (dst : bytes) (s : Outbound)
    : Outbound * list send_event * option bytes :=
  match opt_linkId o with
  | Some l => (s, [], Some l)
  | None =>
      let '(s, es, l) := _establishDirectLink a (opt_solicit o) dst s in
      match l with
      | Some l =>
          if bool_decide (toHex l ∈ attachedLinks s) then (s, es, Some l)
          else (with_attached s (set_add (toHex l) (attachedLinks s)), es ++ [AttachListeners l], Some l)
      | None => (s, es, None)
      end
  end.

(** What follows when no link delivered the message. *)
Definition fall_back (a : SendAnswers) (o : SendOptions) (dst wire : bytes) (linkError : option error) (s : Outbound)
    : list send_event * result unit :=
  match opt_fallback o with
  | FallbackNone => ([], Throw (default (JsError "Cannot deliver: direct link delivery failed") linkError))
  | f =>
      let '(es, r) := _sendOpportunistic a (opt_solicit o) dst wire in
      match r with
      | Ok _ => (es, Ok tt)
      | Throw e =>
          if bool_decide (f = FallbackPropagation) then
            match outboundPropagationNode s with
            | Some _ => (es ++ [SubmitToNode], submitted a)
            | None => (es, Throw (JsError "Cannot deliver: no outbound propagation node is configured"))
            end
          else (es, Throw e)
      end
  end.

Definition send_wire (a : SendAnswers) (o : SendOptions) (dst wire : bytes) (s : Outbound)
    : Outbound * list send_event * result unit :=
  let '(s, es, l) := target_link a o dst s in
  match l with
  | None => let '(es2, r) := fall_back a o dst wire None s in (s, es ++ es2, r)
  | Some l =>
      let '(s, es1, r) := _sendOverLink a l dst wire s in
      match r with
      | Ok _ => (s, es ++ es1, Ok tt)
      | Throw e => let '(es2, r) := fall_back a o dst wire (Some e) s in (s, es ++ es1 ++ es2, r)
      end
  end.

Definition send `{WebCrypto} `{JsHost} (a : SendAnswers) (o : SendOptions) (sender : Identity) (m : Message)
    (s : Outbound) : Outbound * list send_event * dec unit :=
  match serialize sender m with
  | None => (s, [], None)
  | Some (Throw e) => (s, [], dthrow e)
  | Some (Ok (_, _, wire)) => let '(s, es, r) := send_wire a o (LxmfMessage.destinationHash m) wire s in (s, es, Some r)
  end.

(** ** Outcomes *)

(** The attempt was confirmed: by the proof of the resource, by the transport
    taking the packet of a link, by the receipt of a single packet, by the node. *)
Definition confirmed (a : SendAnswers) (e : send_event) : Prop :=
  match e with
  | LinkResource _ _ => resource_done a = Ok tt
  | LinkPacket _ _ _ => packet_sent a = Ok tt
  | OpportunisticPacket _ _ => receipt a = Ok None \/ receipt a = Ok (Some true)
  | SubmitToNode => submitted a = Ok tt
  | _ => False
  end.

(** Nothing confirmed among the events; or the last one only. *)
Definition settles (a : SendAnswers) (es : list send_event) (r : result unit) : Prop :=
  match r with
  | Ok _ => exists pre e, es = pre ++ [e] /\ confirmed a e /\ Forall (fun e => ~ confirmed a e) pre
  | Throw _ => Forall (fun e => ~ confirmed a e) es
  end.

Lemma settles_app a pre es r : Forall (fun e => ~ confirmed a e) pre -> settles a es r -> settles a (pre ++ es) r.
Proof.
  intros Hp. unfold settles. destruct r as [[]|e].
  - intros (l & e & -> & Hc & Hl). exists (pre ++ l), e. split; [by rewrite app_assoc|]. split; [done|].
    apply Forall_app. by split.
  - intros He. apply Forall_app. by split.
Qed.

Lemma over_link_settles a link dst wire s : let '(_, es, r) := _sendOverLink a link dst wire s in settles a es r.
Proof.
  unfold _sendOverLink. destruct (get _ _) as [info|]; [|constructor].
  destruct (becomes_active a) as [[]|]; [|constructor].
  assert (Ht : forall pre, Forall (fun e => ~ confirmed a e) pre ->
    settles a (pre ++ [LinkResource link wire]) (resource_done a)
    /\ settles a (pre ++ [LinkPacket link dst wire]) (packet_sent a)).
  { intros pre Hpre. unfold settles. split.
    - destruct (resource_done a) as [[]|e] eqn:E; [by exists pre, (LinkResource link wire)|].
      apply Forall_app. split; [done|]. apply Forall_singleton. cbn. by rewrite E.
    - destruct (packet_sent a) as [[]|e] eqn:E; [by exists pre, (LinkPacket link dst wire)|].
      apply Forall_app. split; [done|]. apply Forall_singleton. cbn. by rewrite E. }
  destruct (initiator info && _).
  - destruct (identified a); [|apply Forall_singleton; by intros []].
    destruct (_ <? _)%nat; apply Ht; apply Forall_singleton; by intros [].
  - destruct (_ <? _)%nat; apply Ht; constructor.
Qed.

Lemma opportunistic_settles a solicit dst wire :
  settles a (fst (_sendOpportunistic a solicit dst wire)) (snd (_sendOpportunistic a solicit dst wire)).
Proof.
  unfold _sendOpportunistic. destruct (peer_identity _ _ _); [|constructor]. cbn [fst snd].
  destruct (receipt a) as [[[]|]|e] eqn:Er; cbn [settles].
  2, 4: apply Forall_singleton; cbn; rewrite Er; by intros [].
  all: eexists [], _; split; [reflexivity|]; split; [cbn; rewrite Er; auto|constructor].
Qed.

Lemma fall_back_settles a o dst wire err s : settles a (fst (fall_back a o dst wire err s)) (snd (fall_back a o dst wire err s)).
Proof.
  unfold fall_back. pose proof (opportunistic_settles a (opt_solicit o) dst wire) as Ho.
  destruct (opt_fallback o); [| |constructor]; destruct (_sendOpportunistic _ _ _ _) as [es [[]|e]]; try exact Ho.
  cbn [fst snd] in *. rewrite bool_decide_true by done. destruct (outboundPropagationNode s); [|exact Ho].
  cbn [fst snd]. apply settles_app; [exact Ho|]. unfold settles. destruct (submitted a) as [[]|] eqn:Es.
  - by eexists [], _.
  - apply Forall_singleton. cbn. by rewrite Es.
Qed.

Lemma target_quiet a o dst s : Forall (fun e => ~ confirmed a e) (snd (fst (target_link a o dst s))).
Proof.
  unfold target_link, _establishDirectLink. destruct (opt_linkId o); [constructor|].
  assert (Hq : forall l : list send_event, Forall (fun e => match e with InitiateLink _ | ExpireRoute _ | AttachListeners _ => True | _ => False end) l ->
    Forall (fun e => ~ confirmed a e) l) by (intros l Hl; eapply Forall_impl; [exact Hl|]; intros []; cbn; tauto).
  apply Hq. clear Hq.
  destruct (get _ _) as [l|]; [destruct (link_active a l)|]; cbn [fst snd];
    try (destruct (peer_identity _ _ _); [destruct (initiated a)|]); cbn [fst snd];
    try case_bool_decide; cbn [fst snd]; repeat constructor.
Qed.

(** The part of [send] after serialization. *)
Lemma send_wire_settles a o dst wire s : let '(_, es, r) := send_wire a o dst wire s in settles a es r.
Proof.
  unfold send_wire. pose proof (target_quiet a o dst s) as Hq.
  destruct (target_link a o dst s) as [[s1 es] [l|]]; cbn [fst snd] in Hq.
  - pose proof (over_link_settles a l dst wire s1) as Hl.
    destruct (_sendOverLink a l dst wire s1) as [[s2 es1] [[]|e]]; [by apply settles_app|].
    pose proof (fall_back_settles a o dst wire (Some e) s2) as Hf.
    destruct (fall_back a o dst wire (Some e) s2) as [es2 r]. apply settles_app; [done|]. by apply settles_app.
  - pose proof (fall_back_settles a o dst wire None s1) as Hf.
    destruct (fall_back a o dst wire None s1) as [es2 r]. by apply settles_app.
Qed.

(** Events that leave the link: the single packet and the submission. *)
Definition off_link (e : send_event) : Prop :=
  match e with OpportunisticPacket _ _ | SubmitToNode => True | _ => False end.

(** What a data event may follow: the identification on a link of ours that was
    not identified, unless it was. *)
Definition identified_before (a : SendAnswers) (s : Outbound) (pre : list send_event) (e : send_event) : Prop :=
  match e with
  | LinkResource l _ | LinkPacket l _ _ =>
      match get (toHex l) (activeLinks a) with
      | Some info => initiator info = true -> toHex l ∈ identifiedLinks s \/ IdentifyOn l ∈ pre
      | None => False
      end
  | _ => True
  end.

Definition well_ordered (a : SendAnswers) (s : Outbound) (es : list send_event) : Prop :=
  forall pre e post, es = pre ++ e :: post -> identified_before a s pre e.

Definition quiet (e : send_event) : Prop :=
  match e with LinkResource _ _ | LinkPacket _ _ _ => False | _ => True end.

Lemma quiet_ordered a s es : Forall quiet es -> well_ordered a s es.
Proof.
  intros Hq pre e post ->. apply Forall_app in Hq as [_ Hq]. apply Forall_cons in Hq as [He _]. by destruct e.
Qed.

Lemma ordered_app a s es1 es2 : well_ordered a s es1 -> well_ordered a s es2 -> well_ordered a s (es1 ++ es2).
Proof.
  intros H1 H2 pre e post He.
  assert (Hsplit : (exists p, es1 = pre ++ e :: p) \/ exists p, pre = es1 ++ p /\ es2 = p ++ e :: post).
  { revert pre He. clear. induction es1 as [|x es1 IH]; intros pre He; [right; by exists pre|].
    destruct pre as [|y pre]; cbn [Datatypes.app] in He; injection He as -> He.
    - left. by exists es1.
    - destruct (IH pre He) as [[p ->]|(p & -> & Hp)]; [left; by exists p|right; by exists p]. }
  destruct Hsplit as [[p Hp]|(p & -> & Hp)]; [by apply (H1 _ _ _ Hp)|].
  specialize (H2 _ _ _ Hp). destruct e; try done; cbn in *; destruct (get _ _); try done; set_solver.
Qed.

Lemma identified_fewer a s s' es : (forall l, l ∈ identifiedLinks s' -> l ∈ identifiedLinks s) ->
  well_ordered a s' es -> well_ordered a s es.
Proof.
  intros Hi Ho pre e post He. specialize (Ho pre e post He). destruct e; try done; cbn in *; destruct (get _ _); try done.
  all: intros Hn; destruct (Ho Hn); auto.
Qed.

Lemma over_link_ordered a link dst wire s : well_ordered a s (snd (fst (_sendOverLink a link dst wire s))).
Proof.
  unfold _sendOverLink. destruct (get (toHex link) (activeLinks a)) as [info|] eqn:Eg; [|by apply quiet_ordered].
  destruct (becomes_active a); [|by apply quiet_ordered].
  assert (Hone : forall s pre e, Forall quiet pre -> quiet e \/ identified_before a s pre e -> well_ordered a s (pre ++ [e])).
  { intros s0 pre e Hpre He pre' e' post Heq. destruct post as [|x post].
    - apply app_inj_tail in Heq as [-> ->]. destruct He; [by destruct e'|done].
    - assert (Hin : e' ∈ pre).
      { assert (Hlen : (length pre' < length pre)%nat).
        { apply (f_equal length) in Heq. rewrite !length_app in Heq. cbn in Heq. lia. }
        apply (list_elem_of_lookup_2 _ (length pre')). rewrite <- (lookup_app_l pre [e]) by done. rewrite Heq.
        by rewrite list_lookup_middle. }
      rewrite Forall_forall in Hpre. specialize (Hpre _ Hin). by destruct e'. }
  destruct (initiator info && negb (bool_decide (toHex link ∈ identifiedLinks s))) eqn:Ei.
  - destruct (identified a); [|by apply quiet_ordered; repeat constructor].
    destruct (_ <? _)%nat; apply Hone; try (by repeat constructor); right; cbn; rewrite Eg; intros _; right; by left.
  - destruct (_ <? _)%nat; apply (Hone s [] _ (List.Forall_nil _)); right; cbn; rewrite Eg; intros Hi; left;
      rewrite Hi in Ei; cbn in Ei; apply negb_false_iff in Ei; by bools.
Qed.

Lemma opportunistic_events a solicit dst wire :
  Forall (fun e => e = OpportunisticPacket dst (drop DESTINATION_LENGTH wire)) (fst (_sendOpportunistic a solicit dst wire)).
Proof. unfold _sendOpportunistic. destruct (peer_identity _ _ _); [by apply Forall_singleton|constructor]. Qed.

(** What the fallbacks hand over. *)
Lemma fall_back_events a o dst wire err s :
  Forall (fun e => (e = OpportunisticPacket dst (drop DESTINATION_LENGTH wire) /\ opt_fallback o <> FallbackNone)
                   \/ (e = SubmitToNode /\ opt_fallback o = FallbackPropagation))
    (fst (fall_back a o dst wire err s)).
Proof.
  unfold fall_back. pose proof (opportunistic_events a (opt_solicit o) dst wire) as Ho.
  assert (Hall : opt_fallback o <> FallbackNone ->
    Forall (fun e => (e = OpportunisticPacket dst (drop DESTINATION_LENGTH wire) /\ opt_fallback o <> FallbackNone)
      \/ (e = SubmitToNode /\ opt_fallback o = FallbackPropagation)) (fst (_sendOpportunistic a (opt_solicit o) dst wire))).
  { intros Hne. eapply Forall_impl; [exact Ho|]. intros e ->. by left. }
  destruct (opt_fallback o) eqn:Ef; [| |constructor]; specialize (Hall ltac:(done));
    destruct (_sendOpportunistic _ _ _ _) as [es [[]|e]]; try exact Hall.
  cbn [fst] in *. rewrite bool_decide_true by done. destruct (outboundPropagationNode s); [|exact Hall].
  cbn [fst]. apply Forall_app. split; [exact Hall|]. apply Forall_singleton. by right.
Qed.

Lemma target_events a o dst s :
  Forall (fun e => match e with InitiateLink _ | ExpireRoute _ | AttachListeners _ => True | _ => False end)
    (snd (fst (target_link a o dst s)))
  /\ identifiedLinks (fst (fst (target_link a o dst s))) = identifiedLinks s.
Proof.
  unfold target_link, _establishDirectLink. destruct (opt_linkId o); [by split; constructor|].
  destruct (get _ _) as [l|]; [destruct (link_active a l)|]; cbn [fst snd];
    try (destruct (peer_identity _ _ _); [destruct (initiated a)|]); cbn [fst snd];
    try case_bool_decide; cbn [fst snd]; by repeat constructor.
Qed.

Lemma over_link_events a link dst wire s :
  Forall (fun e => e = IdentifyOn link \/ e = LinkResource link wire \/ e = LinkPacket link dst wire)
    (snd (fst (_sendOverLink a link dst wire s))).
Proof.
  unfold _sendOverLink. destruct (get _ _) as [info|]; [|constructor]. destruct (becomes_active a); [|constructor].
  destruct (initiator info && _); [destruct (identified a); [|by repeat constructor]|];
    destruct (_ <? _)%nat; cbn [fst snd Datatypes.app]; repeat (apply Forall_cons; split; [by auto|]); constructor.
Qed.

(** What an event hands over of the serialized message. *)
Definition carries (o : SendOptions) (dst wire : bytes) (e : send_event) : Prop :=
  match e with
  | LinkResource _ d => d = wire
  | LinkPacket _ to d => to = dst /\ d = wire
  | OpportunisticPacket to p => to = dst /\ p = drop DESTINATION_LENGTH wire /\ opt_fallback o <> FallbackNone
  | SubmitToNode => opt_fallback o = FallbackPropagation
  | _ => True
  end.

Lemma send_wire_carries a o dst wire s : let '(_, es, _) := send_wire a o dst wire s in
  Forall (carries o dst wire) es /\ well_ordered a s es.
Proof.
  unfold send_wire. destruct (target_events a o dst s) as [Ht Hi].
  destruct (target_link a o dst s) as [[s1 es] target]; cbn [fst snd] in Ht, Hi.
  assert (Ht1 : Forall (carries o dst wire) es) by (eapply Forall_impl; [exact Ht|]; by intros []).
  assert (Ht2 : well_ordered a s es) by (apply quiet_ordered; eapply Forall_impl; [exact Ht|]; by intros []).
  assert (Hf : forall err s2, Forall (carries o dst wire) (fst (fall_back a o dst wire err s2))
      /\ well_ordered a s (fst (fall_back a o dst wire err s2))).
  { intros err s2. pose proof (fall_back_events a o dst wire err s2) as Hf. split.
    - eapply Forall_impl; [exact Hf|]. intros e [[-> ?]|[-> ?]]; cbn; auto.
    - apply quiet_ordered. eapply Forall_impl; [exact Hf|]. by intros e [[-> ?]|[-> ?]]. }
  destruct target as [l|].
  - pose proof (over_link_events a l dst wire s1) as Hl. pose proof (over_link_ordered a l dst wire s1) as Ho.
    destruct (_sendOverLink a l dst wire s1) as [[s2 es1] r]; cbn [fst snd] in Hl, Ho.
    assert (Hl1 : Forall (carries o dst wire) es1) by (eapply Forall_impl; [exact Hl|]; by intros e [->|[-> | ->]]).
    assert (Ho1 : well_ordered a s es1) by (apply (identified_fewer a s s1); [by rewrite Hi|done]).
    destruct r as [[]|e]; [split; [by apply Forall_app|by apply ordered_app]|].
    destruct (Hf (Some e) s2) as [F1 F2]. destruct (fall_back a o dst wire (Some e) s2) as [es2 r2]. cbn [fst] in F1, F2.
    split; [apply Forall_app; split; [done|]; by apply Forall_app|]. apply ordered_app; [done|]. by apply ordered_app.
  - destruct (Hf None s1) as [F1 F2]. destruct (fall_back a o dst wire None s1) as [es2 r2]. cbn [fst] in F1, F2.
    split; [by apply Forall_app|by apply ordered_app].
Qed.

(** C30: What [send] reports: it resolves exactly when an attempt was confirmed,
    by the proof of the resource, the transport, the receipt or the node, and
    that attempt is the last thing it did, every earlier one having failed; it
    rejects only when no attempt was confirmed.  Every attempt carries the one
    serialized message, a single packet only when a fallback is allowed, the
    node only when it was chosen, and on a link this side made the data comes
    after the identification. *)
Theorem send_settled `{WebCrypto} `{JsHost} (a : SendAnswers) (o : SendOptions) (sender : Identity) (m m' : Message)
    (s : Outbound) (mid wire : bytes) (Hwire : serialize sender m = dret (m', mid, wire)) :
  exists s' es r, send a o sender m s = (s', es, Some r)
  /\ settles a es r
  /\ Forall (carries o (LxmfMessage.destinationHash m) wire) es
  /\ well_ordered a s es.
Proof.
  unfold send. rewrite Hwire. unfold dret.
  pose proof (send_wire_settles a o (LxmfMessage.destinationHash m) wire s) as H1.
  pose proof (send_wire_carries a o (LxmfMessage.destinationHash m) wire s) as H2.
  destruct (send_wire a o (LxmfMessage.destinationHash m) wire s) as [[s' es] r].
  exists s', es, r. by destruct H2.
Qed.

(** ** A concrete send *)

Section Samples.
Import Toy.
Import MsgPackSpec.Host.
#[local] Existing Instances toy_crypto no_exotic.

(** The handshake of the link fails; the single packet is proved. *)
Definition packet_proved : SendAnswers :=
  mkSendAnswers (fun _ => true) (Some sample_recipient) None (Throw (JsError "timeout")) [] (Ok tt) (Ok tt) (Ok tt) (Ok tt)
    (Some sample_recipient) None (Ok (Some true)) (Ok tt).

Definition by_default : SendOptions := mkOptions None FallbackOpportunistic true.
Definition no_links : Outbound := mkOutbound [] [] [] None.

Definition sample_outgoing : Message := sample_lxm text_fields VNull.
Definition sample_serialized : Message * bytes * bytes := Eval vm_compute in
  match serialize sample_sender_id sample_outgoing with Some (Ok x) => x | _ => (sample_outgoing, [], []) end.

Lemma send_settled_witness : exists s' es,
  send packet_proved by_default sample_sender_id sample_outgoing no_links = (s', es, dret tt)
  /\ settles packet_proved es (Ok tt).
Proof.
  destruct (@send_settled toy_crypto no_exotic packet_proved by_default sample_sender_id sample_outgoing
    (fst (fst sample_serialized)) no_links (snd (fst sample_serialized)) (snd sample_serialized)) as (s' & es & r & H1 & H2 & _).
  - vm_compute. reflexivity.
  - exists s', es. assert (Hr : r = Ok tt).
    { pose proof (f_equal snd H1) as Hs. revert Hs. vm_compute. by intros [= <-]. }
    subst r. split; [exact H1|exact H2].
Defined.

Example sample_attempts : map (fun e => match e with OpportunisticPacket _ p => length p | _ => 0%nat end)
  (snd (fst (send packet_proved by_default sample_sender_id sample_outgoing no_links)))
  = [0; 0; length (drop 16 (snd sample_serialized))]%nat.
Proof. vm_compute. reflexivity. Qed.
End Samples.
