(* ===== verification/PropagationSpec.v ===== *)
(** * PropagationSpec: what a propagation node promises

    A request of a client sees and removes only the messages addressed to the
    requester ([get_only_own]), and listing, fetching and acknowledging empties
    a mailbox without loss ([mailbox_emptied]).  What it promises to senders
    and to peers, and under interleaving, is in [SyncSpec] and
    [PropagationLife]. *)

From Stdlib Require Import QArith Sorted.
From S2P Require Import Prelude Encoding JsMap Utf8 MsgPack MsgPackSpec Packet Crypto Identity Destination.
From S2P Require Import Sorting Stamper LxmfMessage MessageStore PropagationNode.
#[local] Open Scope Z_scope.

(** ** Requests for messages *)

(** The message is addressed to [owner]. *)
Definition owned (owner : bytes) (e : PropagationEntry) : Prop :=
  toHex (destinationHash e) = toHex owner.

#[global] Instance owned_dec owner e : Decision (owned owner e).
Proof. unfold owned. apply _. Defined.

(** The mailbox of [owner], smallest message first. *)
Definition mailbox (owner : bytes) (st : MessageStore) : list PropagationEntry :=
  js_sort (fun a b => size a <? size b) (filter (fun e => owned owner e) (values (_entries st))).

Lemma mailbox_elem owner st e : e ∈ mailbox owner st <-> owned owner e /\ e ∈ values (_entries st).
Proof. unfold mailbox. rewrite js_sort_elem, list_elem_of_filter. done. Qed.

Lemma elem_values {V} (m : jsmap V) v : wf_map m -> v ∈ values m <-> exists k, get k m = Some v.
Proof.
  intros Hw. unfold values. rewrite list_elem_of_In, in_map_iff. split.
  - intros ([k x] & <- & Hin). exists k. by apply In_get.
  - intros [k Hg]. exists (k, v). split; [done|]. by apply get_In.
Qed.

Lemma get_message_elem st e : store_inv st -> e ∈ values (_entries st) ->
  get_message (transientId e) st = Some e.
Proof.
  intros [H1 H2 _ _] Hin. apply elem_values in Hin as [k Hg]; [|done]. unfold get_message.
  rewrite List.Forall_forall in H2. pose proof (H2 _ (get_In _ _ _ Hg)) as Hk. cbn in Hk. by rewrite <- Hk.
Qed.

Lemma removeFor_get tid owner st key : store_inv st ->
  get key (_entries (fst (removeForDestination tid owner st)))
  = match get key (_entries st) with
    | Some e => if bool_decide (key = toHex tid /\ owned owner e) then None else Some e
    | None => None
    end.
Proof.
  intros Hs. unfold removeForDestination, remove, get_message.
  destruct (get (toHex tid) (_entries st)) as [e|] eqn:Eg.
  - case_bool_decide as Ho; cbn [fst].
    + cbn [drop_entry with_entries _entries fst]. destruct (decide (key = toHex tid)) as [->|Hne].
      * rewrite get_mdelete_same, Eg, bool_decide_true by done. done.
      * rewrite get_mdelete_other by done. destruct (get key (_entries st)); [|done].
        rewrite bool_decide_false; [done|]. tauto.
    + destruct (get key (_entries st)) as [e'|] eqn:Eg'; [|done].
      rewrite bool_decide_false; [done|]. intros [-> Ho']. by simplify_eq.
  - cbn [fst]. destruct (get key (_entries st)) as [e'|] eqn:Eg'; [|done].
    rewrite bool_decide_false; [done|]. intros [-> _]. by simplify_eq.
Qed.

Lemma removeFor_inv tid owner st : store_inv st ->
  store_inv (fst (removeForDestination tid owner st))
  /\ storageLimitBytes (fst (removeForDestination tid owner st)) = storageLimitBytes st.
Proof.
  intros Hs. split; [exact (run_inv 0 (OpRemoveFor tid owner) st Hs I)|].
  unfold removeForDestination, remove. destruct (get_message _ _); [|done].
  case_bool_decide; [|done]. by destruct (get _ _).
Qed.

(** Purging takes away owned messages that are named, and nothing else. *)
Lemma purge_get haves owner : forall st, store_inv st ->
  let st' := fst (purge haves owner st) in
  store_inv st'
  /\ (forall key e, get key (_entries st') = Some e -> get key (_entries st) = Some e)
  /\ (forall key e, get key (_entries st) = Some e -> ~ owned owner e -> get key (_entries st') = Some e).
Proof.
  induction haves as [|v haves IH]; intros st Hs; cbn [purge fst]; [done|].
  destruct (as_tid v) as [tid|]; cbn [fst]; [|done].
  destruct (IH _ (proj1 (removeFor_inv tid owner st Hs))) as (H1 & H2 & H3). split; [done|].
  split.
  - intros key e Hg%H2. rewrite removeFor_get in Hg by done.
    destruct (get key (_entries st)); [|done]. by case_bool_decide.
  - intros key e Hg Ho. apply H3; [|done]. rewrite removeFor_get, Hg by done.
    rewrite bool_decide_false; [done|]. tauto.
Qed.

Lemma purge_all ids owner : forall st, store_inv st ->
  exists st', purge (map VBin ids) owner st = (st', Ok tt) /\ store_inv st'
  /\ forall key, get key (_entries st')
     = match get key (_entries st) with
       | Some e => if bool_decide (key ∈ map toHex ids /\ owned owner e) then None else Some e
       | None => None
       end.
Proof.
  induction ids as [|tid ids IH]; intros st Hs; cbn [map purge as_tid].
  - exists st. split; [done|]. split; [done|]. intros key. destruct (get key _); [|done].
    rewrite bool_decide_false; [done|]. intros [H _]. by apply not_elem_of_nil in H.
  - destruct (IH _ (proj1 (removeFor_inv tid owner st Hs))) as (st' & Hp & Hi & Hg).
    exists st'. split; [done|]. split; [done|]. intros key. rewrite Hg, removeFor_get by done.
    destruct (get key (_entries st)) as [e|]; [|done].
    repeat case_bool_decide; try done; exfalso; set_solver.
Qed.

Lemma serve_owned wants owner limit : forall cum st out, serve wants owner limit cum st = Ok out ->
  Forall (fun d => exists e, e ∈ values (_entries st) /\ owned owner e /\ lxmfData e = d) out
  /\ match limit with
     | Some l => out <> [] -> cum + foldr (fun d n => zlen d + 16 + n) 0 out <= l * 1000
     | None => True
     end.
Proof.
  induction wants as [|v wants IH]; intros cum st out; cbn [serve].
  - intros [= <-]. split; [done|]. by destruct limit.
  - destruct (as_tid v) as [tid|]; cbn [rbind]; [|done].
    destruct (serveDataForDestination tid owner st) as [d|] eqn:Ed; [|apply IH].
    destruct (match limit with Some l => _ | None => false end) eqn:El; [apply IH|].
    destruct (serve wants owner limit _ st) as [out'|] eqn:Eo; cbn [rbind]; [|done].
    intros [= <-]. destruct (IH _ _ _ Eo) as [H1 H2]. split.
    + constructor; [|done]. unfold serveDataForDestination in Ed. destruct (get_message tid st) as [e|] eqn:Eg; [|done].
      case_bool_decide; [|done]. injection Ed as <-. exists e. split; [|done].
      unfold get_message in Eg. apply list_elem_of_In, in_map_iff. eexists. split; [|by apply get_In]. done.
    + destruct limit as [l|]; [|done]. intros _. cbn [foldr]. bools. destruct out' as [|d' out']; [cbn; lia|].
      specialize (H2 ltac:(done)). lia.
Qed.

(** Messages that fit into the limit are all served. *)
Lemma serve_fits owner st es : store_inv st -> Forall (fun e => e ∈ mailbox owner st) es ->
  forall cum limit, match limit with Some l => cum + foldr (fun e n => zlen (lxmfData e) + 16 + n) 0 es <= l * 1000 | None => True end ->
  serve (map (fun e => VBin (transientId e)) es) owner limit cum st = Ok (map lxmfData es).
Proof.
  intros Hs. induction es as [|e es IH]; intros Hes cum limit Hl; [done|].
  change (map (fun e => VBin (transientId e)) (e :: es))
    with (VBin (transientId e) :: map (fun e => VBin (transientId e)) es).
  cbn [serve as_tid rbind foldr] in *.
  apply Forall_cons in Hes as [[Ho Hin]%mailbox_elem Hes]. unfold serveDataForDestination.
  rewrite (get_message_elem _ _ Hs Hin), bool_decide_true by done.
  assert (Hf : match limit with Some l => l * 1000 <? cum + zlen (lxmfData e) + 16 | None => false end = false).
  { destruct limit; [|done]. apply Z.ltb_ge.
    assert (0 <= foldr (fun e n => zlen (lxmfData e) + 16 + n) 0 es); [|lia].
    clear. induction es as [|e es IH]; cbn [foldr]; unfold zlen in *; lia. }
  rewrite Hf, IH; [done|done|]. destruct limit; [lia|done].
Qed.

(** The first message is served if it fits, whatever follows. *)
Lemma serve_first owner st e es limit cum out : store_inv st -> e ∈ mailbox owner st ->
  cum + zlen (lxmfData e) + 16 <= limit * 1000 ->
  serve (map (fun e => VBin (transientId e)) (e :: es)) owner (Some limit) cum st = Ok out ->
  exists rest, out = lxmfData e :: rest.
Proof.
  intros Hs [Ho Hin]%mailbox_elem Hl.
  change (map (fun e => VBin (transientId e)) (e :: es))
    with (VBin (transientId e) :: map (fun e => VBin (transientId e)) es).
  cbn [serve as_tid rbind]. unfold serveDataForDestination.
  rewrite (get_message_elem _ _ Hs Hin), bool_decide_true by done. rewrite (proj2 (Z.ltb_ge _ _)) by lia.
  destruct (serve _ owner _ _ st); [|done]. intros [= <-]. by eexists.
Qed.

Lemma serve_ok owner st es limit cum : exists out, serve (map (fun e => VBin (transientId e)) es) owner limit cum st = Ok out.
Proof.
  revert cum. induction es as [|e es IH]; intros cum; [by exists []|].
  change (map (fun e => VBin (transientId e)) (e :: es))
    with (VBin (transientId e) :: map (fun e => VBin (transientId e)) es).
  cbn [serve as_tid rbind]. destruct (serveDataForDestination _ _ _) as [d|]; [|apply IH].
  destruct (match limit with Some _ => _ | None => _ end); [apply IH|].
  destruct (IH (cum + zlen d + 16)) as [out ->]. by eexists.
Qed.

#[local] Arguments serve : simpl never.
#[local] Arguments client_limit : simpl never.

Lemma map_VBin_inj l l' : map VBin l = map VBin l' -> l = l'.
Proof. revert l'. induction l as [|b l IH]; intros [|b' l']; cbn [map]; [done..|]. intros [= -> ->%IH]. done. Qed.

Section Requests.
Context `{C : WebCrypto} `{H : JsHost}.

(** The hash of an identity's delivery destination always exists. *)
Lemma lxmf_hash_some aspect id : exists h, lxmf_hash aspect id = Some h.
Proof. eexists. reflexivity. Qed.

(** The three ways a request of an identity ends. *)
Lemma get_cases c s s' id owner data r : lxmf_hash ".delivery" id = Some owner ->
  handleGetRequest c (Some id) data s = (s', r) ->
  (s' = s /\ exists n, r = dret (VInt n))
  \/ (s' = s /\ r = dret (VArr (map VBin (transientIdsForDestination owner (store s))))
      /\ exists rest, data = VArr (VNull :: VNull :: rest))
  \/ exists hs, s' = set_store s (fst (purge hs owner (store s)))
     /\ ((exists e, r = dthrow e) \/ r = None \/ r = dret (VArr [])
         \/ exists ws lim out haves rest, data = VArr (VArr ws :: haves :: rest)
            /\ client_limit (VArr ws :: haves :: rest) = Some lim
            /\ serve ws owner lim 24 (fst (purge hs owner (store s))) = Ok out
            /\ r = dret (VArr (map VBin out))).
Proof.
  intros Hown. unfold handleGetRequest. rewrite Hown.
  destruct (identityAllowed c id); cbn [negb]; [|intros [= <- <-]; left; eauto].
  destruct data as [| | | | | | |[|wants [|haves rest]]| |]; try (intros [= <- <-]; left; by eauto).
  destruct (is_null wants && is_null haves) eqn:En.
  - intros [= <- <-]. right; left. split; [done|]. split; [done|].
    destruct wants, haves; try done. by exists rest.
  - destruct (purge (array_of haves) owner (store s)) as [st purged] eqn:Ep. intros [= <- <-].
    right; right. exists (array_of haves). rewrite Ep. cbn [fst]. split; [done|].
    destruct purged as [[]|e]; [|left; by exists e].
    destruct (array_of wants) as [|w ws] eqn:Ew; [auto|]. destruct wants as [| | | | | | |l| |]; try done. cbn [array_of] in Ew. subst l.
    destruct (client_limit (VArr (w :: ws) :: haves :: rest)) as [lim|] eqn:El; [|auto].
    destruct (serve (w :: ws) owner lim 24 st) as [out|e] eqn:Es; [|left; exists e; reflexivity].
    right; right; right. by exists (w :: ws), lim, out, haves, rest.
Qed.

(** Whatever a client sends, its /get request removes and shows only
    messages addressed to the identity that proved itself on the link: every
    other message is kept, nothing is added, the reply holds ids or data of the
    requester's own messages, within the limit it named, and what the node
    remembers as processed does not change. *)
Theorem get_only_own (c : NodeConfig) (s s' : PropagationNode) (id : Identity) (owner : bytes) (data : value)
    (r : dec value) (Hs : store_inv (store s)) (Hown : lxmf_hash ".delivery" id = Some owner)
    (Hrun : handleGetRequest c (Some id) data s = (s', r)) :
  (forall key e, get key (_entries (store s')) = Some e -> get key (_entries (store s)) = Some e)
  /\ (forall key e, get key (_entries (store s)) = Some e -> ~ owned owner e ->
        get key (_entries (store s')) = Some e)
  /\ (forall l, r = dret (VArr l) -> Forall (fun v => exists e, e ∈ values (_entries (store s)) /\ owned owner e
        /\ (v = VBin (transientId e) \/ v = VBin (lxmfData e))) l)
  /\ (forall ws haves n rest out, data = VArr (VArr ws :: haves :: VInt n :: rest) ->
        r = dret (VArr (map VBin out)) -> out <> [] -> 24 + foldr (fun d k => zlen d + 16 + k) 0 out <= n * 1000)
  /\ locallyProcessed s' = locallyProcessed s /\ store_inv (store s').
Proof.
  pose proof (purge_get) as Hpurge.
  destruct (get_cases c s s' id owner data r Hown Hrun) as [(-> & n & ->)|[(-> & -> & Hd)|(hs & -> & Hr)]].
  - do 3 (split; [done|]). split; [|done]. by intros ws haves k rest out _ [= ?].
  - do 2 (split; [done|]). split; [|split; [|done]].
    + intros l [= <-]. apply List.Forall_forall. intros v Hv. apply in_map_iff in Hv as (tid & <- & Hv).
      apply list_elem_of_In, list_elem_of_fmap in Hv as (e & -> & He).
      apply mailbox_elem in He as [Ho He]. exists e. auto.
    + destruct Hd as [rest0 ->]. by intros ws haves n rest out [= ?].
  - destruct (Hpurge hs owner (store s) Hs) as (H1 & H2 & H3). cbn [set_store store locallyProcessed].
    do 2 (split; [done|]). split; [|split; [|done]].
    + intros l ->. destruct Hr as [(e & [=])|[[=]|[[= ->]|(ws & lim & out & haves & rest & _ & _ & Hserve & [= ->])]]]; [done|].
      apply serve_owned in Hserve as [Hout _]. apply Forall_map. eapply Forall_impl; [exact Hout|].
      cbn. intros d (e & He & Ho & <-). exists e. split; [|auto]. apply elem_values in He as [k Hk]; [|apply H1].
      apply elem_values; [apply Hs|]. eauto.
    + intros ws haves n rest out -> -> Hne.
      destruct Hr as [(e & [=])|[[=]|[[= Ho]|(ws' & lim & out' & haves' & rest' & [= <- <- <-] & Hlim & Hserve & Ho)]]].
      * by destruct out.
      * injection Hlim as <-. injection Ho as Ho%map_VBin_inj. subst out'.
        apply serve_owned in Hserve as [_ Hlim]. by apply Hlim.
Qed.

Variable c : NodeConfig.
Variables (id : Identity) (owner : bytes).
Hypothesis (Hallow : identityAllowed c id = true) (Hown : lxmf_hash ".delivery" id = Some owner).

(** What a client is told, what it fetches, and what an acknowledgement does. *)
Lemma listed_own s : handleGetRequest c (Some id) (VArr [VNull; VNull]) s
  = (s, dret (VArr (map VBin (map transientId (mailbox owner (store s)))))).
Proof using Hallow Hown. unfold handleGetRequest. by rewrite Hallow, Hown. Qed.

Lemma fetched_own es s haves rest limit : store_inv (store s) -> es <> [] ->
  Forall (fun e => e ∈ mailbox owner (store s)) es -> array_of haves = [] ->
  client_limit (VArr (map VBin (map transientId es)) :: haves :: rest) = Some limit ->
  handleGetRequest c (Some id) (VArr (VArr (map VBin (map transientId es)) :: haves :: rest)) s
  = (s, lift_dec (let! out := serve (map (fun e => VBin (transientId e)) es) owner limit 24 (store s) in
                  Ok (VArr (map VBin out)))).
Proof using Hallow Hown.
  intros Hs Hne Hes Hh Hl. unfold handleGetRequest. rewrite Hallow, Hown, Hh. cbn [negb is_null andb array_of purge].
  rewrite (map_map transientId VBin) in *.
  destruct (map _ es) as [|v l] eqn:El; [by apply map_eq_nil in El|]. rewrite <- El in *. rewrite Hl. by destruct s.
Qed.

Lemma purged_own ids s : store_inv (store s) ->
  exists st, handleGetRequest c (Some id) (VArr [VNull; VArr (map VBin ids)]) s = (set_store s st, dret (VArr []))
  /\ store_inv st
  /\ forall key, get key (_entries st)
     = match get key (_entries (store s)) with
       | Some e => if bool_decide (key ∈ map toHex ids /\ owned owner e) then None else Some e
       | None => None
       end.
Proof using Hallow Hown.
  intros Hs. destruct (purge_all ids owner (store s) Hs) as (st & Hp & Hi & Hg). exists st.
  split; [|done]. unfold handleGetRequest. rewrite Hallow, Hown. cbn [negb is_null andb array_of]. by rewrite Hp.
Qed.

Lemma mailbox_key s key e : store_inv s -> get key (_entries s) = Some e -> owned owner e ->
  key ∈ map toHex (map transientId (mailbox owner s)).
Proof using Type.
  intros [_ H2 _ _] He Ho. rewrite List.Forall_forall in H2.
  pose proof (H2 _ (get_In _ _ _ He)) as Hk. cbn in Hk. subst key.
  do 2 apply list_elem_of_fmap_2. apply mailbox_elem. split; [done|]. apply list_elem_of_In, in_map_iff.
  eexists. split; [|by apply get_In]. done.
Qed.

Lemma mailbox_nil s : store_inv s -> (forall key e, get key (_entries s) = Some e -> ~ owned owner e) ->
  mailbox owner s = [].
Proof using Type.
  intros Hs Hn. destruct (mailbox owner s) as [|e l] eqn:Em; [done|].
  destruct (proj1 (mailbox_elem owner s e)) as [Ho He]; [rewrite Em; by left|].
  apply elem_values in He as [key He]; [|apply Hs]. by destruct (Hn key e He).
Qed.

(** Acknowledging the whole mailbox. *)
Lemma acked_own s : store_inv (store s) ->
  exists s', handleGetRequest c (Some id)
      (VArr [VNull; VArr (map VBin (map transientId (mailbox owner (store s))))]) s = (s', dret (VArr []))
  /\ store_inv (store s') /\ mailbox owner (store s') = [] /\ locallyProcessed s' = locallyProcessed s
  /\ forall key e, get key (_entries (store s')) = Some e
       <-> get key (_entries (store s)) = Some e /\ ~ owned owner e.
Proof using Hallow Hown.
  intros Hs. destruct (purged_own (map transientId (mailbox owner (store s))) s Hs) as (st & Hp & Hi & Hg).
  exists (set_store s st). cbn [set_store store locallyProcessed].
  assert (Hiff : forall key e, get key (_entries st) = Some e
       <-> get key (_entries (store s)) = Some e /\ ~ owned owner e).
  { intros key e. rewrite Hg. destruct (get key (_entries (store s))) as [e'|] eqn:Ee; [|naive_solver].
    case_bool_decide as Hb.
    - split; [done|]. intros [[= ->] Hn]. destruct Hn. apply Hb.
    - split; [|by intros [? _]]. intros [= ->]. split; [done|]. intros Ho. destruct Hb. split; [|done].
      by apply (mailbox_key _ _ _ Hs Ee). }
  split; [done|]. split; [done|]. split; [|done]. apply mailbox_nil; [done|]. intros key e He. by apply Hiff in He as [_ ?].
Qed.

(** A client that lists its mailbox, fetches what was listed and then
    acknowledges it gets the data of exactly its messages, smallest first;
    afterwards its mailbox is empty and every other message is still there. *)
Theorem mailbox_emptied (s : PropagationNode) (Hs : store_inv (store s)) (Hmail : mailbox owner (store s) <> []) :
  let ids := VArr (map VBin (map transientId (mailbox owner (store s)))) in
  let ask data s := handleGetRequest c (Some id) data s in
  ask (VArr [VNull; VNull]) s = (s, dret ids)
  /\ ask (VArr [ids; VNull]) s = (s, dret (VArr (map VBin (map lxmfData (mailbox owner (store s))))))
  /\ exists s', ask (VArr [VNull; ids]) s = (s', dret (VArr []))
      /\ ask (VArr [VNull; VNull]) s' = (s', dret (VArr []))
      /\ forall key e, get key (_entries (store s')) = Some e
           <-> get key (_entries (store s)) = Some e /\ ~ owned owner e.
Proof using Hallow Hown.
  intros ids ask. split; [apply listed_own|]. split.
  - unfold ask, ids. rewrite (fetched_own _ _ VNull [] None); try done; [|by apply Forall_forall].
    rewrite (serve_fits _ _ _ Hs); [done| |done]. by apply Forall_forall.
  - destruct (acked_own s Hs) as (s' & H1 & _ & H2 & _ & H3). exists s'. split; [exact H1|]. split; [|exact H3].
    unfold ask. by rewrite listed_own, H2.
Qed.
End Requests.

(** ** A concrete mailbox *)

Section Samples.
Import Toy.
Import MsgPackSpec.Host.
#[local] Existing Instances toy_crypto no_exotic toy_laws.

Definition sample_client : Identity := generate (replicate 32 1) (replicate 32 2).
Definition sample_owner : bytes := Eval vm_compute in default [] (lxmf_hash ".delivery" sample_client).

Definition sample_mail (i : Z) (dest : bytes) : PropagationEntry :=
  mkEntry (replicate 32 i) dest [i; 2; 3] (replicate 32 0) 0 8 35 [] [].

Definition sample_box : MessageStore := Eval vm_compute in
  mkStore [(toHex (replicate 32 1), sample_mail 1 sample_owner); (toHex (replicate 32 2), sample_mail 2 (replicate 16 9))]
    None None 70.

Lemma sample_box_inv : store_inv sample_box.
Proof.
  split.
  - apply (bool_decide_unpack _). vm_compute. exact I.
  - repeat constructor.
  - reflexivity.
  - repeat constructor; intros x Hx; by apply not_elem_of_nil in Hx.
Qed.

Definition sample_get : value := VArr [VArr [VBin (replicate 32 1); VBin (replicate 32 2)]; VNull; VInt 1].

Lemma get_only_own_witness : exists r, Forall (fun v => exists e, e ∈ values (_entries sample_box)
  /\ owned sample_owner e /\ (v = VBin (transientId e) \/ v = VBin (lxmfData e))) [VBin [1; 2; 3]]
  /\ snd (handleGetRequest default_config (Some sample_client) sample_get (new_PropagationNode sample_box)) = r.
Proof.
  destruct (@get_only_own toy_crypto default_config (new_PropagationNode sample_box) (new_PropagationNode sample_box)
    sample_client sample_owner sample_get (dret (VArr [VBin [1; 2; 3]]))) as (_ & _ & H3 & _).
  - exact sample_box_inv.
  - vm_compute. reflexivity.
  - vm_compute. reflexivity.
  - eexists. split; [apply (H3 _ eq_refl)|reflexivity].
Defined.

Lemma mailbox_emptied_witness : exists s',
  handleGetRequest default_config (Some sample_client) (VArr [VNull; VArr [VBin (replicate 32 1)]])
    (new_PropagationNode sample_box) = (s', dret (VArr []))
  /\ handleGetRequest default_config (Some sample_client) (VArr [VNull; VNull]) s' = (s', dret (VArr [])).
Proof.
  destruct (@mailbox_emptied toy_crypto default_config sample_client sample_owner eq_refl
    ltac:(vm_compute; reflexivity) (new_PropagationNode sample_box)) as (_ & _ & s' & H1 & H2 & _).
  - exact sample_box_inv.
  - vm_compute. discriminate.
  - exists s'. split; [exact H1|exact H2].
Defined.
End Samples.
