(* ===== verification/InboxSpec.v ===== *)
(** * InboxSpec: what reaches the application, and how often

    Over any interleaving of the router's steps: a message is dispatched once
    within the span of its cache ([dispatched_once]) and what is parked is
    bounded, oldest first ([parked_bounded]).  A message from the network is
    dispatched only if it verifies under its sender's identity
    ([inbound_authentic]); one from an unknown sender waits for the announce
    ([first_contact]).  A message that cannot be read blocks a mailbox
    ([poisoned_sync_repeats]). *)

From Stdlib Require Import QArith.
From S2P Require Import Prelude Encoding JsMap Utf8 MsgPack Packet Crypto Identity Destination.
From S2P Require Import MsgPackSpec LxmfMessage LxmfMessageSpec MessageStore PropagationNode PropagationSpec LxmfInbox.
#[local] Open Scope Z_scope.

(** ** The bound on parked messages *)

Lemma cap_concat : forall bs total, total = length (concat (values bs)) ->
  concat (values (cap_buckets bs total)) = drop (total - MAX_PARKED_MESSAGES) (concat (values bs)).
Proof.
  induction bs as [|[key b] bs IH]; intros total Ht; unfold values in *; cbn [cap_buckets map concat snd].
  - by destruct (total - MAX_PARKED_MESSAGES)%nat.
  - cbn [map concat snd] in Ht. rewrite length_app in Ht. set (n := (length b `min` (total - MAX_PARKED_MESSAGES))%nat).
    assert (Hrest : concat (map snd (if (total - n <=? MAX_PARKED_MESSAGES)%nat then bs else cap_buckets bs (total - n)))
      = drop (total - MAX_PARKED_MESSAGES - length b) (concat (map snd bs))).
    { destruct (Nat.leb_spec (total - n) MAX_PARKED_MESSAGES) as [Hle|Hgt].
      - replace (total - MAX_PARKED_MESSAGES - length b)%nat with 0%nat by lia. by rewrite drop_0.
      - assert (n = length b) as Hn by lia. rewrite IH by lia. f_equal. lia. }
    rewrite drop_app.
    replace (drop (total - MAX_PARKED_MESSAGES) b) with (drop n b).
    2: { unfold n. destruct (Nat.le_gt_cases (length b) (total - MAX_PARKED_MESSAGES)).
         - rewrite Nat.min_l by done. by rewrite !drop_ge by lia.
         - by rewrite Nat.min_r by lia. }
    destruct (drop n b) as [|p b'] eqn:Eb; [exact Hrest|]. cbn [map concat snd]. by rewrite Hrest.
Qed.

Lemma cap_total s : (parked_total (pendingMessages (_capParkedMessages s)) <= MAX_PARKED_MESSAGES)%nat.
Proof.
  unfold _capParkedMessages, parked_total. cbn [set_pending pendingMessages].
  rewrite cap_concat by done. rewrite length_drop. lia.
Qed.

Lemma mdelete_total key (m : jsmap (list Parked)) : (parked_total (mdelete key m) <= parked_total m)%nat.
Proof.
  unfold parked_total, mdelete, values. induction m as [|[k b] m IH]; [done|]. rewrite filter_cons.
  destruct (decide _); cbn [map concat snd]; rewrite ?length_app; lia.
Qed.

(** Replacing a bucket by a shorter one. *)
Lemma mset_total key b b' (m : jsmap (list Parked)) : get key m = Some b -> (length b' <= length b)%nat ->
  (parked_total (mset key b' m) <= parked_total m)%nat.
Proof.
  unfold parked_total, values. induction m as [|[k x] m IH]; cbn [get]; [done|]. intros Hg Hl.
  change (mset key b' ((k, x) :: m)) with (if bool_decide (key = k) then (key, b') :: m else (k, x) :: mset key b' m).
  revert Hg. case_bool_decide; intros Hg; cbn [map concat snd]; rewrite !length_app; [injection Hg as ->; lia|].
  specialize (IH Hg Hl). lia.
Qed.

Lemma unpark_total p s : (parked_total (pendingMessages (unpark p s)) <= parked_total (pendingMessages s))%nat.
Proof.
  unfold unpark. destruct (get _ _) as [b|] eqn:Eg; [|done]. destruct (list_find _ b) as [[i e]|] eqn:Ef; [|done].
  apply list_find_Some in Ef as (Hi & _).
  assert (Hlen : (length (delete i b) <= length b)%nat) by (rewrite length_delete by eauto; lia).
  destruct (delete i b) as [|x b']; [apply mdelete_total|by apply (mset_total _ b)].
Qed.

(** ** Steps of the router *)

(** The synchronous parts of the handlers, which run between awaits. *)
Inductive inbox_op :=
| OpRecall (m : Message) (sender : option Identity) (buf : nat) (wire : bytes) (link : option bytes)
| OpVerify (now : Q) (m : Message) (link : option bytes) (ok : bool)
| OpDispatch (now : Q) (m : Message)
| OpTake (link : option bytes)
| OpTakeAll
| OpClosed (link : bytes)
| OpSeen (now : Q) (tid : bytes)
| OpTick (now : Q).

Definition inbox_run (o : inbox_op) (s : Inbox) : Inbox * list inbox_event :=
  match o with
  | OpRecall m sender buf wire link => fst (after_recall m sender buf wire link s)
  | OpVerify now m link ok => fst (after_verify now m link ok s)
  | OpDispatch now m => fst (dispatch_new now m None s)
  | OpTake link => (set_pending s (mdelete (_pendingMessageKey link) (pendingMessages s)), [])
  | OpTakeAll => (set_pending s [], [])
  | OpClosed link => (link_closed link s, [])
  | OpSeen now tid => (_rememberProcessedTransientId now (toHex tid) s, [])
  | OpTick now => (fst (Inbox_tickMaintenance now s), [])
  end.

Fixpoint inbox_runs (os : list inbox_op) (s : Inbox) : Inbox * list inbox_event :=
  match os with
  | [] => (s, [])
  | o :: os => let '(s, es) := inbox_run o s in let '(s, es2) := inbox_runs os s in (s, es ++ es2)
  end.

Lemma seen_pending now tid s : pendingMessages (_rememberProcessedTransientId now tid s) = pendingMessages s.
Proof. unfold _rememberProcessedTransientId. by destruct (Qle_bool _ _). Qed.

Lemma dispatch_pending now m link s : pendingMessages (fst (fst (dispatch_new now m link s))) = pendingMessages s.
Proof.
  unfold dispatch_new. destruct (messageId m) as [[|c id]|]; [done| |done]. by destruct (hasMessage _ _).
Qed.

Lemma run_parked o s : (parked_total (pendingMessages s) <= MAX_PARKED_MESSAGES)%nat ->
  (parked_total (pendingMessages (fst (inbox_run o s))) <= MAX_PARKED_MESSAGES)%nat.
Proof.
  intros Hs. destruct o as [m sender buf wire link|now m link ok|now m|link| |link|now tid|now]; cbn [inbox_run fst].
  - unfold after_recall. destruct sender as [id|]; cbn [fst].
    + etrans; [apply unpark_total|exact Hs].
    + unfold park. apply cap_total.
  - unfold after_verify. destruct ok; [|done]. cbn [negb].
    pose proof (dispatch_pending now m link s) as Hd. destruct (dispatch_new now m link s) as [[s' es] b].
    cbn [fst] in *. by rewrite Hd.
  - by rewrite dispatch_pending.
  - etrans; [apply mdelete_total|exact Hs].
  - apply Nat.le_0_l.
  - etrans; [apply mdelete_total|exact Hs].
  - by rewrite seen_pending.
  - exact Hs.
Qed.

(** However its steps interleave, the router never parks more than 128
    messages; parking one too many drops the oldest ones, bucket by bucket in
    the order in which the buckets were opened, and nothing else. *)
Theorem parked_bounded (os : list inbox_op) (p : Parked) :
  let s := fst (inbox_runs os new_Inbox) in
  let bucket := default [] (get (_pendingMessageKey (linkId p)) (pendingMessages s)) in
  let wanted := mset (_pendingMessageKey (linkId p)) (bucket ++ [p]) (pendingMessages s) in
  (parked_total (pendingMessages s) <= MAX_PARKED_MESSAGES)%nat
  /\ concat (values (pendingMessages (fst (park p s))))
     = drop (parked_total wanted - MAX_PARKED_MESSAGES) (concat (values wanted)).
Proof.
  cbv zeta. split; [|by apply cap_concat].
  assert (H0 : (parked_total (pendingMessages new_Inbox) <= MAX_PARKED_MESSAGES)%nat) by apply Nat.le_0_l.
  revert H0. generalize new_Inbox as s. induction os as [|o os IH]; intros s Hs; cbn [inbox_runs fst]; [exact Hs|].
  pose proof (run_parked o s Hs) as H1. destruct (inbox_run o s) as [s1 es]. specialize (IH s1 H1).
  by destruct (inbox_runs os s1) as [s2 es2].
Qed.

(** ** Once *)

(** The ids of dispatched messages, in order. *)
Definition message_key (e : inbox_event) : list jsstr :=
  match e with
  | MessageEvent m _ => match messageId m with Some ((_ :: _) as id) => [toHex id] | _ => [] end
  | _ => []
  end.

Definition message_keys (es : list inbox_event) : list jsstr := concat (map message_key es).

(** The cache holds the latest of them. *)
Definition cache_of (ids : list jsstr) (s : Inbox) : Prop :=
  keys (locallyDeliveredMessageIds s) = drop (length ids - DELIVERED_MESSAGE_CACHE_MAX) ids.

Lemma remember_cache ids now k s : cache_of ids s -> has k (locallyDeliveredMessageIds s) = false ->
  cache_of (ids ++ [k]) (_rememberDelivered now k s).
Proof.
  unfold cache_of, _rememberDelivered. cbn [set_dispatched locallyDeliveredMessageIds]. intros Hc Hk.
  apply has_false in Hk. rewrite mset_new by done. unfold keys in *. rewrite length_app, length_app.
  assert (Hl : length (locallyDeliveredMessageIds s) = (length ids - (length ids - DELIVERED_MESSAGE_CACHE_MAX))%nat).
  { rewrite <- (length_map fst), Hc, length_drop. done. }
  rewrite <- skipn_map, map_app, Hc. cbn [map fst length].
  assert (H1 : (1 <= DELIVERED_MESSAGE_CACHE_MAX)%nat) by (apply Nat.leb_le; reflexivity).
  rewrite !drop_app_le by (rewrite ?length_drop; lia). rewrite drop_drop. do 2 f_equal. lia.
Qed.

Lemma cached_recent ids s k : cache_of ids s -> has k (locallyDeliveredMessageIds s) = false ->
  forall i, ids !! i = Some k -> (i + DELIVERED_MESSAGE_CACHE_MAX < length ids)%nat.
Proof.
  unfold cache_of. intros Hc Hk i Hi. apply has_false in Hk. rewrite Hc in Hk.
  apply Nat.nle_gt. intros Hle. apply Hk, list_elem_of_In.
  apply (list_elem_of_lookup_2 _ (i - (length ids - DELIVERED_MESSAGE_CACHE_MAX))).
  rewrite lookup_drop, <- Hi. f_equal. lia.
Qed.

Lemma seen_cache now tid s :
  locallyDeliveredMessageIds (_rememberProcessedTransientId now tid s) = locallyDeliveredMessageIds s.
Proof. unfold _rememberProcessedTransientId. by destruct (Qle_bool _ _). Qed.

(** What a step adds to the dispatched ids: at most one, and one that the
    cache did not hold. *)
Lemma dispatch_cache now m link ids s : cache_of ids s ->
  let '(s', es, _) := dispatch_new now m link s in
  cache_of (ids ++ message_keys es) s'
  /\ (message_keys es = [] \/ exists k, message_keys es = [k] /\ has k (locallyDeliveredMessageIds s) = false).
Proof.
  intros Hc. unfold dispatch_new. destruct (messageId m) as [[|c id]|] eqn:Em.
  1, 3: replace (message_keys [MessageEvent m link]) with (@nil jsstr)
    by (unfold message_keys; cbn [map concat message_key]; by rewrite Em); by rewrite app_nil_r; split; [|left].
  destruct (hasMessage (c :: id) s) eqn:Eh.
  - change (message_keys []) with (@nil jsstr). rewrite app_nil_r. auto.
  - unfold message_keys. cbn [map concat message_key]. rewrite Em. cbn [app].
    split; [by apply remember_cache|]. right. by exists (toHex (c :: id)).
Qed.

Lemma run_cache o ids s : cache_of ids s -> let '(s', es) := inbox_run o s in
  cache_of (ids ++ message_keys es) s'
  /\ (message_keys es = [] \/ exists k, message_keys es = [k] /\ has k (locallyDeliveredMessageIds s) = false).
Proof.
  intros Hc. pose proof (app_nil_r ids) as Enil.
  destruct o as [m sender buf wire link|now m link ok|now m|link| |link|now tid|now]; cbn [inbox_run].
  - unfold after_recall. destruct sender as [id|]; cbn [fst].
    + change (message_keys []) with (@nil jsstr). rewrite Enil. split; [|by left]. unfold cache_of in *. rewrite <- Hc.
      unfold unpark. destruct (get _ _) as [b|]; [|done]. destruct (list_find _ b) as [[i e]|]; [|done].
      by destruct (delete i b).
    + destruct (park _ s) as [s' first] eqn:Ep. cbn [fst].
      assert (Hs : locallyDeliveredMessageIds s' = locallyDeliveredMessageIds s) by by injection Ep as <- _.
      assert (Hk : message_keys (if first then [RequestPath (source_of m)] else []) = []) by by destruct first.
      rewrite Hk, Enil. split; [|by left]. unfold cache_of. by rewrite Hs.
  - unfold after_verify. destruct ok; cbn [negb fst].
    + pose proof (dispatch_cache now m link ids s Hc) as Hd. destruct (dispatch_new now m link s) as [[s' es] b].
      exact Hd.
    + change (message_keys []) with (@nil jsstr). rewrite Enil. auto.
  - pose proof (dispatch_cache now m None ids s Hc) as Hd. by destruct (dispatch_new now m None s) as [[s' es] b].
  - change (message_keys []) with (@nil jsstr). rewrite Enil. auto.
  - change (message_keys []) with (@nil jsstr). rewrite Enil. auto.
  - change (message_keys []) with (@nil jsstr). rewrite Enil. auto.
  - change (message_keys []) with (@nil jsstr). rewrite Enil. split; [|by left]. unfold cache_of. by rewrite seen_cache.
  - change (message_keys []) with (@nil jsstr). rewrite Enil. auto.
Qed.

(** Two dispatches of one id are more than the cache's size apart. *)
Definition spaced (ids : list jsstr) : Prop :=
  forall i j k, ids !! i = Some k -> ids !! j = Some k -> (i < j)%nat -> (i + DELIVERED_MESSAGE_CACHE_MAX < j)%nat.

(** C24: However messages arrive, wait, are checked and fetched in between, over
    whichever paths, between two dispatches of the same message there are at
    least 4096 dispatches of others; while fewer have passed, every copy is
    dropped. *)
Theorem dispatched_once (os : list inbox_op) : spaced (message_keys (snd (inbox_runs os new_Inbox))).
Proof.
  enough (H : forall os ids s, cache_of ids s -> spaced ids -> spaced (ids ++ message_keys (snd (inbox_runs os s)))).
  { apply (H os [] new_Inbox); [reflexivity|]. intros i j k Hi. by rewrite lookup_nil in Hi. }
  clear os. induction os as [|o os IH]; intros ids s Hc Hs; cbn [inbox_runs snd].
  - change (message_keys []) with (@nil jsstr). by rewrite app_nil_r.
  - pose proof (run_cache o ids s Hc) as Hrun. destruct (inbox_run o s) as [s1 es]. destruct Hrun as [Hc1 Hk].
    specialize (IH _ s1 Hc1). destruct (inbox_runs os s1) as [s2 es2]. cbn [snd] in *.
    unfold message_keys in *. rewrite map_app, concat_app, app_assoc. apply IH.
    destruct Hk as [->|(k & -> & Hk)]; [by rewrite app_nil_r|]. intros i j k' Hi Hj Hij.
    apply lookup_snoc_Some in Hi as [[Hil Hi]|[-> ->]]; apply lookup_snoc_Some in Hj as [[Hjl Hj]|[-> Hkk]].
    + by apply (Hs i j k').
    + subst k'. by apply (cached_recent ids s k Hc Hk).
    + lia.
    + lia.
Qed.

(** ** Messages from the network *)

Section Network.
Context `{C : WebCrypto} `{H : JsHost}.
Variable clock : Q -> value.

(** An event follows from a message of the given buffer that verifies under
    the identity the transport knows for its source. *)
Definition verified (now : Q) (recall : bytes -> option Identity) (wire expected : bytes) (link : option bytes)
    (e : inbox_event) : Prop :=
  match e with
  | MessageEvent m l => l = link /\ incoming clock now wire expected = dret m
      /\ exists id, recall (source_of m) = Some id /\ verifySignature id m = dret true
  | MarkContacted h => exists id, recall h = Some id
  | RequestPath h => recall h = None
  end.

Lemma process_verified now recall buf wire link expected s s' es r :
  _processIncomingMessage clock now recall buf wire link expected s = (s', es, r) ->
  Forall (verified now recall wire expected link) es.
Proof.
  unfold _processIncomingMessage. destruct (incoming clock now wire expected) as [[m|e]|] eqn:Ei;
    [|intros [= <- <- <-]; constructor|intros [= <- <- <-]; constructor].
  unfold after_recall. destruct (recall (source_of m)) as [id|] eqn:Er.
  - destruct (verifySignature id m) as [[[]|e]|] eqn:Ev; try (intros [= <- <- <-]; constructor).
    unfold after_verify. cbn [negb app]. unfold dispatch_new.
    assert (Hm : verified now recall wire expected link (MessageEvent m link)) by (cbn; eauto 10).
    assert (Hc : verified now recall wire expected link (MarkContacted (source_of m))) by (cbn; eauto).
    assert (Hboth : Forall (verified now recall wire expected link) [MarkContacted (source_of m); MessageEvent m link])
      by (apply Forall_cons; split; [exact Hc|by apply Forall_singleton]).
    destruct (messageId m) as [[|c id']|]; [by intros [= <- <- <-]| |by intros [= <- <- <-]].
    destruct (hasMessage _ _); intros [= <- <- <-]; [by apply Forall_singleton|done].
  - destruct (park _ s) as [s1 first]. intros [= <- <- <-]. destruct first; [by apply Forall_singleton|constructor].
Qed.

(** C25: A message that arrived over a link or as a packet reaches the
    application only if it is what the buffer says and its signature verifies
    under the identity known for its source; messages of unknown sources
    raise no event but a path request. *)
Theorem inbound_authentic (now : Q) (recall : bytes -> option Identity) (expected : bytes) (entries : list Parked)
    (s s' : Inbox) (es : list inbox_event) (e : inbox_event)
    (Hrun : reprocess clock now recall expected entries s = (s', es)) (He : e ∈ es) :
  exists p, p ∈ entries /\ verified now recall (wireData p) expected (linkId p) e.
Proof.
  revert s s' es Hrun He. induction entries as [|p entries IH]; intros s s' es; cbn [reprocess].
  - intros [= <- <-]. by intros ?%not_elem_of_nil.
  - destruct (_processIncomingMessage clock now recall (buffer p) (wireData p) (linkId p) expected s) as [[s1 es1] r] eqn:E1.
    destruct (reprocess clock now recall expected entries s1) as [s2 es2] eqn:E2. intros [= <- <-] He.
    apply elem_of_app in He as [He|He].
    + exists p. split; [by left|]. pose proof (process_verified _ _ _ _ _ _ _ _ _ _ E1) as Hv.
      rewrite Forall_forall in Hv. by apply Hv.
    + destruct (IH _ _ _ E2 He) as (q & Hq & Hv). exists q. split; [by right|done].
Qed.

(** Parking the first message. *)
Lemma park_first p s : pendingMessages s = [] ->
  park p s = (set_pending s [(_pendingMessageKey (linkId p), [p])], true).
Proof.
  intros He. unfold park. rewrite He. cbn [get default existsb negb mset app]. unfold _capParkedMessages.
  cbn [set_pending pendingMessages parked_total values map snd concat app length].
  reflexivity.
Qed.

(** Parking a second one of the same sender does not ask again. *)
Lemma park_again p q s : pendingMessages s = [(_pendingMessageKey (linkId p), [q])] -> source q = source p ->
  snd (park p s) = false.
Proof.
  intros He Hq. unfold park. rewrite He. cbn [snd get]. rewrite bool_decide_true by done. cbn [default existsb]. unfold id. cbn [existsb].
  by rewrite Hq, bool_decide_true.
Qed.

Lemma dispatch_fresh now m link s mid : messageId m = Some mid -> mid <> [] -> hasMessage mid s = false ->
  dispatch_new now m link s = (_rememberDelivered now (toHex mid) s, [MessageEvent m link], true).
Proof. intros Hid Hne Hn. unfold dispatch_new. rewrite Hid. destruct mid; [done|]. by rewrite Hn. Qed.

Lemma remembered_now now mid s : hasMessage mid s = false -> hasMessage mid (_rememberDelivered now (toHex mid) s) = true.
Proof.
  unfold hasMessage, _rememberDelivered. cbn [set_dispatched locallyDeliveredMessageIds]. intros Hn.
  apply has_false in Hn. apply has_true. rewrite mset_new by done. unfold keys. rewrite <- skipn_map, map_app.
  assert (H1 : (1 <= DELIVERED_MESSAGE_CACHE_MAX)%nat) by (apply Nat.leb_le; reflexivity).
  rewrite drop_app_le by (rewrite length_app, length_map; cbn; lia). apply in_or_app. right. by left.
Qed.

(** First contact: a message from an unknown sender is parked and a path to
    it requested once, however many follow from it; when an announce has made
    the sender known, re-processing dispatches the message, verified, and
    leaves nothing parked. *)
Theorem first_contact (t1 t2 : Q) (recall1 recall2 : bytes -> option Identity) (buf : nat) (wire expected : bytes)
    (link : option bytes) (s : Inbox) (m1 m2 : Message) (id : Identity) (mid : bytes)
    (Hin1 : incoming clock t1 wire expected = dret m1) (Hin2 : incoming clock t2 wire expected = dret m2)
    (Hun : recall1 (source_of m1) = None) (Hknown : recall2 (source_of m2) = Some id)
    (Hsig : verifySignature id m2 = dret true) (Hid : messageId m2 = Some mid) (Hmid : mid <> [])
    (Hempty : pendingMessages s = []) (Hnew : hasMessage mid s = false) :
  exists s1, _processIncomingMessage clock t1 recall1 buf wire link expected s
             = (s1, [RequestPath (source_of m1)], dret tt)
  /\ (forall buf2, exists s1', _processIncomingMessage clock t1 recall1 buf2 wire link expected s1 = (s1', [], dret tt))
  /\ exists s2, processAllPendingMessages clock t2 recall2 expected s1
                = (s2, [MarkContacted (source_of m2); MessageEvent m2 link])
     /\ pendingMessages s2 = [] /\ hasMessage mid s2 = true.
Proof.
  set (p := mkParked buf wire link (source_of m1)).
  exists (set_pending s [(_pendingMessageKey link, [p])]). split; [|split].
  - unfold _processIncomingMessage. rewrite Hin1. cbn [dret]. unfold after_recall. rewrite Hun, park_first by done. done.
  - intros buf2. unfold _processIncomingMessage. rewrite Hin1. cbn [dret]. unfold after_recall. rewrite Hun.
    pose proof (park_again (mkParked buf2 wire link (source_of m1)) p (set_pending s [(_pendingMessageKey link, [p])])
      eq_refl eq_refl) as Hp.
    destruct (park _ _) as [s1' first]. cbn [snd] in Hp. subst first. by exists s1'.
  - unfold processAllPendingMessages. subst p. cbn [set_pending pendingMessages values map snd concat app reprocess].
    change (concat (values [(_pendingMessageKey link, [mkParked buf wire link (source_of m1)])]))
      with [mkParked buf wire link (source_of m1)].
    cbn [reprocess]. unfold _processIncomingMessage. cbn [buffer wireData linkId]. rewrite Hin2. cbn [dret]. unfold after_recall.
    rewrite Hknown. unfold unpark. cbn [set_pending pendingMessages get]. rewrite Hsig. cbn [dret].
    unfold after_verify. cbn [negb]. rewrite (dispatch_fresh _ _ _ _ mid Hid Hmid) by exact Hnew.
    eexists. split; [reflexivity|]. split; [done|]. by apply remembered_now.
Qed.

(** ** Fetching from a node *)

(** The node at the other end of the link: what its handler leaves open or
    throws fails the request. *)
Definition node_request (c : NodeConfig) (id : Identity) (s : PropagationNode) (data : value)
    : PropagationNode * result value :=
  let '(s, r) := handleGetRequest c (Some id) data s in
  (s, match r with Some r => r | None => Throw (JsError "Request timed out") end).

Lemma split_all ids s : Forall (fun tid => has (toHex tid) (processedTransientIds s) = false) ids ->
  forall wants, split_list (map VBin ids) ALL_MESSAGES wants [] s = Ok (wants ++ ids, []).
Proof using Type.
  induction ids as [|tid ids IH]; intros Hids wants; cbn [map split_list as_tid rbind]; [by rewrite app_nil_r|].
  apply Forall_cons in Hids as [Ht Hids]. rewrite Ht. cbn [ALL_MESSAGES Nat.eqb orb].
  rewrite (IH Hids). by rewrite <- app_assoc.
Qed.

(** A message that cannot be read blocks the mailbox: when the first message
    a node has for a recipient makes its processing fail, the sync fails before
    anything is acknowledged or remembered, at the node and at the recipient,
    so every later sync fails the same way and nothing is delivered. *)
Theorem poisoned_sync_repeats (c : NodeConfig) (id : Identity) (owner : bytes) (now : Q)
    (recall : bytes -> option Identity) (delivery : Destination) (node : PropagationNode) (s : Inbox)
    (p : PropagationEntry) (rest : list PropagationEntry) (x : error)
    (Hallow : identityAllowed c id = true) (Hown : lxmf_hash ".delivery" id = Some owner)
    (Hnode : store_inv (store node)) (Hmail : mailbox owner (store node) = p :: rest)
    (Hnew : Forall (fun e => has (toHex (transientId e)) (processedTransientIds s) = false) (p :: rest))
    (Hid : transientId p = transientIdFromPropagationData (lxmfData p))
    (Hsize : 24 + zlen (lxmfData p) + 16 <= DELIVERY_LIMIT * 1000)
    (Hbad : _ingestPropagationData clock now recall delivery (lxmfData p) s = (s, [], dthrow x)) :
  syncFromPropagationNode clock (node_request c id) now recall delivery ALL_MESSAGES DELIVERY_LIMIT node s
  = (node, s, [], dthrow x).
Proof using Type.
  unfold syncFromPropagationNode, node_request. rewrite (listed_own c id owner Hallow Hown node), Hmail. unfold dret.
  cbn [is_peer_error].
  rewrite split_all by (apply Forall_map; exact Hnew). change ([] ++ ?l) with l.
  change (map transientId (p :: rest)) with (transientId p :: map transientId rest) at 1. cbv iota beta.
  destruct (serve_ok owner (store node) (p :: rest) (Some DELIVERY_LIMIT) 24) as [out Hout].
  rewrite (fetched_own c id owner Hallow Hown (p :: rest) node (VArr (map VBin [])) [VInt DELIVERY_LIMIT] (Some DELIVERY_LIMIT));
    [|done|done|rewrite Hmail; by apply Forall_forall|done|done].
  rewrite Hout. cbn [rbind lift_dec is_peer_error].
  destruct (serve_first owner _ p rest DELIVERY_LIMIT 24 out Hnode) as [out' ->]; [rewrite Hmail; by left|done|done|].
  cbn [map receive_all as_tid]. rewrite <- Hid. apply Forall_cons in Hnew as [Hp _]. rewrite Hp, Hbad. done.
Qed.

End Network.

(** ** Concrete messages *)

Section Samples.
Import Toy.
Import MsgPackSpec.Host.
#[local] Existing Instances toy_crypto no_exotic toy_laws.

Definition inbox_clock (t : Q) : value := VInt 2.
Definition knows_sender (h : bytes) : option Identity := Some sample_sender_id.
Definition knows_nobody (h : bytes) : option Identity := None.
Definition sample_expected : bytes := replicate 16 9.

Definition sample_incoming : option (result Message) := Eval vm_compute in
  incoming inbox_clock 1 sample_wire sample_expected.
Definition sample_arrived : Message :=
  match sample_incoming with Some (Ok m) => m | _ => sample_lxm VNull VNull end.

Lemma inbound_authentic_witness : exists p, p ∈ [mkParked 0 sample_wire None (replicate 16 7)]
  /\ verified inbox_clock 1 knows_sender (wireData p) sample_expected (linkId p) (MessageEvent sample_arrived None).
Proof.
  refine (@inbound_authentic toy_crypto no_exotic inbox_clock 1 knows_sender sample_expected
    [mkParked 0 sample_wire None (replicate 16 7)] new_Inbox
    (fst (reprocess inbox_clock 1 knows_sender sample_expected [mkParked 0 sample_wire None (replicate 16 7)] new_Inbox))
    [MarkContacted (replicate 16 7); MessageEvent sample_arrived None] _ _ _).
  - vm_compute. reflexivity.
  - right. left.
Defined.

Definition sample_waiting : Inbox :=
  set_pending new_Inbox [(lit "opportunistic", [mkParked 0 sample_wire None (replicate 16 7)])].

Lemma first_contact_witness : exists s2,
  processAllPendingMessages inbox_clock 5 knows_sender sample_expected
    (fst (fst (_processIncomingMessage inbox_clock 1 knows_nobody 0 sample_wire None sample_expected new_Inbox)))
  = (s2, [MarkContacted (replicate 16 7); MessageEvent sample_arrived None]) /\ pendingMessages s2 = [].
Proof.
  destruct (@first_contact toy_crypto no_exotic inbox_clock 1 5 knows_nobody knows_sender 0 sample_wire sample_expected
    None new_Inbox sample_arrived sample_arrived sample_sender_id (default [] (messageId sample_arrived)))
    as (s1 & H1 & _ & s2 & H2 & H3 & _); try (vm_compute; reflexivity); [vm_compute; discriminate|].
  exists s2. rewrite H1. split; [exact H2|exact H3].
Defined.

(** Anyone can encrypt three bytes to a recipient. *)
Definition poison_data : bytes := Eval vm_compute in
  sample_owner ++ match Identity.encrypt (replicate 32 6) (replicate 16 8) sample_client [1; 2; 3] None with
                  | Ok c => c | Throw _ => [] end.

Definition poison_entry : PropagationEntry := Eval vm_compute in
  mkEntry (transientIdFromPropagationData poison_data) sample_owner poison_data (replicate 32 0) 0 8 200 [] [].

Definition poison_node : PropagationNode :=
  new_PropagationNode (mkStore [(toHex (transientId poison_entry), poison_entry)] None None 200).

Definition poison_delivery : Destination :=
  create (lit "lxmf.delivery") OUT DestType_SINGLE (Some sample_client) None.

Lemma poisoned_sync_repeats_witness : exists x,
  syncFromPropagationNode inbox_clock (node_request default_config sample_client) 1 knows_nobody poison_delivery
    ALL_MESSAGES DELIVERY_LIMIT poison_node new_Inbox = (poison_node, new_Inbox, [], dthrow x).
Proof.
  exists (JsError "LXMF message too short or format unrecognized").
  refine (@poisoned_sync_repeats toy_crypto no_exotic inbox_clock default_config sample_client sample_owner 1
    knows_nobody poison_delivery poison_node new_Inbox poison_entry [] _ _ _ _ _ _ _ _ _).
  - vm_compute. reflexivity.
  - vm_compute. reflexivity.
  - split; [apply (bool_decide_unpack _); vm_compute; exact I|by constructor|vm_compute; reflexivity|].
    repeat constructor; intros z Hz; by apply not_elem_of_nil in Hz.
  - vm_compute. reflexivity.
  - apply List.Forall_cons; [vm_compute; reflexivity|constructor].
  - vm_compute. reflexivity.
  - vm_compute. discriminate.
  - vm_compute. reflexivity.
Defined.
End Samples.
