(* ===== verification/PropagationLife.v ===== *)
(** * PropagationLife: batches that interleave

    A node works on several batches at once: each waits at its own awaits while
    others, requests, maintenance and the router's bookkeeping go on.  A
    [System] is the node with the batches in flight and an [input] is one thing
    that happens; a batch may end at any point, as an exception ends it.  The
    theorems hold over any sequence of inputs. *)

From Stdlib Require Import QArith Lqa.
From S2P Require Import Prelude Encoding JsMap Utf8 MsgPack Packet Crypto Identity Destination.
From S2P Require Import Sorting Stamper LxmfMessage MessageStore PropagationNode PropagationSpec.
#[local] Open Scope Z_scope.

Record Batch := mkBatch {
  batch_origin : Origin;
  batch_now : Q;
  batch_todo : list Blob;
  batch_wait : option (Blob * Pause);
}.

(** A batch that has ended leaves its place empty. *)
Record System := mkSystem { node : PropagationNode; batches : list (option Batch) }.

Inductive input :=
| Begin (now : Q) (l : list bytes) (o : Origin)
| Next (i : nat) (delivery_for : bytes -> option Destination) (at_ : Q)
| Resume (i : nat) (at_ : Q) (keep : bool)
| End (i : nat)
| Get (remote : option Identity) (data : value)
| Offer (now : Q) (remote : option Identity) (data : value)
| Tick (now : Q)
| Throttle (now : Q) (hex : jsstr)
| SyncBegins (now : Q) (key : jsstr)
| SyncEnds (key : jsstr)
| MarkUnhandled (tid peer : bytes)
| MarkHandled (tid peer : bytes)
| MarkAll (peer : bytes).

(** What becomes of a message. *)
Inductive outcome := KeptFor (v : Blob) | HandedOver (v : Blob) (m : Message).

Definition outcome_blob (o : outcome) : Blob := match o with KeptFor v | HandedOver v _ => v end.

Definition put_batch (i : nat) (b : Batch) (σ : System) (s : PropagationNode) : System :=
  mkSystem s (<[i:=Some b]> (batches σ)).

Definition on_store (f : MessageStore -> MessageStore) (σ : System) : System :=
  mkSystem (set_store (node σ) (f (store (node σ)))) (batches σ).

Lemma mapM_omap {A B D} (f : A -> option B) (g : B -> option D) l ds : mapM g (omap f l) = Some ds ->
  Forall (fun d => exists a b, In a l /\ f a = Some b /\ g b = Some d) ds.
Proof.
  intros Hm. apply mapM_Some in Hm. revert ds Hm.
  induction l as [|a l IH]; intros ds Hm; cbn in Hm; [inv Hm; constructor|].
  assert (Hmono : forall ds, Forall (fun d => exists a b, In a l /\ f a = Some b /\ g b = Some d) ds ->
    Forall (fun d => exists a' b, In a' (a :: l) /\ f a' = Some b /\ g b = Some d) ds).
  { intros ds'. apply List.Forall_impl. intros d (a' & b & ? & ? & ?). exists a', b. split; [by right|done]. }
  destruct (f a) as [b|] eqn:Ef; [|by apply Hmono, IH]. inv Hm.
  constructor; [|by apply Hmono, IH]. exists a, b. split; [by left|done].
Qed.

Section Life.
Context `{C : WebCrypto} `{H : JsHost}.
Variable clock : Q -> value.
Variable c : NodeConfig.

Definition step (x : input) (σ : System) : System * list outcome :=
  let s := node σ in
  match x with
  | Begin now l o =>
      let s := prune_due now s in
      let s := set_validating s (validatingCount s + 1) in
      match validated_blobs l (minAcceptedCost c) with
      | None => (mkSystem s (batches σ), [])
      | Some vs => (mkSystem s (batches σ ++ [Some (mkBatch o now vs None)]), [])
      end
  | Next i local at_ =>
      match batches σ !! i with
      | Some (Some (mkBatch o now (v :: vs) None)) =>
          let '(s, p) := enter c local o now at_ v s in
          match p with
          | Skipped => (put_batch i (mkBatch o now vs None) σ s, [])
          | Stored => (put_batch i (mkBatch o now vs None) σ s, [KeptFor v])
          | p => (put_batch i (mkBatch o now vs (Some (v, p))) σ s, [])
          end
      | _ => (σ, [])
      end
  | Resume i at_ keep =>
      match batches σ !! i with
      | Some (Some (mkBatch o now vs (Some (v, Decrypting d)))) =>
          match fromPropagationData (clock at_) (blob_data v) d with
          | Some (Ok msg) =>
              let '(s, _) := after_decrypt now v msg s in
              (put_batch i (mkBatch o now vs None) σ s,
               match msg with Some m => [HandedOver v m] | None => [] end)
          | _ => (σ, [])
          end
      | Some (Some (mkBatch o now vs (Some (v, Filtering)))) =>
          let '(s, kept) := after_filter at_ v keep s in
          (put_batch i (mkBatch o now vs None) σ s, if kept then [KeptFor v] else [])
      | _ => (σ, [])
      end
  | End i =>
      match batches σ !! i with
      | Some (Some _) => (mkSystem (set_validating s (validatingCount s - 1)) (<[i:=None]> (batches σ)), [])
      | _ => (σ, [])
      end
  | Get remote data => (mkSystem (fst (handleGetRequest c remote data s)) (batches σ), [])
  | Offer now remote data => (mkSystem (fst (handleOfferRequest c now remote data s)) (batches σ), [])
  | Tick now => (mkSystem (fst (fst (tickMaintenance now s))) (batches σ), [])
  | Throttle now hex => (mkSystem (throttlePeer c now hex s) (batches σ), [])
  | SyncBegins now key => (mkSystem (beginInboundSync now key s) (batches σ), [])
  | SyncEnds key => (mkSystem (endInboundSync key s) (batches σ), [])
  | MarkUnhandled tid peer => (on_store (fun st => fst (markUnhandledForPeer tid peer st)) σ, [])
  | MarkHandled tid peer => (on_store (fun st => fst (markHandledForPeer tid peer st)) σ, [])
  | MarkAll peer => (on_store (fun st => fst (markAllUnhandledForPeer peer st)) σ, [])
  end.

Fixpoint steps (xs : list input) (σ : System) : System * list outcome :=
  match xs with
  | [] => (σ, [])
  | x :: xs => let '(σ, os) := step x σ in let '(σ, os2) := steps xs σ in (σ, os ++ os2)
  end.

(** ** Once *)

(** The keys of the messages whose decryption or filtering is awaited. *)
Definition wait_keys (ob : option Batch) : list jsstr :=
  match ob with
  | Some (mkBatch _ _ _ (Some (v, _))) => [toHex (blob_id v)]
  | _ => []
  end.

Definition awaited (bs : list (option Batch)) : list jsstr := concat (map wait_keys bs).

Definition outcome_key (o : outcome) : jsstr := toHex (blob_id (outcome_blob o)).

(** [k] was recorded as processed no earlier than [t0]. *)
Definition recorded (t0 : Q) (s : PropagationNode) (k : jsstr) : Prop :=
  exists t, get k (locallyProcessed s) = Some t /\ (t0 <= t)%Q.

(** Batches begin, and caches are pruned, within the lifetime of a record
    that is made no earlier than [t0]. *)
Definition in_window (t0 : Q) (x : input) : Prop :=
  match x with
  | Begin now _ _ => (t0 <= now <= t0 + inject_Z PROCESSED_TID_TTL_SECS)%Q
  | Tick now => (now <= t0 + inject_Z PROCESSED_TID_TTL_SECS)%Q
  | _ => True
  end.

Record once_inv (t0 : Q) (done_ : list jsstr) (σ : System) : Prop := {
  oi_distinct : NoDup (done_ ++ awaited (batches σ));
  oi_recorded : Forall (recorded t0 (node σ)) (done_ ++ awaited (batches σ));
  oi_times : Forall (fun ob => match ob with Some b => (t0 <= batch_now b)%Q | None => True end) (batches σ);
}.

Lemma awaited_insert bs i ob ob' : bs !! i = Some ob ->
  exists rest, awaited bs ≡ₚ wait_keys ob ++ rest /\ awaited (<[i:=ob']> bs) ≡ₚ wait_keys ob' ++ rest.
Proof.
  intros Hi. exists (awaited (take i bs ++ drop (S i) bs)). pose proof (lookup_lt_Some _ _ _ Hi).
  rewrite insert_take_drop by done. rewrite <- (take_drop_middle _ _ _ Hi) at 1.
  unfold awaited. rewrite !map_app, !concat_app. cbn [map concat].
  split; rewrite !app_assoc; f_equiv; apply Permutation_app_comm.
Qed.

Lemma recorded_same t0 s s' ks : locallyProcessed s' = locallyProcessed s ->
  Forall (recorded t0 s) ks -> Forall (recorded t0 s') ks.
Proof. intros E Hks. eapply Forall_impl; [exact Hks|]. intros k. unfold recorded. by rewrite E. Qed.

Lemma recorded_pruned t0 now s ks : (now <= t0 + inject_Z PROCESSED_TID_TTL_SECS)%Q ->
  Forall (recorded t0 s) ks -> Forall (recorded t0 (fst (_pruneDedupCaches now s))) ks.
Proof.
  intros Hn Hks. eapply Forall_impl; [exact Hks|]. intros k (t & Hg & Ht). exists t. split; [|done].
  apply get_filter; [done|]. unfold tid_expired. cbn [snd]. apply negb_false_iff, Qle_bool_iff. lra.
Qed.

Lemma recorded_known t0 s k : recorded t0 s k -> has k (locallyProcessed s) = true.
Proof. intros (t & Hg & _). unfold has. by rewrite Hg. Qed.

(** Claiming a message: it was not recorded before and is now. *)
Lemma enter_claims local o now at_ v s s' p t0 ks : enter c local o now at_ v s = (s', p) ->
  (t0 <= now)%Q -> Forall (recorded t0 s) ks ->
  Forall (recorded t0 s') ks
  /\ (p <> Skipped -> toHex (blob_id v) ∉ ks /\ recorded t0 s' (toHex (blob_id v))).
Proof.
  intros He Ht Hks. unfold enter in He. destruct (known (blob_id v) s) eqn:Ek; [by simplify_eq|].
  apply orb_false_iff in Ek as [_ Ek].
  assert (Hfresh : toHex (blob_id v) ∉ ks).
  { intros Hin. rewrite Forall_forall in Hks. apply Hks, recorded_known in Hin. congruence. }
  assert (Hp : locallyProcessed s' = mset (toHex (blob_id v)) now (locallyProcessed s)).
  { destruct (local _); [by simplify_eq|]. destruct (_ && _); by simplify_eq. }
  split.
  - apply Forall_forall. intros k Hk. rewrite Forall_forall in Hks. destruct (Hks k Hk) as (t & Hg & Hle).
    exists t. split; [|done]. rewrite Hp, get_mset_other; [done|]. intros ->. done.
  - intros _. split; [done|]. exists now. split; [|done]. by rewrite Hp, get_mset_same.
Qed.

(** What requests and bookkeeping leave alone. *)
Lemma get_processed remote data s :
  locallyProcessed (fst (handleGetRequest c remote data s)) = locallyProcessed s.
Proof.
  unfold handleGetRequest. destruct remote as [id|]; [|done]. destruct (identityAllowed c id); [|done].
  cbn [negb]. destruct data as [| | | | | | |[|w [|h r]]| |]; try done.
  destruct (lxmf_hash _ _); [|done]. destruct (_ && _); [done|]. by destruct (purge _ _ _).
Qed.

Lemma offer_processed now remote data s :
  store (fst (handleOfferRequest c now remote data s)) = store s
  /\ locallyProcessed (fst (handleOfferRequest c now remote data s)) = locallyProcessed s.
Proof.
  unfold handleOfferRequest. destruct remote as [id|]; [|done]. destruct (identityAllowed c id); [|done].
  cbn [negb]. destruct data as [| | | | | | |[|k r]| |]; try done.
  destruct k as [| | | | | |key| | |]; destruct r as [|o r]; try done.
  destruct (validatePeeringKey _ _ _); [|done]. cbn [negb]. destruct (lxmf_hash _ _); [|done].
  unfold admit_offer. destruct (get _ _); [|done]. by destruct (Qle_bool _ _).
Qed.

Lemma once_same t0 ks σ s : once_inv t0 ks σ -> locallyProcessed s = locallyProcessed (node σ) ->
  once_inv t0 ks (mkSystem s (batches σ)).
Proof. intros [H1 H2 H3] E. split; [done| |done]. by eapply recorded_same. Qed.

(** A batch whose awaited message, if any, is settled in place. *)
Lemma once_settle t0 ks σ i o now vs v p vs' s os : once_inv t0 ks σ ->
  batches σ !! i = Some (Some (mkBatch o now vs (Some (v, p)))) ->
  locallyProcessed s = locallyProcessed (node σ) ->
  (map outcome_key os = [] \/ map outcome_key os = [toHex (blob_id v)]) ->
  once_inv t0 (ks ++ map outcome_key os) (put_batch i (mkBatch o now vs' None) σ s).
Proof.
  intros [H1 H2 H3] Hi Hs Hos.
  destruct (awaited_insert _ _ _ (Some (mkBatch o now vs' None)) Hi) as (rest & E1 & E2). cbn [wait_keys app] in E1, E2.
  rewrite E1 in H1, H2. split; cbn [put_batch node batches].
  - rewrite E2. destruct Hos as [-> | ->]; [rewrite app_nil_r|by rewrite <- app_assoc].
    apply NoDup_app in H1 as (N1 & N2 & N3). apply NoDup_cons in N3 as [_ N3].
    apply NoDup_app. split; [done|]. split; [set_solver|done].
  - rewrite E2. eapply recorded_same; [exact Hs|]. destruct Hos as [-> | ->].
    + rewrite app_nil_r. apply Forall_app in H2 as [? H2]. apply Forall_cons in H2 as [_ H2]. by apply Forall_app.
    + by rewrite <- app_assoc.
  - apply Forall_insert; [done|]. apply (Forall_lookup_1 _ _ _ _ H3 Hi).
Qed.

Lemma once_claimed t0 ks σ i o now vs v w s os : once_inv t0 ks σ ->
  batches σ !! i = Some (Some (mkBatch o now (v :: vs) None)) ->
  toHex (blob_id v) ∉ ks ++ awaited (batches σ) ->
  Forall (recorded t0 s) (ks ++ awaited (batches σ)) -> recorded t0 s (toHex (blob_id v)) ->
  wait_keys (Some (mkBatch o now vs w)) ++ map outcome_key os = [toHex (blob_id v)] ->
  once_inv t0 (ks ++ map outcome_key os) (put_batch i (mkBatch o now vs w) σ s).
Proof.
  intros [H1 H2 H3] Hi Hf Hr Hv Hk.
  destruct (awaited_insert _ _ _ (Some (mkBatch o now vs w)) Hi) as (rest & E1 & E2). cbn [wait_keys app] in E1.
  assert (E : (ks ++ map outcome_key os) ++ awaited (<[i:=Some (mkBatch o now vs w)]> (batches σ))
    ≡ₚ toHex (blob_id v) :: ks ++ awaited (batches σ)).
  { rewrite E2, E1, <- app_assoc, (app_assoc (map outcome_key os)), (Permutation_app_comm (map outcome_key os)), Hk.
    cbn [app]. by rewrite Permutation_middle. }
  split; cbn [put_batch node batches].
  - rewrite E. by apply NoDup_cons.
  - rewrite E. by apply Forall_cons.
  - apply Forall_insert; [done|]. apply (Forall_lookup_1 _ _ _ _ H3 Hi).
Qed.

Lemma once_skipped t0 ks σ i o now v vs s : once_inv t0 ks σ ->
  batches σ !! i = Some (Some (mkBatch o now (v :: vs) None)) ->
  Forall (recorded t0 s) (ks ++ awaited (batches σ)) ->
  once_inv t0 ks (put_batch i (mkBatch o now vs None) σ s).
Proof.
  intros [H1 H2 H3] Hi Hr.
  destruct (awaited_insert _ _ _ (Some (mkBatch o now vs None)) Hi) as (rest & E1 & E2). cbn [wait_keys app] in E1, E2.
  assert (E : awaited (<[i:=Some (mkBatch o now vs None)]> (batches σ)) ≡ₚ awaited (batches σ)) by by rewrite E1.
  split; cbn [put_batch node batches]; [by rewrite E|by rewrite E|].
  apply Forall_insert; [done|]. apply (Forall_lookup_1 _ _ _ _ H3 Hi).
Qed.

Lemma once_next t0 ks σ i local at_ σ' os : once_inv t0 ks σ -> step (Next i local at_) σ = (σ', os) ->
  once_inv t0 (ks ++ map outcome_key os) σ'.
Proof.
  intros Hinv. cbn [step]. pose proof (app_nil_r ks) as Enil.
  destruct (batches σ !! i) as [[[o now [|v vs] [w|]]|]|] eqn:Ei;
    try (intros [= <- <-]; cbn [map]; by rewrite Enil).
  assert (Ht : (t0 <= now)%Q) by (apply (Forall_lookup_1 _ _ _ _ (oi_times _ _ _ Hinv) Ei)).
  destruct (enter c local o now at_ v (node σ)) as [s p] eqn:Ee.
  destruct (enter_claims _ _ _ _ _ _ _ _ _ _ Ee Ht (oi_recorded _ _ _ Hinv)) as [Hr Hc].
  destruct p as [| |d|]; intros [= <- <-]; cbn [map]; try (destruct (Hc ltac:(done)) as [Hf Hv]).
  - rewrite Enil. by eapply once_skipped.
  - change [outcome_key (KeptFor v)] with (map outcome_key [KeptFor v]). by eapply once_claimed.
  - change (@nil jsstr) with (map outcome_key []). by eapply once_claimed.
  - change (@nil jsstr) with (map outcome_key []). by eapply once_claimed.
Qed.

Lemma once_resume t0 ks σ i at_ keep σ' os : once_inv t0 ks σ -> step (Resume i at_ keep) σ = (σ', os) ->
  once_inv t0 (ks ++ map outcome_key os) σ'.
Proof.
  intros Hinv. cbn [step]. pose proof (app_nil_r ks) as Enil.
  destruct (batches σ !! i) as [[[o now vs [[v [| |d|]]|]]|]|] eqn:Ei;
    try (intros [= <- <-]; cbn [map]; by rewrite Enil).
  - destruct (fromPropagationData _ _ _) as [[msg|e]|]; try (intros [= <- <-]; cbn [map]; by rewrite Enil).
    destruct msg as [m|]; intros [= <- <-]; eapply once_settle; try done; [by right|by left].
  - destruct keep; intros [= <- <-]; eapply once_settle; try done; [by right|by left].
Qed.

Lemma once_step t0 ks σ x σ' os : once_inv t0 ks σ -> in_window t0 x -> step x σ = (σ', os) ->
  once_inv t0 (ks ++ map outcome_key os) σ'.
Proof.
  intros Hinv Hx. destruct x as [now l o|i local at_|i at_ keep|i|remote data|now remote data|now|now hex|now key|key|tid peer|tid peer|peer].
  2: by apply once_next. 2: by apply once_resume.
  all: cbn [step]; pose proof (app_nil_r ks) as Enil.
  6-11: intros [= <- <-]; cbn [map]; rewrite Enil; by apply once_same.
  - assert (Hr : Forall (recorded t0 (prune_due now (node σ))) (ks ++ awaited (batches σ))).
    { unfold prune_due. destruct (Qle_bool _ _); [|apply Hinv]. apply recorded_pruned; [apply Hx|apply Hinv]. }
    destruct (validated_blobs _ _) as [vs|]; intros [= <- <-]; cbn [map]; rewrite Enil.
    + destruct Hinv as [H1 H2 H3].
      assert (Ea : awaited (batches σ ++ [Some (mkBatch o now vs None)]) = awaited (batches σ)).
      { unfold awaited. rewrite map_app, concat_app. cbn. by rewrite app_nil_r. }
      split; cbn [node batches]; rewrite ?Ea; [done| |].
      * by apply (recorded_same _ (prune_due now (node σ))).
      * apply Forall_app. split; [done|]. constructor; [apply Hx|constructor].
    + destruct Hinv as [H1 H2 H3]. split; [done| |done]. by apply (recorded_same _ (prune_due now (node σ))).
  - destruct (batches σ !! i) as [[b|]|] eqn:Ei; intros [= <- <-]; cbn [map]; rewrite Enil; try done.
    destruct Hinv as [H1 H2 H3]. destruct (awaited_insert _ _ _ None Ei) as (rest & E1 & E2). cbn [wait_keys app] in E2.
    rewrite E1 in H1, H2. split; cbn [node batches]; rewrite ?E2.
    + apply NoDup_app in H1 as (N1 & N2 & N3). apply NoDup_app in N3 as (_ & _ & N3). apply NoDup_app. set_solver.
    + apply Forall_app in H2 as [? H2]. apply Forall_app in H2 as [_ H2]. by apply Forall_app.
    + by apply Forall_insert.
  - intros [= <- <-]; cbn [map]; rewrite Enil. apply once_same; [done|]. apply get_processed.
  - intros [= <- <-]; cbn [map]; rewrite Enil. apply once_same; [done|]. apply offer_processed.
  - intros [= <- <-]; cbn [map]; rewrite Enil. destruct Hinv as [H1 H2 H3]. split; [done| |done]. cbn [node].
    unfold tickMaintenance. destruct (prune now _) as [st aged]. destruct (_pruneDedupCaches _ _) as [s n] eqn:Ep.
    cbn [fst]. replace s with (fst (_pruneDedupCaches now (set_store (node σ) st))) by by rewrite Ep.
    by apply recorded_pruned.
Qed.

(** C17: Whatever batches, requests, maintenance and bookkeeping do in between,
    as long as they fall within the 180 days that a processed id is remembered,
    no message is stored or handed to the application twice. *)
Theorem processed_once (t0 : Q) (s : PropagationNode) (xs : list input) (Hx : Forall (in_window t0) xs) :
  NoDup (map outcome_key (snd (steps xs (mkSystem s [])))).
Proof.
  enough (Hrun : forall xs ks σ, Forall (in_window t0) xs -> once_inv t0 ks σ ->
    once_inv t0 (ks ++ map outcome_key (snd (steps xs σ))) (fst (steps xs σ))).
  { pose proof (oi_distinct _ _ _ (Hrun xs [] (mkSystem s []) Hx ltac:(by split; constructor))) as Hn.
    by apply NoDup_app in Hn as [Hn _]. }
  clear. induction xs as [|x xs IH]; intros ks σ Hx Hinv; cbn [steps fst snd map]; [by rewrite app_nil_r|].
  apply Forall_cons in Hx as [Hx Hxs]. destruct (step x σ) as [σ1 os] eqn:Es.
  pose proof (once_step _ _ _ _ _ _ Hinv Hx Es) as H1. specialize (IH _ _ Hxs H1).
  destruct (steps xs σ1) as [σ2 os2]. cbn [fst snd] in *. by rewrite map_app, app_assoc.
Qed.

(** ** Only what was validated *)

(** The stamp of some data is good enough for this node. *)
Definition stamped (data stamp : bytes) (v : Z) : Prop :=
  let workblock := stampWorkblock (sha256 data) WORKBLOCK_EXPAND_ROUNDS_PN in
  (LXMF_OVERHEAD < length data)%nat /\ length stamp = STAMP_SIZE
  /\ stampValid stamp (minAcceptedCost c) workblock = true /\ Stamper.stampValue workblock stamp = Some v.

Definition blob_valid (v : Blob) : Prop :=
  blob_id v = sha256 (blob_data v) /\ stamped (blob_data v) (blob_stamp v) (blob_value v).

Definition entry_valid (e : PropagationEntry) : Prop :=
  transientId e = sha256 (lxmfData e) /\ destinationHash e = take DESTINATION_LENGTH (lxmfData e)
  /\ size e = zlen (lxmfData e) + zlen (stampData e) /\ stamped (lxmfData e) (stampData e) (stampValue e).

Lemma pn_stamp_parts td w : validatePnStamp td (minAcceptedCost c) = Some w ->
  Stamper.transientId w = sha256 (Stamper.lxmfData w)
  /\ (forall v, stampValueOf w = Some v -> stamped (Stamper.lxmfData w) (Stamper.stampData w) v).
Proof.
  unfold validatePnStamp. destruct (length td <=? _)%nat eqn:El; [done|]. apply Nat.leb_gt in El.
  destruct (stampValid _ _ _) eqn:Ev; [|done]. intros [= <-].
  cbn [Stamper.transientId Stamper.lxmfData Stamper.stampData stampValueOf]. split; [done|]. intros v Hv.
  unfold LXMF_OVERHEAD, STAMP_SIZE in El. split; [|split; [|split; [exact Ev|exact Hv]]].
  - rewrite length_take. unfold LXMF_OVERHEAD, STAMP_SIZE. lia.
  - rewrite length_drop. unfold STAMP_SIZE. lia.
Qed.

Lemma validated_origin l vs : validated_blobs l (minAcceptedCost c) = Some vs ->
  Forall (fun b => exists td w, In td l /\ validatePnStamp td (minAcceptedCost c) = Some w
    /\ blob_id b = Stamper.transientId w /\ blob_data b = Stamper.lxmfData w
    /\ blob_stamp b = Stamper.stampData w /\ stampValueOf w = Some (blob_value b)) vs.
Proof.
  intros Hm. eapply Forall_impl; [exact (mapM_omap _ _ _ _ Hm)|]. cbn beta.
  intros b (td & w & H1 & H2 & H3). exists td, w. split; [done|]. split; [done|].
  apply fmap_Some in H3 as (v & H3 & ->). done.
Qed.

Lemma validated_valid l vs : validated_blobs l (minAcceptedCost c) = Some vs -> Forall blob_valid vs.
Proof.
  intros Hm. eapply Forall_impl; [exact (validated_origin _ _ Hm)|]. cbn beta.
  intros b (td & w & _ & Hw & E1 & E2 & E3 & E4). apply pn_stamp_parts in Hw as [H1 H2].
  unfold blob_valid. rewrite E1, E2, E3. split; [done|]. by apply H2.
Qed.

Record sound_store (limit : option Z) (st : MessageStore) : Prop := {
  ss_inv : store_inv st;
  ss_within : within st;
  ss_limit : storageLimitBytes st = limit;
  ss_valid : Forall (fun '(_, e) => entry_valid e) (_entries st);
}.

Definition nonneg (limit : option Z) : Prop := match limit with Some l => 0 <= l | None => True end.

Lemma sound_run limit t o st : nonneg limit -> sound_store limit st -> op_ok o ->
  match o with OpAdd e => entry_valid e | _ => True end -> sound_store limit (store_run t o st).
Proof.
  intros Hl [H1 H2 H3 H4] Ho Hv. split.
  - apply run_inv; [done|]. destruct o; try done. apply Ho.
  - apply run_within; [done|done| |exact Ho]. unfold cap_ok. by rewrite H3.
  - by rewrite run_limit.
  - apply run_everywhere; [by intros e h|by intros e h|done|done].
Qed.

Lemma sound_purge limit hs owner : forall st, nonneg limit -> sound_store limit st ->
  sound_store limit (fst (purge hs owner st)).
Proof.
  induction hs as [|v hs IH]; intros st Hl Hs; cbn [purge]; [done|].
  destruct (as_tid v) as [tid|]; [|done]. apply IH; [done|].
  exact (sound_run limit 0 (OpRemoveFor tid owner) st Hl Hs I I).
Qed.

Lemma sound_get limit remote data s : nonneg limit -> sound_store limit (store s) ->
  sound_store limit (store (fst (handleGetRequest c remote data s))).
Proof.
  intros Hl Hs. unfold handleGetRequest. destruct remote as [id|]; [|done].
  destruct (identityAllowed c id); [|done]. cbn [negb].
  destruct data as [| | | | | | |[|w [|h r]]| |]; try done.
  destruct (lxmf_hash _ _) as [owner|]; [|done]. destruct (_ && _); [done|].
  pose proof (sound_purge limit (array_of h) owner _ Hl Hs) as Hp. by destruct (purge _ _ _).
Qed.

Lemma sound_blob limit at_ v s : nonneg limit -> sound_store limit (store s) -> blob_valid v ->
  sound_store limit (store (store_blob at_ v s)).
Proof.
  intros Hl Hs [Hid Hst]. apply (sound_run limit at_ (OpAdd (entry_of at_ v)) (store s) Hl Hs).
  - split; [by intros x Hx%not_elem_of_nil|]. cbn. unfold blob_size, zlen. lia.
  - split; [done|]. split; [done|]. split; [done|]. exact Hst.
Qed.

(** Every blob a batch still holds is a validated one. *)
Definition batch_valid (ob : option Batch) : Prop :=
  match ob with
  | Some b => Forall blob_valid (batch_todo b) /\ match batch_wait b with Some (v, _) => blob_valid v | None => True end
  | None => True
  end.

Record sound_system (limit : option Z) (σ : System) : Prop := {
  sys_store : sound_store limit (store (node σ));
  sys_batches : Forall batch_valid (batches σ);
}.

Lemma sound_put limit σ i b s : sound_system limit σ -> sound_store limit (store s) -> batch_valid (Some b) ->
  sound_system limit (put_batch i b σ s).
Proof. intros [H1 H2] Hs Hb. split; [done|]. by apply Forall_insert. Qed.

Lemma sound_step limit x σ σ' os : nonneg limit -> sound_system limit σ -> step x σ = (σ', os) ->
  sound_system limit σ' /\ Forall (fun o => blob_valid (outcome_blob o)) os.
Proof.
  intros Hl Hσ. pose proof Hσ as [Hs Hb].
  assert (Hkeep : forall s, store s = store (node σ) -> sound_system limit (mkSystem s (batches σ))).
  { intros s E. split; [|done]. cbn [node]. by rewrite E. }
  destruct x as [now l o|i local at_|i at_ keep|i|remote data|now remote data|now|now hex|now key|key|tid peer|tid peer|peer];
    cbn [step].
  - assert (Ep : store (prune_due now (node σ)) = store (node σ)) by (unfold prune_due; by destruct (Qle_bool _ _)).
    destruct (validated_blobs _ _) as [vs|] eqn:Ev; intros [= <- <-]; (split; [|done]); [|by apply Hkeep].
    split; cbn [node batches]; [by cbn [set_validating store]; rewrite Ep|].
    apply Forall_app. split; [done|]. constructor; [|done]. split; [|done]. by eapply validated_valid.
  - destruct (batches σ !! i) as [[[o now [|v vs] [w|]]|]|] eqn:Ei; try (intros [= <- <-]; done).
    destruct (Forall_lookup_1 _ _ _ _ Hb Ei) as [Hv _]. cbn in Hv. apply Forall_cons in Hv as [Hv Hvs].
    destruct (enter c local o now at_ v (node σ)) as [s p] eqn:Ee.
    assert (Hst : sound_store limit (store s)).
    { unfold enter in Ee. destruct (known _ _); [by simplify_eq|]. destruct (local _); [by simplify_eq|].
      destruct (_ && _); simplify_eq; [done|]. by apply sound_blob. }
    destruct p; intros [= <- <-]; (split; [by apply sound_put|]); first [by apply Forall_nil | by apply Forall_singleton].
  - destruct (batches σ !! i) as [[[o now vs [[v [| |d|]]|]]|]|] eqn:Ei; try (intros [= <- <-]; done);
      destruct (Forall_lookup_1 _ _ _ _ Hb Ei) as [Hvs Hv]; cbn in Hv, Hvs.
    + destruct (fromPropagationData _ _ _) as [[[m|]|e]|]; intros [= <- <-]; try done;
        (split; [by apply sound_put|]); first [by apply Forall_nil | by apply Forall_singleton].
    + destruct keep; intros [= <- <-]; (split; [apply sound_put; try done; by apply sound_blob|]); first [by apply Forall_nil | by apply Forall_singleton].
  - destruct (batches σ !! i) as [[b|]|] eqn:Ei; intros [= <- <-]; try done.
    split; [|done]. split; [done|]. by apply Forall_insert.
  - intros [= <- <-]. split; [|done]. split; [|done]. by apply sound_get.
  - intros [= <- <-]. split; [|done]. apply Hkeep. apply offer_processed.
  - intros [= <- <-]. split; [|done]. split; [|done]. cbn [node].
    pose proof (sound_run limit now OpPrune _ Hl Hs I I) as Hr. cbn [store_run] in Hr.
    unfold tickMaintenance. by destruct (prune now (store (node σ))).
  - intros [= <- <-]. split; [|done]. by apply Hkeep.
  - intros [= <- <-]. split; [|done]. by apply Hkeep.
  - intros [= <- <-]. split; [|done]. by apply Hkeep.
  - intros [= <- <-]. split; [|done]. split; [|done]. exact (sound_run limit 0 (OpUnhandled tid peer) _ Hl Hs I I).
  - intros [= <- <-]. split; [|done]. split; [|done]. exact (sound_run limit 0 (OpHandled tid peer) _ Hl Hs I I).
  - intros [= <- <-]. split; [|done]. split; [|done]. exact (sound_run limit 0 (OpAllUnhandled peer) _ Hl Hs I I).
Qed.

(** C29: Whatever happens to a node that starts empty, every message it stores
    has the hash of its data as its id, begins with its recipient's hash, is as
    large as it says and carries a stamp that the stamp check accepts at the
    node's accepted cost, and the value recorded with it is what that stamp is
    worth (which can be one less than the cost, [Stamper.stampValid_value]); so
    does every message handed to the application; and the store stays sound
    and within its cap. *)
Theorem stored_authentic (limit : option Z) (ttl : option Q) (xs : list input) (Hl : nonneg limit) :
  let run := steps xs (mkSystem (new_PropagationNode (new_MessageStore limit ttl)) []) in
  sound_store limit (store (node (fst run))) /\ Forall (fun o => blob_valid (outcome_blob o)) (snd run).
Proof.
  assert (H0 : sound_system limit (mkSystem (new_PropagationNode (new_MessageStore limit ttl)) [])).
  { repeat split; try constructor. by destruct limit. }
  revert H0. generalize (mkSystem (new_PropagationNode (new_MessageStore limit ttl)) []) as σ.
  induction xs as [|x xs IH]; intros σ Hσ; cbn [steps fst snd]; [split; [apply Hσ|constructor]|].
  destruct (step x σ) as [σ1 os] eqn:Es. destruct (sound_step limit x σ σ1 os Hl Hσ Es) as [H1 H2].
  destruct (IH σ1 H1) as [H3 H4]. destruct (steps xs σ1) as [σ2 os2]. cbn [fst snd] in *.
  split; [done|]. by apply Forall_app.
Qed.

End Life.

(** ** A concrete run: a submission, twice, then a list request *)

Section Samples.
Import MsgPackSpec.Host.
#[local] Existing Instances sum_crypto sum_laws no_exotic.

Definition sample_submission : bytes := sample_message ++ sample_stamp.

Definition sample_inputs : list input :=
  [Begin 10 [sample_submission; sample_submission] Submission; Next 0 (fun _ => None) 11;
   Begin 12 [sample_submission] Submission; Next 1 (fun _ => None) 13; Next 0 (fun _ => None) 14; End 0; Tick 15].

Lemma processed_once_witness :
  NoDup (map outcome_key (snd (steps (fun _ => VInt 0) default_config sample_inputs
    (mkSystem (new_PropagationNode (new_MessageStore None None)) [])))).
Proof.
  apply (@processed_once sum_crypto no_exotic (fun _ => VInt 0) default_config 5).
  repeat (apply Forall_cons; split); try exact I; try (split; vm_compute; discriminate);
    [vm_compute; discriminate|constructor].
Defined.

Lemma stored_authentic_witness : sound_store default_config (Some 1000) (store (node (fst
  (steps (fun _ => VInt 0) default_config sample_inputs
    (mkSystem (new_PropagationNode (new_MessageStore (Some 1000) None)) []))))).
Proof.
  refine (proj1 (@stored_authentic sum_crypto no_exotic (fun _ => VInt 0) default_config (Some 1000) None sample_inputs _)).
  discriminate.
Defined.

(** The message is stored once. *)
Example sample_outcomes :
  map outcome_key (snd (steps (fun _ => VInt 0) default_config sample_inputs
    (mkSystem (new_PropagationNode (new_MessageStore None None)) []))) = [toHex (sha256 sample_message)].
Proof. vm_compute. reflexivity. Qed.
End Samples.
