(* ===== verification/SyncSpec.v ===== *)
(** * SyncSpec: messages that reach a node, and nodes that sync

    What one undisturbed batch does to a node ([submissions_kept]), what an
    offer answers ([offer_answered]), and a sync of one node with another: after
    it the peer has every message that was offered and nothing of it is offered
    again ([sync_converges]). *)

From Stdlib Require Import QArith.
From S2P Require Import Prelude Encoding JsMap Utf8 MsgPack MsgPackSpec Packet Crypto Identity Destination.
From S2P Require Import Sorting Stamper LxmfMessage LxmfMessageSpec MessageStore PropagationNode Peer PropagationSpec.
From S2P Require Import PropagationLife.
#[local] Open Scope Z_scope.

(** ** One batch *)

Section Ingest.
Context `{C : WebCrypto} `{H : JsHost}.
Variable clock : Q -> value.
Variable c : NodeConfig.
Variable app : Application.
Variable now : Q.

(** Nothing known is forgotten and, without a cap, nothing stored is lost. *)
Record grows (s s' : PropagationNode) : Prop := {
  g_known : forall tid, known tid s = true -> known tid s' = true;
  g_entries : forall k e, get k (_entries (store s)) = Some e -> get k (_entries (store s')) = Some e;
  g_limit : storageLimitBytes (store s') = None;
}.

Lemma grows_refl s : storageLimitBytes (store s) = None -> grows s s.
Proof using Type. by split. Qed.

Lemma grows_trans s1 s2 s3 : grows s1 s2 -> grows s2 s3 -> grows s1 s3.
Proof using Type. intros [A1 A2 A3] [B1 B2 B3]. split; auto. Qed.

(** What the node owes a message it did not know. *)
Definition settled (o : Origin) (v : Blob) (s' : PropagationNode) (es : list node_event) (n : Counts) : Prop :=
  match delivery_for app (blob_dest v) with
  | Some d =>
      match fromPropagationData (clock now) (blob_data v) d with
      | Some (Ok (Some m)) => LocalDelivery m (blob_id v) ∈ es
      | Some (Ok None) => True
      | _ => False
      end
  | None =>
      o = Submission \/ hasIngestFilter c = false ->
      get_message (blob_id v) (store s') = Some (entry_of now v) /\ blob_id v ∈ storedIds n
  end.

Lemma settled_grows o v s s' es es' n n' : grows s s' -> (forall ev, ev ∈ es -> ev ∈ es') ->
  (forall tid, tid ∈ storedIds n -> tid ∈ storedIds n') -> settled o v s es n -> settled o v s' es' n'.
Proof using Type.
  intros Hg He Hn. unfold settled. destruct (delivery_for app _) as [d|].
  - destruct (fromPropagationData _ _ _) as [[[m|]|]|]; auto.
  - intros Hs Ho. destruct (Hs Ho) as [H1 H2]. split; [|by apply Hn]. by apply (g_entries _ _ Hg).
Qed.

(** Recording an id, and storing a blob. *)
Lemma known_process s k t tid : known tid (set_processed s (mset k t (locallyProcessed s)))
  = bool_decide (toHex tid = k) || known tid s.
Proof using Type.
  unfold known. cbn [set_processed store locallyProcessed]. rewrite has_mset.
  destruct (has_message _ _), (bool_decide _); cbn [orb]; by rewrite ?orb_true_r.
Qed.

Lemma process_grows s k t : storageLimitBytes (store s) = None ->
  grows s (set_processed s (mset k t (locallyProcessed s))).
Proof using Type.
  intros Hl. split; [|done|done]. intros tid Hk. by rewrite known_process, Hk, orb_true_r.
Qed.

Lemma store_blob_uncapped s at_ v : storageLimitBytes (store s) = None -> has_message (blob_id v) (store s) = false ->
  store_blob at_ v s
  = set_store s (with_entries (store s) (mset (toHex (blob_id v)) (entry_of at_ v) (_entries (store s)))
                   (_totalBytes (store s) + blob_size v)).
Proof using Type.
  intros Hl Hn. unfold store_blob, add, has_message in *. cbn [entry_of transientId]. rewrite Hn. cbn [fst].
  unfold _enforceCapacity. cbn [with_entries storageLimitBytes]. by rewrite Hl.
Qed.

Lemma store_grows s at_ v : storageLimitBytes (store s) = None -> has_message (blob_id v) (store s) = false ->
  grows s (store_blob at_ v s)
  /\ get_message (blob_id v) (store (store_blob at_ v s)) = Some (entry_of at_ v)
  /\ forall tid, known tid (store_blob at_ v s) = bool_decide (toHex tid = toHex (blob_id v)) || known tid s.
Proof using Type.
  intros Hl Hn. rewrite store_blob_uncapped by done.
  assert (Hk : forall tid, known tid (set_store s (with_entries (store s)
      (mset (toHex (blob_id v)) (entry_of at_ v) (_entries (store s))) (_totalBytes (store s) + blob_size v)))
    = bool_decide (toHex tid = toHex (blob_id v)) || known tid s).
  { intros tid. unfold known, has_message. cbn [set_store store locallyProcessed with_entries _entries].
    by rewrite has_mset, orb_assoc. }
  split; [|split; [|exact Hk]].
  - split; [|intros k e Hg|exact Hl]; [intros tid Htid; by rewrite Hk, Htid, orb_true_r|].
    cbn [set_store store with_entries _entries]. rewrite get_mset_other; [done|]. intros ->.
    unfold has_message, has in Hn. by rewrite Hg in Hn.
  - unfold get_message. cbn [set_store store with_entries _entries]. by rewrite get_mset_same.
Qed.

Record one_spec (o : Origin) (v : Blob) (s s' : PropagationNode) (es : list node_event) (n n' : Counts) : Prop := {
  os_grows : grows s s';
  os_known : known (blob_id v) s' = true;
  os_others : forall tid, toHex tid <> toHex (blob_id v) -> known tid s' = known tid s;
  os_ids : (forall tid, tid ∈ storedIds n -> tid ∈ storedIds n') /\ rejected n' = rejected n;
  os_settled : known (blob_id v) s = false -> settled o v s' es n';
}.

Lemma ingest_one_spec o v s n s' es n' : storageLimitBytes (store s) = None ->
  ingest_one clock c app o now v s n = (s', es, dret n') -> one_spec o v s s' es n n'.
Proof using Type.
  intros Hl. unfold ingest_one, enter. destruct (known (blob_id v) s) eqn:Ek.
  { intros [= <- <- <-]. split; auto; [by apply grows_refl|congruence]. }
  set (s1 := set_processed _ _).
  assert (Hg1 : grows s s1) by by apply process_grows.
  assert (Hk1 : forall tid, known tid s1 = bool_decide (toHex tid = toHex (blob_id v)) || known tid s)
    by (intros tid; apply known_process).
  assert (Hn1 : has_message (blob_id v) (store s1) = false) by by apply orb_false_iff in Ek as [Ek _].
  destruct (store_grows s1 now v Hl Hn1) as (Hg2 & He2 & Hk2).
  assert (Hk3 : forall tid, known tid (store_blob now v s1) = bool_decide (toHex tid = toHex (blob_id v)) || known tid s).
  { intros tid. rewrite Hk2, Hk1. by destruct (bool_decide _). }
  assert (Hself : forall s2, (forall tid, known tid s2 = bool_decide (toHex tid = toHex (blob_id v)) || known tid s) ->
    known (blob_id v) s2 = true /\ forall tid, toHex tid <> toHex (blob_id v) -> known tid s2 = known tid s).
  { intros s2 E. split; [by rewrite E, bool_decide_true|]. intros tid Hne. by rewrite E, bool_decide_false. }
  destruct (Hself _ Hk1) as [A1 B1]. destruct (Hself _ Hk3) as [A2 B2]. clear Hself.
  pose proof (grows_trans _ _ _ Hg1 Hg2) as Hg3.
  destruct (delivery_for app (blob_dest v)) as [d|] eqn:Ed.
  - destruct (fromPropagationData _ _ _) as [[msg|e]|] eqn:Ef; try done.
    assert (Hset : forall s2 es n', (forall m, msg = Some m -> es = [LocalDelivery m (blob_id v)]) ->
      settled o v s2 es n').
    { intros s2 es0 n0 He. unfold settled. rewrite Ed, Ef. destruct msg as [m|]; [|done].
      rewrite (He m eq_refl). by left. }
    destruct msg as [m|]; cbn [after_decrypt].
    + destruct (on_delivery app m (blob_id v)) as [[]|]; [|done]. intros [= <- <- <-].
      split; [by destruct Hg1|exact A1|exact B1|done|]. intros _. apply Hset. by intros m' [= ->].
    + intros [= <- <- <-]. split; try done. intros _. by apply Hset.
  - assert (Hset : forall es n', blob_id v ∈ storedIds n' -> settled o v (store_blob now v s1) es n').
    { intros es0 n0 Hin. unfold settled. by rewrite Ed. }
    destruct (hasIngestFilter c && bool_decide (o = PeerSync)) eqn:Ef.
    + destruct (ingest_filter app (candidate v)) as [keep|]; [|done]. destruct keep; cbn [after_filter].
      * intros [= <- <- <-]. split; try done; [cbn; set_solver|]. intros _. apply Hset. cbn. set_solver.
      * intros [= <- <- <-]. split; try done. intros _. unfold settled. rewrite Ed.
        apply andb_true_iff in Ef as [E1 E2]. apply bool_decide_eq_true in E2. intros [->|]; congruence.
    + intros [= <- <- <-]. split; try done; [cbn; set_solver|]. intros _. apply Hset. cbn. set_solver.
Qed.
(** The message itself, or another copy of it in the batch, is settled. *)
Definition accounted (o : Origin) (vs : list Blob) (s s' : PropagationNode) (es : list node_event) (n : Counts)
    (v : Blob) : Prop :=
  known (blob_id v) s' = true
  /\ (known (blob_id v) s = true
      \/ exists u, u ∈ vs /\ toHex (blob_id u) = toHex (blob_id v) /\ settled o u s' es n).

Lemma ingest_loop_spec o : forall vs s n s' es n', storageLimitBytes (store s) = None ->
  ingest_loop clock c app o now vs s n = (s', es, dret n') ->
  grows s s' /\ ((forall tid, tid ∈ storedIds n -> tid ∈ storedIds n') /\ rejected n' = rejected n) /\ Forall (accounted o vs s s' es n') vs.
Proof using Type.
  induction vs as [|v vs IH]; intros s n s' es n' Hl; cbn [ingest_loop].
  { intros [= <- <- <-]. split; [by apply grows_refl|]. split; [done|constructor]. }
  destruct (ingest_one clock c app o now v s n) as [[s1 es1] r] eqn:E1. destruct r as [[n1|e]|]; try done.
  destruct (ingest_loop clock c app o now vs s1 n1) as [[s2 es2] r] eqn:E2. intros [= <- <- ->].
  destruct (ingest_one_spec o v s n s1 es1 n1 Hl E1) as [G1 K1 O1 [I1 R1] S1].
  destruct (IH s1 n1 s2 es2 n' (g_limit _ _ G1) E2) as (G2 & [I2 R2] & A2).
  assert (Hev : forall ev, ev ∈ es2 -> ev ∈ es1 ++ es2) by set_solver.
  assert (Hv : known (blob_id v) s = false -> settled o v s2 (es1 ++ es2) n').
  { intros Hk. eapply settled_grows; [exact G2| |exact I2|by apply S1]. set_solver. }
  split; [by eapply grows_trans|]. split; [split; [auto|congruence]|]. constructor.
  - split; [by apply (g_known _ _ G2)|]. destruct (known (blob_id v) s) eqn:Ek; [by left|right].
    exists v. split; [by left|]. auto.
  - eapply Forall_impl; [exact A2|]. cbn beta. intros w [Hk Hw]. split; [done|].
    destruct (decide (toHex (blob_id w) = toHex (blob_id v))) as [He|Hne].
    + destruct (known (blob_id v) s) eqn:Ek.
      * left. unfold known, has_message in *. by rewrite He.
      * right. exists v. split; [by left|]. auto.
    + rewrite (O1 _ Hne) in Hw. destruct Hw as [Hw|(u & Hu & Hid & Hs)]; [by left|right].
      exists u. split; [by right|]. split; [done|].
      apply (settled_grows o u s2 s2 es2 (es1 ++ es2) n' n'); auto. apply grows_refl, (g_limit _ _ G2).
Qed.

(** What a batch leaves behind, for either origin. *)
Definition ingested (o : Origin) (l : list bytes) (s s' : PropagationNode) (es : list node_event) (n : Counts)
    (vs : list Blob) : Prop :=
  Forall (accounted o vs (prune_due now s) s' es n) vs
  /\ (forall tid, known tid (prune_due now s) = true -> known tid s' = true)
  /\ (forall k e, get k (_entries (store s)) = Some e -> get k (_entries (store s')) = Some e)
  /\ (storedIds n <> [] -> OnStored (storedIds n) ∈ es)
  /\ rejected n = (length l - length vs)%nat.

Lemma ingest_ingested o l s s' es n : storageLimitBytes (store s) = None ->
  ingestBlobs clock c app now l o s = (s', es, dret n) ->
  exists vs, validated_blobs l (minAcceptedCost c) = Some vs /\ ingested o l s s' es n vs.
Proof using Type.
  intros Hl Hrun. unfold ingestBlobs, _ingestBlobsInner in Hrun.
  assert (Hp : store (prune_due now s) = store s) by (unfold prune_due; by destruct (Qle_bool _ _)).
  set (s1 := set_validating (prune_due now s) (validatingCount (prune_due now s) + 1)) in *.
  assert (Hs1 : store s1 = store s) by exact Hp.
  destruct (validated_blobs l (minAcceptedCost c)) as [vs|]; [|done]. exists vs. split; [done|].
  destruct (ingest_loop clock c app o now vs s1 _) as [[s2 es2] r] eqn:E.
  destruct r as [[n2|e]|]; try done. injection Hrun as <- <- ->. rewrite <- Hs1 in Hl.
  destruct (ingest_loop_spec o vs s1 _ s2 es2 n Hl E) as (G & [I R] & A).
  assert (Hall : forall ev, ev ∈ es2 -> ev ∈ es2 ++ match storedIds n with [] => [] | ids => [OnStored ids] end) by set_solver.
  split; [|split; [|split; [|split]]].
  - eapply Forall_impl; [exact A|]. cbn beta. intros v [Hk Hv]. split; [exact Hk|].
    destruct Hv as [Hv|(u & Hu & Hid & Hs)]; [by left|right]. exists u. split; [done|]. split; [done|].
    assert (Hs2 : settled o u s2 (es2 ++ match storedIds n with [] => [] | ids => [OnStored ids] end) n).
    { apply (settled_grows o u s2 s2 es2 _ n n); auto. apply grows_refl, (g_limit _ _ G). }
    exact Hs2.
  - intros tid Hk. apply (g_known _ _ G). exact Hk.
  - intros k e Hg. apply (g_entries _ _ G). by rewrite Hs1.
  - intros Hne. destruct (storedIds n) as [|i ids]; [done|]. set_solver.
  - exact R.
Qed.

(** A submission is never lost: when a batch has been ingested by a node
    without a cap, every validly stamped message of it is known to the node and,
    unless the node knew it before, it (or the same message with another stamp
    in the batch) is stored with its data, or handed to the application of its
    local recipient if that can decrypt it; what was stored and known before
    stays; the ids stored are announced to the router; everything else in the
    batch is counted as rejected. *)
Theorem submissions_kept (l : list bytes) (s s' : PropagationNode) (es : list node_event) (n : Counts)
    (Hl : storageLimitBytes (store s) = None)
    (Hrun : ingestBlobs clock c app now l Submission s = (s', es, dret n)) :
  exists vs, validated_blobs l (minAcceptedCost c) = Some vs /\ ingested Submission l s s' es n vs.
Proof using Type. by apply ingest_ingested. Qed.
End Ingest.

(** ** Offers *)

Section Offers.
Context `{C : WebCrypto} `{H : JsHost}.
Variable c : NodeConfig.

Lemma wanted_of_bytes ids s :
  wanted_of (map VBin ids) s = Ok (filter (fun tid => known tid s = false) ids).
Proof.
  induction ids as [|tid ids IH]; cbn [map wanted_of as_tid rbind]; [done|].
  rewrite filter_cons, IH. destruct (known tid s) eqn:Ek; cbn [rbind].
  - by rewrite decide_False.
  - by rewrite decide_True.
Qed.

(** When an offer passes the gates. *)
Definition admissible (now : Q) (h : jsstr) (s : PropagationNode) : Prop :=
  match get h (throttledPeers s) with Some t => (t <= now)%Q | None => True end
  /\ (h ∈ staticPeerHashes c
      \/ ~ (sequentialValidation c = true /\ 0 < validatingCount s)
         /\ ~ (0 < maxInboundSyncs c <= zlen (inboundSyncs s))).

Lemma gates_iff h s :
  bool_decide (h ∈ staticPeerHashes c)
    || negb (sequentialValidation c && (0 <? validatingCount s))
       && negb ((0 <? maxInboundSyncs c) && (maxInboundSyncs c <=? zlen (inboundSyncs s))) = true
  <-> (h ∈ staticPeerHashes c
       \/ ~ (sequentialValidation c = true /\ 0 < validatingCount s)
          /\ ~ (0 < maxInboundSyncs c <= zlen (inboundSyncs s))).
Proof.
  rewrite orb_true_iff, bool_decide_eq_true, andb_true_iff, !negb_true_iff, <- !not_true_iff_false, !andb_true_iff,
    !Z.ltb_lt, Z.leb_le. done.
Qed.

Lemma admit_offer_spec now h s : let '(s1, ok) := admit_offer c now h s in
  store s1 = store s /\ locallyProcessed s1 = locallyProcessed s /\ (ok = true <-> admissible now h s).
Proof.
  unfold admit_offer, admissible. destruct (get h (throttledPeers s)) as [t|].
  - destruct (Qle_bool t now) eqn:Eq; cbn [negb].
    + apply Qle_bool_iff in Eq. do 2 (split; [done|]). rewrite gates_iff. cbn [set_throttled validatingCount inboundSyncs].
      tauto.
    + do 2 (split; [done|]). split; [done|]. intros [Ht _]. apply Qle_bool_iff in Ht. congruence.
  - do 2 (split; [done|]). rewrite gates_iff. tauto.
Qed.

(** The reply to an admitted offer. *)
Definition offer_reply (ids wanted : list bytes) : value :=
  match wanted with
  | [] => VBool false
  | _ => if (length wanted =? length ids)%nat then VBool true else VArr (map VBin wanted)
  end.

Lemma offer_handled (now : Q) (id : Identity) (key : bytes) (ids : list bytes) (rh : bytes) (s : PropagationNode)
    (Hallow : identityAllowed c id = true) (Hrh : lxmf_hash ".propagation" id = Some rh)
    (Hkey : validatePeeringKey (getLocalIdentityHash c ++ identityHash id) key (peeringCost c) = true) :
  let '(s1, ok) := admit_offer c now (toHex rh) s in
  let wanted := filter (fun tid => known tid s = false) ids in
  handleOfferRequest c now (Some id) (VArr [VBin key; VArr (map VBin ids)]) s
  = (s1, if ok then dret (offer_reply ids wanted, negb (bool_decide (wanted = [])))
         else dret (PEER_ERROR_THROTTLED, false))
  /\ store s1 = store s /\ locallyProcessed s1 = locallyProcessed s
  /\ (ok = true <-> admissible now (toHex rh) s).
Proof.
  pose proof (admit_offer_spec now (toHex rh) s) as Hspec.
  destruct (admit_offer c now (toHex rh) s) as [s1 ok] eqn:Ea. destruct Hspec as (H1 & H2 & H3).
  split; [|done]. unfold handleOfferRequest. rewrite Hallow, Hkey, Hrh, Ea. cbn [negb].
  destruct ok; [|done]. cbn [negb offered_list]. unfold dbind, dret, lift_dec. rewrite wanted_of_bytes.
  assert (Hk : forall tid, known tid s1 = known tid s) by (intros; unfold known; by rewrite H1, H2).
  rewrite (list_filter_iff _ (fun tid => known tid s = false)) by (intros; by rewrite Hk).
  unfold offer_reply. rewrite length_map.
  destruct (filter _ ids) as [|w ws]; [done|]. by destruct (_ =? _)%nat.
Qed.

(** An offer with a valid peering key gets, while the peer is throttled, or
    a batch is validating, or too many transfers are in flight, the reply
    THROTTLED; otherwise false when every offered message is known, true when
    none is, and else exactly the unknown ones in the order of the offer.
    Nothing is stored or forgotten, and the link is flagged for a transfer
    exactly when something is wanted. *)
Theorem offer_answered (now : Q) (id : Identity) (key : bytes) (ids : list bytes) (rh : bytes) (s : PropagationNode)
    (Hallow : identityAllowed c id = true) (Hrh : lxmf_hash ".propagation" id = Some rh)
    (Hkey : validatePeeringKey (getLocalIdentityHash c ++ identityHash id) key (peeringCost c) = true) :
  let '(s1, ok) := admit_offer c now (toHex rh) s in
  let wanted := filter (fun tid => known tid s = false) ids in
  handleOfferRequest c now (Some id) (VArr [VBin key; VArr (map VBin ids)]) s
  = (s1, if ok then dret (offer_reply ids wanted, negb (bool_decide (wanted = [])))
         else dret (PEER_ERROR_THROTTLED, false))
  /\ store s1 = store s /\ locallyProcessed s1 = locallyProcessed s
  /\ (ok = true <-> admissible now (toHex rh) s).
Proof. by apply offer_handled. Qed.
End Offers.

(** ** A sync *)

Section Marks.
Variable peer : bytes.

Lemma handled_get t tid st : get_message tid (fst (markHandledForPeer t peer st))
  = if bool_decide (toHex tid = toHex t) then mark_handled (toHex peer) <$> get_message tid st else get_message tid st.
Proof.
  unfold markHandledForPeer, update_entry, get_message. destruct (get (toHex t) (_entries st)) as [e|] eqn:Eg; cbn [fst].
  - cbn [with_entries _entries]. case_bool_decide as Eq; [by rewrite Eq, get_mset_same, Eg|by rewrite get_mset_other].
  - case_bool_decide as Eq; [by rewrite Eq, Eg|done].
Qed.

(** Two records of the same message, the second with the peer perhaps
    marked, and all others as before. *)
Record handled_more (e e' : PropagationEntry) : Prop := {
  hm_id : transientId e' = transientId e;
  hm_data : lxmfData e' = lxmfData e;
  hm_stamp : stampData e' = stampData e;
  hm_value : stampValue e' = stampValue e;
  hm_waiting : forall h, h ∈ unhandledPeers e' -> h ∈ unhandledPeers e;
  hm_others : forall h, h <> toHex peer -> h ∈ unhandledPeers e -> h ∈ unhandledPeers e';
  hm_handled : forall h, h ∈ handledPeers e -> h ∈ handledPeers e';
}.

Lemma mark_all_get ids tid : forall st e, get_message tid st = Some e ->
  exists e', get_message tid (mark_all_handled ids peer st) = Some e' /\ handled_more e e'
    /\ (toHex tid ∈ map toHex ids -> toHex peer ∉ unhandledPeers e' /\ toHex peer ∈ handledPeers e').
Proof.
  induction ids as [|t ids IH]; intros st e Hg; cbn [mark_all_handled fold_left map].
  - exists e. split; [done|]. split; [by split|]. by intros H%not_elem_of_nil.
  - pose proof (handled_get t tid st) as H1. rewrite Hg in H1. case_bool_decide as Eq; cbn in H1.
    + destruct (IH _ _ H1) as (e' & G & [A1 A2 A3 A4 A5 A6 A7] & Hin). exists e'. split; [exact G|]. cbn in A5, A6, A7.
      assert (Hw : forall h, h ∈ unhandledPeers e' -> h ∈ unhandledPeers e /\ h <> toHex peer).
      { intros h Hh. apply A5 in Hh. by apply set_delete_elem in Hh. }
      split; [|intros _; split; [intros Hh; by apply Hw in Hh as [_ ?]|apply A7, set_add_elem; by right]].
      split; auto; intros h Hh; [by apply Hw|intros Hu; apply A6, set_delete_elem; done|apply A7, set_add_elem; by left].
    + destruct (IH _ _ H1) as (e' & G & A & Hin). exists e'. split; [exact G|]. split; [exact A|].
      intros [Ht|Ht]%elem_of_cons; [done|by apply Hin].
Qed.

Lemma marks_inv ids : forall st, store_inv st -> store_inv (mark_all_handled ids peer st).
Proof.
  induction ids as [|t ids IH]; intros st Hs; cbn [mark_all_handled fold_left]; [done|].
  apply IH. exact (run_inv 0 (OpHandled t peer) st Hs I).
Qed.
End Marks.

(** What is offered, and the messages too large for the peer, marked handled. *)
Lemma build_offer_spec p : forall us cum st, exists kept large,
  build_offer p us cum st = (mark_all_handled large (peerHash p) st, map transientId kept)
  /\ (forall u, u ∈ kept -> u ∈ us) /\ (length kept <= length us)%nat.
Proof.
  induction us as [|u us IH]; intros cum st; cbn [build_offer].
  - by exists [], [].
  - destruct (match propagationTransferLimit p with Some l => _ | None => false end).
    + destruct (IH cum (fst (markHandledForPeer (transientId u) (peerHash p) st))) as (kept & large & E & Hk & Hn).
      exists kept, (transientId u :: large). split; [exact E|]. split; [|cbn; lia]. intros x Hx. right. auto.
    + destruct (match propagationSyncLimit p with Some l => _ | None => false end).
      * destruct (IH cum st) as (kept & large & E & Hk & Hn). exists kept, large. split; [exact E|]. split; [|cbn; lia]. intros x Hx. right. auto.
      * destruct (IH (cum + (size u + 16)) st) as (kept & large & E & Hk & Hn). exists (u :: kept), large. rewrite E.
        split; [done|]. split; [|cbn; lia]. intros x [->|Hx]%elem_of_cons; [by left|right; auto].
Qed.

(** It reads the limits of the peer and its hash only. *)
Lemma build_offer_same p p' : propagationTransferLimit p' = propagationTransferLimit p ->
  propagationSyncLimit p' = propagationSyncLimit p -> peerHash p' = peerHash p ->
  forall us cum st, build_offer p' us cum st = build_offer p us cum st.
Proof.
  intros H1 H2 H3 us. induction us as [|u us IH]; intros cum st; [done|]. cbn [build_offer]. rewrite H1, H2, H3.
  by rewrite !IH.
Qed.

Section Sync.
Context `{C : WebCrypto} `{W : !WebCryptoLaws C} `{H : JsHost}.
Variable clock : Q -> value.

(** An entry with the id of its data and a stamp worth what it says. *)
Definition authentic (e : PropagationEntry) : Prop :=
  transientId e = sha256 (lxmfData e) /\ (LXMF_OVERHEAD < length (lxmfData e))%nat
  /\ length (stampData e) = STAMP_SIZE
  /\ Stamper.stampValue (stampWorkblock (sha256 (lxmfData e)) WORKBLOCK_EXPAND_ROUNDS_PN) (stampData e)
     = Some (stampValue e).

Definition stamped_blob (e : PropagationEntry) : bytes := lxmfData e ++ stampData e.

Definition blob_of (e : PropagationEntry) : Blob :=
  mkBlob (transientId e) (lxmfData e) (stampData e) (stampValue e).

Lemma authentic_validates e cost : authentic e -> 0 <= cost <= stampValue e ->
  validatePnStamp (stamped_blob e) cost
  = Some (mkValidated (transientId e) (lxmfData e) (stampData e) (Some (stampValue e))).
Proof.
  intros (Hid & Hl & Hs & Hv) Hc. unfold validatePnStamp, stamped_blob. rewrite length_app, Hs.
  rewrite (proj2 (Nat.leb_gt _ _)) by lia. rewrite Nat.add_sub, take_app_length, drop_app_length, <- Hid, Hid, Hv.
  by rewrite (stampValue_enough _ _ _ _ Hc Hv).
Qed.

Lemma transfer_validates es cost : Forall (fun e => authentic e /\ 0 <= cost <= stampValue e) es ->
  validated_blobs (map stamped_blob es) cost = Some (map blob_of es).
Proof.
  unfold validated_blobs, validatePnStamps. induction 1 as [|e es [Ha Hc] _ IH]; [done|].
  change (map stamped_blob (e :: es)) with (stamped_blob e :: map stamped_blob es).
  assert (Hcons : omap (fun td => validatePnStamp td cost) (stamped_blob e :: map stamped_blob es)
    = mkValidated (transientId e) (lxmfData e) (stampData e) (Some (stampValue e))
      :: omap (fun td => validatePnStamp td cost) (map stamped_blob es)).
  { change (omap ?f (?x :: ?l)) with (match f x with Some y => y :: omap f l | None => omap f l end).
    cbv beta. by rewrite authentic_validates. }
  rewrite Hcons. cbn [mapM mbind option_bind stampValueOf Stamper.transientId Stamper.lxmfData Stamper.stampData].
  cbn [fmap option_fmap option_map]. by rewrite IH.
Qed.

Lemma collect_elem now p st e : e ∈ sync_collect now p st <->
  toHex (peerHash p) ∈ unhandledPeers e /\ min_accepted p <= stampValue e /\ e ∈ values (_entries st).
Proof.
  unfold sync_collect, unhandledEntriesForPeer. rewrite js_sort_elem, list_elem_of_filter. tauto.
Qed.

(** The wanted messages as the store holds them. *)
Lemma transfer_entries ids st : (forall tid, tid ∈ ids -> exists e, get_message tid st = Some e) ->
  exists es, transfer_list ids st = map stamped_blob es /\ Forall2 (fun tid e => get_message tid st = Some e) ids es.
Proof.
  unfold transfer_list. induction ids as [|tid ids IH]; intros Hi; [by exists []|].
  destruct (Hi tid) as [e He]; [by left|]. destruct IH as (es & E & F); [intros t Ht; apply Hi; by right|].
  exists (e :: es). split; [|by constructor].
  change (omap ?f (?x :: ?l)) with (match f x with Some y => y :: omap f l | None => omap f l end).
  cbv beta. rewrite He. cbn [fmap option_fmap option_map map]. by rewrite E.
Qed.
Lemma mark_all_app a b peer st :
  mark_all_handled (a ++ b) peer st = mark_all_handled b peer (mark_all_handled a peer st).
Proof. apply fold_left_app. Qed.

Lemma as_tids ids : mapM (fun v => match as_tid v with Ok b => Some b | Throw _ => None end) (map VBin ids) = Some ids.
Proof. apply mapM_Some. induction ids; by constructor. Qed.

Lemma filter_full {A} (P : A -> Prop) `{!forall x, Decision (P x)} l :
  length (filter P l) = length l -> filter P l = l.
Proof.
  induction l as [|x l IH]; [done|]. rewrite filter_cons. destruct (decide (P x)) as [Hx|Hx]; cbn [length].
  - intros [= E]. by rewrite IH.
  - intros E. pose proof (length_filter P l). lia.
Qed.

(** How the peer's answer is read back. *)
Lemma interpret_reply ids (f : bytes -> bool) p st : lastOffer p = ids ->
  exists unwanted,
    _interpretOfferResponse (offer_reply ids (filter (fun tid => f tid = false) ids)) p st
    = (mark_all_handled unwanted (peerHash p) st, Ok (filter (fun tid => f tid = false) ids))
    /\ forall tid, tid ∈ ids -> toHex tid ∈ map toHex (unwanted ++ filter (fun tid => f tid = false) ids).
Proof.
  intros Ho. remember (filter (fun tid => f tid = false) ids) as wanted eqn:Hw. unfold offer_reply.
  destruct wanted as [|w ws] eqn:Ew.
  - exists ids. rewrite app_nil_r. cbn [_interpretOfferResponse]. rewrite Ho. split; [done|]. intros tid Ht.
    by apply list_elem_of_fmap_2.
  - rewrite <- Ew in *. clear Ew. destruct (length wanted =? length ids)%nat eqn:El.
    + apply Nat.eqb_eq in El. exists []. cbn [_interpretOfferResponse mark_all_handled fold_left app].
      assert (Hall : wanted = ids) by (subst wanted; by apply filter_full). rewrite Hall, Ho. split; [done|]. intros tid Ht. by apply list_elem_of_fmap_2.
    + cbn [_interpretOfferResponse]. rewrite as_tids, Ho. eexists. split; [reflexivity|]. intros tid Ht.
      rewrite map_app. apply elem_of_app. destruct (decide (toHex tid ∈ map toHex wanted)); [by right|left].
      apply list_elem_of_fmap_2, list_elem_of_filter. done.
Qed.
Definition offer_of (key : bytes) (ids : list bytes) : value := VArr [VBin key; VArr (map VBin ids)].

(** From the established link to the offer. *)
Lemma sync_linked_spec us p st key v : peeringKey p = Some (key, v) ->
  exists kept large p1, (forall u, u ∈ kept -> u ∈ us) /\ (length kept <= length us)%nat
  /\ peerHash p1 = peerHash p /\ map transientId kept = snd (build_offer p us 24 st)
  /\ (sync_linked us p st = (p1, mark_all_handled large (peerHash p) st, [Teardown], Ok None)
      /\ kept = [] /\ state p1 = IDLE
      \/ sync_linked us p st = (p1, mark_all_handled large (peerHash p) st, [OfferRequest (offer_of key (map transientId kept))],
            Ok (Some (map transientId kept, offer_of key (map transientId kept))))
         /\ lastOffer p1 = map transientId kept).
Proof.
  intros Hk. unfold sync_linked. set (p0 := set_backoff (set_stage p true LINK_READY) 0 0).
  rewrite (build_offer_same p p0) by done.
  destruct (build_offer_spec p us 24 st) as (kept & large & E & H1 & H2). rewrite E.
  change (peerHash p0) with (peerHash p). change (peeringKey p0) with (peeringKey p). rewrite Hk.
  exists kept, large. destruct kept as [|u kept]; cbn [map].
  - eexists. split; [done|]. split; [done|]. split; [|split; [done|left; split; [reflexivity|done]]]. done.
  - eexists. split; [done|]. split; [done|]. split; [|split; [done|right; split; [reflexivity|done]]]. done.
Qed.

(** From the reply to the transfer. *)
Lemma sync_response_spec now ids (f : bytes -> bool) p st wanted :
  lastOffer p = ids -> wanted = filter (fun tid => f tid = false) ids ->
  (forall marks, exists d,
     packPropagationContainer (transfer_list wanted (mark_all_handled marks (peerHash p) st)) (clock now) = Ok d) ->
  exists unwanted p1 es r, let st1 := mark_all_handled unwanted (peerHash p) st in
  sync_response clock now (offer_reply ids wanted) ids p st = (p1, st1, es, Ok r)
  /\ peerHash p1 = peerHash p
  /\ (forall tid, tid ∈ ids -> toHex tid ∈ map toHex (unwanted ++ wanted))
  /\ (r = None /\ wanted = [] /\ state p1 = IDLE /\ (forall ev, ev ∈ es -> ev = Teardown)
      \/ r = Some wanted /\ exists d, es = [TransferResource d]
           /\ packPropagationContainer (transfer_list wanted st1) (clock now) = Ok d).
Proof.
  intros Ho -> Hpack. destruct (interpret_reply ids f p st Ho) as (unwanted & E & Hall).
  set (wanted := filter _ ids) in *. exists unwanted. unfold sync_response.
  assert (Hne : match offer_reply ids wanted with VInt n => n =? 246 | _ => false end = false)
    by (unfold offer_reply; destruct wanted; [done|]; by destruct (_ =? _)%nat).
  rewrite Hne, E. destruct wanted as [|w ws] eqn:Ew.
  - eexists _, _, None. split; [reflexivity|]. split; [done|]. split; [done|]. left. do 3 (split; [done|]).
    intros ev Hev. cbn in Hev. destruct (link p); set_solver.
  - destruct (Hpack unwanted) as [d Hd]. cbv zeta. rewrite Hd.
    eexists _, _, (Some (w :: ws)). split; [reflexivity|]. split; [done|]. split; [done|]. right. split; [done|]. by exists d.
Qed.
(** The entries of wanted ids, through any marking. *)
Lemma wanted_entries peer marks st wanted es0 : store_inv st ->
  Forall (fun e => e ∈ values (_entries st)) es0 -> (forall tid, tid ∈ wanted -> tid ∈ map transientId es0) ->
  exists es, transfer_list wanted (mark_all_handled marks peer st) = map stamped_blob es
  /\ Forall2 (fun tid e => exists e0, e0 ∈ es0 /\ transientId e0 = tid /\ handled_more peer e0 e) wanted es.
Proof.
  intros Hs Hes Hw. rewrite Forall_forall in Hes.
  assert (Hg : forall tid, tid ∈ wanted -> exists e0 e, e0 ∈ es0 /\ transientId e0 = tid
    /\ get_message tid (mark_all_handled marks peer st) = Some e /\ handled_more peer e0 e).
  { intros tid Ht. apply Hw, list_elem_of_fmap in Ht as (e0 & -> & He).
    destruct (mark_all_get peer marks _ _ _ (get_message_elem _ _ Hs (Hes _ He))) as (e & G & Hm & _). eauto 10. }
  destruct (transfer_entries wanted (mark_all_handled marks peer st)) as (es & E & F).
  { intros tid Ht. destruct (Hg tid Ht) as (e0 & e & _ & _ & G & _). eauto. }
  exists es. split; [exact E|]. clear E Hw. induction F as [|tid e wanted es G F IH]; constructor.
  - destruct (Hg tid) as (e0 & e' & A1 & A2 & A3 & A4); [by left|]. exists e0. simplify_eq. done.
  - apply IH. intros t Ht. apply Hg. by right.
Qed.

Lemma more_authentic peer e e' : handled_more peer e e' -> authentic e -> authentic e'.
Proof. intros [E1 E2 E3 E4 _ _ _]. unfold authentic. by rewrite E1, E2, E3, E4. Qed.

(** What was handled is not offered again. *)
Lemma not_again peer marks st (ids : list bytes) es0 later p' : store_inv st -> peerHash p' = peer ->
  Forall (fun e => e ∈ values (_entries st)) es0 -> (forall tid, tid ∈ ids -> tid ∈ map transientId es0) ->
  (forall tid, tid ∈ ids -> toHex tid ∈ map toHex marks) ->
  forall e, e ∈ sync_collect later p' (mark_all_handled marks peer st) -> transientId e ∉ ids.
Proof.
  intros Hs Hp Hes Hids Hm e He Hin. apply collect_elem in He as (Hun & _ & He). rewrite Hp in Hun.
  pose proof (marks_inv peer marks st Hs) as Hs'. rewrite Forall_forall in Hes.
  pose proof (Hids _ Hin) as (e0 & E0 & H0)%list_elem_of_fmap.
  destruct (mark_all_get peer marks _ _ _ (get_message_elem _ _ Hs (Hes _ H0))) as (e1 & G & _ & Hno).
  rewrite <- E0, (get_message_elem _ _ Hs' He) in G. injection G as <-. destruct Hno as [Hno _]; [|by apply Hno].
  rewrite <- E0. by apply Hm.
Qed.

(** What was transferred is known once it is ingested. *)
Lemma transfer_teaches cB es tid e app o t s s2 evs n : e ∈ es -> transientId e = tid ->
  Forall (fun e => authentic e /\ 0 <= minAcceptedCost cB <= stampValue e) es ->
  storageLimitBytes (store s) = None ->
  ingestBlobs clock cB app t (map stamped_blob es) o s = (s2, evs, dret n) -> known tid s2 = true.
Proof.
  intros He Ht Hes Hl Hrun. destruct (ingest_ingested clock cB app t o _ _ _ _ _ Hl Hrun) as (vs & Hvs & Hk & _).
  rewrite (transfer_validates es _ Hes) in Hvs. injection Hvs as <-.
  rewrite Forall_forall in Hk. destruct (Hk (blob_of e)) as [Hknown _]; [by apply list_elem_of_fmap_2|].
  by rewrite <- Ht.
Qed.

(** What a pass that offers [ids] leaves behind at both ends: every message of
    the store is still there, with what it was for other peers; those offered
    are marked handled for this one, are not collected for it again, and the
    other node knew them or knows them once it has ingested what it got. *)
Record agreed (cB : NodeConfig) (sB : PropagationNode) (key : bytes) (now later : Q) (peer : bytes) (st : MessageStore)
    (ids : list bytes) (p' : LXMPeer) (st' : MessageStore) (es : list peer_event) : Prop := {
  ag_offered : ids <> [] -> OfferRequest (offer_of key ids) ∈ es;
  ag_kept : forall tid e, get_message tid st = Some e -> exists e', get_message tid st' = Some e' /\ handled_more peer e e';
  ag_handled : forall tid, tid ∈ ids -> exists e', get_message tid st' = Some e'
    /\ toHex peer ∈ handledPeers e' /\ toHex peer ∉ unhandledPeers e';
  ag_again : forall e, e ∈ sync_collect later p' st' -> transientId e ∉ ids;
  ag_known : forall tid, tid ∈ ids -> known tid sB = true
     \/ exists d l, TransferResource d ∈ es
        /\ unpackPropagationContainer d = Some (mkContainer (clock now) (map VBin l))
        /\ forall app o t s s2 evs n, storageLimitBytes (store s) = None ->
             ingestBlobs clock cB app t l o s = (s2, evs, dret n) -> known tid s2 = true;
}.

(** The marks make it so at this end. *)
Lemma marks_agreed peer marks st (ids : list bytes) es0 : store_inv st ->
  Forall (fun e => e ∈ values (_entries st)) es0 -> (forall tid, tid ∈ ids -> tid ∈ map transientId es0) ->
  (forall tid, tid ∈ ids -> toHex tid ∈ map toHex marks) ->
  (forall tid e, get_message tid st = Some e ->
     exists e', get_message tid (mark_all_handled marks peer st) = Some e' /\ handled_more peer e e')
  /\ forall tid, tid ∈ ids -> exists e', get_message tid (mark_all_handled marks peer st) = Some e'
       /\ toHex peer ∈ handledPeers e' /\ toHex peer ∉ unhandledPeers e'.
Proof.
  intros Hs Hes Hids Hm. split.
  - intros tid e Hg. destruct (mark_all_get peer marks tid st e Hg) as (e' & G & Hh & _). eauto.
  - intros tid Ht. pose proof (Hids _ Ht) as (e0 & -> & H0)%list_elem_of_fmap. rewrite Forall_forall in Hes.
    destruct (mark_all_get peer marks _ _ _ (get_message_elem _ _ Hs (Hes _ H0))) as (e' & G & _ & Hin).
    exists e'. destruct (Hin (Hm _ Ht)). done.
Qed.

Lemma offer_length now p st : (length (sync_collect now p st) <= length (_entries st))%nat.
Proof.
  unfold sync_collect, unhandledEntriesForPeer. rewrite js_sort_length.
  etrans; [apply length_filter|]. unfold values. by rewrite length_map.
Qed.

(** The container of wanted messages, through any marking. *)
Lemma transfer_packs now peer marks st wanted es0 : store_inv st -> number_ok (clock now) ->
  zlen (_entries st) < 2 ^ 32 -> (length wanted <= length (_entries st))%nat ->
  Forall (fun e => authentic e /\ blob_ok (stamped_blob e)) es0 ->
  Forall (fun e => e ∈ values (_entries st)) es0 -> (forall tid, tid ∈ wanted -> tid ∈ map transientId es0) ->
  exists es d, packPropagationContainer (transfer_list wanted (mark_all_handled marks peer st)) (clock now) = Ok d
  /\ unpackPropagationContainer d = Some (mkContainer (clock now) (map VBin (map stamped_blob es)))
  /\ Forall2 (fun tid e => exists e0, e0 ∈ es0 /\ transientId e0 = tid /\ handled_more peer e0 e) wanted es.
Proof.
  intros Hs Hc Hn Hw Ha Hes Hid. destruct (wanted_entries peer marks st wanted es0 Hs Hes Hid) as (es & -> & F).
  destruct (container_roundtrip (map stamped_blob es) (clock now)) as (d & H1 & H2); [done| | |eauto 10].
  - rewrite Forall_forall in Ha. apply Forall_map. clear -F Ha.
    induction F as [|tid e wanted es (e0 & He0 & _ & [_ E2 E3 _ _ _ _]) F IH]; constructor; [|done].
    unfold stamped_blob. rewrite E2, E3. apply (Ha e0 He0).
  - unfold zlen in *. rewrite length_map, <- (Forall2_length _ _ _ F). lia.
Qed.

Lemma Forall2_pick {A B} (R : A -> B -> Prop) l k x : Forall2 R l k -> x ∈ l -> exists y, y ∈ k /\ R x y.
Proof.
  intros F Hx. apply list_elem_of_lookup in Hx as [i Hi].
  destruct (Forall2_lookup_l _ _ _ _ _ F Hi) as (y & Hy & Hr). exists y. split; [|done]. by eapply list_elem_of_lookup_2.
Qed.

Lemma Forall2_pick_r {A B} (R : A -> B -> Prop) l k y : Forall2 R l k -> y ∈ k -> exists x, x ∈ l /\ R x y.
Proof. intros F%Forall2_flip Hy. by apply (Forall2_pick _ _ _ _ F). Qed.

Lemma offered_once key ids ids' es :
  OfferRequest (offer_of key ids') ∈ [CreateLink; OfferRequest (offer_of key ids)] ++ es ->
  (forall ev, ev ∈ es -> match ev with OfferRequest _ => False | _ => True end) -> ids' = ids.
Proof.
  intros Hin Hes. apply elem_of_app in Hin as [Hin|Hin]; [|by destruct (Hes _ Hin)].
  apply elem_of_cons in Hin as [|Hin]; [done|]. apply list_elem_of_singleton in Hin.
  injection Hin. apply map_VBin_inj.
Qed.

(** From the reply to the end of the pass. *)
Lemma sync_answered_agreed cB sB a p1 st large kept key now later :
  let ids := map transientId kept in
  let wanted := filter (fun tid => known tid sB = false) ids in
  store_inv st -> Forall (fun e => authentic e /\ blob_ok (stamped_blob e)) (values (_entries st)) ->
  lastOffer p1 = ids -> (length kept <= length (_entries st))%nat ->
  Forall (fun e => e ∈ values (_entries st) /\ minAcceptedCost cB <= stampValue e) kept ->
  (forall d, transfer_done a d = Ok tt) -> number_ok (clock now) -> zlen (_entries st) < 2 ^ 32 ->
  exists p' st' es b, sync_answered clock now a ids (offer_reply ids wanted) p1
      (mark_all_handled large (peerHash p1) st) [CreateLink; OfferRequest (offer_of key ids)] = (p', st', es, Ok b)
  /\ state p' = IDLE /\ agreed cB sB key now later (peerHash p1) st ids p' st' es.
Proof.
  intros ids wanted Hst Hauth Ho Hlen Hkept Hdone Hclk Hn. set (peer := peerHash p1).
  assert (Hwanted : forall tid, tid ∈ wanted -> tid ∈ ids) by (intros tid Ht; by apply list_elem_of_filter in Ht as [_ Ht]).
  assert (Hin : Forall (fun e => e ∈ values (_entries st)) kept) by (eapply Forall_impl; [exact Hkept|]; by intros e []).
  assert (Hok : Forall (fun e => authentic e /\ blob_ok (stamped_blob e)) kept).
  { rewrite Forall_forall in Hin, Hauth. apply Forall_forall. auto. }
  assert (Hw : (length wanted <= length (_entries st))%nat).
  { unfold wanted. pose proof (length_filter (fun tid => known tid sB = false) ids) as Hl.
    unfold ids in Hl at 2. rewrite length_map in Hl. lia. }
  pose proof (fun marks => transfer_packs now peer (large ++ marks) st wanted kept Hst Hclk Hn Hw Hok Hin Hwanted) as Hpack.
  destruct (sync_response_spec now ids (fun tid => known tid sB) p1 (mark_all_handled large peer st) wanted Ho eq_refl)
    as (unwanted & p2 & es2 & r & E & Hp2 & Hall & Hcase).
  { intros marks. destruct (Hpack marks) as (es & d & Hd & _). exists d. by rewrite <- mark_all_app. }
  cbv zeta in E. rewrite <- mark_all_app in E, Hcase. unfold sync_answered. rewrite E. clear E.
  destruct Hcase as [(-> & Hnil & Hs & Htd)|(-> & d & -> & Hd)].
  - assert (Hm : forall tid, tid ∈ ids -> toHex tid ∈ map toHex (large ++ unwanted)).
    { intros tid Ht. specialize (Hall tid Ht). rewrite Hnil, app_nil_r in Hall. rewrite map_app. apply elem_of_app. by right. }
    destruct (marks_agreed peer (large ++ unwanted) st ids kept Hst Hin ltac:(done) Hm) as [Hk Hh].
    eexists _, _, _, _. split; [reflexivity|]. split; [done|]. split; [|exact Hk|exact Hh| |].
    + intros _. apply elem_of_app. left. right. by left.
    + by apply (not_again peer (large ++ unwanted) st ids kept later p2 Hst Hp2 Hin).
    + intros tid Ht. left. destruct (known tid sB) eqn:Ek; [done|].
      assert (tid ∈ wanted) by by apply list_elem_of_filter. rewrite Hnil in *. set_solver.
  - rewrite Hdone. cbn [sync_transferred _teardown]. rewrite Hp2, <- mark_all_app.
    assert (Hm : forall tid, tid ∈ ids -> toHex tid ∈ map toHex ((large ++ unwanted) ++ wanted)).
    { intros tid Ht. specialize (Hall tid Ht). rewrite <- app_assoc, map_app. apply elem_of_app. by right. }
    destruct (marks_agreed peer ((large ++ unwanted) ++ wanted) st ids kept Hst Hin ltac:(done) Hm) as [Hk Hh].
    eexists _, _, _, _. split; [reflexivity|]. split; [done|]. split; [|exact Hk|exact Hh| |].
    + intros _. set_solver.
    + apply (not_again peer ((large ++ unwanted) ++ wanted) st ids kept later _ Hst); [exact Hp2|done|done|done].
    + intros tid Ht. destruct (known tid sB) eqn:Ek; [by left|right].
      assert (Htw : tid ∈ wanted) by by apply list_elem_of_filter.
      destruct (Hpack unwanted) as (es & d' & Hd' & Hun & F). rewrite Hd in Hd'. injection Hd' as <-.
      exists d, (map stamped_blob es). split; [set_solver|]. split; [exact Hun|].
      intros app o t s s2 evs n Hl Hrun. clear -W F Htw Hok Hkept Hl Hrun.
      destruct (Forall2_pick _ _ _ _ F Htw) as (e & He & e0 & He0 & Hid & Hm).
      apply (transfer_teaches cB es tid e app o t s s2 evs n He); [by rewrite (hm_id _ _ _ Hm)| |done|done].
      apply Forall_forall. intros x Hx. destruct (Forall2_pick_r _ _ _ _ F Hx) as (t' & Ht' & x0 & Hx0 & _ & Hmx).
      rewrite Forall_forall in Hok, Hkept. split; [by apply (more_authentic peer x0), Hok|].
      rewrite (hm_value _ _ _ Hmx). split; [unfold minAcceptedCost; lia|]. by apply Hkept.
Qed.

(** C26: A sync leaves the peers agreed.  When a node with a valid peering key
    syncs with a node that admits it, it offers the messages that wait for the
    peer as far as its limits let it; every message of its store stays, with
    what it was for other peers; of those offered each is marked handled for
    this peer and is not collected for it again, and the other node knew it, or
    gets it in the transferred container and knows it once that is ingested. *)
Theorem sync_converges (cB : NodeConfig) (sB : PropagationNode) (a : SyncAnswers) (localHash : bytes)
    (p : LXMPeer) (st : MessageStore) (now later : Q) (idA : Identity) (rh key : bytes) (cost v : Z)
    (Hgate : sync_gate now p = true) (Hcost : peerCost p = Some cost) (Hkey : peeringKey p = Some (key, v))
    (Hv : cost <= v) (Hst : store_inv st)
    (Hauth : Forall (fun e => authentic e /\ blob_ok (stamped_blob e)) (values (_entries st)))
    (Hmin : minAcceptedCost cB <= min_accepted p) (Hallow : identityAllowed cB idA = true)
    (Hrh : lxmf_hash ".propagation" idA = Some rh)
    (Hpk : validatePeeringKey (getLocalIdentityHash cB ++ identityHash idA) key (peeringCost cB) = true)
    (Hadm : admissible cB now (toHex rh) sB)
    (Hrecall : recalled_identity a <> None) (Hlink : link_made a = Ok tt) (Hident : link_identified a = Ok tt)
    (Hresp : forall offer s r fl, handleOfferRequest cB now (Some idA) offer sB = (s, dret (r, fl)) ->
               offer_response a offer = Ok r)
    (Hdone : forall d, transfer_done a d = Ok tt)
    (Hclock : number_ok (clock now)) (Hcount : zlen (_entries st) < 2 ^ 32) :
  exists p' st' es b, sync clock now a localHash p st = Some (p', st', es, Ok b) /\ state p' = IDLE
  /\ agreed cB sB key now later (peerHash p) st (snd (build_offer p (sync_collect now p st) 24 st)) p' st' es.
Proof.
  assert (Hidle : state p = IDLE) by (unfold sync_gate in Hgate; apply andb_true_iff in Hgate as [_ Hg];
    by apply bool_decide_eq_true in Hg).
  assert (Hquiet : forall p' marks es, agreed cB sB key now later (peerHash p) st [] p' (mark_all_handled marks (peerHash p) st) es).
  { intros p' marks es. destruct (marks_agreed (peerHash p) marks st [] [] Hst) as [Hk Hh]; [done|set_solver|set_solver|].
    split; [done|exact Hk|exact Hh|set_solver|set_solver]. }
  unfold sync, peeringKeyReady. rewrite Hgate, Hcost, Hkey, (proj2 (Z.leb_le _ _) Hv). cbn [negb].
  destruct (sync_collect now p st) as [|u us] eqn:Ec.
  { eexists _, _, _, _. split; [reflexivity|]. split; [done|]. apply (Hquiet p []). }
  destruct (recalled_identity a); [|done].
  rewrite Hlink, Hident. cbv iota. rewrite <- Ec. clear u us Ec.
  destruct (sync_linked_spec (sync_collect now p st) (sync_connect now p) st key v Hkey)
    as (kept & large & p1 & Hin & Hlen & Hp1 & Hids & [(E & -> & Hs1)|[E Ho]]); rewrite E; cbv iota beta; clear E;
    rewrite (build_offer_same p) in Hids by done; rewrite <- Hids; clear Hids.
  { eexists _, _, _, _. split; [reflexivity|]. split; [done|]. apply Hquiet. }
  set (ids := map transientId kept) in *.
  pose proof (offer_handled cB now idA key ids rh sB Hallow Hrh Hpk) as Hoff.
  pose proof (admit_offer_spec cB now (toHex rh) sB) as Hgates.
  destruct (admit_offer cB now (toHex rh) sB) as [s1 ok]. destruct Hgates as (_ & _ & Hok).
  rewrite (proj2 Hok Hadm) in Hoff. destruct Hoff as [Hoff _]. change (VArr _) with (offer_of key ids) in Hoff.
  rewrite (Hresp _ _ _ _ Hoff). clear Hok Hoff s1 ok.
  change (peerHash (sync_connect now p)) with (peerHash p) in *. rewrite <- Hp1.
  pose proof (offer_length now p st) as Hcl.
  destruct (sync_answered_agreed cB sB a p1 st large kept key now later Hst Hauth Ho ltac:(lia)) as (p' & st' & es & b & E & H1 & H2);
    [|done|done|done|].
  - apply Forall_forall. intros e He%Hin. apply collect_elem in He as (_ & Hc & He). split; [done|lia].
  - unfold ids. rewrite E. by exists p', st', es, b.
Qed.
End Sync.

(** ** A concrete submission and a concrete sync *)

Section Samples.
Import MsgPackSpec.Host.
#[local] Existing Instances sum_crypto sum_laws no_exotic.

Definition sample_app : Application := mkApplication (fun _ => None) (fun _ _ => Ok tt) (fun _ => Ok true).
Definition sample_node : PropagationNode := new_PropagationNode (new_MessageStore None None).
Definition sample_clock (t : Q) : value := VInt 7.

Definition sample_ingested : PropagationNode * list node_event * dec Counts := Eval vm_compute in
  ingestBlobs sample_clock default_config sample_app 1 [sample_submission] Submission sample_node.

Lemma submissions_kept_witness : match sample_ingested with
  | (s', es, Some (Ok n)) => exists vs, validated_blobs [sample_submission] (minAcceptedCost default_config) = Some vs
      /\ ingested sample_clock default_config sample_app 1 Submission [sample_submission] sample_node s' es n vs
  | _ => False
  end.
Proof.
  apply (@submissions_kept sum_crypto no_exotic sample_clock default_config sample_app 1 [sample_submission] sample_node).
  - reflexivity.
  - vm_compute. reflexivity.
Defined.

(** The node asks for the sample key's worth. *)
Definition sample_config : NodeConfig :=
  mkNodeConfig PROPAGATION_COST PROPAGATION_COST_FLEX PEERING_COST MAX_INBOUND_SYNCS
    PN_STAMP_THROTTLE_SECS true [] false (fun _ => true) (replicate 16 3).
Definition sample_peer_id : Identity := generate (replicate 32 1) (replicate 32 2).
Definition sample_rh : bytes := Eval vm_compute in default [] (lxmf_hash ".propagation" sample_peer_id).

Lemma offer_answered_witness :
  snd (handleOfferRequest sample_config 1 (Some sample_peer_id)
         (VArr [VBin Stamper.sample_stamp; VArr [VBin (sha256 sample_message)]]) sample_node)
  = dret (VBool true, true).
Proof.
  pose proof (@offer_answered sum_crypto sample_config 1 sample_peer_id Stamper.sample_stamp [sha256 sample_message]
    sample_rh sample_node eq_refl eq_refl ltac:(vm_compute; reflexivity)) as H.
  cbv zeta in H. destruct (admit_offer _ _ _ _) as [s1 ok] eqn:E. destruct H as [H _].
  change (map VBin [?x]) with [VBin x] in H. rewrite H. revert E. vm_compute. by intros [= _ <-].
Defined.

Definition sync_peer : LXMPeer :=
  mkPeer (replicate 16 5) false 0 (Some (Stamper.sample_stamp, 248)) (Some 18) (Some 16) (Some 3) None None false IDLE
    [] 0 0 0 0.

Definition sync_store : MessageStore :=
  mkStore [(toHex (sha256 sample_message), mkEntry (sha256 sample_message) (replicate 16 7) sample_message
    Stamper.sample_stamp 0 248 145 [] [toHex (replicate 16 5)])] None None 145.

Lemma sync_store_inv : store_inv sync_store.
Proof.
  split; [apply NoDup_singleton| | |]; repeat constructor. intros x Hx. by apply not_elem_of_nil in Hx.
Qed.

Definition sync_answers : SyncAnswers :=
  mkAnswers (fun _ => []) 0 (Some sample_peer_id) (Ok tt) (Ok tt)
    (fun offer => match snd (handleOfferRequest sample_config 1 (Some sample_peer_id) offer sample_node) with
                  | Some (Ok (r, _)) => Ok r
                  | _ => Throw (JsError "no response")
                  end)
    (fun _ => Ok tt).

Lemma sync_converges_witness : exists p' st' es b,
  sync sample_clock 1 sync_answers [] sync_peer sync_store = Some (p', st', es, Ok b) /\ state p' = IDLE
  /\ agreed sample_clock sample_config sample_node Stamper.sample_stamp 1 2 (replicate 16 5) sync_store [sha256 sample_message] p' st' es.
Proof.
  assert (E : snd (build_offer sync_peer (sync_collect 1 sync_peer sync_store) 24 sync_store) = [sha256 sample_message])
    by (vm_compute; reflexivity).
  rewrite <- E.
  apply (@sync_converges sum_crypto sum_laws no_exotic sample_clock sample_config sample_node sync_answers []
    sync_peer sync_store 1 2 sample_peer_id sample_rh Stamper.sample_stamp 18 248); try reflexivity.
  - discriminate.
  - exact sync_store_inv.
  - apply Forall_singleton. split; [|vm_compute; reflexivity].
    split; [reflexivity|]. split; [apply Nat.ltb_lt; reflexivity|]. split; [reflexivity|]. vm_compute. reflexivity.
  - split; [exact I|]. right. split; [intros [_ Hv]; discriminate|]. vm_compute. intros [_ Hn]. by apply Hn.
  - discriminate.
  - intros offer s r fl Hrun. cbn [sync_answers offer_response]. by rewrite Hrun.
  - split; [reflexivity|]. by vm_compute.
Defined.
End Samples.
