(* ===== verification/MeshSpec.v ===== *)
(** * MeshSpec: the peers of a propagation node

    The table keeps to its cap however peerings come and go, so rotation finds
    nothing to do while the cap stands ([peers_capped]); when the cap was
    lowered, it drops only idle, unprotected peers that accept little
    ([rotation_fair]).  A [Mesh] is the peer table with the node and its batches
    ([PropagationLife.System]); batches and passes over peers are cut at their
    awaits and interleave.  Every message that a batch stored and announced is
    queued for every peer until it was handled ([mesh_complete]); what a batch
    stored before it threw is queued for nobody ([thrown_batch_unqueued]). *)

From Stdlib Require Import QArith.
From S2P Require Import Prelude Encoding JsMap Utf8 MsgPack Packet Crypto Identity Destination.
From S2P Require Import Stamper Sorting LxmfMessage LxmfMessageSpec MessageStore AnnounceData PropagationNode Peer PropagationSpec SyncSpec.
From S2P Require Import PropagationLife LxmfRouter.
#[local] Open Scope Z_scope.

(** ** The table *)

(** Peers are filed under their hashes. *)
Record table_ok (t : PeerTable) : Prop := {
  tk_keys : wf_map (peers t);
  tk_hash : Forall (fun kp => fst kp = toHex (peerHash (snd kp))) (peers t);
}.

Lemma Forall_delete {V} (P : jsstr * V -> Prop) k (m : jsmap V) : Forall P m -> Forall P (mdelete k m).
Proof. rewrite !List.Forall_forall. intros Hm x [Hx _]%In_mdelete. auto. Qed.

Lemma mdelete_length {V} k (m : jsmap V) : (length (mdelete k m) <= length m)%nat.
Proof. apply length_filter. Qed.

Lemma mset_length {V} k v (m : jsmap V) : (length (mset k v m) <= S (length m))%nat.
Proof.
  destruct (in_dec (fun a b => decide (a = b)) k (keys m)) as [Hin|Hin].
  - pose proof (keys_mset_has k v m Hin) as Hk. apply (f_equal length) in Hk. unfold keys in Hk. rewrite !length_map in Hk. lia.
  - rewrite mset_new by done. rewrite length_app. cbn. lia.
Qed.

Lemma mset_length_has {V} k v (m : jsmap V) : has k m = true -> length (mset k v m) = length m.
Proof.
  intros Hin%has_true. pose proof (keys_mset_has k v m Hin) as Hk. apply (f_equal length) in Hk.
  unfold keys in Hk. by rewrite !length_map in Hk.
Qed.

Lemma unpeer_ok h t : table_ok t -> table_ok (unpeer h t).
Proof. intros [H1 H2]. split; [by apply wf_mdelete|by apply Forall_delete]. Qed.

Lemma configured_hash now cfg p : peerHash (configured now cfg p) = peerHash p.
Proof.
  unfold configured, peeringKeyReady. cbn [peerCost peeringKey]. destruct (peeringKey p) as [[key v]|]; [|done].
  by destruct (_ <=? v).
Qed.

Lemma file_ok h p t : table_ok t -> toHex h = toHex (peerHash p) -> table_ok (with_peers t (mset (toHex h) p (peers t))).
Proof.
  intros [H1 H2] Hh. split; [by apply wf_mset|]. cbn [with_peers peers]. by apply Forall_mset.
Qed.

Lemma peer_keys now h cfg t st : let '(t', st', _) := peer now h cfg t st in
  (table_ok t -> table_ok t') /\ maxPeers t' = maxPeers t
  /\ (zlen (peers t) <= maxPeers t -> zlen (peers t') <= maxPeers t)
  /\ (forall k, In k (keys (peers t')) -> In k (keys (peers t))
        \/ k = toHex h /\ st' = ((fun s => fst (markAllUnhandledForPeer h s)) <$> st))
  /\ (st' = st \/ st' = ((fun s => fst (markAllUnhandledForPeer h s)) <$> st)).
Proof.
  unfold peer. destruct (_ <? _).
  - split; [apply unpeer_ok|]. split; [done|]. split; [|split; [|by left]].
    + cbn [unpeer with_peers peers]. pose proof (mdelete_length (toHex h) (peers t)). unfold zlen. lia.
    + intros k Hk. left. cbn [unpeer with_peers peers] in Hk. unfold keys in *.
      apply in_map_iff in Hk as (x & <- & [Hx _]%In_mdelete). by apply in_map.
  - destruct (get (toHex h) (peers t)) as [p|] eqn:Eg; cbn [with_peers peers maxPeers].
    + assert (Hh : has (toHex h) (peers t) = true) by (unfold has; by rewrite Eg).
      split; [|split; [done|split; [|split; [|by left]]]].
      * intros Ht. apply file_ok; [done|]. rewrite configured_hash. destruct Ht as [_ H2].
        rewrite List.Forall_forall in H2. exact (H2 _ (get_In _ _ _ Eg)).
      * unfold zlen. by rewrite mset_length_has.
      * intros k Hk. left. by rewrite keys_mset_has in Hk by by apply has_true.
    + destruct (Z.leb_spec (maxPeers t) (zlen (peers t))) as [Hle|Hlt]; cbn [with_peers peers maxPeers]; [by auto 10|].
      assert (Hn : ~ In (toHex h) (keys (peers t))) by exact (proj1 (get_None _ _) Eg).
      split; [|split; [done|split; [|split; [|right; reflexivity]]]].
      * intros Ht. apply file_ok; [done|]. by rewrite configured_hash.
      * rewrite mset_new by done. unfold zlen in *. rewrite length_app. cbn. lia.
      * intros k Hk. rewrite mset_new in Hk by done. unfold keys in *. rewrite map_app in Hk.
        apply in_app_or in Hk as [Hk|[<-|[]]]; auto.
Qed.

(** Dropping peers one after the other. *)
Lemma drop_peers_spec sorted : forall dropped required t, table_ok t ->
  let '(t', n) := drop_peers sorted dropped required t in
  table_ok t' /\ maxPeers t' = maxPeers t
  /\ dropped <= n /\ (dropped <= required -> n <= required)
  /\ (forall kp, In kp (peers t') -> In kp (peers t))
  /\ (forall kp, In kp (peers t) -> ~ In kp (peers t') ->
        exists p, p ∈ sorted /\ fst kp = toHex (peerHash p) /\ Qle_bool ROTATION_AR_MAX (acceptanceRate p) = false).
Proof.
  induction sorted as [|p sorted IH]; intros dropped required t Ht; cbn [drop_peers].
  { repeat split; auto; try apply Ht; tauto || lia. }
  destruct (Z.leb_spec required dropped) as [Hle|Hlt]; [repeat split; auto; try apply Ht; tauto || lia|].
  destruct (Qle_bool ROTATION_AR_MAX (acceptanceRate p)) eqn:Er; [repeat split; auto; try apply Ht; tauto || lia|].
  specialize (IH (dropped + 1) required (unpeer (peerHash p) t) (unpeer_ok _ _ Ht)).
  destruct (drop_peers sorted (dropped + 1) required (unpeer (peerHash p) t)) as [t' n].
  destruct IH as (H1 & H2 & H3 & H4 & H5 & H6). split; [done|]. split; [done|]. split; [lia|]. split; [lia|].
  split.
  - intros kp Hkp%H5. cbn [unpeer with_peers peers] in Hkp. by apply In_mdelete in Hkp as [? _].
  - intros kp Hin Hout. destruct (decide (fst kp = toHex (peerHash p))) as [He|Hne].
    + exists p. split; [by left|done].
    + destruct (H6 kp) as (q & Hq & Hk & Hr); [|done|by exists q; split; [right|]].
      cbn [unpeer with_peers peers]. by apply In_mdelete.
Qed.

Lemma drop_pool_elem t p : p ∈ drop_pool t ->
  exists k, In (k, p) (peers t) /\ k ∉ staticPeers t /\ state p = IDLE /\ (alive p = false \/ 0 < offered p).
Proof.
  unfold drop_pool. intros Hp.
  assert (Hc : p ∈ map snd (filter (fun kp => rotatable t kp = true) (peers t))
               /\ (alive p = false \/ 0 < offered p)).
  { apply elem_of_app in Hp as [Hp|Hp]; apply list_elem_of_filter in Hp as [H1 H2]; split; auto. by right; apply H1. }
  destruct Hc as [Hc Hd]. apply list_elem_of_fmap in Hc as ([k q] & -> & Hq).
  apply list_elem_of_filter in Hq as [Hr Hq]. exists k. cbn [snd] in *. unfold rotatable in Hr. cbn [fst snd] in Hr. bools.
  split; [by apply list_elem_of_In|]. auto.
Qed.

Lemma mdelete_at_most {V} k (m : jsmap V) : wf_map m -> (length m <= S (length (mdelete k m)))%nat.
Proof.
  intros Hw. destruct (has k m) eqn:Eh.
  - destruct (get k m) as [v|] eqn:Eg; [|unfold has in Eh; by rewrite Eg in Eh].
    clear Eh Eg. unfold wf_map, keys, mdelete in *. induction m as [|[k' x] m IH]; cbn [length]; [lia|].
    cbn [map fst] in Hw. apply NoDup_cons in Hw as [Hx Hw]. rewrite filter_cons. case_decide as Hd; [cbn; specialize (IH Hw); lia|].
    subst k'. rewrite filter_all; [lia|].
    apply Forall_forall. intros [k' y] Hin ->. apply Hx, list_elem_of_fmap. by exists (k, y).
  - apply has_false in Eh. unfold mdelete. rewrite filter_all; [lia|].
    apply Forall_forall. intros [k' y] Hin ->. apply Eh, in_map_iff. exists (k, y). split; [done|by apply list_elem_of_In].
Qed.

Lemma drop_peers_count sorted : forall dropped required t, table_ok t ->
  zlen (peers t) - (snd (drop_peers sorted dropped required t) - dropped)
  <= zlen (peers (fst (drop_peers sorted dropped required t))).
Proof.
  induction sorted as [|p sorted IH]; intros dropped required t Ht; cbn [drop_peers fst snd]; [lia|].
  destruct (_ <=? _); [cbn [fst snd]; lia|]. destruct (Qle_bool _ _); [cbn [fst snd]; lia|].
  specialize (IH (dropped + 1) required _ (unpeer_ok (peerHash p) t Ht)).
  pose proof (mdelete_at_most (toHex (peerHash p)) (peers t) (tk_keys t Ht)) as Hd.
  cbn [unpeer with_peers peers] in IH. unfold zlen in *. lia.
Qed.

(** Rotation is fair: while the table is within its cap nothing happens; above
    it, only peers that are unprotected, idle, unresponsive or offered
    something, and accept less than half of it, are dropped, no peer is
    altered, and the table is not cut below the headroom under the cap. *)
Theorem rotation_fair (t : PeerTable) (Ht : table_ok t) :
  let '(t', n) := rotatePeers t in
  table_ok t' /\ maxPeers t' = maxPeers t
  /\ (zlen (peers t) <= maxPeers t -> t' = t /\ n = 0)
  /\ (forall kp, In kp (peers t') -> In kp (peers t))
  /\ (forall kp, In kp (peers t) -> ~ In kp (peers t') ->
        fst kp ∉ staticPeers t /\ state (snd kp) = IDLE /\ (alive (snd kp) = false \/ 0 < offered (snd kp))
        /\ (acceptanceRate (snd kp) < ROTATION_AR_MAX)%Q)
  /\ (maxPeers t < zlen (peers t) -> 0 <= n /\ maxPeers t - headroom t <= zlen (peers t')).
Proof.
  unfold rotatePeers. destruct (Z.leb_spec (zlen (peers t)) (maxPeers t)) as [Hle|Hgt].
  { repeat split; try apply Ht; auto; tauto || lia. }
  destruct (_ <=? 1) eqn:E1; [apply Z.leb_le in E1|apply Z.leb_gt in E1].
  { repeat split; try apply Ht; auto; try tauto; try lia. unfold headroom in *. lia. }
  set (required := zlen (peers t) - (maxPeers t - headroom t)) in *.
  set (sorted := js_sort _ (drop_pool t)).
  pose proof (drop_peers_spec sorted 0 required t Ht) as Hspec.
  pose proof (drop_peers_count sorted 0 required t Ht) as Hcount.
  destruct (drop_peers sorted 0 required t) as [t' n]. cbn [fst snd] in Hcount.
  destruct Hspec as (H1 & H2 & H3 & H4 & H5 & H6). split; [done|]. split; [done|]. split; [lia|]. split; [done|].
  assert (Hh : 1 <= headroom t) by (unfold headroom; lia).
  split; [|intros _; split; [lia|]; specialize (H4 ltac:(lia)); lia].
  intros [k q] Hin Hout. destruct (H6 _ Hin Hout) as (p & Hp & Hk & Hr). cbn [fst snd] in *.
  apply js_sort_elem, drop_pool_elem in Hp as (k' & Hkp & Hs & Hi & Ho).
  pose proof (tk_hash t Ht) as Hhash. rewrite List.Forall_forall in Hhash. pose proof (Hhash _ Hkp) as Hk'. cbn in Hk'.
  subst k k'.
  pose proof (In_get _ _ _ (tk_keys t Ht) Hkp) as G1. pose proof (In_get _ _ _ (tk_keys t Ht) Hin) as G2.
  assert (Hqp : q = p) by congruence. subst q. cbn [fst snd]. split; [done|]. split; [done|]. split; [done|].
  apply Qnot_le_lt. intros Hle. apply Qle_bool_iff in Hle. congruence.
Qed.

Lemma unpeer_shrinks h t : zlen (peers (unpeer h t)) <= zlen (peers t)
  /\ forall k, In k (keys (peers (unpeer h t))) -> In k (keys (peers t)).
Proof.
  cbn [unpeer with_peers peers]. pose proof (mdelete_length (toHex h) (peers t)).
  split; [unfold zlen in *; lia|]. intros k Hk. unfold keys in *.
  apply in_map_iff in Hk as (x & <- & [Hx _]%In_mdelete). by apply in_map.
Qed.

(** The table only lost peers. *)
Definition shrunk (t t' : PeerTable) : Prop :=
  table_ok t' /\ maxPeers t' = maxPeers t /\ zlen (peers t') <= zlen (peers t)
  /\ forall k, In k (keys (peers t')) -> In k (keys (peers t)).

Lemma cull_ok now t : table_ok t -> shrunk t (cull now t).
Proof.
  intros Ht. unfold cull.
  assert (Hl : forall l t0, shrunk t t0 ->
    shrunk t (fold_left (fun t' kp => if unreachable now t kp then unpeer (peerHash (snd kp)) t' else t') l t0)).
  { induction l as [|kp l IH]; intros t0 (H1 & H2 & H3 & H4); cbn [fold_left]; [done|].
    apply IH. destruct (unreachable now t kp); [|done].
    destruct (unpeer_shrinks (peerHash (snd kp)) t0) as [H5 H6].
    split; [by apply unpeer_ok|]. split; [done|]. split; [lia|]. auto. }
  apply Hl. split; [done|]. split; [done|]. split; [lia|done].
Qed.

Lemma drop_peers_shrunk sorted dropped required t : table_ok t -> shrunk t (fst (drop_peers sorted dropped required t)).
Proof.
  revert dropped t. induction sorted as [|p sorted IH]; intros dropped t Ht; cbn [drop_peers].
  { split; [done|]. split; [done|]. split; [cbn; lia|done]. }
  assert (Hr : shrunk t t) by (split; [done|]; split; [done|]; split; [lia|done]).
  destruct (_ <=? _); [done|]. destruct (Qle_bool _ _); [done|].
  destruct (IH (dropped + 1) (unpeer (peerHash p) t) (unpeer_ok _ _ Ht)) as (H1 & H2 & H3 & H4).
  destruct (unpeer_shrinks (peerHash p) t) as [H5 H6].
  split; [done|]. split; [done|]. split; [lia|]. auto.
Qed.

Lemma maintenance_shrunk now t : table_ok t -> shrunk t (sync_maintenance now t).
Proof.
  intros Ht. unfold sync_maintenance. destruct (cull_ok now t Ht) as (H1 & H2 & H3 & H4).
  assert (Hr : shrunk (cull now t) (fst (rotatePeers (cull now t)))).
  { unfold rotatePeers. assert (H0 : shrunk (cull now t) (cull now t)) by (split; [done|]; split; [done|]; split; [lia|done]).
    destruct (_ <=? _); [done|]. destruct (_ <=? 1); [done|]. by apply drop_peers_shrunk. }
  destruct Hr as (R1 & R2 & R3 & R4). split; [done|]. split; [congruence|]. split; [lia|]. auto.
Qed.

(** ** Messages queued for peers *)

(** The peer with this key is owed the message, or is known to have it. *)
Definition waits (e : PropagationEntry) (k : jsstr) : Prop := k ∈ unhandledPeers e \/ k ∈ handledPeers e.

Lemma waits_unhandled e h k : waits e k -> waits (mark_unhandled h e) k.
Proof.
  unfold waits. cbn. rewrite set_add_elem, set_delete_elem. destruct (decide (k = h)) as [->|]; [auto|tauto].
Qed.

Lemma waits_handled e h k : waits e k -> waits (mark_handled h e) k.
Proof.
  unfold waits. cbn. rewrite set_add_elem, set_delete_elem. destruct (decide (k = h)) as [->|]; [auto|tauto].
Qed.

Lemma waits_marked e h : waits (mark_unhandled h e) h.
Proof. left. cbn. rewrite set_add_elem. by right. Qed.

(** A property of entries that no marking of peers takes away. *)
Record lasting (P : PropagationEntry -> Prop) : Prop := {
  la_unhandled : forall e h, P e -> P (mark_unhandled h e);
  la_handled : forall e h, P e -> P (mark_handled h e);
}.

(** The messages named by [ids] wait for [k]. *)
Definition named_wait (ids : list bytes) (k : jsstr) (e : PropagationEntry) : Prop :=
  toHex (transientId e) ∈ map toHex ids -> waits e k.

Lemma named_lasting ids k : lasting (named_wait ids k).
Proof.
  split; intros e h He Hi; [apply waits_unhandled|apply waits_handled]; by apply He.
Qed.

Definition everywhere (P : PropagationEntry -> Prop) (st : MessageStore) : Prop := Forall (fun '(_, e) => P e) (_entries st).

Lemma run_lasting P t o st : lasting P -> everywhere P st -> match o with OpAdd e => P e | _ => True end ->
  everywhere P (store_run t o st).
Proof. intros [H1 H2]. by apply run_everywhere. Qed.

Lemma marked_waits tid h st : store_inv st ->
  everywhere (fun e => toHex (transientId e) = toHex tid -> waits e (toHex h)) (fst (markUnhandledForPeer tid h st)).
Proof.
  intros Hs. unfold markUnhandledForPeer, update_entry, get_message. pose proof (si_ids st Hs) as Hids.
  destruct (get (toHex tid) (_entries st)) as [e|] eqn:Eg; cbn [fst].
  - unfold everywhere. cbn [with_entries _entries]. rewrite List.Forall_forall in Hids |- *. intros [k x] Hin Hx.
    assert (Hw : wf_map (mset (toHex tid) (mark_unhandled (toHex h) e) (_entries st))) by apply wf_mset, Hs.
    pose proof (In_get _ _ _ Hw Hin) as Hg.
    assert (Hk : k = toHex tid).
    { apply In_mset in Hin as [[= -> _]|Hin]; [done|]. specialize (Hids _ Hin). cbn in Hids. congruence. }
    subst k. rewrite get_mset_same in Hg. injection Hg as <-. apply waits_marked.
  - unfold everywhere. rewrite List.Forall_forall in Hids |- *. intros [k x] Hin Hx. exfalso.
    specialize (Hids _ Hin). cbn in Hids. apply (proj1 (get_None _ _) Eg). unfold keys. apply in_map_iff.
    exists (k, x). split; [cbn; congruence|done].
Qed.

(** Marking a stored message for the peers of the table. *)
Lemma mark_for_peers_spec tid ps : forall st, store_inv st ->
  store_inv (mark_for_peers tid ps st)
  /\ (forall P, lasting P -> everywhere P st -> everywhere P (mark_for_peers tid ps st))
  /\ forall p, p ∈ ps -> everywhere (fun e => toHex (transientId e) = toHex tid -> waits e (toHex (peerHash p)))
       (mark_for_peers tid ps st).
Proof.
  induction ps as [|p ps IH]; intros st Hs; cbn [mark_for_peers fold_left].
  { split; [done|]. split; [done|]. by intros p Hp%not_elem_of_nil. }
  pose proof (run_inv 0 (OpUnhandled tid (peerHash p)) st Hs I) as Hs1. cbn [store_run] in Hs1.
  destruct (IH _ Hs1) as (H1 & H2 & H3). split; [exact H1|]. split.
  - intros P HP He. apply H2; [done|]. by apply (run_lasting P 0 (OpUnhandled tid (peerHash p))).
  - intros q [->|Hq]%elem_of_cons; [|by apply H3]. apply H2; [|by apply marked_waits].
    split; intros e h He Hi; [apply waits_unhandled|apply waits_handled]; by apply He.
Qed.

Lemma distribute_spec ids t : forall st, store_inv st ->
  store_inv (_distributeStored ids t st)
  /\ (forall P, lasting P -> everywhere P st -> everywhere P (_distributeStored ids t st))
  /\ forall p, p ∈ values (peers t) -> everywhere (named_wait ids (toHex (peerHash p))) (_distributeStored ids t st).
Proof.
  induction ids as [|tid ids IH]; intros st Hs; cbn [_distributeStored fold_left].
  { split; [done|]. split; [done|]. intros p Hp. apply Forall_forall. intros [k e] _ Hi. by apply not_elem_of_nil in Hi. }
  destruct (mark_for_peers_spec tid (values (peers t)) st Hs) as (M1 & M2 & M3).
  destruct (IH _ M1) as (H1 & H2 & H3). split; [exact H1|]. split; [auto|]. intros p Hp.
  assert (Hl : lasting (fun e => toHex (transientId e) = toHex tid -> waits e (toHex (peerHash p))))
    by (split; intros e h He Hi; [apply waits_unhandled|apply waits_handled]; by apply He).
  pose proof (H2 _ Hl (M3 p Hp)) as Hone. pose proof (H3 p Hp) as Hrest. unfold everywhere, named_wait in *.
  rewrite Forall_forall in Hone, Hrest |- *. intros [k e] Hin [Hi|Hi]%elem_of_cons; [by apply (Hone (k, e) Hin)|].
  by apply (Hrest (k, e) Hin).
Qed.

(** ** Batches and passes in pieces *)

Section Mesh.
Context `{C : WebCrypto} `{H : JsHost}.
Variable clock : Q -> value.
Variable c : NodeConfig.

(** Everything stored waits for every peer of the table, or its id is among
    [ids]. *)
Definition covered (ks : list jsstr) (ids : list bytes) (e : PropagationEntry) : Prop :=
  (forall k, k ∈ ks -> waits e k) \/ toHex (transientId e) ∈ map toHex ids.

Lemma covered_lasting ks ids : lasting (covered ks ids).
Proof.
  split; intros e h [He|He]; (try by right); left; intros k Hk; [apply waits_unhandled|apply waits_handled]; auto.
Qed.

Lemma covered_more ks ks' ids ids' e : (forall k, k ∈ ks' -> k ∈ ks) -> (forall i, i ∈ ids -> i ∈ ids') ->
  covered ks ids e -> covered ks' ids' e.
Proof.
  intros Hk Hi [He|He]; [left; auto|right]. apply list_elem_of_fmap in He as (i & -> & Hin).
  apply list_elem_of_fmap. exists i. auto.
Qed.

Lemma run_kept P t o st : lasting P -> store_inv st -> everywhere P st ->
  match o with OpAdd e => handledPeers e ## unhandledPeers e /\ P e | _ => True end ->
  store_inv (store_run t o st) /\ everywhere P (store_run t o st).
Proof.
  intros HP Hs He Ho. split; [apply run_inv|apply run_lasting]; try done; by destruct o; try apply Ho.
Qed.

Lemma blob_kept P at_ v s : lasting P -> store_inv (store s) -> everywhere P (store s) -> P (entry_of at_ v) ->
  store_inv (store (store_blob at_ v s)) /\ everywhere P (store (store_blob at_ v s)).
Proof.
  intros HP Hs He Hv. apply (run_kept P at_ (OpAdd (entry_of at_ v)) (store s)); try done.
  split; [|done]. by intros x Hx%not_elem_of_nil.
Qed.

Lemma asked_kept P remote data s : lasting P -> store_inv (store s) -> everywhere P (store s) ->
  store_inv (store (fst (handleGetRequest c remote data s))) /\ everywhere P (store (fst (handleGetRequest c remote data s))).
Proof.
  intros HP Hs He. unfold handleGetRequest. destruct remote as [id|]; [|done]. destruct (negb _); [done|].
  destruct data as [| | | | | | |[|wants [|haves rest]]| |]; try done.
  destruct (lxmf_hash _ _) as [owner|]; [|done]. destruct (_ && _); [done|].
  assert (Hp : forall l st, store_inv st -> everywhere P st ->
    store_inv (fst (purge l owner st)) /\ everywhere P (fst (purge l owner st))).
  { induction l as [|v l IH]; intros st H1 H2; cbn [purge]; [done|]. destruct (as_tid v) as [tid|]; [|done].
    destruct (run_kept P 0 (OpRemoveFor tid owner) st HP H1 H2 I). by apply IH. }
  specialize (Hp (array_of haves) _ Hs He). by destruct (purge (array_of haves) owner (store s)).
Qed.

(** The messages an input stored, with the batch they belong to. *)
Definition kept_by (i : nat) (os : list outcome) : list (nat * bytes) :=
  omap (fun o => match o with KeptFor v => Some (i, blob_id v) | HandedOver _ _ => None end) os.

Definition stored_by (x : input) (os : list outcome) : list (nat * bytes) :=
  match x with Next i _ _ | Resume i _ _ => kept_by i os | _ => [] end.

Definition running (σ : System) (i : nat) : Prop := exists b, batches σ !! i = Some (Some b).

Lemma running_put σ i b0 b s j : batches σ !! i = Some (Some b0) -> running σ j \/ j = i -> running (put_batch i b σ s) j.
Proof.
  intros Hi Hj. unfold running in *. cbn [put_batch batches]. destruct (decide (j = i)) as [->|Hne].
  - exists b. rewrite list_lookup_insert_eq; [done|]. by apply lookup_lt_Some in Hi.
  - destruct Hj as [Hj|]; [|done]. by rewrite list_lookup_insert_ne.
Qed.

(** What an input of the node does to the store, and to its batches. *)
Lemma input_kept P x σ σ' os : lasting P -> step clock c x σ = (σ', os) ->
  store_inv (store (node σ)) -> everywhere P (store (node σ)) ->
  (forall at_ v, KeptFor v ∈ os -> P (entry_of at_ v)) ->
  store_inv (store (node σ')) /\ everywhere P (store (node σ')).
Proof.
  intros HP Hx Hs He Hos. revert Hx.
  destruct x as [now l o|i local at_|i at_ keep|i|remote data|now remote data|now|now hex|now key|key|tid peer|tid peer|peer];
    cbn [step].
  - assert (Ep : store (prune_due now (node σ)) = store (node σ)) by (unfold prune_due; by destruct (Qle_bool _ _)).
    destruct (validated_blobs _ _); intros [= <- _]; cbn [node set_validating store]; by rewrite Ep.
  - destruct (batches σ !! i) as [[[o now [|v vs] [w|]]|]|]; try (by intros [= <- _]).
    unfold enter. destruct (known _ _); [by intros [= <- _]|]. destruct (local _); [by intros [= <- _]|].
    destruct (_ && _); [by intros [= <- _]|]. intros [= <- <-]. cbn [put_batch node].
    apply blob_kept; [done|done|done|]. apply Hos. set_solver.
  - destruct (batches σ !! i) as [[[o now vs [[v [| |d|]]|]]|]|]; try (by intros [= <- _]).
    + destruct (fromPropagationData _ _ _) as [[msg|]|]; try (by intros [= <- _]). by destruct msg; intros [= <- _].
    + destruct keep; [|by intros [= <- _]]. intros [= <- <-]. cbn [put_batch node].
      apply blob_kept; [done|done|done|]. apply Hos. set_solver.
  - by destruct (batches σ !! i) as [[b|]|]; intros [= <- _].
  - intros [= <- _]. by apply asked_kept.
  - intros [= <- _]. cbn [node]. destruct (offer_processed c now remote data (node σ)) as [-> _]. done.
  - intros [= <- _]. cbn [node]. pose proof (run_kept P now OpPrune _ HP Hs He I) as Hk. cbn [store_run] in Hk.
    unfold tickMaintenance. by destruct (prune now (store (node σ))).
  - by intros [= <- _].
  - by intros [= <- _].
  - by intros [= <- _].
  - intros [= <- _]. by apply (run_kept P 0 (OpUnhandled tid peer)).
  - intros [= <- _]. by apply (run_kept P 0 (OpHandled tid peer)).
  - intros [= <- _]. by apply (run_kept P 0 (OpAllUnhandled peer)).
Qed.

Lemma input_running x σ σ' os : step clock c x σ = (σ', os) ->
  (forall j, running σ j -> running σ' j \/ x = End j)
  /\ Forall (fun jt => running σ' (fst jt)) (stored_by x os).
Proof.
  intros Hx. revert Hx.
  destruct x as [now l o|i local at_|i at_ keep|i|remote data|now remote data|now|now hex|now key|key|tid peer|tid peer|peer];
    cbn [step stored_by]; try (by intros [= <- <-]; split; [left|constructor]).
  - destruct (validated_blobs _ _); intros [= <- <-]; (split; [|constructor]); [|by left].
    intros j [b Hj]. left. exists b. cbn [batches]. rewrite lookup_app_l; [done|]. by apply lookup_lt_Some in Hj.
  - destruct (batches σ !! i) as [[[o now [|v vs] [w|]]|]|] eqn:Ei; try (by intros [= <- <-]; split; [left|constructor]).
    destruct (enter _ _ _ _ _ _ _) as [s p].
    destruct p; intros [= <- <-]; (split; [intros j Hj; left; eapply running_put; eauto|]); cbn; repeat constructor;
      cbn [fst]; eapply running_put; eauto.
  - destruct (batches σ !! i) as [[[o now vs [[v [| |d|]]|]]|]|] eqn:Ei; try (by intros [= <- <-]; split; [left|constructor]).
    + destruct (fromPropagationData _ _ _) as [[msg|]|]; try (by intros [= <- <-]; split; [left|constructor]).
      destruct msg; intros [= <- <-]; (split; [intros j Hj; left; eapply running_put; eauto|cbn; constructor]).
    + destruct keep; intros [= <- <-]; (split; [intros j Hj; left; eapply running_put; eauto|]); cbn; repeat constructor.
      cbn [fst]; eapply running_put; eauto.
  - destruct (batches σ !! i) as [[b|]|] eqn:Ei; intros [= <- <-]; (split; [|constructor]); [|by left|by left].
    intros j [b' Hj]. destruct (decide (j = i)) as [->|Hne]; [by right|left]. exists b'. cbn [batches].
    by rewrite list_lookup_insert_ne.
Qed.

(** *** A pass over one peer *)

(** What [LXMPeer.sync] does between its awaits. *)
Inductive sync_piece :=
| KeyChecked                                          (* peeringKeyReady *)
| KeyMade (draws : nat -> bytes) (fuel : nat) (id : option Identity) (localHash : bytes)
| Connecting (now : Q)                                (* up to createLink *)
| LinkMade                                            (* up to identify *)
| LinkReady (unhandled : list PropagationEntry)       (* up to the request *)
| Replied (now : Q) (response : value) (ids : list bytes)
| Proved (now : Q) (wanted ids : list bytes)
| Aborted.

Definition sync_do (x : sync_piece) (p : LXMPeer) (st : MessageStore) : LXMPeer * MessageStore :=
  match x with
  | KeyChecked => (fst (peeringKeyReady p), st)
  | KeyMade draws fuel id lh => (match generatePeeringKey draws fuel id lh p with Some (p, _) => p | None => p end, st)
  | Connecting now => (sync_connect now p, st)
  | LinkMade => (set_stage p true LINK_ESTABLISHING, st)
  | LinkReady unhandled => let '(p, st, _, _) := sync_linked unhandled p st in (p, st)
  | Replied now v ids => let '(p, st, _, _) := sync_response clock now v ids p st in (p, st)
  | Proved now wanted ids => let '(p, st, _) := sync_transferred now wanted ids p st in (p, st)
  | Aborted => (fst (_teardown p), st)
  end.

Fixpoint sync_dos (xs : list sync_piece) (p : LXMPeer) (st : MessageStore) : LXMPeer * MessageStore :=
  match xs with
  | [] => (p, st)
  | x :: xs => let '(p, st) := sync_do x p st in sync_dos xs p st
  end.

(** A piece only marks messages as handled. *)
Definition only_marked (p p' : LXMPeer) (st st' : MessageStore) : Prop :=
  peerHash p' = peerHash p /\ exists ids, st' = mark_all_handled ids (peerHash p) st.

Lemma marked_same p p' st : peerHash p' = peerHash p -> only_marked p p' st st.
Proof. intros Hp. split; [done|]. by exists []. Qed.

Lemma linked_marked us p st : let '(p', st', _, _) := sync_linked us p st in only_marked p p' st st'.
Proof.
  unfold sync_linked. destruct (build_offer_spec (set_backoff (set_stage p true LINK_READY) 0 0) us 24 st)
    as (kept & large & -> & _).
  destruct (map transientId kept); [|destruct (peeringKey _) as [[key v]|]]; (split; [done|by exists large]).
Qed.

Lemma response_marked now v ids p st : let '(p', st', _, _) := sync_response clock now v ids p st in only_marked p p' st st'.
Proof.
  unfold sync_response. destruct (match v with VInt n => n =? 246 | _ => false end); [by apply marked_same|].
  assert (Hi : exists l, fst (_interpretOfferResponse v p st) = mark_all_handled l (peerHash p) st).
  { unfold _interpretOfferResponse. destruct v as [|[]| | | | | |l| |]; try (by exists []); [by eexists|].
    destruct (mapM _ l); [by eexists|by exists []]. }
  destruct (_interpretOfferResponse v p st) as [st2 wanted]. cbn [fst] in Hi. destruct Hi as [l ->].
  assert (Hm : forall q, peerHash q = peerHash p -> only_marked p q st (mark_all_handled l (peerHash p) st))
    by (intros q Hq; split; [done|by exists l]).
  destruct wanted as [[|w ws]|e]; [by apply Hm| |by apply Hm].
  destruct (packPropagationContainer _ _); by apply Hm.
Qed.

Lemma key_ready_hash p : peerHash (fst (peeringKeyReady p)) = peerHash p.
Proof.
  unfold peeringKeyReady. destruct (peerCost p), (peeringKey p) as [[k v]|]; try done. by destruct (_ <=? v).
Qed.

Lemma generated_hash draws fuel id lh p p' b : generatePeeringKey draws fuel id lh p = Some (p', b) ->
  peerHash p' = peerHash p.
Proof.
  unfold generatePeeringKey. destruct (peerCost p), (peeringKey p); try (by intros [= <- _]).
  destruct id; [|by intros [= <- _]]. destruct (generateStamp _ _ _ _ _) as [[key [v|]]|]; try done.
  by destruct (_ <=? v); intros [= <- _].
Qed.

Lemma piece_marked x p st : only_marked p (fst (sync_do x p st)) st (snd (sync_do x p st)).
Proof.
  destruct x as [|draws fuel id lh|now| |us|now v ids|now wanted ids|]; cbn [sync_do fst snd]; try by apply marked_same.
  - apply marked_same, key_ready_hash.
  - apply marked_same. destruct (generatePeeringKey _ _ _ _ p) as [[p' b]|] eqn:E; [|done]. by eapply generated_hash.
  - pose proof (linked_marked us p st) as Hm. by destruct (sync_linked us p st) as [[[? ?] ?] ?].
  - pose proof (response_marked now v ids p st) as Hm. by destruct (sync_response clock now v ids p st) as [[[? ?] ?] ?].
  - split; [done|]. by exists wanted.
Qed.

Lemma dos_app xs ys p st : sync_dos (xs ++ ys) p st = sync_dos ys (fst (sync_dos xs p st)) (snd (sync_dos xs p st)).
Proof.
  revert p st. induction xs as [|x xs IH]; intros p st; cbn [sync_dos app fst snd]; [done|].
  destruct (sync_do x p st). apply IH.
Qed.

Lemma linked_then us p st p' st' es r xs : sync_linked us p st = (p', st', es, r) ->
  sync_dos (LinkReady us :: xs) p st = sync_dos xs p' st'.
Proof. intros E. cbn [sync_dos sync_do]. by rewrite E. Qed.

Lemma answered_pieces now a ids v p st es0 p' st' es r :
  sync_answered clock now a ids v p st es0 = (p', st', es, r) ->
  exists xs, sync_dos xs p st = (p', st').
Proof.
  unfold sync_answered. intros Ha.
  destruct (sync_response clock now v ids p st) as [[[p1 st1] es1] r1] eqn:E1.
  assert (Hone : forall xs, sync_dos (Replied now v ids :: xs) p st = sync_dos xs p1 st1)
    by (intros xs; cbn [sync_dos sync_do]; by rewrite E1).
  destruct r1 as [[wanted|]|e]; [|by injection Ha as <- <- _ _; exists [Replied now v ids]; apply Hone
                                  |by injection Ha as <- <- _ _; exists [Replied now v ids]; apply Hone].
  destruct (transfer_done a _) as [[]|e].
  - destruct (sync_transferred now wanted ids p1 st1) as [[p2 st2] es2] eqn:E2. injection Ha as <- <- _ _.
    exists [Replied now v ids; Proved now wanted ids]. rewrite Hone. cbn [sync_dos sync_do]. by rewrite E2.
  - injection Ha as <- <- _ _. by exists [Replied now v ids; Aborted].
Qed.

(** An undisturbed pass is a run of such pieces. *)
Lemma pass_pieces now a lh p st p' st' es r : sync clock now a lh p st = Some (p', st', es, r) ->
  exists xs, sync_dos xs p st = (p', st').
Proof.
  unfold sync. intros Hs. destruct (negb (sync_gate now p)); [injection Hs as <- <- _ _; by exists []|].
  destruct (peeringKeyReady p) as [p1 ready] eqn:Er.
  match type of Hs with context [match ?k with Some _ => _ | None => None end] => set (key := k) in Hs end.
  assert (Hk : forall q b, key = Some (q, b) -> exists xs, forall st, sync_dos xs p st = (q, st)).
  { subst key. intros q b Hq. destruct ready; [injection Hq as <- _; exists [KeyChecked]; intros ?; cbn; by rewrite Er|].
    destruct (generatePeeringKey (key_draws a) (key_fuel a) (recalled_identity a) lh p1) as [[p2 [|]]|] eqn:Eg; [| |done].
    - exists [KeyChecked; KeyMade (key_draws a) (key_fuel a) (recalled_identity a) lh; KeyChecked].
      intros ?. cbn. rewrite Er. cbn [fst]. rewrite Eg. injection Hq as Hq. by rewrite Hq.
    - exists [KeyChecked; KeyMade (key_draws a) (key_fuel a) (recalled_identity a) lh].
      intros ?. cbn. rewrite Er. cbn [fst]. rewrite Eg. by injection Hq as <- _. }
  destruct key as [[q [|]]|]; [| |done]; destruct (Hk _ _ eq_refl) as [xs Hxs];
    [|injection Hs as <- <- _ _; by exists xs].
  assert (Hgo : forall ys res, sync_dos ys q st = res -> exists xs, sync_dos xs p st = res).
  { intros ys res Hys. exists (xs ++ ys). by rewrite dos_app, Hxs. }
  destruct (sync_collect now q st) as [|u us]; [injection Hs as <- <- _ _; by apply (Hgo [])|].
  destruct (recalled_identity a); [|injection Hs as <- <- _ _; by apply (Hgo [])].
  destruct (link_made a); [|injection Hs as <- <- _ _; by apply (Hgo [Connecting now; Aborted])].
  destruct (link_identified a); [|injection Hs as <- <- _ _; by apply (Hgo [Connecting now; LinkMade; Aborted])].
  destruct (sync_linked (u :: us) (sync_connect now q) st) as [[[p3 st3] es3] r3] eqn:E3.
  assert (Hgo3 : forall ys res, sync_dos ys p3 st3 = res -> exists xs, sync_dos xs p st = res).
  { intros ys res Hys. apply (Hgo (Connecting now :: LinkReady (u :: us) :: ys)).
    change (sync_dos (LinkReady (u :: us) :: ys) (sync_connect now q) st = res). by rewrite (linked_then _ _ _ _ _ _ _ _ E3). }
  destruct r3 as [[[ids offer]|]|e]; [|injection Hs as <- <- _ _; by apply (Hgo3 [])|injection Hs as <- <- _ _; by apply (Hgo3 [])].
  destruct (offer_response a offer) as [v|e].
  - injection Hs as Hs. apply answered_pieces in Hs as [ys Hys]. by apply (Hgo3 ys).
  - injection Hs as <- <- _ _. by apply (Hgo3 [Aborted]).
Qed.

(** ** The life of a node and its peers *)

(** The ids of the messages that batches stored and did not announce yet to
    the router ([storedIds] of each), under the number of the batch. *)
Record Mesh := mkMesh { table : PeerTable; sys : System; unannounced : list (nat * bytes) }.

(** [AtPeer] is a piece of a sync of the peer in the table; a sync goes on over
    an object that left the table ([AtFormer]). *)
Inductive mesh_op :=
| Peering (now : Q) (h : bytes) (cfg : PeerConfig)
| Unpeering (h : bytes)
| Heard (now : Q) (h : bytes) (hops : Z) (ad : option bytes)
| Maintain (now : Q)
| Node (x : input)
| Finish (i : nat)
| AtPeer (k : jsstr) (x : sync_piece)
| AtFormer (p : LXMPeer) (x : sync_piece).

Definition at_store (σ : System) (st : MessageStore) : System := mkSystem (set_store (node σ) st) (batches σ).

Definition with_store (t : PeerTable) (st : option MessageStore) (m : Mesh) : Mesh :=
  mkMesh t (match st with Some st => at_store (sys m) st | None => sys m end) (unannounced m).

(** The batch has gone through its messages: what it stored is announced to
    the router. *)
Definition finish (i : nat) (m : Mesh) : Mesh :=
  match batches (sys m) !! i with
  | Some (Some (mkBatch _ _ [] None)) =>
      let ids := map snd (filter (fun jt => fst jt = i) (unannounced m)) in
      let st := _distributeStored ids (table m) (store (node (sys m))) in
      mkMesh (table m) (fst (step clock c (End i) (at_store (sys m) st)))
        (filter (fun jt => fst jt <> i) (unannounced m))
  | _ => m
  end.

(** [None]: an announce whose numbers are fractions. *)
Definition mesh_run (o : mesh_op) (m : Mesh) : option Mesh :=
  let t := table m in
  let st := store (node (sys m)) in
  match o with
  | Peering now h cfg => let '(t, st, _) := peer now h cfg t (Some st) in Some (with_store t st m)
  | Unpeering h => Some (with_store (unpeer h t) None m)
  | Heard now h hops ad => (fun '(t, st) => with_store t st m) <$> heard_announce now h hops ad t (Some st)
  | Maintain now => Some (with_store (sync_maintenance now t) None m)
  | Node x => let '(σ, os) := step clock c x (sys m) in Some (mkMesh t σ (unannounced m ++ stored_by x os))
  | Finish i => Some (finish i m)
  | AtPeer k x =>
      match get k (peers t) with
      | Some p => let '(p, st) := sync_do x p st in Some (with_store (with_peers t (mset k p (peers t))) (Some st) m)
      | None => Some m
      end
  | AtFormer p x => Some (with_store t (Some (snd (sync_do x p st))) m)
  end.

Fixpoint mesh_runs (os : list mesh_op) (m : Mesh) : option Mesh :=
  match os with
  | [] => Some m
  | o :: os => match mesh_run o m with Some m => mesh_runs os m | None => None end
  end.

(** A batch whose end is [End] and not [Finish] threw. *)
Definition threw (past : list mesh_op) (i : nat) : Prop := Node (End i) ∈ past.

Record mesh_ok (past : list mesh_op) (m : Mesh) : Prop := {
  mo_table : table_ok (table m);
  mo_cap : zlen (peers (table m)) <= maxPeers (table m);
  mo_store : store_inv (store (node (sys m)));
  mo_queued : everywhere (covered (keys (peers (table m))) (map snd (unannounced m))) (store (node (sys m)));
  mo_running : Forall (fun jt => running (sys m) (fst jt) \/ threw past (fst jt)) (unannounced m);
}.

Lemma running_later past o m : Forall (fun jt => running (sys m) (fst jt) \/ threw past (fst jt)) (unannounced m) ->
  Forall (fun jt => running (sys m) (fst jt) \/ threw (past ++ [o]) (fst jt)) (unannounced m).
Proof. intros Hf. eapply Forall_impl; [exact Hf|]. intros jt [?|?]; [by left|right]. unfold threw in *. set_solver. Qed.

(** The table and the store change, the batches do not. *)
Lemma changed_ok past o m t st : mesh_ok past m -> shrunk (table m) t \/ table_ok t /\ zlen (peers t) <= maxPeers t ->
  store_inv st -> everywhere (covered (keys (peers t)) (map snd (unannounced m))) st ->
  mesh_ok (past ++ [o]) (with_store t (Some st) m).
Proof.
  intros [H1 H2 H3 H4 H5] Ht Hs Hq.
  assert (Ht' : table_ok t /\ zlen (peers t) <= maxPeers t).
  { destruct Ht as [(S1 & S2 & S3 & _)|Ht]; [|done]. split; [done|]. rewrite S2. lia. }
  split; [apply Ht'|apply Ht'|exact Hs|exact Hq|]. apply (running_later past o m H5).
Qed.

Lemma all_unhandled h st : everywhere (fun e => waits e (toHex h)) (fst (markAllUnhandledForPeer h st)).
Proof.
  unfold everywhere, markAllUnhandledForPeer. cbn [fst with_entries _entries]. apply Forall_map. apply Forall_forall.
  intros [k e] _. cbn. case_bool_decide as Hd; [apply waits_marked|]. by left.
Qed.

Lemma shrunk_ok past o t m : mesh_ok past m -> shrunk (table m) t ->
  mesh_ok (past ++ [o]) (with_store t None m) /\ maxPeers t = maxPeers (table m).
Proof.
  intros [H1 H2 H3 H4 H5] (S1 & S2 & S3 & S4). split; [|done].
  split; cbn [with_store table sys unannounced]; [done|rewrite S2; lia|done| |by apply running_later].
  eapply Forall_impl; [exact H4|]. intros [k e]. apply covered_more; [|done]. intros x. rewrite !list_elem_of_In. apply S4.
Qed.

Lemma shrunk_refl t : table_ok t -> shrunk t t.
Proof. intros Ht. split; [done|]. split; [done|]. split; [lia|done]. Qed.

Lemma peering_ok past o now h cfg m : mesh_ok past m ->
  let '(t, st, _) := peer now h cfg (table m) (Some (store (node (sys m)))) in
  mesh_ok (past ++ [o]) (with_store t st m) /\ maxPeers t = maxPeers (table m).
Proof.
  intros Hm. pose proof Hm as [H1 H2 H3 H4 H5].
  pose proof (peer_keys now h cfg (table m) (Some (store (node (sys m))))) as Hp.
  destruct (peer now h cfg (table m) (Some (store (node (sys m))))) as [[t st] b]. destruct Hp as (P1 & P2 & P3 & P4 & P5).
  split; [|done].
  assert (Hall : exists st', st = Some st' /\ store_inv st'
    /\ everywhere (covered (keys (peers t)) (map snd (unannounced m))) st').
  { destruct P5 as [->| ->]; cbn [fmap option_fmap option_map].
    - eexists. split; [done|]. split; [done|]. pose proof (all_unhandled h (store (node (sys m)))) as Ha.
      unfold everywhere in *. rewrite Forall_forall in Ha, H4 |- *. intros [k e] Hin.
      destruct (H4 _ Hin) as [Hw|Hw]; [left|by right]. intros x Hx.
      apply list_elem_of_In, P4 in Hx as [Hx|[-> Hst]]; [by apply Hw, list_elem_of_In|].
      cbn [fmap option_fmap option_map] in Hst. apply (inj Some) in Hst. rewrite <- Hst in Ha. by apply (Ha _ Hin).
    - eexists. split; [done|]. pose proof (all_unhandled h (store (node (sys m)))) as Ha.
      destruct (run_kept _ 0 (OpAllUnhandled h) _ (covered_lasting _ _) H3 H4 I) as [R1 R2]. cbn [store_run] in R1, R2.
      split; [done|]. unfold everywhere in *. rewrite Forall_forall in Ha, R2 |- *. intros [k e] Hin.
      destruct (R2 _ Hin) as [Hw|Hw]; [left|by right]. intros x Hx.
      apply list_elem_of_In, P4 in Hx as [Hx|[-> _]]; [by apply Hw, list_elem_of_In|by apply (Ha _ Hin)]. }
  destruct Hall as (st' & -> & A1 & A2). apply (changed_ok past o m t st'); [done| |done|done].
  right. split; [by apply P1|]. rewrite P2. by apply P3.
Qed.

Lemma mark_all_kept P ids h : forall st, lasting P -> store_inv st -> everywhere P st ->
  store_inv (mark_all_handled ids h st) /\ everywhere P (mark_all_handled ids h st).
Proof.
  induction ids as [|i ids IH]; intros st HP Hs He; cbn [mark_all_handled fold_left]; [done|].
  destruct (run_kept P 0 (OpHandled i h) st HP Hs He I). by apply IH.
Qed.

Lemma piece_kept P x p st : lasting P -> store_inv st -> everywhere P st ->
  store_inv (snd (sync_do x p st)) /\ everywhere P (snd (sync_do x p st)).
Proof. intros HP Hs He. destruct (piece_marked x p st) as [_ [ids ->]]. by apply mark_all_kept. Qed.

(** Announcing a batch's messages queues them for every peer. *)
Lemma distribute_covers t i l st : table_ok t -> store_inv st ->
  everywhere (covered (keys (peers t)) (map snd l)) st ->
  let st' := _distributeStored (map snd (filter (fun jt : nat * bytes => fst jt = i) l)) t st in
  store_inv st' /\ everywhere (covered (keys (peers t)) (map snd (filter (fun jt => fst jt <> i) l))) st'.
Proof.
  intros Ht Hs Hq. cbn zeta. set (ids := map snd (filter (fun jt => fst jt = i) l)).
  destruct (distribute_spec ids t st Hs) as (D1 & D2 & D3). split; [exact D1|].
  pose proof (D2 _ (covered_lasting _ _) Hq) as Hc. unfold everywhere, named_wait in *.
  rewrite Forall_forall in Hc |- *. intros [k e] Hin.
  destruct (Hc _ Hin) as [Hw|Hw]; [by left|].
  apply list_elem_of_fmap in Hw as (tid & Htid & Hw). apply list_elem_of_fmap in Hw as ([j tid'] & -> & Hw).
  destruct (decide (j = i)) as [->|Hne].
  - left. intros kk Hkk. apply list_elem_of_fmap in Hkk as ([k' p] & -> & Hp').
    pose proof (tk_hash t Ht) as Hh. rewrite Forall_forall in Hh. specialize (Hh _ Hp'). cbn [fst snd] in *. rewrite Hh.
    assert (Hpv : p ∈ values (peers t)) by (apply list_elem_of_fmap; by exists (k', p)).
    specialize (D3 p Hpv). rewrite Forall_forall in D3. apply (D3 (k, e) Hin).
    apply list_elem_of_fmap. exists tid'. split; [done|]. apply list_elem_of_fmap. exists (i, tid'). split; [done|].
    by apply list_elem_of_filter.
  - right. apply list_elem_of_fmap. exists tid'. split; [done|]. apply list_elem_of_fmap. exists (j, tid').
    split; [done|]. by apply list_elem_of_filter.
Qed.

Lemma finish_ok past i m : mesh_ok past m ->
  mesh_ok (past ++ [Finish i]) (finish i m) /\ maxPeers (table (finish i m)) = maxPeers (table m).
Proof.
  intros Hm. pose proof Hm as [H1 H2 H3 H4 H5].
  assert (Hsame : mesh_ok (past ++ [Finish i]) m) by (split; try done; by apply running_later).
  unfold finish. destruct (batches (sys m) !! i) as [[[o now [|v vs] [w|]]|]|] eqn:Ei; try by split.
  split; [|done]. destruct (distribute_covers (table m) i (unannounced m) _ H1 H3 H4) as [D1 D2].
  cbn [step at_store batches]. rewrite Ei. split; cbn [table sys unannounced fst node set_validating set_store store]; try done.
  apply Forall_forall. intros [j tid] [Hne Hin]%list_elem_of_filter. cbn [fst] in *.
  rewrite Forall_forall in H5. destruct (H5 _ Hin) as [[b Hb]|Hthrew]; cbn [fst] in *.
  - left. exists b. cbn [batches]. by rewrite list_lookup_insert_ne.
  - right. unfold threw in *. set_solver.
Qed.

Lemma input_ok past x m : mesh_ok past m ->
  let '(σ, os) := step clock c x (sys m) in
  mesh_ok (past ++ [Node x]) (mkMesh (table m) σ (unannounced m ++ stored_by x os)).
Proof.
  intros [H1 H2 H3 H4 H5]. destruct (step clock c x (sys m)) as [σ os] eqn:E.
  destruct (input_running _ _ _ _ E) as [R1 R2].
  assert (Hk : forall v, KeptFor v ∈ os -> exists i, (i, blob_id v) ∈ stored_by x os).
  { intros v Hv. assert (Hx : exists i, stored_by x os = kept_by i os).
    { destruct x; cbn [step] in E; try (by eexists); exfalso;
        repeat match type of E with context [match ?k with _ => _ end] => destruct k end;
        injection E as _ <-; by apply not_elem_of_nil in Hv. }
    destruct Hx as [i ->]. exists i. apply list_elem_of_omap. by exists (KeptFor v). }
  destruct (input_kept (covered (keys (peers (table m))) (map snd (unannounced m ++ stored_by x os))) x _ _ _
    (covered_lasting _ _) E H3) as [K1 K2].
  - eapply Forall_impl; [exact H4|]. intros [k e]. apply covered_more; [done|]. rewrite map_app. set_solver.
  - intros at_ v [i Hi]%Hk. right. cbn [entry_of transientId]. apply list_elem_of_fmap. exists (blob_id v). split; [done|].
    apply list_elem_of_fmap. exists (i, blob_id v). split; [done|]. set_solver.
  - split; cbn [table sys unannounced]; [done|done|exact K1|exact K2|]. apply Forall_app. split.
    + eapply Forall_impl; [exact H5|]. intros [j tid] [Hr|Hthrew]; cbn [fst] in *.
      * destruct (R1 j Hr) as [?| ->]; [by left|right]. unfold threw. set_solver.
      * right. unfold threw in *. set_solver.
    + eapply Forall_impl; [exact R2|]. intros jt. by left.
Qed.

Lemma piece_ok past k x m p : mesh_ok past m -> get k (peers (table m)) = Some p ->
  let '(p', st') := sync_do x p (store (node (sys m))) in
  mesh_ok (past ++ [AtPeer k x]) (with_store (with_peers (table m) (mset k p' (peers (table m)))) (Some st') m).
Proof.
  intros Hm Eg. pose proof Hm as [H1 H2 H3 H4 H5].
  pose proof (piece_kept _ x p _ (covered_lasting _ _) H3 H4) as [K1 K2].
  pose proof (piece_marked x p (store (node (sys m)))) as [Hh _].
  destruct (sync_do x p (store (node (sys m)))) as [p' st']. cbn [fst snd] in *.
  assert (Hhas : has k (peers (table m)) = true) by (unfold has; by rewrite Eg).
  pose proof H1 as [_ Hk]. rewrite List.Forall_forall in Hk. specialize (Hk _ (get_In _ _ _ Eg)). cbn in Hk. subst k.
  apply changed_ok; [done| |done|].
  - right. split; [apply file_ok; [done|by rewrite Hh]|]. cbn [with_peers peers maxPeers]. unfold zlen.
    by rewrite mset_length_has.
  - cbn [with_peers peers]. by rewrite keys_mset_has by by apply has_true.
Qed.

Lemma mesh_step past o m m' : mesh_ok past m -> mesh_run o m = Some m' ->
  mesh_ok (past ++ [o]) m' /\ maxPeers (table m') = maxPeers (table m).
Proof.
  intros Hm. pose proof Hm as [H1 H2 H3 H4 H5].
  assert (Hsame : mesh_ok (past ++ [o]) (with_store (table m) (Some (store (node (sys m)))) m))
    by (apply changed_ok; try done; left; by apply shrunk_refl).
  destruct o as [now h cfg|h|now h hops ad|now|x|i|k x|p x]; cbn [mesh_run].
  - pose proof (peering_ok past (Peering now h cfg) now h cfg m Hm) as Hp.
    destruct (peer _ _ _ _ _) as [[t st] b]. by intros [= <-].
  - intros [= <-]. apply shrunk_ok; [done|]. destruct (unpeer_shrinks h (table m)).
    split; [by apply unpeer_ok|]. by split.
  - unfold heard_announce. destruct (negb _); [by intros [= <-]|].
    destruct (parsePropagationNodeAppData ad) as [pn|]; [|by intros [= <-]].
    destruct (negb _); [by intros [= <-]|].
    destruct (announced_config pn) as [cfg|]; [|done]. destruct (_ && _); [|by intros [= <-]].
    pose proof (peering_ok past (Heard now h hops ad) now h cfg m Hm) as Hp.
    destruct (peer _ _ _ _ _) as [[t st] b]. by intros [= <-].
  - intros [= <-]. apply shrunk_ok; [done|]. by apply maintenance_shrunk.
  - pose proof (input_ok past x m Hm) as Hi. destruct (step clock c x (sys m)) as [σ os]. by intros [= <-].
  - intros [= <-]. by apply finish_ok.
  - destruct (get k (peers (table m))) as [p|] eqn:Eg.
    + pose proof (piece_ok past k x m p Hm Eg) as Hp. destruct (sync_do x p _) as [p' st']. by intros [= <-].
    + intros [= <-]. split; [|done]. split; try done. by apply running_later.
  - intros [= <-]. destruct (piece_kept _ x p _ (covered_lasting _ _) H3 H4) as [K1 K2]. split; [|done].
    apply changed_ok; try done. left. by apply shrunk_refl.
Qed.

Lemma mesh_steps os : forall past m m', mesh_ok past m -> mesh_runs os m = Some m' ->
  mesh_ok (past ++ os) m' /\ maxPeers (table m') = maxPeers (table m).
Proof.
  induction os as [|o os IH]; intros past m m' Hm; cbn [mesh_runs]; [intros [= <-]; by rewrite app_nil_r|].
  destruct (mesh_run o m) as [m1|] eqn:E; [|done]. intros Hr. destruct (mesh_step _ _ _ _ Hm E) as [H1 H2].
  destruct (IH _ _ _ H1 Hr) as [H3 H4]. rewrite <- app_assoc in H3. split; [done|congruence].
Qed.

(** A router that became a node, with no peer and nothing stored. *)
Definition mesh_start (cap : Z) (static : list jsstr) (auto : bool) (cost depth : Z) (limit : option Z) (ttl : option Q)
    : Mesh :=
  mkMesh (mkTable [] cap static auto cost depth)
    (mkSystem (new_PropagationNode (new_MessageStore limit ttl)) []) [].

Lemma start_ok cap static auto cost depth limit ttl : 0 <= cap ->
  mesh_ok [] (mesh_start cap static auto cost depth limit ttl).
Proof. intros Hc. split; cbn; [split; constructor|done|split; by try constructor|constructor|constructor]. Qed.

(** C15: No message is forgotten for a peer.  From a node that starts with no
    peer and nothing stored, in whatever order peers come and go, announces are heard, batches begin, store, wait, finish or throw,
    passes over peers go from one await to the next, requests are answered and
    messages age out: every message that is stored is, for every peer, either
    still to be offered to it or marked as handled, and never both, unless it
    was stored by a batch that is still in progress or that threw ([End] cut
    it short); a batch that [Finish]es leaves none behind.  A message to be
    offered whose stamp is worth the peer's cost is collected by its next
    sync. *)
Theorem mesh_complete (cap : Z) (static : list jsstr) (auto : bool) (cost depth : Z) (limit : option Z) (ttl : option Q)
    (os : list mesh_op) (m : Mesh) (Hcap : 0 <= cap)
    (Hrun : mesh_runs os (mesh_start cap static auto cost depth limit ttl) = Some m)
    (k : jsstr) (p : LXMPeer) (e : PropagationEntry)
    (Hp : get k (peers (table m)) = Some p) (He : e ∈ values (_entries (store (node (sys m))))) :
  ~ (k ∈ unhandledPeers e /\ k ∈ handledPeers e)
  /\ (k ∈ unhandledPeers e \/ k ∈ handledPeers e
      \/ exists i tid, (i, tid) ∈ unannounced m /\ toHex tid = toHex (transientId e)
           /\ (running (sys m) i \/ threw os i))
  /\ (k ∈ unhandledPeers e -> forall now, min_accepted p <= stampValue e ->
        e ∈ sync_collect now p (store (node (sys m)))).
Proof.
  destruct (mesh_steps os [] _ _ (start_ok cap static auto cost depth limit ttl Hcap) Hrun) as [[[T1 H1] _ H2 H3 H5] _].
  cbn [app] in H5. pose proof He as Hin. apply list_elem_of_fmap in Hin as ([tk e'] & -> & Hin). cbn [snd] in *. rename e' into e.
  unfold everywhere in H3. rewrite Forall_forall in H3. specialize (H3 _ Hin).
  pose proof (si_peers _ H2) as Hd. rewrite Forall_forall in Hd. specialize (Hd _ Hin k).
  pose proof H1 as Hh. rewrite List.Forall_forall in Hh. specialize (Hh _ (get_In _ _ _ Hp)). cbn in Hh.
  split; [tauto|]. split.
  - destruct H3 as [Hw|Hw].
    + destruct (Hw k); [|by left|by right; left].
      apply list_elem_of_fmap. exists (k, p). split; [done|]. by apply list_elem_of_In, get_In.
    + right. right. apply list_elem_of_fmap in Hw as (tid & Htid & Hw). apply list_elem_of_fmap in Hw as ([i tid'] & -> & Hw).
      exists i, tid'. split; [done|]. split; [done|]. rewrite Forall_forall in H5. exact (H5 _ Hw).
  - intros Hu now Hc. apply (collect_elem clock). rewrite <- Hh. auto.
Qed.

(** The table keeps to its cap: in any such life there are never more peers
    than allowed, each filed once under its hash, and rotation, which acts only
    above the cap, never drops a peer. *)
Theorem peers_capped (cap : Z) (static : list jsstr) (auto : bool) (cost depth : Z) (limit : option Z) (ttl : option Q)
    (os : list mesh_op) (m : Mesh) (Hcap : 0 <= cap)
    (Hrun : mesh_runs os (mesh_start cap static auto cost depth limit ttl) = Some m) :
  zlen (peers (table m)) <= cap /\ table_ok (table m) /\ rotatePeers (table m) = (table m, 0).
Proof.
  destruct (mesh_steps os [] _ _ (start_ok cap static auto cost depth limit ttl Hcap) Hrun) as [[H1 H2 _ _ _] H3].
  cbn [mesh_start table maxPeers] in H3. split; [lia|]. split; [done|]. unfold rotatePeers.
  by rewrite (proj2 (Z.leb_le _ _)).
Qed.
End Mesh.

(** ** Concrete runs *)

Section Samples.
Import MsgPackSpec.Host.
#[local] Existing Instances sum_crypto no_exotic sum_laws.

(** The second peer never answered, the third accepts a quarter of what it is
    offered and the fourth everything. *)
Definition sample_peers : jsmap LXMPeer :=
  map (fun '(i, al, off, out) =>
    (toHex (replicate 16 i), set_stats (new_LXMPeer (replicate 16 i)) al 0 off out))
    [(1, true, 0, 0); (2, false, 0, 0); (3, true, 8, 2); (4, true, 5, 5)].

Definition lowered : PeerTable := mkTable sample_peers 3 [] true 26 4.

Lemma lowered_ok : table_ok lowered.
Proof. split; [apply (bool_decide_unpack _); vm_compute; exact I|]. by repeat constructor. Qed.

Lemma rotation_fair_witness : zlen (peers (fst (rotatePeers lowered))) = 2
  /\ forall kp, In kp (peers (fst (rotatePeers lowered))) -> In kp sample_peers.
Proof.
  pose proof (rotation_fair lowered lowered_ok) as Hr. split; [vm_compute; reflexivity|].
  destruct (rotatePeers lowered) as [t n]. destruct Hr as (_ & _ & _ & Hin & _). exact Hin.
Defined.

Definition sample_cfg : PeerConfig := mkPeerConfig 16 3 18 (Some 256) (Some 10240).
Definition sample_peer : jsstr := toHex (replicate 16 5).

Definition mesh_ops : list mesh_op :=
  [Node (Begin 1 [sample_submission] Submission); Node (Next 0 (fun _ => None) 1); Peering 2 (replicate 16 5) sample_cfg;
   Finish 0; AtPeer sample_peer (Connecting 3); Maintain 3; AtPeer sample_peer Aborted; Node (Tick 4)].

Definition sample_mesh : option Mesh := Eval vm_compute in
  mesh_runs sample_clock default_config mesh_ops (mesh_start 20 [] true 26 4 None None).

Definition mesh_entries (m : option Mesh) : list PropagationEntry :=
  match m with Some m => values (_entries (store (node (sys m)))) | None => [] end.

Definition sample_mesh_entries : list PropagationEntry := Eval vm_compute in mesh_entries sample_mesh.

Lemma mesh_complete_witness : match sample_mesh with
  | Some m => unannounced m = [] /\ forall e, e ∈ values (_entries (store (node (sys m)))) ->
      ~ (sample_peer ∈ unhandledPeers e /\ sample_peer ∈ handledPeers e)
      /\ (sample_peer ∈ unhandledPeers e \/ sample_peer ∈ handledPeers e
          \/ exists i tid, (i, tid) ∈ unannounced m /\ toHex tid = toHex (transientId e)
               /\ (running (sys m) i \/ threw mesh_ops i))
  | None => False
  end.
Proof.
  split; [reflexivity|]. intros e He.
  refine (let H := @mesh_complete sum_crypto no_exotic sample_clock default_config 20 [] true 26 4 None None
    mesh_ops (match sample_mesh with Some m => m | None => mesh_start 0 [] true 0 0 None None end) _ _
    sample_peer (match sample_mesh with Some m => default (new_LXMPeer []) (get sample_peer (peers (table m))) | None => new_LXMPeer [] end) e _ _ in
    conj (proj1 H) (proj1 (proj2 H))).
  - lia.
  - vm_compute. reflexivity.
  - vm_compute. reflexivity.
  - exact He.
Defined.

Lemma peers_capped_witness : match sample_mesh with
  | Some m => rotatePeers (table m) = (table m, 0)
  | None => False
  end.
Proof.
  refine (proj2 (proj2 (@peers_capped sum_crypto no_exotic sample_clock default_config 20 [] true 26 4 None None
    mesh_ops (match sample_mesh with Some m => m | None => mesh_start 0 [] true 0 0 None None end) _ _))).
  - lia.
  - vm_compute. reflexivity.
Defined.

Example sample_mesh_queued : map (fun e => (size e, unhandledPeers e)) sample_mesh_entries = [(145, [sample_peer])].
Proof. reflexivity. Qed.

(** A batch that throws, here when its second message, for a local
    destination, is read, leaves the first stored and queued for nobody. *)
Definition second_submission : bytes := replicate 113 9 ++ Stamper.sample_stamp.

Example thrown_batch_unqueued (d : Destination) :
  map unhandledPeers (mesh_entries (mesh_runs sample_clock default_config
    [Peering 1 (replicate 16 5) sample_cfg; Node (Begin 2 [sample_submission; second_submission] Submission);
     Node (Next 0 (fun _ => None) 2); Node (Next 0 (fun _ => Some d) 2); Node (End 0); Node (Tick 3)]
    (mesh_start 20 [] true 26 4 None None))) = [[]].
Proof. vm_compute. reflexivity. Qed.
End Samples.
