(* ===== verification/StoreForward.v ===== *)
(** * StoreForward: a message from its sender to its recipient over a node

    The whole way of a propagated message: packed and stamped by the sender's
    router, accepted and kept by the node, listed, fetched, decrypted and
    dispatched by the recipient's router, acknowledged and purged
    ([store_and_forward]). *)

From Stdlib Require Import QArith.
From S2P Require Import Prelude Encoding JsMap Utf8 MsgPack MsgPackSpec Packet Crypto Identity Destination.
From S2P Require Import Sorting Stamper LxmfMessage LxmfMessageSpec MessageStore PropagationNode PropagationSpec SyncSpec.
From S2P Require Import Delivery Peer LxmfInbox InboxSpec LxmfRouter.
#[local] Open Scope Z_scope.

Section Forward.
Context `{C : WebCrypto} `{H : JsHost} `{W : !WebCryptoLaws C}.
Variable clock : Q -> value.
Variable c : NodeConfig.
Variable app : Application.

(** ** At the node *)

Lemma stampValid_less stamp cost cost' wb : cost' <= cost <= 256 -> stampValid stamp cost wb = true ->
  stampValid stamp cost' wb = true.
Proof using Type.
  intros Hc. unfold stampValid. rewrite !Z.leb_le, !Z.shiftl_mul_pow2, !Z.mul_1_l by lia. intros Hv.
  etransitivity; [exact Hv|]. apply Z.pow_le_mono_r; lia.
Qed.

(** What was stamped for a cost is accepted for any lower one. *)
Lemma stamped_validates draws fuel d s v cost least : (LXMF_OVERHEAD < length d)%nat -> length s = STAMP_SIZE ->
  generateStamp draws fuel (sha256 d) cost WORKBLOCK_EXPAND_ROUNDS_PN = Some (s, Some v) -> least <= cost <= 256 ->
  validated_blobs [d ++ s] least = Some [mkBlob (sha256 d) d s v].
Proof using Type.
  intros Hl Hs Hg Hc. apply search_valid in Hg as (Hv & Hval & _). apply (stampValid_less _ _ least) in Hv; [|done].
  unfold validated_blobs, validatePnStamps.
  assert (E : validatePnStamp (d ++ s) least = Some (mkValidated (sha256 d) d s (Some v))).
  { unfold validatePnStamp. rewrite length_app, Hs, (proj2 (Nat.leb_gt _ _)) by lia.
    rewrite Nat.add_sub, take_app_length, drop_app_length, Hv. by rewrite <- Hval. }
  cbn [omap list_omap]. by rewrite E.
Qed.

(** A message of nobody here that is new to a node without a cap is stored. *)
Lemma submission_stored now v s l : storageLimitBytes (store s) = None -> known (blob_id v) s = false ->
  delivery_for app (blob_dest v) = None -> validated_blobs l (minAcceptedCost c) = Some [v] ->
  exists s' n, ingestBlobs clock c app now l Submission s = (s', [OnStored [blob_id v]], dret n)
  /\ _entries (store s') = _entries (store s) ++ [(toHex (blob_id v), entry_of now v)]
  /\ (store_inv (store s) -> store_inv (store s')).
Proof using Type.
  intros Hl Hk Hd Hv. unfold ingestBlobs, _ingestBlobsInner. rewrite Hv.
  set (s1 := set_validating (prune_due now s) (validatingCount (prune_due now s) + 1)).
  assert (Hs1 : store s1 = store s) by (cbn; unfold prune_due; by destruct (Qle_bool _ _)).
  apply orb_false_iff in Hk as [Hk1 Hk2].
  assert (Hk' : known (blob_id v) s1 = false).
  { unfold known, has_message in *. rewrite Hs1, Hk1. cbn [orb]. apply has_false. apply has_false in Hk2. intros Hin.
    apply Hk2. revert Hin. cbn [s1 set_validating locallyProcessed]. unfold prune_due.
    destruct (Qle_bool _ _); [|done]. cbn [_pruneDedupCaches fst locallyProcessed]. unfold prune_cache, keys.
    intros ([k t] & <- & Hin)%in_map_iff. apply list_elem_of_In, list_elem_of_filter in Hin as [_ Hin].
    apply in_map. by apply list_elem_of_In. }
  cbn [ingest_loop]. unfold ingest_one, enter. rewrite Hk', Hd, andb_false_r. cbn [count_stored storedIds Datatypes.app].
  set (s2 := set_processed s1 _). assert (Hs2 : store s2 = store s) by exact Hs1.
  eexists _, _. split; [reflexivity|]. cbn [set_validating store]. split.
  - rewrite store_blob_uncapped by by rewrite Hs2. cbn [set_store store with_entries _entries]. rewrite Hs2.
    apply mset_new. by apply has_false.
  - intros Hi. cbn [store_blob set_store store].
    pose proof (run_inv now (OpAdd (entry_of now v)) (store s2)) as Hr. cbn [store_run] in Hr. apply Hr; [by rewrite Hs2|].
    by intros x Hx%not_elem_of_nil.
Qed.

(** A mailbox that was empty holds the one message that came. *)
Lemma mailbox_one owner st st' e : mailbox owner st = [] -> owned owner e ->
  values (_entries st') = values (_entries st) ++ [e] -> mailbox owner st' = [e].
Proof using Type.
  intros Hm Ho Hv. unfold mailbox in *. rewrite Hv, filter_app.
  assert (Hn : filter (fun e => owned owner e) (values (_entries st)) = []).
  { apply Permutation_nil. pose proof (js_sort_perm (fun a b => size a <? size b)
      (filter (fun e => owned owner e) (values (_entries st)))) as Hp. by rewrite Hm in Hp. }
  rewrite Hn. cbn [Datatypes.app]. by rewrite filter_cons_True.
Qed.

Lemma mailbox_none owner st : store_inv st -> mailbox owner st = [] ->
  forall k x, get k (_entries st) = Some x -> ~ owned owner x.
Proof using Type.
  intros Hs Hm k x Hg Ho. pose proof (mailbox_key owner st k x Hs Hg Ho) as Hin. rewrite Hm in Hin.
  by apply not_elem_of_nil in Hin.
Qed.

(** What is left when the one message of a mailbox was taken out. *)
Lemma forwarded_entries owner (es : jsmap PropagationEntry) key e k x : get key es = None -> owned owner e ->
  (forall k x, get k es = Some x -> ~ owned owner x) ->
  get k (es ++ [(key, e)]) = Some x /\ ~ owned owner x <-> get k es = Some x.
Proof using Type.
  intros Hk Ho Hn. rewrite <- mset_new by by apply get_None. destruct (decide (k = key)) as [->|Hne].
  - rewrite get_mset_same, Hk. naive_solver.
  - rewrite get_mset_other by done. naive_solver.
Qed.

(** ** At the recipient *)

Section Recipient.
Variable now : Q.
Variable recall : bytes -> option Identity.
Variable delivery : Destination.
Variables (rid : Identity) (owner : bytes).
Hypothesis (Hallow : identityAllowed c rid = true) (Hown : lxmf_hash ".delivery" rid = Some owner).
Hypothesis Hdelivery : Destination.destinationHash delivery = Some owner.

(** A message whose signature can be checked, or whose sender is unknown. *)
Definition acceptable (m : Message) : Prop :=
  match recall (source_of m) with Some id => verifySignature id m = dret true | None => True end.

Lemma dispatched_new m s mid : acceptable m -> messageId m = Some mid -> mid <> [] -> hasMessage mid s = false ->
  _dispatchMessage now m None (recall (source_of m)) s
  = (_rememberDelivered now (toHex mid) s, [MessageEvent m None], dret true).
Proof using Type.
  intros Ha Hid Hne Hn. unfold _dispatchMessage, acceptable in *. rewrite (dispatch_fresh now m None s mid Hid Hne Hn).
  destruct (recall (source_of m)); [by rewrite Ha|done].
Qed.

(** Fetching the one message of a mailbox. *)
Lemma fetched_one node e m mid (s : Inbox) : store_inv (store node) -> mailbox owner (store node) = [e] ->
  transientId e = sha256 (lxmfData e) -> take 16 (lxmfData e) = owner ->
  zlen (lxmfData e) + 40 <= DELIVERY_LIMIT * 1000 ->
  fromPropagationData (clock now) (lxmfData e) delivery = dret (Some m) -> acceptable m ->
  messageId m = Some mid -> mid <> [] ->
  has (toHex (transientId e)) (processedTransientIds s) = false -> hasMessage mid s = false ->
  exists node' s', syncFromPropagationNode clock (node_request c rid) now recall delivery ALL_MESSAGES DELIVERY_LIMIT node s
    = (node', s', [MessageEvent m None], dret (1%nat, 0%nat))
  /\ mailbox owner (store node') = []
  /\ (forall k x, get k (_entries (store node')) = Some x <-> get k (_entries (store node)) = Some x /\ ~ owned owner x)
  /\ hasMessage mid s' = true /\ has (toHex (transientId e)) (processedTransientIds s') = true.
Proof using Hallow Hown Hdelivery.
  intros Hn Hm Hid Hto Hsize Hread Hacc Hmid Hne Hproc Hnew.
  destruct (acked_own c rid owner Hallow Hown node Hn) as (node' & Hack & _ & Hempty & _ & Hget).
  rewrite Hm in Hack. cbn [map] in Hack.
  unfold syncFromPropagationNode, node_request. rewrite (listed_own c rid owner Hallow Hown node), Hm. unfold dret.
  cbn [map is_peer_error split_list as_tid rbind]. rewrite Hproc. cbn [ALL_MESSAGES Nat.eqb orb Datatypes.app].
  pose proof (fetched_own c rid owner Hallow Hown [e] node (VArr (map VBin [])) [VInt DELIVERY_LIMIT] (Some DELIVERY_LIMIT))
    as Hf. cbn [map] in Hf. cbn [map]. rewrite Hf; [|done|done|by rewrite Hm; apply Forall_singleton; left|done|done].
  pose proof (serve_fits owner (store node) [e] Hn) as Hs. rewrite Hm in Hs.
  specialize (Hs ltac:(by apply Forall_singleton; left) 24 (Some DELIVERY_LIMIT)). cbn [map foldr] in Hs.
  rewrite Hs by lia. cbn [rbind lift_dec map is_peer_error receive_all as_tid].
  change (transientIdFromPropagationData (lxmfData e)) with (sha256 (lxmfData e)). rewrite <- Hid, Hproc.
  unfold _ingestPropagationData. rewrite Hdelivery, Hto, bool_decide_true by done. cbn [negb].
  rewrite Hread. unfold dret at 1. rewrite (dispatched_new m s mid Hacc Hmid Hne Hnew). unfold dret. cbn [Datatypes.app map].
  rewrite Hack. eexists node', _. split; [reflexivity|]. split; [done|]. split; [done|]. split.
  - unfold _rememberProcessedTransientId. rewrite <- (remembered_now now mid s Hnew).
    by destruct (Qle_bool _ _).
  - unfold _rememberProcessedTransientId. cbn [set_seen processedTransientIds]. rewrite has_mset.
    by rewrite bool_decide_true.
Qed.
End Recipient.

(** ** The whole way *)

(** The stamps the sender draws reach the cost for any message. *)
Definition stamps_found (draws : nat -> bytes) (fuel : nat) (cost : Z) : Prop :=
  forall tid, exists stamp v, generateStamp draws fuel tid cost WORKBLOCK_EXPAND_ROUNDS_PN = Some (stamp, Some v)
    /\ length stamp = STAMP_SIZE.

(** C3: Store and forward: a message its sender packs, stamped for at least the
    node's cost, and submits to a node for a recipient that is not the node's
    own is kept there and announced to the node's peers; when the recipient
    next syncs, it is decrypted and dispatched once, as it was sent and with a
    signature that verifies, and acknowledged, which empties the mailbox and
    leaves every other message; a further sync finds nothing. *)
Theorem store_and_forward (id rid : Identity) (m : Message) (src : bytes) (ti co : jsstr) (delivery : Destination)
    (owner : bytes) (sent : Z) (eph iv : bytes) (ratchets : option (jsmap KnownRatchet)) (draws : nat -> bytes)
    (fuel : nat) (sendTime : value) (cost : Z) (recall : bytes -> option Identity) (arrived fetched : Q)
    (s : PropagationNode) (inbox : Inbox) (res : bytes)
    (Hid : wf_identity id) (Hrid : wf_identity rid) (Hm : sendable m src ti co) (Hiv : length iv = 16%nat)
    (Hown : lxmf_hash ".delivery" rid = Some owner) (Hto : LxmfMessage.destinationHash m = owner)
    (Hin : identity delivery = Some rid) (Hdelivery : Destination.destinationHash delivery = Some owner)
    (Hopen : forall p, opens rid (privRing delivery) eph iv p
       (ratchet_for sent ratchets (create (lit "lxmf.delivery") OUT DestType_SINGLE (Some rid) None)))
    (Htime : number_ok sendTime) (Hcost : 0 < cost <= 256 /\ minAcceptedCost c <= cost)
    (Hdraws : stamps_found draws fuel cost)
    (Hknow : recall src = None \/ recall src = Some id)
    (Hnode : store_inv (store s) /\ storageLimitBytes (store s) = None /\ mailbox owner (store s) = [])
    (Hallow : identityAllowed c rid = true) (Hforeign : delivery_for app owner = None)
    (Hsmall : forall m' d tid wire, toPropagationData sent eph iv ratchets id
         (create (lit "lxmf.delivery") OUT DestType_SINGLE (Some rid) None) m = dret (m', d, tid, wire) ->
       zlen d + 40 <= DELIVERY_LIMIT * 1000 /\ known tid s = false
       /\ has (toHex tid) (processedTransientIds inbox) = false
       /\ forall mid, messageId m' = Some mid -> hasMessage mid inbox = false) :
  exists m' container tid s1 mid m2 s2 inbox2,
    _packForPropagationSubmit sent eph iv ratchets draws fuel sendTime id (Some rid) m cost = dret (m', container, tid)
    /\ transfer_complete clock c app arrived false false res None container s = (s1, [OnStored [tid]], Some false)
    /\ syncFromPropagationNode clock (node_request c rid) fetched recall delivery ALL_MESSAGES DELIVERY_LIMIT s1 inbox
       = (s2, inbox2, [MessageEvent m2 None], dret (1%nat, 0%nat))
    /\ received_as id m src mid m2
    /\ (forall k x, get k (_entries (store s2)) = Some x <-> get k (_entries (store s)) = Some x)
    /\ syncFromPropagationNode clock (node_request c rid) fetched recall delivery ALL_MESSAGES DELIVERY_LIMIT s2 inbox2
       = (s2, inbox2, [], dret (0%nat, 0%nat)).
Proof using W.
  destruct Hcost as [Hcost Hleast], Hnode as (Hs & Hcap & Hbox).
  destruct (propagation_ok id rid m src ti co
    (create (lit "lxmf.delivery") OUT DestType_SINGLE (Some rid) None) delivery sent eph iv ratchets (clock fetched) Hid Hrid Hm Hiv eq_refl Hin Hopen)
    as (m' & mid & d & wire & Hrun & Hmid & [Hd Hm'mid Hlong (m2 & Hread & Hra)]).
  destruct (Hsmall _ _ _ _ Hrun) as (Hsize & Hnew & Hproc & Hdup).
  destruct (Hdraws (sha256 d)) as (stamp & v & Hgen & Hstamp).
  destruct (container_roundtrip [d ++ stamp] sendTime Htime) as (container & Hpack & Hunpack).
  { apply Forall_singleton. unfold blob_ok, zlen in *. rewrite length_app, Hstamp. unfold DELIVERY_LIMIT, STAMP_SIZE in *. lia. }
  { unfold zlen. cbn. lia. }
  set (b := mkBlob (sha256 d) d stamp v).
  assert (Hdest : blob_dest b = owner) by (unfold blob_dest; by rewrite <- Hto, <- Hd).
  destruct (submission_stored arrived b s [d ++ stamp] Hcap Hnew ltac:(by rewrite Hdest)
    (stamped_validates draws fuel d stamp v cost (minAcceptedCost c) Hlong Hstamp Hgen ltac:(lia)))
    as (s1 & n & Hing & Hent & Hinv).
  assert (Hown1 : owned owner (entry_of arrived b)) by (unfold owned; cbn [entry_of destinationHash]; by rewrite Hdest).
  assert (Hbox1 : mailbox owner (store s1) = [entry_of arrived b]).
  { apply (mailbox_one owner (store s)); [done|done|]. rewrite Hent. unfold values. by rewrite map_app. }
  assert (Hacc : acceptable recall m2).
  { unfold acceptable, source_of. rewrite (ra_source _ _ _ _ _ Hra). change (default [] (Some src)) with src.
    destruct Hknow as [->| ->]; [done|]. apply (ra_verified _ _ _ _ _ Hra). }
  destruct (fetched_one fetched recall delivery rid owner Hallow Hown Hdelivery s1 (entry_of arrived b) m2 mid inbox
    (Hinv Hs) Hbox1 eq_refl ltac:(by rewrite <- Hto, <- Hd) Hsize Hread Hacc (ra_id _ _ _ _ _ Hra) Hmid Hproc (Hdup _ Hm'mid))
    as (s2 & inbox2 & Hsync & Hbox2 & Hget & _ & _).
  exists m', container, (sha256 d), s1, mid, m2, s2, inbox2. split; [|split; [|split; [exact Hsync|split; [exact Hra|split]]]].
  - unfold _packForPropagationSubmit. rewrite Hrun. cbn [dbind dret]. unfold propagation_stamp.
    rewrite (proj2 (Z.ltb_lt _ _)), Hgen by lia. by rewrite Hpack.
  - unfold transfer_complete. rewrite Hunpack. cbn [messages as_blobs map mapM mbind option_bind]. unfold as_blobs. cbn.
    rewrite Hing. done.
  - intros k x. rewrite Hget, Hent. apply forwarded_entries; [|done|by apply mailbox_none].
    apply orb_false_iff in Hnew as [Hnew _]. apply get_None, has_false. exact Hnew.
  - unfold syncFromPropagationNode, node_request. by rewrite (listed_own c rid owner Hallow Hown s2), Hbox2.
Qed.
End Forward.

(** ** A concrete message *)

Section Samples.
Import MsgPackSpec.Host.
#[local] Existing Instances sum_crypto no_exotic sum_laws.

Definition fwd_sender : Identity := generate (replicate 32 1) (replicate 32 2).
Definition fwd_recipient : Identity := generate (replicate 32 3) (replicate 32 4).
Definition fwd_owner : bytes := Eval vm_compute in default [] (lxmf_hash ".delivery" fwd_recipient).
Definition fwd_delivery : Destination :=
  create (lit "lxmf.delivery") OUT DestType_SINGLE (Some fwd_recipient) None.

Definition fwd_message : Message :=
  new_Message (VInt 1) (Some (replicate 16 7)) fwd_owner sample_time (VStr (lit "hi"))
    (VStr (lit "hello")) text_fields None None VNull None.

Lemma fwd_sendable : sendable fwd_message (replicate 16 7) (lit "hi") (lit "hello").
Proof.
  pose proof (@sample_sendable VNull (or_introl eq_refl)) as [S1 S2 S3 S4 S5 S6 S7]. by split.
Qed.

Lemma fwd_stamps : stamps_found sample_stamps 1 16.
Proof. intros tid. exists (sample_stamps 0), 248. split; [vm_compute; reflexivity|reflexivity]. Qed.

Lemma fwd_opens p : opens fwd_recipient (privRing fwd_delivery) (replicate 32 6) (replicate 16 8) p
  (ratchet_for 0 None (create (lit "lxmf.delivery") OUT DestType_SINGLE (Some fwd_recipient) None)).
Proof. split; [reflexivity|]. eexists _, _. split; vm_compute; reflexivity. Qed.

Definition fwd_app : Application := mkApplication (fun _ => None) (fun _ _ => Ok tt) (fun _ => Ok true).
Definition fwd_clock (t : Q) : value := VInt 7.
Definition fwd_node : PropagationNode := new_PropagationNode (new_MessageStore None None).
Definition fwd_recall (h : bytes) : option Identity := Some fwd_sender.

Definition fwd_data : option (result (Message * bytes * bytes * bytes)) := Eval vm_compute in
  toPropagationData 0 (replicate 32 6) (replicate 16 8) None fwd_sender
    (create (lit "lxmf.delivery") OUT DestType_SINGLE (Some fwd_recipient) None) fwd_message.

Lemma store_and_forward_witness : exists s1 m2 s2 inbox2,
  syncFromPropagationNode fwd_clock (node_request default_config fwd_recipient) 2 fwd_recall fwd_delivery ALL_MESSAGES
    DELIVERY_LIMIT s1 new_Inbox = (s2, inbox2, [MessageEvent m2 None], dret (1%nat, 0%nat))
  /\ content m2 = VStr (lit "hello").
Proof.
  destruct (@store_and_forward sum_crypto no_exotic sum_laws fwd_clock default_config fwd_app fwd_sender fwd_recipient
    fwd_message (replicate 16 7) (lit "hi") (lit "hello") fwd_delivery fwd_owner 0 (replicate 32 6) (replicate 16 8) None
    sample_stamps 1 (VInt 5) 16 fwd_recall 1 2 fwd_node new_Inbox [1])
    as (m' & ct & tid & s1 & mid & m2 & s2 & inbox2 & _ & _ & Hsync & Hra & _).
  - apply generate_wf.
  - apply generate_wf.
  - exact fwd_sendable.
  - reflexivity.
  - vm_compute. reflexivity.
  - reflexivity.
  - reflexivity.
  - vm_compute. reflexivity.
  - exact fwd_opens.
  - split; [reflexivity|]. by eexists.
  - vm_compute. repeat split; discriminate.
  - exact fwd_stamps.
  - by right.
  - split; [split; by try constructor|done].
  - reflexivity.
  - reflexivity.
  - intros m' d tid wire. change (toPropagationData _ _ _ _ _ _ _) with fwd_data. intros [= <- <- <- <-].
    repeat split; vm_compute; done.
  - exists s1, m2, s2, inbox2. split; [exact Hsync|]. exact (ra_content _ _ _ _ _ Hra).
Defined.
End Samples.
