(* ===== verification/Resource.v ===== *)
(** * Resource: transfers in parts over a link
    (packages/core/src/core/resource.js and resource_advertisement.js)

    A payload too large for a packet is encrypted as a whole, sliced, described
    by 4-byte hashes of its parts and pulled by the receiver.  A method of the
    class runs in a small monad: it takes the object to the changed object,
    the events it causes and its outcome; [Hang] is a loop that never ends,
    [Outside] a case the model leaves out.
    Whether a packet is accepted by [link.send] is an argument ([accepts]);
    elapsed times are exact (rational) numbers of milliseconds. *)

From Stdlib Require Import QArith Qminmax.
From S2P Require Import Prelude Encoding JsMap Utf8 MsgPack Packet Crypto Identity Link.
#[local] Open Scope Z_scope.

(** ** Advertisements (resource_advertisement.js) *)
Module Adv.

Definition ENCRYPTED : Z := 1.
Definition COMPRESSED : Z := 2.
Definition SPLIT : Z := 4.
Definition IS_REQUEST : Z := 8.
Definition IS_RESPONSE : Z := 16.
Definition HAS_METADATA : Z := 32.

(** The number fields hold whatever value was decoded. *)
Record t := mk {
  transferSize : value;    (* t *)
  dataSize : value;        (* d *)
  parts : value;           (* n *)
  hash : bytes;            (* h *)
  random : bytes;          (* r *)
  original : bytes;        (* o *)
  index : value;           (* i *)
  segments : value;        (* l *)
  request : option bytes;  (* q *)
  flags : value;           (* f *)
  hashmap : bytes;         (* m *)
}.

(** [options.x || 0] *)
Definition or_zero (v : value) : value := if truthy v then v else VInt 0.

Definition flag (k f : Z) : bool := negb (js_and (js_shr f k) 1 =? 0).
Definition encrypted (f : Z) : bool := flag 0 f.
Definition compressed (f : Z) : bool := flag 1 f.
Definition split (f : Z) : bool := flag 2 f.
Definition isRequest (f : Z) : bool := flag 3 f.
Definition isResponse (f : Z) : bool := flag 4 f.
Definition hasMetadata (f : Z) : bool := flag 5 f.

Definition dict (a : t) : value :=
  VObj None
    [(lit "t", transferSize a); (lit "d", dataSize a); (lit "n", parts a);
     (lit "h", VBin (hash a)); (lit "r", VBin (random a)); (lit "o", VBin (original a));
     (lit "i", index a); (lit "l", segments a);
     (lit "q", match request a with Some q => VBin q | None => VNull end);
     (lit "f", flags a); (lit "m", VBin (hashmap a))].

Definition pack `{JsHost} (a : t) : result bytes := encode (dict a).

(** [new Uint8Array(v)]; [None]: a conversion of strings, floats or nested
    values, which the model leaves out. *)
Definition toUint8Array (v : value) : option (result bytes) :=
  match v with
  | VNull => Some (Ok [])
  | VBool b => Some (Ok (if b then [0] else []))
  | VInt n => Some (if n <? 0 then Throw (RangeError "Invalid typed array length")
                    else Ok (replicate (Z.to_nat n) 0))
  | VBigInt _ => Some (Throw (TypeError "Cannot convert a BigInt value to a number"))
  | VBin b => Some (Ok b)
  | VArr l => (fun ns => Ok (map (fun n => n mod 256) ns)) <$>
                mapM (fun v => match v with VInt n => Some n | _ => None end) l
  | _ => None
  end.

(** A field of the decoded dictionary; other values than objects have none of
    these properties, [null] and [undefined] throw. *)
Definition field (k : string) (v : value) : value := default VNull (prop (lit k) v).

Definition byte_field (k : string) (v : value) : option (result bytes) := toUint8Array (field k v).

Definition obind {A B} (m : option (result A)) (k : A -> option (result B)) : option (result B) :=
  match m with
  | Some (Ok a) => k a
  | Some (Throw e) => Some (Throw e)
  | None => None
  end.

Definition unpack `{JsHost} (data : bytes) : option (result t) :=
  obind (Some (decode_body data)) (fun v =>
  match v with
  | VNull => Some (Throw (TypeError "Cannot read properties of null"))
  | v =>
      obind (byte_field "h" v) (fun h =>
      obind (byte_field "r" v) (fun r =>
      obind (byte_field "o" v) (fun o =>
      obind (if truthy (field "q" v)
             then obind (byte_field "q" v) (fun q => Some (Ok (Some q)))
             else Some (Ok None)) (fun q =>
      obind (byte_field "m" v) (fun m =>
      Some (Ok (mk (or_zero (field "t" v)) (or_zero (field "d" v)) (or_zero (field "n" v)) h r o
                  (or_zero (field "i" v)) (or_zero (field "l" v)) q (or_zero (field "f" v)) m)))))))
  end).

End Adv.

(** ** The object *)

Inductive ResourceStatus :=
| NONE | QUEUED | ADVERTISED | TRANSFERRING | ASSEMBLING | AWAITING_PROOF
| COMPLETE | FAILED | CORRUPT | REJECTED.

#[global] Instance ResourceStatus_eq_dec : EqDecision ResourceStatus.
Proof. solve_decision. Defined.

Definition HASHMAP_IS_NOT_EXHAUSTED : Z := 0x00.
Definition HASHMAP_IS_EXHAUSTED : Z := 0xff.
Definition RANDOM_HASH_SIZE : nat := 4.
Definition IFAC_MIN_SIZE : Z := 1.
Definition HEADER_MAX_SIZE : Z := 35.
Definition WINDOW : Z := 4.
Definition WINDOW_MIN : Z := 2.
Definition WINDOW_MAX_SLOW : Z := 10.
Definition WINDOW_MAX_VERY_SLOW : Z := 4.
Definition WINDOW_MAX_FAST : Z := 75.
Definition WINDOW_FLEXIBILITY : Z := 4.
Definition FAST_RATE_THRESHOLD : Z := WINDOW_MAX_SLOW - WINDOW - 2.
Definition VERY_SLOW_RATE_THRESHOLD : Z := 2.
Definition RATE_FAST : Z := 50 * 1000 / 8.
Definition RATE_VERY_SLOW : Z := 2 * 1000 / 8.
Definition HASHMAP_FIXED_OVERHEAD : Z := 134.
Definition DEFAULT_MAX_SIZE : Z := 32 * 1024 * 1024.
Definition DEFAULT_MAX_PARTS : Z := 262144.
Definition METADATA_MAX_SIZE : Z := 0xffffff.
Definition MAX_EFFICIENT_SIZE : Z := 1 * 1024 * 1024 - 1.
Definition DEFAULT_MAX_SEGMENTS : Z := 4096.
Definition DEFAULT_MAX_TOTAL_SIZE : Z := 256 * 1024 * 1024.
Definition MAX_RETRIES : Z := 16.
Definition PART_TIMEOUT_FACTOR : Q := 4.
Definition PER_RETRY_DELAY : Q := 1 # 2.
Definition SENDER_GRACE_TIME : Q := 10.
Definition PROCESSING_GRACE : Q := 1.
Definition RETRY_GRACE_TIME : Q := 1 # 4.
Definition PROOF_TIMEOUT_FACTOR : Q := 3.

(** What the object carries. *)
Record Content := mkContent {
  data : option bytes;
  metadata : option value;
  metadataPrefix : option bytes;
  fullPlaintext : option bytes;
  uncompressedSize : Z;
}.

Record Kind := mkKind {
  originalHash : option bytes;
  requestId : option bytes;
  isRequest : bool;
  isResponse : bool;
  compressed : bool;
  encrypted : bool;
  split : bool;
  hasMetadata : bool;
  segmentIndex : Z;
  totalSegments : Z;
}.

(** The prepared (or advertised) form; [None] in [parts] is [null]. *)
Record Wire := mkWire {
  parts : list (option bytes);
  hashmap : list bytes;
  totalParts : Z;
  totalSize : Z;
  hash : option bytes;
  randomHash : bytes;
  expectedProof : bytes;
}.

Record Rx := mkRx {
  receivedCount : Z;
  outstanding : Z;
  window : Z;
  windowMax : Z;
  windowMin : Z;
  fastRateRounds : Z;
  verySlowRateRounds : Z;
  reqSentAt : Z;
  reqWindowRxd : Z;
}.

Record Watch := mkWatch {
  retriesLeft : Z;
  lastActivity : Z;
  advSentAt : Z;
  gotPartRequests : bool;
}.

Record Resource := mkResource {
  autoCompress : bool;
  bz2 : option Bz2;
  content : Content;
  kind : Kind;
  wire : Wire;
  rx : Rx;
  watch : Watch;
  status : ResourceStatus;
  prepared : bool;
  sentPartIndices : list nat;
}.

Definition set_content (r : Resource) (c : Content) : Resource :=
  mkResource (autoCompress r) (bz2 r) c (kind r) (wire r) (rx r) (watch r) (status r) (prepared r)
    (sentPartIndices r).
Definition set_kind (r : Resource) (k : Kind) : Resource :=
  mkResource (autoCompress r) (bz2 r) (content r) k (wire r) (rx r) (watch r) (status r) (prepared r)
    (sentPartIndices r).
Definition set_wire (r : Resource) (w : Wire) : Resource :=
  mkResource (autoCompress r) (bz2 r) (content r) (kind r) w (rx r) (watch r) (status r) (prepared r)
    (sentPartIndices r).
Definition set_rx (r : Resource) (x : Rx) : Resource :=
  mkResource (autoCompress r) (bz2 r) (content r) (kind r) (wire r) x (watch r) (status r) (prepared r)
    (sentPartIndices r).
Definition set_watch (r : Resource) (w : Watch) : Resource :=
  mkResource (autoCompress r) (bz2 r) (content r) (kind r) (wire r) (rx r) w (status r) (prepared r)
    (sentPartIndices r).
Definition set_status (r : Resource) (s : ResourceStatus) : Resource :=
  mkResource (autoCompress r) (bz2 r) (content r) (kind r) (wire r) (rx r) (watch r) s (prepared r)
    (sentPartIndices r).
Definition set_prepared (r : Resource) : Resource :=
  mkResource (autoCompress r) (bz2 r) (content r) (kind r) (wire r) (rx r) (watch r) (status r) true
    (sentPartIndices r).
Definition set_sent (r : Resource) (l : list nat) : Resource :=
  mkResource (autoCompress r) (bz2 r) (content r) (kind r) (wire r) (rx r) (watch r) (status r)
    (prepared r) l.

Definition set_data (c : Content) (d : option bytes) : Content :=
  mkContent d (metadata c) (metadataPrefix c) (fullPlaintext c) (uncompressedSize c).
Definition set_metadata (c : Content) (m : option value) : Content :=
  mkContent (data c) m (metadataPrefix c) (fullPlaintext c) (uncompressedSize c).
Definition set_plain (c : Content) (full : option bytes) (size : Z) : Content :=
  mkContent (data c) (metadata c) (metadataPrefix c) full size.
Definition set_segment (k : Kind) (split : bool) (index total : Z) : Kind :=
  mkKind (originalHash k) (requestId k) (isRequest k) (isResponse k) (compressed k) (encrypted k)
    split (hasMetadata k) index total.
Definition set_coding (k : Kind) (compressed encrypted : bool) : Kind :=
  mkKind (originalHash k) (requestId k) (isRequest k) (isResponse k) compressed encrypted (split k)
    (hasMetadata k) (segmentIndex k) (totalSegments k).
Definition set_original (k : Kind) (o : option bytes) : Kind :=
  mkKind o (requestId k) (isRequest k) (isResponse k) (compressed k) (encrypted k) (split k)
    (hasMetadata k) (segmentIndex k) (totalSegments k).
Definition set_parts (w : Wire) (ps : list (option bytes)) : Wire :=
  mkWire ps (hashmap w) (totalParts w) (totalSize w) (hash w) (randomHash w) (expectedProof w).
Definition set_hashmap (w : Wire) (hs : list bytes) : Wire :=
  mkWire (parts w) hs (totalParts w) (totalSize w) (hash w) (randomHash w) (expectedProof w).
Definition set_window (x : Rx) (w wmax wmin fast slow : Z) : Rx :=
  mkRx (receivedCount x) (outstanding x) w wmax wmin fast slow (reqSentAt x) (reqWindowRxd x).
Definition set_counts (x : Rx) (received out sentAt rxd : Z) : Rx :=
  mkRx received out (window x) (windowMax x) (windowMin x) (fastRateRounds x) (verySlowRateRounds x)
    sentAt rxd.
Definition set_activity (w : Watch) (t : Z) : Watch :=
  mkWatch (retriesLeft w) t (advSentAt w) (gotPartRequests w).
Definition set_retries (w : Watch) (n : Z) : Watch :=
  mkWatch n (lastActivity w) (advSentAt w) (gotPartRequests w).

(** ** Methods as a monad *)

Inductive outcome (A : Type) :=
| Ret (a : A)
| Raise (e : error)
| Hang
| Outside.   (* a case the model leaves out *)
Arguments Ret {A} a.
Arguments Raise {A} e.
Arguments Hang {A}.
Arguments Outside {A}.

Inductive event :=
| Sent (packetType ctx : Z) (payload : bytes)   (* a resolved link.send *)
| RegisterOutgoing (h : bytes)
| UnregisterOutgoing (h : bytes)
| RegisterIncoming (h : bytes)
| UnregisterIncoming (h : bytes)
| RememberWindow (w : Z)                        (* link.lastResourceWindow *)
| Progress (done total : Z)
| Complete
| Failed.

(** What a method reads of its link, the clock, and which packets the link's
    [send] accepts. *)
Record Env := mkEnv {
  now : Z;
  mtu : Z;
  linkToken : option Token.Token;
  linkRtt : option Q;               (* [None]: NaN *)
  accepts : Z -> bytes -> bool;
}.

(** The random values of one attempt at building the parts. *)
Record Draw := mkDraw { salt : bytes; prefix : bytes; iv : bytes }.

Definition M (A : Type) : Type := Resource -> Resource * list event * outcome A.

#[global] Instance M_ret : MRet M := fun A a r => (r, [], Ret a).
#[global] Instance M_bind : MBind M := fun A B k m r =>
  match m r with
  | (r1, e1, Ret a) => let '(r2, e2, x) := k a r1 in (r2, e1 ++ e2, x)
  | (r1, e1, Raise e) => (r1, e1, Raise e)
  | (r1, e1, Hang) => (r1, e1, Hang)
  | (r1, e1, Outside) => (r1, e1, Outside)
  end.

Definition get : M Resource := fun r => (r, [], Ret r).
Definition modify (f : Resource -> Resource) : M unit := fun r => (f r, [], Ret tt).
Definition emit (e : event) : M unit := fun r => (r, [e], Ret tt).
Definition raise {A} (e : error) : M A := fun r => (r, [], Raise e).
Definition hang {A} : M A := fun r => (r, [], Hang).
Definition lift {A} (x : result A) : M A :=
  match x with Ok a => mret a | Throw e => raise e end.

(** [try { m } catch { handler }] *)
Definition catch {A} (m handler : M A) : M A := fun r =>
  match m r with
  | (r1, e1, Raise _) => let '(r2, e2, x) := handler r1 in (r2, e1 ++ e2, x)
  | res => res
  end.

(** How an awaited method ended, for the code that resumes after it. *)
Definition attempt (m : M unit) : M (result unit) := fun r =>
  match m r with
  | (r1, e1, Ret a) => (r1, e1, Ret (Ok a))
  | (r1, e1, Raise e) => (r1, e1, Ret (Throw e))
  | (r1, e1, Hang) => (r1, e1, Hang)
  | (r1, e1, Outside) => (r1, e1, Outside)
  end.

Definition to_status (s : ResourceStatus) : M unit := modify (fun r => set_status r s).

(** [await this.link.send(packet)] with a packet to the link. *)
Definition link_send (E : Env) (packetType ctx : Z) (payload : bytes) : M unit :=
  if accepts E ctx payload then emit (Sent packetType ctx payload)
  else raise (JsError "link.send failed").

Definition sdu (E : Env) : Z := mtu E - HEADER_MAX_SIZE - IFAC_MIN_SIZE.
Definition hashmapMaxLen (E : Env) : Z := (mdu (mtu E) - HASHMAP_FIXED_OVERHEAD) / 4.
Definition collisionGuardSize (E : Env) : Z := 2 * WINDOW_MAX_SLOW + hashmapMaxLen E.

Definition big_endian_24 (n : Z) : bytes := [js_shr n 16; js_and (js_shr n 8) 0xff; js_and n 0xff].

Definition initial_rx : Rx :=
  mkRx 0 0 WINDOW WINDOW_MAX_SLOW WINDOW_MIN 0 0 0 0.

(** The constructor without metadata. *)
Definition new_Resource (t : Z) (d : option bytes) (auto : bool) (z : option Bz2)
    (o q : option bytes) (isReq isResp : bool) : Resource :=
  mkResource auto z (mkContent d None None None 0)
    (mkKind o q isReq isResp false false false false 1 1)
    (mkWire [] [] 0 0 None [] []) initial_rx (mkWatch MAX_RETRIES t 0 false) NONE false [].

Section WithCrypto.
Context `{C : WebCrypto} `{H : JsHost}.

(** The constructor's metadata branch; [null] is no metadata. *)
Definition construct (t : Z) (d : option bytes) (meta : value) (auto : bool) (z : option Bz2)
    (o q : option bytes) (isReq isResp : bool) : result Resource :=
  let r := new_Resource t d auto z o q isReq isResp in
  match meta with
  | VNull => Ok r
  | _ =>
      let! packed := encode meta in
      if zlen packed >? METADATA_MAX_SIZE then Throw (JsError "Resource metadata size exceeded")
      else
        let c := mkContent d (Some meta) (Some (big_endian_24 (zlen packed) ++ packed)) None 0 in
        Ok (set_kind (set_content r c)
             (mkKind o q isReq isResp false false false true 1 1))
  end.

(** ** Sender *)

Definition mapHash (randomHash part : bytes) : bytes := slice 0 4 (sha256 (part ++ randomHash)).

Definition hasCollision (span : Z) (hashes : list bytes) : bool :=
  existsb (fun i =>
    existsb (fun j => bytesEqual (nth i hashes []) (nth j hashes []))
      (seq (Z.to_nat (Z.max 0 (Z.of_nat i - span)))
           (i - Z.to_nat (Z.max 0 (Z.of_nat i - span)))))
    (seq 0 (length hashes)).

(** [Math.max(1, Math.ceil(length / sdu))] of a non-empty string; [None] is
    [Infinity]. *)
Definition part_count (sdu len : Z) : option Z :=
  if sdu =? 0 then None
  else Some (Z.max 1 (- ((- len) / sdu))).

(** The slicing loop: with infinitely many parts it never ends. *)
Definition slice_parts (sdu : Z) (encrypted : bytes) : option (list bytes) :=
  (fun n => map (fun i => js_slice (Z.of_nat i * sdu)
                            (Z.min (Z.of_nat i * sdu + sdu) (zlen encrypted)) encrypted)
              (seq 0 (Z.to_nat n))) <$> part_count sdu (zlen encrypted).

(** One attempt: the object with its integrity material and parts. *)
Definition build_attempt (E : Env) (plaintext body : bytes) (d : Draw) : M bool :=
  let s := slice 0 RANDOM_HASH_SIZE (salt d) in
  let h := sha256 (plaintext ++ s) in
  let proof := sha256 (plaintext ++ h) in
  modify (fun r => set_wire r (mkWire (parts (wire r)) (hashmap (wire r)) (totalParts (wire r))
                                 (totalSize (wire r)) (Some h) s proof)) ;;
  match linkToken E with
  | None => raise (JsError "Link token unavailable; handshake not complete.")
  | Some t =>
      let enc := Token.encrypt (iv d) t (slice 0 RANDOM_HASH_SIZE (prefix d) ++ body) in
      match slice_parts (sdu E) enc with
      | None => hang
      | Some ps =>
          let hashes := map (mapHash s) ps in
          modify (fun r => set_kind (set_wire r
            (mkWire (map Some ps) hashes (zlen ps) (zlen enc) (Some h) s proof))
            (set_coding (kind r) (compressed (kind r)) true)) ;;
          mret (negb (hasCollision (collisionGuardSize E) hashes))
      end
  end.

Fixpoint build_loop (E : Env) (plaintext body : bytes) (draws : nat -> Draw) (attempt k : nat)
    : M unit :=
  match k with
  | O => raise (JsError "Failed to construct a collision-free resource hashmap")
  | S k =>
      ok ← build_attempt E plaintext body (draws attempt);
      if (ok : bool) then mret tt else build_loop E plaintext body draws (S attempt) k
  end.

Definition _buildIntegrityAndParts (E : Env) (draws : nat -> Draw) (plaintext body : bytes) : M unit :=
  build_loop E plaintext body draws 0 8.

(** The compressed form when it is wanted, possible and shorter. *)
Definition compressed_body (auto : bool) (z : option Bz2) (plaintext : bytes) : option bytes :=
  match z with
  | Some z =>
      if auto then
        match compress z plaintext with
        | Ok c => if (length c <? length plaintext)%nat then Some c else None
        | Throw _ => None
        end
      else None
  | None => None
  end.

Definition prepare_body (E : Env) (draws : nat -> Draw) (plaintext : bytes) : M unit :=
  r ← get;
  let c := compressed_body (autoCompress r) (bz2 r) plaintext in
  modify (fun r => set_kind r (set_coding (kind r) (bool_decide (is_Some c)) (encrypted (kind r)))) ;;
  _buildIntegrityAndParts E draws plaintext (default plaintext c).

Definition segment_of (full : bytes) (index : Z) : bytes :=
  let start := (index - 1) * MAX_EFFICIENT_SIZE in
  slice (Z.to_nat start) (Z.to_nat (Z.min (start + MAX_EFFICIENT_SIZE) (zlen full))) full.

Definition _prepareSegment (E : Env) (draws : nat -> Draw) : M unit :=
  r ← get;
  let full := default [] (fullPlaintext (content r)) in
  let plaintext := segment_of full (segmentIndex (kind r)) in
  modify (fun r => set_sent (set_content r (set_plain (content r) (fullPlaintext (content r)) (zlen plaintext))) []) ;;
  prepare_body E draws plaintext ;;
  modify (fun r => if segmentIndex (kind r) =? 1
                   then set_kind r (set_original (kind r) (hash (wire r))) else r).

Definition _prepareSender (E : Env) (draws : nat -> Draw) : M unit :=
  r ← get;
  if prepared r then mret tt else
  match data (content r) with
  | None => raise (TypeError "Resource sender data must be a Uint8Array")
  | Some d =>
      let plaintext := match metadataPrefix (content r) with Some p => p ++ d | None => d end in
      if zlen plaintext >? MAX_EFFICIENT_SIZE then
        modify (fun r => set_content (set_kind r (set_segment (kind r) true 1
                           ((zlen plaintext - 1) / MAX_EFFICIENT_SIZE + 1)))
                         (set_plain (set_data (content r) None) (Some plaintext)
                            (uncompressedSize (content r)))) ;;
        _prepareSegment E draws ;;
        modify set_prepared
      else
        modify (fun r => set_content r (set_plain (content r) (fullPlaintext (content r)) (zlen plaintext))) ;;
        prepare_body E draws plaintext ;;
        modify (fun r => set_prepared (set_content r (set_data (content r) None)))
  end.

Definition advertisement (E : Env) (r : Resource) : Adv.t :=
  let k := kind r in
  let w := wire r in
  let bit (b : bool) v f := if b then js_or f v else f in
  let f := bit (hasMetadata k) Adv.HAS_METADATA (bit (isResponse k) Adv.IS_RESPONSE
           (bit (isRequest k) Adv.IS_REQUEST (bit (split k) Adv.SPLIT
           (bit (compressed k) Adv.COMPRESSED (bit (encrypted k) Adv.ENCRYPTED 0))))) in
  let count := Z.min (zlen (hashmap w)) (hashmapMaxLen E) in
  Adv.mk (VInt (totalSize w)) (VInt (uncompressedSize (content r))) (VInt (totalParts w))
    (default [] (hash w)) (randomHash w)
    (match originalHash k with Some o => o | None => default [] (hash w) end)
    (VInt (segmentIndex k)) (VInt (totalSegments k)) (requestId k) (VInt f)
    (concatBytes (js_slice 0 count (hashmap w))).

Definition _advertiseSegment (E : Env) : M unit :=
  r ← get;
  packed ← lift (Adv.pack (advertisement E r));
  emit (RegisterOutgoing (default [] (hash (wire r)))) ;;
  link_send E PacketType_DATA ContextType_RESOURCE_ADV packed ;;
  modify (fun r => set_watch r (mkWatch (retriesLeft (watch r)) (now E) (now E) false)).

Definition advertise (E : Env) (draws : nat -> Draw) : M unit :=
  _prepareSender E draws ;;
  r ← get;
  if negb (bool_decide (status r = NONE))
  then raise (JsError "Resource already advertised or in progress")
  else to_status QUEUED ;; _advertiseSegment E ;; to_status ADVERTISED.

(** [_parseRequest]: the requested hashes, and the last known one of an
    exhausted request. *)
Definition _splitHashmap (fragment : bytes) : list bytes :=
  map (fun i => slice (4 * i) (4 * i + 4) fragment) (seq 0 (length fragment / 4)).

Definition _parseRequest (body : bytes) : list bytes * bool * bytes * bytes :=
  let exhausted := bool_decide (head body = Some HASHMAP_IS_EXHAUSTED) in
  let offset := if exhausted then 5%nat else 1%nat in
  (_splitHashmap (slice_from (offset + 32) body), exhausted,
   if exhausted then slice 1 5 body else [], slice offset (offset + 32) body).

Fixpoint index_of (h : bytes) (hs : list bytes) : option nat :=
  match hs with
  | [] => None
  | x :: hs => if bytesEqual x h then Some 0%nat else S <$> index_of h hs
  end.

Definition _findPartByMapHash (h : bytes) (r : Resource) : option nat :=
  index_of h (hashmap (wire r)).

Definition _sendPart (E : Env) (part : bytes) : M unit :=
  link_send E PacketType_DATA ContextType_RESOURCE part.

Definition add_index (i : nat) (l : list nat) : list nat :=
  if existsb (Nat.eqb i) l then l else l ++ [i].

(** [_setFailed]. *)
Definition _setFailed : M unit :=
  r ← get;
  (match hash (wire r) with
   | Some h => emit (UnregisterIncoming h) ;; emit (UnregisterOutgoing h)
   | None => mret tt
   end) ;;
  modify (fun r => set_content (set_wire r (set_parts (wire r) [])) (set_data (content r) None)) ;;
  emit Failed.

Definition cancel (E : Env) : M unit :=
  r ← get;
  match status r with
  | COMPLETE | FAILED | CORRUPT | REJECTED => mret tt
  | s =>
      let wasSending := (0 <? length (parts (wire r)))%nat && prepared r
                        && (0 <? length (hashmap (wire r)))%nat in
      (if wasSending && negb (bool_decide (s = NONE))
       then catch (link_send E PacketType_DATA ContextType_RESOURCE_ICL (default [] (hash (wire r))))
                  (mret tt)
       else mret tt) ;;
      to_status FAILED ;; _setFailed
  end.

Definition _sendHashmapUpdate (E : Env) (lastMapHash : bytes) : M unit :=
  r ← get;
  let hs := hashmap (wire r) in
  let m := hashmapMaxLen E in
  match index_of lastMapHash hs with
  | Some i =>
      if negb (bool_decide (m <> 0 /\ Z.rem (Z.of_nat i + 1) m = 0)) then cancel E
      else
        let segIndex := (Z.of_nat i + 1) / m in
        let start := (Z.of_nat i + 1) mod zlen hs in
        let stop := Z.min (start + m) (zlen hs) in
        inner ← lift (encode (VArr [VInt segIndex; VBin (concatBytes (js_slice start stop hs))]));
        link_send E PacketType_DATA ContextType_RESOURCE_HMU (default [] (hash (wire r)) ++ inner)
  | None => cancel E
  end.

Fixpoint serve_parts (E : Env) (requested : list bytes) : M unit :=
  match requested with
  | [] => mret tt
  | h :: requested =>
      r ← get;
      (match _findPartByMapHash h r with
       | None => mret tt
       | Some i =>
           _sendPart E (default [] (default None (parts (wire r) !! i))) ;;
           modify (fun r => set_sent r (add_index i (sentPartIndices r))) ;;
           r ← get; emit (Progress (zlen (sentPartIndices r)) (totalParts (wire r)))
       end) ;;
      serve_parts E requested
  end.

Definition handleRequest (E : Env) (body : bytes) : M unit :=
  let '(requested, exhausted, lastMapHash, _) := _parseRequest body in
  modify (fun r => set_watch r (mkWatch (retriesLeft (watch r)) (now E) (advSentAt (watch r)) true)) ;;
  serve_parts E requested ;;
  if exhausted then _sendHashmapUpdate E lastMapHash else mret tt.

Definition validateProof (E : Env) (draws : nat -> Draw) (body : bytes) : M unit :=
  if negb (length body =? 64)%nat then mret tt else
  r ← get;
  match status r with
  | FAILED | REJECTED | CORRUPT => mret tt
  | _ =>
      if negb (bytesEqual (slice 32 64 body) (expectedProof (wire r)))
      then to_status FAILED ;; _setFailed
      else if split (kind r) && (segmentIndex (kind r) <? totalSegments (kind r)) then
        emit (UnregisterOutgoing (default [] (hash (wire r)))) ;;
        modify (fun r => set_kind r (set_segment (kind r) (split (kind r)) (segmentIndex (kind r) + 1)
                                       (totalSegments (kind r)))) ;;
        _prepareSegment E draws ;;
        modify (fun r => set_watch r (set_retries (watch r) MAX_RETRIES)) ;;
        to_status QUEUED ;; _advertiseSegment E ;; to_status ADVERTISED
      else to_status COMPLETE ;; emit Complete
  end.

(** ** Receiver *)

Record Limits := mkLimits { maxSize : Z; maxParts : Z; maxSegments : Z }.
Definition default_limits : Limits := mkLimits DEFAULT_MAX_SIZE DEFAULT_MAX_PARTS DEFAULT_MAX_SEGMENTS.

Definition _sendReject (E : Env) (h : bytes) : result (list event) :=
  if accepts E ContextType_RESOURCE_RCL h
  then Ok [Sent PacketType_DATA ContextType_RESOURCE_RCL h]
  else Throw (JsError "link.send failed").

Definition bad_segments (lim : Limits) (i l : Z) : bool :=
  (l >? 1) && ((i <? 1) || (i >? l) || (l >? maxSegments lim)).

Definition part_count_insane (E : Env) (lim : Limits) (t n : Z) : bool :=
  let expectedParts := if 0 <? sdu E then - ((- t) / sdu E) else 0 in
  (n <=? 0) || (n >? maxParts lim) || (n >? t)
  || ((0 <? expectedParts) && (n >? expectedParts + 1)).

(** The object of an accepted advertisement with integer fields. *)
Definition incoming (E : Env) (z : option Bz2) (lastWindow : option Z) (a : Adv.t)
    (t d n i l f : Z) : Resource :=
  let x := match lastWindow with
           | Some w => if w =? 0 then initial_rx
                       else set_window initial_rx w WINDOW_MAX_SLOW WINDOW_MIN 0 0
           | None => initial_rx
           end in
  mkResource true z (mkContent None None None None d)
    (mkKind (Some (Adv.original a)) (Adv.request a) (Adv.isRequest f) (Adv.isResponse f)
       (Adv.compressed f) (Adv.encrypted f) false (Adv.hasMetadata f) i l)
    (mkWire (replicate (Z.to_nat n) None) (_splitHashmap (Adv.hashmap a)) n t (Some (Adv.hash a))
       (Adv.random a) [])
    x (mkWatch MAX_RETRIES (now E) 0 false) TRANSFERRING false [].

(** [accept]; [None]: an advertisement with fields the model leaves out
    (numbers that are not safe integers, values coerced to bytes). *)
Definition accept (E : Env) (z : option Bz2) (lastWindow : option Z) (lim : Limits) (payload : bytes)
    : option (list event * result (option Resource)) :=
  match Adv.unpack payload with
  | None => None
  | Some (Throw e) => Some ([], Throw e)
  | Some (Ok a) =>
      let reject := Some (match _sendReject E (Adv.hash a) with
                          | Ok evs => (evs, Ok None)
                          | Throw e => ([], Throw e)
                          end) in
      match Adv.transferSize a, Adv.dataSize a, Adv.parts a, Adv.index a, Adv.segments a, Adv.flags a with
      | VInt t, VInt d, VInt n, VInt i, VInt l, VInt f =>
          if bad_segments lim i l then reject
          else if (t >? maxSize lim) || (d >? maxSize lim) || part_count_insane E lim t n then reject
          else Some ([RegisterIncoming (Adv.hash a)], Ok (Some (incoming E z lastWindow a t d n i l f)))
      | _, _, _, _, _, _ => None
      end
  end.

(** The loop of [requestNext]: the missing parts' hashes, at most [k], and the
    last hash looked at. *)
Fixpoint collect (hs : list bytes) (ps : list (option bytes)) (k : Z) (lastKnown : option bytes)
    : list bytes * option bytes :=
  match hs with
  | [] => ([], lastKnown)
  | h :: hs =>
      if k <=? 0 then ([], lastKnown)
      else match ps with
           | None :: ps => let '(req, known) := collect hs ps (k - 1) (Some h) in (h :: req, known)
           | Some _ :: ps => collect hs ps k (Some h)
           | [] => collect hs [] k (Some h)
           end
  end.

Definition _sendRequest (E : Env) (mapHashes : list bytes) (exhausted : bool)
    (lastMapHash : option bytes) : M unit :=
  r ← get;
  link_send E PacketType_DATA ContextType_RESOURCE_REQ
    ([if exhausted then HASHMAP_IS_EXHAUSTED else HASHMAP_IS_NOT_EXHAUSTED]
     ++ (if exhausted then default [] lastMapHash else [])
     ++ default [] (hash (wire r)) ++ concatBytes mapHashes).

Definition missing (ps : list (option bytes)) : bool :=
  existsb (fun p => match p with None => true | Some _ => false end) ps.

Definition requestNext (E : Env) : M unit :=
  r ← get;
  if negb (bool_decide (status r = TRANSFERRING)) then mret tt
  else if totalParts (wire r) <=? receivedCount (rx r) then mret tt
  else
    let '(requested, lastKnown) := collect (hashmap (wire r)) (parts (wire r)) (window (rx r)) None in
    let exhausted := missing (parts (wire r)) && (length requested =? 0)%nat in
    if negb exhausted && (length requested =? 0)%nat then mret tt
    else
      modify (fun r => set_rx r (set_counts (rx r) (receivedCount (rx r)) (zlen requested) (now E) 0)) ;;
      _sendRequest E requested exhausted (if exhausted then lastKnown else None).

(** [rate > RATE_FAST] and [rate < RATE_VERY_SLOW] in bytes per second, an
    elapsed time of at most zero giving an infinite rate. *)
Definition rate_fast (rxd elapsedMs : Z) : bool :=
  (elapsedMs <=? 0) || (RATE_FAST * elapsedMs <? rxd * 1000).
Definition rate_very_slow (rxd elapsedMs : Z) : bool :=
  (0 <? elapsedMs) && (rxd * 1000 <? RATE_VERY_SLOW * elapsedMs).

Definition _onWindowDrained (nowMs : Z) (x : Rx) : Rx :=
  let grown := window x <? windowMax x in
  let w := if grown then window x + 1 else window x in
  let wmin := if grown && (w - windowMin x >? WINDOW_FLEXIBILITY - 1) then windowMin x + 1 else windowMin x in
  let elapsed := nowMs - reqSentAt x in
  if rate_fast (reqWindowRxd x) elapsed && (fastRateRounds x <? FAST_RATE_THRESHOLD) then
    let fast := fastRateRounds x + 1 in
    set_window x w (if fast =? FAST_RATE_THRESHOLD then WINDOW_MAX_FAST else windowMax x) wmin fast
      (verySlowRateRounds x)
  else if (fastRateRounds x =? 0) && rate_very_slow (reqWindowRxd x) elapsed
          && (verySlowRateRounds x <? VERY_SLOW_RATE_THRESHOLD) then
    let slow := verySlowRateRounds x + 1 in
    set_window x w (if slow =? VERY_SLOW_RATE_THRESHOLD then WINDOW_MAX_VERY_SLOW else windowMax x) wmin
      (fastRateRounds x) slow
  else set_window x w (windowMax x) wmin (fastRateRounds x) (verySlowRateRounds x).

(** The first empty slot that expects a part with the map hash [h]. *)
Fixpoint find_slot (h : bytes) (hs : list bytes) (ps : list (option bytes)) : option nat :=
  match hs, ps with
  | x :: hs, None :: ps => if bytesEqual x h then Some 0%nat else S <$> find_slot h hs ps
  | _ :: hs, Some _ :: ps => S <$> find_slot h hs ps
  | _, _ => None
  end.

(** [plaintext.subarray(a, b)] as the decoder sees it. *)
Definition decode_view (b : bytes) (a len : nat) : result value :=
  match decode (mkBuf b a len) with
  | Some r => r
  | None => Throw (JsError "unreachable")
  end.

(** Stripping [3-byte size, packed metadata] off the data. *)
Definition strip_metadata (plaintext : bytes) : M unit :=
  let size := js_or (js_or (js_shl (byte_at 0 plaintext) 16) (js_shl (byte_at 1 plaintext) 8))
                    (byte_at 2 plaintext) in
  if 3 + size >? zlen plaintext
  then modify (fun r => set_content r (set_metadata (content r) None))
  else
    modify (fun r => set_content r (set_data (content r) (Some (slice_from (3 + Z.to_nat size) plaintext)))) ;;
    match decode_view plaintext 3 (Z.to_nat size) with
    | Ok v => modify (fun r => set_content r (set_metadata (content r) (Some v)))
    | Throw _ => modify (fun r => set_content r (set_metadata (content r) None))
    end.

(** [concatBytes(...this.parts)] throws on a [null]. *)
Definition all_parts (ps : list (option bytes)) : result bytes :=
  match mapM id ps with
  | Some l => Ok (concatBytes l)
  | None => Throw (TypeError "Cannot read properties of null")
  end.

Definition plaintext_of (r : Resource) (body : bytes) : result bytes :=
  if compressed (kind r) then
    match bz2 r with
    | None => Throw (JsError "Resource is compressed but no bz2 module was provided")
    | Some z => decompress z body (Z.to_nat (uncompressedSize (content r)))
    end
  else Ok body.

(** Where [assemble] waits, with what it waits for. *)
Inductive Assembly :=
| AsmDecrypt (decrypted : result bytes)              (* link.token.decrypt *)
| AsmHash (plaintext recomputed : bytes)             (* Identity.fullHash *)
| AsmCancel                                         (* cancel, of a corrupt transfer *)
| AsmProof (plaintext fullProof : bytes)              (* Identity.fullHash in _sendProof *)
| AsmSend (plaintext : bytes) (sent : result unit).  (* link.send in _sendProof *)

(** The [catch] of [assemble]. *)
Definition assembly_failed : M (option Assembly) := to_status CORRUPT ;; _setFailed ;; mret None.

(** [assemble] up to its first [await]. *)
Definition assemble_start (E : Env) : M (option Assembly) :=
  to_status ASSEMBLING ;;
  catch (r ← get;
         enc ← lift (all_parts (parts (wire r)));
         t ← lift (match linkToken E with
                   | Some t => Ok t
                   | None => Throw (JsError "Link token unavailable; handshake not complete.")
                   end);
         mret (Some (AsmDecrypt (Token.decrypt t enc))))
        assembly_failed.

(** The payload of the RESOURCE_PRF. *)
Definition proof_payload (h fullProof : bytes) : bytes := h ++ fullProof.

(** After the proof was sent. *)
Definition assembly_ends (plaintext : bytes) : M unit :=
  r ← get;
  (if hasMetadata (kind r) && (segmentIndex (kind r) =? 1) then strip_metadata plaintext else mret tt) ;;
  to_status COMPLETE ;;
  modify (fun r => set_wire r (set_parts (wire r) [])) ;;
  emit (UnregisterIncoming (default [] (hash (wire r)))) ;;
  emit (RememberWindow (window (rx r))) ;;
  emit Complete.

(** From one [await] to the next, or to the end. *)
Definition assemble_resume (E : Env) (a : Assembly) : M (option Assembly) :=
  catch
    (r ← get;
     let h := default [] (hash (wire r)) in
     match a with
     | AsmDecrypt decrypted =>
         d ← lift decrypted;
         plaintext ← lift (plaintext_of r (slice_from RANDOM_HASH_SIZE d));
         mret (Some (AsmHash plaintext (sha256 (plaintext ++ randomHash (wire r)))))
     | AsmHash plaintext recomputed =>
         if negb (bytesEqual recomputed h) then
           to_status CORRUPT ;; cancel E ;; mret (Some AsmCancel)
         else
           modify (fun r => set_content r (set_data (content r) (Some plaintext))) ;;
           mret (Some (AsmProof plaintext (sha256 (plaintext ++ h))))
     | AsmCancel => _setFailed ;; mret None
     | AsmProof plaintext fullProof =>
         sent ← attempt (link_send E PacketType_PROOF ContextType_RESOURCE_PRF (proof_payload h fullProof));
         mret (Some (AsmSend plaintext sent))
     | AsmSend plaintext sent => lift sent ;; assembly_ends plaintext ;; mret None
     end)
    assembly_failed.

(** What is left of an assembly, when nothing else touches the object while it
    waits; it waits at most four times. *)
Fixpoint assemble_rest (E : Env) (waits : nat) (a : option Assembly) : M unit :=
  match a, waits with
  | None, _ => mret tt
  | Some _, O => hang
  | Some a, S n => a ← assemble_resume E a; assemble_rest E n a
  end.

Definition assemble (E : Env) : M unit := a ← assemble_start E; assemble_rest E 4 a.

(** [receivePart] up to the first [await] of an assembly it started, if it
    did. *)
Definition receivePart_start (E : Env) (chunk : bytes) : M (bool * option Assembly) :=
  r ← get;
  match status r with
  | TRANSFERRING | ASSEMBLING =>
      match find_slot (mapHash (randomHash (wire r)) chunk) (hashmap (wire r)) (parts (wire r)) with
      | None => mret (false, None)
      | Some i =>
          modify (fun r =>
            let x := rx r in
            let out := if 0 <? outstanding x then outstanding x - 1 else outstanding x in
            set_watch (set_rx (set_wire r (set_parts (wire r) (<[i := Some chunk]> (parts (wire r)))))
                         (set_counts x (receivedCount x + 1) out (reqSentAt x) (reqWindowRxd x + zlen chunk)))
              (set_activity (watch r) (now E))) ;;
          r ← get;
          emit (Progress (receivedCount (rx r)) (totalParts (wire r))) ;;
          if totalParts (wire r) <=? receivedCount (rx r) then
            a ← assemble_start E;
            mret (true, a)
          else if outstanding (rx r) <=? 0 then
            modify (fun r => set_rx r (_onWindowDrained (now E) (rx r))) ;;
            requestNext E ;;
            mret (true, None)
          else mret (true, None)
      end
  | _ => mret (false, None)
  end.

(** The call when nothing else happens while it waits. *)
Definition receivePart (E : Env) (chunk : bytes) : M bool :=
  '(placed, a) ← receivePart_start E chunk;
  assemble_rest E 4 a ;;
  mret placed.

Definition hashmapUpdate (E : Env) (body : bytes) : M unit :=
  v ← lift (decode_body (slice_from 32 body));
  match v with
  | VArr (_ :: VBin segment :: _) =>
      modify (fun r => set_watch (set_wire r (set_hashmap (wire r)
                                   (hashmap (wire r) ++ _splitHashmap segment)))
                         (set_activity (watch r) (now E))) ;;
      r ← get;
      if outstanding (rx r) <=? 0 then requestNext E else mret tt
  | _ => mret tt
  end.

(** ** Ends of a transfer *)

Definition handleIncomingCancel : M unit := to_status FAILED ;; _setFailed.
Definition handleRejection : M unit := to_status REJECTED ;; _setFailed.

Definition terminal (s : ResourceStatus) : bool :=
  match s with COMPLETE | FAILED | CORRUPT | REJECTED => true | _ => false end.

Definition _linkClosed : M unit :=
  r ← get;
  if terminal (status r) then mret tt else to_status FAILED ;; _setFailed.

(** [await], with its error dropped. *)
Definition fire_and_forget (m : M unit) : M unit := catch m (mret tt).

(** [1000 *] a number of seconds, added to a time. *)
Definition after (t : Z) (secs : Q) : Q := inject_Z t + 1000 * secs.

Definition rtt_floor (E : Env) : option Q := Qmax (1 # 2) <$> linkRtt E.

Definition retry_shrink (x : Rx) : Rx :=
  if window x >? windowMin x then
    let w := window x - 1 in
    let wmax := if windowMax x >? windowMin x then
                  let m := windowMax x - 1 in
                  if m - w >? WINDOW_FLEXIBILITY - 1 then m - 1 else m
                else windowMax x in
    set_window x w wmax (windowMin x) (fastRateRounds x) (verySlowRateRounds x)
  else x.

Definition adv_deadline (rtt : Q) (r : Resource) : Q :=
  after (advSentAt (watch r)) (rtt * 6 + PROCESSING_GRACE).
Definition sender_deadline (rtt : Q) (r : Resource) : Q :=
  after (lastActivity (watch r))
    (rtt * 6 * inject_Z MAX_RETRIES + SENDER_GRACE_TIME
     + inject_Z (MAX_RETRIES * (MAX_RETRIES + 1) / 2) * PER_RETRY_DELAY).
Definition stall_deadline (rtt : Q) (r : Resource) : Q :=
  after (lastActivity (watch r))
    (PART_TIMEOUT_FACTOR * (rtt * 6 + inject_Z (outstanding (rx r)) * rtt * PROOF_TIMEOUT_FACTOR)
     + RETRY_GRACE_TIME + inject_Z (MAX_RETRIES - retriesLeft (watch r)) * PER_RETRY_DELAY).

(** [_watchdogTick]; a NaN round-trip time makes every comparison false. *)
Definition _watchdogTick (E : Env) : M unit :=
  r ← get;
  match rtt_floor E, status r with
  | Some rtt, ADVERTISED =>
      if negb (gotPartRequests (watch r)) then
        if Qle_bool (adv_deadline rtt r) (inject_Z (now E)) then
          if 0 <? retriesLeft (watch r) then
            modify (fun r => set_watch r (set_retries (watch r) (retriesLeft (watch r) - 1))) ;;
            catch (_advertiseSegment E) (fire_and_forget (cancel E))
          else fire_and_forget (cancel E)
        else mret tt
      else if Qle_bool (sender_deadline rtt r) (inject_Z (now E)) then fire_and_forget (cancel E)
      else mret tt
  | Some rtt, TRANSFERRING =>
      if Qle_bool (stall_deadline rtt r) (inject_Z (now E)) then
        if 0 <? retriesLeft (watch r) then
          modify (fun r =>
            let x := retry_shrink (rx r) in
            set_watch (set_rx r (set_counts x (receivedCount x) 0 (reqSentAt x) (reqWindowRxd x)))
              (mkWatch (retriesLeft (watch r) - 1) (now E) (advSentAt (watch r)) (gotPartRequests (watch r)))) ;;
          fire_and_forget (requestNext E)
        else fire_and_forget (cancel E)
      else mret tt
  | _, _ => mret tt
  end.

(** ** Split transfers *)

Record SplitResourceAssembler := mkAssembler {
  s_totalSegments : Z;
  s_kind : Kind;
  maxTotalSize : Z;
  segments : list bytes;
  s_metadata : option value;
  received : Z;
  byteCount : Z;
}.

Definition new_Assembler (first : Resource) : SplitResourceAssembler :=
  mkAssembler (totalSegments (kind first)) (kind first) DEFAULT_MAX_TOTAL_SIZE [] None 0 0.

(** [add]: the assembler after it, and the whole when this was the last
    segment; it throws after the segment was recorded. *)
Definition add (t : Z) (segment : Resource) (a : SplitResourceAssembler)
    : SplitResourceAssembler * result (option Resource) :=
  let d := default [] (data (content segment)) in
  let meta := if segmentIndex (kind segment) =? 1 then metadata (content segment) else s_metadata a in
  let a := mkAssembler (s_totalSegments a) (s_kind a) (maxTotalSize a) (segments a ++ [d]) meta
             (received a + 1) (byteCount a + zlen d) in
  if byteCount a >? maxTotalSize a
  then (a, Throw (JsError "Split resource exceeded maximum total size"))
  else if negb (segmentIndex (kind segment) =? s_totalSegments a) then (a, Ok None)
  else
    let k := s_kind a in
    (a, Ok (Some (mkResource true None
        (mkContent (Some (concatBytes (segments a))) meta None None (byteCount a))
        (mkKind (originalHash k) (requestId k) (isRequest k) (isResponse k) false false false
           (bool_decide (is_Some meta)) (s_totalSegments a) (s_totalSegments a))
        (mkWire [] [] 0 0 None [] []) initial_rx (mkWatch MAX_RETRIES t 0 false) COMPLETE false []))).

End WithCrypto.
