(* ===== verification/Transfers.v ===== *)
(** * Transfers: the resources of a link
    (the resource side of packages/core/src/transport/link.js)

    A [Peer] is a link with its transfers.  Resources are shared objects (the
    maps of the link, the waiters on [whenComplete] and the assemblers refer to
    them), so they live in a store and are named by their address.  A handler
    runs to its end, then the promises its events settled are served, as the
    microtask queue does before the next packet is taken up. *)

From Stdlib Require Import QArith.
From S2P Require Import Prelude Encoding JsMap Utf8 MsgPack Packet Crypto Identity.
From S2P Require Import Link Resource.
#[local] Open Scope Z_scope.

(** What waits for a resource's [whenComplete]. *)
Inductive Waiter :=
| AsRequest
| AsResponse
| AsSegment (key : jsstr) (assembler : nat).

Record Transfers := mkTransfers {
  objects : list Resource;
  waiters : list (nat * Waiter);
  outgoingResources : jsmap nat;
  incomingResources : jsmap nat;
  assemblers : list SplitResourceAssembler;
  splitResources : jsmap nat;
  failedSplitResources : list jsstr;
  lastResourceWindow : option Z;
}.

Record Peer := mkPeer { link : Link; transfers : Transfers }.

Definition no_transfers : Transfers := mkTransfers [] [] [] [] [] [] [] None.

Definition set_objects (T : Transfers) (os : list Resource) : Transfers :=
  mkTransfers os (waiters T) (outgoingResources T) (incomingResources T) (assemblers T)
    (splitResources T) (failedSplitResources T) (lastResourceWindow T).
Definition set_waiters (T : Transfers) (ws : list (nat * Waiter)) : Transfers :=
  mkTransfers (objects T) ws (outgoingResources T) (incomingResources T) (assemblers T)
    (splitResources T) (failedSplitResources T) (lastResourceWindow T).
Definition set_registries (T : Transfers) (out inc : jsmap nat) : Transfers :=
  mkTransfers (objects T) (waiters T) out inc (assemblers T)
    (splitResources T) (failedSplitResources T) (lastResourceWindow T).
Definition set_splits (T : Transfers) (asm : list SplitResourceAssembler) (sp : jsmap nat)
    (failed : list jsstr) : Transfers :=
  mkTransfers (objects T) (waiters T) (outgoingResources T) (incomingResources T) asm sp failed
    (lastResourceWindow T).
Definition set_lastWindow (T : Transfers) (w : option Z) : Transfers :=
  mkTransfers (objects T) (waiters T) (outgoingResources T) (incomingResources T) (assemblers T)
    (splitResources T) (failedSplitResources T) w.
Definition set_transfers (P : Peer) (T : Transfers) : Peer := mkPeer (link P) T.
Definition set_link (P : Peer) (l : Link) : Peer := mkPeer l (transfers P).

(** ** What a handler causes *)

Inductive effect :=
| Obj (a : nat) (e : event)                 (* an event of an object *)
| Refused (e : event)                       (* a RESOURCE_RCL *)
| OnLink (e : Link.event)
| ResourceArrived (a : nat)                 (* the link's "resource" event *)
| Metadata (id : jsstr) (v : option value). (* [entry.onMetadata] *)

(** [_registerOutgoingResource] and the like, caused by object [a]. *)
Definition apply_event (a : nat) (T : Transfers) (e : event) : Transfers :=
  let out := outgoingResources T in
  let inc := incomingResources T in
  match e with
  | RegisterOutgoing h => set_registries T (mset (toHex h) a out) inc
  | UnregisterOutgoing h => set_registries T (mdelete (toHex h) out) inc
  | RegisterIncoming h => set_registries T out (mset (toHex h) a inc)
  | UnregisterIncoming h => set_registries T out (mdelete (toHex h) inc)
  | RememberWindow w => set_lastWindow T (Some w)
  | _ => T
  end.

(** ** Handlers as a monad *)

Definition TM (A : Type) : Type := Peer -> Peer * list effect * outcome A.

#[global] Instance TM_ret : MRet TM := fun A a P => (P, [], Ret a).
#[global] Instance TM_bind : MBind TM := fun A B k m P =>
  match m P with
  | (P1, e1, Ret a) => let '(P2, e2, x) := k a P1 in (P2, e1 ++ e2, x)
  | (P1, e1, Raise e) => (P1, e1, Raise e)
  | (P1, e1, Hang) => (P1, e1, Hang)
  | (P1, e1, Outside) => (P1, e1, Outside)
  end.

Definition peer : TM Peer := fun P => (P, [], Ret P).
Definition change (f : Transfers -> Transfers) : TM unit :=
  fun P => (set_transfers P (f (transfers P)), [], Ret tt).
Definition put_link (l : Link) : TM unit := fun P => (set_link P l, [], Ret tt).
Definition effects (es : list effect) : TM unit := fun P => (P, es, Ret tt).
Definition raise_T {A} (e : error) : TM A := fun P => (P, [], Raise e).
Definition outside {A} : TM A := fun P => (P, [], Outside).
Definition lift_T {A} (x : result A) : TM A :=
  match x with Ok a => mret a | Throw e => raise_T e end.

(** [.catch(handler)] *)
Definition catch_T (m : TM unit) (handler : error -> TM unit) : TM unit := fun P =>
  match m P with
  | (P1, e1, Raise e) => let '(P2, e2, x) := handler e P1 in (P2, e1 ++ e2, x)
  | res => res
  end.

Definition logged (m : TM unit) : TM unit := catch_T m (fun _ => mret tt).

(** A method of the object at [a]. *)
Definition on_object {A} (a : nat) (m : M A) : TM A := fun P =>
  let T := transfers P in
  match objects T !! a with
  | None => (P, [], Outside)
  | Some r =>
      let '(r', evs, x) := m r in
      (set_transfers P (fold_left (apply_event a) evs (set_objects T (<[a := r']> (objects T)))),
       map (Obj a) evs, x)
  end.

Definition create (r : Resource) : TM nat := fun P =>
  let T := transfers P in
  (set_transfers P (set_objects T (objects T ++ [r])), [], Ret (length (objects T))).

Definition object (a : nat) : TM Resource := on_object a get.

Definition wait_for (a : nat) (w : Waiter) : TM unit :=
  change (fun T => set_waiters T (waiters T ++ [(a, w)])).

Fixpoint each (l : list nat) (k : nat -> TM unit) : TM unit :=
  match l with
  | [] => mret tt
  | a :: l => k a ;; each l k
  end.

(** The environment of a handler: the clock, whether the transport takes
    packets, an initial vector, the link's [bz2] and [maxResourceSize], the
    destination's request handlers and the random values of preparations. *)
Record Config := mkConfig {
  c_now : Z;
  c_sent : bool;
  c_iv : bytes;
  c_bz2 : option Bz2;
  c_maxSize : option Z;
  c_handlers : jsmap RequestHandler;
  c_draws : nat -> Draw;
}.

Definition limits (K : Config) : Limits :=
  mkLimits (default DEFAULT_MAX_SIZE (c_maxSize K)) DEFAULT_MAX_PARTS DEFAULT_MAX_SEGMENTS.

Section WithCrypto.
Context `{C : WebCrypto} `{H : JsHost}.

(** The packet of a transfer's message. *)
Definition message_packet (l : Link) (packetType ctx : Z) (payload : bytes) : Packet :=
  new_Packet packetType DestType_LINK ctx (linkId l) payload.

Definition type_of_context (ctx : Z) : Z :=
  if ctx =? ContextType_RESOURCE_PRF then PacketType_PROOF else PacketType_DATA.

(** [link.send] resolves. *)
Definition link_accepts (K : Config) (l : Link) (ctx : Z) (payload : bytes) : bool :=
  match send (c_iv K) (c_sent K) l (message_packet l (type_of_context ctx) ctx payload) with
  | Ok _ => true
  | Throw _ => false
  end.

Definition env_of (K : Config) (l : Link) : Env :=
  mkEnv (c_now K) (Link.mtu l) (token (keys l)) (rtt (timing l)) (link_accepts K l).

(** A method of the object at [a] in its link's environment. *)
Definition method {A} (K : Config) (a : nat) (m : Env -> M A) : TM A :=
  P ← peer; on_object a (m (env_of K (link P))).

(** ** Sending *)

Definition advertise_new (K : Config) (r : Resource) : TM unit :=
  a ← create r; method K a (fun E => advertise E (c_draws K)).

(** A response too large for a packet, or one with metadata. *)
Definition respond_resource (K : Config) (data : bytes) (meta : option value) (requestId : option bytes)
    (auto : bool) : TM unit :=
  r ← lift_T (construct (c_now K) (Some data) (default VNull meta) auto (c_bz2 K) None requestId false true);
  advertise_new K r.

(** ** Cancelling *)

(** The incoming responses to a failed request. *)
Definition answers (id : jsstr) (r : Resource) : bool :=
  isResponse (kind r)
  && match requestId (kind r) with Some q => bool_decide (toHex q = id) | None => false end.

Definition cancel_responses (K : Config) (id : jsstr) : TM unit :=
  P ← peer;
  each (values (incomingResources (transfers P))) (fun a =>
    r ← object a;
    if answers id r then method K a (fun E => fire_and_forget (cancel E)) else mret tt).

(** The link was closed: every transfer ends and the maps are emptied. *)
Definition close_transfers : TM unit :=
  P ← peer;
  each (values (outgoingResources (transfers P))) (fun a => on_object a _linkClosed) ;;
  change (fun T => set_registries T [] (incomingResources T)) ;;
  P ← peer;
  each (values (incomingResources (transfers P))) (fun a => on_object a _linkClosed) ;;
  change (fun T => set_registries T (outgoingResources T) []).

(** What a handler of the link asks of its transfers. *)
Definition on_link_event (K : Config) (e : Link.event) : TM unit :=
  match e with
  | AdvertiseResource d m q auto => respond_resource K d m q auto
  | CancelResponses id => cancel_responses K id
  | ResourcesClosed => close_transfers
  | e => effects [OnLink e]
  end.

Fixpoint on_link_events (K : Config) (es : list Link.event) : TM unit :=
  match es with
  | [] => mret tt
  | e :: es => on_link_event K e ;; on_link_events K es
  end.

Definition through_link (K : Config) (x : Link * list Link.event) : TM unit :=
  put_link (fst x) ;; on_link_events K (snd x).

(** ** Requests and responses in resources *)

Definition _handleResourceRequest (K : Config) (a : nat) : TM unit :=
  r ← object a;
  P ← peer;
  match decode_body (default [] (data (content r))) with
  | Ok (VArr (_ :: VBin pathHash :: d :: _)) =>
      if negb (length pathHash =? 16)%nat then mret tt
      else
        x ← lift_T (_dispatchRequest (c_iv K) (c_sent K) (c_handlers K) (link P) pathHash d
                      (requestId (kind r)));
        through_link K x
  | _ => mret tt
  end.

(** [entry.resolve(resource.data)] of a response with metadata. *)
Definition _handleResourceResponse (K : Config) (a : nat) : TM unit :=
  r ← object a;
  P ← peer;
  if hasMetadata (kind r) then
    match requestId (kind r) with
    | Some q =>
        if negb (length q =? 16)%nat then mret tt
        else if negb (has (toHex q) (pendingRequests (link P))) then mret tt
        else
          effects [Metadata (toHex q) (metadata (content r))] ;;
          through_link K (_resolveResponse q (VBin (default [] (data (content r)))) (link P))
    | None => mret tt
    end
  else
    match decode_body (default [] (data (content r))) with
    | Ok (VArr (VBin q :: response :: _)) =>
        if negb (length q =? 16)%nat then mret tt
        else through_link K (_resolveResponse q response (link P))
    | _ => mret tt
    end.

(** ** Completion *)

(** [_routeAssembledResource] of an object still in transfer. *)
Definition _routeAssembledResource (a : nat) : TM unit :=
  r ← object a;
  if isRequest (kind r) then wait_for a AsRequest
  else if isResponse (kind r) then wait_for a AsResponse
  else effects [ResourceArrived a].

(** [_routeAssembledResource] of a reassembled, complete one: [whenComplete]
    resolves at once. *)
Definition route_complete (K : Config) (a : nat) : TM unit :=
  r ← object a;
  if isRequest (kind r) then logged (_handleResourceRequest K a)
  else if isResponse (kind r) then logged (_handleResourceResponse K a)
  else effects [ResourceArrived a].

Definition _trackSplitSegment (K : Config) (a : nat) : TM unit :=
  r ← object a;
  P ← peer;
  let T := transfers P in
  let key := toHex (default [] (originalHash (kind r))) in
  if existsb (fun k => bool_decide (k = key)) (failedSplitResources T) then
    es ← lift_T (_sendReject (env_of K (link P)) (default [] (hash (wire r))));
    effects (map Refused es)
  else
    match JsMap.get key (splitResources T) with
    | Some s => wait_for a (AsSegment key s)
    | None =>
        change (fun T => set_splits T (assemblers T ++ [new_Assembler r])
                           (mset key (length (assemblers T)) (splitResources T)) (failedSplitResources T)) ;;
        wait_for a (AsSegment key (length (assemblers T)))
    end.

(** A segment has completed: it is recorded, and the whole routed when it was
    the last. *)
Definition add_segment (K : Config) (key : jsstr) (s a : nat) : TM unit :=
  r ← object a;
  P ← peer;
  match assemblers (transfers P) !! s with
  | None => outside
  | Some asm =>
      let '(asm', x) := add (c_now K) r asm in
      change (fun T => set_splits T (<[s := asm']> (assemblers T)) (splitResources T)
                         (failedSplitResources T)) ;;
      whole ← lift_T x;
      match whole with
      | None => mret tt
      | Some w =>
          change (fun T => set_splits T (assemblers T) (mdelete key (splitResources T))
                             (failedSplitResources T)) ;;
          b ← create w;
          route_complete K b
      end
  end.

Definition segment_failed (K : Config) (key : jsstr) (a : nat) : TM unit :=
  change (fun T => set_splits T (assemblers T) (mdelete key (splitResources T))
                     (add_once key (failedSplitResources T))) ;;
  r ← object a;
  P ← peer;
  match requestId (kind r) with
  | Some q => through_link K (_failPendingRequest (toHex q) (link P))
  | None => mret tt
  end.

(** One waiter of an object that has completed ([ok]) or failed. *)
Definition settle_waiter (K : Config) (a : nat) (ok : bool) (w : Waiter) : TM unit :=
  match w, ok with
  | AsRequest, true => logged (_handleResourceRequest K a)
  | AsResponse, true => logged (_handleResourceResponse K a)
  | AsSegment key s, true => catch_T (add_segment K key s a) (fun _ => segment_failed K key a)
  | AsSegment key s, false => segment_failed K key a
  | _, false => mret tt
  end.

Fixpoint settle_waiters (K : Config) (a : nat) (ok : bool) (ws : list Waiter) : TM unit :=
  match ws with
  | [] => mret tt
  | w :: ws => settle_waiter K a ok w ;; settle_waiters K a ok ws
  end.

(** The objects that completed or failed. *)
Definition settled_objects (es : list effect) : list (nat * bool) :=
  omap (fun e => match e with
                 | Obj a Complete => Some (a, true)
                 | Obj a Failed => Some (a, false)
                 | _ => None
                 end) es.

Definition waiting (T : Transfers) (a : nat) : list Waiter :=
  map snd (filter (fun w => fst w = a) (waiters T)).

Fixpoint skip_idle (T : Transfers) (queue : list (nat * bool)) : list (nat * bool) :=
  match queue with
  | (a, ok) :: rest => match waiting T a with [] => skip_idle T rest | _ => queue end
  | [] => []
  end.

(** Serving the settled promises.  A failed segment of a response can fail
    other transfers of the same request, so there may be several rounds; every
    round serves a waiter, and none is added meanwhile. *)
Fixpoint drain (fuel : nat) (K : Config) (queue : list (nat * bool)) : TM unit := fun P =>
  match skip_idle (transfers P) queue with
  | [] => (P, [], Ret tt)
  | (a, ok) :: queue =>
      match fuel with
      | O => (P, [], Hang)
      | S fuel =>
          let ws := waiting (transfers P) a in
          match (change (fun T => set_waiters T (filter (fun w => fst w <> a) (waiters T))) ;;
                 settle_waiters K a ok ws) P with
          | (P1, e1, Ret _) =>
              let '(P2, e2, x) := drain fuel K (queue ++ settled_objects e1) P1 in (P2, e1 ++ e2, x)
          | res => res
          end
      end
  end.

(** A handler and the promises it settles. *)
Definition turn (K : Config) (m : TM unit) : TM unit := fun P =>
  let '(P1, e1, x) := m P in
  let '(P2, e2, y) := drain (length (waiters (transfers P1))) K (settled_objects e1) P1 in
  (P2, e1 ++ e2, match y with Ret _ => x | y => y end).

(** ** Inbound messages *)

Fixpoint route_part (K : Config) (l : list nat) (chunk : bytes) : TM unit :=
  match l with
  | [] => mret tt
  | a :: l =>
      placed ← method K a (fun E => receivePart E chunk);
      if (placed : bool) then mret tt else route_part K l chunk
  end.

Definition _routeResourcePart (K : Config) (chunk : bytes) : TM unit :=
  P ← peer; route_part K (values (incomingResources (transfers P))) chunk.

Definition _resourceHashFromRequest (body : bytes) : bytes :=
  let offset := if bool_decide (head body = Some HASHMAP_IS_EXHAUSTED) then 5%nat else 1%nat in
  slice offset (offset + 32) body.

(** A RESOURCE_ADV. *)
Definition advertised (K : Config) (body : bytes) : TM unit :=
  P ← peer;
  let E := env_of K (link P) in
  match accept E (c_bz2 K) (lastResourceWindow (transfers P)) (limits K) body with
  | None => outside
  | Some (_, Throw e) => raise_T e
  | Some (es, Ok None) => effects (map Refused es)
  | Some (es, Ok (Some r)) =>
      a ← create r;
      on_object a (fun r => (r, es, Ret tt)) ;;
      (if totalSegments (kind r) >? 1 then _trackSplitSegment K a else _routeAssembledResource a) ;;
      method K a requestNext
  end.

Definition to_resource (m : jsmap nat) (h : bytes) (k : nat -> TM unit) : TM unit :=
  match JsMap.get (toHex h) m with Some a => k a | None => mret tt end.

(** The resource cases of [_processPacket]'s switch. *)
Definition dispatch (K : Config) (ctx : Z) (body : bytes) : TM unit :=
  P ← peer;
  let T := transfers P in
  let out := outgoingResources T in
  let inc := incomingResources T in
  if ctx =? ContextType_RESOURCE_REQ then
    to_resource out (_resourceHashFromRequest body) (fun a => method K a (fun E => handleRequest E body))
  else if ctx =? ContextType_RESOURCE then _routeResourcePart K body
  else if ctx =? ContextType_RESOURCE_ADV then advertised K body
  else if ctx =? ContextType_RESOURCE_HMU then
    to_resource inc (slice 0 32 body) (fun a => method K a (fun E => hashmapUpdate E body))
  else if ctx =? ContextType_RESOURCE_PRF then
    to_resource out (slice 0 32 body) (fun a => method K a (fun E => validateProof E (c_draws K) body))
  else if ctx =? ContextType_RESOURCE_ICL then
    to_resource inc (slice 0 32 body) (fun a => on_object a handleIncomingCancel)
  else if ctx =? ContextType_RESOURCE_RCL then
    to_resource out (slice 0 32 body) (fun a => on_object a handleRejection)
  else mret tt.

(** An event of the link's own handlers, a packet of a transfer included. *)
Definition on_received (K : Config) (e : Link.event) : TM unit :=
  match e with
  | ToResource ctx body => dispatch K ctx body
  | e => on_link_event K e
  end.

Fixpoint on_received_all (K : Config) (es : list Link.event) : TM unit :=
  match es with
  | [] => mret tt
  | e :: es => on_received K e ;; on_received_all K es
  end.

(** [receive] of a link with transfers: an exception is logged. *)
Definition receive_packet (K : Config) (EL : Link.Env) (p : Packet) : TM unit :=
  turn K (P ← peer;
          let '(l, es) := receive EL (link P) p in
          put_link l ;; logged (on_received_all K es)).

(** ** Timers and requests *)

(** The resource part of [_watchdogJob], on every registered transfer. *)
Definition watchdog_resources (K : Config) : TM unit :=
  P ← peer;
  each (values (outgoingResources (transfers P))) (fun a => logged (method K a _watchdogTick)) ;;
  P ← peer;
  each (values (incomingResources (transfers P))) (fun a => logged (method K a _watchdogTick)).

Definition watchdog (K : Config) : TM unit :=
  turn K (P ← peer;
          (if watchdogRunning (link P) then watchdog_resources K else mret tt) ;;
          through_link K (watchdog_tick (c_iv K) (c_sent K) (c_now K) (link P))).

(** [request] with an envelope larger than a packet. *)
Definition request_resource (K : Config) (packed requestId : bytes) : TM unit :=
  let id := toHex requestId in
  P ← peer;
  put_link (_registerPendingRequest id (link P)) ;;
  r ← lift_T (construct (c_now K) (Some packed) VNull true (c_bz2 K) None (Some requestId) true false);
  catch_T (advertise_new K r)
    (fun e => P ← peer; through_link K (_discardPendingRequest id (link P)) ;; raise_T e) ;;
  P ← peer;
  put_link (hand_out id (link P)).

(** An application's own transfer. *)
Definition send_resource (K : Config) (data : bytes) (meta : value) (auto : bool) (z : option Bz2) : TM unit :=
  r ← lift_T (construct (c_now K) (Some data) meta auto z None None false false);
  advertise_new K r.

End WithCrypto.
