(* ===== verification/ResourceWire.v ===== *)
(** * ResourceWire: the messages of a transfer, slots and slices

    Round trips of the advertisement and of the part request, what slicing and
    the search loops compute, and how runs of methods compose. *)

From Stdlib Require Import QArith Qminmax.
From S2P Require Import Prelude Encoding JsMap Utf8 MsgPack MsgPackSpec Packet Crypto Identity.
From S2P Require Import Link Resource.
#[local] Open Scope Z_scope.

(** ** Advertisements on the wire *)

Definition safe (n : Z) : Prop := - MAX_SAFE_INTEGER <= n <= MAX_SAFE_INTEGER.

(** An advertisement as a sender makes it: integers and byte strings. *)
Definition int_adv (a : Adv.t) (t d n i l f : Z) : Prop :=
  Adv.transferSize a = VInt t /\ Adv.dataSize a = VInt d /\ Adv.parts a = VInt n
  /\ Adv.index a = VInt i /\ Adv.segments a = VInt l /\ Adv.flags a = VInt f.

Definition wf_adv (a : Adv.t) : Prop :=
  exists t d n i l f, int_adv a t d n i l f
    /\ Forall safe [t; d; n; i; l; f]
    /\ Forall (fun b => zlen b < 2 ^ 32)
         [Adv.hash a; Adv.random a; Adv.original a; Adv.hashmap a; default [] (Adv.request a)].

Lemma or_zero_int n : Adv.or_zero (VInt n) = VInt n.
Proof. unfold Adv.or_zero. cbn [truthy]. destruct (n =? 0) eqn:E; [|done]. bools. by subst. Qed.

Section Wire.
Context `{H : JsHost} `{C : WebCrypto}.

Lemma dict_canonical d a : wf_adv a -> canonical (S d) (Adv.dict a).
Proof.
  intros (t & ds & n & i & l & f & (E1 & E2 & E3 & E4 & E5 & E6) & Hs & Hb).
  unfold Adv.dict. rewrite E1, E2, E3, E4, E5, E6.
  repeat match goal with X : Forall _ (_ :: _) |- _ => apply Forall_cons in X as [? X] end.
  apply canonical_obj; [reflexivity | split | |].
  - apply (bool_decide_unpack _). vm_compute. exact I.
  - repeat constructor.
  - repeat constructor; vm_compute; reflexivity.
  - repeat apply Forall_cons_2; try apply Forall_nil_2; cbn [snd]; apply canonical_atom;
      try assumption.
    by destruct (Adv.request a).
Qed.

Lemma dict_fields a :
  (Adv.field "t" (Adv.dict a) = Adv.transferSize a /\ Adv.field "d" (Adv.dict a) = Adv.dataSize a
   /\ Adv.field "n" (Adv.dict a) = Adv.parts a /\ Adv.field "i" (Adv.dict a) = Adv.index a
   /\ Adv.field "l" (Adv.dict a) = Adv.segments a /\ Adv.field "f" (Adv.dict a) = Adv.flags a)
  /\ Adv.field "h" (Adv.dict a) = VBin (Adv.hash a) /\ Adv.field "r" (Adv.dict a) = VBin (Adv.random a)
  /\ Adv.field "o" (Adv.dict a) = VBin (Adv.original a) /\ Adv.field "m" (Adv.dict a) = VBin (Adv.hashmap a)
  /\ Adv.field "q" (Adv.dict a) = match Adv.request a with Some q => VBin q | None => VNull end.
Proof. destruct a. vm_compute. tauto. Qed.

(** An advertisement is read back as it was packed. *)
Theorem advertisement_roundtrip a (Ha : wf_adv a) :
  exists e, Adv.pack a = Ok e /\ Adv.unpack e = Some (Ok a).
Proof.
  assert (Hc : canonical MAX_DEPTH (Adv.dict a)) by (by apply (dict_canonical 127)).
  destruct (encode_decode _ Hc) as (e & He & Hd). exists e. split; [exact He|].
  unfold Adv.unpack, decode_body. rewrite Hd. unfold dret. cbn [Adv.obind].
  destruct (dict_fields a) as ((F1 & F2 & F3 & F4 & F5 & F6) & F7 & F8 & F9 & F10 & F11).
  destruct Ha as (t & d & n & i & l & f & (E1 & E2 & E3 & E4 & E5 & E6) & _).
  unfold Adv.byte_field. change (match Adv.dict a with VNull => ?x | _ => ?y end) with y.
  rewrite F1, F2, F3, F4, F5, F6, F7, F8, F9, F10, F11, E1, E2, E3, E4, E5, E6, !or_zero_int.
  destruct a as [t' d' n' h r o i' l' [q|] f' m]; cbn in E1, E2, E3, E4, E5, E6 |- *; by subst.
Qed.
End Wire.

(** ** Map hashes and requests *)

Lemma splitHashmap_cons h rest : length h = 4%nat ->
  _splitHashmap (h ++ rest) = h :: _splitHashmap rest.
Proof.
  intros Hh. unfold _splitHashmap. rewrite length_app, Hh.
  replace ((4 + length rest) / 4)%nat with (S (length rest / 4)).
  2:{ replace (4 + length rest)%nat with (length rest + 1 * 4)%nat by lia.
      rewrite Nat.div_add by lia. lia. }
  cbn [seq map]. f_equal; [by apply slice_app_take|].
  rewrite <- seq_shift, map_map. apply map_ext. intros i.
  replace (4 * S i)%nat with (4 + 4 * i)%nat by lia. rewrite <- Nat.add_assoc.
  by apply slice_app_skip.
Qed.

Lemma splitHashmap_concat hs : Forall (fun h => length h = 4%nat) hs ->
  _splitHashmap (concatBytes hs) = hs.
Proof.
  induction 1 as [|h hs Hh _ IH]; [done|]. unfold concatBytes in *. cbn [concat].
  rewrite splitHashmap_cons by done. by rewrite IH.
Qed.

Lemma concat4 (l : list bytes) : Forall (fun x => length x = 4%nat) l ->
  zlen (concatBytes l) = 4 * zlen l.
Proof.
  induction 1 as [|x l Hx _ IH]; [done|]. unfold concatBytes in *. cbn [concat].
  rewrite zlen_app, zlen_cons, IH. unfold zlen. lia.
Qed.

(** The body [_sendRequest] builds. *)
Definition request_body (hash : bytes) (hs : list bytes) (exhausted : bool) (last : bytes) : bytes :=
  [if exhausted then HASHMAP_IS_EXHAUSTED else HASHMAP_IS_NOT_EXHAUSTED]
  ++ (if exhausted then last else []) ++ hash ++ concatBytes hs.

(** The sender reads a request as the receiver meant it. *)
Lemma request_roundtrip hash hs (exhausted : bool) last :
  length hash = 32%nat -> Forall (fun h => length h = 4%nat) hs -> length last = 4%nat ->
  _parseRequest (request_body hash hs exhausted last)
  = (hs, exhausted, if exhausted then last else [], hash).
Proof.
  intros Hh Hs Hl. unfold _parseRequest, request_body. cbn [app head].
  rewrite bool_decide_decide.
  destruct exhausted; (destruct (decide _) as [Hd|Hd]; [|try done]); try done; cbn [app].
  - rewrite !slice_cons. unfold slice_from.
    replace (5 + 32)%nat with (S (4 + 32)) by lia. cbn [drop].
    rewrite (drop_app_skip 4 32), <- (Nat.add_0_r 32), (drop_app_skip 32 0) by done.
    rewrite drop_0, splitHashmap_concat by done. repeat f_equal.
    + by apply slice_app_take.
    + replace (5 + (32 + 0))%nat with (S (4 + 32)) by lia. rewrite slice_cons.
      replace 4%nat with (4 + 0)%nat at 1 by lia. rewrite (slice_app_skip 4 0 32) by done.
      by apply slice_app_take.
  - unfold slice_from. replace (1 + 32)%nat with (S 32) by lia. cbn [drop].
    rewrite <- (Nat.add_0_r 32), (drop_app_skip 32 0) by done.
    rewrite drop_0, splitHashmap_concat by done. repeat f_equal.
    rewrite slice_cons, Nat.add_0_r. by apply slice_app_take.
Qed.

(** ** Slicing *)

Lemma part_count_pos s len : 0 < s -> 0 < len ->
  exists n, part_count s len = Some n /\ 0 < n /\ (n - 1) * s < len <= n * s.
Proof.
  intros Hs Hl. unfold part_count. rewrite (proj2 (Z.eqb_neq s 0)) by lia. eexists. split; [done|].
  pose proof (Z.div_mod (- len) s ltac:(lia)). pose proof (Z.mod_pos_bound (- len) s Hs).
  rewrite Z.max_r by nia. nia.
Qed.

Definition slices (s : Z) (enc : bytes) (n : nat) : list bytes :=
  map (fun i => slice (i * Z.to_nat s) (S i * Z.to_nat s) enc) (seq 0 n).

Lemma slice_parts_slices s enc n : 0 < s -> 0 < n -> (n - 1) * s < zlen enc ->
  part_count s (zlen enc) = Some n ->
  slice_parts s enc = Some (slices s enc (Z.to_nat n)).
Proof.
  intros Hs Hn Hlt Hp. unfold slice_parts. rewrite Hp. cbn [fmap option_fmap option_map]. f_equal.
  unfold slices. apply map_ext_in. intros i Hi%in_seq. unfold js_slice.
  assert (Hi' : Z.of_nat i * s < zlen enc) by nia. unfold zlen in *.
  assert (J : forall k, 0 <= k <= Z.of_nat (length enc) -> js_index k enc = Z.to_nat k).
  { intros k Hk. unfold js_index. rewrite (proj2 (Z.ltb_ge _ _)) by lia. unfold zlen. lia. }
  rewrite !J by nia. unfold slice.
  assert (Ha : Z.to_nat (Z.of_nat i * s) = (i * Z.to_nat s)%nat) by nia. rewrite Ha.
  destruct (Z.le_gt_cases (Z.of_nat i * s + s) (Z.of_nat (length enc))) as [Hle|Hgt].
  - rewrite Z.min_l by lia. f_equal. nia.
  - rewrite Z.min_r by lia. transitivity (drop (i * Z.to_nat s) enc); [|symmetry];
      apply take_ge; rewrite length_drop; nia.
Qed.

Lemma slices_concat s enc n : 0 < s -> zlen enc <= Z.of_nat n * s -> concatBytes (slices s enc n) = enc.
Proof.
  intros Hs. revert enc. induction n as [|n IH]; intros enc Hl; unfold slices, concatBytes in *.
  - destruct enc; [done|]. rewrite zlen_cons in Hl. pose proof (zlen_nonneg enc). lia.
  - cbn [seq map concat]. rewrite Nat.mul_0_l, Nat.mul_1_l. unfold slice at 1. rewrite Nat.sub_0_r, drop_0.
    rewrite <- seq_shift, map_map.
    rewrite (map_ext _ (fun i => slice (i * Z.to_nat s) (S i * Z.to_nat s) (drop (Z.to_nat s) enc))).
    + rewrite IH; [apply take_drop|]. unfold zlen in *. rewrite length_drop. nia.
    + intros i. unfold slice. rewrite drop_drop. f_equal. cbn [Nat.mul]. lia.
Qed.

(** ** Runs of methods *)

Lemma bind_Ret {A B} (m : M A) (k : A -> M B) r r1 e1 a :
  m r = (r1, e1, Ret a) ->
  (m ≫= k) r = let '(r2, e2, x) := k a r1 in (r2, e1 ++ e2, x).
Proof. intros Hm. unfold mbind, M_bind. by rewrite Hm. Qed.

Lemma bind_inv {A B} (m : M A) (k : A -> M B) r r' evs b :
  (m ≫= k) r = (r', evs, Ret b) ->
  exists r1 e1 a e2, m r = (r1, e1, Ret a) /\ k a r1 = (r', e2, Ret b) /\ evs = e1 ++ e2.
Proof.
  unfold mbind, M_bind. intros Hm. destruct (m r) as [[r1 e1] [a|e| |]] eqn:E1; [|discriminate..].
  destruct (k a r1) as [[r2 e2] x] eqn:E2. injection Hm as <- <- ->. eauto 10.
Qed.

Lemma bind_get {B} (k : Resource -> M B) r : (Resource.get ≫= k) r = k r r.
Proof. unfold mbind, M_bind, Resource.get. by destruct (k r r) as [[? ?] ?]. Qed.

Lemma bind_lift {A B} (x : result A) (k : A -> M B) r :
  (lift x ≫= k) r = match x with Ok a => k a r | Throw e => (r, [], Raise e) end.
Proof. destruct x as [a|e]; [|done]. unfold mbind, M_bind. cbn. by destruct (k a r) as [[? ?] ?]. Qed.

Lemma bind_modify {B} f (k : unit -> M B) r : (modify f ≫= k) r = k tt (f r).
Proof. unfold mbind, M_bind, modify. by destruct (k tt (f r)) as [[? ?] ?]. Qed.

Lemma catch_Ret {A} (m k : M A) r r1 e1 a :
  m r = (r1, e1, Ret a) -> catch m k r = (r1, e1, Ret a).
Proof. intros Hm. unfold catch. by rewrite Hm. Qed.

(** The messages among the events. *)
Definition message : Type := Z * Z * bytes.
Definition sent (evs : list event) : list message :=
  omap (fun e => match e with Sent pt ctx body => Some (pt, ctx, body) | _ => None end) evs.

Lemma sent_app e1 e2 : sent (e1 ++ e2) = sent e1 ++ sent e2.
Proof. apply omap_app. Qed.

(** Events that change no registration and settle no promise. *)
Definition quiet (e : event) : Prop :=
  match e with Sent _ _ _ | Progress _ _ => True | _ => False end.

(** ** Slots *)

Definition slot (o : option bytes) (p : bytes) : Prop := o = None \/ o = Some p.

Definition filled (os : list (option bytes)) : nat := length (omap id os).

(** The indices of the empty slots. *)
Fixpoint holes (i : nat) (os : list (option bytes)) : list nat :=
  match os with
  | [] => []
  | None :: os => i :: holes (S i) os
  | Some _ :: os => holes (S i) os
  end.

Lemma holes_elem os i j : j ∈ holes i os <-> (i <= j)%nat /\ os !! (j - i)%nat = Some None.
Proof.
  revert i. induction os as [|o os IH]; intros i; cbn [holes].
  - split; [by intros ?%elem_of_nil|intros [_ Hj]; by rewrite lookup_nil in Hj].
  - assert (Hc : j ∈ holes (S i) os <-> (S i <= j)%nat /\ (o :: os) !! (j - i)%nat = Some None).
    { rewrite IH. split; intros [Hle Hj]; (split; [lia|]);
        replace (j - i)%nat with (S (j - S i)) in * by lia; exact Hj. }
    destruct o as [p|]; [rewrite Hc|rewrite elem_of_cons, Hc].
    + split; intros [Hle Hj]; split; try done; [lia|].
      destruct (decide (j = i)) as [->|]; [by rewrite Nat.sub_diag in Hj|lia].
    + split; [intros [->|[Hle Hj]]; [by rewrite Nat.sub_diag|split; [lia|done]]|].
      intros [Hle Hj]. destruct (decide (j = i)); [by left|right; split; [lia|done]].
Qed.

Lemma holes_NoDup os i : NoDup (holes i os).
Proof.
  revert i. induction os as [|[p|] os IH]; intros i; cbn [holes]; [apply NoDup_nil_2|done|].
  apply NoDup_cons. split; [|done]. rewrite holes_elem. lia.
Qed.

Lemma filled_holes os : (filled os + length (holes 0 os))%nat = length os.
Proof.
  unfold filled. enough (G : forall i, (length (omap id os) + length (holes i os))%nat = length os) by done.
  induction os as [|[p|] os IH]; intros i; cbn [holes omap list_omap id length]; [done| |];
    rewrite <- (IH (S i)); lia.
Qed.

Lemma holes_app o1 o2 i : holes i (o1 ++ o2) = holes i o1 ++ holes (i + length o1) o2.
Proof.
  revert i. induction o1 as [|[p|] o1 IH]; intros i; cbn [app holes length].
  - by rewrite Nat.add_0_r.
  - rewrite IH. by replace (S i + length o1)%nat with (i + S (length o1))%nat by lia.
  - rewrite IH. by replace (S i + length o1)%nat with (i + S (length o1))%nat by lia.
Qed.

Lemma missing_holes os : missing os = negb (length (holes 0 os) =? 0)%nat.
Proof.
  enough (G : forall i, missing os = negb (length (holes i os) =? 0)%nat) by done.
  induction os as [|[p|] os IH]; intros i; [done| |done]. cbn [missing existsb holes]. apply IH.
Qed.

(** Filling an empty slot. *)
Lemma fill_slot os j p : os !! j = Some None ->
  filled (<[j := Some p]> os) = S (filled os).
Proof.
  revert j. unfold filled. induction os as [|o os IH]; intros [|j] Hj; try discriminate; cbn in Hj.
  - by injection Hj as ->.
  - change (<[S j := Some p]> (o :: os)) with (o :: <[j := Some p]> os).
    destruct o; cbn [omap list_omap id length]; by rewrite IH.
Qed.

(** [collect] asks for the first [k] holes whose hashes are known. *)
Lemma collect_spec hs os k last i0 (all : list bytes) :
  (length hs <= length os)%nat -> 0 <= k ->
  (forall i x, hs !! i = Some x -> nth (i0 + i) all [] = x) ->
  exists known, collect hs os k last
    = (map (fun j => nth j all []) (take (Z.to_nat k) (holes i0 (take (length hs) os))), known)
    /\ ((length (holes i0 (take (length hs) os)) < Z.to_nat k)%nat -> hs <> [] ->
        known = Some (nth (i0 + (length hs - 1)) all [])).
Proof.
  revert os k last i0. induction hs as [|h hs IH]; intros os k last i0 Hl Hk Hall.
  { exists last. change (take (length []) os) with (@nil (option bytes)). cbn [holes].
    rewrite take_nil. by split. }
  destruct os as [|o os]; [cbn in Hl; lia|]. cbn [length take].
  assert (Hall' : forall i x, hs !! i = Some x -> nth (S i0 + i) all [] = x).
  { intros i x Hi. rewrite <- (Hall (S i) x Hi). f_equal. lia. }
  assert (Hh : nth i0 all [] = h).
  { rewrite <- (Hall 0%nat h eq_refl). by rewrite Nat.add_0_r. }
  cbn [collect]. destruct (k <=? 0) eqn:Ek; bools.
  { exists last. replace k with 0 by lia. cbn. split; [done|lia]. }
  assert (Hlast : forall K, K = Some (nth (S i0 + (length hs - 1)) all []) -> hs <> [] ->
            K = Some (nth (i0 + (S (length hs) - 1)) all [])).
  { intros K -> Hne. destruct hs; [done|]. cbn [length]. do 2 f_equal. lia. }
  destruct o as [p|]; cbn [holes].
  - destruct (IH os k (Some h) (S i0)) as (known & Ec & Hkn); [cbn in Hl; lia|done|done|].
    exists known. split; [exact Ec|]. intros Hlt _. destruct hs as [|h' hs].
    + cbn [collect] in Ec. injection Ec as ?%eq_sym <-. cbn [length]. by rewrite Nat.add_0_r, Hh.
    + apply Hlast; [|done]. by apply Hkn.
  - destruct (IH os (k - 1) (Some h) (S i0)) as (known & Ec & Hkn); [cbn in Hl; lia|lia|done|].
    rewrite Ec. exists known. replace (Z.to_nat k) with (S (Z.to_nat (k - 1))) by lia.
    cbn [take map length]. rewrite Hh. split; [done|]. intros Hlt _. destruct hs as [|h' hs].
    + cbn [collect] in Ec. injection Ec as ?%eq_sym <-. cbn [length]. by rewrite Nat.add_0_r, Hh.
    + apply Hlast; [|done]. apply Hkn; [lia|done].
Qed.

Lemma find_slot_hit hs os x j : NoDup hs -> hs !! j = Some x -> os !! j = Some None ->
  find_slot x hs os = Some j.
Proof.
  revert os j. induction hs as [|h hs IH]; intros os j Hnd Hh Ho; [done|].
  apply NoDup_cons in Hnd as [Hn Hnd]. destruct os as [|o os]; [done|].
  destruct j as [|j]; cbn in Hh, Ho; cbn [find_slot].
  - injection Hh as ->. injection Ho as ->. by rewrite bytesEqual_refl.
  - rewrite (IH os j Hnd Hh Ho). destruct o; [done|].
    rewrite (proj2 (bytesEqual_false h x)); [done|]. intros ->. apply Hn. by eapply list_elem_of_lookup_2.
Qed.

Lemma find_slot_sound hs os x j : find_slot x hs os = Some j ->
  hs !! j = Some x /\ os !! j = Some None.
Proof.
  revert os j. induction hs as [|h hs IH]; intros [|[p|] os] j Hf; try discriminate; cbn [find_slot] in Hf.
  - destruct (find_slot x hs os) as [k|] eqn:E; [|discriminate]. injection Hf as <-. cbn. by apply IH.
  - destruct (bytesEqual h x) eqn:Eb.
    + injection Hf as <-. apply bytesEqual_spec in Eb as ->. by split.
    + destruct (find_slot x hs os) as [k|] eqn:E; [|discriminate]. injection Hf as <-. cbn. by apply IH.
Qed.

Lemma index_of_hit hs x j : NoDup hs -> hs !! j = Some x -> index_of x hs = Some j.
Proof.
  revert j. induction hs as [|h hs IH]; intros j Hnd Hh; [done|].
  apply NoDup_cons in Hnd as [Hn Hnd]. destruct j as [|j]; cbn in Hh; cbn [index_of].
  - injection Hh as ->. by rewrite bytesEqual_refl.
  - rewrite (IH j Hnd Hh). rewrite (proj2 (bytesEqual_false h x)); [done|].
    intros ->. apply Hn. by eapply list_elem_of_lookup_2.
Qed.

Lemma nth_at {A} (l : list A) i d : (i < length l)%nat -> l !! i = Some (nth i l d).
Proof. intros Hi. destruct (nth_lookup_or_length l i d); [done|lia]. Qed.
