(* ===== verification/ResourceSpec.v ===== *)
(** * ResourceSpec: one transfer, step by step

    What each method does in the states a lossless transfer goes through, and
    the network of two peers that exchange its messages in any order. *)

From Stdlib Require Import QArith Qminmax.
From S2P Require Import Prelude Encoding JsMap Utf8 MsgPack MsgPackSpec Packet Crypto Identity.
From S2P Require Import Link Resource.
From S2P Require Import Transfers ResourceWire.
#[local] Open Scope Z_scope.

(** ** Two peers and what is in flight between them *)

(** The messages a peer puts on the wire. *)
Definition outbound (es : list effect) : list message :=
  omap (fun e => match e with
                 | Obj _ (Sent pt ctx body) | Refused (Sent pt ctx body) => Some (pt, ctx, body)
                 | _ => None
                 end) es.

Lemma outbound_obj a evs : outbound (map (Obj a) evs) = sent evs.
Proof.
  unfold outbound, sent. induction evs as [|e evs IH]; [done|]. cbn [map omap list_omap].
  destruct e; by rewrite IH.
Qed.

Record Net := mkNet { n_sender : Peer; n_receiver : Peer; flight : list message }.

Definition for_sender (ctx : Z) : bool :=
  (ctx =? ContextType_RESOURCE_REQ) || (ctx =? ContextType_RESOURCE_PRF) || (ctx =? ContextType_RESOURCE_RCL).

(** A handler's environment in which the transport takes every packet; the
    clock and the random values are free. *)
Definition reliable (z : option Bz2) (K : Config) : Prop :=
  c_sent K = true /\ c_bz2 K = z /\ c_maxSize K = None.

(** Any message in flight is delivered, whatever the order they were sent in;
    what its receiver sends in turn is in flight. *)
Inductive deliver `{WebCrypto} `{JsHost} (z : option Bz2) : Net -> Net -> Prop :=
| Deliver_sender K A B l1 pt ctx m l2 A' es x :
    reliable z K -> for_sender ctx = true -> turn K (dispatch K ctx m) A = (A', es, x) ->
    deliver z (mkNet A B (l1 ++ (pt, ctx, m) :: l2)) (mkNet A' B (l1 ++ l2 ++ outbound es))
| Deliver_receiver K A B l1 pt ctx m l2 B' es x :
    reliable z K -> for_sender ctx = false -> turn K (dispatch K ctx m) B = (B', es, x) ->
    deliver z (mkNet A B (l1 ++ (pt, ctx, m) :: l2)) (mkNet A B' (l1 ++ l2 ++ outbound es)).

Lemma one_in_flight {A} l1 (x y : A) l2 : l1 ++ x :: l2 = [y] -> l1 = [] /\ x = y /\ l2 = [].
Proof.
  destruct l1 as [|u l1]; cbn; [by intros [= -> ->]|].
  intros [= _ E]. by destruct l1.
Qed.

(** A delivery of the only message in flight. *)
Lemma deliver_only `{WebCrypto} `{JsHost} z A B pt ctx m N' : deliver z (mkNet A B [(pt, ctx, m)]) N' ->
  exists K es x, reliable z K
    /\ if for_sender ctx
       then exists A', turn K (dispatch K ctx m) A = (A', es, x) /\ N' = mkNet A' B (outbound es)
       else exists B', turn K (dispatch K ctx m) B = (B', es, x) /\ N' = mkNet A B' (outbound es).
Proof.
  intros HD. inversion HD as [K ? ? l1 pt' ctx' m' l2 X es x HK Hc Ht [E1 E2 E3] E4
    |K ? ? l1 pt' ctx' m' l2 X es x HK Hc Ht [E1 E2 E3] E4];
    clear HD; subst; apply one_in_flight in E3 as (-> & E3 & ->); injection E3 as -> -> ->;
    exists K, es, x; (split; [done|]); rewrite Hc; by exists X.
Qed.

(** ** One transfer without loss *)
Section Transfer.
Context `{C : WebCrypto} `{H : JsHost}.

(** What the sender prepared: the parts [ps] of the ciphertext of
    [pre ++ body], the salt and the two hashes over [plain]. *)
Context (ps : list bytes) (s h proof plain pre body : bytes) (t : Token.Token) (k0 : Kind).
Let hs := map (mapHash s) ps.
Let n := length ps.
Hypothesis Hne : ps <> [].
Hypothesis Hnd : NoDup hs.
Hypothesis Hhash : h = sha256 (plain ++ s).
Hypothesis Hproof : proof = sha256 (plain ++ h).
Hypothesis Hlen : length h = 32%nat /\ length proof = 32%nat.
Hypothesis Hpre : length pre = RANDOM_HASH_SIZE.
Hypothesis Hdec : Token.decrypt t (concatBytes ps) = Ok (pre ++ body).
Hypothesis Hmap : Forall (fun x => length x = 4%nat) hs.
Hypothesis Hbig : Z.of_nat n < 2 ^ 28.

(** Both ends' links accept every packet. *)
Definition lossless_env (E : Env) : Prop :=
  linkToken E = Some t /\ forall ctx p, accepts E ctx p = true.

Lemma send_ok E pt ctx p r : lossless_env E -> link_send E pt ctx p r = (r, [Sent pt ctx p], Ret tt).
Proof. intros [_ Ha]. unfold link_send. by rewrite Ha. Qed.

(** The receiver while parts are missing; it knows the first [K] hashes. *)
Record receiving (K : nat) (R : Resource) : Prop := {
  rc_status : status R = TRANSFERRING;
  rc_hashmap : hashmap (wire R) = take K hs;
  rc_slots : Forall2 slot (parts (wire R)) ps;
  rc_unknown : drop K (parts (wire R)) = replicate (n - K) None;
  rc_total : totalParts (wire R) = Z.of_nat n;
  rc_count : receivedCount (rx R) = Z.of_nat (filled (parts (wire R)));
  rc_missing : (filled (parts (wire R)) < n)%nat;
  rc_hash : hash (wire R) = Some h;
  rc_random : randomHash (wire R) = s;
  rc_window : 0 < window (rx R);
  rc_plain : plaintext_of R body = Ok plain;
  rc_known : (0 < K <= n)%nat;
  rc_kind : kind R = k0;
  rc_meta : metadata (content R) = None;
}.

(** The sender while the transfer runs. *)
Record serving (S : Resource) : Prop := {
  sv_status : status S = ADVERTISED;
  sv_parts : parts (wire S) = map Some ps;
  sv_hashmap : hashmap (wire S) = hs;
  sv_hash : hash (wire S) = Some h;
  sv_proof : expectedProof (wire S) = proof;
  sv_split : split (kind S) = false;
}.

Lemma length_hs : length hs = n.
Proof. unfold hs, n. apply length_map. Qed.

Lemma receiving_length K R : receiving K R -> length (parts (wire R)) = n.
Proof. intros HR. apply (Forall2_length slot), (rc_slots _ _ HR). Qed.

(** *** Requesting *)

Definition hash_at (j : nat) : bytes := nth j hs [].

(** What a request asks for: some missing parts with known hashes, or, when
    none is left, the hashes after the last known one. *)
Definition asks (K : nat) (R : Resource) (J : list nat) (req : bytes) : Prop :=
  NoDup J /\ (forall j, j ∈ J -> (j < K)%nat /\ parts (wire R) !! j = Some None)
  /\ outstanding (rx R) = Z.of_nat (length J)
  /\ ((J <> [] /\ req = request_body h (map hash_at J) false [])
      \/ (J = [] /\ (K < n)%nat /\ req = request_body h [] true (hash_at (K - 1)))).

Lemma receiving_counts K R out sentAt rxd : receiving K R ->
  receiving K (set_rx R (set_counts (rx R) (receivedCount (rx R)) out sentAt rxd)).
Proof. intros []. split; done. Qed.

Lemma requestNext_asks E K R : lossless_env E -> receiving K R ->
  exists R' J req, requestNext E R = (R', [Sent PacketType_DATA ContextType_RESOURCE_REQ req], Ret tt)
    /\ receiving K R' /\ asks K R' J req /\ parts (wire R') = parts (wire R).
Proof.
  intros HE HR. pose proof (receiving_length _ _ HR) as Hl.
  pose proof (rc_window _ _ HR) as Hw. destruct (rc_known _ _ HR) as [HK0 HKn].
  unfold requestNext, get. erewrite bind_Ret by reflexivity. cbv beta.
  rewrite bool_decide_true by apply HR. cbn [negb].
  rewrite (proj2 (Z.leb_gt _ _)) by (rewrite (rc_total _ _ HR), (rc_count _ _ HR); pose proof (rc_missing _ _ HR); lia).
  rewrite (rc_hashmap _ _ HR).
  assert (HlK : length (take K hs) = K) by (rewrite length_take, length_hs; lia).
  destruct (collect_spec (take K hs) (parts (wire R)) (window (rx R)) None 0 hs) as (known & Ec & Hknown).
  { lia. } { lia. }
  { intros i x Hi. apply nth_lookup_Some. rewrite lookup_take in Hi. by case_decide. }
  rewrite HlK in Ec, Hknown. rewrite Ec. cbv beta iota zeta.
  set (J := take (Z.to_nat (window (rx R))) (holes 0 (take K (parts (wire R))))) in *.
  assert (HJ : forall j, j ∈ J -> (j < K)%nat /\ parts (wire R) !! j = Some None).
  { intros j Hj. apply elem_of_take in Hj as (i & Hi%list_elem_of_lookup_2 & _).
    apply holes_elem in Hi as [_ Hi]. rewrite Nat.sub_0_r in Hi.
    apply lookup_take_Some in Hi as [? ?]. by split. }
  assert (HndJ : NoDup J) by (eapply sublist_NoDup; [apply holes_NoDup|apply sublist_take]).
  rewrite missing_holes, length_map.
  assert (Hh0 : holes 0 (parts (wire R)) <> []).
  { intros E0. pose proof (filled_holes (parts (wire R))) as HF. rewrite E0 in HF. cbn in HF.
    pose proof (rc_missing _ _ HR). lia. }
  assert (Hex : (length (holes 0 (parts (wire R))) =? 0)%nat = false)
    by (apply Nat.eqb_neq; by destruct (holes 0 (parts (wire R)))).
  rewrite Hex. cbn [negb andb].
  assert (Hsend : forall ex last,
    (modify (fun r => set_rx r (set_counts (rx r) (receivedCount (rx r)) (zlen (map (fun j => nth j hs []) J)) (now E) 0)) ≫= fun _ : unit =>
      _sendRequest E (map (fun j => nth j hs []) J) ex last) R
    = (set_rx R (set_counts (rx R) (receivedCount (rx R)) (Z.of_nat (length J)) (now E) 0),
       [Sent PacketType_DATA ContextType_RESOURCE_REQ (request_body h (map hash_at J) ex (default [] last))], Ret tt)).
  { intros ex last. unfold modify. erewrite bind_Ret by reflexivity. unfold _sendRequest, get.
    erewrite bind_Ret by reflexivity. rewrite send_ok by done. unfold zlen. rewrite length_map.
    cbn. by rewrite (rc_hash _ _ HR). }
  destruct (length J =? 0)%nat eqn:EJ; bools; cbn [negb andb]; rewrite Hsend; eexists _, J, _;
    (split; [reflexivity|]); (split; [by apply receiving_counts|]); (split; [|done]);
    (split; [done|]); (split; [exact HJ|]); (split; [done|]).
  - right. apply nil_length_inv in EJ. split; [done|].
    assert (Hnone : holes 0 (take K (parts (wire R))) = []).
    { unfold J in EJ. pose proof (rc_window _ _ HR).
      destruct (holes 0 (take K (parts (wire R)))); [done|].
      by replace (Z.to_nat (window (rx R))) with (S (Z.to_nat (window (rx R) - 1))) in EJ by lia. }
    split.
    + destruct (decide (K < n)%nat) as [|Hge]; [done|]. rewrite take_ge in Hnone by lia. done.
    + rewrite Hknown; [|rewrite Hnone; pose proof (rc_window _ _ HR); cbn; lia|].
      * by rewrite EJ.
      * intros E0. rewrite E0 in HlK. cbn in HlK. lia.
  - left. split; [|done]. by intros ->.
Qed.

(** *** Serving *)

Lemma hash_at_lookup j : (j < n)%nat -> hs !! j = Some (hash_at j).
Proof. intros Hj. apply nth_at. by rewrite length_hs. Qed.

Lemma length_hash_at j : (j < n)%nat -> length (hash_at j) = 4%nat.
Proof. intros Hj. rewrite Forall_lookup in Hmap. by eapply Hmap, hash_at_lookup. Qed.

Definition part_message (j : nat) : message := (PacketType_DATA, ContextType_RESOURCE, nth j ps []).

Lemma serve_parts_spec E S J : lossless_env E -> serving S -> (forall j, j ∈ J -> (j < n)%nat) ->
  exists S' evs, serve_parts E (map hash_at J) S = (S', evs, Ret tt) /\ serving S'
    /\ sent evs = map part_message J /\ Forall quiet evs.
Proof.
  intros HE. revert S. induction J as [|j J IH]; intros S HS HJ; cbn [map serve_parts].
  { exists S, []. repeat split; [apply HS..|constructor]. }
  unfold get. erewrite bind_Ret by reflexivity. cbv beta.
  assert (Hj : (j < n)%nat) by (apply HJ; by left).
  unfold _findPartByMapHash. rewrite (sv_hashmap _ HS).
  rewrite (index_of_hit _ _ j Hnd (hash_at_lookup j Hj)).
  assert (Hp : default [] (default None (parts (wire S) !! j)) = nth j ps []).
  { rewrite (sv_parts _ HS), list_lookup_fmap. unfold n in Hj.
    by rewrite (nth_at ps j [] Hj). }
  rewrite Hp. unfold _sendPart.
  assert (HS' : serving (set_sent S (add_index j (sentPartIndices S)))) by (destruct HS; by split).
  destruct (IH _ HS') as (S2 & evs & E2 & HS2 & Hs2 & Hq2); [intros k Hk; apply HJ; by right|].
  erewrite bind_Ret; cycle 1.
  { erewrite bind_Ret by (by apply send_ok). unfold modify. erewrite bind_Ret by reflexivity.
    erewrite bind_Ret by reflexivity. unfold emit. reflexivity. }
  rewrite E2. eexists _, _. split; [reflexivity|]. split; [done|]. split.
  - cbn [app]. unfold sent in *. cbn [omap list_omap]. by rewrite Hs2.
  - by repeat (apply Forall_cons_2; [done|]).
Qed.

Lemma handle_asks_parts E S J : lossless_env E -> serving S ->
  (forall j, j ∈ J -> (j < n)%nat) ->
  exists S' evs, handleRequest E (request_body h (map hash_at J) false []) S = (S', evs, Ret tt)
    /\ serving S' /\ sent evs = map part_message J /\ Forall quiet evs.
Proof.
  intros HE HS HJ. unfold handleRequest, request_body.
  pose proof (request_roundtrip h (map hash_at J) false (replicate 4 0)) as Hp.
  unfold request_body in Hp. rewrite Hp; [|by apply Hlen| |done].
  2:{ apply Forall_forall. intros x (j & -> & Hj)%list_elem_of_fmap. by apply length_hash_at, HJ. }
  unfold modify. erewrite bind_Ret by reflexivity.
  edestruct (serve_parts_spec E) as (S' & evs & E' & HS' & Hs' & Hq); [done| |exact HJ|].
  2:{ erewrite bind_Ret by exact E'. eexists _, _. split; [reflexivity|]. split; [done|].
      by rewrite app_nil_r. }
  destruct HS. by split.
Qed.

Definition segment_at (m : Z) (K : nat) : list bytes := take (Z.to_nat m) (drop K hs).

Lemma handle_asks_more E m S K : lossless_env E -> serving S -> m = hashmapMaxLen E -> 0 < m ->
  (0 < K < n)%nat -> Z.of_nat K mod m = 0 ->
  exists S' evs inner, handleRequest E (request_body h [] true (hash_at (K - 1))) S = (S', evs, Ret tt)
    /\ serving S'
    /\ evs = [Sent PacketType_DATA ContextType_RESOURCE_HMU (h ++ inner)]
    /\ decode_body inner = Ok (VArr [VInt (Z.of_nat K / m); VBin (concatBytes (segment_at m K))]).
Proof.
  intros HE HS Hm Hm0 HK HKm. unfold handleRequest.
  rewrite request_roundtrip; [|by apply Hlen|constructor|apply length_hash_at; lia].
  unfold modify. erewrite bind_Ret by reflexivity.
  cbn [serve_parts]. erewrite bind_Ret by reflexivity. unfold _sendHashmapUpdate, get.
  erewrite bind_Ret by reflexivity. cbn [wire set_watch]. rewrite (sv_hashmap _ HS).
  rewrite (index_of_hit _ _ (K - 1) Hnd) by (apply hash_at_lookup; lia).
  replace (Z.of_nat (K - 1) + 1) with (Z.of_nat K) by lia. rewrite <- Hm.
  rewrite bool_decide_true by (split; [lia|rewrite Z.rem_mod_nonneg by lia; done]).
  cbn [negb].
  assert (Hlz : zlen hs = Z.of_nat n) by (unfold zlen; by rewrite length_hs).
  rewrite Hlz, (Z.mod_small (Z.of_nat K)) by lia.
  assert (Hsl : js_slice (Z.of_nat K) (Z.min (Z.of_nat K + m) (Z.of_nat n)) hs = segment_at m K).
  { unfold js_slice, js_index, segment_at, slice.
    rewrite !(proj2 (Z.ltb_ge _ 0)), Hlz by lia. rewrite Nat2Z.id || idtac.
    replace (Z.to_nat (Z.min (Z.of_nat K) (Z.of_nat n))) with K by lia.
    destruct (Z.le_gt_cases (Z.of_nat K + m) (Z.of_nat n)) as [Hle|Hgt].
    - f_equal. lia.
    - transitivity (drop K hs); [|symmetry]; apply take_ge; rewrite length_drop, length_hs; lia. }
  rewrite Hsl.
  destruct (encode_decode (VArr [VInt (Z.of_nat K / m); VBin (concatBytes (segment_at m K))]))
    as (inner & He & Hd).
  { apply (canonical_arr 127); [done|].
    apply Forall_cons_2; [|apply Forall_cons_2; [|apply Forall_nil_2]]; apply canonical_atom; cbn [canonical].
    - unfold MAX_SAFE_INTEGER.
      assert (0 <= Z.of_nat K / m <= Z.of_nat K) by (split; [apply Z.div_pos; lia|apply Z.div_le_upper_bound; [lia|nia]]).
      lia.
    - rewrite concat4 by (by apply Forall_take, Forall_drop).
      assert (zlen (segment_at m K) <= Z.of_nat n); [|lia].
      unfold zlen, segment_at. rewrite length_take, length_drop, length_hs. lia. }
  rewrite He. unfold lift. erewrite bind_Ret by reflexivity. rewrite send_ok by done.
  cbn [wire set_watch]. rewrite (sv_hash _ HS). eexists _, _, inner. split; [reflexivity|].
  split; [destruct HS; by split|]. split; [done|]. unfold decode_body. by rewrite Hd.
Qed.

(** *** More hashes *)

Lemma hashmapUpdate_asks E m K R inner seg : lossless_env E -> receiving K R ->
  (K < n)%nat -> 0 < m -> Z.of_nat K mod m = 0 -> outstanding (rx R) = 0 ->
  decode_body inner = Ok (VArr [VInt seg; VBin (concatBytes (segment_at m K))]) ->
  exists R' J req K', hashmapUpdate E (h ++ inner) R
      = (R', [Sent PacketType_DATA ContextType_RESOURCE_REQ req], Ret tt)
    /\ receiving K' R' /\ asks K' R' J req /\ (K < K')%nat
    /\ (K' = n \/ Z.of_nat K' mod m = 0) /\ filled (parts (wire R')) = filled (parts (wire R)).
Proof.
  intros HE HR HK Hm HKm Hout Hdecode. set (K' := Nat.min (K + Z.to_nat m) n).
  assert (HK' : (K < K')%nat) by (unfold K'; lia).
  unfold hashmapUpdate. unfold slice_from. rewrite drop_app_length' by (symmetry; apply Hlen).
  rewrite Hdecode. unfold lift. erewrite bind_Ret by reflexivity. unfold modify.
  erewrite bind_Ret by reflexivity. unfold get. erewrite bind_Ret by reflexivity.
  rewrite splitHashmap_concat by (by apply Forall_take, Forall_drop).
  rewrite (rc_hashmap _ _ HR).
  set (R1 := set_watch _ _).
  assert (HR1 : receiving K' R1).
  { destruct HR. split; try done.
    - cbn. unfold segment_at. unfold K'.
      rewrite <- (take_drop K (take (Nat.min (K + Z.to_nat m) n) hs)).
      rewrite take_take, skipn_firstn_comm. f_equal; [f_equal; lia|].
      destruct (Nat.le_gt_cases (K + Z.to_nat m) n) as [Hle|Hgt].
      + f_equal. lia.
      + transitivity (drop K hs); [|symmetry]; apply take_ge; rewrite length_drop, length_hs; lia.
    - cbn. replace K' with (K + (K' - K))%nat by lia. rewrite <- drop_drop, rc_unknown0.
      rewrite drop_replicate. f_equal. lia.
    - unfold K'. lia. }
  cbn [rx set_watch set_wire R1]. rewrite Hout. cbn [Z.leb Z.compare].
  destruct (requestNext_asks E K' R1 HE HR1) as (R2 & J & req & E2 & HR2 & Ha & Hp).
  rewrite E2. eexists R2, J, req, K'. split; [reflexivity|]. split; [done|]. split; [done|].
  split; [done|]. split; [|by rewrite Hp].
  unfold K'. destruct (Nat.le_gt_cases (K + Z.to_nat m) n); [right|left; lia].
  rewrite Nat.min_l by lia. rewrite Nat2Z.inj_add, Z2Nat.id by lia.
  rewrite <- Z.add_mod_idemp_r, Z.mod_same, Z.add_0_r by lia. done.
Qed.

(** *** Assembling *)

Definition payload : bytes * option value :=
  if hasMetadata k0 && (segmentIndex k0 =? 1) then
    let size := js_or (js_or (js_shl (byte_at 0 plain) 16) (js_shl (byte_at 1 plain) 8)) (byte_at 2 plain) in
    if 3 + size >? zlen plain then (plain, None)
    else (slice_from (3 + Z.to_nat size) plain,
          match decode_view plain 3 (Z.to_nat size) with Ok v => Some v | Throw _ => None end)
  else (plain, None).

Record received (R : Resource) : Prop := {
  rd_status : status R = COMPLETE;
  rd_data : data (content R) = Some (fst payload);
  rd_meta : metadata (content R) = snd payload;
}.

Lemma strip_metadata_spec c R : content R = set_data c (Some plain) -> metadata c = None ->
  (if hasMetadata k0 && (segmentIndex k0 =? 1) then strip_metadata plain else mret tt) R
  = (set_content R (set_metadata (set_data c (Some (fst payload))) (snd payload)), [], Ret tt).
Proof using plain k0 H.
  intros HR Hm. unfold payload. destruct (_ && _).
  - unfold strip_metadata. cbv zeta. destruct (_ >? _).
    + unfold modify. rewrite HR. done.
    + unfold modify. erewrite bind_Ret by reflexivity. cbn [app].
      destruct (decode_view _ _ _); cbn; by rewrite HR.
  - cbn [fst snd]. unfold mret, M_ret. rewrite <- Hm. destruct R, c; cbn in HR |- *. by rewrite HR.
Qed.

Lemma filled_all os : Forall2 slot os ps -> filled os = n -> mapM id os = Some ps.
Proof.
  unfold filled, n. clear. intros HF. induction HF as [|o p os ps Hs HF IH]; [done|].
  pose proof (Forall2_length _ _ _ HF) as Hl.
  pose proof (filled_holes os) as Hle. unfold filled in Hle.
  destruct Hs as [->| ->]; cbn [omap list_omap id length]; [lia|].
  intros [= Hf]. specialize (IH Hf). unfold id in *. cbn [mapM mbind option_bind].
  by rewrite IH.
Qed.

(** The events of a completion. *)
Definition finishing (w : Z) : list event :=
  [Sent PacketType_PROOF ContextType_RESOURCE_PRF (h ++ proof); UnregisterIncoming h;
   RememberWindow w; Complete].

Lemma assemble_all E R : lossless_env E -> Forall2 slot (parts (wire R)) ps ->
  filled (parts (wire R)) = n -> randomHash (wire R) = s -> hash (wire R) = Some h ->
  plaintext_of R body = Ok plain -> kind R = k0 -> metadata (content R) = None ->
  exists R' evs, assemble E R = (R', evs, Ret tt) /\ received R'
    /\ exists w, evs = finishing w.
Proof.
  intros HE Hsl Hf Hr Hh Hpl Hk Hm. set (R0 := set_status R ASSEMBLING). pose proof HE as [Ht _].
  set (R1 := set_content R0 (set_data (content R0) (Some plain))).
  assert (S0 : assemble_start E R = (R0, [], Ret (Some (AsmDecrypt (Ok (pre ++ body)))))).
  { unfold assemble_start, to_status. rewrite bind_modify. fold R0. apply catch_Ret. rewrite bind_get, bind_lift.
    unfold all_parts. cbn [wire set_status R0]. rewrite (filled_all _ Hsl Hf), bind_lift, Ht. by rewrite Hdec. }
  assert (S1 : assemble_resume E (AsmDecrypt (Ok (pre ++ body))) R0 = (R0, [], Ret (Some (AsmHash plain h)))).
  { apply catch_Ret. rewrite bind_get, bind_lift, bind_lift. unfold slice_from. rewrite drop_app_length' by done.
    change (plaintext_of R0 body) with (plaintext_of R body). rewrite Hpl. cbn [wire set_status R0].
    by rewrite Hr, <- Hhash. }
  assert (S2 : assemble_resume E (AsmHash plain h) R0 = (R1, [], Ret (Some (AsmProof plain proof)))).
  { apply catch_Ret. rewrite bind_get. cbn [wire set_status R0]. rewrite Hh. cbn [default]. unfold id.
    rewrite bytesEqual_refl. cbn [negb]. rewrite bind_modify. by rewrite <- Hproof. }
  assert (S3 : assemble_resume E (AsmProof plain proof) R1
    = (R1, [Sent PacketType_PROOF ContextType_RESOURCE_PRF (h ++ proof)], Ret (Some (AsmSend plain (Ok tt))))).
  { apply catch_Ret. rewrite bind_get. cbn [wire set_content set_status R0 R1]. rewrite Hh. cbn [default]. unfold id, proof_payload.
    erewrite bind_Ret by (unfold attempt; rewrite send_ok by done; reflexivity). reflexivity. }
  assert (S4 : exists R' w, assemble_resume E (AsmSend plain (Ok tt)) R1
    = (R', [UnregisterIncoming h; RememberWindow w; Complete], Ret None) /\ received R').
  { assert (Hends : exists R', assembly_ends plain R1 = (R', [UnregisterIncoming h; RememberWindow (window (rx R)); Complete], Ret tt)
      /\ received R').
    { unfold assembly_ends. rewrite bind_get. cbn [kind set_content set_status R0 R1]. rewrite Hk.
      rewrite (bind_Ret _ _ _ _ _ _ (strip_metadata_spec (content R) R1 eq_refl Hm)). unfold to_status. rewrite !bind_modify.
      cbn [wire set_wire set_status set_content hash set_parts R0 R1 rx]. rewrite Hh. eexists. split; [reflexivity|by split]. }
    destruct Hends as (R' & Hends & HR'). exists R', (window (rx R)). split; [|done].
    apply catch_Ret. rewrite bind_get, bind_lift, (bind_Ret _ _ _ _ _ _ Hends). reflexivity. }
  destruct S4 as (R' & w & S4 & HR'). exists R', (finishing w). split; [|split; [done|by exists w]].
  unfold assemble. rewrite (bind_Ret _ _ _ _ _ _ S0). cbn [assemble_rest]. rewrite (bind_Ret _ _ _ _ _ _ S1), (bind_Ret _ _ _ _ _ _ S2), (bind_Ret _ _ _ _ _ _ S3), (bind_Ret _ _ _ _ _ _ S4).
  reflexivity.
Qed.

(** *** Receiving a part *)

Lemma drained_window nowMs x : 0 < window x -> 0 < window (_onWindowDrained nowMs x).
Proof.
  intros Hw. unfold _onWindowDrained. cbv zeta.
  repeat case_match; cbn [window set_window]; lia.
Qed.

Lemma drained_counts nowMs x :
  receivedCount (_onWindowDrained nowMs x) = receivedCount x
  /\ outstanding (_onWindowDrained nowMs x) = outstanding x.
Proof. unfold _onWindowDrained. cbv zeta. repeat case_match; by cbn. Qed.

Lemma receiving_drained nowMs K R : receiving K R ->
  receiving K (set_rx R (_onWindowDrained nowMs (rx R))).
Proof.
  intros []. pose proof (drained_counts nowMs (rx R)) as [Hc _].
  split; try done; cbn [rx set_rx wire]; [by rewrite Hc|by apply drained_window].
Qed.

(** The receiver's object after it stored part [j], before it goes on. *)
Definition with_part (nowMs : Z) (j : nat) (R : Resource) : Resource :=
  let x := rx R in
  let out := if 0 <? outstanding x then outstanding x - 1 else outstanding x in
  let p := nth j ps [] in
  set_watch (set_rx (set_wire R (set_parts (wire R) (<[j := Some p]> (parts (wire R)))))
               (set_counts x (receivedCount x + 1) out (reqSentAt x) (reqWindowRxd x + zlen p)))
    (set_activity (watch R) nowMs).

Lemma with_part_slots nowMs j R : (j < n)%nat -> Forall2 slot (parts (wire R)) ps ->
  Forall2 slot (parts (wire (with_part nowMs j R))) ps.
Proof.
  intros Hj HF. pose proof (list_insert_id ps j (nth j ps []) (nth_at _ _ _ Hj)) as Hi.
  cbn. rewrite <- Hi at 2. apply Forall2_insert; [done|by right].
Qed.

Lemma with_part_receiving nowMs K j R : receiving K R -> (j < K)%nat -> parts (wire R) !! j = Some None ->
  (S (filled (parts (wire R))) < n)%nat -> receiving K (with_part nowMs j R).
Proof.
  intros HR HjK Hj Hlt. pose proof (rc_known _ _ HR) as [_ HKn].
  pose proof (with_part_slots nowMs j R ltac:(lia) (rc_slots _ _ HR)) as Hs.
  destruct HR. split; try done; cbn [with_part wire set_watch set_rx set_wire set_parts parts rx set_counts receivedCount].
  - by rewrite drop_insert_lt by lia.
  - rewrite fill_slot by done. lia.
  - by rewrite fill_slot by done.
Qed.

Lemma find_slot_part K j R : receiving K R -> (j < K)%nat -> parts (wire R) !! j = Some None ->
  find_slot (mapHash (randomHash (wire R)) (nth j ps [])) (hashmap (wire R)) (parts (wire R)) = Some j.
Proof.
  intros HR HjK Hj. pose proof (rc_known _ _ HR) as [_ HKn].
  rewrite (rc_random _ _ HR), (rc_hashmap _ _ HR).
  apply find_slot_hit; [by eapply sublist_NoDup; [exact Hnd|apply sublist_take]| |done].
  rewrite lookup_take_lt by done. unfold hs. rewrite list_lookup_fmap, (nth_at ps j []) by lia. done.
Qed.

Lemma receivePart_placed E chunk R R' evs : receivePart_start E chunk R = (R', evs, Ret (true, None)) ->
  receivePart E chunk R = (R', evs, Ret true).
Proof using Type. intros Hs. unfold receivePart. rewrite (bind_Ret _ _ _ _ _ _ Hs). cbn [assemble_rest]. unfold mret, M_ret, mbind, M_bind. cbn. by rewrite app_nil_r. Qed.

(** Storing a part that is not the last of the transfer: nothing more happens
    while requested parts are on their way, else the next request goes out. *)
Lemma receivePart_more E K j R : lossless_env E -> receiving K R -> (j < K)%nat ->
  parts (wire R) !! j = Some None -> (S (filled (parts (wire R))) < n)%nat ->
  exists R' evs, receivePart E (nth j ps []) R = (R', evs, Ret true) /\ receiving K R'
    /\ parts (wire R') = <[j := Some (nth j ps [])]> (parts (wire R))
    /\ Forall quiet evs
    /\ (if 1 <? outstanding (rx R)
        then sent evs = [] /\ outstanding (rx R') = outstanding (rx R) - 1
        else exists J req, sent evs = [(PacketType_DATA, ContextType_RESOURCE_REQ, req)]
               /\ asks K R' J req).
Proof.
  intros HE HR HjK Hj Hlt.
  enough (Hst : exists R' evs, receivePart_start E (nth j ps []) R = (R', evs, Ret (true, None)) /\ receiving K R'
    /\ parts (wire R') = <[j := Some (nth j ps [])]> (parts (wire R)) /\ Forall quiet evs
    /\ (if 1 <? outstanding (rx R)
        then sent evs = [] /\ outstanding (rx R') = outstanding (rx R) - 1
        else exists J req, sent evs = [(PacketType_DATA, ContextType_RESOURCE_REQ, req)] /\ asks K R' J req)).
  { destruct Hst as (R' & evs & Hst & Hrest). exists R', evs. split; [by apply receivePart_placed|done]. }
  unfold receivePart_start, get. erewrite bind_Ret by reflexivity. cbv beta.
  rewrite (rc_status _ _ HR), (find_slot_part K j R HR HjK Hj). unfold modify.
  erewrite bind_Ret by reflexivity. erewrite bind_Ret by reflexivity.
  fold (with_part (now E) j R). pose proof (with_part_receiving (now E) K j R HR HjK Hj Hlt) as HW.
  unfold emit. erewrite bind_Ret by reflexivity.
  rewrite (proj2 (Z.leb_gt _ _)).
  2:{ rewrite (rc_total _ _ HW), (rc_count _ _ HW). pose proof (rc_missing _ _ HW). lia. }
  set (R1 := with_part (now E) j R) in *.
  assert (Hout : (outstanding (rx R1) <=? 0) = negb (1 <? outstanding (rx R))).
  { cbn. destruct (0 <? outstanding (rx R)) eqn:E0; bools.
    - destruct (1 <? outstanding (rx R)) eqn:E1; bools; cbn; lia.
    - rewrite (proj2 (Z.ltb_ge 1 _)) by lia. cbn. lia. }
  rewrite Hout. destruct (1 <? outstanding (rx R)) eqn:E1; cbn [negb].
  - eexists R1, _. split; [reflexivity|]. split; [done|]. split; [done|].
    split; [by repeat constructor|]. split; [done|]. bools. cbn. by rewrite (proj2 (Z.ltb_lt 0 _)) by lia.
  - destruct (requestNext_asks E K _ HE (receiving_drained (now E) K R1 HW)) as (R2 & J & req & E2 & HR2 & Ha & Hp).
    erewrite bind_Ret by reflexivity. rewrite (bind_Ret _ _ _ _ _ _ E2). eexists R2, _. split; [reflexivity|]. split; [done|]. split; [done|].
    split; [by repeat constructor|]. by exists J, req.
Qed.

(** Storing the last part: the payload is delivered and proved. *)
Lemma receivePart_last E K j R : lossless_env E -> receiving K R -> (j < K)%nat ->
  parts (wire R) !! j = Some None -> S (filled (parts (wire R))) = n ->
  exists R' evs, receivePart E (nth j ps []) R = (R', evs, Ret true) /\ received R'
    /\ exists a b w, evs = Progress a b :: finishing w.
Proof.
  intros HE HR HjK Hj Hlast. pose proof (rc_known _ _ HR) as [_ HKn].
  set (R1 := with_part (now E) j R).
  assert (Hst : receivePart_start E (nth j ps []) R
    = (let '(R2, e2, x) := (a ← assemble_start E; mret (true, a)) R1 in
       (R2, Progress (receivedCount (rx R1)) (totalParts (wire R1)) :: e2, x))).
  { unfold receivePart_start, get. erewrite bind_Ret by reflexivity. cbv beta.
    rewrite (rc_status _ _ HR), (find_slot_part K j R HR HjK Hj). unfold modify.
    erewrite bind_Ret by reflexivity. erewrite bind_Ret by reflexivity.
    fold (with_part (now E) j R). fold R1. unfold emit. erewrite bind_Ret by reflexivity.
    rewrite (proj2 (Z.leb_le _ _)); [by destruct (mbind (M := M) _ _ R1) as [[? ?] ?]|].
    cbn. rewrite (rc_total _ _ HR), (rc_count _ _ HR). lia. }
  destruct (assemble_all E (with_part (now E) j R) HE) as (R' & evs & E' & HR' & Hs).
  { apply with_part_slots; [lia|apply HR]. } { rewrite <- Hlast. by apply fill_slot. }
  1-5: apply HR.
  eexists R', (Progress _ _ :: evs). split; [|split; [done|destruct Hs as [w ->]; by eexists _, _, w]].
  apply bind_inv in E' as (R2 & e2 & a & e3 & E2 & E3 & ->). unfold receivePart.
  rewrite (bind_Ret _ _ _ _ _ _ E2) in Hst. cbn [mret M_ret] in Hst. rewrite app_nil_r in Hst.
  rewrite (bind_Ret _ _ _ _ _ _ Hst), (bind_Ret _ _ _ _ _ _ E3). unfold mret, M_ret. by rewrite app_nil_r.
Qed.

(** *** The proof *)

Lemma length_hash_proof : length (h ++ proof) = 64%nat.
Proof. rewrite length_app. destruct Hlen. lia. Qed.

Lemma validateProof_completes E draws S : serving S ->
  exists S' evs, validateProof E draws (h ++ proof) S = (S', evs, Ret tt)
    /\ status S' = COMPLETE /\ evs = [Complete].
Proof.
  intros HS. unfold validateProof. rewrite length_hash_proof. cbn [Nat.eqb negb].
  unfold get. erewrite bind_Ret by reflexivity. rewrite (sv_status _ HS), (sv_proof _ HS), (sv_split _ HS).
  replace (slice 32 64 (h ++ proof)) with proof.
  2:{ unfold slice. destruct Hlen as [Hh Hp]. rewrite drop_app_length' by done.
      by rewrite take_ge by (rewrite Hp; lia). }
  rewrite bytesEqual_refl. cbn [negb andb]. eexists _, _. split; [reflexivity|]. done.
Qed.

(** *** Peers *)

Lemma link_accepts_all K l t' ctx p : c_sent K = true -> token (keys l) = Some t' ->
  link_accepts K l ctx p = true.
Proof.
  intros Hs Ht. unfold link_accepts, send, _prepareOutboundPacket, message_packet. rewrite Ht, Hs.
  set (b := negb _ && _). destruct b; cbn [rbind].
  all: reflexivity.
Qed.

(** Every packet of a peer's transfers is accepted. *)
Definition working (K : Config) (P : Peer) : Prop :=
  c_sent K = true /\ token (keys (link P)) = Some t.

Lemma working_env K P : working K P -> lossless_env (env_of K (link P)).
Proof. intros [Hs Ht]. split; [done|]. intros ctx p. by eapply link_accepts_all. Qed.

Lemma method_run {A} K a (m : Env -> M A) P r r' evs x :
  objects (transfers P) !! a = Some r -> m (env_of K (link P)) r = (r', evs, x) ->
  method K a m P
  = (set_transfers P (fold_left (apply_event a) evs
       (set_objects (transfers P) (<[a := r']> (objects (transfers P))))), map (Obj a) evs, x).
Proof.
  intros Ha Hm. unfold method, peer. unfold mbind, TM_bind. unfold on_object. rewrite Ha, Hm. done.
Qed.

Lemma fold_quiet a evs T : Forall quiet evs -> fold_left (apply_event a) evs T = T.
Proof. induction 1 as [|e evs He _ IH]; [done|]. cbn [fold_left]. by destruct e. Qed.

Lemma settled_quiet a evs : Forall quiet evs -> settled_objects (map (Obj a) evs) = [].
Proof.
  induction 1 as [|e evs He _ IH]; [done|]. unfold settled_objects in *. cbn [map omap list_omap].
  by destruct e.
Qed.

Definition with_object (P : Peer) (a : nat) (r : Resource) : Peer :=
  set_transfers P (set_objects (transfers P) (<[a := r]> (objects (transfers P)))).

Lemma drain_nil f K P : drain f K [] P = (P, [], Ret tt).
Proof. by destruct f. Qed.

(** A turn that settles no promise is its handler. *)
Lemma turn_quiet K (m : TM unit) a P P' evs x :
  m P = (P', map (Obj a) evs, x) -> Forall quiet evs -> turn K m P = (P', map (Obj a) evs, x).
Proof.
  intros Hm Hq. unfold turn. rewrite Hm, settled_quiet by done.
  rewrite drain_nil. by rewrite app_nil_r.
Qed.

Lemma peer_bind {A} (k : Peer -> TM A) P : (peer ≫= k) P = k P P.
Proof. unfold mbind, TM_bind, peer. by destruct (k P P) as [[? ?] ?]. Qed.

Lemma bind_run {A B} (m : TM A) (k : A -> TM B) P P1 e1 a :
  m P = (P1, e1, Ret a) -> (m ≫= k) P = let '(P2, e2, x) := k a P1 in (P2, e1 ++ e2, x).
Proof. intros Hm. unfold mbind, TM_bind. by rewrite Hm. Qed.

Lemma with_same P a r : objects (transfers P) !! a = Some r -> with_object P a r = P.
Proof.
  intros Ha. unfold with_object. rewrite list_insert_id by done. by destruct P as [l []].
Qed.

Lemma object_run P a r : objects (transfers P) !! a = Some r -> object a P = (P, [], Ret r).
Proof.
  intros Ha. unfold object, on_object. rewrite Ha. cbn. f_equal. f_equal. by apply with_same.
Qed.

(** Where a message goes. *)
Lemma dispatch_out K ctx m P :
  dispatch K ctx m P =
  (if ctx =? ContextType_RESOURCE_REQ then
     to_resource (outgoingResources (transfers P)) (_resourceHashFromRequest m)
       (fun a => method K a (fun E => handleRequest E m)) P
   else if ctx =? ContextType_RESOURCE then
     route_part K (values (incomingResources (transfers P))) m P
   else if ctx =? ContextType_RESOURCE_ADV then advertised K m P
   else if ctx =? ContextType_RESOURCE_HMU then
     to_resource (incomingResources (transfers P)) (slice 0 32 m)
       (fun a => method K a (fun E => hashmapUpdate E m)) P
   else if ctx =? ContextType_RESOURCE_PRF then
     to_resource (outgoingResources (transfers P)) (slice 0 32 m)
       (fun a => method K a (fun E => validateProof E (c_draws K) m)) P
   else if ctx =? ContextType_RESOURCE_ICL then
     to_resource (incomingResources (transfers P)) (slice 0 32 m) (fun a => on_object a handleIncomingCancel) P
   else if ctx =? ContextType_RESOURCE_RCL then
     to_resource (outgoingResources (transfers P)) (slice 0 32 m) (fun a => on_object a handleRejection) P
   else (P, [], Ret tt)).
Proof.
  unfold dispatch. rewrite peer_bind. unfold _routeResourcePart.
  repeat case_match; try done. by rewrite peer_bind.
Qed.

(** *** The two ends *)

Context (mtu0 : Z).
Let map_len := (mdu mtu0 - HASHMAP_FIXED_OVERHEAD) / 4.
Hypothesis Hmtu : 0 < map_len.

Record at_sender (P : Peer) (a : nat) (S : Resource) : Prop := {
  as_token : token (keys (link P)) = Some t;
  as_object : objects (transfers P) !! a = Some S;
  as_registered : JsMap.get (toHex h) (outgoingResources (transfers P)) = Some a;
  as_idle : waiters (transfers P) = [];
  as_mtu : Link.mtu (link P) = mtu0;
}.

Record at_receiver (P : Peer) (b : nat) (R : Resource) : Prop := {
  ar_token : token (keys (link P)) = Some t;
  ar_object : objects (transfers P) !! b = Some R;
  ar_registered : incomingResources (transfers P) = [(toHex h, b)];
  ar_idle : waiters (transfers P) = [];
}.

Lemma with_object_lookup P a r r' : objects (transfers P) !! a = Some r ->
  objects (transfers (with_object P a r')) !! a = Some r'.
Proof. intros Ha. cbn. apply list_lookup_insert_eq. by apply lookup_lt_Some in Ha. Qed.

Lemma at_sender_with P a S S' : at_sender P a S -> at_sender (with_object P a S') a S'.
Proof. intros []. split; [done| |done..]. by eapply with_object_lookup. Qed.

Lemma at_receiver_with P b R R' : at_receiver P b R -> at_receiver (with_object P b R') b R'.
Proof. intros []. split; [done| |done..]. by eapply with_object_lookup. Qed.

(** A method of the transfer's own object, when it changes no registration. *)
Lemma method_quiet {A} K a (m : Env -> M A) P r r' evs x :
  objects (transfers P) !! a = Some r -> m (env_of K (link P)) r = (r', evs, x) -> Forall quiet evs ->
  method K a m P = (with_object P a r', map (Obj a) evs, x).
Proof. intros Ha Hm Hq. rewrite (method_run K a m P r r' evs x) by done. by rewrite fold_quiet. Qed.

Lemma turn_request K P a S m S' evs x : at_sender P a S ->
  _resourceHashFromRequest m = h ->
  handleRequest (env_of K (link P)) m S = (S', evs, x) -> Forall quiet evs ->
  turn K (dispatch K ContextType_RESOURCE_REQ m) P = (with_object P a S', map (Obj a) evs, x).
Proof.
  intros HA Hh Hr Hq. apply turn_quiet; [|done]. rewrite dispatch_out. cbn [Z.eqb Pos.eqb ContextType_RESOURCE_REQ].
  unfold to_resource. rewrite Hh, (as_registered _ _ _ HA). by eapply method_quiet; [apply HA|..].
Qed.

Lemma turn_part K P b R chunk R' evs x : at_receiver P b R ->
  receivePart (env_of K (link P)) chunk R = (R', evs, Ret true) -> Forall quiet evs -> x = Ret tt ->
  turn K (dispatch K ContextType_RESOURCE chunk) P = (with_object P b R', map (Obj b) evs, x).
Proof.
  intros HB Hr Hq ->. apply turn_quiet; [|done]. rewrite dispatch_out.
  change (ContextType_RESOURCE =? ContextType_RESOURCE_REQ) with false.
  change (ContextType_RESOURCE =? ContextType_RESOURCE) with true. cbv iota.
  rewrite (ar_registered _ _ _ HB). change (values _) with [b]. cbn [route_part].
  unfold mbind, TM_bind. erewrite method_quiet by (done || apply HB). cbn. by rewrite app_nil_r.
Qed.

Lemma turn_hmu K P b R inner R' evs x : at_receiver P b R ->
  hashmapUpdate (env_of K (link P)) (h ++ inner) R = (R', evs, x) -> Forall quiet evs ->
  turn K (dispatch K ContextType_RESOURCE_HMU (h ++ inner)) P = (with_object P b R', map (Obj b) evs, x).
Proof.
  intros HB Hr Hq. apply turn_quiet; [|done]. rewrite dispatch_out.
  change (ContextType_RESOURCE_HMU =? ContextType_RESOURCE_REQ) with false.
  change (ContextType_RESOURCE_HMU =? ContextType_RESOURCE) with false.
  change (ContextType_RESOURCE_HMU =? ContextType_RESOURCE_ADV) with false.
  change (ContextType_RESOURCE_HMU =? ContextType_RESOURCE_HMU) with true. cbv iota.
  unfold to_resource. rewrite (ar_registered _ _ _ HB), slice_app_take by apply Hlen.
  cbn [JsMap.get]. rewrite bool_decide_true by done. by eapply method_quiet; [apply HB|..].
Qed.

(** A turn that completes an object nothing waits for. *)
Lemma turn_done K (m : TM unit) a P P' evs x : m P = (P', map (Obj a) evs, x) ->
  settled_objects (map (Obj a) evs) = [(a, true)] -> waiters (transfers P') = [] ->
  turn K m P = (P', map (Obj a) evs, x).
Proof.
  intros Hm Hs Hw. unfold turn. rewrite Hm, Hs, Hw.
  assert (Hd : drain 0 K [(a, true)] P' = (P', [], Ret tt)).
  { cbn [drain skip_idle]. unfold waiting. by rewrite Hw. }
  cbn [length]. rewrite Hd. by rewrite app_nil_r.
Qed.

Record delivered (P : Peer) (b : nat) (R : Resource) : Prop := {
  dl_object : objects (transfers P) !! b = Some R;
  dl_received : received R;
  dl_unregistered : incomingResources (transfers P) = [];
}.

Lemma turn_last K P b R chunk R' evs i j w : at_receiver P b R ->
  receivePart (env_of K (link P)) chunk R = (R', evs, Ret true) ->
  evs = Progress i j :: finishing w -> received R' ->
  exists P', turn K (dispatch K ContextType_RESOURCE chunk) P = (P', map (Obj b) evs, Ret tt)
    /\ delivered P' b R'.
Proof.
  intros HB Hr He Hd.
  set (P' := set_transfers P (fold_left (apply_event b) evs
               (set_objects (transfers P) (<[b := R']> (objects (transfers P)))))).
  assert (Hrun : dispatch K ContextType_RESOURCE chunk P = (P', map (Obj b) evs, Ret tt)).
  { rewrite dispatch_out.
    change (ContextType_RESOURCE =? ContextType_RESOURCE_REQ) with false.
    change (ContextType_RESOURCE =? ContextType_RESOURCE) with true. cbv iota.
    rewrite (ar_registered _ _ _ HB). change (values _) with [b]. cbn [route_part].
    unfold mbind, TM_bind. erewrite method_run by (apply HB || exact Hr).
    unfold mret, TM_ret. cbv beta iota. by rewrite app_nil_r. }
  exists P'. split.
  - apply turn_done; [done|by subst|]. subst. cbn. apply HB.
  - subst. split; [|done|].
    + cbn. eapply (with_object_lookup P). apply HB.
    + cbn. rewrite (ar_registered _ _ _ HB). unfold mdelete.
      rewrite filter_cons_False by (by intros []). done.
Qed.

Lemma turn_proof K P a S : at_sender P a S -> serving S ->
  exists P' S', turn K (dispatch K ContextType_RESOURCE_PRF (h ++ proof)) P = (P', [Obj a Complete], Ret tt)
    /\ objects (transfers P') !! a = Some S' /\ status S' = COMPLETE.
Proof.
  intros HA HS.
  destruct (validateProof_completes (env_of K (link P)) (c_draws K) S HS) as (S' & evs & E & Hst & ->).
  exists (with_object P a S'), S'. split; [|split; [|done]].
  - apply (turn_done K _ a _ _ [Complete]); [|done|apply HA]. rewrite dispatch_out.
    change (ContextType_RESOURCE_PRF =? _) with false at 1.
    change (ContextType_RESOURCE_PRF =? ContextType_RESOURCE) with false.
    change (ContextType_RESOURCE_PRF =? ContextType_RESOURCE_ADV) with false.
    change (ContextType_RESOURCE_PRF =? ContextType_RESOURCE_HMU) with false.
    change (ContextType_RESOURCE_PRF =? ContextType_RESOURCE_PRF) with true. cbv iota.
    unfold to_resource. rewrite slice_app_take, (as_registered _ _ _ HA) by apply Hlen.
    erewrite method_run by (apply HA || exact E). done.
  - eapply with_object_lookup. apply HA.
Qed.

(** *** The phases of a transfer *)

(** What the receiver knows of the map: everything, or whole windows. *)
Definition boundary (k : nat) : Prop := k = n \/ Z.of_nat k mod map_len = 0.

(** Twice the missing parts and the unknown hashes. *)
Definition left_over (R : Resource) (k : nat) : nat :=
  (2 * (n - filled (parts (wire R))) + 2 * (n - k))%nat.

Definition req_message (req : bytes) : message := (PacketType_DATA, ContextType_RESOURCE_REQ, req).
Definition hmu_message (inner : bytes) : message :=
  (PacketType_DATA, ContextType_RESOURCE_HMU, h ++ inner).
Definition prf_message : message := (PacketType_PROOF, ContextType_RESOURCE_PRF, h ++ proof).

(** A state of the network in the transfer, with a bound of the deliveries
    still to come. *)
Inductive phase (a b : nat) : Net -> nat -> Prop :=
| Requesting A B S R k J req :
    at_sender A a S -> serving S -> at_receiver B b R -> receiving k R -> boundary k ->
    asks k R J req -> phase a b (mkNet A B [req_message req]) (left_over R k + 1)
| Parts A B S R k J ms :
    at_sender A a S -> serving S -> at_receiver B b R -> receiving k R -> boundary k ->
    J <> [] -> NoDup J -> (forall j, j ∈ J -> (j < k)%nat /\ parts (wire R) !! j = Some None) ->
    outstanding (rx R) = Z.of_nat (length J) -> Permutation ms (map part_message J) ->
    phase a b (mkNet A B ms) (left_over R k)
| More_hashes A B S R k inner :
    at_sender A a S -> serving S -> at_receiver B b R -> receiving k R -> Z.of_nat k mod map_len = 0 ->
    (k < n)%nat -> outstanding (rx R) = 0 ->
    decode_body inner = Ok (VArr [VInt (Z.of_nat k / map_len); VBin (concatBytes (segment_at map_len k))]) ->
    phase a b (mkNet A B [hmu_message inner]) (left_over R k)
| Proving A B S R :
    at_sender A a S -> serving S -> delivered B b R -> phase a b (mkNet A B [prf_message]) 1
| Finished A B S R :
    objects (transfers A) !! a = Some S -> status S = COMPLETE -> delivered B b R ->
    phase a b (mkNet A B []) 0.

Lemma env_map_len K P a S : at_sender P a S -> hashmapMaxLen (env_of K (link P)) = map_len.
Proof. intros HA. unfold hashmapMaxLen, map_len. cbn [mtu env_of]. by rewrite (as_mtu _ _ _ HA). Qed.

Lemma request_hash ex l last : Forall (fun x => length x = 4%nat) l -> length last = 4%nat ->
  _resourceHashFromRequest (request_body h l ex last) = h.
Proof.
  intros Hl Hlast. pose proof (request_roundtrip h l ex last (proj1 Hlen) Hl Hlast) as Hr.
  unfold _parseRequest in Hr. by injection Hr.
Qed.

Lemma Forall_hash_at J : (forall j, j ∈ J -> (j < n)%nat) ->
  Forall (fun x => length x = 4%nat) (map hash_at J).
Proof.
  intros HJ. apply Forall_forall. intros x (j & -> & Hj)%list_elem_of_fmap. by apply length_hash_at, HJ.
Qed.

Lemma working_sender z K P a S : reliable z K -> at_sender P a S -> working K P.
Proof. intros [Hs _] HA. split; [done|apply HA]. Qed.

Lemma working_receiver z K P b R : reliable z K -> at_receiver P b R -> working K P.
Proof. intros [Hs _] HB. split; [done|apply HB]. Qed.

(** The sender answers a request with the parts asked for, or with hashes. *)
Lemma step_request z K A B a b S R k J req A' es x : reliable z K ->
  at_sender A a S -> serving S -> at_receiver B b R -> receiving k R -> boundary k -> asks k R J req ->
  turn K (dispatch K ContextType_RESOURCE_REQ req) A = (A', es, x) ->
  phase a b (mkNet A' B (outbound es)) (left_over R k).
Proof.
  intros HK HA HS HB HR Hb (Hnd' & HJ & Hout & Hcase) Ht.
  pose proof (working_env K A (working_sender z K A a S HK HA)) as HE.
  destruct (rc_known _ _ HR) as [HK0 HKn].
  assert (HJn : forall j, j ∈ J -> (j < n)%nat) by (intros j [? _]%HJ; lia).
  destruct Hcase as [[HJ0 ->]|(-> & Hkn & ->)].
  - destruct (handle_asks_parts (env_of K (link A)) S J HE HS HJn) as (S' & evs & E & HS' & Hsent & Hq).
    rewrite (turn_request K A a S _ S' evs (Ret tt)) in Ht; [|done| |done..].
    2:{ by apply (request_hash false _ (replicate 4 0)), eq_refl; apply Forall_hash_at. }
    injection Ht as <- <- <-. rewrite outbound_obj, Hsent.
    eapply (Parts a b _ B S' R k J); try done. by eapply at_sender_with.
  - destruct Hb as [->|Hb]; [lia|].
    destruct (handle_asks_more (env_of K (link A)) map_len S k HE HS)
      as (S' & evs & inner & E & HS' & -> & Hd); [by erewrite env_map_len|done|lia|done|].
    rewrite (turn_request K A a S _ S'
      [Sent PacketType_DATA ContextType_RESOURCE_HMU (h ++ inner)] (Ret tt)) in Ht;
      [|done|apply request_hash; [constructor|apply length_hash_at; lia]|exact E|by repeat constructor].
    injection Ht as <- <- <-.
    eapply (More_hashes a b _ B S' R k inner); try done. by eapply at_sender_with.
Qed.

Lemma filled_le R k : receiving k R -> (filled (parts (wire R)) <= n)%nat.
Proof. intros HR. pose proof (rc_missing _ _ HR). lia. Qed.

(** The receiver stores a part and goes on, or is done. *)
Lemma step_part z K A B a b S R k j J ms B' es x : reliable z K ->
  at_sender A a S -> serving S -> at_receiver B b R -> receiving k R -> boundary k ->
  NoDup (j :: J) -> (forall i, i ∈ j :: J -> (i < k)%nat /\ parts (wire R) !! i = Some None) ->
  outstanding (rx R) = Z.of_nat (length (j :: J)) -> Permutation ms (map part_message J) ->
  turn K (dispatch K ContextType_RESOURCE (nth j ps [])) B = (B', es, x) ->
  exists m', (m' < left_over R k)%nat /\ phase a b (mkNet A B' (ms ++ outbound es)) m'.
Proof.
  intros HK HA HS HB HR Hb [HjJ Hnd']%NoDup_cons HJ Hout Hms Ht.
  pose proof (working_env K B (working_receiver z K B b R HK HB)) as HE.
  destruct (HJ j ltac:(by left)) as [Hjk Hj]. destruct (rc_known _ _ HR) as [HK0 HKn].
  pose proof (rc_missing _ _ HR) as Hmiss.
  destruct (decide (Datatypes.S (filled (parts (wire R))) = n)) as [Hlast|Hmore].
  - destruct (receivePart_last _ k j R HE HR Hjk Hj Hlast) as (R' & evs & E & Hd & i1 & i2 & w & Hev).
    destruct (turn_last K B b R _ R' evs i1 i2 w HB E Hev Hd) as (P' & Ht' & HP').
    rewrite Ht' in Ht. injection Ht as <- <- <-. rewrite outbound_obj, Hev.
    assert (J = []) as ->.
    { destruct J as [|i J]; [done|exfalso].
      assert (Hi : i <> j) by (intros ->; apply HjJ; by left).
      destruct (HJ i ltac:(right; by left)) as [_ Hi'].
      pose proof (fill_slot _ j (nth j ps []) Hj) as F1.
      pose proof (fill_slot (<[j := Some (nth j ps [])]> (parts (wire R))) i []) as F2.
      rewrite list_lookup_insert_ne in F2 by done. specialize (F2 Hi').
      pose proof (filled_holes (<[i := Some []]> (<[j := Some (nth j ps [])]> (parts (wire R))))) as F3.
      rewrite !length_insert, (receiving_length _ _ HR) in F3. lia. }
    apply Permutation_nil_r in Hms as ->. exists 1%nat. split; [unfold left_over; lia|].
    by eapply (Proving a b A P' S R').
  - destruct (receivePart_more _ k j R HE HR Hjk Hj) as (R' & evs & E & HR' & Hp & Hq & Hnext); [lia|].
    rewrite (turn_part K B b R _ R' evs (Ret tt)) in Ht by done.
    injection Ht as <- <- <-. rewrite outbound_obj.
    assert (Hfill : filled (parts (wire R')) = Datatypes.S (filled (parts (wire R)))) by (rewrite Hp; by apply fill_slot).
    pose proof (at_receiver_with B b R R' HB) as HB'.
    rewrite Hout in Hnext. cbn [length] in Hnext. destruct J as [|i J].
    + cbn in Hnext. destruct Hnext as (J' & req & -> & Ha). apply Permutation_nil_r in Hms as ->.
      eexists. split; [|by eapply (Requesting a b A _ S R' k J' req)].
      unfold left_over. rewrite Hfill. lia.
    + rewrite (proj2 (Z.ltb_lt _ _)) in Hnext by (cbn [length]; lia).
      destruct Hnext as [-> Hout']. rewrite app_nil_r. eexists.
      split; [|eapply (Parts a b A _ S R' k (i :: J)); try done].
      * unfold left_over. rewrite Hfill. lia.
      * intros i' Hi'. destruct (HJ i' ltac:(by right)) as [? Hs]. split; [done|].
        rewrite Hp, list_lookup_insert_ne; [done|]. intros <-. by apply HjJ.
      * rewrite Hout'. cbn [length]. lia.
Qed.

(** The receiver learns more hashes and asks again. *)
Lemma step_hmu z K A B a b S R k inner B' es x : reliable z K ->
  at_sender A a S -> serving S -> at_receiver B b R -> receiving k R -> Z.of_nat k mod map_len = 0 ->
  (k < n)%nat -> outstanding (rx R) = 0 ->
  decode_body inner = Ok (VArr [VInt (Z.of_nat k / map_len); VBin (concatBytes (segment_at map_len k))]) ->
  turn K (dispatch K ContextType_RESOURCE_HMU (h ++ inner)) B = (B', es, x) ->
  exists m', (m' < left_over R k)%nat /\ phase a b (mkNet A B' (outbound es)) m'.
Proof.
  intros HK HA HS HB HR Hb Hkn Hout Hd Ht.
  pose proof (working_env K B (working_receiver z K B b R HK HB)) as HE.
  destruct (hashmapUpdate_asks _ map_len k R inner _ HE HR Hkn Hmtu Hb Hout Hd)
    as (R' & J & req & k' & E & HR' & Ha & Hk' & Hb' & Hf).
  rewrite (turn_hmu K B b R inner R' [Sent PacketType_DATA ContextType_RESOURCE_REQ req] (Ret tt)) in Ht;
    [|done..|by repeat constructor].
  injection Ht as <- <- <-. eexists.
  split; [|eapply (Requesting a b A _ S R' k' J req); try done; by eapply at_receiver_with].
  unfold left_over. rewrite Hf. destruct (rc_known _ _ HR'). lia.
Qed.

Lemma part_in_flight l1 (x : message) l2 J : Permutation (l1 ++ x :: l2) (map part_message J) ->
  exists j J', x = part_message j /\ Permutation J (j :: J') /\ Permutation (l1 ++ l2) (map part_message J').
Proof.
  intros Hp. apply Permutation_map_inv in Hp as (J0 & HJ0 & Hp).
  symmetry in HJ0. apply map_eq_app in HJ0 as (J1 & J2' & -> & <- & HJ2).
  destruct J2' as [|j J2]; [done|]. cbn [map] in HJ2. injection HJ2 as <- <-.
  exists j, (J1 ++ J2). split; [done|]. split.
  - rewrite Hp. symmetry. apply Permutation_middle.
  - by rewrite map_app.
Qed.

(** Every delivery leads on. *)
Lemma phase_step z a b N N' m : phase a b N m -> deliver z N N' -> exists m', (m' < m)%nat /\ phase a b N' m'.
Proof.
  intros HP HD. destruct HP as [A B S R k J req HA HS HB HR Hb Ha
    |A B S R k J ms HA HS HB HR Hb HJ0 HndJ HJ Hout Hms
    |A B S R k inner HA HS HB HR Hb Hk Hout Hd|A B S R HA HS HB|A B S R Ho Hst HB].
  - apply deliver_only in HD as (K & es & x & HK & A' & Ht & ->). exists (left_over R k).
    split; [lia|]. by eapply (step_request z K A B a b S R k J req).
  - inversion HD as [K ? ? l1 pt ctx m' l2 X es x HK Hc Ht [E1 E2 E3] E4
      |K ? ? l1 pt ctx m' l2 X es x HK Hc Ht [E1 E2 E3] E4]; clear HD; subst;
      apply part_in_flight in Hms as (j & J' & [= -> -> ->] & HpJ & Hms); [done|].
    rewrite app_assoc. eapply (step_part z K A B a b S R k j J'); try done.
    + by rewrite <- HpJ.
    + intros i Hi. apply HJ. by rewrite HpJ.
    + by rewrite Hout, HpJ.
  - apply deliver_only in HD as (K & es & x & HK & B' & Ht & ->).
    by eapply (step_hmu z K A B a b S R k inner).
  - apply deliver_only in HD as (K & es & x & HK & A' & Ht & ->).
    destruct (turn_proof K A a S HA HS) as (P' & S' & E & Ho & Hst).
    rewrite E in Ht. injection Ht as <- <- <-. exists 0%nat. split; [lia|].
    by eapply (Finished a b P' B S' R).
  - inversion HD as [K ? ? l1 pt ctx m' l2 X es x HK Hc Ht [E1 E2 E3] E4
      |K ? ? l1 pt ctx m' l2 X es x HK Hc Ht [E1 E2 E3] E4]; by destruct l1.
Qed.

(** Something is always in flight until both ends are done. *)
Lemma phase_end a b A B m : phase a b (mkNet A B []) m -> exists S R,
  objects (transfers A) !! a = Some S /\ status S = COMPLETE /\ delivered B b R.
Proof.
  intros HP. inversion HP as [| ? ? ? ? ? J ? ? ? ? ? ? HJ0 ? ? ? Hms| | |A0 B0 S R Ho Hs Hd]; subst.
  - apply Permutation_nil_l in Hms. by destruct J.
  - by exists S, R.
Qed.

(** *** The beginning *)

Context (z : option Bz2) (d : Z).
Hypothesis Hplain : if compressed k0
  then exists z', z = Some z' /\ decompress z' body (Z.to_nat d) = Ok plain else body = plain.
Hypothesis Hkind : isRequest k0 = false /\ isResponse k0 = false /\ totalSegments k0 = 1 /\ segmentIndex k0 = 1.
Hypothesis Hsizes : zlen (concatBytes ps) <= DEFAULT_MAX_SIZE /\ d <= DEFAULT_MAX_SIZE
  /\ Z.of_nat n <= DEFAULT_MAX_PARTS /\ Z.of_nat n <= zlen (concatBytes ps).
Hypothesis Hcount : 0 < mtu0 - HEADER_MAX_SIZE - IFAC_MIN_SIZE
  /\ Z.of_nat n <= - ((- zlen (concatBytes ps)) / (mtu0 - HEADER_MAX_SIZE - IFAC_MIN_SIZE)) + 1.

(** The hashes that fit in the advertisement. *)
Let k1 : nat := Nat.min n (Z.to_nat map_len).

(** What the advertisement says. *)
Record describes (a : Adv.t) (f : Z) : Prop := {
  ds_ints : int_adv a (zlen (concatBytes ps)) d (Z.of_nat n) 1 1 f;
  ds_hash : Adv.hash a = h;
  ds_random : Adv.random a = s;
  ds_map : Adv.hashmap a = concatBytes (take k1 hs);
  ds_kind : k0 = mkKind (Some (Adv.original a)) (Adv.request a) (Adv.isRequest f) (Adv.isResponse f)
                   (Adv.compressed f) (Adv.encrypted f) false (Adv.hasMetadata f) 1 1;
}.

(** A peer without transfers in progress. *)
Record idle (P : Peer) : Prop := {
  id_token : token (keys (link P)) = Some t;
  id_mtu : Link.mtu (link P) = mtu0;
  id_incoming : incomingResources (transfers P) = [];
  id_waiters : waiters (transfers P) = [];
  id_window : match lastResourceWindow (transfers P) with Some w => 0 <= w | None => True end;
}.

Lemma n_pos : (0 < n)%nat.
Proof. unfold n. destruct ps; [done|cbn; lia]. Qed.

Lemma accept_described E lw lim adv f m : Adv.unpack m = Some (Ok adv) -> describes adv f ->
  lim = default_limits -> mtu E = mtu0 ->
  accept E z lw lim m = Some ([RegisterIncoming h],
    Ok (Some (incoming E z lw adv (zlen (concatBytes ps)) d (Z.of_nat n) 1 1 f))).
Proof.
  intros Hu HD -> HE. pose proof n_pos as Hn. unfold accept. rewrite Hu.
  destruct HD as [(-> & -> & -> & -> & -> & ->) -> _ _ _].
  change (bad_segments default_limits 1 1) with false. cbv iota.
  destruct Hsizes as (S1 & S2 & S3 & S4). destruct Hcount as [C1 C2].
  unfold part_count_insane, default_limits, sdu. cbn [maxSize maxParts]. rewrite HE.
  set (x := mtu0 - _ - _) in *. clearbody x. rewrite (proj2 (Z.ltb_lt 0 x)) by done.
  set (ex := - _) in *. clearbody ex.
  destruct (_ || _) eqn:Eb; [exfalso|reflexivity].
  rewrite (proj2 (Z.ltb_lt 0 ex)) in Eb by lia. lia.
Qed.

Lemma incoming_receiving E lw adv f : describes adv f ->
  match lw with Some w => 0 <= w | None => True end ->
  receiving k1 (incoming E z lw adv (zlen (concatBytes ps)) d (Z.of_nat n) 1 1 f).
Proof.
  intros HD Hw. pose proof n_pos as Hn. unfold incoming. rewrite Nat2Z.id.
  assert (Hf : filled (replicate n (@None bytes)) = 0%nat).
  { clear. unfold filled. by induction n. }
  split; cbn [status wire hashmap parts totalParts rx receivedCount hash randomHash window kind content metadata].
  - done.
  - rewrite (ds_map _ _ HD). apply splitHashmap_concat. by apply Forall_take.
  - unfold n. clear. induction ps; cbn; constructor; [by left|done].
  - by rewrite drop_replicate.
  - done.
  - rewrite Hf. by destruct lw as [w|]; [destruct (w =? 0)|].
  - lia.
  - by rewrite (ds_hash _ _ HD).
  - apply (ds_random _ _ HD).
  - destruct lw as [w|]; [|done]. destruct (w =? 0) eqn:E0; [done|]. bools. cbn. lia.
  - unfold plaintext_of. cbn [kind compressed bz2 content uncompressedSize].
    replace (Adv.compressed f) with (compressed k0) by (by rewrite (ds_kind _ _ HD)).
    destruct (compressed k0); [destruct Hplain as (z' & -> & Hz); done|by rewrite Hplain].
  - unfold k1. lia.
  - symmetry. apply (ds_kind _ _ HD).
  - done.
Qed.

(** The first delivery: the transfer is accepted and the first parts are
    asked for. *)
Lemma step_advertisement K A B a S adv f m B' es x : reliable z K -> at_sender A a S -> serving S ->
  idle B -> Adv.unpack m = Some (Ok adv) -> describes adv f ->
  turn K (dispatch K ContextType_RESOURCE_ADV m) B = (B', es, x) ->
  exists m', (m' < 4 * n)%nat /\ phase a (length (objects (transfers B))) (mkNet A B' (outbound es)) m'.
Proof.
  intros (Hs & Hz & Hmax) HA HS HB Hu HD Ht.
  set (E := env_of K (link B)). set (T := transfers B).
  set (R0 := incoming E z (lastResourceWindow T) adv (zlen (concatBytes ps)) d (Z.of_nat n) 1 1 f).
  pose proof (incoming_receiving E _ adv f HD (id_window _ HB)) as HR0. fold R0 in HR0.
  assert (HE : lossless_env E) by (apply working_env; split; [done|apply HB]).
  destruct (requestNext_asks E k1 R0 HE HR0) as (R & J & req & Er & HR & Ha & Hp).
  set (b := length (objects T)).
  set (P1 := set_transfers B (apply_event b (set_objects T (objects T ++ [R0])) (RegisterIncoming h))).
  assert (Hb0 : (objects T ++ [R0]) !! b = Some R0).
  { unfold b. by rewrite lookup_app_r, Nat.sub_diag by lia. }
  assert (Hb1 : objects (transfers P1) !! b = Some R0) by exact Hb0.
  assert (Hk0 : kind R0 = k0) by (symmetry; apply (ds_kind _ _ HD)).
  assert (Hrun : advertised K m B
    = (with_object P1 b R, [Obj b (RegisterIncoming h); ResourceArrived b;
         Obj b (Sent PacketType_DATA ContextType_RESOURCE_REQ req)], Ret tt)).
  { unfold advertised. rewrite peer_bind, Hz. fold E T.
    assert (Hlim : limits K = default_limits) by (unfold limits; by rewrite Hmax).
    rewrite (accept_described E (lastResourceWindow T) (limits K) adv f m Hu HD Hlim) by apply HB.
    fold R0. erewrite bind_run by reflexivity. fold T b.
    erewrite bind_run.
    2:{ unfold on_object. cbn [objects transfers set_transfers set_objects]. rewrite Hb0. reflexivity. }
    cbn [objects transfers set_transfers set_objects fold_left]. rewrite list_insert_id by exact Hb0.
    change (set_transfers (set_transfers B _) _) with P1. rewrite Hk0. destruct Hkind as (K1 & K2 & K3 & _). rewrite K3.
    change (1 >? 1) with false. cbv iota.
    erewrite bind_run.
    2:{ unfold _routeAssembledResource. erewrite bind_run by (by apply object_run).
        rewrite Hk0, K1, K2. reflexivity. }
    rewrite (method_quiet K b requestNext P1 R0 R _ (Ret tt) Hb1 Er) by (by repeat constructor).
    reflexivity. }
  assert (Hturn : turn K (dispatch K ContextType_RESOURCE_ADV m) B
    = (with_object P1 b R, [Obj b (RegisterIncoming h); ResourceArrived b;
         Obj b (Sent PacketType_DATA ContextType_RESOURCE_REQ req)], Ret tt)).
  { unfold turn. rewrite dispatch_out.
    change (ContextType_RESOURCE_ADV =? ContextType_RESOURCE_REQ) with false.
    change (ContextType_RESOURCE_ADV =? ContextType_RESOURCE) with false.
    change (ContextType_RESOURCE_ADV =? ContextType_RESOURCE_ADV) with true. cbv iota.
    rewrite Hrun. change (settled_objects _) with (@nil (nat * bool)). by rewrite drain_nil. }
  rewrite Hturn in Ht. injection Ht as <- <- <-. eexists. split.
  2:{ eapply (Requesting a b A _ S R k1 J req); try done.
      - split; [apply HB|by eapply (with_object_lookup P1)| |apply HB].
        cbn. unfold T. by rewrite (id_incoming _ HB).
      - unfold boundary, k1. destruct (Nat.le_gt_cases n (Z.to_nat map_len)); [left; lia|right].
        rewrite Nat.min_r, Z2Nat.id by lia. apply Z.mod_same. lia. }
  unfold left_over. pose proof n_pos. destruct (rc_known _ _ HR). lia.
Qed.

End Transfer.
