(* ===== verification/TransferSpec.v ===== *)
(** * TransferSpec: what a transfer guarantees

    An application's transfer over a lossless link is completed at both ends
    whatever the order of arrival; what a receiver accepts, delivers and
    proves; transfers that stall end. *)

From Stdlib Require Import QArith Qminmax.
From S2P Require Import Prelude Encoding JsMap Utf8 MsgPack MsgPackSpec Packet Crypto Identity.
From S2P Require Import LinkTraffic.
From S2P Require Import Link Resource Transfers ResourceWire ResourceSpec.
#[local] Open Scope Z_scope.

Section Sending.
Context `{C : WebCrypto} `{H : JsHost} `{W : !WebCryptoLaws C}.

(** ** Preparing *)

(** The object after an attempt that produced [ps] from [enc]. *)
Definition built (ps : list bytes) (enc s plain : bytes) (r : Resource) : Resource :=
  let h := sha256 (plain ++ s) in
  set_kind (set_wire r (mkWire (map Some ps) (map (mapHash s) ps) (zlen ps) (zlen enc) (Some h) s
                          (sha256 (plain ++ h))))
    (set_coding (kind r) (compressed (kind r)) true).

(** The ciphertext of one attempt. *)
Definition attempt_enc (t : Token.Token) (d : Draw) (body : bytes) : bytes :=
  Token.encrypt (iv d) t (slice 0 RANDOM_HASH_SIZE (prefix d) ++ body).

Definition attempt_salt (d : Draw) : bytes := slice 0 RANDOM_HASH_SIZE (salt d).

Lemma build_attempt_ok E plain body d r r' evs ok :
  build_attempt E plain body d r = (r', evs, Ret ok) ->
  exists t ps, linkToken E = Some t /\ slice_parts (sdu E) (attempt_enc t d body) = Some ps
    /\ ok = negb (hasCollision (collisionGuardSize E) (map (mapHash (attempt_salt d)) ps))
    /\ evs = [] /\ r' = built ps (attempt_enc t d body) (attempt_salt d) plain r.
Proof.
  unfold build_attempt. intros Hb. apply bind_inv in Hb as (r1 & e1 & [] & e2 & E1 & E2 & ->).
  injection E1 as <- <-. destruct (linkToken E) as [t|]; [|discriminate].
  fold (attempt_enc t d body) in E2.
  destruct (slice_parts (sdu E) (attempt_enc t d body)) as [ps|] eqn:Hs; [|discriminate].
  apply bind_inv in E2 as (r2 & e3 & [] & e4 & E3 & E4 & ->). injection E3 as <- <-. injection E4 as <- <- <-.
  exists t, ps. done.
Qed.

Lemma build_loop_ok E plain body draws k a r r' evs :
  build_loop E plain body draws a k r = (r', evs, Ret tt) ->
  exists i t ps, linkToken E = Some t /\ slice_parts (sdu E) (attempt_enc t (draws i) body) = Some ps
    /\ hasCollision (collisionGuardSize E) (map (mapHash (attempt_salt (draws i))) ps) = false
    /\ evs = [] /\ r' = built ps (attempt_enc t (draws i) body) (attempt_salt (draws i)) plain r.
Proof.
  revert a r evs. induction k as [|k IH]; intros a r evs Hb; cbn [build_loop] in Hb; [discriminate|].
  apply bind_inv in Hb as (r1 & e1 & ok & e2 & E1 & E2 & ->).
  apply build_attempt_ok in E1 as (t & ps & Ht & Hs & -> & -> & ->).
  destruct (hasCollision _ _) eqn:Hc; cbn [negb] in E2.
  - apply IH in E2 as (i & t' & ps' & Ht' & Hs' & Hc' & -> & ->). exists i, t', ps'. done.
  - injection E2 as <- <-. exists a, t, ps. done.
Qed.

(** The collision guard makes all map hashes of a moderate transfer different. *)
Lemma guard_NoDup span hs : hasCollision span hs = false -> zlen hs <= span + 1 -> NoDup hs.
Proof.
  intros Hc Hl. apply NoDup_alt. intros i j x Hi Hj.
  assert (G : forall i j, (j < i)%nat -> hs !! i = Some x -> hs !! j = Some x -> False).
  { clear i j Hi Hj. intros i j Hij Hi Hj.
    assert (Hn : forall k, hs !! k = Some x -> nth k hs [] = x) by (intros k Hk; by rewrite nth_lookup, Hk).
    apply lookup_lt_Some in Hi as Hil. unfold zlen in Hl.
    enough (hasCollision span hs = true) by congruence. unfold hasCollision. apply existsb_exists.
    exists i. split; [apply in_seq; lia|]. apply existsb_exists. exists j. split; [apply in_seq; lia|].
    rewrite !Hn by done. apply bytesEqual_refl. }
  destruct (Nat.lt_trichotomy i j) as [L|[L|L]]; [|done|]; exfalso; by eapply G.
Qed.

(** What the sender wraps: the metadata in front of the data. *)
Definition prefixed (r : Resource) (d : bytes) : bytes :=
  match metadataPrefix (content r) with Some p => p ++ d | None => d end.

(** The ciphertext and its parts, drawn at attempt [i]. *)
Record sliced (E : Env) (draws : nat -> Draw) (body : bytes) (ps : list bytes) (t : Token.Token)
    (i : nat) : Prop := {
  sl_token : linkToken E = Some t;
  sl_parts : slice_parts (sdu E) (attempt_enc t (draws i) body) = Some ps;
  sl_guard : hasCollision (collisionGuardSize E) (map (mapHash (attempt_salt (draws i))) ps) = false;
}.

(** What an unsplit sender looks like once prepared. *)
Record prepared_as (draws : nat -> Draw) (r0 : Resource) (plain body : bytes) (comp : bool)
    (ps : list bytes) (t : Token.Token) (i : nat) (S : Resource) : Prop := {
  pa_wire : wire S = wire (built ps (attempt_enc t (draws i) body) (attempt_salt (draws i)) plain r0);
  pa_kind : kind S = set_coding (kind r0) comp true;
  pa_size : uncompressedSize (content S) = zlen plain;
}.

Lemma prepareSender_ok E draws r0 d S evs : _prepareSender E draws r0 = (S, evs, Ret tt) ->
  prepared r0 = false -> data (content r0) = Some d -> zlen (prefixed r0 d) <= MAX_EFFICIENT_SIZE ->
  let c := compressed_body (autoCompress r0) (bz2 r0) (prefixed r0 d) in
  exists ps t i, sliced E draws (default (prefixed r0 d) c) ps t i
    /\ prepared_as draws r0 (prefixed r0 d) (default (prefixed r0 d) c) (bool_decide (is_Some c)) ps t i S
    /\ status S = status r0 /\ evs = [].
Proof.
  intros Hr Hp Hd Hsmall c. unfold _prepareSender in Hr. rewrite bind_get, Hp, Hd in Hr.
  fold (prefixed r0 d) in Hr. rewrite Z.gtb_ltb, (proj2 (Z.ltb_ge _ _)) in Hr by done.
  rewrite bind_modify in Hr. apply bind_inv in Hr as (r1 & e1 & [] & e2 & E1 & E2 & ->).
  injection E2 as <- <-. unfold prepare_body in E1. rewrite bind_get, bind_modify in E1.
  apply build_loop_ok in E1 as (i & t & ps & Ht & Hs & Hc & -> & ->).
  exists ps, t, i. split; [by split|]. split; [by split|]. done.
Qed.

Lemma advertiseSegment_ok E S S' evs : _advertiseSegment E S = (S', evs, Ret tt) ->
  exists packed, Adv.pack (advertisement E S) = Ok packed
    /\ S' = set_watch S (mkWatch (retriesLeft (watch S)) (now E) (now E) false)
    /\ evs = [RegisterOutgoing (default [] (hash (wire S)));
              Sent PacketType_DATA ContextType_RESOURCE_ADV packed].
Proof.
  intros Hr. unfold _advertiseSegment in Hr. rewrite bind_get in Hr.
  apply bind_inv in Hr as (r1 & e1 & packed & e2 & E1 & E2 & ->).
  destruct (Adv.pack _) as [b|e] eqn:Hp; [|discriminate]. injection E1 as <- <- <-.
  apply bind_inv in E2 as (r2 & e3 & [] & e4 & E3 & E4 & ->). injection E3 as <- <-.
  apply bind_inv in E4 as (r3 & e5 & [] & e6 & E5 & E6 & ->). injection E6 as <- <-.
  unfold link_send in E5. destruct (accepts _ _ _); [|discriminate]. injection E5 as <- <-.
  by exists b.
Qed.

(** A successful [advertise] of a payload that is not split. *)
Lemma advertise_ok E draws r0 d S evs : advertise E draws r0 = (S, evs, Ret tt) ->
  prepared r0 = false -> data (content r0) = Some d ->
  zlen (prefixed r0 d) <= MAX_EFFICIENT_SIZE ->
  let c := compressed_body (autoCompress r0) (bz2 r0) (prefixed r0 d) in
  exists ps t i packed, sliced E draws (default (prefixed r0 d) c) ps t i
    /\ prepared_as draws r0 (prefixed r0 d) (default (prefixed r0 d) c) (bool_decide (is_Some c)) ps t i S
    /\ status S = ADVERTISED /\ Adv.pack (advertisement E S) = Ok packed
    /\ evs = [RegisterOutgoing (default [] (hash (wire S)));
              Sent PacketType_DATA ContextType_RESOURCE_ADV packed].
Proof.
  intros Ha Hp Hd Hsmall c. unfold advertise in Ha.
  apply bind_inv in Ha as (r1 & e1 & [] & e2 & E1 & E2 & ->).
  apply (prepareSender_ok _ _ _ d) in E1 as (ps & t & i & Hs & Hpa & _ & ->); [|done..].
  rewrite bind_get in E2. destruct (negb _); [discriminate|]. unfold to_status in E2.
  rewrite bind_modify in E2. apply bind_inv in E2 as (r2 & e3 & [] & e4 & E3 & E4 & ->).
  injection E4 as <- <-. apply advertiseSegment_ok in E3 as (packed & Hpk & -> & ->).
  exists ps, t, i, packed. split; [done|]. split; [by destruct Hpa; split|]. done.
Qed.

(** ** The ciphertext and its parts *)

Definition random_lengths (draws : nat -> Draw) : Prop := forall i,
  length (iv (draws i)) = 16%nat /\ (RANDOM_HASH_SIZE <= length (salt (draws i)))%nat
  /\ (RANDOM_HASH_SIZE <= length (prefix (draws i)))%nat.

Lemma length_slice_0 n (l : bytes) : (n <= length l)%nat -> length (slice 0 n l) = n.
Proof. intros Hn. unfold slice. rewrite Nat.sub_0_r, drop_0, length_take. lia. Qed.

Lemma attempt_size t d body : length (iv d) = 16%nat -> (RANDOM_HASH_SIZE <= length (prefix d))%nat ->
  zlen (attempt_enc t d body) = 48 + 16 * ((zlen body + 4) / 16 + 1).
Proof.
  intros Hi Hp. unfold attempt_enc, Token.encrypt, zlen. rewrite !length_app, Hi, aes_cbc_length.
  unfold hmac. rewrite hmac_length, length_app, (length_slice_0 _ _ Hp). unfold RANDOM_HASH_SIZE.
  pose proof (Nat2Z.inj_div (4 + length body) 16) as Hd. change (Z.of_nat 16) with 16 in Hd.
  replace (Z.of_nat (length body) + 4) with (Z.of_nat (4 + length body)) by lia. lia.
Qed.

Lemma mapHash_length s p : length (mapHash s p) = 4%nat.
Proof. unfold mapHash. rewrite length_slice_0; [done|]. rewrite sha256_length. lia. Qed.

(** The parts are the ciphertext, in as many slices as it takes. *)
Lemma sliced_parts E draws body ps t i : sliced E draws body ps t i -> random_lengths draws -> 0 < sdu E ->
  let enc := attempt_enc t (draws i) body in
  concatBytes ps = enc /\ ps <> [] /\ (zlen ps - 1) * sdu E < zlen enc <= zlen ps * sdu E.
Proof.
  intros [Ht Hp _] Hr Hs enc. destruct (Hr i) as (Hi & _ & Hx).
  assert (Hpos : 0 < zlen enc).
  { unfold enc. rewrite attempt_size by done. pose proof (zlen_nonneg body).
    pose proof (Z.div_pos (zlen body + 4) 16). lia. }
  destruct (part_count_pos (sdu E) (zlen enc) Hs Hpos) as (k & Hk & Hk0 & Hb).
  fold enc in Hp. rewrite (slice_parts_slices _ _ k) in Hp by (done || lia). injection Hp as <-.
  assert (Hl : zlen (slices (sdu E) enc (Z.to_nat k)) = k).
  { unfold zlen, slices. rewrite length_map, length_seq. lia. }
  split; [|split].
  - apply slices_concat; [done|]. rewrite Z2Nat.id by lia. lia.
  - intros E0. rewrite E0 in Hl. unfold zlen in Hl. cbn in Hl. lia.
  - rewrite Hl. lia.
Qed.

Lemma parts_expected s n len : 0 < s -> (n - 1) * s < len <= n * s -> - ((- len) / s) = n.
Proof.
  intros Hs Hl. pose proof (Z.div_mod (- len) s ltac:(lia)). pose proof (Z.mod_pos_bound (- len) s Hs). nia.
Qed.

(** ** The sender's object *)

(** The metadata in front of the data on the wire. *)
Definition wrapped (meta : value) (d plain : bytes) : Prop :=
  match meta with
  | VNull => plain = d
  | _ => exists packed, encode meta = Ok packed /\ zlen packed <= METADATA_MAX_SIZE
           /\ plain = big_endian_24 (zlen packed) ++ packed ++ d
  end.

Definition is_null (v : value) : bool := match v with VNull => true | _ => false end.

Lemma construct_ok now d meta auto z r0 :
  construct now (Some d) meta auto z None None false false = Ok r0 ->
  prepared r0 = false /\ data (content r0) = Some d /\ bz2 r0 = z /\ autoCompress r0 = auto
  /\ kind r0 = mkKind None None false false false false false (negb (is_null meta)) 1 1
  /\ wrapped meta d (prefixed r0 d).
Proof.
  unfold construct. destruct meta; cbn [is_null negb];
    [by intros [= <-]|intros (packed & Hp & Hr)%rbind_ok;
      destruct (zlen packed >? METADATA_MAX_SIZE) eqn:Hs; [discriminate|]; injection Hr as <-;
      repeat (split; [done|]); exists packed; rewrite Z.gtb_ltb in Hs; bools;
      split; [done|]; split; [done|]; reflexivity..].
Qed.

Lemma send_resource_ok K d meta auto z P P' es : send_resource K d meta auto z P = (P', es, Ret tt) ->
  let T := transfers P in
  let a := length (objects T) in
  exists r0 S evs, construct (c_now K) (Some d) meta auto z None None false false = Ok r0
    /\ advertise (env_of K (link P)) (c_draws K) r0 = (S, evs, Ret tt)
    /\ P' = set_transfers P (fold_left (apply_event a) evs (set_objects T (objects T ++ [S])))
    /\ es = map (Obj a) evs.
Proof.
  intros Hr T a. unfold send_resource in Hr. destruct (construct _ _ _ _ _ _ _ _ _) as [r0|e] eqn:Hc; [|discriminate].
  cbn [lift_T] in Hr. erewrite bind_run in Hr by reflexivity. unfold advertise_new in Hr.
  erewrite bind_run in Hr by reflexivity. fold T a in Hr.
  destruct (advertise (env_of K (link P)) (c_draws K) r0) as [[S evs] x] eqn:Ha.
  erewrite (method_run K a) in Hr; [|cbn; unfold a; by rewrite lookup_app_r, Nat.sub_diag by lia|exact Ha].
  injection Hr as <- <- ->. exists r0, S, evs. split; [done|]. split; [done|]. split; [|done].
  cbn [transfers set_transfers objects set_objects link]. unfold set_transfers at 1 3. cbn [link]. do 2 f_equal.
  unfold a. by rewrite insert_app_r_alt, Nat.sub_diag by lia.
Qed.

(** ** The metadata prefix *)

Lemma bits24 n : 0 <= n < 2 ^ 24 ->
  Z.lor (Z.lor (Z.shiftl (Z.shiftr n 16) 16) (Z.shiftl (Z.land (Z.shiftr n 8) (Z.ones 8)) 8))
    (Z.land n (Z.ones 8)) = n.
Proof.
  intros Hn. apply Z.bits_inj'. intros i Hi.
  rewrite !Z.lor_spec, !Z.shiftl_spec, !Z.land_spec by lia.
  destruct (Z.lt_ge_cases i 8) as [H8|H8].
  - rewrite !Z.testbit_neg_r, Z.ones_spec_low, andb_true_r by lia. done.
  - rewrite (Z.ones_spec_high 8 i), andb_false_r, orb_false_r by lia.
    rewrite (Z.shiftr_spec n 8 (i - 8)) by lia. replace (i - 8 + 8) with i by lia.
    destruct (Z.lt_ge_cases i 16) as [H16|H16].
    + rewrite (Z.testbit_neg_r _ (i - 16)), Z.ones_spec_low, andb_true_r by lia. done.
    + rewrite (Z.shiftr_spec n 16 (i - 16)), (Z.ones_spec_high 8 (i - 8)), andb_false_r, orb_false_r by lia.
      f_equal. lia.
Qed.

(** The three size bytes are read as they were written. *)
Lemma prefix_size n : 0 <= n <= METADATA_MAX_SIZE ->
  match big_endian_24 n with
  | [x; y; w] => js_or (js_or (js_shl x 16) (js_shl y 8)) w = n
  | _ => False
  end.
Proof.
  unfold METADATA_MAX_SIZE. intros Hn. unfold big_endian_24, js_or, js_shl, js_shr, js_and.
  rewrite (int32_small n), (int32_small 255) by lia. change 255 with (Z.ones 8).
  assert (H1 : 0 <= Z.shiftr n 16 < 256).
  { rewrite Z.shiftr_div_pow2 by lia. split; [apply Z.div_pos; lia|apply Z.div_lt_upper_bound; lia]. }
  assert (H2 : 0 <= Z.shiftr n 8 < 65536).
  { rewrite Z.shiftr_div_pow2 by lia. split; [apply Z.div_pos; lia|apply Z.div_lt_upper_bound; lia]. }
  rewrite (int32_small (Z.shiftr n 8)), (int32_small (Z.shiftr n 16)) by lia.
  assert (H3 : forall v, 0 <= Z.land v (Z.ones 8) < 256).
  { intros v. rewrite Z.land_ones by lia. apply Z.mod_pos_bound. lia. }
  pose proof (H3 (Z.shiftr n 8)) as H4. pose proof (H3 n) as H5.
  assert (E1 : Z.shiftl (Z.shiftr n 16) 16 = Z.shiftr n 16 * 65536) by (by rewrite Z.shiftl_mul_pow2).
  assert (E2 : Z.shiftl (Z.land (Z.shiftr n 8) (Z.ones 8)) 8 = Z.land (Z.shiftr n 8) (Z.ones 8) * 256)
    by (by rewrite Z.shiftl_mul_pow2).
  rewrite !(int32_small (Z.land _ _)) by lia.
  rewrite !(int32_small (Z.shiftl _ _)) by lia.
  rewrite (int32_small (Z.lor _ _)); [apply bits24; lia|].
  enough (Hlor : 0 <= Z.lor (Z.shiftl (Z.shiftr n 16) 16) (Z.shiftl (Z.land (Z.shiftr n 8) (Z.ones 8)) 8) < 2 ^ 24) by lia.
  split; [apply Z.lor_nonneg; lia|]. apply Z.log2_lt_cancel. rewrite Z.log2_lor by lia.
  rewrite Z.log2_pow2 by lia. apply Z.max_lub_lt.
  - destruct (decide (Z.shiftl (Z.shiftr n 16) 16 = 0)) as [->|]; [done|]. apply Z.log2_lt_pow2; lia.
  - destruct (decide (Z.shiftl (Z.land (Z.shiftr n 8) (Z.ones 8)) 8 = 0)) as [->|]; [done|].
    apply Z.log2_lt_pow2; lia.
Qed.

(** What the receiver is given as metadata. *)
Definition received_metadata (meta : value) (plain : bytes) : option value :=
  match meta with
  | VNull => None
  | _ =>
      match encode meta with
      | Ok packed => match decode_view plain 3 (length packed) with Ok v => Some v | Throw _ => None end
      | Throw _ => None
      end
  end.

Lemma payload_wrapped meta d plain k : wrapped meta d plain -> hasMetadata k = negb (is_null meta) ->
  segmentIndex k = 1 -> payload plain k = (d, received_metadata meta plain).
Proof.
  intros Hw Hk Hi. unfold payload. rewrite Hk, Hi. change (1 =? 1) with true. rewrite andb_true_r.
  destruct (is_null meta) eqn:Hm; [destruct meta; try done; by cbn in *; subst|].
  assert (Hp : exists packed, encode meta = Ok packed /\ zlen packed <= METADATA_MAX_SIZE
                 /\ plain = big_endian_24 (zlen packed) ++ packed ++ d) by (by destruct meta).
  cbn [negb].
  replace (received_metadata meta plain) with (match encode meta with
      | Ok packed => match decode_view plain 3 (length packed) with Ok v => Some v | Throw _ => None end
      | Throw _ => None end) by (by destruct meta).
  destruct Hp as (packed & He & Hs & Hpl). rewrite He.
  pose proof (prefix_size (zlen packed)) as Hsize. cbv zeta.
  assert (Hb : js_or (js_or (js_shl (byte_at 0 plain) 16) (js_shl (byte_at 1 plain) 8)) (byte_at 2 plain)
               = zlen packed).
  { rewrite Hpl. apply Hsize. split; [apply zlen_nonneg|done]. }
  rewrite Hb. replace (Z.to_nat (zlen packed)) with (length packed) by (unfold zlen; lia).
  rewrite Z.gtb_ltb, (proj2 (Z.ltb_ge _ _)).
  2:{ rewrite Hpl, !zlen_app. pose proof (zlen_nonneg d).
      change (zlen (big_endian_24 _)) with 3. lia. }
  f_equal. rewrite Hpl. unfold slice_from. rewrite app_assoc. apply drop_app_length'.
  by rewrite length_app.
Qed.

(** ** A transfer *)

Definition lossless_bz2 (z : option Bz2) : Prop :=
  forall z' p c, z = Some z' -> compress z' p = Ok c -> decompress z' c (length p) = Ok p.

Lemma compressed_body_ok auto z plain c : lossless_bz2 z -> compressed_body auto z plain = Some c ->
  (length c < length plain)%nat /\ exists z', z = Some z' /\ decompress z' c (length plain) = Ok plain.
Proof.
  unfold compressed_body. intros Hz. destruct z as [z'|], auto; try discriminate.
  destruct (compress z' plain) as [c'|] eqn:Hc; [|discriminate].
  destruct (length c' <? length plain)%nat eqn:Hl; [|discriminate]. intros [= <-]. bools.
  split; [done|]. exists z'. split; [done|]. by eapply Hz.
Qed.

Lemma mtu_bounds m : 0 < (mdu m - HASHMAP_FIXED_OVERHEAD) / 4 ->
  206 <= m /\ (mdu m - HASHMAP_FIXED_OVERHEAD) / 4 <= m.
Proof.
  unfold mdu, HASHMAP_FIXED_OVERHEAD. intros Hm.
  pose proof (Z.div_mod (m - 19 - 48) 16 ltac:(lia)). pose proof (Z.mod_pos_bound (m - 19 - 48) 16 ltac:(lia)).
  set (q := (m - 19 - 48) / 16) in *. clearbody q.
  pose proof (Z.div_mod (Z.max 0 (q * 16 - 1) - 134) 4 ltac:(lia)).
  pose proof (Z.mod_pos_bound (Z.max 0 (q * 16 - 1) - 134) 4 ltac:(lia)). lia.
Qed.

(** The kind of the transfer at the receiver. *)
Definition receiver_kind (h : bytes) (comp meta : bool) : Kind :=
  mkKind (Some h) None false false comp true false meta 1 1.

Lemma take_min {A} n m (l : list A) : length l = n -> take (Nat.min n m) l = take m l.
Proof.
  intros <-. destruct (Nat.le_gt_cases (length l) m).
  - by rewrite Nat.min_l, !take_ge by lia.
  - by rewrite Nat.min_r by lia.
Qed.

(** The advertisement of a prepared object. *)
Lemma advertisement_describes E S ps s h comp meta d m0 :
  mtu E = m0 -> 0 < (mdu m0 - HASHMAP_FIXED_OVERHEAD) / 4 ->
  hashmap (wire S) = map (mapHash s) ps -> hash (wire S) = Some h -> randomHash (wire S) = s ->
  totalSize (wire S) = zlen (concatBytes ps) -> totalParts (wire S) = Z.of_nat (length ps) ->
  uncompressedSize (content S) = d ->
  kind S = mkKind None None false false comp true false meta 1 1 ->
  exists f, describes ps s h (receiver_kind h comp meta) m0 d (advertisement E S) f /\ 0 <= f < 64.
Proof.
  intros HE Hm Hhs Hh Hs Ht Hn Hd Hk.
  assert (Hmap : Adv.hashmap (advertisement E S)
    = concatBytes (take (Nat.min (length ps) (Z.to_nat ((mdu m0 - HASHMAP_FIXED_OVERHEAD) / 4)))
                     (map (mapHash s) ps))).
  { cbn [advertisement Adv.hashmap]. rewrite Hhs. unfold hashmapMaxLen. rewrite HE. f_equal.
    unfold js_slice, js_index, slice, zlen. rewrite length_map.
    set (w := _ / 4) in *. clearbody w. rewrite !(proj2 (Z.ltb_ge _ 0)) by lia.
    rewrite (Z.min_l 0), drop_0 by lia. f_equal. lia. }
  unfold advertisement. rewrite Hk. cbn [hasMetadata isResponse isRequest split compressed encrypted
    originalHash segmentIndex totalSegments requestId].
  eexists. split; [split|].
  - repeat split; cbn; by rewrite ?Ht, ?Hd, ?Hn.
  - cbn. by rewrite Hh.
  - done.
  - unfold advertisement in Hmap. exact Hmap.
  - unfold receiver_kind. cbn [Adv.original Adv.request]. rewrite Hh. by destruct comp, meta.
  - destruct comp, meta; vm_compute; split; congruence.
Qed.

Lemma described_wf ps s h k m0 d a f : describes ps s h k m0 d a f -> 0 <= f < 64 ->
  length h = 32%nat -> length s = 4%nat -> Adv.original a = h -> Adv.request a = None ->
  safe d -> safe (zlen (concatBytes ps)) -> Z.of_nat (length ps) < 2 ^ 28 ->
  wf_adv a.
Proof.
  intros [Hi Hh Hr Hm _] Hf Hlh Hls Ho Hq Hd Ht Hn.
  exists (zlen (concatBytes ps)), d, (Z.of_nat (length ps)), 1, 1, f. split; [done|]. split.
  - unfold safe, MAX_SAFE_INTEGER in *. repeat (apply Forall_cons_2; [lia|]). apply Forall_nil_2.
  - rewrite Hh, Hr, Ho, Hq, Hm. set (w := Nat.min _ _).
    assert (zlen h = 32 /\ zlen s = 4) as [Zh Zs] by (unfold zlen; lia).
    assert (Zm : zlen (concatBytes (take w (map (mapHash s) ps))) < 2 ^ 32).
    { rewrite concat4.
      - unfold zlen. rewrite length_take, length_map. lia.
      - apply Forall_take, Forall_forall. intros x (p & -> & _)%list_elem_of_fmap. apply mapHash_length. }
    do 4 (apply Forall_cons_2; [lia|]). apply Forall_cons_2; [vm_compute; done|apply Forall_nil_2].
Qed.

(** What is known of an unsplit transfer that was just advertised: the object
    [S] at the sender, the parts [ps] of the ciphertext of [pre ++ body], and
    the advertisement [packed] on its way. *)
Record launched (E : Env) (t : Token.Token) (m0 : Z) (z : option Bz2) (meta : value) (d : bytes)
    (a : nat) (A1 : Peer) (S : Resource) (ps : list bytes) (s plain pre body : bytes) (comp : bool)
    (f : Z) (packed : bytes) : Prop := {
  ln_plain : wrapped meta d plain;
  ln_small : zlen plain <= MAX_EFFICIENT_SIZE;
  ln_sender : at_sender (sha256 (plain ++ s)) t m0 A1 a S;
  ln_serving : serving ps s (sha256 (plain ++ s)) (sha256 (plain ++ sha256 (plain ++ s))) S;
  ln_parts : ps <> [];
  ln_lengths : length s = RANDOM_HASH_SIZE /\ length pre = RANDOM_HASH_SIZE;
  ln_decrypt : Token.decrypt t (concatBytes ps) = Ok (pre ++ body);
  ln_body : if comp then exists z', z = Some z' /\ decompress z' body (Z.to_nat (zlen plain)) = Ok plain
            else body = plain;
  ln_size : zlen (concatBytes ps) <= MAX_EFFICIENT_SIZE + 128;
  ln_count : (zlen ps - 1) * sdu E < zlen (concatBytes ps) <= zlen ps * sdu E;
  ln_describes : describes ps s (sha256 (plain ++ s))
                   (receiver_kind (sha256 (plain ++ s)) comp (negb (is_null meta))) m0 (zlen plain)
                   (advertisement E S) f;
  ln_flags : 0 <= f < 64;
  ln_original : Adv.original (advertisement E S) = sha256 (plain ++ s);
  ln_request : Adv.request (advertisement E S) = None;
  ln_packed : Adv.pack (advertisement E S) = Ok packed;
}.

Lemma send_launched K A A1 es d meta auto z t m0 : send_resource K d meta auto z A = (A1, es, Ret tt) ->
  idle t m0 A -> random_lengths (c_draws K) -> 0 < (mdu m0 - HASHMAP_FIXED_OVERHEAD) / 4 ->
  (forall plain, wrapped meta d plain -> zlen plain <= MAX_EFFICIENT_SIZE) -> lossless_bz2 z ->
  exists S ps s plain pre body comp f packed,
    launched (env_of K (link A)) t m0 z meta d (length (objects (transfers A))) A1 S ps s plain pre body
      comp f packed
    /\ outbound es = [(PacketType_DATA, ContextType_RESOURCE_ADV, packed)].
Proof.
  intros Hsend HA Hr Hm Hsmall Hz.
  destruct (send_resource_ok _ _ _ _ _ _ _ _ Hsend) as (r0 & S & evs & Hc & Ha & -> & ->).
  destruct (construct_ok _ _ _ _ _ _ Hc) as (Hp & Hd & Hbz & Hau & Hk & Hw).
  specialize (Hsmall _ Hw).
  destruct (advertise_ok _ _ _ _ _ _ Ha Hp Hd Hsmall) as (ps & t' & i & packed & Hsl & Hpa & Hst & Hpk & Hevs).
  rewrite Hbz, Hau in Hsl, Hpa. set (plain := prefixed r0 d) in *.
  set (c := compressed_body auto z plain) in *. set (body := default plain c) in *.
  set (E := env_of K (link A)) in *.
  destruct (mtu_bounds m0 Hm) as [Hm1 Hm2].
  assert (HE : mtu E = m0) by apply HA.
  assert (Hs0 : 0 < sdu E) by (unfold sdu; rewrite HE; unfold HEADER_MAX_SIZE, IFAC_MIN_SIZE; lia).
  destruct (sliced_parts _ _ _ _ _ _ Hsl Hr Hs0) as (Hcat & Hne & Hcnt).
  assert (t' = t) as ->.
  { pose proof (sl_token _ _ _ _ _ _ Hsl) as Ht. pose proof (id_token _ _ _ HA) as Ht'. cbn in Ht. congruence. }
  destruct (Hr i) as (Hi & Hsa & Hpr).
  destruct Hpa as [Hwire Hkind Hsize]. rewrite Hk in Hkind.
  set (s := attempt_salt (c_draws K i)) in *.
  assert (Hbody : zlen body <= zlen plain).
  { unfold body. destruct c as [c'|] eqn:Hcc; [|cbn; lia]. apply compressed_body_ok in Hcc as [Hl _]; [|done].
    unfold zlen. cbn. lia. }
  destruct (advertisement_describes E S ps s (sha256 (plain ++ s)) (bool_decide (is_Some c)) (negb (is_null meta))
              (zlen plain) m0 HE Hm) as (f & Hdesc & Hf).
  1-6: first [by rewrite Hwire|by rewrite Hwire, Hcat|idtac].
  all: try done.
  exists S, ps, s, plain, (slice 0 RANDOM_HASH_SIZE (prefix (c_draws K i))), body, (bool_decide (is_Some c)), f, packed.
  assert (Hhash : hash (wire S) = Some (sha256 (plain ++ s))) by (by rewrite Hwire).
  split; [split; try done|].
  - rewrite Hevs. split; cbn; [apply HA| | |apply HA|apply HA].
    + by rewrite lookup_app_r, Nat.sub_diag by lia.
    + rewrite Hhash. apply get_mset_same.
  - split; try done; by rewrite ?Hwire, ?Hkind.
  - split; by apply length_slice_0.
  - rewrite Hcat. unfold attempt_enc. by apply Token.decrypt_encrypt.
  - unfold body. destruct c as [c'|] eqn:Hcc; [|done]. rewrite bool_decide_true by done.
    apply compressed_body_ok in Hcc as (_ & z' & Hz' & Hdz); [|done]. exists z'. split; [done|].
    unfold zlen. by rewrite Nat2Z.id.
  - rewrite Hcat, attempt_size by done. pose proof (Z.div_mod (zlen body + 4) 16 ltac:(lia)).
    pose proof (Z.mod_pos_bound (zlen body + 4) 16 ltac:(lia)). lia.
  - by rewrite Hcat.
  - cbn. by rewrite Hkind, Hhash.
  - cbn. by rewrite Hkind.
  - by rewrite Hevs.
Qed.

(** ** Completion *)

Lemma deliver_possible z N : flight N <> [] -> exists N', deliver z N N'.
Proof.
  destruct N as [A B [|[[pt ctx] m] l]]; cbn [flight]; [done|intros _].
  set (K := mkConfig 0 true [] z None [] (fun _ => mkDraw [] [] [])).
  destruct (for_sender ctx) eqn:Hc.
  - destruct (turn K (dispatch K ctx m) A) as [[A' es] x] eqn:Ht.
    exists (mkNet A' B ([] ++ l ++ outbound es)). by eapply (Deliver_sender z K A B [] pt ctx m l).
  - destruct (turn K (dispatch K ctx m) B) as [[B' es] x] eqn:Ht.
    exists (mkNet A B' ([] ++ l ++ outbound es)). by eapply (Deliver_receiver z K A B [] pt ctx m l).
Qed.

Section Run.
Context (E : Env) (t : Token.Token) (m0 : Z) (z : option Bz2) (meta : value) (d : bytes) (a : nat).
Context (A1 B : Peer) (S : Resource) (ps : list bytes) (s plain pre body : bytes) (comp : bool).
Context (f : Z) (packed : bytes).
Hypothesis HL : launched E t m0 z meta d a A1 S ps s plain pre body comp f packed.
Hypothesis HB : idle t m0 B.
Hypothesis Hm : 0 < (mdu m0 - HASHMAP_FIXED_OVERHEAD) / 4.
Hypothesis HE : mtu E = m0.
Hypothesis Hnd : NoDup (map (mapHash s) ps).

Let h := sha256 (plain ++ s).
Let k0 := receiver_kind h comp (negb (is_null meta)).
Let started := mkNet A1 B [(PacketType_DATA, ContextType_RESOURCE_ADV, packed)].
Let in_phase := phase ps s h (sha256 (plain ++ h)) plain body t k0 m0 a (length (objects (transfers B))).

Lemma part_numbers : 0 < m0 - HEADER_MAX_SIZE - IFAC_MIN_SIZE /\ 1 <= zlen ps <= 8192
  /\ zlen ps <= zlen (concatBytes ps)
  /\ - ((- zlen (concatBytes ps)) / (m0 - HEADER_MAX_SIZE - IFAC_MIN_SIZE)) = zlen ps.
Proof.
  destruct (mtu_bounds m0 Hm) as [Hm1 _]. pose proof (ln_count _ _ _ _ _ _ _ _ _ _ _ _ _ _ _ _ _ HL) as Hc.
  pose proof (ln_size _ _ _ _ _ _ _ _ _ _ _ _ _ _ _ _ _ HL) as Hs. unfold MAX_EFFICIENT_SIZE in Hs.
  unfold sdu in Hc. rewrite HE in Hc. set (x := m0 - HEADER_MAX_SIZE - IFAC_MIN_SIZE) in *.
  assert (Hx : 170 <= x) by (unfold x, HEADER_MAX_SIZE, IFAC_MIN_SIZE; lia). clearbody x.
  assert (Hn : 1 <= zlen ps).
  { pose proof (ln_parts _ _ _ _ _ _ _ _ _ _ _ _ _ _ _ _ _ HL). destruct ps; [done|].
    unfold zlen. cbn [length]. lia. }
  split; [lia|]. split; [nia|]. split; [nia|]. apply parts_expected; [lia|done].
Qed.

Lemma map_hashes_4 : Forall (fun x => length x = 4%nat) (map (mapHash s) ps).
Proof. apply Forall_forall. intros x (p & -> & _)%list_elem_of_fmap. apply mapHash_length. Qed.

Lemma hash_lengths : length h = 32%nat /\ length (sha256 (plain ++ h)) = 32%nat.
Proof. split; apply sha256_length. Qed.

Lemma parts_small : Z.of_nat (length ps) < 2 ^ 28.
Proof. destruct part_numbers as (_ & Hn & _). unfold zlen in Hn. lia. Qed.

Lemma run_step N N' m : in_phase N m -> deliver z N N' -> exists m', (m' < m)%nat /\ in_phase N' m'.
Proof.
  apply (phase_step ps s h (sha256 (plain ++ h)) plain pre body t k0 Hnd eq_refl eq_refl hash_lengths
           (proj2 (ln_lengths _ _ _ _ _ _ _ _ _ _ _ _ _ _ _ _ _ HL))
           (ln_decrypt _ _ _ _ _ _ _ _ _ _ _ _ _ _ _ _ _ HL) map_hashes_4 parts_small m0 Hm z).
Qed.

Lemma run_start N' : deliver z started N' -> exists m, (m < 4 * length ps)%nat /\ in_phase N' m.
Proof.
  intros HD. apply deliver_only in HD as (K & es & x & HK & B' & Ht & ->).
  destruct HL. destruct part_numbers as (P1 & P2 & P3 & P4). unfold zlen in P2, P4 at 2.
  destruct (advertisement_roundtrip (advertisement E S)) as (e & He & Hu).
  { eapply described_wf; try done; try apply ln_lengths0; try apply sha256_length.
    - unfold safe, MAX_SAFE_INTEGER, MAX_EFFICIENT_SIZE in *. pose proof (zlen_nonneg plain). lia.
    - unfold safe, MAX_SAFE_INTEGER, MAX_EFFICIENT_SIZE in *. pose proof (zlen_nonneg (concatBytes ps)). lia.
    - apply parts_small. }
  assert (e = packed) as -> by congruence.
  refine (step_advertisement ps s h (sha256 (plain ++ h)) plain pre body t k0 ln_parts0 Hnd hash_lengths
           (proj2 ln_lengths0) ln_decrypt0 map_hashes_4 parts_small m0 Hm z (zlen plain) ln_body0
           _ _ _ K A1 B a S (advertisement E S) f packed B' es x HK ln_sender0 ln_serving0 HB Hu ln_describes0 Ht).
  - done.
  - unfold DEFAULT_MAX_SIZE, DEFAULT_MAX_PARTS, MAX_EFFICIENT_SIZE, zlen in *. lia.
  - split; [done|]. rewrite P4. lia.
Qed.

(** Every run is at the start or in a phase, and each delivery lowers the
    number of those to come. *)
Lemma run_invariant k N : nsteps (deliver z) k started N ->
  k = 0%nat /\ N = started \/ exists m, (k + m < 4 * length ps + 1)%nat /\ in_phase N m.
Proof.
  revert N. induction k as [|k IH]; intros N Hk.
  - inversion Hk; subst. by left.
  - apply nsteps_inv_r in Hk as (N1 & Hk & Hd). right. destruct (IH N1 Hk) as [[-> ->]|(m & Hi & Hp)].
    + destruct (run_start _ Hd) as (m & Hm' & Hp). exists m. split; [lia|done].
    + destruct (run_step _ _ _ Hp Hd) as (m' & Hm' & Hp'). exists m'. split; [lia|done].
Qed.

End Run.

(** C2: A payload that fits one segment, with or without metadata, is always
    transferred: once the sender has advertised it, the messages of the
    transfer may be delivered in any order and at any time, and whatever the
    order, at most four deliveries per part happen, a delivery is possible as
    long as a message is in flight, and when none is, the sender's object and
    the receiver's are COMPLETE and the receiver's carries exactly the data and
    the metadata that were sent.  The packets are accepted by the transport,
    the compressor inverts what it compresses, and the map hashes of the parts
    differ. *)
Theorem transfer_completes (K : Config) (A B A1 : Peer) (es : list effect) (d : bytes) (meta : value)
    (auto : bool) (z : option Bz2) (t : Token.Token) (m0 : Z)
    (HA : idle t m0 A) (HB : idle t m0 B) (Hr : random_lengths (c_draws K))
    (Hm : 0 < (mdu m0 - HASHMAP_FIXED_OVERHEAD) / 4)
    (Hsmall : forall plain, wrapped meta d plain -> zlen plain <= MAX_EFFICIENT_SIZE)
    (Hz : lossless_bz2 z)
    (Hsend : send_resource K d meta auto z A = (A1, es, Ret tt))
    (Hdistinct : forall S, objects (transfers A1) !! length (objects (transfers A)) = Some S ->
       NoDup (hashmap (wire S))) :
  exists S plain,
    objects (transfers A1) !! length (objects (transfers A)) = Some S /\ wrapped meta d plain
    /\ forall k N, nsteps (deliver z) k (mkNet A1 B (outbound es)) N ->
       (k <= 4 * length (parts (wire S)))%nat
       /\ (flight N <> [] -> exists N', deliver z N N')
       /\ (flight N = [] -> exists S' R,
             objects (transfers (n_sender N)) !! length (objects (transfers A)) = Some S'
             /\ status S' = COMPLETE
             /\ objects (transfers (n_receiver N)) !! length (objects (transfers B)) = Some R
             /\ status R = COMPLETE /\ data (content R) = Some d
             /\ metadata (content R) = received_metadata meta plain).
Proof.
  destruct (send_launched _ _ _ _ _ _ _ _ _ _ Hsend HA Hr Hm Hsmall Hz)
    as (S & ps & s & plain & pre & body & comp & f & packed & HL & ->).
  pose proof (ln_serving _ _ _ _ _ _ _ _ _ _ _ _ _ _ _ _ _ HL) as HS.
  pose proof (as_object _ _ _ _ _ _ (ln_sender _ _ _ _ _ _ _ _ _ _ _ _ _ _ _ _ _ HL)) as Ho.
  pose proof (ln_plain _ _ _ _ _ _ _ _ _ _ _ _ _ _ _ _ _ HL) as Hw.
  assert (HE : mtu (env_of K (link A)) = m0) by apply HA.
  assert (Hnd : NoDup (map (mapHash s) ps)).
  { rewrite <- (sv_hashmap _ _ _ _ _ HS). by apply Hdistinct. }
  exists S, plain. split; [done|]. split; [done|]. intros k N Hk.
  destruct (run_invariant _ _ _ _ _ _ _ _ _ _ _ _ _ _ _ _ _ _ HL HB Hm HE Hnd k N Hk)
    as [[-> ->]|(m & Hkm & Hp)].
  - split; [lia|]. split; [intros _; by apply deliver_possible|done].
  - rewrite (sv_parts _ _ _ _ _ HS), length_map. split; [lia|].
    split; [by apply deliver_possible|]. intros Hf. destruct N as [A2 B2 fl]. cbn in Hf. subst fl.
    destruct (phase_end _ _ _ _ _ _ _ _ _ _ _ _ _ _ Hp) as (S2 & R2 & Ho2 & Hst & [Hr2 [Hc Hd2 Hm2] _]).
    exists S2, R2. rewrite (payload_wrapped meta d) in Hd2, Hm2 by done. done.
Qed.

End Sending.

(** ** Concrete transfers *)

Import Toy.
Import MsgPackSpec.Host.

Definition sample_draws (i : nat) : Draw := mkDraw (replicate 16 7) (replicate 16 8) (replicate 16 9).

Definition sample_config (now : Z) : Config := mkConfig now true (replicate 16 5) None None [] sample_draws.

Definition sample_peer (l : Link) : Peer := mkPeer l no_transfers.

Definition sample_data : bytes := map (fun i => Z.of_nat i mod 251) (seq 0 500).

Definition sample_sent : Peer * list effect * outcome unit := Eval vm_compute in
  send_resource (sample_config 1000) sample_data (VInt 5) true None (sample_peer sample_A).

Definition sample_sender : Peer := Eval vm_compute in fst (fst sample_sent).
Definition sample_effects : list effect := Eval vm_compute in snd (fst sample_sent).

Lemma sample_idle l : token (keys l) = Some sample_token -> Link.mtu l = 500 ->
  idle sample_token 500 (sample_peer l).
Proof. by intros. Qed.

Lemma transfer_completes_witness :
  exists S plain, objects (transfers sample_sender) !! 0%nat = Some S
    /\ forall k N, nsteps (deliver None) k (mkNet sample_sender (sample_peer sample_B) (outbound sample_effects)) N ->
       (k <= 4 * length (parts (wire S)))%nat
       /\ (flight N = [] -> exists R, objects (transfers (n_receiver N)) !! 0%nat = Some R
             /\ data (content R) = Some sample_data
             /\ metadata (content R) = received_metadata (VInt 5) plain).
Proof.
  destruct (@transfer_completes toy_crypto no_exotic toy_laws (sample_config 1000) (sample_peer sample_A)
    (sample_peer sample_B) sample_sender sample_effects sample_data (VInt 5) true None sample_token 500)
    as (S & plain & Ho & _ & Hrun).
  - by apply sample_idle.
  - by apply sample_idle.
  - intros i. vm_compute. lia.
  - vm_compute. reflexivity.
  - intros plain (packed & He & _ & ->). vm_compute in He. injection He as <-. vm_compute. discriminate.
  - intros z' p c Hz. discriminate.
  - vm_compute. reflexivity.
  - intros S HS. vm_compute in HS. injection HS as <-. apply (bool_decide_unpack _). vm_compute. exact I.
  - exists S, plain. split; [exact Ho|]. intros k N Hk. destruct (Hrun k N Hk) as (H1 & _ & H3).
    split; [exact H1|]. intros Hf. destruct (H3 Hf) as (S' & R & _ & _ & H4 & _ & H5 & H6).
    exists R. by split.
Defined.

(** The metadata of that transfer is received as it was given. *)
Example sample_metadata_received :
  received_metadata (VInt 5) (big_endian_24 1 ++ [5] ++ sample_data) = Some (VInt 5).
Proof. vm_compute. reflexivity. Qed.
