(* ===== verification/TransferLife.v ===== *)
(** * TransferLife: bounds, authenticity and the end of transfers

    What a peer can make a receiver accept ([accept_bounded]), that the promises
    are served with the fuel given ([drain_enough]), and what a transfer that
    became complete has proved, under any interleaving of what happens to it
    with its own assembly, which waits at its awaits ([received_authentic]). *)

From Stdlib Require Import QArith Qminmax.
From S2P Require Import Prelude Encoding JsMap Utf8 MsgPack MsgPackSpec Packet Crypto Identity.
From S2P Require Import Link LinkTraffic Resource Transfers ResourceWire ResourceSpec TransferSpec.
#[local] Open Scope Z_scope.

Section Life.
Context `{C : WebCrypto} `{H : JsHost}.

(** ** Serving promises *)

(** A handler that leaves the waiters as they are. *)
Definition keeps {A} (m : TM A) : Prop := forall P P' es x,
  m P = (P', es, x) -> waiters (transfers P') = waiters (transfers P).

Lemma keeps_ret {A} (a : A) : keeps (mret a).
Proof. by intros P P' es x [= <- _ _]. Qed.

Lemma keeps_bind {A B} (m : TM A) (k : A -> TM B) : keeps m -> (forall a, keeps (k a)) -> keeps (m ≫= k).
Proof.
  intros Hm Hk P P' es x. unfold mbind, TM_bind.
  destruct (m P) as [[P1 e1] [a|e| |]] eqn:E1; [|by intros [= <- _ _]; eapply Hm..].
  destruct (k a P1) as [[P2 e2] y] eqn:E2. intros [= <- _ _].
  rewrite (Hk _ _ _ _ _ E2). by eapply Hm.
Qed.

Lemma keeps_peer : keeps peer.
Proof. by intros P P' es x [= <- _ _]. Qed.

Lemma keeps_change f : (forall T, waiters (f T) = waiters T) -> keeps (Transfers.change f).
Proof. intros Hf P P' es x [= <- _ _]. apply Hf. Qed.

Lemma keeps_put_link l : keeps (put_link l).
Proof. by intros P P' es x [= <- _ _]. Qed.

Lemma keeps_effects l : keeps (effects l).
Proof. by intros P P' es x [= <- _ _]. Qed.

Lemma keeps_raise {A} e : keeps (@raise_T A e).
Proof. by intros P P' es x [= <- _ _]. Qed.

Lemma keeps_outside {A} : keeps (@outside A).
Proof. by intros P P' es x [= <- _ _]. Qed.

Lemma keeps_lift {A} (r : result A) : keeps (lift_T r).
Proof. destruct r; [apply keeps_ret|apply keeps_raise]. Qed.

Lemma keeps_catch m k : keeps m -> (forall e, keeps (k e)) -> keeps (catch_T m k).
Proof.
  intros Hm Hk P P' es x. unfold catch_T.
  destruct (m P) as [[P1 e1] [a|e| |]] eqn:E1; try (intros [= <- _ _]; by eapply Hm).
  destruct (k e P1) as [[P2 e2] y] eqn:E2. intros [= <- _ _].
  rewrite (Hk _ _ _ _ _ E2). by eapply Hm.
Qed.

Lemma fold_event_waiters a evs T : waiters (fold_left (apply_event a) evs T) = waiters T.
Proof.
  revert T. induction evs as [|e evs IH]; intros T; [done|]. cbn [fold_left]. rewrite IH. by destruct e.
Qed.

Lemma keeps_on_object {A} a (m : M A) : keeps (on_object a m).
Proof.
  intros P P' es x. unfold on_object. destruct (objects (transfers P) !! a) as [r|]; [|by intros [= <- _ _]].
  destruct (m r) as [[r' evs] y]. intros [= <- _ _]. cbn. by rewrite fold_event_waiters.
Qed.

Lemma keeps_create r : keeps (create r).
Proof. by intros P P' es x [= <- _ _]. Qed.

Lemma keeps_each l k : (forall a, keeps (k a)) -> keeps (each l k).
Proof. intros Hk. induction l; cbn [each]; [apply keeps_ret|by apply keeps_bind]. Qed.
End Life.

Create HintDb keeps.
#[local] Hint Resolve keeps_ret keeps_bind keeps_peer keeps_change keeps_put_link keeps_effects keeps_raise
  keeps_outside keeps_lift keeps_catch keeps_on_object keeps_create keeps_each : keeps.

(** Splits a handler along its binds and tests. *)
Ltac keeps :=
  repeat (intros; first [progress eauto 2 with keeps nocore | apply keeps_bind | apply keeps_catch | apply keeps_each
                        | apply keeps_change; done | case_match]).

Section Life2.
Context `{C : WebCrypto} `{H : JsHost}.

Lemma keeps_method {A} K a (m : Env -> M A) : keeps (method K a m).
Proof. unfold method. keeps. Qed.

#[local] Hint Resolve keeps_method : keeps.

Lemma keeps_advertise_new K r : keeps (advertise_new K r).
Proof. unfold advertise_new. keeps. Qed.

#[local] Hint Resolve keeps_advertise_new : keeps.

Lemma keeps_on_link_events K es : keeps (on_link_events K es).
Proof.
  assert (He : forall e, keeps (on_link_event K e)).
  { intros e. unfold on_link_event, respond_resource, cancel_responses, close_transfers, object. keeps. }
  induction es; cbn [on_link_events]; keeps.
Qed.

#[local] Hint Resolve keeps_on_link_events : keeps.

Lemma keeps_through_link K x : keeps (through_link K x).
Proof. unfold through_link. keeps. Qed.

#[local] Hint Resolve keeps_through_link : keeps.

Lemma keeps_settle_waiters K a ok ws : keeps (settle_waiters K a ok ws).
Proof.
  assert (Hq : forall b, keeps (_handleResourceRequest K b)) by (unfold _handleResourceRequest, object; keeps).
  assert (Hr : forall b, keeps (_handleResourceResponse K b)) by (unfold _handleResourceResponse, object; keeps).
  assert (Hc : forall b, keeps (route_complete K b)) by (unfold route_complete, object, logged; keeps).
  assert (Hf : forall key b, keeps (segment_failed K key b)) by (unfold segment_failed, object; keeps).
  induction ws as [|w ws IH]; cbn [settle_waiters]; [keeps|]. apply keeps_bind; [|done].
  unfold settle_waiter, logged, add_segment, object. keeps.
Qed.

Lemma filter_ne_length {B} (l : list (nat * B)) a :
  map snd (filter (fun w => fst w = a) l) <> [] -> (length (filter (fun w => fst w <> a) l) < length l)%nat.
Proof.
  induction l as [|[b w] l IH]; [done|]. intros Hne. cbn [length].
  destruct (decide (b = a)) as [->|Hb].
  - rewrite filter_cons_False by (cbn; tauto). pose proof (length_filter (fun w => fst w <> a) l). lia.
  - rewrite filter_cons_False in Hne by done. rewrite filter_cons_True by done. cbn [length].
    apply IH in Hne. lia.
Qed.

Lemma skip_idle_head T queue a ok rest : skip_idle T queue = (a, ok) :: rest -> waiting T a <> [].
Proof.
  induction queue as [|[b o] queue IH]; cbn [skip_idle]; [done|].
  destruct (waiting T b) eqn:E; [done|]. intros [= <- _ _]. by rewrite E.
Qed.

Lemma drain_fuel K f g queue P : (length (waiters (transfers P)) <= f)%nat ->
  (length (waiters (transfers P)) <= g)%nat -> drain f K queue P = drain g K queue P.
Proof.
  revert g queue P. induction f as [|f IH]; intros g queue P Hf Hg;
    destruct (skip_idle (transfers P) queue) as [|[a ok] rest] eqn:Hs.
  1, 3: destruct g; cbn [drain]; by rewrite Hs.
  all: pose proof (skip_idle_head _ _ _ _ _ Hs) as Hn; apply filter_ne_length in Hn.
  { lia. }
  destruct g as [|g]; [lia|]. cbn [drain]. rewrite Hs.
  destruct (@mbind TM _ _ _ _ _ P) as [[P2 e2] [u|e| |]] eqn:E; try done.
  assert (Hw : waiters (transfers P2) = filter (fun w => fst w <> a) (waiters (transfers P))).
  { unfold mbind, TM_bind, Transfers.change in E.
    destruct (settle_waiters K a ok (waiting (transfers P) a) _) as [[P3 e3] y] eqn:E3.
    injection E as <- _ _. by rewrite (keeps_settle_waiters _ _ _ _ _ _ _ _ E3). }
  rewrite <- Hw in Hn. by rewrite (IH g) by lia.
Qed.

(** The promises that a handler settles are all served with as much fuel
    as there are waiters: more fuel gives the same state, effects and outcome,
    and only a waiter's own handler can fail to return. *)
Theorem drain_enough (K : Config) (f : nat) (queue : list (nat * bool)) (P : Peer)
    (Hf : (length (waiters (transfers P)) <= f)%nat) :
  drain f K queue P = drain (length (waiters (transfers P))) K queue P.
Proof. by apply drain_fuel. Qed.
End Life2.

(** ** What a receiver accepts *)

Section Accept.
Context `{C : WebCrypto} `{H : JsHost}.

(** An accepted advertisement bounds what the receiver allocates, whatever
    its numbers are: the slots are at most [maxParts], at most the transfer's
    bytes and at most one more than the link's SDU asks for, both sizes are
    under the cap and segment numbers are consistent; nothing is received yet.
    Otherwise the only thing that happens is a rejection of the same hash. *)
Theorem accept_bounded (E : Env) (z : option Bz2) (lw : option Z) (lim : Limits) (m : bytes)
    (es : list event) (o : option Resource) (Ha : accept E z lw lim m = Some (es, Ok o)) :
  match o with
  | Some r =>
      exists h, es = [RegisterIncoming h] /\ hash (wire r) = Some h /\ status r = TRANSFERRING
      /\ zlen (parts (wire r)) = totalParts (wire r) /\ Forall (fun p => p = None) (parts (wire r))
      /\ 0 < totalParts (wire r) <= Z.min (maxParts lim) (totalSize (wire r))
      /\ (0 < sdu E -> totalParts (wire r) <= - ((- totalSize (wire r)) / sdu E) + 1)
      /\ totalSize (wire r) <= maxSize lim /\ uncompressedSize (content r) <= maxSize lim
      /\ (1 < totalSegments (kind r) ->
          1 <= segmentIndex (kind r) <= totalSegments (kind r) /\ totalSegments (kind r) <= maxSegments lim)
  | None => exists h, es = [Sent PacketType_DATA ContextType_RESOURCE_RCL h]
  end.
Proof.
  revert Ha. unfold accept, _sendReject. repeat case_match; try discriminate; intros Ha.
  1-2: injection Ha as <-; destruct (accepts _ _ _); [|discriminate]; simplify_eq; by eexists.
  injection Ha as <- <-. exists (Adv.hash a). do 3 (split; [reflexivity|]).
  unfold bad_segments, part_count_insane in *. bools.
  unfold incoming. cbn [wire parts totalParts totalSize content uncompressedSize kind totalSegments segmentIndex].
  assert (Hex : 0 < sdu E -> n1 <= - ((- n) / sdu E) + 1).
  { intros Hs. rewrite (proj2 (Z.ltb_lt 0 (sdu E))) in H12 by done.
    assert (0 < - ((- n) / sdu E)).
    { pose proof (Z.div_mod (- n) (sdu E) ltac:(lia)). pose proof (Z.mod_pos_bound (- n) (sdu E) Hs). nia. }
    lia. }
  clear H12. split; [unfold zlen; rewrite length_replicate; lia|].
  split; [apply Forall_replicate; done|]. lia.
Qed.
End Accept.

(** ** Invariants of a single object *)

Section Stable.
Context (Inv : Resource -> list event -> Prop).

(** A method that keeps [Inv], of the object and the events so far, however it
    ends. *)
Definition stable {A} (m : M A) : Prop := forall r r' evs e x,
  Inv r evs -> m r = (r', e, x) -> Inv r' (evs ++ e).

Lemma stable_ret {A} (a : A) : stable (mret a).
Proof. intros r r' evs e x Hr [= <- <- _]. by rewrite app_nil_r. Qed.

Lemma stable_get : stable Resource.get.
Proof. intros r r' evs e x Hr [= <- <- _]. by rewrite app_nil_r. Qed.

Lemma stable_raise {A} e : stable (@raise A e).
Proof. intros r r' evs es x Hr [= <- <- _]. by rewrite app_nil_r. Qed.

Lemma stable_lift {A} (x : result A) : stable (lift x).
Proof. destruct x; [apply stable_ret|apply stable_raise]. Qed.

Lemma stable_emit e : (forall r evs, Inv r evs -> Inv r (evs ++ [e])) -> stable (emit e).
Proof. intros He r r' evs es x Hr [= <- <- _]. by apply He. Qed.

Lemma stable_modify f : (forall r evs, Inv r evs -> Inv (f r) evs) -> stable (modify f).
Proof. intros Hf r r' evs e x Hr [= <- <- _]. rewrite app_nil_r. by apply Hf. Qed.

Lemma stable_send E pt ctx p : (forall r evs, Inv r evs -> Inv r (evs ++ [Sent pt ctx p])) ->
  stable (link_send E pt ctx p).
Proof. intros He. unfold link_send. case_match; [by apply stable_emit|apply stable_raise]. Qed.

Lemma stable_bind {A B} (m : M A) (k : A -> M B) : stable m -> (forall a, stable (k a)) -> stable (m ≫= k).
Proof.
  intros Hm Hk r r' evs e x Hr. unfold mbind, M_bind.
  destruct (m r) as [[r1 e1] [a|er| |]] eqn:E1; [|by intros [= <- <- _]; eapply Hm..].
  destruct (k a r1) as [[r2 e2] y] eqn:E2. intros [= <- <- _].
  rewrite app_assoc. eapply Hk; [|exact E2]. by eapply Hm.
Qed.

Lemma stable_catch {A} (m k : M A) : stable m -> stable k -> stable (catch m k).
Proof.
  intros Hm Hk r r' evs e x Hr. unfold catch.
  destruct (m r) as [[r1 e1] [a|er| |]] eqn:E1; try (intros [= <- <- _]; by eapply Hm).
  destruct (k r1) as [[r2 e2] y] eqn:E2. intros [= <- <- _].
  rewrite app_assoc. eapply Hk; [|exact E2]. by eapply Hm.
Qed.

Lemma stable_attempt m : stable m -> stable (attempt m).
Proof.
  intros Hm r r' evs e x Hr. unfold attempt. destruct (m r) as [[r1 e1] y] eqn:E1.
  intros Hx. assert (r' = r1 /\ e = e1) as [-> ->] by (by destruct y; injection Hx). by eapply Hm.
Qed.

End Stable.

Create HintDb stable.
#[local] Hint Resolve stable_ret stable_get stable_raise stable_lift stable_bind stable_catch stable_attempt : stable.

Ltac stable :=
  repeat (intros; first [progress eauto 2 with stable nocore | apply stable_bind | apply stable_catch | case_match]).

(** ** A receiver's transfer *)

Section Receiver.
Context `{C : WebCrypto} `{H : JsHost}.

(** What can happen to an object in the incoming registry: [RxResume] is the
    end of what a started assembly waits for. *)
Inductive rx_op :=
| RxPart (chunk : bytes)
| RxResume
| RxMore (body : bytes)
| RxNext
| RxTick
| RxCancel
| RxIncomingCancel
| RxLinkClosed.

(** The operation, and the assembly that waits after it; [a] is the one that
    waited before. *)
Definition rx_run (E : Env) (o : rx_op) (a : option Assembly) : M (option Assembly) :=
  match o with
  | RxPart chunk =>
      '(_, started) ← receivePart_start E chunk;
      mret (match started with Some _ => started | None => a end)
  | RxResume => match a with Some s => assemble_resume E s | None => mret None end
  | RxMore body => hashmapUpdate E body ;; mret a
  | RxNext => requestNext E ;; mret a
  | RxTick => _watchdogTick E ;; mret a
  | RxCancel => cancel E ;; mret a
  | RxIncomingCancel => handleIncomingCancel ;; mret a
  | RxLinkClosed => _linkClosed ;; mret a
  end.

(** A sequence of operations; exceptions end the operation only. *)
Fixpoint rx_runs (a : option Assembly) (ops : list (Env * rx_op)) (r : Resource) : Resource * list event :=
  match ops with
  | [] => (r, [])
  | (E, o) :: ops =>
      let '(r1, e1, x) := rx_run E o a r in
      let '(r2, e2) := rx_runs (match x with Ret a => a | _ => a end) ops r1 in
      (r2, e1 ++ e2)
  end.

Section Fixed.
Context (h s : bytes) (k : Kind).

Definition proof_event (plain : bytes) : event :=
  Sent PacketType_PROOF ContextType_RESOURCE_PRF (h ++ sha256 (plain ++ h)).

(** A proof is only sent for a plaintext with the advertised hash. *)
Definition honest (e : event) : Prop := forall b,
  e = Sent PacketType_PROOF ContextType_RESOURCE_PRF b -> exists plain, sha256 (plain ++ s) = h /\ e = proof_event plain.

(** The object holds [d], unless a failure took it away. *)
Definition holds (d : bytes) (r : Resource) (evs : list event) : Prop :=
  data (content r) = Some d \/ data (content r) = None /\ In Failed evs.

(** What is known while an assembly waits. *)
Definition pending_ok (a : Assembly) (r : Resource) (evs : list event) : Prop :=
  match a with
  | AsmDecrypt _ | AsmCancel => True
  | AsmHash plain recomputed => recomputed = sha256 (plain ++ s)
  | AsmProof plain fullProof =>
      sha256 (plain ++ s) = h /\ fullProof = sha256 (plain ++ h) /\ holds plain r evs
  | AsmSend plain sent =>
      sha256 (plain ++ s) = h /\ (sent = Ok tt -> In (proof_event plain) evs) /\ holds plain r evs
  end.

Record life (a : option Assembly) (r : Resource) (evs : list event) : Prop := {
  lf_hash : hash (wire r) = Some h;
  lf_random : randomHash (wire r) = s;
  lf_kind : kind r = k;
  lf_honest : Forall honest evs;
  lf_meta : status r = TRANSFERRING \/ status r = ASSEMBLING \/ a <> None -> metadata (content r) = None;
  lf_parts : a <> None -> Forall is_Some (parts (wire r));
  lf_waiting : match a with Some w => pending_ok w r evs | None => True end;
  lf_complete : status r = COMPLETE -> a = None /\ exists plain,
    sha256 (plain ++ s) = h /\ In (proof_event plain) evs
    /\ holds (fst (payload plain k)) r evs /\ metadata (content r) = snd (payload plain k);
}.

Lemma holds_more d r evs e : holds d r evs -> holds d r (evs ++ e).
Proof. intros [?|[? ?]]; [by left|right]. split; [done|]. apply in_or_app. by left. Qed.

Lemma pending_more w r evs e : pending_ok w r evs -> pending_ok w r (evs ++ e).
Proof.
  destruct w; cbn; try done; intros (W1 & W2 & W3); (split; [done|]; split; [|by apply holds_more]); [done|].
  intros Hs. apply in_or_app. left. auto.
Qed.

(** Events other than proofs change nothing. *)
Lemma life_more a r evs e : (forall b, e <> Sent PacketType_PROOF ContextType_RESOURCE_PRF b) ->
  life a r evs -> life a r (evs ++ [e]).
Proof.
  intros Hn [L1 L2 L3 L4 L5 L6 L7 L8]. split; try done.
  - apply Forall_app. split; [done|]. apply Forall_singleton. intros b Hb. by destruct (Hn b).
  - destruct a; [|done]. by apply pending_more.
  - intros Hc. destruct (L8 Hc) as (Ha & plain & P1 & P2 & P3 & P4). split; [done|]. exists plain. split; [done|].
    split; [apply in_or_app; by left|]. split; [by apply holds_more|done].
Qed.

(** Bookkeeping touches neither the status, the identity, the parts nor the
    content. *)
Definition frame (f : Resource -> Resource) : Prop := forall r,
  status (f r) = status r /\ hash (wire (f r)) = hash (wire r) /\ randomHash (wire (f r)) = randomHash (wire r)
  /\ kind (f r) = kind r /\ content (f r) = content r /\ parts (wire (f r)) = parts (wire r).

Lemma stable_frame a f : frame f -> stable (life a) (modify f).
Proof.
  intros Hf. apply stable_modify. intros r evs [L1 L2 L3 L4 L5 L6 L7 L8].
  destruct (Hf r) as (E1 & E2 & E3 & E4 & E5 & E6). split; rewrite ?E1, ?E2, ?E3, ?E4, ?E5, ?E6; try done.
  - destruct a as [[]|]; cbn in L7 |- *; unfold holds in *; by rewrite ?E5.
  - intros Hc. destruct (L8 Hc) as (Ha & plain & P). split; [done|]. exists plain. unfold holds in *. by rewrite E5.
Qed.

(** What even a failing assembly leaves. *)
Definition base (r : Resource) (evs : list event) : Prop :=
  hash (wire r) = Some h /\ randomHash (wire r) = s /\ kind r = k /\ Forall honest evs.

Lemma life_base a r evs : life a r evs -> base r evs.
Proof. by intros []. Qed.

(** A failure: the data and the parts are gone. *)
Definition emptied (r : Resource) : Resource :=
  set_content (set_wire r (set_parts (wire r) [])) (set_data (content r) None).
Definition farewell : list event := [UnregisterIncoming h; UnregisterOutgoing h; Failed].

Lemma setFailed_run r : hash (wire r) = Some h -> _setFailed r = (emptied r, farewell, Ret tt).
Proof. intros Hr. unfold _setFailed. rewrite bind_get. by rewrite Hr. Qed.

Lemma emptied_life a r evs : base r evs ->
  metadata (content r) = None \/ a = None /\ status r <> TRANSFERRING /\ status r <> ASSEMBLING ->
  match a with Some w => pending_ok w r evs | None => True end -> status r <> COMPLETE ->
  life a (emptied r) (evs ++ farewell).
Proof.
  intros (L1 & L2 & L3 & L4) L5 L7 Hc. split; cbn; try done.
  - apply Forall_app. split; [done|]. repeat constructor; intros b; discriminate.
  - intros Ht. destruct L5 as [?|(-> & ? & ?)]; [done|]. by destruct Ht as [?|[?|?]].
  - destruct a as [w|]; [|done]. destruct w; cbn in L7 |- *; try done;
      destruct L7 as (W1 & W2 & W3); (split; [done|]); (split; [|right; split; [done|]; apply in_or_app; right; cbn; tauto]); [done|].
    intros Hs. apply in_or_app. left. auto.
Qed.

Lemma fail_with a st : st <> COMPLETE -> st <> TRANSFERRING -> st <> ASSEMBLING ->
  stable (life a) (to_status st ;; _setFailed).
Proof.
  intros N1 N2 N3 r r' evs e x Hl Hr. unfold to_status in Hr. rewrite bind_modify in Hr.
  rewrite setFailed_run in Hr by apply Hl. injection Hr as <- <- _. apply emptied_life; try done.
  - by apply (life_base _ _ _ Hl).
  - destruct Hl. destruct a; [left; apply lf_meta0; by right; right|by right].
  - apply Hl.
Qed.

#[local] Hint Extern 2 (stable _ (modify _)) => apply stable_frame; done : stable.
#[local] Hint Extern 2 (stable _ (link_send _ _ _ _)) =>
  apply stable_send; intros ? ?; apply life_more; intros ?; discriminate : stable.
#[local] Hint Extern 2 (stable _ (emit _)) => apply stable_emit; intros ? ?; apply life_more; intros ?; discriminate : stable.

Lemma stable_cancel a E : stable (life a) (cancel E).
Proof.
  unfold cancel. apply stable_bind; [apply stable_get|]. intros r1.
  destruct (status r1); try apply stable_ret; (apply stable_bind; [|intros _; by apply fail_with]);
    (case_match; [|apply stable_ret]); stable.
Qed.

#[local] Hint Resolve stable_cancel : stable.

Lemma stable_requestNext a E : stable (life a) (requestNext E).
Proof. unfold requestNext, _sendRequest. stable. Qed.

#[local] Hint Resolve stable_requestNext : stable.

Lemma stable_hashmapUpdate a E b : stable (life a) (hashmapUpdate E b).
Proof. unfold hashmapUpdate. stable. Qed.

Lemma stable_tick a E : stable (life a) (_watchdogTick E).
Proof. unfold _watchdogTick, _advertiseSegment, fire_and_forget. stable. Qed.

Lemma stable_linkClosed a : stable (life a) _linkClosed.
Proof.
  unfold _linkClosed. apply stable_bind; [apply stable_get|]. intros r1. case_match; [stable|]. by apply fail_with.
Qed.

(** A call that touches no assembly. *)
Lemma aside (m : M unit) a r r' evs e x : stable (life a) m -> life a r evs -> (m ;; mret a) r = (r', e, x) ->
  life (match x with Ret a' => a' | _ => a end) r' (evs ++ e).
Proof.
  intros Hm Hl. unfold mbind, M_bind. destruct (m r) as [[r1 e1] y] eqn:E1.
  specialize (Hm _ _ _ _ _ Hl E1). destruct y; intros [= <- <- <-]; by rewrite ?app_nil_r.
Qed.

(** A piece of an assembly: it ends, and what waits then is sound. *)
Definition piece (m : M (option Assembly)) (r : Resource) (evs : list event) : Prop :=
  forall r' e x, m r = (r', e, x) -> exists a, x = Ret a /\ life a r' (evs ++ e).

Lemma piece_catch m r evs :
  (forall r' e x, m r = (r', e, x) ->
     match x with Ret a => life a r' (evs ++ e) | Raise _ => base r' (evs ++ e) | _ => False end) ->
  piece (catch m assembly_failed) r evs.
Proof.
  intros Hm r' e x. unfold catch. destruct (m r) as [[r1 e1] y] eqn:E1. specialize (Hm _ _ _ eq_refl).
  destruct y as [a|er| |]; try done; [intros [= <- <- <-]; by exists a|].
  unfold assembly_failed, to_status. rewrite bind_modify.
  rewrite (bind_Ret _ _ _ _ _ _ (setFailed_run (set_status r1 CORRUPT) (proj1 Hm))).
  intros [= <- <- <-]. exists None. split; [done|]. rewrite app_assoc. apply emptied_life; try done; by right.
Qed.

Lemma start_piece E r evs : life None r evs -> status r = TRANSFERRING \/ status r = ASSEMBLING ->
  piece (assemble_start E) r evs.
Proof.
  intros Hl Hst r' e x. unfold assemble_start, to_status. rewrite bind_modify. set (r0 := set_status r ASSEMBLING).
  pose proof (lf_meta _ _ _ Hl) as Hm. destruct Hl as [L1 L2 L3 L4 _ L6 L7 L8].
  revert r' e x. apply piece_catch. intros r' e x. rewrite bind_get, bind_lift. unfold all_parts.
  destruct (mapM id (parts (wire r0))) as [l|] eqn:El; [|by intros [= <- <- <-]; rewrite app_nil_r].
  rewrite bind_lift. destruct (linkToken E) as [t|]; [|by intros [= <- <- <-]; rewrite app_nil_r].
  intros [= <- <- <-]. rewrite app_nil_r. split; cbn; try done; [intros _; apply Hm; tauto|]. intros _.
  apply mapM_Some_1 in El. clear - El. cbn [wire set_status r0] in El.
  induction El as [|o p os ps Ho El IH]; constructor; [|done]. exists p. exact Ho.
Qed.

Lemma stripped plain r evs : kind r = k -> metadata (content r) = None -> holds plain r evs ->
  exists c, (if hasMetadata k && (segmentIndex k =? 1) then strip_metadata plain else mret tt) r
      = (set_content r c, [], Ret tt)
  /\ metadata c = snd (payload plain k)
  /\ (data c = Some (fst (payload plain k)) \/ data c = None /\ In Failed evs).
Proof.
  intros Hk Hm Hh. unfold payload. destruct (_ && _).
  - unfold strip_metadata. cbv zeta. destruct (_ >? _).
    + eexists. split; [reflexivity|]. split; [done|]. exact Hh.
    + rewrite bind_modify. destruct (decode_view _ _ _); eexists; (split; [reflexivity|]); (split; [done|]); by left.
  - exists (content r). split; [by destruct r|]. split; [done|]. exact Hh.
Qed.

Lemma resume_piece E w r evs : life (Some w) r evs -> piece (assemble_resume E w) r evs.
Proof.
  intros Hl. pose proof (life_base _ _ _ Hl) as Hb. apply piece_catch. intros r' e x. rewrite bind_get.
  destruct Hl as [L1 L2 L3 L4 L5 L6 L7 L8]. rewrite L1. cbn [default]. unfold id.
  assert (Hnc : status r <> COMPLETE) by (intros [Hc _]%L8; discriminate).
  assert (Hm : metadata (content r) = None) by (apply L5; by right; right).
  destruct w as [d|plain rec| |plain proof|plain sent]; cbn [pending_ok] in L7.
  - rewrite bind_lift. destruct d as [d|er]; [|by intros [= <- <- <-]; rewrite app_nil_r].
    rewrite bind_lift. destruct (plaintext_of _ _) as [plain|er]; [|by intros [= <- <- <-]; rewrite app_nil_r].
    intros [= <- <- <-]. rewrite app_nil_r. split; try done; [intros _; by apply L6|by cbn; rewrite L2].
  - destruct (bytesEqual rec h) eqn:Eq; cbn [negb].
    + apply bytesEqual_spec in Eq. rewrite bind_modify. intros [= <- <- <-]. rewrite app_nil_r.
      split; cbn; try done; [intros _; by apply L6|]. split; [congruence|]. split; [done|]. by left.
    + unfold to_status. rewrite bind_modify. intros [= <- <- <-]. rewrite app_nil_r.
      split; cbn; try done. intros _; by apply L6.
  - rewrite (bind_Ret _ _ _ _ _ _ (setFailed_run r L1)). intros [= <- <- <-].
    apply emptied_life; try done. by left.
  - destruct L7 as (P1 & -> & P2). unfold attempt, link_send, mbind, M_bind.
    assert (Hhon : honest (proof_event plain)) by (intros b _; by exists plain).
    destruct (accepts _ _ _); intros [= <- <- <-]; rewrite ?app_nil_r.
    + change (Sent _ _ _) with (proof_event plain). split; try done; [by apply Forall_app; split; [|apply Forall_singleton]|intros _; by apply L6|].
      split; [done|]. split; [intros _; apply in_or_app; right; by left|by apply holds_more].
    + split; try done. intros _; by apply L6.
  - destruct L7 as (P1 & P2 & P3). rewrite bind_lift. destruct sent as [[]|er]; [|by intros [= <- <- <-]; rewrite app_nil_r].
    destruct (stripped plain r evs L3 Hm P3) as (c & Hrun & C1 & C2).
    assert (Hends : assembly_ends plain r = (set_wire (set_status (set_content r c) COMPLETE) (set_parts (wire r) []),
      [UnregisterIncoming h; RememberWindow (window (rx r)); Complete], Ret tt)).
    { unfold assembly_ends. rewrite bind_get, L3, (bind_Ret _ _ _ _ _ _ Hrun). unfold to_status. rewrite !bind_modify.
      cbn [wire set_wire set_status set_content]. by rewrite L1. }
    rewrite (bind_Ret _ _ _ _ _ _ Hends). intros [= <- <- <-].
    assert (Hin : forall x, In x evs -> In x (evs ++ [UnregisterIncoming h; RememberWindow (window (rx r)); Complete]))
      by (intros; apply in_or_app; by left).
    split; cbn; try done.
    + apply Forall_app. split; [done|]. repeat constructor; intros b; discriminate.
    + by intros [?|[?|?]].
    + intros _. split; [done|]. exists plain. split; [done|]. split; [auto|]. split; [|done].
      destruct C2 as [C2|[C2 C3]]; [by left|right]. split; [done|auto].
Qed.

(** *** Parts *)

(** What [receivePart] records of a part for slot [i]. *)
Definition record_part (E : Env) (i : nat) (chunk : bytes) (r : Resource) : Resource :=
  let x := rx r in
  let out := if 0 <? outstanding x then outstanding x - 1 else outstanding x in
  set_watch (set_rx (set_wire r (set_parts (wire r) (<[i := Some chunk]> (parts (wire r)))))
               (set_counts x (receivedCount x + 1) out (reqSentAt x) (reqWindowRxd x + zlen chunk)))
    (set_activity (watch r) (now E)).

Lemma find_slot_full x hs ps : Forall is_Some ps -> find_slot x hs ps = None.
Proof.
  intros Hps. revert hs. induction Hps as [|p ps [b ->] Hps IH]; intros [|y hs]; try done. cbn [find_slot]. by rewrite IH.
Qed.

(** While an assembly waits no part is placed, so no second one starts. *)
Lemma part_placed_none E chunk a r evs : life a r evs -> a <> None ->
  receivePart_start E chunk r = (r, [], Ret (false, None)).
Proof.
  intros Hl Ha. unfold receivePart_start. rewrite bind_get. rewrite find_slot_full by (by apply (lf_parts _ _ _ Hl)).
  by destruct (status r).
Qed.

Lemma part_life E chunk r evs r' e x : life None r evs -> receivePart_start E chunk r = (r', e, x) ->
  life (match x with Ret (_, a) => a | _ => None end) r' (evs ++ e).
Proof.
  intros Hl. unfold receivePart_start. rewrite bind_get.
  assert (Hno : (r, [], Ret (false, None)) = (r', e, x) -> life (match x with Ret (_, a) => a | _ => None end) r' (evs ++ e))
    by (intros [= <- <- <-]; by rewrite app_nil_r).
  destruct (decide (status r = TRANSFERRING \/ status r = ASSEMBLING)) as [Ht|Hnt]; [|destruct (status r); tauto].
  intros Hrun. assert (Hgo : match find_slot (mapHash (randomHash (wire r)) chunk) (hashmap (wire r)) (parts (wire r)) with
    | None => (mret (false, None) : M (bool * option Assembly)) r
    | Some i =>
      (modify (record_part E i chunk) ;;
       r ← Resource.get;
       emit (Progress (receivedCount (rx r)) (totalParts (wire r))) ;;
       if totalParts (wire r) <=? receivedCount (rx r) then a ← assemble_start E; mret (true, a)
       else if outstanding (rx r) <=? 0 then
         modify (fun r => set_rx r (_onWindowDrained (now E) (rx r))) ;; requestNext E ;; mret (true, None)
       else mret (true, None)) r
    end = (r', e, x)).
  { destruct Ht as [Ht|Ht]; rewrite Ht in Hrun; by destruct (find_slot _ _ _). }
  clear Hrun. destruct (find_slot _ _ _) as [i|]; [|by apply Hno].
  rewrite bind_modify, bind_get in Hgo. set (r1 := record_part E i chunk r) in *.
  set (p := Progress (receivedCount (rx r1)) (totalParts (wire r1))) in *.
  assert (H1 : life None r1 (evs ++ [p])).
  { apply life_more; [intros b; discriminate|]. by destruct Hl. }
  assert (Ht1 : status r1 = TRANSFERRING \/ status r1 = ASSEMBLING) by exact Ht.
  erewrite bind_Ret in Hgo by reflexivity.
  match type of Hgo with (match ?m with _ => _ end) = _ => destruct m as [[r2 e2] y] eqn:Hrest end.
  injection Hgo as <- <- <-. replace (evs ++ p :: e2) with ((evs ++ [p]) ++ e2) by by rewrite <- app_assoc.
  destruct (_ <=? _) in Hrest.
  - unfold mbind, M_bind in Hrest. destruct (assemble_start E r1) as [[r3 e3] z] eqn:Hs.
    destruct (start_piece E r1 _ H1 Ht1 _ _ _ Hs) as (a & -> & H3). injection Hrest as <- <- <-. by rewrite app_nil_r.
  - assert (Hst : stable (life None) (if outstanding (rx r1) <=? 0 then
         modify (fun r => set_rx r (_onWindowDrained (now E) (rx r))) ;; requestNext E ;; mret (true, @None Assembly)
       else mret (true, None))) by stable.
    specialize (Hst _ _ _ _ _ H1 Hrest). destruct (_ <=? 0) in Hrest; [|by injection Hrest as _ _ <-].
    unfold mbind, M_bind, modify in Hrest. destruct (requestNext E _) as [[r3 e3] [u|er| |]]; by injection Hrest as _ _ <-.
Qed.

(** *** Any operation *)

Lemma op_life E o a r evs r' e x : life a r evs -> rx_run E o a r = (r', e, x) ->
  life (match x with Ret a' => a' | _ => a end) r' (evs ++ e).
Proof.
  intros Hl. destruct o as [chunk| | | | | | |]; cbn [rx_run]; try (apply aside; [|done]).
  - destruct a as [w|].
    + rewrite (bind_Ret _ _ _ _ _ _ (part_placed_none E chunk (Some w) r evs Hl ltac:(done))).
      intros [= <- <- <-]. by rewrite app_nil_r.
    + unfold mbind, M_bind. destruct (receivePart_start E chunk r) as [[r1 e1] y] eqn:E1.
      pose proof (part_life E chunk r evs r1 e1 y Hl E1) as H1.
      destruct y as [[b [w|]]|er| |]; intros [= <- <- <-]; by rewrite ?app_nil_r.
  - destruct a as [w|]; [|intros [= <- <- <-]; by rewrite app_nil_r].
    intros Hrun. by destruct (resume_piece E w r evs Hl r' e x Hrun) as (a' & -> & Ha').
  - apply stable_hashmapUpdate.
  - apply stable_requestNext.
  - apply stable_tick.
  - apply stable_cancel.
  - by apply fail_with.
  - apply stable_linkClosed.
Qed.

Lemma runs_life ops : forall a r evs, life a r evs ->
  let '(r', e) := rx_runs a ops r in exists a', life a' r' (evs ++ e).
Proof.
  induction ops as [|[E o] ops IH]; intros a r evs Hl; cbn [rx_runs]; [exists a; by rewrite app_nil_r|].
  destruct (rx_run E o a r) as [[r1 e1] x] eqn:E1. specialize (IH _ _ _ (op_life _ _ _ _ _ _ _ _ Hl E1)).
  destruct (rx_runs _ ops r1) as [r2 e2]. destruct IH as [a' IH]. exists a'. by rewrite app_assoc.
Qed.
End Fixed.

(** C11: Whatever happens to an accepted transfer (parts, hashmap updates,
    cancellations, a closed link and timeouts in any order, also while the
    assembly waits for a decryption, a hash or its send, with any content,
    under any clock and with failing sends), it only proves a content that has
    the advertised hash, and it is only complete after such a proof was sent,
    holding exactly the data (and metadata) of that content, or, if it failed
    while the assembly waited, no data ([cancelled_completes]). *)
Theorem received_authentic (E : Env) (z : option Bz2) (lw : option Z) (lim : Limits) (m : bytes)
    (es : list event) (r : Resource) (Ha : accept E z lw lim m = Some (es, Ok (Some r))) :
  exists a, Adv.unpack m = Some (Ok a)
  /\ forall ops, let '(r', evs) := rx_runs None ops r in
     (forall b, In (Sent PacketType_PROOF ContextType_RESOURCE_PRF b) evs ->
        exists plain, sha256 (plain ++ Adv.random a) = Adv.hash a
          /\ b = Adv.hash a ++ sha256 (plain ++ Adv.hash a))
     /\ (status r' = COMPLETE -> exists plain,
          sha256 (plain ++ Adv.random a) = Adv.hash a
          /\ In (Sent PacketType_PROOF ContextType_RESOURCE_PRF (Adv.hash a ++ sha256 (plain ++ Adv.hash a))) evs
          /\ (data (content r') = Some (fst (payload plain (kind r)))
              \/ data (content r') = None /\ In Failed evs)
          /\ metadata (content r') = snd (payload plain (kind r))).
Proof.
  unfold accept, _sendReject in Ha. destruct (Adv.unpack m) as [[a|e]|]; [|discriminate|discriminate].
  exists a. split; [done|]. intros ops.
  assert (Hl : life (Adv.hash a) (Adv.random a) (kind r) None r []).
  { repeat case_match; simplify_eq; (split; [done|done|done|by constructor|done|done|done|done]). }
  pose proof (runs_life _ _ _ ops None r [] Hl) as Hrun. destruct (rx_runs None ops r) as [r' evs].
  destruct Hrun as [a' Hend]. cbn [app] in Hend. split.
  - intros b Hin. pose proof (lf_honest _ _ _ _ _ _ Hend) as Hhon. rewrite List.Forall_forall in Hhon.
    destruct (Hhon _ Hin b eq_refl) as (plain & Hp & [= ->]). by exists plain.
  - intros Hc. destruct (lf_complete _ _ _ _ _ _ Hend Hc) as (_ & plain & P1 & P2 & P3 & P4). by exists plain.
Qed.

End Receiver.

Section Samples.
Import Toy.
Import MsgPackSpec.Host.
#[local] Existing Instances toy_crypto no_exotic.

(** A sent advertisement, the object it makes, and the parts in order. *)
Definition sample_outbound : list message := Eval vm_compute in outbound sample_effects.
Definition sample_adv : bytes := Eval vm_compute in snd (nth 0 sample_outbound (0, 0, [])).
Definition sample_E : Env := env_of (sample_config 1000) sample_B.
Definition sample_accepted : option (list event * result (option Resource)) := Eval vm_compute in
  accept sample_E None None default_limits sample_adv.
Definition sample_R : Resource := Eval vm_compute in
  match sample_accepted with
  | Some (_, Ok (Some r)) => r
  | _ => new_Resource 0 None false None None None false false
  end.
Definition sample_parts : list bytes := Eval vm_compute in
  match objects (transfers sample_sender) !! 0%nat with
  | Some r => omap id (parts (wire r))
  | None => []
  end.
Definition sample_arrivals : list (Env * rx_op) := map (fun p => (sample_E, RxPart p)) sample_parts.
Definition sample_waits (n : nat) : list (Env * rx_op) := replicate n (sample_E, RxResume).
Definition sample_ops : list (Env * rx_op) := sample_arrivals ++ sample_waits 4.

(** Those parts complete that object. *)
Example sample_completes : status (fst (rx_runs None sample_ops sample_R)) = COMPLETE
  /\ exists d, data (content (fst (rx_runs None sample_ops sample_R))) = Some d.
Proof. split; [|eexists]; vm_compute; reflexivity. Qed.

(** The same object for an advertisement without the metadata flag. *)
Definition sample_bare : Resource :=
  let k := kind sample_R in
  set_kind sample_R (mkKind (originalHash k) (requestId k) (isRequest k) (isResponse k) (compressed k) (encrypted k)
    (split k) false (segmentIndex k) (totalSegments k)).

(** A transfer that is cancelled while its proof is made fails, and is then
    complete, without data. *)
Example cancelled_completes :
  let '(r, evs) := rx_runs None (sample_arrivals ++ sample_waits 2 ++ [(sample_E, RxCancel)] ++ sample_waits 2) sample_bare in
  (status r, data (content r), 
    omap (fun e => match e with Failed | Complete => Some e | _ => None end) evs) = (COMPLETE, None, [Failed; Complete]).
Proof. vm_compute. reflexivity. Qed.

Lemma accept_bounded_witness : 0 < totalParts (wire sample_R) <= 262144 /\ status sample_R = TRANSFERRING.
Proof.
  destruct (@accept_bounded no_exotic sample_E None None default_limits sample_adv
              [RegisterIncoming (default [] (hash (wire sample_R)))] (Some sample_R))
    as (h & _ & _ & Hst & _ & _ & [H1 H2] & _).
  - vm_compute. reflexivity.
  - split; [|exact Hst]. split; [exact H1|]. eapply Z.le_trans; [exact H2|]. vm_compute. discriminate.
Defined.

Lemma received_authentic_witness : exists a, Adv.unpack sample_adv = Some (Ok a)
  /\ exists plain, sha256 (plain ++ Adv.random a) = Adv.hash a
     /\ data (content (fst (rx_runs None sample_ops sample_R))) = Some (fst (payload plain (kind sample_R))).
Proof.
  destruct (@received_authentic toy_crypto no_exotic sample_E None None default_limits sample_adv
              [RegisterIncoming (default [] (hash (wire sample_R)))] sample_R) as (a & Hu & Hall).
  - vm_compute. reflexivity.
  - exists a. split; [exact Hu|]. specialize (Hall sample_ops).
    assert (Hc : status (fst (rx_runs None sample_ops sample_R)) = COMPLETE) by (vm_compute; reflexivity).
    assert (Hd : data (content (fst (rx_runs None sample_ops sample_R))) <> None) by (vm_compute; discriminate).
    destruct (rx_runs None sample_ops sample_R) as [r' evs]. destruct Hall as [_ Hall].
    destruct (Hall Hc) as (plain & H1 & _ & [H2|[H2 _]] & _); [|by destruct (Hd H2)].
    exists plain. split; [exact H1|exact H2].
Defined.

End Samples.
