(* ===== verification/TransferSplit.v ===== *)
(** * TransferSplit: transfers in several segments

    What the sender cuts is what the receiver puts together: the segments of a
    prepared payload, received one after the other, make the assembler return
    the data and the metadata that were given to the sender; metadata that
    does not fit in the first segment is the exception. *)

From Stdlib Require Import QArith Qminmax.
From S2P Require Import Prelude Encoding JsMap Utf8 MsgPack MsgPackSpec Packet Crypto Identity.
From S2P Require Import Link LinkTraffic Resource Transfers ResourceWire ResourceSpec TransferSpec TransferLife.
#[local] Open Scope Z_scope.

Notation segment_bytes := (Z.to_nat MAX_EFFICIENT_SIZE).

Lemma take_slice {A} a b (l : list A) : (a <= b)%nat -> take a l ++ slice a b l = take b l.
Proof. intros Hab. unfold slice. rewrite take_take_drop. f_equal. lia. Qed.

Lemma segment_of_slice full i : segment_of full (Z.of_nat (S i))
  = slice (i * segment_bytes) (Nat.min (i * segment_bytes + segment_bytes) (length full)) full.
Proof.
  unfold segment_of, zlen. pose proof (eq_refl : MAX_EFFICIENT_SIZE = 1048575) as Hm.
  f_equal; rewrite Hm; lia.
Qed.

(** The first [j] segments are the first [j * MAX_EFFICIENT_SIZE] bytes. *)
Lemma segments_prefix full j :
  concat (map (fun i => segment_of full (Z.of_nat (S i))) (seq 0 j)) = take (j * segment_bytes) full.
Proof.
  induction j as [|j IH]; [done|].
  rewrite seq_S, map_app, concat_app, IH. cbn [map concat]. rewrite app_nil_r, Nat.add_0_l, segment_of_slice.
  set (m := segment_bytes). destruct (Nat.le_gt_cases (j * m) (length full)) as [Hle|Hgt].
  - rewrite take_slice by lia. destruct (Nat.le_gt_cases (j * m + m) (length full)).
    + f_equal. lia.
    + rewrite Nat.min_r by lia. rewrite !take_ge by lia. done.
  - unfold slice. rewrite (drop_ge full (j * m)), take_nil, app_nil_r by lia. rewrite !take_ge by lia. done.
Qed.

(** How many segments [_prepareSender] makes of a payload. *)
Definition segment_count (full : bytes) : nat := Z.to_nat ((zlen full - 1) / MAX_EFFICIENT_SIZE + 1).

Lemma segment_count_covers full : (length full <= segment_count full * segment_bytes)%nat.
Proof.
  unfold segment_count, zlen, MAX_EFFICIENT_SIZE.
  pose proof (Z.div_mod (Z.of_nat (length full) - 1) 1048575 ltac:(lia)).
  pose proof (Z.mod_pos_bound (Z.of_nat (length full) - 1) 1048575 ltac:(lia)).
  change (1 * 1024 * 1024 - 1) with 1048575. nia.
Qed.

Lemma segments_all full :
  concat (map (fun i => segment_of full (Z.of_nat (S i))) (seq 0 (segment_count full))) = full.
Proof. rewrite segments_prefix. apply take_ge, segment_count_covers. Qed.

Section Assembling.
Context `{H : JsHost}.

(** How many bytes of the payload are metadata. *)
Definition prefix_length (d plain : bytes) : nat := length plain - length d.

(** The object of the [i]-th segment, counted from 0, as it completes. *)
Record segment_received (meta : value) (plain : bytes) (total : Z) (i : nat) (r : Resource) : Prop := {
  sr_data : data (content r) = Some (fst (payload (segment_of plain (Z.of_nat (S i))) (kind r)));
  sr_meta : metadata (content r) = snd (payload (segment_of plain (Z.of_nat (S i))) (kind r));
  sr_index : segmentIndex (kind r) = Z.of_nat (S i);
  sr_total : totalSegments (kind r) = total;
  sr_flag : hasMetadata (kind r) = negb (is_null meta);
}.

Lemma wrapped_split meta d plain : wrapped meta d plain ->
  exists pre, plain = pre ++ d /\ length pre = prefix_length d plain
    /\ forall d1, wrapped meta d1 (pre ++ d1).
Proof.
  intros Hw. unfold prefix_length.
  assert (Hn : forall packed, encode meta = Ok packed -> zlen packed <= METADATA_MAX_SIZE ->
    plain = big_endian_24 (zlen packed) ++ packed ++ d -> exists pre, plain = pre ++ d
      /\ length pre = (length plain - length d)%nat
      /\ forall d1, exists packed, encode meta = Ok packed /\ zlen packed <= METADATA_MAX_SIZE
           /\ pre ++ d1 = big_endian_24 (zlen packed) ++ packed ++ d1).
  { intros packed He Hs ->. exists (big_endian_24 (zlen packed) ++ packed). rewrite <- !app_assoc.
    split; [done|]. split; [rewrite !length_app; lia|]. intros d1. exists packed. by rewrite <- app_assoc. }
  destruct meta; cbn [wrapped] in *; try (destruct Hw as (packed & He & Hs & Hp); by eapply Hn).
  exists []. subst. split; [done|]. split; [cbn; lia|]. done.
Qed.

Lemma payload_later plain k : segmentIndex k <> 1 -> payload plain k = (plain, None).
Proof. intros Hi. unfold payload. rewrite (proj2 (Z.eqb_neq _ _)) by done. by rewrite andb_false_r. Qed.

(** What the assembler holds after [j] segments. *)
Record holds (meta : value) (d plain : bytes) (total : Z) (k0 : Kind) (j : nat)
    (a : SplitResourceAssembler) : Prop := {
  hd_total : s_totalSegments a = total;
  hd_kind : s_kind a = k0;
  hd_max : maxTotalSize a = DEFAULT_MAX_TOTAL_SIZE;
  hd_data : concat (segments a) = drop (prefix_length d plain) (take (j * segment_bytes) plain);
  hd_count : byteCount a = zlen (concat (segments a));
  hd_meta : (0 < j)%nat -> s_metadata a = received_metadata meta (segment_of plain 1);
}.

Lemma segment_one plain : segment_of plain 1 = take segment_bytes plain.
Proof.
  rewrite (segment_of_slice plain 0 : segment_of plain 1 = _). cbn [Nat.mul Nat.add]. unfold slice.
  rewrite drop_0, Nat.sub_0_r. destruct (Nat.le_gt_cases segment_bytes (length plain)).
  - by rewrite Nat.min_l.
  - rewrite Nat.min_r by lia. rewrite !take_ge by lia. done.
Qed.

Lemma first_payload meta d plain total r : wrapped meta d plain -> (prefix_length d plain <= segment_bytes)%nat ->
  segment_received meta plain total 0 r ->
  data (content r) = Some (drop (prefix_length d plain) (take segment_bytes plain))
  /\ metadata (content r) = received_metadata meta (segment_of plain 1).
Proof.
  intros Hw Hfit Hr. destruct (wrapped_split meta d plain Hw) as (pre & Hp & Hl & Hall).
  rewrite (sr_data _ _ _ _ _ Hr), (sr_meta _ _ _ _ _ Hr). change (Z.of_nat 1) with 1. rewrite segment_one.
  rewrite (payload_wrapped meta (drop (prefix_length d plain) (take segment_bytes plain)));
    [done| |apply (sr_flag _ _ _ _ _ Hr)|apply (sr_index _ _ _ _ _ Hr)].
  rewrite <- Hl in *. clear Hl. subst plain. rewrite take_app_ge by done.
  rewrite drop_app_length. apply Hall.
Qed.

Lemma holds_data_step meta d plain total j r : wrapped meta d plain ->
  (prefix_length d plain <= segment_bytes)%nat -> (segment_bytes <= length plain)%nat ->
  (j * segment_bytes <= length plain)%nat -> segment_received meta plain total j r ->
  drop (prefix_length d plain) (take (j * segment_bytes) plain) ++ default [] (data (content r))
  = drop (prefix_length d plain) (take (S j * segment_bytes) plain).
Proof.
  intros Hw Hfit Hlen Hj Hr. destruct j as [|j].
  - destruct (first_payload meta d plain total r Hw Hfit Hr) as [Hd _]. rewrite Hd.
    rewrite Nat.mul_0_l, Nat.mul_1_l, take_0, drop_nil. done.
  - rewrite (sr_data _ _ _ _ _ Hr), payload_later by (rewrite (sr_index _ _ _ _ _ Hr); lia).
    cbn [fst default]. rewrite segment_of_slice. set (m := segment_bytes) in *.
    rewrite <- drop_app_le by (rewrite length_take; nia). f_equal.
    unfold id. rewrite take_slice by nia. destruct (Nat.le_gt_cases (S (S j) * m) (length plain)).
    + f_equal. nia.
    + rewrite Nat.min_r by nia. rewrite !take_ge by nia. done.
Qed.

(** The object [add] makes of the last segment. *)
Definition whole (t total : Z) (k0 : Kind) (a : SplitResourceAssembler) : Resource :=
  mkResource true None
    (mkContent (Some (concatBytes (segments a))) (s_metadata a) None None (byteCount a))
    (mkKind (originalHash k0) (requestId k0) (isRequest k0) (isResponse k0) false false false
       (bool_decide (is_Some (s_metadata a))) total total)
    (mkWire [] [] 0 0 None [] []) initial_rx (mkWatch MAX_RETRIES t 0 false) COMPLETE false [].

Lemma add_step meta d plain total k0 j t a r : wrapped meta d plain ->
  (prefix_length d plain <= segment_bytes)%nat -> (segment_bytes <= length plain)%nat ->
  (j * segment_bytes <= length plain)%nat -> zlen d <= DEFAULT_MAX_TOTAL_SIZE ->
  segment_received meta plain total j r -> holds meta d plain total k0 j a ->
  exists a', holds meta d plain total k0 (S j) a'
    /\ add t r a = (a', Ok (if negb (Z.of_nat (S j) =? total) then None else Some (whole t total k0 a'))).
Proof.
  intros Hw Hfit Hlen Hj Hmax Hr Ha.
  pose proof (holds_data_step meta d plain total j r Hw Hfit Hlen Hj Hr) as Hstep.
  set (dr := default [] (data (content r))) in *.
  set (meta' := if segmentIndex (kind r) =? 1 then metadata (content r) else s_metadata a).
  set (a' := mkAssembler (s_totalSegments a) (s_kind a) (maxTotalSize a) (segments a ++ [dr]) meta'
               (Resource.received a + 1) (byteCount a + zlen dr)).
  assert (Hc : concat (segments a') = drop (prefix_length d plain) (take (S j * segment_bytes) plain)).
  { unfold a'. cbn [segments]. rewrite concat_app. cbn [concat]. rewrite app_nil_r, (hd_data _ _ _ _ _ _ _ Ha). done. }
  assert (Hn : byteCount a' = zlen (concat (segments a'))).
  { unfold a'. cbn [segments byteCount]. rewrite concat_app. cbn [concat].
    rewrite app_nil_r, zlen_app, (hd_count _ _ _ _ _ _ _ Ha). done. }
  assert (Hm' : meta' = received_metadata meta (segment_of plain 1)).
  { unfold meta'. rewrite (sr_index _ _ _ _ _ Hr). destruct (Z.of_nat (S j) =? 1) eqn:E1; bools.
    - assert (j = 0%nat) as -> by lia. by apply (first_payload meta d plain total r).
    - apply (hd_meta _ _ _ _ _ _ _ Ha). lia. }
  exists a'. destruct Ha as [A1 A2 A3 A4 A5 A6]. split; [by split|].
  unfold add. fold dr meta'. rewrite <- A1 at 2. fold a'.
  assert (Hb : byteCount a' >? maxTotalSize a' = false).
  { rewrite Z.gtb_ltb. apply Z.ltb_ge. rewrite Hn, Hc. change (maxTotalSize a') with (maxTotalSize a).
    rewrite A3. destruct (wrapped_split meta d plain Hw) as (pre & Hp & Hl & _).
    assert (zlen (drop (prefix_length d plain) (take (S j * segment_bytes) plain)) <= zlen d); [|lia].
    unfold zlen. rewrite length_drop, length_take. rewrite <- Hl, Hp, length_app. lia. }
  rewrite Hb. change (s_totalSegments a') with (s_totalSegments a). change (s_kind a') with (s_kind a).
  rewrite A1, A2, (sr_index _ _ _ _ _ Hr). by destruct (negb _).
Qed.

(** Recording segments one after the other, until the whole is there. *)
Fixpoint add_all (t : Z) (rs : list Resource) (a : SplitResourceAssembler)
    : SplitResourceAssembler * result (option Resource) :=
  match rs with
  | [] => (a, Ok None)
  | r :: rs =>
      match add t r a with
      | (a, Ok None) => add_all t rs a
      | res => res
      end
  end.

Lemma add_all_spec meta d plain k0 t : wrapped meta d plain ->
  (prefix_length d plain <= segment_bytes)%nat -> (segment_bytes <= length plain)%nat ->
  zlen d <= DEFAULT_MAX_TOTAL_SIZE ->
  forall rs j a n, (segment_count plain = j + S n)%nat -> length rs = S n ->
  (forall i r, rs !! i = Some r -> segment_received meta plain (Z.of_nat (segment_count plain)) (j + i) r) ->
  holds meta d plain (Z.of_nat (segment_count plain)) k0 j a ->
  exists a', holds meta d plain (Z.of_nat (segment_count plain)) k0 (segment_count plain) a'
    /\ add_all t rs a = (a', Ok (Some (whole t (Z.of_nat (segment_count plain)) k0 a'))).
Proof.
  intros Hw Hfit Hlen Hmax. induction rs as [|r rs IH]; intros j a n Hc Hl Hrs Ha; [discriminate|].
  assert (Hj : (j * segment_bytes <= length plain)%nat).
  { enough (Hs : ((segment_count plain - 1) * segment_bytes <= length plain)%nat) by nia.
    unfold segment_count, zlen, MAX_EFFICIENT_SIZE in *.
    pose proof (Z.div_mod (Z.of_nat (length plain) - 1) 1048575 ltac:(lia)).
    pose proof (Z.mod_pos_bound (Z.of_nat (length plain) - 1) 1048575 ltac:(lia)).
    change (1 * 1024 * 1024 - 1) with 1048575 in *. nia. }
  assert (Hr : segment_received meta plain (Z.of_nat (segment_count plain)) j r)
    by (rewrite <- (Nat.add_0_r j); by apply Hrs).
  destruct (add_step meta d plain _ k0 j t a r Hw Hfit Hlen Hj Hmax Hr Ha) as (a1 & Ha1 & Hadd).
  cbn [add_all]. rewrite Hadd. destruct n as [|n].
  - rewrite (proj2 (Z.eqb_eq _ _)) by lia. cbn [negb]. exists a1. split; [|done].
    by replace (segment_count plain) with (S j) at 2 by lia.
  - rewrite (proj2 (Z.eqb_neq _ _)) by lia. cbn [negb].
    apply (IH (S j) a1 n); [lia|by injection Hl| |done].
    intros i r' Hi. rewrite Nat.add_succ_comm. by apply (Hrs (S i)).
Qed.

(** C35: Splitting and reassembly are inverse: a payload larger than a segment
    (data, and metadata in front that fits in the first segment) is cut into
    [segment_count] segments; when the objects of these segments, as they
    complete, are recorded in order, the assembler returns one complete
    object with exactly the data and the metadata given to the sender, and
    the identity of the first segment. *)
Theorem split_reassembled (meta : value) (d plain : bytes) (r0 : Resource) (rs : list Resource) (t : Z)
    (Hw : wrapped meta d plain) (Hbig : MAX_EFFICIENT_SIZE < zlen plain)
    (Hfit : (prefix_length d plain <= segment_bytes)%nat) (Hmax : zlen d <= DEFAULT_MAX_TOTAL_SIZE)
    (Hrs : forall i r, (r0 :: rs) !! i = Some r ->
             segment_received meta plain (Z.of_nat (segment_count plain)) i r)
    (Hlen : length (r0 :: rs) = segment_count plain) :
  exists a w, add_all t (r0 :: rs) (new_Assembler r0) = (a, Ok (Some w))
    /\ status w = COMPLETE /\ data (content w) = Some d
    /\ metadata (content w) = received_metadata meta (segment_of plain 1)
    /\ requestId (kind w) = requestId (kind r0) /\ isRequest (kind w) = isRequest (kind r0)
    /\ isResponse (kind w) = isResponse (kind r0) /\ originalHash (kind w) = originalHash (kind r0).
Proof.
  assert (Hl : (segment_bytes <= length plain)%nat) by (unfold zlen in Hbig; lia).
  destruct (add_all_spec meta d plain (kind r0) t Hw Hfit Hl Hmax (r0 :: rs) 0 (new_Assembler r0) (length rs))
    as (a & Ha & Hadd); [by rewrite <- Hlen|done|exact Hrs| |].
  - split; try done; [by apply (sr_total _ _ _ _ _ (Hrs 0%nat r0 eq_refl))| |intros ?; lia].
    cbn [new_Assembler segments concat].
    rewrite Nat.mul_0_l, take_0, drop_nil. done.
  - eexists a, _. split; [exact Hadd|]. split; [done|]. split; [|split; [|done]].
    + cbn [whole content data]. unfold concatBytes. rewrite (hd_data _ _ _ _ _ _ _ Ha).
      rewrite (take_ge plain) by apply segment_count_covers.
      destruct (wrapped_split meta d plain Hw) as (pre & Hp & Hpl & _). rewrite <- Hpl, Hp.
      by rewrite drop_app_length.
    + cbn [whole content metadata]. apply (hd_meta _ _ _ _ _ _ _ Ha). rewrite <- Hlen. cbn. lia.
Qed.

(** Metadata that does not fit in the first segment is not found again: the
    receiver takes the segment, the metadata in front included, for data. *)
Lemma large_metadata_kept meta d plain packed k : encode meta = Ok packed -> zlen packed <= METADATA_MAX_SIZE ->
  plain = big_endian_24 (zlen packed) ++ packed ++ d -> MAX_EFFICIENT_SIZE < 3 + zlen packed ->
  payload (segment_of plain 1) k = (segment_of plain 1, None).
Proof.
  intros He Hs Hp Hbig. rewrite segment_one. unfold payload. destruct (_ && _); [|done]. cbv zeta.
  assert (Hb : forall i, (i < 3)%nat -> byte_at i (take segment_bytes plain) = byte_at i plain).
  { intros i Hi. unfold byte_at. rewrite <- (take_drop segment_bytes plain) at 2.
    rewrite app_nth1; [done|]. rewrite length_take, Hp, !length_app. change (length (big_endian_24 _)) with 3%nat.
    unfold zlen in Hbig. pose proof (eq_refl : MAX_EFFICIENT_SIZE = 1048575). lia. }
  rewrite !Hb by lia. pose proof (prefix_size (zlen packed)) as Hsize.
  replace (js_or (js_or (js_shl (byte_at 0 plain) 16) (js_shl (byte_at 1 plain) 8)) (byte_at 2 plain))
    with (zlen packed) by (rewrite Hp; symmetry; apply Hsize; split; [apply zlen_nonneg|done]).
  rewrite Z.gtb_ltb, (proj2 (Z.ltb_lt _ _)); [done|].
  unfold zlen at 1. rewrite length_take. pose proof (eq_refl : MAX_EFFICIENT_SIZE = 1048575). lia.
Qed.
End Assembling.

(** ** A payload of two segments *)

Section Samples.
Import MsgPackSpec.Host.
#[local] Existing Instances no_exotic.

(** Ten bytes more than one segment holds, without metadata. *)
Definition big_plain : bytes := replicate (Z.to_nat (MAX_EFFICIENT_SIZE + 10)) 9.

Definition finished_segment (i : nat) : Resource :=
  mkResource true None
    (mkContent (Some (segment_of big_plain (Z.of_nat (S i)))) None None None 0)
    (mkKind None None false false false true true false (Z.of_nat (S i)) 2)
    (mkWire [] [] 0 0 None [] []) initial_rx (mkWatch MAX_RETRIES 0 0 false) COMPLETE false [].

Lemma big_length : zlen big_plain = MAX_EFFICIENT_SIZE + 10.
Proof. unfold zlen, big_plain. rewrite length_replicate. rewrite Z2Nat.id; [done|]. unfold MAX_EFFICIENT_SIZE. lia. Qed.

Lemma big_count : segment_count big_plain = 2%nat.
Proof. unfold segment_count. rewrite big_length. reflexivity. Qed.

Lemma finished_received i : segment_received VNull big_plain 2 i (finished_segment i).
Proof.
  assert (Hp : forall p, payload p (kind (finished_segment i)) = (p, None)) by (intros p; reflexivity).
  split; rewrite ?Hp; reflexivity.
Qed.

Lemma split_reassembled_witness : exists a w,
  add_all 0 [finished_segment 0; finished_segment 1] (new_Assembler (finished_segment 0)) = (a, Ok (Some w))
  /\ data (content w) = Some big_plain /\ metadata (content w) = None.
Proof.
  destruct (@split_reassembled no_exotic VNull big_plain big_plain (finished_segment 0) [finished_segment 1] 0)
    as (a & w & Hadd & _ & Hd & Hm & _).
  - reflexivity.
  - rewrite big_length. lia.
  - unfold prefix_length. lia.
  - rewrite big_length. vm_compute. discriminate.
  - intros i r Hi. rewrite big_count. destruct i as [|[|i]]; [..|discriminate Hi];
      apply (inj Some) in Hi; rewrite <- Hi; apply finished_received.
  - by rewrite big_count.
  - exists a, w. split; [exact Hadd|]. split; [exact Hd|exact Hm].
Defined.
End Samples.
