(* ===== verification/RfedChannel.v ===== *)
(** * RfedChannel: channels and their messages
    (packages/rfed/src/constants.js, channel.js, stamp.js and blob.js)

    A channel is an identity derived from its name; a message for it is the
    sender's public key and an LXMF message (or raw bytes), encrypted to that
    identity and stamped.  As in [Stamper], the stamp search draws from
    [draws], and [None] is a search that goes on, or a value that the model of
    LXMF messages leaves out. *)

From S2P Require Import Link.
From S2P Require Import Prelude Encoding JsMap Utf8 MsgPack MsgPackSpec Packet Crypto Identity Destination.
From S2P Require Import Stamper LxmfMessage LxmfMessageSpec Delivery.
#[local] Open Scope Z_scope.

(** ** Constants *)

Definition MAGIC_RTID : bytes := [82; 84; 73; 68].
Definition MAGIC_LENGTH : nat := 4.
Definition PUBLIC_KEY_LENGTH : nat := 64.
Definition HASH_LENGTH : nat := 16.
Definition STAMP_EXPAND_ROUNDS : nat := 16.
Definition LXMF_DELIVERY_NAME : jsstr := lit "lxmf.delivery".
Definition PRELUDE_LENGTH : nat := MAGIC_LENGTH + PUBLIC_KEY_LENGTH.

(** The u-coordinate 9 of RFC 7748. *)
Definition X25519_BASEPOINT : bytes := 9 :: replicate 31 0.

Section WithCrypto.
Context `{C : WebCrypto} `{H : JsHost}.

(** ** Channels *)

Definition import_key (k : bytes) : result bytes :=
  match import32 k with Some k => Ok k | None => Throw (JsError "DataError") end.

Definition x25519PublicFromSeed (seed : bytes) : result bytes :=
  let! basepointKey := import_key X25519_BASEPOINT in
  let! privKey := import_key seed in
  match x25519_bits privKey basepointKey with
  | Some bits => Ok bits
  | None => Throw (JsError "OperationError")
  end.

(** The [x] of the exported key is there: the platform supports Ed25519. *)
Definition ed25519PublicFromSeed (seed : bytes) : result bytes :=
  let! privKey := import_key seed in Ok (ed25519_pub privKey).

Definition deriveChannel (name : jsstr) : result (Identity * bytes) :=
  let seed := sha256 (utf8_encode name) in
  let! x25519Priv := import_key seed in
  let! ed25519Priv := import_key seed in
  let! x25519PubBytes := x25519PublicFromSeed seed in
  let! ed25519PubBytes := ed25519PublicFromSeed seed in
  let! x25519Pub := import_key x25519PubBytes in
  let! ed25519Pub := import_key ed25519PubBytes in
  let publicKey := x25519PubBytes ++ ed25519PubBytes in
  let channelHash := truncatedHash publicKey in
  Ok (mkIdentity (Some x25519Priv) (Some ed25519Priv) x25519Pub ed25519Pub publicKey channelHash [],
      channelHash).

Definition deliveryHashFor (id : Identity) : bytes :=
  let nameHash := slice 0 10 (sha256 (utf8_encode LXMF_DELIVERY_NAME)) in
  slice 0 16 (sha256 (nameHash ++ identityHash id)).

(** [segments.join(".")]. *)
Fixpoint channelPath (segments : list jsstr) : jsstr :=
  match segments with
  | [] => []
  | [s] => s
  | s :: rest => s ++ lit "." ++ channelPath rest
  end.

(** ** Stamps *)

Definition channelStampWorkblock (channelHash innerBlob : bytes) : bytes * bytes :=
  let transientId := fullHash (channelHash ++ innerBlob) in
  (transientId, stampWorkblock transientId STAMP_EXPAND_ROUNDS).

Definition generateChannelStamp (draws : nat -> bytes) (fuel : nat) (channelHash innerBlob : bytes)
    (stampCost : Z) : option (bytes * option Z) :=
  let '(transientId, _) := channelStampWorkblock channelHash innerBlob in
  generateStamp draws fuel transientId stampCost STAMP_EXPAND_ROUNDS.

Definition validateChannelStamp (channelHash innerBlob stamp : bytes) (stampCost : Z) : bool :=
  if (length stamp <? STAMP_SIZE)%nat then false
  else let '(_, workblock) := channelStampWorkblock channelHash innerBlob in
       stampValid stamp stampCost workblock.

(** ** Wrapping *)

Record Wrapped := mkWrapped {
  rfedPayload : bytes;
  channelHash : bytes;
  innerBlob : bytes;
  w_stamp : option bytes;
}.

(** The stamp of a message, if its channel asks for one; [None] when none of
    the draws is valid, or its value never comes. *)
Definition channel_stamp (draws : nat -> bytes) (fuel : nat) (hash inner : bytes) (stampCost : option Z)
    : option (option bytes) :=
  match stampCost with
  | Some cost =>
      if 0 <? cost then
        match generateChannelStamp draws fuel hash inner cost with
        | Some (generated, Some _) => Some (Some generated)
        | _ => None
        end
      else Some None
  | None => Some None
  end.

(** Framing, once the plaintext is there. *)
Definition frame (draws : nat -> bytes) (fuel : nat) (channelIdentity : Identity) (inner : bytes)
    (stampCost : option Z) : option Wrapped :=
  let hash := identityHash channelIdentity in
  match channel_stamp draws fuel hash inner stampCost with
  | None => None
  | Some stamp => Some (mkWrapped (hash ++ inner ++ default [] stamp) hash inner stamp)
  end.

(** [lxmMessage] with its addressing overwritten. *)
Definition addressed (m : Message) (src dst : bytes) : Message :=
  mkMessage (Some src) dst (timestamp m) (title m) (content m) (fields m) (signature m) (signedPart m)
    (stamp m) (messageId m) (_decodedPayload m).

(** The message after it, the wrapped payload and the channel's delivery hash. *)
Definition wrapChannelMessage (draws : nat -> bytes) (fuel : nat) (eph iv : bytes)
    (channelIdentity senderIdentity : Identity) (senderLxmDeliveryHash : bytes) (lxmMessage : Message)
    (stampCost : option Z) : dec (Message * Wrapped * bytes) :=
  let channelDeliveryHash := deliveryHashFor channelIdentity in
  dbind (serialize senderIdentity (addressed lxmMessage senderLxmDeliveryHash channelDeliveryHash))
    (fun '(m, _, wireData) =>
  let lxmfTail := slice_from HASH_LENGTH wireData in
  let plaintext := MAGIC_RTID ++ getPublicKey senderIdentity ++ lxmfTail in
  dbind (lift_dec (Identity.encrypt eph iv channelIdentity plaintext None)) (fun inner =>
  match frame draws fuel channelIdentity inner stampCost with
  | None => None
  | Some w => dret (m, w, channelDeliveryHash)
  end)).

Definition wrapRawChannelMessage (draws : nat -> bytes) (fuel : nat) (eph iv : bytes)
    (channelIdentity senderIdentity : Identity) (payload : bytes) (stampCost : option Z) : dec Wrapped :=
  let plaintext := MAGIC_RTID ++ getPublicKey senderIdentity ++ payload in
  dbind (lift_dec (Identity.encrypt eph iv channelIdentity plaintext None)) (fun inner =>
  match frame draws fuel channelIdentity inner stampCost with
  | None => None
  | Some w => dret w
  end).

(** ** Splitting *)

Definition parseFanoutPayload (payload : bytes) : result (bytes * bytes) :=
  if (length payload <? HASH_LENGTH)%nat then Throw (JsError "rfed fanout payload too short")
  else Ok (slice 0 HASH_LENGTH payload, slice_from HASH_LENGTH payload).

Definition parseSendPayload (payload : bytes) : result (bytes * bytes * bytes) :=
  if (length payload <? HASH_LENGTH + STAMP_SIZE)%nat then Throw (JsError "rfed SEND payload too short")
  else let cut := (length payload - STAMP_SIZE)%nat in
       Ok (slice 0 HASH_LENGTH payload, slice HASH_LENGTH cut payload, slice_from cut payload).

(** ** Unwrapping *)

(** The plaintext after its checks: the sender's key and what follows. *)
Definition open_prelude (least : nat) (short : string) (channelIdentity : Identity) (inner : bytes) : result (bytes * bytes) :=
  let! plaintext := Identity.decrypt channelIdentity inner None in
  match plaintext with
  | None => Throw (JsError "rfed inner_blob EC-decryption failed (wrong channel?)")
  | Some p =>
      if (length p <? least)%nat then Throw (JsError short)
      else if negb (bool_decide (slice 0 MAGIC_LENGTH p = MAGIC_RTID))
      then Throw (JsError "rfed prelude magic mismatch")
      else Ok (slice MAGIC_LENGTH PRELUDE_LENGTH p, slice_from PRELUDE_LENGTH p)
  end.

Record Unwrapped := mkUnwrapped {
  message : Message;
  senderPub : bytes;
  senderIdentity : Identity;
  signatureValid : bool;
}.

(** [rns.transport.rememberIdentity]: the packet hash, the destination hash
    and the key. *)
Record Remembered := mkRemembered { rm_packetHash : bytes; rm_destinationHash : bytes; rm_publicKey : bytes }.

(** What is remembered, and the message; what [rememberIdentity] throws is
    ignored. *)
Definition unwrapChannelMessage (nowSecs : value) (inner : bytes) (channelIdentity : Identity)
    (channelDeliveryHash : bytes) : option Remembered * dec Unwrapped :=
  match open_prelude (PRELUDE_LENGTH + HASH_LENGTH) "rfed prelude plaintext too short" channelIdentity inner with
  | Throw e => (None, dthrow e)
  | Ok (pub, lxmfTail) =>
      match deserialize nowSecs (channelDeliveryHash ++ lxmfTail) (Some channelDeliveryHash) with
      | None => (None, None)
      | Some (Throw e) => (None, dthrow e)
      | Some (Ok m) =>
          let sender := fromPublicKey pub in
          match sourceHash m with
          | Some src =>
              if bytesEqual (deliveryHashFor sender) src then
                (Some (mkRemembered (default src (messageId m)) src pub),
                 dbind (verifySignature sender m) (fun ok => dret (mkUnwrapped m pub sender ok)))
              else (None, dthrow (JsError "rfed prelude key binding failed"))
          | None => (None, dthrow (TypeError "Cannot read properties of undefined"))
          end
      end
  end.

(** The payload, the sender's key and identity. *)
Definition unwrapRawChannelMessage (inner : bytes) (channelIdentity : Identity)
    : result (bytes * bytes * Identity) :=
  let! opened := open_prelude PRELUDE_LENGTH "rfed raw prelude too short" channelIdentity inner in
  let '(pub, payload) := opened in Ok (payload, pub, fromPublicKey pub).

End WithCrypto.

(** ** Channels and keys *)

(** What a platform's X25519 relates: the agreement with the base point is the
    public key (RFC 7748). *)
Class X25519Base (C : WebCrypto) :=
  x25519_base : forall k, length k = 32%nat -> x25519_bits k X25519_BASEPOINT = Some (x25519_pub k).

Section Theorems.
Context `{C : WebCrypto} `{H : JsHost} `{W : !WebCryptoLaws C}.

Lemma import_key_32 k : length k = 32%nat -> import_key k = Ok k.
Proof using Type. intros Hk. unfold import_key, import32. by rewrite Hk. Qed.

Lemma deliveryHashFor_length id : length (deliveryHashFor id) = 16%nat.
Proof using W. unfold deliveryHashFor. cbv zeta. rewrite length_slice, sha256_length. lia. Qed.

(** The identity of a channel, whose two private keys are the hash of the
    name. *)
Definition channel_identity (name : jsstr) : Identity :=
  generate (sha256 (utf8_encode name)) (sha256 (utf8_encode name)).

Lemma deriveChannel_ok `{B : !X25519Base C} name :
  deriveChannel name = Ok (channel_identity name, identityHash (channel_identity name)).
Proof using W.
  unfold deriveChannel, x25519PublicFromSeed, ed25519PublicFromSeed. cbv zeta.
  rewrite !(import_key_32 (sha256 _)) by apply sha256_length.
  rewrite (import_key_32 X25519_BASEPOINT) by done. cbn [rbind].
  rewrite x25519_base by apply sha256_length. cbn [rbind].
  rewrite !import_key_32 by (apply x25519_pub_length || apply ed25519_pub_length). done.
Qed.

(** A channel is the same for everyone who knows its name: the derivation gives
    the identity that the core makes of the private key [seed ‖ seed], the
    channel hash is its identity hash, and its delivery hash is the hash of an
    lxmf.delivery destination of that identity. *)
Theorem channel_derived `{B : !X25519Base C} (name : jsstr) :
  deriveChannel name = Ok (channel_identity name, identityHash (channel_identity name))
  /\ fromPrivateKey (sha256 (utf8_encode name) ++ sha256 (utf8_encode name)) = Some (channel_identity name)
  /\ wf_identity (channel_identity name)
  /\ forall id layer, Destination.destinationHash (create LXMF_DELIVERY_NAME OUT DestType_SINGLE (Some id) layer)
       = Some (deliveryHashFor id).
Proof.
  split; [apply deriveChannel_ok|]. split; [|split; [apply generate_wf|done]].
  pose proof (sha256_length (utf8_encode name)) as Hl. set (seed := sha256 (utf8_encode name)) in *.
  unfold fromPrivateKey. rewrite length_app, Hl. cbn [Nat.add Nat.eqb negb].
  rewrite slice_app_take by done. replace (slice 32 64 (seed ++ seed)) with seed.
  - unfold import32. rewrite Hl. done.
  - rewrite <- (app_nil_r (seed ++ seed)), <- app_assoc. symmetry. apply slice_app_here; lia.
Qed.

(** ** Messages on a channel *)

Lemma frame_parts draws fuel ch inner cost w : frame draws fuel ch inner cost = Some w ->
  channelHash w = identityHash ch /\ innerBlob w = inner
  /\ rfedPayload w = identityHash ch ++ inner ++ default [] (w_stamp w)
  /\ channel_stamp draws fuel (identityHash ch) inner cost = Some (w_stamp w).
Proof using Type.
  unfold frame. cbv zeta. destruct (channel_stamp _ _ _ _ _) as [st|]; [|done]. by intros [= <-].
Qed.

(** A stamp in the search's result is one of the draws and valid. *)
Lemma channel_stamp_valid draws fuel hash inner cost st least :
  (forall i, length (draws i) = STAMP_SIZE) -> least <= cost <= 256 ->
  channel_stamp draws fuel hash inner (Some cost) = Some (Some st) ->
  length st = STAMP_SIZE /\ validateChannelStamp hash inner st least = true.
Proof using Type.
  intros Hd Hc. unfold channel_stamp. destruct (0 <? cost); [|done].
  unfold generateChannelStamp, validateChannelStamp. cbn [channelStampWorkblock].
  unfold generateStamp. destruct (search _ _ _ _ _) as [[s [v|]]|] eqn:E; [|done|done]. intros [= ->].
  apply search_valid in E as (Hv & _ & j & -> & _). rewrite Hd. split; [done|].
  rewrite Nat.ltb_irrefl. unfold stampValid in *. rewrite Z.leb_le, Z.shiftl_mul_pow2, Z.mul_1_l in * by lia.
  etransitivity; [exact Hv|]. apply Z.pow_le_mono_r; lia.
Qed.

(** How the node and the subscribers take a payload apart. *)
Record splits (ch : Identity) (cost : option Z) (w : Wrapped) : Prop := {
  sp_hash : channelHash w = identityHash ch;
  sp_unstamped : w_stamp w = None ->
    parseFanoutPayload (rfedPayload w) = Ok (identityHash ch, innerBlob w);
  sp_stamped : forall c st, cost = Some c -> w_stamp w = Some st ->
    parseSendPayload (rfedPayload w) = Ok (identityHash ch, innerBlob w, st)
    /\ forall least, least <= c <= 256 -> validateChannelStamp (identityHash ch) (innerBlob w) st least = true;
  sp_when : (w_stamp w = None <-> forall c, cost = Some c -> c <= 0);
}.

Lemma frame_splits draws fuel ch inner cost w : length (identityHash ch) = 16%nat ->
  (forall i, length (draws i) = STAMP_SIZE) -> frame draws fuel ch inner cost = Some w -> splits ch cost w.
Proof using Type.
  intros Hh Hd (H1 & H2 & H3 & H4)%frame_parts. split; [done|..].
  - intros Hn. unfold parseFanoutPayload, HASH_LENGTH, slice_from. rewrite H3, H2, Hn.
    change (default [] None) with (@nil Z). rewrite app_nil_r.
    rewrite length_app, Hh, (proj2 (Nat.ltb_ge _ _)) by lia.
    rewrite slice_app_take, drop_app_length' by done. done.
  - intros c st -> Hst. rewrite Hst in H4. split.
    + assert (Hl : length st = STAMP_SIZE).
      { unfold channel_stamp, generateChannelStamp, generateStamp in H4. destruct (0 <? c); [|done]. cbn [channelStampWorkblock] in H4.
        destruct (search _ _ _ _ _) as [[s [v|]]|] eqn:E; [|done|done]. injection H4 as ->.
        apply search_valid in E as (_ & _ & j & -> & _). apply Hd. }
      unfold parseSendPayload, HASH_LENGTH, slice_from. rewrite H3, H2, Hst.
      change (default [] (Some st)) with st. cbv zeta.
      rewrite !length_app, Hh, Hl, (proj2 (Nat.ltb_ge _ _)) by lia. rewrite slice_app_take by done.
      rewrite slice_app_here by lia. rewrite app_assoc, drop_app_length' by (rewrite length_app; lia). done.
    + intros least Hc. rewrite H2. by eapply channel_stamp_valid.
  - unfold channel_stamp in H4. destruct cost as [c|]; [|split; [done|by injection H4 as <-]].
    destruct (0 <? c) eqn:E; bools.
    + destruct (generateChannelStamp _ _ _ _ _) as [[s [v|]]|]; [|done|done]. injection H4 as <-.
      split; [done|]. intros Hc. specialize (Hc c eq_refl). lia.
    + injection H4 as <-. split; [|done]. intros _ ? [= <-]. done.
Qed.

(** ** The round trips *)

(** The prelude of what was encrypted to a channel. *)
Lemma open_prelude_ok least short ch sender eph iv tail inner :
  wf_identity ch -> wf_identity sender -> length iv = 16%nat ->
  opens ch None eph iv (MAGIC_RTID ++ getPublicKey sender ++ tail) None ->
  Identity.encrypt eph iv ch (MAGIC_RTID ++ getPublicKey sender ++ tail) None = Ok inner ->
  (least <= PRELUDE_LENGTH + length tail)%nat ->
  open_prelude least short ch inner = Ok (getPublicKey sender, tail).
Proof using W.
  intros Hch Hsd Hiv Hop Henc Hl. destruct (opens_decrypt _ _ _ _ _ _ Hch Hiv Hop) as (c & Hc & Hd).
  rewrite Henc in Hc. injection Hc as <-. unfold open_prelude. rewrite Hd. cbn [rbind].
  pose proof (getPublicKey_length sender Hsd) as Hp. unfold PRELUDE_LENGTH, MAGIC_LENGTH, PUBLIC_KEY_LENGTH in *.
  rewrite !length_app, Hp, (proj2 (Nat.ltb_ge _ _)) by (cbn [length MAGIC_RTID]; lia).
  rewrite slice_app_take, bool_decide_true by done. cbn [negb].
  rewrite (slice_app_here 4 _ MAGIC_RTID) by (done || by rewrite Hp). unfold slice_from.
  rewrite app_assoc, drop_app_length' by (by rewrite length_app, Hp). done.
Qed.

(** Verification reads the Ed25519 key only. *)
Lemma received_by_key a b m src mid m2 : ed25519Pub a = ed25519Pub b ->
  received_as a m src mid m2 -> received_as b m src mid m2.
Proof using Type.
  intros Hab [? ? ? ? ? ? ? ? Hv]. split; try done. rewrite <- Hv. unfold verifySignature, validate. by rewrite Hab.
Qed.

(** A message published on a channel is read by everyone who knows the
    channel's name: what [wrapChannelMessage] makes is taken apart into the
    channel's hash, the encrypted message and, where a stamp was asked for, a
    stamp that is valid for every lower cost; and it is unwrapped into the
    message that was sent, with the sender's key, which is remembered under the
    source hash, and a valid signature. *)
Theorem channel_message_roundtrip (draws : nat -> bytes) (fuel : nat) (eph iv : bytes) (ch sender : Identity)
    (m : Message) (ti co : jsstr) (cost : option Z) (nowSecs : value)
    (m' : Message) (w : Wrapped) (dh : bytes)
    (Hch : wf_identity ch) (Hsender : wf_identity sender) (Hiv : length iv = 16%nat)
    (Hdraws : forall i, length (draws i) = STAMP_SIZE)
    (Hopen : forall p, opens ch None eph iv p None)
    (Hm : sendable (addressed m (deliveryHashFor sender) (deliveryHashFor ch))
            (deliveryHashFor sender) ti co)
    (Hrun : wrapChannelMessage draws fuel eph iv ch sender (deliveryHashFor sender) m cost = dret (m', w, dh)) :
  splits ch cost w /\ dh = deliveryHashFor ch
  /\ exists mid m2, messageId m' = Some mid
     /\ unwrapChannelMessage nowSecs (innerBlob w) ch dh
        = (Some (mkRemembered mid (deliveryHashFor sender) (getPublicKey sender)),
           dret (mkUnwrapped m2 (getPublicKey sender) (fromPublicKey (getPublicKey sender)) true))
     /\ received_as (fromPublicKey (getPublicKey sender))
          (addressed m (deliveryHashFor sender) (deliveryHashFor ch)) (deliveryHashFor sender) mid m2.
Proof.
  destruct (fromPublicKey_of sender Hsender) as (Hed & _ & _ & Hih).
  pose proof Hsender as (_ & (key & Hkey & Hpub) & _). set (m0 := addressed m _ _) in *.
  destruct (serialize_ok sender key m0 _ ti co Hkey Hm) as (ms & mid & sig & p4 & payload & Hw).
  unfold wrapChannelMessage in Hrun. fold m0 in Hrun.
  rewrite (ow_run _ _ _ _ _ _ _ _ _ _ _ Hw) in Hrun. cbn [dbind dret] in Hrun. unfold slice_from, HASH_LENGTH in Hrun.
  rewrite drop_app_length' in Hrun by (symmetry; apply (deliveryHashFor_length ch)).
  set (tail := deliveryHashFor sender ++ sig ++ payload) in *.
  destruct (Identity.encrypt eph iv ch _ None) as [inner|] eqn:Ee; [|discriminate]. cbn [lift_dec dbind] in Hrun.
  destruct (frame draws fuel ch inner cost) as [w0|] eqn:Ef; [|discriminate]. injection Hrun as <- <- <-.
  assert (Hlh : length (identityHash ch) = 16%nat).
  { destruct Hch as (_ & _ & _ & ->). unfold truncatedHash, fullHash. rewrite length_slice, sha256_length. unfold TRUNCATED_HASH_LENGTH. lia. }
  split; [by eapply frame_splits|]. split; [done|].
  apply frame_parts in Ef as (_ & -> & _ & _).
  assert (Hsig : length sig = 64%nat) by (rewrite (ow_sig _ _ _ _ _ _ _ _ _ _ _ Hw); apply ed25519_sign_length).
  assert (Htail : (80 <= length tail)%nat).
  { unfold tail. rewrite !length_app, deliveryHashFor_length, Hsig. lia. }
  unfold unwrapChannelMessage.
  rewrite (open_prelude_ok _ _ ch sender eph iv tail) by (done || unfold HASH_LENGTH; lia).
  destruct (deserialize_ok sender key nowSecs m0 _ ti co ms mid sig p4 payload
              (deliveryHashFor ch ++ tail) (Some (deliveryHashFor ch)) Hpub Hm Hw) as (m2 & -> & Hr).
  { apply split_direct; [apply deliveryHashFor_length..|done|by right]. }
  apply (received_by_key _ _ _ _ _ _ (eq_sym Hed)) in Hr.
  exists mid, m2. split; [apply (ow_same _ _ _ _ _ _ _ _ _ _ _ Hw)|]. split; [|done].
  cbn [dret]. rewrite (ra_source _ _ _ _ _ Hr), (ra_id _ _ _ _ _ Hr), (ra_verified _ _ _ _ _ Hr).
  assert (Hdh : deliveryHashFor (fromPublicKey (getPublicKey sender)) = deliveryHashFor sender)
    by (unfold deliveryHashFor; by rewrite Hih).
  by rewrite Hdh, bytesEqual_refl.
Qed.

(** The same for raw bytes. *)
Theorem raw_message_roundtrip (draws : nat -> bytes) (fuel : nat) (eph iv : bytes) (ch sender : Identity)
    (payload : bytes) (cost : option Z) (w : Wrapped)
    (Hch : wf_identity ch) (Hsender : wf_identity sender) (Hiv : length iv = 16%nat)
    (Hdraws : forall i, length (draws i) = STAMP_SIZE)
    (Hopen : opens ch None eph iv (MAGIC_RTID ++ getPublicKey sender ++ payload) None)
    (Hrun : wrapRawChannelMessage draws fuel eph iv ch sender payload cost = dret w) :
  splits ch cost w
  /\ unwrapRawChannelMessage (innerBlob w) ch
     = Ok (payload, getPublicKey sender, fromPublicKey (getPublicKey sender)).
Proof.
  unfold wrapRawChannelMessage in Hrun. cbv zeta in Hrun.
  destruct (Identity.encrypt eph iv ch _ None) as [inner|] eqn:Ee; [|discriminate]. cbn [lift_dec dbind] in Hrun.
  destruct (frame draws fuel ch inner cost) as [w0|] eqn:Ef; [|discriminate]. injection Hrun as <-.
  assert (Hlh : length (identityHash ch) = 16%nat).
  { destruct Hch as (_ & _ & _ & ->). unfold truncatedHash, fullHash. rewrite length_slice, sha256_length. unfold TRUNCATED_HASH_LENGTH. lia. }
  split; [by eapply frame_splits|]. apply frame_parts in Ef as (_ & -> & _ & _).
  unfold unwrapRawChannelMessage. by rewrite (open_prelude_ok _ _ ch sender eph iv payload) by (done || lia).
Qed.

(** The message read from a post is addressed to the channel it was put before. *)
Lemma channel_addressed (nowSecs : value) (dh tail : bytes) (m : Message) : length dh = 16%nat ->
  deserialize nowSecs (dh ++ tail) (Some dh) = dret m -> destinationHash m = dh.
Proof.
  intros Hdh Hm. unfold deserialize in Hm. destruct (split_wire _ _) as [[[[dst src] sig] raw]|x] eqn:Es; [|discriminate].
  assert (Ed : dst = Some dh).
  { unfold split_wire in Es. destruct (is_direct _ _); [|destruct (_ <=? _)%nat; [by injection Es|discriminate]].
    injection Es as <- _ _ _. unfold DESTINATION_LENGTH. rewrite <- Hdh. by rewrite slice_app_take. }
  subst dst. cbn [lift_dec dbind] in Hm. destruct (decode_body raw) as [v|x]; [|discriminate]. cbn [lift_dec dbind] in Hm.
  destruct v as [| | | | | | |[|ts [|ti [|co [|fi rest]]]]| |]; try discriminate.
  destruct (match rest with [] => dret raw | _ => packPayload ts ti co fi VNull end) as [[packed|x]|]; try discriminate.
  cbn [dbind] in Hm. destruct (signed_part dh src packed) as [[mid signed]|x]; [|discriminate].
  cbn [lift_dec dbind] in Hm. by injection Hm as <-.
Qed.

(** C32: A post on a channel is bound to its author and its channel: whatever
    bytes arrive, a key is remembered only under the hash of the delivery
    destination that the key itself determines, and nothing is remembered of a
    post that is refused.  The message shown is addressed to this channel; of a
    post whose signature is found valid, that key signed this channel's hash,
    its own and a payload that either is the one received, and decodes to the
    four elements shown, or is their canonical encoding, followed by the hash
    of all of these. *)
Theorem channel_post_bound (nowSecs : value) (inner dh : bytes) (ch : Identity)
    (remembered : option Remembered) (r : dec Unwrapped) (Hdh : length dh = 16%nat)
    (Hrun : unwrapChannelMessage nowSecs inner ch dh = (remembered, r)) :
  (forall k, remembered = Some k ->
     rm_destinationHash k = deliveryHashFor (fromPublicKey (rm_publicKey k)))
  /\ forall u, r = dret u ->
     (exists mid, remembered = Some (mkRemembered mid (deliveryHashFor (senderIdentity u)) (senderPub u)))
     /\ senderIdentity u = fromPublicKey (senderPub u)
     /\ sourceHash (message u) = Some (deliveryHashFor (senderIdentity u))
     /\ destinationHash (message u) = dh
     /\ (signatureValid u = true -> verifySignature (senderIdentity u) (message u) = dret true
          /\ exists sig p4 ts ti co fi rest, signature (message u) = Some sig /\ shows (message u) ts ti co fi
             /\ _decodedPayload (message u) = Some (ts :: ti :: co :: fi :: rest)
             /\ ((rest = [] /\ decode_body p4 = Ok (VArr [ts; ti; co; fi])) \/ packPayload ts ti co fi VNull = dret p4)
             /\ validate (senderIdentity u) sig
                  ((dh ++ deliveryHashFor (senderIdentity u) ++ p4)
                   ++ sha256 (dh ++ deliveryHashFor (senderIdentity u) ++ p4)) = true).
Proof.
  unfold unwrapChannelMessage in Hrun.
  destruct (open_prelude _ _ ch inner) as [[pub tail]|]; [|injection Hrun as <- <-; split; discriminate].
  destruct (deserialize _ _ _) as [[m|]|] eqn:Ed; [|injection Hrun as <- <-; split; discriminate..].
  destruct (sourceHash m) as [src|] eqn:Es; [|injection Hrun as <- <-; split; discriminate].
  destruct (bytesEqual _ src) eqn:Eb; [|injection Hrun as <- <-; split; discriminate].
  apply bytesEqual_spec in Eb. injection Hrun as <- <-. split; [by intros k [= <-]|].
  intros u Hu. destruct (verifySignature _ m) as [[ok|]|] eqn:Ev; [|discriminate..]. injection Hu as <-.
  cbn [senderIdentity senderPub message signatureValid]. rewrite Eb. split; [by eexists|]. split; [done|]. split; [done|].
  pose proof (channel_addressed _ _ _ _ Hdh Ed) as Hd. split; [done|]. intros ->. split; [done|].
  destruct (message_signed nowSecs _ (Some dh) _ m Hdh Ed Ev) as (src' & sig & p4 & ts & ti & co & fi & rest & Hs & Hsig & Hsh & Hp & Hdp & Hv).
  rewrite Es in Hs. injection Hs as <-. rewrite Hd in Hv. by exists sig, p4, ts, ti, co, fi, rest.
Qed.

End Theorems.

(** ** A concrete channel *)

Section Samples.
Import MsgPackSpec.Host.

(** [Toy] with short sums and public keys that are agreements with the base
    point. *)
Definition mask : Z := Eval vm_compute in 2 ^ 256 - 1.

Definition short_digest (n : nat) (m : bytes) : bytes :=
  be_bytes n (fold_left (fun acc b => Z.land (acc * 257 + b + 1) mask) m 7).

Definition add_bytes (a b : bytes) : bytes := map (fun '(x, y) => (x + y) mod 256) (zip a b).

#[local] Instance base_crypto : WebCrypto := {|
  sha256 := short_digest 32;
  hmac_sha256 k m := short_digest 32 (k ++ m);
  aes_cbc_encrypt _ _ m := Pkcs7.pad m;
  aes_cbc_decrypt _ _ m := match Pkcs7.unpad m with Ok m => Some m | Throw _ => None end;
  x25519_pub k := add_bytes (short_digest 32 k) X25519_BASEPOINT;
  x25519_bits a b := Some (add_bytes (short_digest 32 a) b);
  ed25519_pub k := short_digest 32 k;
  ed25519_sign k m := short_digest 32 k ++ short_digest 32 m;
  ed25519_verify pk s m := bytesEqual s (pk ++ short_digest 32 m);
|}.

Lemma short_digest_length n m : length (short_digest n m) = n.
Proof. apply length_be_bytes. Qed.

Lemma short_digest_wf n m : wf_bytes (short_digest n m).
Proof. apply wf_be_bytes. Qed.

Lemma add_bytes_wf a b : wf_bytes (add_bytes a b).
Proof.
  unfold add_bytes. apply Forall_map, Forall_true. intros [x y]. cbn. unfold is_byte.
  pose proof (Z.mod_pos_bound (x + y) 256). lia.
Qed.

Lemma add_bytes_swap a b c : add_bytes a (add_bytes b c) = add_bytes b (add_bytes a c).
Proof.
  revert b c. induction a as [|x a IH]; intros [|y b] [|z c]; try done.
  unfold add_bytes in *. cbn [zip_with map]. rewrite IH. f_equal.
  rewrite !Zplus_mod_idemp_r. f_equal. lia.
Qed.

#[local] Instance base_laws : WebCryptoLaws base_crypto.
Proof.
  constructor; intros; unfold sha256, hmac_sha256, aes_cbc_decrypt, aes_cbc_encrypt,
    x25519_pub, x25519_bits, ed25519_pub, ed25519_sign, ed25519_verify, base_crypto;
    rewrite ?length_app, ?short_digest_length; try done; try apply short_digest_wf.
  - by rewrite (proj1 (Pkcs7.pkcs7_pad_unpad m)).
  - apply wf_bytes_app; [done|]. pose proof (Pkcs7.pad_len m). apply wf_bytes_replicate. unfold is_byte. lia.
  - unfold Pkcs7.pad. rewrite length_app, length_replicate.
    pose proof (Nat.div_mod_eq (length m) 16). pose proof (Nat.mod_upper_bound (length m) 16). lia.
  - apply add_bytes_wf.
  - by rewrite add_bytes_swap.
  - apply wf_bytes_app; apply short_digest_wf.
  - apply bytesEqual_refl.
Qed.

#[local] Instance base_base : X25519Base base_crypto.
Proof. intros k Hk. reflexivity. Qed.

#[local] Existing Instance no_exotic.

Definition news : jsstr := lit "public.news".
Definition news_channel : Identity := Eval vm_compute in channel_identity news.
Definition publisher : Identity := Eval vm_compute in generate (replicate 32 1) (replicate 32 2).
Definition sample_draws (i : nat) : bytes := replicate 32 (32 * Z.of_nat i).

Definition sample_post : Message :=
  new_Message (VInt 1) None [] sample_time (VStr (lit "hi")) (VStr (lit "hello")) text_fields None None VNull None.

Definition sample_wrap : dec (Message * Wrapped * bytes) := Eval vm_compute in
  wrapChannelMessage sample_draws 10 (replicate 32 6) (replicate 16 8) news_channel publisher
    (deliveryHashFor publisher) sample_post (Some 2).

Definition sample_parts : Message * Wrapped * bytes := Eval vm_compute in
  match sample_wrap with
  | Some (Ok p) => p
  | _ => (sample_post, mkWrapped [] [] [] None, [])
  end.

Definition sample_blob : bytes := Eval vm_compute in innerBlob (snd (fst sample_parts)).

Lemma channel_derived_witness : deriveChannel news = Ok (news_channel, identityHash news_channel).
Proof. exact (proj1 (@channel_derived base_crypto base_laws base_base news)). Defined.

Lemma channel_message_roundtrip_witness :
  splits news_channel (Some 2) (snd (fst sample_parts))
  /\ exists m2, snd (unwrapChannelMessage (VInt 2) sample_blob news_channel (snd sample_parts))
       = dret (mkUnwrapped m2 (getPublicKey publisher) (fromPublicKey (getPublicKey publisher)) true)
     /\ content m2 = VStr (lit "hello").
Proof.
  destruct (@channel_message_roundtrip base_crypto no_exotic base_laws sample_draws 10 (replicate 32 6) (replicate 16 8)
    news_channel publisher sample_post (lit "hi") (lit "hello") (Some 2) (VInt 2)
    (fst (fst sample_parts)) (snd (fst sample_parts)) (snd sample_parts)) as (Hs & _ & mid & m2 & _ & Hu & Hr).
  - refine (generate_wf _ _).
  - refine (generate_wf _ _).
  - reflexivity.
  - intros i. apply length_replicate.
  - intros p. split; [reflexivity|]. eexists _, _. split; reflexivity.
  - split; try (by repeat split).
    + split; [|by eexists]. apply (canonical_obj 126); [reflexivity|split| |].
      * apply NoDup_singleton.
      * repeat constructor.
      * repeat constructor; vm_compute; reflexivity.
      * repeat constructor; cbn; unfold MAX_SAFE_INTEGER; lia.
    + by left.
  - vm_compute. reflexivity.
  - split; [exact Hs|]. exists m2. split; [exact (f_equal snd Hu)|exact (ra_content _ _ _ _ _ Hr)].
Defined.

Lemma channel_post_bound_witness :
  exists k u, fst (unwrapChannelMessage (VInt 2) sample_blob news_channel (snd sample_parts)) = Some k
  /\ rm_destinationHash k = deliveryHashFor (fromPublicKey (rm_publicKey k))
  /\ snd (unwrapChannelMessage (VInt 2) sample_blob news_channel (snd sample_parts)) = dret u
  /\ destinationHash (message u) = snd sample_parts /\ verifySignature (senderIdentity u) (message u) = dret true.
Proof.
  destruct (unwrapChannelMessage (VInt 2) sample_blob news_channel (snd sample_parts)) as [rem r] eqn:E.
  destruct (@channel_post_bound base_crypto no_exotic (VInt 2) sample_blob (snd sample_parts) news_channel rem r) as [H1 H2].
  - vm_compute. reflexivity.
  - exact E.
  - vm_compute in E. injection E as <- <-. eexists _, _. split; [reflexivity|]. split; [apply H1; reflexivity|]. split; [reflexivity|].
    destruct (H2 _ eq_refl) as (_ & _ & _ & Hd & Hv). split; [exact Hd|]. exact (proj1 (Hv eq_refl)).
Defined.
End Samples.
