(* ===== verification/RfedQueue.v ===== *)
(** * RfedQueue: blobs that wait for their subscribers
    (packages/rfed/src/deferred_queue.js)

    A bucket per subscriber, under the hexadecimal form of its hash, oldest
    blob first.  Times are rational seconds, limits integers. *)

From Stdlib Require Import QArith.
From S2P Require Import Prelude Encoding JsMap.
#[local] Open Scope Z_scope.

Record PendingBlob := mkPending {
  channelHash : bytes;
  blob : bytes;
  enqueuedAt : Q;
}.

Definition DEFAULT_GLOBAL_LIMIT : Z := 4096.

Record DeferredQueue := mkQueue {
  _buckets : jsmap (list PendingBlob);
  globalLimit : Z;
}.

Definition new_DeferredQueue (limit : option Z) : DeferredQueue :=
  mkQueue [] (default DEFAULT_GLOBAL_LIMIT limit).

Definition with_buckets (q : DeferredQueue) (m : jsmap (list PendingBlob)) : DeferredQueue :=
  mkQueue m (globalLimit q).

Definition totalLen (q : DeferredQueue) : Z := weight zlen (_buckets q).

(** A bucket that is empty or missing. *)
Definition put_bucket (key : jsstr) (b : list PendingBlob) (q : DeferredQueue) : DeferredQueue :=
  with_buckets q (match b with [] => mdelete key (_buckets q) | _ => mset key b (_buckets q) end).

Definition enqueue (now : Q) (subscriberHash channel data : bytes) (perSubscriberLimit : Z)
    (q : DeferredQueue) : DeferredQueue :=
  if globalLimit q <=? totalLen q then q else
  let key := toHex subscriberHash in
  let bucket := default [] (get key (_buckets q)) in
  let bucket := if perSubscriberLimit <=? zlen bucket then tail bucket else bucket in
  with_buckets q (mset key (bucket ++ [mkPending channel data now]) (_buckets q)).

Definition drain (subscriberHash : bytes) (q : DeferredQueue) : DeferredQueue * list PendingBlob :=
  let key := toHex subscriberHash in
  match get key (_buckets q) with
  | None => (q, [])
  | Some bucket => (with_buckets q (mdelete key (_buckets q)), bucket)
  end.

Definition drainBatch (subscriberHash : bytes) (max : Z) (q : DeferredQueue)
    : DeferredQueue * list PendingBlob :=
  if max <=? 0 then (q, []) else
  let key := toHex subscriberHash in
  match get key (_buckets q) with
  | None => (q, [])
  | Some bucket => (put_bucket key (drop (Z.to_nat max) bucket) q, take (Z.to_nat max) bucket)
  end.

(** The loop over the bucket: what is removed, what is kept. *)
Fixpoint split_channel (want : jsstr) (max : Z) (removed kept bucket : list PendingBlob)
    : list PendingBlob * list PendingBlob :=
  match bucket with
  | [] => (removed, kept)
  | entry :: bucket =>
      if (zlen removed <? max) && bool_decide (toHex (channelHash entry) = want)
      then split_channel want max (removed ++ [entry]) kept bucket
      else split_channel want max removed (kept ++ [entry]) bucket
  end.

Definition drainChannelBatch (subscriberHash channel : bytes) (max : Z) (q : DeferredQueue)
    : DeferredQueue * list PendingBlob :=
  let key := toHex subscriberHash in
  match get key (_buckets q) with
  | None => (q, [])
  | Some bucket =>
      let '(removed, kept) := split_channel (toHex channel) max [] [] bucket in
      (put_bucket key kept q, removed)
  end.

Definition hasPending (subscriberHash : bytes) (q : DeferredQueue) : bool :=
  match get (toHex subscriberHash) (_buckets q) with
  | Some bucket => (0 <? length bucket)%nat
  | None => false
  end.

Definition hasPendingChannel (subscriberHash channel : bytes) (q : DeferredQueue) : bool :=
  match get (toHex subscriberHash) (_buckets q) with
  | Some bucket => existsb (fun e => bool_decide (toHex (channelHash e) = toHex channel)) bucket
  | None => false
  end.

(** [e.enqueuedAt >= threshold]. *)
Definition fresh (threshold : Q) (e : PendingBlob) : bool := Qle_bool threshold (enqueuedAt e).

(** The loop over the map changes only the entry it is at. *)
Fixpoint evict_loop (threshold : Q) (es : jsmap (list PendingBlob)) (q : DeferredQueue) (count : Z)
    : DeferredQueue * Z :=
  match es with
  | [] => (q, count)
  | (key, bucket) :: es =>
      let kept := filter (fun e => fresh threshold e = true) bucket in
      evict_loop threshold es (put_bucket key kept q) (count + (zlen bucket - zlen kept))
  end.

Definition evictExpired (now maxAgeSec : Q) (q : DeferredQueue) : DeferredQueue * Z :=
  evict_loop (now - maxAgeSec) (_buckets q) q 0.

(** The records: the subscriber's hash with the copied entry. *)
Definition exportRecords (q : DeferredQueue) : result (list (bytes * PendingBlob)) :=
  foldr (fun '(key, bucket) acc =>
    let! l := acc in let! h := fromHex key in Ok (map (pair h) bucket ++ l)) (Ok []) (_buckets q).

Definition importRecords (records : list (bytes * PendingBlob)) (q : DeferredQueue) : DeferredQueue :=
  fold_left (fun q '(h, e) =>
    let key := toHex h in
    with_buckets q (mset key (default [] (get key (_buckets q)) ++ [e]) (_buckets q)))
    records (with_buckets q []).

(** ** Contents *)

(** What waits for the subscriber of a key. *)
Definition waiting (key : jsstr) (q : DeferredQueue) : list PendingBlob := default [] (get key (_buckets q)).

Definition on_channel (want : jsstr) (e : PendingBlob) : Prop := toHex (channelHash e) = want.

Record queue_ok (q : DeferredQueue) : Prop := {
  qo_keys : wf_map (_buckets q);
  qo_nonempty : Forall (fun '(_, b) => b <> []) (_buckets q);
}.

#[global] Instance on_channel_dec want e : Decision (on_channel want e).
Proof. unfold on_channel. apply _. Defined.

Lemma waiting_total key q : zlen (waiting key q) <= totalLen q.
Proof.
  unfold waiting, totalLen. destruct (get key (_buckets q)) as [b|] eqn:E.
  - apply (weight_get zlen key b); [intros; apply zlen_nonneg|done].
  - apply weight_nonneg. intros. apply zlen_nonneg.
Qed.

Lemma waiting_mset key k b q :
  waiting key (with_buckets q (mset k b (_buckets q))) = if bool_decide (key = k) then b else waiting key q.
Proof.
  unfold waiting. cbn [with_buckets _buckets]. case_bool_decide as E; [by rewrite E, get_mset_same|].
  by rewrite get_mset_other.
Qed.

Lemma waiting_put key k b q : waiting key (put_bucket k b q) = if bool_decide (key = k) then b else waiting key q.
Proof.
  unfold put_bucket. destruct b as [|e b]; [|apply waiting_mset]. unfold waiting. cbn [with_buckets _buckets].
  case_bool_decide as E; [by rewrite E, get_mdelete_same|]. by rewrite get_mdelete_other.
Qed.

Lemma mset_ok k b q : queue_ok q -> b <> [] -> queue_ok (with_buckets q (mset k b (_buckets q))).
Proof. intros [H1 H2] Hb. split; cbn [with_buckets _buckets]; [by apply wf_mset|by apply Forall_mset]. Qed.

Lemma put_bucket_ok k b q : queue_ok q -> queue_ok (put_bucket k b q).
Proof.
  intros Hq. unfold put_bucket. destruct b as [|e b]; [|by apply mset_ok]. destruct Hq as [H1 H2].
  split; cbn [with_buckets _buckets]; [by apply wf_mdelete|by apply Forall_mdelete].
Qed.

Lemma put_limit k b q : globalLimit (put_bucket k b q) = globalLimit q.
Proof. by destruct b. Qed.

Lemma total_mset_bucket k b q :
  totalLen (with_buckets q (mset k b (_buckets q))) = totalLen q - zlen (waiting k q) + zlen b.
Proof.
  unfold totalLen, waiting. cbn [with_buckets _buckets]. rewrite weight_mset. by destruct (get k (_buckets q)).
Qed.

Lemma total_put k b q : queue_ok q -> totalLen (put_bucket k b q) = totalLen q - zlen (waiting k q) + zlen b.
Proof.
  intros Hq. unfold put_bucket. destruct b as [|e b]; [|apply total_mset_bucket].
  unfold totalLen, waiting. cbn [with_buckets _buckets]. rewrite weight_mdelete by apply Hq.
  destruct (get k (_buckets q)) as [l|]; [change (default [] (Some l)) with l|change (default [] None) with (@nil PendingBlob)];
    rewrite ?zlen_nil; lia.
Qed.

(** ** One operation *)

Lemma drainChannelBatch_put sub ch max q : queue_ok q ->
  fst (drainChannelBatch sub ch max q)
  = put_bucket (toHex sub) (snd (split_channel (toHex ch) max [] [] (waiting (toHex sub) q))) q
  /\ snd (drainChannelBatch sub ch max q) = fst (split_channel (toHex ch) max [] [] (waiting (toHex sub) q)).
Proof.
  intros Hq. unfold drainChannelBatch, waiting. destruct (get (toHex sub) (_buckets q)) as [b|] eqn:E.
  - change (default [] (Some b)) with b. by destruct (split_channel _ _ _ _ b).
  - cbn [from_option split_channel fst snd]. split; [|done].
    unfold put_bucket, with_buckets. rewrite mdelete_absent; [by destruct q|].
    apply get_None in E. by rewrite list_elem_of_In.
Qed.

(** The loop takes the first [max] entries of the channel and keeps the others
    in their order. *)
Lemma split_channel_spec want max bucket : forall removed kept, 0 <= max ->
  exists n rest, split_channel want max removed kept bucket
    = (removed ++ take n (filter (on_channel want) bucket), kept ++ rest)
  /\ n = Z.to_nat (max - zlen removed)
  /\ filter (on_channel want) rest = drop n (filter (on_channel want) bucket)
  /\ filter (fun e => ~ on_channel want e) rest = filter (fun e => ~ on_channel want e) bucket
  /\ (length rest + length (take n (filter (on_channel want) bucket)) = length bucket)%nat.
Proof.
  induction bucket as [|e bucket IH]; intros removed kept Hmax; cbn [split_channel].
  - eexists _, []. change (filter (on_channel want) []) with (@nil PendingBlob).
    rewrite take_nil, drop_nil, !app_nil_r. by repeat split.
  - rewrite !filter_cons. case_bool_decide as E; [rewrite andb_true_r; destruct (zlen removed <? max) eqn:El|rewrite andb_false_r].
    + bools. destruct (IH (removed ++ [e]) kept Hmax) as (n & rest & -> & -> & H1 & H2 & H3).
      eexists _, rest. split; [|split; [reflexivity|]]; rewrite decide_True by done.
      * rewrite zlen_app, zlen_cons, zlen_nil. rewrite <- app_assoc. cbn [app].
        replace (Z.to_nat (max - zlen removed)) with (S (Z.to_nat (max - (zlen removed + (1 + 0))))) by lia. done.
      * rewrite zlen_app, zlen_cons, zlen_nil in H1, H3.
        replace (Z.to_nat (max - zlen removed)) with (S (Z.to_nat (max - (zlen removed + (1 + 0))))) by lia.
        rewrite (decide_False (P := ~ on_channel want e)) by tauto. cbn [take drop length]. split; [done|]. split; [done|]. lia.
    + bools. destruct (IH removed (kept ++ [e]) Hmax) as (n & rest & -> & -> & H1 & H2 & H3).
      replace (Z.to_nat (max - zlen removed)) with 0%nat in * by lia.
      exists 0%nat, (e :: rest). rewrite <- app_assoc. split; [done|]. split; [done|].
      rewrite !filter_cons, !(decide_True (P := on_channel want e)), !(decide_False (P := ~ on_channel want e)) by tauto.
      rewrite !drop_0, take_0 in *. cbn [length]. split; [by rewrite H1|]. split; [done|].
      cbn [length] in H3. lia.
    + destruct (IH removed (kept ++ [e]) Hmax) as (n & rest & -> & Hn & H1 & H2 & H3).
      exists n, (e :: rest). rewrite !filter_cons, !(decide_False (P := on_channel want e)), !(decide_True (P := ~ on_channel want e)) by done.
      rewrite <- app_assoc, H1, H2. split; [done|]. split; [done|]. split; [done|]. split; [done|]. cbn [length]. lia.
Qed.

(** What a page takes and what it leaves. *)
Record page_of (sub ch : bytes) (max : Z) (q q' : DeferredQueue) (page : list PendingBlob) : Prop := {
  pg_page : page = take (Z.to_nat max) (filter (on_channel (toHex ch)) (waiting (toHex sub) q));
  pg_left : filter (on_channel (toHex ch)) (waiting (toHex sub) q')
            = drop (Z.to_nat max) (filter (on_channel (toHex ch)) (waiting (toHex sub) q));
  pg_rest : filter (fun e => ~ on_channel (toHex ch) e) (waiting (toHex sub) q')
            = filter (fun e => ~ on_channel (toHex ch) e) (waiting (toHex sub) q);
  pg_other : forall key, key <> toHex sub -> waiting key q' = waiting key q;
  pg_ok : queue_ok q';
  pg_total : totalLen q' = totalLen q - zlen page;
  pg_limit : globalLimit q' = globalLimit q;
}.

Lemma drainChannelBatch_page sub ch max q : queue_ok q -> 0 <= max ->
  page_of sub ch max q (fst (drainChannelBatch sub ch max q)) (snd (drainChannelBatch sub ch max q)).
Proof.
  intros Hq Hmax. destruct (drainChannelBatch_put sub ch max q Hq) as [E1 E2]. rewrite E1, E2.
  destruct (split_channel_spec (toHex ch) max (waiting (toHex sub) q) [] [] Hmax) as (n & rest & -> & Hn & H1 & H2 & H3).
  rewrite zlen_nil, Z.sub_0_r in Hn. subst n. cbn [fst snd app]. split.
  - done.
  - by rewrite waiting_put, bool_decide_true.
  - by rewrite waiting_put, bool_decide_true.
  - intros key Hk. by rewrite waiting_put, bool_decide_false.
  - by apply put_bucket_ok.
  - rewrite total_put by done. unfold zlen. lia.
  - apply put_limit.
Qed.

Lemma hasPendingChannel_spec sub ch q :
  hasPendingChannel sub ch q = negb (bool_decide (filter (on_channel (toHex ch)) (waiting (toHex sub) q) = [])).
Proof.
  unfold hasPendingChannel, waiting. destruct (get (toHex sub) (_buckets q)) as [b|]; [|done].
  change (default [] (Some b)) with b. induction b as [|e b IH]; [done|]. cbn [existsb]. rewrite filter_cons.
  destruct (decide (on_channel (toHex ch) e)) as [E|E].
  - rewrite (bool_decide_true (toHex _ = _)) by exact E. by rewrite bool_decide_false.
  - rewrite (bool_decide_false (toHex _ = _)) by exact E. exact IH.
Qed.

Lemma hasPending_spec sub q : hasPending sub q = negb (bool_decide (waiting (toHex sub) q = [])).
Proof. unfold hasPending, waiting. by destruct (get (toHex sub) (_buckets q)) as [[|e b]|]. Qed.

(** What an enqueue does: nothing when the queue is full; else the blob is the
    newest of its bucket, from which the oldest was dropped if it was full. *)
Lemma enqueue_waiting now sub ch data limit q key :
  waiting key (enqueue now sub ch data limit q)
  = if (globalLimit q <=? totalLen q) || negb (bool_decide (key = toHex sub)) then waiting key q
    else (if limit <=? zlen (waiting key q) then tail (waiting key q) else waiting key q)
         ++ [mkPending ch data now].
Proof.
  unfold enqueue. destruct (globalLimit q <=? totalLen q); [done|]. cbn [orb]. cbv zeta. rewrite waiting_mset.
  case_bool_decide as E; cbn [negb]; [by subst|done].
Qed.

Lemma enqueue_ok now sub ch data limit q : queue_ok q -> queue_ok (enqueue now sub ch data limit q).
Proof.
  intros Hq. unfold enqueue. destruct (_ <=? _); [done|]. cbv zeta. apply mset_ok; [done|].
  intros E. by apply app_eq_nil in E as [_ E].
Qed.

Lemma enqueue_total now sub ch data limit q : totalLen q <= Z.max 0 (globalLimit q) ->
  totalLen (enqueue now sub ch data limit q) <= Z.max 0 (globalLimit q).
Proof.
  intros Hq. unfold enqueue. destruct (_ <=? _) eqn:E; [done|]. bools. cbv zeta.
  rewrite total_mset_bucket, zlen_app, zlen_cons, zlen_nil. fold (waiting (toHex sub) q).
  assert (zlen (if limit <=? zlen (waiting (toHex sub) q) then tail (waiting (toHex sub) q) else waiting (toHex sub) q)
          <= zlen (waiting (toHex sub) q)); [|lia].
  destruct (limit <=? _); [|done]. unfold zlen. rewrite length_tl. lia.
Qed.

Lemma drain_bucket_spec sub q : queue_ok q ->
  snd (drain sub q) = waiting (toHex sub) q /\ fst (drain sub q) = put_bucket (toHex sub) [] q.
Proof.
  intros Hq. unfold drain, waiting, put_bucket. destruct (get (toHex sub) (_buckets q)) as [b|] eqn:E; [done|].
  split; [done|]. unfold with_buckets. rewrite mdelete_absent; [by destruct q|].
  apply get_None in E. by rewrite list_elem_of_In.
Qed.

Lemma drainBatch_spec sub max q : queue_ok q -> 0 < max ->
  snd (drainBatch sub max q) = take (Z.to_nat max) (waiting (toHex sub) q)
  /\ fst (drainBatch sub max q) = put_bucket (toHex sub) (drop (Z.to_nat max) (waiting (toHex sub) q)) q.
Proof.
  intros Hq Hm. unfold drainBatch, waiting. rewrite (proj2 (Z.leb_gt _ _)) by lia.
  destruct (get (toHex sub) (_buckets q)) as [b|] eqn:E; [done|].
  change (default [] None) with (@nil PendingBlob). rewrite take_nil, drop_nil. split; [done|].
  unfold put_bucket, with_buckets. rewrite mdelete_absent; [by destruct q|].
  apply get_None in E. by rewrite list_elem_of_In.
Qed.

(** Expiry keeps the fresh entries of every bucket. *)
Lemma evict_loop_spec t es : forall q n, wf_map es -> queue_ok q ->
  queue_ok (fst (evict_loop t es q n))
  /\ globalLimit (fst (evict_loop t es q n)) = globalLimit q
  /\ (forall key, waiting key (fst (evict_loop t es q n))
       = match get key es with Some b => filter (fun e => fresh t e = true) b | None => waiting key q end).
Proof.
  induction es as [|[k b] es IH]; intros q n Hes Hq; cbn [evict_loop]; [split; [exact Hq|done]|].
  unfold wf_map, keys in Hes. cbn [map fst] in Hes. apply NoDup_cons in Hes as [Hk Hes].
  destruct (IH (put_bucket k (filter (fun e => fresh t e = true) b) q)
              (n + (zlen b - zlen (filter (fun e => fresh t e = true) b))) Hes (put_bucket_ok _ _ _ Hq)) as (H1 & H2 & H3).
  split; [done|]. split; [by rewrite H2, put_limit|].
  intros key. rewrite H3. cbn [get]. case_bool_decide as E.
  - subst k. rewrite (proj2 (get_None key es)) by (unfold keys; by rewrite <- list_elem_of_In).
    by rewrite waiting_put, bool_decide_true.
  - destruct (get key es); [done|]. by rewrite waiting_put, bool_decide_false.
Qed.

Lemma evictExpired_waiting now age q key : queue_ok q ->
  waiting key (fst (evictExpired now age q)) = filter (fun e => fresh (now - age) e = true) (waiting key q).
Proof.
  intros Hq. unfold evictExpired.
  destruct (evict_loop_spec (now - age) (_buckets q) q 0 (qo_keys _ Hq) Hq) as (_ & _ & ->).
  unfold waiting. by destruct (get key (_buckets q)).
Qed.

(** ** Any sequence of operations *)

Inductive queue_op :=
| Enqueue (now : Q) (sub ch data : bytes) (limit : Z)
| Drain (sub : bytes)
| DrainBatch (sub : bytes) (max : Z)
| DrainChannel (sub ch : bytes) (max : Z)
| Evict (now age : Q).

Definition queue_run (o : queue_op) (q : DeferredQueue) : DeferredQueue :=
  match o with
  | Enqueue now sub ch data limit => enqueue now sub ch data limit q
  | Drain sub => fst (drain sub q)
  | DrainBatch sub max => fst (drainBatch sub max q)
  | DrainChannel sub ch max => fst (drainChannelBatch sub ch max q)
  | Evict now age => fst (evictExpired now age q)
  end.

(** No bucket is longer than the limits asked for, or than one. *)
Definition op_within (L : Z) (o : queue_op) : Prop :=
  match o with Enqueue _ _ _ _ limit => limit <= L | _ => True end.

(** A put bucket that is no longer than what was there. *)
Lemma put_within L k b q : queue_ok q -> zlen b <= zlen (waiting k q) ->
  (totalLen q <= Z.max 0 (globalLimit q) /\ forall key, zlen (waiting key q) <= L) ->
  totalLen (put_bucket k b q) <= Z.max 0 (globalLimit q)
  /\ forall key, zlen (waiting key (put_bucket k b q)) <= L.
Proof.
  intros Hq Hb [Ht Hw]. rewrite total_put by done. split; [lia|]. intros key. rewrite waiting_put.
  case_bool_decide; [|done]. specialize (Hw k). lia.
Qed.

Lemma evict_loop_total t es : forall q n, wf_map es -> queue_ok q ->
  (forall k b, get k es = Some b -> waiting k q = b) -> totalLen (fst (evict_loop t es q n)) <= totalLen q.
Proof.
  induction es as [|[k b] es IH]; intros q n Hes Hq Hw; cbn [evict_loop]; [done|].
  unfold wf_map, keys in Hes. cbn [map fst] in Hes. apply NoDup_cons in Hes as [Hk Hes].
  assert (Hb : waiting k q = b) by (apply Hw; cbn [get]; by rewrite bool_decide_true).
  etransitivity; [apply IH; [done|by apply put_bucket_ok|]|].
  - intros k' b' Hg. rewrite waiting_put, bool_decide_false.
    + apply Hw. cbn [get]. rewrite bool_decide_false; [done|]. intros ->. apply Hk.
      apply get_In in Hg. apply list_elem_of_In, in_map_iff. by exists (k, b').
    + intros ->. apply Hk. apply get_In in Hg. apply list_elem_of_In, in_map_iff. by exists (k, b').
  - rewrite total_put, Hb by done. pose proof (length_filter (fun e => fresh t e = true) b). unfold zlen. lia.
Qed.

Lemma queue_run_ok L o q : op_within L o ->
  queue_ok q /\ totalLen q <= Z.max 0 (globalLimit q) /\ (forall key, zlen (waiting key q) <= Z.max 1 L) ->
  let q' := queue_run o q in
  queue_ok q' /\ globalLimit q' = globalLimit q
  /\ totalLen q' <= Z.max 0 (globalLimit q) /\ (forall key, zlen (waiting key q') <= Z.max 1 L).
Proof.
  intros Ho (Hq & Hb). pose proof Hb as [Ht Hw]. destruct o as [now sub ch data limit|sub|sub max|sub ch max|now age]; cbn [queue_run].
  - split; [by apply enqueue_ok|]. split; [unfold enqueue; by destruct (_ <=? _)|]. split; [by apply enqueue_total|].
    intros key. rewrite enqueue_waiting. destruct (_ || _); [apply Hw|]. cbn in Ho. specialize (Hw key).
    rewrite zlen_app, zlen_cons, zlen_nil. destruct (limit <=? _) eqn:El; bools; [|lia].
    unfold zlen in *. rewrite length_tl. lia.
  - destruct (drain_bucket_spec sub q Hq) as [_ ->]. split; [by apply put_bucket_ok|]. split; [apply put_limit|].
    apply put_within; [done|apply zlen_nonneg|done].
  - destruct (Z.le_gt_cases max 0) as [Hm|Hm].
    + unfold drainBatch. rewrite (proj2 (Z.leb_le _ _)) by done. done.
    + destruct (drainBatch_spec sub max q Hq Hm) as [_ ->]. split; [by apply put_bucket_ok|]. split; [apply put_limit|].
      apply put_within; [done| |done]. unfold zlen. rewrite length_drop. lia.
  - destruct (drainChannelBatch_put sub ch max q Hq) as [-> _]. split; [by apply put_bucket_ok|]. split; [apply put_limit|].
    apply put_within; [done| |done]. destruct (Z.le_gt_cases 0 max) as [Hm|Hm].
    + destruct (split_channel_spec (toHex ch) max (waiting (toHex sub) q) [] [] Hm) as (n & rest & -> & _ & _ & _ & Hl).
      cbn [snd app]. unfold zlen. lia.
    + enough (E : forall l kept, snd (split_channel (toHex ch) max [] kept l) = kept ++ l) by by rewrite E.
      intros l. induction l as [|e l IH]; intros kept; cbn [split_channel]; [by rewrite app_nil_r|].
      rewrite zlen_nil, (proj2 (Z.ltb_ge _ _)) by lia. cbn [andb]. by rewrite IH, <- app_assoc.
  - unfold evictExpired. pose proof (evict_loop_spec (now - age) (_buckets q) q 0 (qo_keys _ Hq) Hq) as (H1 & H2 & _).
    split; [done|]. split; [done|]. split.
    + etransitivity; [apply evict_loop_total; [apply Hq|done|]|done]. intros k b Hg. unfold waiting. by rewrite Hg.
    + intros key. fold (evictExpired now age q). rewrite evictExpired_waiting by done. specialize (Hw key).
      pose proof (length_filter (fun e => fresh (now - age) e = true) (waiting key q)). unfold zlen in *. lia.
Qed.

(** Whatever is queued, drained and aged out, in any order: no bucket is
    empty, the queue holds at most [globalLimit] blobs, and no subscriber more
    than the largest limit given for one, or one blob where the limits are
    lower than that. *)
Theorem queue_bounded (limit : option Z) (L : Z) (ops : list queue_op) (Hops : Forall (op_within L) ops) :
  let q := fold_left (fun q o => queue_run o q) ops (new_DeferredQueue limit) in
  queue_ok q /\ totalLen q <= Z.max 0 (default DEFAULT_GLOBAL_LIMIT limit)
  /\ forall key, zlen (waiting key q) <= Z.max 1 L.
Proof.
  enough (Hrun : forall q0, queue_ok q0 /\ totalLen q0 <= Z.max 0 (globalLimit q0) /\ (forall key, zlen (waiting key q0) <= Z.max 1 L) ->
    let q := fold_left (fun q o => queue_run o q) ops q0 in
    queue_ok q /\ totalLen q <= Z.max 0 (globalLimit q0) /\ forall key, zlen (waiting key q) <= Z.max 1 L).
  { apply (Hrun (new_DeferredQueue limit)). split; [split; constructor|].
    assert (E : totalLen (new_DeferredQueue limit) = 0) by done. split; [lia|]. intros key. change (0 <= Z.max 1 L). lia. }
  induction Hops as [|o ops Ho _ IH]; intros q0 H0; [done|]. cbn [fold_left].
  destruct (queue_run_ok L o q0 Ho H0) as (H1 & H2 & H3). rewrite <- H2 in *. apply IH. by split.
Qed.

(** ** Paging *)

Lemma filter_none_left {A} (P : A -> Prop) `{!forall x, Decision (P x)} l : filter P l = [] -> filter (fun x => ~ P x) l = l.
Proof.
  induction l as [|x l IH]; [done|]. rewrite !filter_cons. destruct (decide (P x)) as [Hp|Hp]; [done|].
  rewrite decide_True by done. intros E. by rewrite IH.
Qed.

(** What a client does: pull pages while the answer says that more is pending. *)
Fixpoint pull_all (fuel : nat) (sub ch : bytes) (size : Z) (q : DeferredQueue)
    : DeferredQueue * list (list PendingBlob) :=
  match fuel with
  | O => (q, [])
  | S fuel =>
      let '(q, page) := drainChannelBatch sub ch size q in
      if hasPendingChannel sub ch q then
        let '(q, pages) := pull_all fuel sub ch size q in (q, page :: pages)
      else (q, [page])
  end.

(** Pulling page after page until none is pending gives everything that
    waits for the subscriber on the channel, each blob once and oldest first,
    and ends after as many pulls as there are full or partial pages (one, if
    nothing waits); the blobs of other channels and subscribers stay, in their
    order. *)
Theorem pull_complete (sub ch : bytes) (size : Z) (q : DeferredQueue) (fuel : nat)
    (Hq : queue_ok q) (Hsize : 1 <= size)
    (Hfuel : (length (filter (on_channel (toHex ch)) (waiting (toHex sub) q)) < fuel)%nat) :
  let '(q', pages) := pull_all fuel sub ch size q in
  concat pages = filter (on_channel (toHex ch)) (waiting (toHex sub) q)
  /\ Forall (fun p => zlen p <= size) pages
  /\ zlen pages = Z.max 1 ((zlen (concat pages) + (size - 1)) / size)
  /\ hasPendingChannel sub ch q' = false
  /\ waiting (toHex sub) q' = filter (fun e => ~ on_channel (toHex ch) e) (waiting (toHex sub) q)
  /\ (forall key, key <> toHex sub -> waiting key q' = waiting key q)
  /\ totalLen q' = totalLen q - zlen (concat pages).
Proof.
  revert q Hq Hfuel. induction fuel as [|fuel IH]; intros q Hq Hfuel; [lia|]. cbn [pull_all].
  pose proof (drainChannelBatch_page sub ch size q Hq ltac:(lia)) as Hp.
  destruct (drainChannelBatch sub ch size q) as [q1 page]. cbn [fst snd] in Hp.
  set (mine := filter (on_channel (toHex ch)) (waiting (toHex sub) q)) in *.
  assert (Hlen : length page = Nat.min (Z.to_nat size) (length mine)) by (rewrite (pg_page _ _ _ _ _ _ Hp); apply length_take).
  rewrite hasPendingChannel_spec, (pg_left _ _ _ _ _ _ Hp). fold mine.
  destruct (decide (drop (Z.to_nat size) mine = [])) as [E|E];
    [rewrite bool_decide_true by done|rewrite bool_decide_false by done]; cbn [negb].
  - assert (Hle : (length mine <= Z.to_nat size)%nat) by (apply (f_equal length) in E; rewrite length_drop in E; cbn in E; lia).
    assert (Hpage : page = mine) by (rewrite (pg_page _ _ _ _ _ _ Hp); by apply take_ge).
    cbn [concat]. rewrite app_nil_r, Hpage. split; [done|]. split; [constructor; [unfold zlen; lia|constructor]|].
    assert (Hz : zlen mine <= size) by (unfold zlen; lia). pose proof (zlen_nonneg mine). split.
    { rewrite zlen_cons, zlen_nil. assert ((zlen mine + (size - 1)) / size < 2) by (apply Z.div_lt_upper_bound; lia). lia. }
    split; [by rewrite hasPendingChannel_spec, (pg_left _ _ _ _ _ _ Hp), bool_decide_true|].
    split; [|split; [apply Hp|]].
    + rewrite <- (pg_rest _ _ _ _ _ _ Hp). symmetry. apply filter_none_left. by rewrite (pg_left _ _ _ _ _ _ Hp).
    + by rewrite (pg_total _ _ _ _ _ _ Hp), Hpage.
  - assert (Hlt : (Z.to_nat size < length mine)%nat).
    { destruct (Nat.lt_ge_cases (Z.to_nat size) (length mine)); [done|]. by destruct E; apply drop_ge. }
    specialize (IH q1 (pg_ok _ _ _ _ _ _ Hp)). rewrite (pg_left _ _ _ _ _ _ Hp) in IH. fold mine in IH.
    rewrite length_drop in IH. specialize (IH ltac:(lia)).
    destruct (pull_all fuel sub ch size q1) as [q2 pages]. destruct IH as (H1 & H2 & H3 & H4 & H5 & H6 & H7).
    cbn [concat]. rewrite H1, (pg_page _ _ _ _ _ _ Hp), take_drop. split; [done|].
    split; [constructor; [rewrite <- (pg_page _ _ _ _ _ _ Hp); unfold zlen; lia|done]|]. split.
    { rewrite zlen_cons, H3, H1. assert (Hz : zlen mine = size + zlen (drop (Z.to_nat size) mine)) by (unfold zlen; rewrite length_drop; lia).
      assert (Hd : (zlen mine + (size - 1)) / size = 1 + (zlen (drop (Z.to_nat size) mine) + (size - 1)) / size).
      { rewrite Hz. replace (size + zlen (drop (Z.to_nat size) mine) + (size - 1))
          with (zlen (drop (Z.to_nat size) mine) + (size - 1) + 1 * size) by lia. rewrite Z.div_add by lia. lia. }
      assert (1 <= (zlen (drop (Z.to_nat size) mine) + (size - 1)) / size).
      { apply Z.div_le_lower_bound; [lia|]. unfold zlen. rewrite length_drop. lia. }
      rewrite Hd. lia. }
    split; [done|]. split; [by rewrite H5, (pg_rest _ _ _ _ _ _ Hp)|].
    split; [intros key Hk; by rewrite H6, (pg_other _ _ _ _ _ _ Hp)|].
    rewrite H7, H1, (pg_total _ _ _ _ _ _ Hp). unfold zlen in *. rewrite length_drop, Hlen. lia.
Qed.


(** ** Records *)

Definition import_one (q : DeferredQueue) (r : bytes * PendingBlob) : DeferredQueue :=
  let '(h, e) := r in
  with_buckets q (mset (toHex h) (default [] (get (toHex h) (_buckets q)) ++ [e]) (_buckets q)).

Lemma get_last {V} k (v : V) m : ~ In k (keys m) -> get k (m ++ [(k, v)]) = Some v.
Proof. intros Hk. rewrite <- mset_new by done. apply get_mset_same. Qed.

Lemma mset_last {V} k (v v' : V) m : ~ In k (keys m) -> mset k v' (m ++ [(k, v)]) = m ++ [(k, v')].
Proof.
  intros Hk. induction m as [|[k' x] m IH]; cbn [app].
  - change (mset k v' [(k, v)]) with (if bool_decide (k = k) then [(k, v')] else (k, v) :: mset k v' []).
    by rewrite bool_decide_true.
  - unfold keys in *. cbn [map fst In] in Hk.
    change (mset k v' ((k', x) :: m ++ [(k, v)]))
      with (if bool_decide (k = k') then (k, v') :: m ++ [(k, v)] else (k', x) :: mset k v' (m ++ [(k, v)])).
    rewrite bool_decide_false by (intros ->; tauto). rewrite IH; [done|tauto].
Qed.

Lemma import_more h b : forall q m pre, ~ In (toHex h) (keys m) ->
  fold_left import_one (map (pair h) b) (with_buckets q (m ++ [(toHex h, pre)]))
  = with_buckets q (m ++ [(toHex h, pre ++ b)]).
Proof.
  induction b as [|e b IH]; intros q m pre Hk; cbn [map fold_left]; [by rewrite app_nil_r|].
  unfold import_one at 2. cbn [with_buckets _buckets globalLimit]. rewrite get_last by done.
  change (default [] (Some pre)) with pre. rewrite mset_last by done.
  change (mkQueue (m ++ [(toHex h, pre ++ [e])]) (globalLimit q)) with (with_buckets q (m ++ [(toHex h, pre ++ [e])])).
  rewrite IH by done. by rewrite <- app_assoc.
Qed.

(** What is written to disk is read back: the records of a queue, imported into
    any queue, give it the same buckets in the same order. *)
Theorem queue_records (q q0 : DeferredQueue) (Hq : queue_ok q)
    (Hkeys : Forall (fun k => exists h, wf_bytes h /\ k = toHex h) (keys (_buckets q))) :
  exists records, exportRecords q = Ok records /\ importRecords records q0 = with_buckets q0 (_buckets q).
Proof.
  destruct Hq as [Hn Hb]. unfold exportRecords, importRecords.
  change (fun q '(h, e) => _) with import_one.
  enough (Hrun : forall m2 m1, wf_map (m1 ++ m2) -> Forall (fun '(_, b) => b <> []) m2 ->
    Forall (fun k => exists h, wf_bytes h /\ k = toHex h) (keys m2) ->
    exists records, foldr (fun '(key, bucket) acc =>
        let! l := acc in let! h := fromHex key in Ok (map (pair h) bucket ++ l)) (Ok []) m2 = Ok records
      /\ fold_left import_one records (with_buckets q0 m1) = with_buckets q0 (m1 ++ m2)).
  { apply (Hrun _ []); done. }
  clear q Hn Hb Hkeys. intros m2. induction m2 as [|[k b] m2 IH]; intros m1 Hn Hb Hk.
  - exists []. by rewrite app_nil_r.
  - apply Forall_cons in Hb as [Hb0 Hb]. unfold keys in Hk. cbn [map fst] in Hk.
    apply Forall_cons in Hk as [(h & Hh & ->) Hk].
    rewrite (app_assoc m1 [(toHex h, b)] m2 : m1 ++ (toHex h, b) :: m2 = _) in Hn |- *.
    destruct (IH (m1 ++ [(toHex h, b)]) Hn Hb Hk) as (rs & Hrs & Hrun). cbn [foldr]. rewrite Hrs. cbn [rbind].
    rewrite fromHex_toHex by done. cbn [rbind]. eexists. split; [reflexivity|]. rewrite fold_left_app, <- Hrun. f_equal.
    destruct b as [|e b]; [done|]. cbn [map fold_left]. unfold import_one at 2. cbn [with_buckets _buckets].
    assert (Hnew : ~ In (toHex h) (keys m1)).
    { unfold wf_map, keys in Hn. rewrite !map_app in Hn. apply NoDup_app in Hn as (Hn & _ & _). apply NoDup_app in Hn as (_ & Hd & _).
      unfold keys. rewrite <- list_elem_of_In. intros Hin. apply (Hd _ Hin). cbn. by left. }
    rewrite (proj2 (get_None _ _) Hnew). change (default [] None ++ [e]) with [e]. rewrite mset_new by done.
    change (mkQueue (m1 ++ [(toHex h, [e])]) _) with (with_buckets q0 (m1 ++ [(toHex h, [e])])).
    by rewrite import_more.
Qed.

(** ** A concrete queue *)

Definition sub1 : bytes := replicate 16 1.
Definition sub2 : bytes := replicate 16 2.
Definition ch1 : bytes := replicate 16 8.
Definition ch2 : bytes := replicate 16 9.

Definition sample_queue_ops : list queue_op :=
  [Enqueue 1 sub1 ch1 [1] 3; Enqueue 2 sub1 ch2 [2] 3; Enqueue 3 sub1 ch1 [3] 3; Enqueue 4 sub2 ch1 [3] 3;
   Enqueue 5 sub1 ch1 [4] 3; DrainBatch sub2 5; Evict 6 4].

Definition sample_queue : DeferredQueue := Eval vm_compute in
  fold_left (fun q o => queue_run o q) (take 4 sample_queue_ops) (new_DeferredQueue (Some 10)).

Lemma sample_queue_ok : queue_ok sample_queue.
Proof.
  split.
  - unfold wf_map. vm_compute. repeat constructor; set_solver.
  - vm_compute. by repeat constructor.
Qed.

Lemma queue_bounded_witness :
  let q := fold_left (fun q o => queue_run o q) sample_queue_ops (new_DeferredQueue (Some 10)) in
  zlen (waiting (toHex sub1) q) <= Z.max 1 3.
Proof.
  refine (proj2 (proj2 (queue_bounded (Some 10) 3 sample_queue_ops _)) (toHex sub1)).
  repeat constructor; cbn; lia.
Defined.

Lemma pull_complete_witness :
  map blob (concat (snd (pull_all 5 sub1 ch1 1 sample_queue))) = [[1]; [3]].
Proof.
  pose proof (pull_complete sub1 ch1 1 sample_queue 5 sample_queue_ok ltac:(lia)) as Hp.
  destruct (pull_all 5 sub1 ch1 1 sample_queue) as [q' pages]. cbn [snd].
  rewrite (proj1 (Hp ltac:(vm_compute; lia))). vm_compute. reflexivity.
Defined.

Lemma queue_records_witness : exists records, exportRecords sample_queue = Ok records
  /\ importRecords records (new_DeferredQueue None) = with_buckets (new_DeferredQueue None) (_buckets sample_queue).
Proof.
  apply (queue_records sample_queue (new_DeferredQueue None)).
  - exact sample_queue_ok.
  - change (keys (_buckets sample_queue)) with [toHex sub1; toHex sub2].
    apply Forall_cons. split; [exists sub1|apply Forall_singleton; exists sub2];
      (split; [apply wf_bytes_replicate; unfold is_byte; lia|reflexivity]).
Defined.
