(* ===== verification/RfedBlobs.v ===== *)
(** * RfedBlobs: the blobs a node keeps, and how nodes exchange them
    (packages/rfed/src/blob_store.js and sync.js)

    Blobs and their metadata are in two maps under the hexadecimal form of the
    message id, with a running byte total, a capacity and an age limit that is
    applied at most once an hour.  Times are rational seconds. *)

From Stdlib Require Import QArith Sorted.
From S2P Require Import Prelude Encoding JsMap Identity Sorting.
#[local] Open Scope Z_scope.

Definition BLOB_TTL_SECS : Z := 30 * 24 * 3600.
Definition EVICT_CHECK_INTERVAL_SECS : Z := 3600.
Definition DEFAULT_STORAGE_LIMIT_BYTES : Z := 2 * 1024 * 1024 * 1024.

Record BlobMeta := mkMeta {
  messageId : bytes;
  destinationHash : bytes;
  received : Q;
  size : Z;
}.

Record BlobStore := mkBlobs {
  _blobs : jsmap bytes;
  _meta : jsmap BlobMeta;
  storageLimitBytes : Z;
  usedBytes : Z;
  _lastEviction : Q;
}.

Definition new_BlobStore (limit : option Z) : BlobStore :=
  mkBlobs [] [] (default DEFAULT_STORAGE_LIMIT_BYTES limit) 0 0.

Definition set_contents (s : BlobStore) (b : jsmap bytes) (m : jsmap BlobMeta) (used : Z) : BlobStore :=
  mkBlobs b m (storageLimitBytes s) used (_lastEviction s).

Definition set_lastEviction (s : BlobStore) (t : Q) : BlobStore :=
  mkBlobs (_blobs s) (_meta s) (storageLimitBytes s) (usedBytes s) t.

Definition later (a b : Q) : bool := negb (Qle_bool a b).

Definition get_blob (mid : bytes) (s : BlobStore) : option bytes := get (toHex mid) (_blobs s).

Definition delete (mid : bytes) (s : BlobStore) : BlobStore * bool :=
  let key := toHex mid in
  match get key (_meta s) with
  | None => (s, false)
  | Some meta =>
      (set_contents s (mdelete key (_blobs s)) (mdelete key (_meta s)) (usedBytes s - size meta), true)
  end.

Definition _evictOlderThan (cutoff : Q) (s : BlobStore) : BlobStore * Z :=
  fold_left (fun '(s, count) m =>
    if later (received m) 0 && later cutoff (received m) then (fst (delete (messageId m) s), count + 1)
    else (s, count)) (values (_meta s)) (s, 0).

(** The loop over the entries, oldest first. *)
Fixpoint make_room (neededBytes : Z) (ordered : list BlobMeta) (s : BlobStore) : BlobStore :=
  match ordered with
  | [] => s
  | m :: ordered =>
      if usedBytes s + neededBytes <=? storageLimitBytes s then s
      else make_room neededBytes ordered (fst (delete (messageId m) s))
  end.

Definition older (a b : BlobMeta) : bool := later (received b) (received a).

Definition _evictToFit (neededBytes : Z) (s : BlobStore) : BlobStore :=
  if usedBytes s + neededBytes <=? storageLimitBytes s then s
  else make_room neededBytes (js_sort older (values (_meta s))) s.

(** The sweep at most once an hour. *)
Definition sweep (now : Q) (s : BlobStore) : BlobStore :=
  if later (now - _lastEviction s) (inject_Z EVICT_CHECK_INTERVAL_SECS)
  then set_lastEviction (fst (_evictOlderThan (now - inject_Z BLOB_TTL_SECS) s)) now
  else s.

(** Adding an entry, once there is room. *)
Definition put_blob (now : Q) (dest mid data : bytes) (s : BlobStore) : BlobStore :=
  set_contents s (mset (toHex mid) data (_blobs s)) (mset (toHex mid) (mkMeta mid dest now (zlen data)) (_meta s))
    (usedBytes s + zlen data).

Definition storeWithId (now : Q) (dest mid data : bytes) (s : BlobStore) : BlobStore * result bytes :=
  match get (toHex mid) (_meta s) with
  | Some existing =>
      if negb (bool_decide (toHex (destinationHash existing) = toHex dest))
      then (s, Throw (JsError "blob message-id collision"))
      else (s, Ok (messageId existing))
  | None => (put_blob now dest mid data (_evictToFit (zlen data) (sweep now s)), Ok mid)
  end.

(** [random] is the fresh message id. *)
Definition store (now : Q) (random dest data : bytes) (s : BlobStore) : BlobStore * result bytes :=
  storeWithId now dest random data s.

Definition allMessageIds (s : BlobStore) : list bytes := map messageId (values (_meta s)).

Definition manifest (s : BlobStore) : list (bytes * bytes) :=
  map (fun m => (destinationHash m, messageId m)) (values (_meta s)).

(** The channel and the id. *)
Definition metaFor (mid : bytes) (s : BlobStore) : option (bytes * bytes) :=
  m ← get (toHex mid) (_meta s); Some (destinationHash m, messageId m).

Definition messageIdsForChannel (channel : bytes) (s : BlobStore) : list bytes :=
  map messageId (filter (fun m => toHex (destinationHash m) = toHex channel) (values (_meta s))).

Definition pruneOlderThan (now maxAgeSec : Q) (s : BlobStore) : BlobStore * Z :=
  _evictOlderThan (now - maxAgeSec) s.

Record BlobRecord := mkBlobRecord {
  br_channelHash : bytes;
  br_messageId : bytes;
  br_blob : bytes;
  br_received : Q;
}.

Definition exportRecords (s : BlobStore) : list BlobRecord :=
  map (fun m => mkBlobRecord (destinationHash m) (messageId m)
                  (default [] (get (toHex (messageId m)) (_blobs s))) (received m)) (values (_meta s)).

Definition importRecords (records : list BlobRecord) (s : BlobStore) : BlobStore :=
  fold_left (fun s r => put_blob (br_received r) (br_channelHash r) (br_messageId r) (br_blob r) s) records
    (set_contents s [] [] 0).

(** ** The wire stream (sync.js) *)

Definition RECORD_HEADER_LENGTH : nat := 16 + 16 + 4.

Record StreamRecord := mkRecord { channelHash : bytes; sr_messageId : bytes; blob : bytes }.

Definition toFixed16 (hash : bytes) : bytes :=
  if (length hash =? 16)%nat then hash else field 16 hash.

(** [(len >>> k) & 0xff]. *)
Definition len_byte (len k : Z) : Z := Z.land (Z.shiftr (len mod 2 ^ 32) k) 255.

Definition encode_record (r : StreamRecord) : bytes :=
  let len := zlen (blob r) in
  toFixed16 (channelHash r) ++ toFixed16 (sr_messageId r)
  ++ [len_byte len 24; len_byte len 16; len_byte len 8; len_byte len 0] ++ blob r.

Definition encodeBlobStream (records : list StreamRecord) : bytes := concat (map encode_record records).

(** The length of the record that starts [data]. *)
Definition record_len (data : bytes) : Z :=
  (byte_at 32 data * 16777216
   + js_or (js_or (js_shl (byte_at 33 data) 16) (js_shl (byte_at 34 data) 8)) (byte_at 35 data)) mod 2 ^ 32.

(** The loop, on what is left of the stream. *)
Fixpoint decode_records (fuel : nat) (data : bytes) : list StreamRecord :=
  match fuel with
  | O => []
  | S fuel =>
      if (RECORD_HEADER_LENGTH <=? length data)%nat then
        let len := Z.to_nat (record_len data) in
        if (length data <? RECORD_HEADER_LENGTH + len)%nat then []
        else mkRecord (slice 0 16 data) (slice 16 32 data)
               (slice RECORD_HEADER_LENGTH (RECORD_HEADER_LENGTH + len) data)
             :: decode_records fuel (drop (RECORD_HEADER_LENGTH + len) data)
      else []
  end.

(** Every round takes a header off. *)
Definition decodeBlobStream (stream : bytes) : list StreamRecord := decode_records (length stream) stream.

Definition fullManifest (s : BlobStore) : list (bytes * bytes) := manifest s.

(** The loop of [gapFromPeer] over the peer's pairs. *)
Fixpoint gap_loop (pairs : list (bytes * bytes)) (s : BlobStore) (subscribed seen : list jsstr)
    : list bytes :=
  match pairs with
  | [] => []
  | (ch, id) :: pairs =>
      if negb (bool_decide (toHex ch ∈ subscribed)) then gap_loop pairs s subscribed seen
      else if match get_blob id s with Some _ => true | None => false end then gap_loop pairs s subscribed seen
      else if bool_decide (toHex id ∈ seen) then gap_loop pairs s subscribed seen
      else id :: gap_loop pairs s subscribed (seen ++ [toHex id])
  end.

Definition gapFromPeer (peerPairs : list (bytes * bytes)) (s : BlobStore) (subscribedChannelHashes : list bytes)
    : list bytes :=
  gap_loop peerPairs s (map toHex subscribedChannelHashes) [].

(** ** Maps of measures *)

Definition vmap {V V'} (f : V -> V') (m : jsmap V) : jsmap V' := map (fun '(k, v) => (k, f v)) m.

Section Vmap.
Context {V V' : Type} (f : V -> V').

Lemma keys_vmap m : keys (vmap f m) = keys m.
Proof. unfold keys, vmap. rewrite map_map. apply map_ext. by intros []. Qed.

Lemma get_vmap k m : get k (vmap f m) = f <$> get k m.
Proof.
  induction m as [|[k' v] m IH]; [done|].
  change (vmap f ((k', v) :: m)) with ((k', f v) :: vmap f m). cbn [get]. by case_bool_decide.
Qed.

Lemma vmap_mset k v m : vmap f (mset k v m) = mset k (f v) (vmap f m).
Proof.
  induction m as [|[k' v'] m IH]; [done|].
  change (mset k v ((k', v') :: m)) with (if bool_decide (k = k') then (k, v) :: m else (k', v') :: mset k v m).
  change (vmap f ((k', v') :: m)) with ((k', f v') :: vmap f m).
  change (mset k (f v) ((k', f v') :: vmap f m))
    with (if bool_decide (k = k') then (k, f v) :: vmap f m else (k', f v') :: mset k (f v) (vmap f m)).
  case_bool_decide; [done|]. rewrite <- IH. done.
Qed.

Lemma vmap_mdelete k m : vmap f (mdelete k m) = mdelete k (vmap f m).
Proof.
  unfold mdelete. induction m as [|[k' v'] m IH]; [done|].
  change (vmap f ((k', v') :: m)) with ((k', f v') :: vmap f m). rewrite !filter_cons.
  destruct (decide (k' <> k)); [|done]. rewrite <- IH. done.
Qed.
End Vmap.

Lemma weight_vmap {V} (f : V -> Z) m : weight f m = weight (fun z => z) (vmap f m).
Proof. unfold weight, vmap. induction m as [|[k v] m IH]; cbn [map foldr]; [done|]. by rewrite IH. Qed.

(** ** The invariant *)

Record blobs_ok (s : BlobStore) : Prop := {
  bo_keys : wf_map (_meta s);
  bo_same : vmap zlen (_blobs s) = vmap size (_meta s);
  bo_named : Forall (fun '(k, m) => k = toHex (messageId m)) (_meta s);
  bo_used : usedBytes s = weight size (_meta s);
}.

Lemma new_ok limit : blobs_ok (new_BlobStore limit).
Proof. by repeat constructor. Qed.

Lemma size_nonneg s k m : blobs_ok s -> get k (_meta s) = Some m -> 0 <= size m.
Proof.
  intros Hs Hg. pose proof (get_vmap zlen k (_blobs s)) as E. rewrite (bo_same _ Hs), get_vmap, Hg in E.
  destruct (get k (_blobs s)) as [b|]; [|discriminate]. injection E as ->. apply zlen_nonneg.
Qed.

Lemma delete_ok mid s : blobs_ok s -> blobs_ok (fst (delete mid s)).
Proof.
  intros [H1 H2 H3 H4]. unfold delete. destruct (get (toHex mid) (_meta s)) as [m|] eqn:E; [|done]. split; cbn [put_blob set_contents _blobs _meta usedBytes fst].
  - by apply wf_mdelete.
  - by rewrite !vmap_mdelete, H2.
  - by apply Forall_mdelete.
  - rewrite weight_mdelete, E by done. lia.
Qed.

Lemma delete_meta mid s : _meta (fst (delete mid s)) = mdelete (toHex mid) (_meta s).
Proof.
  unfold delete. destruct (get (toHex mid) (_meta s)) as [m|] eqn:E; [done|]. cbn [fst].
  rewrite mdelete_absent; [done|]. apply get_None in E. by rewrite list_elem_of_In.
Qed.

Lemma delete_limit mid s : storageLimitBytes (fst (delete mid s)) = storageLimitBytes s.
Proof. unfold delete. by destruct (get _ _). Qed.

Lemma delete_used mid s m : get (toHex mid) (_meta s) = Some m ->
  usedBytes (fst (delete mid s)) = usedBytes s - size m.
Proof. unfold delete. by intros ->. Qed.

Lemma put_blob_ok now dest mid data s : blobs_ok s -> get (toHex mid) (_meta s) = None ->
  blobs_ok (put_blob now dest mid data s).
Proof.
  intros [H1 H2 H3 H4] Hn. split; cbn [put_blob set_contents _blobs _meta usedBytes fst].
  - by apply wf_mset.
  - by rewrite !vmap_mset, H2.
  - by apply Forall_mset.
  - rewrite weight_mset, Hn, H4. cbn [size]. lia.
Qed.

Lemma evictOlder_ok cutoff s : blobs_ok s -> blobs_ok (fst (_evictOlderThan cutoff s)).
Proof.
  unfold _evictOlderThan. generalize 0 at 2. generalize (values (_meta s)). intros l. revert s.
  induction l as [|m l IH]; intros s n Hs; [done|]. cbn [fold_left].
  destruct (_ && _); apply IH; [by apply delete_ok|done].
Qed.

Lemma make_room_ok n l : forall s, blobs_ok s -> blobs_ok (make_room n l s).
Proof.
  induction l as [|m l IH]; intros s Hs; [done|]. cbn [make_room]. destruct (_ <=? _); [done|].
  by apply IH, delete_ok.
Qed.

Lemma evictToFit_ok n s : blobs_ok s -> blobs_ok (_evictToFit n s).
Proof. intros Hs. unfold _evictToFit. destruct (_ <=? _); [done|by apply make_room_ok]. Qed.

Lemma sweep_ok now s : blobs_ok s -> blobs_ok (sweep now s).
Proof.
  intros Hs. unfold sweep. destruct (later _ _); [|done].
  destruct (evictOlder_ok (now - inject_Z BLOB_TTL_SECS) s Hs). by split.
Qed.

(** ** Room for a blob *)

Lemma values_get s k m : blobs_ok s -> get k (_meta s) = Some m -> toHex (messageId m) = k.
Proof.
  intros Hs Hg%get_In. pose proof (bo_named _ Hs) as Hn. rewrite List.Forall_forall in Hn. by specialize (Hn _ Hg).
Qed.

Lemma value_stored s m : blobs_ok s -> m ∈ values (_meta s) -> get (toHex (messageId m)) (_meta s) = Some m.
Proof.
  intros Hs Hm. unfold values in Hm. apply list_elem_of_In, in_map_iff in Hm as ([k x] & <- & Hin). cbn [snd].
  pose proof (bo_named _ Hs) as Hn. rewrite List.Forall_forall in Hn. specialize (Hn _ Hin). cbn in Hn. subst k.
  by apply In_get; [apply Hs|].
Qed.

(** Making room drops a part of the entries from the front of the order, and
    no more than needed. *)
Lemma make_room_spec n l : forall s, blobs_ok s ->
  Forall (fun m => get (toHex (messageId m)) (_meta s) = Some m) l -> NoDup (map (fun m => toHex (messageId m)) l) ->
  exists dropped kept, l = dropped ++ kept
  /\ _meta (make_room n l s) = foldr (fun m acc => mdelete (toHex (messageId m)) acc) (_meta s) (rev dropped)
  /\ usedBytes (make_room n l s) = usedBytes s - foldr (fun m t => size m + t) 0 dropped
  /\ (kept = [] \/ usedBytes (make_room n l s) + n <= storageLimitBytes s)
  /\ (forall d m, dropped = d ++ [m] -> storageLimitBytes s < usedBytes (make_room n l s) + size m + n).
Proof.
  induction l as [|m l IH]; intros s Hs Hl Hd; cbn [make_room].
  - exists [], []. cbn. split; [done|]. split; [done|]. split; [lia|]. split; [by left|].
    intros d m E. by destruct (app_cons_not_nil d [] m).
  - destruct (_ <=? _) eqn:E; bools.
    + exists [], (m :: l). cbn. split; [done|]. split; [done|]. split; [lia|]. split; [by right|].
      intros d m' E'. by destruct (app_cons_not_nil d [] m').
    + apply Forall_cons in Hl as [Hm Hl]. cbn [map] in Hd. apply NoDup_cons in Hd as [Hx Hd].
      destruct (IH (fst (delete (messageId m) s))) as (dropped & kept & -> & H1 & H2 & H3 & H4); [by apply delete_ok| |done|].
      { rewrite delete_meta. rewrite Forall_forall in Hl |- *. intros x Hin. rewrite get_mdelete_other; [by apply Hl|].
        intros E'. apply Hx. rewrite <- E'. apply list_elem_of_In, in_map_iff. exists x. by rewrite <- list_elem_of_In. }
      rewrite delete_meta, (delete_used _ _ m Hm), delete_limit in *. exists (m :: dropped), kept. split; [done|].
      split; [cbn [rev]; by rewrite H1, foldr_app|]. cbn [foldr]. split; [lia|]. split; [done|].
      intros d m' E'. destruct d as [|y d]; [|injection E' as -> ->; by apply (H4 d)].
      injection E' as -> ->. cbn [foldr] in H2. lia.
Qed.

Lemma make_room_limit n l : forall s, storageLimitBytes (make_room n l s) = storageLimitBytes s.
Proof.
  induction l as [|m l IH]; intros s; [done|]. cbn [make_room]. destruct (_ <=? _); [done|]. by rewrite IH, delete_limit.
Qed.

Lemma evictToFit_limit n s : storageLimitBytes (_evictToFit n s) = storageLimitBytes s.
Proof. unfold _evictToFit. destruct (_ <=? _); [done|apply make_room_limit]. Qed.

Lemma evictOlder_limit cutoff s : storageLimitBytes (fst (_evictOlderThan cutoff s)) = storageLimitBytes s.
Proof.
  unfold _evictOlderThan. generalize 0 at 2. generalize (values (_meta s)). intros l. generalize (eq_refl (storageLimitBytes s)).
  generalize (storageLimitBytes s) at 1 3. intros lim. revert s.
  induction l as [|m l IH]; intros s Hl n; [done|]. cbn [fold_left].
  destruct (_ && _); apply IH; [by rewrite delete_limit|done].
Qed.

Lemma sweep_limit now s : storageLimitBytes (sweep now s) = storageLimitBytes s.
Proof. unfold sweep. destruct (later _ _); [|done]. cbn. apply evictOlder_limit. Qed.

Lemma get_without k l : forall m : jsmap BlobMeta,
  get k (foldr (fun x acc => mdelete (toHex (messageId x)) acc) m l)
  = if bool_decide (k ∈ map (fun x => toHex (messageId x)) l) then None else get k m.
Proof.
  induction l as [|x l IH]; intros m; cbn [foldr map]; [done|].
  destruct (decide (k = toHex (messageId x))) as [->|Hk].
  - rewrite get_mdelete_same, bool_decide_true; [done|]. by left.
  - rewrite get_mdelete_other, IH by done. repeat case_bool_decide; try done; exfalso; set_solver.
Qed.

Lemma values_keys m : Forall (fun '(k, x) => k = toHex (messageId x)) m ->
  map (fun x => toHex (messageId x)) (values m) = keys m.
Proof.
  unfold values, keys. induction 1 as [|[k x] m Hk _ IH]; [done|]. cbn [map fst snd]. by rewrite IH, <- Hk.
Qed.

Lemma older_trans a b c : before older a b -> before older b c -> before older a c.
Proof.
  unfold before, older, later. rewrite !negb_false_iff, !Qle_bool_iff. intros H1 H2. by eapply Qle_trans.
Qed.

Lemma older_asym a b : older a b = true -> older b a = false.
Proof.
  unfold older, later. rewrite negb_true_iff, negb_false_iff, <- not_true_iff_false, !Qle_bool_iff.
  intros H. by apply Qlt_le_weak, Qnot_le_lt.
Qed.

(** What eviction to fit does to the entries. *)
Record evicted (n : Z) (s s' : BlobStore) (dropped kept : list BlobMeta) : Prop := {
  ev_split : values (_meta s) ≡ₚ dropped ++ kept;
  ev_oldest : forall d k, d ∈ dropped -> k ∈ kept -> (received d <= received k)%Q;
  ev_kept : forall m, m ∈ kept -> get (toHex (messageId m)) (_meta s') = Some m;
  ev_dropped : forall m, m ∈ dropped -> get (toHex (messageId m)) (_meta s') = None;
  ev_fits : usedBytes s' + n <= storageLimitBytes s \/ _meta s' = [] /\ usedBytes s' = 0;
  ev_needed : forall d m, dropped = d ++ [m] -> storageLimitBytes s < usedBytes s' + size m + n;
}.

Lemma stored_values s : blobs_ok s ->
  Forall (fun m => get (toHex (messageId m)) (_meta s) = Some m) (js_sort older (values (_meta s)))
  /\ NoDup (map (fun m => toHex (messageId m)) (js_sort older (values (_meta s)))).
Proof.
  intros Hs. pose proof (js_sort_perm older (values (_meta s))) as Hp. split.
  - rewrite Hp. apply Forall_forall. intros m Hm. by apply value_stored.
  - rewrite (Permutation_map _ Hp), (values_keys _ (bo_named _ Hs)). apply Hs.
Qed.

Lemma empty_meta s : blobs_ok s -> (forall k, get k (_meta s) = None) -> _meta s = [] /\ usedBytes s = 0.
Proof.
  intros Hs Hg. rewrite (bo_used _ Hs). destruct (_meta s) as [|[k m] l] eqn:E; [done|].
  specialize (Hg k). cbn [get] in Hg. by rewrite bool_decide_true in Hg.
Qed.

Lemma evictToFit_spec n s : blobs_ok s -> exists dropped kept, evicted n s (_evictToFit n s) dropped kept.
Proof.
  intros Hs. unfold _evictToFit. destruct (usedBytes s + n <=? storageLimitBytes s) eqn:E; bools.
  - exists [], (values (_meta s)). split.
    + done.
    + by intros d k Hd%not_elem_of_nil.
    + intros m Hm. by apply value_stored.
    + by intros m Hm%not_elem_of_nil.
    + by left.
    + intros d m E'. by destruct (app_cons_not_nil d [] m).
  - destruct (stored_values s Hs) as [Hl Hd].
    destruct (make_room_spec n _ s Hs Hl Hd) as (dropped & kept & Ho & H1 & H2 & H3 & H4).
    exists dropped, kept. rewrite Ho, map_app in Hd. apply NoDup_app in Hd as (Hd1 & Hd2 & _).
    assert (Hg : forall m, get (toHex (messageId m)) (_meta (make_room n (js_sort older (values (_meta s))) s))
              = if bool_decide (toHex (messageId m) ∈ map (fun x => toHex (messageId x)) dropped) then None else get (toHex (messageId m)) (_meta s)).
    { intros m. rewrite H1, get_without. rewrite map_rev.
      rewrite (bool_decide_ext _ (toHex (messageId m) ∈ map (fun x => toHex (messageId x)) dropped)); [done|].
      rewrite !list_elem_of_In. symmetry. apply in_rev. }
    split.
    + by rewrite <- (js_sort_perm older), Ho.
    + intros d k Hdr Hk. pose proof (js_sort_sorted older older_trans older_asym (values (_meta s))) as Hsort. rewrite Ho in Hsort.
      pose proof (StronglySorted_cross _ _ _ _ _ Hsort Hdr Hk) as Hb. unfold before, older, later in Hb.
      by apply negb_false_iff, Qle_bool_iff in Hb.
    + intros m Hm. rewrite Hg, bool_decide_false.
      * rewrite Forall_forall in Hl. apply Hl. rewrite Ho. apply elem_of_app. by right.
      * intros Hin. apply (Hd2 _ Hin). by apply (list_elem_of_fmap_2 (fun x => toHex (messageId x))).
    + intros m Hm. rewrite Hg, bool_decide_true; [done|]. by apply (list_elem_of_fmap_2 (fun x => toHex (messageId x))).
    + destruct H3 as [->|H3]; [right|by left]. apply empty_meta; [by apply make_room_ok|]. intros k.
      rewrite H1, get_without. case_bool_decide as Ex; [done|]. apply get_None. rewrite <- (values_keys _ (bo_named _ Hs)).
      rewrite app_nil_r in Ho. intros Hin. apply Ex. rewrite map_rev, list_elem_of_In, <- in_rev, <- Ho.
      apply list_elem_of_In. apply list_elem_of_In in Hin. by rewrite (js_sort_perm older).
    + done.
Qed.

(** Deleting, sweeping and evicting add nothing. *)
Lemma delete_less mid s k : get k (_meta s) = None -> get k (_meta (fst (delete mid s))) = None.
Proof.
  rewrite delete_meta. intros Hg. destruct (decide (k = toHex mid)) as [->|Hk]; [apply get_mdelete_same|].
  by rewrite get_mdelete_other.
Qed.

Lemma evictOlder_less cutoff s k : get k (_meta s) = None -> get k (_meta (fst (_evictOlderThan cutoff s))) = None.
Proof.
  unfold _evictOlderThan. generalize 0 at 2. generalize (values (_meta s)). intros l. revert s.
  induction l as [|m l IH]; intros s n Hs; [done|]. cbn [fold_left].
  destruct (_ && _); apply IH; [by apply delete_less|done].
Qed.

Lemma sweep_less now s k : get k (_meta s) = None -> get k (_meta (sweep now s)) = None.
Proof. unfold sweep. destruct (later _ _); [|done]. apply evictOlder_less. Qed.

Lemma make_room_less n l k : forall s, get k (_meta s) = None -> get k (_meta (make_room n l s)) = None.
Proof.
  induction l as [|m l IH]; intros s Hs; [done|]. cbn [make_room]. destruct (_ <=? _); [done|]. by apply IH, delete_less.
Qed.

Lemma evictToFit_less n s k : get k (_meta s) = None -> get k (_meta (_evictToFit n s)) = None.
Proof. unfold _evictToFit. destruct (_ <=? _); [done|apply make_room_less]. Qed.

Lemma delete_used_le mid s : blobs_ok s -> usedBytes (fst (delete mid s)) <= usedBytes s.
Proof.
  intros Hs. unfold delete. destruct (get (toHex mid) (_meta s)) as [m|] eqn:E; [|done]. cbn.
  pose proof (size_nonneg s _ _ Hs E). lia.
Qed.

Lemma evictOlder_used cutoff s : blobs_ok s -> usedBytes (fst (_evictOlderThan cutoff s)) <= usedBytes s.
Proof.
  unfold _evictOlderThan. generalize 0 at 2. generalize (values (_meta s)). intros l. revert s.
  induction l as [|m l IH]; intros s n Hs; [done|]. cbn [fold_left].
  destruct (_ && _); [|by apply IH]. etransitivity; [by apply IH, delete_ok|by apply delete_used_le].
Qed.

(** ** Any sequence of operations *)

Inductive blob_op :=
| StoreBlob (now : Q) (dest mid data : bytes)
| DeleteBlob (mid : bytes)
| PruneBlobs (now age : Q).

Definition blob_run (o : blob_op) (s : BlobStore) : BlobStore :=
  match o with
  | StoreBlob now dest mid data => fst (storeWithId now dest mid data s)
  | DeleteBlob mid => fst (delete mid s)
  | PruneBlobs now age => fst (pruneOlderThan now age s)
  end.

Definition op_size (B : Z) (o : blob_op) : Prop :=
  match o with StoreBlob _ _ _ data => zlen data <= B | _ => True end.

Lemma blob_run_ok B o s : op_size B o -> blobs_ok s -> usedBytes s <= Z.max (storageLimitBytes s) B ->
  blobs_ok (blob_run o s) /\ storageLimitBytes (blob_run o s) = storageLimitBytes s
  /\ usedBytes (blob_run o s) <= Z.max (storageLimitBytes s) B.
Proof.
  intros Ho Hs Hu. destruct o as [now dest mid data|mid|now age]; cbn [blob_run].
  - unfold storeWithId. destruct (get (toHex mid) (_meta s)) as [m|] eqn:E; [by destruct (negb _)|]. cbn [fst].
    set (s1 := sweep now s). pose proof (sweep_ok now s Hs) as H1. fold s1 in H1.
    destruct (evictToFit_spec (zlen data) s1 H1) as (d & k & He). split; [|split].
    + apply put_blob_ok; [by apply evictToFit_ok|]. apply evictToFit_less. by apply sweep_less.
    + cbn [put_blob set_contents storageLimitBytes]. unfold s1. by rewrite evictToFit_limit, sweep_limit.
    + cbn. cbn in Ho. pose proof (sweep_limit now s) as Hlim. fold s1 in Hlim.
      destruct (ev_fits _ _ _ _ _ He) as [Hf|[_ Hf]]; lia.
  - split; [by apply delete_ok|]. split; [apply delete_limit|]. pose proof (delete_used_le mid s Hs). lia.
  - unfold pruneOlderThan. split; [by apply evictOlder_ok|]. split; [apply evictOlder_limit|].
    pose proof (evictOlder_used (now - age) s Hs). lia.
Qed.

(** Whatever is stored, deleted and aged out, the two maps of a store hold
    the same blobs, each under its own id, the running total is the sum of
    their sizes, and it stays within the capacity, or within the size of the
    largest blob where that is larger. *)
Theorem blobs_sound (limit : option Z) (B : Z) (ops : list blob_op) (Hops : Forall (op_size B) ops) :
  let s := fold_left (fun s o => blob_run o s) ops (new_BlobStore limit) in
  blobs_ok s /\ usedBytes s <= Z.max (Z.max 0 (default DEFAULT_STORAGE_LIMIT_BYTES limit)) B.
Proof.
  set (L := default DEFAULT_STORAGE_LIMIT_BYTES limit).
  enough (Hrun : forall s0, blobs_ok s0 -> storageLimitBytes s0 = L -> usedBytes s0 <= Z.max L (Z.max 0 B) ->
    let s := fold_left (fun s o => blob_run o s) ops s0 in blobs_ok s /\ usedBytes s <= Z.max L (Z.max 0 B)).
  { destruct (Hrun (new_BlobStore limit) (new_ok limit) eq_refl) as [H1 H2]; [cbn; lia|]. split; [done|]. lia. }
  induction Hops as [|o ops Ho _ IH]; intros s0 Hs Hl Hu; [done|]. cbn [fold_left].
  destruct (blob_run_ok (Z.max 0 B) o s0) as (H1 & H2 & H3); [destruct o; cbn in *; lia|done|by rewrite Hl|].
  apply IH; [done|congruence|]. by rewrite Hl in H3.
Qed.

(** A new blob evicts what is oldest, and no more than it needs: with the
    entries in two parts, those dropped are nowhere newer than those kept, and
    all of those kept and the new blob are found again; the last one dropped
    was needed for room.  A blob larger than the whole capacity evicts
    everything, and is stored all the same. *)
Theorem store_evicts_oldest (now : Q) (dest mid data : bytes) (s : BlobStore) (Hs : blobs_ok s)
    (Hnew : get (toHex mid) (_meta s) = None) :
  let s' := fst (storeWithId now dest mid data s) in
  exists dropped kept, evicted (zlen data) (sweep now s) (_evictToFit (zlen data) (sweep now s)) dropped kept
  /\ get_blob mid s' = Some data
  /\ (forall m, m ∈ kept -> get (toHex (messageId m)) (_meta s') = Some m)
  /\ (storageLimitBytes s < zlen data -> _meta s' = [(toHex mid, mkMeta mid dest now (zlen data))]
      /\ storageLimitBytes s < usedBytes s').
Proof.
  cbv zeta. unfold storeWithId. rewrite Hnew. cbn [fst]. pose proof (sweep_ok now s Hs) as H1.
  destruct (evictToFit_spec (zlen data) (sweep now s) H1) as (d & k & He). exists d, k. split; [done|].
  split; [unfold get_blob; cbn; apply get_mset_same|]. split.
  - intros m Hm. pose proof (ev_kept _ _ _ _ _ He m Hm) as Hg. cbn [put_blob set_contents _meta].
    rewrite get_mset_other; [done|]. intros E. rewrite E in Hg.
    by rewrite evictToFit_less in Hg by by apply sweep_less.
  - intros Hlt. cbn [put_blob set_contents _meta usedBytes].
    pose proof (evictToFit_ok (zlen data) _ H1) as H2. assert (Hz : 0 <= usedBytes (_evictToFit (zlen data) (sweep now s))).
    { rewrite (bo_used _ H2). assert (Hall : Forall (fun '(_, m) => 0 <= size m) (_meta (_evictToFit (zlen data) (sweep now s)))).
      { apply List.Forall_forall. intros [x m] Hin. eapply (size_nonneg _ x); [exact H2|]. by apply In_get; [apply H2|]. }
      unfold weight. induction Hall as [|[x m] l Hm _ IH]; cbn [foldr]; lia. }
    destruct (ev_fits _ _ _ _ _ He) as [Hf|[-> ->]]; [rewrite sweep_limit in Hf; lia|]. split; [done|lia].
Qed.

(** ** The stream *)

Lemma len_bytes_be len : 0 <= len < 2 ^ 32 ->
  [len_byte len 24; len_byte len 16; len_byte len 8; len_byte len 0] = be_bytes 4 len.
Proof.
  intros Hl. unfold len_byte. rewrite Z.mod_small by done. cbn [be_bytes app].
  change 255 with (2 ^ 8 - 1). rewrite !land_mask, !Z.shiftr_div_pow2 by lia.
  rewrite !Z.div_div by lia. change (2 ^ 0) with 1. rewrite Z.div_1_r. done.
Qed.

(** The length's expression reads four big-endian bytes. *)
Lemma record_len_be pre b0 b1 b2 b3 post : length pre = 32%nat ->
  is_byte b0 -> is_byte b1 -> is_byte b2 -> is_byte b3 ->
  record_len (pre ++ [b0; b1; b2; b3] ++ post) = be_uint [b0; b1; b2; b3].
Proof.
  unfold is_byte. intros Hp H0 H1 H2 H3. unfold record_len.
  assert (Hb : forall k x, (pre ++ [b0; b1; b2; b3] ++ post) !! (32 + k)%nat = Some x -> byte_at (32 + k) (pre ++ [b0; b1; b2; b3] ++ post) = x).
  { intros k x Hx. unfold byte_at. by apply nth_lookup_Some. }
  assert (Hl : forall k, (pre ++ [b0; b1; b2; b3] ++ post) !! (32 + k)%nat = ([b0; b1; b2; b3] ++ post) !! k).
  { intros k. rewrite lookup_app_r by lia. f_equal. lia. }
  pose proof (Hb 0%nat b0 (Hl 0%nat)) as E0. pose proof (Hb 1%nat b1 (Hl 1%nat)) as E1.
  pose proof (Hb 2%nat b2 (Hl 2%nat)) as E2. pose proof (Hb 3%nat b3 (Hl 3%nat)) as E3.
  cbn [Nat.add] in E0, E1, E2, E3. rewrite E0, E1, E2, E3.
  unfold js_shl, js_or. rewrite (int32_small b1), (int32_small b2), (int32_small b3) by lia.
  rewrite !Z.shiftl_mul_pow2, !(int32_small (_ * _)) by lia.
  rewrite (lor_add_pow2 b1 (b2 * 2 ^ 8) 16), int32_small by lia.
  replace (b1 * 2 ^ 16 + b2 * 2 ^ 8) with ((b1 * 2 ^ 8 + b2) * 2 ^ 8) by lia.
  rewrite lor_add_pow2, Z.mod_small by lia. unfold be_uint. cbn [fold_left]. lia.
Qed.

(** A record a node sends. *)
Definition record_ok (r : StreamRecord) : Prop :=
  length (channelHash r) = 16%nat /\ length (sr_messageId r) = 16%nat /\ zlen (blob r) < 2 ^ 32.

Lemma encode_record_ok r : record_ok r ->
  encode_record r = (channelHash r ++ sr_messageId r) ++ be_bytes 4 (zlen (blob r)) ++ blob r
  /\ length (encode_record r) = (36 + length (blob r))%nat.
Proof.
  intros (H1 & H2 & H3). unfold encode_record, toFixed16. rewrite H1, H2. cbn [Nat.eqb].
  rewrite len_bytes_be by (pose proof (zlen_nonneg (blob r)); lia).
  rewrite <- app_assoc. split; [done|]. rewrite !length_app, H1, H2, length_be_bytes. lia.
Qed.

Lemma record_len_ok r post : record_ok r -> record_len (encode_record r ++ post) = zlen (blob r).
Proof.
  intros Hr. pose proof Hr as (H1 & H2 & H3). destruct (encode_record_ok r Hr) as [-> _]. rewrite <- !app_assoc.
  pose proof (wf_be_bytes 4 (zlen (blob r))) as Hw. pose proof (be_uint_be_bytes 4 (zlen (blob r))) as Hv.
  pose proof (length_be_bytes 4 (zlen (blob r))) as Hl.
  destruct (be_bytes 4 (zlen (blob r))) as [|b0 [|b1 [|b2 [|b3 [|]]]]]; try discriminate.
  do 4 (apply Forall_cons in Hw as [? Hw]). rewrite (app_assoc (channelHash r)).
  rewrite (record_len_be (channelHash r ++ sr_messageId r) b0 b1 b2 b3 (blob r ++ post)), Hv by (done || rewrite length_app; lia).
  apply Z.mod_small. split; [apply zlen_nonneg|done].
Qed.

(** One round of the loop on the start of a stream. *)
Lemma decode_first fuel r post : record_ok r ->
  decode_records (S fuel) (encode_record r ++ post) = r :: decode_records fuel post.
Proof.
  intros Hr. pose proof (record_len_ok r post Hr) as Hlen. destruct (encode_record_ok r Hr) as [He Hl].
  cbn [decode_records]. rewrite Hlen, length_app, Hl, (proj2 (Nat.leb_le _ _)) by (unfold RECORD_HEADER_LENGTH; lia).
  unfold zlen. rewrite Nat2Z.id. cbv zeta. rewrite (proj2 (Nat.ltb_ge _ _)) by (unfold RECORD_HEADER_LENGTH; lia).
  destruct Hr as (H1 & H2 & H3). rewrite (drop_app_length' (encode_record r)) by (unfold RECORD_HEADER_LENGTH; lia).
  f_equal. rewrite He, <- !app_assoc. destruct r as [ch mid b]. cbn [channelHash sr_messageId blob] in *. f_equal.
  - by apply slice_app_take.
  - apply slice_app_here; lia.
  - rewrite (app_assoc ch), (app_assoc _ (be_bytes _ _)). unfold RECORD_HEADER_LENGTH.
    apply slice_app_here; rewrite !length_app, length_be_bytes; lia.
Qed.

(** The records of a stream that were not cut off. *)
Fixpoint whole (n : nat) (records : list StreamRecord) : list StreamRecord :=
  match records with
  | [] => []
  | r :: records =>
      if (36 + length (blob r) <=? n)%nat then r :: whole (n - (36 + length (blob r))) records else []
  end.

Lemma decode_cut records : Forall record_ok records -> forall fuel n, (n <= fuel)%nat ->
  decode_records fuel (take n (encodeBlobStream records)) = whole n records.
Proof.
  unfold encodeBlobStream. induction 1 as [|r records Hr _ IH]; intros fuel n Hf.
  - cbn [map concat whole]. rewrite take_nil. by destruct fuel.
  - cbn [map concat whole]. destruct (encode_record_ok r Hr) as [_ Hl]. destruct (_ <=? n)%nat eqn:E; bools.
    + rewrite take_app_ge, Hl by lia. destruct fuel as [|fuel]; [lia|]. rewrite decode_first by done. f_equal. apply IH. lia.
    + rewrite take_app_le by lia. destruct fuel as [|fuel]; [done|]. cbn [decode_records].
      rewrite length_take, Hl. destruct (_ <=? _)%nat eqn:E2; [|done]. bools. unfold RECORD_HEADER_LENGTH in *.
      assert (Hlen : record_len (take n (encode_record r)) = zlen (blob r)).
      { rewrite <- (record_len_ok r [] Hr), app_nil_r. unfold record_len, byte_at.
        by rewrite !nth_lookup, !lookup_take_lt by lia. }
      rewrite Hlen. unfold zlen. rewrite Nat2Z.id, (proj2 (Nat.ltb_lt _ _)) by lia. done.
Qed.

Lemma whole_all records : Forall record_ok records -> forall n, (length (encodeBlobStream records) <= n)%nat ->
  whole n records = records.
Proof.
  unfold encodeBlobStream. induction 1 as [|r records Hr _ IH]; intros n Hn; [done|].
  cbn [map concat whole] in *. destruct (encode_record_ok r Hr) as [_ Hl]. rewrite length_app, Hl in Hn.
  rewrite (proj2 (Nat.leb_le _ _)) by lia. rewrite IH; [done|lia].
Qed.

Lemma stream_decodes records : Forall record_ok records -> decodeBlobStream (encodeBlobStream records) = records.
Proof.
  intros Hr. unfold decodeBlobStream.
  rewrite <- (take_ge (encodeBlobStream records) (length (encodeBlobStream records))) at 2 by lia.
  rewrite decode_cut by done. by apply whole_all.
Qed.

(** What a node sends of its store is what its peer gets: a stream decodes
    to the records it was made of, and a stream that was cut anywhere to those
    that arrived whole. *)
Theorem stream_roundtrip (records : list StreamRecord) (n : nat) (Hr : Forall record_ok records) :
  decodeBlobStream (encodeBlobStream records) = records
  /\ decodeBlobStream (take n (encodeBlobStream records)) = whole n records.
Proof.
  split; [by apply stream_decodes|]. destruct (Nat.le_gt_cases n (length (encodeBlobStream records))) as [Hn|Hn].
  - unfold decodeBlobStream. rewrite length_take, Nat.min_l by done. by apply decode_cut.
  - rewrite take_ge, whole_all by (done || lia). by apply stream_decodes.
Qed.

(** ** The gap *)

Lemma gap_loop_spec s subs pairs : forall seen,
  NoDup (map toHex (gap_loop pairs s subs seen))
  /\ forall x, x ∈ map toHex (gap_loop pairs s subs seen)
     <-> x ∉ seen /\ exists ch id, (ch, id) ∈ pairs /\ toHex ch ∈ subs /\ get_blob id s = None /\ toHex id = x.
Proof.
  induction pairs as [|[ch id] pairs IH]; intros seen; cbn [gap_loop].
  - split; [constructor|]. intros x. split; [by intros ?%not_elem_of_nil|]. intros (_ & c & i & H & _). by apply not_elem_of_nil in H.
  - assert (Hskip : forall P : Prop, P -> (P -> toHex ch ∉ subs \/ get_blob id s <> None \/ toHex id ∈ seen) ->
      NoDup (map toHex (gap_loop pairs s subs seen))
      /\ forall x, x ∈ map toHex (gap_loop pairs s subs seen)
         <-> x ∉ seen /\ exists c i, (c, i) ∈ (ch, id) :: pairs /\ toHex c ∈ subs /\ get_blob i s = None /\ toHex i = x).
    { intros P HP Hno. specialize (Hno HP). destruct (IH seen) as [H1 H2]. split; [done|]. intros x. rewrite H2.
      split; intros [Hs (c & i & Hin & Hr)]; (split; [done|]); exists c, i; (split; [|done]).
      - by right.
      - apply elem_of_cons in Hin as [[= -> ->]|Hin]; [|done]. destruct Hr as (Hr1 & Hr2 & <-). naive_solver. }
    case_bool_decide as Es; cbn [negb]; [|by apply (Hskip True); auto].
    destruct (get_blob id s) as [b|] eqn:Eg; [by apply (Hskip True); auto|].
    case_bool_decide as Ex; [by apply (Hskip True); auto|]. cbn [map].
    destruct (IH (seen ++ [toHex id])) as [H1 H2]. split.
    + constructor; [|done]. rewrite H2. set_solver.
    + intros x. rewrite elem_of_cons, H2. split.
      * intros [->|[Hx (c & i & Hin & Hr)]]; [split; [done|]; exists ch, id; split; [by left|done]|].
        split; [set_solver|]. exists c, i. split; [by right|done].
      * intros [Hx (c & i & Hin & Hr)]. destruct (decide (x = toHex id)) as [->|Hne]; [by left|right]. split; [set_solver|].
        exists c, i. split; [|done]. apply elem_of_cons in Hin as [[= -> ->]|Hin]; [|done]. by destruct Hr as (_ & _ & <-).
Qed.

(** A node asks a peer for exactly the blobs of subscribed channels that it
    does not hold, each once. *)
Theorem gap_exact (pairs : list (bytes * bytes)) (s : BlobStore) (channels : list bytes) :
  NoDup (map toHex (gapFromPeer pairs s channels))
  /\ forall x, x ∈ map toHex (gapFromPeer pairs s channels)
     <-> exists ch id, (ch, id) ∈ pairs /\ toHex ch ∈ map toHex channels /\ get_blob id s = None /\ toHex id = x.
Proof.
  destruct (gap_loop_spec s (map toHex channels) pairs []) as [H1 H2]. split; [done|]. intros x. rewrite H2.
  split; [by intros [_ H]|]. intros H. split; [apply not_elem_of_nil|done].
Qed.

(** ** A concrete store *)

Definition sample_dest : bytes := replicate 16 7.
Definition sample_id (n : Z) : bytes := replicate 16 n.

Definition sample_blob_ops : list blob_op :=
  [StoreBlob 5000 sample_dest (sample_id 1) (replicate 30 1); StoreBlob 5001 sample_dest (sample_id 2) (replicate 40 2);
   StoreBlob 5002 sample_dest (sample_id 3) (replicate 50 3); DeleteBlob (sample_id 2); PruneBlobs 6000 100].

Lemma blobs_sound_witness :
  usedBytes (fold_left (fun s o => blob_run o s) sample_blob_ops (new_BlobStore (Some 100))) <= Z.max (Z.max 0 100) 50.
Proof.
  refine (proj2 (blobs_sound (Some 100) 50 sample_blob_ops _)).
  repeat constructor; vm_compute; discriminate.
Defined.

Definition sample_store : BlobStore := Eval vm_compute in
  fold_left (fun s o => blob_run o s) (take 2 sample_blob_ops) (new_BlobStore (Some 100)).

Lemma sample_store_ok : blobs_ok sample_store.
Proof.
  split.
  - unfold wf_map. vm_compute. repeat constructor; set_solver.
  - vm_compute. reflexivity.
  - vm_compute. repeat constructor.
  - vm_compute. reflexivity.
Qed.

Lemma store_evicts_oldest_witness :
  get_blob (sample_id 3) (fst (storeWithId 5002 sample_dest (sample_id 3) (replicate 50 3) sample_store)) = Some (replicate 50 3).
Proof.
  destruct (store_evicts_oldest 5002 sample_dest (sample_id 3) (replicate 50 3) sample_store sample_store_ok) as (d & k & _ & Hg & _).
  - vm_compute. reflexivity.
  - exact Hg.
Defined.

Lemma stream_roundtrip_witness :
  let r := mkRecord sample_dest (sample_id 1) [1; 2; 3] in
  decodeBlobStream (take 50 (encodeBlobStream [r; r])) = whole 50 [r; r].
Proof.
  cbv zeta. refine (proj2 (stream_roundtrip [_; _] 50 _)).
  repeat constructor; vm_compute; reflexivity.
Defined.
