(* ===== verification/RfedFed.v ===== *)
(** * RfedFed: which federation peers are due for a sync
    (packages/rfed/src/fed_sync.js)

    Peers are kept under the hexadecimal form of their hash, in the order they
    were first seen.  Times are rational seconds; a stamp cost is the value that
    was decoded from the announce. *)

From Stdlib Require Import QArith Lqa.
From S2P Require Import Prelude Encoding JsMap MsgPack.
#[local] Open Scope Z_scope.

Definition SYNC_BACKOFF_MIN : Z := 10.
Definition SYNC_BACKOFF_MAX : Z := 3600.

Record FedPeer := mkFedPeer {
  destinationHash : bytes;
  alive : bool;
  lastHeard : Q;
  nextSyncAttempt : Q;
  lastSyncAttempt : Q;
  syncBackoff : Z;
  peeringCost : value;
}.

Record FedSync := mkFedSync {
  peers : jsmap FedPeer;
  pruneAgeSecs : Q;
  staticPeers : list jsstr;
  localNodeHash : option jsstr;
  fromStaticOnly : bool;
}.

Definition new_FedSync (pruneAge : option Q) (static : list bytes) (localNode : option bytes) (only : bool)
    : FedSync :=
  mkFedSync [] (default (inject_Z 7200) pruneAge) (map toHex static) (toHex <$> localNode) only.

Definition set_peers (f : FedSync) (m : jsmap FedPeer) : FedSync :=
  mkFedSync m (pruneAgeSecs f) (staticPeers f) (localNodeHash f) (fromStaticOnly f).

Definition set_localNodeHash (f : FedSync) (h : jsstr) : FedSync :=
  mkFedSync (peers f) (pruneAgeSecs f) (staticPeers f) (Some h) (fromStaticOnly f).

Definition new_peer (hash : bytes) (up : bool) : FedPeer :=
  mkFedPeer hash up 0 0 0 SYNC_BACKOFF_MIN VNull.

Definition exceeds (a b : Q) : bool := negb (Qle_bool a b).

Definition heard (now : Q) (cost : value) (p : FedPeer) : FedPeer :=
  mkFedPeer (destinationHash p) true now
    (if exceeds (nextSyncAttempt p) (now + inject_Z SYNC_BACKOFF_MIN) then now + 5 else nextSyncAttempt p)
    (lastSyncAttempt p) SYNC_BACKOFF_MIN
    (match cost with VNull => peeringCost p | c => c end).

Definition peerHeard (now : Q) (hash : bytes) (cost : value) (f : FedSync) : FedSync :=
  let hex := toHex hash in
  if bool_decide (localNodeHash f = Some hex) then f
  else if fromStaticOnly f && negb (bool_decide (hex ∈ staticPeers f)) then f
  else set_peers f (mset hex (heard now cost (default (new_peer hash false) (get hex (peers f)))) (peers f)).

Definition stale (now : Q) (f : FedSync) (hex : jsstr) (p : FedPeer) : bool :=
  negb (bool_decide (hex ∈ staticPeers f)) && exceeds (now - pruneAgeSecs f) (lastHeard p).

Definition pruneStalePeers (now : Q) (f : FedSync) : FedSync * nat :=
  let '(m, pruned) :=
    fold_left (fun '(m, pruned) '(hex, p) =>
      if stale now f hex p then (mdelete hex m, S pruned) else (m, pruned)) (peers f) (peers f, 0%nat) in
  (set_peers f m, pruned).

Definition due (now : Q) (p : FedPeer) : bool := alive p && Qle_bool (nextSyncAttempt p) now.

Definition tick (now : Q) (f : FedSync) : FedSync * list bytes :=
  let '(f, _) := pruneStalePeers now f in
  (f, map destinationHash (filter (fun p => due now p = true) (values (peers f)))).

(** Changing a peer that is known. *)
Definition update_peer (hash : bytes) (g : FedPeer -> FedPeer) (f : FedSync) : FedSync :=
  match get (toHex hash) (peers f) with
  | Some p => set_peers f (mset (toHex hash) (g p) (peers f))
  | None => f
  end.

Definition syncStarted (now : Q) (hash : bytes) : FedSync -> FedSync :=
  update_peer hash (fun p => mkFedPeer (destinationHash p) (alive p) (lastHeard p) (nextSyncAttempt p) now
                               (syncBackoff p) (peeringCost p)).

(** The next attempt after a backoff. *)
Definition attempted (now : Q) (backoff : Z) (p : FedPeer) : FedPeer :=
  mkFedPeer (destinationHash p) (alive p) (lastHeard p) (now + inject_Z backoff) now backoff (peeringCost p).

Definition syncOk (now : Q) (hash : bytes) : FedSync -> FedSync :=
  update_peer hash (attempted now SYNC_BACKOFF_MIN).

Definition syncErr (now : Q) (hash : bytes) : FedSync -> FedSync :=
  update_peer hash (fun p => attempted now (Z.min (syncBackoff p * 2) SYNC_BACKOFF_MAX) p).

Definition seeded (p : FedPeer) : FedPeer :=
  mkFedPeer (destinationHash p) true (lastHeard p) 0 (lastSyncAttempt p) SYNC_BACKOFF_MIN (peeringCost p).

Definition seedStaticPeers (f : FedSync) : FedSync :=
  fold_left (fun f hex =>
    set_peers f (mset hex (seeded (default (new_peer (from_hex_chunks hex) true) (get hex (peers f)))) (peers f)))
    (staticPeers f) f.

Definition peerCount (f : FedSync) : nat := size (peers f).

(** ** Any sequence of events *)

Inductive fed_op :=
| Heard (now : Q) (hash : bytes) (cost : value)
| Ticked (now : Q)
| Started (now : Q) (hash : bytes)
| Succeeded (now : Q) (hash : bytes)
| Failed (now : Q) (hash : bytes)
| Seeded (now : Q).

Definition op_time (o : fed_op) : Q :=
  match o with
  | Heard now _ _ | Ticked now | Started now _ | Succeeded now _ | Failed now _ | Seeded now => now
  end.

Definition fed_run (o : fed_op) (f : FedSync) : FedSync :=
  match o with
  | Heard now h c => peerHeard now h c f
  | Ticked now => fst (tick now f)
  | Started now h => syncStarted now h f
  | Succeeded now h => syncOk now h f
  | Failed now h => syncErr now h f
  | Seeded _ => seedStaticPeers f
  end.

(** A peer at time [t]: it is alive, its backoff is a doubling of the minimum
    up to the maximum, and its next attempt is at most the maximum away. *)
Definition peer_ok (t : Q) (p : FedPeer) : Prop :=
  alive p = true /\ (exists n : nat, syncBackoff p = Z.min (10 * 2 ^ Z.of_nat n) 3600)
  /\ (nextSyncAttempt p <= t + inject_Z SYNC_BACKOFF_MAX)%Q.

(** A peer that was just made, before it is heard. *)
Definition made_ok (t : Q) (p : FedPeer) : Prop := (nextSyncAttempt p <= t + inject_Z SYNC_BACKOFF_MAX)%Q.

Definition fed_ok (t : Q) (f : FedSync) : Prop :=
  wf_map (peers f) /\ Forall (fun '(_, p) => peer_ok t p) (peers f).

Lemma exceeds_false a b : exceeds a b = false <-> (a <= b)%Q.
Proof. unfold exceeds. by rewrite negb_false_iff, Qle_bool_iff. Qed.

Lemma exceeds_true a b : exceeds a b = true <-> (b < a)%Q.
Proof.
  unfold exceeds. rewrite negb_true_iff, <- not_true_iff_false, Qle_bool_iff. split; [apply Qnot_le_lt|apply Qlt_not_le].
Qed.

Lemma get_peer_ok t f k p : fed_ok t f -> get k (peers f) = Some p -> peer_ok t p.
Proof. intros [_ H] Hg%get_In. rewrite List.Forall_forall in H. by specialize (H _ Hg). Qed.

Lemma peer_ok_later t t' p : (t <= t')%Q -> peer_ok t p -> peer_ok t' p.
Proof. intros Ht (H1 & H2 & H3). split; [done|]. split; [done|]. lra. Qed.

Lemma fed_ok_later t t' f : (t <= t')%Q -> fed_ok t f -> fed_ok t' f.
Proof.
  intros Ht [H1 H2]. split; [done|]. rewrite List.Forall_forall in H2 |- *. intros [k p] Hin.
  specialize (H2 _ Hin). cbn in *. by eapply peer_ok_later.
Qed.

Lemma backoff_base : exists n : nat, SYNC_BACKOFF_MIN = Z.min (10 * 2 ^ Z.of_nat n) 3600.
Proof. by exists 0%nat. Qed.

Lemma heard_ok now cost p : (nextSyncAttempt p <= now + inject_Z SYNC_BACKOFF_MAX)%Q -> peer_ok now (heard now cost p).
Proof.
  intros Hp. split; [done|]. split; [apply backoff_base|]. unfold heard. cbn [nextSyncAttempt].
  destruct (exceeds _ _); [|done]. unfold SYNC_BACKOFF_MAX. change (inject_Z 3600) with (3600 # 1)%Q. lra.
Qed.

Lemma attempted_ok now b p : alive p = true -> (exists n : nat, b = Z.min (10 * 2 ^ Z.of_nat n) 3600) ->
  peer_ok now (attempted now b p).
Proof.
  intros Ha [n Hn]. split; [done|]. split; [by exists n|]. cbn [attempted nextSyncAttempt].
  assert (Hb : b <= SYNC_BACKOFF_MAX) by (unfold SYNC_BACKOFF_MAX; lia). rewrite Zle_Qle in Hb. lra.
Qed.

Lemma update_ok t hash g f : fed_ok t f -> (forall p, peer_ok t p -> peer_ok t (g p)) -> fed_ok t (update_peer hash g f).
Proof.
  intros Hf Hg. unfold update_peer. destruct (get (toHex hash) (peers f)) as [p|] eqn:E; [|done].
  pose proof (get_peer_ok _ _ _ _ Hf E) as Hp. destruct Hf as [H1 H2]. split; cbn [set_peers peers]; [by apply wf_mset|].
  apply Forall_mset; [done|]. by apply Hg.
Qed.

Lemma backoff_double b : (exists n : nat, b = Z.min (10 * 2 ^ Z.of_nat n) 3600) ->
  exists n : nat, Z.min (b * 2) SYNC_BACKOFF_MAX = Z.min (10 * 2 ^ Z.of_nat n) 3600.
Proof.
  intros [n ->]. exists (S n). unfold SYNC_BACKOFF_MAX. rewrite Nat2Z.inj_succ, Z.pow_succ_r by lia.
  pose proof (Z.pow_pos_nonneg 2 (Z.of_nat n)). lia.
Qed.

(** Pruning leaves exactly the peers that are not stale. *)
Lemma prune_loop now f l : forall (m : jsmap FedPeer) n, wf_map l -> wf_map m ->
  let m' := fst (fold_left (fun '(m, pruned) '(hex, p) =>
                   if stale now f hex p then (mdelete hex m, S pruned) else (m, pruned)) l (m, n)) in
  wf_map m' /\ forall k, get k m' = match get k l with
                                    | Some p => if stale now f k p then None else get k m
                                    | None => get k m
                                    end.
Proof.
  induction l as [|[hex p] l IH]; intros m n Hl Hm; [done|]. unfold wf_map, keys in Hl. cbn [map fst] in Hl.
  apply NoDup_cons in Hl as [Hx Hl]. cbn [fold_left].
  assert (Hnone : get hex l = None) by (apply get_None; unfold keys; by rewrite <- list_elem_of_In).
  destruct (stale now f hex p) eqn:E.
  - destruct (IH (mdelete hex m) (S n) Hl (wf_mdelete _ _ Hm)) as [H1 H2]. split; [done|]. intros k. rewrite H2. cbn [get].
    case_bool_decide as Ek.
    + subst k. rewrite Hnone, E. apply get_mdelete_same.
    + destruct (get k l) as [p'|]; [destruct (stale now f k p'); [done|]|]; by rewrite get_mdelete_other.
  - destruct (IH m n Hl Hm) as [H1 H2]. split; [done|]. intros k. rewrite H2. cbn [get]. case_bool_decide as Ek; [|done].
    subst k. by rewrite Hnone, E.
Qed.

Lemma pruned_get now f k : wf_map (peers f) -> wf_map (peers (fst (pruneStalePeers now f)))
  /\ get k (peers (fst (pruneStalePeers now f)))
     = match get k (peers f) with Some p => if stale now f k p then None else Some p | None => None end.
Proof.
  intros Hf. unfold pruneStalePeers. destruct (prune_loop now f (peers f) (peers f) 0 Hf Hf) as [H1 H2].
  destruct (fold_left _ _ _) as [m n]. cbn [fst set_peers peers] in *. split; [done|]. rewrite H2.
  by destruct (get k (peers f)).
Qed.

Lemma prune_ok t now f : fed_ok t f -> fed_ok t (fst (pruneStalePeers now f)).
Proof.
  intros [H1 H2]. split; [by apply (pruned_get now f [])|]. apply List.Forall_forall. intros [k p] Hin.
  apply In_get in Hin; [|by apply (pruned_get now f [])]. rewrite (proj2 (pruned_get now f k H1)) in Hin.
  destruct (get k (peers f)) as [p'|] eqn:E; [|done]. destruct (stale now f k p'); [done|]. injection Hin as ->.
  by eapply get_peer_ok; [split|].
Qed.

Lemma seed_ok t f : (0 <= t)%Q -> fed_ok t f -> fed_ok t (seedStaticPeers f).
Proof.
  intros Ht. unfold seedStaticPeers. generalize (staticPeers f). intros l. revert f.
  induction l as [|hex l IH]; intros f [H1 H2]; [done|]. cbn [fold_left]. apply IH. split; cbn [set_peers peers].
  - by apply wf_mset.
  - apply Forall_mset; [done|]. split; [done|]. split; [apply backoff_base|]. cbn [seeded nextSyncAttempt].
    unfold SYNC_BACKOFF_MAX. change (inject_Z 3600) with (3600 # 1)%Q. lra.
Qed.

Lemma fed_run_ok o f : (0 <= op_time o)%Q -> fed_ok (op_time o) f -> fed_ok (op_time o) (fed_run o f).
Proof.
  intros Ht Hf. destruct o as [now h c|now|now h|now h|now h|now]; cbn [fed_run op_time] in *.
  - unfold peerHeard. destruct (bool_decide _); [done|]. destruct (_ && _); [done|].
    pose proof Hf as [H1 H2]. split; cbn [set_peers peers]; [by apply wf_mset|]. apply Forall_mset; [done|].
    apply heard_ok. destruct (get (toHex h) (peers f)) as [p|] eqn:E.
    + apply (get_peer_ok _ _ _ _ Hf E).
    + cbn. unfold SYNC_BACKOFF_MAX. change (inject_Z 3600) with (3600 # 1)%Q. lra.
  - unfold tick. pose proof (prune_ok now now f Hf) as Hp. by destruct (pruneStalePeers now f).
  - apply update_ok; [done|]. by intros p (? & ? & ?).
  - apply update_ok; [done|]. intros p (Ha & _ & _). apply attempted_ok; [done|apply backoff_base].
  - apply update_ok; [done|]. intros p (Ha & Hb & _). apply attempted_ok; [done|by apply backoff_double].
  - by apply seed_ok.
Qed.

(** Times do not go back. *)
Fixpoint ordered (t : Q) (ops : list fed_op) : Prop :=
  match ops with
  | [] => True
  | o :: ops => (t <= op_time o)%Q /\ ordered (op_time o) ops
  end.

Definition last_time (t : Q) (ops : list fed_op) : Q := fold_left (fun _ o => op_time o) ops t.

(** However peers are heard, synced with and fail, the backoff of each is
    the minimum doubled some number of times, at most the maximum, and its next
    attempt at most the maximum after the last event: a tick reports exactly
    the peers whose time has come and that are not stale, so that from then on
    every peer that is not stale is reported. *)
Theorem fed_schedule (f0 : FedSync) (ops : list fed_op) (now : Q) (Hempty : peers f0 = [])
    (Hops : ordered 0 ops) :
  let f := fold_left (fun f o => fed_run o f) ops f0 in
  let T := last_time 0 ops in
  (forall k p, get k (peers f) = Some p -> peer_ok T p)
  /\ (forall h, h ∈ snd (tick now f) <->
        exists k p, get k (peers f) = Some p /\ stale now f k p = false
          /\ (nextSyncAttempt p <= now)%Q /\ h = destinationHash p)
  /\ ((T + inject_Z SYNC_BACKOFF_MAX <= now)%Q -> forall k p, get k (peers f) = Some p ->
        stale now f k p = false -> destinationHash p ∈ snd (tick now f)).
Proof.
  cbv zeta. assert (Hok : fed_ok (last_time 0 ops) (fold_left (fun f o => fed_run o f) ops f0)).
  { assert (H0 : fed_ok 0 f0) by (unfold fed_ok; rewrite Hempty; split; constructor).
    assert (Hz : (0 <= 0)%Q) by lra. revert H0 Hz Hops. generalize 0%Q at 1 3 4 5 as t. clear Hempty. revert f0.
    induction ops as [|o ops IH]; intros f0 t H0 Ht Hops; [done|]. destruct Hops as [Hle Hops]. cbn [fold_left last_time].
    apply IH; [|lra|done]. apply fed_run_ok; [lra|]. by eapply fed_ok_later. }
  set (f := fold_left _ ops f0) in *. set (T := last_time 0 ops) in *.
  assert (Hp : forall k p, get k (peers f) = Some p -> peer_ok T p) by (intros k p; by apply get_peer_ok).
  assert (Ht : forall h, h ∈ snd (tick now f) <->
    exists k p, get k (peers f) = Some p /\ stale now f k p = false /\ (nextSyncAttempt p <= now)%Q /\ h = destinationHash p).
  { intros h. pose proof (pruned_get now f) as Hpr. unfold tick. destruct (pruneStalePeers now f) as [f1 n]. cbn [fst] in Hpr. cbn [snd].
    rewrite list_elem_of_In, in_map_iff. setoid_rewrite <- list_elem_of_In. setoid_rewrite list_elem_of_filter. split.
    - intros (p & <- & Hdue & Hin). unfold values in Hin. apply list_elem_of_In, in_map_iff in Hin as ([k p'] & <- & Hin).
      apply In_get in Hin; [|by apply (Hpr [] (proj1 Hok))]. rewrite (proj2 (Hpr k (proj1 Hok))) in Hin.
      destruct (get k (peers f)) as [p|] eqn:E; [|done]. destruct (stale now f k p) eqn:Es; [done|]. injection Hin as ->.
      exists k, p'. cbn [snd] in *. unfold due in Hdue. apply andb_prop in Hdue as [_ Hn]. by apply Qle_bool_iff in Hn.
    - intros (k & p & Hg & Hs & Hn & ->). exists p. split; [done|]. destruct (Hp k p Hg) as (Ha & _).
      split; [unfold due; rewrite Ha; by apply Qle_bool_iff|]. unfold values.
      apply list_elem_of_In, in_map_iff. exists (k, p). split; [done|]. apply get_In.
      by rewrite (proj2 (Hpr k (proj1 Hok))), Hg, Hs. }
  split; [done|]. split; [done|]. intros Hnow k p Hg Hs. apply Ht. exists k, p. split; [done|]. split; [done|]. split; [|done].
  destruct (Hp k p Hg) as (_ & _ & Hn). lra.
Qed.

(** Failing again and again from the minimum doubles the backoff each time. *)
Theorem backoff_doubles (hash : bytes) (f : FedSync) (p : FedPeer) (ts : list Q) (now : Q)
    (Hp : get (toHex hash) (peers f) = Some p) (Hb : syncBackoff p = SYNC_BACKOFF_MIN) :
  exists p', get (toHex hash) (peers (fold_left (fun f t => syncErr t hash f) (ts ++ [now]) f)) = Some p'
  /\ syncBackoff p' = Z.min (10 * 2 ^ (zlen ts + 1)) SYNC_BACKOFF_MAX
  /\ nextSyncAttempt p' = (now + inject_Z (syncBackoff p'))%Q.
Proof.
  assert (Hrun : forall n f p, get (toHex hash) (peers f) = Some p -> syncBackoff p = Z.min (10 * 2 ^ Z.of_nat n) SYNC_BACKOFF_MAX ->
    exists p', get (toHex hash) (peers (fold_left (fun f t => syncErr t hash f) ts f)) = Some p'
    /\ syncBackoff p' = Z.min (10 * 2 ^ (Z.of_nat n + zlen ts)) SYNC_BACKOFF_MAX).
  { clear. induction ts as [|t ts IH]; intros n f p Hg Hb; [exists p; split; [done|]; by rewrite zlen_nil, Z.add_0_r|].
    cbn [fold_left]. unfold syncErr at 2, update_peer. rewrite Hg. set (p1 := attempted _ _ _).
    destruct (IH (S n) (set_peers f (mset (toHex hash) p1 (peers f))) p1) as (p' & H1 & H2).
    - apply get_mset_same.
    - cbn. rewrite Hb, Nat2Z.inj_succ, Z.pow_succ_r by lia. unfold SYNC_BACKOFF_MAX. pose proof (Z.pow_pos_nonneg 2 (Z.of_nat n)). lia.
    - exists p'. split; [done|]. rewrite H2, zlen_cons. do 3 f_equal. lia. }
  destruct (Hrun 0%nat f p Hp) as (p1 & H1 & H2); [by rewrite Hb|]. rewrite fold_left_app. cbn [fold_left].
  unfold syncErr at 1, update_peer. rewrite H1. eexists. split; [apply get_mset_same|]. cbn [attempted syncBackoff nextSyncAttempt].
  split; [|done]. rewrite H2, Z.add_0_l. rewrite Z.pow_add_r by (try apply zlen_nonneg; lia). unfold SYNC_BACKOFF_MAX.
  pose proof (Z.pow_pos_nonneg 2 (zlen ts) ltac:(lia) (zlen_nonneg ts)). lia.
Qed.

(** ** A concrete run *)

Definition sample_fed_ops : list fed_op :=
  [Heard 1 (replicate 16 1) VNull; Heard 2 (replicate 16 2) (VInt 8); Failed 3 (replicate 16 1); Failed 20 (replicate 16 1);
   Succeeded 30 (replicate 16 2)].

Definition sample_fed_peer : FedPeer := Eval vm_compute in
  default (new_peer [] true) (get (toHex (replicate 16 1))
    (peers (fold_left (fun f o => fed_run o f) sample_fed_ops (new_FedSync None [] None false)))).

Lemma fed_schedule_witness : exists k p,
  get k (peers (fold_left (fun f o => fed_run o f) sample_fed_ops (new_FedSync None [] None false))) = Some p
  /\ destinationHash p ∈ snd (tick 4000 (fold_left (fun f o => fed_run o f) sample_fed_ops (new_FedSync None [] None false))).
Proof.
  destruct (fed_schedule (new_FedSync None [] None false) sample_fed_ops 4000) as (_ & _ & Hdue).
  - reflexivity.
  - cbn. repeat split; lra.
  - exists (toHex (replicate 16 1)), sample_fed_peer. split; [vm_compute; reflexivity|].
    apply (Hdue ltac:(vm_compute; discriminate) (toHex (replicate 16 1))); vm_compute; reflexivity.
Defined.
