(* ===== verification/RfedTables.v ===== *)
(** * RfedTables: who is subscribed, and who is to be woken
    (packages/rfed/src/subscription.js and notify.js)

    Both tables are lists in the order of registration.  [subscribe] is cut at
    its await: [subscribe_begin] looks for an entry, [subscribe_end] adds one.
    Times are rational seconds. *)

From Stdlib Require Import QArith.
From S2P Require Import Link.
From S2P Require Import Prelude Encoding JsMap Utf8 MsgPack MsgPackSpec Packet Crypto Identity Destination DestinationSpec.
#[local] Open Scope Z_scope.

(** ** Subscriptions *)

Record SubscriptionEntry := mkSub {
  subscriberHash : bytes;
  channelHash : bytes;
  identity : option Identity;
  deliveryHash : option bytes;
  added : Q;
  ownerNodeHash : option bytes;
  lastRefreshed : Q;
}.

Abbreviation SubscriptionTable := (list SubscriptionEntry).

Definition APP_NAME : jsstr := lit "rfed".
Definition DELIVERY_ASPECT : jsstr := lit "delivery".

Definition of_pair (sub ch : bytes) (e : SubscriptionEntry) : bool :=
  bool_decide (toHex (subscriberHash e) = toHex sub) && bool_decide (toHex (channelHash e) = toHex ch).

Definition _find (sub ch : bytes) (t : SubscriptionTable) : option SubscriptionEntry :=
  List.find (of_pair sub ch) t.

Definition unsubscribe (sub ch : bytes) (t : SubscriptionTable) : SubscriptionTable * bool :=
  let t' := filter (fun e => of_pair sub ch e = false) t in
  (t', negb (length t' =? length t)%nat).

Definition subscribersFor (ch : bytes) (t : SubscriptionTable) : list SubscriptionEntry :=
  filter (fun e => toHex (channelHash e) = toHex ch) t.

Definition for_delivery (dh : bytes) (e : SubscriptionEntry) : bool :=
  match deliveryHash e with Some d => bool_decide (toHex d = toHex dh) | None => false end.

Definition entryForDeliveryHash (dh : bytes) (t : SubscriptionTable) : option SubscriptionEntry :=
  List.find (for_delivery dh) t.

Definition isSubscribed (sub ch : bytes) (t : SubscriptionTable) : bool :=
  match _find sub ch t with Some _ => true | None => false end.

Definition channelsFor (sub : bytes) (t : SubscriptionTable) : list bytes :=
  map channelHash (filter (fun e => toHex (subscriberHash e) = toHex sub) t).

(** Distinct channels, where they were first seen; a later entry replaces the
    bytes under its key. *)
Definition subscribedChannelHashes (t : SubscriptionTable) : list bytes :=
  values (fold_left (fun m e => mset (toHex (channelHash e)) (channelHash e) m) t []).

Definition refreshed (now : Q) (e : SubscriptionEntry) : SubscriptionEntry :=
  mkSub (subscriberHash e) (channelHash e) (identity e) (deliveryHash e) (added e) (ownerNodeHash e) now.

Definition is_backup (sub ch owner : bytes) (e : SubscriptionEntry) : bool :=
  of_pair sub ch e
  && match ownerNodeHash e with Some o => bool_decide (toHex o = toHex owner) | None => false end.

(** Changing the first entry that fits, in place; adding one if none does. *)
Fixpoint update_first {A} (p : A -> bool) (f : A -> A) (l : list A) : option (list A) :=
  match l with
  | [] => None
  | x :: l => if p x then Some (f x :: l) else cons x <$> update_first p f l
  end.

Definition subscribeBackup (now : Q) (sub ch owner : bytes) (t : SubscriptionTable) : SubscriptionTable :=
  match update_first (is_backup sub ch owner) (refreshed now) t with
  | Some t' => t'
  | None => t ++ [mkSub sub ch None None now (Some owner) now]
  end.

(** The subscriber, the channel and the owner of every backup entry. *)
Definition backupEntriesForTick (t : SubscriptionTable) : list (bytes * bytes * bytes) :=
  omap (fun e => o ← ownerNodeHash e; Some (subscriberHash e, channelHash e, o)) t.

Definition backup_live (cutoff : Q) (e : SubscriptionEntry) : bool :=
  match ownerNodeHash e with None => true | Some _ => Qle_bool cutoff (lastRefreshed e) end.

Definition pruneStaleBackups (now maxAgeSecs : Q) (t : SubscriptionTable) : SubscriptionTable * nat :=
  let t' := filter (fun e => backup_live (now - maxAgeSecs) e = true) t in
  (t', (length t - length t')%nat).

(** A record on disk: the entry with its identity as a public key. *)
Record SubscriptionRecord := mkSubRecord {
  r_entry : SubscriptionEntry;
  r_pubkey : option bytes;
}.

Section WithCrypto.
Context `{C : WebCrypto} `{H : JsHost}.

Definition deliveryDest (id : Identity) : option bytes :=
  Destination.destinationHash (create (APP_NAME ++ lit "." ++ DELIVERY_ASPECT) OUT DestType_SINGLE (Some id) None).

(** Up to the await: the entry that exists. *)
Definition subscribe_begin (id : Identity) (ch : bytes) (t : SubscriptionTable) : option SubscriptionEntry :=
  _find (identityHash id) ch t.

(** After it: the new entry. *)
Definition subscribe_end (now : Q) (id : Identity) (ch : bytes) (t : SubscriptionTable)
    : SubscriptionTable * SubscriptionEntry :=
  let entry := mkSub (identityHash id) ch (Some id) (deliveryDest id) now None now in
  (t ++ [entry], entry).

(** [subscribe] that nothing interrupts. *)
Definition subscribe (now : Q) (id : Identity) (ch : bytes) (t : SubscriptionTable)
    : SubscriptionTable * SubscriptionEntry :=
  match subscribe_begin id ch t with
  | Some existing => (t, existing)
  | None => subscribe_end now id ch t
  end.

Definition exportRecords (t : SubscriptionTable) : list SubscriptionRecord :=
  map (fun e => mkSubRecord e (getPublicKey <$> identity e)) t.

Definition import_record (r : SubscriptionRecord) : SubscriptionEntry :=
  let e := r_entry r in
  mkSub (subscriberHash e) (channelHash e) (fromPublicKey <$> r_pubkey r)
    (match r_pubkey r with Some _ => deliveryHash e | None => None end)
    (added e) (ownerNodeHash e) (lastRefreshed e).

Definition importRecords (records : list SubscriptionRecord) : SubscriptionTable := map import_record records.

End WithCrypto.

(** ** Notify commands *)

Definition NOTIFY_REGISTER : jsstr := lit "register".
Definition NOTIFY_UNREGISTER : jsstr := lit "unregister".
Definition NOTIFY_CLEAR : jsstr := lit "clear".

(** The regular expression [[0-9a-f]]. *)
Definition is_lower_hex (c : Z) : bool := ((48 <=? c) && (c <=? 57)) || ((97 <=? c) && (c <=? 102)).

(** [true]: the hash is valid ([null] in the code). *)
Definition validateRelayHash (hash : jsstr) : bool := (length hash =? 32)%nat && forallb is_lower_hex hash.

Record NotifyCommand := mkCommand {
  kind : jsstr;
  c_relayHash : option jsstr;
  c_channelHash : option bytes;
}.

Definition relay_of (v : value) : option jsstr :=
  match v with VStr (c :: s) => Some (c :: s) | _ => None end.

Definition channel_of (v : value) : option bytes :=
  match v with VBin b => if (length b =? 16)%nat then Some b else None | _ => None end.

(** The rest of the function for the forms that take their kind from the path. *)
Definition legacy_command (decoded : option value) (defaultKind : option jsstr) : result NotifyCommand :=
  match defaultKind with
  | None => Throw (JsError "notify DATA payload missing op")
  | Some k =>
      match decoded with
      | Some (VArr (relay :: ch :: _)) => Ok (mkCommand k (relay_of relay) (channel_of ch))
      | Some (VStr s) => Ok (mkCommand k (relay_of (VStr s)) None)
      | _ => Ok (mkCommand k None None)
      end
  end.

Definition modern_command (op : jsstr) (relay ch : value) (defaultKind : option jsstr) : result NotifyCommand :=
  if negb (bool_decide (op ∈ [NOTIFY_REGISTER; NOTIFY_UNREGISTER; NOTIFY_CLEAR]))
  then Throw (JsError "unknown notify op")
  else if match defaultKind with Some k => negb (bool_decide (k = op)) | None => false end
  then Throw (JsError "notify op mismatch")
  else Ok (mkCommand op (relay_of relay) (channel_of ch)).

Section Commands.
Context `{H : JsHost}.

Definition parseNotifyCommand (valueBytes : bytes) (defaultKind : option jsstr) : result NotifyCommand :=
  if bool_decide (defaultKind = Some NOTIFY_CLEAR) && (length valueBytes =? 0)%nat
  then Ok (mkCommand NOTIFY_CLEAR None None)
  else
    let decoded := match decode_body valueBytes with Ok v => Some v | Throw _ => None end in
    match decoded with
    | Some (VArr (VStr op :: relay :: ch :: _)) => modern_command op relay ch defaultKind
    | _ => legacy_command decoded defaultKind
    end.

Definition some_bytes (name : jsstr) (b : option bytes) : list (jsstr * value) :=
  match b with Some (x :: b) => [(name, VBin (x :: b))] | _ => [] end.

Definition encodeWakePayload (receiver : bytes) (sender channel : option bytes) : result bytes :=
  encode (VObj None ([(lit "receiver", VBin receiver)]
            ++ some_bytes (lit "sender") sender ++ some_bytes (lit "channel") channel)).

End Commands.

(** ** Notify registrations *)

Record NotifyRegistration := mkReg {
  n_subscriberHash : bytes;
  n_channelHash : option bytes;
  relayHash : jsstr;
  registered : Q;
}.

Abbreviation NotifyRegistry := (list NotifyRegistration).

(** [eq] and [eqOrNull]. *)
Definition of_channel (sub : bytes) (ch : option bytes) (r : NotifyRegistration) : bool :=
  bool_decide (n_subscriberHash r = sub) && bool_decide (n_channelHash r = ch).

Definition of_relay (sub : bytes) (ch : option bytes) (relay : jsstr) (r : NotifyRegistration) : bool :=
  of_channel sub ch r && bool_decide (relayHash r = relay).

Definition register (now : Q) (sub : bytes) (ch : option bytes) (relay : jsstr) (t : NotifyRegistry)
    : NotifyRegistry :=
  match update_first (of_relay sub ch relay)
          (fun r => mkReg (n_subscriberHash r) (n_channelHash r) (relayHash r) now) t with
  | Some t' => t'
  | None => t ++ [mkReg sub ch relay now]
  end.

Definition unregister (sub : bytes) (ch : option bytes) (relay : jsstr) (t : NotifyRegistry) : NotifyRegistry :=
  filter (fun r => of_relay sub ch relay r = false) t.

Definition clear (sub : bytes) (t : NotifyRegistry) : NotifyRegistry :=
  filter (fun r => n_subscriberHash r <> sub) t.

Definition getForSubscriber (sub : bytes) (ch : option bytes) (t : NotifyRegistry) : list NotifyRegistration :=
  filter (fun r => of_channel sub ch r = true) t.

(** The records on disk have the fields of a registration. *)
Definition exportRegistrations (t : NotifyRegistry) : list NotifyRegistration :=
  map (fun r => mkReg (n_subscriberHash r) (n_channelHash r) (relayHash r) (registered r)) t.

Definition importRegistrations (records : list NotifyRegistration) : NotifyRegistry :=
  map (fun r => mkReg (n_subscriberHash r) (n_channelHash r) (relayHash r) (registered r)) records.

(** ** Lemmas *)

Lemma ascii_str s : Forall (fun c => 0 <= c < 128) s -> wf_str s /\ utf8_encode s = s.
Proof.
  intros Hs. assert (H1 : wf_utf16 s = true /\ to_scalars s = s).
  { induction Hs as [|c s Hc _ [IH1 IH2]]; [done|]. cbn [wf_utf16 to_scalars]. unfold is_high, is_low.
    rewrite (proj2 (Z.leb_gt 55296 c)), (proj2 (Z.leb_gt 56320 c)) by lia. cbn [andb negb].
    rewrite (proj2 (Z.leb_le 0 c)), (proj2 (Z.ltb_lt c 65536)), IH1, IH2 by lia. done. }
  destruct H1 as [H1 H2]. split; [split; [done|]|].
  - destruct Hs as [|c s Hc _]; cbn; [done|]. intros [= ->]. unfold BOM in Hc. lia.
  - unfold utf8_encode. rewrite H2. clear H1 H2. induction Hs as [|c s Hc _ IH]; [done|]. cbn [map concat].
    assert (Hu : utf8_of_scalar c = [c]) by (unfold utf8_of_scalar; by rewrite (proj2 (Z.ltb_lt _ _)) by lia).
    by rewrite Hu, IH.
Qed.

Lemma update_first_none {A} (p : A -> bool) f l : update_first p f l = None <-> Forall (fun x => p x = false) l.
Proof.
  induction l as [|x l IH]; cbn [update_first]; [by split|]. destruct (p x) eqn:E.
  - split; [done|]. intros Hl. apply Forall_cons in Hl as [Hx _]. congruence.
  - destruct (update_first p f l); cbn; split; intros Hl; try done.
    + apply Forall_cons in Hl as [_ Hl]. by apply IH in Hl.
    + constructor; [done|]. by apply IH.
Qed.

Lemma update_first_some {A} (p : A -> bool) f l l' : update_first p f l = Some l' ->
  exists l1 x l2, l = l1 ++ x :: l2 /\ p x = true /\ l' = l1 ++ f x :: l2 /\ Forall (fun x => p x = false) l1.
Proof.
  revert l'. induction l as [|x l IH]; intros l'; cbn [update_first]; [done|]. destruct (p x) eqn:E.
  - intros [= <-]. exists [], x, l. by repeat split.
  - destruct (update_first p f l) as [l0|]; [|done]. intros [= <-].
    destruct (IH l0 eq_refl) as (l1 & y & l2 & -> & H1 & -> & H2). exists (x :: l1), y, l2. repeat split; try done. by constructor.
Qed.

(** The bytes that are woken for a pair are those registered for it. *)
Lemma find_split {A} (p : A -> bool) l x : List.find p l = Some x ->
  exists l1 l2, l = l1 ++ x :: l2 /\ p x = true /\ Forall (fun y => p y = false) l1.
Proof.
  induction l as [|y l IH]; cbn [List.find]; [done|]. destruct (p y) eqn:E.
  - intros [= <-]. exists [], l. by repeat split.
  - intros (l1 & l2 & -> & Hx & Hl)%IH. exists (y :: l1), l2. repeat split; try done. by constructor.
Qed.

(** ** One entry per subscription *)

Section Theorems.
Context `{C : WebCrypto} `{H : JsHost}.

(** What distinguishes entries: the pair and the owner. *)
Definition entry_key (e : SubscriptionEntry) : jsstr * jsstr * option jsstr :=
  (toHex (subscriberHash e), toHex (channelHash e), toHex <$> ownerNodeHash e).

(** An entry is the subscriber's own, with the keys to reach it, or an adopted
    one without. *)
Definition entry_ok (e : SubscriptionEntry) : Prop :=
  match ownerNodeHash e with
  | None => exists id, identity e = Some id /\ subscriberHash e = identityHash id /\ deliveryHash e = deliveryDest id
  | Some _ => identity e = None /\ deliveryHash e = None
  end.

Record table_ok (t : SubscriptionTable) : Prop := {
  to_unique : NoDup (map entry_key t);
  to_entries : Forall entry_ok t;
}.

Lemma of_pair_key sub ch e : of_pair sub ch e = true <-> toHex (subscriberHash e) = toHex sub /\ toHex (channelHash e) = toHex ch.
Proof using Type. unfold of_pair. rewrite andb_true_iff, !bool_decide_eq_true. done. Qed.

Lemma is_backup_key sub ch owner e :
  is_backup sub ch owner e = true <-> entry_key e = (toHex sub, toHex ch, Some (toHex owner)).
Proof using Type.
  unfold is_backup, entry_key. rewrite andb_true_iff, of_pair_key. destruct (ownerNodeHash e) as [o|]; cbn [fmap option_fmap option_map].
  - rewrite bool_decide_eq_true. split; [intros [[-> ->] ->]; done|]. by intros [= -> -> ->].
  - split; [by intros [_ ?]|discriminate].
Qed.

Lemma table_add e t : table_ok t -> entry_ok e -> entry_key e ∉ map entry_key t -> table_ok (t ++ [e]).
Proof using Type.
  intros [H1 H2] He Hk. split.
  - rewrite map_app. apply NoDup_app. split; [done|]. split; [|apply NoDup_singleton].
    intros x Hx Hx'. apply list_elem_of_singleton in Hx'. by subst x.
  - apply Forall_app. split; [done|]. by constructor.
Qed.

Lemma table_filter P `{!forall e, Decision (P e)} t : table_ok t -> table_ok (filter P t).
Proof using Type.
  intros [H1 H2]. split.
  2: { apply Forall_forall. intros e [_ He]%list_elem_of_filter. rewrite Forall_forall in H2. by apply H2. }
  clear H2.
  induction t as [|e t IH]; [done|]. cbn [map] in H1. apply NoDup_cons in H1 as [Hn Hd].
  rewrite filter_cons. destruct (decide (P e)); [|by apply IH]. cbn [map]. apply NoDup_cons. split; [|by apply IH].
  intros Hin. apply Hn. apply list_elem_of_fmap in Hin as (x & -> & [_ Hx]%list_elem_of_filter). apply list_elem_of_fmap. by exists x.
Qed.

Lemma subscribe_ok now id ch t : table_ok t -> table_ok (fst (subscribe now id ch t)).
Proof using Type.
  intros Ht. unfold subscribe, subscribe_begin, _find. destruct (List.find _ t) as [e|] eqn:E; [done|].
  cbn [fst subscribe_end]. apply table_add; [done|by eexists|]. intros Hin. apply list_elem_of_fmap in Hin as (e & Hk & Hin).
  pose proof (find_none _ _ E e (proj1 (list_elem_of_In _ _) Hin)) as Hf. unfold entry_key in Hk. cbn in Hk.
  injection Hk as Hk1 Hk2 _. apply not_true_iff_false in Hf. apply Hf, of_pair_key. done.
Qed.

Lemma subscribeBackup_ok now sub ch owner t : table_ok t -> table_ok (subscribeBackup now sub ch owner t).
Proof using Type.
  intros Ht. unfold subscribeBackup. destruct (update_first _ _ t) as [t'|] eqn:E.
  - apply update_first_some in E as (l1 & e & l2 & -> & He & -> & _). destruct Ht as [H1 H2]. split.
    + rewrite map_app in *. exact H1.
    + apply Forall_app in H2 as [Ha Hb]. apply Forall_cons in Hb as [Hx Hb]. apply Forall_app. split; [done|]. by constructor.
  - apply table_add; [done|done|]. apply update_first_none in E. rewrite Forall_forall in E. intros Hin.
    apply list_elem_of_fmap in Hin as (e & Hk & Hin). specialize (E e Hin). apply not_true_iff_false in E. apply E, is_backup_key. done.
Qed.

(** What holds however the calls interleave at their awaits: the entries are
    well formed, and those held for other owners are one for each. *)
Definition backups (t : SubscriptionTable) : SubscriptionTable := filter (fun e => is_Some (ownerNodeHash e)) t.

Record table_sound (t : SubscriptionTable) : Prop := {
  ts_backups : table_ok (backups t);
  ts_entries : Forall entry_ok t;
}.

Lemma sound_subscribed now id ch t : table_sound t -> table_sound (fst (subscribe_end now id ch t)).
Proof using Type.
  intros [H1 H2]. cbn [subscribe_end fst]. split.
  - unfold backups. rewrite filter_app. set (l := filter _ [_]). assert (E : l = []) by reflexivity. rewrite E, app_nil_r. exact H1.
  - apply Forall_app. split; [done|]. constructor; [by eexists|done].
Qed.

Lemma sound_filter P `{!forall e, Decision (P e)} t : table_sound t -> table_sound (filter P t).
Proof using Type.
  intros [H1 H2]. split.
  - assert (E : backups (filter P t) = filter P (backups t)).
    { unfold backups. clear H1 H2. induction t as [|e t IH]; [reflexivity|]. rewrite !(filter_cons _ e t).
      destruct (decide (P e)), (decide (is_Some (ownerNodeHash e))); rewrite ?filter_cons, ?decide_True, ?decide_False by done;
        rewrite ?IH; reflexivity. }
    rewrite E. by apply table_filter.
  - apply Forall_forall. intros e [_ He]%list_elem_of_filter. rewrite Forall_forall in H2. by apply H2.
Qed.

Lemma backups_update now sub ch owner t :
  update_first (is_backup sub ch owner) (refreshed now) (backups t)
  = backups <$> update_first (is_backup sub ch owner) (refreshed now) t.
Proof using Type.
  unfold backups. induction t as [|e t IH]; [done|]. rewrite filter_cons. cbn [update_first].
  destruct (decide (is_Some (ownerNodeHash e))) as [Ho|Ho]; [cbn [update_first]|].
  - destruct (is_backup sub ch owner e).
    + cbn [fmap option_fmap option_map]. rewrite filter_cons. destruct (decide _) as [|Hn]; [done|]. by destruct Hn.
    + rewrite IH. destruct (update_first _ _ t); cbn [fmap option_fmap option_map]; [|done]. rewrite filter_cons.
      by destruct (decide _).
  - assert (E : is_backup sub ch owner e = false).
    { apply not_true_iff_false. rewrite is_backup_key. unfold entry_key. intros [= _ _ He]. apply Ho.
      destruct (ownerNodeHash e); [by eexists|discriminate He]. }
    rewrite E, IH. destruct (update_first _ _ t); cbn [fmap option_fmap option_map]; [|done]. rewrite filter_cons.
    by destruct (decide _).
Qed.

Lemma sound_adopted now sub ch owner t : table_sound t -> table_sound (subscribeBackup now sub ch owner t).
Proof using Type.
  intros [H1 H2]. split.
  - assert (E : backups (subscribeBackup now sub ch owner t) = subscribeBackup now sub ch owner (backups t)).
    { unfold subscribeBackup. rewrite backups_update. destruct (update_first _ _ t); cbn [fmap option_fmap option_map]; [done|].
      unfold backups. rewrite filter_app. f_equal. }
    rewrite E. by apply subscribeBackup_ok.
  - unfold subscribeBackup. destruct (update_first _ _ t) as [t'|] eqn:E.
    + apply update_first_some in E as (l1 & e & l2 & -> & He & -> & _).
      apply Forall_app in H2 as [Ha Hb]. apply Forall_cons in Hb as [Hx Hb]. apply Forall_app. split; [done|]. by constructor.
    + apply Forall_app. split; [done|]. by constructor.
Qed.

Inductive table_op :=
| Subscribe (now : Q) (id : Identity) (ch : bytes)
| Unsubscribe (sub ch : bytes)
| Adopt (now : Q) (sub ch owner : bytes)
| PruneBackups (now age : Q).

Definition table_run (o : table_op) (t : SubscriptionTable) : SubscriptionTable :=
  match o with
  | Subscribe now id ch => fst (subscribe now id ch t)
  | Unsubscribe sub ch => fst (unsubscribe sub ch t)
  | Adopt now sub ch owner => subscribeBackup now sub ch owner t
  | PruneBackups now age => fst (pruneStaleBackups now age t)
  end.

Lemma table_run_ok o t : table_ok t -> table_ok (table_run o t).
Proof using Type.
  destruct o; cbn [table_run]; [apply subscribe_ok|apply table_filter|apply subscribeBackup_ok|apply table_filter].
Qed.

(** Whatever is subscribed, adopted, dropped and aged out, one call after
    the other, a table has one entry for a subscriber and channel, and one for
    each owner that handed the pair over; a subscriber's own entry carries the
    identity with its hash and the hash of its delivery destination. *)
Theorem subscriptions_unique (ops : list table_op) : table_ok (fold_left (fun t o => table_run o t) ops []).
Proof.
  enough (Hrun : forall t, table_ok t -> table_ok (fold_left (fun t o => table_run o t) ops t)) by (apply Hrun; by repeat constructor).
  induction ops as [|o ops IH]; intros t Ht; [done|]. by apply IH, table_run_ok.
Qed.

(** What is exported and imported again is the same table, for identities as
    they come from a public key. *)
Theorem subscription_records (t : SubscriptionTable) (Ht : table_ok t)
    (Hpub : Forall (fun e => match identity e with Some id => id = fromPublicKey (getPublicKey id) | None => True end) t) :
  importRecords (exportRecords t) = t.
Proof.
  destruct Ht as [_ He]. unfold importRecords, exportRecords. rewrite map_map. rewrite <- (map_id t) at 2.
  apply map_ext_in. intros e Hin%list_elem_of_In. rewrite Forall_forall in He, Hpub. specialize (He e Hin). specialize (Hpub e Hin).
  unfold import_record, entry_ok in *. cbn [r_entry r_pubkey].
  destruct e as [sub ch [id|] dh ad [o|] lr];
    cbn [identity ownerNodeHash deliveryHash subscriberHash channelHash added lastRefreshed fmap option_fmap option_map] in *.
  - destruct He as [He _]. discriminate He.
  - f_equal. f_equal. symmetry. exact Hpub.
  - destruct He as [_ ->]. reflexivity.
  - destruct He as (? & He & _). discriminate He.
Qed.

(** A subscription to a channel of which this node holds the subscriber's
    adopted entry adds nothing: the reply confirms it, and the only entry is
    the adopted one, which has no keys and is dropped when it ages. *)
Theorem subscribe_shadowed (now now2 age : Q) (id : Identity) (ch owner : bytes) (t : SubscriptionTable)
    (Hnew : _find (identityHash id) ch t = None) :
  let t1 := subscribeBackup now (identityHash id) ch owner t in
  fst (subscribe now2 id ch t1) = t1
  /\ (exists e, snd (subscribe now2 id ch t1) = e /\ identity e = None /\ deliveryHash e = None)
  /\ ((now < now2 - age)%Q -> isSubscribed (identityHash id) ch (fst (pruneStaleBackups now2 age t1)) = false).
Proof.
  cbv zeta. unfold _find in Hnew. set (e := mkSub (identityHash id) ch None None now (Some owner) now).
  assert (Hno : Forall (fun x => of_pair (identityHash id) ch x = false) t).
  { apply Forall_forall. intros x Hx. by apply (find_none _ _ Hnew), list_elem_of_In. }
  assert (E : subscribeBackup now (identityHash id) ch owner t = t ++ [e]).
  { unfold subscribeBackup. rewrite (proj2 (update_first_none _ _ _)); [done|]. eapply Forall_impl; [exact Hno|].
    intros x Hx. unfold is_backup. by rewrite Hx. }
  assert (He : of_pair (identityHash id) ch e = true) by (by apply of_pair_key).
  assert (Hfind : forall l, Forall (fun x => of_pair (identityHash id) ch x = false) l ->
    List.find (of_pair (identityHash id) ch) (l ++ [e]) = Some e).
  { induction 1 as [|x l Hx _ IH]; cbn [List.find app]; [by rewrite He|rewrite Hx; exact IH]. }
  rewrite E. unfold subscribe, subscribe_begin, _find. rewrite (Hfind t Hno). split; [done|]. split; [by eexists|].
  intros Hlt. unfold pruneStaleBackups, isSubscribed, _find. cbn [fst]. set (kept := filter _ _).
  destruct (List.find _ kept) as [x|] eqn:Ex; [|reflexivity]. apply find_some in Ex as [Hin Hx].
  apply list_elem_of_In, list_elem_of_filter in Hin as [Hlive Hin]. apply elem_of_app in Hin as [Hin|Hin%list_elem_of_singleton].
  - rewrite Forall_forall in Hno. rewrite (Hno x Hin) in Hx. discriminate.
  - subst x. cbn [e backup_live ownerNodeHash lastRefreshed] in Hlive. apply Qle_bool_iff in Hlive. by apply Qlt_not_le in Hlt.
Qed.

(** Two subscriptions of one subscriber that overlap at the await leave two
    entries, and every later message is sent twice. *)
Example subscribe_race (now : Q) (id : Identity) (ch : bytes) (t : SubscriptionTable) :
  subscribe_begin id ch t = None ->
  exists e, fst (subscribe_end now id ch (fst (subscribe_end now id ch t))) = t ++ [e; e].
Proof using Type. intros _. unfold subscribe_end. cbn [fst]. eexists. rewrite <- app_assoc. cbn [app]. reflexivity. Qed.

(** ** Commands *)

(** The command a client signs is the command the node reads: for each of
    the three operations, a non-empty relay and an optional channel, parsed
    under the path of that operation. *)
Theorem notify_command_roundtrip (op relay : jsstr) (ch : option bytes)
    (Hop : op ∈ [NOTIFY_REGISTER; NOTIFY_UNREGISTER; NOTIFY_CLEAR]) (Hrelay : validateRelayHash relay = true)
    (Hch : forall c, ch = Some c -> length c = 16%nat) :
  exists e, encode (VArr [VStr op; VStr relay; match ch with Some c => VBin c | None => VNull end]) = Ok e
  /\ parseNotifyCommand e (Some op) = Ok (mkCommand op (Some relay) ch).
Proof.
  unfold validateRelayHash in Hrelay. apply andb_prop in Hrelay as [Hlen Hhex]. apply Nat.eqb_eq in Hlen.
  assert (Hascii : Forall (fun c => 0 <= c < 128) relay).
  { apply List.Forall_forall. intros c Hc. rewrite forallb_forall in Hhex. specialize (Hhex c Hc). unfold is_lower_hex in Hhex.
    destruct (48 <=? c) eqn:E1, (97 <=? c) eqn:E2; cbn in Hhex; bools; try lia; destruct (c <=? 57) eqn:E3; cbn in Hhex; bools; lia. }
  pose proof (ascii_str relay Hascii) as [Hw Henc].
  assert (Hops : Forall (fun s => wf_str s /\ zlen (utf8_encode s) < 2 ^ 32) [NOTIFY_REGISTER; NOTIFY_UNREGISTER; NOTIFY_CLEAR])
    by (repeat constructor; done).
  rewrite Forall_forall in Hops. destruct (Hops op Hop) as [Ho1 Ho2].
  assert (Hc : canonical MAX_DEPTH (VArr [VStr op; VStr relay; match ch with Some c => VBin c | None => VNull end])).
  { apply (canonical_arr 127); [done|]. repeat apply Forall_cons_2; [..|apply Forall_nil_2]; apply canonical_atom; cbn [canonical].
    - done.
    - split; [done|]. rewrite Henc. unfold zlen. rewrite Hlen. done.
    - destruct ch as [c|]; [|done]. cbn. unfold zlen. by rewrite (Hch c eq_refl). }
  destruct (encode_decode _ Hc) as (e & He & _). exists e. split; [done|].
  assert (Hne : length e <> 0%nat).
  { pose proof (decode_encoded _ e Hc He) as Hd. destruct e; [discriminate Hd|discriminate]. }
  unfold parseNotifyCommand. rewrite (proj2 (Nat.eqb_neq _ _) Hne), andb_false_r, (decode_encoded _ e Hc He).
  unfold modern_command. rewrite bool_decide_true by done. cbn [negb]. rewrite bool_decide_true by done. cbn [negb].
  do 2 f_equal.
  - destruct relay; [discriminate|done].
  - destruct ch as [c|]; [|done]. cbn [channel_of]. by rewrite (Hch c eq_refl).
Qed.

(** ** Wakes *)

(** What a relay reads from a wake for a channel. *)
Theorem wake_roundtrip (receiver channel : bytes) (Hr : zlen receiver < 2 ^ 32)
    (Hc : channel <> [] /\ zlen channel < 2 ^ 32) :
  exists e, encodeWakePayload receiver None (Some channel) = Ok e
  /\ decode_body e = Ok (VObj None [(lit "receiver", VBin receiver); (lit "channel", VBin channel)]).
Proof.
  destruct channel as [|x channel]; [by destruct Hc|]. destruct Hc as [_ Hc].
  assert (Hcan : canonical MAX_DEPTH (VObj None [(lit "receiver", VBin receiver); (lit "channel", VBin (x :: channel))])).
  { apply (canonical_obj 127); [reflexivity|split| |].
    - apply (bool_decide_unpack _). vm_compute. exact I.
    - apply (bool_decide_unpack _). vm_compute. exact I.
    - repeat constructor; vm_compute; reflexivity.
    - repeat apply Forall_cons_2; [..|apply Forall_nil_2]; apply canonical_atom; cbn [canonical snd]; done. }
  destruct (encode_decode _ Hcan) as (e & He & _). exists e. split; [done|]. by apply decode_encoded.
Qed.
End Theorems.
