(* ===== verification/RfedClient.v ===== *)
(** * RfedClient: the channel client (packages/rfed/src/client.js)

    A client caches the channels it derived, the stamp costs nodes told it and
    the names of its raw channels.  What it asks of a node is one exchange over
    a link: [request] gives the answer to a body sent to a destination under a
    path, [Throw] if there is no link, no answer or no identity to prove; the
    link is torn down in any case.  [sent] and [transferred] are the outcomes of
    a packet and of a resource. *)

From S2P Require Import Link.
From S2P Require Import Prelude Encoding JsMap Utf8 MsgPack MsgPackSpec Packet Crypto Identity Destination DestinationSpec Stamper LxmfMessage.
From S2P Require Import RfedChannel RfedTables.
#[local] Open Scope Z_scope.

Definition SUBSCRIBE_PATH : jsstr := lit "/rfed/subscribe".
Definition UNSUBSCRIBE_PATH : jsstr := lit "/rfed/unsubscribe".
Definition PULL_PATH : jsstr := lit "/rfed/pull".
Definition NOTIFY_REGISTER_PATH : jsstr := lit "/rfed/notify/register".
Definition NOTIFY_UNREGISTER_PATH : jsstr := lit "/rfed/notify/unregister".
Definition NOTIFY_CLEAR_PATH : jsstr := lit "/rfed/notify/clear".
Definition PUBLISH_DATA_MAX : nat := 384.
Definition CHANNEL_SUBSCRIBE_NAME : jsstr := lit "rfed.channel.subscribe".
Definition CHANNEL_UNSUBSCRIBE_NAME : jsstr := lit "rfed.channel.unsubscribe".
Definition CHANNEL_PUBLISH_NAME : jsstr := lit "rfed.channel.publish".
Definition CHANNEL_PULL_NAME : jsstr := lit "rfed.channel.pull".
Definition NOTIFY_REGISTER_NAME : jsstr := lit "rfed.notify.register".
Definition NOTIFY_UNREGISTER_NAME : jsstr := lit "rfed.notify.unregister".
Definition NOTIFY_LEGACY_NAME : jsstr := lit "rfed.notify".

Record Channel := mkChannel {
  ch_identity : Identity;
  ch_channelHash : bytes;
  ch_deliveryHash : bytes;
}.

Record RFedClient := mkClient {
  identity : Identity;
  channels : jsmap Channel;
  stampCosts : jsmap value;
  rawChannels : list jsstr;
}.

Definition new_RFedClient (id : Identity) : RFedClient := mkClient id [] [] [].

Definition with_channels (c : RFedClient) (m : jsmap Channel) : RFedClient :=
  mkClient (identity c) m (stampCosts c) (rawChannels c).
Definition with_costs (c : RFedClient) (m : jsmap value) : RFedClient :=
  mkClient (identity c) (channels c) m (rawChannels c).
Definition with_raw (c : RFedClient) (l : list jsstr) : RFedClient :=
  mkClient (identity c) (channels c) (stampCosts c) l.

(** What a publish hands to the network. *)
Inductive ClientOut :=
| SendPacket (p : Packet)
| SendResource (dest : option bytes) (data : bytes).

Definition is_true_value (v : value) : bool := match v with VBool true => true | _ => false end.

Definition decodeSubscribeResponse (response : value) : bool * value :=
  match response with
  | VArr l => (is_true_value (nth 0 l VNull), nth 1 l VNull)
  | _ => (is_true_value response, VNull)
  end.

Definition decodeUnsubscribeResponse (response : value) : bool :=
  match response with VArr l => is_true_value (nth 0 l VNull) | _ => is_true_value response end.

(** [response >= 0xf0] of a number. *)
Definition pull_error (response : value) : bool :=
  match response with
  | VInt n => 240 <=? n
  | VFloat bits => (bits_of_int 240 <=? bits) && (bits <=? 2047 * 2 ^ 52)
  | _ => false
  end.

(** [pair[k]]; [None] where there is no property to read. *)
Definition element (k : nat) (v : value) : option value :=
  match v with
  | VNull => None
  | VArr l => Some (nth k l VNull)
  | VBin b => Some (match nth_error b k with Some x => VInt x | None => VNull end)
  | VStr s => Some (match nth_error s k with Some x => VStr [x] | None => VNull end)
  | VObj _ props => Some (default VNull (get [48 + Z.of_nat k] props))
  | _ => Some VNull
  end.

Definition pull_item (pair : value) : result (value * value) :=
  match element 0 pair, element 1 pair with
  | Some ch, Some blob => Ok (ch, blob)
  | _, _ => Throw (TypeError "Cannot read properties of null")
  end.

Fixpoint pull_items (pairs : list value) : result (list (value * value)) :=
  match pairs with
  | [] => Ok []
  | p :: pairs => let! i := pull_item p in let! rest := pull_items pairs in Ok (i :: rest)
  end.

(** The items and whether more is pending. *)
Definition decode_pull (response : value) : result (list (value * value) * bool) :=
  if pull_error response then Throw (JsError "rfed pull error code") else
  match response with
  | VArr (pairs :: more :: _) =>
      let! items := pull_items (match pairs with VArr l => l | _ => [] end) in
      Ok (items, is_true_value more)
  | _ => Ok ([], false)
  end.

(** A cached cost as the stamper takes it: a node's costs are integers, or
    absent. *)
Definition cost_of (v : value) : option Z := match v with VInt n => Some n | _ => None end.

Section WithCrypto.
Context `{C : WebCrypto} `{H : JsHost}.

(** ** Signed bodies *)

Definition signedValuePayload (id : Identity) (v : bytes) : result value :=
  let! sig := sign id v in Ok (VArr [VBin v; VBin (getPublicKey id); VBin sig]).

Definition signedChannelPayload (id : Identity) (channelHash : bytes) : result value :=
  let! sig := sign id channelHash in Ok (VArr [VBin channelHash; VBin (getPublicKey id); VBin sig]).

(** ** Channels *)

Definition _channel (name : jsstr) (c : RFedClient) : RFedClient * result Channel :=
  match get name (channels c) with
  | Some cached => (c, Ok cached)
  | None =>
      match deriveChannel name with
      | Throw e => (c, Throw e)
      | Ok (id, channelHash) =>
          let entry := mkChannel id channelHash (deliveryHashFor id) in
          (with_channels c (mset name entry (channels c)), Ok entry)
      end
  end.

Definition _channelByHash (channelHash : bytes) (c : RFedClient) : option (jsstr * Channel) :=
  List.find (fun '(_, e) => bool_decide (toHex (ch_channelHash e) = toHex channelHash)) (channels c).

(** ** Requests *)

Context (recallIdentity : bytes -> option Identity).
Context (request : jsstr -> Identity -> jsstr -> value -> result value).

Definition _nodeIdentity (nodeHash : bytes) : result Identity :=
  match recallIdentity nodeHash with
  | Some id => Ok id
  | None => Throw (JsError "rfed node identity unknown")
  end.

Definition subscribe (nodeHash : bytes) (channelName : jsstr) (c : RFedClient)
    : RFedClient * result (bool * value) :=
  let '(c, r) := _channel channelName c in
  let answer :=
    let! ch := r in
    let! node := _nodeIdentity nodeHash in
    let! payload := signedChannelPayload (identity c) (ch_channelHash ch) in
    let! response := request CHANNEL_SUBSCRIBE_NAME node SUBSCRIBE_PATH payload in
    Ok (ch_channelHash ch, decodeSubscribeResponse response) in
  match answer with
  | Throw e => (c, Throw e)
  | Ok (hash, (ok, cost)) =>
      (if ok : bool then with_costs c (mset (toHex hash) cost (stampCosts c)) else c, Ok (ok, cost))
  end.

Definition unsubscribe (nodeHash : bytes) (channelName : jsstr) (c : RFedClient) : RFedClient * result bool :=
  let '(c, r) := _channel channelName c in
  let answer :=
    let! ch := r in
    let! node := _nodeIdentity nodeHash in
    let! payload := signedChannelPayload (identity c) (ch_channelHash ch) in
    request CHANNEL_UNSUBSCRIBE_NAME node UNSUBSCRIBE_PATH payload in
  match answer with
  | Throw e => (c, Throw e)
  | Ok response =>
      (with_raw c (filter (fun n => n <> channelName) (rawChannels c)), Ok (decodeUnsubscribeResponse response))
  end.

Definition subscribeRaw (nodeHash : bytes) (channelName : jsstr) (c : RFedClient)
    : RFedClient * result (bool * value) :=
  let '(c, r) := subscribe nodeHash channelName c in
  match r with
  | Ok (true, _) =>
      (if bool_decide (channelName ∈ rawChannels c) then c else with_raw c (rawChannels c ++ [channelName]), r)
  | _ => (c, r)
  end.

Definition pull (nodeHash : bytes) (channelName : jsstr) (c : RFedClient)
    : RFedClient * result (list (value * value) * bool) :=
  let '(c, r) := _channel channelName c in
  (c, let! ch := r in
      let! node := _nodeIdentity nodeHash in
      let! response := request CHANNEL_PULL_NAME node PULL_PATH (VBin (ch_channelHash ch)) in
      decode_pull response).

Definition _notifyCommand (nodeHash : bytes) (op relayHash : jsstr) (channelName : option jsstr)
    (path destName : jsstr) (c : RFedClient) : RFedClient * result bool :=
  match _nodeIdentity nodeHash with
  | Throw e => (c, Throw e)
  | Ok node =>
      let '(c, r) := match channelName with
                     | Some name => let '(c, r) := _channel name c in (c, let! ch := r in Ok (VBin (ch_channelHash ch)))
                     | None => (c, Ok VNull)
                     end in
      (c, let! channelHash := r in
          let! v := encode (VArr [VStr op; VStr relayHash; channelHash]) in
          let! payload := signedValuePayload (identity c) v in
          let! response := request destName node path payload in
          Ok (is_true_value response))
  end.

Definition registerNotify (nodeHash : bytes) (relayHash : jsstr) (channelName : option jsstr) (c : RFedClient)
    : RFedClient * result bool :=
  _notifyCommand nodeHash NOTIFY_REGISTER relayHash channelName NOTIFY_REGISTER_PATH NOTIFY_REGISTER_NAME c.

Definition unregisterNotify (nodeHash : bytes) (relayHash : jsstr) (channelName : option jsstr) (c : RFedClient)
    : RFedClient * result bool :=
  _notifyCommand nodeHash NOTIFY_UNREGISTER relayHash channelName NOTIFY_UNREGISTER_PATH NOTIFY_UNREGISTER_NAME c.

Definition clearNotify (nodeHash : bytes) (c : RFedClient) : result bool :=
  let! node := _nodeIdentity nodeHash in
  let! payload := signedValuePayload (identity c) [] in
  let! response := request NOTIFY_LEGACY_NAME node NOTIFY_CLEAR_PATH payload in
  Ok (is_true_value response).

(** ** Publishing *)

Definition _sendPublish (sent transferred : result unit) (nodeHash rfedPayload : bytes)
    : list ClientOut * result unit :=
  match _nodeIdentity nodeHash with
  | Throw e => ([], Throw e)
  | Ok node =>
      let dest := create CHANNEL_PUBLISH_NAME OUT DestType_SINGLE (Some node) None in
      if (PUBLISH_DATA_MAX <? length rfedPayload)%nat
      then ([SendResource (Destination.destinationHash dest) rfedPayload], transferred)
      else ([SendPacket (mkPacket HeaderType_1 0 0 DestType_SINGLE PacketType_DATA true
               (default [] (Destination.destinationHash dest)) ContextType_NONE rfedPayload None [])], sent)
  end.

Definition cached_cost (ch : Channel) (c : RFedClient) : option Z :=
  cost_of (default VNull (get (toHex (ch_channelHash ch)) (stampCosts c))).

(** The message object is changed in place: the message after the publish is
    part of the result. *)
Definition publish (draws : nat -> bytes) (fuel : nat) (eph iv : bytes) (sent transferred : result unit)
    (nodeHash : bytes) (channelName : jsstr) (m : Message) (c : RFedClient)
    : RFedClient * list ClientOut * dec Message :=
  let '(c, r) := _channel channelName c in
  match r with
  | Throw e => (c, [], dthrow e)
  | Ok ch =>
      match wrapChannelMessage draws fuel eph iv (ch_identity ch) (identity c) (deliveryHashFor (identity c)) m
              (cached_cost ch c) with
      | None => (c, [], None)
      | Some (Throw e) => (c, [], dthrow e)
      | Some (Ok (m, w, _)) =>
          let '(outs, r) := _sendPublish sent transferred nodeHash (rfedPayload w) in
          (c, outs, lift_dec (let! _ := r in Ok m))
      end
  end.

Definition publishRaw (draws : nat -> bytes) (fuel : nat) (eph iv : bytes) (sent transferred : result unit)
    (nodeHash : bytes) (channelName : jsstr) (payload : bytes) (c : RFedClient)
    : RFedClient * list ClientOut * dec unit :=
  let '(c, r) := _channel channelName c in
  match r with
  | Throw e => (c, [], dthrow e)
  | Ok ch =>
      match wrapRawChannelMessage draws fuel eph iv (ch_identity ch) (identity c) payload (cached_cost ch c) with
      | None => (c, [], None)
      | Some (Throw e) => (c, [], dthrow e)
      | Some (Ok w) => let '(outs, r) := _sendPublish sent transferred nodeHash (rfedPayload w) in (c, outs, lift_dec r)
      end
  end.

(** ** Receiving *)

(** What [onMessage] is called with: the channel's hash and name with it. *)
Inductive Decoded :=
| RawMessage (payload senderPub : bytes) (sender : Identity) (channelHash : bytes) (channelName : jsstr)
| LxmfMessage (u : Unwrapped) (channelHash : bytes) (channelName : jsstr).

(** The key that is remembered, and the message, if its channel is known. *)
Definition _handleDelivery (nowSecs : value) (plaintext : bytes) (c : RFedClient)
    : option Remembered * dec (option Decoded) :=
  match parseFanoutPayload plaintext with
  | Throw e => (None, dthrow e)
  | Ok (channelHash, innerBlob) =>
      match _channelByHash channelHash c with
      | None => (None, dret None)
      | Some (name, ch) =>
          if bool_decide (name ∈ rawChannels c) then
            (None, lift_dec (let! decoded := unwrapRawChannelMessage innerBlob (ch_identity ch) in
                             let '(payload, pub, sender) := decoded in
                             Ok (Some (RawMessage payload pub sender channelHash name))))
          else
            let '(remembered, u) := unwrapChannelMessage nowSecs innerBlob (ch_identity ch) (ch_deliveryHash ch) in
            (remembered, dbind u (fun u => dret (Some (LxmfMessage u channelHash name))))
      end
  end.

End WithCrypto.

(** ** What the client knows of its channels *)

Section Theorems.
Context `{C : WebCrypto} `{H : JsHost} `{L : !WebCryptoLaws C} `{B : !X25519Base C}.

Definition channel_of_name (name : jsstr) : Channel :=
  mkChannel (channel_identity name) (identityHash (channel_identity name)) (deliveryHashFor (channel_identity name)).

(** Every cached channel is the one that its name derives. *)
Definition channels_ok (c : RFedClient) : Prop :=
  wf_map (channels c) /\ Forall (fun '(name, e) => e = channel_of_name name) (channels c).

Lemma get_channel name e c : channels_ok c -> get name (channels c) = Some e -> e = channel_of_name name.
Proof using Type. intros [_ Hc] Hin%get_In. rewrite List.Forall_forall in Hc. exact (Hc _ Hin). Qed.

Lemma channel_ok name c : channels_ok c ->
  let c' := fst (_channel name c) in
  channels_ok c' /\ snd (_channel name c) = Ok (channel_of_name name)
  /\ get name (channels c') = Some (channel_of_name name)
  /\ identity c' = identity c /\ rawChannels c' = rawChannels c /\ stampCosts c' = stampCosts c.
Proof using B L.
  intros Hc. cbv zeta. unfold _channel. destruct (get name (channels c)) as [e|] eqn:E.
  - pose proof (get_channel _ _ _ Hc E) as ->. split; [exact Hc|]. split; [reflexivity|]. split; [exact E|]. done.
  - rewrite deriveChannel_ok. cbn [fst snd with_channels channels identity rawChannels stampCosts].
    split; [split; [by apply wf_mset, Hc|]|]; cbn [with_channels channels].
    + apply Forall_mset; [apply Hc|reflexivity].
    + split; [done|]. split; [apply get_mset_same|done].
Qed.
End Theorems.
