(* ===== verification/RfedNode.v ===== *)
(** * RfedNode: the federation node (packages/rfed/src/node.js)

    The state of a node, one definition per handler and per tick.  A handler
    takes the time as rational seconds and returns the state, what it sends and
    its answer; an await of something outside the package is an argument: the
    outcome of each live send, of a request to a peer, of a push to a backup.
    [Throw] is a rejected promise. *)

From Stdlib Require Import QArith.
From S2P Require Import Link.
From S2P Require Import Prelude Encoding JsMap Utf8 MsgPack MsgPackSpec Packet Crypto Identity Destination DestinationSpec Stamper.
From S2P Require Import RfedChannel RfedQueue RfedBlobs RfedFed RfedTables.
#[local] Open Scope Z_scope.

(** ** Constants *)

Definition NODE_NAME : jsstr := lit "rfed.node".
Definition DELIVERY_NAME : jsstr := lit "rfed.delivery".
Definition NOTIFY_NAME : jsstr := lit "rfed.notify".
Definition PULL_ERROR_NO_IDENTITY : Z := 240.
Definition PULL_ERROR_INVALID_DATA : Z := 244.
Definition PROTOCOL_VERSION : Z := 1.
Definition DEFAULT_PULL_PAGE_SIZE : Z := 25.
Definition DEFAULT_DEFERRED_QUEUE_LIMIT : Z := 256.
Definition DEFAULT_PRESENCE_TTL_SEC : Z := 3600.
Definition DEFAULT_CHANNEL_TRANSFER_LIMIT_BYTES : Z := 100 * 1024 * 1024.
Definition DEFAULT_CHANNEL_SYNC_LIMIT_BYTES : Z := 1000 * 1024 * 1024.
Definition SYNC_LIMIT_PERIOD : Z := 3600.
Definition DEFERRED_TTL_SECS : Z := 7 * 24 * 3600.
Definition DEFAULT_OWNER_OFFLINE_SECS : Z := 90.
Definition PENDING_BACKUP_CAP : nat := 1024.
Definition MAX_INBOUND_PUBLISHES : Z := 3.
Definition STAMP_THROTTLE_SECS : Z := 180.
Definition MAX_PUBLISH_BYTES : Z := 1024 * 1024.

(** ** State *)

(** The settings; [policyFor] gives a subscriber's deferred limit. *)
Record Config := mkConfig {
  stampCost : option Z;
  stampFlexibility : Z;
  pullPageSize : Z;
  policyFor : bytes -> Z;
  presenceTtlSec : Q;
  blobTtlSecs : Q;
  deferredTtlSecs : Q;
  transferLimitBytes : Z;
  syncLimitBytes : Z;
  primaryNode : option bytes;
  secondaryNodes : list bytes;
  ownerOfflineSecs : Q;
  trustedBackupPeers : list bytes;
  maxInboundPublishes : Z;
  stampThrottleSecs : Q;
  maxPublishBytes : Z;
  trustedPublishers : list jsstr;
  nodeName : jsstr;
}.

(** The constructor's defaults. *)
Definition default_config (cost : option Z) : Config :=
  mkConfig (match cost with Some c => if 0 <? c then Some c else None | None => None end)
    3 DEFAULT_PULL_PAGE_SIZE (fun _ => DEFAULT_DEFERRED_QUEUE_LIMIT) (inject_Z DEFAULT_PRESENCE_TTL_SEC)
    (inject_Z BLOB_TTL_SECS) (inject_Z DEFERRED_TTL_SECS) DEFAULT_CHANNEL_TRANSFER_LIMIT_BYTES
    DEFAULT_CHANNEL_SYNC_LIMIT_BYTES None [] (inject_Z DEFAULT_OWNER_OFFLINE_SECS) [] MAX_INBOUND_PUBLISHES
    (inject_Z STAMP_THROTTLE_SECS) MAX_PUBLISH_BYTES [] (lit "rfed").

Record RFedNode := mkNode {
  blobStore : BlobStore;
  subscriptions : SubscriptionTable;
  deferred : DeferredQueue;
  notifyRegistry : NotifyRegistry;
  fedSync : FedSync;
  _presence : jsmap Q;
  throttledPublishers : jsmap Q;
  inboundPublishes : jsmap Q;
  _pendingBackupPushes : list (bytes * bytes);
  syncBytesSent : Z;
  syncPeriodStart : Q;
}.

(** The constructor, without stores from disk. *)
Definition new_RFedNode (now : Q) (storageLimit globalDeferredLimit : option Z) (static : list bytes) (only : bool)
    : RFedNode :=
  mkNode (new_BlobStore storageLimit) [] (new_DeferredQueue globalDeferredLimit) []
    (new_FedSync None static None only) [] [] [] [] 0 now.

Definition with_blobStore (n : RFedNode) (s : BlobStore) : RFedNode :=
  mkNode s (subscriptions n) (deferred n) (notifyRegistry n) (fedSync n) (_presence n) (throttledPublishers n)
    (inboundPublishes n) (_pendingBackupPushes n) (syncBytesSent n) (syncPeriodStart n).
Definition with_subscriptions (n : RFedNode) (t : SubscriptionTable) : RFedNode :=
  mkNode (blobStore n) t (deferred n) (notifyRegistry n) (fedSync n) (_presence n) (throttledPublishers n)
    (inboundPublishes n) (_pendingBackupPushes n) (syncBytesSent n) (syncPeriodStart n).
Definition with_deferred (n : RFedNode) (q : DeferredQueue) : RFedNode :=
  mkNode (blobStore n) (subscriptions n) q (notifyRegistry n) (fedSync n) (_presence n) (throttledPublishers n)
    (inboundPublishes n) (_pendingBackupPushes n) (syncBytesSent n) (syncPeriodStart n).
Definition with_notify (n : RFedNode) (r : NotifyRegistry) : RFedNode :=
  mkNode (blobStore n) (subscriptions n) (deferred n) r (fedSync n) (_presence n) (throttledPublishers n)
    (inboundPublishes n) (_pendingBackupPushes n) (syncBytesSent n) (syncPeriodStart n).
Definition with_fedSync (n : RFedNode) (f : FedSync) : RFedNode :=
  mkNode (blobStore n) (subscriptions n) (deferred n) (notifyRegistry n) f (_presence n) (throttledPublishers n)
    (inboundPublishes n) (_pendingBackupPushes n) (syncBytesSent n) (syncPeriodStart n).
Definition with_presence (n : RFedNode) (m : jsmap Q) : RFedNode :=
  mkNode (blobStore n) (subscriptions n) (deferred n) (notifyRegistry n) (fedSync n) m (throttledPublishers n)
    (inboundPublishes n) (_pendingBackupPushes n) (syncBytesSent n) (syncPeriodStart n).
Definition with_publishers (n : RFedNode) (throttled inbound : jsmap Q) : RFedNode :=
  mkNode (blobStore n) (subscriptions n) (deferred n) (notifyRegistry n) (fedSync n) (_presence n) throttled
    inbound (_pendingBackupPushes n) (syncBytesSent n) (syncPeriodStart n).
Definition with_pending (n : RFedNode) (l : list (bytes * bytes)) : RFedNode :=
  mkNode (blobStore n) (subscriptions n) (deferred n) (notifyRegistry n) (fedSync n) (_presence n)
    (throttledPublishers n) (inboundPublishes n) l (syncBytesSent n) (syncPeriodStart n).
Definition with_budget (n : RFedNode) (sent : Z) (start : Q) : RFedNode :=
  mkNode (blobStore n) (subscriptions n) (deferred n) (notifyRegistry n) (fedSync n) (_presence n)
    (throttledPublishers n) (inboundPublishes n) (_pendingBackupPushes n) sent start.

(** What leaves the node: a packet handed to a destination's [send], before
    encryption, and a path request. *)
Inductive Out :=
| SendTo (d : Destination) (p : Packet)
| RequestPath (h : bytes).

(** ** Presence *)

(** [if (!last) return false; return now - last <= ttl]. *)
Definition heard_within (now ttl : Q) (last : option Q) : bool :=
  match last with
  | Some t => negb (Qeq_bool t 0) && Qle_bool (now - t) ttl
  | None => false
  end.

Section Node.
Context `{C : WebCrypto} `{H : JsHost}.
Context (cfg : Config) (nodeHash : option bytes).
(** The transport's [recallIdentity]. *)
Context (recallIdentity : bytes -> option Identity).

Definition _ownerReachable (now : Q) (ownerNodeHash : bytes) (n : RFedNode) : bool :=
  heard_within now (ownerOfflineSecs cfg) (get (toHex ownerNodeHash) (_presence n)).

Definition isOnline (now : Q) (deliveryHash : bytes) (n : RFedNode) : bool :=
  heard_within now (presenceTtlSec cfg) (get (toHex deliveryHash) (_presence n)).

(** ** Sends *)

(** The packet for a destination without a link. *)
Definition data_packet (d : Destination) (payload : bytes) : Packet :=
  mkPacket HeaderType_1 0 0 DestType_SINGLE PacketType_DATA true
    (default [] (Destination.destinationHash d)) ContextType_NONE payload None [].

Definition _sendDelivery (subscriberIdentity : Identity) (payload : bytes) : Out :=
  let dest := create DELIVERY_NAME OUT DestType_SINGLE (Some subscriberIdentity) None in
  SendTo dest (data_packet dest payload).

(** Without an identity [send] throws, which is caught. *)
Definition _dispatchNotify (reg : NotifyRegistration) (receiver : bytes) (sender channel : option bytes)
    : list Out :=
  match fromHex (relayHash reg) with
  | Ok relayBytes =>
      if negb (length relayBytes =? HASH_LENGTH)%nat then [] else
      match recallIdentity relayBytes, encodeWakePayload receiver sender channel with
      | Some id, Ok payload =>
          let dest := create NOTIFY_NAME OUT DestType_SINGLE (Some id) None in
          [SendTo dest (data_packet dest payload)]
      | _, _ => []
      end
  | Throw _ => []
  end.

Definition _fireChannelNotify (subscriberHash channel : bytes) (n : RFedNode) : list Out :=
  concat (map (fun reg => _dispatchNotify reg subscriberHash None (Some channel))
            (getForSubscriber subscriberHash (Some channel) (notifyRegistry n))).

(** ** Fanout *)

Definition queue_for (now : Q) (sub channel data : bytes) (n : RFedNode) : RFedNode :=
  with_deferred n (enqueue now sub channel data (policyFor cfg sub) (deferred n)).

(** Where a blob goes for one subscription. *)
Inductive Route := Suppress | Live (id : Identity) | Defer.

Definition route_of (now : Q) (sub : SubscriptionEntry) (n : RFedNode) : Route :=
  match ownerNodeHash sub with
  | Some owner => if _ownerReachable now owner n then Suppress else Defer
  | None =>
      match identity sub, deliveryHash sub with
      | Some id, Some dh => if isOnline now dh n then Live id else Defer
      | _, _ => Defer
      end
  end.

(** The loop; [sent i] tells whether the [i]-th live send resolves. *)
Fixpoint fanout_loop (now : Q) (sent : nat -> bool) (channel data : bytes) (i : nat)
    (subs : list SubscriptionEntry) (n : RFedNode) : RFedNode * list Out * result unit :=
  match subs with
  | [] => (n, [], Ok tt)
  | sub :: subs =>
      match route_of now sub n with
      | Suppress => fanout_loop now sent channel data i subs n
      | Defer =>
          let n := queue_for now (subscriberHash sub) channel data n in
          let '(n', outs, r) := fanout_loop now sent channel data i subs n in
          (n', _fireChannelNotify (subscriberHash sub) channel n ++ outs, r)
      | Live id =>
          let out := _sendDelivery id (channel ++ data) in
          if sent i then
            let '(n', outs, r) := fanout_loop now sent channel data (S i) subs n in (n', out :: outs, r)
          else (n, [out], Throw (JsError "send failed"))
      end
  end.

Definition _fanout (now : Q) (sent : nat -> bool) (channel data : bytes) (n : RFedNode)
    : RFedNode * list Out * result unit :=
  fanout_loop now sent channel data 0 (subscribersFor channel (subscriptions n)) n.

(** [random] is the new blob's id. *)
Definition _ingest (now : Q) (random : bytes) (sent : nat -> bool) (channel data : bytes) (n : RFedNode)
    : RFedNode * list Out * result unit :=
  let '(s, r) := store now random channel data (blobStore n) in
  match r with
  | Throw e => (with_blobStore n s, [], Throw e)
  | Ok _ => _fanout now sent channel data (with_blobStore n s)
  end.

Inductive SendOutcome := Accepted | Malformed | BadStamp.

(** The checks: the channel and the blob of an accepted SEND. *)
Definition admit_send (data : bytes) : result (SendOutcome + bytes * bytes) :=
  if (length data <? HASH_LENGTH + 1)%nat then Ok (inl Malformed) else
  match stampCost cfg with
  | Some cost =>
      if cost =? 0 then Ok (inr (slice 0 HASH_LENGTH data, slice_from HASH_LENGTH data)) else
      if (length data <? HASH_LENGTH + STAMP_SIZE + 1)%nat then Ok (inl BadStamp) else
      let! parts := parseSendPayload data in
      let '(channel, inner, stamp) := parts in
      if validateChannelStamp channel inner stamp (Z.max 0 (cost - stampFlexibility cfg))
      then Ok (inr (channel, inner)) else Ok (inl BadStamp)
  | None => Ok (inr (slice 0 HASH_LENGTH data, slice_from HASH_LENGTH data))
  end.

Definition _handleSend (now : Q) (random : bytes) (sent : nat -> bool) (data : bytes) (n : RFedNode)
    : RFedNode * list Out * result SendOutcome :=
  match admit_send data with
  | Throw e => (n, [], Throw e)
  | Ok (inl refused) => (n, [], Ok refused)
  | Ok (inr (channel, inner)) =>
      let '(n, outs, r) := _ingest now random sent channel inner n in
      (n, outs, let! _ := r in Ok Accepted)
  end.

(** ** Publishes over links *)

(** The link's [maxResourceSize]; [None] leaves the default ceiling. *)
Definition publish_cap (n : RFedNode) : Z :=
  if (0 <? maxInboundPublishes cfg) && (maxInboundPublishes cfg <=? Z.of_nat (JsMap.size (inboundPublishes n)))
  then 0 else maxPublishBytes cfg.

Definition applyPublishGates (now : Q) (remote : option bytes) (n : RFedNode) : RFedNode * option Z :=
  match remote with
  | None => (n, Some (publish_cap n))
  | Some r =>
      let remoteHex := toHex r in
      if bool_decide (remoteHex ∈ trustedPublishers cfg) then (n, None) else
      match get remoteHex (throttledPublishers n) with
      | Some until =>
          if later until now then (n, Some 0)
          else let n := with_publishers n (mdelete remoteHex (throttledPublishers n)) (inboundPublishes n) in
               (n, Some (publish_cap n))
      | None => (n, Some (publish_cap n))
      end
  end.

(** A resource begins on a publish link. *)
Definition publish_started (now : Q) (hash : bytes) (n : RFedNode) : RFedNode :=
  with_publishers n (throttledPublishers n) (mset (toHex hash) now (inboundPublishes n)).

Definition throttle (now : Q) (remote : option bytes) (r : result SendOutcome) (n : RFedNode) : RFedNode :=
  match r, remote with
  | Ok BadStamp, Some h =>
      if bool_decide (toHex h ∈ trustedPublishers cfg) then n
      else with_publishers n (mset (toHex h) (now + stampThrottleSecs cfg)%Q (throttledPublishers n))
             (inboundPublishes n)
  | _, _ => n
  end.

(** It completes with its data, or fails. *)
Definition publish_settled (now : Q) (random : bytes) (sent : nat -> bool) (hash : bytes) (remote : option bytes)
    (completed : result bytes) (n : RFedNode) : RFedNode * list Out :=
  let '(n, outs) :=
    match completed with
    | Throw _ => (n, [])
    | Ok data =>
        let '(n, outs, r) := _handleSend now random sent data n in (throttle now remote r n, outs)
    end in
  (with_publishers n (throttledPublishers n) (mdelete (toHex hash) (inboundPublishes n)), outs).

(** ** Signed requests *)

Definition _verifySignedPayload (data : value) : option (Identity * bytes) :=
  match data with
  | VArr [VBin v; VBin pubkey; VBin sig] =>
      if negb ((length pubkey =? 64)%nat && (length sig =? 64)%nat) then None
      else let id := fromPublicKey pubkey in
           if validate id sig v then Some (id, v) else None
  | _ => None
  end.

Definition _verifySignedChannel (data : value) : option (Identity * bytes) :=
  match _verifySignedPayload data with
  | Some (id, v) => if (length v =? HASH_LENGTH)%nat then Some (id, v) else None
  | None => None
  end.

Definition cost_value (c : option Z) : value := match c with Some c => VInt c | None => VNull end.

(** After the await of [subscribe]: the pair waits for the backup. *)
Definition queue_pair (id : Identity) (channel : bytes) (n : RFedNode) : RFedNode :=
  if (length (_pendingBackupPushes n) <? PENDING_BACKUP_CAP)%nat
  then with_pending n (_pendingBackupPushes n ++ [(identityHash id, channel)]) else n.

Definition _handleSubscribe (now : Q) (data : value) (n : RFedNode) : RFedNode * value :=
  match _verifySignedChannel data with
  | None => (n, VArr [VBool false; VNull])
  | Some (id, channel) =>
      let n := with_subscriptions n (fst (subscribe now id channel (subscriptions n))) in
      (queue_pair id channel n, VArr [VBool true; cost_value (stampCost cfg)])
  end.

Definition _handleUnsubscribe (data : value) (n : RFedNode) : RFedNode * value :=
  match _verifySignedChannel data with
  | None => (n, VBool false)
  | Some (id, channel) =>
      let '(t, removed) := unsubscribe (identityHash id) channel (subscriptions n) in
      (with_subscriptions n t, VBool removed)
  end.

Definition _handleNotifyRegister (now : Q) (data : value) (n : RFedNode) : RFedNode * list Out * result value :=
  match _verifySignedPayload data with
  | None => (n, [], Ok (VBool false))
  | Some (id, v) =>
      match parseNotifyCommand v (Some NOTIFY_REGISTER) with
      | Throw _ => (n, [], Ok (VBool false))
      | Ok cmd =>
          match c_relayHash cmd with
          | None => (n, [], Ok (VBool false))
          | Some relay =>
              if negb (validateRelayHash relay) then (n, [], Ok (VBool false)) else
              match fromHex relay with
              | Throw e => (n, [], Throw e)
              | Ok relayBytes =>
                  if negb (length relayBytes =? 16)%nat then (n, [], Ok (VBool false)) else
                  (with_notify n (register now (identityHash id) (c_channelHash cmd) relay (notifyRegistry n)),
                   [RequestPath relayBytes], Ok (VBool true))
              end
          end
      end
  end.

Definition _handleNotifyUnregister (data : value) (n : RFedNode) : RFedNode * value :=
  match _verifySignedPayload data with
  | None => (n, VBool false)
  | Some (id, v) =>
      match parseNotifyCommand v (Some NOTIFY_UNREGISTER) with
      | Throw _ => (n, VBool false)
      | Ok cmd =>
          match c_relayHash cmd with
          | None => (n, VBool false)
          | Some relay =>
              (with_notify n (unregister (identityHash id) (c_channelHash cmd) relay (notifyRegistry n)),
               VBool true)
          end
      end
  end.

Definition _handleNotifyClear (data : value) (n : RFedNode) : RFedNode * value :=
  match _verifySignedPayload data with
  | None => (n, VBool false)
  | Some (id, _) => (with_notify n (clear (identityHash id) (notifyRegistry n)), VBool true)
  end.

(** ** Pull *)

Definition _decodeChannelHash (data : value) : option bytes :=
  match data with VBin b => if (length b =? HASH_LENGTH)%nat then Some b else None | _ => None end.

Definition _handlePull (data : value) (caller : option Identity) (n : RFedNode) : RFedNode * value :=
  match caller with
  | None => (n, VInt PULL_ERROR_NO_IDENTITY)
  | Some id =>
      match _decodeChannelHash data with
      | None => (n, VInt PULL_ERROR_INVALID_DATA)
      | Some channel =>
          let '(q, page) := drainChannelBatch (identityHash id) channel (pullPageSize cfg) (deferred n) in
          (with_deferred n q,
           VArr [VArr (map (fun p => VArr [VBin channel; VBin (RfedQueue.blob p)]) page);
                 VBool (hasPendingChannel (identityHash id) channel q)])
      end
  end.

(** ** Backup subscriptions *)

(** The loop body: a pair of hashes, or nothing. *)
Definition pair_of (v : value) : option (bytes * bytes) :=
  match v with
  | VArr [VBin sub; VBin ch] =>
      if (length sub =? HASH_LENGTH)%nat && (length ch =? HASH_LENGTH)%nat then Some (sub, ch) else None
  | _ => None
  end.

Definition node_hash_of (id : Identity) : bytes :=
  default [] (Destination.destinationHash (create NODE_NAME OUT DestType_SINGLE (Some id) None)).

Definition adopt_pairs (now : Q) (owner : bytes) (pairs : list value) (t : SubscriptionTable) : SubscriptionTable :=
  fold_left (fun t v =>
    match pair_of v with Some (sub, ch) => subscribeBackup now sub ch owner t | None => t end) pairs t.

Definition _handleBackupPush (now : Q) (data : value) (n : RFedNode) : RFedNode * value :=
  match _verifySignedPayload data with
  | None => (n, VBool false)
  | Some (id, v) =>
      let ownerHash := node_hash_of id in
      if (0 <? length (trustedBackupPeers cfg))%nat
         && negb (bool_decide (toHex ownerHash ∈ map toHex (trustedBackupPeers cfg)))
      then (n, VBool false)
      else match decode_body v with
      | Ok (VArr pairs) =>
          (with_subscriptions n (adopt_pairs now ownerHash pairs (subscriptions n)), VBool true)
      | _ => (n, VBool false)
      end
  end.

(** The request body of [_pushSubscriptionsToBackup]. *)
Definition backup_body (id : Identity) (pairs : list (bytes * bytes)) : result value :=
  let! pairsMsgpack := encode (VArr (map (fun '(sub, ch) => VArr [VBin sub; VBin ch]) pairs)) in
  let! sig := sign id pairsMsgpack in
  Ok (VArr [VBin pairsMsgpack; VBin (getPublicKey id); VBin sig]).

(** Without the backup's identity only a path is requested; [request] is the
    answer over the link, [Throw] if there is no link or no answer. *)
Definition _pushSubscriptionsToBackup (id : Identity) (request : bytes -> value -> result value)
    (backupHash : bytes) (pairs : list (bytes * bytes)) : list Out * result bool :=
  match recallIdentity backupHash with
  | None => ([RequestPath backupHash], Ok false)
  | Some _ => ([], let! body := backup_body id pairs in
                   let! resp := request backupHash body in
                   Ok (match resp with VBool true => true | _ => false end))
  end.

Definition _resolveBackup : option bytes :=
  match primaryNode cfg with Some h => Some h | None => head (secondaryNodes cfg) end.

Definition _requeueBackupPairs (pairs : list (bytes * bytes)) (n : RFedNode) : RFedNode :=
  with_pending n (_pendingBackupPushes n
    ++ take (PENDING_BACKUP_CAP - length (_pendingBackupPushes n)) pairs).

(** One bucket per owner. *)
Definition by_owner (entries : list (bytes * bytes * bytes)) : jsmap (bytes * list (bytes * bytes)) :=
  fold_left (fun m '(sub, ch, owner) =>
    let '(o, subs) := default (owner, []) (get (toHex owner) m) in
    mset (toHex owner) (o, subs ++ [(sub, ch)]) m) entries [].

(** The blobs of a channel, deferred for a subscriber. *)
Definition dump_channel (now : Q) (sub ch : bytes) (ids : list bytes) (n : RFedNode) : RFedNode * nat :=
  fold_left (fun '(n, enqueued) id =>
    match get_blob id (blobStore n) with
    | Some b => (queue_for now sub ch b n, S enqueued)
    | None => (n, enqueued)
    end) ids (n, 0%nat).

Definition adopt_one (now : Q) (owner sub ch : bytes) (n : RFedNode)
    : RFedNode * list Out * list (bytes * bytes * bytes) :=
  if hasPending sub (deferred n) then (n, [], [(sub, ch, owner)]) else
  match messageIdsForChannel ch (blobStore n) with
  | [] => (n, [], [])
  | ids =>
      let '(n, enqueued) := dump_channel now sub ch ids n in
      if (0 <? enqueued)%nat then (n, _fireChannelNotify sub ch n, [(sub, ch, owner)]) else (n, [], [])
  end.

Definition adopt_owner (now : Q) (owner : bytes) (subs : list (bytes * bytes)) (n : RFedNode)
    : RFedNode * list Out * list (bytes * bytes * bytes) :=
  if _ownerReachable now owner n then (n, [], []) else
  fold_left (fun '(n, outs, adopted) '(sub, ch) =>
    let '(n, outs', adopted') := adopt_one now owner sub ch n in
    (n, outs ++ outs', adopted ++ adopted')) subs (n, [], []).

Definition _backupDeliveryTick (now : Q) (n : RFedNode)
    : RFedNode * list Out * list (bytes * bytes * bytes) :=
  fold_left (fun '(n, outs, adopted) '(owner, subs) =>
    let '(n, outs', adopted') := adopt_owner now owner subs n in
    (n, outs ++ outs', adopted ++ adopted'))
    (values (by_owner (backupEntriesForTick (subscriptions n)))) (n, [], []).

Record BackupReport := mkReport { pushed : nat; pruned : nat; adopted : nat; repushed : nat }.

(** The first part: the registrations that wait are taken off the list and
    pushed ([push_send]); when the push has settled they are put back, behind
    those that came in the meantime, or not ([push_end]); how many were
    pushed. *)
Definition push_send (id : Identity) (request : bytes -> value -> result value) (pending : list (bytes * bytes))
    : list Out * result bool :=
  match _resolveBackup with
  | None => ([], Ok false)
  | Some backup => _pushSubscriptionsToBackup id request backup pending
  end.

Definition push_end (pending : list (bytes * bytes)) (r : result bool) (n : RFedNode) : RFedNode * result nat :=
  match r with
  | Ok true => (n, Ok (length pending))
  | Ok false => (_requeueBackupPairs pending n, Ok 0%nat)
  | Throw e => (n, Throw e)
  end.

Definition push_pending (id : Identity) (request : bytes -> value -> result value) (n : RFedNode)
    : RFedNode * list Out * result nat :=
  match _pendingBackupPushes n with
  | [] => (n, [], Ok 0%nat)
  | pending =>
      let '(outs, r) := push_send id request pending in
      let '(n, r) := push_end pending r (with_pending n []) in
      (n, outs, r)
  end.

(** The third part: adopted pairs go to this node's own backup. *)
Definition repush (id : Identity) (request : bytes -> value -> result value)
    (taken : list (bytes * bytes * bytes)) : list Out * result nat :=
  match _resolveBackup with
  | None => ([], Ok 0%nat)
  | Some backup =>
      match map fst (filter (fun '(_, owner) => toHex owner <> toHex backup) taken) with
      | [] => ([], Ok 0%nat)
      | pairs =>
          let '(outs, r) := _pushSubscriptionsToBackup id request backup pairs in
          (outs, let! ok := r in Ok (if ok : bool then length pairs else 0%nat))
      end
  end.

Definition backup_ttl : Q :=
  let t := (ownerOfflineSecs cfg * 2)%Q in if Qle_bool 90 t then t else 90.

Definition _tickBackupDeliveryInner (now : Q) (id : Identity) (request : bytes -> value -> result value)
    (n : RFedNode) : RFedNode * list Out * result BackupReport :=
  let '(n, outs1, r1) := push_pending id request n in
  match r1 with
  | Throw e => (n, outs1, Throw e)
  | Ok npushed =>
      let '(t, npruned) := pruneStaleBackups now backup_ttl (subscriptions n) in
      let '(n, outs2, taken) := _backupDeliveryTick now (with_subscriptions n t) in
      let '(outs3, r3) := repush id request taken in
      (n, outs1 ++ outs2 ++ outs3,
       let! nrepushed := r3 in Ok (mkReport npushed npruned (length taken) nrepushed))
  end.

(** ** Peer sync *)

Definition _handleOffer (n : RFedNode) : value :=
  VArr (map (fun '(ch, mid) => VArr [VBin ch; VBin mid]) (fullManifest (blobStore n))).

(** The loop over the requested ids: the records, their bytes and the bytes
    charged to the period.  An id that is not bytes throws in [toHex]. *)
Fixpoint get_loop (ids : list value) (s : BlobStore) (total sent : Z) (records : list StreamRecord)
    : Z * result (list StreamRecord) :=
  match ids with
  | [] => (sent, Ok records)
  | VBin id :: ids =>
      match metaFor id s, get_blob id s with
      | Some (ch, mid), Some b =>
          if transferLimitBytes cfg <? total + zlen b then (sent, Ok records)
          else if syncLimitBytes cfg <? sent + zlen b then (sent, Ok records)
          else get_loop ids s (total + zlen b) (sent + zlen b) (records ++ [mkRecord ch mid b])
      | _, _ => get_loop ids s total sent records
      end
  | _ :: _ => (sent, Throw (TypeError "toHex expects a Uint8Array"))
  end.

Definition refresh_budget (now : Q) (n : RFedNode) : RFedNode :=
  if Qle_bool (inject_Z SYNC_LIMIT_PERIOD) (now - syncPeriodStart n) then with_budget n 0 now else n.

Definition _handleGet (now : Q) (data : value) (n : RFedNode) : RFedNode * result bytes :=
  let n := refresh_budget now n in
  let ids := match data with VArr l => l | _ => [] end in
  let '(sent, r) := get_loop ids (blobStore n) 0 (syncBytesSent n) [] in
  (with_budget n sent (syncPeriodStart n), let! records := r in Ok (encodeBlobStream records)).

(** The elements of an iterable: those of a string or of bytes are no pairs
    in any case. *)
Definition elements_of (v : value) : option (list value) :=
  match v with
  | VArr l => Some l
  | VMap es => Some (map (fun '(k, x) => VArr [k; x]) es)
  | VStr s => Some (map (fun c => VStr [c]) s)
  | VBin b => Some (map VInt b)
  | _ => None
  end.

(** [gapFromPeer] on a manifest as it was decoded: [toHex] throws on what is
    not bytes, and the id is looked at for a subscribed channel only. *)
Fixpoint gap_values (l : list value) (s : BlobStore) (subscribed seen : list jsstr) : result (list bytes) :=
  match l with
  | [] => Ok []
  | VArr (VBin ch :: rest) :: l =>
      if negb (bool_decide (toHex ch ∈ subscribed)) then gap_values l s subscribed seen else
      match rest with
      | VBin id :: _ =>
          if match get_blob id s with Some _ => true | None => false end then gap_values l s subscribed seen
          else if bool_decide (toHex id ∈ seen) then gap_values l s subscribed seen
          else let! wanted := gap_values l s subscribed (seen ++ [toHex id]) in Ok (id :: wanted)
      | _ => Throw (TypeError "toHex expects a Uint8Array")
      end
  | _ :: _ => Throw (TypeError "toHex expects a Uint8Array")
  end.

Definition gap_of (manifest : value) (s : BlobStore) (channels : list bytes) : result (list bytes) :=
  match elements_of manifest with
  | Some l => gap_values l s (map toHex channels) []
  | None => Throw (TypeError "peerPairs is not iterable")
  end.

(** The records of a peer's stream, one after the other; how many are new. *)
Fixpoint ingest_records (now : Q) (sent : nat -> bool) (records : list StreamRecord) (count : nat) (n : RFedNode)
    : RFedNode * list Out * result nat :=
  match records with
  | [] => (n, [], Ok count)
  | r :: records =>
      match get_blob (sr_messageId r) (blobStore n) with
      | Some _ => ingest_records now sent records count n
      | None =>
          let '(s, stored) := storeWithId now (RfedBlobs.channelHash r) (sr_messageId r) (RfedBlobs.blob r) (blobStore n) in
          match stored with
          | Throw e => (with_blobStore n s, [], Throw e)
          | Ok _ =>
              let '(n, outs, done) := _fanout now sent (RfedBlobs.channelHash r) (RfedBlobs.blob r) (with_blobStore n s) in
              match done with
              | Throw e => (n, outs, Throw e)
              | Ok _ => let '(n, outs', r) := ingest_records now sent records (S count) n in (n, outs ++ outs', r)
              end
          end
      end
  end.

(** [offer] and [fetch] are the peer's answers over the link. *)
Definition _syncWithPeerInternal (now : Q) (sent : nat -> bool) (offer : result value)
    (fetch : list bytes -> result bytes) (n : RFedNode) : RFedNode * list Out * result nat :=
  match (let! m := offer in gap_of m (blobStore n) (subscribedChannelHashes (subscriptions n))) with
  | Throw e => (n, [], Throw e)
  | Ok [] => (n, [], Ok 0%nat)
  | Ok wanted =>
      match fetch wanted with
      | Throw e => (n, [], Throw e)
      | Ok stream => ingest_records now sent (decodeBlobStream stream) 0 n
      end
  end.

Definition syncWithPeer (now later : Q) (sent : nat -> bool) (offer : result value)
    (fetch : list bytes -> result bytes) (peer : bytes) (n : RFedNode) : RFedNode * list Out * result nat :=
  let n := with_fedSync n (syncStarted now peer (fedSync n)) in
  let '(n, outs, r) := _syncWithPeerInternal now sent offer fetch n in
  (with_fedSync n (match r with Ok _ => syncOk later peer (fedSync n) | Throw _ => syncErr later peer (fedSync n) end),
   outs, r).

(** The peers that are due, one after the other; a failure is logged. *)
Definition syncPeers (now : Q) (sent : nat -> bool) (offer : bytes -> result value)
    (fetch : bytes -> list bytes -> result bytes) (n : RFedNode) : RFedNode * list Out * nat :=
  let '(f, duePeers) := tick now (fedSync n) in
  fold_left (fun '(n, outs, total) peer =>
    let '(n, outs', r) := syncWithPeer now now sent (offer peer) (fetch peer) peer n in
    (n, outs ++ outs', match r with Ok k => (total + k)%nat | Throw _ => total end))
    duePeers (with_fedSync n f, [], 0%nat).

Definition tickMaintenance (now : Q) (n : RFedNode) : RFedNode * (Z * Z) :=
  let '(s, blobsEvicted) := pruneOlderThan now (blobTtlSecs cfg) (blobStore n) in
  let '(q, deferredEvicted) := evictExpired now (deferredTtlSecs cfg) (deferred n) in
  (with_deferred (with_blobStore n s) q, (blobsEvicted, deferredEvicted)).

(** ** Announces *)

(** The sends of a drained queue, up to the first that fails. *)
Fixpoint send_pending (sent : nat -> bool) (i : nat) (id : Identity) (pending : list PendingBlob) : list Out :=
  match pending with
  | [] => []
  | p :: pending =>
      _sendDelivery id (RfedQueue.channelHash p ++ RfedQueue.blob p)
        :: (if sent i then send_pending sent (S i) id pending else [])
  end.

Definition _drainDeferredFor (sent : nat -> bool) (sub : SubscriptionEntry) (n : RFedNode) : RFedNode * list Out :=
  match identity sub with
  | None => (n, [])
  | Some id =>
      let '(q, pending) := drain (subscriberHash sub) (deferred n) in
      (with_deferred n q, send_pending sent 0 id pending)
  end.

(** [decoded.stamp_cost] of an object: own, or found along a replaced prototype
    chain. *)
Fixpoint prop_stamp_cost (v : value) : value :=
  match v with
  | VObj proto props =>
      match get (lit "stamp_cost") props with
      | Some x => x
      | None => match proto with Some p => prop_stamp_cost p | None => VNull end
      end
  | _ => VNull
  end.

(** The stamp cost read from a node's app_data. *)
Definition announced_cost (appData : option bytes) : value :=
  match appData with
  | Some (b :: bs) => match decode_body (b :: bs) with Ok v => prop_stamp_cost v | Throw _ => VNull end
  | _ => VNull
  end.

(** The name hash of [rfed.node]. *)
Definition _rfedNodeNameHash : bytes := name_hash (utf8_encode NODE_NAME).

Definition _onAnnounce (now : Q) (sent : nat -> bool) (dh : bytes) (nameHash appData : option bytes) (n : RFedNode)
    : RFedNode * list Out :=
  if negb (length dh =? HASH_LENGTH)%nat then (n, []) else
  let n := with_presence n (mset (toHex dh) now (_presence n)) in
  let n :=
    if negb (bool_decide (toHex dh = match nodeHash with Some h => toHex h | None => [] end))
       && match nameHash with Some nh => bytesEqual nh _rfedNodeNameHash | None => false end
    then with_fedSync n (peerHeard now dh (announced_cost appData) (fedSync n)) else n in
  match entryForDeliveryHash dh (subscriptions n) with
  | Some sub => _drainDeferredFor sent sub n
  | None => (n, [])
  end.

Definition _encodeNodeAppData : result bytes :=
  encode (VArr [VBin (utf8_encode (nodeName cfg)); cost_value (stampCost cfg); VInt PROTOCOL_VERSION]).

End Node.
