(* ===== verification/RfedNodeSpec.v ===== *)
(** * RfedNodeSpec: what a federation node guarantees

    Its invariant under any sequence of requests, announces, syncs and ticks,
    whose handlers are cut at their awaits and interleave; which subscribers a
    publish reaches, all of them unless a live send is rejected; that requests speak for their
    signer only; that the answers to peers stay within their limits; that a
    backup learns what its owner pushed. *)

From Stdlib Require Import QArith.
From S2P Require Import Link.
From S2P Require Import Prelude Encoding JsMap Utf8 MsgPack MsgPackSpec Packet Crypto Identity Destination DestinationSpec Stamper.
From S2P Require Import RfedChannel RfedQueue RfedBlobs RfedFed RfedTables RfedNode.
#[local] Open Scope Z_scope.

(** ** The queue and the store under one operation *)

Definition queue_good (q : DeferredQueue) : Prop := queue_ok q /\ totalLen q <= Z.max 0 (globalLimit q).

Definition op_limit (o : queue_op) : Z := match o with Enqueue _ _ _ _ limit => limit | _ => 0 end.

Lemma queue_run_good o q : queue_good q -> queue_good (queue_run o q) /\ globalLimit (queue_run o q) = globalLimit q.
Proof.
  intros [Hq Ht]. destruct (queue_run_ok (Z.max (op_limit o) (totalLen q)) o q) as (H1 & H2 & H3 & _).
  - destruct o; cbn; lia.
  - split; [done|]. split; [done|]. intros key. pose proof (waiting_total key q). lia.
  - split; [|done]. split; [done|]. by rewrite H2.
Qed.

Lemma enqueue_good now sub ch data limit q : queue_good q -> queue_good (enqueue now sub ch data limit q).
Proof. intros Hq. exact (proj1 (queue_run_good (Enqueue now sub ch data limit) q Hq)). Qed.

Lemma storeWithId_ok now dest mid data s : blobs_ok s -> blobs_ok (fst (storeWithId now dest mid data s)).
Proof.
  intros Hs. unfold storeWithId. destruct (get (toHex mid) (_meta s)) as [m|] eqn:E; [by destruct (negb _)|]. cbn [fst].
  apply put_blob_ok; [by apply evictToFit_ok, sweep_ok|]. by apply evictToFit_less, sweep_less.
Qed.

(** The two maps hold the same keys. *)
Lemma held_meta s mid : blobs_ok s -> get_blob mid s = None <-> get (toHex mid) (_meta s) = None.
Proof.
  intros Hs. unfold get_blob. pose proof (get_vmap zlen (toHex mid) (_blobs s)) as E.
  rewrite (bo_same _ Hs), get_vmap in E. destruct (get _ (_meta s)), (get _ (_blobs s)); cbn in E; naive_solver.
Qed.

Lemma storeWithId_new now dest mid data s : get (toHex mid) (_meta s) = None ->
  snd (storeWithId now dest mid data s) = Ok mid /\ get_blob mid (fst (storeWithId now dest mid data s)) = Some data.
Proof. intros Hn. unfold storeWithId. rewrite Hn. split; [done|]. apply get_mset_same. Qed.

Section Spec.
Context `{C : WebCrypto} `{H : JsHost}.
Context (cfg : Config) (nodeHash : option bytes).
Context (recallIdentity : bytes -> option Identity).

Abbreviation fanout_loop := (fanout_loop cfg recallIdentity).
Abbreviation _fanout := (_fanout cfg recallIdentity).
Abbreviation _handleSend := (_handleSend cfg recallIdentity).
Abbreviation route_of := (route_of cfg).
Abbreviation queue_for := (queue_for cfg).

(** ** The invariant *)

Record node_ok (n : RFedNode) : Prop := {
  no_table : table_sound (subscriptions n);
  no_queue : queue_good (deferred n);
  no_blobs : blobs_ok (blobStore n);
  no_pending : (length (_pendingBackupPushes n) <= PENDING_BACKUP_CAP)%nat;
  no_sent : syncBytesSent n <= Z.max 0 (syncLimitBytes cfg);
}.

(** One part replaced by another that is sound. *)
Lemma ok_deferred n q : node_ok n -> queue_good q -> node_ok (with_deferred n q).
Proof using Type. intros [H1 H2 H3 H4 H5] Hq. by split. Qed.

Lemma ok_blobs n s : node_ok n -> blobs_ok s -> node_ok (with_blobStore n s).
Proof using Type. intros [H1 H2 H3 H4 H5] Hs. by split. Qed.

Lemma ok_table n t : node_ok n -> table_sound t -> node_ok (with_subscriptions n t).
Proof using Type. intros [H1 H2 H3 H4 H5] Ht. by split. Qed.

Lemma ok_pending n l : node_ok n -> (length l <= PENDING_BACKUP_CAP)%nat -> node_ok (with_pending n l).
Proof using Type. intros [H1 H2 H3 H4 H5] Hl. by split. Qed.

Lemma ok_budget n sent start : node_ok n -> sent <= Z.max 0 (syncLimitBytes cfg) -> node_ok (with_budget n sent start).
Proof using Type. intros [H1 H2 H3 H4 H5] Hl. by split. Qed.

Lemma ok_notify n r : node_ok n -> node_ok (with_notify n r).
Proof using Type. intros [H1 H2 H3 H4 H5]. by split. Qed.

Lemma ok_fed n f : node_ok n -> node_ok (with_fedSync n f).
Proof using Type. intros [H1 H2 H3 H4 H5]. by split. Qed.

Lemma ok_presence n m : node_ok n -> node_ok (with_presence n m).
Proof using Type. intros [H1 H2 H3 H4 H5]. by split. Qed.

Lemma ok_publishers n a b : node_ok n -> node_ok (with_publishers n a b).
Proof using Type. intros [H1 H2 H3 H4 H5]. by split. Qed.

Lemma ok_queue_for now sub ch data n : node_ok n -> node_ok (queue_for now sub ch data n).
Proof using Type. intros Hn. apply ok_deferred; [done|]. by apply enqueue_good, Hn. Qed.

Create HintDb node discriminated.
#[local] Hint Resolve ok_deferred ok_blobs ok_table ok_pending ok_budget ok_notify ok_fed ok_presence
  ok_publishers ok_queue_for : node.
#[local] Hint Resolve sound_subscribed sound_adopted sound_filter storeWithId_ok no_table no_queue no_blobs no_pending no_sent : node.

Lemma gates_ok now remote n : node_ok n -> node_ok (fst (applyPublishGates cfg now remote n)).
Proof using Type.
  intros Hn. unfold applyPublishGates. destruct remote as [r|]; [|done]. destruct (bool_decide _); [done|].
  destruct (get _ _); [|done]. destruct (later _ _); [done|]. by apply ok_publishers.
Qed.

Lemma queue_pair_ok id ch n : node_ok n -> node_ok (queue_pair id ch n).
Proof using Type.
  intros Hn. unfold queue_pair. destruct (_ <? _)%nat eqn:E; [|done]. apply Nat.ltb_lt in E.
  apply ok_pending; [done|]. rewrite length_app. cbn [length]. lia.
Qed.

Lemma unsubscribe_req_ok data n : node_ok n -> node_ok (fst (_handleUnsubscribe data n)).
Proof using Type.
  intros Hn. unfold _handleUnsubscribe. destruct (_verifySignedChannel data) as [[id ch]|]; [|done].
  cbn [unsubscribe fst]. apply ok_table; [done|]. by apply sound_filter, Hn.
Qed.

Lemma notify_register_ok now data n : node_ok n -> node_ok (fst (fst (_handleNotifyRegister now data n))).
Proof using Type.
  intros Hn. unfold _handleNotifyRegister. destruct (_verifySignedPayload data) as [[id v]|]; [|done].
  destruct (parseNotifyCommand _ _) as [cmd|]; [|done]. destruct (c_relayHash cmd); [|done]. destruct (negb _); [done|].
  destruct (fromHex _); [|done]. destruct (negb _); [done|]. by apply ok_notify.
Qed.

Lemma notify_unregister_ok data n : node_ok n -> node_ok (fst (_handleNotifyUnregister data n)).
Proof using Type.
  intros Hn. unfold _handleNotifyUnregister. destruct (_verifySignedPayload data) as [[id v]|]; [|done].
  destruct (parseNotifyCommand _ _) as [cmd|]; [|done]. destruct (c_relayHash cmd); [|done]. by apply ok_notify.
Qed.

Lemma notify_clear_ok data n : node_ok n -> node_ok (fst (_handleNotifyClear data n)).
Proof using Type. intros Hn. unfold _handleNotifyClear. destruct (_verifySignedPayload data) as [[id v]|]; [|done]. by apply ok_notify. Qed.

Lemma pull_ok data caller n : node_ok n -> node_ok (fst (_handlePull cfg data caller n)).
Proof using Type.
  intros Hn. unfold _handlePull. destruct caller as [id|]; [|done]. destruct (_decodeChannelHash data) as [ch|]; [|done].
  pose proof (queue_run_good (DrainChannel (identityHash id) ch (pullPageSize cfg)) _ (no_queue _ Hn)) as [Hq _]. cbn [queue_run] in Hq.
  destruct (drainChannelBatch _ _ _ _) as [q page]. cbn [fst] in *. auto with node.
Qed.

Lemma adopt_pairs_ok now owner pairs : forall t, table_sound t -> table_sound (adopt_pairs now owner pairs t).
Proof using Type.
  unfold adopt_pairs. induction pairs as [|v pairs IH]; intros t Ht; [done|]. cbn [fold_left]. apply IH.
  destruct (pair_of v) as [[sub ch]|]; [by apply sound_adopted|done].
Qed.

Lemma backup_push_ok now data n : node_ok n -> node_ok (fst (_handleBackupPush cfg now data n)).
Proof using Type.
  intros Hn. unfold _handleBackupPush. destruct (_verifySignedPayload data) as [[id v]|]; [|done]. cbv zeta.
  destruct (_ && _); [done|]. destruct (decode_body v) as [[]|]; try done. cbn [fst]. apply ok_table; [done|].
  by apply adopt_pairs_ok, Hn.
Qed.

Lemma dump_ok now sub ch ids : forall n k, node_ok n ->
  node_ok (fst (fold_left (fun '(n, enqueued) id =>
    match get_blob id (blobStore n) with
    | Some b => (queue_for now sub ch b n, S enqueued)
    | None => (n, enqueued)
    end) ids (n, k))).
Proof using Type.
  induction ids as [|id ids IH]; intros n k Hn; [done|]. cbn [fold_left].
  destruct (get_blob id (blobStore n)); apply IH; [by apply ok_queue_for|done].
Qed.

Lemma adopt_one_ok now owner sub ch n : node_ok n -> node_ok (fst (fst (adopt_one cfg recallIdentity now owner sub ch n))).
Proof using Type.
  intros Hn. unfold adopt_one. destruct (hasPending _ _); [done|]. destruct (messageIdsForChannel _ _) as [|i ids]; [done|].
  pose proof (dump_ok now sub ch (i :: ids) n 0 Hn) as Hd. unfold dump_channel. unfold queue_for in Hd.
  destruct (fold_left _ (i :: ids) (n, 0%nat)) as [n' k]. by destruct (0 <? k)%nat.
Qed.

Lemma adopt_owner_ok now owner subs n : node_ok n -> node_ok (fst (fst (adopt_owner cfg recallIdentity now owner subs n))).
Proof using Type.
  intros Hn. unfold adopt_owner. destruct (_ownerReachable _ _ _ _); [done|]. revert Hn.
  generalize (@nil Out) (@nil (bytes * bytes * bytes)). intros outs taken Hn. revert n outs taken Hn.
  induction subs as [|[sub ch] subs IH]; intros n outs taken Hn; [done|]. cbn [fold_left].
  pose proof (adopt_one_ok now owner sub ch n Hn). destruct (adopt_one _ _ _ _ _ _ _) as [[n' o] a]. by apply IH.
Qed.

Lemma delivery_tick_ok now n : node_ok n -> node_ok (fst (fst (_backupDeliveryTick cfg recallIdentity now n))).
Proof using Type.
  intros Hn. unfold _backupDeliveryTick. generalize (values (by_owner (backupEntriesForTick (subscriptions n)))). intros l. revert Hn.
  generalize (@nil Out) (@nil (bytes * bytes * bytes)). intros outs taken Hn. revert n outs taken Hn.
  induction l as [|[owner subs] l IH]; intros n outs taken Hn; [done|]. cbn [fold_left].
  pose proof (adopt_owner_ok now owner subs n Hn). destruct (adopt_owner _ _ _ _ _ _) as [[n' o] a]. by apply IH.
Qed.

Lemma requeue_ok pairs n : node_ok n -> node_ok (_requeueBackupPairs pairs n).
Proof using Type.
  intros Hn. apply ok_pending; [done|]. pose proof (no_pending _ Hn). rewrite length_app, length_take. lia.
Qed.

Lemma push_end_ok pending r n : node_ok n -> node_ok (fst (push_end pending r n)).
Proof using Type. intros Hn. destruct r as [[|]|e]; [done|by apply requeue_ok|done]. Qed.

(** The second and third part of the tick, up to the push of what was adopted. *)
Definition aged_and_taken (now : Q) (n : RFedNode) : RFedNode :=
  fst (fst (_backupDeliveryTick cfg recallIdentity now
    (with_subscriptions n (fst (pruneStaleBackups now (backup_ttl cfg) (subscriptions n)))))).

Lemma aged_ok now n : node_ok n -> node_ok (aged_and_taken now n).
Proof using Type. intros Hn. apply delivery_tick_ok, ok_table; [done|]. by apply sound_filter, Hn. Qed.

Lemma get_loop_sent ids s : forall total sent recs, sent <= Z.max 0 (syncLimitBytes cfg) ->
  fst (get_loop cfg ids s total sent recs) <= Z.max 0 (syncLimitBytes cfg).
Proof using Type.
  induction ids as [|v ids IH]; intros total sent recs Hs; [done|]. destruct v; try done. cbn [get_loop].
  destruct (metaFor b s) as [[ch mid]|]; [|by apply IH]. destruct (get_blob b s) as [d|]; [|by apply IH].
  destruct (_ <? _); [done|]. destruct (syncLimitBytes cfg <? _) eqn:E; [done|]. bools. apply IH. lia.
Qed.

Lemma get_req_ok now data n : node_ok n -> node_ok (fst (_handleGet cfg now data n)).
Proof using Type.
  intros Hn. unfold _handleGet. set (n1 := refresh_budget now n).
  assert (H1 : node_ok n1) by (unfold n1, refresh_budget; destruct (Qle_bool _ _); [apply ok_budget; [done|lia]|done]).
  pose proof (get_loop_sent (match data with VArr l => l | _ => [] end) (blobStore n1) 0 (syncBytesSent n1) [] (no_sent _ H1)) as Hs.
  destruct (get_loop _ _ _ _ _ _) as [sent r]. by apply ok_budget.
Qed.

Lemma maintenance_ok now n : node_ok n -> node_ok (fst (tickMaintenance cfg now n)).
Proof using Type.
  intros Hn. unfold tickMaintenance. pose proof (evictOlder_ok (now - blobTtlSecs cfg) _ (no_blobs _ Hn)) as Hs. unfold pruneOlderThan.
  destruct (_evictOlderThan _ _) as [s k]. pose proof (proj1 (queue_run_good (Evict now (deferredTtlSecs cfg)) _ (no_queue _ Hn))) as Hq.
  cbn [queue_run] in Hq. destruct (evictExpired _ _ _) as [q k']. cbn [fst] in *. apply ok_deferred; [|done]. by apply ok_blobs.
Qed.

Lemma drain_for_ok sent sub n : node_ok n -> node_ok (fst (_drainDeferredFor sent sub n)).
Proof using Type.
  intros Hn. unfold _drainDeferredFor. destruct (identity sub) as [id|]; [|done].
  pose proof (proj1 (queue_run_good (Drain (subscriberHash sub)) _ (no_queue _ Hn))) as Hq. cbn [queue_run] in Hq.
  destruct (drain _ _) as [q l]. cbn [fst] in *. by apply ok_deferred.
Qed.

Lemma announce_ok now sent dh nameHash appData n : node_ok n ->
  node_ok (fst (_onAnnounce nodeHash now sent dh nameHash appData n)).
Proof using Type.
  intros Hn. unfold _onAnnounce. destruct (negb _); [done|]. set (n1 := if _ && _ then _ else _).
  assert (H1 : node_ok n1) by (unfold n1; destruct (_ && _); [apply ok_fed|]; by apply ok_presence).
  destruct (entryForDeliveryHash _ _); [by apply drain_for_ok|done].
Qed.

(** ** Any sequence of events *)

(** What a node runs between two awaits: a whole handler where it does not
    wait after its first change of state, and the pieces of the others.  A
    subscription is added, or found, and its pair waits for the backup; a blob
    is stored and then its fan-out takes one subscription after the other; a
    sync starts, stores record by record, and ends; the waiting pairs are
    taken, the push settles, and the rest of the tick runs. *)
Inductive node_op :=
| BlobStored (now : Q) (random channel data : bytes)
| SubscriptionServed (now : Q) (sub : SubscriptionEntry) (channel data : bytes)
| LinkGated (now : Q) (remote : option bytes)
| ResourceStarted (now : Q) (hash : bytes)
| SenderThrottled (now : Q) (remote : option bytes) (r : result SendOutcome)
| ResourceSettled (hash : bytes)
| SubscriptionAdded (now : Q) (id : Identity) (channel : bytes)
| PairQueued (id : Identity) (channel : bytes)
| UnsubscribeAsked (data : value)
| RegisterAsked (now : Q) (data : value)
| UnregisterAsked (data : value)
| ClearAsked (data : value)
| PullAsked (data : value) (caller : option Identity)
| BackupPushed (now : Q) (data : value)
| GetAsked (now : Q) (data : value)
| Announced (now : Q) (sent : nat -> bool) (dh : bytes) (nameHash appData : option bytes)
| SyncsDue (now : Q)
| SyncStarted (now : Q) (peer : bytes)
| RecordStored (now : Q) (r : StreamRecord)
| SyncEnded (later : Q) (peer : bytes) (ok : bool)
| MaintenanceTick (now : Q)
| PairsTaken
| PushSettled (pending : list (bytes * bytes)) (r : result bool)
| BackupsServed (now : Q).

Definition node_run (o : node_op) (n : RFedNode) : RFedNode :=
  match o with
  | BlobStored now random channel data => with_blobStore n (fst (store now random channel data (blobStore n)))
  | SubscriptionServed now sub channel data =>
      match route_of now sub n with Defer => queue_for now (subscriberHash sub) channel data n | _ => n end
  | LinkGated now remote => fst (applyPublishGates cfg now remote n)
  | ResourceStarted now hash => publish_started now hash n
  | SenderThrottled now remote r => throttle cfg now remote r n
  | ResourceSettled hash => with_publishers n (throttledPublishers n) (mdelete (toHex hash) (inboundPublishes n))
  | SubscriptionAdded now id channel => with_subscriptions n (fst (subscribe_end now id channel (subscriptions n)))
  | PairQueued id channel => queue_pair id channel n
  | UnsubscribeAsked data => fst (_handleUnsubscribe data n)
  | RegisterAsked now data => fst (fst (_handleNotifyRegister now data n))
  | UnregisterAsked data => fst (_handleNotifyUnregister data n)
  | ClearAsked data => fst (_handleNotifyClear data n)
  | PullAsked data caller => fst (_handlePull cfg data caller n)
  | BackupPushed now data => fst (_handleBackupPush cfg now data n)
  | GetAsked now data => fst (_handleGet cfg now data n)
  | Announced now sent dh nh app => fst (_onAnnounce nodeHash now sent dh nh app n)
  | SyncsDue now => with_fedSync n (fst (tick now (fedSync n)))
  | SyncStarted now peer => with_fedSync n (syncStarted now peer (fedSync n))
  | RecordStored now r =>
      match get_blob (sr_messageId r) (blobStore n) with
      | Some _ => n
      | None => with_blobStore n (fst (storeWithId now (RfedBlobs.channelHash r) (sr_messageId r) (RfedBlobs.blob r) (blobStore n)))
      end
  | SyncEnded later peer ok =>
      with_fedSync n (if ok then syncOk later peer (fedSync n) else syncErr later peer (fedSync n))
  | MaintenanceTick now => fst (tickMaintenance cfg now n)
  | PairsTaken => with_pending n []
  | PushSettled pending r => fst (push_end pending r n)
  | BackupsServed now => aged_and_taken now n
  end.

Definition node_runs (ops : list node_op) (n : RFedNode) : RFedNode := fold_left (fun n o => node_run o n) ops n.

Lemma throttle_ok now remote r n : node_ok n -> node_ok (throttle cfg now remote r n).
Proof using Type.
  intros Hn. unfold throttle. destruct r as [[]|], remote as [h|]; try done. destruct (bool_decide _); [done|by apply ok_publishers].
Qed.

#[local] Hint Resolve gates_ok ok_publishers throttle_ok queue_pair_ok unsubscribe_req_ok notify_register_ok
  notify_unregister_ok notify_clear_ok pull_ok backup_push_ok get_req_ok announce_ok maintenance_ok push_end_ok aged_ok : node.

Lemma node_run_ok o n : node_ok n -> node_ok (node_run o n).
Proof using Type.
  intros Hn. destruct o; cbn [node_run]; auto with node.
  - apply ok_blobs; [done|]. by apply storeWithId_ok, Hn.
  - destruct (route_of _ _ _); auto with node.
  - by apply ok_publishers.
  - destruct (get_blob _ _); auto with node.
  - apply ok_pending; [done|]. cbn [length]. lia.
Qed.

(** C16: Whatever a node is sent, and however its handlers interleave at their
    awaits - publishes, signed requests, pulls, backup pushes, peers' requests
    and answers, announces, failing sends and ticks - every entry of its table
    is well formed and the pairs it holds for other owners are there once
    each, its deferred queue is within the global limit and without empty
    buckets, its blob store consistent with its running total, its waiting
    backup pairs within their cap and the bytes it served in a period within
    the budget. *)
Theorem node_invariant (now : Q) (storage global : option Z) (static : list bytes) (only : bool) (ops : list node_op) :
  node_ok (node_runs ops (new_RFedNode now storage global static only)).
Proof.
  enough (Hrun : forall n, node_ok n -> node_ok (node_runs ops n)).
  { apply Hrun. split; cbn [new_RFedNode subscriptions deferred blobStore _pendingBackupPushes syncBytesSent].
    - split; [split; constructor|constructor].
    - split; [split; constructor|]. assert (E : totalLen (new_DeferredQueue global) = 0) by done. lia.
    - apply new_ok.
    - cbn [length]. lia.
    - lia. }
  unfold node_runs. induction ops as [|o ops IH]; intros n Hn; [done|]. by apply IH, node_run_ok.
Qed.

(** *** Every handler is a run of pieces *)

Definition pieces (n n' : RFedNode) : Prop := exists ops, n' = node_runs ops n.

Lemma pieces_refl n : pieces n n.
Proof using Type. by exists []. Qed.

Lemma pieces_step o n n' : pieces (node_run o n) n' -> pieces n n'.
Proof using Type. intros [ops ->]. by exists (o :: ops). Qed.

Lemma pieces_one o n : pieces n (node_run o n).
Proof using Type. by exists [o]. Qed.

Lemma pieces_trans n1 n2 n3 : pieces n1 n2 -> pieces n2 n3 -> pieces n1 n3.
Proof using Type. intros [l1 ->] [l2 ->]. exists (l1 ++ l2). unfold node_runs. by rewrite fold_left_app. Qed.

Lemma fanout_pieces now sent ch data subs : forall i n, pieces n (fst (fst (fanout_loop now sent ch data i subs n))).
Proof using Type.
  induction subs as [|sub subs IH]; intros i n; cbn [RfedNode.fanout_loop fst]; [apply pieces_refl|].
  destruct (route_of now sub n) as [|id|] eqn:E.
  - apply IH.
  - destruct (sent i); [|apply pieces_refl]. specialize (IH (S i) n). by destruct (RfedNode.fanout_loop _ _ _ _ _ _ _ subs n) as [[n' outs] r].
  - apply (pieces_step (SubscriptionServed now sub ch data)). cbn [node_run]. rewrite E. specialize (IH i (queue_for now (subscriberHash sub) ch data n)).
    by destruct (RfedNode.fanout_loop _ _ _ _ _ _ _ subs _) as [[n' outs] r].
Qed.

Lemma handleSend_pieces now random sent data n : pieces n (fst (fst (_handleSend now random sent data n))).
Proof using Type.
  unfold RfedNode._handleSend. destruct (admit_send cfg data) as [[o|[ch inner]]|e]; try apply pieces_refl.
  unfold _ingest. apply (pieces_step (BlobStored now random ch inner)). cbn [node_run].
  destruct (store now random ch inner (blobStore n)) as [s [mid|e]]; cbn [fst]; [|apply pieces_refl].
  pose proof (fanout_pieces now sent ch inner (subscribersFor ch (subscriptions (with_blobStore n s))) 0 (with_blobStore n s)) as Hf.
  unfold RfedNode._fanout. by destruct (RfedNode.fanout_loop _ _ _ _ _ _ _ _ _) as [[n' outs] r].
Qed.

Lemma settled_pieces now random sent hash remote completed n :
  pieces n (fst (publish_settled cfg recallIdentity now random sent hash remote completed n)).
Proof using Type.
  unfold publish_settled. destruct completed as [data|e]; [|exact (pieces_one (ResourceSettled hash) n)].
  pose proof (handleSend_pieces now random sent data n) as Hs. destruct (RfedNode._handleSend _ _ _ _ _ _ _) as [[n' outs] r].
  eapply pieces_trans; [exact Hs|]. apply (pieces_step (SenderThrottled now remote r)). exact (pieces_one (ResourceSettled hash) _).
Qed.

Lemma subscribe_pieces now data n : pieces n (fst (_handleSubscribe cfg now data n)).
Proof using Type.
  unfold _handleSubscribe. destruct (_verifySignedChannel data) as [[id ch]|]; [|apply pieces_refl]. cbn [fst].
  eapply pieces_trans; [|apply (pieces_one (PairQueued id ch))]. unfold subscribe. destruct (subscribe_begin _ _ _) as [e|].
  - cbn [fst]. replace (with_subscriptions n (subscriptions n)) with n by (by destruct n). apply pieces_refl.
  - exact (pieces_one (SubscriptionAdded now id ch) n).
Qed.

Lemma ingest_records_pieces now sent records : forall k n, pieces n (fst (fst (ingest_records cfg recallIdentity now sent records k n))).
Proof using Type.
  induction records as [|r records IH]; intros k n; [apply pieces_refl|]. cbn [ingest_records].
  destruct (get_blob _ _) eqn:E; [apply IH|]. apply (pieces_step (RecordStored now r)). cbn [node_run]. rewrite E.
  destruct (storeWithId _ _ _ _ _) as [s [mid|e]]; cbn [fst]; [|apply pieces_refl].
  pose proof (fanout_pieces now sent (RfedBlobs.channelHash r) (RfedBlobs.blob r)
    (subscribersFor (RfedBlobs.channelHash r) (subscriptions (with_blobStore n s))) 0 (with_blobStore n s)) as Hf.
  unfold RfedNode._fanout. destruct (RfedNode.fanout_loop _ _ _ _ _ _ _ _ _) as [[n1 outs] [[]|e]]; [|done].
  eapply pieces_trans; [exact Hf|]. specialize (IH (S k) n1). by destruct (ingest_records _ _ _ _ _ _ _) as [[n2 outs'] r'].
Qed.

Lemma sync_pieces now later sent offer fetch peer n :
  pieces n (fst (fst (syncWithPeer cfg recallIdentity now later sent offer fetch peer n))).
Proof using Type.
  unfold syncWithPeer. apply (pieces_step (SyncStarted now peer)). cbn [node_run]. set (n1 := with_fedSync n _).
  assert (Hi : pieces n1 (fst (fst (_syncWithPeerInternal cfg recallIdentity now sent offer fetch n1)))).
  { unfold _syncWithPeerInternal. destruct (rbind _ _) as [[|w ws]|e]; try apply pieces_refl.
    destruct (fetch (w :: ws)); [|apply pieces_refl]. apply ingest_records_pieces. }
  destruct (_syncWithPeerInternal _ _ _ _ _ _ _) as [[n2 outs] r]. eapply pieces_trans; [exact Hi|].
  exists [SyncEnded later peer (match r with Ok _ => true | Throw _ => false end)]. by destruct r.
Qed.

Lemma syncPeers_pieces now sent offer fetch n : pieces n (fst (fst (syncPeers cfg recallIdentity now sent offer fetch n))).
Proof using Type.
  unfold syncPeers. apply (pieces_step (SyncsDue now)). cbn [node_run]. destruct (tick now (fedSync n)) as [f due]. cbn [fst].
  generalize (with_fedSync n f) (@nil Out) 0%nat. clear n f. induction due as [|peer due IH]; intros n outs total; [apply pieces_refl|].
  cbn [fold_left]. pose proof (sync_pieces now now sent (offer peer) (fetch peer) peer n) as Hs.
  destruct (syncWithPeer _ _ _ _ _ _ _ _ _) as [[n1 outs1] r]. eapply pieces_trans; [exact Hs|]. apply IH.
Qed.

Lemma backup_tick_pieces now id request n :
  pieces n (fst (fst (_tickBackupDeliveryInner cfg recallIdentity now id request n))).
Proof using Type.
  unfold _tickBackupDeliveryInner. assert (Hp : pieces n (fst (fst (push_pending cfg recallIdentity id request n)))).
  { unfold push_pending. destruct (_pendingBackupPushes n) as [|p l]; [apply pieces_refl|].
    destruct (push_send _ _ _ _ _) as [outs r]. apply (pieces_step PairsTaken). cbn [node_run].
    exists [PushSettled (p :: l) r]. cbn [node_runs fold_left node_run]. by destruct (push_end _ _ _) as [n' r']. }
  destruct (push_pending _ _ _ _ _) as [[n1 outs1] [k|e]]; cbn [fst] in *; [|done]. eapply pieces_trans; [exact Hp|].
  exists [BackupsServed now]. unfold node_runs. cbn [fold_left node_run]. unfold aged_and_taken.
  destruct (pruneStaleBackups _ _ _) as [t k']. cbn [fst]. destruct (_backupDeliveryTick _ _ _ _) as [[n2 outs2] taken].
  by destruct (repush _ _ _ _ _) as [outs3 r3].
Qed.

(** Two handlers of one subscription that interleave leave two entries. *)
Remark subscriptions_doubled now id ch n :
  subscriptions (node_runs [SubscriptionAdded now id ch; PairQueued id ch; SubscriptionAdded now id ch; PairQueued id ch] n)
  = let e := snd (subscribe_end now id ch (subscriptions n)) in subscriptions n ++ [e; e].
Proof using Type.
  cbn [node_runs fold_left node_run]. unfold queue_pair, subscribe_end.
  repeat (destruct (_ <? _)%nat); cbn [with_subscriptions with_pending subscriptions fst snd]; by rewrite <- app_assoc.
Qed.

(** ** A publish reaches every subscriber *)

Definition is_deferred (now : Q) (n : RFedNode) (s : SubscriptionEntry) : bool :=
  match route_of now s n with Defer => true | _ => false end.

Definition deferred_subs (now : Q) (n : RFedNode) (subs : list SubscriptionEntry) : list SubscriptionEntry :=
  filter (fun s => is_deferred now n s = true) subs.

Definition queue_all (now : Q) (ch data : bytes) (subs : list SubscriptionEntry) (q : DeferredQueue) : DeferredQueue :=
  fold_left (fun q s => enqueue now (subscriberHash s) ch data (policyFor cfg (subscriberHash s)) q) subs q.

(** The subscriptions a packet is sent for. *)
Definition live_out (now : Q) (ch data : bytes) (n : RFedNode) (s : SubscriptionEntry) : option Out :=
  match route_of now s n with Live id => Some (_sendDelivery id (ch ++ data)) | _ => None end.

Lemma route_deferred now s n q : route_of now s (with_deferred n q) = route_of now s n.
Proof using Type. done. Qed.

Lemma wakes_deferred sub ch n q :
  _fireChannelNotify recallIdentity sub ch (with_deferred n q) = _fireChannelNotify recallIdentity sub ch n.
Proof using Type. done. Qed.

Lemma deferred_cons now n s subs :
  deferred_subs now n (s :: subs)
  = match route_of now s n with Defer => s :: deferred_subs now n subs | _ => deferred_subs now n subs end.
Proof using Type.
  unfold deferred_subs. rewrite filter_cons. destruct (decide _) as [E|E]; unfold is_deferred in E; by destruct (route_of now s n).
Qed.

Lemma live_cons now ch data n s subs :
  omap (live_out now ch data n) (s :: subs)
  = match route_of now s n with
    | Live id => _sendDelivery id (ch ++ data) :: omap (live_out now ch data n) subs
    | _ => omap (live_out now ch data n) subs
    end.
Proof using Type. cbn [omap list_omap]. unfold live_out at 1. by destruct (route_of now s n). Qed.

(** A fanout reaches the subscriptions up to the first whose send fails: what
    is sent is a live delivery, the one that failed among them, or the wake of
    a deferred subscriber. *)
Definition fanned_out (now : Q) (sent : nat -> bool) (ch data : bytes) (i : nat) (n : RFedNode)
    (reached missed : list SubscriptionEntry) (outs : list Out) (r : result unit) : Prop :=
  (r = Ok tt /\ missed = []
   \/ r = Throw (JsError "send failed")
      /\ exists s rest o, missed = s :: rest /\ live_out now ch data n s = Some o
         /\ sent (i + length (omap (live_out now ch data n) reached))%nat = false)
  /\ (forall o, o ∈ outs <-> o ∈ omap (live_out now ch data n) (reached ++ firstn 1 missed)
        \/ exists s, s ∈ deferred_subs now n reached /\ o ∈ _fireChannelNotify recallIdentity (subscriberHash s) ch n).

Lemma fanned_out_live now sent ch data i n s id reached missed outs r : route_of now s n = Live id ->
  fanned_out now sent ch data (S i) n reached missed outs r ->
  fanned_out now sent ch data i n (s :: reached) missed (_sendDelivery id (ch ++ data) :: outs) r.
Proof using Type.
  intros E [Hr Ho]. unfold fanned_out. cbn [app]. rewrite !live_cons, deferred_cons, E. split.
  - destruct Hr as [Hr|(Hr & x & rest & o & Hm & Hl & Hf)]; [by left|right]. split; [done|]. exists x, rest, o. split; [done|]. split; [done|].
    cbn [length]. by rewrite <- plus_n_Sm.
  - intros o. rewrite elem_of_cons, Ho. set_solver.
Qed.

Lemma fanned_out_defer now sent ch data i n s reached missed outs r : route_of now s n = Defer ->
  fanned_out now sent ch data i n reached missed outs r ->
  fanned_out now sent ch data i n (s :: reached) missed (_fireChannelNotify recallIdentity (subscriberHash s) ch n ++ outs) r.
Proof using Type.
  intros E [Hr Ho]. unfold fanned_out. cbn [app]. rewrite !live_cons, deferred_cons, E. split; [done|]. intros o. rewrite elem_of_app, Ho. split.
  - intros [Hin|[Hin|(x & Hx & Hin)]]; [right; exists s; split; [by left|done]|by left|right; exists x; split; [by right|done]].
  - intros [Hin|(x & Hx & Hin)]; [by right; left|]. apply elem_of_cons in Hx as [->|Hx]; [by left|]. right. right. by exists x.
Qed.

Lemma fanout_loop_spec now sent ch data subs : forall i n,
  let '(n', outs, r) := fanout_loop now sent ch data i subs n in
  exists reached missed, subs = reached ++ missed
  /\ n' = with_deferred n (queue_all now ch data (deferred_subs now n reached) (deferred n))
  /\ fanned_out now sent ch data i n reached missed outs r.
Proof using Type.
  induction subs as [|s subs IH]; intros i n; cbn [RfedNode.fanout_loop].
  - exists [], []. split; [done|]. split; [by destruct n|]. split; [by left|]. intros o. cbn. set_solver.
  - destruct (route_of now s n) as [|id|] eqn:E.
    + specialize (IH i n). destruct (RfedNode.fanout_loop _ _ _ _ _ _ _ subs n) as [[n' outs] r].
      destruct IH as (reached & missed & -> & Hn & Hf). exists (s :: reached), missed. split; [done|].
      unfold fanned_out. cbn [app]. rewrite !live_cons, deferred_cons, E. done.
    + destruct (sent i) eqn:Hs.
      * specialize (IH (S i) n). destruct (RfedNode.fanout_loop _ _ _ _ _ _ _ subs n) as [[n' outs] r].
        destruct IH as (reached & missed & -> & Hn & Hf). exists (s :: reached), missed. split; [done|].
        rewrite deferred_cons, E. split; [done|]. by apply fanned_out_live.
      * assert (El : live_out now ch data n s = Some (_sendDelivery id (ch ++ data))) by (unfold live_out; by rewrite E).
        exists [], (s :: subs). split; [done|]. split; [by destruct n|]. split.
        -- right. split; [done|]. eexists s, subs, _. rewrite Nat.add_0_r. by repeat split.
        -- intros o. cbn [app firstn omap list_omap]. rewrite El. cbn. set_solver.
    + specialize (IH i (queue_for now (subscriberHash s) ch data n)).
      destruct (RfedNode.fanout_loop _ _ _ _ _ _ _ subs _) as [[n' outs] r]. destruct IH as (reached & missed & -> & Hn & Hf).
      exists (s :: reached), missed. split; [done|]. rewrite deferred_cons, E. split; [exact Hn|]. unfold RfedNode.queue_for. rewrite wakes_deferred.
      apply fanned_out_defer; [exact E|exact Hf].
Qed.

(** When every send resolves nothing is missed. *)
Lemma fanned_out_all now sent ch data i n reached missed outs r : (forall k, sent k = true) ->
  fanned_out now sent ch data i n reached missed outs r -> r = Ok tt /\ missed = [].
Proof using Type. intros Hs [[Hr|(_ & s & rest & o & _ & _ & Hf)] _]; [done|]. by rewrite Hs in Hf. Qed.

Lemma enqueue_room now sub ch data limit q : totalLen q < globalLimit q ->
  last (waiting (toHex sub) (enqueue now sub ch data limit q)) = Some (mkPending ch data now)
  /\ totalLen (enqueue now sub ch data limit q) <= totalLen q + 1
  /\ globalLimit (enqueue now sub ch data limit q) = globalLimit q.
Proof using Type.
  intros Hr. split; [|split].
  - rewrite enqueue_waiting, (proj2 (Z.leb_gt _ _)), bool_decide_true by done. cbn [orb negb]. apply last_snoc.
  - unfold enqueue. rewrite (proj2 (Z.leb_gt _ _)) by done. cbv zeta. rewrite total_mset_bucket, zlen_app, zlen_cons, zlen_nil.
    fold (waiting (toHex sub) q). destruct (limit <=? _); [|lia]. unfold zlen. rewrite length_tl. lia.
  - unfold enqueue. by destruct (_ <=? _).
Qed.

(** Each entry is the newest of its bucket, unless the queue was full when its
    turn came. *)
Lemma enqueue_keeps_last now sub ch data limit q key :
  last (waiting key q) = Some (mkPending ch data now) -> last (waiting key (enqueue now sub ch data limit q)) = Some (mkPending ch data now).
Proof using Type. intros Hl. rewrite enqueue_waiting. destruct (_ || _); [done|apply last_snoc]. Qed.

Lemma queue_all_keeps_last now ch data subs key : forall q,
  last (waiting key q) = Some (mkPending ch data now) -> last (waiting key (queue_all now ch data subs q)) = Some (mkPending ch data now).
Proof using Type.
  unfold queue_all. induction subs as [|s subs IH]; intros q Hl; [done|]. cbn [fold_left]. by apply IH, enqueue_keeps_last.
Qed.

Lemma enqueue_full now sub ch data limit q : globalLimit q <= totalLen q -> enqueue now sub ch data limit q = q.
Proof using Type. intros Hf. unfold enqueue. by rewrite (proj2 (Z.leb_le _ _)). Qed.

Lemma queue_all_full now ch data subs q : globalLimit q <= totalLen q -> queue_all now ch data subs q = q.
Proof using Type.
  intros Hf. unfold queue_all. induction subs as [|s subs IH]; [done|]. cbn [fold_left]. by rewrite enqueue_full.
Qed.

Lemma queue_all_last now ch data subs : forall q key, key ∈ map (fun s => toHex (subscriberHash s)) subs ->
  last (waiting key (queue_all now ch data subs q)) = Some (mkPending ch data now)
  \/ globalLimit q <= totalLen (queue_all now ch data subs q) /\ globalLimit q < totalLen q + zlen subs.
Proof using Type.
  unfold queue_all. induction subs as [|s subs IH]; intros q key Hk; [by apply not_elem_of_nil in Hk|].
  cbn [map fold_left] in *. rewrite zlen_cons. pose proof (zlen_nonneg subs).
  destruct (Z.le_gt_cases (globalLimit q) (totalLen q)) as [Hf|Hr].
  - right. rewrite enqueue_full by done. fold (queue_all now ch data subs q). rewrite queue_all_full by done. lia.
  - destruct (enqueue_room now (subscriberHash s) ch data (policyFor cfg (subscriberHash s)) q Hr) as (H1 & H2 & H3).
    apply elem_of_cons in Hk as [->|Hk]; [left; by apply queue_all_keeps_last|].
    destruct (IH (enqueue now (subscriberHash s) ch data (policyFor cfg (subscriberHash s)) q) key Hk) as [Hl|[Hl1 Hl2]]; [by left|right].
    rewrite H3 in *. lia.
Qed.

Lemma queue_all_other now ch data subs key : forall q, key ∉ map (fun s => toHex (subscriberHash s)) subs ->
  waiting key (queue_all now ch data subs q) = waiting key q.
Proof using Type.
  unfold queue_all. induction subs as [|s subs IH]; intros q Hk; [done|]. cbn [map fold_left] in *.
  apply not_elem_of_cons in Hk as [Hne Hk]. rewrite IH, enqueue_waiting, (bool_decide_false (key = _)) by done.
  by rewrite orb_true_r.
Qed.

(** A publish that is admitted, and every subscription of its channel. *)
Lemma publish_spec (now : Q) (random : bytes) (sent : nat -> bool) (data ch inner : bytes) (n : RFedNode)
    (Hfresh : get (toHex random) (_meta (blobStore n)) = None)
    (Hadmit : admit_send cfg data = Ok (inr (ch, inner))) :
  let '(n', outs, r) := _handleSend now random sent data n in
  get_blob random (blobStore n') = Some inner
  /\ exists reached missed, subscribersFor ch (subscriptions n) = reached ++ missed
  /\ (r = Ok Accepted /\ missed = []
      \/ r = Throw (JsError "send failed")
         /\ exists s rest o, missed = s :: rest /\ live_out now ch inner n s = Some o
            /\ sent (length (omap (live_out now ch inner n) reached)) = false)
  /\ Forall (fun s => match route_of now s n with
       | Live id => _sendDelivery id (ch ++ inner) ∈ outs
       | Defer => last (waiting (toHex (subscriberHash s)) (deferred n')) = Some (mkPending ch inner now)
                  \/ globalLimit (deferred n) <= totalLen (deferred n')
                     /\ globalLimit (deferred n) < totalLen (deferred n) + zlen (deferred_subs now n reached)
       | Suppress => exists owner, ownerNodeHash s = Some owner /\ _ownerReachable cfg now owner n = true
       end) reached
  /\ (forall o, o ∈ outs -> exists s, s ∈ reached ++ firstn 1 missed
       /\ (live_out now ch inner n s = Some o
           \/ route_of now s n = Defer /\ o ∈ _fireChannelNotify recallIdentity (subscriberHash s) ch n))
  /\ (forall key, key ∉ map (fun s => toHex (subscriberHash s)) (deferred_subs now n reached) ->
       waiting key (deferred n') = waiting key (deferred n)).
Proof using Type.
  unfold RfedNode._handleSend, _ingest, store. rewrite Hadmit.
  destruct (storeWithId_new now ch random inner _ Hfresh) as [E1 E2].
  destruct (storeWithId now ch random inner (blobStore n)) as [s st]. cbn [fst snd] in *. subst st. unfold RfedNode._fanout.
  set (n1 := with_blobStore n s). change (subscriptions n1) with (subscriptions n).
  pose proof (fanout_loop_spec now sent ch inner (subscribersFor ch (subscriptions n)) 0 n1) as Hf.
  destruct (RfedNode.fanout_loop _ _ _ _ _ _ _ _ n1) as [[n2 outs] r]. destruct Hf as (reached & missed & Es & -> & Hr & Ho).
  change (deferred_subs now n1) with (deferred_subs now n) in *. change (live_out now ch inner n1) with (live_out now ch inner n) in *.
  split; [exact E2|]. exists reached, missed. split; [done|]. cbn [with_deferred deferred n1 with_blobStore].
  split; [|split; [|split]].
  - destruct Hr as [[-> Hm]|[-> Hm]]; [by left|by right].
  - apply Forall_forall. intros x Hx. destruct (route_of now x n) as [|id|] eqn:E.
    + unfold RfedNode.route_of in E. destruct (ownerNodeHash x) as [o|]; [|by repeat case_match].
      exists o. split; [done|]. by destruct (_ownerReachable _ _ _ _).
    + apply Ho. left. apply list_elem_of_omap. exists x. split; [apply elem_of_app; by left|]. unfold live_out. by rewrite E.
    + apply queue_all_last. apply list_elem_of_fmap. exists x. split; [done|].
      apply list_elem_of_filter. unfold is_deferred. by rewrite E.
  - intros o [Hin|(x & Hx & Hin)]%Ho.
    + apply list_elem_of_omap in Hin as (x & Hx & E). exists x. split; [done|]. by left.
    + apply list_elem_of_filter in Hx as [E Hx]. exists x. split; [apply elem_of_app; by left|]. right. split; [|done].
      unfold is_deferred in E. by destruct (route_of now x n).
  - intros key Hk. by apply queue_all_other.
Qed.

(** C18: A publish that is admitted is stored, and reaches the subscriptions of
    its channel in their order: a subscriber that is online is sent the
    channel and the blob, one that is not has the blob as the newest of its
    queue unless the queue of the node was full, and a subscription held for
    an owner that is reachable gets neither.  Either all are reached and the
    publisher is answered ACCEPTED, or a live send was rejected: then exactly
    the subscriptions before it were reached, the ones from it on are missed
    and the handler throws.  Nothing else is sent than these deliveries, the
    one that failed and the wakes of the deferred subscribers, and no other
    queue changes. *)
Theorem publish_reaches (now : Q) (random : bytes) (sent : nat -> bool) (data ch inner : bytes) (n : RFedNode)
    (Hfresh : get (toHex random) (_meta (blobStore n)) = None)
    (Hadmit : admit_send cfg data = Ok (inr (ch, inner))) :
  let '(n', outs, r) := _handleSend now random sent data n in
  get_blob random (blobStore n') = Some inner
  /\ exists reached missed, subscribersFor ch (subscriptions n) = reached ++ missed
  /\ (r = Ok Accepted /\ missed = []
      \/ r = Throw (JsError "send failed")
         /\ exists s rest o, missed = s :: rest /\ live_out now ch inner n s = Some o
            /\ sent (length (omap (live_out now ch inner n) reached)) = false)
  /\ Forall (fun s => match route_of now s n with
       | Live id => _sendDelivery id (ch ++ inner) ∈ outs
       | Defer => last (waiting (toHex (subscriberHash s)) (deferred n')) = Some (mkPending ch inner now)
                  \/ globalLimit (deferred n) <= totalLen (deferred n')
                     /\ globalLimit (deferred n) < totalLen (deferred n) + zlen (deferred_subs now n reached)
       | Suppress => exists owner, ownerNodeHash s = Some owner /\ _ownerReachable cfg now owner n = true
       end) reached
  /\ (forall o, o ∈ outs -> exists s, s ∈ reached ++ firstn 1 missed
       /\ (live_out now ch inner n s = Some o
           \/ route_of now s n = Defer /\ o ∈ _fireChannelNotify recallIdentity (subscriberHash s) ch n))
  /\ (forall key, key ∉ map (fun s => toHex (subscriberHash s)) (deferred_subs now n reached) ->
       waiting key (deferred n') = waiting key (deferred n)).
Proof. exact (publish_spec now random sent data ch inner n Hfresh Hadmit). Qed.

(** ** Failover *)

Definition pending_of (now : Q) (ch : bytes) (s : BlobStore) (id : bytes) : PendingBlob :=
  mkPending ch (default [] (get_blob id s)) now.

Lemma enqueue_appends now sub ch data limit q : totalLen q < globalLimit q -> zlen (waiting (toHex sub) q) < limit ->
  waiting (toHex sub) (enqueue now sub ch data limit q) = waiting (toHex sub) q ++ [mkPending ch data now]
  /\ (forall key, key <> toHex sub -> waiting key (enqueue now sub ch data limit q) = waiting key q)
  /\ totalLen (enqueue now sub ch data limit q) <= totalLen q + 1
  /\ globalLimit (enqueue now sub ch data limit q) = globalLimit q.
Proof using Type.
  intros Hr Hl. destruct (enqueue_room now sub ch data limit q Hr) as (_ & H2 & H3). split; [|split; [|by split]].
  - rewrite enqueue_waiting, (proj2 (Z.leb_gt _ _)), bool_decide_true by done. cbn [orb negb]. by rewrite (proj2 (Z.leb_gt _ _)) by done.
  - intros key Hk. rewrite enqueue_waiting, (bool_decide_false (key = _)) by done. by rewrite orb_true_r.
Qed.

Lemma dump_spec now sub ch ids : forall n k, Forall (fun id => get_blob id (blobStore n) <> None) ids ->
  totalLen (deferred n) + zlen ids <= globalLimit (deferred n) ->
  zlen (waiting (toHex sub) (deferred n)) + zlen ids <= policyFor cfg sub ->
  let '(n', k') := fold_left (fun '(n, enqueued) id =>
    match get_blob id (blobStore n) with
    | Some b => (queue_for now sub ch b n, S enqueued)
    | None => (n, enqueued)
    end) ids (n, k) in
  k' = (k + length ids)%nat /\ n' = with_deferred n (deferred n')
  /\ waiting (toHex sub) (deferred n') = waiting (toHex sub) (deferred n) ++ map (pending_of now ch (blobStore n)) ids
  /\ (forall key, key <> toHex sub -> waiting key (deferred n') = waiting key (deferred n)).
Proof using Type.
  induction ids as [|id ids IH]; intros n k Hheld Hroom Hlim; cbn [fold_left map length].
  - rewrite Nat.add_0_r, app_nil_r. split; [done|]. split; [by destruct n|done].
  - apply Forall_cons in Hheld as [Hid Hheld]. rewrite zlen_cons in Hroom, Hlim. pose proof (zlen_nonneg ids).
    unfold pending_of at 1. destruct (get_blob id (blobStore n)) as [b|] eqn:E; [|done].
    destruct (enqueue_appends now sub ch b (policyFor cfg sub) (deferred n) ltac:(lia) ltac:(lia)) as (H1 & H2 & H3 & H4).
    specialize (IH (queue_for now sub ch b n) (S k)). unfold RfedNode.queue_for in *. cbn [with_deferred blobStore deferred] in *.
    rewrite H1, zlen_app, zlen_cons, zlen_nil in IH. specialize (IH Hheld ltac:(lia) ltac:(lia)).
    destruct (fold_left _ ids _) as [n' k']. destruct IH as (-> & En & Hw & Ho). split; [lia|]. split; [exact En|]. split.
    + rewrite Hw, <- app_assoc. done.
    + intros key Hk. by rewrite Ho, H2.
Qed.

(** A backup that takes over a subscription gives its subscriber the whole
    backlog of the channel that it holds, in the order of the store, and
    changes no other queue; a subscription whose backlog is empty is not
    reported.  It takes over one channel at a time: every further channel of
    that subscriber is reported as adopted, and none of its blobs is queued. *)
Theorem failover_backlog (now : Q) (owner sub ch : bytes) (n : RFedNode) (ids := messageIdsForChannel ch (blobStore n))
    (Hs : blobs_ok (blobStore n)) (Hidle : hasPending sub (deferred n) = false)
    (Hroom : totalLen (deferred n) + zlen ids <= globalLimit (deferred n)) (Hlimit : zlen ids <= policyFor cfg sub) :
  let '(n', outs, taken) := adopt_one cfg recallIdentity now owner sub ch n in
  n' = with_deferred n (deferred n')
  /\ waiting (toHex sub) (deferred n') = map (pending_of now ch (blobStore n)) ids
  /\ Forall (fun id => get_blob id (blobStore n) <> None) ids
  /\ (forall key, key <> toHex sub -> waiting key (deferred n') = waiting key (deferred n))
  /\ taken = (match ids with [] => [] | _ => [(sub, ch, owner)] end)
  /\ (ids <> [] -> forall other, adopt_one cfg recallIdentity now owner sub other n' = (n', [], [(sub, other, owner)])).
Proof.
  assert (Hheld : Forall (fun id => get_blob id (blobStore n) <> None) ids).
  { apply Forall_forall. intros id Hid. unfold ids, messageIdsForChannel in Hid. apply list_elem_of_fmap in Hid as (m & -> & Hm).
    apply list_elem_of_filter in Hm as [_ Hm]. pose proof (value_stored _ m Hs Hm) as Hg. intros E.
    apply (held_meta _ _ Hs) in E. congruence. }
  rewrite hasPending_spec in Hidle. apply negb_false_iff, bool_decide_eq_true in Hidle.
  unfold adopt_one. rewrite hasPending_spec, bool_decide_true by done. cbn [negb]. fold ids.
  pose proof (dump_spec now sub ch ids n 0 Hheld Hroom) as Hd. rewrite Hidle, zlen_nil in Hd. specialize (Hd ltac:(lia)). cbn [app] in Hd.
  destruct ids as [|id ids'] eqn:E; [split; [by destruct n|]; by repeat split|].
  unfold dump_channel. unfold RfedNode.queue_for in *. destruct (fold_left _ (id :: ids') (n, 0%nat)) as [n' k]. destruct Hd as (-> & En & Hw & Ho).
  cbn [Nat.add length Nat.ltb Nat.leb]. split; [exact En|]. split; [exact Hw|]. split; [exact Hheld|]. split; [exact Ho|]. split; [done|].
  intros _ other. rewrite hasPending_spec, Hw. by rewrite bool_decide_false.
Qed.

(** ** Where the code falls short *)

(** The cost in the announce of a node is not read by another: it is announced
    as the element of an array and looked for as a property. *)
Remark announced_cost_lost : zlen (utf8_encode (nodeName cfg)) < 2 ^ 32 ->
  (forall c, stampCost cfg = Some c -> 0 <= c < 2 ^ 32) ->
  exists e, _encodeNodeAppData cfg = Ok e /\ announced_cost (Some e) = VNull.
Proof using Type.
  intros Hn Hc. set (v := VArr [VBin (utf8_encode (nodeName cfg)); cost_value (stampCost cfg); VInt PROTOCOL_VERSION]).
  assert (Hv : canonical MAX_DEPTH v).
  { apply (canonical_arr 127); [done|]. repeat apply Forall_cons_2; [..|apply Forall_nil_2]; apply canonical_atom; cbn [canonical cost_value].
    - exact Hn.
    - destruct (stampCost cfg) as [c|]; [|done]. specialize (Hc c eq_refl). cbn. unfold MAX_SAFE_INTEGER. lia.
    - cbn. unfold MAX_SAFE_INTEGER, PROTOCOL_VERSION. lia. }
  destruct (encode_decode v Hv) as (e & He & _). exists e. split; [exact He|].
  pose proof (decode_encoded v e Hv He) as Hd. unfold announced_cost. destruct e as [|b e]; [discriminate Hd|]. by rewrite Hd.
Qed.

(** A live send that fails ends the fanout: the later subscribers get the blob
    neither live nor deferred. *)
Remark fanout_aborts now sent ch data s id subs n : route_of now s n = Live id -> sent 0%nat = false ->
  fanout_loop now sent ch data 0 (s :: subs) n = (n, [_sendDelivery id (ch ++ data)], Throw (JsError "send failed")).
Proof using Type. intros Hr Hs. cbn [RfedNode.fanout_loop]. by rewrite Hr, Hs. Qed.

(** A send that fails while a queue is drained loses what was behind it: the
    queue is empty and one packet was tried. *)
Remark drain_loses now_sent sub id p pending n : identity sub = Some id -> now_sent 0%nat = false ->
  queue_ok (deferred n) -> waiting (toHex (subscriberHash sub)) (deferred n) = p :: pending ->
  exists out, snd (_drainDeferredFor now_sent sub n) = [out]
  /\ waiting (toHex (subscriberHash sub)) (deferred (fst (_drainDeferredFor now_sent sub n))) = [].
Proof using Type.
  intros Hi Hs Hq Hw. unfold _drainDeferredFor. rewrite Hi. destruct (drain_bucket_spec (subscriberHash sub) (deferred n) Hq) as [E1 E2].
  destruct (drain _ _) as [q l]. cbn [fst snd] in *. subst q l. rewrite Hw. cbn [send_pending fst snd]. rewrite Hs.
  eexists. split; [done|]. cbn [with_deferred deferred]. by rewrite waiting_put, bool_decide_true.
Qed.

(** The cap on inbound publishes is applied when a link opens or identifies:
    links opened before may all carry a resource afterwards. *)
Remark inbound_cap_passed now n h1 h2 h3 h4 : inboundPublishes n = [] -> maxInboundPublishes cfg = 3 ->
  NoDup (map toHex [h1; h2; h3; h4]) ->
  snd (applyPublishGates cfg now None n) = Some (maxPublishBytes cfg)
  /\ JsMap.size (inboundPublishes (publish_started now h4 (publish_started now h3
       (publish_started now h2 (publish_started now h1 n))))) = 4%nat.
Proof using Type.
  intros Hi Hm Hd. split.
  - cbn [applyPublishGates snd]. unfold publish_cap. by rewrite Hi, Hm.
  - cbn [map] in Hd. rewrite !NoDup_cons in Hd. destruct Hd as (H1 & H2 & H3 & _).
    unfold publish_started. cbn [with_publishers inboundPublishes throttledPublishers]. rewrite Hi.
    rewrite !not_elem_of_cons in *. destruct H1 as (A1 & A2 & A3 & _), H2 as (B1 & B2 & _), H3 as (D1 & _).
    rewrite (mset_new (toHex h1) now []) by (by intros []). cbn [app].
    rewrite (mset_new (toHex h2)) by (unfold keys; cbn [map fst In]; intros [E|[]]; congruence). cbn [app].
    rewrite (mset_new (toHex h3)) by (unfold keys; cbn [map fst In]; intros [E|[E|[]]]; congruence). cbn [app].
    rewrite (mset_new (toHex h4)) by (unfold keys; cbn [map fst In]; intros [E|[E|[E|[]]]]; congruence). done.
Qed.
End Spec.

(** ** A concrete node *)

Section Samples.
Import Toy.
Import MsgPackSpec.Host.
#[local] Existing Instances toy_crypto no_exotic toy_laws.

Definition sample_alice : Identity := Eval vm_compute in fromPublicKey (getPublicKey (generate (replicate 32 11) (replicate 32 12))).
Definition sample_channel : bytes := replicate 16 7.
Definition sample_config : Config := default_config None.
Definition sample_publish : bytes := sample_channel ++ [1; 2; 3].

(** A subscriber that is online, and a pair held for a node that went silent. *)
Definition sample_node : RFedNode := Eval vm_compute in
  let n := new_RFedNode 100 None None [] false in
  let t := fst (subscribe 100 sample_alice sample_channel []) in
  let t := subscribeBackup 100 (replicate 16 21) sample_channel (replicate 16 22) t in
  with_presence (with_subscriptions n t) [(toHex (default [] (deliveryDest sample_alice)), 150%Q); (toHex (replicate 16 22), 20%Q)].

Definition sample_entry (i : nat) : SubscriptionEntry := Eval vm_compute in
  nth i (subscriptions sample_node) (mkSub [] [] None None 0 None 0).

Lemma publish_reaches_witness :
  (let '(n', outs, r) := _handleSend sample_config (fun _ => None) 200 (replicate 16 5) (fun _ => true) sample_publish sample_node in
   get_blob (replicate 16 5) (blobStore n') = Some [1; 2; 3]
   /\ exists reached missed, [sample_entry 0; sample_entry 1] = reached ++ missed /\ (r = Ok Accepted /\ missed = [] \/ missed <> []))
  /\ let '(n', outs, r) := _handleSend sample_config (fun _ => None) 200 (replicate 16 5) (fun _ => false) sample_publish sample_node in
     get_blob (replicate 16 5) (blobStore n') = Some [1; 2; 3]
     /\ r = Throw (JsError "send failed") /\ waiting (toHex (replicate 16 21)) (deferred n') = [].
Proof.
  assert (Es : subscribersFor sample_channel (subscriptions sample_node) = [sample_entry 0; sample_entry 1]) by (vm_compute; reflexivity).
  split.
  - pose proof (publish_reaches sample_config (fun _ => None) 200 (replicate 16 5) (fun _ => true) sample_publish
      sample_channel [1; 2; 3] sample_node) as Hp. rewrite Es in Hp.
    destruct (_handleSend _ _ _ _ _ _ _) as [[n' outs] r]. destruct Hp as (H1 & reached & missed & H2 & H3 & _).
    + reflexivity.
    + vm_compute. reflexivity.
    + split; [exact H1|]. exists reached, missed. split; [exact H2|].
      destruct H3 as [H3|(_ & x & rest & o & -> & _)]; [by left|right; discriminate].
  - pose proof (publish_reaches sample_config (fun _ => None) 200 (replicate 16 5) (fun _ => false) sample_publish
      sample_channel [1; 2; 3] sample_node) as Hp.
    assert (E : snd (_handleSend sample_config (fun _ => None) 200 (replicate 16 5) (fun _ => false) sample_publish sample_node)
                = Throw (JsError "send failed")) by (vm_compute; reflexivity).
    assert (Ew : waiting (toHex (replicate 16 21)) (deferred (fst (fst (_handleSend sample_config (fun _ => None) 200 (replicate 16 5)
                  (fun _ => false) sample_publish sample_node)))) = []) by (vm_compute; reflexivity).
    destruct (_handleSend _ _ _ _ _ _ _) as [[n' outs] r]. destruct Hp as (H1 & _); [reflexivity|vm_compute; reflexivity|].
    split; [exact H1|]. split; [exact E|exact Ew].
Defined.

(** A store with two blobs of the channel. *)
Definition sample_backup : RFedNode := Eval vm_compute in
  with_blobStore sample_node
    (fst (storeWithId 110 sample_channel (replicate 16 2) [8; 8] (fst (storeWithId 105 sample_channel (replicate 16 1) [9] (new_BlobStore None))))).

Lemma failover_backlog_witness :
  let '(n', outs, taken) := adopt_one sample_config (fun _ => None) 500 (replicate 16 22) (replicate 16 21) sample_channel sample_backup in
  waiting (toHex (replicate 16 21)) (deferred n') = [mkPending sample_channel [9] 500; mkPending sample_channel [8; 8] 500]
  /\ taken = [(replicate 16 21, sample_channel, replicate 16 22)].
Proof.
  pose proof (failover_backlog sample_config (fun _ => None) 500 (replicate 16 22) (replicate 16 21) sample_channel sample_backup) as Hf.
  cbv zeta in Hf.
  destruct (adopt_one _ _ _ _ _ _ _) as [[n' outs] taken]. destruct Hf as (_ & Hw & _ & _ & Ht & _).
  - split; [|reflexivity| |reflexivity].
    + apply (bool_decide_unpack _). vm_compute. exact I.
    + repeat constructor.
  - vm_compute. reflexivity.
  - vm_compute. discriminate.
  - vm_compute. discriminate.
  - split; [rewrite Hw; vm_compute; reflexivity|rewrite Ht; vm_compute; reflexivity].
Defined.
End Samples.
