(* ===== verification/RfedRequests.v ===== *)
(** * RfedRequests: clients and their node

    Signed requests speak for their signer and for nobody else; what a client
    signs is what its node does; a published message arrives at the other
    clients as it was sent. *)

From Stdlib Require Import QArith.
From S2P Require Import Link.
From S2P Require Import Prelude Encoding JsMap Utf8 MsgPack MsgPackSpec Packet Crypto Identity Destination DestinationSpec Stamper LxmfMessage Delivery.
From S2P Require Import RfedChannel RfedClient RfedQueue RfedBlobs RfedFed RfedTables RfedNode RfedNodeSpec.
#[local] Open Scope Z_scope.

(** ** Lists *)

Section Lists.
Context {A : Type} (P : A -> Prop) `{!forall x, Decision (P x)}.

Lemma filter_inside (Q : A -> Prop) `{!forall x, Decision (Q x)} (l : list A) :
  (forall x, P x -> Q x) -> filter P (filter Q l) = filter P l.
Proof.
  intros HPQ. induction l as [|x l IH]; [done|]. rewrite (filter_cons Q), (filter_cons P).
  destruct (decide (Q x)) as [Hq|Hq].
  - rewrite filter_cons. by destruct (decide (P x)); rewrite IH.
  - rewrite (decide_False (P := P x)); [done|]. naive_solver.
Qed.

Lemma filter_out_last x (l : list A) : ~ P x -> filter P (l ++ [x]) = filter P l.
Proof. intros Hx. rewrite filter_app, filter_cons_False, filter_nil, app_nil_r; done. Qed.

(** Changing an element that is left out, into one that is left out. *)
Lemma filter_update p f (l l' : list A) : update_first p f l = Some l' ->
  (forall x, p x = true -> ~ P x /\ ~ P (f x)) -> filter P l' = filter P l.
Proof.
  intros (l1 & x & l2 & -> & Hx & -> & _)%update_first_some Hp. destruct (Hp x Hx) as [H1 H2].
  by rewrite !filter_app, !filter_cons_False.
Qed.
End Lists.

Section Requests.
Context `{C : WebCrypto} `{H : JsHost}.
Context (cfg : Config).

(** ** Whom a request speaks for *)

Inductive Ask := AskSubscribe | AskUnsubscribe | AskRegister | AskUnregister | AskClear.

Definition serve (a : Ask) (now : Q) (data : value) (n : RFedNode) : RFedNode :=
  match a with
  | AskSubscribe => fst (_handleSubscribe cfg now data n)
  | AskUnsubscribe => fst (_handleUnsubscribe data n)
  | AskRegister => fst (fst (_handleNotifyRegister now data n))
  | AskUnregister => fst (_handleNotifyUnregister data n)
  | AskClear => fst (_handleNotifyClear data n)
  end.

(** [data] is a value signed with the key of [id]. *)
Definition signed_by (id : Identity) (v : bytes) (data : value) : Prop :=
  exists pubkey sig, data = VArr [VBin v; VBin pubkey; VBin sig] /\ length pubkey = 64%nat
    /\ id = fromPublicKey pubkey /\ validate id sig v = true.

Lemma verify_signed data id v : _verifySignedPayload data = Some (id, v) -> signed_by id v data.
Proof using Type.
  unfold _verifySignedPayload. destruct data as [| | | | | | |l| |]; try done.
  destruct l as [|[] l]; try done. destruct l as [|[] l]; try done. destruct l as [|[] [|]]; try done.
  destruct (_ && _) eqn:El; cbn [negb]; [|done]. cbv zeta. destruct (validate _ _ _) eqn:Ev; [|done].
  intros [= <- <-]. apply andb_prop in El as [El _]. apply Nat.eqb_eq in El. eexists _, _. by repeat split.
Qed.

Lemma verify_channel data id ch : _verifySignedChannel data = Some (id, ch) ->
  _verifySignedPayload data = Some (id, ch) /\ length ch = 16%nat.
Proof using Type.
  unfold _verifySignedChannel. destruct (_verifySignedPayload data) as [[i v]|]; [|done].
  destruct (_ =? _)%nat eqn:E; [|done]. intros [= -> ->]. split; [done|]. by apply Nat.eqb_eq in E.
Qed.

(** What others have registered. *)
Definition others (id : Identity) (n : RFedNode) : list SubscriptionEntry * list NotifyRegistration :=
  (filter (fun e => toHex (subscriberHash e) <> toHex (identityHash id)) (subscriptions n),
   filter (fun r => n_subscriberHash r <> identityHash id) (notifyRegistry n)).

Lemma others_subscribe now id ch n :
  filter (fun e => toHex (subscriberHash e) <> toHex (identityHash id)) (fst (subscribe now id ch (subscriptions n)))
  = filter (fun e => toHex (subscriberHash e) <> toHex (identityHash id)) (subscriptions n).
Proof using Type.
  unfold subscribe. destruct (subscribe_begin _ _ _); [done|]. cbn [fst subscribe_end]. apply filter_out_last. cbn. tauto.
Qed.

Lemma others_unsubscribe id ch n :
  filter (fun e => toHex (subscriberHash e) <> toHex (identityHash id)) (fst (unsubscribe (identityHash id) ch (subscriptions n)))
  = filter (fun e => toHex (subscriberHash e) <> toHex (identityHash id)) (subscriptions n).
Proof using Type.
  cbn [unsubscribe fst]. apply filter_inside. intros e He. unfold of_pair. by rewrite (bool_decide_false (_ = _)).
Qed.

Lemma others_register now id ch relay n :
  filter (fun r => n_subscriberHash r <> identityHash id) (register now (identityHash id) ch relay (notifyRegistry n))
  = filter (fun r => n_subscriberHash r <> identityHash id) (notifyRegistry n).
Proof using Type.
  unfold register. destruct (update_first _ _ _) as [t|] eqn:E; [|apply filter_out_last; cbn; tauto].
  apply (filter_update _ _ _ _ _ E). intros r Hr. unfold of_relay, of_channel in Hr. bools. cbn. tauto.
Qed.

Lemma others_unregister id ch relay n :
  filter (fun r => n_subscriberHash r <> identityHash id) (unregister (identityHash id) ch relay (notifyRegistry n))
  = filter (fun r => n_subscriberHash r <> identityHash id) (notifyRegistry n).
Proof using Type.
  apply filter_inside. intros r Hr. unfold of_relay, of_channel. by rewrite (bool_decide_false (_ = identityHash id)).
Qed.

(** C14: A request to subscribe, unsubscribe, register, unregister or clear
    changes nothing unless it carries a signature that is valid under the key
    it presents, and then it changes nothing of any subscriber but the owner
    of that key. *)
Theorem requests_authentic (a : Ask) (now : Q) (data : value) (n : RFedNode) :
  serve a now data n = n
  \/ exists id v, signed_by id v data /\ others id (serve a now data n) = others id n.
Proof.
  destruct a; cbn [serve]; unfold others.
  - unfold _handleSubscribe. destruct (_verifySignedChannel data) as [[id ch]|] eqn:E; [|by left]. right. exists id, ch.
    apply verify_channel in E as [E _]. split; [by apply verify_signed|]. cbn [fst].
    unfold queue_pair. destruct (_ <? _)%nat; cbn [with_pending with_subscriptions subscriptions notifyRegistry]; by rewrite others_subscribe.
  - unfold _handleUnsubscribe. destruct (_verifySignedChannel data) as [[id ch]|] eqn:E; [|by left]. right. exists id, ch.
    apply verify_channel in E as [E _]. split; [by apply verify_signed|]. pose proof (others_unsubscribe id ch n) as Ho.
    destruct (unsubscribe _ _ _) as [t k]. cbn [fst with_subscriptions subscriptions notifyRegistry] in *. by rewrite Ho.
  - unfold _handleNotifyRegister. destruct (_verifySignedPayload data) as [[id v]|] eqn:E; [|by left]. apply verify_signed in E.
    destruct (parseNotifyCommand _ _) as [cmd|]; [|by left]. destruct (c_relayHash cmd) as [relay|]; [|by left].
    destruct (negb _); [by left|]. destruct (fromHex relay); [|by left]. destruct (negb _); [by left|].
    right. exists id, v. split; [done|]. cbn [fst with_notify subscriptions notifyRegistry]. by rewrite others_register.
  - unfold _handleNotifyUnregister. destruct (_verifySignedPayload data) as [[id v]|] eqn:E; [|by left]. apply verify_signed in E.
    destruct (parseNotifyCommand _ _) as [cmd|]; [|by left]. destruct (c_relayHash cmd) as [relay|]; [|by left].
    right. exists id, v. split; [done|]. cbn [fst with_notify subscriptions notifyRegistry]. by rewrite others_unregister.
  - unfold _handleNotifyClear. destruct (_verifySignedPayload data) as [[id v]|] eqn:E; [|by left]. apply verify_signed in E.
    right. exists id, v. split; [done|]. cbn [fst with_notify subscriptions notifyRegistry]. unfold clear.
    by rewrite (filter_inside _ (fun r => n_subscriberHash r <> identityHash id)).
Qed.
End Requests.

(** ** What a client signs *)

Section Flow.
Context `{C : WebCrypto} `{H : JsHost} `{L : !WebCryptoLaws C}.
Context (cfg : Config) (recallIdentity : bytes -> option Identity).

Lemma signed_verified id v : wf_identity id ->
  exists body, signedValuePayload id v = Ok body /\ signedChannelPayload id v = Ok body
  /\ _verifySignedPayload body = Some (fromPublicKey (getPublicKey id), v).
Proof using L.
  intros Hid. destruct (sign_validate id v Hid) as (sig & Hs & Hl & _ & Hv).
  exists (VArr [VBin v; VBin (getPublicKey id); VBin sig]). unfold signedValuePayload, signedChannelPayload. rewrite Hs.
  split; [done|]. split; [done|]. unfold _verifySignedPayload. rewrite (getPublicKey_length id Hid), Hl. cbn [Nat.eqb andb negb].
  cbv zeta. by rewrite Hv.
Qed.

Lemma public_hash id : wf_identity id -> identityHash (fromPublicKey (getPublicKey id)) = identityHash id.
Proof using L. intros Hid. by destruct (fromPublicKey_of id Hid) as (_ & _ & _ & E). Qed.

Lemma find_app_none {A} (p : A -> bool) l x : List.find p l = None -> p x = true -> List.find p (l ++ [x]) = Some x.
Proof using Type.
  induction l as [|y l IH]; cbn [List.find app]; [by intros _ ->|]. destruct (p y); [done|]. apply IH.
Qed.

Lemma find_filtered {A} (p : A -> bool) l : List.find p (filter (fun x => p x = false) l) = None.
Proof using Type.
  destruct (List.find p _) as [x|] eqn:E; [|done]. apply find_some in E as [Hin Hx].
  apply list_elem_of_In, list_elem_of_filter in Hin as [Hf _]. congruence.
Qed.

Lemma subscribed_after now id ch t : isSubscribed (identityHash id) ch (fst (subscribe now id ch t)) = true.
Proof using Type.
  unfold subscribe, subscribe_begin, isSubscribed. destruct (_find _ _ t) as [e|] eqn:E; cbn [fst]; [by rewrite E|].
  cbn [fst subscribe_end]. unfold _find in *. rewrite (find_app_none _ _ _ E); [done|]. by apply of_pair_key.
Qed.

Lemma removed_some sub ch t : isSubscribed sub ch t = true ->
  snd (unsubscribe sub ch t) = true /\ isSubscribed sub ch (fst (unsubscribe sub ch t)) = false.
Proof using Type.
  unfold isSubscribed, _find. destruct (List.find _ t) as [e|] eqn:E; [|done]. intros _. cbn [unsubscribe fst snd].
  split; [|by rewrite find_filtered]. apply find_some in E as [Hin He]. apply list_elem_of_In in Hin.
  apply negb_true_iff, Nat.eqb_neq. pose proof (length_filter_lt (fun x => of_pair sub ch x = false) t e Hin) as Hl.
  cbn beta in Hl. rewrite He in Hl. specialize (Hl ltac:(discriminate)).
  intros El. rewrite El in Hl. exact (Nat.lt_irrefl _ Hl).
Qed.

Lemma cleared_none sub c t : getForSubscriber sub c (clear sub t) = [].
Proof using Type.
  unfold getForSubscriber, clear. destruct (filter _ (filter _ t)) as [|r l] eqn:E; [done|]. exfalso.
  assert (Hin : r ∈ r :: l) by by left. rewrite <- E in Hin. apply list_elem_of_filter in Hin as [H1 [H2 _]%list_elem_of_filter].
  unfold of_channel in H1. bools. done.
Qed.

(** What a client signs to subscribe is accepted and answered with the
    node's cost, and the subscriber and channel are subscribed from then on.
    The signature covers the channel's hash alone: the same body also ends the
    subscription, and clears every relay of the subscriber. *)
Theorem subscription_lifecycle (now : Q) (id : Identity) (ch : bytes) (n : RFedNode)
    (Hid : wf_identity id) (Hch : length ch = 16%nat) :
  exists body, signedChannelPayload id ch = Ok body
  /\ let '(n1, answer) := _handleSubscribe cfg now body n in
     decodeSubscribeResponse answer = (true, cost_value (stampCost cfg))
     /\ isSubscribed (identityHash id) ch (subscriptions n1) = true
     /\ (let '(n2, ended) := _handleUnsubscribe body n1 in
         ended = VBool true /\ isSubscribed (identityHash id) ch (subscriptions n2) = false)
     /\ (let '(n3, cleared) := _handleNotifyClear body n1 in
         cleared = VBool true /\ forall c, getForSubscriber (identityHash id) c (notifyRegistry n3) = []).
Proof.
  destruct (signed_verified id ch Hid) as (body & _ & Hb & Hv). exists body. split; [done|].
  pose proof (public_hash id Hid) as Hpub. set (pub := fromPublicKey (getPublicKey id)) in *.
  assert (Hvc : _verifySignedChannel body = Some (pub, ch)) by (unfold _verifySignedChannel; rewrite Hv, Hch; done).
  unfold _handleSubscribe. rewrite Hvc. set (n0 := with_subscriptions n _). 
  set (n1 := queue_pair pub ch n0).
  assert (Ht : subscriptions n1 = fst (subscribe now pub ch (subscriptions n))) by (unfold n1, queue_pair; by destruct (_ <? _)%nat).
  pose proof (subscribed_after now pub ch (subscriptions n)) as Hs. rewrite <- Ht, Hpub in Hs.
  split; [done|]. split; [done|]. split.
  - unfold _handleUnsubscribe. rewrite Hvc, Hpub. destruct (removed_some _ _ _ Hs) as [H1 H2].
    destruct (unsubscribe _ _ _) as [t k]. cbn [fst snd] in *. by subst k.
  - unfold _handleNotifyClear. rewrite Hv, Hpub. split; [done|]. intros c. cbn [with_notify notifyRegistry].
    apply cleared_none.
Qed.

(** ** Pulling *)

Lemma pull_items_page ch page :
  pull_items (map (fun p => VArr [VBin ch; VBin (RfedQueue.blob p)]) page)
  = Ok (map (fun p => (VBin ch, VBin (RfedQueue.blob p))) page).
Proof using Type. induction page as [|p page IH]; [done|]. cbn [map pull_items pull_item element nth rbind]. by rewrite IH. Qed.

(** What a client reads from its node's answer to a pull is one page of
    what waits for it on that channel, oldest first, with the word whether more
    is left; the page is gone from the queue and nothing else is.  A caller
    that is not identified, or a body that is no channel hash, gets an error
    that the client throws, never an empty page, and takes nothing. *)
Theorem pull_answers (id : Identity) (ch : bytes) (n : RFedNode)
    (Hq : queue_ok (deferred n)) (Hsize : 0 <= pullPageSize cfg) (Hch : length ch = 16%nat) :
  let mine := filter (on_channel (toHex ch)) (waiting (toHex (identityHash id)) (deferred n)) in
  let page := take (Z.to_nat (pullPageSize cfg)) mine in
  (let '(n', answer) := _handlePull cfg (VBin ch) (Some id) n in
   decode_pull answer
     = Ok (map (fun p => (VBin ch, VBin (RfedQueue.blob p))) page,
           negb (bool_decide (drop (Z.to_nat (pullPageSize cfg)) mine = [])))
   /\ page_of (identityHash id) ch (pullPageSize cfg) (deferred n) (deferred n') page
   /\ n' = with_deferred n (deferred n'))
  /\ (forall data, let '(n', answer) := _handlePull cfg data None n in
       n' = n /\ answer = VInt PULL_ERROR_NO_IDENTITY /\ exists e, decode_pull answer = Throw e)
  /\ (forall data, (forall b, data = VBin b -> length b <> 16%nat) ->
       let '(n', answer) := _handlePull cfg data (Some id) n in
       n' = n /\ answer = VInt PULL_ERROR_INVALID_DATA /\ exists e, decode_pull answer = Throw e).
Proof.
  cbv zeta. split; [|split].
  - unfold _handlePull, _decodeChannelHash. rewrite Hch. cbn [Nat.eqb HASH_LENGTH].
    pose proof (drainChannelBatch_page (identityHash id) ch (pullPageSize cfg) (deferred n) Hq Hsize) as Hp.
    destruct (drainChannelBatch _ _ _ _) as [q page]. cbn [fst snd] in Hp.
    rewrite <- (pg_page _ _ _ _ _ _ Hp). split; [|by split].
    unfold decode_pull. cbn [pull_error]. rewrite pull_items_page. cbn [rbind].
    by rewrite hasPendingChannel_spec, (pg_left _ _ _ _ _ _ Hp); destruct (bool_decide _).
  - intros data. cbn [_handlePull]. split; [done|]. split; [done|]. by eexists.
  - intros data Hd. unfold _handlePull.
    assert (E : _decodeChannelHash data = None).
    { destruct data as [| | | | | |b| | |]; try done. unfold _decodeChannelHash, HASH_LENGTH.
      rewrite (proj2 (Nat.eqb_neq _ _) (Hd b eq_refl)). done. }
    rewrite E. split; [done|]. split; [done|]. by eexists.
Qed.

(** ** From publisher to subscriber *)

Lemma open_prelude_long least short ch inner r : open_prelude least short ch inner = Ok r -> (32 < length inner)%nat.
Proof using Type.
  unfold open_prelude, Identity.decrypt. destruct (negb _); [done|]. destruct (32 <? length inner)%nat eqn:E; [|done].
  intros _. by apply Nat.ltb_lt in E.
Qed.

(** A payload made for the cost that the node asks is admitted. *)
Lemma admit_wrapped ch w : length (identityHash ch) = 16%nat -> (0 < length (innerBlob w))%nat ->
  splits ch (stampCost cfg) w -> rfedPayload w = identityHash ch ++ innerBlob w ++ default [] (w_stamp w) ->
  (forall st, w_stamp w = Some st -> length st = STAMP_SIZE) ->
  (forall c, stampCost cfg = Some c -> 0 < c <= 256) -> 0 <= stampFlexibility cfg ->
  admit_send cfg (rfedPayload w) = Ok (inr (identityHash ch, innerBlob w)).
Proof using Type.
  intros Hh Hin Hsp Hp Hst Hc Hf. unfold admit_send, HASH_LENGTH. rewrite Hp, !length_app, Hh.
  rewrite (proj2 (Nat.ltb_ge _ _)) by lia. destruct (stampCost cfg) as [c|] eqn:Ec.
  - destruct (Hc c eq_refl) as [H0 H1]. rewrite (proj2 (Z.eqb_neq _ _)) by lia.
    destruct (w_stamp w) as [st|] eqn:Es.
    + change (default [] (Some st)) with st in *. rewrite (Hst st eq_refl), (proj2 (Nat.ltb_ge _ _)) by lia. rewrite <- Hp.
      destruct (sp_stamped _ _ _ Hsp c st eq_refl Es) as [-> Hv]. cbn [rbind]. by rewrite Hv by lia.
    + pose proof (proj1 (sp_when _ _ _ Hsp) Es c eq_refl). lia.
  - assert (En : w_stamp w = None) by (apply (sp_when _ _ _ Hsp); discriminate). rewrite En.
    change (default [] None) with (@nil Z). rewrite app_nil_r. unfold slice_from.
    rewrite slice_app_take, drop_app_length' by done. done.
Qed.

Lemma stamp_length draws fuel ch inner cost w st : (forall i, length (draws i) = STAMP_SIZE) ->
  frame draws fuel ch inner cost = Some w -> w_stamp w = Some st -> length st = STAMP_SIZE.
Proof using Type.
  intros Hd (_ & _ & _ & Hs)%frame_parts Hst. rewrite Hst in Hs. unfold channel_stamp, generateChannelStamp, generateStamp in Hs.
  destruct cost as [c|]; [|done]. destruct (0 <? c); [|done]. cbn [channelStampWorkblock] in Hs.
  destruct (search _ _ _ _ _) as [[s [v|]]|] eqn:E; [|done|done]. injection Hs as ->.
  apply search_valid in E as (_ & _ & j & -> & _). apply Hd.
Qed.

Lemma identityHash_length id : wf_identity id -> length (identityHash id) = 16%nat.
Proof using L. intros (_ & _ & _ & ->). apply length_truncatedHash. Qed.

(** A framed payload at the node, and what an online subscriber is sent. *)
Lemma framed_arrives (now : Q) (random : bytes) (sent : nat -> bool) draws fuel ch inner w n sub sid :
  wf_identity ch -> (forall i, length (draws i) = STAMP_SIZE) ->
  frame draws fuel ch inner (stampCost cfg) = Some w -> (0 < length inner)%nat ->
  (forall c, stampCost cfg = Some c -> 0 < c <= 256) -> 0 <= stampFlexibility cfg ->
  get (toHex random) (_meta (blobStore n)) = None ->
  sub ∈ subscribersFor (identityHash ch) (subscriptions n) -> route_of cfg now sub n = Live sid ->
  let '(n', outs, r) := _handleSend cfg recallIdentity now random sent (rfedPayload w) n in
  get_blob random (blobStore n') = Some inner
  /\ (r = Ok Accepted /\ _sendDelivery sid (identityHash ch ++ inner) ∈ outs
      \/ r = Throw (JsError "send failed") /\ exists i, sent i = false)
  /\ parseFanoutPayload (identityHash ch ++ inner) = Ok (identityHash ch, inner).
Proof using L.
  intros Hch Hd Hf Hin Hc Hfl Hfresh Hsub Hroute. pose proof (identityHash_length ch Hch) as Hl.
  pose proof (frame_splits _ _ _ _ _ _ Hl Hd Hf) as Hsp. destruct (frame_parts _ _ _ _ _ _ Hf) as (_ & Hi & Hp & _).
  assert (Ha : admit_send cfg (rfedPayload w) = Ok (inr (identityHash ch, inner))).
  { rewrite <- Hi in *. apply admit_wrapped; try done. intros st. by apply (stamp_length draws fuel ch (innerBlob w) (stampCost cfg)). }
  pose proof (publish_spec cfg recallIdentity now random sent (rfedPayload w) (identityHash ch) inner n Hfresh Ha) as Hs.
  destruct (_handleSend _ _ _ _ _ _ _) as [[n' outs] r]. destruct Hs as (H1 & reached & missed & Es & Hr & H3 & _). split; [done|].
  split.
  { destruct Hr as [[-> ->]|(-> & x & rest & o & _ & _ & Hf')]; [left|right; split; [done|by eexists]].
    split; [done|]. rewrite app_nil_r in Es. rewrite Es in Hsub. rewrite Forall_forall in H3. specialize (H3 sub Hsub). by rewrite Hroute in H3. }
  unfold parseFanoutPayload, HASH_LENGTH, slice_from. rewrite length_app, Hl, (proj2 (Nat.ltb_ge _ _)) by lia.
  by rewrite slice_app_take, drop_app_length' by done.
Qed.

Lemma sendPublish_ok recall sent transferred nodeHash data outs :
  _sendPublish recall sent transferred nodeHash data = (outs, Ok tt) ->
  exists o, outs = [o] /\ match o with SendPacket p => payload p = data | SendResource _ d => d = data end.
Proof using Type.
  unfold _sendPublish. destruct (_nodeIdentity _ _); [|done]. destruct (_ <? _)%nat; intros [= <- _]; by eexists.
Qed.

Context `{B : !X25519Base C}.

(** The client knows one channel under this hash. *)
Definition knows (c : RFedClient) (name : jsstr) : Prop :=
  channels_ok c /\ get name (channels c) = Some (channel_of_name name)
  /\ forall other, In other (keys (channels c)) ->
       toHex (identityHash (channel_identity other)) = toHex (identityHash (channel_identity name)) -> other = name.

Lemma known_channel c name : knows c name ->
  _channelByHash (identityHash (channel_identity name)) c = Some (name, channel_of_name name).
Proof using Type.
  intros (Hc & Hg & Hu). unfold _channelByHash. destruct (List.find _ _) as [[other e]|] eqn:E.
  - apply find_some in E as [Hin Hh]. apply bool_decide_eq_true in Hh.
    assert (Ee : e = channel_of_name other) by (destruct Hc as [_ Hc]; rewrite List.Forall_forall in Hc; exact (Hc _ Hin)).
    subst e. rewrite (Hu other); [done| |done]. apply in_map_iff. by exists (other, channel_of_name other).
  - apply get_In in Hg. pose proof (find_none _ _ E _ Hg) as Hf. cbn in Hf. by rewrite bool_decide_true in Hf.
Qed.

(** C5: A publish arrives as it was sent: whatever a client publishes raw on a
    channel, as a packet or as a resource, with the cost that the node asks,
    the node admits it and holds the blob; it answers ACCEPTED and has sent
    each online subscriber a delivery of the stored blob, or one of the sends
    of its fan-out was rejected and it throws; and of that delivery a client
    that knows the channel as raw hands its application exactly the published
    bytes with the publisher's key. *)
Theorem publish_end_to_end (clientRecall : bytes -> option Identity) (now : Q) (random : bytes) (sent : nat -> bool) (draws : nat -> bytes) (fuel : nat)
    (eph iv nodeHash data : bytes) (name : jsstr) (cp cp' cs : RFedClient) (packetSent transferred : result unit)
    (outs : list ClientOut) (n : RFedNode) (sub : SubscriptionEntry) (sid : Identity)
    (Hcp : channels_ok cp) (Hpub : wf_identity (RfedClient.identity cp)) (Hcs : knows cs name) (Hraw : name ∈ rawChannels cs)
    (Hcost : cached_cost (channel_of_name name) cp = stampCost cfg)
    (Hrange : forall c, stampCost cfg = Some c -> 0 < c <= 256) (Hflex : 0 <= stampFlexibility cfg)
    (Hiv : length iv = 16%nat) (Hdraws : forall i, length (draws i) = STAMP_SIZE)
    (Hopen : opens (channel_identity name) None eph iv (MAGIC_RTID ++ getPublicKey (RfedClient.identity cp) ++ data) None)
    (Hrun : publishRaw clientRecall draws fuel eph iv packetSent transferred nodeHash name data cp = (cp', outs, dret tt))
    (Hfresh : get (toHex random) (_meta (blobStore n)) = None)
    (Hsub : sub ∈ subscribersFor (identityHash (channel_identity name)) (subscriptions n))
    (Honline : route_of cfg now sub n = Live sid) :
  exists o posted, outs = [o] /\ match o with SendPacket p => payload p = posted | SendResource _ d => d = posted end
  /\ let '(n', sends, r) := _handleSend cfg recallIdentity now random sent posted n in
     exists blob, get_blob random (blobStore n') = Some blob
     /\ (r = Ok Accepted /\ _sendDelivery sid (identityHash (channel_identity name) ++ blob) ∈ sends
         \/ r = Throw (JsError "send failed") /\ exists i, sent i = false)
     /\ forall nowSecs, _handleDelivery nowSecs (identityHash (channel_identity name) ++ blob) cs
             = (None, dret (Some (RawMessage data (getPublicKey (RfedClient.identity cp)) (fromPublicKey (getPublicKey (RfedClient.identity cp)))
                                    (identityHash (channel_identity name)) name))).
Proof.
  unfold publishRaw in Hrun. pose proof (channel_ok name cp Hcp) as (_ & Hch & _ & Hid & _ & Hcosts).
  destruct (_channel name cp) as [c1 r1]. cbn [fst snd] in *. subst r1. unfold cached_cost in *. rewrite Hid, Hcosts, Hcost in Hrun.
  assert (Hw : wf_identity (channel_identity name)) by apply generate_wf.
  destruct (wrapRawChannelMessage _ _ _ _ _ _ _ _) as [[w|]|] eqn:Ew; [|discriminate..].
  pose proof (raw_message_roundtrip _ _ _ _ _ _ _ _ w Hw Hpub Hiv Hdraws Hopen Ew) as [_ Hu].
  destruct (_sendPublish _ _ _ _ _) as [os r] eqn:Es. injection Hrun as <- <- Hr.
  assert (Er : r = Ok tt) by (destruct r as [[]|]; [done|discriminate]). subst r.
  destruct (sendPublish_ok _ _ _ _ _ _ Es) as (o & -> & Ho). exists o, (rfedPayload w). split; [done|]. split; [done|].
  unfold wrapRawChannelMessage in Ew. destruct (Identity.encrypt _ _ _ _ _) as [inner|] eqn:Ee; [|discriminate]. cbn [lift_dec dbind] in Ew.
  destruct (frame _ _ _ _ _) as [w0|] eqn:Ef; [|discriminate]. injection Ew as ->.
  destruct (frame_parts _ _ _ _ _ _ Ef) as (_ & Ei & _ & _). rewrite Ei in Hu.
  assert (Hl : (0 < length inner)%nat).
  { unfold unwrapRawChannelMessage in Hu. destruct (open_prelude _ _ _ inner) eqn:Eo; [|discriminate]. apply open_prelude_long in Eo. lia. }
  pose proof (framed_arrives now random sent draws fuel _ inner w n sub sid Hw Hdraws Ef Hl Hrange Hflex Hfresh Hsub Honline) as Ha.
  destruct (_handleSend _ _ _ _ _ _ _) as [[n' sends] r]. destruct Ha as (Hst & Hin & Hpar).
  exists inner. split; [exact Hst|]. split; [exact Hin|]. intros nowSecs. unfold _handleDelivery. rewrite Hpar, (known_channel cs name Hcs), bool_decide_true by done.
  cbn [ch_identity channel_of_name]. by rewrite Hu.
Qed.
End Flow.

(** ** Concrete clients *)

Section Samples.
Import Toy.
Import MsgPackSpec.Host.
#[local] Existing Instances toy_crypto no_exotic toy_laws.

Definition sample_owner : Identity := Eval vm_compute in generate (replicate 32 11) (replicate 32 12).

Lemma subscription_lifecycle_witness : exists body, signedChannelPayload sample_owner sample_channel = Ok body
  /\ isSubscribed (identityHash sample_owner) sample_channel
       (subscriptions (fst (_handleSubscribe sample_config 300 body sample_backup))) = true.
Proof.
  destruct (subscription_lifecycle sample_config 300 sample_owner sample_channel sample_backup) as (body & Hb & Hs).
  - refine (generate_wf _ _).
  - reflexivity.
  - exists body. split; [exact Hb|]. destruct (_handleSubscribe _ _ _ _) as [n1 a]. exact (proj1 (proj2 Hs)).
Defined.

(** Three blobs of the channel wait, and one of another. *)
Definition sample_pull : RFedNode := Eval vm_compute in
  with_deferred sample_node (fold_left (fun q '(ch, b) => enqueue 300 (identityHash sample_owner) ch b 10 q)
    [(sample_channel, [1]); (replicate 16 9, [2]); (sample_channel, [3]); (sample_channel, [4])] (new_DeferredQueue None)).

Lemma pull_answers_witness :
  decode_pull (snd (_handlePull sample_config (VBin sample_channel) (Some sample_owner) sample_pull))
  = Ok ([(VBin sample_channel, VBin [1]); (VBin sample_channel, VBin [3]); (VBin sample_channel, VBin [4])], false).
Proof.
  destruct (pull_answers sample_config sample_owner sample_channel sample_pull) as (Hp & _).
  - split; [apply (bool_decide_unpack _); vm_compute; exact I|repeat constructor; discriminate].
  - discriminate.
  - reflexivity.
  - destruct (_handlePull _ _ _ _) as [n' a]. cbn [snd]. rewrite (proj1 Hp). vm_compute. reflexivity.
Defined.
End Samples.

Section Published.
Import MsgPackSpec.Host.
#[local] Existing Instances base_crypto no_exotic base_laws base_base.

Definition news_subscriber : Identity := Eval vm_compute in fromPublicKey (getPublicKey (generate (replicate 32 3) (replicate 32 4))).

Definition sample_post_config : Config := Eval vm_compute in default_config (Some 2).

Definition news_node : RFedNode := Eval vm_compute in
  let n := new_RFedNode 100 None None [] false in
  with_presence (with_subscriptions n (fst (subscribe 100 news_subscriber (identityHash news_channel) [])))
    [(toHex (default [] (deliveryDest news_subscriber)), 150%Q)].

Definition news_publisher : RFedClient := Eval vm_compute in
  mkClient publisher [] [(toHex (identityHash news_channel), VInt 2)] [].

Definition news_reader : RFedClient := Eval vm_compute in
  with_raw (fst (_channel news (new_RFedClient news_subscriber))) [news].

Definition news_published : RFedClient * list ClientOut * dec unit := Eval vm_compute in
  publishRaw (fun _ => Some publisher) sample_draws 10 (replicate 32 6) (replicate 16 8) (Ok tt) (Ok tt) (replicate 16 1)
    news [104; 105] news_publisher.

Lemma reader_knows : knows news_reader news.
Proof.
  split; [|split; [vm_compute; reflexivity|]].
  - split; [apply (bool_decide_unpack _); vm_compute; exact I|]. repeat constructor. 
  - intros other [<-|[]] _. reflexivity.
Defined.

Lemma publish_end_to_end_witness : exists o posted, snd (fst news_published) = [o]
  /\ match o with SendPacket p => payload p = posted | SendResource _ d => d = posted end
  /\ let '(n', sends, r) := _handleSend sample_post_config (fun _ => None) 200 (replicate 16 5) (fun _ => true) posted news_node in
     exists blob, get_blob (replicate 16 5) (blobStore n') = Some blob
     /\ r = Ok Accepted /\ _sendDelivery news_subscriber (identityHash (channel_identity news) ++ blob) ∈ sends.
Proof.
  destruct (@publish_end_to_end base_crypto no_exotic base_laws sample_post_config (fun _ => None) base_base (fun _ => Some publisher) 200 (replicate 16 5) (fun _ => true)
    sample_draws 10 (replicate 32 6) (replicate 16 8) (replicate 16 1) [104; 105] news news_publisher (fst (fst news_published)) news_reader
    (Ok tt) (Ok tt) (snd (fst news_published)) news_node (nth 0 (subscriptions news_node) (mkSub [] [] None None 0 None 0)) news_subscriber)
    as (o & posted & Ho & Hp & Hrun).
  - split; [apply (bool_decide_unpack _); vm_compute; exact I|constructor].
  - refine (generate_wf _ _).
  - exact reader_knows.
  - left.
  - vm_compute. reflexivity.
  - intros c [= <-]. lia.
  - discriminate.
  - reflexivity.
  - intros i. apply length_replicate.
  - split; [reflexivity|]. eexists _, _. split; reflexivity.
  - vm_compute. reflexivity.
  - reflexivity.
  - apply list_elem_of_In. vm_compute. left. reflexivity.
  - vm_compute. reflexivity.
  - exists o, posted. split; [exact Ho|]. split; [exact Hp|].
    destruct (_handleSend _ _ _ _ _ _ _) as [[n' sends] r]. destruct Hrun as (blob & Hb & [[Hr Hin]|[_ [i Hi]]] & _); [|discriminate Hi].
    exists blob. split; [exact Hb|]. split; [exact Hr|exact Hin].
Defined.
End Published.
