(* ===== verification/RfedReplication.v ===== *)
(** * RfedReplication: nodes and their peers

    What a node serves to its peers stays within its limits; after a sync a
    node holds what it lacked; a backup learns the pairs its owner pushes, and
    no pair that waits for a push is lost while the backup answers. *)

From Stdlib Require Import QArith.
From S2P Require Import Link.
From S2P Require Import Prelude Encoding JsMap Utf8 MsgPack MsgPackSpec Packet Crypto Identity Destination DestinationSpec Stamper.
From S2P Require Import RfedChannel RfedClient RfedQueue RfedBlobs RfedFed RfedTables RfedNode RfedNodeSpec RfedRequests.
#[local] Open Scope Z_scope.

Section Limits.
Context `{C : WebCrypto} `{H : JsHost}.
Context (cfg : Config).

(** ** Serving *)

Definition blob_bytes (records : list StreamRecord) : Z := foldr (fun r n => zlen (RfedBlobs.blob r) + n) 0 records.

(** The record of a stored blob. *)
Definition record_of (s : BlobStore) (id : bytes) : option StreamRecord :=
  match metaFor id s, get_blob id s with
  | Some (ch, mid), Some b => Some (mkRecord ch mid b)
  | _, _ => None
  end.

Definition requested (s : BlobStore) (ids : list value) : list StreamRecord :=
  omap (fun v => match v with VBin id => record_of s id | _ => None end) ids.

Lemma requested_cons s id ids :
  requested s (VBin id :: ids) = match record_of s id with Some r => r :: requested s ids | None => requested s ids end.
Proof using Type. done. Qed.

Lemma blob_bytes_nonneg l : 0 <= blob_bytes l.
Proof using Type. induction l as [|r l IH]; cbn; [done|]. pose proof (zlen_nonneg (RfedBlobs.blob r)). unfold blob_bytes in IH. lia. Qed.

(** The loop serves a prefix of what is held of the request, within both
    limits, and stops early only where the next blob would pass one. *)
Lemma get_loop_spec s ids : forall total sent recs recs' sent',
  total <= Z.max 0 (transferLimitBytes cfg) -> get_loop cfg ids s total sent recs = (sent', Ok recs') ->
  exists served rest, recs' = recs ++ served /\ requested s ids = served ++ rest
  /\ sent' = sent + blob_bytes served
  /\ total + blob_bytes served <= Z.max 0 (transferLimitBytes cfg)
  /\ match rest with
     | [] => True
     | r :: _ => transferLimitBytes cfg < total + blob_bytes served + zlen (RfedBlobs.blob r)
                 \/ syncLimitBytes cfg < sent' + zlen (RfedBlobs.blob r)
     end.
Proof using Type.
  induction ids as [|v ids IH]; intros total sent recs recs' sent' Ht Hrun.
  - injection Hrun as <- <-. exists [], []. rewrite app_nil_r. cbn. repeat split; lia.
  - destruct v as [| | | | | |id| | |]; try discriminate. cbn [get_loop] in Hrun. rewrite requested_cons.
    unfold record_of. destruct (metaFor id s) as [[ch mid]|]; [|exact (IH _ _ _ _ _ Ht Hrun)].
    destruct (get_blob id s) as [b|]; [|exact (IH _ _ _ _ _ Ht Hrun)].
    destruct (transferLimitBytes cfg <? total + zlen b) eqn:E1.
    { injection Hrun as <- <-. bools. exists [], (mkRecord ch mid b :: requested s ids). rewrite app_nil_r. cbn [blob_bytes foldr].
      repeat split; try done; try lia. left. cbn [RfedBlobs.blob]. lia. }
    destruct (syncLimitBytes cfg <? sent + zlen b) eqn:E2.
    { injection Hrun as <- <-. bools. exists [], (mkRecord ch mid b :: requested s ids). rewrite app_nil_r. cbn [blob_bytes foldr].
      repeat split; try done; try lia. right. cbn [RfedBlobs.blob]. lia. }
    bools. destruct (IH (total + zlen b) (sent + zlen b) (recs ++ [mkRecord ch mid b]) recs' sent' ltac:(lia) Hrun) as (served & rest & -> & Hr & -> & Hb & Hn).
    exists (mkRecord ch mid b :: served), rest. rewrite <- app_assoc, Hr. cbn [app].
    cbn [blob_bytes foldr RfedBlobs.blob]. fold (blob_bytes served). repeat split; try lia.
    destruct rest; [done|]. destruct Hn; [left; lia|right; lia].
Qed.

Lemma get_loop_bytes s ids : Forall (fun v => exists b, v = VBin b) ids -> forall total sent recs,
  exists sent' recs', get_loop cfg ids s total sent recs = (sent', Ok recs').
Proof using Type.
  induction 1 as [|v ids (b & ->) _ IH]; intros total sent recs; [by eexists _, _|]. cbn [get_loop].
  destruct (metaFor b s) as [[ch mid]|]; [|apply IH]. destruct (get_blob b s); [|apply IH].
  destruct (_ <? _); [by eexists _, _|]. destruct (_ <? _); [by eexists _, _|apply IH].
Qed.

(** What one request is answered, and what it is charged. *)
Lemma handleGet_spec now data n stream n' : _handleGet cfg now data n = (n', Ok stream) ->
  exists served rest, stream = encodeBlobStream served
  /\ requested (blobStore n) (match data with VArr l => l | _ => [] end) = served ++ rest
  /\ syncBytesSent n' = syncBytesSent (refresh_budget now n) + blob_bytes served
  /\ blob_bytes served <= Z.max 0 (transferLimitBytes cfg)
  /\ match rest with
     | [] => True
     | r :: _ => transferLimitBytes cfg < blob_bytes served + zlen (RfedBlobs.blob r)
                 \/ syncLimitBytes cfg < syncBytesSent n' + zlen (RfedBlobs.blob r)
     end
  /\ blobStore n' = blobStore n /\ syncPeriodStart n' = syncPeriodStart (refresh_budget now n).
Proof using Type.
  unfold _handleGet. assert (Es : blobStore (refresh_budget now n) = blobStore n) by (unfold refresh_budget; by destruct (Qle_bool _ _)).
  rewrite Es. destruct (get_loop _ _ _ _ _ _) as [sent [recs|e]] eqn:E; [|discriminate]. intros [= <- <-].
  destruct (get_loop_spec _ _ 0 _ _ _ _ ltac:(lia) E) as (served & rest & -> & Hr & -> & Hb & Hn).
  exists served, rest. cbn [app with_budget syncBytesSent blobStore syncPeriodStart]. by repeat split.
Qed.

Lemma get_loop_mono ids s : forall total sent recs, sent <= fst (get_loop cfg ids s total sent recs).
Proof using Type.
  induction ids as [|v ids IH]; intros total sent recs; [done|]. destruct v as [| | | | | |id| | |]; try done. cbn [get_loop].
  destruct (metaFor id s) as [[ch mid]|]; [|apply IH]. destruct (get_blob id s) as [b|]; [|apply IH].
  destruct (_ <? _); [done|]. destruct (_ <? _); [done|]. pose proof (zlen_nonneg b). etransitivity; [|apply IH]. lia.
Qed.

(** A request that fits is answered whole. *)
Lemma serve_whole now ids n : Forall (fun v => exists b, v = VBin b) ids ->
  blob_bytes (requested (blobStore n) ids) <= transferLimitBytes cfg ->
  syncBytesSent (refresh_budget now n) + blob_bytes (requested (blobStore n) ids) <= syncLimitBytes cfg ->
  exists n', _handleGet cfg now (VArr ids) n = (n', Ok (encodeBlobStream (requested (blobStore n) ids))).
Proof using Type.
  intros Hids Ht Hs. pose proof (handleGet_spec now (VArr ids) n) as Hg. destruct (_handleGet cfg now (VArr ids) n) as [n' r] eqn:E.
  destruct r as [stream|e].
  - destruct (Hg stream n' eq_refl) as (served & rest & -> & Hr & Hc & _ & Hn & _). exists n'. rewrite Hr in *.
    destruct rest as [|x rest]; [by rewrite app_nil_r|]. exfalso.
    assert (Hb : blob_bytes (served ++ x :: rest) = blob_bytes served + (zlen (RfedBlobs.blob x) + blob_bytes rest)).
    { clear. induction served as [|y served IH]; [done|]. cbn [app blob_bytes foldr]. unfold blob_bytes in IH. rewrite IH. unfold blob_bytes. lia. }
    pose proof (blob_bytes_nonneg rest). destruct Hn; lia.
  - exfalso. unfold _handleGet in E. destruct (get_loop_bytes (blobStore (refresh_budget now n)) ids Hids 0 (syncBytesSent (refresh_budget now n)) []) as (k & l & El).
    rewrite El in E. discriminate.
Qed.

Lemma wanted_bytes (l : list bytes) : Forall (fun v => exists b, v = VBin b) (map VBin l).
Proof using Type. induction l as [|b l IH]; [constructor|]. constructor; [by eexists|done]. Qed.

(** Requests of any peers, one after the other: the streams they got. *)
Fixpoint serve_all (reqs : list (Q * value)) (n : RFedNode) : RFedNode * list bytes :=
  match reqs with
  | [] => (n, [])
  | (now, data) :: reqs =>
      let '(n, r) := _handleGet cfg now data n in
      let '(n, streams) := serve_all reqs n in
      (n, match r with Ok s => s :: streams | Throw _ => streams end)
  end.

(** C28: Within one hour's period the responses to all peers together carry no
    more blob bytes than what the budget has left, and each no more than the
    transfer limit; every response holds stored blobs that were asked for,
    with their own ids and channels, in the order of the request. *)
Theorem served_within_limits (reqs : list (Q * value)) (n : RFedNode)
    (Hsame : Forall (fun r => (fst r - syncPeriodStart n < inject_Z SYNC_LIMIT_PERIOD)%Q) reqs)
    (Hbudget : syncBytesSent n <= Z.max 0 (syncLimitBytes cfg)) :
  let '(n', streams) := serve_all reqs n in
  exists served, map encodeBlobStream served = streams
  /\ foldr (fun l k => blob_bytes l + k) 0 served <= Z.max 0 (syncLimitBytes cfg) - syncBytesSent n
  /\ Forall (fun l => blob_bytes l <= Z.max 0 (transferLimitBytes cfg)) served
  /\ Forall (fun l => exists r rest, r ∈ reqs
       /\ requested (blobStore n) (match snd r with VArr l => l | _ => [] end) = l ++ rest) served.
Proof.
  revert n Hsame Hbudget. induction reqs as [|[now data] reqs IH]; intros n Hsame Hbudget; cbn [serve_all].
  - exists []. cbn. repeat split; try constructor. lia.
  - apply Forall_cons in Hsame as [Hnow Hsame]. cbn [fst] in Hnow.
    assert (Er : refresh_budget now n = n).
    { unfold refresh_budget. destruct (Qle_bool _ _) eqn:E; [|done]. apply Qle_bool_iff in E. by apply Qlt_not_le in Hnow. }
    pose proof (get_loop_sent cfg (match data with VArr l => l | _ => [] end) (blobStore n) 0 (syncBytesSent n) [] Hbudget) as Hs.
    pose proof (handleGet_spec now data n) as Hg.
    assert (Hn1 : let n1 := fst (_handleGet cfg now data n) in
      blobStore n1 = blobStore n /\ syncPeriodStart n1 = syncPeriodStart n /\ syncBytesSent n1 <= Z.max 0 (syncLimitBytes cfg)
      /\ syncBytesSent n <= syncBytesSent n1).
    { unfold _handleGet. rewrite Er. pose proof (get_loop_mono (match data with VArr l => l | _ => [] end) (blobStore n) 0 (syncBytesSent n) []) as Hm.
      destruct (get_loop _ _ _ _ _ _) as [k r]. by repeat split. }
    destruct (_handleGet cfg now data n) as [n1 r]. cbn [fst] in Hn1. destruct Hn1 as (Eb & Ep & Hb1 & Hle).
    rewrite <- Ep in Hsame. specialize (IH n1 Hsame Hb1). destruct (serve_all reqs n1) as [n2 streams].
    destruct IH as (served & <- & Ht & Hl & Hf). rewrite Eb in Hf. destruct r as [stream|e].
    + destruct (Hg stream n1 eq_refl) as (l & rest & -> & Hr & Hc & Hlim & _). rewrite Er in Hc. exists (l :: served).
      split; [done|]. cbn [foldr]. split; [lia|]. split; [by constructor|]. constructor.
      * exists (now, data), rest. split; [by left|done].
      * eapply Forall_impl; [exact Hf|]. intros x (r & rest' & Hin & E). exists r, rest'. split; [by right|done].
    + exists served. split; [done|]. split; [lia|]. split; [done|].
      eapply Forall_impl; [exact Hf|]. intros x (r & rest' & Hin & E). exists r, rest'. split; [by right|done].
Qed.
End Limits.

(** ** Storing while there is room *)

Section Rooms.

Definition recent (now : Q) (m : BlobMeta) : Prop := later (now - inject_Z BLOB_TTL_SECS) (received m) = false.

(** An entry with its blob. *)
Definition entry (s : BlobStore) (k : jsstr) : option bytes * option BlobMeta := (get k (_blobs s), get k (_meta s)).

Lemma delete_other mid s k : k <> toHex mid -> entry (fst (delete mid s)) k = entry s k.
Proof.
  intros Hk. unfold entry, delete. destruct (get (toHex mid) (_meta s)); [|done].
  cbn [fst set_contents _blobs _meta]. by rewrite !get_mdelete_other.
Qed.

Lemma evictOlder_keeps cutoff s k m : blobs_ok s -> get k (_meta s) = Some m -> later cutoff (received m) = false ->
  entry (fst (_evictOlderThan cutoff s)) k = entry s k.
Proof.
  intros Hs Hg Hr. unfold _evictOlderThan.
  assert (Hl : forall m', m' ∈ values (_meta s) -> later cutoff (received m') = true -> toHex (messageId m') <> k).
  { intros m' Hin Hold E. pose proof (value_stored s m' Hs Hin) as Hg'. rewrite E, Hg in Hg'. injection Hg' as <-. congruence. }
  clear Hs Hg Hr. generalize 0 at 2. set (l := values (_meta s)) in *. clearbody l. revert s.
  induction l as [|x l IH]; intros s n; [done|]. cbn [fold_left].
  assert (Hl' : forall m', m' ∈ l -> later cutoff (received m') = true -> toHex (messageId m') <> k) by (intros; apply Hl; [by right|done]).
  destruct (later (received x) 0 && later cutoff (received x)) eqn:E; [|by apply IH].
  rewrite IH by done. apply andb_prop in E as [_ E]. apply delete_other. apply not_eq_sym, Hl; [by left|done].
Qed.

Lemma sweep_keeps now s k m : blobs_ok s -> get k (_meta s) = Some m -> recent now m -> entry (sweep now s) k = entry s k.
Proof.
  intros Hs Hg Hr. unfold sweep. destruct (later _ _); [|done]. exact (evictOlder_keeps _ s k m Hs Hg Hr).
Qed.

Lemma sweep_used now s : blobs_ok s -> usedBytes (sweep now s) <= usedBytes s.
Proof. intros Hs. unfold sweep. destruct (later _ _); [|done]. by apply evictOlder_used. Qed.

(** Storing a new blob that fits. *)
Lemma store_room now dest mid data s : blobs_ok s -> get (toHex mid) (_meta s) = None ->
  usedBytes s + zlen data <= storageLimitBytes s ->
  let s' := fst (storeWithId now dest mid data s) in
  entry s' (toHex mid) = (Some data, Some (mkMeta mid dest now (zlen data)))
  /\ (forall k m, get k (_meta s) = Some m -> recent now m -> entry s' k = entry s k)
  /\ (forall k, k <> toHex mid -> get k (_meta s) = None -> get k (_meta s') = None)
  /\ usedBytes s' <= usedBytes s + zlen data /\ storageLimitBytes s' = storageLimitBytes s.
Proof.
  intros Hs Hn Hroom. cbv zeta. unfold storeWithId. rewrite Hn. cbn [fst].
  pose proof (sweep_used now s Hs) as Hu. pose proof (sweep_limit now s) as Hl.
  assert (E : _evictToFit (zlen data) (sweep now s) = sweep now s) by (unfold _evictToFit; by rewrite (proj2 (Z.leb_le _ _)) by lia).
  rewrite E. split; [|split; [|split; [|split]]].
  - unfold entry. cbn [put_blob set_contents _blobs _meta]. by rewrite !get_mset_same.
  - intros k m Hg Hr. rewrite <- (sweep_keeps now s k m Hs Hg Hr). unfold entry. cbn [put_blob set_contents _blobs _meta].
    rewrite !get_mset_other; [done|congruence..].
  - intros k Hk Hg. cbn [put_blob set_contents _meta]. rewrite get_mset_other by done. by apply sweep_less.
  - cbn [put_blob set_contents usedBytes]. lia.
  - done.
Qed.

Lemma recent_now now dest mid k : recent now (mkMeta mid dest now k).
Proof.
  unfold recent, later. cbn [received]. apply negb_false_iff, Qle_bool_iff. unfold BLOB_TTL_SECS.
  rewrite <- (Qplus_0_r now) at 2. apply Qplus_le_compat; [apply Qle_refl|]. unfold Qle. cbn. lia.
Qed.
End Rooms.

(** ** Syncing with a peer *)

Section Sync.
Context `{C : WebCrypto} `{H : JsHost}.
Context (cfg cfgPeer : Config) (recallIdentity : bytes -> option Identity).

Definition held_as (now : Q) (n : RFedNode) (r : StreamRecord) : Prop :=
  entry (blobStore n) (toHex (sr_messageId r))
  = (Some (RfedBlobs.blob r), Some (mkMeta (sr_messageId r) (RfedBlobs.channelHash r) now (zlen (RfedBlobs.blob r)))).

Lemma fanout_store now sent ch data n : (forall i, sent i = true) ->
  let '(n', _, r) := _fanout cfg recallIdentity now sent ch data n in
  r = Ok tt /\ blobStore n' = blobStore n /\ subscriptions n' = subscriptions n.
Proof using Type.
  intros Hs. unfold _fanout. pose proof (fanout_loop_spec cfg recallIdentity now sent ch data (subscribersFor ch (subscriptions n)) 0 n) as Hf.
  destruct (fanout_loop _ _ _ _ _ _ _ _ _) as [[n' outs] r]. destruct Hf as (reached & missed & _ & -> & Hf).
  by destruct (fanned_out_all _ _ _ _ _ _ _ _ _ _ _ _ Hs Hf) as [-> _].
Qed.

(** New records, each once, that fit: all are stored, and what is recent
    stays. *)
Lemma ingest_spec now sent records : (forall i, sent i = true) -> forall k n, blobs_ok (blobStore n) ->
  NoDup (map (fun r => toHex (sr_messageId r)) records) ->
  Forall (fun r => get (toHex (sr_messageId r)) (_meta (blobStore n)) = None) records ->
  usedBytes (blobStore n) + blob_bytes records <= storageLimitBytes (blobStore n) ->
  let '(n', _, r) := ingest_records cfg recallIdentity now sent records k n in
  r = Ok (k + length records)%nat /\ Forall (held_as now n') records
  /\ (forall key m, get key (_meta (blobStore n)) = Some m -> recent now m -> entry (blobStore n') key = entry (blobStore n) key).
Proof using Type.
  intros Hsent. induction records as [|r records IH]; intros k n Hs Hd Hnew Hroom; cbn [ingest_records].
  - cbn [length]. by rewrite Nat.add_0_r.
  - cbn [map] in Hd. apply NoDup_cons in Hd as [Hnot Hd]. apply Forall_cons in Hnew as [Hn Hnew].
    cbn [blob_bytes foldr] in Hroom. fold (blob_bytes records) in Hroom. pose proof (blob_bytes_nonneg records) as Hnn.
    rewrite (proj2 (held_meta _ _ Hs) Hn).
    destruct (store_room now (RfedBlobs.channelHash r) (sr_messageId r) (RfedBlobs.blob r) _ Hs Hn ltac:(lia)) as (Hin & Hkeep & Hless & Hu & Hl).
    destruct (storeWithId_new now (RfedBlobs.channelHash r) (sr_messageId r) (RfedBlobs.blob r) _ Hn) as [Eok _].
    pose proof (storeWithId_ok now (RfedBlobs.channelHash r) (sr_messageId r) (RfedBlobs.blob r) _ Hs) as Hs1.
    destruct (storeWithId _ _ _ _ _) as [s st]. cbn [fst snd] in *. subst st.
    pose proof (fanout_store now sent (RfedBlobs.channelHash r) (RfedBlobs.blob r) (with_blobStore n s) Hsent) as Hf.
    destruct (_fanout _ _ _ _ _ _ _) as [[n1 outs] done']. destruct Hf as (-> & Eb & _). cbn [with_blobStore blobStore] in Eb.
    specialize (IH (S k) n1). rewrite Eb in IH.
    assert (Hnew1 : Forall (fun r => get (toHex (sr_messageId r)) (_meta s) = None) records).
    { rewrite Forall_forall in Hnew |- *. intros x Hx. apply Hless; [|by apply Hnew]. intros E. apply Hnot. rewrite <- E.
      apply list_elem_of_fmap. by exists x. }
    specialize (IH Hs1 Hd Hnew1 ltac:(lia)). destruct (ingest_records _ _ _ _ _ _ _) as [[n2 outs'] res].
    destruct IH as (-> & Hall & Hk). unfold entry in Hin. injection Hin as Hin1 Hin2. split; [|split].
    + cbn [length]. f_equal. lia.
    + constructor; [|done]. unfold held_as. rewrite (Hk _ _ Hin2 (recent_now _ _ _ _)). unfold entry. by rewrite Hin1, Hin2.
    + intros key m Hg Hr. rewrite <- (Hkeep key m Hg Hr). apply (Hk key m); [|done].
      pose proof (Hkeep key m Hg Hr) as E. unfold entry in E. injection E as _ E. by rewrite E.
Qed.

Lemma gap_manifest pairs s subs : forall seen,
  gap_values (map (fun '(ch, mid) => VArr [VBin ch; VBin mid]) pairs) s subs seen = Ok (gap_loop pairs s subs seen).
Proof using Type.
  induction pairs as [|[ch mid] pairs IH]; intros seen; [done|]. cbn [map gap_values gap_loop].
  destruct (negb _); [done|]. destruct (get_blob mid s); [done|]. destruct (bool_decide _); [done|]. by rewrite IH.
Qed.

(** What a peer offers it can serve. *)
Lemma offered_record s ch mid : blobs_ok s -> (ch, mid) ∈ manifest s ->
  exists r, sr_messageId r = mid /\ forall id, toHex id = toHex mid -> record_of s id = Some r /\ get_blob id s = Some (RfedBlobs.blob r).
Proof using Type.
  intros Hs Hin. unfold manifest in Hin. apply list_elem_of_fmap in Hin as (m & [= -> ->] & Hm).
  pose proof (value_stored s m Hs Hm) as Hg. destruct (get (toHex (messageId m)) (_blobs s)) as [b|] eqn:E.
  - exists (mkRecord (RfedBlobs.destinationHash m) (messageId m) b). split; [done|]. intros id Hid.
    unfold record_of, metaFor, get_blob. by rewrite Hid, Hg, E.
  - exfalso. apply (held_meta s (messageId m) Hs) in E. congruence.
Qed.

Lemma requested_all s ids : Forall (fun id => exists r, record_of s id = Some r /\ toHex (sr_messageId r) = toHex id) ids ->
  map (fun r => toHex (sr_messageId r)) (requested s (map VBin ids)) = map toHex ids
  /\ length (requested s (map VBin ids)) = length ids
  /\ forall id r, id ∈ ids -> record_of s id = Some r -> r ∈ requested s (map VBin ids).
Proof using Type.
  induction 1 as [|id ids (r & Hr & Hid) _ (IH1 & IH2 & IH3)]; [by repeat split; intros ?? ?%not_elem_of_nil|].
  cbn [map]. rewrite requested_cons, Hr. cbn [map length]. rewrite IH1, IH2, Hid. split; [done|]. split; [done|].
  intros i x Hin Hx. apply elem_of_cons in Hin as [->|Hin]; [|right; by apply (IH3 i)]. rewrite Hr in Hx. injection Hx as <-. by left.
Qed.

(** What a node asks of a peer that offers its whole store. *)
Definition wanted_of (n peer : RFedNode) : list bytes :=
  gapFromPeer (fullManifest (blobStore peer)) (blobStore n) (subscribedChannelHashes (subscriptions n)).

(** Each is held by the peer, once, and not by the node. *)
Lemma wanted_records n peer : blobs_ok (blobStore n) -> blobs_ok (blobStore peer) ->
  let records := requested (blobStore peer) (map VBin (wanted_of n peer)) in
  length records = length (wanted_of n peer)
  /\ NoDup (map (fun r => toHex (sr_messageId r)) records)
  /\ Forall (fun r => get (toHex (sr_messageId r)) (_meta (blobStore n)) = None) records
  /\ forall ch mid, (ch, mid) ∈ manifest (blobStore peer) ->
       toHex ch ∈ map toHex (subscribedChannelHashes (subscriptions n)) -> get_blob mid (blobStore n) = None ->
       exists r, r ∈ records /\ toHex (sr_messageId r) = toHex mid /\ get_blob mid (blobStore peer) = Some (RfedBlobs.blob r).
Proof using Type.
  intros Hn Hp. cbv zeta. unfold wanted_of, gapFromPeer. set (subs := map toHex _).
  destruct (gap_loop_spec (blobStore n) subs (fullManifest (blobStore peer)) []) as [Hd Hin].
  set (wanted := gap_loop _ _ _ _) in *.
  assert (Hall : Forall (fun id => exists r, record_of (blobStore peer) id = Some r /\ toHex (sr_messageId r) = toHex id) wanted).
  { apply Forall_forall. intros id Hid. assert (Hx : toHex id ∈ map toHex wanted) by (apply list_elem_of_fmap; by exists id).
    apply Hin in Hx as (_ & ch & mid & Hm & _ & _ & E). destruct (offered_record _ ch mid Hp Hm) as (r & Hr & Hall).
    exists r. rewrite Hr. split; [|done]. by apply Hall. }
  destruct (requested_all (blobStore peer) wanted Hall) as (E1 & E2 & E3). split; [done|]. split; [by rewrite E1|]. split.
  - apply Forall_forall. intros r Hr. assert (Hx : toHex (sr_messageId r) ∈ map toHex wanted).
    { rewrite <- E1. apply list_elem_of_fmap. by exists r. }
    apply Hin in Hx as (_ & ch & mid & _ & _ & Hno & E). rewrite <- E. by apply held_meta.
  - intros ch mid Hm Hsub Hno. assert (Hx : toHex mid ∈ map toHex wanted).
    { apply Hin. split; [apply not_elem_of_nil|]. by exists ch, mid. }
    apply list_elem_of_fmap in Hx as (id & E & Hid). destruct (offered_record _ ch mid Hp Hm) as (r & Hr & Hall').
    destruct (Hall' id (eq_sym E)) as [H1 _]. destruct (Hall' mid eq_refl) as [_ H2]. exists r. split; [by apply (E3 id)|]. by rewrite Hr.
Qed.

Lemma nothing_wanted n peer : wanted_of n peer = [] -> requested (blobStore peer) (map VBin (wanted_of n peer)) = [].
Proof using Type. by intros ->. Qed.

(** C10: After a sync with a peer that offers its whole store and answers the
    request, a node holds every blob of the peer on the channels that its
    subscribers want, under the peer's ids and byte for byte; it counts
    exactly the ones that were new, and keeps what it had stored of late. *)
Theorem sync_replicates (now later : Q) (sent : nat -> bool) (peerHash : bytes) (n peer : RFedNode)
    (Hn : blobs_ok (blobStore n)) (Hp : blobs_ok (blobStore peer)) (Hsent : forall i, sent i = true)
    (records := requested (blobStore peer) (map VBin (wanted_of n peer)))
    (Hwire : Forall record_ok records)
    (Htransfer : blob_bytes records <= transferLimitBytes cfgPeer)
    (Hbudget : syncBytesSent (refresh_budget now peer) + blob_bytes records <= syncLimitBytes cfgPeer)
    (Hroom : usedBytes (blobStore n) + blob_bytes records <= storageLimitBytes (blobStore n)) :
  let '(n', outs, r) := syncWithPeer cfg recallIdentity now later sent (Ok (_handleOffer peer))
    (fun wanted => snd (_handleGet cfgPeer now (VArr (map VBin wanted)) peer)) peerHash n in
  r = Ok (length (wanted_of n peer))
  /\ (forall ch mid, (ch, mid) ∈ manifest (blobStore peer) ->
        toHex ch ∈ map toHex (subscribedChannelHashes (subscriptions n)) -> get_blob mid (blobStore n) = None ->
        get_blob mid (blobStore n') = get_blob mid (blobStore peer) /\ get_blob mid (blobStore peer) <> None)
  /\ (forall key m, get key (_meta (blobStore n)) = Some m -> recent now m ->
        entry (blobStore n') key = entry (blobStore n) key).
Proof.
  pose proof (wanted_records n peer Hn Hp) as (Hlen & Hd & Hnew & Hall). fold records in Hlen, Hd, Hnew, Hall.
  assert (Hrec : records = requested (blobStore peer) (map VBin (wanted_of n peer))) by done. clearbody records.
  unfold syncWithPeer. set (n0 := with_fedSync n _). unfold _syncWithPeerInternal, gap_of, _handleOffer. cbn [rbind elements_of].
  rewrite gap_manifest. change (gap_loop _ _ _ []) with (wanted_of n peer).
  destruct (wanted_of n peer) as [|w ws] eqn:Ew.
  { split; [done|]. split; [|done]. intros ch mid Hm Hs Hno. destruct (Hall ch mid Hm Hs Hno) as (r & Hr & _). rewrite Hrec, ?Ew in Hr. by apply not_elem_of_nil in Hr. }
  rewrite <- Ew in *. clear Ew. pose proof (serve_whole cfgPeer now (map VBin (wanted_of n peer)) peer) as Hserve. rewrite <- Hrec in Hserve.
  destruct Hserve as (peer' & ->); [by apply wanted_bytes|done|done|]. cbn [snd].
  rewrite stream_decodes by done. pose proof (ingest_spec now sent records Hsent 0 n0 Hn Hd Hnew Hroom) as Hi.
  destruct (ingest_records _ _ _ _ _ _ _) as [[n1 outs] r]. destruct Hi as (-> & Hheld & Hkeep).
  split; [by rewrite Hlen|]. split; [|exact Hkeep]. intros ch mid Hm Hs Hno.
  destruct (Hall ch mid Hm Hs Hno) as (x & Hx & Eid & Eb). rewrite Eb. split; [|done].
  rewrite Forall_forall in Hheld. specialize (Hheld x Hx). unfold held_as, entry in Hheld. injection Hheld as Hb _.
  unfold get_blob. cbn [with_fedSync blobStore]. by rewrite <- Eid, Hb.
Qed.
End Sync.

(** ** Backups *)

Section Backup.
Context `{C : WebCrypto} `{H : JsHost} `{L : !WebCryptoLaws C}.
Context (cfg cfgBackup : Config) (recallIdentity : bytes -> option Identity).

Definition hash_pair (p : bytes * bytes) : Prop := length (fst p) = 16%nat /\ length (snd p) = 16%nat.

Definition pair_value (p : bytes * bytes) : value := VArr [VBin (fst p); VBin (snd p)].

Lemma pairs_canonical pairs : zlen pairs < 2 ^ 32 -> Forall hash_pair pairs ->
  canonical MAX_DEPTH (VArr (map pair_value pairs)).
Proof using Type.
  intros Hl Hp. apply (canonical_arr 127); [unfold zlen in *; by rewrite length_map|].
  induction Hp as [|[sub ch] pairs [H1 H2] _ IH]; [constructor|]. cbn [map]. constructor.
  - apply (canonical_arr 126); [done|]. cbn [fst snd] in *.
    repeat apply Forall_cons_2; [..|apply Forall_nil_2]; apply canonical_atom; cbn [canonical]; unfold zlen; by rewrite ?H1, ?H2.
  - apply IH. rewrite zlen_cons in Hl. pose proof (zlen_nonneg pairs). lia.
Qed.

(** What an owner signs is what the backup verifies and decodes. *)
Lemma backup_body_ok id pairs : wf_identity id -> zlen pairs < 2 ^ 32 -> Forall hash_pair pairs ->
  exists body v, backup_body id pairs = Ok body
  /\ _verifySignedPayload body = Some (fromPublicKey (getPublicKey id), v)
  /\ decode_body v = Ok (VArr (map pair_value pairs)).
Proof using L.
  intros Hid Hl Hp. pose proof (pairs_canonical pairs Hl Hp) as Hc. destruct (encode_decode _ Hc) as (v & Hv & _).
  destruct (signed_verified id v Hid) as (body & Hb & _ & Hver). exists body, v. split; [|split; [done|by apply decode_encoded]].
  unfold backup_body. assert (E : map (fun '(sub, ch) => VArr [VBin sub; VBin ch]) pairs = map pair_value pairs).
  { apply map_ext. by intros [sub ch]. }
  rewrite E, Hv. exact Hb.
Qed.

(** The backup entry of a pair. *)
Definition adopted_by (t : SubscriptionTable) (owner : bytes) (p : bytes * bytes) : Prop :=
  exists e, e ∈ t /\ entry_key e = (toHex (fst p), toHex (snd p), Some (toHex owner)).

Lemma subscribeBackup_adds now sub ch owner t : adopted_by (subscribeBackup now sub ch owner t) owner (sub, ch).
Proof using Type.
  unfold subscribeBackup, adopted_by. destruct (update_first _ _ t) as [t'|] eqn:E.
  - apply update_first_some in E as (l1 & e & l2 & -> & He & -> & _). exists (refreshed now e).
    split; [apply elem_of_app; right; by left|]. by apply is_backup_key.
  - exists (mkSub sub ch None None now (Some owner) now). split; [|done]. apply elem_of_app. right. by left.
Qed.

Lemma subscribeBackup_keeps now sub ch owner t o p : adopted_by t o p -> adopted_by (subscribeBackup now sub ch owner t) o p.
Proof using Type.
  intros (e & Hin & Hk). unfold subscribeBackup, adopted_by. destruct (update_first _ _ t) as [t'|] eqn:E.
  - apply update_first_some in E as (l1 & x & l2 & -> & Hx & -> & _). apply elem_of_app in Hin as [Hin|Hin].
    + exists e. split; [apply elem_of_app; by left|done].
    + apply elem_of_cons in Hin as [->|Hin].
      * exists (refreshed now x). split; [apply elem_of_app; right; by left|done].
      * exists e. split; [apply elem_of_app; right; by right|done].
  - exists e. split; [apply elem_of_app; by left|done].
Qed.

Lemma adopt_pairs_adds now owner pairs : Forall hash_pair pairs -> forall t,
  Forall (adopted_by (adopt_pairs now owner (map pair_value pairs) t) owner) pairs
  /\ forall o p, adopted_by t o p -> adopted_by (adopt_pairs now owner (map pair_value pairs) t) o p.
Proof using Type.
  unfold adopt_pairs. induction 1 as [|[sub ch] pairs [H1 H2] _ IH]; intros t; [by split|]. cbn [map fold_left].
  cbn [fst snd] in *. assert (E : pair_of (pair_value (sub, ch)) = Some (sub, ch)).
  { unfold pair_of, pair_value, HASH_LENGTH. cbn [fst snd]. by rewrite H1, H2. }
  rewrite E. destruct (IH (subscribeBackup now sub ch owner t)) as [Ha Hk]. split.
  - constructor; [|done]. apply Hk, subscribeBackup_adds.
  - intros o p Hp. by apply Hk, subscribeBackup_keeps.
Qed.

Definition trusts (c : Config) (owner : bytes) : Prop :=
  trustedBackupPeers c = [] \/ toHex owner ∈ map toHex (trustedBackupPeers c).

(** The name of an owner on both sides. *)
Lemma node_hash_public id : wf_identity id -> node_hash_of (fromPublicKey (getPublicKey id)) = node_hash_of id.
Proof using L.
  intros Hid. pose proof (public_hash id Hid) as E. unfold node_hash_of, create, _computeHashes.
  cbn [new_Destination set_hashes Destination.destinationHash Destination.type Destination.identity Destination.name].
  change (DestType_SINGLE =? DestType_PLAIN) with false. change (DestType_SINGLE =? DestType_SINGLE) with true. cbn [orb from_option].
  unfold dest_hash. by rewrite E.
Qed.

(** C27: What an owner pushes its backup holds: every waiting pair reaches a
    backup that trusts the owner, is kept there under the owner's rfed.node
    hash with the pairs of all other owners, and only then leaves the owner's
    waiting list. *)
Theorem backup_handover (now : Q) (id backupId : Identity) (backup : bytes) (owner held : RFedNode)
    (Hid : wf_identity id) (Htarget : _resolveBackup cfg = Some backup) (Hrecall : recallIdentity backup = Some backupId)
    (Htrust : trusts cfgBackup (node_hash_of id))
    (Hpairs : Forall hash_pair (_pendingBackupPushes owner)) (Hlen : zlen (_pendingBackupPushes owner) < 2 ^ 32) :
  exists held',
    (forall body, backup_body id (_pendingBackupPushes owner) = Ok body ->
       _handleBackupPush cfgBackup now body held = (held', VBool true))
  /\ Forall (adopted_by (subscriptions held') (node_hash_of id)) (_pendingBackupPushes owner)
  /\ (forall o p, adopted_by (subscriptions held) o p -> adopted_by (subscriptions held') o p)
  /\ let '(owner', outs, r) := push_pending cfg recallIdentity id
        (fun _ body => Ok (snd (_handleBackupPush cfgBackup now body held))) owner in
     r = Ok (length (_pendingBackupPushes owner)) /\ _pendingBackupPushes owner' = [].
Proof.
  destruct (backup_body_ok id _ Hid Hlen Hpairs) as (body & v & Hb & Hv & Hd).
  assert (Hh : _handleBackupPush cfgBackup now body held
    = (with_subscriptions held (adopt_pairs now (node_hash_of id) (map pair_value (_pendingBackupPushes owner)) (subscriptions held)), VBool true)).
  { unfold _handleBackupPush. rewrite Hv, Hd, node_hash_public by done. cbv zeta.
    replace (_ && _) with false; [done|]. symmetry. destruct Htrust as [->|Ht]; [done|]. rewrite (bool_decide_true _ Ht). by rewrite andb_false_r. }
  destruct (adopt_pairs_adds now (node_hash_of id) _ Hpairs (subscriptions held)) as [Ha Hk].
  eexists. split; [intros b Hb'; rewrite Hb in Hb'; injection Hb' as <-; exact Hh|]. split; [exact Ha|]. split; [exact Hk|].
  unfold push_pending. destruct (_pendingBackupPushes owner) as [|p l] eqn:E; [by rewrite E|].
  unfold push_send. rewrite Htarget. unfold _pushSubscriptionsToBackup. rewrite Hrecall, Hb. cbn [rbind]. by rewrite Hh.
Qed.

(** The backup took the pairs: it was asked with them and answered true. *)
Definition accepted (id : Identity) (request : bytes -> value -> result value) (pairs : list (bytes * bytes)) : Prop :=
  exists b bid body, _resolveBackup cfg = Some b /\ recallIdentity b = Some bid /\ backup_body id pairs = Ok body
    /\ request b body = Ok (VBool true).

Lemma push_answered id request pairs body : backup_body id pairs = Ok body -> (forall b v, exists a, request b v = Ok a) ->
  accepted id request pairs /\ snd (push_send cfg recallIdentity id request pairs) = Ok true
  \/ ~ accepted id request pairs /\ snd (push_send cfg recallIdentity id request pairs) = Ok false.
Proof using Type.
  intros Hb Ha. unfold push_send, accepted. destruct (_resolveBackup cfg) as [b|]; [|right; split; [naive_solver|done]].
  unfold _pushSubscriptionsToBackup. destruct (recallIdentity b) as [bid|] eqn:Er; [|right; split; [naive_solver|done]].
  rewrite Hb. cbn [rbind snd]. destruct (Ha b body) as [a E]. rewrite E. cbn [rbind].
  set (ok := match a with VBool true => true | _ => false end). destruct ok eqn:Ek; subst ok.
  - left. split; [|done]. exists b, bid, body. split; [done|]. split; [done|]. split; [done|]. rewrite E. f_equal.
    destruct a as [|[|]| | | | | | | |]; done.
  - right. split; [|done]. intros (b' & bid' & body' & [= <-] & _ & [= <-] & E').
    rewrite E in E'. injection E' as ->. discriminate Ek.
Qed.

(** C37: No waiting pair is lost while the backup answers, whatever it answers,
    or while there is none or its identity is not known.  The pairs that waited
    in [n] are taken and pushed, and when the push has settled the node is in
    some state [n1], with the pairs that came in the meantime: they leave the
    list exactly when the backup was asked with them and answered true;
    otherwise they wait again behind those, in their order, as many as fit the
    cap.  With nothing in between, all of them. *)
Theorem pending_kept (id : Identity) (request : bytes -> value -> result value) (n n1 : RFedNode) (pairs := _pendingBackupPushes n)
    (Hid : wf_identity id) (Hpairs : Forall hash_pair pairs) (Hcap : (length pairs <= PENDING_BACKUP_CAP)%nat)
    (Hanswers : forall b body, exists v, request b body = Ok v) :
  (let '(n', r) := push_end pairs (snd (push_send cfg recallIdentity id request pairs)) n1 in
   accepted id request pairs /\ r = Ok (length pairs) /\ _pendingBackupPushes n' = _pendingBackupPushes n1
   \/ ~ accepted id request pairs /\ r = Ok 0%nat
      /\ _pendingBackupPushes n' = _pendingBackupPushes n1 ++ take (PENDING_BACKUP_CAP - length (_pendingBackupPushes n1)) pairs)
  /\ let '(n', outs, r) := push_pending cfg recallIdentity id request n in
     accepted id request pairs /\ r = Ok (length pairs) /\ _pendingBackupPushes n' = []
     \/ ~ accepted id request pairs /\ r = Ok 0%nat /\ _pendingBackupPushes n' = pairs.
Proof.
  assert (Hlen : zlen pairs < 2 ^ 32) by (unfold zlen, PENDING_BACKUP_CAP in *; lia).
  destruct (backup_body_ok id pairs Hid Hlen Hpairs) as (body & _ & Hb & _).
  pose proof (push_answered id request pairs body Hb Hanswers) as Hp. split.
  - destruct Hp as [[Hacc ->]|[Hacc ->]]; cbn [push_end]; [by left|by right].
  - unfold push_pending. subst pairs. destruct (_pendingBackupPushes n) as [|p l] eqn:E.
    + destruct Hp as [[Hacc _]|[Hacc _]]; [left|right]; by rewrite E.
    + destruct (push_send _ _ _ _ _) as [outs r]. cbn [snd] in Hp. destruct Hp as [[Hacc ->]|[Hacc ->]]; cbn [push_end]; [by left|right].
      split; [done|]. split; [done|]. unfold _requeueBackupPairs. cbn [with_pending _pendingBackupPushes app]. apply take_ge.
      cbn [length] in *. lia.
Qed.

(** A push that fails without an answer drops every pair, and ends the tick. *)
Remark push_lost (now : Q) (id bid : Identity) (backup body : bytes) (request : bytes -> value -> result value) e (n : RFedNode) v :
  _resolveBackup cfg = Some backup -> recallIdentity backup = Some bid -> _pendingBackupPushes n <> [] ->
  backup_body id (_pendingBackupPushes n) = Ok v -> request backup v = Throw e ->
  let '(n', outs, r) := _tickBackupDeliveryInner cfg recallIdentity now id request n in
  r = Throw e /\ _pendingBackupPushes n' = [] /\ subscriptions n' = subscriptions n /\ deferred n' = deferred n.
Proof using Type.
  intros Hr Hi Hp Hb He. unfold _tickBackupDeliveryInner, push_pending. destruct (_pendingBackupPushes n) as [|p l]; [done|].
  unfold push_send, _pushSubscriptionsToBackup. rewrite Hr, Hi, Hb. cbn [rbind]. rewrite He. done.
Qed.
End Backup.

(** ** Concrete nodes *)

Section Samples.
Import Toy.
Import MsgPackSpec.Host.
#[local] Existing Instances toy_crypto no_exotic toy_laws.

(** Two requests, with an id that is not held. *)
Definition sample_gets : list (Q * value) :=
  [(110%Q, VArr [VBin (replicate 16 1); VBin (replicate 16 6)]); (120%Q, VArr [VBin (replicate 16 2)])].

Lemma served_within_limits_witness :
  exists served, map encodeBlobStream served = snd (serve_all sample_config sample_gets sample_backup)
  /\ foldr (fun l k => blob_bytes l + k) 0 served <= Z.max 0 (syncLimitBytes sample_config) - syncBytesSent sample_backup.
Proof.
  pose proof (served_within_limits sample_config sample_gets sample_backup) as Hs.
  destruct (serve_all _ _ _) as [n' streams]. destruct Hs as (served & H1 & H2 & _).
  - repeat constructor.
  - vm_compute. discriminate.
  - exists served. by split.
Defined.

Lemma sync_replicates_witness :
  let '(n', outs, r) := syncWithPeer sample_config (fun _ => None) 200 201 (fun _ => true) (Ok (_handleOffer sample_backup))
    (fun wanted => snd (_handleGet sample_config 200 (VArr (map VBin wanted)) sample_backup)) (replicate 16 22) sample_node in
  r = Ok 2%nat /\ get_blob (replicate 16 2) (blobStore n') = get_blob (replicate 16 2) (blobStore sample_backup).
Proof.
  pose proof (sync_replicates sample_config sample_config (fun _ => None) 200 201 (fun _ => true) (replicate 16 22) sample_node sample_backup) as Hs.
  cbv zeta in Hs. destruct (syncWithPeer _ _ _ _ _ _ _ _ _) as [[n' outs] r]. destruct Hs as (H1 & H2 & _).
  - split; [constructor|reflexivity|constructor|reflexivity].
  - split; [|reflexivity| |reflexivity]; [apply (bool_decide_unpack _); vm_compute; exact I|repeat constructor].
  - reflexivity.
  - assert (E : requested (blobStore sample_backup) (map VBin (wanted_of sample_node sample_backup))
      = [mkRecord sample_channel (replicate 16 1) [9]; mkRecord sample_channel (replicate 16 2) [8; 8]]) by (vm_compute; reflexivity).
    rewrite E. repeat constructor.
  - vm_compute. discriminate.
  - vm_compute. discriminate.
  - vm_compute. discriminate.
  - split; [rewrite H1; vm_compute; reflexivity|]. apply (H2 sample_channel (replicate 16 2)).
    + apply list_elem_of_In. vm_compute. right. left. reflexivity.
    + apply list_elem_of_In. vm_compute. left. reflexivity.
    + vm_compute. reflexivity.
Defined.

Definition sample_backed : Config := Eval vm_compute in
  let c := sample_config in
  mkConfig (stampCost c) (stampFlexibility c) (pullPageSize c) (policyFor c) (presenceTtlSec c) (blobTtlSecs c) (deferredTtlSecs c)
    (transferLimitBytes c) (syncLimitBytes c) (Some (replicate 16 44)) [] (ownerOfflineSecs c) [] (maxInboundPublishes c)
    (stampThrottleSecs c) (maxPublishBytes c) [] (nodeName c).

Definition sample_waiting : RFedNode := Eval vm_compute in
  with_pending sample_node [(replicate 16 31, sample_channel); (replicate 16 32, sample_channel)].

Lemma backup_handover_witness : exists held',
  Forall (adopted_by (subscriptions held') (node_hash_of sample_owner)) [(replicate 16 31, sample_channel); (replicate 16 32, sample_channel)].
Proof.
  destruct (backup_handover sample_backed sample_config (fun _ => Some sample_alice) 300 sample_owner sample_alice (replicate 16 44)
    sample_waiting sample_backup) as (held' & _ & Ha & _).
  - refine (generate_wf _ _).
  - reflexivity.
  - reflexivity.
  - by left.
  - repeat constructor.
  - reflexivity.
  - exists held'. exact Ha.
Defined.

Lemma pending_kept_witness :
  let '(n', outs, r) := push_pending sample_backed (fun _ => Some sample_alice) sample_owner (fun _ _ => Ok (VBool false)) sample_waiting in
  _pendingBackupPushes n' = _pendingBackupPushes sample_waiting.
Proof.
  destruct (pending_kept sample_backed (fun _ => Some sample_alice) sample_owner (fun _ _ => Ok (VBool false)) sample_waiting sample_waiting) as [_ Hp].
  - refine (generate_wf _ _).
  - repeat constructor.
  - cbn [length sample_waiting _pendingBackupPushes]. unfold PENDING_BACKUP_CAP. lia.
  - intros b body. by exists (VBool false).
  - destruct (push_pending _ _ _ _ _) as [[n' outs] r]. destruct Hp as [[(b & bid & body & _ & _ & _ & Ha) _]|(_ & _ & Hp)].
    + discriminate Ha.
    + exact Hp.
Defined.
End Samples.
