(* ===== verification/JsString.v ===== *)
(** * JsString: methods of JavaScript strings

    The string methods that the git remote uses, on code units. *)

From S2P Require Import Prelude Encoding Utf8.
#[local] Open Scope Z_scope.

Definition startsWith (p s : jsstr) : bool := bool_decide (take (length p) s = p).
Definition endsWith (p s : jsstr) : bool := startsWith (rev p) (rev s).

(** [s.indexOf(c)] of one character; [None] is [-1]. *)
Fixpoint index_of (c : Z) (s : list Z) : option nat :=
  match s with
  | [] => None
  | x :: s => if x =? c then Some 0%nat else S <$> index_of c s
  end.

(** The pieces between the characters that satisfy [p]. *)
Fixpoint split_if (p : Z -> bool) (s : jsstr) : list jsstr :=
  match s with
  | [] => [[]]
  | x :: s =>
      if p x then [] :: split_if p s
      else match split_if p s with [] => [[x]] | w :: ws => (x :: w) :: ws end
  end.

Definition split_on (c : Z) : jsstr -> list jsstr := split_if (Z.eqb c).

Definition nonempty (s : jsstr) : bool := negb (bool_decide (s = [])).

(** [s.split(/\s+/).filter(Boolean)]. *)
Definition words (s : jsstr) : list jsstr := List.filter nonempty (split_if is_space s).

Fixpoint trim_start (s : jsstr) : jsstr :=
  match s with
  | x :: s' => if is_space x then trim_start s' else s
  | [] => []
  end.

Definition trim (s : jsstr) : jsstr := rev (trim_start (rev (trim_start s))).

(** [s.replace(/\s+/g, " ")]; [inside]: the character before was a space. *)
Fixpoint collapse (inside : bool) (s : jsstr) : jsstr :=
  match s with
  | [] => []
  | x :: s => if is_space x then (if inside then [] else [32]) ++ collapse true s else x :: collapse false s
  end.

(** [Number.parseInt(s, 16)]; [None] is [NaN]. *)
Definition parseInt16 (s : jsstr) : option Z := parse_int16 (trim_start s).

(** [s.join(c)]. *)
Fixpoint join (c : Z) (ws : list jsstr) : jsstr :=
  match ws with
  | [] => []
  | [w] => w
  | w :: ws => w ++ c :: join c ws
  end.

(** ** Lemmas *)

Lemma startsWith_app p s : startsWith p (p ++ s) = true.
Proof. unfold startsWith. rewrite take_app_length. by apply bool_decide_eq_true. Qed.

Lemma index_of_app c s t : ~ In c s -> index_of c (s ++ c :: t) = Some (length s).
Proof.
  induction s as [|x s IH]; intros H; cbn [index_of app length]; [by rewrite Z.eqb_refl|].
  rewrite (proj2 (Z.eqb_neq _ _)) by (intros ->; apply H; by left). rewrite IH; [done|]. intros ?. apply H. by right.
Qed.

Lemma index_of_None c s : ~ In c s -> index_of c s = None.
Proof.
  induction s as [|x s IH]; intros H; cbn [index_of]; [done|].
  rewrite (proj2 (Z.eqb_neq _ _)) by (intros ->; apply H; by left). rewrite IH; [done|]. intros ?. apply H. by right.
Qed.

Lemma split_if_none p s : Forall (fun x => p x = false) s -> split_if p s = [s].
Proof. induction 1 as [|x s Hx _ IH]; cbn [split_if]; [done|]. by rewrite Hx, IH. Qed.

Lemma split_if_app p s x t : Forall (fun x => p x = false) s -> p x = true -> split_if p (s ++ x :: t) = s :: split_if p t.
Proof. induction 1 as [|y s Hy _ IH]; intros Hx; cbn [split_if app]; [by rewrite Hx|]. by rewrite Hy, IH. Qed.

Lemma eqb_not_in c s : ~ In c s -> Forall (fun x => (c =? x) = false) s.
Proof. intros H. apply List.Forall_forall. intros x Hx. apply Z.eqb_neq. by intros ->. Qed.

Lemma split_on_none c s : ~ In c s -> split_on c s = [s].
Proof. intros H. by apply split_if_none, eqb_not_in. Qed.

Lemma split_on_app c s t : ~ In c s -> split_on c (s ++ c :: t) = s :: split_on c t.
Proof. intros H. apply split_if_app; [by apply eqb_not_in|apply Z.eqb_refl]. Qed.

(** A string without spaces at its ends. *)
Definition trimmed (s : jsstr) : Prop :=
  match s with [] => True | x :: _ => is_space x = false end /\ match rev s with [] => True | x :: _ => is_space x = false end.

#[global] Instance trimmed_dec s : Decision (trimmed s).
Proof. unfold trimmed. destruct s, (rev _); apply _. Defined.

Lemma trim_start_id s : match s with [] => True | x :: _ => is_space x = false end -> trim_start s = s.
Proof. destruct s as [|x s]; [done|]. cbn. by intros ->. Qed.

Lemma trim_trimmed s : trimmed s -> trim s = s.
Proof. intros [H1 H2]. unfold trim. rewrite (trim_start_id s), (trim_start_id (rev s)) by done. apply rev_involutive. Qed.

(** ** Encoding *)

Lemma to_scalars_app s : wf_utf16 s = true -> forall t, to_scalars (s ++ t) = to_scalars s ++ to_scalars t.
Proof.
  remember (length s) as n eqn:Hn. revert s Hn. induction n as [n IH] using lt_wf_ind. intros [|h s] Hn Hw t; [done|].
  cbn [wf_utf16] in Hw. cbn [to_scalars app length] in *. destruct (is_high h) eqn:Eh.
  - destruct s as [|l s]; [done|]. apply andb_true_iff in Hw as [Hl Hw]. cbn [app]. rewrite Hl.
    rewrite (IH (length s)) by (done || cbn [length] in *; lia). done.
  - rewrite !andb_true_iff, negb_true_iff in Hw. destruct Hw as [[[Hl _] _] Hw]. rewrite Hl.
    rewrite (IH (length s)) by (done || lia). done.
Qed.

Lemma utf8_encode_app s t : wf_utf16 s = true -> utf8_encode (s ++ t) = utf8_encode s ++ utf8_encode t.
Proof. intros H. unfold utf8_encode. by rewrite to_scalars_app, map_app, concat_app. Qed.

Definition ascii (s : jsstr) : Prop := Forall (fun c => 0 <= c < 128) s.

#[global] Instance ascii_dec s : Decision (ascii s).
Proof. unfold ascii. apply _. Defined.

Lemma ascii_wf s : ascii s -> wf_utf16 s = true.
Proof.
  induction 1 as [|c s Hc _ IH]; [done|]. cbn [wf_utf16]. unfold is_high, is_low.
  replace (55296 <=? c) with false by lia. replace (56320 <=? c) with false by lia.
  replace (0 <=? c) with true by lia. replace (c <? 65536) with true by lia. cbn [andb negb]. exact IH.
Qed.

Lemma ascii_wf_str s : ascii s -> wf_str s.
Proof. intros H. split; [by apply ascii_wf|]. destruct H as [|c s Hc]; [done|]. cbn. unfold BOM. intros [= ->]. lia. Qed.

Lemma utf8_encode_ascii s : ascii s -> utf8_encode s = s.
Proof.
  induction 1 as [|c s Hc _ IH]; [done|]. unfold utf8_encode in *. cbn [to_scalars]. unfold is_high, is_low.
  replace (55296 <=? c) with false by lia. replace (56320 <=? c) with false by lia. cbn [andb map concat]. rewrite IH.
  unfold utf8_of_scalar. by rewrite (proj2 (Z.ltb_lt _ _)) by lia.
Qed.

Lemma wf_utf16_app s : forall t, wf_utf16 s = true -> wf_utf16 t = true -> wf_utf16 (s ++ t) = true.
Proof.
  remember (length s) as n eqn:Hn. revert s Hn. induction n as [n IH] using lt_wf_ind. intros [|h s] Hn t Hs Ht; [done|].
  cbn [wf_utf16 app] in *. destruct (is_high h).
  - destruct s as [|l s]; [done|]. cbn [app]. apply andb_true_iff in Hs as [-> Hs]. cbn [andb].
    apply (IH (length s)); (done || cbn [length] in *; lia).
  - rewrite !andb_true_iff in *. destruct Hs as [Hc Hs]. split; [done|]. apply (IH (length s)); (done || cbn [length] in *; lia).
Qed.

(** A byte below 128 in the encoding is a character of the string. *)
Lemma utf8_scalar_low c b : scalar c -> In b (utf8_of_scalar c) -> b < 128 -> c = b.
Proof.
  unfold scalar, utf8_of_scalar. intros Hc. repeat case_match; bools; cbn [In];
    intros Hb Hlt; repeat destruct Hb as [Hb|Hb]; try done; try lia; exfalso; subst b; dmlia.
Qed.

Lemma to_scalars_low s : wf_utf16 s = true -> forall c, c < 128 -> In c (to_scalars s) -> In c s.
Proof.
  remember (length s) as n eqn:Hn. revert s Hn. induction n as [n IH] using lt_wf_ind. intros [|h s] Hn Hw c Hc; [done|].
  cbn [wf_utf16 to_scalars length] in *. unfold is_high, is_low in *. destruct ((55296 <=? h) && (h <=? 56319)) eqn:Eh.
  - destruct s as [|l s]; [done|]. apply andb_true_iff in Hw as [Hl Hw]. rewrite Hl. cbn [In].
    intros [E|Hin]; [bools; lia|]. right. right. apply (IH (length s)); (done || cbn [length] in *; lia).
  - rewrite !andb_true_iff, negb_true_iff in Hw. destruct Hw as [[[Hl _] _] Hw]. rewrite Hl. cbn [In].
    intros [E|Hin]; [by left|]. right. apply (IH (length s)); (done || lia).
Qed.

Lemma utf8_encode_low s b : wf_utf16 s = true -> b < 128 -> In b (utf8_encode s) -> In b s.
Proof.
  intros Hw Hb. destruct (wf_utf16_scalars s Hw) as [F _]. unfold utf8_encode. intros Hin.
  apply in_concat in Hin as (l & Hl & Hin). apply in_map_iff in Hl as (c & <- & Hc).
  rewrite List.Forall_forall in F. apply to_scalars_low; [done..|]. by rewrite <- (utf8_scalar_low c b (F c Hc) Hin Hb).
Qed.
