(* ===== verification/GitPkt.v ===== *)
(** * GitPkt: pkt-line framing (packages/rngit/src/pktline.js)

    The frames of git's smart protocol, read and written, and the slices in
    which a body is handed on. *)

From S2P Require Import Prelude Encoding MsgPack.
#[local] Open Scope Z_scope.

Definition FLUSH : bytes := [48; 48; 48; 48].

(** [HEX.charCodeAt((length >> k) & 0xf)] for the four digits. *)
Definition pkt_header (length : Z) : bytes :=
  map (fun k => hex_digit (js_and (js_shr length k) 15)) [12; 8; 4; 0].

Definition encodePktLine (body : bytes) : result bytes :=
  if 65535 <? zlen body + 4 then Throw (JsError "pkt-line payload too long (max 65531 bytes)")
  else Ok (pkt_header (zlen body + 4) ++ body).

(** [/^[0-9a-fA-F]{4}$/] and [Number.parseInt(header, 16)]. *)
Definition header_value (h : bytes) : option Z :=
  match h with
  | [a; b; c; d] =>
      match hex_val a, hex_val b, hex_val c, hex_val d with
      | Some _, Some _, Some _, Some _ => hex_prefix None h
      | _, _, _, _ => None
      end
  | _ => None
  end.

(** The loop from what is left of the data; each round takes four bytes at
    least, so that [fuel] is not used up when it is the length. *)
Fixpoint pkt_lines (fuel : nat) (data : bytes) : dec (list (option bytes)) :=
  if zlen data <? 4 then
    match data with
    | [] => dret []
    | _ => dthrow (JsError "Trailing garbage after pkt-line stream")
    end
  else
    match fuel with
    | O => None
    | S fuel =>
        match header_value (take 4 data) with
        | None => dthrow (JsError "Invalid pkt-line length header at offset")
        | Some length =>
            if length =? 0 then dbind (pkt_lines fuel (drop 4 data)) (fun lines => dret (None :: lines)) else
            if (length <? 4) || (zlen data <? length) then dthrow (JsError "Truncated pkt-line at offset") else
            dbind (pkt_lines fuel (drop (Z.to_nat length) data)) (fun lines =>
            dret (Some (slice 4 (Z.to_nat length) data) :: lines))
        end
    end.

Definition decodePktLines (data : bytes) : dec (list (option bytes)) := pkt_lines (length data) data.

(** [for (i = 0; i < data.length; i += size)]: what is left from [i] on. *)
Fixpoint chunks_from (fuel size : nat) (data : bytes) : list bytes :=
  match fuel, data with
  | S fuel, _ :: _ => take size data :: chunks_from fuel size (drop size data)
  | _, _ => []
  end.

Definition chunkBytes (data : bytes) (size : nat) : list bytes :=
  match data with [] => [[]] | _ => chunks_from (length data) size data end.

(** What the iterator yields. *)
Definition asyncIteratorFromBytes (data : bytes) (size : nat) : list bytes := chunks_from (length data) size data.

(** ** Lemmas *)

Lemma hex_val_digit d : 0 <= d < 16 -> hex_val (hex_digit d) = Some d.
Proof.
  intros Hd. assert (H : In d (map Z.of_nat (seq 0 16))).
  { apply in_map_iff. exists (Z.to_nat d). split; [lia|]. apply in_seq. lia. }
  cbn in H. repeat (destruct H as [<-|H]; [reflexivity|]). destruct H.
Qed.

Lemma pkt_digit n k : 0 <= n < 65536 -> 0 <= k <= 12 -> js_and (js_shr n k) 15 = (n / 2 ^ k) mod 16.
Proof.
  intros Hn Hk. unfold js_and, js_shr. rewrite (int32_small n), Z.shiftr_div_pow2 by lia.
  assert (0 <= n / 2 ^ k <= n) by (split; [apply Z.div_pos; lia|apply Z.div_le_upper_bound; nia]).
  rewrite int32_small by lia. change (int32 15) with (2 ^ 4 - 1). by rewrite land_mask.
Qed.

Lemma length_pkt_header n : length (pkt_header n) = 4%nat.
Proof. done. Qed.

Lemma header_value_spec n : 0 <= n < 65536 -> header_value (pkt_header n) = Some n.
Proof.
  intros Hn. unfold pkt_header. cbn [map]. rewrite !pkt_digit by lia.
  pose proof (Z.mod_pos_bound (n / 2 ^ 12) 16 ltac:(lia)). pose proof (Z.mod_pos_bound (n / 2 ^ 8) 16 ltac:(lia)).
  pose proof (Z.mod_pos_bound (n / 2 ^ 4) 16 ltac:(lia)). pose proof (Z.mod_pos_bound (n / 2 ^ 0) 16 ltac:(lia)).
  unfold header_value. cbn [hex_prefix]. rewrite !hex_val_digit by done. cbn [hex_prefix default]. unfold id. f_equal.
  change (2 ^ 12) with (16 * 16 * 16). change (2 ^ 8) with (16 * 16). change (2 ^ 4) with 16. change (2 ^ 0) with 1.
  rewrite <- !Z.div_div, Z.div_1_r by lia.
  pose proof (Z.div_mod n 16 ltac:(lia)). pose proof (Z.div_mod (n / 16) 16 ltac:(lia)).
  pose proof (Z.div_mod (n / 16 / 16) 16 ltac:(lia)).
  assert (0 <= n / 16 / 16 / 16 < 16) by (split; [repeat apply Z.div_pos|repeat apply Z.div_lt_upper_bound]; lia).
  rewrite (Z.mod_small (n / 16 / 16 / 16)) by lia. lia.
Qed.

(** A line of the protocol, and how it is written. *)
Definition pkt_ok (l : option bytes) : Prop :=
  match l with Some b => zlen b <= 65531 | None => True end.

#[global] Instance pkt_ok_dec l : Decision (pkt_ok l).
Proof. destruct l; apply _. Defined.

Definition pkt_frame (l : option bytes) : bytes :=
  match l with Some b => pkt_header (zlen b + 4) ++ b | None => FLUSH end.

Lemma encodePktLine_frame b : zlen b <= 65531 -> encodePktLine b = Ok (pkt_frame (Some b)).
Proof. intros H. unfold encodePktLine. by rewrite (proj2 (Z.ltb_ge _ _)) by lia. Qed.

Lemma pkt_lines_nil fuel : pkt_lines fuel [] = dret [].
Proof. by destruct fuel. Qed.

Lemma pkt_lines_frames ls : Forall pkt_ok ls -> forall fuel, (length (concat (map pkt_frame ls)) <= fuel)%nat ->
  pkt_lines fuel (concat (map pkt_frame ls)) = dret ls.
Proof.
  induction 1 as [|l ls Hl _ IH]; intros fuel Hf; cbn [map concat] in *; [apply pkt_lines_nil|].
  set (rest := concat (map pkt_frame ls)) in *. rewrite length_app in Hf.
  assert (H4 : (4 <= length (pkt_frame l))%nat) by (destruct l; cbn [pkt_frame]; [rewrite length_app, length_pkt_header; lia|done]).
  destruct fuel as [|fuel]; [lia|]. cbn [pkt_lines].
  rewrite (proj2 (Z.ltb_ge _ _)) by (unfold zlen; rewrite length_app; lia). specialize (IH fuel ltac:(lia)).
  destruct l as [b|]; cbn [pkt_frame pkt_ok] in *.
  - pose proof (zlen_nonneg b). rewrite <- app_assoc.
    rewrite (take_app_length' (pkt_header _)), header_value_spec by (done || lia).
    rewrite (proj2 (Z.eqb_neq _ _)), (proj2 (Z.ltb_ge _ 4)) by lia. cbn [orb].
    assert (Hn : Z.to_nat (zlen b + 4) = (4 + length b)%nat) by (unfold zlen; lia).
    rewrite (proj2 (Z.ltb_ge _ _)) by (rewrite !zlen_app; pose proof (zlen_nonneg rest); change (zlen (pkt_header (zlen b + 4))) with 4; lia).
    rewrite Hn. replace (drop (4 + length b) _) with rest; cycle 1.
    { symmetry. rewrite app_assoc. apply drop_app_length'. by rewrite length_app. }
    rewrite IH. cbn [dbind dret]. do 4 f_equal. unfold slice.
    change (drop 4 (pkt_header (zlen b + 4) ++ b ++ rest)) with (b ++ rest). apply take_app_length'. lia.
  - unfold FLUSH. cbn [app take drop]. change (header_value [48; 48; 48; 48]) with (Some 0). cbn [Z.eqb]. by rewrite drop_0, IH.
Qed.

(** a stream of pkt-lines and flush packets is decoded to exactly its
    payloads. *)
Theorem pkt_roundtrip (ls : list (option bytes)) (Hls : Forall pkt_ok ls) :
  decodePktLines (concat (map pkt_frame ls)) = dret ls.
Proof. apply pkt_lines_frames; done. Qed.

Lemma pkt_roundtrip_witness : decodePktLines ([48; 48; 48; 54; 104; 105] ++ FLUSH) = dret [Some [104; 105]; None].
Proof.
  apply (pkt_roundtrip [Some [104; 105]; None]). apply (bool_decide_unpack _). vm_compute. exact I.
Defined.

Lemma pkt_lines_total fuel : forall data, (length data <= fuel)%nat -> pkt_lines fuel data <> None.
Proof.
  induction fuel as [|fuel IH]; intros data Hl; cbn [pkt_lines].
  - destruct data; [done|cbn in Hl; lia].
  - destruct (zlen data <? 4) eqn:E4; [by destruct data|]. bools. unfold zlen in E4.
    destruct (header_value (take 4 data)) as [n|]; [|done]. destruct (n =? 0) eqn:E0; bools.
    + destruct (pkt_lines fuel (drop 4 data)) as [[|]|] eqn:E; [done..|]. by apply IH in E; [|rewrite length_drop; lia].
    + destruct (n <? 4) eqn:En; [done|]. cbn [orb]. destruct (zlen data <? n); [done|]. bools.
      destruct (pkt_lines fuel (drop (Z.to_nat n) data)) as [[|]|] eqn:E; [done..|].
      by apply IH in E; [|rewrite length_drop; lia].
Qed.

Lemma decodePktLines_total data : decodePktLines data <> None.
Proof. by apply pkt_lines_total. Qed.

Lemma chunks_concat size data fuel : (0 < size)%nat -> (length data <= fuel)%nat -> concat (chunks_from fuel size data) = data.
Proof.
  intros Hs. revert data. induction fuel as [|fuel IH]; intros [|b data] Hl; cbn [length] in Hl; try done; [lia|].
  cbn [chunks_from concat]. rewrite IH by (rewrite length_drop; cbn; lia). apply take_drop.
Qed.

Lemma chunks_bound size data fuel : Forall (fun c => (length c <= size)%nat) (chunks_from fuel size data).
Proof.
  revert data. induction fuel as [|fuel IH]; intros [|b data]; cbn [chunks_from]; constructor; [rewrite length_take; lia|apply IH].
Qed.

Lemma chunkBytes_concat data size : (0 < size)%nat -> concat (chunkBytes data size) = data.
Proof. intros Hs. unfold chunkBytes. destruct data; [done|]. by apply chunks_concat. Qed.

Lemma chunkBytes_bound data size : Forall (fun c => (length c <= size)%nat) (chunkBytes data size).
Proof. unfold chunkBytes. destruct data; [repeat constructor; cbn; lia|]. apply chunks_bound. Qed.
