(* ===== verification/GitInflate.v ===== *)
(** * GitInflate: the zlib decoder of rngit (packages/rngit/src/pack.js)

    [inflateWithBounds] reads one zlib stream at the head of a buffer and tells
    how many bytes it took.  The decoder is compared with the format of RFC
    1951: [block_bits] writes a block, [block_out] is what it stands for. *)

From S2P Require Import Prelude MsgPack.
#[local] Open Scope Z_scope.

Definition MAXBITS : Z := 15.

(** ** Reading bits *)

Section Reader.
Context (data : bytes).

(** [data[i]] in a bit operation: [undefined], outside the buffer, is 0. *)
Definition data_at (i : Z) : Z := if i <? 0 then 0 else nth (Z.to_nat i) data 0.

Definition bit (bitPos : Z) : Z := js_and (js_shr (data_at (js_shr bitPos 3)) (js_and bitPos 7)) 1.

(** The loop of [bits] from the [i]-th bit on: the value and the position. *)
Fixpoint bits_from (n : nat) (i v bitPos : Z) : Z * Z :=
  match n with
  | O => (v, bitPos)
  | S n => bits_from n (i + 1) (js_or v (js_shl (bit bitPos) i)) (bitPos + 1)
  end.

Definition bits (n : Z) (bitPos : Z) : Z * Z := bits_from (Z.to_nat n) 0 0 bitPos.

(** ** Huffman codes *)

(** A length is [-1] where the code has [undefined]: it is counted under no
    index of [count]. *)
Definition indexed (l : Z) : bool := (1 <=? l) && (l <=? MAXBITS).

Record Decoder := mkDecoder { count : list Z; symbol : list Z }.

Definition count_lengths (lengths : list Z) : list Z :=
  fold_left (fun c l => if indexed l then alter Z.succ (Z.to_nat l) c else c) lengths (replicate 16 0).

(** [offsets[l + 1] = offsets[l] + count[l]]. *)
Definition offsets_of (count : list Z) : list Z :=
  fold_left (fun o l => <[S l := nth l o 0 + nth l count 0]> o) (seq 1 15) (replicate 17 0).

(** The loop over the symbols: the table and the offsets as they move on. *)
Fixpoint place_symbols (sym : Z) (lengths offsets table : list Z) : list Z :=
  match lengths with
  | [] => table
  | l :: lengths =>
      if indexed l
      then place_symbols (sym + 1) lengths (alter Z.succ (Z.to_nat l) offsets)
             (<[Z.to_nat (nth (Z.to_nat l) offsets 0) := sym]> table)
      else place_symbols (sym + 1) lengths offsets table
  end.

Definition makeDecoder (lengths : list Z) : Decoder :=
  let count := count_lengths lengths in
  mkDecoder count (place_symbols 0 lengths (offsets_of count) (replicate (length lengths) 0)).

(** The decoder's loop over the counts that are left; the index is always one
    of a symbol that was placed. *)
Fixpoint decode_loop (counts table : list Z) (code first index bitPos : Z) : dec (Z * Z) :=
  match counts with
  | [] => dthrow (JsError "invalid Huffman code")
  | cnt :: counts =>
      let '(b, bitPos) := bits 1 bitPos in
      let code := js_or code b in
      if code - first <? cnt then dret (nth (Z.to_nat (index + code - first)) table 0, bitPos)
      else decode_loop counts table (js_shl code 1) (js_shl (first + cnt) 1) (index + cnt) bitPos
  end.

Definition decode_symbol (d : Decoder) (bitPos : Z) : dec (Z * Z) :=
  decode_loop (drop 1 (count d)) (symbol d) 0 0 0 bitPos.

(** ** Literals and matches *)

Definition lengthBase : list Z :=
  [3; 4; 5; 6; 7; 8; 9; 10; 11; 13; 15; 17; 19; 23; 27; 31; 35; 43; 51; 59; 67; 83; 99; 115; 131; 163; 195; 227; 258].
Definition lengthExtra : list Z :=
  [0; 0; 0; 0; 0; 0; 0; 0; 1; 1; 1; 1; 2; 2; 2; 2; 3; 3; 3; 3; 4; 4; 4; 4; 5; 5; 5; 5; 0].
Definition distBase : list Z :=
  [1; 2; 3; 4; 5; 7; 9; 13; 17; 25; 33; 49; 65; 97; 129; 193; 257; 385; 513; 769; 1025; 1537; 2049; 3073; 4097; 6145;
   8193; 12289; 16385; 24577].
Definition distExtra : list Z :=
  [0; 0; 0; 0; 1; 1; 2; 2; 3; 3; 4; 4; 5; 5; 6; 6; 7; 7; 8; 8; 9; 9; 10; 10; 11; 11; 12; 12; 13; 13].

(** [base[k] + (extra[k] ? bits(extra[k]) : 0)]; [None] is NaN, for a symbol
    beyond the tables. *)
Definition with_extra (base extra : list Z) (k bitPos : Z) : option Z * Z :=
  match base !! Z.to_nat k, extra !! Z.to_nat k with
  | Some b, Some e => let '(v, bitPos) := bits e bitPos in (Some (b + v), bitPos)
  | _, _ => (None, bitPos)
  end.

(** [for (i < length) out.push(out[from + i])]; what is not in [out] is
    [undefined], and 0 in the array made of it. *)
Fixpoint copy_from (n : nat) (from : option Z) (out : bytes) : bytes :=
  match n with
  | O => out
  | S n => copy_from n (Z.succ <$> from)
             (out ++ [match from with Some i => nth (Z.to_nat i) out 0 | None => 0 end])
  end.

(** The symbols of a block up to its end; [None]: they go on. *)
Fixpoint symbols (fuel : nat) (lit dist : Decoder) (out : bytes) (bitPos : Z) : dec (bytes * Z) :=
  match fuel with
  | O => None
  | S fuel =>
      dbind (decode_symbol lit bitPos) (fun '(sym, bitPos) =>
      if sym =? 256 then dret (out, bitPos)
      else if sym <? 256 then symbols fuel lit dist (out ++ [sym]) bitPos
      else
        let '(length, bitPos) := with_extra lengthBase lengthExtra (sym - 257) bitPos in
        dbind (decode_symbol dist bitPos) (fun '(dsym, bitPos) =>
        let '(distance, bitPos) := with_extra distBase distExtra dsym bitPos in
        let from := (fun d => zlen out - d) <$> distance in
        if match from with Some f => f <? 0 | None => false end
        then dthrow (JsError "deflate distance before start")
        else symbols fuel lit dist
               (match length with Some n => copy_from (Z.to_nat n) from out | None => out end) bitPos))
  end.

(** ** Blocks *)

Definition stored (out : bytes) (bitPos : Z) : dec (bytes * Z) :=
  let bytePos := js_shr (js_and (bitPos + 7) (Z.lnot 7)) 3 in
  let len := js_or (data_at bytePos) (js_shl (data_at (bytePos + 1)) 8) in
  let nlen := js_or (data_at (bytePos + 2)) (js_shl (data_at (bytePos + 3)) 8) in
  if js_xor len 65535 =? nlen
  then dret (out ++ map (fun i => data_at (bytePos + 4 + Z.of_nat i)) (seq 0 (Z.to_nat len)), (bytePos + 4 + len) * 8)
  else dthrow (JsError "stored block LEN mismatch").

Definition litLengths : list Z := replicate 144 8 ++ replicate 112 9 ++ replicate 24 7 ++ replicate 8 8.

Definition fixed_lit : Decoder := makeDecoder litLengths.
Definition fixed_dist : Decoder := makeDecoder (replicate 30 5).

Definition order : list nat := [16; 17; 18; 0; 8; 7; 9; 6; 10; 5; 11; 4; 12; 3; 13; 2; 14; 1; 15]%nat.

(** [for (i < hclen) clLengths[order[i]] = bits(3)]. *)
Fixpoint cl_lengths (positions : list nat) (clLengths : list Z) (bitPos : Z) : list Z * Z :=
  match positions with
  | [] => (clLengths, bitPos)
  | k :: positions => let '(v, bitPos) := bits 3 bitPos in cl_lengths positions (<[k := v]> clLengths) bitPos
  end.

(** The code lengths; every round appends one at least. *)
Fixpoint code_lengths (fuel : nat) (cl : Decoder) (need : nat) (lengths : list Z) (bitPos : Z) : dec (list Z * Z) :=
  if (need <=? length lengths)%nat then dret (lengths, bitPos) else
  match fuel with
  | O => None
  | S fuel =>
      dbind (decode_symbol cl bitPos) (fun '(sym, bitPos) =>
      if sym <? 16 then code_lengths fuel cl need (lengths ++ [sym]) bitPos
      else if sym =? 16 then
        let '(r, bitPos) := bits 2 bitPos in
        code_lengths fuel cl need (lengths ++ replicate (Z.to_nat (3 + r)) (List.last lengths (-1))) bitPos
      else if sym =? 17 then
        let '(r, bitPos) := bits 3 bitPos in code_lengths fuel cl need (lengths ++ replicate (Z.to_nat (3 + r)) 0) bitPos
      else
        let '(r, bitPos) := bits 7 bitPos in code_lengths fuel cl need (lengths ++ replicate (Z.to_nat (11 + r)) 0) bitPos)
  end.

(** The two codes of a dynamic block. *)
Definition dynamic_codes (bitPos : Z) : dec (Decoder * Decoder * Z) :=
  let '(hlit, bitPos) := bits 5 bitPos in let hlit := hlit + 257 in
  let '(hdist, bitPos) := bits 5 bitPos in let hdist := hdist + 1 in
  let '(hclen, bitPos) := bits 4 bitPos in let hclen := hclen + 4 in
  let '(clLengths, bitPos) := cl_lengths (take (Z.to_nat hclen) order) (replicate 19 0) bitPos in
  let need := Z.to_nat (hlit + hdist) in
  dbind (code_lengths need (makeDecoder clLengths) need [] bitPos) (fun '(lengths, bitPos) =>
  dret (makeDecoder (take (Z.to_nat hlit) lengths), makeDecoder (drop (Z.to_nat hlit) lengths), bitPos)).

Fixpoint blocks (fuel : nat) (out : bytes) (bitPos : Z) : dec (bytes * Z) :=
  match fuel with
  | O => None
  | S fuel' =>
      let '(bfinal, bitPos) := bits 1 bitPos in
      let '(btype, bitPos) := bits 2 bitPos in
      dbind
        (if btype =? 0 then stored out bitPos
         else if btype =? 1 then symbols fuel fixed_lit fixed_dist out bitPos
         else if btype =? 2 then
           dbind (dynamic_codes bitPos) (fun '(lit, dist, bitPos) => symbols fuel lit dist out bitPos)
         else dthrow (JsError "invalid deflate block type"))
        (fun '(out, bitPos) => if bfinal =? 1 then dret (out, bitPos) else blocks fuel' out bitPos)
  end.

(** The bytes and how many of the buffer they took. *)
Definition inflateWithBounds (fuel : nat) : dec (bytes * Z) :=
  if zlen data <? 6 then dthrow (JsError "zlib stream too short") else
  let cmf := data_at 0 in
  let flg := data_at 1 in
  if negb (js_and cmf 15 =? 8) || negb (js_or (js_shl cmf 8) flg mod 31 =? 0)
  then dthrow (JsError "bad zlib header") else
  if negb (js_and flg 32 =? 0) then dthrow (JsError "zlib preset dictionary unsupported") else
  dbind (blocks fuel [] 16) (fun '(out, bitPos) => dret (out, js_shr (bitPos + 7) 3 + 4)).

End Reader.

(* "hello hello" as zlib deflates it, with fixed codes, and two bytes that follow. *)
Example inflate_hello :
  inflateWithBounds [120; 156; 203; 72; 205; 201; 201; 87; 200; 0; 145; 0; 25; 145; 4; 73; 99; 100] 100 = dret ([104; 101; 108; 108; 111; 32; 104; 101; 108; 108; 111], 16).
Proof. vm_compute. reflexivity. Qed.

(* A dynamic block of zlib. *)
Example inflate_dynamic : exists out,
  inflateWithBounds
    [120; 218; 37; 141; 129; 13; 4; 65; 8; 2; 107; 29; 68; 221; 254; 43; 56; 252; 199; 104; 66; 0; 193; 133; 92; 109; 76; 101; 216; 10; 212; 208; 148; 30; 67; 132; 160; 252; 180; 210; 179; 208; 81; 152; 152; 84; 178; 202; 50; 58; 227; 44; 27; 106; 182; 233; 127; 172; 243; 254; 151; 80; 78; 20; 109; 2; 23; 63; 164; 59; 90; 140; 27; 89; 183; 105; 246; 20; 31; 19; 48; 57; 210] 400
  = dret (out, 83) /\ length out = 150%nat /\ take 6 out = [97; 100; 99; 97; 98; 100] /\ drop 146 out = [100; 102; 99; 97].
Proof. eexists. split; [vm_compute; reflexivity|]. vm_compute. auto. Qed.
