(* ===== verification/GitInflateSpec.v ===== *)
(** * GitInflateSpec: the format of RFC 1950/1951 and the decoder of rngit

    A stream is written by a list of [block]s; [inflate_correct] says that the
    decoder of [GitInflate] reads every such stream as what it stands for. *)

From S2P Require Import Prelude MsgPack GitInflate.
#[local] Open Scope Z_scope.

(** ** Bit strings *)

(** [n] bits of [v], least significant first; the value of such a string. *)
Fixpoint lsb (n : nat) (v : Z) : list bool :=
  match n with O => [] | S n => Z.testbit v 0 :: lsb n (v / 2) end.

Fixpoint le_val (bs : list bool) : Z :=
  match bs with [] => 0 | b :: bs => Z.b2z b + 2 * le_val bs end.

(** [n] bits of [v], most significant first, as Huffman codes are written. *)
Fixpoint msb (n : nat) (v : Z) : list bool :=
  match n with O => [] | S n => Z.testbit v (Z.of_nat n) :: msb n v end.

(** Bits packed into bytes from the low end, the last one padded with 0. *)
Fixpoint pack_n (k : nat) (bs : list bool) : bytes :=
  match k with O => [] | S k => le_val (take 8 bs) :: pack_n k (drop 8 bs) end.

Definition pack_bits (bs : list bool) : bytes := pack_n ((length bs + 7) / 8) bs.

(** ** Canonical codes (RFC 1951, 3.2.2) *)

Definition bl_count (lens : list Z) (l : nat) : Z := zlen (filter (fun x => x = Z.of_nat l) lens).

Fixpoint first_code (lens : list Z) (l : nat) : Z :=
  match l with
  | O | 1%nat => 0
  | S l => 2 * (first_code lens l + bl_count lens l)
  end.

Definition huff_len (lens : list Z) (s : Z) : nat := Z.to_nat (nth (Z.to_nat s) lens 0).

(** The code of a symbol: those of its length are numbered in order. *)
Definition huff_code (lens : list Z) (s : Z) : Z :=
  first_code lens (huff_len lens s) + bl_count (take (Z.to_nat s) lens) (huff_len lens s).

Definition huff (lens : list Z) (s : Z) : list bool := msb (huff_len lens s) (huff_code lens s).

(** The symbol has a code, and it fits in its length. *)
Definition has_code (lens : list Z) (s : Z) : Prop :=
  0 <= s < zlen lens /\ 1 <= nth (Z.to_nat s) lens 0 <= 15 /\ huff_code lens s < 2 ^ nth (Z.to_nat s) lens 0.

#[global] Instance has_code_dec lens s : Decision (has_code lens s).
Proof. unfold has_code. apply _. Defined.

(** ** Tokens (3.2.5) *)

Inductive token := Lit (b : Z) | Match (li le di de : Z).

Definition match_len (li le : Z) : Z := nth (Z.to_nat li) lengthBase 0 + le.
Definition match_dist (di de : Z) : Z := nth (Z.to_nat di) distBase 0 + de.
Definition len_bits (li : Z) : nat := Z.to_nat (nth (Z.to_nat li) lengthExtra 0).
Definition dist_bits (di : Z) : nat := Z.to_nat (nth (Z.to_nat di) distExtra 0).

Definition token_bits (lit dist : list Z) (t : token) : list bool :=
  match t with
  | Lit b => huff lit b
  | Match li le di de => huff lit (257 + li) ++ lsb (len_bits li) le ++ huff dist di ++ lsb (dist_bits di) de
  end.

Definition token_ok (lit dist : list Z) (t : token) : Prop :=
  match t with
  | Lit b => 0 <= b < 256 /\ has_code lit b
  | Match li le di de =>
      0 <= li < 29 /\ 0 <= le < 2 ^ Z.of_nat (len_bits li) /\ has_code lit (257 + li)
      /\ 0 <= di < 30 /\ 0 <= de < 2 ^ Z.of_nat (dist_bits di) /\ has_code dist di
  end.

#[global] Instance token_ok_dec lit dist t : Decision (token_ok lit dist t).
Proof. destruct t; unfold token_ok; apply _. Defined.

(** A match repeats the last [d] bytes as often as its length asks. *)
Definition lz_copy (out : bytes) (d n : nat) : bytes :=
  out ++ map (fun i => nth (length out - d + i mod d) out 0) (seq 0 n).

(** What the tokens stand for; no match reaches before the start. *)
Fixpoint tokens_out (out : bytes) (ts : list token) : option bytes :=
  match ts with
  | [] => Some out
  | Lit b :: ts => tokens_out (out ++ [b]) ts
  | Match li le di de :: ts =>
      if zlen out <? match_dist di de then None
      else tokens_out (lz_copy out (Z.to_nat (match_dist di de)) (Z.to_nat (match_len li le))) ts
  end.

(** The tokens and the end of the block. *)
Definition body_bits (lit dist : list Z) (ts : list token) : list bool :=
  concat (map (token_bits lit dist) ts) ++ huff lit 256.

Definition body_ok (lit dist : list Z) (ts : list token) : Prop :=
  Forall (token_ok lit dist) ts /\ has_code lit 256.

(** ** Code lengths (3.2.7) *)

Inductive cl_item := CLen (l : Z) | CRep (k : Z) | CZero3 (k : Z) | CZero7 (k : Z).

Definition cl_out (lens : list Z) (c : cl_item) : list Z :=
  match c with
  | CLen l => lens ++ [l]
  | CRep k => lens ++ replicate (Z.to_nat k) (List.last lens (-1))
  | CZero3 k | CZero7 k => lens ++ replicate (Z.to_nat k) 0
  end.

Definition cl_bits (cl : list Z) (c : cl_item) : list bool :=
  match c with
  | CLen l => huff cl l
  | CRep k => huff cl 16 ++ lsb 2 (k - 3)
  | CZero3 k => huff cl 17 ++ lsb 3 (k - 3)
  | CZero7 k => huff cl 18 ++ lsb 7 (k - 11)
  end.

Definition cl_ok (cl : list Z) (c : cl_item) : Prop :=
  match c with
  | CLen l => 0 <= l < 16 /\ has_code cl l
  | CRep k => 3 <= k <= 6 /\ has_code cl 16
  | CZero3 k => 3 <= k <= 10 /\ has_code cl 17
  | CZero7 k => 11 <= k <= 138 /\ has_code cl 18
  end.

#[global] Instance cl_ok_dec cl c : Decision (cl_ok cl c).
Proof. destruct c; unfold cl_ok; apply _. Defined.

(** The header of a dynamic block: the lengths of the code length code, in
    their order, the items, and the number of literal codes. *)
Record dynamic := mkDynamic { cl_sent : list Z; items : list cl_item; hlit : Z }.

Definition cl_lens (d : dynamic) : list Z :=
  fold_left (fun t '(k, l) => <[k := l]> t) (zip order (cl_sent d)) (replicate 19 0).

Definition all_lens (d : dynamic) : list Z := fold_left cl_out (items d) [].
Definition lit_lens (d : dynamic) : list Z := take (Z.to_nat (hlit d)) (all_lens d).
Definition dist_lens (d : dynamic) : list Z := drop (Z.to_nat (hlit d)) (all_lens d).

Definition dynamic_bits (d : dynamic) : list bool :=
  lsb 5 (hlit d - 257) ++ lsb 5 (zlen (dist_lens d) - 1) ++ lsb 4 (zlen (cl_sent d) - 4)
  ++ concat (map (lsb 3) (cl_sent d)) ++ concat (map (cl_bits (cl_lens d)) (items d)).

Definition dynamic_ok (d : dynamic) : Prop :=
  4 <= zlen (cl_sent d) <= 19 /\ match items d with CRep _ :: _ => False | _ => True end /\ Forall (fun l => 0 <= l < 8) (cl_sent d)
  /\ Forall (cl_ok (cl_lens d)) (items d)
  /\ 257 <= hlit d <= 288 /\ 1 <= zlen (dist_lens d) <= 32.

(** ** Blocks (3.2.3) *)

Inductive block :=
| BStored (pad : list bool) (bs : bytes)
| BFixed (ts : list token)
| BDynamic (d : dynamic) (ts : list token).

(** [pos] is the position of the block; what a stored block skips to the next
    byte is arbitrary. *)
Definition block_bits (b : block) : list bool :=
  match b with
  | BStored pad bs =>
      lsb 2 0 ++ pad ++ lsb 16 (zlen bs) ++ lsb 16 (65535 - zlen bs) ++ concat (map (lsb 8) bs)
  | BFixed ts => lsb 2 1 ++ body_bits litLengths (replicate 30 5) ts
  | BDynamic d ts => lsb 2 2 ++ dynamic_bits d ++ body_bits (lit_lens d) (dist_lens d) ts
  end.

Definition block_ok (pos : Z) (b : block) : Prop :=
  match b with
  | BStored pad bs => (length pad < 8)%nat /\ (pos + 3 + zlen pad) mod 8 = 0 /\ zlen bs < 2 ^ 16 /\ wf_bytes bs
  | BFixed ts => body_ok litLengths (replicate 30 5) ts
  | BDynamic d ts => dynamic_ok d /\ body_ok (lit_lens d) (dist_lens d) ts
  end.

Definition block_out (out : bytes) (b : block) : option bytes :=
  match b with
  | BStored _ bs => Some (out ++ bs)
  | BFixed ts | BDynamic _ ts => tokens_out out ts
  end.

(** The bits of a stream: the last block is marked. *)
Fixpoint stream_bits (bs : list block) : list bool :=
  match bs with
  | [] => []
  | b :: bs => bool_decide (bs = []) :: block_bits b ++ stream_bits bs
  end.

Fixpoint stream_ok (pos : Z) (bs : list block) : Prop :=
  match bs with
  | [] => True
  | b :: bs => block_ok pos b /\ stream_ok (pos + 1 + zlen (block_bits b)) bs
  end.

Fixpoint stream_out (out : bytes) (bs : list block) : option bytes :=
  match bs with
  | [] => Some out
  | b :: bs => match block_out out b with Some out => stream_out out bs | None => None end
  end.

(** A zlib stream of the bytes [x]: header, blocks, checksum. *)
Definition zlib_stream (z x : bytes) : Prop :=
  exists cmf flg bs sum, z = cmf :: flg :: pack_bits (stream_bits bs) ++ sum
    /\ is_byte cmf /\ is_byte flg /\ cmf mod 16 = 8 /\ (cmf * 256 + flg) mod 31 = 0 /\ Z.testbit flg 5 = false
    /\ length sum = 4%nat /\ wf_bytes sum /\ bs <> [] /\ stream_ok 16 bs /\ stream_out [] bs = Some x.

(** ** The bits of a buffer *)

(** The bits [bs] stand in the buffer from position [p] on. *)
Definition reads (data : bytes) (p : Z) (bs : list bool) : Prop :=
  forall i b, bs !! i = Some b -> bit data (p + Z.of_nat i) = Z.b2z b.

Lemma reads_app data p l1 l2 : reads data p (l1 ++ l2) <-> reads data p l1 /\ reads data (p + zlen l1) l2.
Proof.
  unfold reads, zlen. split.
  - intros H. split; intros i b Hi.
    + apply H. by apply lookup_app_l_Some.
    + rewrite <- Z.add_assoc, <- Nat2Z.inj_add. apply H. rewrite lookup_app_r by lia. rewrite <- Hi. f_equal. lia.
  - intros [H1 H2] i b Hi. apply lookup_app_Some in Hi as [Hi|[Hl Hi]]; [by apply H1|].
    rewrite <- (H2 _ _ Hi). f_equal. lia.
Qed.

Lemma reads_cons data p b bs : reads data p (b :: bs) <-> bit data p = Z.b2z b /\ reads data (p + 1) bs.
Proof.
  split.
  - intros H. split; [specialize (H 0%nat b eq_refl); by rewrite Z.add_0_r in H|].
    intros i x Hi. rewrite <- (H (S i) x Hi). f_equal. lia.
  - intros [H1 H2] [|i] x Hi; cbn in Hi; [injection Hi as <-; by rewrite Z.add_0_r|].
    rewrite <- (H2 i x Hi). f_equal. lia.
Qed.

Lemma data_at_nat data i : 0 <= i -> data_at data i = nth (Z.to_nat i) data 0.
Proof. intros. unfold data_at. by rewrite (proj2 (Z.ltb_ge _ _)). Qed.

Lemma bit_eq data p : 0 <= p < 2 ^ 31 -> is_byte (data_at data (p / 8)) ->
  bit data p = Z.b2z (Z.testbit (data_at data (p / 8)) (p mod 8)).
Proof.
  intros Hp Hb. unfold bit, js_shr, js_and. rewrite !(int32_small p) by lia.
  change (int32 7) with (2 ^ 3 - 1). change (int32 1) with (2 ^ 1 - 1).
  rewrite !land_mask, (Z.shiftr_div_pow2 p) by lia. change (2 ^ 3) with 8.
  rewrite (int32_byte (data_at data (p / 8))) by done. set (b := data_at data (p / 8)) in *. set (k := p mod 8).
  assert (0 <= k < 8) by (apply Z.mod_pos_bound; lia).
  rewrite Z.shiftr_div_pow2 by lia. unfold is_byte in Hb.
  assert (0 <= b / 2 ^ k <= b) by (split; [apply Z.div_pos; lia|apply Z.div_le_upper_bound; nia]).
  rewrite int32_small by lia. change (2 ^ 1) with 2.
  by rewrite Z.testbit_spec' by lia.
Qed.

(** ** Packed bits *)

Lemma le_val_bound bs : 0 <= le_val bs < 2 ^ zlen bs.
Proof.
  induction bs as [|b bs IH]; [done|]. rewrite zlen_cons, Z.pow_add_r by (lia || apply zlen_nonneg).
  cbn [le_val]. destruct b; cbn [Z.b2z]; lia.
Qed.

Lemma testbit_le_val bs i : (i < length bs)%nat -> Z.testbit (le_val bs) (Z.of_nat i) = nth i bs false.
Proof.
  revert i. induction bs as [|b bs IH]; intros [|i] Hi; cbn [length] in Hi; try lia; cbn [le_val nth].
  - rewrite Z.add_comm. apply Z.testbit_0_r.
  - rewrite Nat2Z.inj_succ, Z.add_comm, Z.testbit_succ_r by lia. apply IH. lia.
Qed.

Lemma pack_n_nth k bs j : (j < k)%nat -> nth j (pack_n k bs) 0 = le_val (take 8 (drop (8 * j) bs)).
Proof.
  revert bs j. induction k as [|k IH]; intros bs j Hj; [lia|]. destruct j as [|j]; cbn [pack_n nth]; [done|].
  rewrite IH by lia. rewrite drop_drop. do 3 f_equal. lia.
Qed.

Lemma length_pack_n k bs : length (pack_n k bs) = k.
Proof. revert bs. induction k; intros; cbn; auto. Qed.

Lemma length_pack bs : zlen (pack_bits bs) = (zlen bs + 7) / 8.
Proof. unfold pack_bits, zlen. rewrite length_pack_n, Nat2Z.inj_div. do 2 f_equal. lia. Qed.

Lemma nth_lookup_Some {A} (l : list A) i d x : l !! i = Some x -> nth i l d = x.
Proof. intros H. apply nth_lookup_Some with (d := d) in H. done. Qed.

Lemma nth_nat_div hd (l tl : bytes) i : (i / 8 < length l)%nat ->
  data_at (hd ++ l ++ tl) ((8 * zlen hd + Z.of_nat i) / 8) = nth (i / 8) l 0.
Proof.
  intros Hi. replace (8 * zlen hd + Z.of_nat i) with (Z.of_nat i + zlen hd * 8) by lia.
  rewrite Z.div_add by lia. change 8 with (Z.of_nat 8). rewrite <- Nat2Z.inj_div. unfold zlen.
  rewrite data_at_nat by lia. replace (Z.to_nat _) with (length hd + i / 8)%nat by lia.
  rewrite app_nth2 by lia. rewrite app_nth1 by lia. f_equal. lia.
Qed.

(** What is packed behind whole bytes is read from there. *)
Lemma reads_packed hd bs tl : 8 * zlen hd + zlen bs < 2 ^ 31 ->
  reads (hd ++ pack_bits bs ++ tl) (8 * zlen hd) bs.
Proof.
  intros Hlen i b Hi. pose proof (lookup_lt_Some _ _ _ Hi) as Hlt. pose proof (zlen_nonneg hd).
  pose proof (Nat.div_mod_eq i 8) as Hdm. pose proof (Nat.mod_upper_bound i 8 ltac:(lia)) as Hm.
  pose proof (Nat.div_mod_eq (length bs + 7) 8) as Hdm2. pose proof (Nat.mod_upper_bound (length bs + 7) 8 ltac:(lia)).
  assert (Hk : (i / 8 < (length bs + 7) / 8)%nat) by lia.
  unfold zlen in *. assert (Hat : data_at (hd ++ pack_bits bs ++ tl) ((8 * zlen hd + Z.of_nat i) / 8)
    = le_val (take 8 (drop (8 * (i / 8)) bs))).
  { rewrite nth_nat_div by (unfold pack_bits; by rewrite length_pack_n). unfold pack_bits. by rewrite pack_n_nth. }
  assert (Hl8 : (length (take 8 (drop (8 * (i / 8)) bs)) <= 8)%nat) by (rewrite length_take; lia).
  rewrite bit_eq; fold (zlen hd) in *; rewrite ?Hat; [|unfold zlen in *; lia|].
  - f_equal. replace ((8 * zlen hd + Z.of_nat i) mod 8) with (Z.of_nat (i mod 8)).
    + rewrite testbit_le_val by (rewrite length_take, length_drop; lia).
      apply nth_lookup_Some. rewrite lookup_take_lt by lia. rewrite lookup_drop, <- Hi. f_equal. lia.
    + rewrite Nat2Z.inj_mod. replace (8 * zlen hd + Z.of_nat i) with (Z.of_nat i + zlen hd * 8) by lia.
      by rewrite Z.mod_add by lia.
  - pose proof (le_val_bound (take 8 (drop (8 * (i / 8)) bs))) as Hb.
    assert (2 ^ zlen (take 8 (drop (8 * (i / 8)) bs)) <= 2 ^ 8) by (apply Z.pow_le_mono_r; unfold zlen; lia).
    unfold is_byte. lia.
Qed.

(** ** Numbers *)

Lemma bits_from_reads data bs : forall i v p, reads data p bs -> 0 <= i -> i + zlen bs <= 30 -> 0 <= v < 2 ^ i ->
  bits_from data (length bs) i v p = (v + 2 ^ i * le_val bs, p + zlen bs).
Proof.
  induction bs as [|b bs IH]; intros i v p Hr Hi Hn Hv; cbn [length bits_from le_val].
  - unfold zlen. cbn. f_equal; lia.
  - apply reads_cons in Hr as [Hb Hr]. rewrite zlen_cons in *. pose proof (zlen_nonneg bs).
    assert (Hp : 0 < 2 ^ i <= 2 ^ 29) by (split; [lia|apply Z.pow_le_mono_r; lia]).
    assert (Hor : js_or v (js_shl (bit data p) i) = v + Z.b2z b * 2 ^ i).
    { rewrite Hb. unfold js_or, js_shl. rewrite (int32_small (Z.b2z b)) by (destruct b; cbn; lia).
      rewrite Z.shiftl_mul_pow2 by lia.
      rewrite !(int32_small (Z.b2z b * 2 ^ i)), (int32_small v) by (destruct b; cbn [Z.b2z]; lia).
      rewrite Z.lor_comm, lor_add_pow2 by lia. lia. }
    rewrite Hor, IH; [|done|lia|lia|].
    + rewrite Z.pow_add_r by lia. f_equal; lia.
    + rewrite Z.pow_add_r by lia. destruct b; cbn [Z.b2z]; lia.
Qed.

Lemma bits_reads data n p bs : reads data p bs -> zlen bs = n -> n <= 30 -> bits data n p = (le_val bs, p + n).
Proof.
  intros Hr <- Hn. unfold bits. replace (Z.to_nat (zlen bs)) with (length bs) by (unfold zlen; lia).
  rewrite bits_from_reads by (done || lia). f_equal. lia.
Qed.

Lemma length_lsb n v : length (lsb n v) = n.
Proof. revert v. induction n; intros; cbn; auto. Qed.

Lemma length_msb n v : length (msb n v) = n.
Proof. induction n; cbn; auto. Qed.

Lemma le_val_lsb n v : 0 <= v < 2 ^ Z.of_nat n -> le_val (lsb n v) = v.
Proof.
  revert v. induction n as [|n IH]; intros v Hv; cbn [lsb le_val]; [cbn in Hv; lia|].
  rewrite Nat2Z.inj_succ, Z.pow_succ_r in Hv by lia.
  rewrite IH by (split; [apply Z.div_pos; lia|apply Z.div_lt_upper_bound; lia]).
  rewrite Z.bit0_mod. pose proof (Z.div_mod v 2). lia.
Qed.

(** A number of [n] bits is read back. *)
Lemma bits_lsb data n v p : reads data p (lsb n v) -> (n <= 30)%nat -> 0 <= v < 2 ^ Z.of_nat n ->
  bits data (Z.of_nat n) p = (v, p + Z.of_nat n).
Proof.
  intros Hr Hn Hv. rewrite (bits_reads _ _ _ _ Hr); [by rewrite le_val_lsb|unfold zlen; by rewrite length_lsb|lia].
Qed.

Lemma bits_1 data p b bs : reads data p (b :: bs) -> bits data 1 p = (Z.b2z b, p + 1).
Proof.
  intros Hr. apply reads_cons in Hr as [Hb _].
  rewrite (bits_reads data 1 p [b]); [by destruct b| |done|done]. apply reads_cons. split; [done|].
  intros i x Hi. by rewrite lookup_nil in Hi.
Qed.

(** ** The tables of a code *)

Lemma bl_count_nonneg lens l : 0 <= bl_count lens l.
Proof. apply zlen_nonneg. Qed.

Lemma bl_count_app l1 l2 l : bl_count (l1 ++ l2) l = bl_count l1 l + bl_count l2 l.
Proof. unfold bl_count. by rewrite filter_app, zlen_app. Qed.

Lemma bl_count_one x l : bl_count [x] l = if bool_decide (x = Z.of_nat l) then 1 else 0.
Proof. unfold bl_count. rewrite filter_cons. by case_decide; case_bool_decide. Qed.

Lemma bl_count_le l1 l2 l : bl_count l1 l <= bl_count (l1 ++ l2) l.
Proof. rewrite bl_count_app. pose proof (bl_count_nonneg l2 l). lia. Qed.

(** Where the symbols of length [l] begin in the table. *)
Fixpoint base (lens : list Z) (l : nat) : Z :=
  match l with
  | O | 1%nat => 0
  | S l => base lens l + bl_count lens l
  end.

Lemma base_S lens l : (1 <= l)%nat -> base lens (S l) = base lens l + bl_count lens l.
Proof. destruct l; [lia|done]. Qed.

Lemma base_mono lens l l' : (1 <= l)%nat -> (l < l')%nat -> base lens l + bl_count lens l <= base lens l'.
Proof.
  intros Hl. induction 1 as [|l' Hlt IH]; [by rewrite base_S|].
  rewrite base_S by lia. pose proof (bl_count_nonneg lens l'). lia.
Qed.

Lemma base_nonneg lens l : 0 <= base lens l.
Proof.
  induction l as [|[|l] IH]; [done|done|]. rewrite base_S by lia. pose proof (bl_count_nonneg lens (S l)). lia.
Qed.

Lemma base_le lens l : base lens l <= zlen lens.
Proof.
  assert (H : base lens l <= zlen (filter (fun x => x < Z.of_nat l) lens)).
  { induction l as [|[|l] IH]; [apply zlen_nonneg|apply zlen_nonneg|]. rewrite base_S by lia.
    assert (zlen (filter (fun x => x < Z.of_nat (S (S l))) lens)
      = zlen (filter (fun x => x < Z.of_nat (S l)) lens) + bl_count lens (S l)); [|lia].
    unfold bl_count. clear IH. induction lens as [|x lens IH]; [done|]. rewrite !filter_cons.
    repeat case_decide; rewrite ?zlen_cons; lia. }
  assert (zlen (filter (fun x => x < Z.of_nat l) lens) <= zlen lens); [|lia].
  unfold zlen. apply Nat2Z.inj_le, length_filter.
Qed.

Lemma nth_alter {A} (f : A -> A) i j l (d : A) : (i < length l)%nat ->
  nth j (alter f i l) d = if decide (i = j) then f (nth i l d) else nth j l d.
Proof.
  intros Hi. rewrite !nth_lookup. case_decide as E.
  - subst j. rewrite list_lookup_alter_eq. destruct (lookup_lt_is_Some_2 l i Hi) as [x ->]. done.
  - by rewrite list_lookup_alter_ne.
Qed.

Lemma nth_insert {A} i j (x : A) l d : (i < length l)%nat ->
  nth j (<[i := x]> l) d = if decide (i = j) then x else nth j l d.
Proof.
  intros Hi. rewrite !nth_lookup. case_decide as E.
  - subst j. by rewrite list_lookup_insert_eq.
  - by rewrite list_lookup_insert_ne.
Qed.

Lemma count_lengths_spec lens :
  length (count_lengths lens) = 16%nat
  /\ forall l, (l <= 15)%nat -> nth l (count_lengths lens) 0 = if (1 <=? l)%nat then bl_count lens l else 0.
Proof.
  unfold count_lengths, indexed, MAXBITS. induction lens as [|x lens [IH1 IH2]] using rev_ind.
  - split; [done|]. intros l Hl. do 16 (destruct l as [|l]; [done|]). lia.
  - rewrite fold_left_app. cbn [fold_left].
    destruct ((1 <=? x) && (x <=? 15)) eqn:Ei; bools.
    + split; [by rewrite length_alter|]. intros l Hl. rewrite nth_alter by lia. rewrite bl_count_app, bl_count_one.
      destruct (decide (Z.to_nat x = l)) as [E|E].
      * rewrite IH2 by lia. subst l. rewrite (proj2 (Nat.leb_le _ _)) by lia.
        rewrite bool_decide_eq_true_2 by lia. lia.
      * rewrite IH2 by done. case_match; bools; [|done]. rewrite bool_decide_eq_false_2 by lia. lia.
    + split; [done|]. intros l Hl. rewrite IH2, bl_count_app, bl_count_one by done. case_match; bools; [|done].
      rewrite bool_decide_eq_false_2; [lia|]. intros ->. apply andb_false_iff in Ei as [E|E]; bools; lia.
Qed.

Lemma offsets_of_spec lens :
  length (offsets_of (count_lengths lens)) = 17%nat
  /\ forall l, (1 <= l <= 15)%nat -> nth l (offsets_of (count_lengths lens)) 0 = base lens l.
Proof.
  pose proof (count_lengths_spec lens) as [_ Hc]. set (c := count_lengths lens) in *.
  assert (H : forall k, (k <= 15)%nat ->
    let o := fold_left (fun o l => <[S l := nth l o 0 + nth l c 0]> o) (seq 1 k) (replicate 17 0) in
    length o = 17%nat /\ forall l, (1 <= l <= S k)%nat -> nth l o 0 = base lens l).
  { induction k as [|k IH]; intros Hk; [split; [done|]; intros l Hl; by replace l with 1%nat by lia|].
    rewrite seq_S, fold_left_app. cbn [fold_left]. destruct (IH ltac:(lia)) as [H1 H2].
    set (o := fold_left _ (seq 1 k) _) in *. split; [by rewrite length_insert|]. intros l Hl.
    rewrite nth_insert by lia. case_decide as E; [|apply H2; lia]. subst l. cbn [Nat.add].
    rewrite H2, Hc, (base_S lens (S k)) by lia. reflexivity. }
  destruct (H 15%nat ltac:(lia)) as [H1 H2]. split; [done|]. intros l Hl. apply H2. lia.
Qed.

(** Every symbol stands where its length begins, after those before it. *)
Definition placed (full table : list Z) (s : nat) : Prop :=
  forall l, nth s full 0 = Z.of_nat l -> (1 <= l <= 15)%nat ->
    nth (Z.to_nat (base full l + bl_count (take s full) l)) table 0 = Z.of_nat s.

Lemma rank_lt full s l : nth s full 0 = Z.of_nat l -> (s < length full)%nat ->
  bl_count (take s full) l < bl_count full l.
Proof.
  intros Hs Hl. destruct (lookup_lt_is_Some_2 full s Hl) as [x Hx].
  rewrite <- (take_drop s full) at 2. rewrite bl_count_app, (drop_S _ _ _ Hx).
  change (x :: drop (S s) full) with ([x] ++ drop (S s) full). rewrite bl_count_app, bl_count_one.
  rewrite (nth_lookup_Some _ _ _ _ Hx) in Hs. rewrite bool_decide_eq_true_2 by done.
  pose proof (bl_count_nonneg (drop (S s) full) l). lia.
Qed.

Lemma place_symbols_spec suf : forall pre offsets table (full := pre ++ suf),
  length offsets = 17%nat -> length table = length full ->
  (forall l, (1 <= l <= 15)%nat -> nth l offsets 0 = base full l + bl_count pre l) ->
  (forall s, (s < length pre)%nat -> placed full table s) ->
  forall s, (s < length full)%nat -> placed full (place_symbols (zlen pre) suf offsets table) s.
Proof.
  induction suf as [|x suf IH]; intros pre offsets table full Ho Ht Hoff Hpre s Hs; cbn [place_symbols].
  { apply Hpre. subst full. rewrite app_nil_r in Hs. done. }
  assert (Hfull : full = (pre ++ [x]) ++ suf) by (subst full; by rewrite <- app_assoc).
  assert (Hpx : zlen pre + 1 = zlen (pre ++ [x])) by (rewrite zlen_app; done).
  assert (Hnth : nth (length pre) full 0 = x) by (subst full; by rewrite app_nth2, Nat.sub_diag by lia).
  assert (Htake : take (length pre) full = pre) by (subst full; apply take_app_length).
  assert (Hlenp : (length pre < length full)%nat) by (subst full; rewrite length_app; cbn; lia).
  rewrite Hpx. rewrite Hfull in *. clear full Hfull. set (full := (pre ++ [x]) ++ suf) in *.
  unfold indexed, MAXBITS. destruct ((1 <=? x) && (x <=? 15)) eqn:Ei; bools.
  - set (l0 := Z.to_nat x). assert (Hl0 : (1 <= l0 <= 15)%nat) by lia.
    assert (Hx : x = Z.of_nat l0) by lia. clearbody l0.
    assert (Hr0 : bl_count pre l0 < bl_count full l0).
    { rewrite <- Htake. apply rank_lt; [rewrite Hnth; lia|done]. }
    assert (Hpos : 0 <= base full l0 + bl_count pre l0 < zlen full).
    { pose proof (base_nonneg full l0). pose proof (bl_count_nonneg pre l0). pose proof (base_le full (S l0)).
      rewrite base_S in * by lia. lia. }
    rewrite Hoff by lia. unfold zlen in Hpos.
    apply IH; [by rewrite length_alter|by rewrite length_insert| | |done]; fold full.
    + intros l Hl. rewrite nth_alter by lia. rewrite bl_count_app, bl_count_one. case_decide as E.
      * rewrite <- E, Hoff by lia. rewrite bool_decide_eq_true_2 by lia. lia.
      * rewrite Hoff by lia. rewrite bool_decide_eq_false_2 by lia. lia.
    + intros s' Hs' l Hl Hrange. rewrite length_app in Hs'. cbn in Hs'. rewrite nth_insert by lia.
      destruct (decide (s' = length pre)) as [->|Hne].
      * rewrite Hnth in Hl. assert (l = l0) as -> by lia. rewrite Htake. case_decide; [done|congruence].
      * case_decide as E; [|apply (Hpre s'); [lia|done..]]. exfalso.
        assert (Hr : bl_count (take s' full) l < bl_count full l) by (apply rank_lt; [done|lia]).
        pose proof (base_nonneg full l). pose proof (bl_count_nonneg (take s' full) l).
        destruct (Nat.lt_trichotomy l l0) as [Hll|[->|Hll]].
        -- pose proof (base_mono full l l0 ltac:(lia) Hll). pose proof (bl_count_nonneg pre l0). lia.
        -- assert (bl_count (take s' full) l0 < bl_count pre l0); [|lia].
           rewrite <- Htake. replace (take s' full) with (take s' (take (length pre) full)) by (rewrite take_take; f_equal; lia).
           apply rank_lt; [|rewrite length_take; lia]. rewrite nth_lookup, lookup_take_lt by lia. by rewrite <- nth_lookup.
        -- pose proof (base_mono full l0 l ltac:(lia) Hll). lia.
  - apply IH; [done|done| | |done]; fold full.
    + intros l Hl. rewrite Hoff, bl_count_app, bl_count_one by done. rewrite bool_decide_eq_false_2; [lia|].
      intros ->. apply andb_false_iff in Ei as [E|E]; bools; lia.
    + intros s' Hs'. rewrite length_app in Hs'. cbn in Hs'. destruct (decide (s' = length pre)) as [->|Hne]; [|apply Hpre; lia].
      intros l Hl Hrange. rewrite Hnth in Hl. apply andb_false_iff in Ei as [E|E]; bools; lia.
Qed.

Lemma symbol_placed lens s l : (s < length lens)%nat -> nth s lens 0 = Z.of_nat l -> (1 <= l <= 15)%nat ->
  nth (Z.to_nat (base lens l + bl_count (take s lens) l)) (symbol (makeDecoder lens)) 0 = Z.of_nat s.
Proof.
  intros Hs Hn Hl. destruct (offsets_of_spec lens) as [Ho1 Ho2].
  refine (place_symbols_spec lens [] _ _ Ho1 _ _ _ s Hs l Hn Hl).
  - by rewrite length_replicate.
  - intros k Hk. rewrite Ho2 by done. change ([] ++ lens) with lens. change (bl_count [] k) with 0. lia.
  - intros k Hk. cbn in Hk. lia.
Qed.

(** ** Decoding a symbol *)

Lemma first_code_S lens l : (1 <= l)%nat -> first_code lens (S l) = 2 * (first_code lens l + bl_count lens l).
Proof. destruct l; [lia|done]. Qed.

Lemma first_code_nonneg lens l : 0 <= first_code lens l.
Proof.
  induction l as [|[|l] IH]; [done|done|]. rewrite first_code_S by lia. pose proof (bl_count_nonneg lens (S l)). lia.
Qed.

(** A shorter code is below every prefix of a longer one. *)
Lemma first_code_prefix lens l m : (1 <= l)%nat ->
  2 ^ Z.of_nat (S m) * (first_code lens l + bl_count lens l) <= first_code lens (l + S m).
Proof.
  intros Hl. induction m as [|m IH].
  - rewrite Nat.add_1_r, first_code_S by lia. change (2 ^ Z.of_nat 1) with 2. lia.
  - rewrite Nat.add_succ_r, first_code_S by lia. rewrite Nat2Z.inj_succ, Z.pow_succ_r by lia.
    pose proof (bl_count_nonneg lens (l + S m)). nia.
Qed.

Lemma decode_loop_reads data lens table c l : (l <= 15)%nat -> first_code lens l <= c < 2 ^ Z.of_nat l ->
  c - first_code lens l < bl_count lens l -> forall m len p, (1 <= len)%nat -> l = (len + m)%nat ->
  reads data p (msb (S m) c) ->
  decode_loop data (drop len (count (makeDecoder lens))) table (c / 2 ^ Z.of_nat (S m) * 2)
    (first_code lens len) (base lens len) p
  = dret (nth (Z.to_nat (base lens l + c - first_code lens l)) table 0, p + Z.of_nat (S m)).
Proof.
  intros Hl Hc Hj. induction m as [|m IH]; intros len p Hlen -> Hr.
  all: destruct (count_lengths_spec lens) as [Hcl Hcn].
  all: change (count (makeDecoder lens)) with (count_lengths lens).
  all: destruct (lookup_lt_is_Some_2 (count_lengths lens) len ltac:(lia)) as [cnt Hcnt].
  all: rewrite (drop_S _ _ _ Hcnt); cbn [decode_loop].
  all: assert (Hcv : cnt = bl_count lens len) by
    (rewrite <- (nth_lookup_Some _ _ 0 _ Hcnt), Hcn by lia; by rewrite (proj2 (Nat.leb_le 1 len)) by lia); subst cnt.
  all: cbn [msb] in Hr; rewrite (bits_1 _ _ _ _ Hr).
  all: assert (Hc0 : 0 <= c) by (destruct Hc; etransitivity; [apply first_code_nonneg|eassumption]).
  all: pose proof (first_code_nonneg lens len) as Hf0; pose proof (bl_count_nonneg lens len) as Hb0.
  - rewrite Nat.add_0_r in *. assert (Hp : 2 ^ Z.of_nat len <= 2 ^ 15) by (apply Z.pow_le_mono_r; lia).
    assert (Hcode : js_or (c / 2 ^ Z.of_nat 1 * 2) (Z.b2z (Z.testbit c (Z.of_nat 0))) = c).
    { change (2 ^ Z.of_nat 1) with 2. change (Z.of_nat 0) with 0. unfold js_or. rewrite Z.bit0_mod.
      pose proof (Z.div_mod c 2 ltac:(lia)). pose proof (Z.mod_pos_bound c 2 ltac:(lia)).
      rewrite !int32_small by lia. change (c / 2 * 2) with (c / 2 * 2 ^ 1). rewrite lor_add_pow2 by lia. lia. }
    rewrite Hcode, (proj2 (Z.ltb_lt _ _)) by lia. done.
  - assert (Hp : 2 ^ Z.of_nat (len + S m) <= 2 ^ 15) by (apply Z.pow_le_mono_r; lia).
    set (P := 2 ^ Z.of_nat (S m)) in *. assert (HP : 0 < P) by (unfold P; lia).
    assert (HP2 : 2 ^ Z.of_nat (S (S m)) = P * 2) by (unfold P; rewrite (Nat2Z.inj_succ (S m)), Z.pow_succ_r by lia; lia).
    assert (Hcode : js_or (c / 2 ^ Z.of_nat (S (S m)) * 2) (Z.b2z (Z.testbit c (Z.of_nat (S m)))) = c / P).
    { rewrite HP2, <- Z.div_div by lia. rewrite Z.testbit_spec' by lia. fold P. unfold js_or.
      pose proof (Z.div_mod (c / P) 2 ltac:(lia)). pose proof (Z.mod_pos_bound (c / P) 2 ltac:(lia)).
      assert (0 <= c / P <= c) by (split; [apply Z.div_pos; lia|apply Z.div_le_upper_bound; nia]).
      rewrite !int32_small by lia. change (c / P / 2 * 2) with (c / P / 2 * 2 ^ 1). rewrite lor_add_pow2 by lia. lia. }
    rewrite Hcode. pose proof (first_code_prefix lens len m Hlen) as Hpre. fold P in Hpre.
    assert (Hge : first_code lens len + bl_count lens len <= c / P).
    { apply Z.div_le_lower_bound; [lia|]. destruct Hc. lia. }
    assert (Hle : c / P < 2 ^ 15) by (apply Z.div_lt_upper_bound; nia).
    rewrite (proj2 (Z.ltb_ge _ _)) by lia. apply reads_cons in Hr as [_ Hr].
    unfold js_shl. rewrite !Z.shiftl_mul_pow2 by lia. change (2 ^ 1) with 2.
    rewrite (int32_small (c / P)), (int32_small (first_code lens len + _)) by lia. rewrite !int32_small by lia.
    specialize (IH (S len) (p + 1) ltac:(lia) ltac:(lia) Hr). rewrite first_code_S, base_S in IH by lia.
    fold P in IH. change (count (makeDecoder lens)) with (count_lengths lens) in IH.
    rewrite (Z.mul_comm (_ + _) 2), IH. f_equal. f_equal. lia.
Qed.

(** The decoder reads the code of a symbol as that symbol. *)
Lemma decode_reads data lens s p : has_code lens s -> reads data p (huff lens s) ->
  decode_symbol data (makeDecoder lens) p = dret (s, p + zlen (huff lens s)).
Proof.
  intros (Hs & Hl & Hfit) Hr. unfold huff in *. set (l := huff_len lens s) in *.
  assert (Hn : nth (Z.to_nat s) lens 0 = Z.of_nat l) by (unfold l, huff_len; lia).
  unfold zlen in Hs |- *. rewrite length_msb. rewrite Hn in Hl, Hfit.
  pose proof (rank_lt lens (Z.to_nat s) l Hn ltac:(lia)) as Hrank.
  pose proof (bl_count_nonneg (take (Z.to_nat s) lens) l) as Hr0.
  set (c := huff_code lens s) in *. assert (Hc : c = first_code lens l + bl_count (take (Z.to_nat s) lens) l) by done.
  pose proof (symbol_placed lens (Z.to_nat s) l ltac:(lia) Hn ltac:(lia)) as Hsym.
  pose proof (first_code_nonneg lens l) as Hf0.
  unfold decode_symbol. destruct l as [|m] eqn:El; [lia|].
  pose proof (decode_loop_reads data lens (symbol (makeDecoder lens)) c (S m) ltac:(lia) ltac:(lia) ltac:(lia)
    m 1%nat p ltac:(lia) eq_refl Hr) as Hd.
  rewrite (Z.div_small c) in Hd by lia. change (first_code lens 1) with 0 in Hd. change (base lens 1) with 0 in Hd. change (0 * 2) with 0 in Hd.
  rewrite Hd. f_equal. f_equal.
  transitivity (Z.of_nat (Z.to_nat s)); [rewrite <- Hsym|lia]. do 2 f_equal. lia.
Qed.

(** ** Decoding a block *)

(** The state after reading [bs] at [p]. *)
Abbreviation after p bs := (p + zlen bs) (only parsing).

Lemma extra_reads data (base extra : list Z) k v p :
  length extra = length base -> 0 <= k < zlen base -> Forall (fun e => 0 <= e <= 13) extra ->
  0 <= v < 2 ^ Z.of_nat (Z.to_nat (nth (Z.to_nat k) extra 0)) ->
  reads data p (lsb (Z.to_nat (nth (Z.to_nat k) extra 0)) v) ->
  with_extra data base extra k p
  = (Some (nth (Z.to_nat k) base 0 + v), p + zlen (lsb (Z.to_nat (nth (Z.to_nat k) extra 0)) v)).
Proof.
  intros Hlen Hk Hall Hv Hr. unfold with_extra, zlen in *.
  destruct (lookup_lt_is_Some_2 base (Z.to_nat k) ltac:(lia)) as [b Hb].
  destruct (lookup_lt_is_Some_2 extra (Z.to_nat k) ltac:(lia)) as [e He]. rewrite Hb, He.
  rewrite (nth_lookup_Some _ _ _ _ Hb), (nth_lookup_Some _ _ _ _ He) in *.
  rewrite Forall_lookup in Hall. specialize (Hall _ _ He).
  rewrite length_lsb. rewrite <- (Z2Nat.id e) at 1 by lia. by rewrite (bits_lsb _ _ _ _ Hr ltac:(lia) Hv).
Qed.

Lemma nth_lz_copy out d j : (1 <= d <= length out)%nat ->
  nth (length out - d + j) (lz_copy out d j) 0 = nth (length out - d + j mod d) out 0.
Proof.
  intros Hd. unfold lz_copy. destruct (decide (j < d)%nat) as [Hj|Hj].
  - rewrite app_nth1 by lia. by rewrite Nat.mod_small by lia.
  - rewrite app_nth2 by lia. replace (length out - d + j - length out)%nat with (j - d)%nat by lia.
    rewrite nth_lookup, list_lookup_fmap, lookup_seq_lt by lia. cbn. do 2 f_equal.
    rewrite <- (Nat.Div0.mod_add (j - d) 1 d). f_equal. lia.
Qed.

Lemma copy_from_lz out d n : (1 <= d <= length out)%nat ->
  copy_from n (Some (zlen out - Z.of_nat d)) out = lz_copy out d n.
Proof.
  intros Hd. enough (H : forall n j, copy_from n (Some (zlen out - Z.of_nat d + Z.of_nat j)) (lz_copy out d j) = lz_copy out d (j + n)).
  { specialize (H n 0%nat). change (Z.of_nat 0) with 0 in H. cbn [Nat.add] in H. rewrite Z.add_0_r in H. rewrite <- H. f_equal. unfold lz_copy. by rewrite app_nil_r. }
  clear n. induction n as [|n IH]; intros j; cbn [copy_from]; [by rewrite Nat.add_0_r|].
  rewrite Nat.add_succ_r, <- Nat.add_succ_l, <- IH. cbn [fmap option_fmap option_map]. f_equal; [f_equal; lia|].
  unfold zlen. replace (Z.to_nat _) with (length out - d + j)%nat by lia. rewrite nth_lz_copy by done.
  unfold lz_copy. rewrite seq_S, map_app, <- app_assoc. done.
Qed.

Lemma symbols_reads data lit dist ts : forall fuel out out' p, body_ok lit dist ts -> tokens_out out ts = Some out' ->
  reads data p (body_bits lit dist ts) -> (length ts < fuel)%nat ->
  symbols data fuel (makeDecoder lit) (makeDecoder dist) out p = dret (out', after p (body_bits lit dist ts)).
Proof.
  unfold body_bits. induction ts as [|t ts IH]; intros fuel out out' p [Hts Heob] Hout Hr Hf.
  all: destruct fuel as [|fuel]; cbn [length] in Hf; [lia|]; cbn [symbols tokens_out map concat app] in *.
  - injection Hout as <-. by rewrite (decode_reads _ _ _ _ Heob Hr).
  - inv Hts. rewrite <- app_assoc in *. set (T := concat (map (token_bits lit dist) ts) ++ huff lit 256) in *.
    apply reads_app in Hr as [Ht Hr]. rewrite zlen_app, Z.add_assoc.
    destruct t as [b|li le di de]; cbn [token_bits token_ok] in *.
    + destruct H1 as [Hb Hc]. rewrite (decode_reads _ _ _ _ Hc Ht). cbn [dbind dret].
      rewrite (proj2 (Z.eqb_neq b 256)), (proj2 (Z.ltb_lt b 256)) by lia. apply IH; [done|done|done|lia].
    + destruct H1 as (Hli & Hle & Hcl & Hdi & Hde & Hcd). case_match eqn:Hd; [done|]. bools.
      unfold len_bits, dist_bits in *.
      apply reads_app in Ht as [Ht1 Ht]. apply reads_app in Ht as [Ht2 Ht]. apply reads_app in Ht as [Ht3 Ht4].
      rewrite (decode_reads _ _ _ _ Hcl Ht1). cbn [dbind dret].
      rewrite (proj2 (Z.eqb_neq _ 256)), (proj2 (Z.ltb_ge _ 256)) by lia.
      replace (257 + li - 257) with li by lia.
      rewrite (extra_reads data lengthBase lengthExtra li le _ eq_refl Hli
        ltac:(by apply (bool_decide_unpack _); vm_compute) Hle Ht2). cbn [dbind dret].
      rewrite (decode_reads _ _ _ _ Hcd Ht3). cbn [dbind dret].
      rewrite (extra_reads data distBase distExtra di de _ eq_refl Hdi
        ltac:(by apply (bool_decide_unpack _); vm_compute) Hde Ht4).
      fold (match_len li le) (match_dist di de). cbn [fmap option_fmap option_map].
      assert (Hd1 : 1 <= match_dist di de).
      { unfold match_dist. assert (Forall (fun b => 1 <= b) distBase) as Hall by (by apply (bool_decide_unpack _); vm_compute).
        destruct (lookup_lt_is_Some_2 distBase (Z.to_nat di)) as [b Hb]; [cbn; lia|].
        rewrite (nth_lookup_Some _ _ _ _ Hb). rewrite Forall_lookup in Hall. specialize (Hall _ _ Hb). lia. }
      rewrite (proj2 (Z.ltb_ge _ 0)) by lia.
      replace (zlen out - match_dist di de) with (zlen out - Z.of_nat (Z.to_nat (match_dist di de))) by lia.
      rewrite copy_from_lz by (unfold zlen in *; lia).
      rewrite !zlen_app in *. rewrite !Z.add_assoc in *. apply IH; [done|done| |lia].
      done.
Qed.

Lemma cl_lengths_reads data ls : forall ks t p, length ks = length ls -> Forall (fun l => 0 <= l < 8) ls ->
  reads data p (concat (map (lsb 3) ls)) ->
  cl_lengths data ks t p
  = (fold_left (fun t '(k, l) => <[k := l]> t) (zip ks ls) t, after p (concat (map (lsb 3) ls))).
Proof.
  induction ls as [|l ls IH]; intros [|k ks] t p Hk Hl Hr; cbn [length] in Hk; try lia; cbn [cl_lengths].
  - unfold zlen. cbn. f_equal. lia.
  - inv Hl. cbn [map concat] in *. apply reads_app in Hr as [H1' Hr].
    pose proof (bits_lsb data 3 l p H1' ltac:(lia) ltac:(cbn; lia)) as Hb. change (Z.of_nat 3) with 3 in Hb. rewrite Hb.
    rewrite (IH ks) by (done || lia). rewrite zlen_app. cbn [zip zip_with fold_left]. f_equal. unfold zlen. cbn. lia.
Qed.

Lemma cl_out_grows ls c : cl_ok [] c \/ (exists cl, cl_ok cl c) -> exists new, cl_out ls c = ls ++ new /\ (1 <= length new)%nat.
Proof.
  intros H. assert (Hk : match c with CLen _ => True | CRep k | CZero3 k | CZero7 k => 1 <= k end).
  { destruct c; [done|..]; destruct H as [H|[cl H]]; cbn in H; lia. }
  destruct c; cbn [cl_out]; eexists; (split; [done|]); rewrite ?length_replicate; cbn; lia.
Qed.

Lemma cl_fold_length cl its : forall ls, Forall (cl_ok cl) its -> (length ls + length its <= length (fold_left cl_out its ls))%nat.
Proof.
  induction its as [|c its IH]; intros ls Hok; cbn [fold_left length]; [lia|]. inv Hok.
  destruct (cl_out_grows ls c) as (new & -> & Hn); [right; eauto|]. specialize (IH (ls ++ new) H2).
  rewrite length_app in IH. lia.
Qed.

Lemma code_lengths_reads data cl its : forall fuel ls p, Forall (cl_ok cl) its ->
  reads data p (concat (map (cl_bits cl) its)) -> (length its <= fuel)%nat ->
  code_lengths data fuel (makeDecoder cl) (length (fold_left cl_out its ls)) ls p
  = dret (fold_left cl_out its ls, after p (concat (map (cl_bits cl) its))).
Proof.
  induction its as [|c its IH]; intros fuel ls p Hok Hr Hf.
  { destruct fuel; cbn [code_lengths fold_left]; rewrite Nat.leb_refl; unfold zlen; cbn; do 3 f_equal; lia. }
  pose proof (cl_fold_length cl (c :: its) ls Hok) as Hlen. cbn [length] in Hlen, Hf.
  destruct fuel as [|fuel]; [lia|]. cbn [code_lengths]. rewrite (proj2 (Nat.leb_gt _ _)) by lia.
  inv Hok. cbn [fold_left map concat] in *. apply reads_app in Hr as [Hc Hr]. rewrite zlen_app, Z.add_assoc.
  destruct c as [l|k|k|k]; cbn [cl_ok cl_bits] in *; destruct H1 as [Hk Hcode].
  - rewrite (decode_reads _ _ _ _ Hcode Hc). cbn [dbind dret]. rewrite (proj2 (Z.ltb_lt l 16)) by lia.
    apply IH; [done|done|lia].
  - apply reads_app in Hc as [Hc Hx]. rewrite (decode_reads _ _ _ _ Hcode Hc). cbn [dbind dret].
    change (16 <? 16) with false. change (16 =? 16) with true. cbn [fst].
    pose proof (bits_lsb data 2 (k - 3) _ Hx ltac:(lia) ltac:(cbn; lia)) as Hb. change (Z.of_nat 2) with 2 in Hb. rewrite Hb.
    replace (3 + (k - 3)) with k by lia. rewrite zlen_app, Z.add_assoc in *. apply IH; [done|done|lia].
  - apply reads_app in Hc as [Hc Hx]. rewrite (decode_reads _ _ _ _ Hcode Hc). cbn [dbind dret].
    change (17 <? 16) with false. change (17 =? 16) with false. change (17 =? 17) with true. cbn [fst].
    pose proof (bits_lsb data 3 (k - 3) _ Hx ltac:(lia) ltac:(cbn; lia)) as Hb. change (Z.of_nat 3) with 3 in Hb. rewrite Hb.
    replace (3 + (k - 3)) with k by lia. rewrite zlen_app, Z.add_assoc in *. apply IH; [done|done|lia].
  - apply reads_app in Hc as [Hc Hx]. rewrite (decode_reads _ _ _ _ Hcode Hc). cbn [dbind dret].
    change (18 <? 16) with false. change (18 =? 16) with false. change (18 =? 17) with false. cbn [fst].
    pose proof (bits_lsb data 7 (k - 11) _ Hx ltac:(lia) ltac:(cbn; lia)) as Hb. change (Z.of_nat 7) with 7 in Hb. rewrite Hb.
    replace (11 + (k - 11)) with k by lia. rewrite zlen_app, Z.add_assoc in *. apply IH; [done|done|lia].
Qed.

Lemma dynamic_reads data d p : dynamic_ok d -> reads data p (dynamic_bits d) ->
  dynamic_codes data p = dret (makeDecoder (lit_lens d), makeDecoder (dist_lens d), after p (dynamic_bits d)).
Proof.
  intros (Hcl & _ & Hls & Hits & Hlit & Hdist) Hr. unfold dynamic_bits in *.
  apply reads_app in Hr as [H1 Hr]. apply reads_app in Hr as [H2 Hr]. apply reads_app in Hr as [H3 Hr].
  apply reads_app in Hr as [H4 H5]. unfold dynamic_codes.
  assert (E : forall n v, zlen (lsb n v) = Z.of_nat n) by (intros; unfold zlen; by rewrite length_lsb).
  rewrite !E in *. rewrite (bits_lsb data 5 _ _ H1 ltac:(lia) ltac:(cbn; lia) : bits data 5 p = _).
  rewrite (bits_lsb data 5 _ _ H2 ltac:(lia) ltac:(cbn; lia) : bits data 5 _ = _).
  rewrite (bits_lsb data 4 _ _ H3 ltac:(lia) ltac:(cbn; lia) : bits data 4 _ = _).
  replace (hlit d - 257 + 257) with (hlit d) by lia. replace (zlen (dist_lens d) - 1 + 1) with (zlen (dist_lens d)) by lia.
  replace (zlen (cl_sent d) - 4 + 4) with (zlen (cl_sent d)) by lia.
  assert (Hlo : length (take (Z.to_nat (zlen (cl_sent d))) order) = length (cl_sent d)).
  { rewrite length_take. change (length order) with 19%nat. unfold zlen in *. lia. }
  rewrite (cl_lengths_reads data (cl_sent d)) by done.
  assert (Hz : zip (take (Z.to_nat (zlen (cl_sent d))) order) (cl_sent d) = zip order (cl_sent d)).
  { apply (zip_with_take_l' pair). unfold zlen. lia. }
  rewrite Hz. fold (cl_lens d).
  assert (Hneed : Z.to_nat (hlit d + zlen (dist_lens d)) = length (all_lens d)).
  { unfold dist_lens, zlen in *. rewrite length_drop in *. lia. }
  rewrite Hneed. unfold all_lens. pose proof (cl_fold_length _ _ [] Hits) as Hfl. cbn [length] in Hfl.
  rewrite (code_lengths_reads data (cl_lens d) (items d)) by (done || lia). cbn [dbind dret].
  fold (all_lens d) (lit_lens d) (dist_lens d). rewrite !zlen_app, !E, !Z.add_assoc. done.
Qed.

Lemma lsb_app n m v : lsb (n + m) v = lsb n v ++ lsb m (v / 2 ^ Z.of_nat n).
Proof.
  revert v. induction n as [|n IH]; intros v; [cbn; by rewrite Z.div_1_r|]. cbn [lsb Nat.add app]. rewrite IH.
  do 3 f_equal. rewrite Nat2Z.inj_succ, Z.pow_succ_r, Z.div_div by lia. done.
Qed.

Lemma lsb_testbit n v i : (i < n)%nat -> lsb n v !! i = Some (Z.testbit v (Z.of_nat i)).
Proof.
  revert v i. induction n as [|n IH]; intros v [|i] Hi; try lia; cbn [lsb lookup list_lookup]; [done|].
  rewrite IH by lia. rewrite Nat2Z.inj_succ. change (v / 2) with (v / 2 ^ 1).
  rewrite <- Z.shiftr_div_pow2, Z.shiftr_spec by lia. done.
Qed.

Lemma data_at_byte data i : wf_bytes data -> is_byte (data_at data i).
Proof.
  intros Hwf. unfold data_at. case_match; [done|]. rewrite nth_lookup. destruct (data !! _) eqn:E; [|done].
  by apply (Forall_lookup_1 _ _ _ _ Hwf E).
Qed.

(** Eight bits at a byte boundary are that byte. *)
Lemma byte_reads data q v : wf_bytes data -> is_byte v -> 0 <= q -> q mod 8 = 0 -> q < 2 ^ 31 - 8 ->
  reads data q (lsb 8 v) -> data_at data (q / 8) = v.
Proof.
  intros Hwf Hv Hq0 Hq Hlt Hr. pose proof (data_at_byte data (q / 8) Hwf) as Hb. unfold is_byte in *.
  apply Z.bits_inj'. intros n Hn. destruct (Z.lt_ge_cases n 8) as [Hn8|Hn8].
  - specialize (Hr (Z.to_nat n) _ (lsb_testbit 8 v (Z.to_nat n) ltac:(lia))). rewrite Z2Nat.id in Hr by lia.
    assert (Hdiv : (q + n) / 8 = q / 8 /\ (q + n) mod 8 = n) by dmlia. destruct Hdiv as [Hd Hm].
    rewrite bit_eq, Hd, Hm in Hr by (rewrite ?Hd; unfold is_byte; lia).
    destruct (Z.testbit (data_at _ _) n), (Z.testbit v n); cbn in Hr; congruence.
  - assert (H2 : forall x, 0 <= x < 256 -> Z.testbit x n = false); [|by rewrite !H2].
    intros x Hx. rewrite <- (Z.mod_small x (2 ^ 8)) by lia. by rewrite Z.mod_pow2_bits_high by lia.
Qed.

Lemma word_reads data q v : wf_bytes data -> 0 <= v < 2 ^ 16 -> 0 <= q -> q mod 8 = 0 -> q < 2 ^ 31 - 16 ->
  reads data q (lsb 16 v) ->
  js_or (data_at data (q / 8)) (js_shl (data_at data (q / 8 + 1)) 8) = v.
Proof.
  intros Hwf Hv Hq0 Hq Hlt Hr. change 16%nat with (8 + 8)%nat in Hr. rewrite lsb_app in Hr.
  apply reads_app in Hr as [H1 H2]. unfold zlen in H2. rewrite length_lsb in H2. change (Z.of_nat 8) with 8 in H2.
  assert (Hhi : is_byte (v / 2 ^ 8)) by (unfold is_byte; change (2 ^ 8) with 256; change (2 ^ 16) with (256 * 256) in Hv; dmlia).
  assert (E1 : lsb 8 v = lsb 8 (v mod 256)).
  { apply list_eq. intros i. destruct (Nat.lt_ge_cases i 8); [|rewrite !lookup_ge_None_2 by (rewrite length_lsb; lia); done].
    rewrite !lsb_testbit by lia. change 256 with (2 ^ 8). by rewrite Z.mod_pow2_bits_low by lia. }
  rewrite E1 in H1. rewrite (byte_reads data q (v mod 256) Hwf) by (unfold is_byte; (done || dmlia)).
  replace (q / 8 + 1) with ((q + 8) / 8) by dmlia. rewrite (byte_reads data (q + 8) _ Hwf Hhi) by (done || dmlia).
  unfold js_or, js_shl. unfold is_byte in Hhi. change (2 ^ 8) with 256 in *. pose proof (Z.mod_pos_bound v 256).
  rewrite Z.shiftl_mul_pow2 by lia. rewrite (int32_small (v mod 256)), (int32_small (v / 256)) by lia.
  rewrite !int32_small by (rewrite ?int32_small; lia).
  rewrite Z.lor_comm, (lor_add_pow2 (v / 256)) by lia. change (2 ^ 8) with 256. pose proof (Z.div_mod v 256). lia.
Qed.

Lemma bytes_reads data bs : forall q, wf_bytes data -> wf_bytes bs -> 0 <= q -> q mod 8 = 0 -> q + 8 * zlen bs < 2 ^ 31 ->
  reads data q (concat (map (lsb 8) bs)) -> map (fun i => data_at data (q / 8 + Z.of_nat i)) (seq 0 (length bs)) = bs.
Proof.
  induction bs as [|b bs IH]; intros q Hwf Hbs Hq0 Hq Hlt Hr; [done|]. inv Hbs. rewrite zlen_cons in Hlt.
  cbn [map concat] in Hr. apply reads_app in Hr as [Hb Hr]. unfold zlen in Hr. rewrite length_lsb in Hr.
  cbn [length seq map]. rewrite Z.add_0_r. pose proof (zlen_nonneg bs). f_equal; [apply byte_reads; (done || lia)|].
  rewrite <- (IH (q + 8) Hwf ltac:(done) ltac:(lia) ltac:(dmlia) ltac:(lia) Hr) at 2.
  rewrite <- fmap_S_seq, map_map. apply map_ext. intros i. f_equal. rewrite Nat2Z.inj_succ.
  replace ((q + 8) / 8) with (q / 8 + 1) by dmlia. lia.
Qed.

Lemma land_align x : 0 <= x < 2 ^ 31 -> js_and x (Z.lnot 7) = x - x mod 8.
Proof.
  intros Hx. unfold js_and. rewrite (int32_small x) by lia. change (int32 (Z.lnot 7)) with (Z.lnot (Z.ones 3)).
  rewrite <- Z.ldiff_land, Z.ldiff_ones_r, Z.shiftl_mul_pow2, Z.shiftr_div_pow2 by lia. change (2 ^ 3) with 8.
  pose proof (Z.div_mod x 8). lia.
Qed.

Lemma zlen_concat_lsb n bs : zlen (concat (map (lsb n) bs)) = Z.of_nat n * zlen bs.
Proof.
  induction bs as [|b bs IH]; [unfold zlen; cbn; lia|]. cbn [map concat]. rewrite zlen_app, zlen_cons, IH.
  unfold zlen. rewrite length_lsb. lia.
Qed.

Lemma xor_ones x : 0 <= x < 2 ^ 16 -> js_xor x 65535 = 65535 - x.
Proof.
  intros Hx. unfold js_xor. rewrite !int32_small by lia. change 65535 with (Z.ones 16).
  assert (H : x + Z.lxor x (Z.ones 16) = Z.ones 16); [|lia]. rewrite Z.add_nocarry_lxor.
  - by rewrite <- Z.lxor_assoc, Z.lxor_nilpotent, Z.lxor_0_l.
  - apply Z.bits_inj'. intros n Hn. rewrite Z.land_spec, Z.lxor_spec, Z.bits_0, Z.testbit_ones by lia.
    rewrite (proj2 (Z.leb_le 0 n)) by lia. cbn [andb]. destruct (Z.ltb_spec n 16); [by destruct (Z.testbit x n)|].
    rewrite <- (Z.mod_small x (2 ^ 16)) by lia. by rewrite Z.mod_pow2_bits_high by lia.
Qed.

Lemma stored_reads data pad bs out p (b := BStored pad bs) : wf_bytes data -> block_ok (p - 3) b -> 0 <= p ->
  p + zlen (block_bits b) < 2 ^ 31 ->
  reads data (p - 2) (block_bits b) -> stored data out p = dret (out ++ bs, p - 2 + zlen (block_bits b)).
Proof.
  intros Hwf (Hpad & Hal & Hlen & Hbs) Hp Hlt Hr. unfold b in *. cbn [block_bits block_ok] in *.
  rewrite !zlen_app, zlen_concat_lsb in *.
  assert (E : forall n v, zlen (lsb n v) = Z.of_nat n) by (intros; unfold zlen; by rewrite length_lsb).
  apply reads_app in Hr as [_ Hr]. apply reads_app in Hr as [_ Hr]. apply reads_app in Hr as [H1 Hr].
  apply reads_app in Hr as [H2 H3]. rewrite !E in *.
  pose proof (zlen_nonneg bs) as Hb0. pose proof (zlen_nonneg pad) as Hp0.
  replace (p - 3 + 3 + zlen pad) with (p + zlen pad) in Hal by lia.
  replace (p - 2 + Z.of_nat 2 + zlen pad) with (p + zlen pad) in * by lia. set (q := p + zlen pad) in *.
  assert (Hq : (p + 7) - (p + 7) mod 8 = q) by (unfold zlen in *; dmlia).
  assert (Hshr : forall x, 0 <= x < 2 ^ 31 -> js_shr x 3 = x / 8)
    by (intros; unfold js_shr; rewrite int32_small, Z.shiftr_div_pow2 by lia; done).
  unfold stored. rewrite land_align, Hq, Hshr by lia.
  rewrite (word_reads data q (zlen bs)) by (done || lia).
  replace (q / 8 + 2) with ((q + 16) / 8) by dmlia. replace (q / 8 + 3) with ((q + 16) / 8 + 1) by dmlia.
  rewrite (word_reads data (q + 16) (65535 - zlen bs)) by (done || dmlia).
  assert (Hx : js_xor (zlen bs) 65535 = 65535 - zlen bs) by (apply xor_ones; lia).
  rewrite Hx, Z.eqb_refl. f_equal. f_equal.
  - f_equal. replace (Z.to_nat (zlen bs)) with (length bs) by (unfold zlen; lia).
    replace (q / 8 + 4) with ((q + 32) / 8) by dmlia. replace (q + Z.of_nat 16 + Z.of_nat 16) with (q + 32) in H3 by lia.
    apply bytes_reads; (done || dmlia).
  - replace ((q / 8 + 4 + zlen bs) * 8) with (q + 32 + 8 * zlen bs) by dmlia. lia.
Qed.

(** ** Decoding a stream *)

Lemma dret_pos {A} (a : A) (p p' : Z) : p = p' -> dret (a, p) = dret (a, p').
Proof. by intros ->. Qed.

(** Rounds of the decoder's loops for a list of blocks. *)
Definition block_size (b : block) : nat :=
  match b with BStored _ _ => 1 | BFixed ts | BDynamic _ ts => S (S (length ts)) end.

Fixpoint stream_size (bs : list block) : nat :=
  match bs with [] => 0 | b :: bs => S (block_size b + stream_size bs) end.

Definition block_type (b : block) : Z :=
  match b with BStored _ _ => 0 | BFixed _ => 1 | BDynamic _ _ => 2 end.

Lemma block_bits_type b : exists rest, block_bits b = lsb 2 (block_type b) ++ rest.
Proof. destruct b; eexists; reflexivity. Qed.

Lemma blocks_reads data bs : forall fuel out out' p, wf_bytes data -> bs <> [] -> stream_ok p bs -> 0 <= p ->
  p + zlen (stream_bits bs) + 3 < 2 ^ 31 -> stream_out out bs = Some out' -> reads data p (stream_bits bs) ->
  (stream_size bs <= fuel)%nat -> blocks data fuel out p = dret (out', after p (stream_bits bs)).
Proof.
  induction bs as [|b bs IH]; intros fuel out out' p Hwf Hne Hok Hp Hlt Hout Hr Hf; [done|]. clear Hne.
  cbn [stream_bits stream_ok stream_out stream_size] in *. destruct Hok as [Hb Hok].
  destruct (block_out out b) as [out1|] eqn:Hbo; [|done]. rewrite !zlen_cons, !zlen_app in *.
  pose proof (bits_1 _ _ _ _ Hr) as Hfin. apply reads_cons in Hr as [_ Hr]. apply reads_app in Hr as [Hblock Hr].
  destruct (block_bits_type b) as [rest Hty]. rewrite Hty in Hblock. apply reads_app in Hblock as [Htype Hbody].
  pose proof (bits_lsb data 2 (block_type b) _ Htype ltac:(lia) ltac:(destruct b; cbn; lia)) as Ht2.
  change (Z.of_nat 2) with 2 in Ht2. destruct fuel as [|fuel]; [lia|]. cbn [blocks]. rewrite Hfin. cbn [fst snd].
  rewrite Ht2. unfold zlen in Hbody. rewrite length_lsb in Hbody. change (Z.of_nat 2) with 2 in Hbody.
  pose proof (zlen_nonneg (stream_bits bs)) as Hs0. pose proof (zlen_nonneg (block_bits b)) as Hbb0.
  assert (Hblk : (if block_type b =? 0 then stored data out (p + 1 + 2)
      else if block_type b =? 1 then symbols data (S fuel) fixed_lit fixed_dist out (p + 1 + 2)
      else if block_type b =? 2 then
        dbind (dynamic_codes data (p + 1 + 2)) (fun '(lit, dist, bitPos) => symbols data (S fuel) lit dist out bitPos)
      else dthrow (JsError "invalid deflate block type")) = dret (out1, p + 1 + zlen (block_bits b))).
  { destruct b as [pad bs0|ts|d ts]; cbn [block_type block_out block_ok block_size] in *.
    - injection Hbo as <-. change (0 =? 0) with true. cbv iota.
      rewrite (stored_reads data pad bs0 out (p + 1 + 2)); [apply dret_pos; lia|done| |lia|lia|].
      + by replace (p + 1 + 2 - 3) with p by lia.
      + replace (p + 1 + 2 - 2) with (p + 1) by lia. rewrite Hty. apply reads_app. split; [done|].
        unfold zlen. by rewrite length_lsb.
    - change (1 =? 0) with false. change (1 =? 1) with true. cbv iota. apply app_inv_head in Hty. subst rest.
      unfold fixed_lit, fixed_dist. rewrite (symbols_reads data _ _ ts _ out out1) by (done || lia).
      apply dret_pos. cbn [block_bits]. rewrite zlen_app. unfold zlen at 2. rewrite length_lsb. lia.
    - change (2 =? 0) with false. change (2 =? 1) with false. change (2 =? 2) with true. cbv iota.
      apply app_inv_head in Hty. subst rest. destruct Hb as [Hd Hbod]. apply reads_app in Hbody as [Hdb Hbody].
      rewrite (dynamic_reads data d _ Hd Hdb). cbn [dbind dret].
      rewrite (symbols_reads data _ _ ts _ out out1) by (done || lia).
      apply dret_pos. cbn [block_bits]. rewrite !zlen_app. unfold zlen at 3. rewrite length_lsb. lia. }
  rewrite Hblk. cbn [dbind dret]. destruct (decide (bs = [])) as [->|Hne].
  - rewrite bool_decide_eq_true_2 by done. cbn in Hout |- *. injection Hout as <-. apply dret_pos. unfold zlen at 3. cbn. lia.
  - rewrite bool_decide_eq_false_2 by done. change (Z.b2z false =? 1) with false. cbv iota.
    rewrite (IH fuel out1 out') by (done || lia). apply dret_pos. lia.
Qed.

(** Every round takes a bit at least. *)
Lemma body_bits_size lit dist ts : body_ok lit dist ts -> (length ts < length (body_bits lit dist ts))%nat.
Proof.
  unfold body_bits, body_ok. intros [Hts Heob].
  assert (Hh : forall lens s, has_code lens s -> (1 <= length (huff lens s))%nat).
  { intros lens s (_ & Hl & _). unfold huff, huff_len. rewrite length_msb. lia. }
  rewrite length_app. pose proof (Hh _ _ Heob). induction Hts as [|t ts Ht _ IH]; cbn [map concat length]; [lia|].
  rewrite length_app. assert (1 <= length (token_bits lit dist t))%nat; [|lia].
  destruct t; cbn [token_bits token_ok] in *; rewrite ?length_app.
  - destruct Ht as [_ Ht]. pose proof (Hh _ _ Ht). lia.
  - destruct Ht as (_ & _ & Ht & _). pose proof (Hh _ _ Ht). lia.
Qed.

Lemma stream_size_bits bs : forall p, stream_ok p bs -> (stream_size bs <= length (stream_bits bs))%nat.
Proof.
  induction bs as [|b bs IH]; intros p Hok; cbn [stream_size stream_bits length stream_ok] in *; [lia|].
  destruct Hok as [Hb Hok]. specialize (IH _ Hok). rewrite length_app.
  assert (block_size b <= length (block_bits b))%nat; [|lia].
  destruct b; cbn [block_size block_bits block_ok] in *; rewrite !length_app, ?length_lsb.
  - lia.
  - pose proof (body_bits_size _ _ _ Hb). lia.
  - pose proof (body_bits_size _ _ _ (proj2 Hb)). lia.
Qed.

Lemma pack_bits_wf bs : wf_bytes (pack_bits bs).
Proof.
  unfold pack_bits. generalize ((length bs + 7) / 8)%nat as k. intros k. revert bs.
  induction k as [|k IH]; intros bs; cbn [pack_n]; [constructor|]. constructor; [|apply IH].
  pose proof (le_val_bound (take 8 bs)) as Hb. unfold is_byte.
  assert (2 ^ zlen (take 8 bs) <= 2 ^ 8) by (apply Z.pow_le_mono_r; unfold zlen; rewrite ?length_take; lia). lia.
Qed.

(** The decoder on a stream of the format. *)
Lemma inflate_stream (z x rest : bytes) (fuel : nat) (Hz : zlib_stream z x) (Hrest : wf_bytes rest)
    (Hlen : 8 * zlen (z ++ rest) < 2 ^ 31 - 3) (Hfuel : (8 * length (z ++ rest) <= fuel)%nat) :
  inflateWithBounds (z ++ rest) fuel = dret (x, zlen z).
Proof.
  destruct Hz as (cmf & flg & bs & sum & Hz & Hcmf & Hflg & H8 & H31 & H5 & Hsum & Hswf & Hne & Hok & Hout).
  set (data := z ++ rest) in *.
  assert (Hdata : data = [cmf; flg] ++ pack_bits (stream_bits bs) ++ (sum ++ rest))
    by (unfold data; rewrite Hz; cbn [app]; by rewrite <- app_assoc).
  assert (Hwf : wf_bytes data).
  { rewrite Hdata. repeat apply wf_bytes_app; auto using pack_bits_wf with ret. }
  assert (Hzl : zlen data = 2 + (zlen (stream_bits bs) + 7) / 8 + 4 + zlen rest).
  { rewrite Hdata, !zlen_app, length_pack. unfold zlen. cbn [length]. lia. }
  pose proof (zlen_nonneg (stream_bits bs)) as Hs0. pose proof (zlen_nonneg rest) as Hr0.
  pose proof (Z.div_mod (zlen (stream_bits bs) + 7) 8 ltac:(lia)) as Hdm.
  pose proof (Z.mod_pos_bound (zlen (stream_bits bs) + 7) 8 ltac:(lia)) as Hmb.
  assert (Hr : reads data 16 (stream_bits bs)).
  { rewrite Hdata. change 16 with (8 * zlen [cmf; flg]). apply reads_packed. change (zlen [cmf; flg]) with 2. lia. }
  unfold inflateWithBounds. rewrite (proj2 (Z.ltb_ge _ 6)) by lia.
  assert (H0 : data_at data 0 = cmf) by (by rewrite Hdata). assert (H1 : data_at data 1 = flg) by (by rewrite Hdata).
  rewrite H0, H1. unfold is_byte in *.
  assert (Ha : js_and cmf 15 = 8).
  { unfold js_and. rewrite int32_small by lia. change (int32 15) with (2 ^ 4 - 1). by rewrite land_mask by lia. }
  assert (Hb : js_or (js_shl cmf 8) flg = cmf * 256 + flg).
  { unfold js_or, js_shl. rewrite (int32_small cmf), (int32_small flg), Z.shiftl_mul_pow2 by lia.
    rewrite !int32_small by (rewrite ?int32_small; lia). by rewrite lor_add_pow2 by lia. }
  assert (Hc : js_and flg 32 = 0).
  { unfold js_and. rewrite int32_small by lia. change (int32 32) with (2 ^ 5). apply Z.bits_inj'. intros n Hn.
    rewrite Z.land_spec, Z.bits_0, Z.pow2_bits_eqb by lia. destruct (Z.eqb_spec 5 n) as [<-|]; [by rewrite H5|apply andb_false_r]. }
  rewrite Ha, Hb, Hc, H31. change (8 =? 8) with true. change (0 =? 0) with true. cbn [negb orb].
  pose proof (stream_size_bits bs _ Hok) as Hsz.
  assert (Hsf : (stream_size bs <= fuel)%nat) by (unfold zlen in *; lia).
  rewrite (blocks_reads data bs fuel [] x 16 Hwf Hne Hok ltac:(lia) ltac:(lia) Hout Hr Hsf).
  cbn [dbind dret]. apply dret_pos. unfold js_shr. rewrite int32_small, Z.shiftr_div_pow2 by lia. change (2 ^ 3) with 8.
  assert (Hzz : zlen z = zlen data - zlen rest) by (unfold data; rewrite zlen_app; lia).
  rewrite Hzz, Hzl. replace (16 + zlen (stream_bits bs) + 7) with (zlen (stream_bits bs) + 7 + 2 * 8) by lia.
  rewrite Z.div_add by lia. lia.
Qed.

(** C6: The decoder reads every stream of the format of RFC 1950 and 1951 - stored,
    fixed and dynamic blocks, any code lengths, overlapping matches - at the
    head of a buffer as exactly the bytes it stands for, and tells exactly
    where it ends, whatever follows, within as many rounds as the buffer has
    bits; so a buffer begins with at most one such stream, of at most one
    meaning. *)
Theorem inflate_correct (z x rest : bytes) (fuel : nat) (Hz : zlib_stream z x) (Hrest : wf_bytes rest)
    (Hlen : 8 * zlen (z ++ rest) < 2 ^ 31 - 3) (Hfuel : (8 * length (z ++ rest) <= fuel)%nat) :
  inflateWithBounds (z ++ rest) fuel = dret (x, zlen z)
  /\ forall z' x' rest', z ++ rest = z' ++ rest' -> zlib_stream z' x' -> wf_bytes rest' -> x' = x /\ z' = z /\ rest' = rest.
Proof.
  pose proof (inflate_stream z x rest fuel Hz Hrest Hlen Hfuel) as H. split; [done|]. intros z' x' rest' E Hz' Hrest'.
  rewrite E in H, Hlen, Hfuel. rewrite (inflate_stream z' x' rest' fuel Hz' Hrest' Hlen Hfuel) in H. injection H as -> Hl.
  unfold zlen in Hl. apply app_inj_1 in E as [-> ->]; [done|lia].
Qed.

(** ** Truncated streams *)

#[global] Instance body_ok_dec lit dist ts : Decision (body_ok lit dist ts).
Proof. unfold body_ok. apply _. Defined.

#[global] Instance dynamic_ok_dec d : Decision (dynamic_ok d).
Proof. unfold dynamic_ok. assert (Decision (match items d with CRep _ :: _ => False | _ => True end)) by (repeat case_match; apply _). apply _. Defined.

#[global] Instance block_ok_dec pos b : Decision (block_ok pos b).
Proof. destruct b; unfold block_ok; apply _. Defined.

#[global] Instance stream_ok_dec pos bs : Decision (stream_ok pos bs).
Proof. revert pos. induction bs as [|b bs IH]; intros pos; cbn [stream_ok]; apply _. Defined.

(** A header with two codes of one bit, 0 for "a" and 1 for the end. *)
Definition one_bit_codes : dynamic :=
  mkDynamic [0; 0; 1; 0; 0; 0; 0; 0; 0; 0; 0; 0; 0; 0; 0; 0; 0; 1]
    [CZero7 97; CLen 1; CZero7 138; CZero7 20; CLen 1; CLen 1] 257.

(** The stream of a block with these codes, cut off after the header. *)
Definition cut_stream : bytes := [120; 156; 5; 192; 129; 0; 0; 0; 0; 0; 144; 86; 255; 19; 0].

Example cut_stream_is : cut_stream = [120; 156] ++ pack_bits (true :: lsb 2 2 ++ dynamic_bits one_bit_codes)
  /\ dynamic_ok one_bit_codes.
Proof. split; [vm_compute; reflexivity|]. apply (bool_decide_unpack _). vm_compute. exact I. Qed.

Lemma bit_beyond data p : 8 * zlen data <= p < 2 ^ 31 -> bit data p = 0.
Proof.
  intros Hp. pose proof (zlen_nonneg data). unfold bit, js_shr. rewrite (int32_small p), (Z.shiftr_div_pow2 p) by lia.
  change (2 ^ 3) with 8. unfold data_at. rewrite (proj2 (Z.ltb_ge (p / 8) 0)) by (apply Z.div_pos; lia).
  rewrite nth_overflow; [by rewrite Z.shiftr_0_l|]. unfold zlen in *.
  assert (Z.of_nat (length data) <= p / 8); [|lia]. apply Z.div_le_lower_bound; lia.
Qed.

(** A stream that is cut off inside a block is not refused: what is missing
    reads as zeros, and where the zeros are the code of a literal the decoder
    goes on, a byte of output each round. *)
Theorem truncated_never_ends (fuel : nat) (Hfuel : Z.of_nat fuel < 2 ^ 30) : inflateWithBounds cut_stream fuel = None.
Proof.
  assert (Hcodes : exists lit dist, dynamic_codes cut_stream 19 = dret (lit, dist, 114)
    /\ (exists counts, drop 1 (count lit) = 2 :: counts) /\ nth 0 (symbol lit) 0 = 97).
  { eexists _, _. split; [vm_compute; reflexivity|]. split; [eexists|]; vm_compute; reflexivity. }
  destruct Hcodes as (lit & dist & Hcodes & [counts Hcounts] & Hsym).
  assert (Hloop : forall n out p, 112 <= p -> p + Z.of_nat n < 2 ^ 31 -> symbols cut_stream n lit dist out p = None).
  { induction n as [|n IH]; intros out p Hp Hn; [done|]. cbn [symbols].
    assert (Hb : bit cut_stream p = 0).
    { destruct (Z.lt_ge_cases p 120) as [Hlt|Hge]; [|apply bit_beyond; change (zlen cut_stream) with 15; lia].
      assert (Hc : p = 112 \/ p = 113 \/ p = 114 \/ p = 115 \/ p = 116 \/ p = 117 \/ p = 118 \/ p = 119) by lia.
      repeat (destruct Hc as [->|Hc]; [reflexivity|]). by subst p. }
    assert (Hs : decode_symbol cut_stream lit p = dret (97, p + 1)).
    { unfold decode_symbol. rewrite Hcounts. cbn [decode_loop]. unfold bits. change (Z.to_nat 1) with 1%nat.
      cbn [bits_from]. rewrite Hb. change (js_or 0 (js_or 0 (js_shl 0 0)) - 0 <? 2) with true. cbv iota.
      change (Z.to_nat (0 + js_or 0 (js_or 0 (js_shl 0 0)) - 0)) with 0%nat. by rewrite Hsym. }
    rewrite Hs. cbn [dbind dret]. change (97 =? 256) with false. change (97 <? 256) with true. cbv iota.
    apply IH; lia. }
  unfold inflateWithBounds. change (zlen cut_stream <? 6) with false. change (data_at cut_stream 0) with 120.
  change (data_at cut_stream 1) with 156.
  change (negb (js_and 120 15 =? 8) || negb (js_or (js_shl 120 8) 156 mod 31 =? 0)) with false.
  change (negb (js_and 156 32 =? 0)) with false. cbv iota. destruct fuel as [|fuel]; [done|]. cbn [blocks].
  change (bits cut_stream 1 16) with (1, 17). cbv iota beta. change (bits cut_stream 2 17) with (2, 19). cbv iota beta.
  change (2 =? 0) with false. change (2 =? 1) with false. change (2 =? 2) with true. cbv iota.
  rewrite Hcodes. cbn [dbind dret]. by rewrite Hloop by lia.
Qed.

(** ** Witness *)

Definition hello_blocks : list block :=
  [BFixed (map Lit [104; 101; 108; 108; 111; 32; 104] ++ [Match 1 0 4 1])].

Definition hello_zlib : bytes := [120; 156; 203; 72; 205; 201; 201; 87; 200; 0; 145; 0; 25; 145; 4; 73].

Lemma inflate_correct_witness :
  zlib_stream hello_zlib [104; 101; 108; 108; 111; 32; 104; 101; 108; 108; 111]
  /\ inflateWithBounds (hello_zlib ++ [99; 100]) 200
     = dret ([104; 101; 108; 108; 111; 32; 104; 101; 108; 108; 111], 16).
Proof.
  assert (Hz : zlib_stream hello_zlib [104; 101; 108; 108; 111; 32; 104; 101; 108; 108; 111]).
  { exists 120, 156, hello_blocks, [25; 145; 4; 73]. split; [vm_compute; reflexivity|].
    repeat split; try (vm_compute; congruence); try (apply (bool_decide_unpack _); vm_compute; exact I). }
  split; [exact Hz|]. refine (proj1 (inflate_correct hello_zlib _ [99; 100] 200 Hz _ _ _)).
  - apply (bool_decide_unpack _). vm_compute. exact I.
  - vm_compute. reflexivity.
  - vm_compute. repeat constructor.
Defined.
