(* ===== verification/GitPack.v ===== *)
(** * GitPack: git packfiles (packages/rngit/src/pack.js)

    Reading a pack, applying deltas, resolving the objects of a pack whose
    deltas may rest on objects of the local store, and writing them out again
    as a self-contained pack. *)

From stdpp Require Import pretty.
From S2P Require Import Prelude Encoding JsMap Utf8 MsgPack Sorting GitInflate.
#[local] Open Scope Z_scope.

(** ** Object types *)

Definition COMMIT : Z := 1.
Definition TREE : Z := 2.
Definition BLOB : Z := 3.
Definition TAG : Z := 4.
Definition OFS_DELTA : Z := 6.
Definition REF_DELTA : Z := 7.

Definition TYPE_NAMES (t : Z) : option jsstr :=
  if t =? COMMIT then Some (lit "commit") else if t =? TREE then Some (lit "tree")
  else if t =? BLOB then Some (lit "blob") else if t =? TAG then Some (lit "tag") else None.

Definition typeCodes (name : jsstr) : option Z :=
  if bool_decide (name = lit "commit") then Some COMMIT else if bool_decide (name = lit "tree") then Some TREE
  else if bool_decide (name = lit "blob") then Some BLOB else if bool_decide (name = lit "tag") then Some TAG else None.

(** ** Entry headers *)

(** [a << k] takes [k] modulo 32. *)
Definition shl (a k : Z) : Z := js_shl a (k mod 32).

(** [b[cursor++]] on what is left of a buffer; [undefined] is 0 in a bit
    operation. *)
Definition next (rest : bytes) : Z * bytes := (data_at rest 0, drop 1 rest).

(** [while (byte & 0x80)]: the size, and what is left. *)
Fixpoint size_loop (rest : bytes) (byte size shift : Z) : Z * bytes :=
  if js_and byte 128 =? 0 then (size, rest) else
  match rest with
  | [] => (js_or size (shl 0 shift), [])
  | b :: rest => size_loop rest b (js_or size (shl (js_and b 127) shift)) (shift + 7)
  end.

Fixpoint distance_loop (rest : bytes) (byte distance : Z) : Z * bytes :=
  if js_and byte 128 =? 0 then (distance, rest) else
  match rest with
  | [] => (js_or (shl (distance + 1) 7) 0, [])
  | b :: rest => distance_loop rest b (js_or (shl (distance + 1) 7) (js_and b 127))
  end.

Record Header := mkHeader {
  h_type : Z;
  h_size : Z;
  h_baseOid : option jsstr;
  h_baseOffset : option Z;
  h_payload : bytes;
}.

(** The header of the entry at [offset]; [h_payload] is the pack from
    [payloadOffset] on. *)
Definition readEntryHeader (pack : bytes) (offset : Z) : Header :=
  let '(byte, rest) := next (drop (Z.to_nat offset) pack) in
  let type := js_and (js_shr byte 4) 7 in
  let '(size, rest) := size_loop rest byte (js_and byte 15) 4 in
  if type =? OFS_DELTA then
    let '(b, rest) := next rest in
    let '(distance, rest) := distance_loop rest b (js_and b 127) in
    mkHeader type size None (Some (offset - distance)) rest
  else if type =? REF_DELTA then mkHeader type size (Some (toHex (take 20 rest))) None (drop 20 rest)
  else mkHeader type size None None rest.

(** ** Packs *)

Definition readUint32 (b : bytes) (off : Z) : Z :=
  js_or (js_or (js_or (js_shl (data_at b off) 24) (js_shl (data_at b (off + 1)) 16)) (js_shl (data_at b (off + 2)) 8))
        (data_at b (off + 3)).

Record Entry := mkEntry {
  e_offset : Z;
  e_type : Z;
  e_baseOid : option jsstr;
  e_baseOffset : option Z;
  e_data : bytes;
}.

(** The loop over the entries; [fuel] is the decoder's. *)
Fixpoint parse_entries (fuel : nat) (pack : bytes) (count : nat) (offset : Z) : dec (list Entry) :=
  match count with
  | O => dret []
  | S count =>
      let h := readEntryHeader pack offset in
      dbind (inflateWithBounds (h_payload h) fuel) (fun '(data, consumed) =>
      if negb (zlen data =? h_size h) then dthrow (JsError "pack entry: inflated bytes, header says") else
      let e := mkEntry offset (h_type h) (h_baseOid h) (h_baseOffset h) data in
      dbind (parse_entries fuel pack count (zlen pack - zlen (h_payload h) + consumed)) (fun es => dret (e :: es)))
  end.

Definition parsePack (fuel : nat) (pack : bytes) : dec (list Entry) :=
  if zlen pack <? 32 then dthrow (JsError "packfile too short") else
  if negb (bytesEqual (take 4 pack) [80; 65; 67; 75]) then dthrow (JsError "bad packfile magic") else
  if negb (readUint32 pack 4 =? 2) then dthrow (JsError "unsupported pack version") else
  parse_entries fuel pack (Z.to_nat (readUint32 pack 8)) 12.

(** ** Deltas *)

(** [varint], up to [>>> 0]. *)
Fixpoint varint_loop (rest : bytes) (value shift : Z) : Z * bytes :=
  match rest with
  | [] => (value, [])
  | b :: rest =>
      let value := js_or value (shl (js_and b 127) shift) in
      if js_and b 128 =? 0 then (value, rest) else varint_loop rest value (shift + 7)
  end.

Definition varint (rest : bytes) : Z * bytes :=
  let '(value, rest) := varint_loop rest 0 0 in (value mod 2 ^ 32, rest).

(** [if (op & flag) v |= delta[cursor++] << k]. *)
Definition operand (op flag k v : Z) (rest : bytes) : Z * bytes :=
  if js_and op flag =? 0 then (v, rest) else let '(b, rest) := next rest in (js_or v (js_shl b k), rest).

(** [l.subarray(a, b)] with negative indexes counted from the end. *)
Definition subarray (a b : Z) (l : bytes) : bytes :=
  let clamp i := if i <? 0 then Z.max 0 (zlen l + i) else Z.min i (zlen l) in
  slice (Z.to_nat (clamp a)) (Z.to_nat (clamp b)) l.

(** [target.set(sub, at)] where [out] is the target up to [at], and [at += n]:
    what [sub] does not cover stays 0. *)
Definition put (targetSize n : Z) (sub out : bytes) : result bytes :=
  if targetSize <? zlen out + zlen sub then Throw (RangeError "offset is out of bounds")
  else Ok (out ++ sub ++ replicate (Z.to_nat (n - zlen sub)) 0).

(** The operations; each takes a byte at least, so that [fuel] is never used
    up when it is the length. *)
Fixpoint delta_ops (fuel : nat) (base : bytes) (targetSize : Z) (rest out : bytes) : dec bytes :=
  match rest with
  | [] => dret out
  | op :: rest =>
      match fuel with
      | O => None
      | S fuel =>
          if negb (js_and op 128 =? 0) then
            let '(off, rest) := operand op 1 0 0 rest in
            let '(off, rest) := operand op 2 8 off rest in
            let '(off, rest) := operand op 4 16 off rest in
            let '(off, rest) := operand op 8 24 off rest in
            let '(size, rest) := operand op 16 0 0 rest in
            let '(size, rest) := operand op 32 8 size rest in
            let '(size, rest) := operand op 64 16 size rest in
            let size := if size =? 0 then 65536 else size in
            if zlen base <? off + size then dthrow (JsError "delta copy outside base")
            else dbind (Some (put targetSize size (subarray off (off + size) base) out))
                   (delta_ops fuel base targetSize rest)
          else if 0 <? op then
            dbind (Some (put targetSize op (take (Z.to_nat op) rest) out))
              (delta_ops fuel base targetSize (drop (Z.to_nat op) rest))
          else dthrow (JsError "invalid delta opcode 0")
      end
  end.

Definition applyDelta (base delta : bytes) : dec bytes :=
  let '(baseSize, rest) := varint delta in
  if negb (baseSize =? zlen base) then dthrow (JsError "applyDelta base size mismatch") else
  let '(targetSize, rest) := varint rest in
  dbind (delta_ops (length rest) base targetSize rest []) (fun out =>
  if zlen out =? targetSize then dret out else dthrow (JsError "delta produced another size")).

(** ** Objects *)

(** The platform's SHA-1 and compressor, and the local object store; [None]
    when no file system was given. *)
Section Platform.
Context (sha1 : bytes -> bytes) (deflate : bytes -> bytes).
Context (readObject : option (jsstr -> result (jsstr * bytes))).

Definition objectId (type : jsstr) (raw : bytes) : jsstr :=
  toHex (sha1 (utf8_encode (type ++ lit " " ++ lit (pretty (N.of_nat (length raw))) ++ [0]) ++ raw)).

Record RawPackObject := mkObject { o_offset : Z; o_type : jsstr; o_raw : bytes; o_oid : jsstr }.

Definition object_of (offset : Z) (type : jsstr) (raw : bytes) : RawPackObject :=
  mkObject offset type raw (objectId type raw).

(** What was resolved so far. *)
Record Resolved := mkResolved {
  byOffset : gmap Z RawPackObject;
  byOid : jsmap RawPackObject;
  objects : list RawPackObject;
  thin : bool;
}.

(** The base of a delta: its type, its bytes and whether it was read from the
    store; [Ok None] while it is not known. *)
Definition base_of (e : Entry) (s : Resolved) : result (option (jsstr * bytes * bool)) :=
  if e_type e =? OFS_DELTA then
    Ok (match e_baseOffset e with
        | Some off => (fun o => (o_type o, o_raw o, false)) <$> byOffset s !! off
        | None => None
        end)
  else
    let oid := default [] (e_baseOid e) in
    match get oid (byOid s), readObject with
    | Some o, _ => Ok (Some (o_type o, o_raw o, false))
    | None, Some read => let! found := read oid in Ok (Some (fst found, snd found, true))
    | None, None => Ok None
    end.

(** The object of an entry, and whether its base came from the store. *)
Definition resolveEntry (e : Entry) (s : Resolved) : dec (option (RawPackObject * bool)) :=
  if negb (e_type e =? OFS_DELTA) && negb (e_type e =? REF_DELTA) then
    match TYPE_NAMES (e_type e) with
    | Some type => dret (Some (object_of (e_offset e) type (e_data e), false))
    | None => dthrow (JsError "unknown pack type")
    end
  else
    dbind (Some (base_of e s)) (fun base =>
    match base with
    | None => dret None
    | Some (type, raw, external) =>
        dbind (applyDelta raw (e_data e)) (fun raw => dret (Some (object_of (e_offset e) type raw, external)))
    end).

Definition add_object (o : RawPackObject) (external : bool) (s : Resolved) : Resolved :=
  mkResolved (<[o_offset o := o]> (byOffset s)) (mset (o_oid o) o (byOid s)) (objects s ++ [o]) (thin s || external).

(** One pass over the entries that are pending: the new state and those that
    still are. *)
Fixpoint resolve_pass (pending : list Entry) (s : Resolved) : dec (Resolved * list Entry) :=
  match pending with
  | [] => dret (s, [])
  | e :: pending =>
      dbind (resolveEntry e s) (fun r =>
      match r with
      | Some (o, external) => resolve_pass pending (add_object o external s)
      | None => dbind (resolve_pass pending s) (fun '(s, still) => dret (s, e :: still))
      end)
  end.

(** The passes; one that resolves nothing throws, so that their number is
    bounded by that of the entries. *)
Fixpoint resolve_loop (fuel : nat) (pending : list Entry) (s : Resolved) : dec Resolved :=
  match fuel with
  | O => None
  | S fuel =>
      dbind (resolve_pass pending s) (fun '(s', still) =>
      if (length still =? 0)%nat then dret s'
      else if (length still =? length pending)%nat
      then dthrow (JsError "pack has unresolved delta(s) with unavailable bases")
      else resolve_loop fuel still s')
  end.

Definition by_offset (a b : RawPackObject) : bool := o_offset a <? o_offset b.

(** The objects in pack order, and whether a base was read from the store. *)
Definition resolvePack (fuel : nat) (pack : bytes) : dec (list RawPackObject * bool) :=
  dbind (parsePack fuel pack) (fun entries =>
  dbind (resolve_loop (S (length entries)) entries (mkResolved ∅ [] [] false)) (fun s =>
  dret (js_sort by_offset (objects s), thin s))).

(** ** Writing a pack *)

Definition uint32 (v : Z) : bytes :=
  map (fun k => Z.land (Z.shiftr (v mod 2 ^ 32) k) 255) [24; 16; 8; 0].

(** The groups of seven bits that follow the first byte; [n] bounds their
    number. *)
Fixpoint size_groups (n : nat) (value : Z) : bytes :=
  match n with
  | O => []
  | S n =>
      if value <=? 0 then []
      else let next := value / 128 in
           (if 0 <? next then Z.lor (value mod 128) 128 else value mod 128) :: size_groups n next
  end.

Definition entry_header (code size : Z) : bytes :=
  let value := size / 16 in
  Z.lor (Z.lor (Z.shiftl code 4) (Z.land size 15)) (if 0 <? value then 128 else 0) :: size_groups 5 value.

(** The objects one after the other, each deflated. *)
Fixpoint pack_objects (os : list RawPackObject) : result bytes :=
  match os with
  | [] => Ok []
  | o :: os =>
      match typeCodes (o_type o) with
      | None => Throw (JsError "cannot pack object type")
      | Some code =>
          let! rest := pack_objects os in
          Ok (entry_header code (zlen (o_raw o)) ++ deflate (o_raw o) ++ rest)
      end
  end.

Definition buildPack (os : list RawPackObject) : result bytes :=
  let! parts := pack_objects os in
  let body := [80; 65; 67; 75; 0; 0; 0; 2] ++ uint32 (zlen os) ++ parts in
  Ok (body ++ sha1 body).

(** A pack that needs nothing of the store is passed on as it is. *)
Definition fattenPack (fuel : nat) (pack : bytes) : dec bytes :=
  dbind (resolvePack fuel pack) (fun '(os, thin) => if thin : bool then Some (buildPack os) else dret pack).

End Platform.
