(* ===== verification/GitPackSpec.v ===== *)
(** * GitPackSpec: what the pack reader of rngit guarantees

    Deltas are applied as the format of git says, a pack is resolved into
    objects that follow from its entries, and a fattened pack holds the same
    objects and needs no others. *)

From Stdlib Require Import Sorted.
From stdpp Require Import pretty.
From S2P Require Import Prelude Encoding JsMap Utf8 MsgPack Sorting GitInflate GitInflateSpec GitPack.
#[local] Open Scope Z_scope.

(** ** Integers of 32 bits *)

Lemma int32_mod32 z : int32 z mod 2 ^ 32 = z mod 2 ^ 32.
Proof. by apply int32_mod. Qed.

Lemma int32_idem z : int32 (int32 z) = int32 z.
Proof. apply int32_small. unfold int32. pose proof (Z.mod_pos_bound (z + 2 ^ 31) (2 ^ 32)). lia. Qed.

(** [a | (b << k)] where [a] ends below bit [k], modulo 2^32. *)
Lemma js_or_shl_mod a b v k : 0 <= k < 32 -> 0 <= b -> 0 <= v < 2 ^ k -> a mod 2 ^ 32 = v ->
  js_or a (shl b k) mod 2 ^ 32 = (v + b * 2 ^ k) mod 2 ^ 32.
Proof.
  intros Hk Hb Hv Ha. unfold js_or, shl, js_shl. rewrite (Z.mod_small k 32), int32_idem by lia.
  rewrite <- !Z.land_ones, Z.land_lor_distr_l, !Z.land_ones, !int32_mod32, Ha by lia.
  rewrite Z.shiftl_mul_pow2 by lia.
  assert (Hm : (int32 b * 2 ^ k) mod 2 ^ 32 = (b * 2 ^ k) mod 2 ^ 32).
  { rewrite <- Z.mul_mod_idemp_l, int32_mod32, Z.mul_mod_idemp_l by lia. done. }
  rewrite Hm. rewrite (Z.add_comm v).
  rewrite <- (lor_add_pow2 b v k) by lia. rewrite <- !Z.land_ones, Z.land_lor_distr_l by lia. rewrite Z.lor_comm. f_equal.
  rewrite Z.land_ones by lia. rewrite Z.mod_small; [done|]. split; [lia|].
  apply Z.lt_le_trans with (2 ^ k); [lia|]. apply Z.pow_le_mono_r; lia.
Qed.

Lemma js_and_bit x n : 0 <= x < 2 ^ 31 -> 0 <= n < 31 -> (js_and x (2 ^ n) =? 0) = negb (Z.testbit x n).
Proof.
  intros Hx Hn. unfold js_and. assert (0 < 2 ^ n <= 2 ^ 30) by (split; [lia|apply Z.pow_le_mono_r; lia]).
  rewrite !int32_small by lia. destruct (Z.testbit x n) eqn:E; cbn [negb].
  - apply Z.eqb_neq. intros H0. assert (Z.testbit (Z.land x (2 ^ n)) n = true) as Ht; [|by rewrite H0, Z.bits_0 in Ht].
    by rewrite Z.land_spec, E, Z.pow2_bits_true by lia.
  - apply Z.eqb_eq. apply Z.bits_inj'. intros m Hm. rewrite Z.land_spec, Z.bits_0, Z.pow2_bits_eqb by lia.
    destruct (Z.eqb_spec n m) as [<-|]; [by rewrite E|apply andb_false_r].
Qed.

(** ** Variable-length integers *)

(** Groups of seven bits, low ones first; the high bit says that more follow. *)
Fixpoint varint_bytes (n : nat) (v : Z) : bytes :=
  match n with
  | O => [v mod 128]
  | S n => if v <? 128 then [v] else (v mod 128 + 128) :: varint_bytes n (v / 128)
  end.

Definition varint_of (v : Z) : bytes := varint_bytes 4 v.

Lemma group_bits b : is_byte b -> js_and b 127 = b mod 128 /\ (js_and b 128 =? 0) = (b <? 128).
Proof.
  unfold is_byte. intros Hb. split; [apply (js_and_mask b 7); lia|].
  change 128 with (2 ^ 7) at 1. rewrite js_and_bit by lia. apply Bool.eqb_prop.
  apply (byte_forall (fun b => Bool.eqb (negb (Z.testbit b 7)) (b <? 128))); [vm_compute; reflexivity|done].
Qed.

Lemma varint_loop_reads n : forall v value acc rest, 0 <= v < 2 ^ (32 - 7 * (4 - Z.of_nat n)) -> (n <= 4)%nat ->
  0 <= acc < 2 ^ (7 * (4 - Z.of_nat n)) -> value mod 2 ^ 32 = acc ->
  let '(r, rest') := varint_loop (varint_bytes n v ++ rest) value (7 * (4 - Z.of_nat n)) in
  r mod 2 ^ 32 = (acc + v * 2 ^ (7 * (4 - Z.of_nat n))) mod 2 ^ 32 /\ rest' = rest.
Proof.
  induction n as [|n IH]; intros v value acc rest Hv Hn Hacc Hval; cbn [varint_bytes].
  - change (32 - 7 * (4 - Z.of_nat 0)) with 4 in Hv. change (7 * (4 - Z.of_nat 0)) with 28 in *.
    rewrite (Z.mod_small v 128) by lia. cbn [app varint_loop].
    destruct (group_bits v) as [-> ->]; [unfold is_byte; lia|]. rewrite (proj2 (Z.ltb_lt _ _)), (Z.mod_small v 128) by lia.
    split; [|done]. apply js_or_shl_mod; lia.
  - set (k := 7 * (4 - Z.of_nat (S n))) in *.
    assert (Hk : 7 * (4 - Z.of_nat n) = k + 7) by lia. assert (0 <= k <= 21) by lia.
    destruct (v <? 128) eqn:Hlt; bools; cbn [app varint_loop].
    + destruct (group_bits v) as [-> ->]; [unfold is_byte; lia|]. rewrite (proj2 (Z.ltb_lt _ _)), (Z.mod_small v 128) by lia.
      split; [|done]. apply js_or_shl_mod; lia.
    + pose proof (Z.mod_pos_bound v 128 ltac:(lia)) as Hm. pose proof (Z.div_mod v 128 ltac:(lia)) as Hd.
      destruct (group_bits (v mod 128 + 128)) as [-> ->]; [unfold is_byte; lia|].
      rewrite (proj2 (Z.ltb_ge _ _)) by lia. replace ((v mod 128 + 128) mod 128) with (v mod 128) by dmlia.
      assert (Hp : 2 ^ (k + 7) = 2 ^ k * 128) by (rewrite Z.pow_add_r by lia; done).
      specialize (IH (v / 128) (js_or value (shl (v mod 128) k)) (acc + v mod 128 * 2 ^ k) rest).
      rewrite Hk in IH. assert (Hsm : 0 <= acc + v mod 128 * 2 ^ k < 2 ^ (k + 7)) by (rewrite Hp; nia).
      assert (H28 : 2 ^ (k + 7) <= 2 ^ 28) by (apply Z.pow_le_mono_r; lia).
      destruct (varint_loop _ _ _) as [r rest'] eqn:El in IH |- *.
      destruct IH as [IH1 IH2]; [|lia|done| |].
      * split; [apply Z.div_pos; lia|]. apply Z.div_lt_upper_bound; [lia|].
        replace (128 * 2 ^ (32 - (k + 7))) with (2 ^ (32 - k)); [lia|].
        change 128 with (2 ^ 7). rewrite <- Z.pow_add_r by lia. f_equal. lia.
      * rewrite js_or_shl_mod with (v := acc) by lia. rewrite Z.mod_small; lia.
      * split; [|done]. rewrite IH1, Hp. f_equal. nia.
Qed.

Lemma varint_reads v rest : 0 <= v < 2 ^ 32 -> varint (varint_of v ++ rest) = (v, rest).
Proof.
  intros Hv. pose proof (varint_loop_reads 4 v 0 0 rest) as H. change (7 * (4 - Z.of_nat 4)) with 0 in H.
  unfold varint, varint_of. destruct (varint_loop _ _ _) as [r rest']. destruct H as [H1 H2]; [lia|lia|lia|done|].
  rewrite H1, H2. f_equal. rewrite Z.mod_small; lia.
Qed.

(** ** Deltas *)

(** The operations of git's delta format.  A copy has seven operand bytes, four
    of the offset and three of the size, each written or left out. *)
Inductive delta_op := DCopy (os : list (option Z)) | DInsert (bs : bytes).

Definition written (os : list (option Z)) : bytes := concat (map (fun o => match o with Some b => [b] | None => [] end) os).
Definition present (os : list (option Z)) : list bool := map (fun o => match o with Some _ => true | None => false end) os.
Definition le_bytes (os : list (option Z)) : Z := foldr (fun o v => default 0 o + 256 * v) 0 os.

Definition copy_offset (os : list (option Z)) : Z := le_bytes (take 4 os).
Definition copy_size (os : list (option Z)) : Z := let s := le_bytes (drop 4 os) in if s =? 0 then 65536 else s.

Definition op_bytes (o : delta_op) : bytes :=
  match o with
  | DCopy os => le_val (present os ++ [true]) :: written os
  | DInsert bs => zlen bs :: bs
  end.

Definition op_ok (base : bytes) (o : delta_op) : Prop :=
  match o with
  | DCopy os => length os = 7%nat /\ Forall (fun o => is_byte (default 0 o)) os /\ copy_offset os + copy_size os <= zlen base
  | DInsert bs => 0 < zlen bs < 128
  end.

(** The bytes an operation stands for. *)
Definition op_out (base : bytes) (o : delta_op) : bytes :=
  match o with
  | DCopy os => slice (Z.to_nat (copy_offset os)) (Z.to_nat (copy_offset os + copy_size os)) base
  | DInsert bs => bs
  end.

Definition delta_out (base : bytes) (ops : list delta_op) : bytes := concat (map (op_out base) ops).

Definition delta_bytes (base : bytes) (ops : list delta_op) : bytes :=
  varint_of (zlen base) ++ varint_of (zlen (delta_out base ops)) ++ concat (map op_bytes ops).

Lemma operand_reads op i flag k v o rest : flag = 2 ^ i -> 0 <= op < 2 ^ 31 -> 0 <= i < 31 -> 0 <= k <= 24 -> 0 <= v < 2 ^ k ->
  is_byte (default 0 o) -> (k = 24 -> default 0 o < 128) ->
  Z.testbit op i = match o with Some _ => true | None => false end ->
  operand op flag k v (match o with Some b => [b] | None => [] end ++ rest) = (v + default 0 o * 2 ^ k, rest).
Proof.
  intros -> Hop Hi Hk Hv Hb Hb24 Ht. unfold operand. rewrite js_and_bit, Ht by done. unfold is_byte in Hb.
  destruct o as [b|]; cbn [negb default from_option app] in *; unfold id in *; [|f_equal; lia].
  unfold next. change (data_at (b :: rest) 0) with b. change (drop 1 (b :: rest)) with rest. f_equal.
  assert (Hp : 0 < 2 ^ k <= 2 ^ 24) by (split; [lia|apply Z.pow_le_mono_r; lia]).
  assert (Hsm : 0 <= b * 2 ^ k < 2 ^ 31).
  { split; [nia|]. destruct (decide (k = 24)) as [->|]; [specialize (Hb24 eq_refl); lia|].
    assert (2 ^ k <= 2 ^ 23) by (apply Z.pow_le_mono_r; lia). nia. }
  unfold js_or, js_shl. rewrite (int32_small b), (int32_small v), Z.shiftl_mul_pow2 by lia.
  rewrite !int32_small by (rewrite ?int32_small; lia). rewrite Z.lor_comm, lor_add_pow2 by lia.
  change (default 0 (Some b)) with b. lia.
Qed.

Lemma le_val_snoc bs b : le_val (bs ++ [b]) = le_val bs + Z.b2z b * 2 ^ zlen bs.
Proof.
  induction bs as [|x bs IH]; [unfold zlen; cbn; lia|]. cbn [app le_val]. rewrite IH, zlen_cons, Z.pow_add_r by (lia || apply zlen_nonneg). lia.
Qed.

(** The first byte of a copy tells that it is one and which operands follow. *)
Lemma copy_byte os : length os = 7%nat -> let op := le_val (present os ++ [true]) in
  128 <= op < 256 /\ forall i, (i < 7)%nat ->
    Z.testbit op (Z.of_nat i) = match nth i os None with Some _ => true | None => false end.
Proof.
  intros Hl op. assert (Hlp : length (present os) = 7%nat) by (unfold present; by rewrite length_map).
  split.
  - unfold op. rewrite le_val_snoc. pose proof (le_val_bound (present os)) as Hb. unfold zlen in *. rewrite Hlp in *.
    change (2 ^ Z.of_nat 7) with 128 in *. cbn [Z.b2z]. lia.
  - intros i Hi. unfold op. rewrite testbit_le_val by (rewrite length_app; lia). rewrite app_nth1 by lia.
    exact (map_nth (fun o : option Z => match o with Some _ => true | None => false end) os None i).
Qed.

Lemma subarray_slice a b l : 0 <= a <= b -> b <= zlen l -> subarray a b l = slice (Z.to_nat a) (Z.to_nat b) l.
Proof.
  intros Ha Hb. unfold subarray. rewrite !(proj2 (Z.ltb_ge _ _)) by lia. by rewrite !Z.min_l by lia.
Qed.

Lemma put_full target n sub out : zlen sub = n -> zlen out + n <= target -> put target n sub out = Ok (out ++ sub).
Proof.
  intros <- Ht. unfold put. rewrite (proj2 (Z.ltb_ge _ _)) by lia. by rewrite Z.sub_diag, app_nil_r.
Qed.

Lemma zlen_slice {A} a b (l : list A) : 0 <= a <= b -> b <= zlen l -> zlen (slice (Z.to_nat a) (Z.to_nat b) l) = b - a.
Proof. intros. unfold zlen in *. rewrite length_slice. lia. Qed.

Lemma copy_reads fuel base target os rest out : zlen base < 2 ^ 31 -> op_ok base (DCopy os) ->
  zlen out + zlen (op_out base (DCopy os)) <= target ->
  delta_ops (S fuel) base target (op_bytes (DCopy os) ++ rest) out
  = delta_ops fuel base target rest (out ++ op_out base (DCopy os)).
Proof.
  intros Hbase (Hl & Hbytes & Hin) Ht. cbn [op_bytes op_out] in *. destruct (copy_byte os Hl) as [Hop Hbit].
  set (op := le_val (present os ++ [true])) in *. rewrite <- app_comm_cons. cbn [delta_ops].
  assert (H7 : js_and op 128 =? 0 = false).
  { change 128 with (2 ^ 7). rewrite js_and_bit by lia. apply negb_false_iff.
    rewrite Z.testbit_eqb by lia. change (2 ^ 7) with 128. assert (op / 128 = 1) as -> by dmlia. done. }
  rewrite H7. cbn [negb].
  destruct os as [|o0 [|o1 [|o2 [|o3 [|s0 [|s1 [|s2 [|? ?]]]]]]]]; try discriminate Hl. clear Hl.
  do 7 (apply Forall_cons in Hbytes as [? Hbytes]).
  pose proof (Hbit 0%nat ltac:(lia)) as B0. pose proof (Hbit 1%nat ltac:(lia)) as B1. pose proof (Hbit 2%nat ltac:(lia)) as B2.
  pose proof (Hbit 3%nat ltac:(lia)) as B3. pose proof (Hbit 4%nat ltac:(lia)) as B4. pose proof (Hbit 5%nat ltac:(lia)) as B5.
  pose proof (Hbit 6%nat ltac:(lia)) as B6. cbn [nth] in *. clear Hbit.
  unfold copy_offset, copy_size, le_bytes in *. cbn [take drop foldr] in *. unfold written in *. cbn [map concat] in *.
  rewrite <- !app_assoc. unfold is_byte in *. cbn [app].
  set (sz := default 0 s0 + 256 * (default 0 s1 + 256 * (default 0 s2 + 256 * 0))) in *.
  assert (Hsz : 0 < (if sz =? 0 then 65536 else sz)) by (destruct (Z.eqb_spec sz 0); lia).
  set (off := default 0 o0 + 256 * (default 0 o1 + 256 * (default 0 o2 + 256 * (default 0 o3 + 256 * 0)))) in *.
  rewrite (operand_reads op 0 1 0 0 o0) by (done || intros; lia).
  rewrite (operand_reads op 1 2 8 _ o1) by (done || intros; lia).
  rewrite (operand_reads op 2 4 16 _ o2) by (done || intros; lia).
  rewrite (operand_reads op 3 8 24 _ o3) by (done || intros; lia).
  rewrite (operand_reads op 4 16 0 0 s0) by (done || intros; lia).
  rewrite (operand_reads op 5 32 8 _ s1) by (done || intros; lia).
  rewrite (operand_reads op 6 64 16 _ s2) by (done || intros; lia).
  replace (0 + default 0 s0 * 2 ^ 0 + default 0 s1 * 2 ^ 8 + default 0 s2 * 2 ^ 16) with sz by (unfold sz; lia).
  replace (0 + default 0 o0 * 2 ^ 0 + default 0 o1 * 2 ^ 8 + default 0 o2 * 2 ^ 16 + default 0 o3 * 2 ^ 24) with off
    by (unfold off; lia).
  set (size := if sz =? 0 then 65536 else sz) in *. assert (0 <= off) by (unfold off; lia).
  rewrite (proj2 (Z.ltb_ge _ _)) by lia. rewrite subarray_slice by lia. rewrite zlen_slice in Ht by lia.
  rewrite put_full by (rewrite ?zlen_slice; lia). done.
Qed.

Lemma insert_reads fuel base target bs rest out : op_ok base (DInsert bs) -> zlen out + zlen bs <= target ->
  delta_ops (S fuel) base target (op_bytes (DInsert bs) ++ rest) out = delta_ops fuel base target rest (out ++ bs).
Proof.
  cbn [op_ok op_bytes]. intros Hl Ht. rewrite <- app_comm_cons. cbn [delta_ops].
  assert (H7 : js_and (zlen bs) 128 =? 0 = true).
  { change 128 with (2 ^ 7). rewrite js_and_bit by lia. rewrite <- (Z.mod_small (zlen bs) (2 ^ 7)) by lia.
    by rewrite Z.mod_pow2_bits_high by lia. }
  rewrite H7. cbn [negb]. rewrite (proj2 (Z.ltb_lt _ _)) by lia.
  replace (Z.to_nat (zlen bs)) with (length bs) by (unfold zlen; lia). rewrite take_app_length, drop_app_length.
  by rewrite put_full by lia.
Qed.

Lemma delta_ops_reads base target ops : forall fuel out, zlen base < 2 ^ 31 -> Forall (op_ok base) ops ->
  zlen out + zlen (delta_out base ops) <= target -> (length (concat (map op_bytes ops)) <= fuel)%nat ->
  delta_ops fuel base target (concat (map op_bytes ops)) out = dret (out ++ delta_out base ops).
Proof.
  unfold delta_out. induction ops as [|o ops IH]; intros fuel out Hbase Hok Ht Hf; cbn [map concat] in *.
  { destruct fuel; cbn; by rewrite app_nil_r. }
  inv Hok. rewrite zlen_app in Ht. rewrite app_assoc. pose proof (zlen_nonneg (concat (map (op_out base) ops))).
  rewrite length_app in Hf. assert (1 <= length (op_bytes o))%nat by (destruct o; cbn; lia).
  destruct fuel as [|fuel]; [lia|]. rewrite <- IH with (fuel := fuel) by (done || rewrite ?zlen_app; lia).
  destruct o as [os|bs]; [by apply copy_reads; try lia|apply insert_reads; [done|cbn in *; lia]].
Qed.

(** C34: A delta is applied as the format says: every sequence of copies from the
    base and insertions, however its operands are written, gives exactly the
    bytes it stands for. *)
Theorem delta_applied (base : bytes) (ops : list delta_op) (Hops : Forall (op_ok base) ops)
    (Hbase : zlen base < 2 ^ 31) (Hout : zlen (delta_out base ops) < 2 ^ 32) :
  applyDelta base (delta_bytes base ops) = dret (delta_out base ops).
Proof.
  unfold applyDelta, delta_bytes. pose proof (zlen_nonneg base). pose proof (zlen_nonneg (delta_out base ops)).
  rewrite varint_reads, Z.eqb_refl by lia. cbn [negb]. rewrite varint_reads by lia.
  rewrite delta_ops_reads by (done || unfold zlen; cbn; lia). cbn [dbind dret app]. by rewrite Z.eqb_refl.
Qed.

(** ** Entry headers *)

Lemma js_or_shl a b k : 0 <= k < 31 -> 0 <= b -> 0 <= a < 2 ^ k -> a + b * 2 ^ k < 2 ^ 31 ->
  js_or a (shl b k) = a + b * 2 ^ k.
Proof.
  intros Hk Hb Ha Hs. assert (0 < 2 ^ k) by lia. assert (b <= b * 2 ^ k) by nia.
  unfold js_or, shl, js_shl. rewrite (Z.mod_small k 32), (int32_small a), (int32_small b), Z.shiftl_mul_pow2 by lia.
  rewrite !int32_small by (rewrite ?int32_small; lia). rewrite Z.lor_comm, lor_add_pow2 by lia. lia.
Qed.

Lemma lor_128 x : 0 <= x < 128 -> Z.lor x 128 = x + 128.
Proof. intros Hx. rewrite Z.lor_comm, Z.add_comm. exact (lor_add_pow2 1 x 7 ltac:(lia) Hx). Qed.

Lemma group_byte v : 0 <= v -> is_byte (if 0 <? v / 128 then Z.lor (v mod 128) 128 else v mod 128)
  /\ (if 0 <? v / 128 then Z.lor (v mod 128) 128 else v mod 128) = v mod 128 + (if 0 <? v / 128 then 128 else 0).
Proof.
  intros Hv. pose proof (Z.mod_pos_bound v 128). unfold is_byte. destruct (0 <? v / 128); [|lia]. rewrite lor_128; lia.
Qed.

Lemma size_groups_reads n : forall value byte acc shift rest,
  0 <= value < 128 ^ Z.of_nat n -> 0 <= acc < 2 ^ shift -> 0 <= shift -> acc + value * 2 ^ shift < 2 ^ 31 ->
  is_byte byte -> (byte <? 128) = (value <=? 0) ->
  size_loop (size_groups n value ++ rest) byte acc shift = (acc + value * 2 ^ shift, rest).
Proof.
  induction n as [|n IH]; intros value byte acc shift rest Hv Hacc Hsh Hs Hb Hc.
  all: destruct (group_bits byte Hb) as [_ H128]; rewrite Hc in H128; clear Hc.
  - cbn in Hv. assert (value = 0) as -> by lia. cbn [size_groups app].
    destruct rest; cbn [size_loop]; rewrite H128; cbn; f_equal; lia.
  - cbn [size_groups]. destruct (value <=? 0) eqn:E; apply Z.leb_le in E || apply Z.leb_gt in E.
    + assert (value = 0) as -> by lia. cbn [app]. destruct rest; cbn [size_loop]; rewrite H128; f_equal; lia.
    + cbn [app size_loop]. rewrite H128. destruct (group_byte value ltac:(lia)) as [Hg Hge].
      set (g := if 0 <? value / 128 then _ else _) in *. destruct (group_bits g Hg) as [Hg1 _].
      pose proof (Z.mod_pos_bound value 128 ltac:(lia)). pose proof (Z.div_mod value 128 ltac:(lia)).
      assert (Hg2 : g mod 128 = value mod 128) by (rewrite Hge; case_match; dmlia).
      rewrite Hg1, Hg2. assert (Hp : 2 ^ (shift + 7) = 2 ^ shift * 128) by (rewrite Z.pow_add_r by lia; done).
      assert (0 < 2 ^ shift) by lia. assert (shift < 31).
      { destruct (Z.lt_ge_cases shift 31) as [|Hge31]; [done|]. assert (2 ^ 31 <= 2 ^ shift) by (apply Z.pow_le_mono_r; lia). nia. }
      set (P := 2 ^ shift) in *. assert (Hsplit : value * P = value / 128 * (P * 128) + value mod 128 * P) by (transitivity ((128 * (value / 128) + value mod 128) * P); [by f_equal|ring]).
      assert (0 <= value / 128 * (P * 128)) by (apply Z.mul_nonneg_nonneg; [apply Z.div_pos|]; lia).
      assert (0 <= value mod 128 * P <= 127 * P) by (split; [apply Z.mul_nonneg_nonneg; lia|apply Z.mul_le_mono_nonneg_r; lia]).
      rewrite js_or_shl by (fold P; lia). fold P. rewrite IH; rewrite ?Hp.
      * f_equal. lia.
      * rewrite Nat2Z.inj_succ, Z.pow_succ_r in Hv by lia. split; [apply Z.div_pos; lia|apply Z.div_lt_upper_bound; lia].
      * lia.
      * lia.
      * lia.
      * done.
      * rewrite Hge. destruct (0 <? value / 128) eqn:E2; bools; apply eq_true_iff_eq; rewrite Z.ltb_lt, Z.leb_le; lia.
Qed.

(** The header that [buildPack] writes is read back. *)
Lemma entry_header_reads pack offset code size rest : 1 <= code <= 4 -> 0 <= size < 2 ^ 31 ->
  drop (Z.to_nat offset) pack = entry_header code size ++ rest ->
  readEntryHeader pack offset = mkHeader code size None None rest.
Proof.
  intros Hc Hsz Hd. unfold readEntryHeader. rewrite Hd. unfold entry_header. rewrite <- app_comm_cons.
  set (byte := Z.lor _ _). unfold next. change (data_at (byte :: _) 0) with byte.
  change (drop 1 (byte :: ?l)) with l. set (gs := size_groups 5 (size / 16)).
  pose proof (Z.mod_pos_bound size 16 ltac:(lia)). pose proof (Z.div_mod size 16 ltac:(lia)).
  assert (Hb : byte = (if 0 <? size / 16 then 8 else 0) * 16 + code * 16 + size mod 16).
  { unfold byte. change 15 with (2 ^ 4 - 1). rewrite land_mask, Z.shiftl_mul_pow2 by lia. rewrite lor_add_pow2 by (change (2 ^ 4) with 16; lia).
    change (2 ^ 4) with 16. destruct (0 <? size / 16); [|rewrite Z.lor_0_r; lia].
    rewrite lor_128; lia. }
  assert (Hbyte : is_byte byte) by (unfold is_byte; rewrite Hb; case_match; lia).
  assert (Ht : js_and (js_shr byte 4) 7 = code).
  { change 7 with (2 ^ 3 - 1). rewrite js_and_mask by lia. unfold js_shr. rewrite int32_byte, Z.shiftr_div_pow2 by (done || lia).
    rewrite Hb. change (2 ^ 4) with 16. change (2 ^ 3) with 8. case_match; dmlia. }
  assert (Hl : js_and byte 15 = size mod 16).
  { change 15 with (2 ^ 4 - 1). rewrite js_and_mask by lia. rewrite Hb. change (2 ^ 4) with 16. case_match; dmlia. }
  rewrite Ht, Hl. unfold gs. rewrite size_groups_reads.
  - rewrite (proj2 (Z.eqb_neq code OFS_DELTA)), (proj2 (Z.eqb_neq code REF_DELTA)) by (unfold OFS_DELTA, REF_DELTA; lia).
    change (2 ^ 4) with 16. f_equal. lia.
  - split; [apply Z.div_pos; lia|]. apply Z.div_lt_upper_bound; [lia|]. change (128 ^ Z.of_nat 5) with (2 ^ 35). lia.
  - change (2 ^ 4) with 16. lia.
  - lia.
  - change (2 ^ 4) with 16. lia.
  - done.
  - rewrite Hb. apply eq_true_iff_eq. rewrite Z.ltb_lt, Z.leb_le. destruct (0 <? size / 16) eqn:E; bools; lia.
Qed.

(** ** Resolving *)

Section Resolving.
Context (sha1 : bytes -> bytes) (deflate : bytes -> bytes).

(** Where the object of an entry comes from: the entry itself, or its delta
    applied to an object of the pack or of the store. *)
Inductive from_entry (readObject : option (jsstr -> result (jsstr * bytes))) (os : list RawPackObject) (e : Entry)
    : RawPackObject -> bool -> Prop :=
| from_whole type :
    e_type e <> OFS_DELTA -> e_type e <> REF_DELTA -> TYPE_NAMES (e_type e) = Some type ->
    from_entry readObject os e (object_of sha1 (e_offset e) type (e_data e)) false
| from_offset b raw :
    e_type e = OFS_DELTA -> b ∈ os -> e_baseOffset e = Some (o_offset b) -> applyDelta (o_raw b) (e_data e) = dret raw ->
    from_entry readObject os e (object_of sha1 (e_offset e) (o_type b) raw) false
| from_pack b raw :
    e_type e = REF_DELTA -> b ∈ os -> default [] (e_baseOid e) = o_oid b -> applyDelta (o_raw b) (e_data e) = dret raw ->
    from_entry readObject os e (object_of sha1 (e_offset e) (o_type b) raw) false
| from_store read type base raw :
    e_type e = REF_DELTA -> readObject = Some read -> read (default [] (e_baseOid e)) = Ok (type, base) ->
    applyDelta base (e_data e) = dret raw ->
    from_entry readObject os e (object_of sha1 (e_offset e) type raw) true.

Lemma from_entry_mono readObject os os' e o x : os ⊆ os' -> from_entry readObject os e o x -> from_entry readObject os' e o x.
Proof.
  intros Hs [t H1 H2 H3|b raw H1 H2 H3 H4|b raw H1 H2 H3 H4|read t b raw H1 H2 H3 H4];
    [eapply from_whole|eapply from_offset|eapply from_pack|eapply from_store]; eauto.
Qed.

(** What was resolved: the maps hold what they are asked for, and the entries
    [done] have their objects. *)
Record resolved_ok readObject (done : list Entry) (s : Resolved) : Prop := {
  ro_offset : forall off o, byOffset s !! off = Some o -> o ∈ objects s /\ o_offset o = off;
  ro_oid : forall oid o, get oid (byOid s) = Some o -> o ∈ objects s /\ o_oid o = oid;
  ro_done : Forall2 (fun e o => exists x, from_entry readObject (objects s) e o x /\ (x = true -> thin s = true)) done (objects s);
  ro_thin : thin s = true -> exists e o, e ∈ done /\ o ∈ objects s /\ from_entry readObject (objects s) e o true;
}.

Lemma dbind_ok {A B} (m : dec A) (k : A -> dec B) b : dbind m k = dret b -> exists a, m = dret a /\ k a = dret b.
Proof. destruct m as [[a|e]|]; cbn; [eauto|discriminate..]. Qed.

Lemma resolveEntry_ok readObject done s e o x : resolved_ok readObject done s ->
  resolveEntry sha1 readObject e s = dret (Some (o, x)) ->
  from_entry readObject (objects s) e o x.
Proof.
  intros Hs. unfold resolveEntry. destruct (negb _ && negb _) eqn:Ew; bools.
  - destruct (TYPE_NAMES (e_type e)) eqn:Et; [|discriminate]. intros [= <- <-]. by apply from_whole.
  - intros H. apply dbind_ok in H as (base & Hb & H). destruct base as [[[t b] ext]|]; [|discriminate].
    apply dbind_ok in H as (raw & Hr & H). injection H as <- <-. unfold base_of in Hb. injection Hb as Hb.
    destruct (e_type e =? OFS_DELTA) eqn:Eo; bools.
    + destruct (e_baseOffset e) as [off|] eqn:Eb; [|discriminate]. injection Hb as Hb.
      destruct (byOffset s !! off) as [ob|] eqn:El; [|discriminate]. injection Hb as <- <- <-.
      destruct (ro_offset _ _ _ Hs _ _ El) as [Hin <-]. by eapply from_offset.
    + assert (Er : e_type e = REF_DELTA) by (apply andb_false_iff in Ew as [Ew|Ew]; bools; lia).
      destruct (get _ (byOid s)) as [ob|] eqn:El.
      * injection Hb as <- <- <-. destruct (ro_oid _ _ _ Hs _ _ El) as [Hin Hoid]. by eapply from_pack.
      * destruct readObject as [read|]; [|discriminate]. apply rbind_ok in Hb as ([t' b'] & Hread & [= <- <- <-]).
        by eapply from_store.
Qed.

Lemma add_object_ok readObject done s e o x : resolved_ok readObject done s ->
  from_entry readObject (objects s) e o x -> resolved_ok readObject (done ++ [e]) (add_object o x s).
Proof.
  intros Hs Hf. assert (Hsub : objects s ⊆ objects s ++ [o]) by set_solver.
  split; cbn [byOffset byOid objects thin add_object].
  - intros off o' Hl. destruct (decide (off = o_offset o)) as [->|Hne].
    + rewrite lookup_insert_eq in Hl. injection Hl as <-. set_solver.
    + rewrite lookup_insert_ne in Hl by done. destruct (ro_offset _ _ _ Hs _ _ Hl). set_solver.
  - intros oid o' Hl. destruct (decide (oid = o_oid o)) as [->|Hne].
    + rewrite get_mset_same in Hl. injection Hl as <-. set_solver.
    + rewrite get_mset_other in Hl by done. destruct (ro_oid _ _ _ Hs _ _ Hl). set_solver.
  - apply Forall2_app.
    + eapply Forall2_impl; [apply (ro_done _ _ _ Hs)|]. cbn. intros e' o' (x' & H1 & H2). exists x'.
      split; [by eapply from_entry_mono|]. intros ->. by rewrite H2.
    + constructor; [|constructor]. exists x. split; [by eapply from_entry_mono|]. intros ->. apply orb_true_r.
  - intros Ht. apply orb_true_iff in Ht as [Ht| ->].
    + destruct (ro_thin _ _ _ Hs Ht) as (e' & o' & Hin & Ho' & H'). exists e', o'.
      split; [set_solver|]. split; [set_solver|by eapply from_entry_mono].
    + exists e, o. split; [set_solver|]. split; [set_solver|by eapply from_entry_mono].
Qed.

Lemma resolve_pass_ok readObject pending : forall done s s' still, resolved_ok readObject done s ->
  resolve_pass sha1 readObject pending s = dret (s', still) ->
  exists new, resolved_ok readObject (done ++ new) s' /\ new ++ still ≡ₚ pending.
Proof.
  induction pending as [|e pending IH]; intros done s s' still Hs H; cbn [resolve_pass] in H.
  { injection H as <- <-. exists []. by rewrite app_nil_r. }
  apply dbind_ok in H as ([[o x]|] & He & H).
  - pose proof (resolveEntry_ok _ _ _ _ _ _ Hs He) as Hf. pose proof (add_object_ok _ _ _ _ _ _ Hs Hf) as Hs1.
    destruct (IH _ _ _ _ Hs1 H) as (new & Hn & Hp). exists (e :: new). rewrite <- app_assoc in Hn. split; [done|].
    cbn. by rewrite Hp.
  - apply dbind_ok in H as ([s1 st] & H & [= <- <-]). destruct (IH _ _ _ _ Hs H) as (new & Hn & Hp).
    exists new. split; [done|]. by rewrite <- Permutation_middle, Hp.
Qed.

Lemma resolve_loop_ok readObject fuel : forall done pending s s', resolved_ok readObject done s ->
  resolve_loop sha1 readObject fuel pending s = dret s' ->
  exists new, resolved_ok readObject (done ++ new) s' /\ new ≡ₚ pending.
Proof.
  induction fuel as [|fuel IH]; intros done pending s s' Hs H; cbn [resolve_loop] in H; [discriminate|].
  apply dbind_ok in H as ([s1 still] & Hp & H). destruct (resolve_pass_ok _ _ _ _ _ _ Hs Hp) as (new & Hn & Hperm).
  case_match eqn:E0; bools.
  - injection H as <-. destruct still; [|done]. rewrite app_nil_r in Hperm. eauto.
  - case_match; [discriminate|]. destruct (IH _ _ _ _ Hn H) as (new' & Hn' & Hperm'). exists (new ++ new').
    rewrite app_assoc. split; [done|]. by rewrite Hperm'.
Qed.

(** The passes end: each resolves an entry, or is the last. *)
Lemma dbind_total {A B} (m : dec A) (k : A -> dec B) : m <> None -> (forall a, k a <> None) -> dbind m k <> None.
Proof. destruct m as [[a|e]|]; cbn; congruence. Qed.

Lemma next_length rest : (length (snd (next rest)) <= length rest)%nat.
Proof. unfold next. cbn [snd]. rewrite length_drop. lia. Qed.

Lemma operand_length op flag k v rest : (length (snd (operand op flag k v rest)) <= length rest)%nat.
Proof.
  unfold operand. case_match; [done|]. pose proof (next_length rest). destruct (next rest). done.
Qed.

Lemma delta_ops_total base target fuel : forall rest out, (length rest <= fuel)%nat -> delta_ops fuel base target rest out <> None.
Proof.
  induction fuel as [|fuel IH]; intros [|op rest] out Hl; cbn [length] in Hl; try lia; cbn [delta_ops]; try done.
  case_match.
  - repeat match goal with |- context [operand ?o ?f ?k ?v ?r] =>
      pose proof (operand_length o f k v r); destruct (operand o f k v r) as [? ?]; cbn [snd] in * end.
    case_match; [done|]. apply dbind_total; [done|]. intros a. apply IH. lia.
  - case_match; [|done]. apply dbind_total; [done|]. intros a. apply IH. rewrite length_drop. lia.
Qed.

Lemma applyDelta_total base delta : applyDelta base delta <> None.
Proof.
  unfold applyDelta. destruct (varint delta) as [bs rest]. case_match; [done|]. destruct (varint rest) as [ts rest'].
  apply dbind_total; [by apply delta_ops_total|]. intros a. by case_match.
Qed.

Lemma resolve_pass_total readObject pending : forall s, resolve_pass sha1 readObject pending s <> None
  /\ forall s' still, resolve_pass sha1 readObject pending s = dret (s', still) -> (length still <= length pending)%nat.
Proof.
  induction pending as [|e pending IH]; intros s; cbn [resolve_pass].
  { split; [done|]. by intros s' still [= <- <-]. }
  assert (He : resolveEntry sha1 readObject e s <> None).
  { unfold resolveEntry. case_match; [by case_match|]. apply dbind_total; [done|]. intros [[[t b] x]|]; [|done].
    apply dbind_total; [apply applyDelta_total|done]. }
  split.
  - apply dbind_total; [done|]. intros [[o x]|]; [apply IH|]. apply dbind_total; [apply IH|]. by intros [].
  - intros s' still H. apply dbind_ok in H as ([[o x]|] & _ & H).
    + apply IH in H. cbn [length]. lia.
    + apply dbind_ok in H as ([s1 st] & H & [= <- <-]). apply IH in H. cbn [length]. lia.
Qed.

Lemma resolve_loop_total readObject fuel : forall pending s, (length pending < fuel)%nat ->
  resolve_loop sha1 readObject fuel pending s <> None.
Proof.
  induction fuel as [|fuel IH]; intros pending s Hl; [lia|]. cbn [resolve_loop].
  destruct (resolve_pass_total readObject pending s) as [Ht Hlen].
  destruct (resolve_pass sha1 readObject pending s) as [[[s' still]|e]|] eqn:E; cbn [dbind]; [|done|done].
  specialize (Hlen _ _ eq_refl). case_match; [done|]. case_match; [done|]. bools. apply IH. lia.
Qed.

Lemma Forall2_perm_r {A B} (R : A -> B -> Prop) l k k' : k ≡ₚ k' -> Forall2 R l k ->
  exists l', l' ≡ₚ l /\ Forall2 R l' k'.
Proof.
  intros Hp. revert l. induction Hp as [|y k k' _ IH|x y k|k k' k'' _ IH1 _ IH2]; intros l Hl.
  - exists l. auto.
  - apply Forall2_cons_inv_r in Hl as (x & l0 & Hx & Hl & ->). destruct (IH _ Hl) as (l' & Hpl & Hf).
    exists (x :: l'). split; [by rewrite Hpl|by constructor].
  - apply Forall2_cons_inv_r in Hl as (a & l0 & Ha & Hl & ->). apply Forall2_cons_inv_r in Hl as (b & l1 & Hb & Hl & ->).
    exists (b :: a :: l1). split; [apply Permutation_swap|by repeat constructor].
  - destruct (IH1 _ Hl) as (l' & Hp1 & Hf1). destruct (IH2 _ Hf1) as (l'' & Hp2 & Hf2). exists l''. split; [by etransitivity|done].
Qed.

Lemma js_sort_offsets l : StronglySorted (fun a b => o_offset a <= o_offset b) (js_sort by_offset l).
Proof.
  assert (H : StronglySorted (before by_offset) (js_sort by_offset l)).
  { apply js_sort_sorted; unfold before, by_offset; intros *; rewrite ?Z.ltb_ge, ?Z.ltb_lt; lia. }
  induction H as [|a l' _ IH Ha]; constructor; [done|]. eapply Forall_impl; [exact Ha|].
  intros b Hb. unfold before, by_offset in Hb. by apply Z.ltb_ge in Hb.
Qed.

(** The objects of a pack: one for each of its entries, in the order of their
    offsets, with its id, and each either stored whole, or the result of
    applying the entry's delta to an object of the pack with the right offset
    or id, or to the object with that id in the local store; the pack is thin
    exactly if one came from the store.  The resolution ends whenever the
    decoder does. *)
Theorem pack_resolved (readObject : option (jsstr -> result (jsstr * bytes))) (fuel : nat) (pack : bytes) :
  (parsePack fuel pack <> None -> resolvePack sha1 readObject fuel pack <> None)
  /\ forall os thin, resolvePack sha1 readObject fuel pack = dret (os, thin) ->
     exists entries es, parsePack fuel pack = dret entries /\ es ≡ₚ entries
     /\ StronglySorted (fun a b => o_offset a <= o_offset b) os
     /\ Forall2 (fun e o => exists x, from_entry readObject os e o x /\ (x = true -> thin = true)) es os
     /\ (thin = true -> exists e o, e ∈ es /\ o ∈ os /\ from_entry readObject os e o true).
Proof.
  unfold resolvePack. split.
  - intros Hp. apply dbind_total; [done|]. intros entries. apply dbind_total; [apply resolve_loop_total; lia|done].
  - intros os th H. apply dbind_ok in H as (entries & Hp & H). apply dbind_ok in H as (s & Hl & H). injection H as <- <-.
    assert (H0 : resolved_ok readObject [] (mkResolved ∅ [] [] false)) by (split; cbn; done).
    destruct (resolve_loop_ok _ _ _ _ _ _ H0 Hl) as (new & Hn & Hperm). cbn [app] in Hn.
    assert (Hps : objects s ≡ₚ js_sort by_offset (objects s)) by (symmetry; apply js_sort_perm).
    assert (Hsub : objects s ⊆ js_sort by_offset (objects s)) by (intros x Hx; by rewrite <- Hps).
    destruct (Forall2_perm_r _ _ _ _ Hps (ro_done _ _ _ Hn)) as (es & Hes & Hf).
    exists entries, es. split; [done|]. split; [by rewrite Hes|]. split; [|split].
    + apply js_sort_offsets.
    + eapply Forall2_impl; [exact Hf|]. cbn. intros e o (x & H1 & H2). exists x. split; [by eapply from_entry_mono|done].
    + intros Ht. destruct (ro_thin _ _ _ Hn Ht) as (e & o & He & Ho & H). exists e, o.
      split; [by rewrite Hes|]. split; [by apply Hsub|by eapply from_entry_mono].
Qed.

(** ** Fattening *)

(** What a pack can hold. *)
Definition packable (o : RawPackObject) : Prop :=
  wf_bytes (o_raw o) /\ zlen (o_raw o) < 2 ^ 31 /\ is_Some (typeCodes (o_type o)).

Definition code_of (o : RawPackObject) : Z := default 0 (typeCodes (o_type o)).
Definition object_bytes (o : RawPackObject) : bytes := entry_header (code_of o) (zlen (o_raw o)) ++ deflate (o_raw o).

(** The entries that are read from what [pack_objects] wrote. *)
Fixpoint built_entries (off : Z) (os : list RawPackObject) : list Entry :=
  match os with
  | [] => []
  | o :: os => mkEntry off (code_of o) None None (o_raw o) :: built_entries (off + zlen (object_bytes o)) os
  end.

Fixpoint built_objects (off : Z) (os : list RawPackObject) : list RawPackObject :=
  match os with
  | [] => []
  | o :: os => object_of sha1 off (o_type o) (o_raw o) :: built_objects (off + zlen (object_bytes o)) os
  end.

#[local] Arguments object_bytes : simpl never.

Lemma typeCodes_names o : is_Some (typeCodes (o_type o)) -> 1 <= code_of o <= 4 /\ TYPE_NAMES (code_of o) = Some (o_type o).
Proof.
  unfold code_of, typeCodes. intros [c Hc]. repeat case_bool_decide; try discriminate;
    (split; [cbn; unfold COMMIT, TREE, BLOB, TAG; lia|]);
    match goal with H : o_type o = _ |- _ => rewrite H; reflexivity end.
Qed.

Lemma pack_objects_bytes os : Forall packable os -> pack_objects deflate os = Ok (concat (map object_bytes os)).
Proof.
  induction 1 as [|o os (_ & _ & [c Hc]) _ IH]; [done|]. cbn [pack_objects map concat]. rewrite Hc, IH. cbn [rbind].
  unfold object_bytes, code_of. by rewrite Hc, <- app_assoc.
Qed.

Lemma zlib_stream_wf z x : zlib_stream z x -> wf_bytes z /\ 6 <= zlen z.
Proof.
  intros (cmf & flg & bs & sum & -> & H1 & H2 & _ & _ & _ & Hl & Hs & _). split.
  - constructor; [done|]. constructor; [done|]. apply wf_bytes_app; [apply pack_bits_wf|done].
  - rewrite !zlen_cons, zlen_app. pose proof (zlen_nonneg (pack_bits (stream_bits bs))). unfold zlen in *. lia.
Qed.

Lemma size_groups_wf n : forall v, 0 <= v -> wf_bytes (size_groups n v).
Proof.
  induction n as [|n IH]; intros v Hv; cbn [size_groups]; [constructor|]. case_match; [constructor|].
  constructor; [by apply group_byte|]. apply IH. apply Z.div_pos; lia.
Qed.

Lemma entry_header_wf code size : 1 <= code <= 4 -> 0 <= size -> wf_bytes (entry_header code size).
Proof.
  intros Hc Hs. unfold entry_header. constructor; [|apply size_groups_wf, Z.div_pos; lia].
  pose proof (Z.mod_pos_bound size 16 ltac:(lia)). change 15 with (2 ^ 4 - 1).
  rewrite land_mask, Z.shiftl_mul_pow2, lor_add_pow2 by (change (2 ^ 4) with 16; lia). change (2 ^ 4) with 16.
  unfold is_byte. case_match; [rewrite lor_128|rewrite Z.lor_0_r]; lia.
Qed.

Context (Hdeflate : forall x, wf_bytes x -> zlib_stream (deflate x) x).

Lemma object_bytes_wf o : packable o -> wf_bytes (object_bytes o) /\ 7 <= zlen (object_bytes o).
Proof.
  intros (Hw & _ & Ht). destruct (typeCodes_names o Ht) as [Hc _]. destruct (zlib_stream_wf _ _ (Hdeflate _ Hw)) as [Hz Hl].
  unfold object_bytes. split; [apply wf_bytes_app; [apply entry_header_wf; [done|apply zlen_nonneg]|done]|].
  rewrite zlen_app. unfold entry_header. rewrite zlen_cons. pose proof (zlen_nonneg (size_groups 5 (zlen (o_raw o) / 16))). lia.
Qed.

Lemma parse_built fuel suf os : forall pre, Forall packable os -> wf_bytes suf ->
  let pack := pre ++ concat (map object_bytes os) ++ suf in
  8 * zlen pack < 2 ^ 31 - 3 -> (8 * length pack <= fuel)%nat ->
  parse_entries fuel pack (length os) (zlen pre) = dret (built_entries (zlen pre) os).
Proof.
  induction os as [|o os IH]; intros pre Hos Hsuf pack Hlen Hfuel; [done|]. inv Hos. cbn [length parse_entries built_entries].
  pose proof H1 as (Hw & Hsz & Ht). destruct (typeCodes_names o Ht) as [Hc _].
  set (rest := concat (map object_bytes os) ++ suf).
  assert (Hdrop : drop (Z.to_nat (zlen pre)) pack = entry_header (code_of o) (zlen (o_raw o)) ++ deflate (o_raw o) ++ rest).
  { unfold pack, rest, zlen at 1. rewrite Nat2Z.id, drop_app_length. cbn [map concat]. unfold object_bytes at 1.
    by rewrite <- !app_assoc. }
  rewrite (entry_header_reads pack (zlen pre) _ _ _ Hc (conj (zlen_nonneg (o_raw o)) Hsz) Hdrop).
  cbn [h_payload h_size h_type h_baseOid h_baseOffset].
  assert (Hrest : wf_bytes rest).
  { apply wf_bytes_app; [|done]. clear -H2 Hdeflate. induction H2 as [|o' os' Ho' _ IHo]; [constructor|].
    cbn [map concat]. apply wf_bytes_app; [by apply object_bytes_wf|done]. }
  assert (Hlp : zlen pack = zlen pre + zlen (object_bytes o) + zlen rest).
  { unfold pack, rest. cbn [map concat]. rewrite !zlen_app. lia. }
  assert (Hlo : zlen (object_bytes o) = zlen (entry_header (code_of o) (zlen (o_raw o))) + zlen (deflate (o_raw o)))
    by (unfold object_bytes; by rewrite zlen_app).
  pose proof (zlen_nonneg pre). pose proof (zlen_nonneg (entry_header (code_of o) (zlen (o_raw o)))).
  rewrite (inflate_stream _ (o_raw o) rest fuel (Hdeflate _ Hw) Hrest); [|rewrite zlen_app; lia|unfold zlen in *; rewrite length_app; lia].
  cbn [dbind dret]. rewrite Z.eqb_refl. cbn [negb].
  replace (zlen pack - zlen (deflate (o_raw o) ++ rest) + zlen (deflate (o_raw o))) with (zlen pre + zlen (object_bytes o))
    by (rewrite zlen_app; lia).
  specialize (IH (pre ++ object_bytes o) H2 Hsuf). rewrite <- app_assoc in IH. cbn zeta in IH.
  assert (Hpack : pre ++ object_bytes o ++ concat (map object_bytes os) ++ suf = pack)
    by (unfold pack; cbn [map concat]; by rewrite <- app_assoc).
  rewrite Hpack, zlen_app in IH. by rewrite IH.
Qed.

Lemma resolve_built readObject os : forall off s, Forall packable os ->
  exists s', resolve_pass sha1 readObject (built_entries off os) s = dret (s', [])
  /\ objects s' = objects s ++ built_objects off os /\ thin s' = thin s.
Proof.
  induction os as [|o os IH]; intros off s Hos; cbn [built_entries resolve_pass].
  { exists s. by rewrite app_nil_r. }
  inv Hos. destruct (typeCodes_names o (proj2 (proj2 H1))) as [Hc Hn]. unfold resolveEntry. cbn [e_type e_offset e_data].
  rewrite (proj2 (Z.eqb_neq _ OFS_DELTA)), (proj2 (Z.eqb_neq _ REF_DELTA)) by (unfold OFS_DELTA, REF_DELTA; lia).
  cbn [negb andb]. rewrite Hn. cbn [dbind dret].
  destruct (IH (off + zlen (object_bytes o)) (add_object (object_of sha1 off (o_type o) (o_raw o)) false s) H2)
    as (s' & -> & Ho & Ht). exists s'. split; [done|]. rewrite Ho, Ht. cbn [objects thin add_object].
  rewrite <- app_assoc, orb_false_r. done.
Qed.

Lemma js_sort_ascending l : StronglySorted (fun a b => o_offset a < o_offset b) l -> js_sort by_offset l = l.
Proof.
  unfold js_sort. induction 1 as [|x l Hs IH Hx]; [done|]. cbn [foldr]. rewrite IH. destruct l as [|y l]; [done|].
  cbn [insert_sorted]. inv Hx. unfold by_offset. by rewrite (proj2 (Z.ltb_ge _ _)) by lia.
Qed.

Lemma built_ascending os : forall off, Forall packable os ->
  StronglySorted (fun a b => o_offset a < o_offset b) (built_objects off os)
  /\ Forall (fun a => off <= o_offset a) (built_objects off os).
Proof.
  induction os as [|o os IH]; intros off Hos; cbn [built_objects]; [by repeat constructor|]. inv Hos.
  destruct (object_bytes_wf o H1) as [_ Hl]. destruct (IH (off + zlen (object_bytes o)) H2) as [H3 H4].
  split; constructor; cbn [o_offset object_of]; try done; try lia; (eapply Forall_impl; [exact H4|]); cbn; intros; lia.
Qed.

Lemma built_content os off : map (fun o => (o_type o, o_raw o)) (built_objects off os) = map (fun o => (o_type o, o_raw o)) os.
Proof. revert off. induction os as [|o os IH]; intros off; cbn; [done|]. f_equal. apply IH. Qed.

Lemma built_ids os off : map o_oid (built_objects off os) = map (fun o => objectId sha1 (o_type o) (o_raw o)) os.
Proof. revert off. induction os as [|o os IH]; intros off; cbn; [done|]. f_equal. apply IH. Qed.

Lemma readUint32_be b0 b1 b2 b3 pre suf : is_byte b0 -> is_byte b1 -> is_byte b2 -> is_byte b3 -> b0 < 128 ->
  readUint32 (pre ++ [b0; b1; b2; b3] ++ suf) (zlen pre) = b0 * 2 ^ 24 + b1 * 2 ^ 16 + b2 * 2 ^ 8 + b3.
Proof.
  unfold is_byte. intros H0 H1 H2 H3 H7.
  assert (Hat : forall i, data_at (pre ++ [b0; b1; b2; b3] ++ suf) (zlen pre + Z.of_nat i) = nth i ([b0; b1; b2; b3] ++ suf) 0).
  { intros i. pose proof (zlen_nonneg pre). rewrite data_at_nat by lia. unfold zlen.
    replace (Z.to_nat _) with (length pre + i)%nat by lia. rewrite app_nth2 by lia. f_equal. lia. }
  set (l := pre ++ [b0; b1; b2; b3] ++ suf) in *.
  assert (A0 : data_at l (zlen pre) = b0) by (transitivity (data_at l (zlen pre + Z.of_nat 0)); [f_equal; lia|apply Hat]).
  pose proof (Hat 1%nat : data_at l (zlen pre + 1) = b1) as A1. pose proof (Hat 2%nat : data_at l (zlen pre + 2) = b2) as A2.
  pose proof (Hat 3%nat : data_at l (zlen pre + 3) = b3) as A3. unfold readUint32. rewrite A0, A1, A2, A3.
  unfold js_or, js_shl. rewrite !Z.shiftl_mul_pow2 by lia. rewrite !(int32_small b0), !(int32_small b1), !(int32_small b2), !(int32_small b3) by lia.
  rewrite !(int32_small (b0 * 2 ^ 24)), !(int32_small (b1 * 2 ^ 16)), !(int32_small (b2 * 2 ^ 8)) by lia.
  assert (E1 : Z.lor (b0 * 2 ^ 24) (b1 * 2 ^ 16) = b0 * 2 ^ 24 + b1 * 2 ^ 16) by (apply lor_add_pow2; lia).
  rewrite E1, (int32_small (b0 * 2 ^ 24 + b1 * 2 ^ 16)) by lia.
  assert (E2 : Z.lor (b0 * 2 ^ 24 + b1 * 2 ^ 16) (b2 * 2 ^ 8) = b0 * 2 ^ 24 + b1 * 2 ^ 16 + b2 * 2 ^ 8).
  { replace (b0 * 2 ^ 24 + b1 * 2 ^ 16) with ((b0 * 2 ^ 8 + b1) * 2 ^ 16) by lia. apply lor_add_pow2; lia. }
  rewrite E2, (int32_small (b0 * 2 ^ 24 + b1 * 2 ^ 16 + b2 * 2 ^ 8)) by lia.
  replace (b0 * 2 ^ 24 + b1 * 2 ^ 16 + b2 * 2 ^ 8) with ((b0 * 2 ^ 16 + b1 * 2 ^ 8 + b2) * 2 ^ 8) by lia.
  rewrite lor_add_pow2 by lia. lia.
Qed.

Lemma uint32_bytes v : 0 <= v < 2 ^ 31 ->
  exists b0 b1 b2 b3, uint32 v = [b0; b1; b2; b3] /\ is_byte b0 /\ is_byte b1 /\ is_byte b2 /\ is_byte b3 /\ b0 < 128
  /\ b0 * 2 ^ 24 + b1 * 2 ^ 16 + b2 * 2 ^ 8 + b3 = v.
Proof.
  intros Hv. unfold uint32. rewrite Z.mod_small by lia. cbn [map]. change 255 with (Z.ones 8).
  rewrite !Z.land_ones, !Z.shiftr_div_pow2 by lia.
  exists ((v / 2 ^ 24) mod 2 ^ 8), ((v / 2 ^ 16) mod 2 ^ 8), ((v / 2 ^ 8) mod 2 ^ 8), (v mod 2 ^ 8).
  change (2 ^ 24) with 16777216. change (2 ^ 16) with 65536. change (2 ^ 8) with 256. change (2 ^ 31) with 2147483648 in Hv.
  change (2 ^ 0) with 1. rewrite Z.div_1_r. unfold is_byte. split; [done|].
  replace 65536 with (256 * 256) by done. replace 16777216 with (256 * 256 * 256) by done. rewrite <- !Z.div_div by lia.
  pose proof (Z.div_mod v 256 ltac:(lia)). pose proof (Z.div_mod (v / 256) 256 ltac:(lia)).
  pose proof (Z.div_mod (v / 256 / 256) 256 ltac:(lia)).
  pose proof (Z.mod_pos_bound v 256 ltac:(lia)). pose proof (Z.mod_pos_bound (v / 256) 256 ltac:(lia)).
  pose proof (Z.mod_pos_bound (v / 256 / 256) 256 ltac:(lia)).
  assert (0 <= v / 256 / 256 / 256 < 128) by (split; [repeat apply Z.div_pos|repeat apply Z.div_lt_upper_bound]; lia).
  rewrite (Z.mod_small (v / 256 / 256 / 256)) by lia. repeat split; lia.
Qed.

Context (Hsha1 : forall x, wf_bytes (sha1 x) /\ length (sha1 x) = 20%nat).

Lemma built_pack os p : Forall packable os -> buildPack sha1 deflate os = Ok p ->
  exists sum, wf_bytes sum /\ length sum = 20%nat
  /\ p = [80; 65; 67; 75; 0; 0; 0; 2] ++ uint32 (zlen os) ++ concat (map object_bytes os) ++ sum.
Proof.
  intros Hos. unfold buildPack. rewrite pack_objects_bytes by done. cbn [rbind]. intros [= <-].
  eexists. destruct (Hsha1 ([80; 65; 67; 75; 0; 0; 0; 2] ++ uint32 (zlen os) ++ concat (map object_bytes os))) as [H1 H2].
  split; [exact H1|]. split; [exact H2|]. reflexivity.
Qed.

Lemma objects_long os : Forall packable os -> 7 * zlen os <= zlen (concat (map object_bytes os)).
Proof.
  induction 1 as [|o os Ho _ IH]; [done|]. cbn [map concat]. rewrite zlen_cons, zlen_app. destruct (object_bytes_wf o Ho). lia.
Qed.

Lemma parsePack_built os p fuel : Forall packable os -> buildPack sha1 deflate os = Ok p ->
  8 * zlen p < 2 ^ 31 - 3 -> (8 * length p <= fuel)%nat -> parsePack fuel p = dret (built_entries 12 os).
Proof.
  intros Hos Hp Hlen Hfuel. destruct (built_pack os p Hos Hp) as (sum & Hw & Hl & E). pose proof (objects_long os Hos).
  pose proof (zlen_nonneg os).
  assert (Hz : zlen p = 8 + zlen (uint32 (zlen os)) + zlen (concat (map object_bytes os)) + 20)
    by (rewrite E, !zlen_app; unfold zlen; cbn [length]; lia).
  assert (Hu : zlen (uint32 (zlen os)) = 4) by done.
  destruct (uint32_bytes (zlen os)) as (b0 & b1 & b2 & b3 & Eu & ? & ? & ? & ? & ? & Ev); [lia|].
  unfold parsePack. rewrite (proj2 (Z.ltb_ge _ _)) by lia.
  replace (take 4 p) with [80; 65; 67; 75] by (by rewrite E). cbn [bytesEqual]. 
  replace (readUint32 p 4) with 2; cycle 1.
  { symmetry. rewrite E. apply (readUint32_be 0 0 0 2 [80; 65; 67; 75]); unfold is_byte; lia. }
  replace (readUint32 p 8) with (zlen os); cycle 1.
  { symmetry. rewrite E, Eu. etransitivity; [|exact Ev].
    apply (readUint32_be b0 b1 b2 b3 [80; 65; 67; 75; 0; 0; 0; 2]); done. }
  replace (bytesEqual [80; 65; 67; 75] [80; 65; 67; 75]) with true by done. cbn [negb].
  replace (2 =? 2) with true by done. cbn [negb]. unfold zlen at 1. rewrite Nat2Z.id.
  pose proof (parse_built fuel sum os ([80; 65; 67; 75; 0; 0; 0; 2] ++ uint32 (zlen os)) Hos Hw) as P.
  cbn zeta in P. rewrite <- app_assoc, <- E in P. rewrite zlen_app, Hu in P. apply P; done.
Qed.

(** What a pack written by [buildPack] resolves to, with or without a store. *)
Lemma resolve_buildPack store os p fuel : Forall packable os -> buildPack sha1 deflate os = Ok p ->
  8 * zlen p < 2 ^ 31 - 3 -> (8 * length p <= fuel)%nat ->
  resolvePack sha1 store fuel p = dret (built_objects 12 os, false).
Proof.
  intros Hos Hp Hlen Hfuel. unfold resolvePack. rewrite (parsePack_built os p fuel Hos Hp Hlen Hfuel). cbn [dbind dret].
  cbn [resolve_loop]. destruct (resolve_built store os 12 (mkResolved ∅ [] [] false) Hos) as (s' & E & Ho & Ht).
  rewrite E. cbn [dbind dret length]. rewrite Nat.eqb_refl. cbn [dbind dret]. rewrite Ho, Ht. cbn [objects thin app].
  rewrite js_sort_ascending; [done|]. apply built_ascending, Hos.
Qed.

End Resolving.

(** C33: what [fattenPack] makes of a thin pack is a pack that resolves without
    the local store, to objects of the same types, bytes and ids in the same
    order; [deflate] is any compressor whose streams follow the zlib format. *)
Theorem fatten_self_contained (sha1 deflate : bytes -> bytes) (store : option (jsstr -> result (jsstr * bytes)))
    (fuel : nat) (pack : bytes) (os : list RawPackObject)
    (Hdeflate : forall x, wf_bytes x -> zlib_stream (deflate x) x)
    (Hsha1 : forall x, wf_bytes (sha1 x) /\ length (sha1 x) = 20%nat)
    (Hthin : resolvePack sha1 store fuel pack = dret (os, true)) (Hos : Forall packable os) :
  exists fat, fattenPack sha1 deflate store fuel pack = dret fat
  /\ forall fuel', 8 * zlen fat < 2 ^ 31 - 3 -> (8 * length fat <= fuel')%nat ->
  exists os', resolvePack sha1 None fuel' fat = dret (os', false)
  /\ map (fun o => (o_type o, o_raw o)) os' = map (fun o => (o_type o, o_raw o)) os
  /\ map o_oid os' = map (fun o => objectId sha1 (o_type o) (o_raw o)) os.
Proof.
  unfold fattenPack. rewrite Hthin. cbn [dbind dret].
  destruct (buildPack sha1 deflate os) as [fat|e] eqn:Hp.
  2:{ exfalso. revert Hp. unfold buildPack. by rewrite pack_objects_bytes. }
  exists fat. split; [done|]. intros fuel' Hlen Hfuel.
  exists (built_objects sha1 deflate 12 os). split; [by apply resolve_buildPack|]. split; [apply built_content|].
  apply built_ids.
Qed.

(** ** A compressor of stored blocks, and a thin pack *)

(** A stored block for each byte. *)
Definition stored_blocks (x : bytes) : list block :=
  match x with
  | [] => [BStored (replicate 5 false) []]
  | _ => map (fun b => BStored (replicate 5 false) [b]) x
  end.

Definition stored_deflate (x : bytes) : bytes := 120 :: 1 :: pack_bits (stream_bits (stored_blocks x)) ++ [0; 0; 0; 0].

Lemma stored_ok x : wf_bytes x -> forall k, stream_ok (16 + 48 * k) (map (fun b => BStored (replicate 5 false) [b]) x).
Proof.
  induction 1 as [|b x Hb _ IH]; intros k; cbn [map stream_ok]; [done|]. split.
  - unfold block_ok. replace (16 + 48 * k + 3 + zlen (replicate 5 false)) with ((3 + 6 * k) * 8) by (change (zlen (replicate 5 false)) with 5; lia).
    rewrite Z.mod_mul by lia. split; [cbn; lia|]. split; [done|]. split; [done|]. constructor; [done|constructor].
  - replace (16 + 48 * k + 1 + zlen (block_bits (BStored (replicate 5 false) [b]))) with (16 + 48 * (k + 1)) by (unfold zlen; cbn; lia).
    apply IH.
Qed.

Lemma stored_out x : forall out, stream_out out (map (fun b => BStored (replicate 5 false) [b]) x) = Some (out ++ x).
Proof.
  induction x as [|b x IH]; intros out; cbn [map stream_out block_out]; [by rewrite app_nil_r|]. by rewrite IH, <- app_assoc.
Qed.

Lemma stored_zlib x : wf_bytes x -> zlib_stream (stored_deflate x) x.
Proof.
  intros Hx. exists 120, 1, (stored_blocks x), [0; 0; 0; 0]. split; [done|].
  split; [unfold is_byte; lia|]. split; [unfold is_byte; lia|]. do 4 (split; [done|]).
  split; [by apply (wf_bytes_replicate 4 0)|].
  destruct x as [|b x]; [split; [done|]; split; [|done]; split; [|done]; split; [cbn; lia|]; split; [done|]; split; [done|constructor]|]. unfold stored_blocks. split; [done|]. split; [|apply stored_out].
  apply (stored_ok (b :: x) Hx 0).
Qed.

(** The store holds one blob; the delta of the pack copies its first bytes. *)
Definition toy_sha1 (x : bytes) : bytes := take 20 (map (fun b => b mod 256) (rev x) ++ replicate 20 0).

Definition toy_base : bytes := [104; 101; 108; 108; 111].

Definition toy_store : option (jsstr -> result (jsstr * bytes)) := Some (fun _ => Ok (lit "blob", toy_base)).

Definition toy_delta : bytes :=
  delta_bytes toy_base [DCopy [None; None; None; None; Some 4; None; None]; DInsert [33]].

Definition toy_thin : bytes :=
  [80; 65; 67; 75; 0; 0; 0; 2; 0; 0; 0; 1; 112 + zlen toy_delta] ++ replicate 20 170
  ++ stored_deflate toy_delta ++ replicate 20 0.

Lemma toy_sha1_ok x : wf_bytes (toy_sha1 x) /\ length (toy_sha1 x) = 20%nat.
Proof.
  unfold toy_sha1. split.
  - apply Forall_take, wf_bytes_app; [|by apply wf_bytes_replicate].
    apply List.Forall_forall. intros b Hb. apply in_map_iff in Hb as (c & <- & _). apply Z.mod_pos_bound. lia.
  - rewrite length_take, length_app, length_replicate. lia.
Qed.

Lemma fatten_self_contained_witness :
  exists fat os', fattenPack toy_sha1 stored_deflate toy_store 1000 toy_thin = dret fat
  /\ resolvePack toy_sha1 None 1000 fat = dret (os', false)
  /\ map (fun o => (o_type o, o_raw o)) os' = [(lit "blob", [104; 101; 108; 108; 33])].
Proof.
  assert (Hthin : resolvePack toy_sha1 toy_store 1000 toy_thin
    = dret ([object_of toy_sha1 12 (lit "blob") [104; 101; 108; 108; 33]], true)) by (vm_compute; reflexivity).
  assert (Hos : Forall packable [object_of toy_sha1 12 (lit "blob") [104; 101; 108; 108; 33]]).
  { constructor; [|constructor]. split; [apply (bool_decide_unpack _); vm_compute; exact I|].
    split; [vm_compute; reflexivity|]. by eexists. }
  destruct (fatten_self_contained toy_sha1 stored_deflate toy_store 1000 toy_thin _ stored_zlib toy_sha1_ok Hthin Hos)
    as (fat & Hfat & H).
  assert (E : exists c, fattenPack toy_sha1 stored_deflate toy_store 1000 toy_thin = dret c /\ 8 * zlen c < 2 ^ 31 - 3
    /\ (8 * length c <= 1000)%nat).
  { eexists. split; [vm_compute; reflexivity|]. split; [vm_compute; reflexivity|]. vm_compute. repeat constructor. }
  destruct E as (c & Hc & H1 & H2). rewrite Hfat in Hc. injection Hc as ->.
  destruct (H 1000%nat H1 H2) as (os' & Hr & Hm & _). exists c, os'. split; [exact Hfat|]. split; [exact Hr|exact Hm].
Defined.

Lemma delta_applied_witness : applyDelta toy_base toy_delta = dret [104; 101; 108; 108; 33].
Proof.
  apply (delta_applied toy_base [DCopy [None; None; None; None; Some 4; None; None]; DInsert [33]]).
  - constructor; [|constructor; [|constructor]]; [|vm_compute; split; reflexivity].
    split; [reflexivity|]. split; [|vm_compute; discriminate]. apply (bool_decide_unpack _). vm_compute. exact I.
  - vm_compute. reflexivity.
  - vm_compute. reflexivity.
Defined.

(** ** Two surprises *)

(** A pack whose first entry is a delta on the blob of its second. *)
Definition later_pack : bytes :=
  [80; 65; 67; 75; 0; 0; 0; 2; 0; 0; 0; 2; 112 + zlen toy_delta]
  ++ toy_sha1 (utf8_encode (lit "blob 5" ++ [0]) ++ toy_base) ++ stored_deflate toy_delta
  ++ [48 + zlen toy_base] ++ stored_deflate toy_base ++ replicate 20 0.

(** A delta before its base is resolved where there is no store; with a store
    that does not hold the base, which the pack brings, the pack is refused. *)
Theorem later_base_refused :
  (exists os, resolvePack toy_sha1 None 1000 later_pack = dret (os, false)
   /\ map o_raw os = [[104; 101; 108; 108; 33]; toy_base])
  /\ resolvePack toy_sha1 (Some (fun _ => Throw (JsError "NotFoundError"))) 1000 later_pack = dthrow (JsError "NotFoundError").
Proof. split; [eexists; split|]; vm_compute; reflexivity. Qed.

(** An insertion that is cut off is not refused: zeros stand for what is
    missing. *)
Theorem cut_insert_accepted : applyDelta [1; 2] [2; 5; 5; 104] = dret [104; 0; 0; 0; 0].
Proof. vm_compute. reflexivity. Qed.
