(* ===== verification/GitBundle.v ===== *)
(** * GitBundle: git bundles (packages/rngit/src/bundle.js)

    A bundle is a header of lines and a pack; [parseBundle] reads what git and
    [buildBundle] write. *)

From S2P Require Import Prelude Encoding JsMap Utf8 MsgPack JsString GitPack.
#[local] Open Scope Z_scope.

Definition BUNDLE_V2_SIGNATURE : jsstr := lit "# v2 git bundle".
Definition BUNDLE_V3_SIGNATURE : jsstr := lit "# v3 git bundle".
Definition PACK_MAGIC : bytes := [80; 65; 67; 75].

Record ParsedBundle := mkBundle { refs : jsmap jsstr; prerequisites : list jsstr; pack : bytes }.

(** One line, and what is left after it. *)
Definition readLine (rest : bytes) : option (jsstr * bytes) :=
  (fun i => (utf8_decode (take i rest), drop (S i) rest)) <$> index_of 10 rest.

(** The loop over the header; each line takes a byte at least, so that [fuel]
    is not used up when it is the length. *)
Fixpoint header_lines (fuel : nat) (rest : bytes) (refs : jsmap jsstr) (prerequisites : list jsstr) : dec ParsedBundle :=
  match rest with
  | [] => dret (mkBundle refs prerequisites [])
  | _ =>
      match fuel with
      | O => None
      | S fuel =>
          match readLine rest with
          | None => dthrow (JsError "Truncated git bundle header")
          | Some (line, rest) =>
              if bool_decide (line = []) then dret (mkBundle refs prerequisites rest)
              else if startsWith (lit "@") line then header_lines fuel rest refs prerequisites
              else if startsWith (lit "-") line then
                match index_of 32 line with
                | None => dthrow (JsError "Malformed prerequisite")
                | Some sep => header_lines fuel rest refs (prerequisites ++ [slice 1 sep line])
                end
              else
                match index_of 32 line with
                | None | Some O => dthrow (JsError "Malformed bundle ref")
                | Some sep => header_lines fuel rest (mset (drop (S sep) line) (take sep line) refs) prerequisites
                end
          end
      end
  end.

Definition parseBundle (data : bytes) : dec ParsedBundle :=
  let signature := readLine data in
  match signature with
  | Some (line, rest) =>
      if bool_decide (line = BUNDLE_V2_SIGNATURE) || bool_decide (line = BUNDLE_V3_SIGNATURE) then
        dbind (header_lines (length rest) rest [] []) (fun b =>
        if (zlen (pack b) <? 32) || negb (bytesEqual (take 4 (pack b)) PACK_MAGIC)
        then dthrow (JsError "Git bundle has no embedded packfile") else dret b)
      else dthrow (JsError "Not a git bundle (missing v2/v3 signature)")
  | None => dthrow (JsError "Not a git bundle (missing v2/v3 signature)")
  end.

(** The pack of no objects. *)
Definition emptyPack (sha1 : bytes -> bytes) : bytes :=
  let header := PACK_MAGIC ++ [0; 0; 0; 2] ++ [0; 0; 0; 0] in header ++ sha1 header.

(** [out.set(digest, 12)] into 32 bytes: the digest has 20. *)
Definition ref_line (sha ref : jsstr) : jsstr := sha ++ [32] ++ ref ++ [10].

Definition buildBundle (refs : list (jsstr * jsstr)) (pack : bytes) : bytes :=
  utf8_encode (BUNDLE_V2_SIGNATURE ++ [10])
  ++ concat (map (fun '(sha, ref) => utf8_encode (ref_line sha ref)) refs)
  ++ utf8_encode [10] ++ pack.

(** ** Reading what was written *)

(** An object id, and the name of a ref, as git writes them. *)
Definition sha_ok (sha : jsstr) : Prop :=
  sha <> [] /\ Forall (fun c => 33 <= c < 127) sha /\ head sha <> Some 45 /\ head sha <> Some 64.

Definition ref_ok (ref : jsstr) : Prop := wf_utf16 ref = true /\ ~ In 10 ref.

#[global] Instance sha_ok_dec sha : Decision (sha_ok sha).
Proof. unfold sha_ok. apply _. Defined.

Lemma sha_ok_ascii sha : sha_ok sha -> ascii sha.
Proof. intros (_ & H & _). eapply Forall_impl; [exact H|]. cbn. intros; lia. Qed.

Lemma sha_ok_no sha c : sha_ok sha -> c <= 32 -> ~ In c sha.
Proof. intros (_ & H & _) Hc Hin. rewrite List.Forall_forall in H. specialize (H c Hin). lia. Qed.

Lemma readLine_line line rest : wf_str line -> ~ In 10 line -> readLine (utf8_encode (line ++ [10]) ++ rest) = Some (line, rest).
Proof.
  intros [Hw Hb] Hn. unfold readLine. rewrite utf8_encode_app by done. change (utf8_encode [10]) with [10]. rewrite <- app_assoc.
  assert (Hnb : ~ In 10 (utf8_encode line)) by (intros Hin; apply Hn; by apply utf8_encode_low in Hin; [|done|lia]).
  cbn [app]. rewrite index_of_app by done. cbn [fmap option_fmap option_map]. rewrite take_app_length.
  rewrite utf8_decode_encode by done. do 2 f_equal. rewrite <- Nat.add_1_r, <- drop_drop, drop_app_length. done.
Qed.

Definition refs_of (refs : list (jsstr * jsstr)) (m : jsmap jsstr) : jsmap jsstr :=
  fold_left (fun m '(sha, ref) => mset ref sha m) refs m.

Lemma ref_line_head sha ref : sha_ok sha ->
  startsWith (lit "@") (sha ++ [32] ++ ref) = false /\ startsWith (lit "-") (sha ++ [32] ++ ref) = false
  /\ sha ++ [32] ++ ref <> [] /\ index_of 32 (sha ++ [32] ++ ref) = Some (length sha)
  /\ exists n, length sha = S n.
Proof.
  intros H. pose proof (sha_ok_no sha 32 H ltac:(lia)) as Hs. destruct H as (Hn & _ & H1 & H2). destruct sha as [|c sha]; [done|].
  split; [|split; [|split; [|split]]]; try done; [| |by apply index_of_app|by eexists];
    unfold startsWith; apply bool_decide_eq_false; cbn; intros [= E]; [apply H2|apply H1]; cbn; by rewrite E.
Qed.

Lemma header_lines_refs rs fuel pack : forall m, Forall (fun '(sha, ref) => sha_ok sha /\ ref_ok ref) rs ->
  let data := concat (map (fun '(sha, ref) => utf8_encode (ref_line sha ref)) rs) ++ utf8_encode [10] ++ pack in
  (length data <= fuel)%nat -> header_lines fuel data m [] = dret (mkBundle (refs_of rs m) [] pack).
Proof.
  revert fuel. induction rs as [|[sha ref] rs IH]; intros fuel m Hrs data Hf.
  { unfold data in *. change (utf8_encode [10]) with [10] in *. destruct fuel as [|fuel]; [cbn in Hf; lia|]. done. }
  inv Hrs. destruct H1 as [Hsha [Hw Hnl]]. destruct (ref_line_head sha ref Hsha) as (Ha & Hm & Hne & Hi & [n Hlen]).
  assert (Hd : data = utf8_encode ((sha ++ [32] ++ ref) ++ [10])
                      ++ concat (map (fun '(sha, ref) => utf8_encode (ref_line sha ref)) rs) ++ utf8_encode [10] ++ pack).
  { unfold data, ref_line. cbn [map concat]. by rewrite <- !app_assoc. }
  assert (Hwl : wf_utf16 (sha ++ [32] ++ ref) = true).
  { apply wf_utf16_app; [by apply ascii_wf, sha_ok_ascii|]. apply wf_utf16_app; done. }
  clearbody data. subst data. remember (concat (map (fun '(sha, ref) => utf8_encode (ref_line sha ref)) rs) ++ utf8_encode [10] ++ pack)
    as rest eqn:Hr in Hf |- *.
  assert (Hl : readLine (utf8_encode ((sha ++ [32] ++ ref) ++ [10]) ++ rest) = Some (sha ++ [32] ++ ref, rest)).
  { apply readLine_line; [split; [done|]|].
    - pose proof (sha_ok_ascii sha Hsha) as Hasc. destruct sha as [|c sha]; [done|]. inv Hasc. cbn. unfold BOM. intros [= ->]. lia.
    - rewrite !in_app_iff. intros [Hin|[[|[]]|Hin]]; [by apply (sha_ok_no sha 10 Hsha) in Hin|lia|done]. }
  assert (Hlr : (S (length rest) <= length (utf8_encode ((sha ++ [32] ++ ref) ++ [10]) ++ rest)%Z)%nat).
  { rewrite utf8_encode_app, !length_app by done. change (length (utf8_encode [10])) with 1%nat. lia. }
  destruct fuel as [|fuel]; [lia|]. destruct (utf8_encode _ ++ rest) as [|b bs] eqn:E; [cbn in Hlr; lia|].
  cbn [header_lines]. rewrite Hl, Ha, Hm, Hi, Hlen. rewrite bool_decide_eq_false_2 by done. rewrite <- Hlen.
  rewrite take_app_length. replace (drop (S (length sha)) (sha ++ [32] ++ ref)) with ref
    by (rewrite <- Nat.add_1_r, <- drop_drop, drop_app_length; done).
  rewrite Hr. rewrite Hr in Hlr. apply IH; [done|]. cbn [length] in *. lia.
Qed.

(** what [parseBundle] reads from a bundle that [buildBundle] wrote is the
    pack it was given, byte for byte, each name with the last id given for it,
    and no prerequisite. *)
Theorem bundle_roundtrip (rs : list (jsstr * jsstr)) (p : bytes) (Hrs : Forall (fun '(sha, ref) => sha_ok sha /\ ref_ok ref) rs)
    (Hmagic : take 4 p = PACK_MAGIC) (Hlen : 32 <= zlen p) :
  parseBundle (buildBundle rs p) = dret (mkBundle (refs_of rs []) [] p).
Proof.
  unfold parseBundle, buildBundle. rewrite readLine_line by (vm_compute; intuition congruence).
  rewrite bool_decide_eq_true_2 by done. cbn [orb]. rewrite header_lines_refs by done. cbn [dbind dret GitBundle.pack].
  rewrite (proj2 (Z.ltb_ge _ _)), Hmagic by done. done.
Qed.

Lemma bundle_roundtrip_witness :
  parseBundle (buildBundle [(lit "0123456789abcdef", lit "refs/heads/main")] (PACK_MAGIC ++ replicate 40 0))
  = dret (mkBundle [(lit "refs/heads/main", lit "0123456789abcdef")] [] (PACK_MAGIC ++ replicate 40 0)).
Proof.
  apply (bundle_roundtrip [(lit "0123456789abcdef", lit "refs/heads/main")] (PACK_MAGIC ++ replicate 40 0)).
  - constructor; [|constructor]. split; [apply (bool_decide_unpack _); vm_compute; exact I|]. split; [reflexivity|].
    vm_compute. intuition congruence.
  - reflexivity.
  - vm_compute. discriminate.
Defined.

Lemma readLine_shorter rest line rest' : readLine rest = Some (line, rest') -> (length rest' < length rest)%nat.
Proof.
  unfold readLine. destruct rest as [|b rest]; [done|]. destruct (index_of 10 (b :: rest)); [|done]. cbn [fmap option_fmap option_map].
  intros [= _ <-]. cbn [drop length]. rewrite length_drop. lia.
Qed.

Lemma header_lines_total fuel : forall rest m ps, (length rest <= fuel)%nat -> header_lines fuel rest m ps <> None.
Proof.
  induction fuel as [|fuel IH]; intros [|b rest] m ps Hl; cbn [length] in Hl; try done; [lia|]. cbn [header_lines].
  destruct (readLine (b :: rest)) as [[line rest']|] eqn:E; [|done]. apply readLine_shorter in E. cbn [length] in E.
  repeat case_match; try done; apply IH; lia.
Qed.

(** Every buffer is read as a bundle or refused. *)
Lemma parseBundle_total data : parseBundle data <> None.
Proof.
  unfold parseBundle. destruct (readLine data) as [[line rest]|]; [|done]. case_match; [|done].
  pose proof (header_lines_total (length rest) rest [] [] ltac:(lia)).
  destruct (header_lines _ rest [] []) as [[|]|]; cbn [dbind]; [|done..]. by case_match.
Qed.

Lemma emptyPack_built sha1 deflate : buildPack sha1 deflate [] = Ok (emptyPack sha1).
Proof. reflexivity. Qed.
