(* ===== verification/GitProtocol.v ===== *)
(** * GitProtocol: remote URLs, requests and the client (packages/rngit/src)

    url.js, protocol.js and the operations of client.js on a link that is
    established; what an operation asks of the link and what it does with the
    answer is a [call]. *)

From S2P Require Import Prelude Encoding JsMap Utf8 MsgPack JsString.
#[local] Open Scope Z_scope.

(** ** Remote URLs (url.js) *)

Definition DESTINATION_HASH_HEX_LENGTH : Z := 32.

Record RemoteUrl := mkRemote { hashHex : jsstr; group : jsstr; repo : jsstr; repoPath : jsstr }.

Definition letter (c : Z) : bool := ((65 <=? c) && (c <=? 90)) || ((97 <=? c) && (c <=? 122)).
Definition digit (c : Z) : bool := (48 <=? c) && (c <=? 57).

Fixpoint drop_while (p : Z -> bool) (s : jsstr) : jsstr :=
  match s with x :: s' => if p x then drop_while p s' else s | [] => [] end.

(** [/^[a-z][a-z0-9+.-]*:\/\//i]. *)
Definition has_scheme (s : jsstr) : bool :=
  match s with
  | c :: s =>
      letter c && startsWith (lit "://") (drop_while (fun c => letter c || digit c || (c =? 43) || (c =? 46) || (c =? 45)) s)
  | [] => false
  end.

Definition is_hex (c : Z) : bool := match hex_val c with Some _ => true | None => false end.

(** [toLowerCase] on hexadecimal digits. *)
Definition lower (s : jsstr) : jsstr := map (fun c => if (65 <=? c) && (c <=? 90) then c + 32 else c) s.

Definition parseRemoteUrl (input : jsstr) : result RemoteUrl :=
  if bool_decide (input = []) then Throw (JsError "Empty remote URL") else
  let! rest := if startsWith (lit "rns://") input then Ok (drop 6 input)
               else if has_scheme input then Throw (JsError "Unsupported remote URL scheme") else Ok input in
  match List.filter nonempty (split_on 47 rest) with
  | [hashHex; group; repo] =>
      if negb (zlen hashHex =? DESTINATION_HASH_HEX_LENGTH) then Throw (JsError "Destination hash must be 32 hex characters") else
      if negb (forallb is_hex hashHex) then Throw (JsError "Destination hash must be hexadecimal") else
      Ok (mkRemote (lower hashHex) group repo (group ++ [47] ++ repo))
  | _ => Throw (JsError "Invalid rngit remote URL. Use rns://<hash>/<group>/<repo>")
  end.

Definition stringifyRemoteUrl (url : RemoteUrl) : jsstr :=
  lit "rns://" ++ hashHex url ++ [47] ++ group url ++ [47] ++ repo url.

Definition toPlaceholderHttpUrl (url : jsstr) : result jsstr :=
  let! parsed := parseRemoteUrl url in
  Ok (lit "http://rngit/" ++ hashHex parsed ++ [47] ++ group parsed ++ [47] ++ repo parsed).

(** What the platform's [URL] tells of a string; [None]: it throws. *)
Record ParsedUrl := mkUrl { host : jsstr; pathname : jsstr; service_param : option jsstr }.

Definition fromPlaceholderHttpUrl (URL : jsstr -> option ParsedUrl) (url : jsstr) : option RemoteUrl :=
  match URL url with
  | None => None
  | Some parsed =>
      if negb (bool_decide (host parsed = lit "rngit")) then None else
      let parts := List.filter nonempty (split_on 47 (pathname parsed)) in
      if (length parts <? 3)%nat then None else
      match parseRemoteUrl (join 47 (take 3 parts)) with Ok u => Some u | Throw _ => None end
  end.

(** ** Requests and responses (protocol.js) *)

Definition PATH_LIST : jsstr := lit "/git/list".
Definition PATH_FETCH : jsstr := lit "/git/fetch".
Definition PATH_PUSH : jsstr := lit "/git/push".
Definition PATH_DELETE : jsstr := lit "/git/delete".
Definition IDX_REPOSITORY : Z := 0.
Definition IDX_RESULT_CODE : Z := 1.
Definition RES_OK : Z := 0.
Definition RES_REMOTE_FAIL : Z := 255.

(** An error of the client: a status of the node with its message, or any
    other. *)
Inductive gerror := StatusError (status : value) (message : jsstr) | Fault (e : error).

Inductive outcome (A : Type) := Done (a : A) | Failed (e : gerror).
Arguments Done {A} a.
Arguments Failed {A} e.

Definition obind {A B} (m : outcome A) (k : A -> outcome B) : outcome B :=
  match m with Done a => k a | Failed e => Failed e end.

(** [status.toString(16)] of a byte. *)
Definition hex_of_byte (b : Z) : jsstr := if b <? 16 then [hex_digit b] else [hex_digit (b / 16); hex_digit (b mod 16)].

Definition RngitStatusError (status : Z) (message : jsstr) : gerror :=
  StatusError (VInt status) (if bool_decide (message = []) then lit "rngit node returned status 0x" ++ hex_of_byte status else message).

(** [err.message]. *)
Definition message_of (e : gerror) : jsstr :=
  match e with
  | StatusError _ m => m
  | Fault (JsError m) | Fault (TypeError m) | Fault (RangeError m) => lit m
  end.

(** A field is left out where its value is [undefined]. *)
Definition buildRequest (repoPath : jsstr) (fields : list (string * option value)) : value :=
  VMap ((VInt IDX_REPOSITORY, VStr repoPath)
        :: omap (fun '(k, v) => (fun v => (VStr (lit k), v)) <$> v) fields).

Definition parseStatusResponse (response : value) : outcome (Z * jsstr) :=
  match response with
  | VBin (status :: message) => Done (status, utf8_decode message)
  | _ => Failed (Fault (JsError "Invalid response from rngit node"))
  end.

Record Listing := mkListing { head_ref : option jsstr; listed : jsmap jsstr }.

Definition list_line (l : Listing) (line : jsstr) : Listing :=
  let trimmed := trim line in
  if bool_decide (trimmed = []) then l else
  if startsWith (lit "@") trimmed && endsWith (lit " HEAD") trimmed
  then mkListing (Some (slice 1 (length trimmed - 5) trimmed)) (listed l) else
  match index_of 32 trimmed with
  | None => l
  | Some sep =>
      let refName := drop (S sep) trimmed in
      if bool_decide (refName = lit "HEAD") then l else mkListing (head_ref l) (mset refName (take sep trimmed) (listed l))
  end.

Definition parseListResponse (response : value) : outcome Listing :=
  obind (parseStatusResponse response) (fun '(status, message) =>
  if negb (status =? RES_OK) then Failed (RngitStatusError status message)
  else Done (fold_left list_line (split_on 10 message) (mkListing None []))).

(** [metadata[1]] of an object: own, or along a replaced prototype chain. *)
Fixpoint prop_result_code (v : value) : value :=
  match v with
  | VArr l => nth 1 l VNull
  | VBin b => match nth_error b 1 with Some x => VInt x | None => VNull end
  | VObj proto props =>
      match get (lit "1") props with
      | Some x => x
      | None => match proto with Some p => prop_result_code p | None => VNull end
      end
  | _ => VNull
  end.

Fixpoint map_result_code (entries : list (value * value)) : value :=
  match entries with
  | [] => VNull
  | (VInt k, v) :: entries => if k =? IDX_RESULT_CODE then v else map_result_code entries
  | _ :: entries => map_result_code entries
  end.

(** [None] is [undefined]. *)
Definition resultCodeFromMetadata (metadata : value) : option value :=
  let v := match metadata with VMap entries => map_result_code entries | v => prop_result_code v end in
  match v with VInt _ | VFloat _ => Some v | _ => None end.

(** [code === RES_OK]; -0 is a float. *)
Definition is_res_ok (code : option value) : bool :=
  match code with Some (VInt n) => n =? RES_OK | Some (VFloat bits) => bits =? NEG_ZERO | _ => false end.

(** ** The client (client.js) *)

(** What [link.request] settles with: the response and the metadata that
    [onMetadata] was given, if it was called. *)
Definition answer : Type := result (value * option value).

Inductive call (A : Type) :=
| Ret (a : A)
| Ask (path : jsstr) (request : value) (k : answer -> call A).
Arguments Ret {A} a.
Arguments Ask {A} path request k.

Fixpoint cbind {A B} (c : call A) (f : A -> call B) : call B :=
  match c with
  | Ret a => f a
  | Ask path request k => Ask path request (fun a => cbind (k a) f)
  end.

(** The requests that are made, and the result, with a node that answers by
    what it was asked so far. *)
Fixpoint run {A} (node : list (jsstr * value) -> answer) (asked : list (jsstr * value)) (c : call A)
    : list (jsstr * value) * A :=
  match c with
  | Ret a => (asked, a)
  | Ask path request k => let asked := asked ++ [(path, request)] in run node asked (k (node asked))
  end.

Record RngitClient := mkClient { remote : option RemoteUrl }.

Definition ask {A} (client : RngitClient) (path : jsstr) (fields : list (string * option value))
    (k : value -> option value -> outcome A) : call (outcome A) :=
  match remote client with
  | None => Ret (Failed (Fault (JsError "No remote url configured")))
  | Some r =>
      Ask path (buildRequest (repoPath r) fields) (fun a =>
      Ret (match a with Ok (response, metadata) => k response metadata | Throw e => Failed (Fault e) end))
  end.

Definition list_refs (client : RngitClient) (forPush : bool) : call (outcome Listing) :=
  ask client PATH_LIST [("for_push"%string, Some (VBool forPush))] (fun response _ => parseListResponse response).

Record WantedRef := mkWanted { w_sha : jsstr; w_ref : jsstr; w_have : option jsstr }.

Definition wanted_value (r : WantedRef) : value :=
  VObj None ([(lit "sha", VStr (w_sha r)); (lit "ref", VStr (w_ref r))]
             ++ match w_have r with Some (c :: h) => [(lit "have", VStr (c :: h))] | _ => [] end).

(** The bundle, or [None] where the node says that nothing is missing. *)
Definition fetch_response (response : value) (metadata : option value) : outcome (option bytes) :=
  match response with
  | VBin bundle =>
      match metadata with
      | Some md =>
          let code := resultCodeFromMetadata md in
          if is_res_ok code then Done (Some bundle)
          else Failed (StatusError (default (VInt RES_REMOTE_FAIL) code) (lit "rngit node rejected the fetch"))
      | None =>
          obind (parseStatusResponse response) (fun '(status, message) =>
          if status =? RES_OK then Done None else Failed (RngitStatusError status message))
      end
  | _ => Failed (Fault (JsError "Invalid fetch response from rngit node"))
  end.

Definition fetch (client : RngitClient) (refs : list WantedRef) (have : list jsstr) : call (outcome (option bytes)) :=
  ask client PATH_FETCH
    [("refs"%string, Some (VArr (map wanted_value refs)));
     ("have"%string, match have with [] => None | _ => Some (VArr (map VStr have)) end)]
    fetch_response.

Definition status_response (what : string) (response : value) : outcome unit :=
  match response with
  | VBin _ =>
      obind (parseStatusResponse response) (fun '(status, message) =>
      if negb (status =? RES_OK) then Failed (RngitStatusError status message) else Done tt)
  | _ => Failed (Fault (JsError what))
  end.

Definition push (client : RngitClient) (ref : jsstr) (bundle : option bytes) (sha : jsstr) (force : bool) : call (outcome unit) :=
  ask client PATH_PUSH
    (match bundle with
     | Some bundle =>
         [("local_ref"%string, Some (VStr ref)); ("remote_ref"%string, Some (VStr ref)); ("force"%string, Some (VBool force));
          ("bundle"%string, Some (VBin bundle))]
     | None =>
         [("operations"%string,
           Some (VArr [VObj None [(lit "action", VStr (lit "update_ref")); (lit "ref", VStr ref); (lit "sha", VStr sha);
                                  (lit "force", VBool force)]]))]
     end)
    (fun response _ => status_response "Invalid push response from rngit node" response).

Definition deleteRef (client : RngitClient) (ref : jsstr) : call (outcome unit) :=
  ask client PATH_DELETE [("ref"%string, Some (VStr ref))]
    (fun response _ => status_response "Invalid delete response from rngit node" response).
