(* ===== verification/GitTransport.v ===== *)
(** * GitTransport: the smart-HTTP bridge (packages/rngit/src/transport.js)

    The http plugin that git's commands talk to: it reads their requests, asks
    the node through the client of [GitProtocol] and writes the responses. *)

From stdpp Require Import pretty.
From S2P Require Import Prelude Encoding JsMap Utf8 MsgPack JsString GitPkt GitPack GitBundle GitProtocol.
#[local] Open Scope Z_scope.

Definition SIDEBAND_MAX : nat := Z.to_nat 65519.
Definition AGENT : jsstr := lit "rngit-js/0.1.0".

(** ** Requests of git *)

(** [body.subarray(offset, ...)]: what follows an offset, which a negative
    length can take below 0. *)
Definition line_at (body : bytes) (offset length : Z) : jsstr := utf8_decode (subarray (offset + 4) (offset + length) body).

(** The loop over the lines; [None]: it goes on. *)
Fixpoint request_lines (fuel : nat) (body : bytes) (offset : Z) : dec (list (option jsstr)) :=
  if zlen body <? offset + 4 then dret [] else
  match fuel with
  | O => None
  | S fuel =>
      match parseInt16 (utf8_decode (subarray offset (offset + 4) body)) with
      | None => dthrow (JsError "Invalid pkt-line header")
      | Some length =>
          if length =? 0 then dbind (request_lines fuel body (offset + 4)) (fun ls => dret (None :: ls))
          else dbind (request_lines fuel body (offset + length)) (fun ls => dret (Some (line_at body offset length) :: ls))
      end
  end.

(** [line.slice(5, 45).trim()]. *)
Definition line_sha (line : jsstr) : jsstr := trim (slice 5 45 line).

Fixpoint wants_haves (lines : list (option jsstr)) (wants haves : list jsstr) : result (list jsstr * list jsstr) :=
  match lines with
  | [] => Ok (wants, haves)
  | None :: lines => wants_haves lines wants haves
  | Some line :: lines =>
      let sha := line_sha line in
      if startsWith (lit "want ") line then
        if zlen sha =? 40 then wants_haves lines (wants ++ [sha]) haves else Throw (JsError "Malformed want line")
      else if startsWith (lit "have ") line then
        if zlen sha =? 40 then wants_haves lines wants (haves ++ [sha]) else Throw (JsError "Malformed have line")
      else if startsWith (lit "shallow") line || startsWith (lit "deepen") line || startsWith (lit "filter") line
      then Throw (JsError "rngit transport does not support this request")
      else wants_haves lines wants haves
  end.

Definition parseUploadPackRequest (fuel : nat) (body : bytes) : dec (list jsstr * list jsstr) :=
  dbind (request_lines fuel body 0) (fun lines => Some (wants_haves lines [] [])).

Record Command := mkCommand { c_old : jsstr; c_new : jsstr; c_ref : jsstr }.

Record ReceivePack := mkReceive { commands : list Command; capabilities : list jsstr; rp_pack : option bytes }.

(** The loop over the commands, up to the flush: the offset behind it. *)
Fixpoint command_lines (fuel : nat) (body : bytes) (offset : Z) (cs : list Command) (caps : list jsstr)
    : dec (list Command * list jsstr * Z) :=
  if zlen body <? offset + 4 then dthrow (JsError "receive-pack request missing flush after commands") else
  match fuel with
  | O => None
  | S fuel =>
      match parseInt16 (utf8_decode (subarray offset (offset + 4) body)) with
      | None => dthrow (JsError "Invalid pkt-line header")
      | Some length =>
          if length =? 0 then dret (cs, caps, offset + 4) else
          let raw := line_at body offset length in
          let '(line, caps) := match index_of 0 raw with
                               | None => (trim raw, caps)
                               | Some nul => (trim (take nul raw), caps ++ words (trim (drop (S nul) raw)))
                               end in
          match split_on 32 line with
          | [old; new; ref] => command_lines fuel body (offset + length) (cs ++ [mkCommand old new ref]) caps
          | _ => dthrow (JsError "Malformed receive-pack command")
          end
      end
  end.

Definition parseReceivePackRequest (fuel : nat) (body : bytes) : dec ReceivePack :=
  dbind (command_lines fuel body 0 [] []) (fun '(cs, caps, offset) =>
  let pack := subarray offset (zlen body) body in
  dret (mkReceive cs caps (if (length pack =? 0)%nat then None else Some pack))).

(** ** Responses *)

(** [concat] of frames of which one may be too long. *)
Fixpoint frames (parts : list (result bytes)) : result bytes :=
  match parts with
  | [] => Ok []
  | p :: parts => let! p := p in let! rest := frames parts in Ok (p ++ rest)
  end.

Definition text_line (s : jsstr) : result bytes := encodePktLine (utf8_encode s).

Record Report := mkReport { r_ref : jsstr; r_ok : bool; r_error : option jsstr }.

Definition report_frame (sideband : bool) (line : jsstr) : result bytes :=
  let! inner := text_line line in
  if sideband then encodePktLine (1 :: inner) else Ok inner.

Definition report_line (r : Report) : jsstr :=
  if r_ok r then lit "ok " ++ r_ref r ++ [10]
  else lit "ng " ++ r_ref r ++ [32] ++ default (lit "rejected") (r_error r) ++ [10].

Definition buildReportStatusResponse (reports : list Report) (sideband : bool) : result bytes :=
  frames (report_frame sideband (lit "unpack ok" ++ [10])
          :: map (fun r => report_frame sideband (report_line r)) reports ++ [Ok FLUSH]).

(** [`\0${caps.join(" ")}\n`]. *)
Definition caps_suffix (l : Listing) : jsstr :=
  [0] ++ join 32 ([lit "side-band-64k"; lit "ofs-delta"; lit "agent=" ++ AGENT]
                  ++ match head_ref l with Some (c :: h) => [lit "symref=HEAD:" ++ (c :: h)] | _ => [] end) ++ [10].

(** The lines of the refs; the first line of all carries the capabilities. *)
Fixpoint advertised (suffix : jsstr) (first : bool) (refs : jsmap jsstr) : list jsstr :=
  match refs with
  | [] => []
  | (ref, sha) :: refs => (sha ++ [32] ++ ref ++ (if first then suffix else [10])) :: advertised suffix false refs
  end.

Definition info_lines (l : Listing) : list jsstr :=
  let suffix := caps_suffix l in
  match listed l with
  | [] => [replicate 40 48 ++ lit " capabilities^{}" ++ suffix]
  | refs =>
      match match head_ref l with Some h => get h refs | None => None end with
      | Some sha => (sha ++ lit " HEAD" ++ suffix) :: advertised suffix false refs
      | None => advertised suffix true refs
      end
  end.

Definition buildInfoRefsResponse (l : Listing) (service : jsstr) : result bytes :=
  frames (text_line (lit "# service=" ++ service ++ [10]) :: Ok FLUSH :: map text_line (info_lines l) ++ [Ok FLUSH]).

Definition buildUploadPackResponse (pack : bytes) : result bytes :=
  frames (text_line (lit "NAK" ++ [10]) :: map (fun chunk => encodePktLine (1 :: chunk)) (chunkBytes pack SIDEBAND_MAX)).

(** ** The transport *)

Record Req := mkReq { method : jsstr; url : jsstr; body : bytes }.

Record Resp := mkResp {
  resp_url : jsstr;
  resp_method : jsstr;
  statusCode : Z;
  statusMessage : jsstr;
  content_type : jsstr;
  resp_body : list bytes;
}.

Definition badRequest (url method message : jsstr) : Resp :=
  mkResp url method 500 (take 60 message) (lit "text/plain") (asyncIteratorFromBytes (utf8_encode message) (Z.to_nat 65536)).

Definition good (r : Req) (type : jsstr) (bytes : bytes) : Resp :=
  mkResp (url r) (method r) 200 (lit "OK") type (asyncIteratorFromBytes bytes (Z.to_nat 65536)).

Definition packObjectCount (pack : bytes) : Z := if zlen pack <? 12 then 0 else readUint32 pack 8.

Inductive Endpoint := InfoRefs | UploadPack | ReceivePackEnd.

(** refs/heads/* are preferred among the refs of one object. *)
Definition by_sha (refs : jsmap jsstr) : jsmap jsstr :=
  fold_left (fun m '(ref, sha) =>
    match get sha m with
    | None => mset sha ref m
    | Some existing =>
        if startsWith (lit "refs/heads/") ref && negb (startsWith (lit "refs/heads/") existing) then mset sha ref m else m
    end) refs [].

Fixpoint wanted_refs (bySha : jsmap jsstr) (wants : list jsstr) : result (list WantedRef) :=
  match wants with
  | [] => Ok []
  | sha :: wants =>
      match get sha bySha with
      | None => Throw (JsError "Requested object is not advertised by the rngit node")
      | Some ref => let! rest := wanted_refs bySha wants in Ok (mkWanted sha ref None :: rest)
      end
  end.

(** The platform's URL parser, SHA-1 and compressor, and the local object
    store; [fuel] is that of the loops over what was received. *)
Section Transport.
Context (URL : jsstr -> option ParsedUrl) (sha1 deflate : bytes -> bytes).
Context (readObject : option (jsstr -> result (jsstr * bytes))) (fuel : nat).
Context (client : RngitClient) (force : bool).

Definition classifyRequest (url : jsstr) : result (RemoteUrl * Endpoint * option jsstr) :=
  match fromPlaceholderHttpUrl URL url, URL url with
  | Some remote, Some parsed =>
      let path := drop (length ([47] ++ hashHex remote ++ [47] ++ group remote ++ [47] ++ repo remote)) (pathname parsed) in
      if bool_decide (path = lit "/info/refs") then Ok (remote, InfoRefs, service_param parsed)
      else if bool_decide (path = lit "/git-upload-pack") then Ok (remote, UploadPack, None)
      else if bool_decide (path = lit "/git-receive-pack") then Ok (remote, ReceivePackEnd, None)
      else Throw (JsError "Unsupported rngit transport URL")
  | _, _ => Throw (JsError "rngit transport received a non-rngit URL")
  end.

Definition wantsToRefs (cache : option Listing) (wants : list jsstr) : result (list WantedRef) :=
  match cache with
  | Some l => wanted_refs (by_sha (listed l)) wants
  | None => Throw (TypeError "Cannot read properties of null (reading 'refs')")
  end.

(** The cache after a request, and its response; [None]: a loop goes on. *)
Definition reply : Type := option Listing * option (outcome Resp).

Definition settle (cache : option Listing) (r : dec Resp) : reply :=
  (cache, match r with Some (Ok r) => Some (Done r) | Some (Throw e) => Some (Failed (Fault e)) | None => None end).

Definition info_refs (cache : option Listing) (req : Req) (service : option jsstr) : call reply :=
  if negb (bool_decide (method req = lit "GET")) then
    Ret (settle cache (dret (badRequest (url req) (method req) (method req ++ lit " not allowed for info/refs"))))
  else
    let service' := default (lit "(none)") service in
    if negb (bool_decide (service = Some (lit "git-upload-pack")) || bool_decide (service = Some (lit "git-receive-pack"))) then
      Ret (settle cache (dret (badRequest (url req) (method req) (lit "Unsupported service: " ++ service'))))
    else
      let respond l := settle (Some l) (Some (let! b := buildInfoRefsResponse l service' in
                         Ok (good req (lit "application/x-" ++ service' ++ lit "-advertisement") b))) in
      match cache with
      | Some l => Ret (respond l)
      | None =>
          cbind (list_refs client (bool_decide (service = Some (lit "git-receive-pack")))) (fun r =>
          Ret (match r with Done l => respond l | Failed e => (None, Some (Failed e)) end))
      end.

(** The pack of the response: what the bundle holds, made self-contained. *)
Definition upload_pack (bundle : option bytes) : dec bytes :=
  match bundle with
  | Some b => dbind (parseBundle b) (fun parsed => fattenPack sha1 deflate readObject fuel (pack parsed))
  | None => dret (emptyPack sha1)
  end.

Definition upload (cache : option Listing) (req : Req) : call reply :=
  if negb (bool_decide (method req = lit "POST")) then
    Ret (settle cache (dret (badRequest (url req) (method req) (method req ++ lit " not allowed"))))
  else
    match parseUploadPackRequest fuel (body req) with
    | None => Ret (cache, None)
    | Some (Throw e) => Ret (settle cache (dthrow e))
    | Some (Ok ([], _)) => Ret (settle cache (dret (badRequest (url req) (method req) (lit "Empty upload-pack request"))))
    | Some (Ok (wants, haves)) =>
        match wantsToRefs cache wants with
        | Throw e => Ret (settle cache (dthrow e))
        | Ok refs =>
            cbind (fetch client refs haves) (fun r =>
            Ret (match r with
                 | Failed e => (cache, Some (Failed e))
                 | Done bundle =>
                     settle cache (dbind (upload_pack bundle) (fun pack =>
                       Some (let! b := buildUploadPackResponse pack in
                             Ok (good req (lit "application/x-git-upload-pack-result") b))))
                 end))
        end
    end.

(** What the node is asked for a command; the outcome is reported. *)
Definition update (c : Command) (p : option bytes) : call (outcome unit) :=
  if bool_decide (c_new c = replicate 40 48) then
    match p with
    | Some _ => Ret (Failed (Fault (JsError "unexpected pack bytes for a deletion")))
    | None => deleteRef client (c_ref c)
    end
  else
    match p with
    | Some p =>
        if 0 <? packObjectCount p then push client (c_ref c) (Some (buildBundle [(c_new c, c_ref c)] p)) (c_new c) force
        else push client (c_ref c) None (c_new c) force
    | None => push client (c_ref c) None (c_new c) force
    end.

Definition report_of (c : Command) (r : outcome unit) : Report :=
  match r with
  | Done _ => mkReport (c_ref c) true None
  | Failed e => mkReport (c_ref c) false (Some (collapse false (message_of e)))
  end.

Definition uses_sideband (caps : list jsstr) : bool :=
  existsb (fun cap => bool_decide (hd [] (split_on 61 cap) = lit "side-band-64k")) caps.

Definition receive (cache : option Listing) (req : Req) : call reply :=
  if negb (bool_decide (method req = lit "POST")) then
    Ret (settle cache (dret (badRequest (url req) (method req) (method req ++ lit " not allowed"))))
  else
    match parseReceivePackRequest fuel (body req) with
    | None => Ret (cache, None)
    | Some (Throw e) => Ret (settle cache (dthrow e))
    | Some (Ok rp) =>
        match commands rp with
        | [c] =>
            cbind (update c (rp_pack rp)) (fun r =>
            Ret (settle cache (Some (let! b := buildReportStatusResponse [report_of c r] (uses_sideband (capabilities rp)) in
                                     Ok (good req (lit "application/x-git-receive-pack-result") b)))))
        | cs =>
            Ret (settle cache (dret (badRequest (url req) (method req)
              (lit "expected exactly one ref update per push, got " ++ lit (pretty (N.of_nat (length cs)))))))
        end
    end.

(** [request] of the http plugin; the cache is that of the transport. *)
Definition request (cache : option Listing) (req : Req) : call reply :=
  match classifyRequest (url req) with
  | Throw e => Ret (settle cache (dthrow e))
  | Ok (_, InfoRefs, service) => info_refs cache req service
  | Ok (_, UploadPack, _) => upload cache req
  | Ok (_, ReceivePackEnd, _) => receive cache req
  end.

End Transport.
