(* ===== verification/GitTransportSpec.v ===== *)
(** * GitTransportSpec: what git's requests do and what its client reads

    Requests as git writes them are parsed as they were meant, responses are
    read back with the decoder of [GitPkt], and a fetch and a push go through
    the whole bridge. *)

From S2P Require Import Prelude Encoding JsMap Utf8 MsgPack JsString GitPkt GitPack GitBundle GitProtocol GitTransport.
#[local] Open Scope Z_scope.

(** ** Headers *)

Lemma hex_digit_cases d : 0 <= d < 16 -> In d (map Z.of_nat (seq 0 16)).
Proof. intros Hd. apply in_map_iff. exists (Z.to_nat d). split; [lia|]. apply in_seq. lia. Qed.

Lemma parse_int16_digits a b s : 0 <= a < 16 -> 0 <= b < 16 ->
  parse_int16 (hex_digit a :: hex_digit b :: s) = Z.mul 1 <$> hex_prefix None (hex_digit a :: hex_digit b :: s).
Proof.
  intros Ha%hex_digit_cases Hb%hex_digit_cases. cbn in Ha, Hb.
  repeat (destruct Ha as [<-|Ha]; [repeat (destruct Hb as [<-|Hb]; [reflexivity|]); destruct Hb|]). destruct Ha.
Qed.

Lemma pkt_header_ascii n : 0 <= n < 65536 -> ascii (pkt_header n).
Proof.
  intros Hn. unfold pkt_header, ascii. cbn [map]. rewrite !pkt_digit by lia.
  assert (H : forall k, 0 <= hex_digit ((n / 2 ^ k) mod 16) < 128).
  { intros k. pose proof (Z.mod_pos_bound (n / 2 ^ k) 16 ltac:(lia)). unfold hex_digit. case_match; lia. }
  repeat (constructor; [apply H|]). constructor.
Qed.

Lemma parseInt16_header n : 0 <= n < 65536 -> parseInt16 (utf8_decode (pkt_header n)) = Some n.
Proof.
  intros Hn. pose proof (pkt_header_ascii n Hn) as Ha. rewrite <- (utf8_encode_ascii _ Ha) at 1.
  rewrite utf8_decode_encode by (by apply ascii_wf_str). pose proof (header_value_spec n Hn) as Hv. clear Ha.
  unfold pkt_header in *. cbn [map] in *. rewrite !pkt_digit in * by lia.
  pose proof (Z.mod_pos_bound (n / 2 ^ 12) 16 ltac:(lia)). pose proof (Z.mod_pos_bound (n / 2 ^ 8) 16 ltac:(lia)).
  pose proof (Z.mod_pos_bound (n / 2 ^ 4) 16 ltac:(lia)). pose proof (Z.mod_pos_bound (n / 2 ^ 0) 16 ltac:(lia)).
  unfold parseInt16, header_value in *. rewrite !hex_val_digit in Hv by done. rewrite trim_start_id.
  - rewrite parse_int16_digits, Hv by done. cbn [fmap option_fmap option_map]. by rewrite Z.mul_1_l.
  - cbn beta iota. unfold is_space, hex_digit. case_match; lia.
Qed.

(** ** Lines *)

Lemma subarray_pre pre l suf : subarray (zlen pre) (zlen pre + zlen l) (pre ++ l ++ suf) = l.
Proof.
  pose proof (zlen_nonneg pre). pose proof (zlen_nonneg l). pose proof (zlen_nonneg suf). unfold subarray.
  rewrite !(proj2 (Z.ltb_ge _ 0)), !zlen_app, !Z.min_l by lia. unfold zlen. rewrite Nat2Z.id.
  replace (Z.to_nat _) with (length pre + length l)%nat by lia. unfold slice.
  rewrite drop_app_length. apply take_app_length'. lia.
Qed.

Lemma subarray_rest pre suf : subarray (zlen pre) (zlen (pre ++ suf)) (pre ++ suf) = suf.
Proof. rewrite zlen_app. pose proof (subarray_pre pre suf []) as H. by rewrite app_nil_r in H. Qed.

Lemma frame_at pre b suf : zlen b <= 65531 ->
  let body := pre ++ pkt_frame (Some b) ++ suf in
  (zlen body <? zlen pre + 4) = false
  /\ subarray (zlen pre) (zlen pre + 4) body = pkt_header (zlen b + 4)
  /\ subarray (zlen pre + 4) (zlen pre + (zlen b + 4)) body = b
  /\ zlen pre + (zlen b + 4) = zlen (pre ++ pkt_frame (Some b)).
Proof.
  intros Hb body. pose proof (zlen_nonneg b). pose proof (zlen_nonneg suf). pose proof (zlen_nonneg pre).
  assert (Hh : zlen (pkt_header (zlen b + 4)) = 4) by done. unfold body. cbn [pkt_frame].
  split; [|split; [|split]].
  - rewrite !zlen_app, Hh. lia.
  - rewrite <- app_assoc. replace (zlen pre + 4) with (zlen pre + zlen (pkt_header (zlen b + 4))) by lia. apply subarray_pre.
  - rewrite <- app_assoc, (app_assoc pre).
    replace (zlen pre + 4) with (zlen (pre ++ pkt_header (zlen b + 4))) by (rewrite zlen_app; lia).
    replace (zlen pre + (zlen b + 4)) with (zlen (pre ++ pkt_header (zlen b + 4)) + zlen b) by (rewrite zlen_app; lia).
    apply subarray_pre.
  - rewrite !zlen_app. lia.
Qed.

Lemma flush_at pre suf :
  let body := pre ++ FLUSH ++ suf in
  (zlen body <? zlen pre + 4) = false /\ parseInt16 (utf8_decode (subarray (zlen pre) (zlen pre + 4) body)) = Some 0
  /\ zlen pre + 4 = zlen (pre ++ FLUSH).
Proof.
  intros body. pose proof (zlen_nonneg suf). pose proof (zlen_nonneg pre). unfold body.
  assert (H4 : zlen FLUSH = 4) by done. split; [|split].
  - rewrite !zlen_app. lia.
  - replace (zlen pre + 4) with (zlen pre + zlen FLUSH) by lia. rewrite subarray_pre. reflexivity.
  - rewrite zlen_app. lia.
Qed.

(** The texts of lines that are written in UTF-8. *)
Definition text_frame (l : option jsstr) : option bytes := utf8_encode <$> l.
Definition text_ok (l : option jsstr) : Prop := match l with Some s => wf_str s /\ zlen (utf8_encode s) <= 65531 | None => True end.

Lemma request_lines_read ls : Forall text_ok ls -> forall fuel pre, (length ls <= fuel)%nat ->
  request_lines fuel (pre ++ concat (map (fun l => pkt_frame (text_frame l)) ls)) (zlen pre) = dret ls.
Proof.
  induction 1 as [|l ls Hl _ IH]; intros fuel pre Hf; cbn [map concat length] in *.
  { rewrite app_nil_r. destruct fuel; cbn [request_lines]; by rewrite (proj2 (Z.ltb_lt _ _)) by lia. }
  destruct fuel as [|fuel]; [lia|]. cbn [request_lines]. destruct l as [s|]; cbn [text_frame fmap option_fmap option_map] in *.
  - destruct Hl as [Hw Hlen]. destruct (frame_at pre _ (concat (map (fun l => pkt_frame (text_frame l)) ls)) Hlen) as (E1 & E2 & E3 & E4).
    pose proof (zlen_nonneg (utf8_encode s)). rewrite E1, E2, parseInt16_header by lia.
    rewrite (proj2 (Z.eqb_neq _ _)) by lia. unfold line_at. rewrite E3, E4, app_assoc, IH by lia. cbn [dbind dret].
    by rewrite utf8_decode_encode.
  - change (pkt_frame None) with FLUSH. destruct (flush_at pre (concat (map (fun l => pkt_frame (text_frame l)) ls))) as (E1 & E2 & E3). rewrite E1, E2.
    cbn [Z.eqb]. rewrite E3, app_assoc, IH by lia. done.
Qed.

(** ** The upload-pack request *)

Definition oid_ok (sha : jsstr) : Prop := sha_ok sha /\ zlen sha = 40.

#[global] Instance oid_ok_dec sha : Decision (oid_ok sha).
Proof. unfold oid_ok. apply _. Defined.

(** The first want carries the capabilities. *)
Definition want_line '((sha, tail) : jsstr * jsstr) : jsstr := lit "want " ++ sha ++ tail.
Definition have_line (sha : jsstr) : jsstr := lit "have " ++ sha ++ [10].

Definition upload_lines (wants : list (jsstr * jsstr)) (haves : list jsstr) : list (option jsstr) :=
  map (fun w => Some (want_line w)) wants ++ [None] ++ map (fun h => Some (have_line h)) haves ++ [Some (lit "done" ++ [10])].

Definition want_ok '((sha, tail) : jsstr * jsstr) : Prop := oid_ok sha /\ ascii tail /\ zlen tail <= 65000.

#[global] Instance want_ok_dec w : Decision (want_ok w).
Proof. destruct w. unfold want_ok. apply _. Defined.

Lemma printable_space c : 33 <= c < 127 -> is_space c = false.
Proof. unfold is_space. intros H. repeat (apply orb_false_iff; split); lia. Qed.

Lemma sha_ok_trimmed sha : sha_ok sha -> trimmed sha.
Proof.
  intros (_ & H & _). unfold trimmed. split.
  - destruct H; [done|]. by apply printable_space.
  - apply Forall_rev in H. destruct H; [done|]. by apply printable_space.
Qed.

Lemma line_sha_oid pre sha tail : length pre = 5%nat -> oid_ok sha -> line_sha (pre ++ sha ++ tail) = sha.
Proof.
  intros Hp [Hs Hl]. unfold line_sha, slice. rewrite <- Hp, drop_app_length. unfold zlen in Hl.
  rewrite take_app_length' by lia. apply trim_trimmed, sha_ok_trimmed, Hs.
Qed.

Lemma ascii_app s t : ascii s -> ascii t -> ascii (s ++ t).
Proof. intros. by apply Forall_app_2. Qed.

Lemma ascii_text s : ascii s -> zlen s <= 65531 -> text_ok (Some s).
Proof. intros Ha Hl. split; [by apply ascii_wf_str|]. by rewrite utf8_encode_ascii. Qed.

Lemma upload_lines_ok wants haves : Forall want_ok wants -> Forall oid_ok haves -> Forall text_ok (upload_lines wants haves).
Proof.
  intros Hw Hh. unfold upload_lines. apply Forall_app_2; [|apply Forall_app_2; [|apply Forall_app_2]].
  - apply Forall_map. eapply Forall_impl; [exact Hw|]. intros [sha tail] ([Hs Hl] & Ha & Ht). apply ascii_text.
    + apply ascii_app; [apply (bool_decide_unpack _); reflexivity|]. apply ascii_app; [by apply sha_ok_ascii|done].
    + cbn [want_line]. rewrite !zlen_app. change (zlen (lit "want ")) with 5. lia.
  - constructor; [exact I|constructor].
  - apply Forall_map. eapply Forall_impl; [exact Hh|]. intros sha [Hs Hl]. apply ascii_text.
    + apply ascii_app; [apply (bool_decide_unpack _); reflexivity|]. apply ascii_app; [by apply sha_ok_ascii|].
      apply (bool_decide_unpack _); reflexivity.
    + unfold have_line. rewrite !zlen_app. change (zlen (lit "have ")) with 5. change (zlen [10]) with 1. lia.
  - constructor; [|constructor]. apply ascii_text; [apply (bool_decide_unpack _); reflexivity|vm_compute; congruence].
Qed.

Lemma wants_read ws rest : Forall want_ok ws -> forall wants haves,
  wants_haves (map (fun w => Some (want_line w)) ws ++ rest) wants haves = wants_haves rest (wants ++ map fst ws) haves.
Proof.
  induction 1 as [|[sha tail] ws (Ho & _ & _) _ IH]; intros wants haves; cbn [map app fst]; [by rewrite app_nil_r|].
  cbn [wants_haves want_line]. rewrite startsWith_app, line_sha_oid by done. destruct Ho as [_ Hl].
  rewrite Hl. cbn [Z.eqb Pos.eqb]. by rewrite IH, <- app_assoc.
Qed.

Lemma haves_read hs rest : Forall oid_ok hs -> forall wants haves,
  wants_haves (map (fun h => Some (have_line h)) hs ++ rest) wants haves = wants_haves rest wants (haves ++ hs).
Proof.
  induction 1 as [|sha hs Ho _ IH]; intros wants haves; cbn [map app]; [by rewrite app_nil_r|].
  cbn [wants_haves]. unfold have_line. replace (startsWith (lit "want ") (lit "have " ++ sha ++ [10])) with false by done.
  rewrite startsWith_app, line_sha_oid by done. destruct Ho as [_ Hl]. rewrite Hl. cbn [Z.eqb Pos.eqb]. by rewrite IH, <- app_assoc.
Qed.

Definition upload_body (wants : list (jsstr * jsstr)) (haves : list jsstr) : bytes :=
  concat (map (fun l => pkt_frame (text_frame l)) (upload_lines wants haves)).

Lemma upload_request_read wants haves fuel : Forall want_ok wants -> Forall oid_ok haves ->
  (length wants + length haves + 2 <= fuel)%nat ->
  parseUploadPackRequest fuel (upload_body wants haves) = dret (map fst wants, haves).
Proof.
  intros Hw Hh Hf. unfold parseUploadPackRequest, upload_body.
  pose proof (request_lines_read _ (upload_lines_ok wants haves Hw Hh) fuel []) as H. cbn [app] in H.
  change (zlen (@nil Z)) with 0 in H. rewrite H; cycle 1.
  { unfold upload_lines. rewrite !length_app, !length_map. cbn [length]. lia. }
  cbn [dbind dret]. unfold upload_lines. rewrite wants_read by done. cbn [app wants_haves]. rewrite haves_read by done. reflexivity.
Qed.

(** A flush and a line that goes back to it: the loop never ends. *)
Theorem signed_length_never_ends (fuel : nat) :
  parseUploadPackRequest fuel (lit "0000-004") = None.
Proof.
  unfold parseUploadPackRequest.
  assert (H : forall n, request_lines n (lit "0000-004") 0 = None /\ request_lines n (lit "0000-004") 4 = None).
  { induction n as [|n [IH1 IH2]]; [done|]. split.
    - change (dbind (request_lines n (lit "0000-004") 4) (fun ls => dret (None :: ls)) = None). by rewrite IH2.
    - change (dbind (request_lines n (lit "0000-004") 0) (fun ls => dret (Some (line_at (lit "0000-004") 4 (-4)) :: ls)) = None).
      by rewrite IH1. }
  by rewrite (proj1 (H fuel)).
Qed.

(** ** The receive-pack request *)

(** One command with the capabilities behind it, a flush and the pack. *)
Definition command_text (c : Command) (caps : jsstr) : jsstr :=
  c_old c ++ [32] ++ c_new c ++ [32] ++ c_ref c ++ [0] ++ caps.

Definition receive_body (c : Command) (caps : jsstr) (p : bytes) : bytes :=
  pkt_frame (Some (utf8_encode (command_text c caps))) ++ FLUSH ++ p.

(** The name of a ref has neither spaces nor NUL. *)
Definition command_ok (c : Command) : Prop :=
  oid_ok (c_old c) /\ oid_ok (c_new c) /\ c_ref c <> [] /\ wf_utf16 (c_ref c) = true
  /\ Forall (fun x => 0 < x /\ is_space x = false) (c_ref c).

Lemma command_split c : command_ok c ->
  trim (c_old c ++ [32] ++ c_new c ++ [32] ++ c_ref c) = c_old c ++ [32] ++ c_new c ++ [32] ++ c_ref c
  /\ split_on 32 (c_old c ++ [32] ++ c_new c ++ [32] ++ c_ref c) = [c_old c; c_new c; c_ref c]
  /\ ~ In 0 (c_old c ++ [32] ++ c_new c ++ [32] ++ c_ref c).
Proof.
  intros ([Ho _] & [Hn _] & Hne & _ & Hr). rewrite List.Forall_forall in Hr.
  assert (Hno : forall x, In x (c_ref c) -> x <> 32 /\ x <> 0).
  { intros x Hx. destruct (Hr x Hx) as [H1 H2]. split; [intros ->; by vm_compute in H2|lia]. }
  split; [|split].
  - apply trim_trimmed. split.
    + destruct Ho as (H1 & H2 & _). destruct (c_old c); [done|]. inv H2. by apply printable_space.
    + rewrite !rev_app_distr. destruct (rev (c_ref c)) as [|x l] eqn:E.
      { apply (f_equal (@rev Z)) in E. by rewrite rev_involutive in E. }
      cbn [app]. apply Hr. rewrite in_rev, E. by left.
  - cbn [app]. rewrite split_on_app by (apply (sha_ok_no _ _ Ho); lia). rewrite split_on_app by (apply (sha_ok_no _ _ Hn); lia).
    rewrite split_on_none; [done|]. intros Hx. by destruct (Hno 32 Hx).
  - rewrite !in_app_iff. intros [Hx|[[|[]]|[Hx|[[|[]]|Hx]]]]; try lia;
      [by apply (sha_ok_no _ _ Ho) in Hx; [|lia]|by apply (sha_ok_no _ _ Hn) in Hx; [|lia]|by destruct (Hno 0 Hx)].
Qed.

Lemma receive_request_read c caps p fuel : command_ok c -> wf_utf16 caps = true ->
  zlen (utf8_encode (command_text c caps)) <= 65531 -> (2 <= fuel)%nat ->
  parseReceivePackRequest fuel (receive_body c caps p)
  = dret (mkReceive [c] (words (trim caps)) (if (length p =? 0)%nat then None else Some p)).
Proof.
  intros Hc Hw Hl Hf. destruct (command_split c Hc) as (Ht & Hs & H0). unfold parseReceivePackRequest, receive_body.
  destruct fuel as [|[|fuel]]; [lia..|]. cbn [command_lines].
  destruct (frame_at [] (utf8_encode (command_text c caps)) (FLUSH ++ p) Hl) as (E1 & E2 & E3 & E4). cbn [app] in E1, E2, E3, E4.
  change (zlen (@nil Z)) with 0 in E1, E2, E3, E4. pose proof (zlen_nonneg (utf8_encode (command_text c caps))).
  rewrite E1, E2, parseInt16_header by lia. rewrite (proj2 (Z.eqb_neq _ _)) by lia. unfold line_at. rewrite E3, E4.
  destruct Hc as ([Ho _] & [Hn _] & Hne & Hwr & _).
  assert (Hwc : wf_utf16 (command_text c caps) = true).
  { unfold command_text. pose proof (ascii_wf _ (sha_ok_ascii _ Ho)). pose proof (ascii_wf _ (sha_ok_ascii _ Hn)).
    repeat (apply wf_utf16_app; [done|]). done. }
  assert (Hd : utf8_decode (utf8_encode (command_text c caps)) = command_text c caps).
  { apply utf8_decode_encode. split; [done|]. unfold command_text. pose proof (sha_ok_ascii _ Ho) as Ha.
    destruct Ho as [Hno _]. destruct (c_old c); [done|]. inv Ha. cbn. unfold BOM. intros [= ->]. lia. }
  rewrite Hd. assert (Hx : command_text c caps = (c_old c ++ [32] ++ c_new c ++ [32] ++ c_ref c) ++ 0 :: caps).
  { unfold command_text. by rewrite <- !app_assoc. }
  rewrite Hx, index_of_app, take_app_length by done. rewrite <- Hx.
  replace (drop (S _) _) with caps; cycle 1.
  { rewrite Hx. symmetry. rewrite <- Nat.add_1_r, <- drop_drop, drop_app_length. done. }
  rewrite Ht, Hs. cbn [app]. clear Hx Hd.
  destruct (flush_at (pkt_frame (Some (utf8_encode (command_text c caps)))) p) as (F1 & F2 & F3). rewrite F1, F2. cbn [Z.eqb].
  cbn [dbind dret]. rewrite F3, app_assoc, subarray_rest. destruct c. done.
Qed.

(** ** Responses *)

Lemma frames_ok bs : frames (map (fun l => match l with Some b => encodePktLine b | None => Ok FLUSH end) bs)
  = if bool_decide (Forall pkt_ok bs) then Ok (concat (map pkt_frame bs))
    else Throw (JsError "pkt-line payload too long (max 65531 bytes)").
Proof.
  induction bs as [|l bs IH]; [done|]. cbn [map frames concat]. rewrite IH. destruct l as [b|].
  - unfold encodePktLine. destruct (65535 <? zlen b + 4) eqn:E; bools; cbn [rbind].
    + rewrite bool_decide_eq_false_2; [done|]. intros H. inv H. cbn in *. lia.
    + destruct (decide (Forall pkt_ok bs)) as [H|H].
      * rewrite !bool_decide_eq_true_2; [done| |done]. constructor; [cbn; lia|done].
      * rewrite !bool_decide_eq_false_2; [done| |done]. intros H'. by inv H'.
  - cbn [rbind]. destruct (decide (Forall pkt_ok bs)) as [H|H].
    + rewrite !bool_decide_eq_true_2; [done| |done]. by constructor.
    + rewrite !bool_decide_eq_false_2; [done| |done]. intros H'. by inv H'.
Qed.

(** The lines of a response that is written. *)
Lemma frames_read parts bs b : parts = map (fun l => match l with Some b => encodePktLine b | None => Ok FLUSH end) bs ->
  frames parts = Ok b -> decodePktLines b = dret bs.
Proof.
  intros ->. rewrite frames_ok. case_bool_decide; [|done]. intros [= <-]. by apply pkt_lines_frames.
Qed.

(** What the side band 1 of the lines carries. *)
Fixpoint band1 (lines : list (option bytes)) : bytes :=
  match lines with
  | Some (1 :: b) :: lines => b ++ band1 lines
  | _ :: lines => band1 lines
  | [] => []
  end.

Lemma band1_chunks cs rest : band1 (map (fun c => Some (1 :: c)) cs ++ rest) = concat cs ++ band1 rest.
Proof. induction cs as [|c cs IH]; [done|]. cbn [map app band1 concat]. by rewrite IH, <- app_assoc. Qed.

(** The response to an upload-pack request is a NAK and the pack in side band
    1, whatever its size. *)
Lemma upload_response_read p : exists b lines, buildUploadPackResponse p = Ok b
  /\ decodePktLines b = dret (Some (lit "NAK" ++ [10]) :: lines) /\ Forall (fun l => exists c, l = Some (1 :: c)) lines /\ band1 lines = p.
Proof.
  set (lines := map (fun c => Some (1 :: c)) (chunkBytes p SIDEBAND_MAX)).
  assert (E : text_line (lit "NAK" ++ [10]) :: map (fun chunk => encodePktLine (1 :: chunk)) (chunkBytes p SIDEBAND_MAX)
    = map (fun l => match l with Some b => encodePktLine b | None => Ok FLUSH end) (Some (lit "NAK" ++ [10]) :: lines)).
  { unfold lines. cbn [map]. by rewrite map_map. }
  assert (Hok : Forall pkt_ok (Some (lit "NAK" ++ [10]) :: lines)).
  { constructor; [vm_compute; congruence|]. apply Forall_map. eapply Forall_impl; [apply chunkBytes_bound|].
    intros c Hc. cbn [pkt_ok]. rewrite zlen_cons. unfold zlen, SIDEBAND_MAX in *. lia. }
  exists (concat (map pkt_frame (Some (lit "NAK" ++ [10]) :: lines))), lines. unfold buildUploadPackResponse. rewrite E, frames_ok.
  rewrite bool_decide_eq_true_2 by done. split; [done|]. split; [by apply pkt_lines_frames|]. split.
  - apply Forall_map, List.Forall_forall. intros c _. by exists c.
  - unfold lines. pose proof (band1_chunks (chunkBytes p SIDEBAND_MAX) []) as H. rewrite !app_nil_r in H. rewrite H.
    apply chunkBytes_concat. unfold SIDEBAND_MAX. lia.
Qed.

(** The lines of a report, and where they stand in the response. *)
Definition report_payloads (reports : list Report) : list bytes :=
  map utf8_encode ((lit "unpack ok" ++ [10]) :: map report_line reports).

Definition report_lines_read (sideband : bool) (lines : list (option bytes)) : dec (list (option bytes)) :=
  if sideband then decodePktLines (band1 lines) else dret lines.

Lemma report_response_read reports sideband b : buildReportStatusResponse reports sideband = Ok b ->
  exists lines, decodePktLines b = dret (lines ++ [None]) /\ report_lines_read sideband lines = dret (map Some (report_payloads reports)).
Proof.
  unfold buildReportStatusResponse. set (texts := (lit "unpack ok" ++ [10]) :: map report_line reports).
  assert (E : report_frame sideband (lit "unpack ok" ++ [10]) :: map (fun r => report_frame sideband (report_line r)) reports ++ [Ok FLUSH]
    = map (report_frame sideband) texts ++ [Ok FLUSH]) by (unfold texts; cbn [map app]; by rewrite map_map).
  rewrite E. clear E. intros Hb.
  assert (Hin : Forall (fun t => zlen (utf8_encode t) <= 65531) texts).
  { revert Hb. generalize texts. clear. intros texts. revert b. induction texts as [|t texts IH]; intros b; [constructor|].
    cbn [map app frames]. unfold report_frame at 1, text_line, encodePktLine at 1. case_match; bools; [done|]. cbn [rbind].
    intros Hb. constructor; [lia|]. match goal with H : rbind ?m _ = Ok _ |- _ => destruct m; [|done] end. cbn [rbind] in Hb.
    destruct (frames _) eqn:Ef; [|done]. by apply (IH a0). }
  destruct sideband.
  - set (lines := map (fun t => Some (1 :: pkt_frame (Some (utf8_encode t)))) texts).
    assert (E : map (report_frame true) texts ++ [Ok FLUSH]
      = map (fun l => match l with Some b => encodePktLine b | None => Ok FLUSH end) (lines ++ [None])).
    { unfold lines. rewrite map_app, map_map. f_equal. apply map_ext_in. intros t Ht. rewrite List.Forall_forall in Hin.
      unfold report_frame, text_line. by rewrite encodePktLine_frame by (by apply Hin). }
    exists lines. split; [eapply frames_read; [exact E|exact Hb]|]. unfold report_lines_read, lines.
    pose proof (band1_chunks (map (fun t => pkt_frame (Some (utf8_encode t))) texts) []) as H.
    rewrite map_map, !app_nil_r in H. rewrite H. unfold report_payloads. fold texts.
    rewrite <- (pkt_lines_frames (map Some (map utf8_encode texts))) with (fuel := length (concat (map pkt_frame (map Some (map utf8_encode texts))))).
    + unfold decodePktLines. by rewrite !map_map.
    + rewrite map_map. apply Forall_map. exact Hin.
    + done.
  - exists (map Some (report_payloads reports)). split; [|done]. eapply frames_read; [|exact Hb].
    unfold report_payloads. fold texts. rewrite map_app, !map_map. f_equal. apply map_ext. intros t. unfold report_frame, text_line. by destruct (encodePktLine _).
Qed.

(** ** URLs *)

Definition segment_ok (s : jsstr) : Prop := s <> [] /\ ~ In 47 s.

Definition url_ok (u : RemoteUrl) : Prop :=
  zlen (hashHex u) = 32 /\ forallb is_hex (hashHex u) = true /\ lower (hashHex u) = hashHex u
  /\ segment_ok (group u) /\ segment_ok (repo u) /\ repoPath u = group u ++ [47] ++ repo u.

Definition remote_path (u : RemoteUrl) : jsstr := hashHex u ++ [47] ++ group u ++ [47] ++ repo u.

Lemma hex_no c s : forallb is_hex s = true -> hex_val c = None -> ~ In c s.
Proof. intros H Hc Hin. rewrite forallb_forall in H. specialize (H c Hin). unfold is_hex in H. by rewrite Hc in H. Qed.

Lemma hash_segment u : url_ok u -> segment_ok (hashHex u).
Proof.
  intros (Hl & Hh & _). split; [intros E; by rewrite E in Hl|]. by apply (hex_no 47 _ Hh).
Qed.

Lemma nonempty_true s : s <> [] -> nonempty s = true.
Proof. intros H. unfold nonempty. by rewrite bool_decide_eq_false_2. Qed.

Lemma path_segments a b c rest : segment_ok a -> segment_ok b -> segment_ok c ->
  List.filter nonempty (split_on 47 (a ++ [47] ++ b ++ [47] ++ c ++ rest))
  = a :: b :: List.filter nonempty (split_on 47 (c ++ rest)).
Proof.
  intros [Ha Ha'] [Hb Hb'] [Hc Hc']. cbn [app]. rewrite split_on_app, split_on_app by done. cbn [List.filter].
  by rewrite !nonempty_true.
Qed.

(** What is read behind the scheme. *)
Definition read_path (rest : jsstr) : result RemoteUrl :=
  match List.filter nonempty (split_on 47 rest) with
  | [hashHex; group; repo] =>
      if negb (zlen hashHex =? DESTINATION_HASH_HEX_LENGTH) then Throw (JsError "Destination hash must be 32 hex characters") else
      if negb (forallb is_hex hashHex) then Throw (JsError "Destination hash must be hexadecimal") else
      Ok (mkRemote (lower hashHex) group repo (group ++ [47] ++ repo))
  | _ => Throw (JsError "Invalid rngit remote URL. Use rns://<hash>/<group>/<repo>")
  end.

Lemma read_remote_path u : url_ok u -> read_path (remote_path u) = Ok u.
Proof.
  intros Hu. pose proof (hash_segment u Hu) as Hs. destruct Hu as (Hl & Hh & Hlow & Hg & Hr & Hp).
  unfold read_path, remote_path. rewrite <- (app_nil_r (repo u)) at 1. rewrite path_segments by done. rewrite app_nil_r.
  destruct Hr as [Hr1 Hr2]. rewrite split_on_none by done. cbn [List.filter]. rewrite nonempty_true by done.
  rewrite Hl, Hh. cbn [Z.eqb Pos.eqb negb DESTINATION_HASH_HEX_LENGTH]. rewrite Hlow, <- Hp. by destruct u.
Qed.

(** A hexadecimal first segment is not a scheme. *)
Lemma parse_path u : url_ok u -> parseRemoteUrl (remote_path u) = Ok u.
Proof.
  intros Hu. transitivity (read_path (remote_path u)); [|by apply read_remote_path].
  destruct Hu as (Hl & Hh & _). unfold parseRemoteUrl, remote_path.
  destruct (hashHex u) as [|c h]; [done|]. cbn [forallb] in Hh. apply andb_true_iff in Hh as [Hc Hh].
  rewrite bool_decide_eq_false_2 by done. replace (startsWith _ _) with false; cycle 1.
  { symmetry. unfold startsWith. apply bool_decide_eq_false. cbn. intros [= -> _]. by vm_compute in Hc. }
  replace (has_scheme _) with false; [done|]. symmetry. cbn [app has_scheme]. apply andb_false_iff. right.
  clear -Hh. induction h as [|x h IH]; cbn [app drop_while forallb] in *; [done|]. apply andb_true_iff in Hh as [Hx Hh].
  destruct (letter x || _) eqn:E; [by apply IH|]. exfalso. revert Hx E. unfold is_hex, hex_val, letter, digit.
  repeat case_match; bools; done || lia.
Qed.

Lemma parse_scheme u : url_ok u -> parseRemoteUrl (stringifyRemoteUrl u) = Ok u.
Proof.
  intros Hu. transitivity (read_path (remote_path u)); [|by apply read_remote_path]. unfold parseRemoteUrl, stringifyRemoteUrl.
  rewrite bool_decide_eq_false_2 by done. by rewrite startsWith_app.
Qed.

Lemma split_if_pieces p s : Forall (Forall (fun x => p x = false)) (split_if p s).
Proof.
  induction s as [|x s IH]; cbn [split_if]; [repeat constructor|]. destruct (p x) eqn:E; [by constructor|].
  destruct IH as [|w ws Hw Hws]; [by repeat constructor|]. constructor; [by constructor|done].
Qed.

Lemma path_segment_ok s w : In w (List.filter nonempty (split_on 47 s)) -> segment_ok w.
Proof.
  intros [Hin Hn]%filter_In. split; [intros ->; done|]. intros H47.
  pose proof (split_if_pieces (Z.eqb 47) s) as H. rewrite List.Forall_forall in H. specialize (H w Hin).
  rewrite List.Forall_forall in H. by specialize (H 47 H47).
Qed.

Lemma lower_hex s : forallb is_hex s = true ->
  forallb is_hex (lower s) = true /\ lower (lower s) = lower s /\ zlen (lower s) = zlen s.
Proof.
  unfold lower, zlen. rewrite length_map. induction s as [|c s IH]; [done|]. cbn [forallb map].
  intros [Hc Hs]%andb_true_iff. destruct (IH Hs) as (-> & -> & _). split; [|split; [|done]].
  - rewrite andb_true_r. revert Hc. unfold is_hex, hex_val. repeat case_match; bools; try done; lia.
  - f_equal. repeat case_match; bools; lia.
Qed.

(** a URL that is rendered is read as the same remote, and whatever is
    accepted is a remote of that kind, its hash in lower case. *)
Theorem url_roundtrip (u : RemoteUrl) :
  (url_ok u -> parseRemoteUrl (stringifyRemoteUrl u) = Ok u)
  /\ forall input, parseRemoteUrl input = Ok u -> url_ok u.
Proof.
  split.
  - apply parse_scheme.
  - intros input. unfold parseRemoteUrl. destruct (bool_decide (input = [])); [done|]. intros (rest & _ & H)%rbind_ok.
    destruct (List.filter nonempty (split_on 47 rest)) as [|h [|g [|r [|]]]] eqn:E; try done.
    assert (Hok : Forall segment_ok [h; g; r]).
    { apply List.Forall_forall. intros w Hw. apply (path_segment_ok rest). by rewrite E. }
    destruct (zlen h =? DESTINATION_HASH_HEX_LENGTH) eqn:Hl; [|done]. destruct (forallb is_hex h) eqn:Hh; [|done].
    cbn [negb] in H. injection H as <-. destruct (lower_hex h Hh) as (H1 & H2 & H3). inv Hok. inv H5. inv H7.
    unfold url_ok. cbn [hashHex group repo repoPath]. rewrite H3. bools. done.
Qed.
