(* ===== verification/GitRemote.v ===== *)
(** * GitRemote: git's operations through the whole bridge

    From the body of git's request over the node's answer to what git's client
    reads back: discovery, fetch and push. *)

From S2P Require Import Prelude Encoding JsMap Utf8 MsgPack JsString GitPkt GitPack GitBundle GitProtocol GitTransport GitTransportSpec GitPackSpec.
#[local] Open Scope Z_scope.

(** ** Classifying *)

(** What the URL parser makes of a placeholder URL: the path is kept as it
    is, which it is for characters that need no escape. *)
Definition placed (URL : jsstr -> option ParsedUrl) (url : jsstr) (u : RemoteUrl) (endpoint : jsstr) (service : option jsstr) : Prop :=
  URL url = Some (mkUrl (lit "rngit") ([47] ++ remote_path u ++ [47] ++ endpoint) service).

Lemma classify_placed URL url u endpoint service : url_ok u -> placed URL url u endpoint service ->
  fromPlaceholderHttpUrl URL url = Some u.
Proof.
  intros Hu H. pose proof (hash_segment u Hu) as Hh. pose proof Hu as (_ & _ & _ & Hg & Hr & _). unfold fromPlaceholderHttpUrl.
  rewrite H. cbn [host pathname]. rewrite bool_decide_eq_true_2 by done. cbn [negb].
  assert (E : List.filter nonempty (split_on 47 ([47] ++ remote_path u ++ [47] ++ endpoint))
    = hashHex u :: group u :: repo u :: List.filter nonempty (split_on 47 endpoint)).
  { pose proof (split_on_app 47 [] (remote_path u ++ [47] ++ endpoint) ltac:(tauto)) as E0. cbn [app] in E0. cbn [app].
    rewrite E0. cbn [List.filter]. replace (nonempty []) with false by done. unfold remote_path. rewrite <- !app_assoc.
    change (47 :: endpoint) with ([47] ++ endpoint). rewrite path_segments by done. do 2 f_equal. cbn [app].
    destruct Hr as [Hr1 Hr2]. rewrite split_on_app by done. cbn [List.filter]. by rewrite nonempty_true. }
  rewrite E. cbn [length]. replace (_ <? 3)%nat with false by done. cbn [take]. rewrite take_0. cbn [join].
  change (hashHex u ++ 47 :: group u ++ 47 :: repo u) with (remote_path u). by rewrite parse_path.
Qed.

Lemma classify_endpoint URL url u endpoint service : url_ok u -> placed URL url u endpoint service ->
  classifyRequest URL url
  = if bool_decide ([47] ++ endpoint = lit "/info/refs") then Ok (u, InfoRefs, service)
    else if bool_decide ([47] ++ endpoint = lit "/git-upload-pack") then Ok (u, UploadPack, None)
    else if bool_decide ([47] ++ endpoint = lit "/git-receive-pack") then Ok (u, ReceivePackEnd, None)
    else Throw (JsError "Unsupported rngit transport URL").
Proof.
  intros Hu H. unfold classifyRequest. rewrite (classify_placed URL url u endpoint service Hu H), H. cbn [pathname service_param].
  replace (drop _ _) with ([47] ++ endpoint); [done|]. symmetry.
  change ([47] ++ hashHex u ++ [47] ++ group u ++ [47] ++ repo u) with ([47] ++ remote_path u).
  rewrite app_assoc. apply drop_app_length.
Qed.

(** ** The refs of the wanted objects *)

Lemma by_sha_fold (all refs : jsmap jsstr) : forall m,
  (forall x, In x refs -> In x all) -> (forall s r, get s m = Some r -> In (r, s) all) ->
  let m' := fold_left (fun m '(ref, sha) =>
    match get sha m with
    | None => mset sha ref m
    | Some existing =>
        if startsWith (lit "refs/heads/") ref && negb (startsWith (lit "refs/heads/") existing) then mset sha ref m else m
    end) refs m in
  (forall s r, get s m' = Some r -> In (r, s) all)
  /\ (forall s, (exists r, get s m = Some r) \/ (exists r, In (r, s) refs) -> exists r, get s m' = Some r).
Proof.
  induction refs as [|[ref sha] refs IH]; intros m Hall Hm; cbn [fold_left].
  { split; [done|]. intros s [H|[r []]]. done. }
  set (m1 := match get sha m with None => _ | Some _ => _ end).
  assert (H1 : forall s r, get s m1 = Some r -> In (r, s) all).
  { intros s r. assert (Hset : get s (mset sha ref m) = Some r -> In (r, s) all).
    { destruct (decide (s = sha)) as [->|Hne].
      - rewrite get_mset_same. intros [= <-]. apply Hall. by left.
      - rewrite get_mset_other by done. apply Hm. }
    unfold m1. repeat case_match; auto. }
  assert (H2 : forall s, (exists r, get s m = Some r) \/ s = sha -> exists r, get s m1 = Some r).
  { intros s Hs. assert (Hset : exists r, get s (mset sha ref m) = Some r).
    { destruct (decide (s = sha)) as [->|Hne]; [exists ref; apply get_mset_same|]. rewrite get_mset_other by done. by destruct Hs. }
    unfold m1. destruct (get sha m) eqn:E; [|done]. case_match; [done|]. destruct Hs as [Hs| ->]; [done|]. by exists l. }
  destruct (IH m1) as [H3 H4]; [intros x Hx; apply Hall; by right|done|]. split; [done|].
  intros s [Hs|[r [[= -> ->]|Hr]]]; apply H4; [left; apply H2; by left|left; apply H2; by right|right; by exists r].
Qed.

Lemma wanted_refs_found l wants : Forall (fun w => exists ref, In (ref, w) (listed l)) wants ->
  exists refs, wantsToRefs (Some l) wants = Ok refs
  /\ Forall2 (fun w q => w_sha q = w /\ w_have q = None /\ In (w_ref q, w) (listed l)) wants refs.
Proof.
  intros H. unfold wantsToRefs. destruct (by_sha_fold (listed l) (listed l) [] (fun x Hx => Hx)) as [H1 H2]; [done|].
  fold (by_sha (listed l)) in H1, H2. induction H as [|w wants Hw _ IH]; [exists []; by split|].
  destruct IH as (refs & E & HF). destruct (H2 w (or_intror Hw)) as [ref Hr]. cbn [wanted_refs]. rewrite Hr, E. cbn [rbind].
  eexists. split; [done|]. constructor; [|done]. cbn. split; [done|]. split; [done|]. by apply H1.
Qed.

(** ** Fetch *)

Definition result_ok_metadata : value := VObj None [(lit "1", VInt RES_OK)].

Definition fetch_fields (refs : list WantedRef) (haves : list jsstr) : list (string * option value) :=
  [("refs"%string, Some (VArr (map wanted_value refs)));
   ("have"%string, match haves with [] => None | _ => Some (VArr (map VStr haves)) end)].

Lemma good_body r type b : concat (resp_body (good r type b)) = b.
Proof. apply chunks_concat; lia. Qed.

(** C4: an upload-pack request for objects that the node advertised asks the
    node once, for exactly the wanted objects under refs that name them and
    with every object the client has; of the bundle in the answer git's client
    reads, in side band 1, the pack made self-contained. *)
Theorem fetch_end_to_end (URL : jsstr -> option ParsedUrl) (sha1 deflate : bytes -> bytes)
    (store : option (jsstr -> result (jsstr * bytes))) (fuel : nat) (client : RngitClient) (force : bool)
    (u r : RemoteUrl) (l : Listing) (wants : list (jsstr * jsstr)) (haves : list jsstr) (req : Req)
    (rs : list (jsstr * jsstr)) (p fat : bytes) (node : list (jsstr * value) -> answer)
    (Hu : url_ok u) (Hurl : placed URL (url req) u (lit "git-upload-pack") None) (Hmethod : method req = lit "POST")
    (Hbody : body req = upload_body wants haves) (Hne : wants <> [])
    (Hwants : Forall (fun w => want_ok w /\ exists ref, In (ref, fst w) (listed l)) wants) (Hhaves : Forall oid_ok haves)
    (Hremote : remote client = Some r) (Hfuel : (length wants + length haves + 2 <= fuel)%nat)
    (Hnode : forall asked, node asked = Ok (VBin (buildBundle rs p), Some result_ok_metadata))
    (Hrs : Forall (fun '(sha, ref) => sha_ok sha /\ ref_ok ref) rs) (Hmagic : take 4 p = PACK_MAGIC) (Hlen : 32 <= zlen p)
    (Hfat : fattenPack sha1 deflate store fuel p = dret fat) :
  exists refs resp lines,
  run node [] (request URL sha1 deflate store fuel client force (Some l) req)
  = ([(PATH_FETCH, buildRequest (repoPath r) (fetch_fields refs haves))], (Some l, Some (Done resp)))
  /\ Forall2 (fun w q => w_sha q = w /\ w_have q = None /\ In (w_ref q, w) (listed l)) (map fst wants) refs
  /\ statusCode resp = 200
  /\ decodePktLines (concat (resp_body resp)) = dret (Some (lit "NAK" ++ [10]) :: lines) /\ band1 lines = fat.
Proof.
  destruct (wanted_refs_found l (map fst wants)) as (refs & Hrefs & HF).
  { apply Forall_map. eapply Forall_impl; [exact Hwants|]. by intros w [_ H]. }
  destruct (upload_response_read fat) as (b & lines & Hb & Hd & _ & Hband).
  exists refs, (good req (lit "application/x-git-upload-pack-result") b), lines.
  split; [|split; [done|]; split; [done|]; rewrite good_body; by split].
  unfold request. rewrite (classify_endpoint URL _ u _ _ Hu Hurl). cbn [bool_decide]. 
  replace (bool_decide ([47] ++ lit "git-upload-pack" = lit "/info/refs")) with false by done.
  replace (bool_decide ([47] ++ lit "git-upload-pack" = lit "/git-upload-pack")) with true by done.
  unfold upload. rewrite Hmethod. rewrite bool_decide_eq_true_2 by done. cbn [negb]. rewrite Hbody, upload_request_read; cycle 1.
  { eapply Forall_impl; [exact Hwants|]. by intros w [H _]. }
  { done. } { done. }
  unfold dret at 1. destruct wants as [|w wants]; [done|]. cbn [map] in Hrefs |- *. rewrite Hrefs. unfold fetch, ask. rewrite Hremote.
  cbn [cbind run app]. rewrite Hnode. cbn [fetch_response]. replace (resultCodeFromMetadata result_ok_metadata) with (Some (VInt 0)) by done.
  replace (is_res_ok (Some (VInt 0))) with true by done. unfold upload_pack.
  rewrite bundle_roundtrip by done. cbn [dbind dret GitBundle.pack]. rewrite Hfat. cbn [dbind dret]. rewrite Hb. done.
Qed.

(** ** Discovery *)

(** A listing as nodes write it: a line for each ref, then the head. *)
Definition list_text (rs : list (jsstr * jsstr)) (head : jsstr) : jsstr :=
  concat (map (fun '(sha, ref) => ref_line sha ref) rs) ++ [64] ++ head ++ lit " HEAD".

Definition listed_ok '((sha, ref) : jsstr * jsstr) : Prop :=
  sha_ok sha /\ ref <> [] /\ wf_utf16 ref = true /\ Forall (fun x => is_space x = false) ref /\ ref <> lit "HEAD".

Lemma not_space_no x s c : Forall (fun x => is_space x = false) s -> is_space c = true -> x = c -> ~ In x s.
Proof. intros H Hc -> Hin. rewrite List.Forall_forall in H. by rewrite (H c Hin) in Hc. Qed.

Lemma list_line_ref l sha ref : listed_ok (sha, ref) ->
  list_line l (sha ++ [32] ++ ref) = mkListing (head_ref l) (mset ref sha (listed l)).
Proof.
  intros (Hs & Hne & _ & Hsp & Hh). destruct (ref_line_head sha ref Hs) as (Ha & _ & Hn & Hi & _). unfold list_line.
  assert (Ht : trim (sha ++ [32] ++ ref) = sha ++ [32] ++ ref).
  { apply trim_trimmed. split.
    - destruct Hs as (H1 & H2 & _). destruct sha; [done|]. inv H2. by apply printable_space.
    - rewrite !rev_app_distr. destruct (rev ref) as [|x t] eqn:E; [apply (f_equal (@rev Z)) in E; by rewrite rev_involutive in E|].
      rewrite List.Forall_forall in Hsp. apply Hsp. rewrite in_rev, E. by left. }
  rewrite Ht, bool_decide_eq_false_2, Ha, Hi by done. cbn [andb]. rewrite take_app_length.
  replace (drop (S (length sha)) (sha ++ [32] ++ ref)) with ref by (rewrite <- Nat.add_1_r, <- drop_drop, drop_app_length; done).
  by rewrite bool_decide_eq_false_2.
Qed.

Lemma list_line_head l head : list_line l ([64] ++ head ++ lit " HEAD") = mkListing (Some head) (listed l).
Proof.
  unfold list_line. rewrite trim_trimmed; cycle 1.
  { split; [done|]. by rewrite !rev_app_distr. }
  rewrite bool_decide_eq_false_2 by done. replace (startsWith (lit "@") _) with true by done.
  replace (endsWith _ _) with true; cycle 1.
  { symmetry. unfold endsWith. rewrite !rev_app_distr, <- app_assoc. apply startsWith_app. }
  cbn [andb]. f_equal. f_equal. rewrite !length_app. change (length [64]) with 1%nat. change (length (lit " HEAD")) with 5%nat.
  unfold slice. cbn [app drop]. rewrite drop_0. apply take_app_length'. lia.
Qed.

Lemma list_text_read rs head : Forall listed_ok rs -> ~ In 10 head -> forall l,
  fold_left list_line (split_on 10 (list_text rs head)) l = mkListing (Some head) (refs_of rs (listed l)).
Proof.
  intros Hrs Hh. unfold list_text. induction Hrs as [|[sha ref] rs Hr Hrs IH]; intros l; cbn [map concat].
  - rewrite split_on_none; [apply list_line_head|]. cbn [app]. intros [E|[Hin|Hin]%in_app_or]; [done|by apply Hh|].
    by vm_compute in Hin; intuition congruence.
  - pose proof Hr as (Hs & _ & _ & Hsp & _).
    set (C := concat (map (fun '(sha, ref) => ref_line sha ref) rs)) in *. set (tail := [64] ++ head ++ lit " HEAD") in *.
    replace ((ref_line sha ref ++ C) ++ tail) with ((sha ++ [32] ++ ref) ++ 10 :: (C ++ tail))
      by (unfold ref_line; by rewrite <- !app_assoc).
    rewrite split_on_app.
    + cbn [fold_left]. rewrite (list_line_ref l sha ref Hr). apply IH.
    + intros [Hin|[E|Hin]]%in_app_or; [by apply (sha_ok_no _ _ Hs) in Hin; [|lia]|done|by apply (not_space_no 10 ref 10) in Hin].
Qed.

Lemma list_text_wf rs head : Forall listed_ok rs -> wf_utf16 head = true -> wf_str (list_text rs head).
Proof.
  intros Hrs Hh. split.
  - unfold list_text. apply wf_utf16_app.
    + induction Hrs as [|[sha ref] rs (Hs & _ & Hw & _) _ IH]; [done|]. cbn [map concat]. apply wf_utf16_app; [|done].
      unfold ref_line. repeat (apply wf_utf16_app; [done || by apply ascii_wf, sha_ok_ascii|]). done.
    + apply wf_utf16_app; [done|]. by apply wf_utf16_app.
  - unfold list_text. destruct Hrs as [|[sha ref] rs (Hs & _) _]; [done|]. cbn [map concat]. unfold ref_line.
    pose proof (sha_ok_ascii _ Hs) as Ha. destruct Hs as [Hn _]. destruct sha; [done|]. inv Ha. cbn. unfold BOM. intros [= ->]. lia.
Qed.

(** What git reads of an advertised line: an id and a name, up to the
    capabilities or the end of the line. *)
Fixpoint until_end (s : jsstr) : jsstr :=
  match s with
  | [] => []
  | c :: s => if (c =? 0) || (c =? 10) then [] else c :: until_end s
  end.

Definition read_advert (s : jsstr) : option (jsstr * jsstr) :=
  let s := until_end s in (fun sep => (take sep s, drop (S sep) s)) <$> index_of 32 s.

(** The refs that a listing offers, its head first. *)
Definition offered (l : Listing) : list (jsstr * jsstr) :=
  match match head_ref l with Some h => get h (listed l) | None => None end with
  | Some sha => [(sha, lit "HEAD")]
  | None => []
  end ++ map (fun '(ref, sha) => (sha, ref)) (listed l).

Lemma until_end_app s c t : ~ In 0 s -> ~ In 10 s -> c = 0 \/ c = 10 -> until_end (s ++ c :: t) = s.
Proof.
  intros H0 H10 Hc. induction s as [|x s IH]; cbn [until_end app].
  - by destruct Hc as [-> | ->].
  - rewrite (proj2 (Z.eqb_neq x 0)), (proj2 (Z.eqb_neq x 10)) by (intros ->; firstorder). cbn [orb]. f_equal.
    apply IH; firstorder.
Qed.

Lemma read_advert_line sha ref c t : sha_ok sha -> ~ In 0 ref -> ~ In 10 ref -> c = 0 \/ c = 10 ->
  read_advert (sha ++ [32] ++ ref ++ c :: t) = Some (sha, ref).
Proof.
  intros Hs H0 H10 Hc. unfold read_advert. replace (sha ++ [32] ++ ref ++ c :: t) with ((sha ++ [32] ++ ref) ++ c :: t) by (by rewrite <- !app_assoc).
  rewrite until_end_app; [|..|done].
  - destruct (ref_line_head sha ref Hs) as (_ & _ & _ & Hi & _). rewrite Hi. cbn [fmap option_fmap option_map]. rewrite take_app_length.
    do 2 f_equal. rewrite <- Nat.add_1_r, <- drop_drop, drop_app_length. done.
  - intros [Hin|[E|Hin]]%in_app_or; [by apply (sha_ok_no _ _ Hs) in Hin; [|lia]|done|done].
  - intros [Hin|[E|Hin]]%in_app_or; [by apply (sha_ok_no _ _ Hs) in Hin; [|lia]|done|done].
Qed.

Lemma read_advertised suffix refs : (exists t, suffix = 0 :: t) ->
  Forall (fun '(ref, sha) => sha_ok sha /\ ~ In 0 ref /\ ~ In 10 ref) refs -> forall first,
  omap read_advert (advertised suffix first refs) = map (fun '(ref, sha) => (sha, ref)) refs.
Proof.
  intros [t Ht]. induction 1 as [|[ref sha] refs (Hs & H0 & H10) _ IH]; intros first; [done|]. cbn [advertised map omap list_omap].
  assert (E : read_advert (sha ++ [32] ++ ref ++ (if first then suffix else [10])) = Some (sha, ref)).
  { destruct first; [rewrite Ht|]; (apply read_advert_line; auto). }
  rewrite E. f_equal. apply IH.
Qed.

Lemma info_lines_read l : listed l <> [] ->
  Forall (fun '(ref, sha) => sha_ok sha /\ ~ In 0 ref /\ ~ In 10 ref) (listed l) ->
  omap read_advert (info_lines l) = offered l.
Proof.
  intros Hne Hok. assert (Hsuf : exists t, caps_suffix l = 0 :: t) by (by eexists).
  unfold info_lines, offered. destruct (listed l) as [|e refs] eqn:El; [done|]. rewrite <- El in *.
  destruct (match head_ref l with Some h => get h (listed l) | None => None end) as [sha|] eqn:Eh.
  - cbn [omap list_omap app]. destruct Hsuf as [t Ht].
    assert (Hs : sha_ok sha).
    { destruct (head_ref l) as [h|]; [|done]. apply get_In in Eh. rewrite List.Forall_forall in Hok. by destruct (Hok _ Eh). }
    change (lit " HEAD" ++ caps_suffix l) with ([32] ++ lit "HEAD" ++ caps_suffix l). rewrite Ht.
    rewrite (read_advert_line sha (lit "HEAD") 0 t) by (done || (vm_compute; intuition congruence) || by left). f_equal.
    rewrite <- Ht. apply read_advertised; [by exists t|done].
  - by apply read_advertised.
Qed.

Lemma refs_of_In rs x : forall m, In x (refs_of rs m) -> In x m \/ In (snd x, fst x) rs.
Proof.
  induction rs as [|[sha ref] rs IH]; intros m H; [by left|]. cbn in H. destruct (IH _ H) as [Hm|Hr]; [|by right; right].
  apply In_mset in Hm as [-> |Hm]; [right; by left|by left].
Qed.

Lemma refs_of_nonempty rs : forall m, m <> [] \/ rs <> [] -> refs_of rs m <> [].
Proof.
  induction rs as [|[sha ref] rs IH]; intros m H; [by destruct H|]. apply IH. left.
  intros E. apply (f_equal (get ref)) in E. by rewrite get_mset_same in E.
Qed.

(** Discovery: an info/refs request asks the node for its listing, with write
    access asked for when git means to push, keeps the listing, and advertises
    exactly the refs of it, the head first; later requests are answered from
    what was kept. *)
Theorem discovery_end_to_end (URL : jsstr -> option ParsedUrl) (sha1 deflate : bytes -> bytes)
    (store : option (jsstr -> result (jsstr * bytes))) (fuel : nat) (client : RngitClient) (force : bool)
    (u r : RemoteUrl) (rs : list (jsstr * jsstr)) (head service : jsstr) (req : Req) (md : option value)
    (node : list (jsstr * value) -> answer) (l := mkListing (Some head) (refs_of rs []))
    (Hu : url_ok u) (Hurl : placed URL (url req) u (lit "info/refs") (Some service)) (Hmethod : method req = lit "GET")
    (Hservice : service = lit "git-upload-pack" \/ service = lit "git-receive-pack") (Hremote : remote client = Some r)
    (Hnode : forall asked, node asked = Ok (VBin (0 :: utf8_encode (list_text rs head)), md))
    (Hne : rs <> []) (Hrs : Forall listed_ok rs) (Hnul : Forall (fun '(_, ref) => ~ In 0 ref) rs)
    (Hhead : wf_utf16 head = true /\ ~ In 10 head)
    (Hfits : Forall (fun t => zlen (utf8_encode t) <= 65531) (info_lines l)) :
  exists resp texts,
  run node [] (request URL sha1 deflate store fuel client force None req)
  = ([(PATH_LIST, buildRequest (repoPath r) [("for_push"%string, Some (VBool (bool_decide (service = lit "git-receive-pack"))))])],
     (Some l, Some (Done resp)))
  /\ run node [] (request URL sha1 deflate store fuel client force (Some l) req) = ([], (Some l, Some (Done resp)))
  /\ statusCode resp = 200
  /\ decodePktLines (concat (resp_body resp))
     = dret (Some (utf8_encode (lit "# service=" ++ service ++ [10])) :: None :: map (fun t => Some (utf8_encode t)) texts ++ [None])
  /\ omap read_advert texts = offered l.
Proof.
  set (lines := Some (utf8_encode (lit "# service=" ++ service ++ [10])) :: None :: map (fun t => Some (utf8_encode t)) (info_lines l) ++ [None]).
  assert (Hok : Forall pkt_ok lines).
  { constructor; [by destruct Hservice as [-> | ->]; vm_compute|]. constructor; [done|]. apply Forall_app_2; [|by constructor].
    by apply Forall_map. }
  assert (Hb : buildInfoRefsResponse l service = Ok (concat (map pkt_frame lines))).
  { unfold buildInfoRefsResponse. pose proof (frames_ok lines) as H. rewrite bool_decide_eq_true_2 in H by done.
    rewrite <- H. unfold lines. cbn [map]. by rewrite map_app, map_map. }
  set (resp := good req (lit "application/x-" ++ service ++ lit "-advertisement") (concat (map pkt_frame lines))).
  exists resp, (info_lines l). split; [|split; [|split; [done|split]]].
  3:{ unfold resp. rewrite good_body. by apply pkt_lines_frames. }
  3:{ apply info_lines_read.
      - unfold l. cbn [listed]. apply refs_of_nonempty. by right.
      - apply List.Forall_forall. intros [ref sha] Hin. unfold l in Hin. cbn [listed] in Hin.
        destruct (refs_of_In rs _ _ Hin) as [[]|Hr]. cbn [fst snd] in Hr. rewrite List.Forall_forall in Hrs, Hnul.
        destruct (Hrs _ Hr) as (Hs & _ & _ & Hsp & _). split; [done|]. split; [by apply (Hnul _ Hr)|]. by apply (not_space_no 10 ref 10 Hsp). }
  - unfold request. rewrite (classify_endpoint URL _ u _ _ Hu Hurl), bool_decide_eq_true_2 by done. unfold info_refs.
    rewrite Hmethod, bool_decide_eq_true_2 by done. cbn [negb default]. replace (bool_decide _ || bool_decide _) with true; cycle 1.
    { symmetry. apply orb_true_iff. by destruct Hservice as [-> | ->]; [left|right]. }
    cbn [negb]. unfold list_refs, ask. rewrite Hremote. cbn [cbind run app]. rewrite Hnode. unfold parseListResponse.
    cbn [parseStatusResponse obind]. rewrite utf8_decode_encode by (destruct Hhead; by apply list_text_wf). replace (negb (0 =? RES_OK)) with false by done.
    rewrite list_text_read by (done || tauto). cbn [listed]. unfold id. fold l. unfold settle. rewrite Hb. cbn [rbind].
    f_equal. f_equal. rewrite (bool_decide_ext (Some service = Some (lit "git-receive-pack")) (service = lit "git-receive-pack")); [done|].
    split; [by injection 1|by intros ->].
  - unfold request. rewrite (classify_endpoint URL _ u _ _ Hu Hurl), bool_decide_eq_true_2 by done. unfold info_refs.
    rewrite Hmethod, bool_decide_eq_true_2 by done. cbn [negb default]. replace (bool_decide _ || bool_decide _) with true; cycle 1.
    { symmetry. apply orb_true_iff. by destruct Hservice as [-> | ->]; [left|right]. }
    cbn [negb run]. unfold settle, id. rewrite Hb. done.
Qed.

(** ** Push *)

Definition push_fields (c : Command) (force : bool) (bundle : bytes) : list (string * option value) :=
  [("local_ref"%string, Some (VStr (c_ref c))); ("remote_ref"%string, Some (VStr (c_ref c)));
   ("force"%string, Some (VBool force)); ("bundle"%string, Some (VBin bundle))].

(** What is reported for the status byte and the message of the node. *)
Definition status_report (c : Command) (status : Z) (message : bytes) : Report :=
  if status =? RES_OK then mkReport (c_ref c) true None
  else mkReport (c_ref c) false (Some (collapse false (message_of (RngitStatusError status (utf8_decode message))))).

Lemma report_fits rp sideband : zlen (utf8_encode (report_line rp)) <= 65500 ->
  exists b, buildReportStatusResponse [rp] sideband = Ok b.
Proof.
  intros H. unfold buildReportStatusResponse. cbn [map app frames].
  assert (Hf : forall t, zlen (utf8_encode t) <= 65500 -> exists b, report_frame sideband t = Ok b).
  { intros t Ht. unfold report_frame, text_line. rewrite encodePktLine_frame by lia. cbn [rbind]. destruct sideband; [|by eexists].
    rewrite encodePktLine_frame; [by eexists|]. cbn [pkt_frame]. rewrite zlen_cons, zlen_app. change (zlen (pkt_header _)) with 4. lia. }
  destruct (Hf (lit "unpack ok" ++ [10])) as [b1 ->]; [vm_compute; congruence|]. destruct (Hf _ H) as [b2 ->]. by eexists.
Qed.

Lemma command_ref_ok c : command_ok c -> sha_ok (c_new c) /\ ref_ok (c_ref c).
Proof.
  intros (_ & [Hn _] & _ & Hw & Hr). split; [done|]. split; [done|]. intros H10. rewrite List.Forall_forall in Hr.
  by destruct (Hr 10 H10).
Qed.

(** C9: a receive-pack request with a command and a pack asks the node once,
    with a bundle in which it finds the pack byte for byte under the one ref
    of the command; git's client reads ok for that ref exactly when the node
    answered OK, and the message of the node otherwise. *)
Theorem push_end_to_end (URL : jsstr -> option ParsedUrl) (sha1 deflate : bytes -> bytes)
    (store : option (jsstr -> result (jsstr * bytes))) (fuel : nat) (client : RngitClient) (force : bool)
    (u r : RemoteUrl) (cache : option Listing) (c : Command) (caps : jsstr) (p : bytes) (req : Req)
    (status : Z) (message : bytes) (node : list (jsstr * value) -> answer)
    (Hu : url_ok u) (Hurl : placed URL (url req) u (lit "git-receive-pack") None) (Hmethod : method req = lit "POST")
    (Hbody : body req = receive_body c caps p) (Hc : command_ok c) (Hcaps : wf_utf16 caps = true)
    (Hlong : zlen (utf8_encode (command_text c caps)) <= 65531) (Hnew : c_new c <> replicate 40 48)
    (Hmagic : take 4 p = PACK_MAGIC) (Hlen : 32 <= zlen p) (Hcount : 0 < packObjectCount p)
    (Hremote : remote client = Some r) (Hfuel : (2 <= fuel)%nat)
    (Hnode : forall asked, node asked = Ok (VBin (status :: message), None))
    (Hfits : zlen (utf8_encode (report_line (status_report c status message))) <= 65500) :
  exists bundle resp lines,
  run node [] (request URL sha1 deflate store fuel client force cache req)
  = ([(PATH_PUSH, buildRequest (repoPath r) (push_fields c force bundle))], (cache, Some (Done resp)))
  /\ parseBundle bundle = dret (mkBundle [(c_ref c, c_new c)] [] p)
  /\ statusCode resp = 200
  /\ decodePktLines (concat (resp_body resp)) = dret (lines ++ [None])
  /\ report_lines_read (uses_sideband (words (trim caps))) lines
     = dret (map Some (report_payloads [status_report c status message])).
Proof.
  set (sideband := uses_sideband (words (trim caps))). destruct (report_fits _ sideband Hfits) as [b Hb].
  destruct (report_response_read _ _ _ Hb) as (lines & Hd & Hread).
  exists (buildBundle [(c_new c, c_ref c)] p), (good req (lit "application/x-git-receive-pack-result") b), lines.
  split; [|split; [|split; [done|]; rewrite good_body; by split]].
  2:{ apply (bundle_roundtrip [(c_new c, c_ref c)]); [|done|done]. constructor; [|constructor]. by apply command_ref_ok. }
  unfold request. rewrite (classify_endpoint URL _ u _ _ Hu Hurl).
  replace (bool_decide ([47] ++ lit "git-receive-pack" = lit "/info/refs")) with false by done.
  replace (bool_decide ([47] ++ lit "git-receive-pack" = lit "/git-upload-pack")) with false by done.
  replace (bool_decide ([47] ++ lit "git-receive-pack" = lit "/git-receive-pack")) with true by done.
  unfold receive. rewrite Hmethod, bool_decide_eq_true_2 by done. cbn [negb]. rewrite Hbody, receive_request_read by done.
  assert (Hp : (length p =? 0)%nat = false) by (apply Nat.eqb_neq; unfold zlen in Hlen; lia). rewrite Hp. unfold dret at 1.
  cbn [commands rp_pack capabilities]. unfold update. rewrite bool_decide_eq_false_2 by done. rewrite (proj2 (Z.ltb_lt _ _)) by done.
  unfold push, ask. rewrite Hremote. cbn [cbind run app]. rewrite Hnode.
  assert (Hrep : report_of c (status_response "Invalid push response from rngit node" (VBin (status :: message)))
                 = status_report c status message).
  { unfold status_response, status_report. cbn [parseStatusResponse obind]. by destruct (status =? RES_OK). }
  rewrite Hrep. fold sideband. rewrite Hb. done.
Qed.

(** ** An example *)

Definition a_remote : RemoteUrl := mkRemote (replicate 32 97) (lit "group") (lit "repo") (lit "group/repo").
Definition an_oid (c : Z) : jsstr := replicate 40 c.
Definition a_listing : Listing := mkListing (Some (lit "refs/heads/main")) [(lit "refs/heads/main", an_oid 97)].
Definition a_url (endpoint : jsstr) : jsstr := lit "http://rngit/" ++ remote_path a_remote ++ [47] ++ endpoint.

(** A URL parser that knows the URLs of the example. *)
Definition a_parser (url : jsstr) : option ParsedUrl :=
  if startsWith (lit "http://rngit/") url then Some (mkUrl (lit "rngit") (drop 12 url) None) else None.

Lemma a_remote_ok : url_ok a_remote.
Proof.
  split; [reflexivity|]. split; [reflexivity|]. split; [reflexivity|]. unfold segment_ok. cbn [group repo repoPath a_remote].
  split; [|split]; [..|reflexivity]; (split; [discriminate|vm_compute; intuition congruence]).
Qed.

Definition fetch_req : Req :=
  mkReq (lit "POST") (a_url (lit "git-upload-pack")) (upload_body [(an_oid 97, lit " side-band-64k" ++ [10])] [an_oid 98]).

Definition a_thin_node (asked : list (jsstr * value)) : answer :=
  Ok (VBin (buildBundle [(an_oid 97, lit "refs/heads/main")] toy_thin), Some result_ok_metadata).

Lemma fetch_end_to_end_witness : exists refs resp lines fat,
  run a_thin_node [] (request a_parser toy_sha1 stored_deflate toy_store 1000 (mkClient (Some a_remote)) false (Some a_listing) fetch_req)
  = ([(PATH_FETCH, buildRequest (lit "group/repo") (fetch_fields refs [an_oid 98]))], (Some a_listing, Some (Done resp)))
  /\ fattenPack toy_sha1 stored_deflate toy_store 1000 toy_thin = dret fat /\ fat <> toy_thin
  /\ decodePktLines (concat (resp_body resp)) = dret (Some (lit "NAK" ++ [10]) :: lines) /\ band1 lines = fat.
Proof.
  assert (E : exists fat, fattenPack toy_sha1 stored_deflate toy_store 1000 toy_thin = dret fat /\ fat <> toy_thin).
  { eexists. split; [vm_compute; reflexivity|]. vm_compute. discriminate. }
  destruct E as (fat & Hfat & Hne).
  destruct (fetch_end_to_end a_parser toy_sha1 stored_deflate toy_store 1000 (mkClient (Some a_remote)) false a_remote a_remote
    a_listing [(an_oid 97, lit " side-band-64k" ++ [10])] [an_oid 98] fetch_req [(an_oid 97, lit "refs/heads/main")] toy_thin fat a_thin_node)
    as (refs & resp & lines & H1 & _ & _ & H2 & H3).
  - exact a_remote_ok.
  - vm_compute. reflexivity.
  - reflexivity.
  - reflexivity.
  - discriminate.
  - constructor; [|constructor]. split; [apply (bool_decide_unpack _); vm_compute; exact I|]. eexists. left. reflexivity.
  - apply (bool_decide_unpack _). vm_compute. exact I.
  - reflexivity.
  - vm_compute. repeat constructor.
  - reflexivity.
  - constructor; [|constructor]. split; [apply (bool_decide_unpack _); vm_compute; exact I|]. split; [reflexivity|].
    vm_compute. intuition congruence.
  - reflexivity.
  - vm_compute. discriminate.
  - exact Hfat.
  - exists refs, resp, lines, fat. split; [exact H1|]. split; [exact Hfat|]. split; [exact Hne|]. split; [exact H2|exact H3].
Defined.

Definition a_command : Command := mkCommand (an_oid 48) (an_oid 97) (lit "refs/heads/main").
Definition a_pack : bytes := [80; 65; 67; 75; 0; 0; 0; 2; 0; 0; 0; 1] ++ replicate 20 0.

Definition push_req : Req :=
  mkReq (lit "POST") (a_url (lit "git-receive-pack")) (receive_body a_command (lit " report-status side-band-64k") a_pack).

Lemma push_end_to_end_witness : exists bundle resp lines,
  run (fun _ => Ok (VBin [1; 110; 111], None)) []
    (request a_parser toy_sha1 stored_deflate toy_store 1000 (mkClient (Some a_remote)) true None push_req)
  = ([(PATH_PUSH, buildRequest (lit "group/repo") (push_fields a_command true bundle))], (None, Some (Done resp)))
  /\ parseBundle bundle = dret (mkBundle [(lit "refs/heads/main", an_oid 97)] [] a_pack)
  /\ decodePktLines (concat (resp_body resp)) = dret (lines ++ [None])
  /\ report_lines_read true lines
     = dret [Some (lit "unpack ok" ++ [10]); Some (lit "ng refs/heads/main no" ++ [10])].
Proof.
  destruct (push_end_to_end a_parser toy_sha1 stored_deflate toy_store 1000 (mkClient (Some a_remote)) true a_remote a_remote
    None a_command (lit " report-status side-band-64k") a_pack push_req 1 [110; 111] (fun _ => Ok (VBin [1; 110; 111], None)))
    as (bundle & resp & lines & H1 & H2 & _ & H3 & H4).
  - exact a_remote_ok.
  - vm_compute. reflexivity.
  - reflexivity.
  - reflexivity.
  - split; [apply (bool_decide_unpack _); vm_compute; exact I|]. split; [apply (bool_decide_unpack _); vm_compute; exact I|].
    split; [discriminate|]. split; [reflexivity|]. apply (bool_decide_unpack _). vm_compute. exact I.
  - reflexivity.
  - vm_compute. discriminate.
  - vm_compute. discriminate.
  - reflexivity.
  - vm_compute. discriminate.
  - vm_compute. reflexivity.
  - reflexivity.
  - repeat constructor.
  - reflexivity.
  - vm_compute. discriminate.
  - exists bundle, resp, lines. split; [exact H1|]. split; [exact H2|]. split; [exact H3|]. exact H4.
Defined.
